(* ===== verification/_CoqProject ===== *)
-Q . S2P
Prelude.v
Text.v
Decimal.v
Rational.v
Money.v
Types.v
Json.v
Tiers.v
Fx.v
FxSizing.v
Risk.v
Orders.v
TakeProfit.v
Maps.v
Queue.v
Outbox.v
Coordinator.v
Delivery.v
Strategy.v
Reservations.v
Recovery.v
Admission.v
History.v
Safety.v
Paper.v
Ledger.v
FillAccounting.v
Reporting.v
ChannelRisk.v
Guards.v
Table.v
OutboxStore.v
AiUsage.v
AiProvider.v
Filters.v
Snapshot.v
Ingress.v
Xml.v
SignalContract.v
SignalSchema.v
StandardContract.v
Workflow.v
WorkflowTopology.v
WorkflowFallback.v
WorkflowCompile.v
NormalJson.v
WorkflowPlans.v
WorkflowRuns.v
WorkflowMoves.v
WorkflowChains.v
WorkflowHistory.v
WorkflowRevisions.v
WorkflowStored.v
WorkflowUndo.v
