(* ===== verification/Prelude.v ===== *)
(** * TSX Core: verification of the trading core

    TSX Core forwards trading signals from Telegram channels through a durable
    queue and executes them on exchange accounts.  This library models the part
    of [src/] (TypeScript) that decides: exact money arithmetic, planning and
    admission of orders, the state of orders, positions and ledgers, the
    adaptive risk of a channel, and the concurrency of queues and mutations.

    ** Reading the model

    A throwing function returns a [result]; [throw] and [throw_code] carry the
    message and the code of the error.  A class is a record of its fields and one
    function per method; its asynchronous callbacks are events of a step relation.
    A function over database rows is a function of the rows, or of a record of
    tables when it also writes them; a throw inside a transaction returns the
    tables it started from.  A union of literals is an inductive type, an
    interface a record, an optional property an [option].  Times, counts and
    leverage are integers ([isSafeInteger] where the code checks it); amounts are
    decimal texts, as in the code.  Text is a [string] of code units below 256:
    the code's patterns admit only ASCII.  An untyped value is a [jsval].

    What is not under [src/] is a parameter: [sha256] for the digest of
    [node:crypto], [clock] and [now] for [Date.now()], [uuid] for [randomUUID].
    Witnesses instantiate them with concrete functions.  Where only the identity
    of a JSON text matters, the column holds the value it parses to, and a
    parameter ([encode], [configText]) stands for the text that is hashed.

    ** Parts

    - Foundations.  [Prelude] (results, [mapM], sorting), [Text] (JavaScript
      strings, [BigInt] literals), [Json] (untyped values, [JSON.stringify]),
      [Maps] (a JavaScript [Map] whose order of insertion matters).
    - Exact arithmetic.  [Decimal] ([trading_decimal.ts]), [Rational]
      ([trading_rational.ts]), [Money] ([trading_money_value.ts],
      [trading_money_risk.ts], [trading_channel_risk_math.ts]).
      [Decimal.decimal_operations_exact] relates every operation to the integer a
      text means in units of 10^-18; a [MoneyValue] [contains] the rationals it
      may stand for, and [Money.money_arithmetic_sound] holds for all of them.
    - Planning.  [Types] ([trading_types.ts]), [Tiers] ([trading_leverage_tiers.ts]),
      [Fx] and [FxSizing] ([trading_fx_contract.ts], [trading_fx_quotes.ts],
      [trading_fx_sizing.ts]), [Strategy] ([trading_strategy.ts]), [Risk]
      ([trading_risk.ts]).  A created plan is bounded in loss and commitment,
      opens and protects one position.
    - Admission and safety.  [Reservations] ([trading_risk_reservations.ts],
      [trading_fx_risk.ts]) commits the loss of what is open and can still open;
      [Admission] ([trading_leverage_admission.ts]) re-proves a plan against fresh
      evidence; [Safety] ([trading_protection.ts], [trading_safety_proof.ts])
      gates entries, releases and closures; [ChannelRisk]
      ([trading_channel_risk.ts]) moves a channel or workflow path between tiers.
    - Orders and positions.  [Orders] ([trading_state_transitions.ts],
      [trading_ownership.ts], [trading_entry_commitment.ts]) merges evidence;
      [TakeProfit] ([trading_take_profit.ts], [trading_take_profit_recovery.ts])
      resizes targets to owned quantity; [Paper] ([paper_exchange.ts]) is the
      simulated exchange.
    - Accounting.  [Ledger] ([trading_money_ledger.ts]), [FillAccounting]
      ([trading_fill_accounting.ts]), [Reporting] ([trading_money_reporting.ts]).
    - Recovery.  [Recovery] ([trading_recovery_schedule.ts]) plans provider
      reads; [History] ([exchange_history_contract.ts],
      [exchange_history_coverage.ts]) traverses the history pages.
    - Concurrency.  [Queue] ([queue.ts]), [Outbox] ([outbox_scheduler.ts], proved
      against the class [BoundedQueue] that [Queue] implements), [Coordinator]
      ([trading_mutation_coordinator.ts], [trading_cancel_budget.ts]), [Delivery]
      ([delivery_tracker.ts]).
    - Service guards.  [Guards] ([tdlib_retry.ts], [crash_guard.ts],
      [clock_guard.ts], [slo_tracker.ts]).
    - Forwarding.  [Table] (the queries over rows), [Filters] ([filters.ts]),
      [Snapshot] ([ingress_contracts.ts], [nonSecretConfigSnapshot]), [Ingress]
      ([incoming_work_repository.ts]) and [OutboxStore] (the outbox of [db.ts]).
    - Parsing by the AI service.  [AiUsage] (the daily budget of [db.ts]) and
      [AiProvider] ([signal_parser.ts], [ai_usage_reservations.ts]), proved
      against the class [Budget] that [AiUsage] implements.
    - Signals.  [Xml] (the parser of [signal_schema.ts]), [SignalContract]
      ([signal_contract.ts]), [SignalSchema] (the validators of
      [signal_schema.ts]) and [StandardContract], which relates the two.

    - Workflows ([workflow_repository.ts], [workflow_fallback_policy.ts]).
      [Workflow] validates and lays out a graph, [WorkflowTopology] reads it as
      adjacency and rejects cycles, [WorkflowFallback] reads the fallback chains
      of a channel, [WorkflowCompile] walks every channel to its accounts and
      compiles a path per candidate.  [WorkflowPlans] lists the intents a message
      of a pinned workflow asks for; [WorkflowRuns] stores them as signal runs and
      fallback runs, [WorkflowMoves] describes the moves of such a run, and
      [WorkflowChains] proves that the operations make only these moves.
      [NormalJson] is the normal form of the JSON the repository stores and
      hashes, whose text is uniquely decodable.  [WorkflowHistory] is the undo and
      redo stacks, [WorkflowRevisions] the impact, activation, saving, undo and
      redo of revisions; [WorkflowStored] proves that what is activated reads
      back, [WorkflowUndo] what holds over every sequence of these calls.

    A signal becomes a plan in [Risk] (sized by [FxSizing], bounded by [Tiers] and
    the percentage [ChannelRisk] answers), is admitted by [Admission], [Safety] and
    [Reservations] under the ownership of [Coordinator], its orders live in
    [Orders], [TakeProfit] or [Paper], and its fills are posted by
    [FillAccounting] to [Ledger], whose events [Reporting] and, for the weekly
    evaluation, [ChannelRisk] read.

    Before that, a Telegram message is accepted with a [Snapshot] of the
    configuration by [Ingress], classified by [Filters] or a workflow, grouped
    with its album, and handed to [OutboxStore], whose pending tasks [Outbox]
    schedules on [Queue].  A task whose message is parsed calls [AiProvider],
    whose answer [SignalSchema] validates; [WorkflowPlans] gives the accounts and
    paths the signal is meant for, and [Risk] plans each intent of the run.

    ** Groups of theorems

    Exactness of arithmetic ([Decimal], [Rational], [Money], [FillAccounting]);
    bounds on what a plan risks ([Risk], [Tiers], [FxSizing], [Reservations],
    [ChannelRisk]); soundness of proofs and gates ([Admission], [Safety],
    [ChannelRisk], [Coordinator]); invariants over every sequence of calls or
    events ([Paper], [Ledger], [ChannelRisk], [Orders], [Queue], [Outbox],
    [Coordinator], [History], [OutboxStore], [AiUsage], [Ingress]); refinements
    of abstract specifications ([Recovery] against the executor's request
    contract, [Ledger.snapshot_accounts_for_all], the fallback runs of
    [WorkflowChains] against a state machine of phases); round trips
    ([SignalContract], [Workflow]); no message lost, sent twice or left waiting
    ([OutboxStore], [Ingress], where a task counts only if its execution finds
    the message); spending that is always accounted for
    ([AiProvider], [AiUsage]); only sound signals are executable, and a text
    means one tree ([SignalSchema], [Xml], [SignalContract], [StandardContract]);
    a workflow means its routes: what is compiled is exactly what the graph
    connects ([WorkflowCompile.compiled_routes_exact]), along chains that end and
    share no account ([WorkflowFallback], [WorkflowTopology], [Workflow]);
    a chain of accounts trades on one of them at a time, and moves on only as its
    policy allows ([WorkflowChains]); revisions stay intact, undo and redo are
    inverse, and no executable path changes unconfirmed ([WorkflowUndo]);
    progress ([Ingress]: due albums are closed).  Each property's witness evaluates the model on a concrete input.

    ** Fuel and bounds

    The XML tokenizer runs on the length of its text ([Xml.token_loop_fuel]).
    The tier solver runs on the loop bound of the source
    ([Tiers.tier_solver_correct]: it is never exhausted); [canonical] of [Fx] on
    its depth bound; digit printing on a fuel proved sufficient in [Text].
    The cycle check visits every node at most once, the search for accounts
    follows every edge at most once, a fallback chain has at most as many links
    as there are successors, and a walk passes every column at most once: with
    the fuel chosen from these numbers none of them runs out, which the theorems
    of the [Workflow] files include.
    Everything else is structural.  Limits of the code (36 integer digits, 256
    rational digits, 10,000 terms, list lengths) are kept as they are.

    ** Not modelled

    The database layer and the repositories ([db.ts], [trading_repository.ts],
    [workflow_repository.ts] and others) beyond the rows the modelled functions
    read and write; the orchestration of [trading_engine.ts] and [forwarder.ts];
    exchange and Telegram clients ([ccxt_exchange.ts], [tdlib]); the web server,
    the MCP server and the user interface; backup, secrets, metrics and logs; the
    Python executor.  The regular-expression engine ([Filters], [SignalContract],
    [SignalSchema]), the call of a provider and the validation of its answer
    ([AiProvider]), the plans of a pinned workflow and the stored resources a
    message pins ([Ingress]), [Number] and [localeCompare] ([WorkflowCompile],
    [Workflow]) are parameters.  Of the workflow repository, the editing of
    resources, the simulation, the listing of runs and the migration of legacy
    routes are not modelled.  Where a theorem needs it, it assumes of these
    parameters what is documented of them: that digests do not collide
    ([WorkflowPlans.signal_plans_partition]) or are ordered by [localeCompare] as
    by code units ([WorkflowUndo]), that [Number] answers numbers, that generated
    identifiers differ, and that a task enqueued from outside the ingress has an
    identifier of its own ([Ingress]).  The grounding of a signal in its
    source text needs Unicode normalization and classes, which code units below
    256 do not give.  Open as well: the account-log lane of recovery, the
    accounting evidence contract, the storage of signals and duplicates.
    Prototype and own-property checks on untyped objects hold of every record
    and list here and are not repeated. *)

From stdpp Require Export base list gmap strings sorting.
From Stdlib Require Export ZArith Lia.
From Stdlib Require Ascii String.

Export (notations) ListNotations.

Set Default Proof Using "Type".

(** ** Results: a throwing TypeScript function *)

(** A thrown error: [code] is the [code] field of the error class the source
    throws ([""] for a plain [Error]), [message] its message. *)
Record error := mkError { code : string; message : string }.

#[export] Instance error_eq_dec : EqDecision error.
Proof. solve_decision. Defined.

(** A call returns or throws. *)
Inductive result (A : Type) :=
| Ok (a : A)
| Err (e : error).
Arguments Ok {A} a.
Arguments Err {A} e.

#[export] Instance result_eq_dec {A} `{EqDecision A} : EqDecision (result A).
Proof. solve_decision. Defined.

#[export] Instance result_ret : MRet result := @Ok.
#[export] Instance result_bind : MBind result := λ A B f r,
  match r with Ok a => f a | Err e => Err e end.
#[export] Instance result_fmap : FMap result := λ A B f r,
  match r with Ok a => Ok (f a) | Err e => Err e end.

(** [throw new Error(msg)] and the coded error classes. *)
Definition throw {A} (msg : string) : result A := Err (mkError "" msg).
Definition throw_code {A} (c msg : string) : result A := Err (mkError c msg).

(** [if (!condition) throw ...] *)
Definition require (b : bool) (e : error) : result unit :=
  if b then Ok tt else Err e.

(** [try { r } catch { h }] *)
Definition try_catch {A} (r : result A) (h : error → result A) : result A :=
  match r with Ok a => Ok a | Err e => h e end.

Definition is_ok {A} (r : result A) : bool :=
  match r with Ok _ => true | Err _ => false end.

(** The operators of the source that TypeScript code is full of: [o ?? d] is the
    value of an optional property or a default. *)
Declare Scope ts_scope.
Delimit Scope ts_scope with ts.
Notation "o ?? d" := (default d o) (at level 60, right associativity, only parsing) : ts_scope.

Lemma bind_Ok {A B} (r : result A) (f : A → result B) b :
  r ≫= f = Ok b ↔ ∃ a, r = Ok a ∧ f a = Ok b.
Proof.
  destruct r as [a|e]; simpl; split.
  - intros H. by exists a.
  - intros (a' & [= ->] & H). done.
  - done.
  - intros (? & ? & ?). done.
Qed.

Lemma fmap_Ok {A B} (r : result A) (f : A → B) b :
  f <$> r = Ok b ↔ ∃ a, r = Ok a ∧ b = f a.
Proof. destruct r; split; naive_solver. Qed.

Lemma require_Ok b e u : require b e = Ok u ↔ b = true.
Proof. destruct b, u; simpl; split; naive_solver. Qed.

(** Peel every [= Ok _] hypothesis down to its calls. *)
Ltac ok_step :=
  match goal with
  | H : Ok _ = Ok _ |- _ => injection H as H; try subst
  | H : mret _ = Ok _ |- _ => injection H as H; try subst
  | H : Err _ = Ok _ |- _ => discriminate H
  | H : Ok _ = Err _ |- _ => discriminate H
  | H : throw _ = Ok _ |- _ => discriminate H
  | H : throw_code _ _ = Ok _ |- _ => discriminate H
  | H : require _ _ = Ok _ |- _ => rewrite require_Ok in H
  | H : (_ ≫= _) = Ok _ |- _ =>
      let a := fresh "v" in let E := fresh "E" in
      apply bind_Ok in H; destruct H as (a & E & H)
  | H : (_ <$> _) = Ok _ |- _ =>
      let a := fresh "v" in let E := fresh "E" in
      apply fmap_Ok in H; destruct H as (a & E & H); try subst
  | H : (let '_ := ?x in _) = Ok _ |- _ => destruct x eqn:?
  | H : (if ?b then _ else _) = Ok _ |- _ => destruct b eqn:?
  | H : match ?x with _ => _ end = Ok _ |- _ => destruct x eqn:?
  end.
Ltac ok_inv := repeat ok_step.

(** ** [mapM] over results *)
Section MapM.
  Context {A B : Type} (f : A → result B).

Lemma mapM_Ok l k : mapM f l = Ok k ↔ Forall2 (λ x y, f x = Ok y) l k.
  Proof.
    revert k. induction l as [|x l IH]; intros k; simpl.
    - split; [intros [= <-]; constructor | by inversion 1].
    - split.
      + intros H. ok_inv. constructor; [done|]. by apply IH.
      + inversion 1 as [|? y ? k' Hx Hl]; subst. rewrite Hx. simpl.
        apply IH in Hl. by rewrite Hl.
  Qed.

Lemma mapM_Ok_length l k : mapM f l = Ok k → length k = length l.
  Proof. intros H%mapM_Ok. symmetry. by eapply Forall2_length. Qed.
End MapM.

(** ** JavaScript numbers the code treats as integers *)
Definition MAX_SAFE_INTEGER : Z := 9007199254740991.

(** [Number.isSafeInteger] on an integral number. *)
Definition isSafeInteger (z : Z) : bool :=
  (- MAX_SAFE_INTEGER <=? z)%Z && (z <=? MAX_SAFE_INTEGER)%Z.

Lemma isSafeInteger_true z :
  isSafeInteger z = true ↔ (- MAX_SAFE_INTEGER <= z <= MAX_SAFE_INTEGER)%Z.
Proof. unfold isSafeInteger. rewrite andb_true_iff, !Z.leb_le. lia. Qed.

(** ** Sums of integers *)
Fixpoint sumZ (l : list Z) : Z :=
  match l with [] => 0 | a :: l' => a + sumZ l' end%Z.

Lemma sumZ_app l k : (sumZ (l ++ k) = sumZ l + sumZ k)%Z.
Proof. induction l as [|a l IH]; cbn; [done|]. rewrite IH. lia. Qed.

Lemma sumZ_nonneg l : Forall (Z.le 0) l → (0 <= sumZ l)%Z.
Proof. induction 1; cbn; lia. Qed.

Lemma sumZ_Permutation l k : l ≡ₚ k → sumZ l = sumZ k.
Proof. induction 1; cbn; lia. Qed.

(** ** Totals over a table *)
Section Total.
Context {K V : Type} `{Countable K} (f : V → Z).

(** [SELECT SUM(f) FROM m] *)
Definition total (m : gmap K V) : Z := sumZ (map (λ kv, f kv.2) (map_to_list m)).

Lemma total_empty : total ∅ = 0%Z.
Proof. unfold total. by rewrite map_to_list_empty. Qed.

Lemma total_insert (m : gmap K V) k v : m !! k = None → (total (<[k:=v]> m) = f v + total m)%Z.
Proof. intros Hk. unfold total. rewrite (sumZ_Permutation _ _ (fmap_Permutation _ _ _ (map_to_list_insert _ _ v Hk))). done. Qed.

Lemma total_update (m : gmap K V) k v v' : m !! k = Some v → (total (<[k:=v']> m) = total m - f v + f v')%Z.
Proof.
  intros Hk. rewrite <-insert_delete_eq, total_insert by apply lookup_delete_eq.
  rewrite <-(insert_delete_id m k v Hk) at 2. rewrite total_insert by apply lookup_delete_eq. lia.
Qed.

Lemma total_nonneg (m : gmap K V) : (∀ k v, m !! k = Some v → (0 <= f v)%Z) → (0 <= total m)%Z.
Proof.
  intros Hf. apply sumZ_nonneg, Forall_map, Forall_forall. intros [k v] Hin%elem_of_map_to_list. by apply (Hf k).
Qed.

Lemma total_zero (m : gmap K V) : (∀ k v, m !! k = Some v → f v = 0%Z) → total m = 0%Z.
Proof.
  intros Hf. unfold total. assert (Forall (λ kv : K * V, f kv.2 = 0%Z) (map_to_list m)) as Hall.
  { apply Forall_forall. intros [k v] Hin%elem_of_map_to_list. by apply (Hf k). }
  induction Hall as [|kv l Hkv _ IH]; [done|]. cbn. rewrite Hkv, IH. done.
Qed.

(** One entry is at most the total of nonnegative ones. *)
Lemma total_ge (m : gmap K V) k v : (∀ k v, m !! k = Some v → (0 <= f v)%Z) → m !! k = Some v → (f v <= total m)%Z.
Proof.
  intros Hf Hk. rewrite <-(insert_delete_id m k v Hk), total_insert by apply lookup_delete_eq.
  enough (0 <= total (delete k m))%Z by lia. apply total_nonneg. intros k' v'. rewrite lookup_delete_Some. naive_solver.
Qed.
End Total.

(** The rows left when the ones of [ids] are deleted. *)
Lemma foldr_delete_lookup {K A} `{Countable K} (ids : list K) (m : gmap K A) k : foldr delete m ids !! k = if bool_decide (k ∈ ids) then None else m !! k.
Proof.
  induction ids as [|i ids IH]; cbn; [done|]. destruct (decide (k = i)) as [->|Hne].
  - rewrite lookup_delete_eq, bool_decide_true by left. done.
  - rewrite lookup_delete_ne, IH by done. rewrite (bool_decide_ext (k ∈ i :: ids) (k ∈ ids)); [done|]. rewrite elem_of_cons. naive_solver.
Qed.

(** ** [Array.prototype.sort] with a numeric key: a stable insertion sort *)
Section SortBy.
Context {A : Type} (key : A → Z).

Fixpoint insert_by (x : A) (l : list A) : list A :=
  match l with
  | [] => [x]
  | y :: l' => if (key x <? key y)%Z then x :: l else y :: insert_by x l'
  end.

(** The elements are inserted from the left, each after its equals. *)
Definition sort_by (l : list A) : list A := fold_left (λ acc x, insert_by x acc) l [].

Lemma insert_by_Permutation x l : insert_by x l ≡ₚ x :: l.
Proof.
  induction l as [|y l IH]; cbn; [done|]. destruct (key x <? key y)%Z; [done|]. rewrite IH. apply perm_swap.
Qed.

Lemma sort_by_Permutation l : sort_by l ≡ₚ l.
Proof.
  unfold sort_by. enough (∀ acc, fold_left (λ acc x, insert_by x acc) l acc ≡ₚ acc ++ l) as H by apply H.
  induction l as [|x l IH]; intros acc; cbn; [by rewrite app_nil_r|].
  rewrite IH, insert_by_Permutation. cbn. by rewrite Permutation_middle.
Qed.

Lemma insert_by_sorted x l : StronglySorted (λ a b, (key a <= key b)%Z) l →
  StronglySorted (λ a b, (key a <= key b)%Z) (insert_by x l).
Proof.
  induction 1 as [|y l Hl IH Hy]; cbn; [repeat constructor|].
  destruct (Z.ltb_spec (key x) (key y)).
  - constructor; [by constructor|]. constructor; [lia|]. eapply Forall_impl; [exact Hy|]. cbn. lia.
  - constructor; [done|]. rewrite insert_by_Permutation. constructor; [lia|done].
Qed.

Lemma sort_by_sorted l : StronglySorted (λ a b, (key a <= key b)%Z) (sort_by l).
Proof.
  unfold sort_by. enough (∀ acc, StronglySorted (λ a b, (key a <= key b)%Z) acc →
    StronglySorted (λ a b, (key a <= key b)%Z) (fold_left (λ acc x, insert_by x acc) l acc)) as H by (apply H; constructor).
  induction l as [|x l IH]; intros acc Hacc; cbn; [done|]. apply IH. by apply insert_by_sorted.
Qed.

(** A sorted list is left as it is. *)
Lemma sort_by_id l : StronglySorted (λ a b, (key a <= key b)%Z) l → sort_by l = l.
Proof.
  unfold sort_by. enough (∀ acc, StronglySorted (λ a b, (key a <= key b)%Z) (acc ++ l) →
    fold_left (λ acc x, insert_by x acc) l acc = acc ++ l) as H by apply (H []).
  induction l as [|x l IH]; intros acc Hacc; cbn [fold_left]; [by rewrite app_nil_r|].
  assert (insert_by x acc = acc ++ [x]) as ->.
  { clear IH. induction acc as [|y acc IH]; [done|]. cbn. cbn in Hacc. apply StronglySorted_inv in Hacc as [Hs Hf].
    rewrite Forall_app, Forall_cons in Hf. destruct Hf as (_ & Hyx & _).
    destruct (Z.ltb_spec (key x) (key y)); [lia|]. f_equal. by apply IH. }
  rewrite IH; rewrite <-app_assoc; done.
Qed.
End SortBy.

(** ** Sorting texts

    A sort by the code units of a key. *)
Section SortText.
Context {A : Type} (key : A → string).
Fixpoint insert_text (x : A) (l : list A) : list A :=
  match l with
  | [] => [x]
  | y :: l' => if String.ltb (key x) (key y) then x :: y :: l' else y :: insert_text x l'
  end.
Definition sort_text (l : list A) : list A := fold_left (λ acc x, insert_text x acc) l [].
End SortText.

Lemma insert_text_Permutation {A} (key : A → string) x l : insert_text key x l ≡ₚ x :: l.
Proof. induction l as [|y l IH]; cbn; [done|]. destruct (String.ltb _ _); [done|]. rewrite IH. apply Permutation_swap. Qed.

Lemma sort_text_Permutation {A} (key : A → string) l : sort_text key l ≡ₚ l.
Proof.
  unfold sort_text. enough (∀ acc, fold_left (λ acc x, insert_text key x acc) l acc ≡ₚ acc ++ l) as H by apply H.
  induction l as [|x l IH]; intros acc; cbn; [by rewrite app_nil_r|]. rewrite IH, insert_text_Permutation. cbn. apply Permutation_middle.
Qed.

(** ** Sorting with a comparator

    [sort_with compare] is the stable sort of [Array.prototype.sort]. *)
Section SortWith.
Context {A : Type} (compare : A → A → Z).
Fixpoint insert_with (x : A) (l : list A) : list A :=
  match l with
  | [] => [x]
  | y :: l' => if (compare x y <? 0)%Z then x :: y :: l' else y :: insert_with x l'
  end.
Definition sort_with (l : list A) : list A := fold_left (λ acc x, insert_with x acc) l [].

Lemma insert_with_Permutation x l : insert_with x l ≡ₚ x :: l.
Proof. induction l as [|y l IH]; cbn; [done|]. destruct (_ <? _)%Z; [done|]. rewrite IH. apply Permutation_swap. Qed.

Lemma sort_with_Permutation l : sort_with l ≡ₚ l.
Proof.
  unfold sort_with. enough (∀ acc, fold_left (λ acc x, insert_with x acc) l acc ≡ₚ acc ++ l) as H by apply H.
  induction l as [|x l IH]; intros acc; cbn; [by rewrite app_nil_r|]. rewrite IH, insert_with_Permutation. cbn. apply Permutation_middle.
Qed.

(** A comparator that orders consistently, as [sort] demands. *)
Definition consistent : Prop :=
  (∀ a b, (compare a b < 0)%Z → (0 <= compare b a)%Z) ∧ (∀ a b c, (0 <= compare b a)%Z → (0 <= compare c b)%Z → (0 <= compare c a)%Z).

Lemma insert_with_sorted x l : consistent → StronglySorted (λ a b, (0 <= compare b a)%Z) l → StronglySorted (λ a b, (0 <= compare b a)%Z) (insert_with x l).
Proof.
  intros [Hasym Htrans] Hs. induction Hs as [|y l Hs IH Hf]; cbn; [by repeat constructor|].
  destruct (Z.ltb_spec (compare x y) 0) as [H|H].
  - constructor; [by constructor|]. constructor; [by apply Hasym|]. eapply Forall_impl; [exact Hf|]. cbn. intros z Hz. by eapply Htrans; [apply Hasym|].
  - constructor; [exact IH|]. rewrite insert_with_Permutation. by constructor.
Qed.

Lemma sort_with_sorted l : consistent → StronglySorted (λ a b, (0 <= compare b a)%Z) (sort_with l).
Proof.
  intros Hc. unfold sort_with. enough (∀ acc, StronglySorted (λ a b, (0 <= compare b a)%Z) acc →
    StronglySorted (λ a b, (0 <= compare b a)%Z) (fold_left (λ acc x, insert_with x acc) l acc)) as H by (apply H; constructor).
  induction l as [|x l IH]; intros acc Hacc; cbn; [done|]. apply IH. by apply insert_with_sorted.
Qed.

Lemma sort_with_id l : StronglySorted (λ a b, (0 <= compare b a)%Z) l → sort_with l = l.
Proof.
  unfold sort_with. enough (∀ acc, StronglySorted (λ a b, (0 <= compare b a)%Z) (acc ++ l) →
    fold_left (λ acc x, insert_with x acc) l acc = acc ++ l) as H by apply (H []).
  induction l as [|x l IH]; intros acc Hacc; cbn [fold_left]; [by rewrite app_nil_r|].
  assert (insert_with x acc = acc ++ [x]) as ->.
  { clear IH. induction acc as [|y acc IH]; [done|]. cbn. cbn in Hacc. apply StronglySorted_inv in Hacc as [Hs Hf].
    rewrite Forall_app, Forall_cons in Hf. destruct Hf as (_ & Hyx & _).
    destruct (Z.ltb_spec (compare x y) 0); [lia|]. f_equal. by apply IH. }
  rewrite IH; rewrite <-app_assoc; done.
Qed.

(** On elements the comparator orders by a key, the sort is the sort by that key. *)
Lemma sort_with_key (key : A → Z) l :
  (∀ a b, a ∈ l → b ∈ l → (compare a b <? 0)%Z = (key a <? key b)%Z) → sort_with l = sort_by key l.
Proof.
  intros H. unfold sort_with, sort_by.
  enough (∀ k acc, k ⊆ l → acc ⊆ l → fold_left (λ acc x, insert_with x acc) k acc = fold_left (λ acc x, insert_by key x acc) k acc) as G by (apply G; [done|intros z Hz; inversion Hz]).
  induction k as [|x k IH]; intros acc Hk Hacc; cbn; [done|].
  assert (insert_with x acc = insert_by key x acc) as ->.
  { assert (x ∈ l) as Hx by (apply Hk; left). clear IH Hk. induction acc as [|y acc IH]; cbn; [done|].
    rewrite H by (try done; apply Hacc; left). rewrite IH; [done|]. intros z Hz. apply Hacc. by right. }
  apply IH; [intros z Hz; apply Hk; by right|]. intros z. rewrite insert_by_Permutation. intros [->|Hz]%elem_of_cons; [apply Hk; left|by apply Hacc].
Qed.
End SortWith.

(** ** Automation

    [tsx] proves the side conditions the components share: results that
    return, safe integers, sums and sorted lists. *)
Create HintDb tsx.
#[export] Hint Resolve sort_by_Permutation sort_by_sorted sumZ_nonneg : tsx.
#[export] Hint Resolve -> isSafeInteger_true : tsx.
Create Rewrite HintDb tsx.
#[export] Hint Rewrite @bind_Ok @fmap_Ok require_Ok isSafeInteger_true : tsx.
