(* ===== verification/Text.v ===== *)
(** Text: the JavaScript string and BigInt-literal operations the decimal and
    rational components use.

    A JavaScript string is a [string] of code units below 256; [chars] and
    [of_chars] move to lists, on which [trim], [split], [padStart], [padEnd],
    [startsWith] and [slice] are written.  [to_digits] is [BigInt.toString] on
    a nonnegative value and [digits] is [BigInt(s)] on a string of digits; the
    lemmas show the two are inverse, and describe [to_digits] digit by digit
    ([fixed k n] are the [k] low digits of [n]).  Case conversion is complete for
    the code units below 256; [contains] and [join] are [includes] and [join]. *)

From S2P Require Import Prelude.
From Stdlib Require Ascii String.
Local Open Scope Z_scope.

Definition chars : string → list Ascii.ascii := String.list_ascii_of_string.
Definition of_chars : list Ascii.ascii → string := String.string_of_list_ascii.

Lemma chars_of_chars l : chars (of_chars l) = l.
Proof. apply String.list_ascii_of_string_of_list_ascii. Qed.

Lemma of_chars_chars s : of_chars (chars s) = s.
Proof. apply String.string_of_list_ascii_of_string. Qed.

Lemma of_chars_inj l k : of_chars l = of_chars k → l = k.
Proof. intros H. by rewrite <-(chars_of_chars l), <-(chars_of_chars k), H. Qed.

(** ** Whitespace, splitting and padding *)

(** The code units below 256 that [String.prototype.trim] and the regular
    expression class [\s] treat as white space. *)
Definition is_space (c : Ascii.ascii) : bool :=
  let n := Ascii.nat_of_ascii c in
  ((9 <=? n)%nat && (n <=? 13)%nat) || (n =? 32)%nat || (n =? 160)%nat.

Fixpoint drop_space (l : list Ascii.ascii) : list Ascii.ascii :=
  match l with
  | [] => []
  | c :: l' => if is_space c then drop_space l' else l
  end.

Definition trim (s : string) : string :=
  of_chars (reverse (drop_space (reverse (drop_space (chars s))))).

Definition has_space (s : string) : bool := existsb is_space (chars s).

(** [s.split(sep)] for a one-character separator. *)
Fixpoint split_chars (sep : Ascii.ascii) (l : list Ascii.ascii) : list (list Ascii.ascii) :=
  match l with
  | [] => [[]]
  | c :: l' =>
      if decide (c = sep) then [] :: split_chars sep l'
      else match split_chars sep l' with
           | [] => [[c]]
           | w :: ws => (c :: w) :: ws
           end
  end.

Definition zero_char : Ascii.ascii := Ascii.ascii_of_nat 48.
Definition dot_char : Ascii.ascii := Ascii.ascii_of_nat 46.
Definition minus_char : Ascii.ascii := Ascii.ascii_of_nat 45.

Definition padStart (n : nat) (l : list Ascii.ascii) : list Ascii.ascii :=
  replicate (n - length l) zero_char ++ l.
Definition padEnd (n : nat) (l : list Ascii.ascii) : list Ascii.ascii :=
  l ++ replicate (n - length l) zero_char.

(** [value.startsWith('-')] and [value.slice(1)]. *)
Definition starts_minus (s : string) : bool :=
  match chars s with c :: _ => bool_decide (c = minus_char) | [] => false end.
Definition slice1 (s : string) : string := of_chars (tail (chars s)).
Definition minus (s : string) : string := of_chars (minus_char :: chars s).

(** ** Digits *)
Definition is_digit (c : Ascii.ascii) : bool :=
  let n := Ascii.nat_of_ascii c in (48 <=? n)%nat && (n <=? 57)%nat.
Definition digit_val (c : Ascii.ascii) : Z := Z.of_nat (Ascii.nat_of_ascii c) - 48.
Definition digit_char (d : Z) : Ascii.ascii := Ascii.ascii_of_nat (48 + Z.to_nat d).

(** [BigInt(s)] on a string of decimal digits (the empty string is [0n]). *)
Definition digits (l : list Ascii.ascii) : Z :=
  fold_left (λ acc c, 10 * acc + digit_val c) l 0.

(** [n.toString()] for [0n <= n]; every step divides by ten, so the bit length
    of [n] is enough fuel ([to_digits_step] is the fuel-free equation). *)
Fixpoint to_digits_fuel (fuel : nat) (n : Z) (acc : list Ascii.ascii) : list Ascii.ascii :=
  match fuel with
  | O => acc
  | S fuel' =>
      let acc' := digit_char (n mod 10) :: acc in
      if n <? 10 then acc' else to_digits_fuel fuel' (n / 10) acc'
  end.
Definition to_digits (n : Z) : list Ascii.ascii :=
  to_digits_fuel (S (Z.to_nat (Z.log2 n))) n [].

(** The [k] low decimal digits of [n]. *)
Fixpoint fixed (k : nat) (n : Z) : list Ascii.ascii :=
  match k with
  | O => []
  | S k' => fixed k' (n / 10) ++ [digit_char (n mod 10)]
  end.

Lemma digit_char_digit d : 0 <= d < 10 → is_digit (digit_char d) = true.
Proof.
  intros Hd. assert (∃ n, d = Z.of_nat n ∧ (n < 10)%nat) as (n & -> & Hn).
  { exists (Z.to_nat d). lia. }
  unfold digit_char. rewrite Nat2Z.id. do 10 (destruct n as [|n]; [done|]). lia.
Qed.

Lemma digit_val_char d : 0 <= d < 10 → digit_val (digit_char d) = d.
Proof.
  intros Hd. assert (∃ n, d = Z.of_nat n ∧ (n < 10)%nat) as (n & -> & Hn).
  { exists (Z.to_nat d). lia. }
  unfold digit_char. rewrite Nat2Z.id. do 10 (destruct n as [|n]; [done|]). lia.
Qed.

Lemma digit_char_val c : is_digit c = true → digit_char (digit_val c) = c.
Proof.
  unfold is_digit, digit_char, digit_val. intros H%andb_true_iff.
  rewrite !Nat.leb_le in H.
  replace (48 + Z.to_nat (Z.of_nat (Ascii.nat_of_ascii c) - 48))%nat
    with (Ascii.nat_of_ascii c) by lia.
  apply Ascii.ascii_nat_embedding.
Qed.

Lemma digit_val_range c : is_digit c = true → 0 <= digit_val c < 10.
Proof.
  unfold is_digit, digit_val. intros H%andb_true_iff. rewrite !Nat.leb_le in H. lia.
Qed.

Lemma digit_char_zero : digit_char 0 = zero_char.
Proof. done. Qed.

(** ** [digits] is a positional value *)
Lemma digits_app l k : digits (l ++ k) = digits l * 10 ^ Z.of_nat (length k) + digits k.
Proof.
  unfold digits. rewrite fold_left_app. generalize (fold_left (λ acc c, 10 * acc + digit_val c) l 0) as a.
  induction k as [|c k IH]; intros a; cbn [fold_left length]; [lia|].
  rewrite IH, (IH (10 * 0 + digit_val c)), Nat2Z.inj_succ, Z.pow_succ_r by lia. lia.
Qed.

Lemma digits_singleton c : digits [c] = digit_val c.
Proof. unfold digits. cbn [fold_left]. lia. Qed.

Lemma digits_nonneg l : Forall (λ c, is_digit c = true) l → 0 <= digits l < 10 ^ Z.of_nat (length l).
Proof.
  induction l as [|c l IH] using rev_ind; [done|].
  intros [Hl Hc]%Forall_app. specialize (IH Hl).
  apply Forall_cons in Hc as [Hc _]. apply digit_val_range in Hc.
  rewrite digits_app, digits_singleton, length_app. cbn [length].
  replace (Z.of_nat (length l + 1)) with (Z.succ (Z.of_nat (length l))) by lia.
  rewrite Z.pow_succ_r by lia. lia.
Qed.

Lemma digits_zeros k : digits (replicate k zero_char) = 0.
Proof.
  induction k as [|k IH]; [done|].
  replace (S k) with (k + 1)%nat by lia. rewrite replicate_add, digits_app, IH. done.
Qed.

Lemma length_fixed k n : length (fixed k n) = k.
Proof. revert n; induction k as [|k IH]; intros n; simpl; [done|]. rewrite length_app, IH. simpl. lia. Qed.

Lemma fixed_digits k n : Forall (λ c, is_digit c = true) (fixed k n).
Proof.
  revert n; induction k as [|k IH]; intros n; simpl; [constructor|].
  apply Forall_app. split; [done|]. constructor; [|constructor].
  apply digit_char_digit, Z.mod_pos_bound. lia.
Qed.

Lemma digits_fixed k n : 0 <= n → digits (fixed k n) = n mod 10 ^ Z.of_nat k.
Proof.
  revert n; induction k as [|k IH]; intros n Hn; cbn [fixed].
  - unfold digits; simpl. change (10 ^ Z.of_nat 0) with 1. by rewrite Z.mod_1_r.
  - rewrite digits_app, digits_singleton, IH by (apply Z.div_pos; lia).
    rewrite digit_val_char by (apply Z.mod_pos_bound; lia).
    rewrite Nat2Z.inj_succ, Z.pow_succ_r by lia. cbn [length].
    change (10 ^ Z.of_nat 1) with 10.
    rewrite Z.rem_mul_r by (try apply Z.pow_nonzero; lia). lia.
Qed.

Lemma fixed_of_digits l : Forall (λ c, is_digit c = true) l → fixed (length l) (digits l) = l.
Proof.
  induction l as [|c l IH] using rev_ind; [done|].
  intros [Hl Hc]%Forall_app. apply Forall_cons in Hc as [Hc _].
  pose proof (digit_val_range _ Hc).
  rewrite length_app, Nat.add_comm. cbn [length Nat.add fixed].
  rewrite digits_app, digits_singleton. cbn [length]. change (10 ^ Z.of_nat 1) with 10.
  rewrite Z.div_add_l, (Z.div_small (digit_val c)), Z.add_0_r, IH by (done || lia).
  rewrite Z.add_comm, Z.mod_add, Z.mod_small by lia. by rewrite digit_char_val.
Qed.

Lemma fixed_mul_pow s k n :
  fixed (s + k) (n * 10 ^ Z.of_nat k) = fixed s n ++ replicate k zero_char.
Proof.
  revert n. induction k as [|k IH]; intros n.
  - rewrite Nat.add_0_r. change (10 ^ Z.of_nat 0) with 1. by rewrite Z.mul_1_r, app_nil_r.
  - rewrite Nat.add_succ_r. cbn [fixed].
    rewrite Nat2Z.inj_succ, Z.pow_succ_r by lia.
    replace (n * (10 * 10 ^ Z.of_nat k)) with (n * 10 ^ Z.of_nat k * 10) by lia.
    rewrite Z.div_mul, Z.mod_mul, IH by lia.
    by rewrite replicate_S_end, app_assoc.
Qed.

(** ** [to_digits] without fuel *)
Lemma log2_div10 n : 10 <= n → Z.log2 (n / 10) < Z.log2 n.
Proof.
  intros Hn. assert (0 < n / 10) by (apply Z.div_str_pos; lia).
  apply Z.log2_lt_pow2; [done|].
  pose proof (Z.log2_spec n ltac:(lia)) as [_ Hub].
  rewrite Z.pow_succ_r in Hub by apply Z.log2_nonneg.
  apply Z.div_lt_upper_bound; lia.
Qed.

Lemma to_digits_fuel_acc fuel n acc :
  to_digits_fuel fuel n acc = to_digits_fuel fuel n [] ++ acc.
Proof.
  revert n acc; induction fuel as [|fuel IH]; intros n acc; cbn [to_digits_fuel]; [done|].
  destruct (n <? 10); [done|]. rewrite IH, (IH _ [_]), <-app_assoc. done.
Qed.

Lemma to_digits_fuel_enough f1 f2 n : 0 <= n →
  (Z.to_nat (Z.log2 n) < f1)%nat → (Z.to_nat (Z.log2 n) < f2)%nat →
  to_digits_fuel f1 n [] = to_digits_fuel f2 n [].
Proof.
  revert f2 n; induction f1 as [|f1 IH]; intros [|f2] n Hn H1 H2; try lia.
  cbn [to_digits_fuel]. destruct (Z.ltb_spec n 10) as [|Hge]; [done|].
  rewrite to_digits_fuel_acc, (to_digits_fuel_acc f2).
  pose proof (log2_div10 n Hge). pose proof (Z.log2_nonneg (n / 10)).
  rewrite (IH f2); [done| |lia|lia]. apply Z.div_pos; lia.
Qed.

Lemma to_digits_small n : 0 <= n < 10 → to_digits n = [digit_char n].
Proof.
  intros Hn. unfold to_digits. cbn [to_digits_fuel].
  destruct (Z.ltb_spec n 10); [|lia]. by rewrite Z.mod_small.
Qed.

Lemma to_digits_step n : 10 <= n → to_digits n = to_digits (n / 10) ++ [digit_char (n mod 10)].
Proof.
  intros Hn. unfold to_digits. cbn [to_digits_fuel].
  destruct (Z.ltb_spec n 10); [lia|].
  rewrite to_digits_fuel_acc. f_equal.
  pose proof (log2_div10 n Hn). pose proof (Z.log2_nonneg (n / 10)).
  change (if n / 10 <? 10 then ?a else ?b) with (to_digits_fuel (S (Z.to_nat (Z.log2 (n / 10)))) (n / 10) []).
  apply to_digits_fuel_enough; [apply Z.div_pos; lia|lia|lia].
Qed.

(** Induction along the decimal digits of a nonnegative integer. *)
Lemma Z_digit_ind (P : Z → Prop) :
  (∀ n, 0 <= n < 10 → P n) → (∀ n, 10 <= n → P (n / 10) → P n) → ∀ n, 0 <= n → P n.
Proof.
  intros Hs Hi n Hn. apply (Z_lt_induction (λ n, 0 <= n → P n)); [|done|done].
  intros m IH Hm. destruct (Z.ltb_spec m 10); [by apply Hs|].
  apply Hi; [done|]. apply IH; [split; [apply Z.div_pos; lia|apply Z.div_lt; lia]|apply Z.div_pos; lia].
Qed.

Lemma to_digits_digits n : 0 <= n → Forall (λ c, is_digit c = true) (to_digits n).
Proof.
  revert n. apply Z_digit_ind; intros n Hn.
  - rewrite to_digits_small by done. repeat constructor. by apply digit_char_digit.
  - intros IH. rewrite to_digits_step by done. apply Forall_app. split; [done|].
    repeat constructor. apply digit_char_digit, Z.mod_pos_bound. lia.
Qed.

Lemma digits_to_digits n : 0 <= n → digits (to_digits n) = n.
Proof.
  revert n. apply Z_digit_ind; intros n Hn.
  - rewrite to_digits_small, digits_singleton by done. by apply digit_val_char.
  - intros IH. rewrite to_digits_step, digits_app, IH, digits_singleton by done.
    rewrite digit_val_char by (apply Z.mod_pos_bound; lia). cbn [length].
    change (10 ^ Z.of_nat 1) with 10. pose proof (Z.div_mod n 10). lia.
Qed.

Lemma to_digits_length n k : 0 <= n < 10 ^ Z.of_nat (S k) → (1 <= length (to_digits n) <= S k)%nat.
Proof.
  revert n; induction k as [|k IH]; intros n Hn.
  - rewrite to_digits_small by (change (10 ^ Z.of_nat 1) with 10 in Hn; lia). simpl; lia.
  - destruct (Z.ltb_spec n 10). { rewrite to_digits_small by lia. simpl; lia. }
    rewrite to_digits_step, length_app by lia. cbn [length].
    assert (0 <= n / 10 < 10 ^ Z.of_nat (S k)) as Hlt.
    { split; [apply Z.div_pos; lia|]. apply Z.div_lt_upper_bound; [lia|].
      rewrite <-Z.pow_succ_r by lia. rewrite <-Nat2Z.inj_succ. lia. }
    specialize (IH _ Hlt). lia.
Qed.

Lemma to_digits_length_ge n k : 10 ^ Z.of_nat k <= n → (S k <= length (to_digits n))%nat.
Proof.
  revert n; induction k as [|k IH]; intros n Hn.
  - pose proof (to_digits_length n (Z.to_nat n)) as H. apply H. split; [change (10 ^ Z.of_nat 0) with 1 in Hn; lia|].
    rewrite Nat2Z.inj_succ, Z2Nat.id by (change (10 ^ Z.of_nat 0) with 1 in Hn; lia).
    apply Z.lt_le_trans with (Z.succ n); [lia|]. apply Z.lt_le_incl, Z.pow_gt_lin_r; [lia|].
    change (10 ^ Z.of_nat 0) with 1 in Hn; lia.
  - rewrite Nat2Z.inj_succ, Z.pow_succ_r in Hn by lia.
    assert (0 < 10 ^ Z.of_nat k) by (apply Z.pow_pos_nonneg; lia).
    rewrite to_digits_step, length_app by lia. cbn [length].
    specialize (IH (n / 10)). enough (10 ^ Z.of_nat k <= n / 10) by lia.
    apply Z.div_le_lower_bound; lia.
Qed.

(** No leading zero, except for zero itself. *)
Lemma to_digits_head n : 0 < n → ∃ c l, to_digits n = c :: l ∧ c ≠ zero_char ∧ is_digit c = true.
Proof.
  intros Hn. assert (0 <= n) as H0 by lia. revert n H0 Hn.
  apply (Z_digit_ind (λ n, 0 < n → ∃ c l, to_digits n = c :: l ∧ c ≠ zero_char ∧ is_digit c = true)).
  - intros n Hr Hn. exists (digit_char n), []. rewrite to_digits_small by done.
    split_and!; [done| |by apply digit_char_digit].
    intros Hc. apply (f_equal digit_val) in Hc. rewrite digit_val_char in Hc by done. compute in Hc. lia.
  - intros n Hn IH _. destruct IH as (c & l & Heq & Hc); [apply Z.div_str_pos; lia|].
    exists c, (l ++ [digit_char (n mod 10)]). rewrite to_digits_step, Heq by done. done.
Qed.

(** Padding to [s + 1] places exposes the integer part and [s] fixed places. *)
Lemma padStart_to_digits s n : 0 <= n →
  padStart (S s) (to_digits n) = to_digits (n / 10 ^ Z.of_nat s) ++ fixed s n.
Proof.
  revert n. induction s as [|s IH]; intros n Hn.
  - change (10 ^ Z.of_nat 0) with 1. rewrite Z.div_1_r. cbn [fixed]. rewrite app_nil_r.
    unfold padStart. replace (1 - length (to_digits n))%nat with O; [done|].
    pose proof (to_digits_length_ge n 0). destruct (decide (n = 0)) as [->|]; [done|].
    change (10 ^ Z.of_nat 0) with 1 in *. lia.
  - cbn [fixed]. rewrite app_assoc.
    rewrite Nat2Z.inj_succ, Z.pow_succ_r, <-Z.div_div by (try apply Z.pow_pos_nonneg; lia).
    rewrite <-IH by (apply Z.div_pos; lia).
    unfold padStart. destruct (Z.ltb_spec n 10).
    + rewrite (Z.div_small n 10) by lia. rewrite Z.mod_small by lia.
      rewrite !to_digits_small by lia. cbn [length].
      replace (S (S s) - 1)%nat with (S s) by lia. replace (S s - 1)%nat with s by lia.
      rewrite digit_char_zero, <-replicate_S_end. done.
    + rewrite (to_digits_step n) by lia. rewrite length_app. cbn [length].
      replace (S (S s) - (length (to_digits (n / 10)) + 1))%nat with (S s - length (to_digits (n / 10)))%nat by lia.
      by rewrite app_assoc.
Qed.

(** ** Splitting and trimming text without separators *)
Lemma split_chars_none sep l : sep ∉ l → split_chars sep l = [l].
Proof.
  induction l as [|c l IH]; intros Hl; simpl; [done|].
  apply not_elem_of_cons in Hl as [Hc Hl]. rewrite IH by done. by case_decide.
Qed.

Lemma split_chars_one sep l k : sep ∉ l → split_chars sep (l ++ sep :: k) = l :: split_chars sep k.
Proof.
  induction l as [|c l IH]; intros Hl; simpl; [by case_decide|].
  apply not_elem_of_cons in Hl as [Hc Hl]. rewrite IH by done. by case_decide.
Qed.

(** [split_chars] loses nothing: joining the pieces gives the text back. *)
Fixpoint join_chars (sep : Ascii.ascii) (ws : list (list Ascii.ascii)) : list Ascii.ascii :=
  match ws with
  | [] => []
  | [w] => w
  | w :: ws' => w ++ sep :: join_chars sep ws'
  end.

Lemma join_split_chars sep l : join_chars sep (split_chars sep l) = l.
Proof.
  induction l as [|c l IH]; [done|]. cbn [split_chars].
  assert (split_chars sep l ≠ []) as Hne.
  { destruct l as [|d l']; cbn [split_chars]; [done|]. case_decide; [done|].
    by destruct (split_chars sep l'). }
  case_decide as Hc.
  - subst. destruct (split_chars sep l) eqn:E; [done|]. cbn [join_chars app]. by rewrite <-IH.
  - destruct (split_chars sep l) as [|w ws] eqn:E; [done|].
    destruct ws; cbn [join_chars app] in *; by rewrite <-IH.
Qed.

Lemma digit_not_space c : is_digit c = true → is_space c = false.
Proof.
  unfold is_digit, is_space. rewrite andb_true_iff, !Nat.leb_le. intros H.
  destruct (Nat.leb_spec (Ascii.nat_of_ascii c) 13); [lia|].
  rewrite andb_false_r. simpl.
  apply orb_false_iff. split; apply Nat.eqb_neq; lia.
Qed.

Lemma digits_no_char c l : is_digit c = false → Forall (λ c, is_digit c = true) l → c ∉ l.
Proof. intros Hc Hl Hin. rewrite Forall_forall in Hl. apply Hl in Hin. congruence. Qed.

Lemma drop_space_id l : Forall (λ c, is_space c = false) l → drop_space l = l.
Proof. intros H. destruct l as [|c l]; [done|]. apply Forall_cons in H as [Hc _]. cbn. by rewrite Hc. Qed.

Lemma trim_id s : Forall (λ c, is_space c = false) (chars s) → trim s = s.
Proof.
  intros H. unfold trim. rewrite (drop_space_id _ H), drop_space_id by by apply Forall_reverse.
  by rewrite reverse_involutive, of_chars_chars.
Qed.

Lemma drop_space_head l c r : drop_space l = c :: r → is_space c = false.
Proof. induction l as [|d l IH]; cbn; [done|]. destruct (is_space d) eqn:E; [done|]. by intros [= <- _]. Qed.

Lemma drop_space_suffix l : ∃ k, Forall (λ c, is_space c = true) k ∧ l = k ++ drop_space l.
Proof.
  induction l as [|c l IH]; cbn; [by exists []|]. destruct (is_space c) eqn:E; [|by exists []].
  destruct IH as (k & Hk & Hl). exists (c :: k). split; [by constructor|]. cbn. by rewrite <-Hl.
Qed.

(** What [trim] leaves: the text without white space around it. *)
Lemma trim_spec s : ∃ k k', Forall (λ c, is_space c = true) k ∧ Forall (λ c, is_space c = true) k' ∧ chars s = k ++ chars (trim s) ++ k'.
Proof.
  unfold trim. rewrite chars_of_chars. destruct (drop_space_suffix (chars s)) as (k & Hk & Es).
  destruct (drop_space_suffix (reverse (drop_space (chars s)))) as (k' & Hk' & Et). exists k, (reverse k'). split_and!; [done|by apply Forall_reverse|].
  rewrite Es at 1. f_equal. rewrite <-(reverse_involutive (drop_space (chars s))) at 1. rewrite Et at 1. by rewrite reverse_app.
Qed.

Lemma trim_ends s c r d r' : chars s = c :: r → is_space c = false → chars s = r' ++ [d] → is_space d = false → trim s = s.
Proof.
  intros E Hc E' Hd. unfold trim. assert (drop_space (chars s) = chars s) as -> by (rewrite E; cbn; by rewrite Hc).
  rewrite E' at 1. rewrite reverse_snoc. cbn [drop_space]. rewrite Hd. rewrite reverse_cons, reverse_involutive, <-E'. apply of_chars_chars.
Qed.

Lemma trim_trim s : trim (trim s) = trim s.
Proof.
  assert (chars (trim s) = reverse (drop_space (reverse (drop_space (chars s))))) as E by apply chars_of_chars.
  destruct (chars (trim s)) as [|c r] eqn:Ec; [by rewrite <-(of_chars_chars (trim s)), Ec|].
  destruct (exists_last (l := c :: r) ltac:(done)) as (r' & d & Er). apply (trim_ends _ c r d r'); try congruence.
  - destruct (drop_space_suffix (reverse (drop_space (chars s)))) as (k & _ & Ek). apply (f_equal reverse) in Ek.
    rewrite reverse_involutive, reverse_app, <-E in Ek. by eapply drop_space_head.
  - rewrite Er in E. apply (f_equal reverse) in E. rewrite reverse_involutive, reverse_snoc in E. by eapply drop_space_head.
Qed.

Lemma trim_subset s c : c ∈ chars (trim s) → c ∈ chars s.
Proof. destruct (trim_spec s) as (k & k' & _ & _ & ->). rewrite !elem_of_app. naive_solver. Qed.

Lemma chars_append s t : chars (s +:+ t) = chars s ++ chars t.
Proof. unfold chars. induction s as [|a s IH]; [done|]. change (String.String a s +:+ t) with (String.String a (s +:+ t)). cbn. by rewrite IH. Qed.

(** Two texts joined by a separator that the first does not contain determine
    their parts. *)
Lemma separated_inj (sep : Ascii.ascii) a b a' b' : sep ∉ a → sep ∉ a' → a ++ sep :: b = a' ++ sep :: b' → a = a' ∧ b = b'.
Proof.
  intros Ha Ha'. revert a' Ha'. induction a as [|c a IH]; intros [|c' a'] Ha' H; cbn in H; simplify_eq; [done|set_solver|set_solver|].
  rewrite elem_of_cons in Ha, Ha'. destruct (IH ltac:(naive_solver) a' ltac:(naive_solver) ltac:(eassumption)) as [-> ->]. done.
Qed.

(** ** Letters, case and substrings *)
Definition char_code (c : Ascii.ascii) : Z := Z.of_nat (Ascii.nat_of_ascii c).
Definition between (lo hi : Z) (c : Ascii.ascii) : bool := (lo <=? char_code c) && (char_code c <=? hi).
Definition is_upper : Ascii.ascii → bool := between 65 90.
Definition is_lower : Ascii.ascii → bool := between 97 122.
Definition is_alphanumeric (c : Ascii.ascii) : bool := is_upper c || is_lower c || is_digit c.

(** Case mapping of code units below 256; [toUpperCase] maps U+00DF to two
    letters, and the two letters whose upper case is above U+00FF are kept. *)
Definition upper_char (c : Ascii.ascii) : list Ascii.ascii :=
  if char_code c =? 223 then [Ascii.ascii_of_nat 83; Ascii.ascii_of_nat 83]
  else if is_lower c || between 224 246 c || between 248 254 c then [Ascii.ascii_of_nat (Ascii.nat_of_ascii c - 32)] else [c].
Definition lower_char (c : Ascii.ascii) : Ascii.ascii :=
  if is_upper c || between 192 214 c || between 216 222 c then Ascii.ascii_of_nat (Ascii.nat_of_ascii c + 32) else c.
Definition toUpperCase (s : string) : string := of_chars (flat_map upper_char (chars s)).
Definition toLowerCase (s : string) : string := of_chars (map lower_char (chars s)).

(** [startsWith], [includes] and [join] *)
Fixpoint is_prefix (p l : list Ascii.ascii) : bool :=
  match p, l with [], _ => true | a :: p', b :: l' => bool_decide (a = b) && is_prefix p' l' | _ :: _, [] => false end.
Fixpoint contains (p l : list Ascii.ascii) : bool := is_prefix p l || match l with [] => false | _ :: l' => contains p l' end.

Fixpoint join (separator : string) (l : list string) : string :=
  match l with [] => "" | [s] => s | s :: l' => s +:+ separator +:+ join separator l' end.

Lemma is_prefix_true p l : is_prefix p l = true ↔ ∃ k, l = p ++ k.
Proof.
  revert l. induction p as [|a p IH]; intros l; cbn; [split; [by exists l|done]|]. destruct l as [|b l]; [naive_solver|].
  rewrite andb_true_iff, bool_decide_eq_true, IH. split; [intros (-> & k & ->); by exists k|intros (k & [= -> ->]); naive_solver].
Qed.

Lemma contains_true p l : contains p l = true ↔ ∃ k k', l = k ++ p ++ k'.
Proof.
  revert p. induction l as [|a l IH]; intros p; cbn [contains]; rewrite orb_true_iff, is_prefix_true.
  - split; [intros [(k & ->)|]; [by exists [], k|done]|]. intros (k & k' & Hk). left. symmetry in Hk. apply app_nil in Hk as [_ Hk]. by exists k'.
  - rewrite IH. split.
    + intros [(k & ->)|(k & k' & ->)]; [by exists [], k|by exists (a :: k), k'].
    + intros ([|b k] & k' & Hk); [left; by exists k'|]. right. injection Hk as _ ->. by exists k, k'.
Qed.

Lemma map_id_in {A} (f : A → A) (l : list A) : Forall (λ x, f x = x) l → map f l = l.
Proof. induction 1 as [|x l Hx _ IH]; cbn; [done|by rewrite Hx, IH]. Qed.

Lemma forallb_Forall {A} (f : A → bool) (l : list A) : forallb f l = true → Forall (λ x, f x = true) l.
Proof. induction l as [|x l IH]; cbn; [constructor|]. intros [? ?]%andb_true_iff. constructor; auto. Qed.

Lemma toLowerCase_id s : Forall (λ c, lower_char c = c) (chars s) → toLowerCase s = s.
Proof. intros H. unfold toLowerCase. by rewrite map_id_in, of_chars_chars. Qed.

Lemma toUpperCase_id s : Forall (λ c, upper_char c = [c]) (chars s) → toUpperCase s = s.
Proof.
  intros H. unfold toUpperCase. rewrite <-(of_chars_chars s) at 2. f_equal.
  induction H as [|c l Hc _ IH]; cbn; [done|by rewrite Hc, IH].
Qed.

#[global] Opaque fixed to_digits.
