(* ===== verification/Decimal.v ===== *)
(** Decimal: [src/trading_decimal.ts], the exact unsigned/signed decimal
    arithmetic every monetary computation of the trading core goes through.

    Values are the source's strings.  [units s] is the meaning of a decimal
    string: its value in units of 10^-18 ([None] when the source refuses the
    string).  Every accepted string has at most 18 fractional digits, so the
    meaning is an integer; [dec z] prints [z] units canonically.  The [_spec]
    lemmas say what each operation returns for given meanings, the [_inv]
    lemmas what a successful call implies; clients reason with these only. *)

From S2P Require Import Prelude Text.
From Stdlib Require Ascii String.
Local Open Scope Z_scope.

(** ** The source's definitions *)

Record ParsedDecimal := mkParsed { coefficient : Z; scale : Z }.

Definition powerOfTen (exponent : Z) : result Z :=
  if negb (isSafeInteger exponent) || (exponent <? 0) || (exponent >? 36)
  then throw "Decimal scale is outside the supported range."
  else Ok (10 ^ exponent).

(** [(?:0|[1-9]\d{0,35})] *)
Definition integer_pattern (l : list Ascii.ascii) : bool :=
  match l with
  | [] => false
  | c :: rest =>
      is_digit c &&
      (if decide (c = zero_char) then bool_decide (rest = [])
       else forallb is_digit rest && (length rest <=? 35)%nat)
  end.

(** [\d{1,18}] *)
Definition fraction_pattern (l : list Ascii.ascii) : bool :=
  forallb is_digit l && (1 <=? length l)%nat && (length l <=? 18)%nat.

(** [DECIMAL_PATTERN]: an integer part, optionally a dot and a fraction. *)
Definition DECIMAL_PATTERN (value : string) : bool :=
  match split_chars dot_char (chars value) with
  | [i] => integer_pattern i
  | [i; f] => integer_pattern i && fraction_pattern f
  | _ => false
  end.

Definition parse (value : string) : result ParsedDecimal :=
  if negb (DECIMAL_PATTERN value)
  then throw ("Invalid unsigned decimal '" +:+ value +:+ "'.")
  else
    let parts := split_chars dot_char (chars value) in
    let integer := default [] (parts !! 0%nat) in
    let fraction := default [] (parts !! 1%nat) in
    Ok (mkParsed (digits (integer ++ fraction)) (Z.of_nat (length fraction))).

(** [while (fraction.endsWith('0')) fraction = fraction.slice(0, -1)] *)
Fixpoint drop_zeros (l : list Ascii.ascii) : list Ascii.ascii :=
  match l with
  | [] => []
  | c :: l' => if decide (c = zero_char) then drop_zeros l' else l
  end.
Definition strip_zeros (l : list Ascii.ascii) : list Ascii.ascii :=
  reverse (drop_zeros (reverse l)).

Definition format (coefficient scale : Z) : result string :=
  if coefficient <? 0 then throw "Unsigned decimal result must not be negative."
  else
    let ds := padStart (Z.to_nat (scale + 1)) (to_digits coefficient) in
    if scale =? 0 then Ok (of_chars ds)
    else
      let cut := (length ds - Z.to_nat scale)%nat in
      let integer := take cut ds in
      let fraction := strip_zeros (drop cut ds) in
      Ok (of_chars (match fraction with
                    | [] => integer
                    | _ => integer ++ dot_char :: fraction
                    end)).

Definition align (left right : ParsedDecimal) : result (Z * Z * Z) :=
  let s := Z.max (scale left) (scale right) in
  pl ← powerOfTen (s - scale left);
  pr ← powerOfTen (s - scale right);
  Ok (coefficient left * pl, coefficient right * pr, s).

Definition compareDecimal (left right : string) : result Z :=
  l ← parse left;
  r ← parse right;
  '(leftValue, rightValue, _) ← align l r;
  if leftValue <? rightValue then Ok (-1)
  else if leftValue >? rightValue then Ok 1
  else Ok 0.

(** [decimal(value, { positive, max })] *)
Definition decimal (value : string) (positive : bool) (max : option string) : result string :=
  parsed ← parse (trim value);
  normalized ← format (coefficient parsed) (scale parsed);
  if positive && (coefficient parsed =? 0) then throw "Decimal must be greater than zero."
  else match max with
       | None => Ok normalized
       | Some m =>
           if bool_decide (m = "") then Ok normalized
           else c ← compareDecimal normalized m;
                if c >? 0 then throw ("Decimal must not exceed " +:+ m +:+ ".")
                else Ok normalized
       end.

Definition addDecimal (left right : string) : result string :=
  l ← parse left;
  r ← parse right;
  '(leftValue, rightValue, s) ← align l r;
  format (leftValue + rightValue) s.

Definition subtractDecimal (left right : string) : result string :=
  l ← parse left;
  r ← parse right;
  '(leftValue, rightValue, s) ← align l r;
  if rightValue >? leftValue then throw "Unsigned decimal subtraction would be negative."
  else format (leftValue - rightValue) s.

Definition multiplyDecimal (left right : string) : result string :=
  parsedLeft ← parse left;
  parsedRight ← parse right;
  let productScale := scale parsedLeft + scale parsedRight in
  let c := coefficient parsedLeft * coefficient parsedRight in
  if productScale <=? 18 then format c productScale
  else p ← powerOfTen (productScale - 18); format (c / p) 18.

Definition divideDecimal (left right : string) (s : Z) : result string :=
  parsedLeft ← parse left;
  parsedRight ← parse right;
  if coefficient parsedRight =? 0 then throw "Division by zero."
  else if negb (isSafeInteger s) || (s <? 0) || (s >? 18)
  then throw "Division scale must be between 0 and 18."
  else
    pn ← powerOfTen (s + scale parsedRight);
    pd ← powerOfTen (scale parsedLeft);
    format ((coefficient parsedLeft * pn) / (coefficient parsedRight * pd)) s.

(** [values.reduce((total, value) => addDecimal(total, value), '0')] *)
Fixpoint sumDecimals_from (total : string) (values : list string) : result string :=
  match values with
  | [] => Ok total
  | value :: values' => t ← addDecimal total value; sumDecimals_from t values'
  end.
Definition sumDecimals (values : list string) : result string := sumDecimals_from "0" values.

Definition midpointDecimal (rmin rmax : string) : result string :=
  c ← compareDecimal rmin rmax;
  if c >? 0 then throw "Decimal range is inverted."
  else s ← addDecimal rmin rmax; divideDecimal s "2" 18.

Fixpoint minDecimal_from (minimum : string) (values : list string) : result string :=
  match values with
  | [] => Ok minimum
  | value :: values' =>
      c ← compareDecimal value minimum;
      minDecimal_from (if c <? 0 then value else minimum) values'
  end.
Definition minDecimal (values : list string) : result string :=
  match values with
  | [] => throw "At least one decimal is required."
  | first :: rest => minDecimal_from first rest
  end.

Definition quantizeDecimalDown (value increment : string) : result string :=
  _ ← decimal value false None;
  _ ← decimal increment true None;
  q ← divideDecimal value increment 0;
  multiplyDecimal q increment.

Definition signedDecimal (value : string) : result string :=
  let negative := starts_minus value in
  normalized ← decimal (if negative then slice1 value else value) false None;
  Ok (if negative && negb (bool_decide (normalized = "0")) then minus normalized else normalized).

Definition negateSignedDecimal (value : string) : result string :=
  normalized ← signedDecimal value;
  if bool_decide (normalized = "0") then Ok "0"
  else Ok (if starts_minus normalized then slice1 normalized else minus normalized).

(** [signed.startsWith('-') ? signed.slice(1) : signed] *)
Definition magnitude (signed : string) : string :=
  if starts_minus signed then slice1 signed else signed.

Definition addSignedDecimal (left right : string) : result string :=
  signedLeft ← signedDecimal left;
  signedRight ← signedDecimal right;
  let leftNegative := starts_minus signedLeft in
  let rightNegative := starts_minus signedRight in
  let leftMagnitude := magnitude signedLeft in
  let rightMagnitude := magnitude signedRight in
  if Bool.eqb leftNegative rightNegative then
    sum ← addDecimal leftMagnitude rightMagnitude;
    Ok (if leftNegative && negb (bool_decide (sum = "0")) then minus sum else sum)
  else
    order ← compareDecimal leftMagnitude rightMagnitude;
    if order =? 0 then Ok "0"
    else
      difference ← (if order >? 0 then subtractDecimal leftMagnitude rightMagnitude
                    else subtractDecimal rightMagnitude leftMagnitude);
      let negative := if order >? 0 then leftNegative else rightNegative in
      Ok (if negative then minus difference else difference).

Definition subtractSignedDecimal (left right : string) : result string :=
  n ← negateSignedDecimal right;
  addSignedDecimal left n.

Definition multiplySignedDecimal (left right : string) : result string :=
  signedLeft ← signedDecimal left;
  signedRight ← signedDecimal right;
  m ← multiplyDecimal (magnitude signedLeft) (magnitude signedRight);
  if negb (Bool.eqb (starts_minus signedLeft) (starts_minus signedRight))
  then negateSignedDecimal m else Ok m.

(** [while (scale > 0 && coefficient % 10n === 0n) { coefficient /= 10n; scale -= 1; }];
    the scale itself is enough fuel. *)
Fixpoint reduce_scale (fuel : nat) (c s : Z) : Z * Z :=
  match fuel with
  | O => (c, s)
  | S fuel' =>
      if (s >? 0) && (c mod 10 =? 0) then reduce_scale fuel' (c / 10) (s - 1) else (c, s)
  end.

Definition multiplyExactSignedDecimal (left right : string) : result string :=
  signedLeft ← signedDecimal left;
  signedRight ← signedDecimal right;
  parsedA ← parse (magnitude signedLeft);
  parsedB ← parse (magnitude signedRight);
  let s0 := scale parsedA + scale parsedB in
  let '(c, s) := reduce_scale (Z.to_nat s0) (coefficient parsedA * coefficient parsedB) s0 in
  if s >? 18 then throw "Exact monetary valuation exceeds supported decimal precision."
  else
    f ← format c s;
    m ← decimal f false None;
    if negb (Bool.eqb (starts_minus signedLeft) (starts_minus signedRight))
    then negateSignedDecimal m else Ok m.

Definition allocateDecimalExact (value numerator denominator : string) : result string :=
  v ← decimal value false None; amount ← parse v;
  n ← decimal numerator false None; share ← parse n;
  d ← decimal denominator true None; total ← parse d;
  pt ← powerOfTen (scale total);
  p18 ← powerOfTen 18;
  pb ← powerOfTen (scale amount + scale share);
  let top := coefficient amount * coefficient share * pt * p18 in
  let bottom := coefficient total * pb in
  if negb (top mod bottom =? 0) then throw "Exact cost allocation exceeds supported decimal precision."
  else f ← format (top / bottom) 18; decimal f false None.

Definition signedDifference (left right : string) : result string :=
  order ← compareDecimal left right;
  if order =? 0 then Ok "0"
  else
    let greater := if order >? 0 then left else right in
    let lesser := if order >? 0 then right else left in
    difference ← subtractDecimal greater lesser;
    Ok (if order >? 0 then difference else minus difference).

(** ** Meaning of decimal strings *)

(** The quantum: one unit is 10^-18. *)
Definition ONE : Z := 10 ^ 18.
(** Accepted strings have at most 36 integer digits. *)
Definition LIMIT : Z := 10 ^ 54.

(** The value of an accepted decimal string, in units of 10^-18. *)
Definition units (s : string) : option Z :=
  match parse s with
  | Ok p => Some (coefficient p * 10 ^ (18 - scale p))
  | Err _ => None
  end.

(** The canonical print of [z] units. *)
Definition dec_chars (z : Z) : list Ascii.ascii :=
  let f := strip_zeros (fixed 18 z) in
  to_digits (z / ONE) ++ match f with [] => [] | _ => dot_char :: f end.
Definition dec (z : Z) : string := of_chars (dec_chars z).

Lemma ONE_pos : 0 < ONE.
Proof. done. Qed.
Lemma LIMIT_ONE : LIMIT = 10 ^ 36 * ONE.
Proof. done. Qed.
#[global] Opaque ONE LIMIT.

Lemma ONE_pow k : 0 <= k <= 18 → 10 ^ k * 10 ^ (18 - k) = ONE.
Proof. intros Hk. rewrite <-Z.pow_add_r by lia. by replace (k + (18 - k)) with 18 by lia. Qed.

Lemma pow10_pos k : 0 <= k → 0 < 10 ^ k.
Proof. intros. apply Z.pow_pos_nonneg; lia. Qed.

Lemma powerOfTen_Ok k : 0 <= k <= 36 → powerOfTen k = Ok (10 ^ k).
Proof.
  intros Hk. unfold powerOfTen.
  assert (isSafeInteger k = true) as -> by (apply isSafeInteger_true; unfold MAX_SAFE_INTEGER; lia).
  destruct (Z.ltb_spec k 0); [lia|]. rewrite Z.gtb_ltb. destruct (Z.ltb_spec 36 k); [lia|done].
Qed.

(** *** Trailing zeros *)
Lemma strip_zeros_app_zeros l k : strip_zeros (l ++ replicate k zero_char) = strip_zeros l.
Proof.
  unfold strip_zeros. rewrite reverse_app, reverse_replicate. f_equal.
  induction k as [|k IH]; cbn; [done|]. by case_decide.
Qed.

Lemma drop_zeros_spec l : ∃ k, l = replicate k zero_char ++ drop_zeros l.
Proof.
  induction l as [|c l [k IH]]; cbn [drop_zeros]; [by exists O|].
  case_decide as Hc; [|by exists O]. exists (S k). cbn. by rewrite Hc, <-IH.
Qed.

Lemma strip_zeros_spec l : ∃ k, l = strip_zeros l ++ replicate k zero_char.
Proof.
  destruct (drop_zeros_spec (reverse l)) as [k Hk]. exists k. unfold strip_zeros.
  apply (f_equal reverse) in Hk. rewrite reverse_involutive, reverse_app, reverse_replicate in Hk. done.
Qed.

Lemma padEnd_strip_zeros l : padEnd (length l) (strip_zeros l) = l.
Proof.
  destruct (strip_zeros_spec l) as [k Hk]. unfold padEnd.
  assert (length l - length (strip_zeros l) = k)%nat as ->; [|done].
  apply (f_equal length) in Hk. rewrite length_app, length_replicate in Hk. lia.
Qed.

Lemma strip_zeros_digits l :
  Forall (λ c, is_digit c = true) l → Forall (λ c, is_digit c = true) (strip_zeros l).
Proof. destruct (strip_zeros_spec l) as [k Hk]. intros H. rewrite Hk in H. by apply Forall_app in H as [? _]. Qed.

Lemma strip_zeros_length l : (length (strip_zeros l) <= length l)%nat.
Proof. destruct (strip_zeros_spec l) as [k Hk]. rewrite Hk at 2. rewrite length_app. lia. Qed.

(** *** [format] prints canonically *)
Lemma format_dec c s : 0 <= c → 0 <= s <= 18 → format c s = Ok (dec (c * 10 ^ (18 - s))).
Proof.
  intros Hc Hs. unfold format. destruct (Z.ltb_spec c 0); [lia|].
  replace (Z.to_nat (s + 1)) with (S (Z.to_nat s)) by lia.
  rewrite padStart_to_digits by done. rewrite Z2Nat.id by lia.
  rewrite length_app, length_fixed. unfold dec, dec_chars.
  assert (c * 10 ^ (18 - s) / ONE = c / 10 ^ s) as Hq.
  { rewrite <-(ONE_pow s) by lia. apply Z.div_mul_cancel_r; apply Z.pow_nonzero; lia. }
  assert (fixed 18 (c * 10 ^ (18 - s)) = fixed (Z.to_nat s) c ++ replicate (Z.to_nat (18 - s)) zero_char) as Hf.
  { rewrite <-fixed_mul_pow, Z2Nat.id by lia. f_equal. lia. }
  rewrite Hq, Hf, strip_zeros_app_zeros.
  destruct (Z.eqb_spec s 0) as [->|Hs0].
  - cbn [fixed Z.to_nat]. change (strip_zeros []) with (@nil Ascii.ascii). by rewrite !app_nil_r.
  - rewrite Nat.add_sub. rewrite take_app_length, drop_app_length.
    destruct (strip_zeros (fixed (Z.to_nat s) c)); [by rewrite app_nil_r|done].
Qed.

(** *** Reading a canonical print back *)
Lemma dot_not_digit : is_digit dot_char = false.
Proof. done. Qed.
Lemma minus_not_digit : is_digit minus_char = false.
Proof. done. Qed.

Lemma split_dec_chars z : 0 <= z →
  split_chars dot_char (dec_chars z) =
    to_digits (z / ONE) :: match strip_zeros (fixed 18 z) with [] => [] | f => [f] end.
Proof.
  intros Hz. unfold dec_chars.
  assert (dot_char ∉ to_digits (z / ONE)) as Hi.
  { apply digits_no_char; [done|]. apply to_digits_digits, Z.div_pos; [done|apply ONE_pos]. }
  assert (dot_char ∉ strip_zeros (fixed 18 z)) as Hf.
  { apply digits_no_char; [done|]. apply strip_zeros_digits, fixed_digits. }
  destruct (strip_zeros (fixed 18 z)) eqn:E.
  - rewrite app_nil_r. by apply split_chars_none.
  - rewrite split_chars_one by done. by rewrite split_chars_none.
Qed.

Lemma digits_decimal_parts z : 0 <= z →
  digits (to_digits (z / ONE) ++ fixed 18 z) = z.
Proof.
  intros Hz. pose proof ONE_pos.
  rewrite digits_app, digits_to_digits, digits_fixed, length_fixed by (try apply Z.div_pos; lia).
  change (10 ^ Z.of_nat 18) with ONE. pose proof (Z.div_mod z ONE). lia.
Qed.

Lemma dec_chars_inj a b : 0 <= a → 0 <= b → dec_chars a = dec_chars b → a = b.
Proof.
  intros Ha Hb Heq. apply (f_equal (split_chars dot_char)) in Heq.
  rewrite !split_dec_chars in Heq by done.
  pose proof (f_equal head Heq) as Hi. pose proof (f_equal tail Heq) as Hf.
  cbn [head tail] in Hi, Hf. injection Hi as Hi.
  assert (strip_zeros (fixed 18 a) = strip_zeros (fixed 18 b)) as Hs.
  { destruct (strip_zeros (fixed 18 a)), (strip_zeros (fixed 18 b)); congruence. }
  rewrite <-(digits_decimal_parts a), <-(digits_decimal_parts b) by done.
  rewrite <-(padEnd_strip_zeros (fixed 18 a)), <-(padEnd_strip_zeros (fixed 18 b)), !length_fixed.
  by rewrite Hi, Hs.
Qed.

Lemma dec_inj a b : 0 <= a → 0 <= b → dec a = dec b → a = b.
Proof. intros Ha Hb H%of_chars_inj. by apply dec_chars_inj. Qed.

Lemma forallb_digits l : forallb is_digit l = true ↔ Forall (λ c, is_digit c = true) l.
Proof. rewrite forallb_forall, Forall_forall. by setoid_rewrite list_elem_of_In. Qed.

Lemma integer_pattern_to_digits n : 0 <= n → integer_pattern (to_digits n) = (n <? 10 ^ 36).
Proof.
  intros Hn. destruct (decide (n = 0)) as [->|Hnz]; [done|].
  destruct (to_digits_head n ltac:(lia)) as (c & l & Heq & Hc & Hd).
  pose proof (to_digits_digits n Hn) as Hall. rewrite Heq in *. cbn [integer_pattern].
  rewrite Hd, decide_False by done. apply Forall_cons in Hall as [_ Hall].
  apply forallb_digits in Hall. rewrite Hall. cbn [andb].
  destruct (Z.ltb_spec n (10 ^ 36)).
  - apply Nat.leb_le. pose proof (to_digits_length n 35 ltac:(done)) as Hl.
    rewrite Heq in Hl. cbn [length] in Hl. lia.
  - apply Nat.leb_gt. pose proof (to_digits_length_ge n 36 ltac:(done)) as Hl.
    rewrite Heq in Hl. cbn [length] in Hl. lia.
Qed.

Lemma fraction_pattern_fixed z f : strip_zeros (fixed 18 z) = f → f ≠ [] → fraction_pattern f = true.
Proof.
  intros <- Hne. unfold fraction_pattern.
  rewrite (proj2 (forallb_digits _)) by apply strip_zeros_digits, fixed_digits. cbn [andb].
  pose proof (strip_zeros_length (fixed 18 z)) as Hl. rewrite length_fixed in Hl.
  apply andb_true_iff. split; apply Nat.leb_le; [|done].
  destruct (strip_zeros (fixed 18 z)); cbn; [done|lia].
Qed.

Lemma pattern_dec z : 0 <= z → DECIMAL_PATTERN (dec z) = (z <? LIMIT).
Proof.
  intros Hz. pose proof ONE_pos. unfold DECIMAL_PATTERN, dec.
  rewrite chars_of_chars, split_dec_chars by done.
  assert ((z / ONE <? 10 ^ 36) = (z <? LIMIT)) as Hlim.
  { rewrite LIMIT_ONE. destruct (Z.ltb_spec z (10 ^ 36 * ONE)).
    - apply Z.ltb_lt, Z.div_lt_upper_bound; lia.
    - apply Z.ltb_ge, Z.div_le_lower_bound; lia. }
  destruct (strip_zeros (fixed 18 z)) as [|c f] eqn:E.
  - rewrite integer_pattern_to_digits by (apply Z.div_pos; lia). done.
  - rewrite integer_pattern_to_digits by (apply Z.div_pos; lia).
    rewrite (fraction_pattern_fixed z) by done. by rewrite andb_true_r.
Qed.

Lemma digits_pad l k : digits (l ++ replicate k zero_char) = digits l * 10 ^ Z.of_nat k.
Proof. rewrite digits_app, digits_zeros, length_replicate. lia. Qed.

(** The canonical print is accepted below the limit and means what was printed;
    beyond the limit it is refused. *)
Lemma units_dec z : 0 <= z → units (dec z) = if z <? LIMIT then Some z else None.
Proof.
  intros Hz. unfold units, parse. rewrite pattern_dec by done.
  destruct (z <? LIMIT); [|done]. cbn [negb].
  unfold dec. rewrite chars_of_chars, split_dec_chars by done. cbn [coefficient scale]. f_equal.
  pose proof (digits_decimal_parts z Hz) as Hp.
  rewrite <-(padEnd_strip_zeros (fixed 18 z)), length_fixed in Hp.
  unfold padEnd in Hp. rewrite app_assoc, digits_pad in Hp.
  pose proof (strip_zeros_length (fixed 18 z)) as Hl. rewrite length_fixed in Hl.
  rewrite Nat2Z.inj_sub in Hp by done.
  destruct (strip_zeros (fixed 18 z)); exact Hp.
Qed.

Lemma units_dec_Some z a : 0 <= z → units (dec z) = Some a → a = z ∧ z < LIMIT.
Proof. intros Hz. rewrite units_dec by done. destruct (Z.ltb_spec z LIMIT); naive_solver. Qed.

(** *** What parsing yields *)
Lemma integer_pattern_bounds l : integer_pattern l = true →
  Forall (λ c, is_digit c = true) l ∧ (1 <= length l <= 36)%nat.
Proof.
  destruct l as [|c rest]; [done|]. cbn [integer_pattern]. intros [Hc H]%andb_true_iff.
  case_decide.
  - apply bool_decide_eq_true in H as ->. split; [by repeat constructor|simpl; lia].
  - apply andb_true_iff in H as [H Hlen]. apply forallb_digits in H. apply Nat.leb_le in Hlen.
    split; [by constructor|simpl; lia].
Qed.

Lemma fraction_pattern_bounds l : fraction_pattern l = true →
  Forall (λ c, is_digit c = true) l ∧ (1 <= length l <= 18)%nat.
Proof.
  unfold fraction_pattern. rewrite !andb_true_iff, forallb_digits, !Nat.leb_le. tauto.
Qed.

Lemma parse_bounds s p : parse s = Ok p →
  0 <= scale p <= 18 ∧ 0 <= coefficient p < 10 ^ (36 + scale p).
Proof.
  unfold parse, DECIMAL_PATTERN. intros H.
  assert (∃ i f, Forall (λ c, is_digit c = true) (i ++ f) ∧ (length i <= 36)%nat ∧ (length f <= 18)%nat
    ∧ p = mkParsed (digits (i ++ f)) (Z.of_nat (length f))) as (i & f & Hd & Hi & Hf & ->).
  { destruct (split_chars dot_char (chars s)) as [|i [|f [|]]]; try done; cbn in H.
    - destruct (integer_pattern i) eqn:Hi; [|done]. injection H as <-.
      apply integer_pattern_bounds in Hi as [? ?]. exists i, []. rewrite app_nil_r. split_and!; simpl; (done || lia).
    - destruct (integer_pattern i && fraction_pattern f) eqn:Hif; [|done]. injection H as <-.
      apply andb_true_iff in Hif as [[? ?]%integer_pattern_bounds [? ?]%fraction_pattern_bounds].
      exists i, f. split_and!; [by apply Forall_app|lia|lia|done]. }
  cbn [scale coefficient]. split; [lia|].
  pose proof (digits_nonneg _ Hd) as [? Hlt]. split; [done|].
  eapply Z.lt_le_trans; [exact Hlt|]. rewrite length_app. apply Z.pow_le_mono_r; lia.
Qed.

Lemma units_parse s a : units s = Some a →
  ∃ p, parse s = Ok p ∧ a = coefficient p * 10 ^ (18 - scale p) ∧ 0 <= scale p <= 18 ∧ 0 <= coefficient p.
Proof.
  unfold units. destruct (parse s) as [p|] eqn:E; [|done]. intros [= <-].
  apply parse_bounds in E as [? ?]. exists p. split_and!; (done || lia).
Qed.

Lemma parse_units s p : parse s = Ok p → units s = Some (coefficient p * 10 ^ (18 - scale p)).
Proof. unfold units. by intros ->. Qed.

Lemma units_bounds s a : units s = Some a → 0 <= a < LIMIT.
Proof.
  unfold units. destruct (parse s) as [p|] eqn:E; [|done]. intros [= <-].
  apply parse_bounds in E as [Hs Hc]. pose proof (pow10_pos (18 - scale p)).
  split; [nia|]. rewrite LIMIT_ONE, <-(ONE_pow (scale p)) by lia.
  rewrite Z.mul_assoc, <-Z.pow_add_r by lia. apply Z.mul_lt_mono_pos_r; lia.
Qed.

Lemma align_spec l r a b :
  units l = Some a → units r = Some b →
  ∃ pl pr x y s, parse l = Ok pl ∧ parse r = Ok pr ∧ align pl pr = Ok (x, y, s) ∧
    0 <= s <= 18 ∧ a = x * 10 ^ (18 - s) ∧ b = y * 10 ^ (18 - s) ∧ 0 <= x ∧ 0 <= y.
Proof.
  intros (pl & Hpl & -> & Hsl & Hcl)%units_parse (pr & Hpr & -> & Hsr & Hcr)%units_parse.
  exists pl, pr. unfold align.
  set (s := Z.max (scale pl) (scale pr)).
  rewrite !powerOfTen_Ok by lia. cbn.
  exists (coefficient pl * 10 ^ (s - scale pl)), (coefficient pr * 10 ^ (s - scale pr)), s.
  pose proof (pow10_pos (s - scale pl)). pose proof (pow10_pos (s - scale pr)).
  split_and!; try done; try lia; try nia.
  - rewrite <-Z.mul_assoc, <-Z.pow_add_r by lia. do 2 f_equal. lia.
  - rewrite <-Z.mul_assoc, <-Z.pow_add_r by lia. do 2 f_equal. lia.
Qed.

(** ** What the operations return *)

(** The three-way comparison the source encodes as [-1 | 0 | 1]. *)
Definition cmpZ (a b : Z) : Z := if a <? b then -1 else if a >? b then 1 else 0.

Lemma cmpZ_spec a b :
  (cmpZ a b <? 0) = (a <? b) ∧ (cmpZ a b >? 0) = (b <? a) ∧ (cmpZ a b =? 0) = (a =? b).
Proof.
  unfold cmpZ. rewrite !Z.gtb_ltb.
  destruct (Z.ltb_spec a b), (Z.ltb_spec b a), (Z.eqb_spec a b); try lia; done.
Qed.

Lemma cmpZ_cases a b : (a < b ∧ cmpZ a b = -1) ∨ (a = b ∧ cmpZ a b = 0) ∨ (b < a ∧ cmpZ a b = 1).
Proof.
  unfold cmpZ. rewrite Z.gtb_ltb. destruct (Z.ltb_spec a b); [lia|]. destruct (Z.ltb_spec b a); lia.
Qed.

Lemma compareDecimal_spec l r a b :
  units l = Some a → units r = Some b → compareDecimal l r = Ok (cmpZ a b).
Proof.
  intros Ha Hb. destruct (align_spec l r a b Ha Hb) as (pl & pr & x & y & s & El & Er & Ea & Hs & -> & -> & _).
  unfold compareDecimal. rewrite El, Er. cbn. rewrite Ea. cbn.
  pose proof (pow10_pos (18 - s)). unfold cmpZ. rewrite !Z.gtb_ltb.
  destruct (Z.ltb_spec x y), (Z.ltb_spec (x * 10 ^ (18 - s)) (y * 10 ^ (18 - s))),
    (Z.ltb_spec y x), (Z.ltb_spec (y * 10 ^ (18 - s)) (x * 10 ^ (18 - s))); try done; nia.
Qed.

Lemma addDecimal_spec l r a b :
  units l = Some a → units r = Some b → addDecimal l r = Ok (dec (a + b)).
Proof.
  intros Ha Hb. destruct (align_spec l r a b Ha Hb) as (pl & pr & x & y & s & El & Er & Ea & Hs & -> & -> & ? & ?).
  unfold addDecimal. rewrite El, Er. cbn. rewrite Ea. cbn.
  rewrite format_dec by lia. do 2 f_equal. lia.
Qed.

Lemma subtractDecimal_spec l r a b :
  units l = Some a → units r = Some b →
  subtractDecimal l r =
    if b >? a then throw "Unsigned decimal subtraction would be negative." else Ok (dec (a - b)).
Proof.
  intros Ha Hb. destruct (align_spec l r a b Ha Hb) as (pl & pr & x & y & s & El & Er & Ea & Hs & -> & -> & ? & ?).
  unfold subtractDecimal. rewrite El, Er. cbn. rewrite Ea. cbn.
  pose proof (pow10_pos (18 - s)). rewrite !Z.gtb_ltb.
  destruct (Z.ltb_spec x y), (Z.ltb_spec (x * 10 ^ (18 - s)) (y * 10 ^ (18 - s))); try done; try nia.
  rewrite format_dec by lia. do 2 f_equal. lia.
Qed.

Lemma multiplyDecimal_spec l r a b :
  units l = Some a → units r = Some b → multiplyDecimal l r = Ok (dec (a * b / ONE)).
Proof.
  intros (pl & Hpl & -> & Hsl & Hcl)%units_parse (pr & Hpr & -> & Hsr & Hcr)%units_parse.
  unfold multiplyDecimal. rewrite Hpl, Hpr. cbn.
  set (c := coefficient pl * coefficient pr). assert (0 <= c) by (unfold c; nia).
  assert (coefficient pl * 10 ^ (18 - scale pl) * (coefficient pr * 10 ^ (18 - scale pr))
    = c * 10 ^ (36 - (scale pl + scale pr))) as ->.
  { unfold c. replace (36 - (scale pl + scale pr)) with ((18 - scale pl) + (18 - scale pr)) by lia.
    rewrite Z.pow_add_r by lia. lia. }
  destruct (Z.leb_spec (scale pl + scale pr) 18).
  - rewrite format_dec by lia. do 2 f_equal.
    replace (36 - (scale pl + scale pr)) with ((18 - (scale pl + scale pr)) + 18) by lia.
    rewrite Z.pow_add_r, Z.mul_assoc by lia. change (10 ^ 18) with ONE.
    pose proof ONE_pos. by rewrite Z.div_mul by lia.
  - rewrite powerOfTen_Ok by lia. cbn.
    set (k := scale pl + scale pr - 18). pose proof (pow10_pos k ltac:(unfold k; lia)).
    rewrite format_dec by (try apply Z.div_pos; lia). do 2 f_equal.
    replace (36 - (scale pl + scale pr)) with (18 - k) by (unfold k; lia).
    rewrite Z.sub_diag, Z.pow_0_r, Z.mul_1_r, <-(ONE_pow k) by (unfold k; lia).
    symmetry. apply Z.div_mul_cancel_r; [lia|]. apply Z.pow_nonzero; unfold k; lia.
Qed.

Lemma divideDecimal_spec l r a b s :
  units l = Some a → units r = Some b → b ≠ 0 → 0 <= s <= 18 →
  divideDecimal l r s = Ok (dec (a * 10 ^ s / b * 10 ^ (18 - s))).
Proof.
  intros (pl & Hpl & -> & Hsl & Hcl)%units_parse (pr & Hpr & -> & Hsr & Hcr)%units_parse Hb Hs.
  pose proof (pow10_pos (18 - scale pl)). pose proof (pow10_pos (18 - scale pr)).
  pose proof (pow10_pos (scale pr)). pose proof (pow10_pos (scale pl)). pose proof ONE_pos.
  assert (coefficient pr ≠ 0) by nia.
  unfold divideDecimal. rewrite Hpl, Hpr. cbn [mbind result_bind].
  destruct (Z.eqb_spec (coefficient pr) 0); [done|].
  assert (isSafeInteger s = true) as -> by (apply isSafeInteger_true; unfold MAX_SAFE_INTEGER; lia).
  destruct (Z.ltb_spec s 0); [lia|]. rewrite Z.gtb_ltb. destruct (Z.ltb_spec 18 s); [lia|]. cbn.
  rewrite !powerOfTen_Ok by lia. cbn.
  rewrite format_dec; [|apply Z.div_pos; [pose proof (pow10_pos (s + scale pr)); nia|nia]|lia].
  do 3 f_equal.
  rewrite <-(Z.div_mul_cancel_r (coefficient pl * 10 ^ (s + scale pr)) _
    (10 ^ (18 - scale pl) * 10 ^ (18 - scale pr))) by nia.
  rewrite <-(Z.div_mul_cancel_r (coefficient pl * 10 ^ (18 - scale pl) * 10 ^ s) _ ONE) by nia.
  f_equal.
  - rewrite Z.pow_add_r, <-(ONE_pow (scale pr)) by lia. ring.
  - rewrite <-(ONE_pow (scale pl)) by lia. ring.
Qed.

(** *** Normalisation *)
Lemma dec_digits_no_space z : 0 <= z → Forall (λ c, is_space c = false) (dec_chars z).
Proof.
  intros Hz. pose proof ONE_pos. unfold dec_chars.
  assert (∀ l, Forall (λ c, is_digit c = true) l → Forall (λ c, is_space c = false) l) as Himp.
  { intros l Hl. eapply Forall_impl; [exact Hl|]. apply digit_not_space. }
  apply Forall_app. split; [by apply Himp, to_digits_digits, Z.div_pos|].
  destruct (strip_zeros (fixed 18 z)) eqn:E; [constructor|]. constructor; [done|].
  apply Himp. rewrite <-E. apply strip_zeros_digits, fixed_digits.
Qed.

Lemma dec_no_space z : 0 <= z → Forall (λ c, is_space c = false) (chars (dec z)).
Proof. intros. unfold dec. rewrite chars_of_chars. by apply dec_digits_no_space. Qed.

Lemma trim_dec z : 0 <= z → trim (dec z) = dec z.
Proof. intros. apply trim_id. unfold dec. rewrite chars_of_chars. by apply dec_digits_no_space. Qed.

Lemma dec_0 : dec 0 = "0".
Proof. vm_compute. reflexivity. Qed.

Lemma dec_integer n : 0 <= n → dec (n * ONE) = of_chars (to_digits n).
Proof.
  intros Hn. unfold dec, dec_chars. pose proof ONE_pos. rewrite Z.div_mul by lia. f_equal.
  assert (fixed 18 (n * ONE) = replicate 18 zero_char) as ->; [|apply app_nil_r].
  pose proof (fixed_mul_pow 0 18 n) as F. rewrite Nat.add_0_l in F. change (10 ^ Z.of_nat 18) with ONE in F. rewrite F. done.
Qed.

Lemma dec_is_0 z : 0 <= z → bool_decide (dec z = "0") = (z =? 0).
Proof.
  intros Hz. destruct (Z.eqb_spec z 0) as [->|Hne].
  - apply bool_decide_eq_true, dec_0.
  - apply bool_decide_eq_false. rewrite <-dec_0. intros H. apply dec_inj in H; lia.
Qed.

Lemma dec_not_minus z : 0 <= z → starts_minus (dec z) = false.
Proof.
  intros Hz. unfold starts_minus, dec. rewrite chars_of_chars. unfold dec_chars.
  pose proof (to_digits_digits (z / ONE) ltac:(apply Z.div_pos; [done|apply ONE_pos])) as Hd.
  assert (to_digits (z / ONE) ≠ []) as Hne.
  { pose proof ONE_pos. destruct (decide (z / ONE = 0)) as [->|]; [done|].
    assert (0 <= z / ONE) by (apply Z.div_pos; lia).
    destruct (to_digits_head (z / ONE)) as (c & l & -> & _); [lia|done]. }
  destruct (to_digits (z / ONE)) as [|c l]; [done|]. cbn.
  apply bool_decide_eq_false. intros ->. apply Forall_cons in Hd as [Hd _]. done.
Qed.

Lemma dec_first_digit z : 0 <= z → ∃ c l, chars (dec z) = c :: l ∧ is_digit c = true.
Proof.
  intros Hz. unfold dec. rewrite chars_of_chars. unfold dec_chars. pose proof ONE_pos.
  assert (0 <= z / ONE) as Hq by (apply Z.div_pos; lia).
  destruct (decide (z / ONE = 0)) as [->|]; [by eexists _, _|].
  destruct (to_digits_head (z / ONE)) as (c & l & -> & _ & Hc); [lia|]. by eexists _, _.
Qed.

Lemma decimal_spec v a :
  units (trim v) = Some a → decimal v false None = Ok (dec a).
Proof.
  intros (p & Hp & -> & Hs & Hc)%units_parse. unfold decimal. rewrite Hp. cbn.
  by rewrite format_dec.
Qed.

Lemma decimal_pos_spec v a :
  units (trim v) = Some a → 0 < a → decimal v true None = Ok (dec a).
Proof.
  intros (p & Hp & -> & Hs & Hc)%units_parse Ha. unfold decimal. rewrite Hp. cbn.
  rewrite format_dec by done. cbn. destruct (Z.eqb_spec (coefficient p) 0); [nia|done].
Qed.

Lemma decimal_inv v pos mx s : decimal v pos mx = Ok s →
  ∃ a, units (trim v) = Some a ∧ s = dec a ∧ 0 <= a < LIMIT ∧ (pos = true → 0 < a) ∧
    (∀ m c, mx = Some m → units m = Some c → m ≠ "" → a <= c).
Proof.
  unfold decimal. intros H. apply bind_Ok in H as (p & Hp & H).
  pose proof (parse_units _ _ Hp) as Hu. pose proof (parse_bounds _ _ Hp) as [Hs Hc].
  rewrite format_dec in H by lia. cbn [mbind result_bind] in H.
  set (a := coefficient p * 10 ^ (18 - scale p)) in *.
  pose proof (units_bounds _ _ Hu) as Hb. exists a.
  destruct (pos && (coefficient p =? 0)) eqn:Hpz; [done|].
  assert (pos = true → 0 < a) as Hpos.
  { intros ->. cbn in Hpz. apply Z.eqb_neq in Hpz. pose proof (pow10_pos (18 - scale p)). unfold a in *. nia. }
  destruct mx as [m|].
  - case_bool_decide as Hm. { injection H as <-. split_and!; try done; try lia; naive_solver. }
    apply bind_Ok in H as (o & Ho & H). destruct (o >? 0) eqn:Hgt; [done|]. injection H as <-.
    split_and!; try done; try lia. intros m' c [= <-] Hmc _.
    rewrite (compareDecimal_spec _ _ a c) in Ho; [|rewrite units_dec by lia|done].
    + injection Ho as <-. rewrite (proj1 (proj2 (cmpZ_spec a c))) in Hgt. by apply Z.ltb_ge in Hgt.
    + rewrite (proj2 (Z.ltb_lt a LIMIT)) by lia. done.
  - injection H as <-. split_and!; try done; lia.
Qed.

(** *** Inversion: a call that returned had accepted arguments *)
(** An accepted text has no white space: trimming it changes nothing. *)
Lemma units_trim s a : units s = Some a → trim s = s.
Proof.
  intros Ha. destruct (units_parse _ _ Ha) as (p & Hp & _). unfold parse in Hp.
  destruct (DECIMAL_PATTERN s) eqn:E; [|done]. apply trim_id. rewrite <-(join_split_chars dot_char (chars s)).
  unfold DECIMAL_PATTERN in E. destruct (split_chars dot_char (chars s)) as [|i [|f [|]]]; try done; cbn [join_chars].
  - apply integer_pattern_bounds in E as [H _]. eapply Forall_impl; [exact H|]. apply digit_not_space.
  - apply andb_true_iff in E as [Hi%integer_pattern_bounds Hf%fraction_pattern_bounds].
    apply Forall_app. split; [eapply Forall_impl; [apply Hi|]; apply digit_not_space|].
    constructor; [done|]. eapply Forall_impl; [apply Hf|]. apply digit_not_space.
Qed.

Lemma parse_Ok_units s p : parse s = Ok p → ∃ a, units s = Some a.
Proof. intros. eexists. by apply parse_units. Qed.

Lemma compareDecimal_inv l r c : compareDecimal l r = Ok c →
  ∃ a b, units l = Some a ∧ units r = Some b ∧ c = cmpZ a b.
Proof.
  intros H. pose proof H as H'. unfold compareDecimal in H'.
  apply bind_Ok in H' as (p & Hp & H'). apply bind_Ok in H' as (q & Hq & _).
  destruct (parse_Ok_units _ _ Hp) as [a Ha], (parse_Ok_units _ _ Hq) as [b Hb].
  rewrite (compareDecimal_spec _ _ a b) in H by done. exists a, b. naive_solver.
Qed.

Lemma addDecimal_inv l r s : addDecimal l r = Ok s →
  ∃ a b, units l = Some a ∧ units r = Some b ∧ s = dec (a + b).
Proof.
  intros H. pose proof H as H'. unfold addDecimal in H'.
  apply bind_Ok in H' as (p & Hp & H'). apply bind_Ok in H' as (q & Hq & _).
  destruct (parse_Ok_units _ _ Hp) as [a Ha], (parse_Ok_units _ _ Hq) as [b Hb].
  rewrite (addDecimal_spec _ _ a b) in H by done. exists a, b. naive_solver.
Qed.

Lemma subtractDecimal_inv l r s : subtractDecimal l r = Ok s →
  ∃ a b, units l = Some a ∧ units r = Some b ∧ b <= a ∧ s = dec (a - b).
Proof.
  intros H. pose proof H as H'. unfold subtractDecimal in H'.
  apply bind_Ok in H' as (p & Hp & H'). apply bind_Ok in H' as (q & Hq & _).
  destruct (parse_Ok_units _ _ Hp) as [a Ha], (parse_Ok_units _ _ Hq) as [b Hb].
  rewrite (subtractDecimal_spec _ _ a b) in H by done. rewrite Z.gtb_ltb in H.
  destruct (Z.ltb_spec a b); [done|]. exists a, b. naive_solver.
Qed.

Lemma multiplyDecimal_inv l r s : multiplyDecimal l r = Ok s →
  ∃ a b, units l = Some a ∧ units r = Some b ∧ s = dec (a * b / ONE).
Proof.
  intros H. pose proof H as H'. unfold multiplyDecimal in H'.
  apply bind_Ok in H' as (p & Hp & H'). apply bind_Ok in H' as (q & Hq & _).
  destruct (parse_Ok_units _ _ Hp) as [a Ha], (parse_Ok_units _ _ Hq) as [b Hb].
  rewrite (multiplyDecimal_spec _ _ a b) in H by done. exists a, b. naive_solver.
Qed.

Lemma divideDecimal_inv l r k s : divideDecimal l r k = Ok s →
  ∃ a b, units l = Some a ∧ units r = Some b ∧ 0 < b ∧ 0 <= k <= 18 ∧
    s = dec (a * 10 ^ k / b * 10 ^ (18 - k)).
Proof.
  intros H. pose proof H as H'. unfold divideDecimal in H'.
  apply bind_Ok in H' as (p & Hp & H'). apply bind_Ok in H' as (q & Hq & H').
  pose proof (parse_units _ _ Hp) as Ha. pose proof (parse_units _ _ Hq) as Hb.
  destruct (Z.eqb_spec (coefficient q) 0); [done|].
  destruct (negb (isSafeInteger k) || (k <? 0) || (k >? 18)) eqn:Hk; [done|].
  rewrite !orb_false_iff, Z.gtb_ltb in Hk. destruct Hk as [[_ Hk1%Z.ltb_ge] Hk2%Z.ltb_ge].
  pose proof (parse_bounds _ _ Hq) as [? ?]. pose proof (pow10_pos (18 - scale q)).
  eexists _, _. split; [exact Ha|]. split; [exact Hb|]. split; [nia|]. split; [lia|].
  erewrite divideDecimal_spec in H; [by injection H as <-|exact Ha|exact Hb|nia|lia].
Qed.

Lemma units_dec_lt z : 0 <= z < LIMIT → units (dec z) = Some z.
Proof. intros Hz. rewrite units_dec by lia. by rewrite (proj2 (Z.ltb_lt _ _)) by lia. Qed.

(** An exact allocation times its denominator is the value times its numerator. *)
Lemma allocateDecimalExact_inv v n d s : allocateDecimalExact v n d = Ok s →
  ∃ a b t q, units (trim v) = Some a ∧ units (trim n) = Some b ∧ units (trim d) = Some t ∧ 0 < t ∧
    0 <= q < LIMIT ∧ q * t = a * b ∧ s = dec q.
Proof.
  unfold allocateDecimalExact. intros H. pose proof ONE_pos as HO.
  apply bind_Ok in H as (v' & Hv & H). apply bind_Ok in H as (pa & Hpa & H).
  apply bind_Ok in H as (n' & Hn & H). apply bind_Ok in H as (ps & Hps & H).
  apply bind_Ok in H as (d' & Hd & H). apply bind_Ok in H as (pt & Hpt & H).
  apply decimal_inv in Hv as (a & Ha & -> & Ba & _). apply decimal_inv in Hn as (b & Hb & -> & Bb & _).
  apply decimal_inv in Hd as (t & Ht & -> & Bt & Tt & _). specialize (Tt eq_refl).
  pose proof (parse_units _ _ Hpa) as Ea. pose proof (parse_units _ _ Hps) as Es. pose proof (parse_units _ _ Hpt) as Et.
  rewrite units_dec_lt in Ea by done. rewrite units_dec_lt in Es by done. rewrite units_dec_lt in Et by lia.
  injection Ea as Ea. injection Es as Es. injection Et as Et.
  destruct (parse_bounds _ _ Hpa) as [Sa Ca]. destruct (parse_bounds _ _ Hps) as [Ss Cs]. destruct (parse_bounds _ _ Hpt) as [St Ct].
  rewrite !powerOfTen_Ok in H by lia. cbn [mbind result_bind] in H.
  set (top := coefficient pa * coefficient ps * 10 ^ scale pt * 10 ^ 18) in *.
  set (bottom := coefficient pt * 10 ^ (scale pa + scale ps)) in *.
  pose proof (pow10_pos (scale pa + scale ps)). pose proof (pow10_pos (18 - scale pt)). pose proof (pow10_pos (scale pt)).
  assert (0 < bottom) as Hbot by (unfold bottom; nia).
  destruct (Z.eqb_spec (top mod bottom) 0) as [Hm|]; [|done]. cbn [negb] in H.
  assert (0 <= top / bottom) as Hq by (apply Z.div_pos; [unfold top; nia|done]).
  rewrite format_dec in H by lia. cbn [mbind result_bind] in H. replace (10 ^ (18 - 18)) with 1 in H by done. rewrite Z.mul_1_r in H.
  apply decimal_inv in H as (q & Eq & -> & Bq & _). rewrite trim_dec in Eq by done. apply units_dec_Some in Eq as [-> _]; [|done].
  exists a, b, t, (top / bottom). split; [done|]. split; [done|]. split; [done|]. split; [done|]. split; [done|]. split; [|done].
  assert (top / bottom * bottom = top) as Hexact by (rewrite Z.mul_comm; symmetry; by apply Z.div_exact; [lia|]).
  revert Hexact. generalize (top / bottom). clear -HO H1 Ea Es Et Sa Ss St. intros q Hexact. unfold top, bottom in Hexact.
  apply (Z.mul_reg_r _ _ (10 ^ scale pt * ONE)); [nia|]. subst a b t.
  rewrite Z.pow_add_r in Hexact by lia. change (10 ^ 18) with ONE in Hexact.
  transitivity (q * (coefficient pt * (10 ^ scale pa * 10 ^ scale ps)) * (10 ^ (18 - scale pa) * 10 ^ (18 - scale ps))).
  - transitivity (q * coefficient pt * (10 ^ scale pt * 10 ^ (18 - scale pt)) * ONE); [ring|].
    transitivity (q * coefficient pt * (10 ^ scale pa * 10 ^ (18 - scale pa)) * (10 ^ scale ps * 10 ^ (18 - scale ps))); [|ring].
    rewrite !ONE_pow by lia. ring.
  - rewrite Hexact. ring.
Qed.

(** *** A padded print: [integer '.' s-digits], as built from a big integer *)
Definition point_chars (s : nat) (c : Z) : list Ascii.ascii :=
  to_digits (c / 10 ^ Z.of_nat s) ++ dot_char :: fixed s c.

Lemma units_point s c : 0 <= c → (1 <= s <= 18)%nat →
  units (of_chars (point_chars s c)) =
    if c / 10 ^ Z.of_nat s <? 10 ^ 36 then Some (c * 10 ^ (18 - Z.of_nat s)) else None.
Proof.
  intros Hc Hs. pose proof (pow10_pos (Z.of_nat s)).
  assert (0 <= c / 10 ^ Z.of_nat s) by (apply Z.div_pos; lia).
  unfold units, parse, DECIMAL_PATTERN, point_chars. rewrite chars_of_chars.
  rewrite split_chars_one by (apply digits_no_char; [done|by apply to_digits_digits]).
  rewrite split_chars_none by (apply digits_no_char; [done|by apply fixed_digits]).
  rewrite integer_pattern_to_digits by done.
  assert (fraction_pattern (fixed s c) = true) as ->.
  { unfold fraction_pattern. rewrite (proj2 (forallb_digits _)) by apply fixed_digits.
    rewrite length_fixed. apply andb_true_iff; split; [|apply Nat.leb_le; lia].
    apply Nat.leb_le. lia. }
  rewrite andb_true_r. destruct (_ <? _); [|done]. cbn -[digits Z.pow Z.mul Z.sub Z.of_nat app]. f_equal.
  rewrite digits_app, digits_to_digits, digits_fixed, length_fixed by done.
  f_equal. pose proof (Z.div_mod c (10 ^ Z.of_nat s)). lia.
Qed.

Lemma point_no_space s c : 0 <= c → Forall (λ x, is_space x = false) (point_chars s c).
Proof.
  intros Hc. pose proof (pow10_pos (Z.of_nat s)). unfold point_chars.
  assert (∀ l, Forall (λ x, is_digit x = true) l → Forall (λ x, is_space x = false) l) as Himp.
  { intros l Hl. eapply Forall_impl; [exact Hl|]. apply digit_not_space. }
  apply Forall_app. split; [by apply Himp, to_digits_digits, Z.div_pos; lia|].
  constructor; [done|]. apply Himp, fixed_digits.
Qed.

Lemma to_digits_cons n : 0 <= n → ∃ c l, to_digits n = c :: l ∧ is_digit c = true.
Proof.
  intros Hn. destruct (decide (n = 0)) as [->|]; [by exists zero_char, []|].
  destruct (to_digits_head n) as (c & l & ? & _ & ?); [lia|]. eauto.
Qed.

(** [BigInt(whole + fraction.padEnd(18, '0'))] on a canonical decimal. *)
Definition padded_units (l : list Ascii.ascii) : Z :=
  let parts := split_chars dot_char l in
  digits (default [] (parts !! 0%nat) ++ padEnd 18 (default [] (parts !! 1%nat))).

Lemma padded_units_dec z : 0 <= z → padded_units (chars (dec z)) = z.
Proof.
  intros Hz. unfold padded_units, dec. rewrite chars_of_chars, split_dec_chars by done.
  pose proof (digits_decimal_parts z Hz) as Hp.
  rewrite <-(padEnd_strip_zeros (fixed 18 z)), length_fixed in Hp.
  destruct (strip_zeros (fixed 18 z)); exact Hp.
Qed.

(** Coefficient and scale of a canonical print. *)
Lemma parse_dec z : 0 <= z < LIMIT →
  ∃ i f, split_chars dot_char (chars (dec z)) = i :: match f with [] => [] | _ => [f] end ∧
    parse (dec z) = Ok (mkParsed (digits (i ++ f)) (Z.of_nat (length f))) ∧
    (length f <= 18)%nat ∧ digits (i ++ f) * 10 ^ (18 - Z.of_nat (length f)) = z.
Proof.
  intros Hz. exists (to_digits (z / ONE)), (strip_zeros (fixed 18 z)).
  assert (units (dec z) = Some z) as Hu.
  { rewrite units_dec by lia. by rewrite (proj2 (Z.ltb_lt _ _)) by lia. }
  pose proof (strip_zeros_length (fixed 18 z)) as Hl. rewrite length_fixed in Hl.
  assert (split_chars dot_char (chars (dec z)) = to_digits (z / ONE) ::
    match strip_zeros (fixed 18 z) with [] => [] | f => [f] end) as Hsp.
  { unfold dec. rewrite chars_of_chars. apply split_dec_chars. lia. }
  assert (parse (dec z) = Ok (mkParsed (digits (to_digits (z / ONE) ++ strip_zeros (fixed 18 z)))
    (Z.of_nat (length (strip_zeros (fixed 18 z)))))) as Hp.
  { unfold parse. rewrite pattern_dec, Hsp by lia. rewrite (proj2 (Z.ltb_lt _ _)) by lia. cbn [negb].
    by destruct (strip_zeros (fixed 18 z)). }
  split_and!; [destruct (strip_zeros (fixed 18 z)); exact Hsp|exact Hp|done|].
  unfold units in Hu. rewrite Hp in Hu. by injection Hu.
Qed.

#[global] Opaque dec units.

(** ** Automation: peel decimal calls down to their meanings *)
Lemma units_fun s a b : units s = Some a → units s = Some b → b = a.
Proof. congruence. Qed.

Lemma units_nonneg s a : units s = Some a → 0 <= a.
Proof. intros H%units_bounds. lia. Qed.

Ltac units_bound_hyps :=
  repeat match goal with
  | H : units _ = Some ?a |- _ =>
      lazymatch goal with
      | _ : 0 <= a < LIMIT |- _ => fail
      | _ => let B := fresh "B" in pose proof (units_bounds _ _ H) as B
      end
  end.

(** Nonnegativity of the unit expressions the operations produce. *)
Ltac dec_nonneg :=
  units_bound_hyps; pose proof ONE_pos;
  repeat match goal with
  | |- 0 <= _ / _ * _ => apply Z.mul_nonneg_nonneg
  | |- 0 <= _ / _ => apply Z.div_pos
  | |- 0 <= 10 ^ _ => apply Z.pow_nonneg
  | |- 0 <= _ => first [lia | apply Z.mul_nonneg_nonneg | nia]
  | |- 0 < _ => first [lia | nia]
  end.

Ltac dec_step :=
  match goal with
  | H : compareDecimal _ _ = Ok _ |- _ => apply compareDecimal_inv in H as (? & ? & ? & ? & H)
  | H : addDecimal _ _ = Ok _ |- _ => apply addDecimal_inv in H as (? & ? & ? & ? & H)
  | H : subtractDecimal _ _ = Ok _ |- _ => apply subtractDecimal_inv in H as (? & ? & ? & ? & ? & H)
  | H : multiplyDecimal _ _ = Ok _ |- _ => apply multiplyDecimal_inv in H as (? & ? & ? & ? & H)
  | H : divideDecimal _ _ _ = Ok _ |- _ => apply divideDecimal_inv in H as (? & ? & ? & ? & ? & ? & H)
  | H : decimal _ _ _ = Ok _ |- _ => apply decimal_inv in H as (? & ? & H & ? & ? & ?)
  | H1 : units ?s = Some ?a, H2 : units ?s = Some ?b |- _ =>
      assert_fails (unify a b); pose proof (units_fun _ _ _ H1 H2); first [subst b | subst a | fail 1]; clear H2
  | H1 : units ?s = Some ?a, H2 : units ?s = Some ?a |- _ => clear H2
  | H : ?x = dec _ |- _ => is_var x; subst x
  | H : units (dec ?z) = Some ?a |- _ =>
      apply units_dec_Some in H; [destruct H as [? ?]; first [subst a | idtac]|by dec_nonneg]
  end.
Ltac dec_inv := repeat first [ok_step | dec_step].

(** *** Sums and minima *)
(** [meaning ss zs]: the strings [ss] are accepted and mean [zs]. *)
Definition meaning : list string → list Z → Prop := Forall2 (λ s a, units s = Some a).

Lemma meaning_nonneg ss zs : meaning ss zs → Forall (Z.le 0) zs.
Proof. induction 1; constructor; [by eapply units_nonneg|done]. Qed.

Lemma units_zero : units "0" = Some 0.
Proof. rewrite <-dec_0. apply units_dec_lt. split; [done|]. rewrite LIMIT_ONE. pose proof ONE_pos. lia. Qed.

Lemma sumDecimals_from_spec total ss t zs :
  units total = Some t → meaning ss zs → t + sumZ zs < LIMIT →
  ss = [] ∧ sumDecimals_from total ss = Ok total ∨
  sumDecimals_from total ss = Ok (dec (t + sumZ zs)).
Proof.
  intros Ht Hm. revert total t Ht. induction Hm as [|s a ss zs Hs Hm IH]; intros total t Ht Hlt.
  { by left. }
  right. cbn [sumDecimals_from]. rewrite (addDecimal_spec _ _ t a) by done. cbn [mbind result_bind].
  pose proof (units_bounds _ _ Ht). pose proof (units_bounds _ _ Hs).
  pose proof (sumZ_nonneg _ (meaning_nonneg _ _ Hm)). cbn in Hlt.
  destruct (IH (dec (t + a)) (t + a)) as [[-> Heq] | Heq].
  - apply units_dec_lt. cbn in *; lia.
  - lia.
  - inversion Hm; subst. rewrite Heq. cbn [sumZ]. do 2 f_equal. lia.
  - rewrite Heq. cbn [sumZ]. do 2 f_equal. lia.
Qed.

Lemma sumDecimals_spec ss zs : meaning ss zs → sumZ zs < LIMIT → sumDecimals ss = Ok (dec (sumZ zs)).
Proof.
  intros Hm Hlt. destruct (sumDecimals_from_spec "0" ss 0 zs units_zero Hm ltac:(lia)) as [[-> H] | H].
  - inversion Hm. cbn. by rewrite dec_0.
  - exact H.
Qed.

Lemma sumDecimals_from_inv total ss s t : units total = Some t → sumDecimals_from total ss = Ok s →
  ∃ zs, meaning ss zs ∧ (ss = [] ∧ s = total ∨ s = dec (t + sumZ zs)).
Proof.
  revert total t. induction ss as [|v ss IH]; intros total t Ht H; cbn [sumDecimals_from] in H.
  - injection H as <-. exists []. split; [constructor|]. by left.
  - ok_inv. pose proof E as E'. apply addDecimal_inv in E as (a & b & Ha & Hb & ->).
    assert (a = t) as -> by congruence.
    destruct ss as [|w ss].
    + cbn in H. injection H as <-. exists [b]. split; [by repeat constructor|]. right. cbn [sumZ]. f_equal. lia.
    + assert (∃ c, units (dec (t + b)) = Some c) as [c Hc].
      { cbn [sumDecimals_from] in H. ok_inv. apply addDecimal_inv in E as (x & ? & ? & _). by exists x. }
      pose proof (units_nonneg _ _ Ht). pose proof (units_nonneg _ _ Hb).
      pose proof Hc as Hc'. apply units_dec_Some in Hc' as [-> ?]; [|lia].
      destruct (IH _ _ Hc H) as (zs & Hm & Hs). destruct Hs as [[? ?]|Hs]; [done|].
      exists (b :: zs). split; [by constructor|]. right. rewrite Hs. cbn [sumZ]. f_equal. lia.
Qed.

Lemma sumDecimals_inv ss s : sumDecimals ss = Ok s → ∃ zs, meaning ss zs ∧ s = dec (sumZ zs).
Proof.
  intros H. destruct (sumDecimals_from_inv _ _ _ _ units_zero H) as (zs & Hm & [[-> ->] | ->]).
  - exists []. inversion Hm; subst. split; [constructor|]. cbn. by rewrite dec_0.
  - exists zs. by split.
Qed.

Lemma min2_inv x y s : minDecimal [x; y] = Ok s →
  ∃ a b, units x = Some a ∧ units y = Some b ∧ units s = Some (Z.min a b) ∧ (s = x ∨ s = y).
Proof.
  cbn. intros H. ok_inv. apply compareDecimal_inv in E as (b & a & Hb & Ha & ->).
  exists a, b. rewrite (proj1 (cmpZ_spec b a)) in *.
  destruct (Z.ltb_spec b a); split_and!; try done; rewrite ?Hb, ?Ha; try f_equal; try lia; auto.
Qed.

Lemma min2_spec x y a b : units x = Some a → units y = Some b →
  minDecimal [x; y] = Ok (if b <? a then y else x).
Proof.
  intros Ha Hb. cbn. rewrite (compareDecimal_spec _ _ b a) by done. cbn.
  by rewrite (proj1 (cmpZ_spec b a)).
Qed.

Lemma min3_inv x y z s : minDecimal [x; y; z] = Ok s →
  ∃ a b c, units x = Some a ∧ units y = Some b ∧ units z = Some c ∧ units s = Some (Z.min a (Z.min b c)).
Proof.
  intros H. cbn in H. apply bind_Ok in H as (o & Ho & H). apply bind_Ok in H as (o2 & Ho2 & [= <-]).
  apply compareDecimal_inv in Ho as (b & a & Hb & Ha & ->).
  rewrite (proj1 (cmpZ_spec b a)) in *.
  apply compareDecimal_inv in Ho2 as (c & m & Hc & Hm & ->).
  rewrite (proj1 (cmpZ_spec c m)). exists a, b, c. split_and!; try done.
  destruct (Z.ltb_spec b a); destruct (Z.ltb_spec c m); simplify_eq; f_equal; try (f_equal; lia);
    rewrite ?Ha, ?Hb, ?Hc; f_equal; lia.
Qed.

Lemma min3_spec x y z a b c : units x = Some a → units y = Some b → units z = Some c →
  ∃ s, minDecimal [x; y; z] = Ok s ∧ units s = Some (Z.min a (Z.min b c)).
Proof.
  intros Ha Hb Hc. cbn. rewrite (compareDecimal_spec _ _ b a) by done. cbn.
  rewrite (proj1 (cmpZ_spec b a)).
  destruct (Z.ltb_spec b a).
  - rewrite (compareDecimal_spec _ _ c b) by done. cbn. rewrite (proj1 (cmpZ_spec c b)).
    destruct (Z.ltb_spec c b); eexists; (split; [done|]); rewrite ?Hb, ?Hc; f_equal; lia.
  - rewrite (compareDecimal_spec _ _ c a) by done. cbn. rewrite (proj1 (cmpZ_spec c a)).
    destruct (Z.ltb_spec c a); eexists; (split; [done|]); rewrite ?Ha, ?Hc; f_equal; lia.
Qed.

(** *** Quantisation *)
Lemma quantizeDecimalDown_spec v i a b :
  units v = Some a → trim v = v → units i = Some b → trim i = i → 0 < b → a / b < 10 ^ 36 →
  quantizeDecimalDown v i = Ok (dec (a / b * b)).
Proof.
  intros Ha Hv Hb Hi Hpos Hq. pose proof ONE_pos. pose proof (units_nonneg _ _ Ha).
  unfold quantizeDecimalDown.
  rewrite (decimal_spec v a), (decimal_pos_spec i b) by congruence. cbn [mbind result_bind].
  rewrite (divideDecimal_spec v i a b) by (done || lia). cbn [mbind result_bind].
  rewrite Z.pow_0_r, Z.mul_1_r, Z.sub_0_r. change (10 ^ 18) with ONE.
  assert (0 <= a / b) by (apply Z.div_pos; lia).
  rewrite (multiplyDecimal_spec _ _ (a / b * ONE) b); [| |done].
  - do 2 f_equal. replace (a / b * ONE * b) with (a / b * b * ONE) by lia. by rewrite Z.div_mul by lia.
  - apply units_dec_lt. rewrite LIMIT_ONE. nia.
Qed.

Lemma quantizeDecimalDown_inv v i s : quantizeDecimalDown v i = Ok s →
  ∃ a b, units v = Some a ∧ units i = Some b ∧ 0 < b ∧ a / b < 10 ^ 36 ∧ s = dec (a / b * b).
Proof.
  unfold quantizeDecimalDown. intros H. pose proof ONE_pos. ok_inv.
  apply divideDecimal_inv in E1 as (a & b & Ha & Hb & Hpos & _ & ->).
  rewrite Z.pow_0_r, Z.mul_1_r, Z.sub_0_r in H. change (10 ^ 18) with ONE in H.
  pose proof (units_nonneg _ _ Ha). assert (0 <= a / b) by (apply Z.div_pos; lia).
  apply multiplyDecimal_inv in H as (q & b' & Hq & Hb' & ->).
  assert (b' = b) as -> by congruence. apply units_dec_Some in Hq as [-> Hlt]; [|nia].
  exists a, b. split_and!; try done.
  - rewrite LIMIT_ONE in Hlt. nia.
  - f_equal. replace (a / b * ONE * b) with (a / b * b * ONE) by lia. by rewrite Z.div_mul by lia.
Qed.

Lemma midpointDecimal_inv x y s : midpointDecimal x y = Ok s →
  ∃ a b, units x = Some a ∧ units y = Some b ∧ a <= b ∧ s = dec ((a + b) / 2).
Proof.
  unfold midpointDecimal. intros H. apply bind_Ok in H as (o & Ho & H).
  apply compareDecimal_inv in Ho as (a & b & Ha & Hb & ->).
  rewrite (proj1 (proj2 (cmpZ_spec a b))) in H. destruct (Z.ltb_spec b a); [done|].
  rewrite (addDecimal_spec _ _ a b) in H by done. cbn [mbind result_bind] in H.
  apply divideDecimal_inv in H as (c & d & Hc & Hd & _ & _ & ->).
  pose proof (units_nonneg _ _ Ha). pose proof (units_nonneg _ _ Hb). pose proof ONE_pos.
  apply units_dec_Some in Hc as [-> ?]; [|lia].
  assert (units "2" = Some (2 * ONE)) as E2 by (vm_compute; reflexivity).
  rewrite E2 in Hd. injection Hd as <-.
  exists a, b. split_and!; [done..|]. f_equal. rewrite Z.sub_diag, Z.pow_0_r, Z.mul_1_r.
  change (10 ^ 18) with ONE. rewrite Z.div_mul_cancel_r by lia. done.
Qed.

(** ** Signed decimals *)

(** The meaning of a string [signedDecimal] accepts, and the canonical print. *)
Definition sunits (s : string) : option Z :=
  if starts_minus s then Z.opp <$> units (trim (slice1 s)) else units (trim s).
Definition sdec (z : Z) : string := if z <? 0 then minus (dec (- z)) else dec z.

Lemma starts_minus_minus s : starts_minus (minus s) = true.
Proof. unfold starts_minus, minus. by rewrite chars_of_chars, bool_decide_true. Qed.

Lemma slice1_minus s : slice1 (minus s) = s.
Proof. unfold slice1, minus. rewrite chars_of_chars. apply of_chars_chars. Qed.

Lemma starts_minus_sdec z : starts_minus (sdec z) = (z <? 0).
Proof.
  unfold sdec. destruct (Z.ltb_spec z 0); [apply starts_minus_minus|]. by apply dec_not_minus.
Qed.

Lemma magnitude_sdec z : magnitude (sdec z) = dec (Z.abs z).
Proof.
  unfold magnitude. rewrite starts_minus_sdec. unfold sdec.
  destruct (Z.ltb_spec z 0); [rewrite slice1_minus|]; f_equal; lia.
Qed.

Lemma sunits_minus s : sunits (minus s) = Z.opp <$> units (trim s).
Proof. unfold sunits. by rewrite starts_minus_minus, slice1_minus. Qed.

Lemma sunits_plain s : starts_minus s = false → sunits s = units (trim s).
Proof. unfold sunits. by intros ->. Qed.

Lemma sunits_sdec z : Z.abs z < LIMIT → sunits (sdec z) = Some z.
Proof.
  intros Hz. unfold sunits. rewrite starts_minus_sdec. unfold sdec.
  destruct (Z.ltb_spec z 0).
  - rewrite slice1_minus, trim_dec, units_dec_lt by lia. cbn. f_equal. lia.
  - rewrite trim_dec, units_dec_lt by lia. done.
Qed.

Lemma sunits_sdec_Some z a : sunits (sdec z) = Some a → a = z ∧ Z.abs z < LIMIT.
Proof.
  unfold sunits. rewrite starts_minus_sdec. unfold sdec. destruct (Z.ltb_spec z 0).
  - rewrite slice1_minus, trim_dec, units_dec by lia. destruct (Z.ltb_spec (- z) LIMIT); [|done].
    intros [= <-]. lia.
  - rewrite trim_dec, units_dec by lia. destruct (Z.ltb_spec z LIMIT); [|done]. intros [= <-]. lia.
Qed.

Lemma sunits_bounds s a : sunits s = Some a → Z.abs a < LIMIT.
Proof.
  unfold sunits. destruct (starts_minus s).
  - destruct (units (trim (slice1 s))) eqn:E; [|done]. intros [= <-]. apply units_bounds in E. lia.
  - intros H%units_bounds. lia.
Qed.

Lemma sdec_0 : sdec 0 = "0".
Proof. apply dec_0. Qed.

Lemma sdec_is_0 z : bool_decide (sdec z = "0") = (z =? 0).
Proof.
  unfold sdec. destruct (Z.ltb_spec z 0); [|by apply dec_is_0].
  rewrite (proj2 (Z.eqb_neq z 0)) by lia. apply bool_decide_eq_false. intros H0.
  apply (f_equal starts_minus) in H0. rewrite starts_minus_minus in H0. by vm_compute in H0.
Qed.

Lemma signedDecimal_spec v a : sunits v = Some a → signedDecimal v = Ok (sdec a).
Proof.
  unfold sunits, signedDecimal, sdec. destruct (starts_minus v).
  - destruct (units (trim (slice1 v))) as [b|] eqn:E; [|done]. intros [= <-].
    rewrite (decimal_spec _ b) by done. cbn. pose proof (units_nonneg _ _ E).
    rewrite dec_is_0 by done. destruct (Z.eqb_spec b 0) as [->|]; cbn; [done|].
    destruct (Z.ltb_spec (- b) 0); [|lia]. by rewrite Z.opp_involutive.
  - intros E. rewrite (decimal_spec _ a) by done. cbn. pose proof (units_nonneg _ _ E).
    destruct (Z.ltb_spec a 0); [lia|done].
Qed.

Lemma signedDecimal_inv v s : signedDecimal v = Ok s → ∃ a, sunits v = Some a ∧ s = sdec a.
Proof.
  intros H. pose proof H as H'. unfold signedDecimal in H'. apply bind_Ok in H' as (n & Hn & _).
  apply decimal_inv in Hn as (a & Ha & _).
  assert (∃ b, sunits v = Some b) as [b Hb].
  { unfold sunits. destruct (starts_minus v); rewrite Ha; eexists; done. }
  exists b. split; [done|]. rewrite (signedDecimal_spec _ _ Hb) in H. by injection H as <-.
Qed.

Lemma negateSignedDecimal_spec v a : sunits v = Some a → negateSignedDecimal v = Ok (sdec (- a)).
Proof.
  intros H. unfold negateSignedDecimal. rewrite (signedDecimal_spec _ _ H). cbn.
  rewrite sdec_is_0, starts_minus_sdec. destruct (Z.eqb_spec a 0) as [->|]; [by rewrite Z.opp_0, sdec_0|].
  unfold sdec. destruct (Z.ltb_spec a 0), (Z.ltb_spec (- a) 0); try lia.
  - by rewrite slice1_minus.
  - by rewrite Z.opp_involutive.
Qed.

Lemma negateSignedDecimal_inv v s : negateSignedDecimal v = Ok s → ∃ a, sunits v = Some a ∧ s = sdec (- a).
Proof.
  intros H. pose proof H as H'. unfold negateSignedDecimal in H'. apply bind_Ok in H' as (n & Hn & _).
  apply signedDecimal_inv in Hn as (a & Ha & _). exists a. split; [done|].
  rewrite (negateSignedDecimal_spec _ _ Ha) in H. by injection H as <-.
Qed.

Lemma addSignedDecimal_spec l r a b :
  sunits l = Some a → sunits r = Some b → addSignedDecimal l r = Ok (sdec (a + b)).
Proof.
  intros Ha Hb. unfold addSignedDecimal.
  rewrite (signedDecimal_spec _ _ Ha), (signedDecimal_spec _ _ Hb). cbn [mbind result_bind].
  rewrite !starts_minus_sdec, !magnitude_sdec.
  pose proof (sunits_bounds _ _ Ha) as Ba. pose proof (sunits_bounds _ _ Hb) as Bb.
  assert (units (dec (Z.abs a)) = Some (Z.abs a)) as Ua by (apply units_dec_lt; lia).
  assert (units (dec (Z.abs b)) = Some (Z.abs b)) as Ub by (apply units_dec_lt; lia).
  destruct (Bool.eqb (a <? 0) (b <? 0)) eqn:Eq.
  - rewrite (addDecimal_spec _ _ _ _ Ua Ub). cbn [mbind result_bind].
    rewrite dec_is_0 by lia. apply Bool.eqb_prop in Eq. unfold sdec.
    destruct (Z.ltb_spec a 0), (Z.ltb_spec b 0), (Z.ltb_spec (a + b) 0), (Z.eqb_spec (Z.abs a + Z.abs b) 0);
      try done; try lia; cbn; f_equal; try (apply (f_equal minus)); apply (f_equal dec); lia.
  - rewrite (compareDecimal_spec _ _ _ _ Ua Ub). cbn [mbind result_bind].
    destruct (cmpZ_spec (Z.abs a) (Z.abs b)) as (_ & Hgt & Heq). rewrite Hgt, Heq.
    apply Bool.eqb_false_iff in Eq.
    destruct (Z.eqb_spec (Z.abs a) (Z.abs b)).
    { destruct (Z.ltb_spec a 0), (Z.ltb_spec b 0); try done; replace (a + b) with 0 by lia; by rewrite sdec_0. }
    rewrite (subtractDecimal_spec _ _ _ _ Ua Ub), (subtractDecimal_spec _ _ _ _ Ub Ua), !Z.gtb_ltb.
    unfold sdec.
    destruct (Z.ltb_spec (Z.abs b) (Z.abs a)), (Z.ltb_spec (Z.abs a) (Z.abs b)); try lia; cbn [mbind result_bind];
      destruct (Z.ltb_spec a 0), (Z.ltb_spec b 0), (Z.ltb_spec (a + b) 0); try done; try lia;
      f_equal; try (apply (f_equal minus)); apply (f_equal dec); lia.
Qed.

Lemma addSignedDecimal_inv l r s : addSignedDecimal l r = Ok s →
  ∃ a b, sunits l = Some a ∧ sunits r = Some b ∧ s = sdec (a + b).
Proof.
  intros H. pose proof H as H'. unfold addSignedDecimal in H'.
  apply bind_Ok in H' as (x & Hx & H'). apply bind_Ok in H' as (y & Hy & _).
  apply signedDecimal_inv in Hx as (a & Ha & _). apply signedDecimal_inv in Hy as (b & Hb & _).
  exists a, b. split_and!; try done. rewrite (addSignedDecimal_spec _ _ _ _ Ha Hb) in H. by injection H as <-.
Qed.

Lemma subtractSignedDecimal_spec l r a b :
  sunits l = Some a → sunits r = Some b → subtractSignedDecimal l r = Ok (sdec (a - b)).
Proof.
  intros Ha Hb. unfold subtractSignedDecimal. rewrite (negateSignedDecimal_spec _ _ Hb). cbn [mbind result_bind].
  rewrite (addSignedDecimal_spec _ _ a (- b)); [done|done|].
  apply sunits_sdec. pose proof (sunits_bounds _ _ Hb). lia.
Qed.

Lemma sunits_dec z : 0 <= z < LIMIT → sunits (dec z) = Some z.
Proof. intros Hz. unfold sunits. rewrite dec_not_minus, trim_dec by lia. by apply units_dec_lt. Qed.

Lemma sunits_units s a : units s = Some a → trim s = s → starts_minus s = false → sunits s = Some a.
Proof. intros Hu Ht Hm. unfold sunits. by rewrite Hm, Ht. Qed.

Lemma multiplySignedDecimal_spec l r a b :
  sunits l = Some a → sunits r = Some b → Z.abs (a * b) < LIMIT * ONE →
  multiplySignedDecimal l r = Ok (sdec (Z.quot (a * b) ONE)).
Proof.
  intros Ha Hb Hlt. unfold multiplySignedDecimal.
  rewrite (signedDecimal_spec _ _ Ha), (signedDecimal_spec _ _ Hb). cbn [mbind result_bind].
  pose proof (sunits_bounds _ _ Ha) as Ba. pose proof (sunits_bounds _ _ Hb) as Bb. pose proof ONE_pos.
  rewrite !magnitude_sdec, !starts_minus_sdec.
  rewrite (multiplyDecimal_spec _ _ (Z.abs a) (Z.abs b)) by (apply units_dec_lt; lia).
  cbn [mbind result_bind].
  set (m := Z.abs a * Z.abs b / ONE).
  assert (0 <= m < LIMIT) as Hm.
  { unfold m. split; [apply Z.div_pos; nia|]. apply Z.div_lt_upper_bound; nia. }
  assert (Z.quot (a * b) ONE = Z.sgn a * Z.sgn b * m) as ->.
  { unfold m. rewrite <-Z.abs_mul. destruct (Z.leb_spec 0 (a * b)).
    - rewrite Z.abs_eq, Z.quot_div_nonneg by lia. rewrite <-Z.sgn_mul.
      destruct (Z.eqb_spec (a * b) 0) as [->|]; [done|]. rewrite (Z.sgn_pos (a * b)) by lia. lia.
    - rewrite Z.abs_neq by lia. rewrite <-Z.sgn_mul, (Z.sgn_neg (a * b)) by lia.
      rewrite <-(Z.opp_involutive (a * b)) at 1. rewrite Z.quot_opp_l, Z.quot_div_nonneg by lia. lia. }
  assert (a = 0 ∨ b = 0 → m = 0) as Hz.
  { intros [-> | ->]; unfold m; rewrite Z.abs_0, ?Z.mul_0_r; apply Z.div_0_l; lia. }
  assert (Z.sgn a * Z.sgn b * m = if Bool.eqb (a <? 0) (b <? 0) then m else - m) as ->.
  { destruct (Z.ltb_spec a 0), (Z.ltb_spec b 0); cbn [Bool.eqb];
      destruct (decide (a = 0 ∨ b = 0)) as [Hab|Hab];
      try (rewrite (Hz Hab); lia);
      rewrite ?(Z.sgn_neg a), ?(Z.sgn_neg b), ?(Z.sgn_pos a), ?(Z.sgn_pos b) by lia; lia. }
  destruct (Bool.eqb (a <? 0) (b <? 0)); cbn [negb].
  - f_equal. unfold sdec. destruct (Z.ltb_spec m 0); [lia|done].
  - by rewrite (negateSignedDecimal_spec _ m) by (by apply sunits_dec).
Qed.

(** *** Exact products and allocations *)
Lemma reduce_scale_spec fuel c s c' s' :
  0 <= s → (Z.to_nat s <= fuel)%nat → 0 <= c → reduce_scale fuel c s = (c', s') →
  0 <= s' <= s ∧ c = c' * 10 ^ (s - s') ∧ 0 <= c' ∧ (s' = 0 ∨ c' mod 10 ≠ 0).
Proof.
  revert c s. induction fuel as [|fuel IH]; intros c s Hs Hf Hc; cbn [reduce_scale].
  - intros [= <- <-]. rewrite Z.sub_diag, Z.pow_0_r. lia.
  - rewrite Z.gtb_ltb. destruct (Z.ltb_spec 0 s); cbn [andb].
    2: { intros [= <- <-]. rewrite Z.sub_diag, Z.pow_0_r. lia. }
    destruct (Z.eqb_spec (c mod 10) 0) as [Hm|Hm].
    2: { intros [= <- <-]. rewrite Z.sub_diag, Z.pow_0_r. lia. }
    intros Hr. apply IH in Hr as (Hs' & Hc' & Hpos & Hstop); [|lia|lia|apply Z.div_pos; lia].
    split_and!; try lia; try done.
    replace (s - s') with (Z.succ (s - 1 - s')) by lia. rewrite Z.pow_succ_r by lia.
    pose proof (Z.div_mod c 10). lia.
Qed.

Lemma pow10_not_div c k : 0 <= c → 0 < k → c mod 10 ≠ 0 → c * 10 ^ (18 - k) mod ONE ≠ 0 ∨ 18 < k.
Proof.
  intros Hc Hk Hm. destruct (Z.ltb_spec 18 k); [by right|left].
  rewrite <-(ONE_pow k) by lia. intros H0.
  rewrite Z.mul_mod_distr_r in H0 by (apply Z.pow_nonzero; lia).
  pose proof (pow10_pos (18 - k)). assert (c mod 10 ^ k = 0) as Hck by nia.
  apply Hm. apply Z.mod_divide; [lia|]. apply Z.mod_divide in Hck; [|apply Z.pow_nonzero; lia].
  destruct Hck as [q ->]. exists (q * 10 ^ (k - 1)).
  replace k with (Z.succ (k - 1)) at 1 by lia. rewrite Z.pow_succ_r by lia. lia.
Qed.

Section ExactProduct.
  Context (l r : string) (a b : Z) (Ha : sunits l = Some a) (Hb : sunits r = Some b).

  (** The exact product has a decimal iff [a * b] is a multiple of the quantum. *)
Lemma multiplyExact_core :
    multiplyExactSignedDecimal l r =
      if a * b mod ONE =? 0 then
        m ← decimal (dec (Z.abs a * Z.abs b / ONE)) false None;
        if negb (Bool.eqb (a <? 0) (b <? 0)) then negateSignedDecimal m else Ok m
      else throw "Exact monetary valuation exceeds supported decimal precision.".
  Proof using Ha Hb.
    unfold multiplyExactSignedDecimal.
    rewrite (signedDecimal_spec _ _ Ha), (signedDecimal_spec _ _ Hb). cbn [mbind result_bind].
    pose proof (sunits_bounds _ _ Ha) as Ba. pose proof (sunits_bounds _ _ Hb) as Bb. pose proof ONE_pos.
    rewrite !magnitude_sdec, !starts_minus_sdec.
    destruct (units_parse (dec (Z.abs a)) (Z.abs a)) as (pa & Epa & Eqa & Hsa & Hca); [apply units_dec_lt; lia|].
    destruct (units_parse (dec (Z.abs b)) (Z.abs b)) as (pb & Epb & Eqb & Hsb & Hcb); [apply units_dec_lt; lia|].
    rewrite Epa, Epb. cbn [mbind result_bind].
    destruct (reduce_scale _ _ _) as [c s] eqn:Er.
    apply reduce_scale_spec in Er as (Hs & Hcs & Hc & Hstop); [|lia|lia|nia].
    (* the product in units of 10^-36 *)
    assert (Z.abs a * Z.abs b = c * 10 ^ (36 - s)) as Hprod.
    { rewrite Eqa, Eqb. replace (36 - s) with ((scale pa + scale pb - s) + (18 - scale pa) + (18 - scale pb)) by lia.
      rewrite !Z.pow_add_r, !Z.mul_assoc, <-Hcs by lia. ring. }
    assert ((a * b mod ONE =? 0) = (Z.abs a * Z.abs b mod ONE =? 0)) as ->.
    { rewrite <-Z.abs_mul. destruct (Z.leb_spec 0 (a * b)); [by rewrite Z.abs_eq by lia|].
      rewrite Z.abs_neq by lia. destruct (Z.eqb_spec (a * b mod ONE) 0) as [E|E].
      - by rewrite Z.mod_opp_l_z by lia.
      - rewrite Z.mod_opp_l_nz by lia. symmetry. apply Z.eqb_neq.
        pose proof (Z.mod_pos_bound (a * b) ONE ltac:(lia)). lia. }
    rewrite Hprod, Z.gtb_ltb. destruct (Z.ltb_spec 18 s) as [Hbig|Hsmall].
    - destruct Hstop as [->|Hnz]; [lia|].
      assert (c * 10 ^ (36 - s) mod ONE ≠ 0) as Hne.
      { replace (36 - s) with (18 - (s - 18)) by lia.
        destruct (pow10_not_div c (s - 18)) as [?|?]; [lia|lia|done|done|lia]. }
      by rewrite (proj2 (Z.eqb_neq _ _) Hne).
    - replace (36 - s) with ((18 - s) + 18) by lia. rewrite Z.pow_add_r, Z.mul_assoc by lia.
      change (10 ^ 18) with ONE. rewrite Z.mod_mul, Z.div_mul by lia. cbn [Z.eqb].
      by rewrite format_dec by lia.
  Qed.

Lemma multiplyExactSignedDecimal_spec z : a * b = z * ONE → Z.abs z < LIMIT →
    multiplyExactSignedDecimal l r = Ok (sdec z).
  Proof using Ha Hb.
    intros Hz Hlt. pose proof ONE_pos. rewrite multiplyExact_core, Hz, Z.mod_mul by lia. cbn [Z.eqb].
    rewrite <-Z.abs_mul, Hz, Z.abs_mul, (Z.abs_eq ONE), Z.div_mul by lia.
    rewrite (decimal_spec _ (Z.abs z)) by (rewrite trim_dec by lia; apply units_dec_lt; lia).
    cbn [mbind result_bind].
    assert ((z < 0 ∧ Bool.eqb (a <? 0) (b <? 0) = false) ∨ (0 <= z ∧ Bool.eqb (a <? 0) (b <? 0) = true)
      ∨ z = 0) as Hsign.
    { destruct (Z.ltb_spec a 0), (Z.ltb_spec b 0), (Z.ltb_spec z 0); cbn [Bool.eqb]; try (left; nia);
        try (right; left; nia); right; right; nia. }
    destruct Hsign as [[Hneg ->]|[[Hpos ->]| ->]]; cbn [negb].
    - rewrite (negateSignedDecimal_spec _ (Z.abs z)) by (apply sunits_dec; lia). do 2 f_equal. lia.
    - f_equal. unfold sdec. destruct (Z.ltb_spec z 0); [lia|]. by rewrite Z.abs_eq.
    - rewrite Z.abs_0. destruct (negb _); [|by rewrite sdec_0, dec_0].
      by rewrite (negateSignedDecimal_spec _ 0) by (apply sunits_dec; lia).
  Qed.

Lemma multiplyExactSignedDecimal_inexact : a * b mod ONE ≠ 0 →
    multiplyExactSignedDecimal l r = throw "Exact monetary valuation exceeds supported decimal precision.".
  Proof using Ha Hb. intros Hne. rewrite multiplyExact_core. by rewrite (proj2 (Z.eqb_neq _ _) Hne). Qed.
End ExactProduct.

Lemma multiplyExactSignedDecimal_inv l r s : multiplyExactSignedDecimal l r = Ok s →
  ∃ a b z, sunits l = Some a ∧ sunits r = Some b ∧ a * b = z * ONE ∧ Z.abs z < LIMIT ∧ s = sdec z.
Proof.
  intros H. pose proof H as H'. unfold multiplyExactSignedDecimal in H'. pose proof ONE_pos.
  apply bind_Ok in H' as (x & Hx & H'). apply bind_Ok in H' as (y & Hy & _).
  apply signedDecimal_inv in Hx as (a & Ha & _). apply signedDecimal_inv in Hy as (b & Hb & _).
  destruct (Z.eqb_spec (a * b mod ONE) 0) as [E|E].
  - apply Z.mod_divide in E as [z Hz]; [|lia]. exists a, b, z.
    pose proof H as H'. rewrite (multiplyExact_core _ _ a b Ha Hb), Hz, Z.mod_mul in H' by lia. cbn [Z.eqb] in H'.
    apply bind_Ok in H' as (m & Hm & _). apply decimal_inv in Hm as (w & Hw & _).
    rewrite <-Z.abs_mul, Hz, Z.abs_mul, (Z.abs_eq ONE), Z.div_mul in Hw by lia.
    rewrite trim_dec in Hw by lia. apply units_dec_Some in Hw as [-> Hlt]; [|lia].
    split_and!; try done. rewrite (multiplyExactSignedDecimal_spec _ _ a b Ha Hb z) in H by done. by injection H as <-.
  - rewrite (multiplyExactSignedDecimal_inexact _ _ a b) in H by done. done.
Qed.
#[global] Opaque sdec sunits.

(** ** Properties *)

(** C30: on accepted operands the decimal operations are exact (comparison,
    addition, and subtraction, which throws exactly when the result would be
    negative) or truncate to the 10^-18 quantum (product, quotient). *)
Theorem decimal_operations_exact l r a b : units l = Some a → units r = Some b →
  compareDecimal l r = Ok (cmpZ a b) ∧
  addDecimal l r = Ok (dec (a + b)) ∧
  subtractDecimal l r =
    (if b >? a then throw "Unsigned decimal subtraction would be negative." else Ok (dec (a - b))) ∧
  multiplyDecimal l r = Ok (dec (a * b / ONE)) ∧
  divideDecimal l r 18 = if b =? 0 then throw "Division by zero." else Ok (dec (a * ONE / b)).
Proof.
  intros Ha Hb. split; [by apply compareDecimal_spec|]. split; [by apply addDecimal_spec|].
  split; [by apply subtractDecimal_spec|]. split; [by apply multiplyDecimal_spec|].
  destruct (Z.eqb_spec b 0) as [->|Hne].
  - destruct (units_parse _ _ Ha) as (p & Hp & _). destruct (units_parse _ _ Hb) as (q & Hq & H0 & Hs & Hc).
    unfold divideDecimal. rewrite Hp, Hq. cbn [mbind result_bind].
    pose proof (pow10_pos (18 - scale q)). by rewrite (proj2 (Z.eqb_eq _ _)) by nia.
  - rewrite (divideDecimal_spec _ _ a b) by (done || lia). change (10 ^ 18) with ONE.
    by rewrite Z.sub_diag, Z.pow_0_r, Z.mul_1_r.
Qed.

Lemma decimal_operations_exact_witness :
  units "1.25" = Some (125 * 10 ^ 16) ∧ units "0.50" = Some (5 * 10 ^ 17) ∧
  addDecimal "1.25" "0.50" = Ok "1.75".
Proof.
  assert (units "1.25" = Some (125 * 10 ^ 16)) as H1 by (vm_compute; reflexivity).
  assert (units "0.50" = Some (5 * 10 ^ 17)) as H2 by (vm_compute; reflexivity).
  split; [exact H1|]. split; [exact H2|].
  destruct (decimal_operations_exact _ _ _ _ H1 H2) as (_ & H & _). rewrite H. vm_compute. reflexivity.
Defined.

(** [decimal] normalises: its result denotes the same value as the trimmed
    input, is a fixed point of [decimal] under the same options, and two
    accepted inputs of equal value get the same text. *)
Theorem decimal_normal_form v w pos mx s t :
  decimal v pos mx = Ok s → decimal w pos mx = Ok t →
  units s = units (trim v) ∧ decimal s pos mx = Ok s ∧ (units (trim v) = units (trim w) ↔ s = t).
Proof.
  intros Hs Ht. pose proof Hs as Hs'.
  apply decimal_inv in Hs' as (a & Ha & -> & Hab & Hpos & _).
  apply decimal_inv in Ht as (b & Hb & -> & Hbb & _).
  rewrite units_dec_lt by done. split; [done|]. split.
  - assert (units (trim (dec a)) = Some a) as Hd by (rewrite trim_dec by lia; by apply units_dec_lt).
    unfold decimal in Hs |- *.
    destruct (units_parse _ _ Ha) as (p & Hp & Ep & Hps & Hpc). destruct (units_parse _ _ Hd) as (q & Hq & Eq & Hqs & Hqc).
    rewrite Hp in Hs. rewrite Hq. cbn [mbind result_bind] in Hs |- *.
    rewrite format_dec in Hs |- * by lia. rewrite <-Ep in Hs. rewrite <-Eq. cbn [mbind result_bind] in Hs |- *.
    pose proof (pow10_pos (18 - scale p)). pose proof (pow10_pos (18 - scale q)).
    assert ((coefficient q =? 0) = (coefficient p =? 0)) as ->; [|done].
    destruct (Z.eqb_spec (coefficient q) 0), (Z.eqb_spec (coefficient p) 0); try done; nia.
  - rewrite Ha, Hb. split; [by intros [= ->]|]. intros E. f_equal. apply dec_inj; [lia|lia|done].
Qed.

(** A sum that reaches 10^36 is still returned, but as text that every
    decimal operation refuses: the 36-digit bound is enforced at the next use. *)
Theorem add_overflow_refused l r a b :
  units l = Some a → units r = Some b → LIMIT <= a + b →
  ∃ s, addDecimal l r = Ok s ∧ units s = None ∧
    ∀ x, is_ok (addDecimal s x) = false ∧ is_ok (compareDecimal s x) = false ∧ is_ok (decimal s false None) = false.
Proof.
  intros Ha Hb Hlim. exists (dec (a + b)). pose proof (units_nonneg _ _ Ha). pose proof (units_nonneg _ _ Hb).
  split; [by apply addDecimal_spec|].
  assert (units (dec (a + b)) = None) as Hn.
  { rewrite units_dec by lia. by rewrite (proj2 (Z.ltb_ge _ _)) by lia. }
  split; [done|]. intros x. split_and!.
  - destruct (addDecimal (dec (a + b)) x) eqn:E; [|done]. apply addDecimal_inv in E as (? & ? & ? & _). congruence.
  - destruct (compareDecimal (dec (a + b)) x) eqn:E; [|done]. apply compareDecimal_inv in E as (? & ? & ? & _). congruence.
  - destruct (decimal (dec (a + b)) false None) eqn:E; [|done]. apply decimal_inv in E as (? & H1 & _).
    rewrite trim_dec in H1 by lia. congruence.
Qed.

(** [quantizeDecimalDown] returns the largest multiple of the increment not
    above the value; it throws on a zero increment. *)
Theorem quantize_down_grid v i s : quantizeDecimalDown v i = Ok s →
  ∃ a b q, units v = Some a ∧ units i = Some b ∧ units s = Some (q * b) ∧ 0 < b ∧ q * b <= a < (q + 1) * b.
Proof.
  intros H. apply quantizeDecimalDown_inv in H as (a & b & Ha & Hb & Hpos & Hlt & ->).
  pose proof (units_bounds _ _ Ha). pose proof (Z.mul_div_le a b Hpos). pose proof (Z.mul_succ_div_gt a b Hpos).
  exists a, b, (a / b). split_and!; try done; try nia.
  apply units_dec_lt. split; [|lia]. apply Z.mul_nonneg_nonneg; [apply Z.div_pos|]; lia.
Qed.

(** Signed addition, subtraction and negation are exact integer arithmetic
    on units, whatever the signs, and print a canonical text without "-0". *)
Theorem signed_arithmetic_exact l r a b : sunits l = Some a → sunits r = Some b →
  addSignedDecimal l r = Ok (sdec (a + b)) ∧ subtractSignedDecimal l r = Ok (sdec (a - b)) ∧
  negateSignedDecimal l = Ok (sdec (- a)) ∧ signedDecimal l = Ok (sdec a) ∧
  starts_minus (sdec a) = (a <? 0) ∧ sunits (sdec a) = Some a.
Proof.
  intros Ha Hb. split_and!.
  - by apply addSignedDecimal_spec.
  - by apply subtractSignedDecimal_spec.
  - by apply negateSignedDecimal_spec.
  - by apply signedDecimal_spec.
  - apply starts_minus_sdec.
  - apply sunits_sdec. by eapply sunits_bounds.
Qed.

(** [multiplyExactSignedDecimal] returns the exact product or throws; it
    throws for accepted operands exactly when the product is not a multiple of
    10^-18 or exceeds the representable range, so a cost is never rounded. *)
Theorem exact_product_never_rounds l r a b : sunits l = Some a → sunits r = Some b →
  (∀ s, multiplyExactSignedDecimal l r = Ok s → ∃ z, sunits s = Some z ∧ z * ONE = a * b) ∧
  (is_ok (multiplyExactSignedDecimal l r) = true ↔ ∃ z, z * ONE = a * b ∧ Z.abs z < LIMIT).
Proof.
  intros Ha Hb. assert (∀ s, multiplyExactSignedDecimal l r = Ok s →
    ∃ z, s = sdec z ∧ z * ONE = a * b ∧ Z.abs z < LIMIT) as Hinv.
  { intros s H. apply multiplyExactSignedDecimal_inv in H as (a' & b' & z & Ha' & Hb' & Hz & Hl & ->).
    exists z. split_and!; [done|congruence|done]. }
  split.
  - intros s (z & -> & Hz & Hl)%Hinv. exists z. split; [by apply sunits_sdec|done].
  - split.
    + destruct (multiplyExactSignedDecimal l r) as [s|] eqn:E; [|done]. intros _.
      destruct (Hinv s eq_refl) as (z & _ & ? & ?). by exists z.
    + intros (z & Hz & Hl). by rewrite (multiplyExactSignedDecimal_spec _ _ a b Ha Hb z).
Qed.
