(* ===== verification/Rational.v ===== *)
(** Rational: [src/trading_rational.ts], exact fractions with bounded components.

    An [ExactRational] keeps the source's two strings.  [integers] accepts
    exactly the canonical prints of a numerator and a positive denominator of
    at most 256 digits, so an accepted value is a pair of integers; [denotes r q]
    says which rational number it is.  The shape checks the source makes on an
    unknown object (its keys and its prototype) hold of every Rocq record. *)

From S2P Require Import Prelude Text Decimal.
From Stdlib Require Ascii String.
From Stdlib Require Import QArith Qfield Lqa.
Local Open Scope Z_scope.

Record ExactRational := mkRational { numerator : string; denominator : string }.
Record RationalDecimalBounds := mkBounds { lower : string; upper : string; exact : bool }.

#[export] Instance ExactRational_eq_dec : EqDecision ExactRational.
Proof. solve_decision. Defined.

Inductive direction := floor | ceil.

(** [[1-9]\d{0,255}] *)
Definition positive_digits (l : list Ascii.ascii) : bool :=
  match l with
  | [] => false
  | c :: rest => is_digit c && negb (bool_decide (c = zero_char)) &&
                 forallb is_digit rest && (length rest <=? 255)%nat
  end.

(** [INTEGER] and [POSITIVE_INTEGER] *)
Definition INTEGER (s : string) : bool :=
  bool_decide (s = "0") || positive_digits (chars (magnitude s)).
Definition POSITIVE_INTEGER (s : string) : bool := positive_digits (chars s).

(** [BigInt(s)] on an optionally signed string of digits, and [String(z)]. *)
Definition bigint (l : list Ascii.ascii) : Z :=
  match l with
  | c :: l' => if decide (c = minus_char) then - digits l' else digits l
  | [] => 0
  end.
Definition show_chars (z : Z) : list Ascii.ascii :=
  if z <? 0 then minus_char :: to_digits (- z) else to_digits z.
Definition show (z : Z) : string := of_chars (show_chars z).

Definition integers (value : ExactRational) : result (Z * Z) :=
  if negb (INTEGER (numerator value)) || negb (POSITIVE_INTEGER (denominator value))
  then throw "Invalid bounded rational value."
  else Ok (bigint (chars (numerator value)), bigint (chars (denominator value))).

(** [while (divisor !== 0n) [dividend, divisor] = [divisor, dividend % divisor]];
    twice the bit length of the divisor, plus one, is enough fuel ([gcd_Zgcd]). *)
Fixpoint gcd_loop (fuel : nat) (dividend divisor : Z) : Z :=
  match fuel with
  | O => dividend
  | S fuel' => if divisor =? 0 then dividend else gcd_loop fuel' divisor (Z.rem dividend divisor)
  end.
Definition gcd (left right : Z) : Z :=
  let dividend := if left <? 0 then - left else left in
  let divisor := if right <? 0 then - right else right in
  gcd_loop (2 * Z.to_nat (Z.succ (Z.log2 divisor)) + 1) dividend divisor.

Definition fraction (n d : Z) : result ExactRational :=
  if d =? 0 then throw "Rational division by zero."
  else
    let '(n, d) := if d <? 0 then (- n, - d) else (n, d) in
    let divisor := gcd n d in
    let r := mkRational (show (Z.quot n divisor)) (show (Z.quot d divisor)) in
    _ ← integers r; Ok r.

Definition rational (value : ExactRational) : result ExactRational :=
  '(n, d) ← integers value; fraction n d.

Definition rationalFromDecimal (value : string) : result ExactRational :=
  if has_space value then throw "Invalid rational source decimal."
  else
    normalized ← signedDecimal value;
    let parts := split_chars dot_char (chars normalized) in
    let integer := default [] (parts !! 0%nat) in
    let tail := default [] (parts !! 1%nat) in
    fraction (bigint (integer ++ tail)) (10 ^ Z.of_nat (length tail)).

Definition addRational (left right : ExactRational) : result ExactRational :=
  '(a, b) ← integers left; '(c, d) ← integers right;
  let divisor := gcd b d in
  fraction (a * Z.quot d divisor + c * Z.quot b divisor) (b * Z.quot d divisor).

Definition multiplyRational (left right : ExactRational) : result ExactRational :=
  '(a, b) ← integers left; '(c, d) ← integers right;
  let first := gcd a d in let second := gcd c b in
  fraction (Z.quot a first * Z.quot c second) (Z.quot b second * Z.quot d first).

Definition divideRational (left right : ExactRational) : result ExactRational :=
  '(a, b) ← integers left; '(c, d) ← integers right;
  if c =? 0 then throw "Rational division by zero." else fraction (a * d) (b * c).

Definition compareRational (left right : ExactRational) : result Z :=
  '(a, b) ← integers left; '(c, d) ← integers right;
  let difference := a * d - c * b in
  if difference <? 0 then Ok (-1) else Ok (if difference >? 0 then 1 else 0).

Definition integerBounds (n d : Z) : Z * Z :=
  let quotient := Z.quot n d in let remainder := Z.rem n d in
  (quotient - (if remainder <? 0 then 1 else 0), quotient + (if remainder >? 0 then 1 else 0)).

Definition format (coefficient scale : Z) : result string :=
  let m := if coefficient <? 0 then - coefficient else coefficient in
  let ds := padStart (Z.to_nat (scale + 1)) (to_digits m) in
  let cut := (length ds - Z.to_nat scale)%nat in
  let unsigned := if scale =? 0 then ds else take cut ds ++ dot_char :: drop cut ds in
  signedDecimal (of_chars (if coefficient <? 0 then minus_char :: unsigned else unsigned)).

Definition rationalDecimalBounds (value : ExactRational) (scale : Z) : result RationalDecimalBounds :=
  if negb (isSafeInteger scale) || (scale <? 0) || (scale >? 18)
  then throw "Rational decimal scale must be 0 through 18."
  else
    '(n, d) ← integers value;
    let '(lo, up) := integerBounds (n * 10 ^ scale) d in
    l ← format lo scale; u ← format up scale;
    Ok (mkBounds l u (lo =? up)).

Definition quantizeRational (value : ExactRational) (increment : string) (dir : direction) : result string :=
  if negb (bool_decide (trim increment = increment)) then throw "Invalid rational increment."
  else
    i ← decimal increment true None;
    step ← rationalFromDecimal i;
    '(n, d) ← integers value; '(sn, sd) ← integers step;
    let '(lo, up) := integerBounds (n * sd) (d * sn) in
    let count := match dir with floor => lo | ceil => up end in
    c ← fraction count 1;
    r ← multiplyRational c step;
    bounds ← rationalDecimalBounds r 18;
    if negb (exact bounds) then throw "Rational increment cannot be represented exactly."
    else Ok (lower bounds).

(** ** Canonical integers *)
Definition RLIMIT : Z := 10 ^ 256.
Lemma RLIMIT_pow : RLIMIT = 10 ^ Z.of_nat 256.
Proof. done. Qed.
Lemma RLIMIT_pos : 1 < RLIMIT.
Proof. by vm_compute. Qed.
#[global] Opaque RLIMIT.

Lemma to_digits_of_digits l : Forall (λ c, is_digit c = true) l → l ≠ [] → head l ≠ Some zero_char →
  to_digits (digits l) = l.
Proof.
  induction l as [|c l IH] using rev_ind; [done|]. intros [Hl Hc]%Forall_app _ Hh.
  apply Forall_cons in Hc as [Hc _]. pose proof (digit_val_range _ Hc).
  rewrite digits_app, digits_singleton. change (10 ^ Z.of_nat (length [c])) with 10.
  destruct l as [|c0 l].
  - cbn [app]. unfold digits. cbn [fold_left]. rewrite to_digits_small by lia.
    by rewrite Z.mul_0_l, Z.add_0_l, digit_char_val.
  - assert (0 < digits (c0 :: l)).
    { change (c0 :: l) with ([c0] ++ l). rewrite digits_app, digits_singleton.
      apply Forall_cons in Hl as [Hc0 Hl]. pose proof (digits_nonneg _ Hl).
      pose proof (digit_val_range _ Hc0). assert (digit_val c0 ≠ 0).
      { intros E. apply Hh. cbn. f_equal. rewrite <-(digit_char_val c0), E by done. done. }
      pose proof (pow10_pos (Z.of_nat (length l))). nia. }
    rewrite to_digits_step by lia.
    rewrite Z.div_add_l, (Z.div_small (digit_val c)), Z.add_0_r by lia.
    rewrite Z.add_comm, Z.mod_add, Z.mod_small, digit_char_val by (done || lia).
    rewrite IH; [done..|]. exact Hh.
Qed.

Lemma positive_digits_spec l : positive_digits l = true →
  to_digits (digits l) = l ∧ 0 < digits l < RLIMIT.
Proof.
  destruct l as [|c rest]; [done|]. unfold positive_digits.
  rewrite !andb_true_iff, negb_true_iff, bool_decide_eq_false, forallb_digits, Nat.leb_le.
  intros [[[Hc Hz] Hr] Hl].
  assert (Forall (λ c, is_digit c = true) (c :: rest)) as Hall by by constructor.
  pose proof (to_digits_of_digits (c :: rest) Hall ltac:(done) ltac:(cbn; congruence)) as Heq.
  pose proof (digits_nonneg _ Hall) as [Hnn Hlt]. split; [done|]. split.
  - destruct (decide (digits (c :: rest) = 0)) as [E|]; [|lia]. rewrite E in Heq.
    change (to_digits 0) with [zero_char] in Heq. congruence.
  - eapply Z.lt_le_trans; [exact Hlt|]. rewrite RLIMIT_pow. apply Z.pow_le_mono_r; [lia|]. cbn [length]. lia.
Qed.

Lemma positive_digits_to_digits z : 0 < z → positive_digits (to_digits z) = (z <? RLIMIT).
Proof.
  intros Hz. destruct (to_digits_head z Hz) as (c & l & Heq & Hc & Hd).
  pose proof (to_digits_digits z ltac:(lia)) as Hall. rewrite Heq in Hall |- *.
  apply Forall_cons in Hall as [_ Hall]. apply forallb_digits in Hall.
  cbn [positive_digits]. rewrite Hd, bool_decide_false, Hall by done. cbn [negb andb].
  destruct (Z.ltb_spec z RLIMIT).
  - apply Nat.leb_le. pose proof (to_digits_length z 255 ltac:(rewrite RLIMIT_pow in *; lia)) as Hl. rewrite Heq in Hl. cbn in Hl. lia.
  - apply Nat.leb_gt. pose proof (to_digits_length_ge z 256 ltac:(rewrite RLIMIT_pow in *; lia)) as Hl. rewrite Heq in Hl. cbn in Hl. lia.
Qed.

Lemma bigint_show z : bigint (show_chars z) = z.
Proof.
  unfold show_chars. destruct (Z.ltb_spec z 0).
  - cbn [bigint]. rewrite decide_True by done. rewrite digits_to_digits by lia. lia.
  - destruct (to_digits_cons z) as (c & l & Heq & Hc); [done|].
    rewrite <-(digits_to_digits z) at 2 by done. rewrite Heq. cbn [bigint].
    rewrite decide_False; [done|]. by intros ->.
Qed.

(** A separator that is no digit and no sign. *)
Lemma show_no_char c z : is_digit c = false → c ≠ minus_char → c ∉ chars (show z).
Proof.
  intros Hc Hm. unfold show, show_chars. rewrite chars_of_chars. destruct (Z.ltb_spec z 0).
  - intros [->|Hin]%elem_of_cons; [done|]. revert Hin. apply digits_no_char; [done|]. apply to_digits_digits. lia.
  - apply digits_no_char; [done|]. apply to_digits_digits. lia.
Qed.

Lemma starts_minus_show z : starts_minus (show z) = (z <? 0).
Proof.
  unfold starts_minus, show. rewrite chars_of_chars. unfold show_chars.
  destruct (Z.ltb_spec z 0); [by rewrite bool_decide_true|].
  destruct (to_digits_cons z) as (c & l & -> & Hc); [done|]. apply bool_decide_eq_false. by intros ->.
Qed.

Lemma show_inj a b : show a = show b → a = b.
Proof. intros H%of_chars_inj. by rewrite <-(bigint_show a), <-(bigint_show b), H. Qed.

Lemma INTEGER_show z : INTEGER (show z) = (Z.abs z <? RLIMIT).
Proof.
  unfold INTEGER, magnitude. rewrite starts_minus_show. pose proof RLIMIT_pos.
  destruct (Z.eqb_spec z 0) as [->|Hz].
  { rewrite bool_decide_true by done. cbn. symmetry. apply Z.ltb_lt. lia. }
  rewrite bool_decide_false; [|intros E; apply Hz, show_inj; rewrite E; done]. cbn [orb].
  unfold slice1, show, show_chars. destruct (Z.ltb_spec z 0); rewrite !chars_of_chars.
  - cbn [tail]. rewrite positive_digits_to_digits by lia. f_equal. lia.
  - rewrite positive_digits_to_digits by lia. f_equal. lia.
Qed.

Lemma POSITIVE_INTEGER_show z : 0 < z → POSITIVE_INTEGER (show z) = (z <? RLIMIT).
Proof.
  intros Hz. unfold POSITIVE_INTEGER, show, show_chars. destruct (Z.ltb_spec z 0); [lia|].
  rewrite chars_of_chars. by apply positive_digits_to_digits.
Qed.

Lemma INTEGER_inv s : INTEGER s = true → ∃ z, s = show z ∧ Z.abs z < RLIMIT.
Proof.
  unfold INTEGER, magnitude, starts_minus. pose proof RLIMIT_pos.
  intros [H0%bool_decide_eq_true|H1]%orb_true_iff; [exists 0; split; [done|lia]|].
  destruct (chars s) as [|c l] eqn:E.
  { cbn in H1. by rewrite E in H1. }
  case_bool_decide as Hc.
  - unfold slice1 in H1. rewrite E, chars_of_chars in H1. cbn [tail] in H1.
    apply positive_digits_spec in H1 as [Heq Hb]. exists (- digits l). split; [|lia].
    rewrite <-(of_chars_chars s), E. unfold show, show_chars.
    destruct (Z.ltb_spec (- digits l) 0); [|lia]. by rewrite Z.opp_involutive, Heq, Hc.
  - rewrite E in H1. apply positive_digits_spec in H1 as [Heq Hb].
    exists (digits (c :: l)). split; [|lia].
    rewrite <-(of_chars_chars s), E. unfold show, show_chars.
    destruct (Z.ltb_spec (digits (c :: l)) 0); [lia|]. by rewrite Heq.
Qed.

Lemma POSITIVE_INTEGER_inv s : POSITIVE_INTEGER s = true → ∃ z, s = show z ∧ 0 < z < RLIMIT.
Proof.
  unfold POSITIVE_INTEGER. intros [Heq Hb]%positive_digits_spec. exists (digits (chars s)).
  split; [|done]. rewrite <-(of_chars_chars s) at 1. unfold show, show_chars.
  destruct (Z.ltb_spec (digits (chars s)) 0); [lia|]. by rewrite Heq.
Qed.

(** An accepted rational is the canonical print of two bounded integers. *)
Definition ratio (n d : Z) : ExactRational := mkRational (show n) (show d).
Definition rbound (n d : Z) : Prop := Z.abs n < RLIMIT ∧ 0 < d < RLIMIT.

Lemma integers_ratio n d : 0 < d →
  integers (ratio n d) = if (Z.abs n <? RLIMIT) && (d <? RLIMIT) then Ok (n, d)
                         else throw "Invalid bounded rational value.".
Proof.
  intros Hd. unfold integers, ratio. cbn [numerator denominator].
  rewrite INTEGER_show, POSITIVE_INTEGER_show by done. unfold show. rewrite !chars_of_chars, !bigint_show.
  by destruct (Z.abs n <? RLIMIT), (d <? RLIMIT).
Qed.

Lemma integers_Ok r n d : integers r = Ok (n, d) ↔ r = ratio n d ∧ rbound n d.
Proof.
  split.
  - destruct r as [ns ds]. intros H. pose proof H as H'. unfold integers in H'. cbn [numerator denominator] in H'.
    destruct (INTEGER ns) eqn:En, (POSITIVE_INTEGER ds) eqn:Ed; try done.
    apply INTEGER_inv in En as (zn & -> & Hn). apply POSITIVE_INTEGER_inv in Ed as (zd & -> & Hd).
    fold (ratio zn zd) in *. rewrite integers_ratio in H by lia.
    destruct ((Z.abs zn <? RLIMIT) && (zd <? RLIMIT)); [|done]. injection H as <- <-. done.
  - intros [-> [Hn Hd]]. rewrite integers_ratio by lia.
    by rewrite (proj2 (Z.ltb_lt _ _) Hn), (proj2 (Z.ltb_lt d _)) by lia.
Qed.

(** ** Euclid's loop computes the greatest common divisor *)
Lemma gcd_loop_spec k fuel a b : 0 <= a → 0 <= b < 2 ^ Z.of_nat k → (2 * k + 1 <= fuel)%nat →
  gcd_loop fuel a b = Z.gcd a b.
Proof.
  revert fuel a b. induction k as [|k IH]; intros fuel a b Ha Hb Hf.
  - destruct fuel as [|fuel]; [lia|]. cbn [gcd_loop]. change (2 ^ Z.of_nat 0) with 1 in Hb.
    assert (b = 0) as -> by lia. rewrite Z.gcd_0_r, Z.abs_eq by lia. done.
  - destruct fuel as [|[|fuel]]; try lia. cbn [gcd_loop].
    rewrite Nat2Z.inj_succ, Z.pow_succ_r in Hb by lia.
    destruct (Z.eqb_spec b 0) as [->|Hb0]; [by rewrite Z.gcd_0_r, Z.abs_eq by lia|].
    rewrite (Z.rem_mod_nonneg a b) by lia. pose proof (Z.mod_pos_bound a b ltac:(lia)).
    assert (Z.gcd a b = Z.gcd b (a mod b)) as -> by (rewrite (Z.gcd_comm b), Z.gcd_mod by lia; apply Z.gcd_comm).
    destruct (Z.eqb_spec (a mod b) 0) as [->|Hr]; [by rewrite Z.gcd_0_r, Z.abs_eq by lia|].
    rewrite (Z.rem_mod_nonneg b) by lia. set (r := a mod b) in *.
    pose proof (Z.mod_pos_bound b r ltac:(lia)).
    rewrite IH; [|lia| |lia].
    + rewrite (Z.gcd_comm r), Z.gcd_mod by lia. apply Z.gcd_comm.
    + split; [lia|]. pose proof (Z.div_mod b r ltac:(lia)).
      assert (1 <= b / r) by (apply Z.div_le_lower_bound; lia). nia.
Qed.

Lemma gcd_Zgcd a b : gcd a b = Z.gcd a b.
Proof.
  unfold gcd.
  assert ((if a <? 0 then - a else a) = Z.abs a) as -> by (destruct (Z.ltb_spec a 0); lia).
  assert ((if b <? 0 then - b else b) = Z.abs b) as -> by (destruct (Z.ltb_spec b 0); lia).
  rewrite (gcd_loop_spec (Z.to_nat (Z.succ (Z.log2 (Z.abs b))))); [|lia| |lia].
  - by rewrite Z.gcd_abs_l, Z.gcd_abs_r.
  - split; [lia|]. pose proof (Z.log2_nonneg (Z.abs b)). rewrite Z2Nat.id by lia.
    destruct (decide (Z.abs b = 0)) as [->|]; [done|]. apply Z.log2_spec. lia.
Qed.

(** ** Values *)
Definition rat (n d : Z) : Q := n # Z.to_pos d.

Lemma rat_eq a b c d : 0 < b → 0 < d → (rat a b == rat c d)%Q ↔ a * d = c * b.
Proof. intros. unfold rat, Qeq. cbn [Qnum Qden]. rewrite !Z2Pos.id by lia. done. Qed.

Lemma rat_le a b c d : 0 < b → 0 < d → (rat a b <= rat c d)%Q ↔ a * d <= c * b.
Proof. intros. unfold rat, Qle. cbn [Qnum Qden]. rewrite !Z2Pos.id by lia. done. Qed.

Lemma rat_lt a b c d : 0 < b → 0 < d → (rat a b < rat c d)%Q ↔ a * d < c * b.
Proof. intros. unfold rat, Qlt. cbn [Qnum Qden]. rewrite !Z2Pos.id by lia. done. Qed.

Lemma rat_add a b c d : 0 < b → 0 < d → (rat a b + rat c d == rat (a * d + c * b) (b * d))%Q.
Proof.
  intros. unfold rat, Qplus, Qeq. cbn [Qnum Qden]. rewrite Pos2Z.inj_mul, !Z2Pos.id by nia. ring.
Qed.

Lemma rat_mul a b c d : 0 < b → 0 < d → (rat a b * rat c d == rat (a * c) (b * d))%Q.
Proof. intros. unfold rat, Qmult, Qeq. cbn [Qnum Qden]. rewrite Pos2Z.inj_mul, !Z2Pos.id by nia. ring. Qed.

Lemma rat_opp a b : (- rat a b == rat (- a) b)%Q.
Proof. done. Qed.

(** [denotes r q]: [r] is an accepted rational with value [q]. *)
Definition denotes (r : ExactRational) (q : Q) : Prop :=
  ∃ n d, integers r = Ok (n, d) ∧ (q == rat n d)%Q.

#[export] Instance denotes_proper r : Proper (Qeq ==> iff) (denotes r).
Proof. intros p q Hpq. unfold denotes. by setoid_rewrite Hpq. Qed.

Lemma denotes_fun r p q : denotes r p → denotes r q → (p == q)%Q.
Proof. intros (n & d & H1 & ->) (n' & d' & H2 & ->). rewrite H1 in H2. by injection H2 as <- <-. Qed.

Lemma integers_denotes r n d : integers r = Ok (n, d) → denotes r (rat n d).
Proof. intros H. exists n, d. by split. Qed.

(** ** [fraction] reduces to lowest terms, or refuses a result of more than 256 digits *)
Definition sign_fix (n d : Z) : Z * Z := if d <? 0 then (- n, - d) else (n, d).
(** The reduced numerator and denominator of [n / d] for [0 < d]. *)
Definition red_num (n d : Z) : Z := n / Z.gcd n d.
Definition red_den (n d : Z) : Z := d / Z.gcd n d.

Lemma red_spec n d : 0 < d →
  0 < Z.gcd n d ∧ n = red_num n d * Z.gcd n d ∧ d = red_den n d * Z.gcd n d ∧ 0 < red_den n d ∧
  Z.gcd (red_num n d) (red_den n d) = 1.
Proof.
  intros Hd. assert (0 < Z.gcd n d) as Hg.
  { pose proof (Z.gcd_nonneg n d). destruct (decide (Z.gcd n d = 0)) as [E|]; [|lia].
    apply Z.gcd_eq_0_r in E. lia. }
  unfold red_num, red_den.
  destruct (Z.gcd_divide_l n d) as [x Hx]. destruct (Z.gcd_divide_r n d) as [y Hy].
  assert (n / Z.gcd n d = x) as E1 by (rewrite Hx at 1; apply Z.div_mul; lia).
  assert (d / Z.gcd n d = y) as E2 by (rewrite Hy at 1; apply Z.div_mul; lia).
  rewrite E1, E2. split_and!; try done; try nia.
  rewrite <-E1, <-E2. apply Z.gcd_div_gcd; [lia|done].
Qed.

Lemma fraction_pos n d : 0 < d →
  fraction n d =
    if (Z.abs (red_num n d) <? RLIMIT) && (red_den n d <? RLIMIT) then Ok (ratio (red_num n d) (red_den n d))
    else throw "Invalid bounded rational value.".
Proof.
  intros Hd. unfold fraction. destruct (Z.eqb_spec d 0); [lia|]. destruct (Z.ltb_spec d 0); [lia|].
  rewrite gcd_Zgcd. destruct (red_spec n d Hd) as (Hg & Hn & Hdd & Hp & _).
  assert (Z.quot n (Z.gcd n d) = red_num n d) as -> by (rewrite Hn at 1; apply Z.quot_mul; lia).
  assert (Z.quot d (Z.gcd n d) = red_den n d) as -> by (rewrite Hdd at 1; apply Z.quot_mul; lia).
  fold (ratio (red_num n d) (red_den n d)). rewrite integers_ratio by done.
  by destruct ((Z.abs (red_num n d) <? RLIMIT) && (red_den n d <? RLIMIT)).
Qed.

Lemma fraction_neg n d : d < 0 → fraction n d = fraction (- n) (- d).
Proof.
  intros Hd. unfold fraction. destruct (Z.eqb_spec d 0), (Z.eqb_spec (- d) 0), (Z.ltb_spec d 0), (Z.ltb_spec (- d) 0); try lia.
  done.
Qed.

Lemma fraction_inv n d r : fraction n d = Ok r → 0 < d →
  ∃ n' d', integers r = Ok (n', d') ∧ (rat n' d' == rat n d)%Q ∧ Z.gcd n' d' = 1.
Proof.
  intros H Hd. rewrite fraction_pos in H by done. destruct (red_spec n d Hd) as (Hg & Hn & Hdd & Hp & Hgcd).
  destruct ((Z.abs (red_num n d) <? RLIMIT) && (red_den n d <? RLIMIT)) eqn:E; [|done]. injection H as <-.
  exists (red_num n d), (red_den n d). rewrite integers_ratio, E by done. split_and!; try done.
  apply rat_eq; [done|done|]. set (g := Z.gcd n d) in *. set (x := red_num n d) in *.
  set (y := red_den n d) in *. clearbody g x y. subst n d. ring.
Qed.

Lemma fraction_denotes n d r : fraction n d = Ok r → 0 < d → denotes r (rat n d).
Proof. intros H Hd. destruct (fraction_inv _ _ _ H Hd) as (n' & d' & Hi & Hq & _). exists n', d'. by rewrite Hq. Qed.

(** A fraction with bounded components always succeeds. *)
Lemma fraction_total n d : 0 < d → Z.abs n < RLIMIT → d < RLIMIT → ∃ r, fraction n d = Ok r.
Proof.
  intros Hd Hn Hlt. rewrite fraction_pos by done. destruct (red_spec n d Hd) as (Hg & En & Ed & Hp & _).
  assert (Z.abs (red_num n d) < RLIMIT) by (rewrite En, Z.abs_mul in Hn; nia).
  assert (red_den n d < RLIMIT) by nia.
  rewrite !(proj2 (Z.ltb_lt _ _)) by done. by eexists.
Qed.

(** The reduced form of a fraction is unique. *)
Lemma coprime_unique x y p q : 0 < y → 0 < q → Z.gcd x y = 1 → Z.gcd p q = 1 → x * q = p * y → x = p ∧ y = q.
Proof.
  intros Hy Hq Hxy Hpq E. assert (y = q) as ->; [|split; [nia|done]].
  apply Z.divide_antisym_nonneg; [lia|lia| |].
  - apply Z.gauss with x; [exists p; lia|by rewrite Z.gcd_comm].
  - apply Z.gauss with p; [exists x; lia|by rewrite Z.gcd_comm].
Qed.

(** [res] is the reduced fraction of value [v], refused when one of its
    components has more than 256 digits. *)
Definition lowest_terms (v : Q) (res : result ExactRational) : Prop :=
  ∀ p q, 0 < q → Z.gcd p q = 1 → (v == rat p q)%Q →
    res = if (Z.abs p <? RLIMIT) && (q <? RLIMIT) then Ok (ratio p q) else throw "Invalid bounded rational value.".

Lemma fraction_lowest n d v : 0 < d → (v == rat n d)%Q → lowest_terms v (fraction n d).
Proof.
  intros Hd Hv p q Hq Hg E. rewrite fraction_pos by done. destruct (red_spec n d Hd) as (Hgp & Hn & Hdd & Hp & Hgcd).
  rewrite Hv, rat_eq in E by done. set (g := Z.gcd n d) in *. set (x := red_num n d) in *.
  set (y := red_den n d) in *. clearbody g x y. destruct (coprime_unique x y p q) as [-> ->]; try done. subst n d. nia.
Qed.

(** ** Arithmetic: every operation ends in [fraction] on the exact value *)
Section Operands.
  Context (l r : ExactRational) (a b c d : Z).
  Context (Hl : integers l = Ok (a, b)) (Hr : integers r = Ok (c, d)).

Lemma operands_pos : 0 < b ∧ 0 < d.
  Proof using Hl Hr. apply integers_Ok in Hl as [_ [_ ?]]. apply integers_Ok in Hr as [_ [_ ?]]. lia. Qed.

Lemma addRational_frac : ∃ n e, addRational l r = fraction n e ∧ 0 < e ∧ (rat a b + rat c d == rat n e)%Q.
  Proof using Hl Hr.
    destruct operands_pos as [Hb Hd]. unfold addRational. rewrite Hl, Hr. cbn [mbind result_bind].
    rewrite gcd_Zgcd. destruct (red_spec b d ltac:(lia)) as (Hg & Eb & Ed & Hp & _).
    assert (Z.quot d (Z.gcd b d) = red_den b d) as Eq1 by (rewrite Ed at 1; apply Z.quot_mul; lia).
    assert (Z.quot b (Z.gcd b d) = red_num b d) as Eq2 by (rewrite Eb at 1; apply Z.quot_mul; lia).
    rewrite Eq1, Eq2. eexists _, _. split; [reflexivity|]. split; [nia|]. rewrite rat_add by lia.
    clear Hl Hr Eq1 Eq2. set (g := Z.gcd b d) in *. set (x := red_num b d) in *. set (y := red_den b d) in *.
    clearbody g x y. apply rat_eq; [nia|nia|]. subst b d. ring.
  Qed.

Lemma quot_exact n g x : 0 < g → n = x * g → Z.quot n g = x.
  Proof using Type. intros Hg ->. apply Z.quot_mul. lia. Qed.

Lemma multiplyRational_frac : ∃ n e, multiplyRational l r = fraction n e ∧ 0 < e ∧ (rat a b * rat c d == rat n e)%Q.
  Proof using Hl Hr.
    destruct operands_pos as [Hb Hd]. unfold multiplyRational. rewrite Hl, Hr. cbn [mbind result_bind].
    rewrite !gcd_Zgcd. destruct (red_spec a d ltac:(lia)) as (Hg & Ea & Ed & Hpd & _).
    destruct (red_spec c b ltac:(lia)) as (Hg2 & Ec & Eb & Hpb & _).
    rewrite (quot_exact a _ _ Hg Ea), (quot_exact d _ _ Hg Ed), (quot_exact c _ _ Hg2 Ec), (quot_exact b _ _ Hg2 Eb).
    eexists _, _. split; [reflexivity|]. split; [nia|]. rewrite rat_mul by lia. clear Hl Hr.
    set (g := Z.gcd a d) in *. set (h := Z.gcd c b) in *. set (u := red_num a d) in *. set (v := red_den a d) in *.
    set (x := red_num c b) in *. set (y := red_den c b) in *. clearbody g h u v x y.
    apply rat_eq; [nia|nia|]. subst a b c d. ring.
  Qed.

Lemma rat_zero : (rat c d == 0)%Q ↔ c = 0.
  Proof using Hl Hr. destruct operands_pos. change 0%Q with (rat 0 1). rewrite rat_eq by lia. lia. Qed.

Lemma divideRational_frac : c ≠ 0 →
    ∃ n e, divideRational l r = fraction n e ∧ 0 < e ∧ (rat a b / rat c d == rat n e)%Q.
  Proof using Hl Hr.
    intros Hc. destruct operands_pos as [Hb Hd]. unfold divideRational. rewrite Hl, Hr. cbn [mbind result_bind].
    destruct (Z.eqb_spec c 0) as [|_]; [done|].
    assert (∀ q, (q * rat c d == rat a b)%Q → (rat a b / rat c d == q)%Q) as Hdiv.
    { intros q Hq. rewrite <-Hq. field. by rewrite rat_zero. }
    destruct (Z.ltb_spec c 0).
    - rewrite fraction_neg by nia. eexists _, _. split; [reflexivity|]. split; [nia|]. apply Hdiv.
      rewrite rat_mul by nia. apply rat_eq; [nia|lia|]. ring.
    - eexists _, _. split; [reflexivity|]. split; [nia|]. apply Hdiv. rewrite rat_mul by nia. apply rat_eq; [nia|lia|]. ring.
  Qed.
End Operands.

Lemma addRational_inv l r s : addRational l r = Ok s →
  ∃ x y, denotes l x ∧ denotes r y ∧ denotes s (x + y)%Q.
Proof.
  intros H. pose proof H as H'. unfold addRational in H'.
  apply bind_Ok in H' as ([a b] & Hl & H'). apply bind_Ok in H' as ([c d] & Hr & _).
  destruct (addRational_frac _ _ _ _ _ _ Hl Hr) as (n & e & E & He & Hq). rewrite E in H. apply fraction_denotes in H; [|done].
  exists (rat a b), (rat c d). rewrite Hq. split_and!; [by apply integers_denotes..|done].
Qed.

Lemma multiplyRational_inv l r s : multiplyRational l r = Ok s →
  ∃ x y, denotes l x ∧ denotes r y ∧ denotes s (x * y)%Q.
Proof.
  intros H. pose proof H as H'. unfold multiplyRational in H'.
  apply bind_Ok in H' as ([a b] & Hl & H'). apply bind_Ok in H' as ([c d] & Hr & _).
  destruct (multiplyRational_frac _ _ _ _ _ _ Hl Hr) as (n & e & E & He & Hq). rewrite E in H. apply fraction_denotes in H; [|done].
  exists (rat a b), (rat c d). rewrite Hq. split_and!; [by apply integers_denotes..|done].
Qed.

Lemma divideRational_inv l r s : divideRational l r = Ok s →
  ∃ x y, denotes l x ∧ denotes r y ∧ ¬ (y == 0)%Q ∧ denotes s (x / y)%Q.
Proof.
  intros H. pose proof H as H'. unfold divideRational in H'.
  apply bind_Ok in H' as ([a b] & Hl & H'). apply bind_Ok in H' as ([c d] & Hr & H').
  destruct (Z.eqb_spec c 0) as [|Hc]; [done|].
  destruct (divideRational_frac _ _ _ _ _ _ Hl Hr Hc) as (n & e & E & He & Hq). rewrite E in H. apply fraction_denotes in H; [|done].
  exists (rat a b), (rat c d). rewrite Hq. split_and!; [by apply integers_denotes..| |done].
  by rewrite (rat_zero _ _ _ _ _ _ Hl Hr).
Qed.

(** The sign of a comparison result. *)
Definition sign_of (c : Z) (x y : Q) : Prop :=
  (c < 0 ↔ (x < y)%Q) ∧ (0 < c ↔ (y < x)%Q) ∧ (c = 0 ↔ (x == y)%Q).

Lemma compareRational_spec l r x y : denotes l x → denotes r y →
  ∃ c, compareRational l r = Ok c ∧ sign_of c x y.
Proof.
  intros (a & b & Hl & Ex) (c & d & Hr & Ey). unfold compareRational. rewrite Hl, Hr. cbn.
  apply integers_Ok in Hl as [_ [_ Hb]]. apply integers_Ok in Hr as [_ [_ Hd]].
  assert (∀ k, (k < 0 ↔ a * d < c * b) → (0 < k ↔ c * b < a * d) → sign_of k x y) as Hk.
  { intros k H1 H2. unfold sign_of. rewrite Ex, Ey, !rat_lt, rat_eq by lia. split_and!; [done|done|]. lia. }
  destruct (Z.ltb_spec (a * d - c * b) 0); [|rewrite Z.gtb_ltb; destruct (Z.ltb_spec 0 (a * d - c * b))];
    eexists; (split; [done|]); apply Hk; lia.
Qed.

Lemma compareRational_inv l r c : compareRational l r = Ok c →
  ∃ x y, denotes l x ∧ denotes r y ∧ sign_of c x y.
Proof.
  intros H. pose proof H as H'. unfold compareRational in H'.
  apply bind_Ok in H' as ([a b] & Hl & H'). apply bind_Ok in H' as ([c' d] & Hr & _).
  exists (rat a b), (rat c' d). split; [by apply integers_denotes|]. split; [by apply integers_denotes|].
  destruct (compareRational_spec l r (rat a b) (rat c' d)) as (k & Hk & Hs);
    [by apply integers_denotes|by apply integers_denotes|]. rewrite H in Hk. by injection Hk as <-.
Qed.

(** ** Decimals as rationals *)
Definition qdec (z : Z) : Q := rat z ONE.

Lemma split_chars_minus l : split_chars dot_char (minus_char :: l) =
  match split_chars dot_char l with [] => [[minus_char]] | w :: ws => (minus_char :: w) :: ws end.
Proof. done. Qed.

Lemma bigint_minus l : bigint (minus_char :: l) = - digits l.
Proof. cbn. by rewrite decide_True. Qed.

Lemma bigint_digits l : head l ≠ Some minus_char → l ≠ [] → bigint l = digits l.
Proof. destruct l as [|c l]; [done|]. cbn. intros Hh _. rewrite decide_False; [done|]. congruence. Qed.

Lemma chars_sdec_neg z : z < 0 → chars (sdec z) = minus_char :: chars (dec (- z)).
Proof.
  intros Hz. rewrite <-(chars_of_chars (minus_char :: chars (dec (- z)))). f_equal.
  fold (minus (dec (- z))). rewrite <-(Z.opp_involutive z) at 1.
  pose proof (magnitude_sdec z) as Hm. unfold magnitude in Hm. rewrite starts_minus_sdec in Hm.
  destruct (Z.ltb_spec z 0); [|lia]. rewrite Z.opp_involutive.
  pose proof (starts_minus_sdec z) as Hs. rewrite (proj2 (Z.ltb_lt z 0)) in Hs by lia.
  unfold starts_minus in Hs. unfold slice1 in Hm. rewrite Z.abs_neq in Hm by lia. rewrite <-Hm.
  rewrite <-(of_chars_chars (sdec z)) at 1. unfold minus. rewrite chars_of_chars.
  destruct (chars (sdec z)) as [|c l]; [done|]. apply bool_decide_eq_true in Hs as ->. done.
Qed.

Lemma sdec_nonneg z : 0 <= z → sdec z = dec z.
Proof.
  intros Hz. pose proof (magnitude_sdec z) as Hm. unfold magnitude in Hm.
  rewrite starts_minus_sdec, (proj2 (Z.ltb_ge z 0)) in Hm by done. by rewrite Hm, Z.abs_eq.
Qed.

Lemma units_no_minus v a : units v = Some a → starts_minus v = false.
Proof.
  intros Ha. apply not_true_is_false. intros Hm. unfold starts_minus in Hm. destruct (chars v) as [|c l] eqn:E; [done|].
  apply bool_decide_eq_true in Hm as ->. destruct (units_parse _ _ Ha) as (p & Hp & _). unfold parse in Hp.
  destruct (DECIMAL_PATTERN v) eqn:Ed; [|done]. unfold DECIMAL_PATTERN in Ed. rewrite E, split_chars_minus in Ed.
  destruct (split_chars dot_char l) as [|w [|w' [|]]]; cbn in Ed; done.
Qed.

Lemma units_sdec z a : units (sdec z) = Some a → a = z ∧ 0 <= z.
Proof.
  intros H. pose proof (units_no_minus _ _ H) as Hm. rewrite starts_minus_sdec in Hm. apply Z.ltb_ge in Hm.
  rewrite sdec_nonneg in H by done. by apply units_dec_Some in H as [-> _].
Qed.

Lemma dec_head z : 0 <= z < LIMIT → ∀ i f,
  split_chars dot_char (chars (dec z)) = i :: match f with [] => [] | _ => [f] end →
  head (i ++ f) ≠ Some minus_char ∧ i ++ f ≠ [].
Proof.
  intros Hz i f Hsp. pose proof (join_split_chars dot_char (chars (dec z))) as Hj. rewrite Hsp in Hj.
  pose proof (dec_not_minus z ltac:(lia)) as Hm. unfold starts_minus in Hm. rewrite <-Hj in Hm.
  assert (i ≠ []) as Hi.
  { intros ->. pose proof (units_dec_lt z Hz) as Hu. apply units_parse in Hu as (p & Hp & _).
    unfold parse, DECIMAL_PATTERN in Hp. rewrite Hsp in Hp. by destruct f. }
  destruct i as [|c i]; [done|]. split; [|done].
  assert (bool_decide (c = minus_char) = false) as Hc by (destruct f; exact Hm).
  apply bool_decide_eq_false in Hc. cbn. congruence.
Qed.

Lemma rationalFromDecimal_spec v z : has_space v = false → sunits v = Some z →
  ∃ r, rationalFromDecimal v = Ok r ∧ denotes r (qdec z).
Proof.
  intros Hsp Hz. unfold rationalFromDecimal. rewrite Hsp, (signedDecimal_spec _ _ Hz). cbn [mbind result_bind].
  pose proof (sunits_bounds _ _ Hz) as Hb. pose proof ONE_pos.
  destruct (parse_dec (Z.abs z)) as (i & f & Hs & Hp & Hf & Hv); [lia|].
  destruct (dec_head (Z.abs z) ltac:(lia) i f Hs) as [Hh Hne].
  pose proof (pow10_pos (Z.of_nat (length f))). pose proof (pow10_pos (18 - Z.of_nat (length f))).
  assert (Z.abs z < RLIMIT) as HzR by (rewrite RLIMIT_pow, <-(Z.mul_1_r (10 ^ _)); rewrite LIMIT_ONE in Hb;
    eapply Z.lt_le_trans; [exact Hb|]; by vm_compute).
  assert (10 ^ Z.of_nat (length f) < RLIMIT) as HfR.
  { rewrite RLIMIT_pow. apply Z.pow_lt_mono_r; lia. }
  assert (bigint (default [] (split_chars dot_char (chars (sdec z)) !! 0%nat) ++
      default [] (split_chars dot_char (chars (sdec z)) !! 1%nat)) = Z.sgn z * digits (i ++ f) ∧
    default [] (split_chars dot_char (chars (sdec z)) !! 1%nat) = f) as [-> ->].
  { destruct (Z.ltb_spec z 0).
    - rewrite chars_sdec_neg, split_chars_minus by lia. rewrite Z.abs_neq in Hs by lia. rewrite Hs.
      rewrite (Z.sgn_neg z) by lia. split; [|by destruct f].
      assert (bigint (minus_char :: (i ++ f)) = -1 * digits (i ++ f)) as E by (rewrite bigint_minus; lia).
      destruct f; exact E.
    - rewrite sdec_nonneg by lia. rewrite Z.abs_eq in Hs by lia. rewrite Hs. split; [|by destruct f].
      assert (bigint (i ++ f) = Z.sgn z * digits (i ++ f)) as E.
      { rewrite bigint_digits by done. destruct (decide (z = 0)) as [->|]; [|rewrite (Z.sgn_pos z) by lia; lia].
        assert (digits (i ++ f) = 0) as -> by (cbn in Hv; nia). done. }
      destruct f; exact E. }
  assert (Z.sgn z * digits (i ++ f) * 10 ^ (18 - Z.of_nat (length f)) = z) as Hval.
  { rewrite <-Z.mul_assoc, Hv. lia. }
  destruct (fraction_total (Z.sgn z * digits (i ++ f)) (10 ^ Z.of_nat (length f))) as [r Hr]; [lia|nia|lia|].
  exists r. split; [done|]. apply fraction_denotes in Hr; [|lia].
  assert (qdec z == rat (Z.sgn z * digits (i ++ f)) (10 ^ Z.of_nat (length f)))%Q as ->; [|done].
  apply rat_eq; [lia|lia|]. rewrite <-(ONE_pow (Z.of_nat (length f))) by lia.
  set (w := Z.sgn z * digits (i ++ f)) in *. clearbody w. rewrite <-Hval at 1. ring.
Qed.

Lemma rationalFromDecimal_inv v r : rationalFromDecimal v = Ok r →
  ∃ z, sunits v = Some z ∧ denotes r (qdec z).
Proof.
  intros H. pose proof H as H'. unfold rationalFromDecimal in H'.
  destruct (has_space v) eqn:Hs; [done|]. apply bind_Ok in H' as (n & Hn & _).
  apply signedDecimal_inv in Hn as (z & Hz & _). exists z. split; [done|].
  destruct (rationalFromDecimal_spec v z Hs Hz) as (r' & Hr & Hd). rewrite H in Hr. by injection Hr as ->.
Qed.

Lemma has_space_dec z : 0 <= z → has_space (dec z) = false.
Proof.
  intros Hz. pose proof (dec_no_space z Hz) as H. unfold has_space.
  apply not_true_is_false. intros (c & Hin & Hc)%existsb_exists.
  rewrite Forall_forall in H. apply list_elem_of_In, H in Hin. congruence.
Qed.

(** ** Decimal enclosures *)
Lemma integerBounds_spec n d : 0 < d →
  integerBounds n d = (n / d, - (- n / d)).
Proof.
  intros Hd. unfold integerBounds. pose proof (Z.quot_rem' n d) as Hqr.
  pose proof (Z.rem_bound_abs n d ltac:(lia)) as Hr. rewrite (Z.abs_eq d) in Hr by lia.
  set (q := Z.quot n d) in *. set (r := Z.rem n d) in *. rewrite Z.gtb_ltb.
  f_equal.
  - destruct (Z.ltb_spec r 0); apply Z.div_unique with (if r <? 0 then r + d else r);
      destruct (Z.ltb_spec r 0); lia.
  - assert (- n / d = - q - (if 0 <? r then 1 else 0)) as ->; [|destruct (0 <? r); lia].
    symmetry. destruct (Z.ltb_spec 0 r);
      [apply Z.div_unique with (d - r)|apply Z.div_unique with (- r)]; lia.
Qed.

(** The string [format] hands to [signedDecimal], without its sign. *)
Definition unsigned_chars (s m : Z) : list Ascii.ascii :=
  if s =? 0 then to_digits m else point_chars (Z.to_nat s) m.

Lemma unsigned_chars_spec s m : 0 <= m → 0 <= s <= 18 →
  units (trim (of_chars (unsigned_chars s m))) =
    (if m * 10 ^ (18 - s) <? LIMIT then Some (m * 10 ^ (18 - s)) else None) ∧
  starts_minus (of_chars (unsigned_chars s m)) = false.
Proof.
  intros Hm Hs. unfold unsigned_chars. pose proof ONE_pos. destruct (Z.eqb_spec s 0) as [->|Hs0].
  - assert (of_chars (to_digits m) = dec (m * ONE)) as ->.
    { pose proof (format_dec m 0 Hm ltac:(lia)) as H0. unfold Decimal.format in H0.
      destruct (Z.ltb_spec m 0); [lia|]. cbn [Z.eqb Z.add Z.to_nat Pos.to_nat Pos.iter_op] in H0.
      injection H0 as H0. rewrite Z.sub_0_r in H0. change (10 ^ 18) with ONE in H0. rewrite <-H0. f_equal.
      unfold padStart. destruct (to_digits_cons m Hm) as (c & l & -> & _). done. }
    rewrite trim_dec, units_dec, dec_not_minus, Z.sub_0_r by nia. done.
  - rewrite trim_id by (rewrite chars_of_chars; by apply point_no_space).
    rewrite units_point, Z2Nat.id by lia. pose proof (pow10_pos s). pose proof (pow10_pos (18 - s)). split.
    + assert ((m / 10 ^ s <? 10 ^ 36) = (m * 10 ^ (18 - s) <? LIMIT)) as ->; [|done].
      rewrite LIMIT_ONE, <-(ONE_pow s) by lia.
      destruct (Z.ltb_spec (m * 10 ^ (18 - s)) (10 ^ 36 * (10 ^ s * 10 ^ (18 - s)))).
      * apply Z.ltb_lt, Z.div_lt_upper_bound; nia.
      * apply Z.ltb_ge, Z.div_le_lower_bound; nia.
    + unfold starts_minus. rewrite chars_of_chars. unfold point_chars.
      destruct (to_digits_cons (m / 10 ^ Z.of_nat (Z.to_nat s))) as (c & l & -> & Hc).
      { apply Z.div_pos; [done|]. apply pow10_pos. lia. }
      cbn. apply bool_decide_eq_false. by intros ->.
Qed.

Lemma format_eq c s : 0 <= s <= 18 →
  format c s = signedDecimal (if c <? 0 then minus (of_chars (unsigned_chars s (- c)))
                              else of_chars (unsigned_chars s c)).
Proof.
  intros Hs. unfold format. set (m := if c <? 0 then - c else c).
  assert (0 <= m) as Hm by (unfold m; destruct (Z.ltb_spec c 0); lia).
  replace (Z.to_nat (s + 1)) with (S (Z.to_nat s)) by lia.
  rewrite padStart_to_digits, length_app, length_fixed, Nat.add_sub, take_app_length, drop_app_length by done.
  assert ((if s =? 0 then to_digits (m / 10 ^ Z.of_nat (Z.to_nat s)) ++ fixed (Z.to_nat s) m
     else to_digits (m / 10 ^ Z.of_nat (Z.to_nat s)) ++ dot_char :: fixed (Z.to_nat s) m)
    = unsigned_chars s m) as ->.
  { unfold unsigned_chars. destruct (Z.eqb_spec s 0) as [->|]; [|done].
    change (10 ^ Z.of_nat (Z.to_nat 0)) with 1. rewrite Z.div_1_r. apply app_nil_r. }
  unfold m. destruct (c <? 0); [|done]. unfold minus. by rewrite chars_of_chars.
Qed.

Lemma format_spec c s : 0 <= s <= 18 →
  Z.abs (c * 10 ^ (18 - s)) < LIMIT → format c s = Ok (sdec (c * 10 ^ (18 - s))).
Proof.
  intros Hs Hlt. rewrite format_eq by done. apply signedDecimal_spec. pose proof (pow10_pos (18 - s)).
  destruct (Z.ltb_spec c 0).
  - rewrite sunits_minus. destruct (unsigned_chars_spec s (- c)) as [-> _]; [lia|done|].
    rewrite (proj2 (Z.ltb_lt _ _)) by nia. cbn. f_equal. lia.
  - destruct (unsigned_chars_spec s c) as [Hu Hm]; [lia|done|]. rewrite sunits_plain, Hu by done.
    by rewrite (proj2 (Z.ltb_lt _ _)) by nia.
Qed.

Lemma format_inv c s v : 0 <= s <= 18 → format c s = Ok v →
  Z.abs (c * 10 ^ (18 - s)) < LIMIT ∧ v = sdec (c * 10 ^ (18 - s)).
Proof.
  intros Hs H. assert (Z.abs (c * 10 ^ (18 - s)) < LIMIT) as Hlt.
  { pose proof (pow10_pos (18 - s)). rewrite format_eq in H by done.
    apply signedDecimal_inv in H as (z & Hz & _).
    destruct (Z.ltb_spec c 0).
    - rewrite sunits_minus in Hz. destruct (unsigned_chars_spec s (- c)) as [Hu _]; [lia|done|].
      rewrite Hu in Hz. destruct (Z.ltb_spec (- c * 10 ^ (18 - s)) LIMIT); [nia|done].
    - destruct (unsigned_chars_spec s c) as [Hu Hm]; [lia|done|]. rewrite sunits_plain, Hu in Hz by done.
      destruct (Z.ltb_spec (c * 10 ^ (18 - s)) LIMIT); [nia|done]. }
  split; [done|]. rewrite format_spec in H by done. by injection H as <-.
Qed.

(** The enclosure at scale 18: floor and ceiling in units of 10^-18. *)
Lemma rationalDecimalBounds_inv r b : rationalDecimalBounds r 18 = Ok b →
  ∃ n d lo up, integers r = Ok (n, d) ∧ lo = n * ONE / d ∧ up = - (- (n * ONE) / d) ∧
    b = mkBounds (sdec lo) (sdec up) (lo =? up) ∧ Z.abs lo < LIMIT ∧ Z.abs up < LIMIT.
Proof.
  unfold rationalDecimalBounds. cbn [isSafeInteger negb orb]. intros H.
  change (negb (isSafeInteger 18) || (18 <? 0) || (18 >? 18)) with false in H. cbv iota in H.
  apply bind_Ok in H as ([n d] & Hi & H). pose proof Hi as Hi'. apply integers_Ok in Hi' as [_ [_ Hd]].
  change (10 ^ 18) with ONE in H. rewrite integerBounds_spec in H by lia.
  apply bind_Ok in H as (l & Hl & H). apply bind_Ok in H as (u & Hu & H). injection H as <-.
  apply format_inv in Hl as [Hl1 ->]; [|lia]. apply format_inv in Hu as [Hu1 ->]; [|lia].
  rewrite Z.sub_diag, Z.pow_0_r, !Z.mul_1_r in *.
  eexists n, d, _, _. split_and!; done.
Qed.

Lemma rationalDecimalBounds_spec r n d : integers r = Ok (n, d) →
  Z.abs n < d * 10 ^ 36 - d → ∃ b, rationalDecimalBounds r 18 = Ok b.
Proof.
  intros Hi Hn. unfold rationalDecimalBounds.
  change (negb (isSafeInteger 18) || (18 <? 0) || (18 >? 18)) with false. cbv iota.
  rewrite Hi. cbn [mbind result_bind]. apply integers_Ok in Hi as [_ [_ Hd]].
  change (10 ^ 18) with ONE. rewrite integerBounds_spec by lia. pose proof ONE_pos.
  assert (- LIMIT < n * ONE / d < LIMIT) as Hlo.
  { rewrite LIMIT_ONE. split; [|apply Z.div_lt_upper_bound; nia].
    enough (- (10 ^ 36 * ONE) + 1 <= n * ONE / d) by lia. apply Z.div_le_lower_bound; nia. }
  assert (- LIMIT < - (n * ONE) / d < LIMIT) as Hup.
  { rewrite LIMIT_ONE. split; [|apply Z.div_lt_upper_bound; nia].
    enough (- (10 ^ 36 * ONE) + 1 <= - (n * ONE) / d) by lia. apply Z.div_le_lower_bound; nia. }
  rewrite !format_spec by (rewrite ?Z.sub_diag, ?Z.pow_0_r, ?Z.mul_1_r; lia). by eexists.
Qed.

(** The enclosure is outward and tight to one unit. *)
Lemma enclosure n d : 0 < d →
  (qdec (n * ONE / d) <= rat n d)%Q ∧ (rat n d <= qdec (- (- (n * ONE) / d)))%Q ∧
  (n * ONE / d = - (- (n * ONE) / d) → (rat n d == qdec (n * ONE / d))%Q).
Proof.
  intros Hd. unfold qdec. pose proof ONE_pos. rewrite !rat_le, rat_eq by lia.
  pose proof (Z.mul_div_le (n * ONE) d Hd). pose proof (Z.mul_div_le (- (n * ONE)) d Hd).
  split_and!; [lia|lia|]. intros E. lia.
Qed.

Lemma step_le q z d sn sd n : 0 < sd → z * sd = sn * ONE →
  (q * z * d <= n * ONE ↔ d * sn * q <= n * sd).
Proof.
  intros Hsd Hz. pose proof ONE_pos.
  rewrite (Z.mul_le_mono_pos_r (q * z * d) _ sd Hsd), (Z.mul_le_mono_pos_r (d * sn * q) _ ONE ltac:(done)).
  replace (q * z * d * sd) with (q * d * (z * sd)) by ring. rewrite Hz.
  replace (q * d * (sn * ONE)) with (d * sn * q * ONE) by ring.
  by replace (n * ONE * sd) with (n * sd * ONE) by ring.
Qed.

(** A canonical step is a positive multiple of the quantum. *)
Lemma quantizeRational_inv r inc dir s : quantizeRational r inc dir = Ok s →
  ∃ x z c, denotes r x ∧ units inc = Some z ∧ 0 < z ∧ s = sdec (c * z) ∧ Z.abs (c * z) < LIMIT ∧
    match dir with
    | floor => (qdec (c * z) <= x)%Q ∧ (x < qdec ((c + 1) * z))%Q
    | ceil => (qdec ((c - 1) * z) < x)%Q ∧ (x <= qdec (c * z))%Q
    end.
Proof.
  unfold quantizeRational. intros H. pose proof ONE_pos.
  destruct (bool_decide (trim inc = inc)) eqn:Ht; [|done]. apply bool_decide_eq_true in Ht. cbn [negb] in H.
  apply bind_Ok in H as (i & Hi & H). apply bind_Ok in H as (step & Hs & H).
  apply bind_Ok in H as ([n d] & Hv & H). apply bind_Ok in H as ([sn sd] & Hst & H).
  apply decimal_inv in Hi as (z & Hz & -> & Hzb & Hpos & _). rewrite Ht in Hz. specialize (Hpos eq_refl).
  apply rationalFromDecimal_inv in Hs as (z' & Hz' & Hd).
  rewrite sunits_dec in Hz' by done. injection Hz' as <-.
  pose proof (denotes_fun _ _ _ Hd (integers_denotes _ _ _ Hst)) as Hzq.
  pose proof Hv as Hv'. apply integers_Ok in Hv' as [_ [_ Hdp]].
  pose proof Hst as Hst'. apply integers_Ok in Hst' as [_ [_ Hsdp]].
  unfold qdec in Hzq. rewrite rat_eq in Hzq by lia.
  assert (0 < sn).
  { assert (0 < z * sd) by (apply Z.mul_pos_pos; lia). destruct (Z.leb_spec sn 0); [|done].
    assert (sn * ONE <= 0) by (apply Z.mul_nonpos_nonneg; lia). lia. }
  rewrite integerBounds_spec in H by nia.
  set (c := match dir with floor => _ | ceil => _ end) in H.
  apply bind_Ok in H as (fc & Hfc & H). apply bind_Ok in H as (rr & Hrr & H). apply bind_Ok in H as (b & Hb & H).
  destruct (exact b) eqn:Hex; [|done]. injection H as <-.
  apply fraction_denotes in Hfc; [|lia].
  apply multiplyRational_inv in Hrr as (x1 & y1 & Hx1 & Hy1 & Hden).
  rewrite (denotes_fun _ _ _ Hx1 Hfc), (denotes_fun _ _ _ Hy1 Hd) in Hden.
  apply rationalDecimalBounds_inv in Hb as (rn & rd & lo & up & Hri & -> & -> & -> & Hl & Hu).
  cbn [exact] in Hex. apply Z.eqb_eq in Hex. cbn [lower].
  pose proof Hri as Hri'. apply integers_Ok in Hri' as [_ [_ Hrd]].
  destruct (enclosure rn rd) as (_ & _ & Heq); [lia|]. specialize (Heq Hex).
  pose proof (denotes_fun _ _ _ Hden (integers_denotes _ _ _ Hri)) as Hq. rewrite Heq in Hq.
  unfold qdec in Hq. rewrite rat_mul, rat_eq in Hq by lia.
  assert (rn * ONE / rd = c * z) as Hcz by nia. rewrite Hcz in *.
  exists (rat n d), z, c. split; [by apply integers_denotes|]. split_and!; [done..|].
  unfold qdec. destruct dir; unfold c; rewrite rat_le, rat_lt by lia.
  - pose proof (Z.mul_div_le (n * sd) (d * sn) ltac:(nia)).
    pose proof (Z.mul_succ_div_gt (n * sd) (d * sn) ltac:(nia)).
    split; [rewrite (step_le _ _ _ sn sd) by (done || lia); lia|]. apply Z.nle_gt. rewrite (step_le _ _ _ sn sd) by (done || lia). lia.
  - pose proof (Z.mul_div_le (- (n * sd)) (d * sn) ltac:(nia)).
    pose proof (Z.mul_succ_div_gt (- (n * sd)) (d * sn) ltac:(nia)).
    set (q := - (n * sd) / (d * sn)) in *.
    pose proof (step_le q z d sn sd (- n) ltac:(lia) ltac:(done)).
    pose proof (step_le (q + 1) z d sn sd (- n) ltac:(lia) ltac:(done)). clearbody q c. split; lia.
Qed.

(** ** Properties *)

(** The rational operations are exact: on accepted operands the sum, the
    product and the quotient are returned in lowest terms with a positive
    denominator, the only refusals being a component of more than 256 digits
    and a zero divisor, and the comparison is the order of the values. *)
Theorem rational_operations_exact l r x y : denotes l x → denotes r y →
  lowest_terms (x + y) (addRational l r) ∧
  lowest_terms (x * y) (multiplyRational l r) ∧
  ((y == 0)%Q → divideRational l r = throw "Rational division by zero.") ∧
  (¬ (y == 0)%Q → lowest_terms (x / y) (divideRational l r)) ∧
  ∃ c, compareRational l r = Ok c ∧ sign_of c x y.
Proof.
  intros Hx Hy. pose proof Hx as (a & b & Hl & Ex). pose proof Hy as (c & d & Hr & Ey). split_and!.
  - destruct (addRational_frac _ _ _ _ _ _ Hl Hr) as (n & e & -> & He & Hq). apply fraction_lowest; [done|]. by rewrite Ex, Ey.
  - destruct (multiplyRational_frac _ _ _ _ _ _ Hl Hr) as (n & e & -> & He & Hq). apply fraction_lowest; [done|]. by rewrite Ex, Ey.
  - intros H0. rewrite Ey in H0. apply (rat_zero _ _ _ _ _ _ Hl Hr) in H0 as ->. unfold divideRational. by rewrite Hl, Hr.
  - intros H0. assert (c ≠ 0) as Hc by (intros Hc; apply H0; by rewrite Ey, (rat_zero _ _ _ _ _ _ Hl Hr)).
    destruct (divideRational_frac _ _ _ _ _ _ Hl Hr Hc) as (n & e & -> & He & Hq). apply fraction_lowest; [done|]. by rewrite Ex, Ey.
  - by apply compareRational_spec.
Qed.

(** The decimal bounds of a rational are its tightest enclosure on the
    10^-18 grid: lower and upper are at most one quantum apart, they enclose the
    value, and [exact] is reported only when both equal it.  Bounds exist for
    every value below [10^36 - 1] in magnitude. *)
Theorem rational_bounds_tight r n d : integers r = Ok (n, d) → Z.abs n < d * 10 ^ 36 - d →
  ∃ b lo up, rationalDecimalBounds r 18 = Ok b ∧ sunits (lower b) = Some lo ∧ sunits (upper b) = Some up ∧
    (qdec lo <= rat n d)%Q ∧ (rat n d <= qdec up)%Q ∧ lo <= up <= lo + 1 ∧
    exact b = (lo =? up) ∧ (exact b = true ↔ (rat n d == qdec lo)%Q).
Proof.
  intros Hi Hn. destruct (rationalDecimalBounds_spec _ _ _ Hi Hn) as [b Hb].
  pose proof Hi as Hi'. apply integers_Ok in Hi' as [_ [_ Hd]].
  destruct (enclosure n d ltac:(lia)) as (H1 & H2 & H3).
  pose proof (rationalDecimalBounds_inv _ _ Hb) as (n' & d' & lo & up & Hi2 & Hlo & Hup & -> & Hbl & Hbu).
  rewrite Hi in Hi2. injection Hi2 as <- <-. exists (mkBounds (sdec lo) (sdec up) (lo =? up)), lo, up. subst lo up.
  set (N := n * ONE) in *. assert (n * ONE = N) as EN by done. clearbody N.
  pose proof (Z.div_mod N d ltac:(lia)). pose proof (Z.mod_pos_bound N d ltac:(lia)).
  pose proof (Z.div_mod (- N) d ltac:(lia)). pose proof (Z.mod_pos_bound (- N) d ltac:(lia)).
  cbn [lower upper exact]. rewrite !sunits_sdec by done.
  split_and!; try done; try nia. rewrite Z.eqb_eq. split; [exact H3|].
  pose proof ONE_pos. unfold qdec. rewrite rat_eq by lia. rewrite EN. intros E.
  assert (∃ k, N = k * d) as [k ->] by (exists (N / d); lia). rewrite <-Z.mul_opp_l, !Z.div_mul by lia. lia.
Qed.

(** Quantising a rational to an increment gives the neighbouring multiple
    on the requested side: at most one step below (floor) or above (ceil). *)
Theorem quantize_rational_grid r inc dir s : quantizeRational r inc dir = Ok s →
  ∃ x z c, denotes r x ∧ units inc = Some z ∧ 0 < z ∧ sunits s = Some (c * z) ∧
    match dir with
    | floor => (qdec (c * z) <= x)%Q ∧ (x < qdec ((c + 1) * z))%Q
    | ceil => (qdec ((c - 1) * z) < x)%Q ∧ (x <= qdec (c * z))%Q
    end.
Proof.
  intros H. apply quantizeRational_inv in H as (x & z & c & Hx & Hz & Hp & -> & Hb & Hd).
  exists x, z, c. rewrite sunits_sdec by done. done.
Qed.
