(* ===== verification/Money.v ===== *)
(** Money: [src/trading_money_value.ts], [src/trading_money_risk.ts] and
    [src/trading_channel_risk_math.ts].

    A [MoneyValue] is an amount known exactly (a rational) or only between two
    decimals.  [contains m q] says the amount [q] is possible under [m]; the
    theorems show that addition, negation, loss consumption and the admission
    decisions are sound for every amount the inputs contain.  The checks the
    source makes on the shape of an unknown object (own keys, prototype, data
    properties) hold of every Rocq record and are not repeated. *)

From S2P Require Import Prelude Text Decimal Rational.
From Stdlib Require Ascii String.
From Stdlib Require Import QArith Qminmax Qfield Lqa.
Local Open Scope Z_scope.

Inductive Precision := exact_decimal | exact_rational | bounded.
#[export] Instance Precision_eq_dec : EqDecision Precision.
Proof. solve_decision. Defined.

Record MoneyValue := mkMoney {
  mv_lower : string;
  mv_upper : string;
  mv_exact : option ExactRational;
  mv_decimal : option string;
  mv_precision : Precision;
  mv_terms : Z }.
#[export] Instance MoneyValue_eq_dec : EqDecision MoneyValue.
Proof. solve_decision. Defined.

(** ** [trading_money_value.ts] *)
Definition canonicalDecimal (value : string) : result string :=
  s ← signedDecimal value;
  if bool_decide (s = value) then Ok value else throw "Invalid canonical money decimal.".

Definition exactFraction (value : ExactRational) (requireCanonical : bool) : result ExactRational :=
  normalized ← rational value;
  if requireCanonical && negb (bool_decide (normalized = value))
  then throw "Money rational must be reduced and canonical." else Ok normalized.

Definition decimalUnits (value : string) : Z :=
  let parts := split_chars dot_char (chars value) in
  bigint (default [] (parts !! 0%nat) ++ padEnd 18 (default [] (parts !! 1%nat))).

Definition checkedTerms (value : Z) : result Z :=
  if negb (isSafeInteger value) || (value <? 0)
  then throw "Money terms must be a nonnegative safe integer." else Ok value.

Definition exactValue (e : ExactRational) (terms : Z) : result MoneyValue :=
  bounds ← rationalDecimalBounds e 18;
  Ok (mkMoney (lower bounds) (upper bounds) (Some e)
        (if exact bounds then Some (lower bounds) else None)
        (if exact bounds then exact_decimal else exact_rational) terms).

Definition validateExact (source : MoneyValue) (e0 : ExactRational) (terms : Z) (lo up : string) : result MoneyValue :=
  e ← exactFraction e0 true;
  r ← exactValue e terms;
  if negb (bool_decide (lo = mv_lower r)) || negb (bool_decide (up = mv_upper r))
     || negb (bool_decide (mv_decimal source = mv_decimal r))
     || negb (bool_decide (mv_precision source = mv_precision r))
  then throw "Money exact value, bounds and precision disagree."
  else if (terms =? 0) && negb (bool_decide (numerator e = "0"))
  then throw "Zero money terms require an exact zero identity."
  else Ok r.

Definition validateMoneyValue (source : MoneyValue) : result MoneyValue :=
  lo ← canonicalDecimal (mv_lower source);
  up ← canonicalDecimal (mv_upper source);
  terms ← checkedTerms (mv_terms source);
  match mv_exact source with
  | Some e => validateExact source e terms lo up
  | None =>
      let width := decimalUnits up - decimalUnits lo in
      if negb (bool_decide (mv_precision source = bounded)) || negb (bool_decide (mv_decimal source = None))
         || (terms <? 2) || (width <=? 0) || (width >? terms)
      then throw "Money bounded interval, precision and terms disagree."
      else Ok (mkMoney lo up None None bounded terms)
  end.

Definition moneyValueFromRational (value : ExactRational) : result MoneyValue :=
  e ← exactFraction value false; exactValue e 1.

Definition moneyValueFromDecimal (value : string) : result MoneyValue :=
  e ← rationalFromDecimal value; exactValue e 1.

Definition RATIONAL_DIGITS : nat := 256.

(** Components of values that passed [validateMoneyValue], as integers. *)
Definition exceedsRationalLimit (left right : ExactRational) : bool :=
  let ln := bigint (chars (numerator left)) in let ld := bigint (chars (denominator left)) in
  let rn := bigint (chars (numerator right)) in let rd := bigint (chars (denominator right)) in
  let common := gcd ld rd in
  let n := ln * Z.quot rd common + rn * Z.quot ld common in
  let d := ld * Z.quot rd common in
  let divisor := gcd n d in
  let m := if n <? 0 then - n else n in
  (RATIONAL_DIGITS <? length (to_digits (Z.quot m divisor)))%nat
  || (RATIONAL_DIGITS <? length (to_digits (Z.quot d divisor)))%nat.

Definition addBounds (l r : MoneyValue) (terms : Z) : result MoneyValue :=
  lo ← addSignedDecimal (mv_lower l) (mv_lower r);
  up ← addSignedDecimal (mv_upper l) (mv_upper r);
  validateMoneyValue (mkMoney lo up None None bounded terms).

Definition addMoneyValues (left right : MoneyValue) : result MoneyValue :=
  l ← validateMoneyValue left;
  r ← validateMoneyValue right;
  terms ← checkedTerms (mv_terms l + mv_terms r);
  match mv_exact l, mv_exact r with
  | Some el, Some er =>
      if negb (exceedsRationalLimit el er) then s ← addRational el er; exactValue s terms
      else addBounds l r terms
  | _, _ => addBounds l r terms
  end.

Definition negateMoneyValue (value : MoneyValue) : result MoneyValue :=
  source ← validateMoneyValue value;
  match mv_exact source with
  | Some e => exactValue (mkRational (show (- bigint (chars (numerator e)))) (denominator e)) (mv_terms source)
  | None =>
      lo ← negateSignedDecimal (mv_upper source);
      up ← negateSignedDecimal (mv_lower source);
      validateMoneyValue (mkMoney lo up None None bounded (mv_terms source))
  end.

(** ** [trading_money_risk.ts] *)
Inductive Bound := Lower | Upper.
Inductive MoneyComparison := Compared (c : Z) | uncertain_comparison.

Definition bound_of (value : MoneyValue) (b : Bound) : string :=
  match b with Lower => mv_lower value | Upper => mv_upper value end.

(** [value.exact ?? rationalFromDecimal(value[bound])] *)
Definition exact_or_bound (value : MoneyValue) (b : Bound) : result ExactRational :=
  match mv_exact value with Some e => Ok e | None => rationalFromDecimal (bound_of value b) end.

Definition compareBound (value : MoneyValue) (threshold : ExactRational) (b : Bound) : result Z :=
  r ← exact_or_bound value b;
  comparison ← compareRational r threshold;
  if comparison <? 0 then Ok (-1) else Ok (if comparison >? 0 then 1 else 0).

Definition compareMoneyValue (value : MoneyValue) (thresholdDecimal : string) : result MoneyComparison :=
  source ← validateMoneyValue value;
  threshold ← rationalFromDecimal thresholdDecimal;
  lo ← compareBound source threshold Lower;
  match mv_exact source with
  | Some _ => Ok (Compared lo)
  | None =>
      up ← compareBound source threshold Upper;
      if up <? 0 then Ok (Compared (-1))
      else Ok (if lo >? 0 then Compared 1 else uncertain_comparison)
  end.

Definition nonnegativeCommitment (value : MoneyValue) : result MoneyValue :=
  source ← validateMoneyValue value;
  zero ← rationalFromDecimal "0";
  c ← compareBound source zero Lower;
  if c <? 0 then throw "Monetary commitment must be proven nonnegative." else Ok source.

Definition with_terms (m : MoneyValue) (terms : Z) : MoneyValue :=
  mkMoney (mv_lower m) (mv_upper m) (mv_exact m) (mv_decimal m) (mv_precision m) terms.

Definition zeroWithTerms (terms : Z) : result MoneyValue :=
  z ← moneyValueFromDecimal "0"; Ok (with_terms z terms).

Definition consumedLossForInexact (loss : MoneyValue) : result MoneyValue :=
  let lo := if starts_minus (mv_lower loss) then "0" else mv_lower loss in
  let up := if starts_minus (mv_upper loss) then "0" else mv_upper loss in
  if bool_decide (up = "0") then zeroWithTerms (mv_terms loss)
  else validateMoneyValue (mkMoney lo up (mv_exact loss) (mv_decimal loss) (mv_precision loss) (mv_terms loss)).

Definition consumedLossFor (dayPnl : MoneyValue) : result MoneyValue :=
  loss ← negateMoneyValue dayPnl;
  match mv_exact loss with
  | Some _ =>
      zero ← rationalFromDecimal "0";
      c ← compareBound loss zero Lower;
      if c >? 0 then Ok loss else zeroWithTerms (mv_terms loss)
  | None => consumedLossForInexact loss
  end.

Definition normalizedBudget (value : string) : result string :=
  if has_space value then throw "Invalid monetary risk budget." else decimal value false None.

Record MonetaryDailyRiskInput := mkRiskInput {
  ri_budget : string;
  ri_ledgerPnl : MoneyValue;
  ri_unrealizedPnl : string;
  ri_existingCommitment : MoneyValue;
  ri_candidateCommitment : MoneyValue }.

Record MonetaryDailyRisk := mkDailyRisk {
  dr_budget : string;
  dr_dayPnl : MoneyValue;
  dr_consumedLoss : MoneyValue;
  dr_existingCommitment : MoneyValue;
  dr_candidateCommitment : MoneyValue;
  dr_totalCommitment : MoneyValue;
  dr_allowed : bool;
  dr_breached : bool;
  dr_lossLimitReached : bool;
  dr_precisionUncertain : bool }.

Definition is_bounded (m : MoneyValue) : bool := bool_decide (mv_precision m = bounded).

Definition calculateMonetaryDailyRisk (input : MonetaryDailyRiskInput) : result MonetaryDailyRisk :=
  budget ← normalizedBudget (ri_budget input);
  threshold ← rationalFromDecimal budget;
  ledgerPnl ← validateMoneyValue (ri_ledgerPnl input);
  existingCommitment ← nonnegativeCommitment (ri_existingCommitment input);
  candidateCommitment ← nonnegativeCommitment (ri_candidateCommitment input);
  unrealized ← moneyValueFromDecimal (ri_unrealizedPnl input);
  dayPnl ← addMoneyValues ledgerPnl unrealized;
  consumedLoss ← consumedLossFor dayPnl;
  partial ← addMoneyValues consumedLoss existingCommitment;
  totalCommitment ← addMoneyValues partial candidateCommitment;
  up ← compareBound totalCommitment threshold Upper;
  lo ← compareBound totalCommitment threshold Lower;
  loss ← compareBound consumedLoss threshold Lower;
  Ok (mkDailyRisk budget dayPnl consumedLoss existingCommitment candidateCommitment totalCommitment
        (up <=? 0) (lo >? 0) (loss >=? 0)
        (existsb is_bounded [ledgerPnl; existingCommitment; candidateCommitment; dayPnl; consumedLoss; totalCommitment])).

(** ** [trading_channel_risk_math.ts] *)
Inductive ChannelThreshold := reached | not_reached | uncertain.

Definition gainReturnThreshold (lo up : Z) : ChannelThreshold :=
  if lo >=? 0 then reached else if up <? 0 then not_reached else uncertain.

Definition lossReturnThreshold (lo up : Z) : ChannelThreshold :=
  if up <=? 0 then reached else if lo >? 0 then not_reached else uncertain.

Definition channelReturnThreshold (value : MoneyValue) (equity threshold : string) (loss : bool) : result ChannelThreshold :=
  pnl ← validateMoneyValue value;
  e ← decimal equity true None; er ← rationalFromDecimal e;
  t ← decimal threshold true (Some "100"); tr ← rationalFromDecimal t;
  product ← multiplyRational er tr;
  hundred ← rationalFromDecimal "100";
  boundary0 ← divideRational product hundred;
  let boundary := if loss then mkRational (show (- bigint (chars (numerator boundary0)))) (denominator boundary0)
                  else boundary0 in
  lor ← exact_or_bound pnl Lower;
  lo ← compareRational lor boundary;
  upr ← exact_or_bound pnl Upper;
  up ← compareRational upr boundary;
  Ok (if loss then lossReturnThreshold lo up else gainReturnThreshold lo up).

Definition channelReturnValue (value : MoneyValue) (equity : string) : result (option MoneyValue * option string) :=
  pnl ← validateMoneyValue value;
  e ← decimal equity true None;
  capital ← rationalFromDecimal e;
  match mv_exact pnl with
  | None => Ok (None, Some "Return percentage has only bounded PnL inputs.")
  | Some x =>
      try_catch
        (hundred ← rationalFromDecimal "100";
         factor ← divideRational hundred capital;
         percent ← multiplyRational x factor;
         m ← moneyValueFromRational percent;
         Ok (Some m, None))
        (λ _, Ok (None, Some "Exact return percentage exceeds the supported representation budget."))
  end.

(** ** What a money value says *)
Definition within (lo up : string) (q : Q) : Prop :=
  ∃ a b, sunits lo = Some a ∧ sunits up = Some b ∧ (qdec a <= q)%Q ∧ (q <= qdec b)%Q.

(** [q] is a possible amount of [m]. *)
Definition contains (m : MoneyValue) (q : Q) : Prop :=
  match mv_exact m with
  | Some e => denotes e q
  | None => within (mv_lower m) (mv_upper m) q
  end.

#[export] Instance within_proper lo up : Proper (Qeq ==> iff) (within lo up).
Proof. intros p q Hpq. unfold within. by setoid_rewrite Hpq. Qed.

#[export] Instance contains_proper m : Proper (Qeq ==> iff) (contains m).
Proof. intros p q Hpq. unfold contains. destruct (mv_exact m); by rewrite Hpq. Qed.

Lemma canonicalDecimal_inv v s : canonicalDecimal v = Ok s → s = v ∧ ∃ z, v = sdec z ∧ sunits v = Some z.
Proof.
  unfold canonicalDecimal. intros H. apply bind_Ok in H as (w & Hw & H).
  case_bool_decide as E; [|done]. injection H as <-. split; [done|].
  apply signedDecimal_inv in Hw as (z & Hz & Hs). exists z. split; [congruence|done].
Qed.

Lemma decimalUnits_sdec z : decimalUnits (sdec z) = z.
Proof.
  unfold decimalUnits. destruct (Z.ltb_spec z 0).
  - rewrite chars_sdec_neg, split_chars_minus by done.
    pose proof (padded_units_dec (- z) ltac:(lia)) as Hp. unfold padded_units in Hp.
    assert (split_chars dot_char (chars (dec (- z))) ≠ []) as Hne.
    { intros E. pose proof (join_split_chars dot_char (chars (dec (- z)))) as Hj. rewrite E in Hj. cbn in Hj.
      rewrite <-Hj in E. done. }
    destruct (split_chars dot_char (chars (dec (- z)))) as [|w ws]; [done|].
    assert (bigint (minus_char :: (w ++ padEnd 18 (default [] (ws !! 0%nat)))) = z) as E.
    { rewrite bigint_minus. change (digits (w ++ padEnd 18 (default [] (ws !! 0%nat))) = - z) in Hp. lia. }
    exact E.
  - rewrite sdec_nonneg by done. pose proof (padded_units_dec z ltac:(lia)) as Hp. unfold padded_units in Hp.
    destruct (dec_first_digit z ltac:(lia)) as (d & rest & Hd & Hdig).
    pose proof (join_split_chars dot_char (chars (dec z))) as Hj. rewrite Hd in Hj at 2.
    destruct (split_chars dot_char (chars (dec z))) as [|w ws]; [done|].
    destruct w as [|c w]; [destruct ws; [done|]; cbn [join_chars app] in Hj; by injection Hj as <-|].
    assert (c = d) as -> by (destruct ws; cbn [join_chars app] in Hj; by injection Hj).
    change (bigint ((d :: w) ++ padEnd 18 (default [] (ws !! 0%nat))) = z).
    rewrite bigint_digits; [exact Hp| |done]. cbn. intros [= ->]. done.
Qed.

Lemma denotes_rational v r q : rational v = Ok r → denotes r q → denotes v q.
Proof.
  unfold rational. intros H Hr. apply bind_Ok in H as ([n d] & Hi & H).
  pose proof Hi as Hi'. apply integers_Ok in Hi' as [_ [_ Hd]].
  apply fraction_denotes in H; [|lia]. exists n, d. split; [done|]. by eapply denotes_fun.
Qed.

Lemma exactFraction_inv v c r : exactFraction v c = Ok r →
  (c = true → r = v) ∧ (∀ q, denotes r q ↔ denotes v q) ∧ ∃ q, denotes r q.
Proof.
  unfold exactFraction. intros H. apply bind_Ok in H as (w & Hw & H).
  assert (∃ q, denotes w q) as [q Hq].
  { unfold rational in Hw. apply bind_Ok in Hw as ([n d] & Hi & Hw).
    apply integers_Ok in Hi as [_ [_ Hd]]. apply fraction_denotes in Hw; [by eexists|lia]. }
  assert (∀ p, denotes w p ↔ denotes v p) as Hiff.
  { intros p. split; [by apply denotes_rational|]. intros Hp.
    rewrite (denotes_fun _ _ _ Hp (denotes_rational _ _ _ Hw Hq)). done. }
  destruct c; cbn [andb] in H.
  - case_bool_decide as E; cbn in H; [|done]. injection H as <-. split_and!; [done|done|by exists q].
  - injection H as <-. split_and!; [done|done|by exists q].
Qed.

(** An exact value carries its outward decimal enclosure. *)
Lemma exactValue_inv e terms m : exactValue e terms = Ok m →
  mv_exact m = Some e ∧ mv_terms m = terms ∧ mv_precision m ≠ bounded ∧
  ∀ q, denotes e q → within (mv_lower m) (mv_upper m) q.
Proof.
  unfold exactValue. intros H. apply bind_Ok in H as (b & Hb & H). injection H as <-. cbn.
  split_and!; [done|done|by destruct (exact b)|]. intros q (n & d & Hi & Hq).
  apply rationalDecimalBounds_inv in Hb as (n' & d' & lo & up & Hi' & -> & -> & -> & Hl & Hu).
  rewrite Hi in Hi'. injection Hi' as <- <-. cbn. apply integers_Ok in Hi as [_ [_ Hd]].
  destruct (enclosure n d) as (H1 & H2 & _); [lia|].
  eexists _, _. split; [by apply sunits_sdec|]. split; [by apply sunits_sdec|]. by rewrite !Hq.
Qed.

Lemma validateMoneyValue_inv m m' : validateMoneyValue m = Ok m' →
  m' = m ∧ (∃ a b, mv_lower m = sdec a ∧ mv_upper m = sdec b ∧ sunits (mv_lower m) = Some a ∧
    sunits (mv_upper m) = Some b ∧ (mv_exact m = None → 0 < b - a <= mv_terms m)) ∧
  (∀ q, contains m q → within (mv_lower m) (mv_upper m) q) ∧ (∃ q, contains m q).
Proof.
  unfold validateMoneyValue. intros H.
  apply bind_Ok in H as (lo & Hlo & H). apply bind_Ok in H as (up & Hup & H). apply bind_Ok in H as (t & Ht & H).
  apply canonicalDecimal_inv in Hlo as (-> & a & Ea & Ua). apply canonicalDecimal_inv in Hup as (-> & b & Eb & Ub).
  unfold checkedTerms in Ht. destruct (_ || _); [done|]. injection Ht as <-.
  destruct m as [l u e dc p t]. unfold contains. cbn in *. destruct e as [e|].
  - unfold validateExact in H. apply bind_Ok in H as (e' & He & H). apply bind_Ok in H as (r & Hr & H).
    apply exactFraction_inv in He as (He & Hiff & [q Hq]). specialize (He eq_refl) as ->.
    destruct (negb _ || _ || _ || _) eqn:Hc; [done|]. destruct ((_ =? 0) && _); [done|]. injection H as <-.
    rewrite !orb_false_iff, !negb_false_iff, !bool_decide_eq_true in Hc. destruct Hc as [[[Hl Hu] Hd] Hp].
    pose proof (exactValue_inv _ _ _ Hr) as (He & Htt & _ & Hw).
    destruct r as [rl ru re rdd rp rt]. cbn in *. subst.
    split; [done|]. split; [by exists a, b|]. split; [done|by exists q].
  - rewrite Ea, Eb, !decimalUnits_sdec in H.
    destruct (negb _ || _ || _ || _ || _) eqn:Hc; [done|]. injection H as <-.
    rewrite !orb_false_iff, !negb_false_iff, !bool_decide_eq_true, Z.gtb_ltb, !Z.ltb_ge, Z.leb_gt in Hc.
    destruct Hc as [[[[-> ->] ?] ?] ?]. rewrite <-Ea, <-Eb in *.
    split; [done|]. split; [exists a, b; split_and!; (done || lia)|]. split; [done|].
    exists (qdec a). exists a, b. split_and!; try done; [apply Qle_refl|].
    unfold qdec. apply rat_le; [apply ONE_pos|apply ONE_pos|]. pose proof ONE_pos. nia.
Qed.

Lemma qdec_add a b : (qdec a + qdec b == qdec (a + b))%Q.
Proof.
  unfold qdec. pose proof ONE_pos. rewrite rat_add by done. apply rat_eq; [nia|done|]. ring.
Qed.
Lemma qdec_opp a : (- qdec a == qdec (- a))%Q.
Proof. apply rat_opp. Qed.
Lemma qdec_le a b : (qdec a <= qdec b)%Q ↔ a <= b.
Proof. unfold qdec. pose proof ONE_pos. rewrite rat_le by done. nia. Qed.
Lemma qdec_lt a b : (qdec a < qdec b)%Q ↔ a < b.
Proof. unfold qdec. pose proof ONE_pos. rewrite rat_lt by done. nia. Qed.
Lemma qdec_0 : (qdec 0 == 0)%Q.
Proof. done. Qed.

(** ** Soundness of the arithmetic *)
Lemma within_add l1 u1 l2 u2 x y lo up :
  within l1 u1 x → within l2 u2 y →
  addSignedDecimal l1 l2 = Ok lo → addSignedDecimal u1 u2 = Ok up → 
  (∃ z, sunits lo = Some z) → (∃ z, sunits up = Some z) → within lo up (x + y).
Proof.
  intros (a & b & Ha & Hb & H1 & H2) (c & d & Hc & Hd & H3 & H4) Hlo Hup [z1 Hz1] [z2 Hz2].
  rewrite (addSignedDecimal_spec _ _ a c) in Hlo by done. injection Hlo as <-.
  rewrite (addSignedDecimal_spec _ _ b d) in Hup by done. injection Hup as <-.
  apply sunits_sdec_Some in Hz1 as [-> ?]. apply sunits_sdec_Some in Hz2 as [-> ?].
  exists (a + c), (b + d). rewrite !sunits_sdec by done. rewrite <-!qdec_add. split_and!; [done|done|lra|lra].
Qed.

Lemma addBounds_sound l r t s x y :
  addBounds l r t = Ok s → within (mv_lower l) (mv_upper l) x → within (mv_lower r) (mv_upper r) y →
  contains s (x + y).
Proof.
  unfold addBounds. intros H Hx Hy. apply bind_Ok in H as (lo & Hlo & H). apply bind_Ok in H as (up & Hup & H).
  apply validateMoneyValue_inv in H as (-> & (a & b & _ & _ & Ha & Hb & _) & _).
  unfold contains. cbn in *. eapply within_add; eauto.
Qed.

Lemma addMoneyValues_sound l r s x y :
  addMoneyValues l r = Ok s → contains l x → contains r y → contains s (x + y).
Proof.
  unfold addMoneyValues. intros H Hx Hy.
  apply bind_Ok in H as (l' & Hl & H). apply bind_Ok in H as (r' & Hr & H). apply bind_Ok in H as (t & _ & H).
  apply validateMoneyValue_inv in Hl as (-> & _ & Hlw & _). apply validateMoneyValue_inv in Hr as (-> & _ & Hrw & _).
  assert (addBounds l r t = Ok s → contains s (x + y)) as Hb by (intros E; eapply addBounds_sound; eauto).
  unfold contains in Hx, Hy. destruct (mv_exact l) as [el|], (mv_exact r) as [er|]; try by apply Hb.
  destruct (exceedsRationalLimit el er); cbn in H; [by apply Hb|].
  apply bind_Ok in H as (e & He & H). apply addRational_inv in He as (x' & y' & Hx' & Hy' & He).
  apply exactValue_inv in H as (Hex & _). unfold contains. rewrite Hex.
  by rewrite (denotes_fun _ _ _ Hx Hx'), (denotes_fun _ _ _ Hy Hy').
Qed.

(** The negated rational of an accepted one. *)
Lemma denotes_opp e q n d : integers e = Ok (n, d) → denotes e q →
  denotes (mkRational (show (- bigint (chars (numerator e)))) (denominator e)) (- q).
Proof.
  intros Hi Hq. pose proof (denotes_fun _ _ _ Hq (integers_denotes _ _ _ Hi)) as Eq.
  apply integers_Ok in Hi as [-> [Hn Hd]]. unfold ratio. cbn [numerator denominator].
  unfold show at 2. rewrite chars_of_chars, bigint_show. fold (ratio (- n) d).
  exists (- n), d. split; [apply integers_Ok; split; [done|split; lia]|]. rewrite Eq. apply rat_opp.
Qed.

Lemma negateMoneyValue_sound m s q : negateMoneyValue m = Ok s → contains m q → contains s (- q).
Proof.
  unfold negateMoneyValue. intros H Hq. apply bind_Ok in H as (m' & Hm & H).
  apply validateMoneyValue_inv in Hm as (-> & (a & b & _ & _ & Ha & Hb & _) & _).
  unfold contains in Hq. destruct (mv_exact m) as [e|].
  - apply exactValue_inv in H as (Hex & _). unfold contains. rewrite Hex.
    destruct Hq as (n & d & Hi & Hq). eapply denotes_opp; [done|]. by exists n, d.
  - destruct Hq as (a' & b' & Ha' & Hb' & H1 & H2).
    apply bind_Ok in H as (lo & Hlo & H). apply bind_Ok in H as (up & Hup & H).
    rewrite (negateSignedDecimal_spec _ b') in Hlo by done. injection Hlo as <-.
    rewrite (negateSignedDecimal_spec _ a') in Hup by done. injection Hup as <-.
    apply validateMoneyValue_inv in H as (-> & _). unfold contains. cbn.
    exists (- b'), (- a'). rewrite !sunits_sdec by (rewrite Z.abs_opp; by eapply sunits_bounds).
    rewrite <-!qdec_opp. split_and!; [done|done|lra|lra].
Qed.

Lemma moneyValueFromDecimal_sound v m z : moneyValueFromDecimal v = Ok m → sunits v = Some z → contains m (qdec z).
Proof.
  unfold moneyValueFromDecimal. intros H Hz. apply bind_Ok in H as (e & He & H).
  apply rationalFromDecimal_inv in He as (z' & Hz' & Hd). rewrite Hz in Hz'. injection Hz' as <-.
  apply exactValue_inv in H as (Hex & _). unfold contains. by rewrite Hex.
Qed.

Lemma moneyValueFromRational_sound r m q : moneyValueFromRational r = Ok m → (contains m q ↔ denotes r q).
Proof.
  unfold moneyValueFromRational. intros H. apply bind_Ok in H as (e & He & H).
  apply exactFraction_inv in He as (_ & Hiff & _). apply exactValue_inv in H as (Hex & _).
  unfold contains. rewrite Hex. apply Hiff.
Qed.

(** ** Comparing an amount with a threshold *)
Lemma compareBound_inv m t b c : compareBound m t b = Ok c →
  ∃ r x y, exact_or_bound m b = Ok r ∧ denotes r x ∧ denotes t y ∧ sign_of c x y.
Proof.
  unfold compareBound. intros H. apply bind_Ok in H as (r & Hr & H). apply bind_Ok in H as (k & Hk & H).
  apply compareRational_inv in Hk as (x & y & Hx & Hy & (S1 & S2 & S3)). exists r, x, y.
  split_and!; try done. rewrite Z.gtb_ltb in H.
  destruct (Z.ltb_spec k 0); [|destruct (Z.ltb_spec 0 k)]; injection H as <-; unfold sign_of;
    rewrite <-S1, <-S2, <-S3; lia.
Qed.

(** The lower (upper) bound is below (above) every contained amount. *)
Lemma exact_or_bound_lower m r x q : exact_or_bound m Lower = Ok r → denotes r x → contains m q → (x <= q)%Q.
Proof.
  unfold exact_or_bound, contains. destruct (mv_exact m) as [e|].
  - intros [= <-] Hx Hq. rewrite (denotes_fun _ _ _ Hx Hq). apply Qle_refl.
  - intros Hr Hx (a & b & Ha & Hb & H1 & H2). apply rationalFromDecimal_inv in Hr as (z & Hz & Hd).
    cbn in Hz. rewrite Ha in Hz. injection Hz as <-. by rewrite (denotes_fun _ _ _ Hx Hd).
Qed.
Lemma exact_or_bound_upper m r x q : exact_or_bound m Upper = Ok r → denotes r x → contains m q → (q <= x)%Q.
Proof.
  unfold exact_or_bound, contains. destruct (mv_exact m) as [e|].
  - intros [= <-] Hx Hq. rewrite (denotes_fun _ _ _ Hx Hq). apply Qle_refl.
  - intros Hr Hx (a & b & Ha & Hb & H1 & H2). apply rationalFromDecimal_inv in Hr as (z & Hz & Hd).
    cbn in Hz. rewrite Hb in Hz. injection Hz as <-. by rewrite (denotes_fun _ _ _ Hx Hd).
Qed.

Section CompareBound.
  Context (m : MoneyValue) (t : ExactRational) (q y : Q).
  Context (Hq : contains m q) (Hy : denotes t y).

Lemma compareBound_upper_le c : compareBound m t Upper = Ok c → c <= 0 → (q <= y)%Q.
  Proof using Hq Hy.
    intros H Hc. apply compareBound_inv in H as (r & x & y' & Hr & Hx & Hy' & (_ & S2 & _)).
    rewrite (denotes_fun _ _ _ Hy Hy'). pose proof (exact_or_bound_upper _ _ _ _ Hr Hx Hq).
    destruct (Qlt_le_dec y' x) as [Hlt|]; [apply S2 in Hlt; lia|lra].
  Qed.
Lemma compareBound_upper_lt c : compareBound m t Upper = Ok c → c < 0 → (q < y)%Q.
  Proof using Hq Hy.
    intros H Hc. apply compareBound_inv in H as (r & x & y' & Hr & Hx & Hy' & (S1 & _)).
    rewrite (denotes_fun _ _ _ Hy Hy'). pose proof (exact_or_bound_upper _ _ _ _ Hr Hx Hq).
    apply S1 in Hc. lra.
  Qed.
Lemma compareBound_lower_gt c : compareBound m t Lower = Ok c → 0 < c → (y < q)%Q.
  Proof using Hq Hy.
    intros H Hc. apply compareBound_inv in H as (r & x & y' & Hr & Hx & Hy' & (_ & S2 & _)).
    rewrite (denotes_fun _ _ _ Hy Hy'). pose proof (exact_or_bound_lower _ _ _ _ Hr Hx Hq).
    apply S2 in Hc. lra.
  Qed.
Lemma compareBound_lower_ge c : compareBound m t Lower = Ok c → 0 <= c → (y <= q)%Q.
  Proof using Hq Hy.
    intros H Hc. apply compareBound_inv in H as (r & x & y' & Hr & Hx & Hy' & (S1 & _)).
    rewrite (denotes_fun _ _ _ Hy Hy'). pose proof (exact_or_bound_lower _ _ _ _ Hr Hx Hq).
    destruct (Qlt_le_dec x y') as [Hlt|]; [apply S1 in Hlt; lia|lra].
  Qed.
End CompareBound.

Lemma sunits_zero : sunits "0" = Some 0.
Proof. rewrite <-sdec_0. apply sunits_sdec. rewrite Z.abs_0. pose proof ONE_pos. rewrite LIMIT_ONE. lia. Qed.

Lemma rationalFromDecimal_zero r : rationalFromDecimal "0" = Ok r → denotes r 0.
Proof.
  intros H. apply rationalFromDecimal_inv in H as (z & Hz & Hd). rewrite sunits_zero in Hz.
  injection Hz as <-. by rewrite qdec_0 in Hd.
Qed.

(** The loss a day's result consumes. *)
Definition lossQ (day : Q) : Q := Qmax 0 (- day).

Lemma lossQ_pos day : (0 < - day)%Q → (lossQ day == - day)%Q.
Proof. intros H. unfold lossQ. apply Q.max_r. lra. Qed.
Lemma lossQ_neg day : (- day <= 0)%Q → (lossQ day == 0)%Q.
Proof. intros H. unfold lossQ. by apply Q.max_l. Qed.
#[export] Instance lossQ_proper : Proper (Qeq ==> Qeq) lossQ.
Proof. intros x y H. unfold lossQ. by rewrite H. Qed.

Lemma zeroWithTerms_sound t m : zeroWithTerms t = Ok m → contains m 0.
Proof.
  unfold zeroWithTerms. intros H. apply bind_Ok in H as (z & Hz & H). injection H as <-.
  eapply moneyValueFromDecimal_sound in Hz; [|apply sunits_zero].
  assert (contains z 0) as Hz0 by (by rewrite <-qdec_0). exact Hz0.
Qed.

(** Clamping the two bounds of a loss at zero. *)
Definition clamp (s : string) : string := if starts_minus s then "0" else s.
Lemma clamp_units s z : s = sdec z → sunits s = Some z → sunits (clamp s) = Some (Z.max 0 z).
Proof.
  intros -> Hz. unfold clamp. rewrite starts_minus_sdec. destruct (Z.ltb_spec z 0).
  - rewrite sunits_zero. f_equal. lia.
  - rewrite Hz. f_equal. lia.
Qed.

Lemma lossQ_within a b q : (qdec a <= - q)%Q → (- q <= qdec b)%Q →
  (qdec (Z.max 0 a) <= lossQ q)%Q ∧ (lossQ q <= qdec (Z.max 0 b))%Q.
Proof.
  intros H1 H2. pose proof (qdec_le a (Z.max 0 a)) as Ha. pose proof (qdec_le b (Z.max 0 b)) as Hb.
  pose proof (proj2 (qdec_le 0 (Z.max 0 a)) ltac:(lia)). pose proof (proj2 (qdec_le 0 (Z.max 0 b)) ltac:(lia)).
  rewrite qdec_0 in *. pose proof (proj2 Hb ltac:(lia)).
  unfold lossQ. split.
  - destruct (Z.leb_spec 0 a).
    + rewrite Z.max_r by lia. eapply Qle_trans; [exact H1|]. apply Q.le_max_r.
    + rewrite Z.max_l by lia. rewrite qdec_0. apply Q.le_max_l.
  - apply Q.max_lub; lra.
Qed.

Lemma consumedLossFor_sound d m q : consumedLossFor d = Ok m → contains d q → contains m (lossQ q).
Proof.
  unfold consumedLossFor. intros H Hq. apply bind_Ok in H as (loss & Hl & H).
  pose proof (negateMoneyValue_sound _ _ _ Hl Hq) as Hneg.
  assert (mv_exact loss = None → ∃ a b, mv_lower loss = sdec a ∧ mv_upper loss = sdec b) as Hcan.
  { unfold negateMoneyValue in Hl. apply bind_Ok in Hl as (d' & Hd & Hl).
    destruct (mv_exact d').
    - apply exactValue_inv in Hl as (Hex & _). congruence.
    - apply bind_Ok in Hl as (lo & _ & Hl). apply bind_Ok in Hl as (up & _ & Hl).
      apply validateMoneyValue_inv in Hl as (-> & (a & b & ? & ? & _) & _). eauto. }
  destruct (mv_exact loss) as [e|] eqn:He.
  - apply bind_Ok in H as (z & Hz & H). apply bind_Ok in H as (c & Hc & H).
    apply rationalFromDecimal_zero in Hz. rewrite Z.gtb_ltb in H. destruct (Z.ltb_spec 0 c).
    + injection H as <-. rewrite lossQ_pos; [done|].
      eapply compareBound_lower_gt; [exact Hneg|exact Hz|done|done].
    + rewrite lossQ_neg; [by eapply zeroWithTerms_sound|].
      apply compareBound_inv in Hc as (r & x & y & Hr & Hx & Hy & (_ & S2 & _)).
      rewrite (denotes_fun _ _ _ Hy Hz) in S2. unfold exact_or_bound in Hr. rewrite He in Hr. injection Hr as <-.
      unfold contains in Hneg. rewrite He in Hneg. rewrite (denotes_fun _ _ _ Hneg Hx).
      destruct (Qlt_le_dec 0 x) as [Hlt|]; [apply S2 in Hlt; lia|done].
  - unfold consumedLossForInexact in H. fold (clamp (mv_lower loss)) (clamp (mv_upper loss)) in H.
    unfold contains in Hneg. rewrite He in Hneg. destruct Hneg as (a & b & Ha & Hb & H1 & H2).
    destruct (Hcan eq_refl) as (a' & b' & Ea & Eb).
    pose proof Ha as Ha'. rewrite Ea in Ha'. apply sunits_sdec_Some in Ha' as [-> ?].
    pose proof Hb as Hb'. rewrite Eb in Hb'. apply sunits_sdec_Some in Hb' as [-> ?].
    pose proof (lossQ_within _ _ _ H1 H2) as [L1 L2].
    pose proof (clamp_units _ _ Ea Ha) as Ca. pose proof (clamp_units _ _ Eb Hb) as Cb.
    case_bool_decide as E0.
    + rewrite E0, sunits_zero in Cb. injection Cb as Cb. rewrite <-Cb in L2.
      assert (lossQ q == 0)%Q as ->; [|by eapply zeroWithTerms_sound].
      rewrite qdec_0 in L2. apply Qle_antisym; [done|]. apply Q.le_max_l.
    + apply validateMoneyValue_inv in H as (-> & _). unfold contains. cbn. rewrite He.
      by exists (Z.max 0 a'), (Z.max 0 b').
Qed.

(** ** Admission decisions *)
Lemma addMoneyValues_precise l r s : addMoneyValues l r = Ok s → mv_precision s ≠ bounded → ∃ e, mv_exact s = Some e.
Proof.
  unfold addMoneyValues. intros H Hp.
  apply bind_Ok in H as (l' & _ & H). apply bind_Ok in H as (r' & _ & H). apply bind_Ok in H as (t & _ & H).
  assert (addBounds l' r' t = Ok s → mv_precision s = bounded) as Hb.
  { unfold addBounds. intros E. apply bind_Ok in E as (lo & _ & E). apply bind_Ok in E as (up & _ & E).
    apply validateMoneyValue_inv in E as (-> & _). done. }
  destruct (mv_exact l'), (mv_exact r'); try (by apply Hb in H).
  destruct (negb _); [|by apply Hb in H].
  apply bind_Ok in H as (es & _ & H). apply exactValue_inv in H as (He & _). by exists es.
Qed.

Lemma normalizedBudget_inv v b r z : normalizedBudget v = Ok b → rationalFromDecimal b = Ok r →
  units (trim v) = Some z → denotes r (qdec z).
Proof.
  unfold normalizedBudget. destruct (has_space v); [done|]. intros H Hr Hz.
  apply decimal_inv in H as (a & Ha & -> & Hb & _). rewrite Hz in Ha. injection Ha as <-.
  apply rationalFromDecimal_inv in Hr as (z' & Hz' & Hd). rewrite sunits_dec in Hz' by done.
  by injection Hz' as <-.
Qed.

(** Decisions on an exact amount are decisive. *)
Lemma compareBound_exact m t b b' e c c' : mv_exact m = Some e →
  compareBound m t b = Ok c → compareBound m t b' = Ok c' → c = c'.
Proof.
  intros He. unfold compareBound, exact_or_bound. rewrite He. cbn [mbind result_bind]. congruence.
Qed.

Section DailyRisk.
  Context (input : MonetaryDailyRiskInput) (risk : MonetaryDailyRisk).
  Context (x e c : Q) (u b : Z).
  Context (Hrun : calculateMonetaryDailyRisk input = Ok risk).
  Context (Hx : contains (ri_ledgerPnl input) x).
  Context (He : contains (ri_existingCommitment input) e).
  Context (Hc : contains (ri_candidateCommitment input) c).
  Context (Hu : sunits (ri_unrealizedPnl input) = Some u).
  Context (Hb : units (trim (ri_budget input)) = Some b).

  (** The day's loss and the commitment it leaves, as real amounts. *)
Definition day_loss : Q := lossQ (x + qdec u).
Definition total_commitment : Q := (day_loss + e + c)%Q.

Lemma daily_risk_parts :
    contains (dr_consumedLoss risk) day_loss ∧ contains (dr_totalCommitment risk) total_commitment ∧
    (dr_allowed risk = true → (total_commitment <= qdec b)%Q) ∧
    (dr_breached risk = true → (qdec b < total_commitment)%Q) ∧
    (dr_lossLimitReached risk = true → (qdec b <= day_loss)%Q) ∧
    (dr_precisionUncertain risk = false → dr_breached risk = negb (dr_allowed risk)).
  Proof using Hrun Hx He Hc Hu Hb.
    pose proof Hrun as H. unfold calculateMonetaryDailyRisk in H.
    apply bind_Ok in H as (budget & Hbud & H). apply bind_Ok in H as (thr & Hthr & H).
    apply bind_Ok in H as (led & Hled & H). apply bind_Ok in H as (ex & Hex & H).
    apply bind_Ok in H as (ca & Hca & H). apply bind_Ok in H as (un & Hun & H).
    apply bind_Ok in H as (day & Hday & H). apply bind_Ok in H as (los & Hlos & H).
    apply bind_Ok in H as (part & Hpart & H). apply bind_Ok in H as (tot & Htot & H).
    apply bind_Ok in H as (up & Hup & H). apply bind_Ok in H as (lo & Hlo & H).
    apply bind_Ok in H as (ll & Hll & H). injection H as H. subst risk. cbn -[existsb].
    pose proof (normalizedBudget_inv _ _ _ _ Hbud Hthr Hb) as Dthr.
    apply validateMoneyValue_inv in Hled as (-> & _).
    assert (∀ m m', nonnegativeCommitment m = Ok m' → m' = m) as Hnn.
    { intros m m' E. unfold nonnegativeCommitment in E. apply bind_Ok in E as (w & Hw & E).
      apply validateMoneyValue_inv in Hw as (-> & _). apply bind_Ok in E as (z & _ & E).
      apply bind_Ok in E as (k & _ & E). destruct (k <? 0); [done|by injection E]. }
    apply Hnn in Hex as ->. apply Hnn in Hca as ->.
    pose proof (moneyValueFromDecimal_sound _ _ _ Hun Hu) as Cun.
    pose proof (addMoneyValues_sound _ _ _ _ _ Hday Hx Cun) as Cday.
    pose proof (consumedLossFor_sound _ _ _ Hlos Cday) as Clos.
    pose proof (addMoneyValues_sound _ _ _ _ _ Hpart Clos He) as Cpart.
    pose proof (addMoneyValues_sound _ _ _ _ _ Htot Cpart Hc) as Ctot.
    fold day_loss in Clos, Ctot. fold total_commitment in Ctot.
    split_and!; try done.
    - intros Hup0%Z.leb_le. eapply compareBound_upper_le; [exact Ctot|exact Dthr|exact Hup|exact Hup0].
    - rewrite Z.gtb_ltb. intros Hlo0%Z.ltb_lt. eapply compareBound_lower_gt; [exact Ctot|exact Dthr|exact Hlo|exact Hlo0].
    - rewrite Z.geb_leb. intros Hl0%Z.leb_le. eapply compareBound_lower_ge; [exact Clos|exact Dthr|exact Hll|exact Hl0].
    - intros Hpu. destruct (addMoneyValues_precise _ _ _ Htot) as [et Het].
      { cbn in Hpu. rewrite !orb_false_iff in Hpu. destruct Hpu as (_ & _ & _ & _ & _ & Hpu & _).
        by apply bool_decide_eq_false in Hpu. }
      rewrite (compareBound_exact _ _ _ _ _ _ _ Het Hup Hlo). rewrite Z.gtb_ltb.
      destruct (Z.ltb_spec 0 lo), (Z.leb_spec lo 0); done || lia.
  Qed.
End DailyRisk.

(** ** Channel returns *)
Lemma channelReturnThreshold_parts m eq th loss r q a t :
  channelReturnThreshold m eq th loss = Ok r → contains m q →
  units (trim eq) = Some a → units (trim th) = Some t →
  let boundary := (qdec a * qdec t / 100)%Q in
  if loss then (r = reached → (q <= - boundary)%Q) ∧ (r = not_reached → (- boundary < q)%Q)
  else (r = reached → (boundary <= q)%Q) ∧ (r = not_reached → (q < boundary)%Q).
Proof.
  intros H Hq Ha Ht boundary. unfold channelReturnThreshold in H.
  apply bind_Ok in H as (pnl & Hpnl & H). apply bind_Ok in H as (e & He & H). apply bind_Ok in H as (er & Her & H).
  apply bind_Ok in H as (t' & Ht' & H). apply bind_Ok in H as (tr & Htr & H). apply bind_Ok in H as (pr & Hpr & H).
  apply bind_Ok in H as (hu & Hhu & H). apply bind_Ok in H as (b0 & Hb0 & H).
  apply bind_Ok in H as (lor & Hlor & H). apply bind_Ok in H as (lo & Hlo & H).
  apply bind_Ok in H as (upr & Hupr & H). apply bind_Ok in H as (up & Hup & H). injection H as H.
  apply validateMoneyValue_inv in Hpnl as (-> & _).
  apply decimal_inv in He as (a' & Ha' & -> & Hab & _). assert (a' = a) as -> by congruence.
  apply decimal_inv in Ht' as (t2 & Ht2 & -> & Htb & _). assert (t2 = t) as -> by congruence.
  apply rationalFromDecimal_inv in Her as (z1 & Hz1 & Der). rewrite sunits_dec in Hz1 by done. injection Hz1 as <-.
  apply rationalFromDecimal_inv in Htr as (z2 & Hz2 & Dtr). rewrite sunits_dec in Hz2 by done. injection Hz2 as <-.
  apply rationalFromDecimal_inv in Hhu as (z3 & Hz3 & Dhu).
  assert (sunits "100" = Some (100 * ONE)) as E100 by (vm_compute; reflexivity). assert (z3 = 100 * ONE) as -> by congruence. clear E100 Hz3.
  apply multiplyRational_inv in Hpr as (x1 & y1 & Hx1 & Hy1 & Dpr).
  rewrite (denotes_fun _ _ _ Hx1 Der), (denotes_fun _ _ _ Hy1 Dtr) in Dpr.
  apply divideRational_inv in Hb0 as (x2 & y2 & Hx2 & Hy2 & _ & Db0).
  rewrite (denotes_fun _ _ _ Hx2 Dpr), (denotes_fun _ _ _ Hy2 Dhu) in Db0.
  assert (qdec (100 * ONE) == 100)%Q as E1.
  { unfold qdec. change 100%Q with (rat 100 1). pose proof ONE_pos. apply rat_eq; lia. }
  rewrite E1 in Db0. fold boundary in Db0. clearbody boundary.
  set (B := if loss then (- boundary)%Q else boundary).
  assert (denotes (if loss then mkRational (show (- bigint (chars (numerator b0)))) (denominator b0) else b0) B) as DB.
  { unfold B. destruct loss; [|exact Db0]. pose proof Db0 as (n & d & Hi & _). eapply denotes_opp; [exact Hi|exact Db0]. }
  apply compareRational_inv in Hlo as (xl & yl & Hxl & Hyl & (L1 & L2 & L3)).
  apply compareRational_inv in Hup as (xu & yu & Hxu & Hyu & (U1 & U2 & U3)).
  rewrite (denotes_fun _ _ _ Hyl DB) in L1, L2, L3. rewrite (denotes_fun _ _ _ Hyu DB) in U1, U2, U3.
  pose proof (exact_or_bound_lower _ _ _ _ Hlor Hxl Hq). pose proof (exact_or_bound_upper _ _ _ _ Hupr Hxu Hq).
  unfold B in *. destruct loss; subst r; unfold lossReturnThreshold, gainReturnThreshold;
    rewrite ?Z.gtb_ltb, ?Z.geb_leb.
  - destruct (Z.leb_spec up 0), (Z.ltb_spec 0 lo); split; intros Hr; try discriminate Hr.
    + destruct (Qlt_le_dec (- boundary) xu) as [Hlt|]; [apply U2 in Hlt; lia|lra].
    + destruct (Qlt_le_dec (- boundary) xu) as [Hlt|]; [apply U2 in Hlt; lia|lra].
    + apply L2 in H2. lra.
  - destruct (Z.leb_spec 0 lo), (Z.ltb_spec up 0); split; intros Hr; try discriminate Hr.
    + destruct (Qlt_le_dec xl boundary) as [Hlt|]; [apply L1 in Hlt; lia|lra].
    + destruct (Qlt_le_dec xl boundary) as [Hlt|]; [apply L1 in Hlt; lia|lra].
    + apply U1 in H2. lra.
Qed.

(** ** Results are again valid money values *)
Lemma rational_reduced r n d : integers r = Ok (n, d) → Z.gcd n d = 1 → rational r = Ok r.
Proof.
  intros Hi Hg. unfold rational. rewrite Hi. cbn [mbind result_bind]. apply integers_Ok in Hi as [-> [Hn Hd]].
  rewrite (fraction_lowest n d (rat n d) ltac:(lia) ltac:(done) n d ltac:(lia) Hg ltac:(done)).
  by rewrite !(proj2 (Z.ltb_lt _ _)) by lia.
Qed.

Lemma canonicalDecimal_sdec z : Z.abs z < LIMIT → canonicalDecimal (sdec z) = Ok (sdec z).
Proof.
  intros Hz. unfold canonicalDecimal. rewrite (signedDecimal_spec _ z) by by apply sunits_sdec.
  cbn [mbind result_bind]. by rewrite bool_decide_true.
Qed.

Lemma exactValue_valid e t m : exactValue e t = Ok m → rational e = Ok e → checkedTerms t = Ok t →
  (t = 0 → numerator e = "0") → validateMoneyValue m = Ok m ∧ mv_terms m = t.
Proof.
  intros H Hr Ht H0. pose proof H as H'. unfold exactValue in H'. apply bind_Ok in H' as (b & Hb & H').
  injection H' as Hm. apply rationalDecimalBounds_inv in Hb as (n & d & lo & up & _ & _ & _ & -> & Hl & Hu).
  cbn [lower upper exact] in Hm. subst m. split; [|done].
  unfold validateMoneyValue. cbn [mv_lower mv_upper mv_terms mv_exact].
  rewrite !canonicalDecimal_sdec by done. cbn [mbind result_bind]. rewrite Ht. cbn [mbind result_bind].
  unfold validateExact, exactFraction. rewrite Hr. cbn [mbind result_bind]. rewrite bool_decide_true by done.
  cbn [andb negb mbind result_bind]. rewrite H. cbn [mbind result_bind mv_lower mv_upper mv_decimal mv_precision].
  rewrite !bool_decide_true by done. cbn [negb orb]. destruct (Z.eqb_spec t 0) as [E|]; [|done].
  by rewrite bool_decide_true by auto.
Qed.

Lemma checkedTerms_inv t t' : checkedTerms t = Ok t' → t' = t ∧ 0 <= t.
Proof.
  unfold checkedTerms. destruct (isSafeInteger t) eqn:E; [|done]. cbn [negb orb].
  destruct (Z.ltb_spec t 0); [done|]. by intros [= <-].
Qed.

Lemma validate_reduced m e : validateMoneyValue m = Ok m → mv_exact m = Some e →
  (∃ n d, integers e = Ok (n, d) ∧ Z.gcd n d = 1 ∧ (mv_terms m = 0 → n = 0)) ∧ 0 <= mv_terms m.
Proof.
  intros H He. unfold validateMoneyValue in H. apply bind_Ok in H as (lo & _ & H). apply bind_Ok in H as (up & _ & H).
  apply bind_Ok in H as (t & [-> Ht]%checkedTerms_inv & H). rewrite He in H. split; [|done].
  unfold validateExact in H. apply bind_Ok in H as (e' & Hf & H). apply bind_Ok in H as (r & _ & H).
  unfold exactFraction in Hf. apply bind_Ok in Hf as (w & Hw & Hf). cbn [andb] in Hf.
  destruct (bool_decide_reflect (w = e)) as [E|]; [|done]. cbn in Hf. assert (e' = e) as -> by congruence. subst w. clear Hf.
  pose proof Hw as Hw'. unfold rational in Hw. apply bind_Ok in Hw as ([n d] & Hi & Hw).
  pose proof Hi as [Er Hbd]%integers_Ok. destruct Hbd as [Hn Hd].
  apply fraction_inv in Hw as (n' & d' & Hi' & _ & Hg); [|lia]. rewrite Hi in Hi'. injection Hi' as <- <-.
  exists n, d. split_and!; [done..|]. intros E0. rewrite E0 in H. cbn [Z.eqb andb] in H.
  destruct (negb _ || _ || _ || _); [done|]. destruct (bool_decide_reflect (numerator e = "0")) as [En|]; [|done].
  subst e. unfold ratio in En. cbn [numerator] in En. by apply (show_inj n 0).
Qed.

Lemma validateMoneyValue_terms m m' : validateMoneyValue m = Ok m' → 0 <= mv_terms m.
Proof.
  unfold validateMoneyValue. intros H. apply bind_Ok in H as (lo & _ & H). apply bind_Ok in H as (up & _ & H).
  by apply bind_Ok in H as (t & [-> Ht]%checkedTerms_inv & _).
Qed.

(** The bounded branch ends in a validation. *)
Lemma addBounds_valid l r t s : addBounds l r t = Ok s → validateMoneyValue s = Ok s ∧ mv_terms s = t.
Proof.
  unfold addBounds. intros H. apply bind_Ok in H as (lo & _ & H). apply bind_Ok in H as (up & _ & H).
  pose proof H as (-> & _)%validateMoneyValue_inv. done.
Qed.

Lemma addMoneyValues_valid l r s : addMoneyValues l r = Ok s →
  validateMoneyValue s = Ok s ∧ mv_terms s = mv_terms l + mv_terms r.
Proof.
  unfold addMoneyValues. intros H.
  apply bind_Ok in H as (l' & Hl & H). apply bind_Ok in H as (r' & Hr & H). apply bind_Ok in H as (t & Ht & H).
  pose proof Hl as (-> & _)%validateMoneyValue_inv. pose proof Hr as (-> & _)%validateMoneyValue_inv.
  pose proof Ht as [-> _]%checkedTerms_inv.
  destruct (mv_exact l) as [el|] eqn:El, (mv_exact r) as [er|] eqn:Er; try by eapply addBounds_valid.
  destruct (exceedsRationalLimit el er); cbn [negb] in H; [by eapply addBounds_valid|].
  apply bind_Ok in H as (e & He & H).
  destruct (validate_reduced _ _ Hl El) as ((a & b & Ha & _ & Ha0) & Ht1).
  destruct (validate_reduced _ _ Hr Er) as ((c & d & Hc & _ & Hc0) & Ht2).
  destruct (addRational_frac _ _ _ _ _ _ Ha Hc) as (n & k & E & Hk & Hq). rewrite E in He.
  apply fraction_inv in He as (n' & d' & Hi & Hq' & Hg); [|done].
  eapply exactValue_valid; [exact H|by eapply rational_reduced|done|]. intros E0.
  rewrite Ha0, Hc0 in Hq by lia.
  apply integers_Ok in Ha as [_ [_ ?]]. apply integers_Ok in Hc as [_ [_ ?]].
  pose proof Hi as [-> [_ ?]]%integers_Ok. rewrite <-Hq, rat_add, rat_eq in Hq' by nia.
  assert (n' = 0) as -> by nia. done.
Qed.

Lemma negateMoneyValue_valid m s : negateMoneyValue m = Ok s →
  validateMoneyValue s = Ok s ∧ mv_terms s = mv_terms m.
Proof.
  unfold negateMoneyValue. intros H. apply bind_Ok in H as (m' & Hm & H).
  pose proof Hm as (-> & _)%validateMoneyValue_inv. destruct (mv_exact m) as [e|] eqn:E.
  - destruct (validate_reduced _ _ Hm E) as ((n & d & Hi & Hg & H0) & Ht).
    pose proof Hi as [-> [Hn Hd]]%integers_Ok. unfold ratio in H. cbn [numerator denominator] in H.
    unfold show in H at 2. rewrite chars_of_chars, bigint_show in H. fold (ratio (- n) d) in H.
    assert (integers (ratio (- n) d) = Ok (- n, d)) as Hi' by (apply integers_Ok; split; [done|split; lia]).
    eapply exactValue_valid; [exact H|eapply rational_reduced; [done|by rewrite Z.gcd_opp_l]| |].
    + unfold validateMoneyValue in Hm. apply bind_Ok in Hm as (? & _ & Hm). apply bind_Ok in Hm as (? & _ & Hm).
      apply bind_Ok in Hm as (t & Hct & _). pose proof Hct as [-> _]%checkedTerms_inv. done.
    + intros E0%H0. by subst n.
  - apply bind_Ok in H as (lo & _ & H). apply bind_Ok in H as (up & _ & H).
    pose proof H as (-> & _)%validateMoneyValue_inv. done.
Qed.

(** ** Properties *)

(** Adding money values keeps every possibility and nothing ill-formed:
    the sum validates, its terms add up, and it contains the sum of any two
    amounts the operands contain; the negation likewise. *)
Theorem money_arithmetic_sound l r s n : addMoneyValues l r = Ok s → negateMoneyValue l = Ok n →
  validateMoneyValue s = Ok s ∧ mv_terms s = mv_terms l + mv_terms r ∧
  validateMoneyValue n = Ok n ∧ mv_terms n = mv_terms l ∧
  ∀ x y, contains l x → contains r y → contains s (x + y) ∧ contains n (- x).
Proof.
  intros Hs Hn. pose proof (addMoneyValues_valid _ _ _ Hs) as [V1 T1]. pose proof (negateMoneyValue_valid _ _ Hn) as [V2 T2].
  split_and!; try done. intros x y Hx Hy.
  split; [by eapply addMoneyValues_sound|by eapply negateMoneyValue_sound].
Qed.

(** A third, and an amount known only between two decimals. *)
Definition third : MoneyValue :=
  mkMoney "0.333333333333333333" "0.333333333333333334" (Some (mkRational "1" "3")) None exact_rational 1.
Definition blurred : MoneyValue := mkMoney "1.5" "1.500000000000000002" None None bounded 2.

(** The daily risk decision is sound for the unknown true amounts: an
    allowed order keeps loss plus commitments within the budget, a reported
    breach really exceeds it, a reported loss limit is really consumed, the two
    verdicts never both hold, and without a precision warning one of them does. *)
Theorem daily_risk_sound input risk x e c u b :
  calculateMonetaryDailyRisk input = Ok risk →
  contains (ri_ledgerPnl input) x → contains (ri_existingCommitment input) e → contains (ri_candidateCommitment input) c →
  sunits (ri_unrealizedPnl input) = Some u → units (trim (ri_budget input)) = Some b →
  let loss := Qmax 0 (- (x + qdec u)) in
  (dr_allowed risk = true → (loss + e + c <= qdec b)%Q) ∧
  (dr_breached risk = true → (qdec b < loss + e + c)%Q) ∧
  (dr_lossLimitReached risk = true → (qdec b <= loss)%Q) ∧
  (dr_allowed risk && dr_breached risk = false) ∧
  (dr_precisionUncertain risk = false → dr_breached risk = negb (dr_allowed risk)).
Proof.
  intros H Hx He Hc Hu Hb loss.
  destruct (daily_risk_parts _ _ _ _ _ _ _ H Hx He Hc Hu Hb) as (_ & _ & Ha & Hbr & Hl & Hp).
  split_and!; try done. destruct (dr_allowed risk), (dr_breached risk); try done.
  specialize (Ha eq_refl). specialize (Hbr eq_refl). exfalso. eapply Qlt_not_le; eauto.
Qed.

Definition risk_example : MonetaryDailyRiskInput :=
  mkRiskInput "100" (mkMoney "-40" "-40" (Some (mkRational "-40" "1")) (Some "-40") exact_decimal 1) "-10.5" third blurred.

(** The channel loss and gain gates are sound: [reached] only when the
    profit and loss is at or beyond the percentage of equity, [not_reached]
    only when it is strictly inside, [uncertain] otherwise. *)
Theorem channel_threshold_sound m equity threshold loss r q a t :
  channelReturnThreshold m equity threshold loss = Ok r → contains m q →
  units (trim equity) = Some a → units (trim threshold) = Some t →
  let boundary := (qdec a * qdec t / 100)%Q in
  if loss then (r = reached → (q <= - boundary)%Q) ∧ (r = not_reached → (- boundary < q)%Q)
  else (r = reached → (boundary <= q)%Q) ∧ (r = not_reached → (q < boundary)%Q).
Proof. intros. by eapply channelReturnThreshold_parts. Qed.
