(* ===== verification/Types.v ===== *)
(** Types: the data of [src/trading_types.ts] that the planning, admission and
    order-lifecycle components exchange.

    A union of string literals is an inductive type, an interface is a record
    with one field per property, an optional or nullable property is an
    [option].  Prices, quantities and money are decimal texts, as in the
    source; times, counts and leverage are integers. *)

From S2P Require Import Prelude Decimal Rational Money.
Local Open Scope Z_scope.

(** ** Literal unions *)
Inductive TradingAccountMode := mode_paper | mode_testnet | mode_live.
Inductive TradingSide := LONG | SHORT.
Inductive TradingOrderSide := buy | sell.
Inductive TradingOrderType := entry_market | entry_limit.
Inductive TargetAllocationMode := manual | adaptive_halving.
Inductive StopLossMode := configured | adaptive_targets.
Inductive DailyLossLimitMode := absolute | equity_percent.
Inductive PositionSizingMode := risk_percent | equity_percent_notional | equity_percent_margin.
Inductive RangePrice := near | midpoint | far.
Inductive TradingIntentStatus :=
| intent_pending | intent_planned | intent_submitting | intent_monitoring
| intent_completed | intent_blocked | intent_failed | intent_unknown.
Inductive OrderRole := role_entry | role_take_profit | role_stop_loss | role_flatten.
Inductive PlannedOrderType := type_market | type_limit | type_stop_market.
Inductive OrderResultStatus :=
| result_open | result_partially_filled | result_filled | result_cancelled | result_rejected | result_unknown.
Inductive RequestedSource := source_signal | source_strategy_default.
Inductive CapSource := cap_strategy | cap_market | cap_strategy_and_market.

#[export] Instance TradingAccountMode_eq_dec : EqDecision TradingAccountMode.
Proof. solve_decision. Defined.
#[export] Instance TradingSide_eq_dec : EqDecision TradingSide.
Proof. solve_decision. Defined.
#[export] Instance TradingOrderSide_eq_dec : EqDecision TradingOrderSide.
Proof. solve_decision. Defined.
#[export] Instance TradingOrderType_eq_dec : EqDecision TradingOrderType.
Proof. solve_decision. Defined.
#[export] Instance TargetAllocationMode_eq_dec : EqDecision TargetAllocationMode.
Proof. solve_decision. Defined.
#[export] Instance StopLossMode_eq_dec : EqDecision StopLossMode.
Proof. solve_decision. Defined.
#[export] Instance DailyLossLimitMode_eq_dec : EqDecision DailyLossLimitMode.
Proof. solve_decision. Defined.
#[export] Instance PositionSizingMode_eq_dec : EqDecision PositionSizingMode.
Proof. solve_decision. Defined.
#[export] Instance RangePrice_eq_dec : EqDecision RangePrice.
Proof. solve_decision. Defined.
#[export] Instance TradingIntentStatus_eq_dec : EqDecision TradingIntentStatus.
Proof. solve_decision. Defined.
#[export] Instance OrderRole_eq_dec : EqDecision OrderRole.
Proof. solve_decision. Defined.
#[export] Instance PlannedOrderType_eq_dec : EqDecision PlannedOrderType.
Proof. solve_decision. Defined.
#[export] Instance OrderResultStatus_eq_dec : EqDecision OrderResultStatus.
Proof. solve_decision. Defined.
#[export] Instance RequestedSource_eq_dec : EqDecision RequestedSource.
Proof. solve_decision. Defined.
#[export] Instance CapSource_eq_dec : EqDecision CapSource.
Proof. solve_decision. Defined.

(** ** Signals and strategies *)
Record DecimalRange := mkRange { range_min : string; range_max : string }.

Inductive SignalEntry :=
| MarketEntry
| RangeEntry (range : DecimalRange).

Record ExecutableSignal := mkSignal {
  sig_schema : string;
  sig_action : TradingSide;
  sig_symbol : string;
  sig_entry : SignalEntry;
  sig_targets : list DecimalRange;
  sig_stopLoss : string;
  sig_suggestedLeverage : option Z;
  sig_suggestedRiskPercent : option string;
  sig_averagingPrice : option string }.

Record StrategyEntry := mkStrategyEntry {
  se_orderType : TradingOrderType;
  se_rangePrice : RangePrice;
  se_postOnly : bool;
  se_timeoutSeconds : Z }.

Record StrategySizing := mkStrategySizing {
  ss_positionSizingMode : option PositionSizingMode;
  ss_riskPerTradePercent : string;
  ss_maxAdaptiveRiskPercent : option string;
  ss_maxPositionNotional : string;
  ss_defaultLeverage : Z;
  ss_maxLeverage : Z }.

Record StrategyExits := mkStrategyExits {
  sx_targetAllocationMode : TargetAllocationMode;
  sx_targetAllocationsPercent : list string;
  sx_stopLossMode : StopLossMode;
  sx_moveStopToBreakEvenAfterTarget : option Z;
  sx_trailingStopPercent : option string }.

Record StrategySafety := mkStrategySafety {
  sf_maxConcurrentPositions : option Z;
  sf_maxDailyLossMode : option DailyLossLimitMode;
  sf_maxDailyLoss : string;
  sf_maxSlippagePercent : string;
  sf_entryOrderTtlSeconds : Z }.

(** [closeRemainderAtLastTarget] and [requireProtectiveStop] have the literal
    type [true] and carry no information. *)
Record StrategyConfiguration := mkStrategy {
  st_schemaVersion : Z;
  st_allowedSignalSchemas : list string;
  st_allowedSymbols : list string;
  st_allowedSides : list TradingSide;
  st_entry : StrategyEntry;
  st_sizing : StrategySizing;
  st_exits : StrategyExits;
  st_safety : StrategySafety }.

(** ** Account and market snapshots *)
Inductive FundingStatus := funding_complete | funding_incomplete | funding_unsupported.

Record FundingEvent := mkFundingEvent {
  fe_id : string; fe_timestamp : Z; fe_amount : string; fe_asset : option string }.

(** The [observation] proof is only carried, never read, by the modelled code. *)
Record TradingFundingEvidence := mkFunding {
  tf_status : FundingStatus;
  tf_since : Z;
  tf_until : Z;
  tf_cursor : option string;
  tf_source : string;
  tf_reason : option string;
  tf_nextReadAt : Z;
  tf_events : list FundingEvent }.

Inductive UnrealizedSemantics := price_only | unverified_semantics.

Record TradingAccountingEvidence := mkAccounting {
  ta_accountFingerprint : string;
  ta_reportingCurrency : string;
  ta_settlementAssets : list string;
  ta_source : string;
  ta_observedAt : Z;
  ta_unrealizedPnlSemantics : UnrealizedSemantics;
  ta_funding : TradingFundingEvidence }.

Record TradingAccountSnapshot := mkAccountSnapshot {
  as_equity : string;
  as_availableBalance : string;
  as_unrealizedPnl : string;
  as_marginUsed : string;
  as_fundingPnlToday : option string;
  as_fundingPnlTodayValue : option MoneyValue;
  as_accounting : option TradingAccountingEvidence }.

Record TradingLeverageTier := mkTier {
  lt_lowerBound : string;
  lt_upperBound : option string;
  lt_maxLeverage : Z }.

Record TierScope := mkTierScope { sc_complete : bool; sc_positionQuantity : string; sc_openOrderCount : Z }.

Record TradingLeverageTierEvidence := mkTierEvidence {
  te_version : Z;
  te_exchange : string;
  te_symbol : string;
  te_providerSymbol : string;
  te_accountFingerprint : string;
  te_credentialGeneration : string;
  te_ccxtVersion : string;
  te_profileHash : string;
  te_source : string;
  te_currency : string;
  te_contractSize : string;
  te_markPrice : string;
  te_observedAt : Z;
  te_expiresAt : Z;
  te_scope : option TierScope;
  te_tiers : list TradingLeverageTier }.

(** The part of [ExchangeFillAccounting] the planning code reads. *)
Record MarketAccounting := mkMarketAccounting {
  ma_providerSymbol : string;
  ma_settlementAsset : string }.

Record TradingMarketSnapshot := mkMarket {
  mk_symbol : string;
  mk_markPrice : string;
  mk_priceTick : string;
  mk_quantityStep : string;
  mk_minimumQuantity : string;
  mk_minimumNotional : string;
  mk_maxLeverage : Z;
  mk_observedAt : Z;
  mk_accounting : option MarketAccounting;
  mk_leverageTiers : option TradingLeverageTierEvidence }.

Record TradingLeverageTierDecision := mkTierDecision {
  td_version : Z;
  td_evidenceHash : string;
  td_providerSymbol : string;
  td_contractSize : string;
  td_tierIndex : Z;
  td_quantity : string;
  td_leverage : Z;
  td_maximumNotional : option string;
  td_maximumNotionalCurrency : option string;
  td_maximumNotionalValue : option MoneyValue }.

(** ** Plans and orders *)
Record PlannedOrder := mkOrder {
  po_clientOrderId : string;
  po_role : OrderRole;
  po_side : TradingOrderSide;
  po_orderType : PlannedOrderType;
  (** [true] for [timeInForce: 'IOC'], [false] when the property is absent. *)
  po_ioc : bool;
  po_quantity : string;
  po_price : option string;
  po_triggerPrice : option string;
  po_reduceOnly : bool;
  po_postOnly : bool;
  po_targetIndex : option Z }.

Record TradingEntryPriceBoundary := mkBoundary {
  eb_version : Z;
  eb_referencePrice : string;
  eb_maxSlippagePercent : string;
  eb_priceTick : string;
  eb_limitPrice : string }.

Record LeverageDecision := mkLeverageDecision {
  ld_requested : Z;
  ld_requestedSource : RequestedSource;
  ld_strategyMaximum : Z;
  ld_marketMaximum : Z;
  ld_effective : Z;
  ld_cappedBy : option CapSource }.

#[export] Instance DecimalRange_eq_dec : EqDecision DecimalRange.
Proof. solve_decision. Defined.
#[export] Instance PlannedOrder_eq_dec : EqDecision PlannedOrder.
Proof. solve_decision. Defined.
#[export] Instance TradingEntryPriceBoundary_eq_dec : EqDecision TradingEntryPriceBoundary.
Proof. solve_decision. Defined.
#[export] Instance LeverageDecision_eq_dec : EqDecision LeverageDecision.
Proof. solve_decision. Defined.

Definition opposite (s : TradingOrderSide) : TradingOrderSide :=
  match s with buy => sell | sell => buy end.
