(* ===== verification/Json.v ===== *)
(** Json: JavaScript values as they reach a validator, and [JSON.stringify].

    [jsval] is an untyped value: a parsed request body, a stored configuration.
    An integral number below 10^21 is a [JInt]; any other finite number is a
    [JFloat] carrying its printed form; [JNaN] is any non-finite number.  An object is its
    own enumerable properties in insertion order. *)

From S2P Require Import Prelude Text Rational.
From Stdlib Require Import Ascii.
From Stdlib Require String.
Local Open Scope Z_scope.
Local Open Scope char_scope.
Local Open Scope list_scope.

#[warnings="-register-all"]
Inductive jsval :=
| JUndefined
| JNull
| JBool (b : bool)
| JInt (z : Z)
| JFloat (printed : string)
| JNaN
| JString (s : string)
| JArray (items : list jsval)
| JObject (fields : list (string * jsval)).

(** [value[key]]: an absent property reads as [undefined]. *)
Definition assoc (key : string) (fields : list (string * jsval)) : jsval :=
  match list_find (λ kv, kv.1 = key) fields with
  | Some (_, (_, v)) => v
  | None => JUndefined
  end.

(** ** [JSON.stringify] *)
Definition hex_digit (n : nat) : Ascii.ascii :=
  Ascii.ascii_of_nat (if (n <? 10)%nat then 48 + n else 87 + n)%nat.

Definition quote_char : Ascii.ascii := Ascii.ascii_of_nat 34.
Definition backslash : Ascii.ascii := Ascii.ascii_of_nat 92.

(** The escape of one code unit inside a JSON string. *)
Definition escape (c : Ascii.ascii) : list Ascii.ascii :=
  match Ascii.nat_of_ascii c with
  | 8%nat => [backslash; "b"%char]
  | 9%nat => [backslash; "t"%char]
  | 10%nat => [backslash; "n"%char]
  | 12%nat => [backslash; "f"%char]
  | 13%nat => [backslash; "r"%char]
  | 34%nat => [backslash; quote_char]
  | 92%nat => [backslash; backslash]
  | n => if (n <? 32)%nat
         then [backslash; "u"%char; "0"%char; "0"%char; hex_digit (n / 16); hex_digit (n mod 16)]
         else [c]
  end.

Definition stringify_string (s : string) : list Ascii.ascii :=
  quote_char :: flat_map escape (chars s) ++ [quote_char].

Definition comma : Ascii.ascii := ","%char.

Fixpoint commas (l : list (list Ascii.ascii)) : list Ascii.ascii :=
  match l with
  | [] => []
  | [w] => w
  | w :: l' => w ++ comma :: commas l'
  end.

(** [undefined] is [null] inside an array and drops the property of an object. *)
Fixpoint stringify (v : jsval) : list Ascii.ascii :=
  match v with
  | JUndefined | JNull | JNaN => chars "null"
  | JBool true => chars "true"
  | JBool false => chars "false"
  | JInt z => show_chars z
  | JFloat printed => chars printed
  | JString s => stringify_string s
  | JArray items => "["%char :: commas (map stringify items) ++ ["]"%char]
  | JObject fields =>
      "{"%char :: commas ((fix members (l : list (string * jsval)) : list (list Ascii.ascii) :=
        match l with
        | [] => []
        | (_, JUndefined) :: l' => members l'
        | (k, v') :: l' => (stringify_string k ++ ":"%char :: stringify v') :: members l'
        end) fields) ++ ["}"%char]
  end.

Definition JSON_stringify (v : jsval) : string := of_chars (stringify v).

(** A nullable string as a value. *)
Definition j_opt (o : option string) : jsval :=
  match o with Some s => JString s | None => JNull end.

(** ** Reading back a literal object *)
Lemma assoc_hit k v l : assoc k ((k, v) :: l) = v.
Proof. unfold assoc. cbn. by rewrite decide_True. Qed.

Lemma assoc_miss k k' v l : k' ≠ k → assoc k ((k', v) :: l) = assoc k l.
Proof. intros H. unfold assoc. cbn. rewrite decide_False by done. by destruct (list_find _ l) as [[i [a b]]|]. Qed.

Lemma assoc_nil k : assoc k [] = JUndefined.
Proof. reflexivity. Qed.

(** ** Reading untyped values *)
(** The strings of an array of strings. *)
Fixpoint all_strings (items : list jsval) : option (list string) :=
  match items with
  | [] => Some []
  | JString s :: rest => cons s <$> all_strings rest
  | _ => None
  end.
Definition string_array (value : jsval) : option (list string) :=
  match value with JArray items => all_strings items | _ => None end.

Definition is_undefined (v : jsval) : bool := match v with JUndefined => true | _ => false end.

(** [contract_values.ts]; [isStringMember] answers the string it recognises. *)
Definition isStringMember (value : jsval) (allowed : list string) : option string :=
  match value with JString s => if bool_decide (s ∈ allowed) then Some s else None | _ => None end.
Definition requireString (value : jsval) (label : string) : result string :=
  match value with JString s => Ok s | _ => throw (label +:+ " must be a string.") end.

(** [new Set(values).size === values.length] *)
Definition distinct (l : list string) : bool := bool_decide (NoDup l).

Definition or_throw {A} (o : option A) (msg : string) : result A := match o with Some a => Ok a | None => throw msg end.

(** Every element, or [None] when one is missing. *)
Fixpoint sequence {A} (l : list (option A)) : option (list A) :=
  match l with
  | [] => Some []
  | Some a :: l' => cons a <$> sequence l'
  | None :: _ => None
  end.

Lemma mapM_again {A B} (f : A → result B) (g : B → A) (l : list A) ks :
  mapM f l = Ok ks → (∀ x y, f x = Ok y → f (g y) = Ok y) → mapM f (map g ks) = Ok ks.
Proof.
  intros H Hf. apply mapM_Ok. apply mapM_Ok in H. induction H as [|x y l ks Hxy _ IH]; cbn; constructor; [by eapply Hf|done].
Qed.

Lemma all_strings_map l : all_strings (map JString l) = Some l.
Proof. induction l as [|s l IH]; cbn; [done|by rewrite IH]. Qed.
