(* ===== verification/Tiers.v ===== *)
(** Tiers: [src/trading_leverage_tiers.ts], the exchange's leverage tier table.

    A validated table partitions notionals into contiguous ranges with
    nonincreasing leverage maxima; [solveTierQuantity] lowers the requested
    leverage until the quantity it allows falls in a tier that permits it.
    The theorems show that the table partitions, that the solver's iteration
    bound is never exhausted, and what its answer guarantees.  [sha256] stands
    for [createHash('sha256').update(text).digest('hex')] of [node:crypto]. *)

From S2P Require Import Prelude Text Decimal Rational Money Types Json.
From Stdlib Require Ascii String.
From Stdlib Require Import QArith.
Local Open Scope Z_scope.

Definition TIERS_UNPROVEN : string := "LEVERAGE_TIERS_UNPROVEN".

Definition requireTier (condition : bool) (reason : string) : result unit :=
  require condition (mkError TIERS_UNPROVEN reason).

(** The loop of [validateTierTable]: [remaining] tiers, the expected lower
    bound and the previous maximum.  [tier.upperBound ?? ''] is the next
    expected lower bound. *)
Fixpoint validateTiers (lower : string) (previousLeverage : Z) (remaining : list TradingLeverageTier) : result unit :=
  match remaining with
  | [] => Ok tt
  | tier :: rest =>
      l ← decimal (lt_lowerBound tier) false None;
      _ ← requireTier (bool_decide (l = lower)) "Leverage tiers are gapped, overlapping or unordered.";
      _ ← requireTier (isSafeInteger (lt_maxLeverage tier) && (lt_maxLeverage tier >=? 1)
                       && (lt_maxLeverage tier <=? previousLeverage))
            "Leverage tier maxima must decrease and must not exceed 50.";
      _ ← match lt_upperBound tier with
          | None => requireTier (bool_decide (rest = [])) "Only the final tier can be unlimited."
          | Some u =>
              d ← decimal u true None;
              c ← compareDecimal d lower;
              requireTier (c >? 0) "Invalid leverage tier range."
          end;
      validateTiers (default "" (lt_upperBound tier)) (lt_maxLeverage tier) rest
  end.

Definition validateTierTable (tiers : list TradingLeverageTier) : result unit :=
  _ ← requireTier (bool_decide (0 < length tiers)%nat && bool_decide (length tiers <= 500)%nat)
        "Complete leverage tiers are required.";
  validateTiers "0" 50 tiers.

Definition quantum (value : string) : result Z :=
  d ← decimal value false None; Ok (padded_units (chars d)).

(** [findIndex]: the index of the first tier whose range holds the product, or [-1]. *)
Definition in_tier (product : Z) (tier : TradingLeverageTier) : result bool :=
  lo ← quantum (lt_lowerBound tier);
  if product >=? lo * 10 ^ 18 then
    match lt_upperBound tier with
    | None => Ok true
    | Some u => up ← quantum u; Ok (product <? up * 10 ^ 18)
    end
  else Ok false.

Fixpoint findTierIndex (product : Z) (index : Z) (tiers : list TradingLeverageTier) : result Z :=
  match tiers with
  | [] => Ok (-1)
  | tier :: rest =>
      b ← in_tier product tier;
      if (b : bool) then Ok index else findTierIndex product (index + 1) rest
  end.

Definition findTierForQuantity (tiers : list TradingLeverageTier) (quantity markPrice : string) : result Z :=
  q ← decimal quantity true None; qq ← quantum q;
  m ← decimal markPrice true None; mq ← quantum m;
  findTierIndex (qq * mq) 0 tiers.

Definition tierForQuantity (tiers : list TradingLeverageTier) (quantity markPrice : string) : result Z :=
  index ← findTierForQuantity tiers quantity markPrice;
  _ ← requireTier (index >=? 0) "Quantized notional is outside the proven leverage tiers.";
  Ok index.

Record TierSolution := mkSolution { so_leverage : Z; so_quantity : string; so_tierIndex : Z }.

Section Solver.
Context (tiers : list TradingLeverageTier) (markPrice : string) (quantityForLeverage : Z → result string).

(** The [for] loop with [iterations] left. *)
Fixpoint solveTier_loop (iterations : nat) (leverage : Z) : result TierSolution :=
  match iterations with
  | O => throw_code TIERS_UNPROVEN "Leverage tier solver exceeded its monotone bound."
  | S iterations' =>
      q ← quantityForLeverage leverage;
      quantity ← decimal q true None;
      tierIndex ← findTierForQuantity tiers quantity markPrice;
      match (if tierIndex <? 0 then last tiers else tiers !! Z.to_nat tierIndex) with
      | None => throw_code TIERS_UNPROVEN "Complete consistent leverage tiers are required."
      | Some tier =>
          let maximum := lt_maxLeverage tier in
          _ ← requireTier ((tierIndex >=? 0) || (leverage >? maximum))
                "Quantized notional is outside the proven leverage tiers.";
          if leverage <=? maximum then Ok (mkSolution leverage quantity tierIndex)
          else solveTier_loop iterations' maximum
      end
  end.

Definition solveTierQuantity (contractSize : string) (requested : Z) : result TierSolution :=
  _ ← validateTierTable tiers;
  _ ← decimal contractSize true None;
  _ ← requireTier (isSafeInteger requested && (requested >? 0)) "Invalid requested tier leverage.";
  match tiers with
  | [] => throw_code TIERS_UNPROVEN "Complete consistent leverage tiers are required."
  | first :: _ =>
      solveTier_loop (S (length tiers)) (Z.min requested (Z.min 50 (lt_maxLeverage first)))
  end.
End Solver.

(** ** Evidence hash and notional budgets *)
Section Evidence.
Context (sha256 : string → string).

Definition tierEvidenceHash (value : TradingLeverageTierEvidence) : string :=
  sha256 (JSON_stringify (JArray [
    JString (te_exchange value); JString (te_symbol value); JString (te_providerSymbol value);
    JString (te_accountFingerprint value); JString (te_credentialGeneration value); JString (te_ccxtVersion value);
    JString (te_profileHash value); JString (te_source value); JString (te_currency value);
    JString (te_contractSize value);
    JArray (map (λ tier, JArray [JString (lt_lowerBound tier); j_opt (lt_upperBound tier); JInt (lt_maxLeverage tier)])
                (te_tiers value))])).

(** The budget argument [string | MoneyValue]. *)
Inductive NotionalBudget := BudgetText (s : string) | BudgetMoney (m : MoneyValue).

Definition positiveExact (amount : MoneyValue) (reason : string) : result unit :=
  match mv_exact amount with
  | Some e =>
      if mv_terms amount >? 0 then
        zero ← rationalFromDecimal "0"; c ← compareRational e zero; requireTier (c >? 0) reason
      else requireTier false reason
  | None => requireTier false reason
  end.

Definition tierDecision (value : TradingLeverageTierEvidence) (solved : TierSolution) (maximumNotional : NotionalBudget)
    : result TradingLeverageTierDecision :=
  match maximumNotional with
  | BudgetMoney m =>
      amount ← validateMoneyValue m;
      _ ← positiveExact amount "Exact positive notional budget is required.";
      Ok (mkTierDecision 2 (tierEvidenceHash value) (te_providerSymbol value) (te_contractSize value)
            (so_tierIndex solved) (so_quantity solved) (so_leverage solved) (mv_decimal amount)
            (Some (te_currency value)) (Some amount))
  | BudgetText s =>
      Ok (mkTierDecision 1 (tierEvidenceHash value) (te_providerSymbol value) (te_contractSize value)
            (so_tierIndex solved) (so_quantity solved) (so_leverage solved) (Some s) None None)
  end.
End Evidence.

(** [compareDecimal(markPrice, entryPrice) > 0 ? markPrice : entryPrice] *)
Definition higherPrice (markPrice entryPrice : string) : result string :=
  c ← compareDecimal markPrice entryPrice; Ok (if c >? 0 then markPrice else entryPrice).

Definition assertTierNotionalBudget (quantity markPrice entryPrice maximum : string) : result unit :=
  price ← higherPrice markPrice entryPrice;
  q ← quantum quantity; p ← quantum price; m ← quantum maximum;
  requireTier (q * p <=? m * 10 ^ 18) "Current valuation exceeds the original margin/notional budget.".

Definition assertTierDecisionBudget (decision : TradingLeverageTierDecision) (currency quantity markPrice entryPrice : string)
    : result unit :=
  if td_version decision =? 1 then
    match td_maximumNotional decision, td_maximumNotionalValue decision, td_maximumNotionalCurrency decision with
    | Some m, None, None => assertTierNotionalBudget quantity markPrice entryPrice m
    | _, _, _ => throw_code TIERS_UNPROVEN "Legacy tier budget contract changed."
    end
  else
    _ ← requireTier ((td_version decision =? 2) && bool_decide (td_maximumNotionalCurrency decision = Some currency))
          "Tier budget currency differs.";
    match td_maximumNotionalValue decision with
    | None => throw "Invalid money value structure."
    | Some v =>
        amount ← validateMoneyValue v;
        let reason := "Tier rational budget is not exact or contradicts its decimal alias." in
        match mv_exact amount with
        | None => throw_code TIERS_UNPROVEN reason
        | Some e =>
            _ ← requireTier ((mv_terms amount >? 0) && bool_decide (td_maximumNotional decision = mv_decimal amount)) reason;
            zero ← rationalFromDecimal "0"; c ← compareRational e zero;
            _ ← requireTier (c >? 0) reason;
            price ← higherPrice markPrice entryPrice;
            q ← decimal quantity true None; qr ← rationalFromDecimal q;
            p ← decimal price true None; pr ← rationalFromDecimal p;
            actual ← multiplyRational qr pr;
            c' ← compareRational actual e;
            requireTier (c' <=? 0) "Current valuation exceeds the original margin/notional budget."
        end
    end.

(** ** What a validated table says *)
Lemma ONE_ten : 10 ^ 18 = ONE.
Proof. pose proof (ONE_pow 18 ltac:(lia)) as H. change (10 ^ (18 - 18)) with 1 in H. lia. Qed.

Lemma quantum_spec v a : units (trim v) = Some a → quantum v = Ok a.
Proof.
  intros Ha. unfold quantum. rewrite (decimal_spec _ _ Ha). cbn [mbind result_bind].
  rewrite padded_units_dec; [done|by eapply units_nonneg].
Qed.

Lemma quantum_inv v a : quantum v = Ok a → units (trim v) = Some a.
Proof.
  unfold quantum. intros H. apply bind_Ok in H as (d & Hd & H).
  apply decimal_inv in Hd as (b & Hb & -> & Hr & _). rewrite padded_units_dec in H by lia. by injection H as ->.
Qed.

(** Contiguous ranges from [lo] on, with maxima between 1 and [prev]. *)
Fixpoint tiers_ok (lo prev : Z) (l : list TradingLeverageTier) : Prop :=
  match l with
  | [] => True
  | t :: l' =>
      units (trim (lt_lowerBound t)) = Some lo ∧ 1 <= lt_maxLeverage t <= prev ∧
      match lt_upperBound t with
      | None => l' = []
      | Some u => ∃ b, units (trim u) = Some b ∧ lo < b ∧ tiers_ok b (lt_maxLeverage t) l'
      end
  end.

Lemma requireTier_Ok b r u : requireTier b r = Ok u ↔ b = true.
Proof. apply require_Ok. Qed.

Lemma validateTiers_inv lower lo prev l u : units (trim lower) = Some lo →
  validateTiers lower prev l = Ok u → tiers_ok lo prev l.
Proof.
  revert lower lo prev. induction l as [|t l IH]; intros lower lo prev Hlo H; [done|]. cbn [validateTiers] in H.
  apply bind_Ok in H as (d & Hd & H). apply bind_Ok in H as (u1 & H1 & H). apply bind_Ok in H as (u2 & H2 & H).
  apply bind_Ok in H as (u3 & H3 & H). apply requireTier_Ok, bool_decide_eq_true in H1. subst d.
  apply decimal_inv in Hd as (a & Ha & Hl & Hab & _). subst lower. rewrite trim_dec, units_dec_lt in Hlo by lia.
  injection Hlo as ->. rewrite requireTier_Ok, !andb_true_iff, Z.geb_leb, !Z.leb_le in H2. cbn [tiers_ok].
  split; [done|]. split; [lia|]. destruct (lt_upperBound t) as [ub|].
  - apply bind_Ok in H3 as (d & Hd & H3). apply bind_Ok in H3 as (c & Hc & H3). rewrite requireTier_Ok, Z.gtb_lt in H3.
    apply decimal_inv in Hd as (b & Hb & -> & Hbb & _). exists b. split; [done|].
    rewrite (compareDecimal_spec _ _ b lo) in Hc by by apply units_dec_lt. injection Hc as <-.
    destruct (cmpZ_cases b lo) as [[? E]|[[? E]|[? E]]]; try lia. split; [done|]. by eapply IH.
  - by apply requireTier_Ok, bool_decide_eq_true in H3.
Qed.

Lemma validateTierTable_inv l u : validateTierTable l = Ok u → tiers_ok 0 50 l ∧ l ≠ [].
Proof.
  unfold validateTierTable. intros H. apply bind_Ok in H as (? & H1 & H).
  rewrite requireTier_Ok, andb_true_iff, !bool_decide_eq_true in H1. split; [|by destruct l; cbn in *; [lia|]].
  eapply validateTiers_inv; [|done]. rewrite <-dec_0, trim_dec, dec_0 by lia. apply units_zero.
Qed.

(** The range test of a tier with known bounds. *)
Lemma in_tier_spec p t lo : units (trim (lt_lowerBound t)) = Some lo →
  match lt_upperBound t with
  | None => in_tier p t = Ok (lo * ONE <=? p)
  | Some u => ∀ b, units (trim u) = Some b → in_tier p t = Ok ((lo * ONE <=? p) && (p <? b * ONE))
  end.
Proof.
  intros Hlo. unfold in_tier. rewrite (quantum_spec _ _ Hlo). cbn [mbind result_bind]. rewrite ONE_ten, Z.geb_leb.
  destruct (lt_upperBound t) as [u|].
  - intros b Hb. rewrite (quantum_spec _ _ Hb). by destruct (lo * ONE <=? p).
  - by destruct (lo * ONE <=? p).
Qed.

(** No tier holds a product below the first bound. *)
Lemma tiers_below lo prev l p : tiers_ok lo prev l → p < lo * ONE →
  ∀ n t, l !! n = Some t → in_tier p t = Ok false.
Proof.
  revert lo prev. induction l as [|t l IH]; intros lo prev Hok Hp n t' Hn; [done|].
  destruct Hok as (Hlo & _ & Hu). pose proof (in_tier_spec p t lo Hlo) as Hin.
  assert ((lo * ONE <=? p) = false) as E by (apply Z.leb_gt; lia). rewrite E in Hin.
  destruct (lt_upperBound t) as [u|].
  - destruct Hu as (b & Hb & Hlt & Hok). destruct n as [|n]; [injection Hn as <-; exact (Hin b Hb)|].
    eapply IH; [exact Hok| |exact Hn]. pose proof ONE_pos. nia.
  - subst l. destruct n as [|n]; [by injection Hn as <-|done].
Qed.

Definition unlimited (l : list TradingLeverageTier) : Prop :=
  ∃ t, last l = Some t ∧ lt_upperBound t = None.

(** Exactly the returned tier holds the product; no tier does only above the
    last, limited, range. *)
Lemma findTier_spec lo prev l p i : tiers_ok lo prev l → lo * ONE <= p → 0 <= i →
  ∃ k, findTierIndex p i l = Ok k ∧ (k = -1 ∧ ¬ unlimited l ∨ i <= k < i + Z.of_nat (length l)) ∧
    ∀ n t, l !! n = Some t → in_tier p t = Ok (bool_decide (i + Z.of_nat n = k)).
Proof.
  revert lo prev i. induction l as [|t l IH]; intros lo prev i Hok Hp Hi.
  { exists (-1). split; [done|]. split; [left; split; [done|by intros (? & ? & _)]|done]. }
  destruct Hok as (Hlo & _ & Hu). pose proof (in_tier_spec p t lo Hlo) as Hin.
  rewrite (proj2 (Z.leb_le _ _) Hp) in Hin. cbn [findTierIndex length].
  destruct (lt_upperBound t) as [u|] eqn:Eu.
  - destruct Hu as (b & Hb & Hlt & Hok). rewrite (Hin b Hb). cbn [mbind result_bind andb]. destruct (Z.ltb_spec p (b * ONE)) as [Hpb|Hpb].
    + exists i. split; [done|]. split; [right; lia|]. intros [|n] t' Hn.
      * injection Hn as <-. rewrite (Hin b Hb), bool_decide_true by lia. cbn [andb]. by rewrite (proj2 (Z.ltb_lt _ _)).
      * rewrite bool_decide_false by lia. by eapply tiers_below.
    + destruct (IH b (lt_maxLeverage t) (i + 1) Hok Hpb ltac:(lia)) as (k & Hk & Hr & Hall). exists k. split; [done|]. split.
      * destruct Hr as [[-> Hnu]|Hr]; [left; split; [done|]|right; lia].
        intros (t' & Hl & Ht'). destruct l as [|t2 l]; [injection Hl as <-; congruence|]. apply Hnu. by exists t'.
      * intros [|n] t' Hn.
        -- injection Hn as <-. rewrite (Hin b Hb), (proj2 (Z.ltb_ge _ _)) by done. cbn [andb]. f_equal. symmetry.
           apply bool_decide_eq_false. lia.
        -- rewrite (Hall n t' Hn). do 2 f_equal. apply bool_decide_ext. lia.
  - subst l. rewrite Hin. cbn [mbind result_bind]. exists i. split; [done|]. split; [right; cbn; lia|].
    intros [|n] t' Hn; [|done]. injection Hn as <-. rewrite Hin, bool_decide_true by lia. done.
Qed.

Lemma findTierForQuantity_inv tiers q m k : tiers_ok 0 50 tiers → findTierForQuantity tiers q m = Ok k →
  ∃ a b, units (trim q) = Some a ∧ units (trim m) = Some b ∧ 0 < a ∧ 0 < b ∧
    (k = -1 ∧ ¬ unlimited tiers ∨ 0 <= k < Z.of_nat (length tiers)) ∧
    ∀ n t, tiers !! n = Some t → in_tier (a * b) t = Ok (bool_decide (Z.of_nat n = k)).
Proof.
  intros Hok H. unfold findTierForQuantity in H. apply bind_Ok in H as (q' & Hq & H). apply bind_Ok in H as (qq & Hqq & H).
  apply bind_Ok in H as (m' & Hm & H). apply bind_Ok in H as (mq & Hmq & H).
  apply decimal_inv in Hq as (a & Ha & -> & Hab & Hap & _). apply decimal_inv in Hm as (b & Hb & -> & Hbb & Hbp & _).
  specialize (Hap eq_refl). specialize (Hbp eq_refl).
  apply quantum_inv in Hqq. rewrite trim_dec, units_dec_lt in Hqq by lia. injection Hqq as <-.
  apply quantum_inv in Hmq. rewrite trim_dec, units_dec_lt in Hmq by lia. injection Hmq as <-.
  exists a, b. split_and!; try done; destruct (findTier_spec 0 50 tiers (a * b) 0 Hok ltac:(nia) ltac:(lia)) as (k' & Hk & Hr & Hall);
    rewrite Hk in H; injection H as <-; [done|exact Hall].
Qed.

Lemma findTierForQuantity_total tiers q m a b : tiers_ok 0 50 tiers → units (trim q) = Some a → units (trim m) = Some b →
  0 < a → 0 < b → ∃ k, findTierForQuantity tiers q m = Ok k.
Proof.
  intros Hok Ha Hb Hap Hbp. unfold findTierForQuantity. units_bound_hyps.
  rewrite (decimal_pos_spec _ _ Ha Hap), (decimal_pos_spec _ _ Hb Hbp). cbn [mbind result_bind].
  rewrite (quantum_spec (dec a) a), (quantum_spec (dec b) b) by (rewrite trim_dec by lia; by apply units_dec_lt).
  cbn [mbind result_bind]. destruct (findTier_spec 0 50 tiers (a * b) 0 Hok ltac:(nia) ltac:(lia)) as (k & Hk & _). by exists k.
Qed.

(** ** The solver *)
Lemma tiers_max lo prev l t : tiers_ok lo prev l → t ∈ l → 1 <= lt_maxLeverage t <= prev.
Proof.
  revert lo prev. induction l as [|t0 l IH]; intros lo prev Hok Ht; [by apply elem_of_nil in Ht|].
  destruct Hok as (_ & Hm & Hu). apply elem_of_cons in Ht as [->|Ht]; [done|].
  destruct (lt_upperBound t0); [|subst l; by apply elem_of_nil in Ht].
  destruct Hu as (b & _ & _ & Hok). specialize (IH _ _ Hok Ht). lia.
Qed.

(** The tiers that a leverage exceeds: the solver's measure. *)
Definition below (leverage : Z) (l : list TradingLeverageTier) : nat :=
  length (filter (λ t, lt_maxLeverage t < leverage) l).

Lemma below_lt leverage t l : t ∈ l → lt_maxLeverage t < leverage →
  (below (lt_maxLeverage t) l < below leverage l)%nat.
Proof.
  unfold below. induction l as [|x l IH]; intros Ht Hlt; [by apply elem_of_nil in Ht|].
  assert (length (filter (λ t0, lt_maxLeverage t0 < lt_maxLeverage t)%Z l) <=
          length (filter (λ t0, lt_maxLeverage t0 < leverage)%Z l))%nat as Hle.
  { clear -Hlt. induction l as [|y l IH]; [done|]. rewrite !filter_cons. repeat case_decide; cbn; lia. }
  rewrite !filter_cons. apply elem_of_cons in Ht as [<-|Ht].
  - rewrite decide_False, decide_True by lia. cbn. lia.
  - specialize (IH Ht Hlt). repeat case_decide; cbn; lia.
Qed.

Definition OUTSIDE : error := mkError TIERS_UNPROVEN "Quantized notional is outside the proven leverage tiers.".

Section SolverCorrect.
Context (tiers : list TradingLeverageTier) (markPrice : string) (quantityForLeverage : Z → result string).
Context (Hok : tiers_ok 0 50 tiers) (Hne : tiers ≠ []).

(** What an answer guarantees, for a request of at most [requested]. *)
Definition solution_ok (requested : Z) (s : TierSolution) : Prop :=
  1 <= so_leverage s <= requested ∧
  (∃ q a b t, quantityForLeverage (so_leverage s) = Ok q ∧ units (trim q) = Some a ∧ 0 < a ∧ so_quantity s = dec a ∧
    units (trim markPrice) = Some b ∧ 0 < b ∧ 0 <= so_tierIndex s ∧
    tiers !! Z.to_nat (so_tierIndex s) = Some t ∧ in_tier (a * b) t = Ok true ∧ so_leverage s <= lt_maxLeverage t).

Lemma tier_at k : (k = -1 ∨ 0 <= k < Z.of_nat (length tiers)) →
  ∃ t, (if k <? 0 then last tiers else tiers !! Z.to_nat k) = Some t ∧ t ∈ tiers.
Proof using Hok Hne.
  intros Hk. destruct (Z.ltb_spec k 0).
  - destruct (last tiers) as [t|] eqn:E; [|by apply last_None in E]. exists t. split; [done|].
    rewrite last_lookup in E. by eapply list_elem_of_lookup_2.
  - destruct (lookup_lt_is_Some_2 tiers (Z.to_nat k)) as [t Ht]; [lia|]. exists t. split; [done|]. by eapply list_elem_of_lookup_2.
Qed.

Lemma solveTier_loop_sound n leverage s : 1 <= leverage →
  solveTier_loop tiers markPrice quantityForLeverage n leverage = Ok s → solution_ok leverage s.
Proof using Hok Hne.
  revert leverage. induction n as [|n IH]; intros leverage Hlev H; [done|]. cbn [solveTier_loop] in H.
  apply bind_Ok in H as (q & Hq & H). apply bind_Ok in H as (qd & Hqd & H). apply bind_Ok in H as (k & Hk & H).
  destruct (findTierForQuantity_inv _ _ _ _ Hok Hk) as (a & b & Ha & Hb & Hap & Hbp & Hr & Hall).
  destruct (tier_at k ltac:(naive_solver)) as (t & Ht & Hin). rewrite Ht in H.
  apply bind_Ok in H as (u & Hu & H). rewrite requireTier_Ok, orb_true_iff, Z.geb_leb, Z.leb_le, Z.gtb_lt in Hu.
  destruct (tiers_max _ _ _ _ Hok Hin). destruct (Z.leb_spec leverage (lt_maxLeverage t)).
  - injection H as <-. split; cbn [so_leverage so_quantity so_tierIndex]; [lia|].
    apply decimal_inv in Hqd as (a' & Ha' & -> & Hab' & Hap' & _). rewrite trim_dec, units_dec_lt in Ha by lia. injection Ha as ->.
    assert (0 <= k) as Hk0 by lia. rewrite (proj2 (Z.ltb_ge _ _) Hk0) in Ht.
    exists q, a, b, t. split_and!; try done. rewrite (Hall _ _ Ht), bool_decide_true by lia. done.
  - apply IH in H; [|lia]. destruct H as (Hl & Hrest). split; [lia|done].
Qed.

(** Every leverage the loop visits has a usable quantity. *)
Context (Hmark : ∃ b, units (trim markPrice) = Some b ∧ 0 < b).
Context (Hquantity : ∀ leverage, 1 <= leverage <= 50 →
  ∃ q a, quantityForLeverage leverage = Ok q ∧ units (trim q) = Some a ∧ 0 < a).

Lemma solveTier_loop_total n leverage : 1 <= leverage <= 50 → (below leverage tiers < n)%nat →
  (∃ s, solveTier_loop tiers markPrice quantityForLeverage n leverage = Ok s) ∨
  (solveTier_loop tiers markPrice quantityForLeverage n leverage = Err OUTSIDE ∧ ¬ unlimited tiers).
Proof using Hok Hne Hmark Hquantity.
  revert leverage. induction n as [|n IH]; intros leverage Hlev Hb; [lia|]. cbn [solveTier_loop].
  destruct (Hquantity leverage Hlev) as (q & a & -> & Ha & Hap). destruct Hmark as (b & Hbm & Hbp).
  cbn [mbind result_bind]. rewrite (decimal_pos_spec _ _ Ha Hap). cbn [mbind result_bind]. units_bound_hyps.
  destruct (findTierForQuantity_total tiers (dec a) markPrice a b Hok) as [k Hk]; try done.
  { rewrite trim_dec by lia. by apply units_dec_lt. }
  destruct (findTierForQuantity_inv _ _ _ _ Hok Hk) as (_ & _ & _ & _ & _ & _ & Hr & _).
  rewrite Hk. cbn [mbind result_bind]. destruct (tier_at k ltac:(naive_solver)) as (t & -> & Hin).
  destruct (tiers_max _ _ _ _ Hok Hin). rewrite Z.geb_leb, Z.gtb_ltb.
  destruct (Z.leb_spec leverage (lt_maxLeverage t)) as [Hle|Hgt].
  - rewrite (proj2 (Z.ltb_ge _ _) Hle), orb_false_r.
    destruct (Z.leb_spec 0 k); cbn [requireTier require mbind result_bind]; [left; by eexists|right].
    split; [done|]. destruct Hr as [[_ ?]|]; [done|lia].
  - rewrite (proj2 (Z.ltb_lt _ _) Hgt), orb_true_r. cbn [requireTier require mbind result_bind].
    apply IH; [lia|]. pose proof (below_lt leverage t tiers Hin Hgt). lia.
Qed.
End SolverCorrect.

(** The initial leverage exceeds no more than the tiers after the first. *)
Lemma below_first leverage first rest : leverage <= lt_maxLeverage first →
  (below leverage (first :: rest) < S (length (first :: rest)))%nat.
Proof.
  intros H. unfold below. rewrite filter_cons, decide_False by lia.
  pose proof (length_filter (λ t, lt_maxLeverage t < leverage) rest). cbn. lia.
Qed.

(** ** Budgets *)
Lemma higherPrice_inv m e p : higherPrice m e = Ok p →
  ∃ a b, units m = Some a ∧ units e = Some b ∧ units p = Some (Z.max a b) ∧ (p = m ∨ p = e).
Proof.
  unfold higherPrice. intros H. apply bind_Ok in H as (c & Hc & H). injection H as <-.
  apply compareDecimal_inv in Hc as (a & b & Ha & Hb & ->). exists a, b. split; [done|]. split; [done|].
  destruct (cmpZ_spec a b) as (_ & -> & _). destruct (Z.ltb_spec b a).
  - rewrite Z.max_l by lia. auto.
  - rewrite Z.max_r by lia. auto.
Qed.

Lemma qdec_mul a b : (qdec a * qdec b == rat (a * b) (ONE * ONE))%Q.
Proof. unfold qdec. pose proof ONE_pos. by rewrite rat_mul by done. Qed.

Lemma assertTierNotionalBudget_inv q m e mx u : assertTierNotionalBudget q m e mx = Ok u →
  ∃ a p b price, units (trim q) = Some a ∧ higherPrice m e = Ok price ∧ units (trim price) = Some p ∧
    units (trim mx) = Some b ∧ (qdec a * qdec p <= qdec b)%Q.
Proof.
  unfold assertTierNotionalBudget. intros H. apply bind_Ok in H as (price & Hp & H). apply bind_Ok in H as (a & Ha & H).
  apply bind_Ok in H as (p & Hpr & H). apply bind_Ok in H as (b & Hb & H).
  rewrite requireTier_Ok, Z.leb_le, ONE_ten in H. exists a, p, b, price.
  split_and!; [by apply quantum_inv|done|by apply quantum_inv..|].
  rewrite qdec_mul. pose proof ONE_pos. unfold qdec. rewrite rat_le by nia. nia.
Qed.

(** The budget a decision carries, as an exact amount. *)
Definition decision_budget (d : TradingLeverageTierDecision) (x : Q) : Prop :=
  if td_version d =? 1 then ∃ s b, td_maximumNotional d = Some s ∧ units (trim s) = Some b ∧ (x == qdec b)%Q
  else ∃ m e, td_maximumNotionalValue d = Some m ∧ mv_exact m = Some e ∧ denotes e x.

Lemma positive_rational v q r : decimal v true None = Ok q → rationalFromDecimal q = Ok r →
  ∃ a, units (trim v) = Some a ∧ 0 < a ∧ denotes r (qdec a).
Proof.
  intros Hv Hr. apply decimal_inv in Hv as (a & Ha & -> & Hb & Hp & _). exists a. split_and!; [done|by apply Hp|].
  apply rationalFromDecimal_inv in Hr as (z & Hz & Hd). rewrite sunits_dec in Hz by done. by injection Hz as <-.
Qed.

Lemma assertTierDecisionBudget_inv d cur q m e u : assertTierDecisionBudget d cur q m e = Ok u →
  ∃ a p x price, units (trim q) = Some a ∧ higherPrice m e = Ok price ∧ units (trim price) = Some p ∧
    decision_budget d x ∧ (qdec a * qdec p <= x)%Q.
Proof.
  unfold assertTierDecisionBudget, decision_budget. destruct (td_version d =? 1).
  - intros H. destruct (td_maximumNotional d) as [s|]; [|done]. destruct (td_maximumNotionalValue d); [done|].
    destruct (td_maximumNotionalCurrency d); [done|].
    apply assertTierNotionalBudget_inv in H as (a & p & b & price & Ha & Hp & Hpp & Hb & Hle).
    exists a, p, (qdec b), price. split_and!; try done. by exists s, b.
  - intros H. apply bind_Ok in H as (u1 & _ & H). destruct (td_maximumNotionalValue d) as [v|]; [|done].
    apply bind_Ok in H as (am & Ham & H). apply validateMoneyValue_inv in Ham as (-> & _ & _ & [x Hx]).
    unfold contains in Hx. destruct (mv_exact v) as [ex|] eqn:Eex; [|done].
    apply bind_Ok in H as (u2 & _ & H). apply bind_Ok in H as (z & _ & H). apply bind_Ok in H as (c & _ & H).
    apply bind_Ok in H as (u3 & _ & H). apply bind_Ok in H as (price & Hp & H).
    apply bind_Ok in H as (qd & Hqd & H). apply bind_Ok in H as (qr & Hqr & H).
    apply bind_Ok in H as (pd & Hpd & H). apply bind_Ok in H as (pr & Hpr & H).
    apply bind_Ok in H as (act & Hact & H). apply bind_Ok in H as (c' & Hc' & H). rewrite requireTier_Ok, Z.leb_le in H.
    destruct (positive_rational _ _ _ Hqd Hqr) as (a & Ha & _ & Da). destruct (positive_rational _ _ _ Hpd Hpr) as (p & Hp' & _ & Dp).
    apply multiplyRational_inv in Hact as (x1 & y1 & Hx1 & Hy1 & Dact).
    rewrite (denotes_fun _ _ _ Hx1 Da), (denotes_fun _ _ _ Hy1 Dp) in Dact.
    destruct (compareRational_spec _ _ _ _ Dact Hx) as (c2 & Hc2 & (_ & S2 & _)). rewrite Hc' in Hc2. injection Hc2 as <-.
    exists a, p, x, price. split_and!; try done; [by exists v, ex|].
    apply Qnot_lt_le. intros Hlt. apply S2 in Hlt. lia.
Qed.

(** ** Properties *)

(** A validated tier table partitions notionals: for every nonnegative
    product the lookup returns an index, exactly the tier at that index holds
    the product, and no tier does only when the last range is limited. *)
Theorem tier_table_partitions tiers p : validateTierTable tiers = Ok tt → 0 <= p →
  ∃ k, findTierIndex p 0 tiers = Ok k ∧
    (k = -1 ∧ ¬ unlimited tiers ∨ 0 <= k < Z.of_nat (length tiers)) ∧
    ∀ n t, tiers !! n = Some t → in_tier p t = Ok (bool_decide (Z.of_nat n = k)).
Proof.
  intros [Hok _]%validateTierTable_inv Hp. exact (findTier_spec 0 50 tiers p 0 Hok ltac:(lia) ltac:(lia)).
Qed.

Definition tiers_example : list TradingLeverageTier :=
  [mkTier "0" (Some "1000") 20; mkTier "1000" (Some "50000") 10; mkTier "50000" None 3].

(** C28: the tier solver terminates within its iteration bound and its answer
    is admissible: leverage between 1 and the request, the tier table and 50; the quantity
    is the one that leverage allows, and its notional lies in the returned
    tier, whose maximum permits the leverage.  The only refusal is a notional
    beyond a limited last tier. *)
Theorem tier_solver_correct tiers markPrice quantityForLeverage contractSize requested size mark :
  validateTierTable tiers = Ok tt →
  units (trim contractSize) = Some size → 0 < size → units (trim markPrice) = Some mark → 0 < mark →
  0 < requested <= MAX_SAFE_INTEGER →
  (∀ leverage, 1 <= leverage <= 50 → ∃ q a, quantityForLeverage leverage = Ok q ∧ units (trim q) = Some a ∧ 0 < a) →
  (∃ s, solveTierQuantity tiers markPrice quantityForLeverage contractSize requested = Ok s ∧
        solution_ok tiers markPrice quantityForLeverage (Z.min requested 50) s) ∨
  (solveTierQuantity tiers markPrice quantityForLeverage contractSize requested = Err OUTSIDE ∧ ¬ unlimited tiers).
Proof.
  intros Hv Hsize Hsp Hmark Hmp Hreq Hq. destruct (validateTierTable_inv _ _ Hv) as [Hok Hne].
  unfold solveTierQuantity. rewrite Hv, (decimal_pos_spec _ _ Hsize Hsp). cbn [mbind result_bind].
  assert (isSafeInteger requested && (requested >? 0) = true) as ->.
  { rewrite andb_true_iff, isSafeInteger_true, Z.gtb_lt. unfold MAX_SAFE_INTEGER in *. lia. }
  cbn [requireTier require mbind result_bind]. destruct tiers as [|first rest]; [done|].
  destruct (tiers_max _ _ _ first Hok ltac:(left)). set (l0 := Z.min requested (Z.min 50 (lt_maxLeverage first))).
  destruct (solveTier_loop_total (first :: rest) markPrice quantityForLeverage Hok Hne
    (ex_intro _ mark (conj Hmark Hmp)) Hq (S (length (first :: rest))) l0) as [[s Hs]|He]; [lia|apply below_first; lia| |by right].
  left. exists s. split; [done|].
  assert (1 <= l0) as Hl1 by lia. pose proof (solveTier_loop_sound _ _ _ Hok Hne _ _ _ Hl1 Hs) as [Hl Hrest]. split; [lia|done].
Qed.

Lemma tier_solver_correct_witness :
  let quantity := λ leverage, Ok (dec (leverage * 100 * ONE)) in
  solveTierQuantity tiers_example "8" quantity "1" 30 = Ok (mkSolution 10 "1000" 1) ∧
  solution_ok tiers_example "8" quantity 30 (mkSolution 10 "1000" 1).
Proof.
  intros quantity. assert (solveTierQuantity tiers_example "8" quantity "1" 30 = Ok (mkSolution 10 "1000" 1)) as H
    by (vm_compute; reflexivity).
  split; [exact H|].
  destruct (tier_solver_correct tiers_example "8" quantity "1" 30 ONE (8 * ONE)) as [(s & Hs & Hok)|[He _]].
  - vm_compute; reflexivity.
  - vm_compute; reflexivity.
  - apply ONE_pos.
  - vm_compute; reflexivity.
  - pose proof ONE_pos. lia.
  - unfold MAX_SAFE_INTEGER. lia.
  - intros leverage Hl. pose proof ONE_pos. exists (dec (leverage * 100 * ONE)), (leverage * 100 * ONE). split; [reflexivity|].
    rewrite trim_dec by nia. split; [|nia]. apply units_dec_lt. rewrite LIMIT_ONE. nia.
  - rewrite H in Hs. injection Hs as <-. exact Hok.
  - rewrite H in He. discriminate He.
Defined.

(** An admitted order's full-precision notional, at the higher of mark and
    entry price, never exceeds the budget recorded with the tier decision; the
    comparison loses no digit, and a rational budget is in the evidence currency. *)
Theorem tier_budget_respected d currency q m e : assertTierDecisionBudget d currency q m e = Ok tt →
  ∃ a pm pe x, units (trim q) = Some a ∧ units m = Some pm ∧ units e = Some pe ∧
    decision_budget d x ∧ (qdec a * qdec (Z.max pm pe) <= x)%Q ∧
    (td_version d = 2 → td_maximumNotionalCurrency d = Some currency).
Proof.
  intros H. pose proof H as H'.
  apply assertTierDecisionBudget_inv in H as (a & p & x & price & Ha & Hp & Hpp & Hb & Hle).
  destruct (higherPrice_inv _ _ _ Hp) as (pm & pe & Hm & He & Hpr & Hor). exists a, pm, pe, x. split_and!; try done.
  - rewrite (units_trim _ _ Hpr), Hpr in Hpp. injection Hpp as ->. done.
  - intros Ev. unfold assertTierDecisionBudget in H'. rewrite Ev in H'. cbn [Z.eqb Pos.eqb] in H'.
    apply bind_Ok in H' as (u & Hu & _). rewrite requireTier_Ok in Hu. cbn [andb] in Hu. by apply bool_decide_eq_true in Hu.
Qed.
