(* ===== verification/Fx.v ===== *)
(** Fx: [src/trading_fx_contract.ts] (canonical evidence encoding, quote
    receipts) and [src/trading_fx_quotes.ts] (conversion evidence derived from
    receipts, and its freshness fence).

    [canonical] threads the node budget of the source explicitly; its fuel
    [levels] is the source's own depth bound, [13 - depth].  [sha256] stands
    for the hex digest of [node:crypto], [now] for [Date.now()].  Keys and
    hashes are ordered by code unit, which is the byte order the source uses
    for keys, and the order [localeCompare] gives lowercase hexadecimal. *)

From S2P Require Import Prelude Text Decimal Rational Money Types Json.
From Stdlib Require Ascii String.
From Stdlib Require Import QArith.
Local Open Scope Z_scope.

(** [throw new FxEvidenceError(reason)] *)
Definition invalidFx {A} (reason : string) : result A := throw_code ("FX_" +:+ reason) ("FX_" +:+ reason).
Definition INVALID : string := "EVIDENCE_INVALID".

(** ** Canonical JSON *)
(** [Buffer.byteLength]: a code unit from 128 on takes two bytes. *)
Definition byteLength (l : list Ascii.ascii) : Z :=
  sumZ (map (λ c, if (Ascii.nat_of_ascii c <? 128)%nat then 1 else 2) l).

Definition control_char (c : Ascii.ascii) : bool :=
  let n := Ascii.nat_of_ascii c in (n <=? 31)%nat || ((127 <=? n)%nat && (n <=? 159)%nat).

(** [map] with a threaded budget. *)
Fixpoint mapS {A B} (f : A → Z → result (B * Z)) (l : list A) (budget : Z) : result (list B * Z) :=
  match l with
  | [] => Ok ([], budget)
  | x :: l' =>
      '(y, budget) ← f x budget;
      '(ys, budget) ← mapS f l' budget;
      Ok (y :: ys, budget)
  end.

Definition key_le (a b : string * jsval) : Prop := String.le a.1 b.1.
#[export] Instance key_le_dec : RelDecision key_le.
Proof. intros a b. unfold key_le. apply _. Defined.
#[export] Instance key_le_total : Total key_le.
Proof. intros a b. unfold key_le. apply String.le_total. Qed.
#[export] Instance key_le_trans : Transitive key_le.
Proof. intros a b c. unfold key_le. apply transitivity. Qed.

(** [codeUnitOrder] sort of an object's entries. *)
Definition sort_keys (fields : list (string * jsval)) : list (string * jsval) := merge_sort key_le fields.

Fixpoint canonical (levels : nat) (value : jsval) (budget : Z) : result (list Ascii.ascii * Z) :=
  let budget := budget - 1 in
  match levels with
  | O => invalidFx INVALID
  | S deeper =>
      if budget <? 0 then invalidFx INVALID
      else match value with
      | JNull => Ok (chars "null", budget)
      | JBool b => Ok (stringify (JBool b), budget)
      | JInt z => if isSafeInteger z then Ok (show_chars z, budget) else invalidFx INVALID
      | JString s => if byteLength (chars s) <? 32768 then Ok (stringify_string s, budget) else invalidFx INVALID
      | JArray items =>
          if Z.of_nat (length items) >? budget then invalidFx INVALID
          else '(ws, budget) ← mapS (canonical deeper) items budget;
               Ok (Ascii.ascii_of_nat 91 :: commas ws ++ [Ascii.ascii_of_nat 93], budget)
      | JObject fields =>
          '(ws, budget) ← mapS (λ kv budget,
              if (256 <? length (chars kv.1))%nat || existsb control_char (chars kv.1) then invalidFx INVALID
              else '(k, budget) ← canonical deeper (JString kv.1) budget;
                   '(v, budget) ← canonical deeper kv.2 budget;
                   Ok (k ++ Ascii.ascii_of_nat 58 :: v, budget)) (sort_keys fields) budget;
          Ok (Ascii.ascii_of_nat 123 :: commas ws ++ [Ascii.ascii_of_nat 125], budget)
      | JUndefined | JFloat _ | JNaN => invalidFx INVALID
      end
  end.

Definition MAX_LEVELS : nat := 13.

Section Digest.
Context (sha256 : string → string).

Definition fxEvidenceDigest (domain : string) (value : jsval) : result string :=
  let envelope := bool_decide (domain = "bybit-fx-envelope-v1") in
  '(encoded, _) ← canonical MAX_LEVELS value (if envelope then 256 else 512);
  if byteLength encoded >=? (if envelope then 65536 else 131072) then invalidFx INVALID
  else Ok (sha256 (domain +:+ of_chars (Ascii.ascii_of_nat 10 :: encoded))).

(** ** Receipts *)
Record FxContext := mkFxContext { fx_mode : string; fx_profileHash : string }.

Definition is_string (v : jsval) (s : string) : bool :=
  match v with JString t => bool_decide (t = s) | _ => false end.
Definition is_int (v : jsval) (n : Z) : bool :=
  match v with JInt m => m =? n | _ => false end.

(** [routeId], [category], [symbol] and [field] of a leg. *)
Definition DEFINITIONS : list (string * list string) :=
  [("bybit:btc-usd-index:v1", ["bybit:usdt-usd-index-ratio:v1"; "inverse"; "BTCUSD"; "indexPrice"]);
   ("bybit:btc-usdt-index:v1", ["bybit:usdt-usd-index-ratio:v1"; "linear"; "BTCUSDT"; "indexPrice"]);
   ("bybit:usdc-usd-index:v1", ["bybit:usdc-usd-index:v1"; "spot"; "USDCUSDT"; "usdIndexPrice"])].

Definition definition_of (leg : string) : option (list string) :=
  snd ∘ snd <$> list_find (λ d : string * list string, d.1 = leg) DEFINITIONS.

(** [SHAPE]: the sorted property names of a receipt. *)
Definition SHAPE : list string :=
  merge_sort String.le
    ["version"; "provider"; "mode"; "origin"; "endpoint"; "source"; "legId"; "routeId"; "ccxtVersion"; "profileVersion";
     "profileHash"; "category"; "symbol"; "field"; "value"; "providerQuoteAt"; "providerResponseAt"; "timeBasis";
     "startedAt"; "completedAt"; "envelope"; "envelopeHash"; "receiptHash"].

Definition object (v : jsval) : result (list (string * jsval)) :=
  match v with JObject fields => Ok fields | _ => invalidFx INVALID end.

Definition hex64 (s : string) : bool :=
  (length (chars s) =? 64)%nat &&
  forallb (λ c, is_digit c || let n := Ascii.nat_of_ascii c in (97 <=? n)%nat && (n <=? 102)%nat) (chars s).

Definition valid (b : bool) : result unit := if b then Ok tt else invalidFx INVALID.

Definition timestamp (v : jsval) : result Z :=
  match v with
  | JInt z => if isSafeInteger z && (0 <=? z) then Ok z else invalidFx INVALID
  | _ => invalidFx INVALID
  end.

Definition validateTimes (now : Z) (row : list (string * jsval)) : result Z :=
  _ ← valid (match assoc "providerQuoteAt" row with JNull => true | _ => false end
             && is_string (assoc "timeBasis" row) "provider_snapshot_observation");
  startedAt ← timestamp (assoc "startedAt" row);
  completedAt ← timestamp (assoc "completedAt" row);
  responseAt ← timestamp (assoc "providerResponseAt" row);
  _ ← valid (negb ((startedAt >? completedAt) || (completedAt - startedAt >? 10000) || (completedAt >? now + 1000)
                   || (responseAt <? startedAt - 1000) || (responseAt >? completedAt + 1000)));
  Ok responseAt.

Definition validateProfile (row : list (string * jsval)) (context : FxContext) : result unit :=
  _ ← valid (is_int (assoc "version" row) 1 && is_string (assoc "provider" row) "bybit"
             && is_string (assoc "source" row) "bybit-v5-rest-index-snapshot-v1"
             && is_string (assoc "endpoint" row) "/v5/market/tickers"
             && is_string (assoc "ccxtVersion" row) "4.5.75" && is_int (assoc "profileVersion" row) 1);
  let live := is_string (assoc "mode" row) "live" in
  valid ((live || is_string (assoc "mode" row) "testnet")
         && is_string (assoc "mode" row) (fx_mode context)
         && is_string (assoc "profileHash" row) (fx_profileHash context)
         && hex64 (fx_profileHash context)
         && is_string (assoc "origin" row)
              (if live then "https://api.bybit.com" else "https://api-testnet.bybit.com")).

(** The leg identifier and the quoted value. *)
Definition validateLeg (row : list (string * jsval)) : result (string * string) :=
  match assoc "legId" row with
  | JString leg =>
      match definition_of leg with
      | Some definition =>
          _ ← valid (forallb id (zip_with (λ key d, is_string (assoc key row) d)
                                          ["routeId"; "category"; "symbol"; "field"] definition));
          match assoc "value" row with
          | JString v =>
              if has_space v then invalidFx INVALID
              else match decimal v true None with Ok _ => Ok (leg, v) | Err _ => invalidFx INVALID end
          | _ => invalidFx INVALID
          end
      | None => invalidFx INVALID
      end
  | _ => invalidFx INVALID
  end.

(** [a === b] on two values of which one is known to be a string or number. *)
Definition strict_equal (a b : jsval) : bool :=
  match a, b with
  | JString s, JString t => bool_decide (s = t)
  | JInt m, JInt n => m =? n
  | _, _ => false
  end.

Definition validateEnvelope (row : list (string * jsval)) : result unit :=
  envelope ← object (assoc "envelope" row);
  res ← object (assoc "result" envelope);
  match assoc "list" res with
  | JArray [item] =>
      _ ← valid (is_int (assoc "retCode" envelope) 0
                 && strict_equal (assoc "time" envelope) (assoc "providerResponseAt" row)
                 && strict_equal (assoc "category" res) (assoc "category" row));
      ticker ← object item;
      _ ← valid (strict_equal (assoc "symbol" ticker) (assoc "symbol" row)
                 && match assoc "field" row with
                    | JString field => strict_equal (assoc field ticker) (assoc "value" row)
                    | _ => false
                    end);
      digest ← fxEvidenceDigest "bybit-fx-envelope-v1" (JObject envelope);
      valid (is_string (assoc "envelopeHash" row) digest)
  | _ => invalidFx INVALID
  end.

(** A validated receipt: its row, and the properties the quote derivation reads. *)
Record FxLegReceipt := mkReceipt {
  rc_legId : string;
  rc_value : string;
  rc_providerResponseAt : Z;
  rc_receiptHash : string;
  rc_row : list (string * jsval) }.

Definition validateFxLegReceipt (now : Z) (value : jsval) (context : FxContext) : result FxLegReceipt :=
  row ← object value;
  _ ← valid (bool_decide (merge_sort String.le (map fst row) = SHAPE));
  _ ← validateProfile row context;
  '(leg, v) ← validateLeg row;
  responseAt ← validateTimes now row;
  _ ← validateEnvelope row;
  digest ← fxEvidenceDigest "bybit-fx-receipt-v1" (JObject (filter (λ kv, kv.1 ≠ "receiptHash") row));
  _ ← valid (is_string (assoc "receiptHash" row) digest);
  Ok (mkReceipt leg v responseAt digest row).

(** ** Conversion evidence *)
Record FxConversionEvidence := mkConversion {
  cv_mode : string;
  cv_profileHash : string;
  cv_version : Z;
  cv_valuationBasis : string;
  cv_policy : string;
  cv_baseAsset : string;
  cv_quoteAsset : string;
  cv_at : Z;
  cv_earliestAt : Z;
  cv_latestAt : Z;
  cv_expiresAt : Z;
  cv_rate : ExactRational;
  cv_receiptHashes : list string;
  cv_evidenceHash : string }.

(** [const { evidenceHash, ...original } = value] *)
Definition original_of (c : FxConversionEvidence) : jsval :=
  JObject [("version", JInt (cv_version c)); ("valuationBasis", JString (cv_valuationBasis c));
           ("policy", JString (cv_policy c)); ("mode", JString (cv_mode c)); ("profileHash", JString (cv_profileHash c));
           ("baseAsset", JString (cv_baseAsset c)); ("quoteAsset", JString (cv_quoteAsset c)); ("at", JInt (cv_at c));
           ("earliestAt", JInt (cv_earliestAt c)); ("latestAt", JInt (cv_latestAt c)); ("expiresAt", JInt (cv_expiresAt c));
           ("rate", JObject [("numerator", JString (numerator (cv_rate c))); ("denominator", JString (denominator (cv_rate c)))]);
           ("receiptHashes", JArray (map JString (cv_receiptHashes c)))].

Definition LEG_ORDER : list string := ["bybit:btc-usd-index:v1"; "bybit:btc-usdt-index:v1"; "bybit:usdc-usd-index:v1"].

Definition assetLegs (asset : string) : result (list string) :=
  if bool_decide (asset = "USD") then Ok []
  else if bool_decide (asset = "USDT") then Ok (take 2 LEG_ORDER)
  else if bool_decide (asset = "USDC") then
    match LEG_ORDER !! 2%nat with None => invalidFx "ASSET_UNSUPPORTED" | Some thirdLeg => Ok [thirdLeg] end
  else invalidFx "ASSET_UNSUPPORTED".

(** The insertion-ordered [Map] of observations, keyed by leg and time. *)
Definition same_observation (a b : FxLegReceipt) : bool :=
  bool_decide (rc_legId a = rc_legId b) && (rc_providerResponseAt a =? rc_providerResponseAt b).

Fixpoint observe (row : FxLegReceipt) (observations : list FxLegReceipt) : result (list FxLegReceipt) :=
  match observations with
  | [] => Ok [row]
  | prior :: rest =>
      if same_observation row prior then
        c ← compareDecimal (rc_value prior) (rc_value row);
        if negb (c =? 0) then invalidFx "QUOTE_CONFLICT"
        else Ok ((if String.ltb (rc_receiptHash row) (rc_receiptHash prior) then row else prior) :: rest)
      else rest' ← observe row rest; Ok (prior :: rest')
  end.

Fixpoint observe_all (rows observations : list FxLegReceipt) : result (list FxLegReceipt) :=
  match rows with
  | [] => Ok observations
  | row :: rest => observations' ← observe row observations; observe_all rest observations'
  end.

(** Latest response first, then by receipt hash. *)
Definition receipt_le (a b : FxLegReceipt) : Prop :=
  rc_providerResponseAt b < rc_providerResponseAt a ∨
  (rc_providerResponseAt b = rc_providerResponseAt a ∧ String.le (rc_receiptHash a) (rc_receiptHash b)).
#[export] Instance receipt_le_dec : RelDecision receipt_le.
Proof. intros a b. unfold receipt_le. apply _. Defined.

Definition eligibleReceipts (now : Z) (values : list jsval) (required : list string) (at_ : Z) (context : FxContext)
    : result (list FxLegReceipt) :=
  rows ← mapM (λ row, validateFxLegReceipt now row context) values;
  observations ← observe_all
    (filter (λ row, rc_legId row ∈ required ∧ rc_providerResponseAt row <= at_ ∧ at_ - 10000 <= rc_providerResponseAt row) rows) [];
  Ok (merge_sort receipt_le observations).

Definition in_window (anchor : Z) (leg : string) (row : FxLegReceipt) : bool :=
  bool_decide (rc_legId row = leg) && (rc_providerResponseAt row <=? anchor) && (anchor - 1000 <=? rc_providerResponseAt row).

(** [required.map(id => rows.find(...))], when every leg is found. *)
Definition select_window (rows : list FxLegReceipt) (required : list string) (anchor : Z) : option (list FxLegReceipt) :=
  mapM (λ leg, snd <$> list_find (λ row, in_window anchor leg row = true) rows) required.

Fixpoint coherent_from (anchors rows : list FxLegReceipt) (required : list string) : result (list FxLegReceipt) :=
  match anchors with
  | [] => invalidFx "QUOTE_UNAVAILABLE"
  | anchor :: rest =>
      match select_window rows required (rc_providerResponseAt anchor) with
      | Some selected => Ok selected
      | None => coherent_from rest rows required
      end
  end.

Definition coherentLegs (rows : list FxLegReceipt) (required : list string) : result (list FxLegReceipt) :=
  coherent_from rows rows required.

Definition leg_rate (receipts : list FxLegReceipt) (leg : string) : result ExactRational :=
  match list_find (λ r, rc_legId r = leg) receipts with
  | Some (_, row) => rationalFromDecimal (rc_value row)
  | None => invalidFx "QUOTE_UNAVAILABLE"
  end.

Definition usdRate (asset : string) (receipts : list FxLegReceipt) : result ExactRational :=
  if bool_decide (asset = "USD") then rationalFromDecimal "1"
  else
    ids ← assetLegs asset;
    legs ← mapM (leg_rate receipts) ids;
    match legs !! 0%nat, legs !! 1%nat with
    | Some first, second =>
        if bool_decide (asset = "USDC") then Ok first
        else match second with
             | Some s => divideRational first s
             | None => invalidFx "QUOTE_UNAVAILABLE"
             end
    | None, _ => invalidFx "QUOTE_UNAVAILABLE"
    end.

Definition deriveFxConversion (now : Z) (values : list jsval) (baseAsset quoteAsset : string) (at_ : Z) (context : FxContext)
    : result FxConversionEvidence :=
  if (256 <? length values)%nat || negb (isSafeInteger at_) || (at_ <? 0) || bool_decide (baseAsset = quoteAsset)
  then invalidFx INVALID
  else
    baseLegs ← assetLegs baseAsset; quoteLegs ← assetLegs quoteAsset;
    let required := filter (λ id, id ∈ baseLegs ++ quoteLegs) LEG_ORDER in
    rows ← eligibleReceipts now values required at_ context;
    selected ← coherentLegs rows required;
    match map rc_providerResponseAt selected with
    | [] => invalidFx "QUOTE_UNAVAILABLE"
    | time :: times =>
        let earliest := foldr Z.min time times in
        let latest := foldr Z.max time times in
        baseRate ← usdRate baseAsset selected; quoteRate ← usdRate quoteAsset selected;
        rate ← divideRational baseRate quoteRate;
        let evidence := mkConversion (fx_mode context) (fx_profileHash context) 1 "provider_snapshot_index_asof"
          "stable-index-asof-10s-v1" baseAsset quoteAsset at_ earliest latest (earliest + 10000) rate
          (map rc_receiptHash selected) "" in
        digest ← fxEvidenceDigest "tsx-fx-conversion-v1" (original_of evidence);
        Ok (mkConversion (fx_mode context) (fx_profileHash context) 1 "provider_snapshot_index_asof"
          "stable-index-asof-10s-v1" baseAsset quoteAsset at_ earliest latest (earliest + 10000) rate
          (map rc_receiptHash selected) digest)
    end.

Definition assertFxConversionFresh (value : FxConversionEvidence) (now : Z) : result unit :=
  digest ← fxEvidenceDigest "tsx-fx-conversion-v1" (original_of value);
  if negb (bool_decide (cv_evidenceHash value = digest)) || negb (cv_version value =? 1)
     || negb (bool_decide (cv_policy value = "stable-index-asof-10s-v1"))
     || negb (bool_decide (cv_valuationBasis value = "provider_snapshot_index_asof"))
     || negb (forallb isSafeInteger [cv_at value; cv_earliestAt value; cv_latestAt value; cv_expiresAt value; now])
     || (cv_earliestAt value <? 0) || (cv_latestAt value <? cv_earliestAt value)
     || (cv_latestAt value - cv_earliestAt value >? 1000)
     || (cv_at value <? cv_latestAt value) || (cv_at value >? cv_expiresAt value)
     || negb (cv_expiresAt value =? cv_earliestAt value + 10000)
     || (now <? cv_latestAt value) || (now >? cv_expiresAt value)
  then invalidFx "QUOTE_EXPIRED_OR_CHANGED"
  else Ok tt.
End Digest.

(** ** The canonical encoding does not depend on property order *)
Lemma sort_keys_permutation f g : NoDup (map fst f) → f ≡ₚ g → sort_keys f = sort_keys g.
Proof.
  intros Hnd Hp. unfold sort_keys.
  apply (StronglySorted_unique_strong key_le).
  - intros a b Ha Hb Hab Hba. rewrite merge_sort_Permutation in Ha. rewrite merge_sort_Permutation, <-Hp in Hb.
    unfold key_le in *. assert (a.1 = b.1) as E by (by apply (anti_symm String.le)).
    apply list_elem_of_lookup in Ha as [i Hi]. apply list_elem_of_lookup in Hb as [j Hj].
    assert (i = j) as ->; [|congruence].
    eapply (NoDup_lookup (map fst f)); [done|..]; rewrite list_lookup_fmap; [by rewrite Hi|rewrite Hj; cbn; by rewrite E].
  - apply StronglySorted_merge_sort; apply _.
  - apply StronglySorted_merge_sort; apply _.
  - by rewrite !merge_sort_Permutation.
Qed.

Lemma canonical_permutation levels f g budget : NoDup (map fst f) → f ≡ₚ g →
  canonical levels (JObject f) budget = canonical levels (JObject g) budget.
Proof. intros Hnd Hp. destruct levels; cbn [canonical]; [done|]. by rewrite (sort_keys_permutation f g). Qed.

(** The budget only shrinks: encoding visits at most [budget] values. *)
Lemma mapS_budget {A B} (f : A → Z → result (B * Z)) l b ys b' :
  (∀ x b y b', f x b = Ok (y, b') → b' <= b) → mapS f l b = Ok (ys, b') → b' <= b ∧ length ys = length l.
Proof.
  intros Hf. revert b ys b'. induction l as [|x l IH]; intros b ys b' H; cbn [mapS] in H.
  - injection H as <- <-. split; [lia|done].
  - apply bind_Ok in H as ([y b1] & Hx & H). apply bind_Ok in H as ([zs b2] & Hl & H). injection H as <- <-.
    apply Hf in Hx. apply IH in Hl as [? E]. split; [lia|]. cbn. by rewrite E.
Qed.

Lemma canonical_budget levels v b w b' : canonical levels v b = Ok (w, b') → b' < b.
Proof.
  revert v b w b'. induction levels as [|levels IH]; intros v b w b' H; cbn [canonical] in H; [done|].
  destruct (Z.ltb_spec (b - 1) 0); [done|]. destruct v; try done.
  - injection H as <- <-. lia.
  - injection H as <- <-. lia.
  - destruct (isSafeInteger z); [injection H as <- <-; lia|done].
  - destruct (byteLength (chars s) <? 32768); [injection H as <- <-; lia|done].
  - destruct (_ >? _); [done|]. apply bind_Ok in H as ([ws b1] & Hm & H). injection H as <- <-.
    apply mapS_budget in Hm as [? _]; [lia|]. intros x c y c' Hc. apply IH in Hc. lia.
  - apply bind_Ok in H as ([ws b1] & Hm & H). injection H as <- <-. apply mapS_budget in Hm as [? _]; [lia|].
    intros x c y c' Hc. destruct (_ || _); [done|]. apply bind_Ok in Hc as ([k c1] & Hk & Hc).
    apply bind_Ok in Hc as ([v c2] & Hv & Hc). injection Hc as <- <-. apply IH in Hk. apply IH in Hv. lia.
Qed.

(** ** Receipts and windows *)
Lemma valid_Ok b u : valid b = Ok u ↔ b = true.
Proof. destruct b, u; cbn; split; done. Qed.

(** What the derivation relies on in a receipt. *)
Definition receipt_ok (r : FxLegReceipt) : Prop :=
  0 <= rc_providerResponseAt r ∧ ∃ a, sunits (rc_value r) = Some a ∧ 0 < a.

Lemma has_space_trim v : has_space v = false → trim v = v.
Proof.
  intros H. apply trim_id. unfold has_space in H. apply Forall_forall. intros c Hc. apply not_true_is_false. intros E.
  enough (existsb is_space (chars v) = true) by congruence. apply existsb_exists. exists c. split; [by apply list_elem_of_In|done].
Qed.

Section Receipts.
Context (sha256 : string → string).

Lemma validateFxLegReceipt_ok now v ctx r : validateFxLegReceipt sha256 now v ctx = Ok r → receipt_ok r.
Proof.
  unfold validateFxLegReceipt. intros H. apply bind_Ok in H as (row & _ & H). apply bind_Ok in H as (u1 & _ & H).
  apply bind_Ok in H as (u2 & _ & H). apply bind_Ok in H as ([leg v'] & Hleg & H). apply bind_Ok in H as (t & Ht & H).
  apply bind_Ok in H as (u3 & _ & H). apply bind_Ok in H as (d & _ & H). apply bind_Ok in H as (u4 & _ & H). injection H as <-.
  unfold receipt_ok. cbn. split.
  - unfold validateTimes in Ht. apply bind_Ok in Ht as (? & _ & Ht). apply bind_Ok in Ht as (? & _ & Ht).
    apply bind_Ok in Ht as (? & _ & Ht). apply bind_Ok in Ht as (resp & Hx & Ht). apply bind_Ok in Ht as (? & _ & Ht).
    injection Ht as <-. unfold timestamp in Hx. destruct (assoc "providerResponseAt" row); try done.
    destruct (isSafeInteger z && (0 <=? z)) eqn:E; [|done]. injection Hx as <-. apply andb_true_iff in E as [_ E]. lia.
  - unfold validateLeg in Hleg. destruct (assoc "legId" row); try done. destruct (definition_of s); [|done].
    apply bind_Ok in Hleg as (? & _ & Hleg). destruct (assoc "value" row); try done.
    destruct (has_space s0) eqn:Hs; [done|]. destruct (decimal s0 true None) as [xd|] eqn:Hd; [|done]. injection Hleg as <- <-.
    apply decimal_inv in Hd as (a & Ha & _ & _ & Hp & _). rewrite has_space_trim in Ha by done. exists a.
    split; [|by apply Hp]. apply sunits_units; [done|by apply has_space_trim|by eapply units_no_minus].
Qed.

Lemma observe_Forall (P : FxLegReceipt → Prop) row obs out : P row → Forall P obs → observe row obs = Ok out → Forall P out.
Proof using Type.
  intros Hr. revert out. induction obs as [|o obs IH]; intros out Ho H; cbn [observe] in H.
  - injection H as <-. by constructor.
  - apply Forall_cons in Ho as [Ho Hobs]. destruct (same_observation row o).
    + apply bind_Ok in H as (c & _ & H). destruct (negb (c =? 0)); [done|]. injection H as <-.
      constructor; [by destruct (String.ltb _ _)|done].
    + apply bind_Ok in H as (rest & Hrest & H). injection H as <-. constructor; [done|]. by eapply IH.
Qed.

Lemma observe_all_Forall (P : FxLegReceipt → Prop) rows obs out : Forall P rows → Forall P obs →
  observe_all rows obs = Ok out → Forall P out.
Proof using Type.
  revert obs. induction rows as [|r rows IH]; intros obs Hr Ho H; cbn [observe_all] in H; [by injection H as <-|].
  apply Forall_cons in Hr as [Hr Hrows]. apply bind_Ok in H as (o & Hobs & H). eapply IH; [done| |exact H].
  by eapply observe_Forall.
Qed.

Definition recent (at_ : Z) (r : FxLegReceipt) : Prop :=
  receipt_ok r ∧ rc_providerResponseAt r <= at_ ∧ at_ - 10000 <= rc_providerResponseAt r.

Lemma eligible_recent now values required at_ ctx rows :
  eligibleReceipts sha256 now values required at_ ctx = Ok rows → Forall (recent at_) rows.
Proof.
  unfold eligibleReceipts. intros H. apply bind_Ok in H as (rs & Hrs & H). apply bind_Ok in H as (obs & Hobs & H).
  injection H as <-. rewrite merge_sort_Permutation.
  eapply observe_all_Forall; [|constructor|exact Hobs]. apply mapM_Ok in Hrs.
  apply Forall_forall. intros r [(_ & Ht) Hin]%list_elem_of_filter. unfold recent. split; [|lia].
  apply list_elem_of_lookup in Hin as [i Hi]. destruct (Forall2_lookup_r _ _ _ _ _ Hrs Hi) as (v & _ & Hv).
  by eapply validateFxLegReceipt_ok.
Qed.

Lemma coherent_window at_ anchors rows required sel : Forall (recent at_) rows →
  coherent_from anchors rows required = Ok sel →
  ∃ t, Forall (λ r, recent at_ r ∧ t - 1000 <= rc_providerResponseAt r <= t) sel.
Proof using Type.
  intros Hrows. induction anchors as [|a anchors IH]; cbn [coherent_from]; [done|].
  destruct (select_window rows required (rc_providerResponseAt a)) as [s|] eqn:E; [|done]. intros [= <-].
  exists (rc_providerResponseAt a). unfold select_window in E. apply mapM_Some in E.
  apply Forall_forall. intros r Hr. apply list_elem_of_lookup in Hr as [i Hi].
  destruct (Forall2_lookup_r _ _ _ _ _ E Hi) as (leg & _ & Hf).
  destruct (list_find _ rows) as [[j r']|] eqn:Ef; [|done]. cbn in Hf. injection Hf as ->.
  apply list_find_Some in Ef as (Hj & Hw & _). rewrite Forall_lookup in Hrows. specialize (Hrows _ _ Hj).
  unfold in_window in Hw. rewrite !andb_true_iff, !Z.leb_le in Hw. split; [done|]. lia.
Qed.
End Receipts.

(** Bounds of a folded minimum and maximum. *)
Lemma fold_min_max lo hi t ts : lo <= t <= hi → Forall (λ x, lo <= x <= hi) ts →
  lo <= foldr Z.min t ts ∧ foldr Z.min t ts <= foldr Z.max t ts ∧ foldr Z.max t ts <= hi.
Proof. intros Ht. induction 1 as [|x ts Hx _ IH]; cbn [foldr]; lia. Qed.

(** ** Rates are positive *)
Definition positive_rate (r : ExactRational) : Prop := ∃ x, denotes r x ∧ (0 < x)%Q.

Lemma qdec_pos a : 0 < a → (0 < qdec a)%Q.
Proof. intros Ha. rewrite <-qdec_0. by apply qdec_lt. Qed.

Lemma positive_rate_div a b r : positive_rate a → positive_rate b → divideRational a b = Ok r → positive_rate r.
Proof.
  intros (x & Hx & Px) (y & Hy & Py) H. apply divideRational_inv in H as (x' & y' & Hx' & Hy' & _ & Hr).
  exists (x' / y')%Q. split; [done|]. rewrite <-(denotes_fun _ _ _ Hx Hx'), <-(denotes_fun _ _ _ Hy Hy').
  unfold Qdiv. apply Qmult_lt_0_compat; [done|]. by apply Qinv_lt_0_compat.
Qed.

Lemma leg_rate_positive receipts leg r : Forall receipt_ok receipts → leg_rate receipts leg = Ok r → positive_rate r.
Proof.
  intros Hok H. unfold leg_rate in H. destruct (list_find _ receipts) as [[i row]|] eqn:E; [|done].
  apply list_find_Some in E as (Hi & _ & _). rewrite Forall_lookup in Hok. destruct (Hok _ _ Hi) as (_ & a & Ha & Hp).
  apply rationalFromDecimal_inv in H as (z & Hz & Hd). rewrite Ha in Hz. injection Hz as <-.
  exists (qdec a). split; [done|]. by apply qdec_pos.
Qed.

Lemma sunits_one : sunits "1" = Some ONE.
Proof. vm_compute. reflexivity. Qed.

Lemma usdRate_positive asset receipts r : Forall receipt_ok receipts → usdRate asset receipts = Ok r → positive_rate r.
Proof.
  intros Hok H. unfold usdRate in H. destruct (bool_decide (asset = "USD")).
  { apply rationalFromDecimal_inv in H as (z & Hz & Hd). rewrite sunits_one in Hz. assert (z = ONE) as -> by congruence.
    exists (qdec ONE). split; [done|]. apply qdec_pos, ONE_pos. }
  apply bind_Ok in H as (ids & _ & H). apply bind_Ok in H as (legs & Hl & H). apply mapM_Ok in Hl.
  assert (∀ i x, legs !! i = Some x → positive_rate x) as Hpos.
  { intros i x Hi. destruct (Forall2_lookup_r _ _ _ _ _ Hl Hi) as (leg & _ & Hr). by eapply leg_rate_positive. }
  destruct (legs !! 0%nat) as [f|] eqn:E0; [|done]. destruct (bool_decide (asset = "USDC")).
  - injection H as <-. by eapply Hpos.
  - destruct (legs !! 1%nat) as [s|] eqn:E1; [|done]. exact (positive_rate_div f s r (Hpos _ _ E0) (Hpos _ _ E1) H).
Qed.

(** ** Properties *)

(** Evidence encoding is canonical: reordering the properties of an object
    changes neither the encoding nor the digest, whatever the hash. *)
Theorem canonical_order_independent sha256 domain f g : NoDup (map fst f) → f ≡ₚ g →
  fxEvidenceDigest sha256 domain (JObject f) = fxEvidenceDigest sha256 domain (JObject g) ∧
  ∀ levels budget w left, canonical levels (JObject f) budget = Ok (w, left) →
    canonical levels (JObject g) budget = Ok (w, left) ∧ left < budget.
Proof.
  intros Hnd Hp. split.
  - unfold fxEvidenceDigest. by rewrite (canonical_permutation _ f g).
  - intros levels budget w left H. split; [|by eapply canonical_budget]. by rewrite <-(canonical_permutation _ f g).
Qed.

(** A derived conversion is usable: its rate is positive and exact, its
    legs lie in one second and at most ten seconds before the valuation, and the
    freshness fence accepts it at every time from its last quote to its expiry
    and rejects it afterwards. *)
Theorem derived_conversion_fresh sha256 now values base quote at_ ctx ev :
  deriveFxConversion sha256 now values base quote at_ ctx = Ok ev → at_ + 10000 <= MAX_SAFE_INTEGER →
  positive_rate (cv_rate ev) ∧
  cv_latestAt ev - cv_earliestAt ev <= 1000 ∧ at_ - 10000 <= cv_earliestAt ev ∧ cv_latestAt ev <= at_ ∧
  (∀ t, cv_latestAt ev <= t <= cv_expiresAt ev → assertFxConversionFresh sha256 ev t = Ok tt) ∧
  (∀ t, cv_expiresAt ev < t → is_ok (assertFxConversionFresh sha256 ev t) = false).
Proof.
  unfold deriveFxConversion. intros H Hat. destruct (_ || _) eqn:Eg; [done|].
  rewrite !orb_false_iff, negb_false_iff, Z.ltb_ge, isSafeInteger_true in Eg. destruct Eg as [[[_ Hs] Hpos] _].
  apply bind_Ok in H as (bl & _ & H). apply bind_Ok in H as (ql & _ & H). apply bind_Ok in H as (rows & Hrows & H).
  apply bind_Ok in H as (sel & Hsel & H). apply eligible_recent in Hrows.
  destruct (coherent_window at_ _ _ _ _ Hrows Hsel) as [t Hw].
  assert (Forall receipt_ok sel) as Hok by (eapply Forall_impl; [exact Hw|]; intros r Hr; apply Hr).
  destruct (map rc_providerResponseAt sel) as [|time times] eqn:Em; [done|].
  apply bind_Ok in H as (br & Hbr & H). apply bind_Ok in H as (qr & Hqr & H). apply bind_Ok in H as (rate & Hrate & H).
  apply bind_Ok in H as (d & Hd & H). injection H as <-.
  cbn [cv_rate cv_latestAt cv_earliestAt cv_expiresAt].
  assert (Forall (λ x, Z.max (Z.max 0 (at_ - 10000)) (t - 1000) <= x <= Z.min at_ t) (time :: times)) as Hb.
  { rewrite <-Em, Forall_map. eapply Forall_impl; [exact Hw|]. intros r (((?&_)&?&?)&?). lia. }
  apply Forall_cons in Hb as [Hb1 Hb2]. destruct (fold_min_max _ _ _ _ Hb1 Hb2) as (M1 & M2 & M3).
  set (mn := foldr Z.min time times) in *. set (mx := foldr Z.max time times) in *. clearbody mn mx.
  split_and!; try lia.
  - eapply positive_rate_div; [exact (usdRate_positive _ _ _ Hok Hbr)|exact (usdRate_positive _ _ _ Hok Hqr)|done].
  - intros t' Ht'. unfold assertFxConversionFresh. unfold original_of in *. cbn -[fxEvidenceDigest forallb] in Hd |- *.
    rewrite Hd. cbn [mbind result_bind]. rewrite bool_decide_true by done. unfold MAX_SAFE_INTEGER in *.
    assert (forallb isSafeInteger [at_; mn; mx; mn + 10000; t'] = true) as ->.
    { cbn [forallb]. rewrite !andb_true_iff, !isSafeInteger_true. unfold MAX_SAFE_INTEGER. lia. }
    rewrite !Z.gtb_ltb, !(proj2 (Z.ltb_ge _ _)), Z.eqb_refl by lia. done.
  - intros t' Ht'. unfold assertFxConversionFresh. destruct (fxEvidenceDigest _ _ _); [|done]. cbn [mbind result_bind].
    cbn [cv_expiresAt]. rewrite (Z.gtb_ltb t'), (proj2 (Z.ltb_lt _ _) Ht'), orb_true_r. done.
Qed.

(** A USDC index receipt under a constant hash. *)
Definition hash_example : string := of_chars (replicate 64 (Ascii.ascii_of_nat 97)).
Definition receipt_example : jsval :=
  JObject [("version", JInt 1); ("provider", JString "bybit"); ("mode", JString "testnet");
    ("origin", JString "https://api-testnet.bybit.com"); ("endpoint", JString "/v5/market/tickers");
    ("source", JString "bybit-v5-rest-index-snapshot-v1"); ("legId", JString "bybit:usdc-usd-index:v1");
    ("routeId", JString "bybit:usdc-usd-index:v1"); ("ccxtVersion", JString "4.5.75"); ("profileVersion", JInt 1);
    ("profileHash", JString hash_example); ("category", JString "spot"); ("symbol", JString "USDCUSDT");
    ("field", JString "usdIndexPrice"); ("value", JString "0.9998"); ("providerQuoteAt", JNull);
    ("providerResponseAt", JInt 100000); ("timeBasis", JString "provider_snapshot_observation");
    ("startedAt", JInt 99900); ("completedAt", JInt 100100);
    ("envelope", JObject [("retCode", JInt 0); ("time", JInt 100000);
       ("result", JObject [("category", JString "spot");
         ("list", JArray [JObject [("symbol", JString "USDCUSDT"); ("usdIndexPrice", JString "0.9998")]])])]);
    ("envelopeHash", JString hash_example); ("receiptHash", JString hash_example)].
