(* ===== verification/FxSizing.v ===== *)
(** FxSizing: [src/trading_fx_sizing.ts], sizing a position whose market settles
    in another asset than the account reports in.

    Budgets are exact rationals in the settlement asset; only the final
    quantity is rounded, down to the market's step.  [clock] is the
    [Date.now()] of the freshness fence. *)

From S2P Require Import Prelude Text Decimal Rational Money Types Json Fx.
From Stdlib Require Ascii String.
From Stdlib Require Import QArith Lqa.
Local Open Scope Z_scope.

Record StoredFxConversion := mkStoredFx { sfx_id : string; sfx_conversion : FxConversionEvidence }.

Record TradingFxSizingContext := mkFxSizing {
  fz_version : Z;
  fz_conversionId : string;
  fz_conversion : FxConversionEvidence;
  fz_reportingCurrency : string;
  fz_notionalCurrency : string;
  fz_strategyMaximumNotionalCurrency : string;
  fz_riskAmountCurrency : string }.

Definition positive (value : string) : result ExactRational :=
  d ← decimal value true None; rationalFromDecimal d.
Definition nonnegative (value : string) : result ExactRational :=
  d ← decimal value false None; rationalFromDecimal d.

Fixpoint minimum (first : ExactRational) (values : list ExactRational) : result ExactRational :=
  match values with
  | [] => Ok first
  | value :: rest => c ← compareRational first value; minimum (if c <=? 0 then first else value) rest
  end.

Definition sizing_mode (strategy : StrategyConfiguration) : PositionSizingMode :=
  default risk_percent (ss_positionSizingMode (st_sizing strategy)).

Section Sizing.
Context (sha256 : string → string) (clock : Z).

Definition supported_asset (asset : string) : bool := bool_decide (asset ∈ ["USD"; "USDT"; "USDC"]).

Definition assertSizingRecipe (fx : option StoredFxConversion) (reporting settlement : string) : result StoredFxConversion :=
  if negb (supported_asset reporting && supported_asset settlement) then invalidFx "SIZING_ASSET_UNSUPPORTED"
  else match fx with
  | None => invalidFx "SIZING_CONVERSION_UNPROVEN"
  | Some fx =>
      let c := sfx_conversion fx in
      if negb (hex64 (sfx_id fx)) || negb (bool_decide (cv_baseAsset c = settlement)) || negb (bool_decide (cv_quoteAsset c = reporting))
      then invalidFx "SIZING_CONVERSION_UNPROVEN"
      else
        _ ← assertFxConversionFresh sha256 c clock;
        zero ← rationalFromDecimal "0"; s ← compareRational (cv_rate c) zero;
        if s <=? 0 then invalidFx "SIZING_RATE_INVALID" else Ok fx
  end.

(** A present, non-empty text. *)
Definition truthy (o : option string) : option string :=
  match o with Some s => if bool_decide (s = "") then None else Some s | None => None end.

Definition fxSizingContext (account : TradingAccountSnapshot) (market : TradingMarketSnapshot) (strategy : StrategyConfiguration)
    (fxConversion : option StoredFxConversion) : result (option TradingFxSizingContext) :=
  match truthy (ta_reportingCurrency <$> as_accounting account), truthy (ma_settlementAsset <$> mk_accounting market) with
  | Some reporting, Some settlement =>
      if bool_decide (reporting = settlement) then
        match fxConversion with Some _ => invalidFx "SIZING_UNEXPECTED_CONVERSION" | None => Ok None end
      else
        fx ← assertSizingRecipe fxConversion reporting settlement;
        Ok (Some (mkFxSizing 1 (sfx_id fx) (sfx_conversion fx) reporting settlement settlement
                    (if bool_decide (sizing_mode strategy = risk_percent) then reporting else settlement)))
  | _, _ => match fxConversion with Some _ => invalidFx "SIZING_UNITS_UNPROVEN" | None => Ok None end
  end.

(** [FxQuantityInput] *)
Record FxQuantityInput := mkFxQuantity {
  fq_account : TradingAccountSnapshot;
  fq_market : TradingMarketSnapshot;
  fq_strategy : StrategyConfiguration;
  fq_fxConversion : option StoredFxConversion;
  fq_entry : string;
  fq_distance : string;
  fq_percent : string;
  fq_leverage : Z }.

Record SizingBudgets := mkBudgets {
  sb_capital : ExactRational;
  sb_leverage : ExactRational;
  sb_available : ExactRational;
  sb_strategyMaximum : ExactRational }.

Definition sizingBudgets (input : FxQuantityInput) : result SizingBudgets :=
  context ← fxSizingContext (fq_account input) (fq_market input) (fq_strategy input) (fq_fxConversion input);
  match context, fq_fxConversion input with
  | Some _, Some fx =>
      let rate := cv_rate (sfx_conversion fx) in
      leverage ← positive (show (fq_leverage input));
      equity ← nonnegative (as_equity (fq_account input)); percent ← positive (fq_percent input);
      product ← multiplyRational equity percent; hundred ← positive "100";
      capitalReporting ← divideRational product hundred;
      capital ← divideRational capitalReporting rate;
      balance ← nonnegative (as_availableBalance (fq_account input));
      power ← multiplyRational balance leverage; available ← divideRational power rate;
      strategyMaximum ← positive (ss_maxPositionNotional (st_sizing (fq_strategy input)));
      Ok (mkBudgets capital leverage available strategyMaximum)
  | _, _ => invalidFx "SIZING_CONVERSION_UNPROVEN"
  end.

Definition notionalBudget (budget : SizingBudgets) (mode : PositionSizingMode) : result ExactRational :=
  match mode with
  | equity_percent_margin =>
      deployed ← multiplyRational (sb_capital budget) (sb_leverage budget);
      minimum (sb_strategyMaximum budget) [sb_available budget; deployed]
  | equity_percent_notional => minimum (sb_strategyMaximum budget) [sb_available budget; sb_capital budget]
  | risk_percent => minimum (sb_strategyMaximum budget) [sb_available budget]
  end.

Definition fxSizedQuantity (input : FxQuantityInput) : result string :=
  budget ← sizingBudgets input;
  let mode := sizing_mode (fq_strategy input) in
  notional ← notionalBudget budget mode;
  entry ← positive (fq_entry input);
  byNotional ← divideRational notional entry;
  quantity ← match mode with
             | risk_percent =>
                 distance ← positive (fq_distance input); byRisk ← divideRational (sb_capital budget) distance;
                 minimum byNotional [byRisk]
             | _ => Ok byNotional
             end;
  q ← quantizeRational quantity (mk_quantityStep (fq_market input)) floor;
  c ← compareDecimal q (mk_minimumQuantity (fq_market input));
  if (c <? 0) || bool_decide (q = "0") then invalidFx "SIZING_QUANTITY_BELOW_MINIMUM"
  else
    nq ← nonnegative q; entry' ← positive (fq_entry input);
    actualNotional ← multiplyRational nq entry';
    minimumNotional ← nonnegative (mk_minimumNotional (fq_market input));
    c' ← compareRational actualNotional minimumNotional;
    if c' <? 0 then invalidFx "SIZING_NOTIONAL_BELOW_MINIMUM" else Ok q.

Definition fxNotionalBudget (input : FxQuantityInput) : result MoneyValue :=
  budget ← sizingBudgets input;
  notional ← notionalBudget budget (sizing_mode (fq_strategy input));
  moneyValueFromRational notional.
End Sizing.

(** ** Exact budgets *)
Lemma positive_inv v r : positive v = Ok r → ∃ a, units (trim v) = Some a ∧ 0 < a ∧ denotes r (qdec a).
Proof.
  unfold positive. intros H. apply bind_Ok in H as (d & Hd & H).
  apply decimal_inv in Hd as (a & Ha & -> & Hb & Hp & _). exists a. split_and!; [done|by apply Hp|].
  apply rationalFromDecimal_inv in H as (z & Hz & Hden). rewrite sunits_dec in Hz by done. by injection Hz as <-.
Qed.

Lemma nonnegative_inv v r : nonnegative v = Ok r → ∃ a, units (trim v) = Some a ∧ 0 <= a ∧ denotes r (qdec a).
Proof.
  unfold nonnegative. intros H. apply bind_Ok in H as (d & Hd & H).
  apply decimal_inv in Hd as (a & Ha & -> & Hb & _). exists a. split_and!; [done|lia|].
  apply rationalFromDecimal_inv in H as (z & Hz & Hden). rewrite sunits_dec in Hz by done. by injection Hz as <-.
Qed.

(** The minimum is one of the values and no larger than any. *)
Lemma minimum_inv first values r x : minimum first values = Ok r → denotes first x →
  ∃ y, denotes r y ∧ (y <= x)%Q ∧ ∀ v z, v ∈ values → denotes v z → (y <= z)%Q.
Proof.
  revert first x. induction values as [|v values IH]; intros first x H Hx; cbn [minimum] in H.
  - injection H as <-. exists x. split_and!; [done|apply Qle_refl|]. intros v z Hv. by apply elem_of_nil in Hv.
  - apply bind_Ok in H as (c & Hc & H). apply compareRational_inv in Hc as (x' & y' & Hx' & Hy' & (S1 & S2 & S3)).
    rewrite <-(denotes_fun _ _ _ Hx Hx') in S1, S2, S3.
    assert (∃ m, denotes (if c <=? 0 then first else v) m ∧ (m <= x)%Q ∧ (m <= y')%Q) as (m & Hm & Mx & My).
    { destruct (Z.leb_spec c 0).
      - exists x. split_and!; [done|apply Qle_refl|]. apply Qnot_lt_le. intros Hlt%S2. lia.
      - exists y'. split_and!; [done| |apply Qle_refl]. apply Qlt_le_weak. by apply S2. }
    destruct (IH _ _ H Hm) as (y & Hy & Yx & Yall). exists y. split_and!; [done|by eapply Qle_trans|].
    intros w z [->|Hw]%elem_of_cons Hz; [|by eapply Yall].
    rewrite (denotes_fun _ _ _ Hz Hy'). by eapply Qle_trans.
Qed.

Lemma divide_denotes a b r x y : divideRational a b = Ok r → denotes a x → denotes b y → denotes r (x / y)%Q ∧ ¬ (y == 0)%Q.
Proof.
  intros H Hx Hy. apply divideRational_inv in H as (x' & y' & Hx' & Hy' & Hn & Hr).
  rewrite (denotes_fun _ _ _ Hx Hx'), (denotes_fun _ _ _ Hy Hy'). split; [done|]. intros E. apply Hn.
  by rewrite <-(denotes_fun _ _ _ Hy Hy').
Qed.

Lemma multiply_denotes a b r x y : multiplyRational a b = Ok r → denotes a x → denotes b y → denotes r (x * y)%Q.
Proof.
  intros H Hx Hy. apply multiplyRational_inv in H as (x' & y' & Hx' & Hy' & Hr).
  by rewrite (denotes_fun _ _ _ Hx Hx'), (denotes_fun _ _ _ Hy Hy').
Qed.

(** The amounts a sizing request is about, as exact numbers. *)
Record sizing_amounts (input : FxQuantityInput) (rate leverage equity percent balance strategyMax : Q) : Prop := {
  sa_rate : ∃ fx, fq_fxConversion input = Some fx ∧ denotes (cv_rate (sfx_conversion fx)) rate;
  sa_rate_pos : (0 < rate)%Q;
  sa_leverage : ∃ a, units (trim (show (fq_leverage input))) = Some a ∧ (leverage == qdec a)%Q;
  sa_equity : ∃ a, units (trim (as_equity (fq_account input))) = Some a ∧ (equity == qdec a)%Q;
  sa_percent : ∃ a, units (trim (fq_percent input)) = Some a ∧ (percent == qdec a)%Q;
  sa_balance : ∃ a, units (trim (as_availableBalance (fq_account input))) = Some a ∧ (balance == qdec a)%Q;
  sa_max : ∃ a, units (trim (ss_maxPositionNotional (st_sizing (fq_strategy input)))) = Some a ∧ (strategyMax == qdec a)%Q }.

Lemma fxSizingContext_rate sha256 clock account market strategy fx context :
  fxSizingContext sha256 clock account market strategy (Some fx) = Ok (Some context) →
  ∃ q, denotes (cv_rate (sfx_conversion fx)) q ∧ (0 < q)%Q.
Proof.
  unfold fxSizingContext. destruct (truthy _) as [rep|]; [|done]. destruct (truthy _) as [set_|]; [|done].
  destruct (bool_decide (rep = set_)); [done|]. intros H. apply bind_Ok in H as (fx' & H & _).
  unfold assertSizingRecipe in H. destruct (negb _); [done|]. destruct (negb _ || _ || _); [done|].
  apply bind_Ok in H as (u & _ & H). apply bind_Ok in H as (z & Hz & H). apply bind_Ok in H as (s & Hs & H).
  apply rationalFromDecimal_zero in Hz. destruct (Z.leb_spec s 0); [done|].
  apply compareRational_inv in Hs as (x & y & Hx & Hy & (_ & S2 & _)). exists x. split; [done|].
  rewrite <-(denotes_fun _ _ _ Hz Hy) in S2. by apply S2.
Qed.

Lemma sunits_hundred : units (trim "100") = Some (100 * ONE).
Proof. vm_compute. reflexivity. Qed.

Lemma qdec_hundred : (qdec (100 * ONE) == 100)%Q.
Proof. unfold qdec. change 100%Q with (rat 100 1). pose proof ONE_pos. apply rat_eq; lia. Qed.

Lemma sizingBudgets_inv sha256 clock input b : sizingBudgets sha256 clock input = Ok b →
  ∃ rate leverage equity percent balance strategyMax,
    sizing_amounts input rate leverage equity percent balance strategyMax ∧
    denotes (sb_leverage b) leverage ∧ denotes (sb_strategyMaximum b) strategyMax ∧
    denotes (sb_capital b) (equity * percent / 100 / rate)%Q ∧
    denotes (sb_available b) (balance * leverage / rate)%Q.
Proof.
  unfold sizingBudgets. intros H. apply bind_Ok in H as (ctx & Hctx & H).
  destruct ctx as [ctx|]; [|done]. destruct (fq_fxConversion input) as [fx|] eqn:Efx; [|done].
  destruct (fxSizingContext_rate _ _ _ _ _ _ _ Hctx) as (rate & Hrate & Hrp).
  apply bind_Ok in H as (l & (la & Hla & Hlp & Dl)%positive_inv & H).
  apply bind_Ok in H as (e & (ea & Hea & Hep & De)%nonnegative_inv & H).
  apply bind_Ok in H as (p & (pa & Hpa & Hpp & Dp)%positive_inv & H).
  apply bind_Ok in H as (pr & Hpr & H). apply bind_Ok in H as (hu & (ha & Hha & _ & Dh)%positive_inv & H).
  apply bind_Ok in H as (cr & Hcr & H). apply bind_Ok in H as (cap & Hcap & H).
  apply bind_Ok in H as (bl & (ba & Hba & Hbp & Db)%nonnegative_inv & H).
  apply bind_Ok in H as (pw & Hpw & H). apply bind_Ok in H as (av & Hav & H).
  apply bind_Ok in H as (sm & (sa & Hsa & Hsp & Ds)%positive_inv & H). injection H as <-.
  rewrite sunits_hundred in Hha. assert (ha = 100 * ONE) as -> by congruence. clear Hha. rewrite qdec_hundred in Dh.
  pose proof (multiply_denotes _ _ _ _ _ Hpr De Dp) as D1.
  destruct (divide_denotes _ _ _ _ _ Hcr D1 Dh) as [D2 _]. destruct (divide_denotes _ _ _ _ _ Hcap D2 Hrate) as [D3 _].
  pose proof (multiply_denotes _ _ _ _ _ Hpw Db Dl) as D4. destruct (divide_denotes _ _ _ _ _ Hav D4 Hrate) as [D5 _].
  exists rate, (qdec la), (qdec ea), (qdec pa), (qdec ba), (qdec sa).
  split; [|done]. split; try done; try (eexists; split; [eassumption|reflexivity]). by exists fx.
Qed.

(** The notional budget respects every cap of its mode. *)
Lemma notionalBudget_inv b mode r capital leverage available strategyMax : notionalBudget b mode = Ok r →
  denotes (sb_capital b) capital → denotes (sb_leverage b) leverage → denotes (sb_available b) available →
  denotes (sb_strategyMaximum b) strategyMax →
  ∃ y, denotes r y ∧ (y <= strategyMax)%Q ∧ (y <= available)%Q ∧
    match mode with
    | risk_percent => True
    | equity_percent_notional => (y <= capital)%Q
    | equity_percent_margin => (y <= capital * leverage)%Q
    end.
Proof.
  intros H Dc Dl Da Ds. unfold notionalBudget in H. destruct mode.
  - destruct (minimum_inv _ _ _ _ H Ds) as (y & Hy & Hs & Hall). exists y. split_and!; try done.
    eapply Hall; [by left|done].
  - destruct (minimum_inv _ _ _ _ H Ds) as (y & Hy & Hs & Hall). exists y. split_and!; try done;
      (eapply Hall; [|eassumption]; set_solver).
  - apply bind_Ok in H as (d & Hd & H). pose proof (multiply_denotes _ _ _ _ _ Hd Dc Dl) as Dd.
    destruct (minimum_inv _ _ _ _ H Ds) as (y & Hy & Hs & Hall). exists y. split_and!; try done;
      (eapply Hall; [|eassumption]; set_solver).
Qed.

Lemma Qdiv_le x y e : (0 < e)%Q → (x <= y / e)%Q → (x * e <= y)%Q.
Proof.
  intros He H. apply (Qmult_le_compat_r _ _ e) in H; [|by apply Qlt_le_weak].
  assert (y / e * e == y)%Q as E by (field; intros E; rewrite E in He; by apply Qlt_irrefl in He). by rewrite E in H.
Qed.

(** The rounded quantity and its lower limits. *)
Lemma fxSizedQuantity_inv sha256 clock input q : fxSizedQuantity sha256 clock input = Ok q →
  ∃ b notional x y e z step c minq minn,
    sizingBudgets sha256 clock input = Ok b ∧ notionalBudget b (sizing_mode (fq_strategy input)) = Ok notional ∧
    denotes notional y ∧ units (trim (fq_entry input)) = Some e ∧ 0 < e ∧
    (x <= y / qdec e)%Q ∧
    (sizing_mode (fq_strategy input) = risk_percent → ∃ d capital, units (trim (fq_distance input)) = Some d ∧ 0 < d ∧
       denotes (sb_capital b) capital ∧ (x <= capital / qdec d)%Q) ∧
    units q = Some z ∧ units (mk_quantityStep (fq_market input)) = Some step ∧ 0 < step ∧ z = c * step ∧ 0 < z ∧
    (qdec z <= x)%Q ∧
    units (mk_minimumQuantity (fq_market input)) = Some minq ∧ minq <= z ∧
    units (trim (mk_minimumNotional (fq_market input))) = Some minn ∧ (qdec minn <= qdec z * qdec e)%Q.
Proof.
  unfold fxSizedQuantity. intros H. apply bind_Ok in H as (b & Hb & H). apply bind_Ok in H as (n & Hn & H).
  apply bind_Ok in H as (en & Hen & H). pose proof Hen as (e & He & Hep & De)%positive_inv.
  apply bind_Ok in H as (bn & Hbn & H). apply bind_Ok in H as (qt & Hqt & H). apply bind_Ok in H as (q' & Hq & H).
  apply bind_Ok in H as (c & Hc & H). destruct ((c <? 0) || bool_decide (q' = "0")) eqn:E; [done|].
  apply orb_false_iff in E as [Ec%Z.ltb_ge E0%bool_decide_eq_false].
  apply bind_Ok in H as (nq & (z0 & Hz0 & _ & Dz0)%nonnegative_inv & H). apply bind_Ok in H as (en' & Hen' & H).
  rewrite Hen in Hen'. injection Hen' as <-. apply bind_Ok in H as (an & Han & H).
  apply bind_Ok in H as (mn & (minn & Hmn & _ & Dmn)%nonnegative_inv & H). apply bind_Ok in H as (c' & Hc' & H).
  destruct (Z.ltb_spec c' 0) as [|Hc'0]; [done|]. injection H as <-.
  apply compareDecimal_inv in Hc as (z & minq & Hz & Hminq & ->).
  apply quantizeRational_inv in Hq as (xq & step & k & Dxq & Hstep & Hsp & Eq & _ & [Hle _]).
  pose proof Hz as Hz'. rewrite Eq in Hz'. apply units_sdec in Hz' as [-> Hnn].
  rewrite (units_trim _ _ Hz), Hz in Hz0. injection Hz0 as <-.
  assert (∃ y, denotes n y ∧ denotes bn (y / qdec e)%Q) as (y & Dy & Dbn).
  { apply divideRational_inv in Hbn as (y & e' & Hy & He' & _ & Hr). exists y. split; [done|].
    by rewrite (denotes_fun _ _ _ De He'). }
  assert (minq <= k * step).
  { destruct (cmpZ_cases (k * step) minq) as [[? Ez]|[[? Ez]|[? Ez]]]; lia. }
  assert (k * step ≠ 0) as Hnz. { intros Ez. apply E0. rewrite Eq, Ez. apply sdec_0. }
  pose proof (multiply_denotes _ _ _ _ _ Han Dz0 De) as Dan.
  destruct (compareRational_spec _ _ _ _ Dan Dmn) as (c2 & Hc2 & (S1 & _)). rewrite Hc' in Hc2. injection Hc2 as <-.
  assert (qdec minn <= qdec (k * step) * qdec e)%Q by (apply Qnot_lt_le; intros Hlt%S1; lia).
  assert ((xq <= y / qdec e)%Q ∧ (sizing_mode (fq_strategy input) = risk_percent → ∃ d capital,
    units (trim (fq_distance input)) = Some d ∧ 0 < d ∧ denotes (sb_capital b) capital ∧ (xq <= capital / qdec d)%Q)) as [Hx Hrisk].
  { destruct (sizing_mode (fq_strategy input)); cycle 1.
    1,2: injection Hqt as <-; rewrite (denotes_fun _ _ _ Dxq Dbn); split; [apply Qle_refl|done].
    apply bind_Ok in Hqt as (di & (d & Hd & Hdp & Dd)%positive_inv & Hqt). apply bind_Ok in Hqt as (br & Hbr & Hqt).
    apply divideRational_inv in Hbr as (cap & d' & Hcap & Hd' & _ & Dbr).
    destruct (minimum_inv _ _ _ _ Hqt Dbn) as (m & Dm & Hm & Hall). rewrite (denotes_fun _ _ _ Dxq Dm). split; [done|].
    intros _. exists d, cap. split_and!; try done. rewrite (denotes_fun _ _ _ Dxq Dm), (denotes_fun _ _ _ Dd Hd'). eapply Hall; [by left|done]. }
  exists b, n, xq, y, e, (k * step), step, k, minq, minn. split_and!; try done. lia.
Qed.

(** ** Property *)

(** C29: a quantity sized across currencies respects every exact budget: it is
    a positive multiple of the step, at least the exchange minima, its notional
    stays within the strategy maximum and, converted at the exact rate, within
    the leveraged balance and within the configured share of equity (at the
    stop for risk sizing, as notional, or as margin times leverage). *)
Theorem fx_quantity_within_budgets sha256 clock input q : fxSizedQuantity sha256 clock input = Ok q →
  ∃ rate leverage equity percent balance strategyMax e z step c minq minn,
    sizing_amounts input rate leverage equity percent balance strategyMax ∧
    units (trim (fq_entry input)) = Some e ∧ units q = Some z ∧ 0 < z ∧
    units (mk_quantityStep (fq_market input)) = Some step ∧ z = c * step ∧
    units (mk_minimumQuantity (fq_market input)) = Some minq ∧ minq <= z ∧
    units (trim (mk_minimumNotional (fq_market input))) = Some minn ∧ (qdec minn <= qdec z * qdec e)%Q ∧
    (qdec z * qdec e <= strategyMax)%Q ∧
    (qdec z * qdec e * rate <= balance * leverage)%Q ∧
    match sizing_mode (fq_strategy input) with
    | risk_percent => ∃ d, units (trim (fq_distance input)) = Some d ∧ (qdec z * qdec d * rate <= equity * percent / 100)%Q
    | equity_percent_notional => (qdec z * qdec e * rate <= equity * percent / 100)%Q
    | equity_percent_margin => (qdec z * qdec e * rate <= equity * percent / 100 * leverage)%Q
    end.
Proof.
  intros H. apply fxSizedQuantity_inv in H as
    (b & n & x & y & e & z & step & c & minq & minn & Hb & Hn & Dy & He & Hep & Hx & Hrisk & Hz & Hstep & Hsp & Ez & Hzp & Hzx & Hmq & Hmz & Hmn & Hmnz).
  destruct (sizingBudgets_inv _ _ _ _ Hb) as (rate & lev & eqy & pct & bal & smax & SA & Dl & Ds & Dc & Da).
  destruct (notionalBudget_inv _ _ _ _ _ _ _ Hn Dc Dl Da Ds) as (y' & Dy' & Y1 & Y2 & Y3).
  pose proof (denotes_fun _ _ _ Dy Dy') as Ey. rewrite <-Ey in Y1, Y2.
  pose proof (sa_rate_pos _ _ _ _ _ _ _ SA) as Hrp. pose proof (qdec_pos e Hep) as Qe.
  assert (qdec z * qdec e <= y)%Q as Hzy by (apply Qdiv_le; [done|by eapply Qle_trans]).
  assert (∀ v w, (v <= w / rate)%Q → (v * rate <= w)%Q) as Hconv by (intros; by apply Qdiv_le).
  exists rate, lev, eqy, pct, bal, smax, e, z, step, c, minq, minn. split_and!; try done.
  - by eapply Qle_trans.
  - apply Hconv. by eapply Qle_trans.
  - destruct (sizing_mode (fq_strategy input)).
    + destruct (Hrisk eq_refl) as (d & cap & Hd & Hdp & Dcap & Hxd). exists d. split; [done|]. apply Hconv.
      rewrite (denotes_fun _ _ _ Dc Dcap). apply Qdiv_le; [by apply qdec_pos|]. by eapply Qle_trans.
    + rewrite <-Ey in Y3. apply Hconv. by eapply Qle_trans.
    + rewrite <-Ey in Y3. assert (eqy * pct / 100 * lev == eqy * pct / 100 / rate * lev * rate)%Q as ->
        by (field; intros E; rewrite E in Hrp; by apply Qlt_irrefl in Hrp).
      apply Qmult_le_compat_r; [by eapply Qle_trans|by apply Qlt_le_weak].
Qed.

Definition conversion_example : FxConversionEvidence :=
  mkConversion "testnet" hash_example 1 "provider_snapshot_index_asof" "stable-index-asof-10s-v1" "USDC" "USD"
    100500 100000 100000 110000 (mkRational "4999" "5000") [hash_example] hash_example.

Definition strategy_example : StrategyConfiguration :=
  mkStrategy 4 ["standard"] [] [LONG; SHORT]
    (mkStrategyEntry entry_limit midpoint false 10)
    (mkStrategySizing (Some risk_percent) "1" (Some "1") "1000" 3 3)
    (mkStrategyExits manual ["50"; "50"] configured (Some 1) None)
    (mkStrategySafety None (Some absolute) "100" "0.5" 900).

Definition account_example : TradingAccountSnapshot :=
  mkAccountSnapshot "1000" "800" "0" "0" None None
    (Some (mkAccounting "f" "USD" ["USDC"] "s" 0 price_only (mkFunding funding_complete 0 0 None "s" None 0 []))).

Definition market_example : TradingMarketSnapshot :=
  mkMarket "BTCUSDC" "100" "0.5" "0.01" "0.01" "5" 20 0 (Some (mkMarketAccounting "BTC/USDC" "USDC")) None.

Definition fx_input_example : FxQuantityInput :=
  mkFxQuantity account_example market_example strategy_example (Some (mkStoredFx hash_example conversion_example)) "100" "5" "1" 3.

Lemma fx_quantity_within_budgets_witness :
  fxSizedQuantity (λ _, hash_example) 105000 fx_input_example = Ok "2" ∧
  ∃ rate leverage equity percent balance strategyMax z,
    sizing_amounts fx_input_example rate leverage equity percent balance strategyMax ∧ units "2" = Some z ∧ 0 < z.
Proof.
  assert (fxSizedQuantity (λ _, hash_example) 105000 fx_input_example = Ok "2") as H by (vm_compute; reflexivity).
  split; [exact H|].
  destruct (fx_quantity_within_budgets _ _ _ _ H) as (r & l & e & p & b & m & _ & z & _ & _ & _ & _ & SA & _ & Hz & Hp & _).
  exists r, l, e, p, b, m, z. exact (conj SA (conj Hz Hp)).
Defined.
