(* ===== verification/Risk.v ===== *)
(** Risk: [src/trading_risk.ts], from an executable signal to a trading plan.

    [createTradingPlan] prices the entry and the stop on the tick grid, sizes
    the position (per stop distance, as a share of equity in notional or in
    margin, or across currencies through [FxSizing]), lets the tier solver lower
    the leverage, splits the quantity over the take-profit targets, and builds
    the entry, stop and take-profit orders.  [sha256] is the digest of
    [node:crypto] used for client order ids; [clock] is [Date.now()]. *)

From S2P Require Import Prelude Text Decimal Rational Money Types Json Fx FxSizing Tiers.
From Stdlib Require Ascii String.
From Stdlib Require Import QArith.
Local Open Scope Z_scope.

(** [throw new TradingRiskError(code, message)] *)
Definition risk_error {A} (c m : string) : result A := throw_code c m.

(** ** Prices *)
Definition priceQuantum (value : string) : result Z :=
  d ← decimal value true None; Ok (padded_units (chars d)).

Definition formatPriceQuantum (value : Z) : result string :=
  let ds := padStart 19 (to_digits value) in
  let cut := (length ds - 18)%nat in
  decimal (of_chars (take cut ds ++ dot_char :: drop cut ds)) true None.

Definition createEntryPriceBoundary (side : TradingSide) (reference tick slippage : string)
    : result TradingEntryPriceBoundary :=
  referencePrice ← decimal reference true None;
  priceTick ← decimal tick true None;
  maxSlippagePercent ← decimal slippage true (Some "5");
  let hundred := 100 * 10 ^ 18 in
  s ← priceQuantum maxSlippagePercent;
  let factor := match side with LONG => hundred + s | SHORT => hundred - s end in
  r ← priceQuantum referencePrice;
  t ← priceQuantum priceTick;
  let n := r * factor in
  let d := hundred * t in
  let ticks := match side with LONG => Z.quot n d | SHORT => Z.quot (n + d - 1) d end in
  limitPrice ← formatPriceQuantum (ticks * t);
  Ok (mkBoundary 1 referencePrice maxSlippagePercent priceTick limitPrice).

Definition BOUND_UNPROVEN : string := "ENTRY_PRICE_BOUND_UNPROVEN".

Definition assertBoundaryContract (boundary : TradingEntryPriceBoundary) (side : TradingSide) (slippage : string) : result unit :=
  expected ← createEntryPriceBoundary side (eb_referencePrice boundary) (eb_priceTick boundary) slippage;
  if bool_decide (boundary = expected) then Ok tt
  else risk_error BOUND_UNPROVEN "Original entry price boundary is invalid or changed.".

Definition opening_side (side : TradingSide) : TradingOrderSide := match side with LONG => buy | SHORT => sell end.

Definition assertEntryPriceBoundary (side : TradingSide) (maxSlippagePercent : string)
    (boundary : option TradingEntryPriceBoundary) (entry : PlannedOrder) : result unit :=
  match boundary with
  | None =>
      if bool_decide (po_orderType entry = type_market) || po_ioc entry
      then risk_error BOUND_UNPROVEN "Market-based entry requires its original price boundary."
      else Ok tt
  | Some boundary =>
      _ ← assertBoundaryContract boundary side maxSlippagePercent;
      if negb (bool_decide (po_role entry = role_entry)) || po_reduceOnly entry
         || negb (bool_decide (po_orderType entry = type_limit)) || negb (po_ioc entry) || po_postOnly entry
         || negb (bool_decide (po_price entry = Some (eb_limitPrice boundary)))
         || negb (bool_decide (po_side entry = opening_side side))
      then risk_error BOUND_UNPROVEN "Entry must retain its original price-limited IOC contract."
      else Ok tt
  end.

Definition is_market (signal : ExecutableSignal) (strategy : StrategyConfiguration) : bool :=
  match sig_entry signal with MarketEntry => true | RangeEntry _ => false end
  || bool_decide (se_orderType (st_entry strategy) = entry_market).

Definition planPriceBoundary (signal : ExecutableSignal) (strategy : StrategyConfiguration) (market : TradingMarketSnapshot)
    (given : option TradingEntryPriceBoundary) : result (option TradingEntryPriceBoundary) :=
  let slippage := sf_maxSlippagePercent (st_safety strategy) in
  if negb (is_market signal strategy) then
    match given with
    | Some _ => risk_error BOUND_UNPROVEN "Ordinary signal limits must not become market IOC entries."
    | None => Ok None
    end
  else
    boundary ← match given with
               | Some b => Ok b
               | None => createEntryPriceBoundary (sig_action signal) (mk_markPrice market) (mk_priceTick market) slippage
               end;
    _ ← assertBoundaryContract boundary (sig_action signal) slippage;
    tick ← decimal (mk_priceTick market) false None;
    if negb (bool_decide (eb_priceTick boundary = tick))
    then risk_error BOUND_UNPROVEN "Market tick changed since original entry planning."
    else Ok (Some boundary).

(** ** Deadlines *)
Definition resolveEntryExpiresAt (originAt ttlSeconds : Z) (earlierDeadline : option Z) : result Z :=
  let deadline := originAt + ttlSeconds * 1000 in
  if negb (isSafeInteger originAt) || (originAt <=? 0) || negb (isSafeInteger ttlSeconds)
     || (ttlSeconds <? 10) || (ttlSeconds >? 86400) || negb (isSafeInteger deadline)
  then risk_error "ENTRY_DEADLINE_UNPROVEN" "Original entry origin or deadline cannot be proven."
  else match earlierDeadline with
  | None => Ok deadline
  | Some e =>
      if negb (isSafeInteger e) || (e <=? 0)
      then risk_error "ENTRY_DEADLINE_UNPROVEN" "Persisted entry deadline is invalid."
      else Ok (Z.min deadline e)
  end.

Definition assertEntryNotExpired (deadline : option Z) (now : Z) : result unit :=
  match deadline with
  | None => risk_error "ENTRY_DEADLINE_UNPROVEN" "Absolute entry deadline cannot be proven."
  | Some d =>
      if negb (isSafeInteger d) || (d <=? 0) || negb (isSafeInteger now)
      then risk_error "ENTRY_DEADLINE_UNPROVEN" "Absolute entry deadline cannot be proven."
      else if now >=? d then risk_error "ENTRY_INTENT_EXPIRED" "Original entry deadline has expired."
      else Ok tt
  end.

(** ** Quantised prices *)
Definition entryPrice (signal : ExecutableSignal) (strategy : StrategyConfiguration) (market : TradingMarketSnapshot) : result string :=
  if bool_decide (se_orderType (st_entry strategy) = entry_market) then Ok (mk_markPrice market)
  else match sig_entry signal with
  | MarketEntry => Ok (mk_markPrice market)
  | RangeEntry r =>
      let nearPrice := match sig_action signal with LONG => range_max r | SHORT => range_min r end in
      let farPrice := match sig_action signal with LONG => range_min r | SHORT => range_max r end in
      match se_rangePrice (st_entry strategy) with
      | midpoint => midpointDecimal (range_min r) (range_max r)
      | near => Ok nearPrice
      | far => Ok farPrice
      end
  end.

Definition quantizeDecimalUp (value increment : string) : result string :=
  down ← quantizeDecimalDown value increment;
  c ← compareDecimal down value;
  if c =? 0 then Ok down else addDecimal down increment.

Definition quantizedEntryPrice (signal : ExecutableSignal) (strategy : StrategyConfiguration) (market : TradingMarketSnapshot)
    : result string :=
  price ← entryPrice signal strategy market;
  raw ← decimal price true None;
  if is_market signal strategy then
    match sig_action signal with
    | LONG => quantizeDecimalUp raw (mk_priceTick market)
    | SHORT => quantizeDecimalDown raw (mk_priceTick market)
    end
  else
    match sig_action signal with
    | LONG => quantizeDecimalDown raw (mk_priceTick market)
    | SHORT => quantizeDecimalUp raw (mk_priceTick market)
    end.

Definition quantizedStopPrice (signal : ExecutableSignal) (market : TradingMarketSnapshot) : result string :=
  match sig_action signal with
  | LONG => quantizeDecimalDown (sig_stopLoss signal) (mk_priceTick market)
  | SHORT => quantizeDecimalUp (sig_stopLoss signal) (mk_priceTick market)
  end.

Definition side_text (s : TradingSide) : string := match s with LONG => "LONG" | SHORT => "SHORT" end.

Definition assertStrategyAllows (signal : ExecutableSignal) (strategy : StrategyConfiguration) : result unit :=
  if negb (bool_decide (sig_schema signal ∈ st_allowedSignalSchemas strategy))
  then risk_error "SIGNAL_SCHEMA_BLOCKED" ("Strategy does not allow " +:+ sig_schema signal +:+ " signals.")
  else if negb (bool_decide (sig_action signal ∈ st_allowedSides strategy))
  then risk_error "SIDE_BLOCKED" ("Strategy does not allow " +:+ side_text (sig_action signal) +:+ " positions.")
  else if negb (bool_decide (st_allowedSymbols strategy = [])) && negb (bool_decide (sig_symbol signal ∈ st_allowedSymbols strategy))
  then risk_error "SYMBOL_BLOCKED" ("Strategy does not allow " +:+ sig_symbol signal +:+ ".")
  else Ok tt.

(** [riskDistance] on the side and the stop price of a signal. *)
Definition riskDistance (side : TradingSide) (stopLoss price : string) : result string :=
  c ← compareDecimal stopLoss price;
  match side with
  | LONG =>
      if c >=? 0 then risk_error "INVALID_STOP" "LONG stop must be below entry." else subtractDecimal price stopLoss
  | SHORT =>
      if c <=? 0 then risk_error "INVALID_STOP" "SHORT stop must be above entry." else subtractDecimal stopLoss price
  end.

(** ** Leverage *)
Definition leverageCapSource (strategyCaps marketCaps : bool) : option CapSource :=
  if strategyCaps && marketCaps then Some cap_strategy_and_market
  else if strategyCaps then Some cap_strategy
  else if marketCaps then Some cap_market else None.

Definition resolveLeverageDecision (signal : ExecutableSignal) (strategy : StrategyConfiguration) (market : TradingMarketSnapshot)
    : LeverageDecision :=
  let requestedSource := match sig_suggestedLeverage signal with Some _ => source_signal | None => source_strategy_default end in
  let requested := default (ss_defaultLeverage (st_sizing strategy)) (sig_suggestedLeverage signal) in
  let strategyMaximum := ss_maxLeverage (st_sizing strategy) in
  let marketMaximum := mk_maxLeverage market in
  let effective := Z.min requested (Z.min strategyMaximum (Z.min marketMaximum 50)) in
  let strategyCaps := (requested >? strategyMaximum) && (strategyMaximum =? effective) in
  let marketCaps := (requested >? marketMaximum) && (marketMaximum =? effective) in
  mkLeverageDecision requested requestedSource strategyMaximum marketMaximum effective (leverageCapSource strategyCaps marketCaps).

(** ** Quantities *)
(** The exchange minima every sizing checks last; [who] starts the messages. *)
Definition check_minima (who quantity entry : string) (market : TradingMarketSnapshot) : result string :=
  c ← compareDecimal quantity (mk_minimumQuantity market);
  if c <? 0 then risk_error "QUANTITY_BELOW_MINIMUM" (who +:+ " quantity is below the exchange minimum.")
  else
    notional ← multiplyDecimal quantity entry;
    c' ← compareDecimal notional (mk_minimumNotional market);
    if c' <? 0 then risk_error "NOTIONAL_BELOW_MINIMUM" (who +:+ " notional is below the exchange minimum.")
    else Ok quantity.

Definition positionQuantity (account : TradingAccountSnapshot) (market : TradingMarketSnapshot)
    (entry riskAmount distance maxNotional : string) (leverage : Z) : result string :=
  byRisk ← divideDecimal riskAmount distance 18;
  byNotional ← divideDecimal maxNotional entry 18;
  buyingPower ← multiplyDecimal (as_availableBalance account) (show leverage);
  byBuyingPower ← divideDecimal buyingPower entry 18;
  m ← minDecimal [byRisk; byNotional; byBuyingPower];
  quantity ← quantizeDecimalDown m (mk_quantityStep market);
  check_minima "Risk-limited" quantity entry market.

Definition equityPercentPositionQuantity (account : TradingAccountSnapshot) (market : TradingMarketSnapshot)
    (entry positionPercent maxNotional : string) (leverage : Z) : result string :=
  product ← multiplyDecimal (as_equity account) positionPercent;
  portfolioNotional ← divideDecimal product "100" 18;
  buyingPower ← multiplyDecimal (as_availableBalance account) (show leverage);
  allowedNotional ← minDecimal [portfolioNotional; maxNotional; buyingPower];
  byNotional ← divideDecimal allowedNotional entry 18;
  quantity ← quantizeDecimalDown byNotional (mk_quantityStep market);
  check_minima "Portfolio-sized" quantity entry market.

Definition equityPercentMarginQuantity (account : TradingAccountSnapshot) (market : TradingMarketSnapshot)
    (entry capitalPercent maxNotional : string) (leverage : Z) : result string :=
  product ← multiplyDecimal (as_equity account) capitalPercent;
  deployedCapital ← divideDecimal product "100" 18;
  leveragedNotional ← multiplyDecimal deployedCapital (show leverage);
  buyingPower ← multiplyDecimal (as_availableBalance account) (show leverage);
  allowedNotional ← minDecimal [leveragedNotional; maxNotional; buyingPower];
  byNotional ← divideDecimal allowedNotional entry 18;
  quantity ← quantizeDecimalDown byNotional (mk_quantityStep market);
  check_minima "Capital-sized" quantity entry market.

(** ** Targets *)
Fixpoint allocate_from (quantity step allocated : string) (allocations : list string) : result (list string) :=
  match allocations with
  | [] => Ok []
  | [_] => last ← subtractDecimal quantity allocated; Ok [last]
  | allocation :: rest =>
      product ← multiplyDecimal quantity allocation;
      share ← divideDecimal product "100" 18;
      target ← quantizeDecimalDown share step;
      c ← compareDecimal target "0";
      if c <=? 0 then risk_error "TARGET_QUANTITY_BELOW_MINIMUM" "A take-profit allocation rounds to zero."
      else
        allocated' ← addDecimal allocated target;
        targets ← allocate_from quantity step allocated' rest;
        Ok (target :: targets)
  end.

Definition allocateTargetQuantities (quantity : string) (allocations : list string) (step : string) : result (list string) :=
  allocate_from quantity step "0" allocations.

(** [remaining_targets] counts the targets before the last. *)
Fixpoint halve (remaining_targets : nat) (remaining : string) : result (list string) :=
  match remaining_targets with
  | O => Ok [remaining]
  | S n =>
      allocation ← divideDecimal remaining "2" 18;
      remaining' ← subtractDecimal remaining allocation;
      rest ← halve n remaining';
      Ok (allocation :: rest)
  end.

Definition adaptiveTargetAllocations (targetCount : Z) : result (list string) :=
  if negb (isSafeInteger targetCount) || (targetCount <? 1) || (targetCount >? 20)
  then risk_error "INVALID_TARGET_COUNT" "Adaptive target count must be between one and twenty."
  else halve (Z.to_nat (targetCount - 1)) "100".

Definition resolveTargetAllocations (strategy : StrategyConfiguration) (targetCount : Z) : result (list string) :=
  let allocations := sx_targetAllocationsPercent (st_exits strategy) in
  match sx_targetAllocationMode (st_exits strategy) with
  | adaptive_halving => adaptiveTargetAllocations targetCount
  | manual =>
      if negb (Z.of_nat (length allocations) =? targetCount)
      then risk_error "TARGET_COUNT_MISMATCH"
             ("Strategy defines " +:+ show (Z.of_nat (length allocations)) +:+ " exits but the signal contains "
              +:+ show targetCount +:+ " targets.")
      else Ok allocations
  end.

Definition resolveDailyLossLimit (safety : StrategySafety) (accountEquity : string) : result string :=
  match default absolute (sf_maxDailyLossMode safety) with
  | absolute => Ok (sf_maxDailyLoss safety)
  | equity_percent => product ← multiplyDecimal accountEquity (sf_maxDailyLoss safety); divideDecimal product "100" 18
  end.

(** ** Plans *)
Record TradingPlan := mkPlan {
  pl_version : Z;
  pl_symbol : string;
  pl_side : TradingSide;
  pl_entryPrice : string;
  pl_entryPriceBoundary : option TradingEntryPriceBoundary;
  pl_stopPrice : string;
  pl_quantity : string;
  pl_notional : string;
  pl_riskAmount : string;
  pl_fxSizing : option TradingFxSizingContext;
  pl_leverage : Z;
  pl_leverageDecision : option LeverageDecision;
  pl_leverageTierDecision : option TradingLeverageTierDecision;
  pl_entryTimeoutSeconds : Z;
  pl_entryOrderTtlSeconds : Z;
  pl_entryExpiresAt : option Z;
  pl_maxSlippagePercent : string;
  pl_quantityStep : string;
  pl_targetAllocationMode : TargetAllocationMode;
  pl_targetAllocationsPercent : list string;
  pl_stopLossMode : StopLossMode;
  pl_orders : list PlannedOrder;
  pl_createdAt : Z }.

Inductive StopReason := stop_initial | stop_break_even_after_target | stop_target_ladder_after_target | stop_final_target_complete.

Record AdaptiveStopLossDecision := mkStopDecision {
  sd_trigger : string;
  sd_reason : StopReason;
  sd_referenceTargetIndex : option Z }.

Definition breakEvenStopPrice (side : TradingSide) (averageEntryPrice priceTick : string) : result string :=
  match side with
  | LONG => quantizeDecimalUp averageEntryPrice priceTick
  | SHORT => quantizeDecimalDown averageEntryPrice priceTick
  end.

(** [Number(order.targetIndex)]: [null] is 0. *)
Definition target_key (o : PlannedOrder) : Z := default 0 (po_targetIndex o).

Definition adaptiveStopLossDecision (plan : TradingPlan) (filledTargets : Z) (breakEvenPrice : string)
    : result AdaptiveStopLossDecision :=
  let takeProfits := sort_by target_key (filter (λ o, po_role o = role_take_profit) (pl_orders plan)) in
  let count := Z.of_nat (length takeProfits) in
  let finalTargetComplete := filledTargets >=? count in
  let managedTargetCount := if finalTargetComplete then Z.max 0 (count - 1) else filledTargets in
  if managedTargetCount <=? 0 then
    Ok (mkStopDecision (pl_stopPrice plan) (if finalTargetComplete then stop_final_target_complete else stop_initial) None)
  else
    let referenceTargetIndex := managedTargetCount - 2 in
    if referenceTargetIndex <=? 0 then
      Ok (mkStopDecision breakEvenPrice
            (if finalTargetComplete then stop_final_target_complete else stop_break_even_after_target) None)
    else
      match list_find (λ o, po_targetIndex o = Some referenceTargetIndex) takeProfits with
      | Some (_, reference) =>
          match truthy (po_price reference) with
          | Some price =>
              Ok (mkStopDecision price
                    (if finalTargetComplete then stop_final_target_complete else stop_target_ladder_after_target)
                    (if finalTargetComplete then None else Some referenceTargetIndex))
          | None => risk_error "MISSING_REFERENCE_TARGET" "Adaptive stop reference target is missing."
          end
      | None => risk_error "MISSING_REFERENCE_TARGET" "Adaptive stop reference target is missing."
      end.

Record TradingPlanInput := mkPlanInput {
  pi_intentId : string;
  pi_signal : ExecutableSignal;
  pi_strategy : StrategyConfiguration;
  pi_account : TradingAccountSnapshot;
  pi_market : TradingMarketSnapshot;
  pi_fxConversion : option StoredFxConversion;
  pi_effectiveRiskPercent : option string;
  pi_entryOriginAt : option Z;
  pi_entryExpiresAt : option Z;
  pi_entryPriceBoundary : option TradingEntryPriceBoundary;
  pi_now : option Z }.

Section Planning.
Context (sha256 : string → string) (clock : Z).

Definition planEntryTiming (input : TradingPlanInput) : result (Z * Z) :=
  let createdAt := default clock (pi_now input) in
  let originAt := default createdAt (pi_entryOriginAt input) in
  expires ← resolveEntryExpiresAt originAt (sf_entryOrderTtlSeconds (st_safety (pi_strategy input))) (pi_entryExpiresAt input);
  Ok (createdAt, expires).

Definition role_text (r : OrderRole) : string :=
  match r with role_entry => "entry" | role_take_profit => "take_profit" | role_stop_loss => "stop_loss" | role_flatten => "flatten" end.

Definition clientOrderId (intentId : string) (role : OrderRole) (index : Z) : string :=
  "0x" +:+ of_chars (take 32 (chars (sha256 (intentId +:+ ":" +:+ role_text role +:+ ":" +:+ show index)))).

(** The take-profit order of target [index] (from 0). *)
Definition takeProfitOrder (intentId : string) (signal : ExecutableSignal) (market : TradingMarketSnapshot)
    (closingSide : TradingOrderSide) (index : Z) (target : DecimalRange) (quantity : string) : result PlannedOrder :=
  mid ← midpointDecimal (range_min target) (range_max target);
  price ← match sig_action signal with
          | LONG => quantizeDecimalDown mid (mk_priceTick market)
          | SHORT => quantizeDecimalUp mid (mk_priceTick market)
          end;
  Ok (mkOrder (clientOrderId intentId role_take_profit (index + 1)) role_take_profit closingSide type_limit false quantity
        (Some price) None true false (Some (index + 1))).

Fixpoint takeProfitOrders (intentId : string) (signal : ExecutableSignal) (market : TradingMarketSnapshot)
    (closingSide : TradingOrderSide) (index : Z) (targets : list DecimalRange) (quantities : list string) : result (list PlannedOrder) :=
  match targets with
  | [] => Ok []
  | target :: targets' =>
      match quantities with
      | [] => throw "Target allocation is missing."
      | quantity :: quantities' =>
          order ← takeProfitOrder intentId signal market closingSide index target quantity;
          orders ← takeProfitOrders intentId signal market closingSide (index + 1) targets' quantities';
          Ok (order :: orders)
      end
  end.

Definition plannedOrders (input : TradingPlanInput) (entry stop quantity : string) (targetAllocations : list string)
    (boundary : option TradingEntryPriceBoundary) : result (list PlannedOrder) :=
  let signal := pi_signal input in
  let openingSide := opening_side (sig_action signal) in
  let closingSide := opposite openingSide in
  let market_entry := is_market signal (pi_strategy input) in
  targets ← allocateTargetQuantities quantity targetAllocations (mk_quantityStep (pi_market input));
  let entryOrder := mkOrder (clientOrderId (pi_intentId input) role_entry 0) role_entry openingSide
    (match boundary with Some _ => type_limit | None => if market_entry then type_market else type_limit end)
    (match boundary with Some _ => true | None => false end) quantity
    (match boundary with Some b => Some (eb_limitPrice b) | None => if market_entry then None else Some entry end)
    None false (negb market_entry && se_postOnly (st_entry (pi_strategy input))) None in
  let stopOrder := mkOrder (clientOrderId (pi_intentId input) role_stop_loss 0) role_stop_loss closingSide type_stop_market false
    quantity None (Some stop) true false None in
  takeProfits ← takeProfitOrders (pi_intentId input) signal (pi_market input) closingSide 0 (sig_targets signal) targets;
  Ok (entryOrder :: stopOrder :: takeProfits).

Definition configuredPlanRisk (input : TradingPlanInput) : result string :=
  let sizing := st_sizing (pi_strategy input) in
  let adaptiveCeiling := default (ss_riskPerTradePercent sizing) (ss_maxAdaptiveRiskPercent sizing) in
  selectedRisk ← match truthy (pi_effectiveRiskPercent input) with
                 | Some risk => d ← decimal risk true (Some "10"); minDecimal [d; adaptiveCeiling]
                 | None => Ok (ss_riskPerTradePercent sizing)
                 end;
  match sizing_mode (pi_strategy input), truthy (sig_suggestedRiskPercent (pi_signal input)) with
  | risk_percent, Some suggested => minDecimal [selectedRisk; suggested]
  | _, _ => Ok selectedRisk
  end.

Definition fx_input (input : TradingPlanInput) (entry percent distance : string) (leverage : Z) : FxQuantityInput :=
  mkFxQuantity (pi_account input) (pi_market input) (pi_strategy input) (pi_fxConversion input) entry distance percent leverage.

Definition riskShare (account : TradingAccountSnapshot) (percent : string) : result string :=
  product ← multiplyDecimal (as_equity account) percent; divideDecimal product "100" 18.

Definition quantityForPlan (input : TradingPlanInput) (entry riskPercent distance : string) (leverage : Z) : result string :=
  match pi_fxConversion input with
  | Some _ => fxSizedQuantity sha256 clock (fx_input input entry riskPercent distance leverage)
  | None =>
      let maxNotional := ss_maxPositionNotional (st_sizing (pi_strategy input)) in
      match ss_positionSizingMode (st_sizing (pi_strategy input)) with
      | Some equity_percent_notional =>
          equityPercentPositionQuantity (pi_account input) (pi_market input) entry riskPercent maxNotional leverage
      | Some equity_percent_margin =>
          equityPercentMarginQuantity (pi_account input) (pi_market input) entry riskPercent maxNotional leverage
      | _ =>
          riskAmount ← riskShare (pi_account input) riskPercent;
          positionQuantity (pi_account input) (pi_market input) entry riskAmount distance maxNotional leverage
      end
  end.

Definition originalNotionalBudget (input : TradingPlanInput) (capital : string) (leverage : Z) : result string :=
  let maxNotional := ss_maxPositionNotional (st_sizing (pi_strategy input)) in
  sized ← match ss_positionSizingMode (st_sizing (pi_strategy input)) with
          | Some equity_percent_margin => multiplyDecimal capital (show leverage)
          | Some equity_percent_notional => Ok capital
          | _ => Ok maxNotional
          end;
  power ← multiplyDecimal (as_availableBalance (pi_account input)) (show leverage);
  minDecimal [maxNotional; power; sized].

Record PlanSizing := mkSizing {
  sz_quantity : string;
  sz_leverage : Z;
  sz_leverageDecision : LeverageDecision;
  sz_riskAmount : string;
  sz_fxSizing : option TradingFxSizingContext;
  sz_leverageTierDecision : option TradingLeverageTierDecision }.

Definition solvePlanSizing (input : TradingPlanInput) (price distance limitPrice : string) : result PlanSizing :=
  let market := pi_market input in
  fxSizing ← fxSizingContext sha256 clock (pi_account input) market (pi_strategy input) (pi_fxConversion input);
  configuredRisk ← configuredPlanRisk input;
  let decision := resolveLeverageDecision (pi_signal input) (pi_strategy input) market in
  configuredRiskAmount ← riskShare (pi_account input) configuredRisk;
  sizingPrice ← match mk_leverageTiers market with
                | Some _ => higherPrice (mk_markPrice market) limitPrice
                | None => Ok price
                end;
  let quantityAtLeverage := quantityForPlan input sizingPrice configuredRisk distance in
  solved ← match mk_leverageTiers market with
           | Some tiers => solveTierQuantity (te_tiers tiers) (te_markPrice tiers) quantityAtLeverage (te_contractSize tiers)
                             (ld_effective decision)
           | None => quantity ← quantityAtLeverage (ld_effective decision); Ok (mkSolution (ld_effective decision) quantity 0)
           end;
  let leverage := so_leverage solved in
  maximumNotional ← match fxSizing with
                    | Some _ => m ← fxNotionalBudget sha256 clock (fx_input input sizingPrice configuredRisk distance leverage);
                                Ok (BudgetMoney m)
                    | None => s ← originalNotionalBudget input configuredRiskAmount leverage; Ok (BudgetText s)
                    end;
  let decision' := mkLeverageDecision (ld_requested decision) (ld_requestedSource decision) (ld_strategyMaximum decision)
    (ld_marketMaximum decision) leverage
    (if leverage <? ld_effective decision then Some cap_market else ld_cappedBy decision) in
  riskAmount ← match ss_positionSizingMode (st_sizing (pi_strategy input)) with
               | Some equity_percent_notional | Some equity_percent_margin => multiplyDecimal (so_quantity solved) distance
               | _ => Ok configuredRiskAmount
               end;
  tierDec ← match mk_leverageTiers market with
            | Some tiers => d ← tierDecision sha256 tiers solved maximumNotional; Ok (Some d)
            | None => Ok None
            end;
  Ok (mkSizing (so_quantity solved) leverage decision' riskAmount fxSizing tierDec).

Definition with_markPrice (market : TradingMarketSnapshot) (p : string) : TradingMarketSnapshot :=
  mkMarket (mk_symbol market) p (mk_priceTick market) (mk_quantityStep market) (mk_minimumQuantity market)
    (mk_minimumNotional market) (mk_maxLeverage market) (mk_observedAt market) (mk_accounting market) (mk_leverageTiers market).

Definition createTradingPlan (input : TradingPlanInput) : result TradingPlan :=
  let signal := pi_signal input in let strategy := pi_strategy input in let market := pi_market input in
  _ ← assertStrategyAllows signal strategy;
  targetAllocations ← resolveTargetAllocations strategy (Z.of_nat (length (sig_targets signal)));
  boundary ← planPriceBoundary signal strategy market (pi_entryPriceBoundary input);
  let pricingMarket := match boundary with Some b => with_markPrice market (eb_referencePrice b) | None => market end in
  price ← quantizedEntryPrice signal strategy pricingMarket;
  stop ← quantizedStopPrice signal market;
  let limitPrice := match boundary with Some b => eb_limitPrice b | None => price end in
  distance ← riskDistance (sig_action signal) stop limitPrice;
  sizing ← solvePlanSizing input price distance limitPrice;
  let quantity := sz_quantity sizing in
  notional ← multiplyDecimal quantity price;
  orders ← plannedOrders input price stop quantity targetAllocations boundary;
  '(createdAt, expires) ← planEntryTiming input;
  Ok (mkPlan 1 (sig_symbol signal) (sig_action signal) price boundary stop quantity notional (sz_riskAmount sizing)
        (sz_fxSizing sizing) (sz_leverage sizing) (Some (sz_leverageDecision sizing)) (sz_leverageTierDecision sizing)
        (se_timeoutSeconds (st_entry strategy)) (sf_entryOrderTtlSeconds (st_safety strategy)) (Some expires)
        (sf_maxSlippagePercent (st_safety strategy)) (mk_quantityStep market)
        (sx_targetAllocationMode (st_exits strategy)) targetAllocations (sx_stopLossMode (st_exits strategy)) orders createdAt).
End Planning.

(** ** Quantised prices *)
Lemma priceQuantum_spec v a : units (trim v) = Some a → 0 < a → priceQuantum v = Ok a.
Proof.
  intros Ha Hp. unfold priceQuantum. rewrite (decimal_pos_spec _ _ Ha Hp). cbn [mbind result_bind].
  by rewrite padded_units_dec by lia.
Qed.

Lemma priceQuantum_dec a : 0 < a < LIMIT → priceQuantum (dec a) = Ok a.
Proof. intros Ha. apply priceQuantum_spec; [|lia]. rewrite trim_dec by lia. apply units_dec_lt. lia. Qed.

Lemma formatPriceQuantum_inv z s : 0 <= z → formatPriceQuantum z = Ok s → 0 < z < LIMIT ∧ s = dec z.
Proof.
  intros Hz H. unfold formatPriceQuantum in H.
  rewrite padStart_to_digits, length_app, length_fixed, Nat.add_sub, take_app_length, drop_app_length in H by done.
  fold (point_chars 18 z) in H. apply decimal_inv in H as (a & Ha & -> & Hab & Hp & _).
  rewrite trim_id in Ha by (rewrite chars_of_chars; by apply point_no_space).
  rewrite units_point in Ha by lia. destruct (z / 10 ^ Z.of_nat 18 <? 10 ^ 36) eqn:E; [|done].
  change (18 - Z.of_nat 18) with 0 in Ha. rewrite Z.mul_1_r in Ha. injection Ha as ->. split; [|done].
  specialize (Hp eq_refl). lia.
Qed.

Lemma quantizeDecimalUp_inv v i s : quantizeDecimalUp v i = Ok s →
  ∃ a b k, units v = Some a ∧ units i = Some b ∧ 0 < b ∧ s = dec (k * b) ∧ (k - 1) * b < a <= k * b.
Proof.
  unfold quantizeDecimalUp. intros H. apply bind_Ok in H as (dn & Hd & H). apply bind_Ok in H as (c & Hc & H).
  apply quantizeDecimalDown_inv in Hd as (a & b & Ha & Hb & Hp & _ & ->).
  assert (0 <= a / b * b) as Hnn by dec_nonneg.
  apply compareDecimal_inv in Hc as (x & y & Hx & Hy & ->). apply units_dec_Some in Hx as [-> _]; [|done].
  rewrite Ha in Hy. injection Hy as <-. pose proof (Z.mul_div_le a b Hp). pose proof (Z.mul_succ_div_gt a b Hp).
  destruct (cmpZ_spec (a / b * b) a) as (_ & _ & E). rewrite E in H. destruct (Z.eqb_spec (a / b * b) a).
  - injection H as <-. exists a, b, (a / b). split_and!; (done || lia).
  - apply addDecimal_inv in H as (x & y & Hx & Hy & ->). apply units_dec_Some in Hx as [-> _]; [|done].
    rewrite Hb in Hy. injection Hy as <-. exists a, b, (a / b + 1). split_and!; try done; try lia. f_equal. lia.
Qed.

(** *** The entry price boundary *)
Lemma units_five : units "5" = Some (5 * ONE).
Proof. vm_compute. reflexivity. Qed.

(** The limit lies on the tick grid, next to [r * factor / hundred]. *)
Definition boundary_limit (side : TradingSide) (r t s l : Z) : Prop :=
  ∃ k, l = k * t ∧
    match side with
    | LONG => l * (100 * ONE) <= r * (100 * ONE + s) < (l + t) * (100 * ONE)
    | SHORT => (l - t) * (100 * ONE) < r * (100 * ONE - s) <= l * (100 * ONE)
    end.

Lemma createEntryPriceBoundary_inv side rs ts ss b : createEntryPriceBoundary side rs ts ss = Ok b →
  ∃ r t s l, units (trim rs) = Some r ∧ units (trim ts) = Some t ∧ units (trim ss) = Some s ∧
    0 < r < LIMIT ∧ 0 < t < LIMIT ∧ 0 < s <= 5 * ONE ∧ 0 < l < LIMIT ∧
    b = mkBoundary 1 (dec r) (dec s) (dec t) (dec l) ∧ boundary_limit side r t s l.
Proof.
  unfold createEntryPriceBoundary. rewrite ONE_ten. intros H. pose proof ONE_pos as H1.
  apply bind_Ok in H as (rp & Hr & H). apply bind_Ok in H as (tp & Ht & H). apply bind_Ok in H as (sp & Hs & H).
  apply decimal_inv in Hr as (r & Hr & -> & Hrb & Hrp & _). apply decimal_inv in Ht as (t & Ht & -> & Htb & Htp & _).
  apply decimal_inv in Hs as (s & Hs & -> & Hsb & Hsp & Hmx). specialize (Hmx _ _ eq_refl units_five ltac:(done)).
  specialize (Hrp eq_refl). specialize (Htp eq_refl). specialize (Hsp eq_refl).
  rewrite !priceQuantum_dec in H by lia. cbn [mbind result_bind] in H. apply bind_Ok in H as (lp & Hl & H). injection H as <-.
  assert (0 < 100 * ONE * t) by nia.
  exists r, t, s. destruct side.
  - rewrite Z.quot_div_nonneg in Hl by nia. set (n := r * (100 * ONE + s)) in *.
    pose proof (Z.mul_div_le n (100 * ONE * t) ltac:(done)). pose proof (Z.mul_succ_div_gt n (100 * ONE * t) ltac:(done)).
    assert (0 <= n / (100 * ONE * t)) by (apply Z.div_pos; nia). set (k := n / (100 * ONE * t)) in *. clearbody k.
    apply formatPriceQuantum_inv in Hl as [Hl ->]; [|nia]. exists (k * t). split_and!; try done; try lia.
    exists k. split; [done|]. nia.
  - rewrite Z.quot_div_nonneg in Hl by nia. set (n := r * (100 * ONE - s)) in *.
    pose proof (Z.mul_div_le (n + 100 * ONE * t - 1) (100 * ONE * t) ltac:(done)).
    pose proof (Z.mul_succ_div_gt (n + 100 * ONE * t - 1) (100 * ONE * t) ltac:(done)).
    assert (0 <= n) by nia. assert (0 <= (n + 100 * ONE * t - 1) / (100 * ONE * t)) by (apply Z.div_pos; lia).
    set (k := (n + 100 * ONE * t - 1) / (100 * ONE * t)) in *. clearbody k.
    apply formatPriceQuantum_inv in Hl as [Hl ->]; [|nia]. exists (k * t). split_and!; try done; try lia.
    exists k. split; [done|]. nia.
Qed.

(** ** Native sizing *)
Lemma check_minima_inv who q e market s : check_minima who q e market = Ok s →
  s = q ∧ ∃ z en mq mn, units q = Some z ∧ units e = Some en ∧ units (mk_minimumQuantity market) = Some mq ∧ mq <= z ∧
    units (mk_minimumNotional market) = Some mn ∧ mn <= z * en / ONE.
Proof.
  unfold check_minima. intros H. apply bind_Ok in H as (c & Hc & H). destruct (Z.ltb_spec c 0) as [|Hc0]; [done|].
  apply bind_Ok in H as (n & Hn & H). apply bind_Ok in H as (c' & Hc' & H). destruct (Z.ltb_spec c' 0) as [|Hc'0]; [done|].
  injection H as <-. split; [done|].
  apply compareDecimal_inv in Hc as (z & mq & Hz & Hmq & ->). apply multiplyDecimal_inv in Hn as (z' & en & Hz' & Hen & ->).
  rewrite Hz in Hz'. injection Hz' as <-. assert (0 <= z * en / ONE) by dec_nonneg.
  apply compareDecimal_inv in Hc' as (x & mn & Hx & Hmn & ->). apply units_dec_Some in Hx as [-> _]; [|done].
  exists z, en, mq, mn. split_and!; try done.
  - destruct (cmpZ_cases z mq) as [[? E]|[[? E]|[? E]]]; lia.
  - destruct (cmpZ_cases (z * en / ONE) mn) as [[? E]|[[? E]|[? E]]]; lia.
Qed.

Lemma divideDecimal_18_inv l r s : divideDecimal l r 18 = Ok s →
  ∃ a b, units l = Some a ∧ units r = Some b ∧ 0 < b ∧ s = dec (a * ONE / b) ∧ 0 <= a * ONE / b ∧ a * ONE / b * b <= a * ONE.
Proof.
  intros H. apply divideDecimal_inv in H as (a & b & Ha & Hb & Hp & _ & ->). exists a, b.
  change (10 ^ (18 - 18)) with 1. rewrite Z.mul_1_r, ONE_ten.
  pose proof (Z.mul_div_le (a * ONE) b Hp). split_and!; try done; [dec_nonneg|lia].
Qed.

Lemma multiplyDecimal_le l r s : multiplyDecimal l r = Ok s →
  ∃ a b, units l = Some a ∧ units r = Some b ∧ s = dec (a * b / ONE) ∧ 0 <= a * b / ONE ∧ a * b / ONE * ONE <= a * b.
Proof.
  intros H. apply multiplyDecimal_inv in H as (a & b & Ha & Hb & ->). exists a, b. pose proof ONE_pos.
  pose proof (Z.mul_div_le (a * b) ONE ltac:(done)). split_and!; try done; [dec_nonneg|lia].
Qed.

Lemma units_hundred : units "100" = Some (100 * ONE).
Proof. vm_compute. reflexivity. Qed.

(** A share of equity, rounded down. *)
Lemma riskShare_inv account p s : riskShare account p = Ok s →
  ∃ eq pc z, units (as_equity account) = Some eq ∧ units p = Some pc ∧ s = dec z ∧ 0 <= z ∧ 100 * ONE * z <= eq * pc.
Proof.
  unfold riskShare. intros H. apply bind_Ok in H as (pr & Hp & H).
  apply multiplyDecimal_le in Hp as (eq & pc & Heq & Hpc & -> & H0 & Hle).
  apply divideDecimal_18_inv in H as (a & b & Ha & Hb & _ & -> & Hz & Hd). apply units_dec_Some in Ha as [-> _]; [|done].
  rewrite units_hundred in Hb. assert (b = 100 * ONE) as -> by congruence. clear Hb. pose proof ONE_pos.
  exists eq, pc, (eq * pc / ONE * ONE / (100 * ONE)). split_and!; try done. lia.
Qed.

Lemma show_units n a : units (show n) = Some a → 0 <= n → a = n * ONE.
Proof.
  intros H Hn. assert (units (show n) = units (dec (n * ONE))) as E.
  { rewrite dec_integer by done. unfold show, show_chars. by rewrite (proj2 (Z.ltb_ge _ _) Hn). }
  rewrite E in H. apply units_dec_Some in H as [-> _]; [done|]. pose proof ONE_pos. nia.
Qed.

Lemma show_units_nonneg n a : units (show n) = Some a → 0 <= n.
Proof.
  intros H. pose proof (units_no_minus _ _ H) as Hm. rewrite starts_minus_show in Hm. lia.
Qed.

(** [z] units of quantity fit the market at price [e]: on the step grid and at
    least the exchange minima. *)
Definition tradable (market : TradingMarketSnapshot) (z e : Z) : Prop :=
  ∃ step k mq mn, units (mk_quantityStep market) = Some step ∧ 0 < step ∧ z = k * step ∧
    units (mk_minimumQuantity market) = Some mq ∧ mq <= z ∧ units (mk_minimumNotional market) = Some mn ∧ mn <= z * e / ONE.

Lemma sized_tail m market who e q :
  (quantity ← quantizeDecimalDown m (mk_quantityStep market); check_minima who quantity e market) = Ok q →
  ∃ mz z en, units m = Some mz ∧ units q = Some z ∧ units e = Some en ∧ 0 <= z <= mz ∧ tradable market z en.
Proof.
  intros H. apply bind_Ok in H as (q0 & Hq & H). apply check_minima_inv in H as (-> & z & en & mq & mn & Hz & Hen & Hmq & Hge & Hmn & Hn).
  apply quantizeDecimalDown_inv in Hq as (mz & st & Hm & Hst & Hp & _ & ->).
  assert (0 <= mz / st * st) by dec_nonneg. apply units_dec_Some in Hz as [-> Hl]; [|done].
  exists mz, (mz / st * st), en. rewrite units_dec_lt by lia. pose proof (Z.mul_div_le mz st Hp).
  split_and!; try done; [lia|]. by exists st, (mz / st), mq, mn.
Qed.

Lemma buying_power_inv b leverage s : multiplyDecimal b (show leverage) = Ok s →
  ∃ a, units b = Some a ∧ 0 <= leverage ∧ s = dec (a * leverage) ∧ 0 <= a * leverage.
Proof.
  intros H. apply multiplyDecimal_inv in H as (a & l & Ha & Hl & ->). pose proof (show_units_nonneg _ _ Hl).
  apply show_units in Hl as ->; [|done]. exists a. pose proof ONE_pos. units_bound_hyps.
  replace (a * (leverage * ONE)) with (a * leverage * ONE) by lia. rewrite Z.div_mul by lia. split_and!; try done. nia.
Qed.

(** The notional and the leveraged balance bound the quantity at price [e]. *)
Lemma below_quotient z a e : 0 <= z → 0 < e → z <= a * ONE / e → z * e <= a * ONE.
Proof. intros Hz He H. pose proof (Z.mul_div_le (a * ONE) e He). nia. Qed.

Section Native.
Context (account : TradingAccountSnapshot) (market : TradingMarketSnapshot) (entry maxNotional q : string) (leverage : Z).

(** What every native sizing guarantees about the quantity. *)
Definition native_caps (z e : Z) : Prop :=
  ∃ mx bal, units maxNotional = Some mx ∧ units (as_availableBalance account) = Some bal ∧
    z * e <= mx * ONE ∧ z * e <= bal * leverage * ONE ∧ tradable market z e.

Lemma positionQuantity_inv riskAmount distance :
  positionQuantity account market entry riskAmount distance maxNotional leverage = Ok q →
  ∃ z e ra d, units q = Some z ∧ units entry = Some e ∧ native_caps z e ∧
    units riskAmount = Some ra ∧ units distance = Some d ∧ z * d <= ra * ONE.
Proof using Type.
  unfold positionQuantity. intros H. apply bind_Ok in H as (br & Hbr & H). apply bind_Ok in H as (bn & Hbn & H).
  apply bind_Ok in H as (bp & Hbp & H). apply bind_Ok in H as (bb & Hbb & H). apply bind_Ok in H as (m & Hm & H).
  apply sized_tail in H as (mz & z & e & Hmz & Hz & He & Hle & Htr).
  apply divideDecimal_18_inv in Hbr as (ra & d & Hra & Hd & Hdp & -> & B1 & _).
  apply divideDecimal_18_inv in Hbn as (mx & e1 & Hmx & He1 & Hep & -> & B2 & _).
  apply buying_power_inv in Hbp as (bal & Hbal & Hl & -> & Hbl).
  apply divideDecimal_18_inv in Hbb as (pw & e2 & Hpw & He2 & _ & -> & B3 & _).
  rewrite He in He1, He2. injection He1 as <-. injection He2 as <-. apply units_dec_Some in Hpw as [-> _]; [|done].
  apply min3_inv in Hm as (a & b & c & Ha & Hb & Hc & Hs). apply units_dec_Some in Ha as [-> _]; [|done].
  apply units_dec_Some in Hb as [-> _]; [|done]. apply units_dec_Some in Hc as [-> _]; [|done].
  rewrite Hmz in Hs. injection Hs as ->. exists z, e, ra, d. split_and!; try done.
  - exists mx, bal. split_and!; try done; apply below_quotient; lia.
  - apply below_quotient; lia.
Qed.

Lemma equityPercentPositionQuantity_inv pct :
  equityPercentPositionQuantity account market entry pct maxNotional leverage = Ok q →
  ∃ z e eq pc, units q = Some z ∧ units entry = Some e ∧ native_caps z e ∧
    units (as_equity account) = Some eq ∧ units pct = Some pc ∧ 100 * z * e <= eq * pc.
Proof using Type.
  unfold equityPercentPositionQuantity. intros H. apply bind_Ok in H as (pr & Hpr & H). apply bind_Ok in H as (pn & Hpn & H).
  assert (riskShare account pct = Ok pn) as Hsh by (unfold riskShare; rewrite Hpr; done).
  apply riskShare_inv in Hsh as (eq & pc & sh & Heq & Hpc & -> & Hsh0 & Hshle).
  apply bind_Ok in H as (bp & Hbp & H). apply bind_Ok in H as (al & Hal & H). apply bind_Ok in H as (bn & Hbn & H).
  apply sized_tail in H as (mz & z & e & Hmz & Hz & He & Hle & Htr).
  apply buying_power_inv in Hbp as (bal & Hbal & Hl & -> & Hbl).
  apply divideDecimal_18_inv in Hbn as (aa & e1 & Haa & He1 & Hep & -> & B1 & _). rewrite He in He1. injection He1 as <-.
  apply units_dec_Some in Hmz as [-> _]; [|done].
  apply min3_inv in Hal as (a & b & c & Ha & Hb & Hc & Hs). apply units_dec_Some in Ha as [-> _]; [|done].
  apply units_dec_Some in Hc as [-> _]; [|done]. rewrite Haa in Hs. injection Hs as ->.
  assert (z * e <= Z.min sh (Z.min b (bal * leverage)) * ONE) as Hze by (apply below_quotient; lia). pose proof ONE_pos.
  exists z, e, eq, pc. split_and!; try done; [|nia]. exists b, bal. split_and!; try done; nia.
Qed.

Lemma equityPercentMarginQuantity_inv pct :
  equityPercentMarginQuantity account market entry pct maxNotional leverage = Ok q →
  ∃ z e eq pc, units q = Some z ∧ units entry = Some e ∧ native_caps z e ∧
    units (as_equity account) = Some eq ∧ units pct = Some pc ∧ 100 * z * e <= eq * pc * leverage.
Proof using Type.
  unfold equityPercentMarginQuantity. intros H. apply bind_Ok in H as (pr & Hpr & H). apply bind_Ok in H as (pn & Hpn & H).
  assert (riskShare account pct = Ok pn) as Hsh by (unfold riskShare; rewrite Hpr; done).
  apply riskShare_inv in Hsh as (eq & pc & sh & Heq & Hpc & -> & Hsh0 & Hshle).
  apply bind_Ok in H as (lv & Hlv & H). apply buying_power_inv in Hlv as (sh' & Hsh' & Hl & -> & Hlv).
  apply units_dec_Some in Hsh' as [-> _]; [|done].
  apply bind_Ok in H as (bp & Hbp & H). apply bind_Ok in H as (al & Hal & H). apply bind_Ok in H as (bn & Hbn & H).
  apply sized_tail in H as (mz & z & e & Hmz & Hz & He & Hle & Htr).
  apply buying_power_inv in Hbp as (bal & Hbal & _ & -> & Hbl).
  apply divideDecimal_18_inv in Hbn as (aa & e1 & Haa & He1 & Hep & -> & B1 & _). rewrite He in He1. injection He1 as <-.
  apply units_dec_Some in Hmz as [-> _]; [|done].
  apply min3_inv in Hal as (a & b & c & Ha & Hb & Hc & Hs). apply units_dec_Some in Ha as [-> _]; [|done].
  apply units_dec_Some in Hc as [-> _]; [|done]. rewrite Haa in Hs. injection Hs as ->.
  assert (z * e <= Z.min (sh * leverage) (Z.min b (bal * leverage)) * ONE) as Hze by (apply below_quotient; lia). pose proof ONE_pos.
  exists z, e, eq, pc. split_and!; try done; [|nia]. exists b, bal. split_and!; try done; nia.
Qed.
End Native.

(** ** Targets *)
Lemma units_two : units "2" = Some (2 * ONE).
Proof. vm_compute. reflexivity. Qed.

(** A positive multiple of the step. *)
Definition on_step (step z : Z) : Prop := 0 < z ∧ ∃ k, z = k * step.

Lemma allocate_from_inv quantity step allocated allocations ts Q A :
  allocate_from quantity step allocated allocations = Ok ts → allocations ≠ [] →
  units quantity = Some Q → units allocated = Some A →
  ∃ zs, meaning ts zs ∧ length zs = length allocations ∧ A + sumZ zs = Q ∧
    (length allocations = 1%nat ∨ ∃ st, units step = Some st ∧ Forall (on_step st) (removelast zs)).
Proof.
  revert allocated A ts. induction allocations as [|al rest IH]; intros allocated A ts H Hne HQ HA; [done|].
  destruct rest as [|al2 rest].
  - cbn [allocate_from] in H. apply bind_Ok in H as (l & Hl & H). injection H as <-.
    apply subtractDecimal_inv in Hl as (a & b & Ha & Hb & Hle & ->). rewrite HQ in Ha. injection Ha as <-.
    rewrite HA in Hb. injection Hb as <-. exists [Q - A]. units_bound_hyps.
    split_and!; [|done|cbn; lia|auto]. constructor; [apply units_dec_lt; lia|constructor].
  - change (allocate_from quantity step allocated (al :: al2 :: rest)) with
      (product ← multiplyDecimal quantity al; share ← divideDecimal product "100" 18; target ← quantizeDecimalDown share step;
       c ← compareDecimal target "0";
       if c <=? 0 then risk_error "TARGET_QUANTITY_BELOW_MINIMUM" "A take-profit allocation rounds to zero."
       else allocated' ← addDecimal allocated target;
            targets ← allocate_from quantity step allocated' (al2 :: rest); Ok (target :: targets)) in H.
    apply bind_Ok in H as (pr & _ & H). apply bind_Ok in H as (sh & _ & H). apply bind_Ok in H as (t & Ht & H).
    apply bind_Ok in H as (c & Hc & H). destruct (Z.leb_spec c 0) as [|Hcp]; [done|].
    apply bind_Ok in H as (al' & Hal & H). apply bind_Ok in H as (ts' & Hts & H). injection H as <-.
    apply quantizeDecimalDown_inv in Ht as (sv & st & Hsv & Hst & Hsp & _ & ->). set (z := sv / st * st) in *.
    assert (0 <= z) by (unfold z; dec_nonneg).
    apply compareDecimal_inv in Hc as (x & y & Hx & Hy & ->). pose proof Hx as [-> Hlt]%units_dec_Some; [|done].
    rewrite units_zero in Hy. injection Hy as <-.
    assert (0 < z) by (destruct (cmpZ_cases z 0) as [[? E]|[[? E]|[? E]]]; lia).
    apply addDecimal_inv in Hal as (a & b & Ha & Hb & ->). rewrite HA in Ha. injection Ha as <-.
    rewrite Hx in Hb. injection Hb as <-.
    assert (units (dec (A + z)) = Some (A + z)) as HA'.
    { destruct rest; cbn [allocate_from] in Hts.
      - apply bind_Ok in Hts as (l & Hl & _). apply subtractDecimal_inv in Hl as (? & b & _ & Hb & _).
        units_bound_hyps. by apply units_dec_Some in Hb as Hb'; [destruct Hb' as [-> _]|lia].
      - apply bind_Ok in Hts as (? & _ & Hts). apply bind_Ok in Hts as (? & _ & Hts). apply bind_Ok in Hts as (? & _ & Hts).
        apply bind_Ok in Hts as (? & _ & Hts). destruct (_ <=? 0); [done|]. apply bind_Ok in Hts as (al3 & Hal3 & _).
        apply addDecimal_inv in Hal3 as (a & ? & Ha & _). units_bound_hyps. by apply units_dec_Some in Ha as Ha'; [destruct Ha' as [-> _]|lia]. }
    destruct (IH _ _ _ Hts ltac:(done) HQ HA') as (zs & Hm & Hlen & Hsum & Hst').
    exists (z :: zs). split_and!; [by constructor|cbn; by rewrite Hlen|cbn [sumZ]; lia|]. right. exists st. split; [done|].
    destruct zs as [|z2 zs]; [done|]. change (removelast (z :: z2 :: zs)) with (z :: removelast (z2 :: zs)).
    constructor; [split; [done|by eexists]|]. destruct Hst' as [?|(st' & Hst' & Hall)].
    + destruct zs; [constructor|cbn in *; lia].
    + rewrite Hst in Hst'. by injection Hst' as <-.
Qed.

Lemma halve_spec n r R : units r = Some R → ∃ l zs, halve n r = Ok l ∧ meaning l zs ∧ sumZ zs = R ∧ length l = S n.
Proof.
  revert r R. induction n as [|n IH]; intros r R HR; cbn [halve].
  - exists [r], [R]. split_and!; [done|by repeat constructor|cbn; lia|done].
  - pose proof ONE_pos. units_bound_hyps.
    rewrite (divideDecimal_spec _ _ R (2 * ONE)) by (try done; try apply units_two; lia). change (10 ^ (18 - 18)) with 1.
    rewrite Z.mul_1_r, ONE_ten, Z.div_mul_cancel_r by lia. cbn [mbind result_bind].
    pose proof (Z.div_mod R 2 ltac:(lia)). pose proof (Z.mod_pos_bound R 2 ltac:(lia)).
    rewrite (subtractDecimal_spec _ _ R (R / 2)) by (try done; apply units_dec_lt; lia).
    destruct (Z.gtb_spec (R / 2) R); [lia|]. cbn [mbind result_bind].
    destruct (IH (dec (R - R / 2)) (R - R / 2)) as (l & zs & Hl & Hm & Hs & Hlen); [apply units_dec_lt; lia|].
    rewrite Hl. cbn [mbind result_bind]. exists (dec (R / 2) :: l), (R / 2 :: zs).
    split_and!; [done|constructor; [apply units_dec_lt; lia|done]|cbn [sumZ]; lia|cbn; by rewrite Hlen].
Qed.

(** ** Orders *)
Section Orders.
Context (sha256 : string → string) (intentId : string) (signal : ExecutableSignal) (market : TradingMarketSnapshot).
Context (closingSide : TradingOrderSide).

(** The take-profit order of target [i]. *)
Definition take_profit_ok (i : Z) (o : PlannedOrder) : Prop :=
  po_role o = role_take_profit ∧ po_side o = closingSide ∧ po_orderType o = type_limit ∧ po_reduceOnly o = true ∧
  po_targetIndex o = Some i ∧ po_clientOrderId o = clientOrderId sha256 intentId role_take_profit i ∧
  ∃ z, po_price o = Some (dec z) ∧ 0 <= z.

Lemma takeProfitOrders_inv index targets quantities orders :
  takeProfitOrders sha256 intentId signal market closingSide index targets quantities = Ok orders →
  length orders = length targets ∧ (length targets <= length quantities)%nat ∧
  map po_quantity orders = take (length targets) quantities ∧
  ∀ n o, orders !! n = Some o → take_profit_ok (index + 1 + Z.of_nat n) o.
Proof using Type.
  revert index quantities orders. induction targets as [|t targets IH]; intros index quantities orders H; cbn [takeProfitOrders] in H.
  { injection H as <-. split_and!; try done. cbn; lia. }
  destruct quantities as [|q quantities]; [done|]. apply bind_Ok in H as (o & Ho & H). apply bind_Ok in H as (os & Hos & H).
  injection H as <-. apply IH in Hos as (Hlen & Hle & Hq & Hall). unfold takeProfitOrder in Ho.
  apply bind_Ok in Ho as (mid & _ & Ho). apply bind_Ok in Ho as (p & Hp & Ho). injection Ho as <-.
  assert (∃ z, p = dec z ∧ 0 <= z) as (z & -> & Hz).
  { destruct (sig_action signal).
    - apply quantizeDecimalDown_inv in Hp as (a & b & Ha & Hb & Hbp & _ & ->). eexists. split; [reflexivity|dec_nonneg].
    - apply quantizeDecimalUp_inv in Hp as (a & b & k & Ha & Hb & Hbp & -> & Hk). eexists. split; [reflexivity|].
      units_bound_hyps. lia. }
  split_and!; [cbn; by rewrite Hlen|cbn; lia|cbn; by rewrite Hq|].
  intros [|n] o' Hn.
  - injection Hn as <-. unfold take_profit_ok. cbn [po_role po_side po_orderType po_reduceOnly po_targetIndex po_clientOrderId po_price].
    replace (index + 1 + Z.of_nat 0) with (index + 1) by lia. split_and!; try done. by exists z.
  - specialize (Hall n o' Hn). replace (index + 1 + Z.of_nat (S n)) with (index + 1 + 1 + Z.of_nat n) by lia. done.
Qed.
End Orders.

(** ** The plan *)
Section PlanParts.
Context (sha256 : string → string) (clock : Z) (input : TradingPlanInput).

Lemma planPriceBoundary_inv given b :
  planPriceBoundary (pi_signal input) (pi_strategy input) (pi_market input) given = Ok b →
  match b with
  | None => is_market (pi_signal input) (pi_strategy input) = false
  | Some b => is_market (pi_signal input) (pi_strategy input) = true ∧
      assertBoundaryContract b (sig_action (pi_signal input)) (sf_maxSlippagePercent (st_safety (pi_strategy input))) = Ok tt
  end.
Proof using Type.
  unfold planPriceBoundary. destruct (is_market _ _); cbn [negb].
  - intros H. apply bind_Ok in H as (bd & _ & H). apply bind_Ok in H as ([] & Hc & H). apply bind_Ok in H as (t & _ & H).
    destruct (negb _); [done|]. injection H as <-. done.
  - destruct given; [done|]. by intros [= <-].
Qed.

(** Sizing returns the quantity that the chosen leverage allows, never raising it. *)
Lemma solvePlanSizing_inv price distance limit sz : solvePlanSizing sha256 clock input price distance limit = Ok sz →
  1 <= ld_effective (resolveLeverageDecision (pi_signal input) (pi_strategy input) (pi_market input)) ∨
    mk_leverageTiers (pi_market input) = None →
  ∃ pct ra sizingPrice q, configuredPlanRisk input = Ok pct ∧ riskShare (pi_account input) pct = Ok ra ∧
    quantityForPlan sha256 clock input sizingPrice pct distance (sz_leverage sz) = Ok q ∧
    units (trim q) = units (sz_quantity sz) ∧ is_Some (units (trim q)) ∧
    sz_leverage sz <= ld_effective (resolveLeverageDecision (pi_signal input) (pi_strategy input) (pi_market input)) ∧
    match mk_leverageTiers (pi_market input) with
    | None => sizingPrice = price
    | Some te => higherPrice (mk_markPrice (pi_market input)) limit = Ok sizingPrice ∧
        ∃ n t, te_tiers te !! n = Some t ∧ sz_leverage sz <= lt_maxLeverage t
    end.
Proof using Type.
  unfold solvePlanSizing. intros H Heff. apply bind_Ok in H as (fx & _ & H). apply bind_Ok in H as (pct & Hpct & H).
  apply bind_Ok in H as (ra & Hra & H). apply bind_Ok in H as (sp & Hsp & H). apply bind_Ok in H as (so & Hso & H).
  apply bind_Ok in H as (mx & _ & H). apply bind_Ok in H as (rk & _ & H). apply bind_Ok in H as (td & _ & H). injection H as <-.
  cbn [sz_leverage sz_quantity]. exists pct, ra, sp.
  set (eff := ld_effective (resolveLeverageDecision (pi_signal input) (pi_strategy input) (pi_market input))) in *. clearbody eff.
  destruct (mk_leverageTiers (pi_market input)) as [te|].
  - destruct Heff as [Heff|]; [|done]. unfold solveTierQuantity in Hso. apply bind_Ok in Hso as ([] & Hv & Hso).
    apply validateTierTable_inv in Hv as [Hok Hne]. apply bind_Ok in Hso as (? & _ & Hso). apply bind_Ok in Hso as (? & _ & Hso).
    destruct (te_tiers te) as [|first rest] eqn:Et; [done|]. destruct (tiers_max _ _ _ first Hok ltac:(left)).
    apply solveTier_loop_sound in Hso as [Hl (q & a & b & t & Hq & Ha & Hap & Hqd & _ & _ & _ & Hn & _ & Hmax)]; [|done|done|lia].
    exists q. rewrite Hqd, Ha. units_bound_hyps. rewrite units_dec_lt by lia. split_and!; try done; [lia|]. by exists (Z.to_nat (so_tierIndex so)), t.
  - apply bind_Ok in Hso as (q & Hq & Hso). injection Hso as <-. injection Hsp as <-. cbn [so_leverage so_quantity]. exists q.
    assert (∃ a, units q = Some a) as [a Ha]; [|rewrite (units_trim _ _ Ha), Ha; split_and!; done || lia].
    unfold quantityForPlan in Hq. destruct (pi_fxConversion input).
    { apply fxSizedQuantity_inv in Hq as (? & ? & ? & ? & ? & z & ? & ? & ? & ? & Hq). exists z. apply Hq. }
    destruct (ss_positionSizingMode _) as [[]|].
    2: { apply equityPercentPositionQuantity_inv in Hq as (z & ? & ? & ? & Hq & _). by exists z. }
    2: { apply equityPercentMarginQuantity_inv in Hq as (z & ? & ? & ? & Hq & _). by exists z. }
    all: apply bind_Ok in Hq as (r & _ & Hq); apply positionQuantity_inv in Hq as (z & ? & ? & ? & Hq & _); by exists z.
Qed.

(** The parts of a created plan. *)
Lemma createTradingPlan_inv plan : createTradingPlan sha256 clock input = Ok plan →
  ∃ allocations price distance sz limit,
    assertStrategyAllows (pi_signal input) (pi_strategy input) = Ok tt ∧
    resolveTargetAllocations (pi_strategy input) (Z.of_nat (length (sig_targets (pi_signal input)))) = Ok allocations ∧
    planPriceBoundary (pi_signal input) (pi_strategy input) (pi_market input) (pi_entryPriceBoundary input) = Ok (pl_entryPriceBoundary plan) ∧
    limit = match pl_entryPriceBoundary plan with Some b => eb_limitPrice b | None => pl_entryPrice plan end ∧
    price = pl_entryPrice plan ∧
    riskDistance (sig_action (pi_signal input)) (pl_stopPrice plan) limit = Ok distance ∧
    solvePlanSizing sha256 clock input price distance limit = Ok sz ∧
    pl_quantity plan = sz_quantity sz ∧ pl_leverage plan = sz_leverage sz ∧ pl_side plan = sig_action (pi_signal input) ∧
    pl_maxSlippagePercent plan = sf_maxSlippagePercent (st_safety (pi_strategy input)) ∧
    plannedOrders sha256 input price (pl_stopPrice plan) (sz_quantity sz) allocations (pl_entryPriceBoundary plan) = Ok (pl_orders plan) ∧
    ∃ expires, planEntryTiming clock input = Ok (pl_createdAt plan, expires) ∧ pl_entryExpiresAt plan = Some expires.
Proof using Type.
  unfold createTradingPlan. intros H. apply bind_Ok in H as ([] & Hallow & H). apply bind_Ok in H as (al & Hal & H).
  apply bind_Ok in H as (b & Hb & H). apply bind_Ok in H as (price & Hp & H). apply bind_Ok in H as (stop & Hs & H).
  apply bind_Ok in H as (dist & Hd & H). apply bind_Ok in H as (sz & Hsz & H). apply bind_Ok in H as (no & Hno & H).
  apply bind_Ok in H as (os & Hos & H). apply bind_Ok in H as ([cr ex] & Hti & H). injection H as <-.
  cbn [pl_entryPriceBoundary pl_entryPrice pl_stopPrice pl_quantity pl_leverage pl_side pl_maxSlippagePercent pl_orders pl_createdAt pl_entryExpiresAt].
  exists al, price, dist, sz. eexists. split_and!; try done. by exists ex.
Qed.
End PlanParts.

Lemma riskDistance_inv side stop limit s : riskDistance side stop limit = Ok s →
  ∃ st l d, units stop = Some st ∧ units limit = Some l ∧ s = dec d ∧ 0 < d ∧
    match side with LONG => d = l - st | SHORT => d = st - l end.
Proof.
  unfold riskDistance. intros H. apply bind_Ok in H as (c & Hc & H). apply compareDecimal_inv in Hc as (st & l & Hs & Hl & ->).
  exists st, l. rewrite Z.geb_leb in H. destruct side.
  - destruct (Z.leb_spec 0 (cmpZ st l)); [done|]. apply subtractDecimal_inv in H as (a & b & Ha & Hb & Hle & ->).
    rewrite Hl in Ha. rewrite Hs in Hb. injection Ha as <-. injection Hb as <-. exists (l - st). split_and!; try done.
    destruct (cmpZ_cases st l) as [[? E]|[[? E]|[? E]]]; lia.
  - destruct (Z.leb_spec (cmpZ st l) 0); [done|]. apply subtractDecimal_inv in H as (a & b & Ha & Hb & Hle & ->).
    rewrite Hs in Ha. rewrite Hl in Hb. injection Ha as <-. injection Hb as <-. exists (st - l). split_and!; try done.
    destruct (cmpZ_cases st l) as [[? E]|[[? E]|[? E]]]; lia.
Qed.

Lemma resolveTargetAllocations_length strategy n l : resolveTargetAllocations strategy n = Ok l → 0 <= n → Z.of_nat (length l) = n.
Proof.
  unfold resolveTargetAllocations. intros H Hn. destruct (sx_targetAllocationMode _).
  - destruct (Z.eqb_spec (Z.of_nat (length (sx_targetAllocationsPercent (st_exits strategy)))) n); [|done]. by injection H as <-.
  - unfold adaptiveTargetAllocations in H. destruct (_ || _ || _) eqn:E; [done|].
    rewrite !orb_false_iff, Z.ltb_ge, Z.gtb_ltb in E.
    destruct (halve_spec (Z.to_nat (n - 1)) "100" (100 * ONE) units_hundred) as (l' & zs & Hl & _ & _ & Hlen).
    rewrite Hl in H. injection H as <-. lia.
Qed.

(** ** Properties *)

(** The entry price boundary is the outermost tick price within the allowed
    slippage: a LONG limit is the largest tick multiple not above
    [reference * (100 + slippage) / 100], a SHORT limit the smallest not below
    [reference * (100 - slippage) / 100], computed without rounding. *)
Theorem entry_boundary_within_slippage side rs ts ss b : createEntryPriceBoundary side rs ts ss = Ok b →
  ∃ r t s l k, units (trim rs) = Some r ∧ units (trim ts) = Some t ∧ units (trim ss) = Some s ∧ s <= 5 * ONE ∧
    units (eb_limitPrice b) = Some l ∧ 0 < l ∧ l = k * t ∧
    match side with
    | LONG => l * (100 * ONE) <= r * (100 * ONE + s) < (l + t) * (100 * ONE)
    | SHORT => (l - t) * (100 * ONE) < r * (100 * ONE - s) <= l * (100 * ONE)
    end.
Proof.
  intros H. apply createEntryPriceBoundary_inv in H as (r & t & s & l & Hr & Ht & Hs & _ & _ & Hsb & Hl & -> & k & Hk & Hm).
  exists r, t, s, l, k. cbn [eb_limitPrice]. rewrite units_dec_lt by lia. split_and!; (done || lia).
Qed.

(** The percentage a plan is sized by: the adaptive percentage (at most 10)
    under the adaptive ceiling, or the configured one, and for risk sizing
    under the percentage the signal suggests. *)
Definition percent_in_force (input : TradingPlanInput) (pc : Z) : Prop :=
  let sizing := st_sizing (pi_strategy input) in
  ∃ base,
    match truthy (pi_effectiveRiskPercent input) with
    | Some risk => ∃ a c, units (trim risk) = Some a ∧ 0 < a <= 10 * ONE ∧
        units (default (ss_riskPerTradePercent sizing) (ss_maxAdaptiveRiskPercent sizing)) = Some c ∧ base = Z.min a c
    | None => units (ss_riskPerTradePercent sizing) = Some base
    end ∧
    match sizing_mode (pi_strategy input), truthy (sig_suggestedRiskPercent (pi_signal input)) with
    | risk_percent, Some suggested => ∃ b, units suggested = Some b ∧ pc = Z.min base b
    | _, _ => pc = base
    end.

Lemma configuredPlanRisk_in_force input pct pc : configuredPlanRisk input = Ok pct → units pct = Some pc → percent_in_force input pc.
Proof.
  unfold configuredPlanRisk, percent_in_force. intros H Hpc. apply bind_Ok in H as (sel & Hsel & H).
  assert (∃ base, units sel = Some base ∧
    match truthy (pi_effectiveRiskPercent input) with
    | Some risk => ∃ a c, units (trim risk) = Some a ∧ 0 < a <= 10 * ONE ∧
        units (default (ss_riskPerTradePercent (st_sizing (pi_strategy input))) (ss_maxAdaptiveRiskPercent (st_sizing (pi_strategy input)))) = Some c ∧
        base = Z.min a c
    | None => units (ss_riskPerTradePercent (st_sizing (pi_strategy input))) = Some base
    end ∨ units sel = None ∧ truthy (pi_effectiveRiskPercent input) = None ∧ sel = ss_riskPerTradePercent (st_sizing (pi_strategy input)))
    as (base & Hbase).
  { destruct (truthy (pi_effectiveRiskPercent input)) as [risk|].
    - apply bind_Ok in Hsel as (d & Hd & Hsel). apply decimal_inv in Hd as (a & Ha & -> & Hb & Hpos & Hmax).
      apply min2_inv in Hsel as (a' & c & Ha' & Hc & Hm & _). apply units_dec_Some in Ha' as [-> _]; [|lia].
      exists (Z.min a c). left. split; [done|]. exists a, c. split_and!; try done; [by apply Hpos|].
      by apply (Hmax "10" (10 * ONE)).
    - injection Hsel as <-. destruct (units (ss_riskPerTradePercent _)) eqn:E; [by eexists; left|exists 0; by right]. }
  destruct (sizing_mode (pi_strategy input)) eqn:Em, (truthy (sig_suggestedRiskPercent (pi_signal input))) as [suggested|].
  1: { apply min2_inv in H as (x & y & Hx & Hy & Hm & _). rewrite Hm in Hpc. injection Hpc as <-.
       destruct Hbase as [[Hb Hd]|(? & _)]; [|congruence]. rewrite Hb in Hx. injection Hx as <-. exists base. split; [done|]. by exists y. }
  all: injection H as <-; destruct Hbase as [[Hb Hd]|(? & _)]; [|congruence]; assert (pc = base) as -> by congruence; by exists base.
Qed.

(** The price a native quantity is sized at: the entry price, and with
    leverage tiers the higher of the mark price and the entry limit. *)
Definition sizing_price (input : TradingPlanInput) (plan : TradingPlan) (limit e : Z) : Prop :=
  match mk_leverageTiers (pi_market input) with
  | None => units (pl_entryPrice plan) = Some e
  | Some _ => ∃ m, units (mk_markPrice (pi_market input)) = Some m ∧ e = Z.max m limit
  end.

(** C1: a native plan cannot lose or commit more than configured.  For a
    signal sized without a currency conversion and an effective leverage of at
    least one: with the percentage [pc] in force and the equity [eq], the
    quantity [z] satisfies, at full precision: for risk sizing, loss at the
    stop within [eq * pc / 100] (distance measured from the worst admissible
    entry price); for notional and margin sizing, notional within that share
    (times leverage).  In every mode the notional at the sizing price [e] (the
    entry price, or with leverage tiers the higher of mark price and entry
    limit) stays within the strategy maximum and the leveraged balance, on
    the step grid and above the exchange minima. *)
Theorem plan_size_bounded sha256 clock input plan : createTradingPlan sha256 clock input = Ok plan →
  pi_fxConversion input = None →
  1 <= ld_effective (resolveLeverageDecision (pi_signal input) (pi_strategy input) (pi_market input)) →
  ∃ pc eq z e d limit st l, percent_in_force input pc ∧
    units (as_equity (pi_account input)) = Some eq ∧ units (pl_quantity plan) = Some z ∧
    limit = match pl_entryPriceBoundary plan with Some b => eb_limitPrice b | None => pl_entryPrice plan end ∧
    units (pl_stopPrice plan) = Some st ∧ units limit = Some l ∧
    match pl_side plan with LONG => d = l - st | SHORT => d = st - l end ∧ 0 < d ∧
    sizing_price input plan l e ∧
    native_caps (pi_account input) (pi_market input) (ss_maxPositionNotional (st_sizing (pi_strategy input))) (pl_leverage plan) z e ∧
    match ss_positionSizingMode (st_sizing (pi_strategy input)) with
    | Some equity_percent_notional => 100 * z * e <= eq * pc
    | Some equity_percent_margin => 100 * z * e <= eq * pc * pl_leverage plan
    | _ => 100 * z * d <= eq * pc
    end.
Proof.
  intros H Hfx Heff. apply createTradingPlan_inv in H as
    (al & price & dist & sz & limit & _ & _ & _ & Hlim & Hprice & Hd & Hsz & Hq & Hlev & Hside & _ & _ & _).
  destruct (solvePlanSizing_inv _ _ _ _ _ _ _ Hsz (or_introl Heff)) as (pct & ra & sp & q & Hpct & Hra & Hqp & Hu & [z Hz] & _ & Hsp).
  rewrite Hz in Hu. symmetry in Hu. destruct (riskDistance_inv _ _ _ _ Hd) as (st & l & d & Hst & Hl & -> & Hdp & Hdd).
  apply riskShare_inv in Hra as (eq & pc & rs & Heq & Hpc & _ & _ & _).
  assert (∀ z', units q = Some z' → z' = z) as Hqz by (intros z' E; rewrite (units_trim _ _ E) in Hz; congruence).
  assert (∀ e, units sp = Some e → sizing_price input plan l e) as Hspe.
  { intros e He. unfold sizing_price. destruct (mk_leverageTiers (pi_market input)); [|by rewrite <-Hprice, <-Hsp].
    destruct Hsp as [Hh _]. apply higherPrice_inv in Hh as (m & l' & Hm & Hl' & Hmx & _). exists m. split; [done|]. congruence. }
  exists pc, eq, z. rewrite Hq, Hlev, Hside. unfold quantityForPlan in Hqp. rewrite Hfx in Hqp.
  pose proof (configuredPlanRisk_in_force _ _ _ Hpct Hpc) as Hforce.
  destruct (ss_positionSizingMode _) as [[]|].
  2: { apply equityPercentPositionQuantity_inv in Hqp as (z' & e & eq' & pc' & Hz' & He & Hcaps & Heq' & Hpc' & Hle).
       rewrite (Hqz _ Hz') in *. exists e, d, limit, st, l. split_and!; try done; [by apply Hspe|congruence]. }
  2: { apply equityPercentMarginQuantity_inv in Hqp as (z' & e & eq' & pc' & Hz' & He & Hcaps & Heq' & Hpc' & Hle).
       rewrite (Hqz _ Hz') in *. exists e, d, limit, st, l. split_and!; try done; [by apply Hspe|congruence]. }
  all: apply bind_Ok in Hqp as (r & Hr & Hqp); apply riskShare_inv in Hr as (eq' & pc' & ra' & Heq' & Hpc' & -> & Hra0 & Hrale).
  all: apply positionQuantity_inv in Hqp as (z' & e & ra2 & d' & Hz' & He & Hcaps & Hra2 & Hd' & Hle).
  all: rewrite (Hqz _ Hz') in *; apply units_dec_Some in Hra2 as [-> _]; [|done]; apply units_dec_Some in Hd' as [-> _]; [|lia].
  all: assert (eq' = eq) as -> by congruence; assert (pc' = pc) as -> by congruence.
  all: exists e, d, limit, st, l; split_and!; try done; [by apply Hspe|lia].
Qed.

(** A LONG range signal on a market with leverage tiers. *)
Definition signal_example : ExecutableSignal :=
  mkSignal "standard" LONG "BTCUSDT" (RangeEntry (mkRange "99" "101"))
    [mkRange "110" "110"; mkRange "120" "121"] "95" (Some 25) None None.

Definition tier_evidence_example : TradingLeverageTierEvidence :=
  mkTierEvidence 1 "paper" "BTCUSDT" "BTCUSDT" "a" "paper" "paper" "paper-v1" "s" "USDT" "1" "100" 0 10000
    (Some (mkTierScope true "0" 0)) tiers_example.

Definition native_market : TradingMarketSnapshot :=
  mkMarket "BTCUSDT" "100" "0.5" "0.01" "0.01" "5" 20 0 None (Some tier_evidence_example).

Definition native_account : TradingAccountSnapshot := mkAccountSnapshot "1000" "800" "0" "0" None None None.

Definition plan_input_example : TradingPlanInput :=
  mkPlanInput "intent-1" signal_example strategy_example native_account native_market None None None None None (Some 1000000).

(** The example plan risks 2 units of quantity over a distance of 5, one percent of equity. *)
Lemma plan_size_bounded_witness : ∃ plan,
  createTradingPlan (λ s, s) 0 plan_input_example = Ok plan ∧ pl_quantity plan = "2" ∧ pl_leverage plan = 3 ∧
  ∃ pc eq z e d l, percent_in_force plan_input_example pc ∧ units "1000" = Some eq ∧
    units (pl_quantity plan) = Some z ∧ 0 < d ∧ sizing_price plan_input_example plan l e ∧ 100 * z * d <= eq * pc.
Proof.
  assert (∃ plan, createTradingPlan (λ s, s) 0 plan_input_example = Ok plan ∧ pl_quantity plan = "2" ∧ pl_leverage plan = 3)
    as (plan & H & Hq & Hl).
  { eexists. split; [vm_compute; reflexivity|]. split; vm_compute; reflexivity. }
  exists plan. split; [exact H|]. split; [exact Hq|]. split; [exact Hl|].
  assert (1 <= ld_effective (resolveLeverageDecision signal_example strategy_example native_market)) as Heff by (vm_compute; discriminate).
  destruct (plan_size_bounded _ _ _ _ H eq_refl Heff) as
    (pc & eq & z & e & d & limit & st & l & H1 & H2 & H3 & _ & _ & _ & _ & H4 & H5 & _ & H6).
  exists pc, eq, z, e, d, l. exact (conj H1 (conj H2 (conj H3 (conj H4 (conj H5 H6))))).
Defined.

(** Leverage is only ever lowered: a plan's leverage is at most what the
    signal or the strategy requests, the strategy maximum, the market maximum
    and 50, and with tiers at most the maximum of the tier its notional is in. *)
Theorem plan_leverage_capped sha256 clock input plan : createTradingPlan sha256 clock input = Ok plan →
  1 <= ld_effective (resolveLeverageDecision (pi_signal input) (pi_strategy input) (pi_market input)) →
  pl_leverage plan <= default (ss_defaultLeverage (st_sizing (pi_strategy input))) (sig_suggestedLeverage (pi_signal input)) ∧
  pl_leverage plan <= ss_maxLeverage (st_sizing (pi_strategy input)) ∧
  pl_leverage plan <= mk_maxLeverage (pi_market input) ∧ pl_leverage plan <= 50 ∧
  match mk_leverageTiers (pi_market input) with
  | None => True
  | Some te => ∃ n t, te_tiers te !! n = Some t ∧ pl_leverage plan <= lt_maxLeverage t
  end.
Proof.
  intros H Heff. apply createTradingPlan_inv in H as
    (al & price & dist & sz & limit & _ & _ & _ & _ & _ & _ & Hsz & _ & Hlev & _).
  destruct (solvePlanSizing_inv _ _ _ _ _ _ _ Hsz (or_introl Heff)) as (pct & ra & sp & q & _ & _ & _ & _ & _ & Hle & Ht).
  rewrite Hlev. cbn [resolveLeverageDecision ld_effective] in Hle. split_and!; try lia.
  destruct (mk_leverageTiers (pi_market input)); [|done]. apply Ht.
Qed.

(** Splitting a quantity over targets conserves it: one quantity per
    allocation, all but the last positive multiples of the step, and their sum
    is exactly the position quantity. *)
Theorem target_quantities_partition quantity allocations step ts Q :
  allocateTargetQuantities quantity allocations step = Ok ts → allocations ≠ [] → units quantity = Some Q →
  ∃ zs, meaning ts zs ∧ length ts = length allocations ∧ sumZ zs = Q ∧
    (length allocations = 1%nat ∨ ∃ st, units step = Some st ∧ Forall (on_step st) (removelast zs)).
Proof.
  intros H Hne HQ. destruct (allocate_from_inv _ _ _ _ _ _ _ H Hne HQ units_zero) as (zs & Hm & Hlen & Hsum & Hst).
  exists zs. split_and!; try done. by rewrite (Forall2_length _ _ _ Hm).
Qed.

(** The adaptive halving ladder exists for every target count from one to
    twenty, with one allocation per target, totalling exactly 100 percent; any
    other count is refused. *)
Theorem adaptive_allocations_total n :
  (1 <= n <= 20 → ∃ l zs, adaptiveTargetAllocations n = Ok l ∧ Z.of_nat (length l) = n ∧ meaning l zs ∧ sumZ zs = 100 * ONE) ∧
  (n < 1 ∨ 20 < n → is_ok (adaptiveTargetAllocations n) = false).
Proof.
  unfold adaptiveTargetAllocations. split; intros Hn.
  - assert (negb (isSafeInteger n) || (n <? 1) || (n >? 20) = false) as ->.
    { rewrite !orb_false_iff, negb_false_iff, isSafeInteger_true, Z.ltb_ge, Z.gtb_ltb, Z.ltb_ge. unfold MAX_SAFE_INTEGER. lia. }
    destruct (halve_spec (Z.to_nat (n - 1)) "100" (100 * ONE) units_hundred) as (l & zs & Hl & Hm & Hs & Hlen).
    exists l, zs. split_and!; try done. lia.
  - assert (negb (isSafeInteger n) || (n <? 1) || (n >? 20) = true) as ->; [|done].
    rewrite !orb_true_iff, Z.ltb_lt, Z.gtb_lt. lia.
Qed.

(** ** Orders of a created plan *)
Lemma plannedOrders_inv sha256 input price stop q allocations boundary orders Q :
  plannedOrders sha256 input price stop q allocations boundary = Ok orders →
  length allocations = length (sig_targets (pi_signal input)) → allocations ≠ [] → units q = Some Q →
  let closing := opposite (opening_side (sig_action (pi_signal input))) in
  ∃ entry stopOrder tps zs, orders = entry :: stopOrder :: tps ∧
    po_role entry = role_entry ∧ po_side entry = opening_side (sig_action (pi_signal input)) ∧ po_reduceOnly entry = false ∧
    po_quantity entry = q ∧ po_ioc entry = bool_decide (is_Some boundary) ∧
    po_orderType entry = match boundary with Some _ => type_limit
      | None => if is_market (pi_signal input) (pi_strategy input) then type_market else type_limit end ∧
    po_postOnly entry = negb (is_market (pi_signal input) (pi_strategy input)) && se_postOnly (st_entry (pi_strategy input)) ∧
    (∀ b, boundary = Some b → po_price entry = Some (eb_limitPrice b)) ∧
    po_role stopOrder = role_stop_loss ∧ po_side stopOrder = closing ∧ po_reduceOnly stopOrder = true ∧
    po_quantity stopOrder = q ∧ po_triggerPrice stopOrder = Some stop ∧
    length tps = length (sig_targets (pi_signal input)) ∧ meaning (map po_quantity tps) zs ∧ sumZ zs = Q ∧
    ∀ n o, tps !! n = Some o → take_profit_ok sha256 (pi_intentId input) closing (1 + Z.of_nat n) o.
Proof.
  intros H Hlen Hne HQ closing. unfold plannedOrders in H. apply bind_Ok in H as (ts & Hts & H). apply bind_Ok in H as (tps & Htps & H).
  apply takeProfitOrders_inv in Htps as (Hl & _ & Hq & Hall).
  destruct (allocate_from_inv _ _ _ _ _ _ _ Hts Hne HQ units_zero) as (zs & Hm & Hzl & Hsum & _).
  assert (take (length (sig_targets (pi_signal input))) ts = ts) as Etk.
  { apply take_ge. rewrite (Forall2_length _ _ _ Hm), Hzl, Hlen. done. }
  injection H as <-. eexists _, _, tps, zs. split; [reflexivity|]. cbn [po_role po_side po_reduceOnly po_quantity po_ioc po_orderType po_postOnly po_price po_triggerPrice].
  rewrite Hq, Etk. split_and!; try done. { by destruct boundary. } by intros b ->.
Qed.

(** C2: the orders of a created plan protect exactly the position it opens: one
    entry that the entry-price fence accepts, then a reduce-only stop at the
    plan's stop price for the whole quantity on the losing side of the worst
    entry price, then one reduce-only take-profit per target, numbered from 1, whose quantities
    sum to the plan quantity. *)
Theorem plan_orders_consistent sha256 clock input plan : createTradingPlan sha256 clock input = Ok plan →
  sig_targets (pi_signal input) ≠ [] →
  1 <= ld_effective (resolveLeverageDecision (pi_signal input) (pi_strategy input) (pi_market input)) →
  ∃ entry stop tps zs Q st l, pl_orders plan = entry :: stop :: tps ∧ units (pl_quantity plan) = Some Q ∧
    assertEntryPriceBoundary (pl_side plan) (pl_maxSlippagePercent plan) (pl_entryPriceBoundary plan) entry = Ok tt ∧
    po_role entry = role_entry ∧ po_side entry = opening_side (pl_side plan) ∧ po_quantity entry = pl_quantity plan ∧
    po_role stop = role_stop_loss ∧ po_side stop = opposite (opening_side (pl_side plan)) ∧ po_reduceOnly stop = true ∧
    po_quantity stop = pl_quantity plan ∧ po_triggerPrice stop = Some (pl_stopPrice plan) ∧
    units (pl_stopPrice plan) = Some st ∧
    units (match pl_entryPriceBoundary plan with Some b => eb_limitPrice b | None => pl_entryPrice plan end) = Some l ∧
    match pl_side plan with LONG => st < l | SHORT => l < st end ∧
    length tps = length (sig_targets (pi_signal input)) ∧ meaning (map po_quantity tps) zs ∧ sumZ zs = Q ∧
    ∀ n o, tps !! n = Some o → take_profit_ok sha256 (pi_intentId input) (opposite (opening_side (pl_side plan))) (1 + Z.of_nat n) o.
Proof.
  intros H Hne Heff. apply createTradingPlan_inv in H as
    (al & price & dist & sz & limit & _ & Hal & Hb & Hlim & _ & Hd & Hsz & Hq & _ & Hside & Hslip & Hos & _).
  destruct (solvePlanSizing_inv _ _ _ _ _ _ _ Hsz (or_introl Heff)) as (pct & ra & sp & q & _ & _ & _ & Hu & [Q HQ] & _ & _).
  rewrite HQ in Hu. symmetry in Hu. apply resolveTargetAllocations_length in Hal; [|lia].
  assert (length al = length (sig_targets (pi_signal input))) as Hlen by lia.
  assert (al ≠ []) as Hal0 by (intros ->; by destruct (sig_targets (pi_signal input))).
  destruct (plannedOrders_inv _ _ _ _ _ _ _ _ _ Hos Hlen Hal0 Hu) as
    (en & so & tps & zs & Eo & E1 & E2 & E3 & E4 & E5 & E6 & E7 & E8 & S1 & S2 & S3 & S4 & S5 & T1 & T2 & T3 & T4).
  destruct (riskDistance_inv _ _ _ _ Hd) as (st & l & d & Hst & Hl & _ & Hdp & Hdd).
  rewrite Hq, Hside, Hslip. exists en, so, tps, zs, Q, st, l. rewrite <-Hlim. split_and!; try done.
  - apply planPriceBoundary_inv in Hb. unfold assertEntryPriceBoundary. destruct (pl_entryPriceBoundary plan) as [b|].
    + destruct Hb as [Hm Hc]. rewrite Hc. cbn [mbind result_bind]. rewrite E1, E2, E3, E5, E6, E7, (E8 b eq_refl), Hm.
      rewrite !bool_decide_true by done. done.
    + rewrite E5, E6, Hb. done.
  - destruct (sig_action (pi_signal input)); lia.
Qed.

Lemma plan_orders_consistent_witness : ∃ plan entry stop tps zs Q,
  createTradingPlan (λ s, s) 0 plan_input_example = Ok plan ∧ pl_orders plan = entry :: stop :: tps ∧
  units (pl_quantity plan) = Some Q ∧ po_quantity stop = pl_quantity plan ∧ meaning (map po_quantity tps) zs ∧ sumZ zs = Q.
Proof.
  assert (∃ plan, createTradingPlan (λ s, s) 0 plan_input_example = Ok plan) as (plan & H)
    by (eexists; vm_compute; reflexivity).
  assert (1 <= ld_effective (resolveLeverageDecision signal_example strategy_example native_market)) as Heff by (vm_compute; discriminate).
  destruct (plan_orders_consistent _ _ _ _ H ltac:(discriminate) Heff) as
    (en & so & tps & zs & Q & _ & _ & Ho & HQ & _ & _ & _ & _ & _ & _ & _ & Hs & _ & _ & _ & _ & _ & Hm & Hsum & _).
  exists plan, en, so, tps, zs, Q. exact (conj H (conj Ho (conj HQ (conj Hs (conj Hm Hsum))))).
Defined.

Lemma dec_not_empty z : 0 <= z → dec z ≠ "".
Proof. intros Hz E. destruct (dec_first_digit z Hz) as (c & l & Hc & _). rewrite E in Hc. done. Qed.

Lemma filter_all {A} (P : A → Prop) `{∀ x, Decision (P x)} (l : list A) : (∀ n x, l !! n = Some x → P x) → filter P l = l.
Proof.
  induction l as [|x l IH]; intros Hl; [done|]. rewrite filter_cons, decide_True by (by apply (Hl 0%nat)).
  f_equal. apply IH. intros n y Hn. by apply (Hl (S n)).
Qed.

Lemma indexed_sorted {A} (key : A → Z) base (l : list A) : (∀ n x, l !! n = Some x → key x = base + Z.of_nat n) →
  StronglySorted (λ a b, key a <= key b) l.
Proof.
  revert base. induction l as [|x l IH]; intros base Hl; constructor.
  - apply (IH (base + 1)). intros n y Hn. rewrite (Hl (S n) y Hn). lia.
  - apply Forall_lookup. intros n y Hn. pose proof (Hl 0%nat x eq_refl). pose proof (Hl (S n) y Hn). lia.
Qed.

(** The take-profits of a created plan, in target order. *)
Lemma created_take_profits sha256 clock input plan : createTradingPlan sha256 clock input = Ok plan →
  ∃ tps closing, sort_by target_key (filter (λ o, po_role o = role_take_profit) (pl_orders plan)) = tps ∧
    length tps = length (sig_targets (pi_signal input)) ∧
    ∀ n o, tps !! n = Some o → take_profit_ok sha256 (pi_intentId input) closing (1 + Z.of_nat n) o.
Proof.
  intros H. apply createTradingPlan_inv in H as (al & price & dist & sz & limit & _ & _ & _ & _ & _ & _ & _ & _ & _ & _ & _ & Hos & _).
  unfold plannedOrders in Hos. apply bind_Ok in Hos as (ts & _ & Hos). apply bind_Ok in Hos as (tps & Htps & Hos).
  injection Hos as <-. apply takeProfitOrders_inv in Htps as (Hl & _ & _ & Hall). exists tps. eexists.
  rewrite !filter_cons, !decide_False by done.
  rewrite filter_all by (intros n x Hn; apply (Hall n x Hn)). rewrite sort_by_id.
  - split_and!; [done..|]. exact Hall.
  - apply (indexed_sorted _ 1). intros n x Hn. unfold target_key. destruct (Hall n x Hn) as (_ & _ & _ & _ & -> & _). cbn. lia.
Qed.

(** The adaptive stop ladder is total on created plans: whatever number of
    targets has filled, it names a trigger; the original stop before the first
    management step, the break-even price while fewer than three targets are
    managed, afterwards the price of the take-profit two targets back. *)
Theorem adaptive_stop_total sha256 clock input plan filled breakEven : createTradingPlan sha256 clock input = Ok plan →
  let n := Z.of_nat (length (sig_targets (pi_signal input))) in
  let managed := if filled >=? n then Z.max 0 (n - 1) else filled in
  ∃ d, adaptiveStopLossDecision plan filled breakEven = Ok d ∧
    if managed <=? 0 then sd_trigger d = pl_stopPrice plan
    else if managed <=? 2 then sd_trigger d = breakEven
    else ∃ o, o ∈ pl_orders plan ∧ po_role o = role_take_profit ∧ po_targetIndex o = Some (managed - 2) ∧
           po_price o = Some (sd_trigger d).
Proof.
  intros H n managed. destruct (created_take_profits _ _ _ _ H) as (tps & closing & Htps & Hlen & Hall).
  unfold adaptiveStopLossDecision. rewrite Htps, Hlen. fold n. fold managed.
  destruct (Z.leb_spec managed 0) as [|Hm]; [by eexists|].
  destruct (Z.leb_spec managed 2) as [|Hm2].
  { rewrite (proj2 (Z.leb_le _ _)) by lia. by eexists. }
  rewrite (proj2 (Z.leb_gt _ _)) by lia.
  assert (managed < n) as Hmn by (unfold managed in *; rewrite Z.geb_leb in *; destruct (Z.leb_spec n filled); lia).
  destruct (lookup_lt_is_Some_2 tps (Z.to_nat (managed - 3))) as [o Ho]; [lia|].
  destruct (Hall _ _ Ho) as (Hr & _ & _ & _ & Hi & _ & z & Hp & Hz).
  destruct (list_find (λ o, po_targetIndex o = Some (managed - 2)) tps) as [[j o']|] eqn:E.
  - apply list_find_Some in E as (Hj & Hji & _). destruct (Hall _ _ Hj) as (Hr' & _ & _ & _ & _ & _ & z' & Hp' & Hz').
    rewrite Hp'. cbn [truthy]. rewrite bool_decide_false by by apply dec_not_empty. eexists. split; [reflexivity|]. cbn [sd_trigger].
    exists o'. split_and!; try done. assert (o' ∈ tps) as Hin by by eapply list_elem_of_lookup_2.
    rewrite <-Htps, sort_by_Permutation in Hin. by apply list_elem_of_filter in Hin as [_ ?].
  - apply list_find_None in E. rewrite Forall_lookup in E. specialize (E _ _ Ho). cbn in E. exfalso. apply E. rewrite Hi. f_equal. lia.
Qed.

(** A plan's entry deadline is never extended: it is at most the origin
    plus the strategy's time to live and at most any persisted deadline, and the
    expiry fence admits exactly the times before it. *)
Theorem entry_deadline_fence origin ttl earlier deadline : resolveEntryExpiresAt origin ttl earlier = Ok deadline →
  deadline <= origin + ttl * 1000 ∧ (∀ e, earlier = Some e → deadline <= e) ∧ 10 <= ttl <= 86400 ∧ 0 < deadline ∧
  ∀ now, isSafeInteger now = true →
    assertEntryNotExpired (Some deadline) now =
      if now <? deadline then Ok tt else risk_error "ENTRY_INTENT_EXPIRED" "Original entry deadline has expired.".
Proof.
  unfold resolveEntryExpiresAt. destruct (_ || _) eqn:E; [done|].
  rewrite !orb_false_iff, !negb_false_iff, !isSafeInteger_true, Z.leb_gt, Z.ltb_ge, Z.gtb_ltb, Z.ltb_ge in E.
  destruct E as (((((? & ?) & ?) & ?) & ?) & ?). intros Hd.
  assert (deadline <= origin + ttl * 1000 ∧ (∀ e, earlier = Some e → deadline <= e) ∧ 0 < deadline ∧ deadline <= MAX_SAFE_INTEGER)
    as (? & ? & ? & ?).
  { destruct earlier as [e|].
    - destruct (negb (isSafeInteger e) || (e <=? 0)) eqn:Ee; [done|]. injection Hd as <-.
      rewrite orb_false_iff, negb_false_iff, isSafeInteger_true, Z.leb_gt in Ee. split_and!; try lia. intros e' [= <-]. lia.
    - injection Hd as <-. split_and!; try lia. done. }
  split_and!; try done; try lia. intros now Hnow. unfold assertEntryNotExpired. rewrite Hnow.
  rewrite (proj2 (isSafeInteger_true deadline)) by (unfold MAX_SAFE_INTEGER in *; lia).
  rewrite (proj2 (Z.leb_gt _ _)) by lia. cbn [negb orb]. rewrite Z.geb_leb.
  destruct (Z.leb_spec deadline now), (Z.ltb_spec now deadline); (done || lia).
Qed.
