(* ===== verification/Orders.v ===== *)
(** Orders: [src/trading_state_transitions.ts] (intent lifecycle and the merge of
    order evidence), [src/trading_ownership.ts] (the fill-ledger proof of an
    owned quantity) and the status rule of [src/trading_entry_commitment.ts].

    Evidence about an order arrives in any order and may repeat; merging it is a
    step relation on the locally known evidence, and the theorems are about
    every sequence of steps.  The functions that read rows from the database
    pass them to the pure functions modelled here. *)

From S2P Require Import Prelude Text Decimal Types.
From Stdlib Require Ascii String.
Local Open Scope Z_scope.

(** ** Intents *)
Definition INTENT_TRANSITIONS (s : TradingIntentStatus) : list TradingIntentStatus :=
  match s with
  | intent_pending => [intent_planned; intent_blocked; intent_failed; intent_unknown]
  | intent_planned => [intent_submitting; intent_blocked; intent_failed; intent_unknown]
  | intent_submitting => [intent_monitoring; intent_completed; intent_blocked; intent_failed; intent_unknown]
  | intent_monitoring => [intent_completed; intent_blocked; intent_failed; intent_unknown]
  | intent_unknown => [intent_monitoring; intent_completed; intent_blocked; intent_failed]
  | intent_completed | intent_blocked | intent_failed => []
  end.

(** [Object.hasOwn(INTENT_TRANSITIONS, text)]: the status a text names. *)
Definition intent_of (text : string) : option TradingIntentStatus :=
  if bool_decide (text = "pending") then Some intent_pending
  else if bool_decide (text = "planned") then Some intent_planned
  else if bool_decide (text = "submitting") then Some intent_submitting
  else if bool_decide (text = "monitoring") then Some intent_monitoring
  else if bool_decide (text = "unknown") then Some intent_unknown
  else if bool_decide (text = "completed") then Some intent_completed
  else if bool_decide (text = "blocked") then Some intent_blocked
  else if bool_decide (text = "failed") then Some intent_failed
  else None.

Definition canTransitionIntent (current next : string) : bool :=
  match intent_of current, intent_of next with
  | Some c, Some n => bool_decide (current = next) || bool_decide (n ∈ INTENT_TRANSITIONS c)
  | _, _ => false
  end.

(** ** Order evidence *)
Inductive LocalOrderStatus :=
| created | submitting | open | partially_filled | cancel_pending | filled | cancelled | rejected | unknown.
#[export] Instance LocalOrderStatus_eq_dec : EqDecision LocalOrderStatus.
Proof. solve_decision. Defined.

Record OrderEvidence := mkEvidence {
  ev_status : LocalOrderStatus;
  ev_filledQuantity : option string;
  ev_averagePrice : option string }.

Record LocalOrderEvidence := mkLocal {
  lo_status : LocalOrderStatus;
  lo_quantity : string;
  lo_filledQuantity : string;
  lo_averagePrice : option string }.

Definition rejectedWithExecution (current incoming : LocalOrderStatus) (fill : string) : result bool :=
  if bool_decide (current = rejected) || bool_decide (incoming = rejected)
  then c ← compareDecimal fill "0"; Ok (c >? 0) else Ok false.

Definition settledThenCurrent (current : LocalOrderStatus) : option LocalOrderStatus :=
  match current with filled | rejected => Some current | _ => None end.

Definition cancelledKeepOrTakeFilled (current incoming : LocalOrderStatus) (fill quantity : string) : result (option LocalOrderStatus) :=
  match current with
  | cancelled =>
      match incoming with
      | filled => c ← compareDecimal fill quantity; Ok (Some (if c =? 0 then filled else current))
      | _ => Ok (Some current)
      end
  | _ => Ok None
  end.

Definition heldTerminalStatus (current : LocalOrderStatus) : option LocalOrderStatus :=
  match current with cancel_pending => Some current | _ => None end.

Definition incomingTerminalStatus (incoming : LocalOrderStatus) : option LocalOrderStatus :=
  match incoming with unknown | cancel_pending => Some incoming | _ => None end.

Definition partialOrOpenFallback (current incoming : LocalOrderStatus) (fill : string) : result LocalOrderStatus :=
  c ← compareDecimal fill "0";
  if c >? 0 then Ok partially_filled
  else match incoming with
  | created | submitting => if bool_decide (current = created) then Ok incoming else Ok current
  | _ => Ok incoming
  end.

Definition heldOrPartialStatus (current incoming : LocalOrderStatus) (fill : string) : result LocalOrderStatus :=
  match heldTerminalStatus current with
  | Some s => Ok s
  | None => match incomingTerminalStatus incoming with
            | Some s => Ok s
            | None => partialOrOpenFallback current incoming fill
            end
  end.

Definition mergedIncomingStatus (current incoming : LocalOrderStatus) (fill : string) : result LocalOrderStatus :=
  match incoming with
  | filled | cancelled | rejected => Ok incoming
  | _ => heldOrPartialStatus current incoming fill
  end.

Definition mergedStatus (current incoming : LocalOrderStatus) (fill quantity : string) : result LocalOrderStatus :=
  b ← rejectedWithExecution current incoming fill;
  if (b : bool) then throw "Rejected order has conflicting execution evidence."
  else match settledThenCurrent current with
  | Some s => Ok s
  | None =>
      kept ← cancelledKeepOrTakeFilled current incoming fill quantity;
      match kept with
      | Some s => Ok s
      | None => mergedIncomingStatus current incoming fill
      end
  end.

Definition selectedFilledQuantity (previous reported : string) : result string :=
  c ← compareDecimal previous reported; Ok (if c >=? 0 then previous else reported).

Definition incomingAverageWins (incomingFilled : option string) (reported previous : string) : result bool :=
  match incomingFilled with
  | None => Ok false
  | Some _ => c ← compareDecimal reported previous; Ok (c >=? 0)
  end.

Definition positive_opt (o : option string) : result (option string) :=
  match o with None => Ok None | Some s => d ← decimal s true None; Ok (Some d) end.

(** [previous], [reported], [oldAverage], [newAverage] *)
Definition selectedAverages (current : LocalOrderEvidence) (incoming : OrderEvidence)
    : result (string * string * option string * option string) :=
  previous ← decimal (lo_filledQuantity current) false None;
  reported ← match ev_filledQuantity incoming with None => Ok previous | Some q => decimal q false None end;
  oldAverage ← positive_opt (lo_averagePrice current);
  newAverage ← positive_opt (ev_averagePrice incoming);
  Ok (previous, reported, oldAverage, newAverage).

(** The merged evidence of the order; its quantity does not change. *)
Definition mergeOrderEvidence (current : LocalOrderEvidence) (incoming : OrderEvidence) : result LocalOrderEvidence :=
  quantity ← decimal (lo_quantity current) true None;
  '(previous, reported, oldAverage, newAverage) ← selectedAverages current incoming;
  filledQuantity ← selectedFilledQuantity previous reported;
  c ← compareDecimal filledQuantity quantity;
  if c >? 0 then throw "Executed quantity exceeds order quantity."
  else
    status ← mergedStatus (lo_status current) (ev_status incoming) filledQuantity quantity;
    wins ← incomingAverageWins (ev_filledQuantity incoming) reported previous;
    Ok (mkLocal status (lo_quantity current) filledQuantity
          (if (wins : bool) then match newAverage with Some a => Some a | None => oldAverage end else oldAverage)).

(** ** Entry commitments *)
Definition TERMINAL_ORDER_STATES (s : string) : bool := bool_decide (s ∈ ["filled"; "cancelled"; "rejected"]).

Definition nonTerminalEntryReason (status : string) : string :=
  if bool_decide (status = "created") then "ENTRY_DISPATCH_INTENT"
  else if bool_decide (status = "open") || bool_decide (status = "partially_filled") then "ENTRY_CAN_FILL"
  else "ENTRY_OUTCOME_UNRESOLVED".

Definition entryCommitmentReason (status : string) (unresolvedOperation : bool) : option string :=
  if unresolvedOperation then Some "ENTRY_OPERATION_UNRESOLVED"
  else if TERMINAL_ORDER_STATES status then None
  else Some (nonTerminalEntryReason status).

(** ** Ownership *)
Record OwnershipOrder := mkOwnOrder {
  oo_id : string; oo_role : string; oo_side : string; oo_reduce_only : Z; oo_quantity : string; oo_filled_quantity : string }.
Record OwnershipFill := mkOwnFill { of_order_id : string; of_quantity : string }.
Record OwnershipProof := mkOwnership { ow_entryQuantity : string; ow_exitQuantity : string; ow_netQuantity : string }.

Definition ownership_error {A} (c m : string) : result A :=
  throw_code c ("Ownership proof failed (" +:+ c +:+ "): " +:+ m).

Definition expectedOrderSide (role : string) (side : TradingSide) : string * Z :=
  let entrySide := match side with LONG => "buy" | SHORT => "sell" end in
  let exitSide := match side with LONG => "sell" | SHORT => "buy" end in
  if bool_decide (role = "entry") then (entrySide, 0) else (exitSide, 1).

Definition side_name (s : TradingSide) : string := match s with LONG => "LONG" | SHORT => "SHORT" end.

Definition assertOrderSemantics (order : OwnershipOrder) (side : TradingSide) : result unit :=
  let '(expectedSide, expectedReduceOnly) := expectedOrderSide (oo_role order) side in
  if negb (bool_decide (oo_side order = expectedSide)) || negb (oo_reduce_only order =? expectedReduceOnly)
  then ownership_error "ORDER_SEMANTICS" ("Order " +:+ oo_id order +:+ " cannot prove an owned " +:+ side_name side +:+ " execution.")
  else Ok tt.

(** The [totals] map after the fills. *)
Fixpoint fillTotals (ids : gset string) (fills : list OwnershipFill) (totals : gmap string string) : result (gmap string string) :=
  match fills with
  | [] => Ok totals
  | fill :: rest =>
      if negb (bool_decide (of_order_id fill ∈ ids)) then ownership_error "UNMAPPED_FILL" "A fill has no managed order."
      else
        q ← decimal (of_quantity fill) true None;
        total ← addDecimal (default "0" (totals !! of_order_id fill)) q;
        fillTotals ids rest (<[of_order_id fill := total]> totals)
  end.

Fixpoint ownedQuantities (side : TradingSide) (totals : gmap string string) (orders : list OwnershipOrder)
    (entryQuantity exitQuantity : string) : result (string * string) :=
  match orders with
  | [] => Ok (entryQuantity, exitQuantity)
  | order :: rest =>
      _ ← assertOrderSemantics order side;
      let executed := default "0" (totals !! oo_id order) in
      q ← decimal (oo_quantity order) true None;
      c ← compareDecimal executed q;
      if c >? 0 then ownership_error "ORDER_OVERFILLED" ("Fill sum exceeds order " +:+ oo_id order +:+ " quantity.")
      else
        f ← decimal (oo_filled_quantity order) false None;
        c' ← compareDecimal executed f;
        if negb (c' =? 0) then
          ownership_error "CUMULATIVE_EXECUTION_MISMATCH"
            ("Fill ledger and cumulative execution disagree for order " +:+ oo_id order +:+ ".")
        else if bool_decide (oo_role order = "entry") then
          entryQuantity' ← addDecimal entryQuantity executed;
          ownedQuantities side totals rest entryQuantity' exitQuantity
        else
          exitQuantity' ← addDecimal exitQuantity executed;
          ownedQuantities side totals rest entryQuantity exitQuantity'
  end.

Definition proveOwnedQuantity (orders : list OwnershipOrder) (fills : list OwnershipFill) (side : TradingSide) : result OwnershipProof :=
  totals ← fillTotals (list_to_set (map oo_id orders)) fills ∅;
  '(entryQuantity, exitQuantity) ← ownedQuantities side totals orders "0" "0";
  c ← compareDecimal exitQuantity entryQuantity;
  if c >? 0 then ownership_error "EXITS_EXCEED_ENTRIES" "Owned exits exceed owned entries."
  else net ← subtractDecimal entryQuantity exitQuantity; Ok (mkOwnership entryQuantity exitQuantity net).

(** [position.providerSymbol] against the markets of the executed entries. *)
Definition assertPositionNamespace (providerSymbol : option string) (executedEntrySymbols : list (option string)) : result unit :=
  let mismatch : result unit := ownership_error "POSITION_NAMESPACE_MISMATCH"
    "Remote position market is not the exact market of every owned entry execution." in
  match providerSymbol with
  | None => mismatch
  | Some p =>
      if bool_decide (p = "") || bool_decide (executedEntrySymbols = [])
         || existsb (λ s, negb (bool_decide (s = Some p))) executedEntrySymbols
      then mismatch else Ok tt
  end.

(** *** The account check, over the ownership proof and remote positions of each local *)
Record LocalPosition := mkLocalPosition { lp_intent_id : string; lp_symbol : string; lp_side : TradingSide }.
Record RemotePosition := mkRemotePosition {
  rp_symbol : string; rp_providerSymbol : option string; rp_side : TradingSide; rp_quantity : string }.

Section AccountOwnership.
(** What [loadOwnershipProof] and the executed-entry query read from the database. *)
Context (loadOwnershipProof : string → TradingSide → result OwnershipProof).
Context (executedEntrySymbols : string → list (option string)).

Fixpoint assertAccountOwnership (symbols : gset string) (locals : list LocalPosition) (positions : list RemotePosition) : result unit :=
  match locals with
  | [] => Ok tt
  | local :: rest =>
      if bool_decide (lp_symbol local ∈ symbols)
      then ownership_error "AMBIGUOUS_LOCAL_OWNERSHIP" "Multiple local positions claim the same symbol."
      else
        let remote := filter (λ p, rp_symbol p = lp_symbol local) positions in
        if (1 <? length remote)%nat
        then ownership_error "AMBIGUOUS_REMOTE_POSITION" "Multiple remote positions use one canonical symbol."
        else
          proof ← loadOwnershipProof (lp_intent_id local) (lp_side local);
          _ ← match remote with
              | [] =>
                  c ← compareDecimal (ow_netQuantity proof) "0";
                  if c >? 0 then ownership_error "REMOTE_POSITION_ABSENT"
                    ("Remote position " +:+ lp_symbol local +:+ " is absent without terminal fill proof.") else Ok tt
              | r :: _ =>
                  let mismatch : result unit := ownership_error "REMOTE_QUANTITY_MISMATCH"
                    ("Remote " +:+ lp_symbol local +:+ " quantity does not equal the proved owned quantity.") in
                  if negb (bool_decide (rp_side r = lp_side local)) then mismatch
                  else
                    c ← compareDecimal (rp_quantity r) (ow_netQuantity proof);
                    if negb (c =? 0) then mismatch
                    else assertPositionNamespace (rp_providerSymbol r) (executedEntrySymbols (lp_intent_id local))
              end;
          assertAccountOwnership ({[ lp_symbol local ]} ∪ symbols) rest positions
  end.
End AccountOwnership.

(** ** Merged statuses *)
Section Merged.
Context (fill quantity : string) (f q : Z).
Context (Hf : units fill = Some f) (Hq : units quantity = Some q).

Lemma compare_zero : compareDecimal fill "0" = Ok (cmpZ f 0).
Proof using Hf. apply compareDecimal_spec; [done|apply units_zero]. Qed.
Lemma compare_quantity : compareDecimal fill quantity = Ok (cmpZ f q).
Proof using Hf Hq. by apply compareDecimal_spec. Qed.

(** Which statuses can follow which. *)
Definition status_follows (current s : LocalOrderStatus) : Prop :=
  match current with
  | filled => s = filled
  | rejected => s = rejected
  | cancelled => s = cancelled ∨ (s = filled ∧ f = q)
  | cancel_pending => s = cancel_pending ∨ s = filled ∨ s = cancelled ∨ s = rejected
  | created => True
  | _ => s ≠ created
  end ∧ (s = rejected → f = 0).

Ltac merged_case H :=
  unfold mergedStatus, rejectedWithExecution, cancelledKeepOrTakeFilled, mergedIncomingStatus, heldOrPartialStatus,
    partialOrOpenFallback in *;
  rewrite ?compare_zero, ?compare_quantity in *;
  destruct (cmpZ_spec f 0) as (_ & Egt & _); destruct (cmpZ_spec f q) as (_ & _ & Eeq);
  rewrite ?Egt, ?Eeq in *.

Lemma mergedStatus_follows current incoming s : mergedStatus current incoming fill quantity = Ok s → status_follows current s.
Proof using Hf Hq.
  intros H. pose proof (units_nonneg _ _ Hf). merged_case H. unfold status_follows.
  destruct current, incoming; cbn in H; rewrite ?compare_zero, ?compare_quantity in H; cbn in H; rewrite ?Egt, ?Eeq in H;
    destruct (Z.ltb_spec 0 f); try discriminate H; try (destruct (Z.eqb_spec f q)); injection H as <-;
    split; try done; try (intros; discriminate); try (intros _; lia); auto.
Qed.

Lemma mergedStatus_idempotent current incoming s :
  mergedStatus current incoming fill quantity = Ok s → mergedStatus s incoming fill quantity = Ok s.
Proof using Hf Hq.
  intros H. merged_case H.
  destruct current, incoming; cbn in H |- *; rewrite ?compare_zero, ?compare_quantity in *; cbn in H |- *; rewrite ?Egt, ?Eeq in *;
    destruct (0 <? f) eqn:E0; try discriminate H; try (destruct (f =? q) eqn:Eq); injection H as <-;
    cbn; rewrite ?compare_zero, ?compare_quantity; cbn; rewrite ?Egt, ?Eeq, ?E0, ?Eq; done.
Qed.
End Merged.

(** ** Merged evidence *)
Lemma decimal_dec a pos : 0 <= a < LIMIT → (pos = true → 0 < a) → decimal (dec a) pos None = Ok (dec a).
Proof.
  intros Ha Hp. assert (units (trim (dec a)) = Some a) as Hu by (rewrite trim_dec by lia; by apply units_dec_lt).
  destruct pos; [apply decimal_pos_spec; [done|by apply Hp]|by apply decimal_spec].
Qed.

Lemma positive_opt_idem o o' : positive_opt o = Ok o' → positive_opt o' = Ok o'.
Proof.
  destruct o as [s|]; cbn; [|by intros [= <-]]. intros H. apply bind_Ok in H as (d & Hd & H). injection H as <-.
  apply decimal_inv in Hd as (a & _ & -> & Ha & Hp & _). cbn. by rewrite decimal_dec.
Qed.

(** What the merge of [incoming] into [current] says about executed quantities. *)
Lemma mergeOrderEvidence_inv current incoming next : mergeOrderEvidence current incoming = Ok next →
  ∃ q p r old new, units (trim (lo_quantity current)) = Some q ∧ 0 < q ∧
    units (trim (lo_filledQuantity current)) = Some p ∧
    match ev_filledQuantity incoming with None => r = p | Some s => units (trim s) = Some r end ∧
    positive_opt (lo_averagePrice current) = Ok old ∧ positive_opt (ev_averagePrice incoming) = Ok new ∧
    lo_quantity next = lo_quantity current ∧ lo_filledQuantity next = dec (Z.max p r) ∧ 0 <= p ∧ Z.max p r <= q < LIMIT ∧
    mergedStatus (lo_status current) (ev_status incoming) (dec (Z.max p r)) (dec q) = Ok (lo_status next) ∧
    lo_averagePrice next = (if bool_decide (is_Some (ev_filledQuantity incoming)) && (p <=? r)
                            then match new with Some a => Some a | None => old end else old).
Proof.
  unfold mergeOrderEvidence, selectedAverages. intros H. apply bind_Ok in H as (qd & Hq & H).
  apply bind_Ok in H as ([[[pv rp] old] new] & Hs & H). apply bind_Ok in Hs as (pd & Hp & Hs).
  apply bind_Ok in Hs as (rd & Hr & Hs). apply bind_Ok in Hs as (o & Ho & Hs). apply bind_Ok in Hs as (n & Hn & Hs).
  injection Hs as <- <- <- <-. apply decimal_inv in Hq as (q & Hq & -> & Hqb & Hqp & _). specialize (Hqp eq_refl).
  apply decimal_inv in Hp as (p & Hp & -> & Hpb & _).
  assert (∃ r, 0 <= r < LIMIT ∧ rd = dec r ∧ match ev_filledQuantity incoming with None => r = p | Some s => units (trim s) = Some r end)
    as (r & Hrb & -> & Hri).
  { destruct (ev_filledQuantity incoming); [|injection Hr as <-; by exists p].
    apply decimal_inv in Hr as (r & Hr & -> & Hrb & _). by exists r. }
  apply bind_Ok in H as (fl & Hfl & H). unfold selectedFilledQuantity in Hfl.
  rewrite (compareDecimal_spec _ _ p r) in Hfl by by apply units_dec_lt. cbn [mbind result_bind] in Hfl. injection Hfl as <-.
  assert ((if cmpZ p r >=? 0 then dec p else dec r) = dec (Z.max p r)) as Efl.
  { rewrite Z.geb_leb. destruct (cmpZ_cases p r) as [[? E]|[[? E]|[? E]]]; rewrite E; cbn; f_equal; lia. }
  rewrite Efl in H. apply bind_Ok in H as (c & Hc & H).
  rewrite (compareDecimal_spec _ _ (Z.max p r) q) in Hc by (apply units_dec_lt; lia). injection Hc as <-.
  destruct (cmpZ_spec (Z.max p r) q) as (_ & E & _). rewrite E in H. destruct (Z.ltb_spec q (Z.max p r)); [done|].
  apply bind_Ok in H as (st & Hst & H). apply bind_Ok in H as (w & Hw & H). injection H as <-.
  exists q, p, r, o, n. cbn. split_and!; try done; try lia.
  unfold incomingAverageWins in Hw. destruct (ev_filledQuantity incoming); [|injection Hw as <-; done].
  rewrite (compareDecimal_spec _ _ r p) in Hw by by apply units_dec_lt. injection Hw as <-.
  rewrite bool_decide_true by done. cbn [andb]. rewrite Z.geb_leb.
  destruct (cmpZ_cases r p) as [[? E2]|[[? E2]|[? E2]]]; rewrite E2; cbn; destruct (Z.leb_spec p r); (done || lia).
Qed.

(** One piece of evidence, and any sequence of them. *)
Definition evidence_step (c c' : LocalOrderEvidence) : Prop := ∃ i, mergeOrderEvidence c i = Ok c'.

(** Everything a sequence of evidence preserves, from [c] on. *)
Record evidence_extends (c c' : LocalOrderEvidence) : Prop := {
  ee_quantity : lo_quantity c' = lo_quantity c;
  ee_filled : ∀ p, units (trim (lo_filledQuantity c)) = Some p →
    ∃ p', units (trim (lo_filledQuantity c')) = Some p' ∧ p <= p' ∧
      (∀ q, units (trim (lo_quantity c)) = Some q → p <= q → p' <= q) ∧
      (lo_status c = cancelled → lo_status c' = cancelled ∨ (lo_status c' = filled ∧ units (trim (lo_quantity c)) = Some p')) ∧
      (lo_status c = rejected → p = 0 → p' = 0);
  ee_settled : lo_status c = filled ∨ lo_status c = rejected → lo_status c' = lo_status c;
  ee_started : lo_status c ≠ created → lo_status c' ≠ created }.

Lemma evidence_step_extends c c' : evidence_step c c' → evidence_extends c c'.
Proof.
  intros [i H]. apply mergeOrderEvidence_inv in H as
    (q & p & r & old & new & Hq & Hqp & Hp & Hr & _ & _ & Eq & Ef & Hp0 & Hle & Hst & _).
  assert (units (dec (Z.max p r)) = Some (Z.max p r)) as Hu by (apply units_dec_lt; lia).
  assert (units (dec q) = Some q) as Huq by (apply units_dec_lt; lia).
  destruct (mergedStatus_follows _ _ _ _ Hu Huq _ _ _ Hst) as [Hfol Hrej].
  split.
  - done.
  - intros p' Hp'. rewrite Hp in Hp'. injection Hp' as <-. exists (Z.max p r). rewrite Ef, trim_dec by lia.
    split_and!; [done|lia| | |].
    + intros q' Hq' _. rewrite Hq in Hq'. injection Hq' as <-. lia.
    + intros Ec. rewrite Ec in Hfol. destruct Hfol as [?|[? E]]; [by left|right]. by rewrite E.
    + intros Ec Ep. rewrite Ec in Hfol. auto.
  - intros [E|E]; rewrite E in Hfol |- *; done.
  - intros Hn E. rewrite E in Hfol. destruct (lo_status c); naive_solver.
Qed.

Lemma evidence_extends_trans a b c : evidence_extends a b → evidence_extends b c → evidence_extends a c.
Proof.
  intros Hab Hbc. destruct Hab as [Q1 F1 S1 N1], Hbc as [Q2 F2 S2 N2]. split.
  - congruence.
  - intros p Hp. destruct (F1 p Hp) as (p1 & Hp1 & Hle1 & B1 & C1 & R1). destruct (F2 p1 Hp1) as (p2 & Hp2 & Hle2 & B2 & C2 & R2).
    rewrite Q1 in B2. exists p2. split_and!; [done|lia|auto| |].
    + intros Ec. destruct (C1 Ec) as [Eb|[Eb Eq]].
      * rewrite Q1 in C2. by apply C2.
      * right. rewrite S2, Eb by auto. split; [done|]. pose proof (B2 _ Eq ltac:(lia)). by replace p2 with p1 by lia.
    + intros Ec Ep. apply R2; [rewrite S1; auto|auto].
  - intros E. rewrite S2, S1; auto. rewrite S1; auto.
  - auto.
Qed.

(** ** Properties of order evidence *)

(** C21: whatever sequence of evidence arrives, an order's executed quantity
    never decreases and never passes its quantity; filled and rejected orders
    stay so, a cancelled order can only become filled by a complete late fill,
    a rejected order never acquires executions, and no order returns to created. *)
Theorem order_evidence_monotone c c' p q : rtc evidence_step c c' →
  units (trim (lo_filledQuantity c)) = Some p → units (trim (lo_quantity c)) = Some q → p <= q →
  lo_quantity c' = lo_quantity c ∧
  ∃ p', units (trim (lo_filledQuantity c')) = Some p' ∧ p <= p' <= q ∧
    (lo_status c = filled ∨ lo_status c = rejected → lo_status c' = lo_status c) ∧
    (lo_status c = cancelled → lo_status c' = cancelled ∨ (lo_status c' = filled ∧ p' = q)) ∧
    (lo_status c = rejected → p = 0 → p' = 0) ∧
    (lo_status c ≠ created → lo_status c' ≠ created).
Proof.
  intros Hs Hp Hq Hle. assert (evidence_extends c c') as [E1 E2 E3 E4].
  { clear Hp Hq Hle. induction Hs as [c|a b c Hab _ IH]; [|by eapply evidence_extends_trans; [apply evidence_step_extends|]].
    split; try done. intros p' Hp'. exists p'. split_and!; auto; try lia. }
  destruct (E2 p Hp) as (p' & Hp' & Hge & B & C & R). split; [done|]. exists p'. split_and!; try done; [by apply B|].
  intros Ec. destruct (C Ec) as [?|[? E]]; [by left|right]. split; [done|]. congruence.
Qed.

Definition order_example : LocalOrderEvidence := mkLocal cancelled "2" "0.5" (Some "10.0").

Lemma order_evidence_monotone_witness :
  rtc evidence_step order_example (mkLocal filled "2" "2" (Some "11")) ∧
  ∃ p', units (trim "2") = Some p' ∧ 500000000000000000 <= p'.
Proof.
  assert (rtc evidence_step order_example (mkLocal filled "2" "2" (Some "11"))) as Hs.
  { eapply rtc_l; [exists (mkEvidence partially_filled (Some "1.5") (Some "10.5")); vm_compute; reflexivity|].
    eapply rtc_l; [exists (mkEvidence filled (Some "2") (Some "11")); vm_compute; reflexivity|]. apply rtc_refl. }
  split; [exact Hs|].
  destruct (order_evidence_monotone _ _ 500000000000000000 2000000000000000000 Hs ltac:(vm_compute; reflexivity)
    ltac:(vm_compute; reflexivity) ltac:(lia)) as (_ & p' & Hp' & Hr & _).
  exists p'. split; [exact Hp'|apply Hr].
Defined.

(** Redelivered evidence is harmless: merging the same evidence again
    changes nothing, and the executed quantity does not depend on the order in which two pieces
    of evidence arrive. *)
Theorem evidence_redelivery_harmless c i j c1 : mergeOrderEvidence c i = Ok c1 →
  mergeOrderEvidence c1 i = Ok c1 ∧
  ∀ c2 d1 d2, mergeOrderEvidence c1 j = Ok c2 → mergeOrderEvidence c j = Ok d1 → mergeOrderEvidence d1 i = Ok d2 →
    lo_filledQuantity c2 = lo_filledQuantity d2 ∧ lo_quantity c2 = lo_quantity d2.
Proof.
  intros H. pose proof (mergeOrderEvidence_inv _ _ _ H) as
    (q & p & r & old & new & Hq & Hqp & Hp & Hr & Ho & Hn & Eq & Ef & Hp0 & Hle & Hst & Hav). split.
  - assert (0 <= Z.max p r < LIMIT) as Hb by lia.
    assert (units (dec (Z.max p r)) = Some (Z.max p r)) as Hu by by apply units_dec_lt.
    assert (units (dec q) = Some q) as Huq by (apply units_dec_lt; lia).
    unfold mergeOrderEvidence, selectedAverages. rewrite Eq, (decimal_pos_spec _ _ Hq Hqp), Ef, (decimal_dec _ false) by done.
    cbn [mbind result_bind].
    assert (∃ r', match ev_filledQuantity i with None => Ok (dec (Z.max p r)) | Some x => decimal x false None end = Ok (dec r') ∧
      0 <= r' <= Z.max p r ∧ match ev_filledQuantity i with None => r' = Z.max p r | Some _ => r' = r end) as (r' & -> & Hr'b & Hr').
    { destruct (ev_filledQuantity i) as [x|]; [|exists (Z.max p r); split_and!; done || lia].
      exists r. rewrite (decimal_spec _ _ Hr). pose proof (units_nonneg _ _ Hr). split_and!; done || lia. }
    assert (positive_opt (lo_averagePrice c1) = Ok (lo_averagePrice c1)) as ->.
    { rewrite Hav. destruct (_ && _); [destruct new|]; by eapply positive_opt_idem. }
    rewrite Hn. cbn [mbind result_bind]. unfold selectedFilledQuantity.
    rewrite (compareDecimal_spec _ _ (Z.max p r) r') by (apply units_dec_lt; lia). cbn [mbind result_bind].
    assert ((if cmpZ (Z.max p r) r' >=? 0 then dec (Z.max p r) else dec r') = dec (Z.max p r)) as ->.
    { rewrite Z.geb_leb. destruct (cmpZ_cases (Z.max p r) r') as [[? E]|[[? E]|[? E]]]; rewrite E; (done || lia). }
    rewrite (compareDecimal_spec _ _ (Z.max p r) q) by done. cbn [mbind result_bind].
    destruct (cmpZ_spec (Z.max p r) q) as (_ & -> & _). rewrite (proj2 (Z.ltb_ge _ _)) by lia.
    rewrite (mergedStatus_idempotent _ _ _ _ Hu Huq _ _ _ Hst). cbn [mbind result_bind]. unfold incomingAverageWins.
    rewrite <-Ef. destruct c1 as [st1 q1 f1 a1]. cbn [lo_status lo_quantity lo_filledQuantity lo_averagePrice] in *. rewrite Ef in *. subst q1.
    destruct (ev_filledQuantity i) as [x|]; [|done]. rewrite (compareDecimal_spec _ _ r' (Z.max p r)) by (apply units_dec_lt; lia).
    cbn [mbind result_bind]. subst r'. rewrite Hav. rewrite bool_decide_true by done. cbn [andb]. rewrite Z.geb_leb.
    destruct (cmpZ_cases r (Z.max p r)) as [[? E]|[[? E]|[? E]]]; rewrite E; cbn [Z.leb Z.compare]; destruct (Z.leb_spec p r); try lia; [done|].
    by destruct new.
  - intros c2 d1 d2 H2 D1 D2. apply mergeOrderEvidence_inv in H2 as
      (q2 & p2 & r2 & _ & _ & _ & _ & Hp2 & Hr2 & _ & _ & Eq2 & Ef2 & _ & _ & _ & _).
    apply mergeOrderEvidence_inv in D1 as (q3 & p3 & r3 & _ & _ & _ & _ & Hp3 & Hr3 & _ & _ & Eq3 & Ef3 & ? & ? & _ & _).
    apply mergeOrderEvidence_inv in D2 as (q4 & p4 & r4 & _ & _ & _ & _ & Hp4 & Hr4 & _ & _ & Eq4 & Ef4 & _ & _ & _ & _).
    split; [|congruence]. rewrite Ef2, Ef4. f_equal. rewrite Hp in Hp3. injection Hp3 as <-.
    rewrite Ef, trim_dec, units_dec_lt in Hp2 by lia. injection Hp2 as <-.
    rewrite Ef3, trim_dec, units_dec_lt in Hp4 by lia. injection Hp4 as <-.
    destruct (ev_filledQuantity i), (ev_filledQuantity j);
      repeat match goal with A : units ?s = Some ?a, B : units ?s = Some ?b |- _ => assert (a = b) by congruence; clear A end; lia.
Qed.

(** ** The fill ledger *)
Definition fill_units (f : OwnershipFill) : Z := default 0 (units (trim (of_quantity f))).
(** The ledger's executed quantity of an order. *)
Definition ledger (fills : list OwnershipFill) (id : string) : Z :=
  sumZ (map fill_units (filter (λ f, of_order_id f = id) fills)).

Lemma ledger_cons f fills id : ledger (f :: fills) id = (if decide (of_order_id f = id) then fill_units f else 0) + ledger fills id.
Proof. unfold ledger. rewrite filter_cons. case_decide; cbn [map sumZ]; lia. Qed.

(** [totals] holds [base] plus the ledger of the fills already read. *)
Lemma fillTotals_inv ids fills totals out base :
  (∀ id, default "0" (totals !! id) = dec (base id) ∧ 0 <= base id) → fillTotals ids fills totals = Ok out →
  (∀ id, default "0" (out !! id) = dec (base id + ledger fills id) ∧ 0 <= base id + ledger fills id) ∧
  Forall (λ f, of_order_id f ∈ ids ∧ 0 < fill_units f) fills.
Proof.
  revert totals base. induction fills as [|f fills IH]; intros totals base Hb H; cbn [fillTotals] in H.
  { injection H as <-. split; [|constructor]. intros id. unfold ledger. cbn. rewrite Z.add_0_r. apply Hb. }
  destruct (bool_decide_reflect (of_order_id f ∈ ids)) as [Hin|]; cbn [negb] in H; [|done].
  apply bind_Ok in H as (q & Hq & H). apply bind_Ok in H as (t & Ht & H).
  apply decimal_inv in Hq as (a & Ha & -> & Hab & Hap & _). specialize (Hap eq_refl).
  apply addDecimal_inv in Ht as (x & y & Hx & Hy & ->). rewrite units_dec_lt in Hy by lia. injection Hy as <-.
  destruct (Hb (of_order_id f)) as [Eb Hb0]. rewrite Eb in Hx. apply units_dec_Some in Hx as [-> _]; [|done].
  assert (fill_units f = a) as Efu by (unfold fill_units; by rewrite Ha).
  apply (IH _ (λ id, base id + if decide (of_order_id f = id) then a else 0)) in H as [H1 H2].
  - split; [|constructor; [split; [done|lia]|done]]. intros id. specialize (H1 id). rewrite ledger_cons, Efu.
    cbn beta in H1. rewrite Z.add_assoc. exact H1.
  - intros id. cbn beta. destruct (Hb id) as [E E0]. case_decide as Hd.
    + subst id. rewrite lookup_insert_eq. cbn. split; [done|lia].
    + rewrite lookup_insert_ne by done. rewrite Z.add_0_r. done.
Qed.

(** The executed quantities of the entry orders, and of the others. *)
Definition executed (fills : list OwnershipFill) (entry : bool) (orders : list OwnershipOrder) : Z :=
  sumZ (map (λ o, ledger fills (oo_id o)) (filter (λ o, bool_decide (oo_role o = "entry") = entry) orders)).

Lemma executed_cons fills e o orders : executed fills e (o :: orders) =
  (if decide (bool_decide (oo_role o = "entry") = e) then ledger fills (oo_id o) else 0) + executed fills e orders.
Proof. unfold executed. rewrite filter_cons. case_decide; cbn [map sumZ]; lia. Qed.

(** An order of the position: right side and flag, executed as the ledger says. *)
Definition order_proved (side : TradingSide) (fills : list OwnershipFill) (o : OwnershipOrder) : Prop :=
  expectedOrderSide (oo_role o) side = (oo_side o, oo_reduce_only o) ∧
  units (trim (oo_filled_quantity o)) = Some (ledger fills (oo_id o)) ∧
  ∃ q, units (trim (oo_quantity o)) = Some q ∧ ledger fills (oo_id o) <= q.

Lemma ownedQuantities_inv side fills totals orders en ex a b out :
  (∀ id, default "0" (totals !! id) = dec (ledger fills id) ∧ 0 <= ledger fills id) →
  ownedQuantities side totals orders en ex = Ok out → en = dec a → ex = dec b → 0 <= a → 0 <= b →
  out = (dec (a + executed fills true orders), dec (b + executed fills false orders)) ∧
  0 <= executed fills true orders ∧ 0 <= executed fills false orders ∧ Forall (order_proved side fills) orders.
Proof.
  intros Ht. revert en ex a b. induction orders as [|o orders IH]; intros en ex a b H -> -> Ha Hb; cbn [ownedQuantities] in H.
  { injection H as <-. cbn. rewrite !Z.add_0_r. split_and!; (done || constructor). }
  destruct (Ht (oo_id o)) as [Et Et0]. rewrite Et in H.
  apply bind_Ok in H as ([] & Hs & H). apply bind_Ok in H as (q & Hq & H). apply bind_Ok in H as (c & Hc & H).
  apply decimal_inv in Hq as (qz & Hqz & -> & Hqb & _). apply compareDecimal_inv in Hc as (x & y & Hx & Hy & ->).
  pose proof Hx as [-> Hxl]%units_dec_Some; [|done]. rewrite units_dec_lt in Hy by lia. injection Hy as <-.
  destruct (cmpZ_spec (ledger fills (oo_id o)) qz) as (_ & E & _). rewrite E in H.
  destruct (Z.ltb_spec qz (ledger fills (oo_id o))) as [|Hle]; [done|].
  apply bind_Ok in H as (f & Hf & H). apply bind_Ok in H as (c' & Hc' & H).
  apply decimal_inv in Hf as (fz & Hfz & -> & Hfb & _). rewrite (compareDecimal_spec _ _ (ledger fills (oo_id o)) fz) in Hc'
    by (done || apply units_dec_lt; lia). injection Hc' as <-.
  destruct (cmpZ_spec (ledger fills (oo_id o)) fz) as (_ & _ & E'). rewrite E' in H.
  destruct (Z.eqb_spec (ledger fills (oo_id o)) fz) as [Ef|]; cbn [negb] in H; [|done].
  assert (order_proved side fills o) as Hprov.
  { split_and!; [|by rewrite Ef|by exists qz]. unfold assertOrderSemantics in Hs. destruct (expectedOrderSide (oo_role o) side) as [es er].
    destruct (negb _ || negb _) eqn:En; [done|]. rewrite orb_false_iff, !negb_false_iff, bool_decide_eq_true, Z.eqb_eq in En.
    destruct En. congruence. }
  rewrite !executed_cons. destruct (bool_decide (oo_role o = "entry")); apply bind_Ok in H as (n & Hn & H);
    apply addDecimal_inv in Hn as (u & v & Hu & Hv & ->); apply units_dec_Some in Hu as [-> _]; [|done| |done];
    rewrite Hx in Hv; injection Hv as <-.
  - destruct (IH _ _ _ _ H eq_refl eq_refl ltac:(lia) Hb) as (-> & H1 & H2 & H3). rewrite decide_True, decide_False by done.
    split_and!; [f_equal; f_equal; lia|lia|lia|by constructor].
  - destruct (IH _ _ _ _ H eq_refl eq_refl Ha ltac:(lia)) as (-> & H1 & H2 & H3). rewrite decide_False, decide_True by done.
    split_and!; [f_equal; f_equal; lia|lia|lia|by constructor].
Qed.

(** Each fill belongs to exactly one of distinct orders. *)
Lemma ledger_total fills ids : NoDup ids → Forall (λ f, of_order_id f ∈ ids) fills →
  sumZ (map (ledger fills) ids) = sumZ (map fill_units fills).
Proof.
  intros Hnd. induction fills as [|f fills IH]; intros Hf.
  - clear. induction ids as [|i ids IH]; cbn [map sumZ]; [done|]. rewrite IH. done.
  - apply Forall_cons in Hf as [Hin Hf]. cbn [map sumZ]. rewrite <-IH by done. clear IH Hf.
    assert (∀ l, sumZ (map (ledger (f :: fills)) l) = sumZ (map (ledger fills) l) + fill_units f * Z.of_nat (length (filter (λ i, of_order_id f = i) l))) as Hl.
    { induction l as [|i l IHl]; cbn [map sumZ]; [cbn; lia|]. rewrite ledger_cons, IHl, filter_cons. case_decide; cbn [length]; lia. }
    rewrite Hl. assert (length (filter (λ i, of_order_id f = i) ids) = 1%nat) as ->; [|lia].
    clear Hl. induction ids as [|i ids IH]; [by apply elem_of_nil in Hin|]. apply NoDup_cons in Hnd as [Hni Hnd].
    rewrite filter_cons. case_decide as Hd.
    + subst i. cbn [length]. f_equal. assert (filter (λ i, of_order_id f = i) ids = []) as ->; [|done].
      destruct (filter (λ i, of_order_id f = i) ids) as [|x l] eqn:E; [done|].
      assert (x ∈ filter (λ i, of_order_id f = i) ids) as [<- Hx]%list_elem_of_filter by (rewrite E; by left). done.
    + apply elem_of_cons in Hin as [|Hin]; [congruence|]. by apply IH.
Qed.

Lemma executed_total fills orders : executed fills true orders + executed fills false orders = sumZ (map (ledger fills) (map oo_id orders)).
Proof.
  induction orders as [|o orders IH]; [done|]. rewrite !executed_cons. cbn [map sumZ].
  destruct (bool_decide (oo_role o = "entry")); repeat case_decide; (done || lia).
Qed.

(** An ownership proof accounts for every fill: each order has the side and
    reduce-only flag of its role and executed exactly what the ledger holds for it, entry and exit
    quantities are the executed entries and exits, the net is their difference
    and not negative, and with distinct order ids entries plus exits equal the
    sum of all fills. *)
Theorem ownership_accounts_for_fills orders fills side proof : proveOwnedQuantity orders fills side = Ok proof →
  ow_entryQuantity proof = dec (executed fills true orders) ∧
  ow_exitQuantity proof = dec (executed fills false orders) ∧
  ow_netQuantity proof = dec (executed fills true orders - executed fills false orders) ∧
  0 <= executed fills false orders <= executed fills true orders ∧
  Forall (order_proved side fills) orders ∧ Forall (λ f, 0 < fill_units f) fills ∧
  (NoDup (map oo_id orders) → executed fills true orders + executed fills false orders = sumZ (map fill_units fills)).
Proof.
  unfold proveOwnedQuantity. intros H. apply bind_Ok in H as (totals & Ht & H). apply bind_Ok in H as ([en ex] & Ho & H).
  apply (fillTotals_inv _ _ _ _ (λ _, 0)) in Ht as [Ht Hf]; [|intros id; rewrite lookup_empty; cbn; by rewrite dec_0].
  cbn beta in Ht. apply (ownedQuantities_inv side fills _ _ _ _ 0 0) in Ho as (E & P1 & P2 & Hall);
    [|intros id; apply Ht|by rewrite dec_0..|done|done]. injection E as -> ->. rewrite !Z.add_0_l in H.
  apply bind_Ok in H as (c & Hc & H). apply compareDecimal_inv in Hc as (x & y & Hx & Hy & ->).
  pose proof Hx as [-> _]%units_dec_Some; [|done]. pose proof Hy as [-> _]%units_dec_Some; [|done].
  destruct (cmpZ_spec (executed fills false orders) (executed fills true orders)) as (_ & E & _). rewrite E in H.
  destruct (Z.ltb_spec (executed fills true orders) (executed fills false orders)); [done|].
  apply bind_Ok in H as (n & Hn & H). injection H as <-. apply subtractDecimal_inv in Hn as (u & v & Hu & Hv & _ & ->).
  rewrite Hy in Hu. rewrite Hx in Hv. injection Hu as <-. injection Hv as <-. cbn.
  split_and!; try done; [eapply Forall_impl; [exact Hf|]; by intros f [_ ?]|].
  intros Hnd. rewrite executed_total. apply ledger_total; [done|]. eapply Forall_impl; [exact Hf|].
  intros f [Hin _]. by apply elem_of_list_to_set in Hin.
Qed.

(** ** Intent lifecycle *)
Definition intent_step (a b : TradingIntentStatus) : Prop := b ∈ INTENT_TRANSITIONS a.
Definition intent_terminal (s : TradingIntentStatus) : Prop := s = intent_completed ∨ s = intent_blocked ∨ s = intent_failed.
(** Progress of an intent; [unknown] and [monitoring] may alternate. *)
Definition intent_rank (s : TradingIntentStatus) : Z :=
  match s with
  | intent_pending => 0 | intent_planned => 1 | intent_submitting => 2
  | intent_monitoring | intent_unknown => 3 | intent_completed | intent_blocked | intent_failed => 4
  end.

Lemma intent_step_rank a b : intent_step a b → intent_rank a <= intent_rank b ∧ ¬ intent_terminal a.
Proof.
  unfold intent_step, intent_terminal. destruct a, b; cbn; intros H; split; try lia; try naive_solver;
    repeat (apply elem_of_cons in H as [H|H]; [discriminate H|]); by apply elem_of_nil in H.
Qed.

(** The intent lifecycle never goes back: along any sequence of allowed
    transitions the stage does not decrease, a completed, blocked or failed
    intent is final, [canTransitionIntent] is exactly staying put or one table
    step between known statuses, and every other intent can still be settled. *)
Theorem intent_lifecycle_forward a b : rtc intent_step a b →
  intent_rank a <= intent_rank b ∧ (intent_terminal a → b = a) ∧
  (intent_terminal b ∨ intent_step b intent_failed) ∧
  ∀ s t, canTransitionIntent s t = true ↔
    ∃ x y, intent_of s = Some x ∧ intent_of t = Some y ∧ (s = t ∨ intent_step x y).
Proof.
  intros H. split_and!.
  - induction H as [|a b c Hab _ IH]; [lia|]. apply intent_step_rank in Hab as [? _]. lia.
  - intros Ht. destruct H as [|a b c Hab _]; [done|]. by apply intent_step_rank in Hab as [_ ?].
  - unfold intent_terminal, intent_step. destruct b; cbn; try (left; naive_solver); right; set_solver.
  - intros s t. unfold canTransitionIntent, intent_step. destruct (intent_of s) as [x|], (intent_of t) as [y|].
    + rewrite orb_true_iff, !bool_decide_eq_true. naive_solver.
    + naive_solver.
    + naive_solver.
    + naive_solver.
Qed.
