(* ===== verification/TakeProfit.v ===== *)
(** TakeProfit: [src/trading_take_profit.ts] and
    [src/trading_take_profit_recovery.ts], resizing the take-profit targets of a
    position to the quantity it is proved to own.

    A stored row keeps the JSON texts of the source as the lists and the order
    they encode ([None] for a request that does not parse).  [planHash] stands
    for the sha256 of the serialised plan.  [loadTakeProfitAllocation] is the
    body of the database transaction: the rows it reads are arguments and the
    allocation row it leaves behind is part of its result. *)

From S2P Require Import Prelude Text Decimal Types FxSizing Risk Orders.
From Stdlib Require Ascii String.
Local Open Scope Z_scope.

(** ** Targets of a plan *)
Definition requireTakeProfitTargets_from (index : Z) (orders : list PlannedOrder) : result (list (string * Z)) :=
  let fix go index orders :=
    match orders with
    | [] => Ok []
    | order :: rest =>
        match po_price order with
        | Some price =>
            if negb (bool_decide (po_targetIndex order = Some (index + 1)))
            then throw "Take-profit plan has no valid target price or ordered index."
            else _ ← decimal price true None; targets ← go (index + 1) rest; Ok ((price, index + 1) :: targets)
        | None => throw "Take-profit plan has no valid target price or ordered index."
        end
    end in go index orders.

(** The price and index of every take-profit of the plan. *)
Definition requireTakeProfitTargets (plan : TradingPlan) : result (list (string * Z)) :=
  requireTakeProfitTargets_from 0 (filter (λ o, po_role o = role_take_profit) (pl_orders plan)).

Definition requireTakeProfitAllocation (totals remaining : list string) (index : nat) : result (string * string) :=
  match totals !! index, remaining !! index with
  | Some desired, Some outstanding =>
      _ ← decimal desired false None; _ ← decimal outstanding false None; Ok (desired, outstanding)
  | _, _ => throw "Take-profit allocation has no quantity for a planned target."
  end.

(** A take-profit order row; [tr_request] is the parsed [request_json]. *)
Record TakeProfitOrderRow := mkTargetRow {
  tr_client_order_id : string;
  tr_exchange_order_id : option string;
  tr_provider_symbol : option string;
  tr_status : LocalOrderStatus;
  tr_price : option string;
  tr_quantity : string;
  tr_filled_quantity : string;
  tr_request : option PlannedOrder;
  tr_created_at : Z }.

Definition targetIndexFromOrderRow (row : TakeProfitOrderRow) : option Z :=
  match tr_request row with
  | Some request =>
      match po_targetIndex request with
      | Some index => if isSafeInteger index && (index >? 0) then Some index else None
      | None => None
      end
  | None => None
  end.

Definition is_active (row : TakeProfitOrderRow) : bool :=
  match tr_status row with open | partially_filled => true | _ => false end.

Record TargetCoverage := mkCoverage {
  tc_active : list TakeProfitOrderRow;
  tc_filled : string;
  tc_remaining : string;
  tc_covered : string;
  tc_pricesMatch : bool }.

(** [active.every(row => row.price !== null && compareDecimal(row.price, price) === 0)] *)
Fixpoint prices_match (price : string) (active : list TakeProfitOrderRow) : result bool :=
  match active with
  | [] => Ok true
  | row :: rest =>
      match tr_price row with
      | None => Ok false
      | Some p => c ← compareDecimal p price; if c =? 0 then prices_match price rest else Ok false
      end
  end.

Definition targetOrderCoverage (rows : list TakeProfitOrderRow) (price : string) : result TargetCoverage :=
  let active := filter (λ row, is_active row = true) rows in
  fill ← sumDecimals (map tr_filled_quantity rows);
  rests ← mapM (λ row, subtractDecimal (tr_quantity row) (tr_filled_quantity row)) active;
  remaining ← sumDecimals rests;
  covered ← addDecimal fill remaining;
  matches ← prices_match price active;
  Ok (mkCoverage active fill remaining covered matches).

(** ** Resizing *)
Definition assertTargetQuantities (values : list string) : result unit :=
  _ ← mapM (λ v, decimal v false None) values; Ok tt.

(** The unconsumed budget of one target. *)
Definition targetWeight (total executed : string) : result string :=
  executed ← decimal executed false None;
  total ← decimal total false None;
  c ← compareDecimal total executed;
  if c >? 0 then subtractDecimal total executed else Ok "0".

Fixpoint targetWeights (previous filled : list string) : result (list string) :=
  match previous, filled with
  | p :: previous', f :: filled' => w ← targetWeight p f; ws ← targetWeights previous' filled'; Ok (w :: ws)
  | [], _ => Ok []
  | _ :: _, [] => throw "TP allocation has a missing or invalid target quantity."
  end.

(** The downward loop of [allocateRoundingRemainder], over the targets from the
    last: the new remaining quantities (last first) and the remainder left. *)
Fixpoint spreadRemainder (available weight step remainder : string) (targets : list (string * string)) : result (list string * string) :=
  match targets with
  | [] => Ok ([], remainder)
  | (w, r) :: rest =>
      if bool_decide (remainder = "0") then Ok (map snd targets, remainder)
      else if bool_decide (w = "0") then
        '(rs, left_) ← spreadRemainder available weight step remainder rest; Ok (r :: rs, left_)
      else
        c ← compareDecimal available weight;
        room ← (if c <=? 0 then free ← subtractDecimal w r; quantizeDecimalDown free step else Ok remainder);
        extra ← minDecimal [room; remainder];
        r' ← addDecimal r extra;
        remainder' ← subtractDecimal remainder extra;
        '(rs, left_) ← spreadRemainder available weight step remainder' rest;
        Ok (r' :: rs, left_)
  end.

Definition allocateRoundingRemainder (weights remaining : list string) (available weight step : string) : result (list string) :=
  total ← sumDecimals remaining;
  remainder ← subtractDecimal available total;
  '(rs, _) ← spreadRemainder available weight step remainder (reverse (zip weights remaining));
  Ok (reverse rs).

Record TargetAllocation := mkAllocation {
  al_totals : list string;
  al_remaining : list string;
  al_unallocatedQuantity : string }.

(** [remaining.map((value, index) => addDecimal(value, filled[index]))] *)
Fixpoint addTargets (remaining filled : list string) : result (list string) :=
  match remaining, filled with
  | r :: remaining', f :: filled' => t ← addDecimal r f; ts ← addTargets remaining' filled'; Ok (t :: ts)
  | [], _ => Ok []
  | _ :: _, [] => throw "TP allocation has a missing or invalid target quantity."
  end.

(** The first, rounded-down share of each weight. *)
Definition initialShare (available weight step value : string) : result string :=
  if bool_decide (weight = "0") then Ok "0"
  else product ← multiplyDecimal available value; share ← divideDecimal product weight 18; quantizeDecimalDown share step.

Definition resizeTargetTotals (previous filled : list string) (netQuantity step : string) : result TargetAllocation :=
  if bool_decide (previous = []) || negb (length previous =? length filled)%nat then throw "Invalid TP allocation dimensions."
  else
    _ ← assertTargetQuantities previous; _ ← assertTargetQuantities filled;
    weights ← targetWeights previous filled;
    weight ← sumDecimals weights;
    net ← decimal netQuantity false None; st ← decimal step true None;
    available ← quantizeDecimalDown net st;
    if bool_decide (weight = "0") && negb (bool_decide (available = "0")) then throw "TP_TARGETS_EXHAUSTED_WITH_EXPOSURE"
    else
      shares ← mapM (initialShare available weight step) weights;
      remaining ← allocateRoundingRemainder weights shares available weight step;
      totals ← addTargets remaining filled;
      allocated ← sumDecimals remaining;
      unallocated ← subtractDecimal netQuantity allocated;
      Ok (mkAllocation totals remaining unallocated).

(** ** Completion evidence *)
Fixpoint completedTargets (totals previousFilled : list string) (completed : list bool) (filled : list string) : result (list bool) :=
  match totals, previousFilled, completed, filled with
  | total :: totals', before :: previous', done_ :: completed', current :: filled' =>
      c ← compareDecimal current before;
      if c <? 0 then throw "TP fill evidence regressed."
      else
        now ← (if (done_ : bool) then Ok true
               else c1 ← compareDecimal total before;
                    if c1 >? 0 then
                      c2 ← compareDecimal current before;
                      if c2 >? 0 then c3 ← compareDecimal current total; Ok (c3 >=? 0) else Ok false
                    else Ok false);
        rest ← completedTargets totals' previous' completed' filled';
        Ok ((now : bool) :: rest)
  | _, _, _, _ => Ok []
  end.

Definition completedTargetEvidence (totals previousFilled : list string) (completed : list bool) (filled : list string) : result (list bool) :=
  if negb (length previousFilled =? length totals)%nat || negb (length completed =? length totals)%nat
     || negb (length filled =? length totals)%nat
  then throw "Invalid target completion dimensions."
  else
    _ ← assertTargetQuantities totals; _ ← assertTargetQuantities previousFilled; _ ← assertTargetQuantities filled;
    completedTargets totals previousFilled completed filled.

(** [filledTargetQuantities]: executed quantity per target index. *)
Fixpoint filledTargets_from (rows : list TakeProfitOrderRow) (targetCount : Z) (filled : list string) : result (list string) :=
  match rows with
  | [] => Ok filled
  | order :: rest =>
      match targetIndexFromOrderRow order with
      | None => throw "Take-profit order has no valid target index."
      | Some index =>
          if index >? targetCount then throw "Take-profit order has no valid target index."
          else match filled !! Z.to_nat (index - 1) with
          | None => throw "TP allocation has a missing or invalid target quantity."
          | Some q => q' ← addDecimal q (tr_filled_quantity order); filledTargets_from rest targetCount (<[Z.to_nat (index - 1) := q']> filled)
          end
      end
  end.

Definition filledTargetQuantities (rows : list TakeProfitOrderRow) (targetCount : Z) : result (list string) :=
  filledTargets_from rows targetCount (replicate (Z.to_nat targetCount) "0").

(** ** Recovering a missing basis *)
Definition REVIEW : string := "TP_ALLOCATION_REVIEW_REQUIRED".
Definition review {A} (reason : string) : result A :=
  throw_code REVIEW ("TP_ALLOCATION_REVIEW_REQUIRED: " +:+ reason
    +:+ ". Existing own stop protection must continue; target budgets are not inferred.").

(** The target's properties other than [clientOrderId] and [quantity]. *)
Definition same_target (request target : PlannedOrder) : bool :=
  bool_decide (po_role request = po_role target) && bool_decide (po_side request = po_side target)
  && bool_decide (po_orderType request = po_orderType target) && (negb (po_ioc target) || po_ioc request)
  && bool_decide (po_price request = po_price target) && bool_decide (po_triggerPrice request = po_triggerPrice target)
  && Bool.eqb (po_reduceOnly request) (po_reduceOnly target) && Bool.eqb (po_postOnly request) (po_postOnly target)
  && bool_decide (po_targetIndex request = po_targetIndex target).

Definition plannedRequest (row : TakeProfitOrderRow) (target : PlannedOrder) : result unit :=
  match tr_request row with
  | None => throw "Unexpected token in JSON."
  | Some request =>
      if same_target request target && bool_decide (po_clientOrderId request = tr_client_order_id row)
         && bool_decide (po_quantity request = tr_quantity row) && bool_decide (po_price request = tr_price row)
      then Ok tt else review "Target request does not match its stored order and immutable signal"
  end.

(** An order of the remote snapshot, with the properties the check reads. *)
Record RemoteOrder := mkRemoteOrder {
  ro_clientOrderId : option string;
  ro_exchangeOrderId : string;
  ro_providerSymbol : option string;
  ro_symbol : string;
  ro_side : TradingOrderSide;
  ro_reduceOnly : bool;
  ro_status : LocalOrderStatus;
  ro_quantity : string;
  ro_filledQuantity : option string;
  ro_price : option string }.

Definition exactCurrentTarget (row : TakeProfitOrderRow) (target : PlannedOrder) (remote : list RemoteOrder) (symbol : string) : bool :=
  match filter (λ o, ro_clientOrderId o = Some (tr_client_order_id row) ∧ Some (ro_exchangeOrderId o) = tr_exchange_order_id row
                     ∧ ro_providerSymbol o = tr_provider_symbol row) remote with
  | [order] =>
      bool_decide (ro_symbol order = symbol) && bool_decide (ro_side order = po_side target) && ro_reduceOnly order
      && bool_decide (ro_status order = tr_status row) && bool_decide (ro_quantity order = tr_quantity row)
      && bool_decide (ro_filledQuantity order = Some (tr_filled_quantity row)) && bool_decide (ro_price order = po_price target)
  | _ => false
  end.

Definition finishedRow (row : TakeProfitOrderRow) : result bool :=
  match tr_status row with
  | filled => c ← compareDecimal (tr_quantity row) (tr_filled_quantity row); Ok (c =? 0)
  | _ => Ok false
  end.

Fixpoint filterM {A} (f : A → result bool) (l : list A) : result (list A) :=
  match l with
  | [] => Ok []
  | x :: l' => b ← f x; rest ← filterM f l'; Ok (if (b : bool) then x :: rest else rest)
  end.

Definition proveTargetBasis (rows : list TakeProfitOrderRow) (target : PlannedOrder) (remote : list RemoteOrder) (symbol : string)
    : result (string * bool) :=
  _ ← mapM (λ row, plannedRequest row target) rows;
  if existsb (λ row, match tr_status row with open | partially_filled | filled | cancelled | rejected => false | _ => true end) rows
  then review "Target has an unfinished dispatch or replacement"
  else
    let active := filter (λ row, is_active row = true) rows in
    finished ← filterM finishedRow rows;
    fill ← sumDecimals (map tr_filled_quantity rows);
    let ambiguous : result (string * bool) := review "Target completion or remaining budget is ambiguous" in
    match active, finished with
    | [a], [] =>
        if exactCurrentTarget a target remote symbol
        then free ← subtractDecimal (tr_quantity a) (tr_filled_quantity a); total ← addDecimal fill free; Ok (total, false)
        else ambiguous
    | [], [f] =>
        (** [row === finishedRow || row.created_at < finishedRow.created_at]: every
            other row is older. *)
        if (length (filter (λ row, ¬ (tr_created_at row < tr_created_at f)%Z) rows) =? 1)%nat then Ok (fill, true) else ambiguous
    | _, _ => ambiguous
    end.

Section Recovery.
Context (planHash : TradingPlan → string).

(** [recoverTakeProfitBasis]; [pendingOperation] is the query of
    [assertNoPendingTargetOperation]. *)
Definition pristine_row (targets : list PlannedOrder) (row : TakeProfitOrderRow) : result bool :=
  match list_find (λ o, po_clientOrderId o = tr_client_order_id row) targets with
  | Some (_, target) =>
      if bool_decide (tr_status row = created) && bool_decide (tr_exchange_order_id row = None) && bool_decide (tr_filled_quantity row = "0")
      then match tr_request row with
           | None => throw "Unexpected token in JSON."
           | Some request =>
               Ok (same_target request target && bool_decide (po_clientOrderId request = po_clientOrderId target)
                   && bool_decide (po_quantity request = po_quantity target) && bool_decide (tr_quantity row = po_quantity target))
           end
      else Ok false
  | None => Ok false
  end.

(** [rows.every(...)]: stops at the first row that is not. *)
Fixpoint everyM {A} (f : A → result bool) (l : list A) : result bool :=
  match l with
  | [] => Ok true
  | x :: l' => b ← f x; if (b : bool) then everyM f l' else Ok false
  end.

Definition requestTargetIndex (row : TakeProfitOrderRow) : result (option Z) :=
  match tr_request row with None => throw "Unexpected token in JSON." | Some request => Ok (po_targetIndex request) end.

Definition recoverTakeProfitBasis (plan : TradingPlan) (rows : list TakeProfitOrderRow) (ownership : OwnershipProof)
    (remote : list RemoteOrder) (pendingOperation : bool) : result (list string * list bool * bool) :=
  let targets := filter (λ o, po_role o = role_take_profit) (pl_orders plan) in
  pristine ← (if (length rows =? length targets)%nat then everyM (pristine_row targets) rows else Ok false);
  if pendingOperation then review "Target operation has no resolved outcome"
  else if (pristine : bool) then
    totals ← allocateTargetQuantities (ow_entryQuantity ownership) (pl_targetAllocationsPercent plan) (pl_quantityStep plan);
    Ok (totals, map (λ _, false) targets, false)
  else
    bases ← mapM (λ target,
        mine ← filterM (λ row, index ← requestTargetIndex row; Ok (bool_decide (index = po_targetIndex target))) rows;
        proveTargetBasis mine target remote (pl_symbol plan)) targets;
    budget ← sumDecimals (map fst bases);
    fill ← sumDecimals (map tr_filled_quantity rows);
    remaining ← subtractDecimal budget fill;
    owned ← quantizeDecimalDown (ow_netQuantity ownership) (pl_quantityStep plan);
    c ← compareDecimal remaining owned;
    if c <? 0 then review "Existing target budgets do not cover the proved owned remainder"
    else Ok (map fst bases, map snd bases, true).

(** ** The stored allocation *)
Record AllocationRow := mkAllocationRow {
  ar_plan_hash : string;
  ar_target_totals : list string;
  ar_observed_fills : list string;
  ar_completed_targets : list bool;
  ar_unallocated_quantity : string;
  ar_state_version : Z }.

Definition previousTotals (row : AllocationRow) (plan : TradingPlan) (hash : string) : result (list string) :=
  if negb (bool_decide (ar_plan_hash row = hash)) then throw "Persisted TP allocation conflicts with the immutable trade plan."
  else if negb (length (ar_target_totals row) =? length (pl_targetAllocationsPercent plan))%nat then throw "Invalid stored TP allocation."
  else mapM (λ v, decimal v false None) (ar_target_totals row).

Definition completionState (row : AllocationRow) (totals filled : list string) : result (list bool) :=
  completedTargetEvidence totals (ar_observed_fills row) (ar_completed_targets row) filled.

Definition unchangedAllocation (row : AllocationRow) (allocation : TargetAllocation) (filled : list string) (completed : list bool) : bool :=
  bool_decide (ar_target_totals row = al_totals allocation)
  && bool_decide (ar_unallocated_quantity row = al_unallocatedQuantity allocation)
  && bool_decide (ar_observed_fills row = filled) && bool_decide (ar_completed_targets row = completed).

(** [persistAllocation]: [stored] is the row the statement finds, [row] the one read before. *)
Definition persistAllocation (hash : string) (stored row : option AllocationRow) (allocation : TargetAllocation)
    (filled : list string) (completed : list bool) : result (option AllocationRow) :=
  match row with
  | None => Ok (Some (mkAllocationRow hash (al_totals allocation) filled completed (al_unallocatedQuantity allocation) 1))
  | Some row =>
      if unchangedAllocation row allocation filled completed then Ok stored
      else match stored with
      | Some s =>
          if bool_decide (ar_plan_hash s = hash) && (ar_state_version s =? ar_state_version row)
          then Ok (Some (mkAllocationRow hash (al_totals allocation) filled completed (al_unallocatedQuantity allocation)
                           (ar_state_version s + 1)))
          else throw "TP allocation changed before its update could commit."
      | None => throw "TP allocation changed before its update could commit."
      end
  end.

(** [terminalEntryProof]: [None] until every entry is terminal and executed. *)
Definition terminalEntryProof (entries : list LocalOrderStatus) (loaded : result OwnershipProof) : result (option OwnershipProof) :=
  if bool_decide (entries = []) || existsb (λ s, match s with filled | cancelled | rejected => false | _ => true end) entries
  then Ok None
  else proof ← loaded; Ok (if bool_decide (ow_entryQuantity proof = "0") then None else Some proof).

Record LoadedAllocation := mkLoaded {
  la_allocation : TargetAllocation;
  la_filled : list string;
  la_rows : list TakeProfitOrderRow;
  la_completed : nat }.

Definition loadTakeProfitAllocation (plan : TradingPlan) (remote : list RemoteOrder) (entries : list LocalOrderStatus)
    (loaded : result OwnershipProof) (rows : list TakeProfitOrderRow) (stored : option AllocationRow) (pendingOperation : bool)
    : result (option LoadedAllocation * option AllocationRow) :=
  proof ← terminalEntryProof entries loaded;
  match proof with
  | None => Ok (None, stored)
  | Some proof =>
      let targets := filter (λ o, po_role o = role_take_profit) (pl_orders plan) in
      if negb (length targets =? length (pl_targetAllocationsPercent plan))%nat
      then throw "TP target count conflicts with plan allocation."
      else
        fill ← filledTargetQuantities rows (Z.of_nat (length targets));
        let hash := planHash plan in
        '(previous, completed) ← match stored with
          | Some row => p ← previousTotals row plan hash; c ← completionState row p fill; Ok (p, c)
          | None => '(totals, completed, _) ← recoverTakeProfitBasis plan rows proof remote pendingOperation; Ok (totals, completed)
          end;
        allocation ← resizeTargetTotals previous fill (ow_netQuantity proof) (pl_quantityStep plan);
        stored' ← persistAllocation hash stored stored allocation fill completed;
        Ok (Some (mkLoaded allocation fill rows (length (filter (λ b, b = true) completed))), stored')
  end.
End Recovery.

(** ** Resizing, in units *)
Definition trimmed : list string → list Z → Prop := Forall2 (λ s a, units (trim s) = Some a).

(** The unconsumed budget of a target. *)
Definition budget (p f : Z) : Z := Z.max 0 (p - f).

Lemma trimmed_fun ss zs zs' : trimmed ss zs → meaning ss zs' → zs = zs'.
Proof.
  intros H. revert zs'. induction H as [|s z ss zs Hs _ IH]; intros zs' H'; inversion H' as [|? z' ? ? Hs' Hss]; subst; [done|].
  rewrite (units_trim _ _ Hs') in Hs. f_equal; [congruence|by apply IH].
Qed.

Lemma meaning_dec zs : Forall (λ z, 0 <= z < LIMIT) zs → meaning (map dec zs) zs.
Proof. induction 1 as [|z zs Hz _ IH]; constructor; [by apply units_dec_lt|done]. Qed.

Lemma meaning_map_dec zs ys : Forall (Z.le 0) zs → meaning (map dec zs) ys → ys = zs.
Proof.
  revert ys. induction zs as [|z zs IH]; intros ys Hz H; inversion H as [|? y ? ys' Hy Hys]; subst; [done|].
  inversion Hz; subst. apply units_dec_Some in Hy as [-> _]; [|done]. f_equal. by apply IH.
Qed.

Lemma targetWeights_inv previous filled ws : targetWeights previous filled = Ok ws → length previous = length filled →
  ∃ ps fs, trimmed previous ps ∧ trimmed filled fs ∧ ws = map dec (zip_with budget ps fs).
Proof.
  revert filled ws. induction previous as [|p previous IH]; intros [|f filled] ws H Hlen; cbn in Hlen; try done.
  { injection H as <-. exists [], []. by split_and!; [constructor..|]. }
  cbn [targetWeights] in H. apply bind_Ok in H as (w & Hw & H). apply bind_Ok in H as (ws' & Hws & H). injection H as <-.
  destruct (IH filled ws' Hws ltac:(lia)) as (ps & fs & Hps & Hfs & ->).
  unfold targetWeight in Hw. apply bind_Ok in Hw as (e & He & Hw). apply bind_Ok in Hw as (t & Ht & Hw).
  apply decimal_inv in He as (a & Ha & -> & Hab & _). apply decimal_inv in Ht as (b & Hb & -> & Hbb & _).
  exists (b :: ps), (a :: fs). split_and!; [by constructor..|]. cbn. f_equal.
  apply bind_Ok in Hw as (c & Hc & Hw). apply compareDecimal_inv in Hc as (x & y & Hx & Hy & ->).
  rewrite units_dec_lt in Hx, Hy by done. injection Hx as <-. injection Hy as <-.
  destruct (cmpZ_spec b a) as (_ & E & _). rewrite E in Hw. unfold budget.
  destruct (Z.ltb_spec a b) as [Hlt|Hge].
  - apply subtractDecimal_inv in Hw as (x & y & Hx & Hy & _ & ->). rewrite units_dec_lt in Hx, Hy by done.
    injection Hx as <-. injection Hy as <-. f_equal. lia.
  - injection Hw as <-. rewrite <- dec_0. f_equal. lia.
Qed.

Lemma sumDecimals_dec zs s : Forall (Z.le 0) zs → sumDecimals (map dec zs) = Ok s → s = dec (sumZ zs).
Proof. intros Hz H. apply sumDecimals_inv in H as (ys & Hy & ->). by rewrite (meaning_map_dec _ _ Hz Hy). Qed.

(** One step of the spreading loop on a target with budget [w] holding [r]. *)
Definition spread_ok (Av W st : Z) (wr : Z * Z) (r' : Z) : Prop :=
  0 <= r' ∧ (st | r') ∧ (wr.1 = 0 → r' = wr.2) ∧ (Av <= W → wr.2 <= wr.1 → r' <= wr.1).

Lemma grid_floor x st : 0 < st → 0 <= x → 0 <= x / st * st <= x ∧ (st | x / st * st).
Proof.
  intros Hs Hx. pose proof (Z.mul_div_le x st Hs). pose proof (Z.div_pos x st Hx Hs). split; [nia|]. by exists (x / st).
Qed.

Section Spread.
Context (available weight step : string) (Av W st : Z).
Context (HAv : units available = Some Av) (HW : units weight = Some W) (Hst : units step = Some st) (Hst0 : 0 < st).

Lemma spread_extra w r R c room extra : 0 <= w → 0 <= r → 0 <= R → (st | R) →
  compareDecimal available weight = Ok c →
  (if c <=? 0 then free ← subtractDecimal (dec w) (dec r); quantizeDecimalDown free step else Ok (dec R)) = Ok room →
  minDecimal [room; dec R] = Ok extra →
  ∃ e, units extra = Some e ∧ extra = dec e ∧ 0 <= e <= R ∧ (st | e) ∧ (Av <= W → r + e <= w) ∧ (W < Av → e = R).
Proof using HAv HW Hst Hst0.
  intros Hw Hr HR HdR Hc Hroom Hmin.
  apply compareDecimal_inv in Hc as (x & y & Hx & Hy & ->). rewrite HAv in Hx. rewrite HW in Hy. injection Hx as <-. injection Hy as <-.
  assert (∃ z, room = dec z ∧ 0 <= z ∧ (st | z) ∧ (Av <= W → r + z <= w) ∧ (W < Av → z = R)) as (z & -> & Hz & Hdz & Hle & Hexp).
  { destruct (cmpZ_cases Av W) as [[? E]|[[? E]|[? E]]]; rewrite E in Hroom; cbn [Z.leb Z.compare] in Hroom.
    3: { injection Hroom as <-. exists R. split_and!; [done|done|done|lia|done]. }
    all: apply bind_Ok in Hroom as (f & Hf & Hroom); apply subtractDecimal_inv in Hf as (a & b & Ha & Hb & Hba & ->);
      apply units_dec_Some in Ha as [-> _]; [|done]; apply units_dec_Some in Hb as [-> _]; [|done];
      apply quantizeDecimalDown_inv in Hroom as (a & b & Ha & Hb & _ & _ & ->);
      rewrite Hst in Hb; injection Hb as <-; apply units_dec_Some in Ha as [-> _]; [|lia];
      destruct (grid_floor (w - r) st Hst0 ltac:(lia)) as [[? ?] ?]; exists ((w - r) / st * st);
      split_and!; [done|done|done|lia|lia]. }
  apply min2_inv in Hmin as (a & b & Ha & Hb & He & Hor).
  apply units_dec_Some in Ha as [-> _]; [|done]. apply units_dec_Some in Hb as [-> _]; [|done].
  exists (Z.min z R). split_and!; [done| |lia|lia| | |lia].
  - destruct Hor as [-> | ->]; f_equal; apply units_dec_Some in He as [? _]; lia.
  - destruct (Z.min_spec z R) as [[_ ->]|[_ ->]]; done.
  - lia.
Qed.

Lemma spreadRemainder_inv R ts rs l :
  spreadRemainder available weight step (dec R) (map (prod_map dec dec) ts) = Ok (rs, l) →
  0 <= R → (st | R) → Forall (λ wr, 0 <= wr.1 ∧ 0 <= wr.2 ∧ (st | wr.2)) ts →
  ∃ zs R', rs = map dec zs ∧ l = dec R' ∧ Forall2 (spread_ok Av W st) ts zs ∧ 0 <= R' <= R ∧
    sumZ zs + R' = sumZ (map snd ts) + R ∧ (W < Av → Exists (λ wr, wr.1 ≠ 0) ts → R' = 0).
Proof using HAv HW Hst Hst0.
  revert R rs l. induction ts as [|[w r] ts IH]; intros R rs l H HR HdR Hts.
  { cbn in H. injection H as <- <-. exists [], R. split_and!; [done|done|constructor|lia|lia|cbn; lia|].
    intros _ Hex. inversion Hex. }
  inversion Hts as [|? ? (Hw & Hr & Hdr) Hts']; subst. cbn [fst snd] in Hw, Hr, Hdr.
  cbn [map prod_map spreadRemainder fst snd] in H. rewrite dec_is_0 in H by done.
  destruct (Z.eqb_spec R 0) as [->|HR0].
  { injection H as <- <-. exists (r :: map snd ts), 0. split_and!; [|by rewrite dec_0| |done|done|cbn; lia|done].
    - cbn. f_equal. clear. induction ts as [|[a b] ts IH]; cbn; [done|]. by rewrite IH.
    - constructor; [by split_and!|]. clear -Hts'. induction Hts' as [|[a b] ts (? & ? & ?) _ IH]; constructor; [by split_and!|done]. }
  rewrite dec_is_0 in H by done. destruct (Z.eqb_spec w 0) as [->|Hw0].
  { apply bind_Ok in H as ([rs' l'] & H' & H). injection H as <- <-.
    destruct (IH R rs' l' H' HR HdR Hts') as (zs & R' & -> & -> & Hall & HR' & Hsum & Hexp).
    exists (r :: zs), R'. split_and!; [done|done|constructor; [by split_and!|done]|lia|lia|cbn; lia|].
    intros HWA Hex. inversion Hex; subst; [done|]. by apply Hexp. }
  apply bind_Ok in H as (c & Hc & H). apply bind_Ok in H as (room & Hroom & H). apply bind_Ok in H as (extra & He & H).
  apply bind_Ok in H as (r' & Hr' & H). apply bind_Ok in H as (rem & Hrem & H). apply bind_Ok in H as ([rs' l'] & H' & H).
  injection H as <- <-.
  destruct (spread_extra w r R c room extra Hw Hr HR HdR Hc Hroom He) as (e & Hue & _ & Heb & Hde & Hcap & Hexp).
  apply addDecimal_inv in Hr' as (a & b & Ha & Hb & ->). rewrite Hue in Hb. injection Hb as <-. apply units_dec_Some in Ha as [-> _]; [|done].
  apply subtractDecimal_inv in Hrem as (a & b & Ha & Hb & _ & ->). rewrite Hue in Hb. injection Hb as <-. apply units_dec_Some in Ha as [-> _]; [|done].
  destruct (IH (R - e) rs' l' H' ltac:(lia) ltac:(by apply Z.divide_sub_r) Hts') as (zs & R' & -> & -> & Hall & HR' & Hsum & Hx).
  exists (r + e :: zs), R'. split_and!; [done|done| |lia|lia|cbn; lia|].
  - constructor; [|done]. split_and!; cbn; [lia|by apply Z.divide_add_r|done|lia].
  - intros HWA _. pose proof (Hexp HWA). lia.
Qed.
End Spread.

Lemma initialShare_inv available step Av st W w s :
  initialShare available (dec W) step (dec w) = Ok s → units available = Some Av → units step = Some st → 0 < st →
  0 <= W → 0 <= w → W < LIMIT ∧ ∃ r, s = dec r ∧ 0 <= r ∧ (st | r) ∧ (w = 0 → r = 0) ∧ (Av <= W → r <= w).
Proof.
  unfold initialShare. intros H HAv Hst Hst0 HW Hw. rewrite dec_is_0 in H by done. destruct (Z.eqb_spec W 0) as [->|HW0].
  { injection H as <-. split; [apply (units_bounds _ _ units_zero)|].
    exists 0. rewrite dec_0. split_and!; [done|done|apply Z.divide_0_r|done|lia]. }
  apply bind_Ok in H as (pr & Hp & H). apply bind_Ok in H as (sh & Hs & H).
  apply multiplyDecimal_le in Hp as (a & b & Ha & Hb & -> & Hp0 & Hple). rewrite HAv in Ha. injection Ha as <-.
  apply units_dec_Some in Hb as [-> _]; [|done].
  apply divideDecimal_18_inv in Hs as (a & b & Ha & Hb & Hbp & -> & Hs0 & Hsle). apply units_dec_Some in Ha as [-> _]; [|done].
  apply units_dec_Some in Hb as [-> HWL]; [|done]. split; [done|].
  apply quantizeDecimalDown_inv in H as (a & b & Ha & Hb & _ & _ & ->). rewrite Hst in Hb. injection Hb as <-.
  apply units_dec_Some in Ha as [-> _]; [|done].
  set (sh := Av * w / ONE * ONE / W) in *. destruct (grid_floor sh st Hst0 Hs0) as [[Hlo Hhi] Hd].
  pose proof (units_nonneg _ _ HAv). assert (sh * W <= Av * w) by lia.
  exists (sh / st * st). split_and!; try done.
  - intros ->. assert (sh = 0) by nia. lia.
  - intros Hle. assert (sh <= w) by nia. lia.
Qed.

Lemma initialShares_inv available step Av st W ws shares :
  mapM (initialShare available (dec W) step) (map dec ws) = Ok shares → units available = Some Av → units step = Some st → 0 < st →
  0 <= W → Forall (Z.le 0) ws →
  (ws ≠ [] → W < LIMIT) ∧
  ∃ rs, shares = map dec rs ∧ Forall2 (λ w r, 0 <= r ∧ (st | r) ∧ (w = 0 → r = 0) ∧ (Av <= W → r <= w)) ws rs.
Proof.
  intros H HAv Hst Hst0 HW Hws. apply mapM_Ok in H. revert shares H.
  induction Hws as [|w ws Hw _ IH]; intros shares H; inversion H as [|? s ? ss Hs Hss]; subst.
  { split; [done|]. exists []. by split. }
  destruct (IH _ Hss) as (_ & rs & -> & Hrs). destruct (initialShare_inv _ _ _ _ _ _ _ Hs HAv Hst Hst0 HW Hw) as (HWL & r & -> & Hr).
  split; [done|]. exists (r :: rs). split; [done|by constructor].
Qed.

Lemma zip_map_dec ws rs : zip (map dec ws) (map dec rs) = map (prod_map dec dec) (zip ws rs).
Proof. revert rs. induction ws as [|w ws IH]; intros [|r rs]; cbn; [done..|]. by rewrite IH. Qed.

Lemma map_reverse {A B} (f : A → B) (l : list A) : reverse (map f l) = map f (reverse l).
Proof. symmetry. apply fmap_reverse. Qed.

Lemma sumZ_reverse l : sumZ (reverse l) = sumZ l.
Proof. induction l as [|x l IH]; [done|]. rewrite reverse_cons, sumZ_app, IH. cbn. lia. Qed.

Lemma map_snd_zip (ws rs : list Z) : length ws = length rs → map snd (zip ws rs) = rs.
Proof. revert rs. induction ws as [|w ws IH]; intros [|r rs] H; cbn in *; try done. by rewrite IH by lia. Qed.

Lemma divide_sumZ st l : Forall (λ r, (st | r)) l → (st | sumZ l).
Proof. induction 1 as [|x l Hx _ IH]; cbn; [apply Z.divide_0_r|by apply Z.divide_add_r]. Qed.

(** The remainder loop: pointwise caps, nothing lost, and nothing left over when
    the quantity grew. *)
Lemma allocateRoundingRemainder_inv available step Av st W ws rs out :
  allocateRoundingRemainder (map dec ws) (map dec rs) available (dec W) step = Ok out →
  units available = Some Av → units (dec W) = Some W → units step = Some st → 0 < st → (st | Av) →
  Forall (Z.le 0) ws → Forall2 (λ w r, 0 <= r ∧ (st | r) ∧ (w = 0 → r = 0) ∧ (Av <= W → r <= w)) ws rs →
  ∃ zs, out = map dec zs ∧ Forall2 (spread_ok Av W st) (zip ws rs) zs ∧ sumZ zs <= Av ∧
    (W < Av → Exists (λ w, w ≠ 0) ws → sumZ zs = Av).
Proof.
  intros H HAv HW Hst Hst0 HdAv Hws Hrs. unfold allocateRoundingRemainder in H.
  pose proof (Forall2_length _ _ _ Hrs) as Hlen.
  assert (Forall (λ r, 0 <= r ∧ (st | r)) rs) as Hr by (clear -Hrs; induction Hrs as [|? ? ? ? (? & ? & _)]; by constructor).
  assert (Forall (Z.le 0) rs) as Hr0 by (eapply Forall_impl; [exact Hr|]; by intros ? [? _]).
  assert (st | sumZ rs) as Hdr by (apply divide_sumZ; eapply Forall_impl; [exact Hr|]; by intros ? [_ ?]).
  apply bind_Ok in H as (tot & Htot & H). apply (sumDecimals_dec _ _ Hr0) in Htot as ->.
  apply bind_Ok in H as (rem & Hrem & H). apply subtractDecimal_inv in Hrem as (a & b & Ha & Hb & Hle & ->).
  rewrite HAv in Ha. injection Ha as <-. apply units_dec_Some in Hb as [-> _]; [|by apply sumZ_nonneg].
  apply bind_Ok in H as ([out' l] & H' & H). injection H as <-. rewrite zip_map_dec, map_reverse in H'.
  eapply spreadRemainder_inv in H' as (zs & R' & -> & -> & Hall & HR' & Hsum & Hexp);
    [|exact HAv|exact HW|exact Hst|exact Hst0|lia|by apply Z.divide_sub_r|].
  - exists (reverse zs). rewrite map_reverse. split_and!; [done| | |].
    + rewrite <- (reverse_involutive (zip ws rs)). by apply Forall2_reverse.
    + rewrite sumZ_reverse. rewrite <- map_reverse, sumZ_reverse, map_snd_zip in Hsum by done. lia.
    + intros HWA Hex. rewrite sumZ_reverse. rewrite <- map_reverse, sumZ_reverse, map_snd_zip in Hsum by done.
      rewrite Hexp in Hsum; [lia|done|]. apply Exists_exists in Hex as (w & Hin & Hw).
      apply list_elem_of_lookup in Hin as (i & Hi). destruct (Forall2_lookup_l _ _ _ _ _ Hrs Hi) as (r & Hri & _).
      apply Exists_exists. exists (w, r). split; [|done]. apply elem_of_reverse, list_elem_of_lookup. exists i.
      by apply lookup_zip_with_Some; exists w, r.
  - apply Forall_reverse, Forall_lookup. intros i [w r] (w' & r' & E & Hwi & Hri)%lookup_zip_with_Some. injection E as -> ->. cbn.
    rewrite Forall_lookup in Hws, Hr. specialize (Hws _ _ Hwi). destruct (Hr _ _ Hri). done.
Qed.

Lemma addTargets_inv rs filled ts : addTargets (map dec rs) filled = Ok ts → Forall (Z.le 0) rs → length rs = length filled →
  ∃ fs, meaning filled fs ∧ ts = map dec (zip_with Z.add rs fs).
Proof.
  revert filled ts. induction rs as [|r rs IH]; intros [|f filled] ts H Hr Hlen; try done.
  { injection H as <-. exists []. by split; [constructor|]. }
  inversion Hr; subst. cbn [map addTargets] in H. apply bind_Ok in H as (t & Ht & H). apply bind_Ok in H as (ts' & Hts & H). injection H as <-.
  destruct (IH _ _ Hts) as (fs & Hfs & ->); [done|by injection Hlen|].
  apply addDecimal_inv in Ht as (a & b & Ha & Hb & ->). apply units_dec_Some in Ha as [-> _]; [|done].
  exists (b :: fs). by split; [constructor|].
Qed.

Lemma budgets_nonneg ps fs : Forall (Z.le 0) (zip_with budget ps fs).
Proof.
  revert fs. induction ps as [|p ps IH]; intros [|f fs]; cbn; constructor; [unfold budget; lia|apply IH].
Qed.

Lemma sumZ_zero l : Forall (Z.le 0) l → Exists (λ w, w ≠ 0) l ∨ sumZ l = 0.
Proof.
  induction 1 as [|x l Hx Hl IH]; [by right|]. destruct (decide (x = 0)) as [->|Hx0]; [|by left; constructor].
  destruct IH as [IH|IH]; [left; by constructor|right; cbn; lia].
Qed.

Lemma spread_ok_remaining Av W st ws rs zs :
  Forall2 (λ w r, 0 <= r ∧ (st | r) ∧ (w = 0 → r = 0) ∧ (Av <= W → r <= w)) ws rs →
  Forall2 (spread_ok Av W st) (zip ws rs) zs →
  Forall2 (λ w z, 0 <= z ∧ (st | z) ∧ (w = 0 → z = 0) ∧ (Av <= W → z <= w)) ws zs.
Proof.
  intros H. revert zs. induction H as [|w r ws rs (H1 & H2 & H3 & H4) _ IH]; intros zs Hz; inversion Hz as [|? z ? zs' Hs Hzs]; subst;
    constructor; [|by apply IH]. destruct Hs as (K1 & K2 & K3 & K4). cbn [fst snd] in *.
  split_and!; [done|done|intros ->; by rewrite K3, H3|intros Hle; apply K4; [done|by apply H4]].
Qed.

(** C24: resizing the take-profit targets to the proved net quantity accounts for
    every unit of it: the outstanding quantities are multiples of the step and,
    with the unallocated rest, sum exactly to the net quantity; each new total
    is the outstanding quantity plus what the target has executed; a consumed
    target gets nothing again; when the position shrank no target outgrows its
    old unconsumed budget, and when it grew less than one step stays
    unallocated. *)
Theorem resize_conserves previous filled net step al st : resizeTargetTotals previous filled net step = Ok al →
  units step = Some st →
  ∃ ps fs zs N U, trimmed previous ps ∧ meaning filled fs ∧ units net = Some N ∧ 0 < st ∧
    al_remaining al = map dec zs ∧ al_totals al = map dec (zip_with Z.add zs fs) ∧ al_unallocatedQuantity al = dec U ∧
    0 <= U ∧ sumZ zs + U = N ∧
    Forall2 (λ w z, 0 <= z ∧ (st | z) ∧ (w = 0 → z = 0) ∧
               (N / st * st <= sumZ (zip_with budget ps fs) → z <= w)) (zip_with budget ps fs) zs ∧
    (sumZ (zip_with budget ps fs) < N / st * st → U < st).
Proof.
  intros H Hstep. unfold resizeTargetTotals in H. destruct (bool_decide_reflect (previous = [])) as [|Hne]; [done|].
  destruct (Nat.eqb_spec (length previous) (length filled)) as [Hlen|]; cbn [negb orb] in H; [|done].
  apply bind_Ok in H as (u1 & _ & H). apply bind_Ok in H as (u2 & _ & H). apply bind_Ok in H as (ws & Hws & H).
  destruct (targetWeights_inv _ _ _ Hws Hlen) as (ps & fs & Hps & Hfs & ->). pose proof (budgets_nonneg ps fs) as Hb0.
  apply bind_Ok in H as (W & HW & H). apply (sumDecimals_dec _ _ Hb0) in HW as ->.
  set (bs := zip_with budget ps fs) in *. set (Wz := sumZ bs) in *. assert (0 <= Wz) as HW0 by (by apply sumZ_nonneg).
  apply bind_Ok in H as (nn & Hn & H). apply bind_Ok in H as (ss & Hs & H). apply bind_Ok in H as (av & Hav & H).
  apply decimal_inv in Hn as (N & HN & -> & HNb & _). apply decimal_inv in Hs as (st' & Hst & -> & Hstb & Hstp & _). specialize (Hstp eq_refl).
  rewrite (units_trim _ _ Hstep), Hstep in Hst. injection Hst as <-.
  apply quantizeDecimalDown_inv in Hav as (a & b & Ha & Hb & _ & _ & ->). rewrite units_dec_lt in Ha, Hb by lia.
  injection Ha as <-. injection Hb as <-. destruct (grid_floor N st Hstp ltac:(lia)) as [[HA0 HAN] HdA]. set (Av := N / st * st) in *.
  rewrite !dec_is_0 in H by done.
  destruct ((Wz =? 0) && negb (Av =? 0)) eqn:Ewz; [done|].
  apply bind_Ok in H as (shares & Hsh & H). apply bind_Ok in H as (rem & Hrem & H). apply bind_Ok in H as (tots & Htots & H).
  apply bind_Ok in H as (alloc & Halloc & H). apply bind_Ok in H as (un & Hun & H). injection H as <-.
  apply subtractDecimal_inv in Hun as (n & s & Hn & Hs & Hsn & ->). rewrite (units_trim _ _ Hn), Hn in HN. injection HN as ->.
  assert (units (dec Av) = Some Av) as HuA by (apply units_dec_lt; lia).
  eapply initialShares_inv in Hsh as (HWL & rs & -> & Hrs); [|exact HuA|exact Hstep|done..].
  assert (length bs = length previous) as Hbl.
  { unfold bs. rewrite length_zip_with, <- (Forall2_length _ _ _ Hps), <- (Forall2_length _ _ _ Hfs). lia. }
  assert (bs ≠ []) as Hbne by (intros E; apply Hne; destruct previous; [done|by rewrite E in Hbl]).
  eapply allocateRoundingRemainder_inv in Hrem as (zs & -> & Hall & Hsum & Hexp);
    [|exact HuA|by apply units_dec_lt; auto|exact Hstep|done..].
  pose proof (spread_ok_remaining _ _ _ _ _ _ Hrs Hall) as Hz.
  assert (Forall (Z.le 0) zs) as Hz0 by (clear -Hz; induction Hz as [|? ? ? ? (? & _)]; by constructor).
  apply addTargets_inv in Htots as (fs' & Hfs' & ->); [|done|rewrite <- (Forall2_length _ _ _ Hz); lia].
  pose proof (trimmed_fun _ _ _ Hfs Hfs') as <-. apply (sumDecimals_dec _ _ Hz0) in Halloc as ->.
  apply units_dec_Some in Hs as [-> _]; [|by apply sumZ_nonneg].
  exists ps, fs, zs, N, (N - sumZ zs). split_and!; try done; [lia..|].
  fold bs Wz Av. intros HWA. pose proof (Z.mod_pos_bound N st Hstp). pose proof (Z.div_mod N st ltac:(lia)).
  rewrite Hexp; [unfold Av; lia|done|]. destruct (sumZ_zero bs Hb0) as [|E]; [done|].
  fold Wz in E. rewrite E in *. destruct (Z.eqb_spec Av 0); [lia|done].
Qed.

Lemma resize_conserves_witness :
  resizeTargetTotals ["0.33"; "0.33"; "0.34"] ["0.33"; "0.1"; "0"] "0.503" "0.01"
    = Ok (mkAllocation ["0.33"; "0.3"; "0.3"] ["0"; "0.2"; "0.3"] "0.003") ∧
  ∃ zs N U st, units "0.503" = Some N ∧ units "0.01" = Some st ∧ ["0"; "0.2"; "0.3"] = map dec zs ∧ sumZ zs + U = N.
Proof.
  assert (resizeTargetTotals ["0.33"; "0.33"; "0.34"] ["0.33"; "0.1"; "0"] "0.503" "0.01"
    = Ok (mkAllocation ["0.33"; "0.3"; "0.3"] ["0"; "0.2"; "0.3"] "0.003")) as H by (vm_compute; reflexivity).
  split; [exact H|].
  assert (units "0.01" = Some 10000000000000000) as Hst by (vm_compute; reflexivity).
  destruct (resize_conserves _ _ _ _ _ _ H Hst) as (ps & fs & zs & N & U & _ & _ & HN & _ & Hr & _ & _ & _ & Hs & _).
  exists zs, N, U, 10000000000000000. exact (conj HN (conj Hst (conj Hr Hs))).
Defined.

(** ** Completion evidence, in units *)
Definition completed_when (total before current : Z) (done_ out : bool) : Prop :=
  before <= current ∧ (out = true ↔ done_ = true ∨ (before < total <= current ∧ before < current)).

Lemma completedTargets_inv totals previous completed filled out :
  completedTargets totals previous completed filled = Ok out →
  length previous = length totals → length completed = length totals → length filled = length totals →
  length out = length totals ∧
  ∀ i total before done_ current, totals !! i = Some total → previous !! i = Some before → completed !! i = Some done_ →
    filled !! i = Some current →
    ∃ b c out_i, out !! i = Some out_i ∧ units before = Some b ∧ units current = Some c ∧ b <= c ∧ (done_ = true → out_i = true) ∧
      (∀ t, units total = Some t → completed_when t b c done_ out_i).
Proof.
  revert previous completed filled out.
  induction totals as [|t totals IH]; intros [|b previous] [|d completed] [|c filled] out H H1 H2 H3; try discriminate.
  { injection H as <-. split; [done|]. intros i ? ? ? ? E. discriminate E. }
  cbn [completedTargets] in H. apply bind_Ok in H as (o & Ho & H). apply compareDecimal_inv in Ho as (cz & bz & Hc & Hb & ->).
  destruct (cmpZ_spec cz bz) as (Elt & _ & _). rewrite Elt in H. destruct (Z.ltb_spec cz bz) as [|Hle]; [done|].
  apply bind_Ok in H as (now & Hnow & H). apply bind_Ok in H as (rest & Hrest & H). injection H as <-.
  cbn in H1, H2, H3. destruct (IH _ _ _ _ Hrest) as [Hl Hall]; [lia..|]. split; [cbn; lia|].
  intros [|i] total before done_ current E1 E2 E3 E4; [|by eapply Hall].
  injection E1 as <-. injection E2 as <-. injection E3 as <-. injection E4 as <-.
  exists bz, cz, now. split_and!; [done|done|done|done|by intros ->; injection Hnow|].
  intros tz Ht. split; [done|]. destruct d. { injection Hnow as <-. tauto. }
  apply bind_Ok in Hnow as (c1 & Hc1 & Hnow). apply compareDecimal_inv in Hc1 as (x & y & Hx & Hy & ->).
  rewrite Ht in Hx. rewrite Hb in Hy. injection Hx as <-. injection Hy as <-.
  destruct (cmpZ_spec tz bz) as (_ & E & _). rewrite E in Hnow. destruct (Z.ltb_spec bz tz).
  2: { injection Hnow as <-. split; [done|]. intros [|[]]; [done|lia]. }
  apply bind_Ok in Hnow as (c2 & Hc2 & Hnow). apply compareDecimal_inv in Hc2 as (x & y & Hx & Hy & ->).
  rewrite Hc in Hx. rewrite Hb in Hy. injection Hx as <-. injection Hy as <-.
  destruct (cmpZ_spec cz bz) as (_ & E2 & _). rewrite E2 in Hnow. destruct (Z.ltb_spec bz cz).
  2: { injection Hnow as <-. split; [done|]. intros [|[]]; [done|lia]. }
  apply bind_Ok in Hnow as (c3 & Hc3 & Hnow). injection Hnow as <-. apply compareDecimal_inv in Hc3 as (x & y & Hx & Hy & ->).
  rewrite Hc in Hx. rewrite Ht in Hy. injection Hx as <-. injection Hy as <-.
  destruct (cmpZ_cases cz tz) as [[? ->]|[[? ->]|[? ->]]]; cbn; split; intros K; try done; try (destruct K; [done|lia]); right; lia.
Qed.

(** Take-profit completion is monotone evidence: an accepted update has one
    flag per target, refuses any fill that regressed, never reopens a completed
    target, and newly completes a target exactly when fills that arrived after
    the last observation reach a total that was still open. *)
Theorem completion_monotone totals previous completed filled out :
  completedTargetEvidence totals previous completed filled = Ok out →
  length out = length totals ∧
  ∀ i total before done_ current, totals !! i = Some total → previous !! i = Some before → completed !! i = Some done_ →
    filled !! i = Some current →
    ∃ b c out_i, out !! i = Some out_i ∧ units before = Some b ∧ units current = Some c ∧ b <= c ∧ (done_ = true → out_i = true) ∧
      (∀ t, units total = Some t → completed_when t b c done_ out_i).
Proof.
  intros H. unfold completedTargetEvidence in H.
  destruct (Nat.eqb_spec (length previous) (length totals)); [|done].
  destruct (Nat.eqb_spec (length completed) (length totals)); [|done].
  destruct (Nat.eqb_spec (length filled) (length totals)); [|done]. cbn [negb orb] in H.
  apply bind_Ok in H as (? & _ & H). apply bind_Ok in H as (? & _ & H). apply bind_Ok in H as (? & _ & H).
  by apply completedTargets_inv in H.
Qed.
