(* ===== verification/Maps.v ===== *)
(** Maps: a JavaScript [Map] with text keys whose entries are enumerated, as the
    list of its entries in insertion order. *)

From S2P Require Import Prelude.

(** [map.get(key)], [map.delete(key)] and [map.set(key, value)]. *)
Definition map_get {V} (key : string) (l : list (string * V)) : option V := (snd ∘ snd) <$> list_find (λ e, e.1 = key) l.
Definition map_delete {V} (key : string) (l : list (string * V)) : list (string * V) := filter (λ e, e.1 ≠ key) l.
Fixpoint map_set {V} (key : string) (v : V) (l : list (string * V)) : list (string * V) :=
  match l with
  | [] => [(key, v)]
  | (k, u) :: l' => if bool_decide (k = key) then (k, v) :: l' else (k, u) :: map_set key v l'
  end.

(** ** Keys and lookups *)
Section OrderedMap.
Context {V : Type}.
Implicit Types l : list (string * V).

Lemma map_get_Some key l v : map_get key l = Some v → (key, v) ∈ l.
Proof.
  unfold map_get. destruct (list_find _ _) as [[i [k u]]|] eqn:E; [|done]. intros [= <-].
  apply list_find_Some in E as (Hi & Hk & _). cbn in Hk. subst k. by eapply list_elem_of_lookup_2.
Qed.

Lemma map_get_None key l : map_get key l = None ↔ key ∉ map fst l.
Proof.
  unfold map_get. destruct (list_find _ _) as [[i [k u]]|] eqn:E.
  - apply list_find_Some in E as (Hi & Hk & _). cbn in Hk. subst k. split; [done|]. intros []. apply list_elem_of_fmap. exists (key, u).
    split; [done|by eapply list_elem_of_lookup_2].
  - split; [|done]. intros _ (e & -> & He)%list_elem_of_fmap. apply list_find_None in E. rewrite Forall_forall in E. by apply (E e He).
Qed.

Lemma map_delete_keys key l x : x ∈ map fst (map_delete key l) ↔ x ∈ map fst l ∧ x ≠ key.
Proof.
  unfold map_delete. rewrite !list_elem_of_fmap. split.
  - intros (e & -> & [Hne Hin]%list_elem_of_filter). split; [by exists e|done].
  - intros [(e & -> & Hin) Hne]. exists e. split; [done|]. by apply list_elem_of_filter.
Qed.

Lemma filter_keys_nodup (P : string * V → Prop) `{!∀ e, Decision (P e)} l : NoDup (map fst l) → NoDup (map fst (filter P l)).
Proof.
  induction l as [|e l IH]; intros Hn; [done|]. cbn in Hn. apply NoDup_cons in Hn as [Hni Hnd]. rewrite filter_cons.
  case_decide; cbn; [|by apply IH]. constructor; [|by apply IH]. intros (e' & E & [_ Hin]%list_elem_of_filter)%list_elem_of_fmap.
  apply Hni. rewrite E. by apply list_elem_of_fmap_2.
Qed.

Lemma map_set_keys key v l x : x ∈ map fst (map_set key v l) ↔ x = key ∨ x ∈ map fst l.
Proof.
  induction l as [|[k u] l IH]; cbn; [set_solver|]. case_bool_decide as Hk; cbn; [subst; set_solver|]. rewrite !elem_of_cons, IH. tauto.
Qed.

Lemma map_set_nodup key v l : NoDup (map fst l) → NoDup (map fst (map_set key v l)).
Proof.
  induction l as [|[k u] l IH]; cbn; intros H; [apply NoDup_singleton|]. case_bool_decide as Hk; cbn; [done|].
  apply NoDup_cons in H as [Hni Hnd]. constructor; [|by apply IH]. rewrite map_set_keys. intros [|]; [congruence|done].
Qed.

Lemma map_get_cons k k' v l : map_get k ((k', v) :: l) = if bool_decide (k' = k) then Some v else map_get k l.
Proof. unfold map_get. cbn. case_bool_decide; [by rewrite decide_True|]. rewrite decide_False by done. by destruct (list_find _ l) as [[i [a b]]|]. Qed.

Lemma map_get_set k k' v l : map_get k (map_set k' v l) = if bool_decide (k' = k) then Some v else map_get k l.
Proof.
  induction l as [|[a u] l IH]; cbn [map_set]; [by rewrite map_get_cons|]. destruct (decide (a = k')) as [->|Ha].
  - rewrite bool_decide_true, !map_get_cons by done. by destruct (bool_decide_reflect (k' = k)).
  - rewrite bool_decide_false, !map_get_cons, IH by done. destruct (bool_decide_reflect (a = k)) as [->|]; [|done]. by rewrite bool_decide_false.
Qed.

(** Setting a key that is present keeps the order of the keys. *)
Lemma map_set_same_keys k v l : k ∈ map fst l → map fst (map_set k v l) = map fst l.
Proof.
  induction l as [|[a u] l IH]; cbn [map_set map fst]; intros Hin; [by apply not_elem_of_nil in Hin|].
  destruct (decide (a = k)) as [->|Ha]; [by rewrite bool_decide_true|]. rewrite bool_decide_false by done. cbn [map fst]. f_equal. apply IH. by apply elem_of_cons in Hin as [->|].
Qed.

Lemma map_set_new k v l : k ∉ map fst l → map_set k v l = l ++ [(k, v)].
Proof.
  induction l as [|[a u] l IH]; cbn [map_set]; intros Hin; [done|]. cbn in Hin. apply not_elem_of_cons in Hin as [Hne Hin].
  rewrite bool_decide_false by congruence. cbn. by rewrite IH.
Qed.

Lemma map_get_In k v l : NoDup (map fst l) → (k, v) ∈ l → map_get k l = Some v.
Proof.
  induction l as [|[a u] l IH]; intros Hn Hin; [by apply not_elem_of_nil in Hin|]. cbn in Hn. apply NoDup_cons in Hn as [Hni Hn].
  rewrite map_get_cons. apply elem_of_cons in Hin as [[= <- <-]|Hin]; [by rewrite bool_decide_true|]. rewrite bool_decide_false; [by apply IH|].
  intros ->. apply Hni. apply list_elem_of_fmap. by exists (k, v).
Qed.

Lemma map_get_head k v l : map_get k ((k, v) :: l) = Some v.
Proof. unfold map_get. cbn. by rewrite decide_True. Qed.

End OrderedMap.
