(* ===== verification/Queue.v ===== *)
(** Queue: [src/queue.ts], the bounded concurrency queue.

    A state of [ConcurrencyQueue] holds the fields of the class.  Tasks, and the
    promises [add] and [waitForIdle] return, are named by the order of their
    creation.  The asynchronous callbacks (the task's own promise, its timeout,
    the drain timeout) are the events [TaskSettles], [TimeoutFires] and
    [DrainTimeoutFires]; [settlements] and [drains] record every call of a
    promise's [resolve] or [reject], so that a second call would be visible, and
    [started] the tasks given to [run]. *)

From S2P Require Import Prelude Text.
From Stdlib Require Import QArith.QArith_base QArith.Qround.
Local Open Scope Z_scope.

(** [String(n)] of a non-negative integer. *)
Definition show_nat (n : Z) : string := of_chars (to_digits n).

(** A running task: its controller's signal and the locals of [run]. *)
Record RunningTask := mkRunning {
  rt_id : nat;
  rt_callerSettled : bool;
  rt_aborted : bool;
  rt_timeoutMs : Z }.

Record ConcurrencyQueue := mkQueue {
  maxConcurrency : Z;
  timeoutMs : Z;
  (** [None] is [Number.POSITIVE_INFINITY]. *)
  maxPending : option Z;
  running : Z;
  queue : list nat;
  paused : bool;
  activeControllers : list RunningTask;
  idleWaiters : list nat;
  nextPromise : nat;
  nextWaiter : nat;
  started : list nat;
  settlements : list (nat * result string);
  drains : list (nat * result bool) }.

Definition constructor_ (maxConcurrency timeoutMs : Z) (maxPending : option Z) : ConcurrencyQueue :=
  mkQueue maxConcurrency timeoutMs maxPending 0 [] false [] [] 0 0 [] [] [].

(** ** Field updates *)
Definition with_queue (l : list nat) (q : ConcurrencyQueue) : ConcurrencyQueue :=
  mkQueue (maxConcurrency q) (timeoutMs q) (maxPending q) (running q) l (paused q) (activeControllers q) (idleWaiters q)
    (nextPromise q) (nextWaiter q) (started q) (settlements q) (drains q).
Definition with_paused (b : bool) (q : ConcurrencyQueue) : ConcurrencyQueue :=
  mkQueue (maxConcurrency q) (timeoutMs q) (maxPending q) (running q) (queue q) b (activeControllers q) (idleWaiters q)
    (nextPromise q) (nextWaiter q) (started q) (settlements q) (drains q).
Definition with_active (l : list RunningTask) (q : ConcurrencyQueue) : ConcurrencyQueue :=
  mkQueue (maxConcurrency q) (timeoutMs q) (maxPending q) (running q) (queue q) (paused q) l (idleWaiters q)
    (nextPromise q) (nextWaiter q) (started q) (settlements q) (drains q).
Definition with_limits (c t : Z) (q : ConcurrencyQueue) : ConcurrencyQueue :=
  mkQueue c t (maxPending q) (running q) (queue q) (paused q) (activeControllers q) (idleWaiters q)
    (nextPromise q) (nextWaiter q) (started q) (settlements q) (drains q).
Definition with_idle (ws : list nat) (n : nat) (ds : list (nat * result bool)) (q : ConcurrencyQueue) : ConcurrencyQueue :=
  mkQueue (maxConcurrency q) (timeoutMs q) (maxPending q) (running q) (queue q) (paused q) (activeControllers q) ws
    (nextPromise q) n (started q) (settlements q) ds.
Definition with_promise (n : nat) (q : ConcurrencyQueue) : ConcurrencyQueue :=
  mkQueue (maxConcurrency q) (timeoutMs q) (maxPending q) (running q) (queue q) (paused q) (activeControllers q) (idleWaiters q)
    n (nextWaiter q) (started q) (settlements q) (drains q).

(** [resolve(value)] or [reject(error)] of the promise of task [id]. *)
Definition settle (id : nat) (outcome : result string) (q : ConcurrencyQueue) : ConcurrencyQueue :=
  mkQueue (maxConcurrency q) (timeoutMs q) (maxPending q) (running q) (queue q) (paused q) (activeControllers q) (idleWaiters q)
    (nextPromise q) (nextWaiter q) (started q) (settlements q ++ [(id, outcome)]) (drains q).

(** ** Operations *)
Definition isAtCapacity (q : ConcurrencyQueue) : bool :=
  match maxPending q with Some m => Z.of_nat (length (queue q)) >=? m | None => false end.

Definition availableCapacity (q : ConcurrencyQueue) : Z :=
  match maxPending q with Some m => Z.max 0 (m - Z.of_nat (length (queue q))) | None => MAX_SAFE_INTEGER end.

(** [run(item)]: the synchronous part. *)
Definition run (id : nat) (q : ConcurrencyQueue) : ConcurrencyQueue :=
  mkQueue (maxConcurrency q) (timeoutMs q) (maxPending q) (running q + 1) (queue q) (paused q)
    (activeControllers q ++ [mkRunning id false false (timeoutMs q)]) (idleWaiters q)
    (nextPromise q) (nextWaiter q) (started q ++ [id]) (settlements q) (drains q).

Definition next (q : ConcurrencyQueue) : ConcurrencyQueue :=
  if paused q then q
  else if running q >=? maxConcurrency q then q
  else match queue q with
       | [] => q
       | item :: rest => run item (with_queue rest q)
       end.

Definition QueueCapacityError (maxPending : Z) : error :=
  mkError "" ("Queue pending-task capacity of " +:+ show_nat maxPending +:+ " has been reached.").

(** [add(taskFn)]; [callable] is [typeof taskFn === 'function']. *)
Definition add (callable : bool) (q : ConcurrencyQueue) : ConcurrencyQueue :=
  let id := nextPromise q in
  let q1 := with_promise (S id) q in
  if negb callable then settle id (throw "Task must be a function returning a Promise.") q1
  else if isAtCapacity q then settle id (Err (QueueCapacityError (default 0 (maxPending q)))) q1
  else next (with_queue (queue q ++ [id]) q1).

Definition pause (q : ConcurrencyQueue) : ConcurrencyQueue := with_paused true q.

Definition resume (q : ConcurrencyQueue) : ConcurrencyQueue :=
  if negb (paused q) then q else Nat.iter (Z.to_nat (maxConcurrency q)) next (with_paused false q).

Definition clear (q : ConcurrencyQueue) : ConcurrencyQueue :=
  foldl (λ q id, settle id (throw "Queue was cleared.") q) (with_queue [] q) (queue q).

Definition abortRunning (q : ConcurrencyQueue) : ConcurrencyQueue :=
  with_active (map (λ t, mkRunning (rt_id t) (rt_callerSettled t) true (rt_timeoutMs t)) (activeControllers q)) q.

Definition waitForIdle (timeout : Z) (q : ConcurrencyQueue) : ConcurrencyQueue :=
  let w := nextWaiter q in
  if running q =? 0 then with_idle (idleWaiters q) (S w) (drains q ++ [(w, Ok true)]) q
  else if negb (isSafeInteger timeout) || (timeout <? 0)
  then with_idle (idleWaiters q) (S w) (drains q ++ [(w, throw "Queue drain timeout must be a non-negative safe integer.")]) q
  else with_idle (idleWaiters q ++ [w]) (S w) (drains q) q.

(** [finish(false)] of a drain that is still waiting. *)
Definition drainTimeoutFires (w : nat) (q : ConcurrencyQueue) : ConcurrencyQueue :=
  if bool_decide (w ∈ idleWaiters q)
  then with_idle (filter (λ v, v ≠ w) (idleWaiters q)) (nextWaiter q) (drains q ++ [(w, Ok false)]) q else q.

(** Numbers as the settings page sends them: [None] is NaN or an infinity. *)
Definition updateSettings (concurrency timeout : option Q) (q : ConcurrencyQueue) : ConcurrencyQueue :=
  let c := match concurrency with Some x => if Qle_bool 1 x then Qfloor x else maxConcurrency q | None => maxConcurrency q end in
  let t := match timeout with Some x => if Qle_bool 0 x then Qfloor x else timeoutMs q | None => timeoutMs q end in
  let q1 := with_limits c t q in
  if paused q then q1 else Nat.iter (Z.to_nat (c - running q)) next q1.

Definition releaseSlot (id : nat) (q : ConcurrencyQueue) : ConcurrencyQueue :=
  let r := running q - 1 in
  let q1 := mkQueue (maxConcurrency q) (timeoutMs q) (maxPending q) r (queue q) (paused q)
    (filter (λ t, rt_id t ≠ id) (activeControllers q)) (idleWaiters q) (nextPromise q) (nextWaiter q)
    (started q) (settlements q) (drains q) in
  next (if r =? 0 then with_idle [] (nextWaiter q) (drains q ++ map (λ w, (w, Ok true)) (idleWaiters q)) q1 else q1).

Definition find_task (id : nat) (q : ConcurrencyQueue) : option RunningTask :=
  snd <$> list_find (λ t, rt_id t = id) (activeControllers q).

(** The two continuations of the task's promise. *)
Definition taskSettles (id : nat) (outcome : result string) (q : ConcurrencyQueue) : ConcurrencyQueue :=
  match find_task id q with
  | Some t => let q1 := releaseSlot id q in if rt_callerSettled t then q1 else settle id outcome q1
  | None => q
  end.

(** The timer of [run]; it is cleared with the slot. *)
Definition timeoutFires (id : nat) (q : ConcurrencyQueue) : ConcurrencyQueue :=
  match find_task id q with
  | Some t =>
      if (rt_timeoutMs t >? 0) && negb (rt_callerSettled t)
      then settle id (throw ("Task timed out after " +:+ show_nat (rt_timeoutMs t) +:+ "ms"))
             (with_active (map (λ u, if bool_decide (rt_id u = id) then mkRunning (rt_id u) true true (rt_timeoutMs u) else u)
                             (activeControllers q)) q)
      else q
  | None => q
  end.

(** ** Runs *)
Inductive QueueEvent :=
| Add (callable : bool) | Pause | Resume | Clear | AbortRunning
| WaitForIdle (timeout : Z) | DrainTimeoutFires (w : nat)
| UpdateSettings (concurrency timeout : option Q)
| TaskSettles (id : nat) (outcome : result string) | TimeoutFires (id : nat).

Definition handle (e : QueueEvent) (q : ConcurrencyQueue) : ConcurrencyQueue :=
  match e with
  | Add c => add c q
  | Pause => pause q
  | Resume => resume q
  | Clear => clear q
  | AbortRunning => abortRunning q
  | WaitForIdle t => waitForIdle t q
  | DrainTimeoutFires w => drainTimeoutFires w q
  | UpdateSettings c t => updateSettings c t q
  | TaskSettles id o => taskSettles id o q
  | TimeoutFires id => timeoutFires id q
  end.

Inductive reachable (c t : Z) (m : option Z) : ConcurrencyQueue → Prop :=
| reachable_new : reachable c t m (constructor_ c t m)
| reachable_event e q : reachable c t m q → reachable c t m (handle e q).

(** ** Invariant *)
Definition active_ids (q : ConcurrencyQueue) : list nat := map rt_id (activeControllers q).
Definition settled_ids (q : ConcurrencyQueue) : list nat := map fst (settlements q).

Record queue_core (q : ConcurrencyQueue) : Prop := {
  (** The counter counts the running tasks. *)
  qc_running : running q = Z.of_nat (length (activeControllers q));
  (** Tasks are started in the order they were added. *)
  qc_fifo : StronglySorted lt (started q ++ queue q);
  qc_fresh : Forall (λ id, (id < nextPromise q)%nat) (started q ++ queue q);
  qc_active : NoDup (active_ids q) ∧ active_ids q ⊆ started q;
  (** Every promise is settled at most once. *)
  qc_settled : NoDup (settled_ids q) ∧ Forall (λ id, (id < nextPromise q)%nat) (settled_ids q);
  qc_unsettled : ∀ id, id ∈ queue q → id ∉ settled_ids q;
  qc_caller : ∀ t, t ∈ activeControllers q → rt_callerSettled t = true ↔ rt_id t ∈ settled_ids q;
  (** The waiting list respects its bound. *)
  qc_pending : ∀ m, maxPending q = Some m → Z.of_nat (length (queue q)) <= Z.max 0 m;
  (** Drain promises are settled at most once, and none waits on an idle queue. *)
  qc_drains : NoDup (map fst (drains q) ++ idleWaiters q) ∧
    Forall (λ w, (w < nextWaiter q)%nat) (map fst (drains q) ++ idleWaiters q);
  qc_idle : running q = 0 → idleWaiters q = [] }.

(** Every promise but [x] waits, runs or is settled. *)
Definition accounted (x : option nat) (q : ConcurrencyQueue) : Prop :=
  ∀ id, (id < nextPromise q)%nat → x ≠ Some id → id ∈ queue q ∨ id ∈ active_ids q ∨ id ∈ settled_ids q.

(** No worker idles while work waits. *)
Definition work_conserving (q : ConcurrencyQueue) : Prop :=
  paused q = false → queue q ≠ [] → maxConcurrency q <= running q.

Lemma next_cases q :
  (next q = q ∧ (paused q = true ∨ maxConcurrency q <= running q ∨ queue q = [])) ∨
  (∃ item rest, queue q = item :: rest ∧ paused q = false ∧ running q < maxConcurrency q ∧
     next q = run item (with_queue rest q)).
Proof.
  unfold next. destruct (paused q) eqn:Ep; [by auto|]. rewrite Z.geb_leb. destruct (Z.leb_spec (maxConcurrency q) (running q)); [by auto|].
  destruct (queue q) as [|item rest] eqn:E; [by auto|]. right. by exists item, rest.
Qed.

Lemma next_core q : queue_core q → queue_core (next q).
Proof.
  intros H. destruct (next_cases q) as [[-> _]|(item & rest & Eq & _ & _ & ->)]; [done|].
  destruct H as [Hr Hf Hfr [Ha Has] Hs Hu Hc Hp Hd Hi]. rewrite Eq in Hf, Hfr, Hu, Hp.
  assert (item ∉ started q) as Hni.
  { intros Hin. apply StronglySorted_app in Hf as (Hlt & _ & _). specialize (Hlt item item Hin ltac:(left)). lia. }
  assert (item ∉ settled_ids q) as Hns by (apply Hu; left).
  constructor; cbn.
  - rewrite length_app, Hr. cbn. lia.
  - by rewrite <- app_assoc.
  - by rewrite <- app_assoc.
  - unfold active_ids in *. cbn. rewrite map_app. cbn. split.
    + apply NoDup_app. split_and!; [done| |by apply NoDup_singleton]. intros x Hx ->%list_elem_of_singleton. by apply Hni, Has.
    + intros x. rewrite !elem_of_app. intros [Hx|Hx]; [left; by apply Has|by right].
  - done.
  - intros id Hid. apply Hu. by right.
  - intros t. rewrite elem_of_app, list_elem_of_singleton. intros [Ht| ->]; [by apply Hc|]. cbn. split; [done|]. intros Hin. by destruct Hns.
  - intros m Hm. specialize (Hp m Hm). cbn in Hp. lia.
  - done.
  - intros Hz. apply Hi. pose proof Hr. lia.
Qed.

Lemma next_accounted x q : accounted x q → accounted x (next q).
Proof.
  intros H. destruct (next_cases q) as [[-> _]|(item & rest & Eq & _ & _ & ->)]; [done|].
  intros id Hid Hx. destruct (H id Hid Hx) as [Hin|[Hin|Hin]].
  - rewrite Eq in Hin. apply elem_of_cons in Hin as [->|Hin]; [right; left|by left].
    unfold active_ids. cbn. rewrite map_app, elem_of_app. right. by left.
  - right; left. unfold active_ids in *. cbn. rewrite map_app, elem_of_app. by left.
  - by right; right.
Qed.

Lemma iter_next_core n q : queue_core q → queue_core (Nat.iter n next q).
Proof. intros H. induction n; cbn; [done|by apply next_core]. Qed.

Lemma iter_next_accounted n x q : accounted x q → accounted x (Nat.iter n next q).
Proof. intros H. induction n; cbn; [done|by apply next_accounted]. Qed.

Lemma next_settings q : maxConcurrency (next q) = maxConcurrency q ∧ paused (next q) = paused q ∧ running q <= running (next q) ∧
  (running (next q) = running q ∨ running (next q) <= maxConcurrency q).
Proof. destruct (next_cases q) as [[-> _]|(item & rest & Eq & _ & ? & ->)]; cbn; split_and!; try done; lia. Qed.

(** [n] calls of [next] fill [n] free slots. *)
Lemma iter_next_conserving n q :
  (paused q = false → queue q ≠ [] → maxConcurrency q <= running q + Z.of_nat n) → work_conserving (Nat.iter n next q).
Proof.
  revert q. induction n as [|n IH]; intros q H.
  { cbn. intros Hp Hq. specialize (H Hp Hq). lia. }
  rewrite Nat.iter_succ_r. apply IH. destruct (next_cases q) as [[-> Hc]|(item & rest & Eq & Hp & Hlt & ->)].
  - intros Hp Hq. specialize (H Hp Hq). destruct Hc as [|[|]]; [congruence|lia|done].
  - cbn. intros _ _. specialize (H Hp ltac:(by rewrite Eq)). lia.
Qed.

Lemma next_conserving q : (paused q = false → queue q ≠ [] → maxConcurrency q <= running q + 1) → work_conserving (next q).
Proof. exact (iter_next_conserving 1 q). Qed.

Lemma iter_next_settings n q : maxConcurrency (Nat.iter n next q) = maxConcurrency q ∧ paused (Nat.iter n next q) = paused q ∧
  (running (Nat.iter n next q) = running q ∨ running (Nat.iter n next q) <= maxConcurrency q).
Proof.
  induction n as [|n (H1 & H2 & H3)]; [by auto|]. rewrite Nat.iter_succ. destruct (next_settings (Nat.iter n next q)) as (E1 & E2 & _ & E4).
  split_and!; [congruence|congruence|]. rewrite H1 in E4. destruct E4 as [->|]; auto.
Qed.

(** *** Each operation *)
Lemma settle_core id o q : queue_core q → (id < nextPromise q)%nat → id ∉ settled_ids q → id ∉ queue q → id ∉ active_ids q →
  queue_core (settle id o q).
Proof.
  intros [Hr Hf Hfr Ha [Hs1 Hs2] Hu Hc Hp Hd Hi] Hid Hns Hnq Hna.
  constructor; unfold settled_ids in *; cbn; try done; rewrite ?map_app; cbn.
  - split; [|apply Forall_app; split; [done|by constructor]].
    apply NoDup_app. split_and!; [done| |by apply NoDup_singleton]. intros x Hx ->%list_elem_of_singleton. done.
  - intros x Hx. rewrite elem_of_app, list_elem_of_singleton. intros [|]; [by eapply Hu|by subst].
  - intros t Ht. rewrite (Hc t Ht), elem_of_app, list_elem_of_singleton. split; [by left|]. intros [|E]; [done|].
    exfalso. apply Hna. rewrite <- E. unfold active_ids. by apply list_elem_of_fmap_2.
Qed.

Lemma settle_accounted id o q : accounted (Some id) q → accounted None (settle id o q).
Proof.
  intros H i Hi _. unfold settled_ids. cbn. rewrite map_app. cbn. rewrite elem_of_app, list_elem_of_singleton.
  destruct (decide (i = id)) as [->|Hne]; [auto|]. destruct (H i Hi) as [|[|]]; [congruence|auto..].
Qed.

Lemma sorted_app_snoc (l : list nat) n : StronglySorted lt l → Forall (λ i, (i < n)%nat) l → StronglySorted lt (l ++ [n]).
Proof.
  intros Hs Hl. apply StronglySorted_app. split_and!; [|done|by repeat constructor].
  intros x y Hx ->%list_elem_of_singleton. rewrite Forall_forall in Hl. by apply Hl.
Qed.

Lemma with_promise_core q : queue_core q → queue_core (with_promise (S (nextPromise q)) q).
Proof.
  intros [Hr Hf Hfr Ha [Hs1 Hs2] Hu Hc Hp Hd Hi]. constructor; cbn; try done.
  - eapply Forall_impl; [exact Hfr|]. intros x ?. cbn in *. lia.
  - split; [done|]. eapply Forall_impl; [exact Hs2|]. intros x ?. cbn in *. lia.
Qed.

Lemma fresh_nowhere q : queue_core q → accounted None q →
  (nextPromise q ∉ queue q) ∧ (nextPromise q ∉ active_ids q) ∧ (nextPromise q ∉ settled_ids q).
Proof.
  intros [Hr Hf Hfr [_ Has] [_ Hs2] Hu Hc Hp Hd Hi] _. rewrite Forall_app in Hfr. destruct Hfr as [Hst Hq].
  rewrite Forall_forall in Hst, Hq, Hs2.
  split_and!; intros Hin; [specialize (Hq _ Hin)|specialize (Hst _ (Has _ Hin))|specialize (Hs2 _ Hin)]; lia.
Qed.

Lemma enqueue_core q : queue_core q → accounted None q → isAtCapacity q = false →
  queue_core (with_queue (queue q ++ [nextPromise q]) (with_promise (S (nextPromise q)) q)).
Proof.
  intros H Hacc Hcap. destruct (fresh_nowhere q H Hacc) as (Hnq & _ & Hns). pose proof (with_promise_core q H) as [Hr Hf Hfr Ha Hs Hu Hc Hp Hd Hi].
  pose proof (qc_fresh q H) as Hfresh. cbn in Hr, Hf, Hfr, Ha, Hs, Hu, Hc, Hp, Hd, Hi. constructor; cbn; try done.
  - rewrite app_assoc. by apply sorted_app_snoc.
  - rewrite app_assoc, Forall_app. split; [done|]. constructor; [lia|done].
  - intros x. rewrite elem_of_app, list_elem_of_singleton. intros [|]; [by apply Hu|by subst].
  - intros m Hm. unfold isAtCapacity in Hcap. rewrite Hm in Hcap. rewrite Z.geb_leb, Z.leb_gt in Hcap. rewrite length_app. cbn. lia.
Qed.

(** [clear] settles the promises it takes off the waiting list one by one. *)
Lemma clear_loop ids q : queue_core q → queue q = [] → NoDup ids →
  (∀ id, id ∈ ids → (id < nextPromise q)%nat ∧ (id ∉ settled_ids q) ∧ (id ∉ active_ids q)) →
  (∀ id, (id < nextPromise q)%nat → id ∈ ids ∨ id ∈ active_ids q ∨ id ∈ settled_ids q) →
  let q' := foldl (λ q id, settle id (throw "Queue was cleared.") q) q ids in
  queue_core q' ∧ accounted None q' ∧ queue q' = [] ∧ running q' = running q ∧ maxConcurrency q' = maxConcurrency q.
Proof.
  revert q. induction ids as [|id ids IH]; intros q H Eq Hnd Hids Hacc; cbn.
  { split_and!; try done. intros i Hi _. destruct (Hacc i Hi) as [Hin|[|]]; [by apply not_elem_of_nil in Hin|auto..]. }
  apply NoDup_cons in Hnd as [Hni Hnd]. destruct (Hids id ltac:(left)) as (Hlt & Hns & Hna).
  apply (IH (settle id (throw "Queue was cleared.") q)); [|done|done| |].
  - apply settle_core; try done. rewrite Eq. apply not_elem_of_nil.
  - intros i Hi. destruct (Hids i ltac:(by right)) as (? & ? & ?). split_and!; try done.
    unfold settled_ids. cbn. rewrite map_app. cbn. rewrite elem_of_app, list_elem_of_singleton. intros [|]; [done|by subst].
  - intros i Hi. unfold settled_ids. cbn. rewrite map_app. cbn. rewrite elem_of_app, list_elem_of_singleton.
    destruct (Hacc i Hi) as [[->|]%elem_of_cons|[|]]; auto.
Qed.

Lemma with_queue_nil_core q : queue_core q → queue_core (with_queue [] q).
Proof.
  intros [Hr Hf Hfr Ha Hs Hu Hc Hp Hd Hi]. constructor; cbn; try done; rewrite ?app_nil_r.
  - by apply StronglySorted_app in Hf as (_ & ? & _).
  - by apply Forall_app in Hfr as [? _].
  - intros id Hid. by apply not_elem_of_nil in Hid.
  - intros m Hm. lia.
Qed.

Lemma queue_not_active q id : queue_core q → id ∈ queue q → id ∉ active_ids q.
Proof.
  intros [Hr Hf Hfr [_ Has] Hs Hu Hc Hp Hd Hi] Hin Hact. apply StronglySorted_app in Hf as (Hlt & _ & _).
  specialize (Hlt id id (Has _ Hact) Hin). lia.
Qed.

Lemma sorted_lt_nodup (l : list nat) : StronglySorted lt l → NoDup l.
Proof.
  induction 1 as [|x l Hs IH Hx]; constructor; [|done]. intros Hin. rewrite Forall_forall in Hx. specialize (Hx x Hin). lia.
Qed.

Lemma queue_nodup q : queue_core q → NoDup (queue q).
Proof. intros H. eapply sorted_lt_nodup, StronglySorted_app_1_r, H. Qed.

Lemma clear_ok q : queue_core q → accounted None q →
  queue_core (clear q) ∧ accounted None (clear q) ∧ queue (clear q) = [] ∧ running (clear q) = running q ∧ maxConcurrency (clear q) = maxConcurrency q.
Proof.
  intros H Hacc. unfold clear. apply (clear_loop (queue q) (with_queue [] q)); [by apply with_queue_nil_core|done|by apply queue_nodup| |].
  - intros id Hin. split_and!; [|by apply (qc_unsettled q H)|by apply (queue_not_active q id)].
    pose proof (qc_fresh q H) as Hf. rewrite Forall_app in Hf. destruct Hf as [_ Hf]. rewrite Forall_forall in Hf. by apply Hf.
  - intros id Hid. by apply Hacc.
Qed.

Lemma filter_release (l : list RunningTask) id t : NoDup (map rt_id l) → t ∈ l → rt_id t = id →
  length l = S (length (filter (λ u, rt_id u ≠ id) l)).
Proof.
  intros Hnd Hin Hid. induction l as [|u l IH]; [by apply not_elem_of_nil in Hin|]. cbn in Hnd. apply NoDup_cons in Hnd as [Hni Hnd].
  rewrite filter_cons. apply elem_of_cons in Hin as [<-|Hin].
  - rewrite decide_False by tauto. cbn. f_equal. clear IH. assert (∀ u, u ∈ l → rt_id u ≠ id) as Hall.
    { intros u Hu E. apply Hni. rewrite Hid, <- E. by apply list_elem_of_fmap_2. }
    clear Hni Hnd. induction l as [|u l IH]; [done|]. rewrite filter_cons, decide_True by (apply Hall; left). cbn. f_equal.
    apply IH. intros v Hv. apply Hall. by right.
  - rewrite decide_True; [cbn; f_equal; by apply IH|]. intros E. apply Hni. rewrite E, <- Hid. by apply list_elem_of_fmap_2.
Qed.

Lemma map_filter_id (l : list RunningTask) id i :
  i ∈ map rt_id (filter (λ u, rt_id u ≠ id) l) ↔ i ∈ map rt_id l ∧ i ≠ id.
Proof.
  rewrite !list_elem_of_fmap. split.
  - intros (u & -> & [Hne Hin]%list_elem_of_filter). split; [by exists u|done].
  - intros [(u & -> & Hin) Hne]. exists u. split; [done|]. by apply list_elem_of_filter.
Qed.

Lemma map_filter_nodup (l : list RunningTask) id : NoDup (map rt_id l) → NoDup (map rt_id (filter (λ u, rt_id u ≠ id) l)).
Proof.
  induction l as [|u l IH]; intros H; [done|]. cbn in H. apply NoDup_cons in H as [Hni Hnd]. rewrite filter_cons.
  case_decide; cbn; [|by apply IH]. constructor; [|by apply IH]. intros [? _]%map_filter_id. done.
Qed.

(** The state between freeing the slot and filling it again. *)
Definition released (id : nat) (q : ConcurrencyQueue) : ConcurrencyQueue :=
  let q1 := mkQueue (maxConcurrency q) (timeoutMs q) (maxPending q) (running q - 1) (queue q) (paused q)
    (filter (λ t, rt_id t ≠ id) (activeControllers q)) (idleWaiters q) (nextPromise q) (nextWaiter q)
    (started q) (settlements q) (drains q) in
  if running q - 1 =? 0 then with_idle [] (nextWaiter q) (drains q ++ map (λ w, (w, Ok true)) (idleWaiters q)) q1 else q1.

Lemma find_task_Some id q t : find_task id q = Some t → t ∈ activeControllers q ∧ rt_id t = id.
Proof.
  unfold find_task. destruct (list_find _ _) as [[i u]|] eqn:E; [|done]. intros [= ->].
  apply list_find_Some in E as (Hi & Hid & _). split; [by eapply list_elem_of_lookup_2|done].
Qed.

Lemma released_core id q t : queue_core q → find_task id q = Some t → queue_core (released id q).
Proof.
  intros [Hr Hf Hfr [Ha Has] Hs Hu Hc Hp [Hd1 Hd2] Hi] Ht. apply find_task_Some in Ht as [Hin Hid].
  pose proof (filter_release _ _ _ Ha Hin Hid) as Hlen. unfold released.
  assert (map fst (drains q ++ map (λ w, (w, Ok true)) (idleWaiters q)) = map fst (drains q) ++ idleWaiters q) as Ed.
  { rewrite map_app. f_equal. clear. induction (idleWaiters q) as [|w ws IH]; cbn; [done|by rewrite IH]. }
  destruct (Z.eqb_spec (running q - 1) 0) as [E|E]; constructor; unfold active_ids in *; cbn; rewrite ?Ed, ?app_nil_r; try done; try lia.
  all: try (split; [by apply map_filter_nodup|intros i [Hi' _]%map_filter_id; by apply Has]).
  all: intros u [_ Hu']%list_elem_of_filter; exact (Hc u Hu').
Qed.

Lemma released_accounted id q : accounted None q → accounted (Some id) (released id q).
Proof.
  intros H i Hi Hne. assert (i ≠ id) by congruence. unfold released in *. unfold active_ids, settled_ids.
  destruct (running q - 1 =? 0); cbn in *; rewrite map_filter_id; destruct (H i Hi ltac:(done)) as [|[|]]; auto.
Qed.

Lemma next_elsewhere id q : id ∉ queue q → id ∉ active_ids q → (id ∉ queue (next q)) ∧ (id ∉ active_ids (next q)).
Proof.
  intros Hq Ha. destruct (next_cases q) as [[-> _]|(item & rest & Eq & _ & _ & ->)]; [done|].
  rewrite Eq in Hq. apply not_elem_of_cons in Hq as [Hne Hq]. split; [done|]. unfold active_ids in *. cbn. rewrite map_app. cbn.
  rewrite elem_of_app, list_elem_of_singleton. intros [|]; done.
Qed.

Lemma next_promises q : nextPromise (next q) = nextPromise q ∧ settlements (next q) = settlements q.
Proof. by destruct (next_cases q) as [[-> _]|(item & rest & Eq & _ & _ & ->)]. Qed.

Lemma taskSettles_ok id o q : queue_core q → accounted None q → work_conserving q →
  queue_core (taskSettles id o q) ∧ accounted None (taskSettles id o q) ∧ work_conserving (taskSettles id o q).
Proof.
  intros H Hacc Hwc. unfold taskSettles. destruct (find_task id q) as [t|] eqn:Et; [|done].
  pose proof (released_core id q t H Et) as Hrel. pose proof (released_accounted id q Hacc) as Hra.
  change (releaseSlot id q) with (next (released id q)).
  assert (work_conserving (next (released id q))) as Hw.
  { apply next_conserving. intros Hp Hq. unfold released in *. destruct (running q - 1 =? 0); cbn in *; specialize (Hwc Hp Hq); lia. }
  apply find_task_Some in Et as [Hin Hid]. pose proof (qc_caller q H t Hin) as Hc. rewrite Hid in Hc.
  assert (settlements (released id q) = settlements q ∧ nextPromise (released id q) = nextPromise q ∧ queue (released id q) = queue q ∧
          active_ids (released id q) = map rt_id (filter (λ u, rt_id u ≠ id) (activeControllers q))) as (Es & En & Eqq & Ea)
    by (unfold released; by destruct (running q - 1 =? 0)).
  destruct (next_promises (released id q)) as [En' Es'].
  destruct (rt_callerSettled t) eqn:Ecs.
  - split_and!; [by apply next_core| |done]. intros i Hi _. destruct (decide (i = id)) as [->|Hne].
    + right; right. unfold settled_ids. rewrite Es', Es. by apply Hc.
    + apply (next_accounted _ _ Hra i); [done|congruence].
  - assert (id ∉ active_ids (released id q)) as Hna by (rewrite Ea, map_filter_id; tauto).
    assert (id ∈ started q) as Hst by (apply H; rewrite <- Hid; by apply list_elem_of_fmap_2).
    assert (id ∉ queue (released id q)) as Hnq.
    { rewrite Eqq. intros Hq. eapply (queue_not_active q id H Hq). rewrite <- Hid. by apply list_elem_of_fmap_2. }
    destruct (next_elsewhere _ _ Hnq Hna) as [Hnq' Hna'].
    split_and!; [|by apply settle_accounted, next_accounted|done].
    apply settle_core; [by apply next_core| | |done|done].
    + rewrite En', En. pose proof (qc_fresh q H) as Hf. rewrite Forall_app in Hf. destruct Hf as [Hf _]. rewrite Forall_forall in Hf. by apply Hf.
    + unfold settled_ids. rewrite Es', Es. intros Hx. by apply Hc in Hx.
Qed.

Lemma add_ok callable q : queue_core q → accounted None q → work_conserving q →
  queue_core (add callable q) ∧ accounted None (add callable q) ∧ work_conserving (add callable q).
Proof.
  intros H Hacc Hwc. destruct (fresh_nowhere q H Hacc) as (Hnq & Hna & Hns). unfold add.
  assert (∀ o, let q' := settle (nextPromise q) o (with_promise (S (nextPromise q)) q) in
            queue_core q' ∧ accounted None q' ∧ work_conserving q') as Hrej.
  { intros o. cbn. split_and!; [|apply settle_accounted|done].
    - apply settle_core; [by apply with_promise_core|cbn; lia|done|done|done].
    - intros i Hi Hne. apply Hacc; [|done]. cbn in Hi. assert (i ≠ nextPromise q) by congruence. lia. }
  destruct callable; [|apply Hrej]. destruct (isAtCapacity q) eqn:Ec; [apply Hrej|]. cbn [negb].
  split_and!; [by apply next_core, enqueue_core|apply next_accounted|].
  - intros i Hi _. cbn in *. rewrite elem_of_app, list_elem_of_singleton.
    destruct (decide (i = nextPromise q)) as [->|]; [auto|]. destruct (Hacc i ltac:(lia) ltac:(done)) as [|[|]]; auto.
  - set (q1 := with_queue _ _). intros Hp Hq.
    destruct (next_cases q1) as [[E Hc]|(item & rest & Eq & Hp1 & Hlt & E)]; rewrite E in *; cbn in *.
    + destruct Hc as [|[|]]; [congruence|done|done].
    + destruct (queue q) as [|x l] eqn:Eqq; cbn in Eq; [by injection Eq as _ <-|].
      specialize (Hwc Hp1). rewrite Eqq in Hwc. specialize (Hwc ltac:(done)). lia.
Qed.

Lemma timeoutFires_ok id q : queue_core q → accounted None q → work_conserving q →
  queue_core (timeoutFires id q) ∧ accounted None (timeoutFires id q) ∧ work_conserving (timeoutFires id q).
Proof.
  intros H Hacc Hwc. unfold timeoutFires. destruct (find_task id q) as [t|] eqn:Et; [|done].
  destruct ((rt_timeoutMs t >? 0) && negb (rt_callerSettled t)) eqn:Eb; [|done]. apply andb_true_iff in Eb as [_ Eb]. apply negb_true_iff in Eb.
  apply find_task_Some in Et as [Hin Hid]. set (f := λ u, if bool_decide (rt_id u = id) then mkRunning (rt_id u) true true (rt_timeoutMs u) else u).
  assert (map rt_id (map f (activeControllers q)) = map rt_id (activeControllers q)) as Ef.
  { rewrite map_map. apply map_ext. intros u. unfold f. by case_bool_decide. }
  assert (id ∉ settled_ids q) as Hns. { intros Hx. rewrite <- Hid in Hx. apply (qc_caller q H t Hin) in Hx. congruence. }
  assert (id ∈ active_ids q) as Hact by (rewrite <- Hid; by apply list_elem_of_fmap_2).
  destruct H as [Hr Hf Hfr [Ha Has] [Hs1 Hs2] Hu Hc Hp Hd Hi]. split_and!; [|apply settle_accounted|].
  - constructor; unfold active_ids, settled_ids in *; cbn in *; rewrite ?Ef, ?length_map, ?map_app in *; cbn; try done.
    + split; [|apply Forall_app; split; [done|]].
      * apply NoDup_app. split_and!; [done| |by apply NoDup_singleton]. intros x Hx ->%list_elem_of_singleton. done.
      * constructor; [|done]. rewrite Forall_app in Hfr. destruct Hfr as [Hfr _]. rewrite Forall_forall in Hfr. by apply Hfr, Has.
    + intros x Hx. rewrite elem_of_app, list_elem_of_singleton. intros [|]; [by eapply Hu|]. subst x.
      apply StronglySorted_app in Hf as (Hlt & _ & _). specialize (Hlt id id (Has _ Hact) Hx). lia.
    + intros u' (u & -> & Hu')%list_elem_of_fmap. rewrite elem_of_app, list_elem_of_singleton. unfold f. case_bool_decide as Hb; cbn; [tauto|].
      rewrite (Hc u Hu'). tauto.
  - intros i Hi' Hne. unfold active_ids. cbn. rewrite Ef. by apply Hacc.
  - intros Hpa Hq. exact (Hwc Hpa Hq).
Qed.

Lemma abortRunning_ok q : queue_core q → accounted None q → work_conserving q →
  queue_core (abortRunning q) ∧ accounted None (abortRunning q) ∧ work_conserving (abortRunning q).
Proof.
  intros [Hr Hf Hfr Ha Hs Hu Hc Hp Hd Hi] Hacc Hwc.
  assert (active_ids (abortRunning q) = active_ids q) as Ef by (unfold active_ids; cbn; by rewrite map_map).
  split_and!; [|by intros i Hi' Hne; rewrite Ef; apply Hacc|done].
  constructor; rewrite ?Ef; try done; cbn; rewrite ?length_map; try done. intros t (u & -> & Hin)%list_elem_of_fmap. exact (Hc u Hin).
Qed.

Lemma with_idle_core ws n ds q : queue_core q → NoDup (map fst ds ++ ws) → Forall (λ w, (w < n)%nat) (map fst ds ++ ws) →
  (running q = 0 → ws = []) → queue_core (with_idle ws n ds q).
Proof. intros [Hr Hf Hfr Ha Hs Hu Hc Hp Hd Hi] H1 H2 H3. by constructor. Qed.

Lemma snoc_fresh (l k : list nat) n : NoDup (l ++ k) → Forall (λ w, (w < n)%nat) (l ++ k) →
  (NoDup ((l ++ [n]) ++ k) ∧ Forall (λ w, (w < S n)%nat) ((l ++ [n]) ++ k)) ∧
  (NoDup (l ++ k ++ [n]) ∧ Forall (λ w, (w < S n)%nat) (l ++ k ++ [n])).
Proof.
  intros Hnd Hlt. assert (NoDup (n :: l ++ k)) as H1.
  { constructor; [|done]. intros Hin. rewrite Forall_forall in Hlt. specialize (Hlt n Hin). lia. }
  assert (Forall (λ w, (w < S n)%nat) (n :: l ++ k)) as H2.
  { constructor; [lia|]. eapply Forall_impl; [exact Hlt|]. cbn. lia. }
  assert (n :: l ++ k ≡ₚ (l ++ [n]) ++ k) as P1 by (rewrite <- app_assoc; cbn; by apply Permutation_middle).
  assert (n :: l ++ k ≡ₚ l ++ k ++ [n]) as P2 by (rewrite app_assoc; apply Permutation_cons_append).
  by rewrite <- P1, <- P2.
Qed.

Lemma waitForIdle_core t q : queue_core q → queue_core (waitForIdle t q).
Proof.
  intros H. destruct (qc_drains q H) as [Hd1 Hd2]. destruct (snoc_fresh _ _ _ Hd1 Hd2) as [[P1 P2] [P3 P4]]. unfold waitForIdle.
  destruct (Z.eqb_spec (running q) 0); [|destruct (negb (isSafeInteger t) || (t <? 0))];
    apply with_idle_core; rewrite ?map_app; cbn; try done; by apply (qc_idle q H).
Qed.

Lemma drainTimeoutFires_core w q : queue_core q → queue_core (drainTimeoutFires w q).
Proof.
  intros H. unfold drainTimeoutFires. case_bool_decide as Hin; [|done]. destruct (qc_drains q H) as [Hd1 Hd2].
  apply NoDup_app in Hd1 as (N1 & N2 & N3). rewrite Forall_app in Hd2. destruct Hd2 as [F1 F2].
  apply with_idle_core; [done| | |]; rewrite ?map_app; cbn.
  - rewrite <- app_assoc. apply NoDup_app. split_and!; [done| |].
    + intros x Hx. rewrite elem_of_app, list_elem_of_singleton. intros [->|[_ Hx']%list_elem_of_filter]; by eapply N2.
    + cbn. constructor; [|by apply NoDup_filter]. intros [? _]%list_elem_of_filter. done.
  - rewrite !Forall_app. rewrite Forall_forall in F2. split_and!; [done|constructor; [by apply F2|done]|].
    apply Forall_forall. intros x [_ Hx]%list_elem_of_filter. by apply F2.
  - intros Hr. by rewrite (qc_idle q H Hr).
Qed.

Lemma with_limits_core c t q : queue_core q → queue_core (with_limits c t q).
Proof. intros [Hr Hf Hfr Ha Hs Hu Hc Hp Hd Hi]. by constructor. Qed.

Lemma with_paused_core b q : queue_core q → queue_core (with_paused b q).
Proof. intros [Hr Hf Hfr Ha Hs Hu Hc Hp Hd Hi]. by constructor. Qed.

Lemma handle_ok e q : queue_core q → accounted None q → work_conserving q →
  queue_core (handle e q) ∧ accounted None (handle e q) ∧ work_conserving (handle e q).
Proof.
  intros H Hacc Hwc. destruct e as [c| | | | |t|w|mc tm|id o|id]; cbn [handle].
  - by apply add_ok.
  - split_and!; [by apply with_paused_core|done|done].
  - unfold resume. destruct (paused q) eqn:Ep; cbn [negb]; [|done].
    split_and!; [by apply iter_next_core, with_paused_core|by apply iter_next_accounted|].
    apply iter_next_conserving. cbn. intros _ _. pose proof (qc_running q H). lia.
  - destruct (clear_ok q H Hacc) as (H1 & H2 & H3 & _). split_and!; [done|done|]. intros _ Hq. done.
  - by apply abortRunning_ok.
  - split_and!; [by apply waitForIdle_core| |]; unfold waitForIdle;
      destruct (running q =? 0); [done|destruct (negb _ || _); done|done|destruct (negb _ || _); done].
  - split_and!; [by apply drainTimeoutFires_core| |]; unfold drainTimeoutFires; by destruct (bool_decide _).
  - unfold updateSettings. set (c := match mc with Some _ => _ | None => _ end). set (t := match tm with Some _ => _ | None => _ end).
    destruct (paused q) eqn:Ep.
    + split_and!; [by apply with_limits_core|done|]. intros Hp. cbn in Hp. congruence.
    + split_and!; [by apply iter_next_core, with_limits_core|by apply iter_next_accounted|].
      apply iter_next_conserving. cbn. intros _ _. lia.
  - by apply taskSettles_ok.
  - by apply timeoutFires_ok.
Qed.

Lemma reachable_ok c t m q : reachable c t m q → queue_core q ∧ accounted None q ∧ work_conserving q.
Proof.
  induction 1 as [|e q _ (H1 & H2 & H3)]; [|by apply handle_ok]. split_and!; [|intros i Hi; cbn in Hi; lia|by intros _ Hq].
  constructor; cbn; [done|constructor|constructor| | | | | | |done].
  - split; [constructor|done].
  - split; constructor.
  - intros ? Hx. by apply not_elem_of_nil in Hx.
  - intros ? Hx. by apply not_elem_of_nil in Hx.
  - lia.
  - split; constructor.
Qed.

(** C26: whatever the order of additions, settlements, timeouts and settings
    changes, the queue keeps its promises: the counter counts the running tasks,
    tasks start in the order they were added, the waiting list stays within its
    bound, every caller is settled at most once, every task is waiting, running
    or settled, and no worker is idle while work waits and the queue is not
    paused. *)
Theorem queue_invariant c t m q : reachable c t m q →
  running q = Z.of_nat (length (activeControllers q)) ∧
  StronglySorted lt (started q ++ queue q) ∧
  (∀ b, maxPending q = Some b → Z.of_nat (length (queue q)) <= Z.max 0 b) ∧
  NoDup (map fst (settlements q)) ∧
  (∀ id, (id < nextPromise q)%nat →
     (id ∈ queue q ∨ id ∈ map rt_id (activeControllers q) ∨ id ∈ map fst (settlements q)) ∧
     (id ∈ queue q → (id ∉ map rt_id (activeControllers q)) ∧ (id ∉ map fst (settlements q)))) ∧
  (paused q = false → queue q ≠ [] → maxConcurrency q <= running q) ∧
  NoDup (map fst (drains q)) ∧ (running q = 0 → idleWaiters q = []).
Proof.
  intros H. destruct (reachable_ok _ _ _ _ H) as (Hc & Hacc & Hwc). pose proof Hc as [Hr Hf Hfr Ha [Hs _] Hu Hcl Hp [Hd _] Hi].
  split_and!; try done; [|by apply NoDup_app in Hd as (? & _ & _)].
  intros id Hid. split; [by apply Hacc|]. intros Hin. split; [by apply queue_not_active|by apply Hu].
Qed.

(** Three tasks on two workers, a timeout of the first, then its late result. *)
Definition queue_example : ConcurrencyQueue :=
  handle (TaskSettles 0 (Ok "late")) (handle (TimeoutFires 0) (handle (Add true) (handle (Add true) (handle (Add true)
    (constructor_ 2 1000 (Some 10)))))).

Lemma queue_invariant_witness :
  started queue_example = [0; 1; 2]%nat ∧ settlements queue_example = [(0%nat, throw "Task timed out after 1000ms")] ∧
  running queue_example = 2 ∧ running queue_example = Z.of_nat (length (activeControllers queue_example)).
Proof.
  split; [vm_compute; reflexivity|]. split; [vm_compute; reflexivity|]. split; [vm_compute; reflexivity|].
  assert (reachable 2 1000 (Some 10) queue_example) as H by (unfold queue_example; repeat apply reachable_event; apply reachable_new).
  exact (proj1 (queue_invariant _ _ _ _ H)).
Defined.

Lemma handle_running e q : queue_core q → accounted None q →
  running (handle e q) <= running q ∨ running (handle e q) <= maxConcurrency (handle e q).
Proof.
  intros H Hacc. assert (∀ q', running q' <= running q → running (next q') <= running q ∨ running (next q') <= maxConcurrency (next q')) as Hn.
  { intros q' Hq. destruct (next_settings q') as (-> & _ & _ & [->|]); lia. }
  assert (∀ n q', running q' <= running q →
            running (Nat.iter n next q') <= running q ∨ running (Nat.iter n next q') <= maxConcurrency (Nat.iter n next q')) as Hit.
  { intros n q' Hq. destruct (iter_next_settings n q') as (-> & _ & [->|]); lia. }
  destruct e as [c| | | | |t|w|mc tm|id o|id]; cbn [handle].
  - unfold add. destruct c; [|cbn; lia]. destruct (isAtCapacity q); [cbn; lia|]. apply Hn. cbn. lia.
  - cbn. lia.
  - unfold resume. destruct (paused q); cbn [negb]; [apply Hit; cbn; lia|lia].
  - destruct (clear_ok q H Hacc) as (_ & _ & _ & -> & _). lia.
  - cbn. lia.
  - unfold waitForIdle. destruct (running q =? 0); [cbn; lia|]. destruct (negb _ || _); cbn; lia.
  - unfold drainTimeoutFires. case_bool_decide; cbn; lia.
  - unfold updateSettings. destruct (paused q); [cbn; lia|]. apply Hit. cbn. lia.
  - unfold taskSettles. destruct (find_task id q) as [t|]; [|lia].
    assert (running (releaseSlot id q) <= running q ∨ running (releaseSlot id q) <= maxConcurrency (releaseSlot id q)) as Hr.
    { change (releaseSlot id q) with (next (released id q)). apply Hn. unfold released. destruct (running q - 1 =? 0); cbn; lia. }
    destruct (rt_callerSettled t); exact Hr.
  - unfold timeoutFires. destruct (find_task id q) as [t|]; [|lia]. destruct (_ && _); cbn; lia.
Qed.

Lemma next_paused q : paused q = true → next q = q.
Proof. unfold next. by intros ->. Qed.

Lemma settled_started ids o q : started (foldl (λ q id, settle id o q) q ids) = started q.
Proof. revert q. induction ids as [|id ids IH]; intros q; cbn; [done|]. by rewrite IH. Qed.

Lemma handle_paused e q : paused q = true → paused (handle e q) = true → started (handle e q) = started q.
Proof.
  intros Hp. destruct e as [c| | | | |t|w|mc tm|id o|id]; cbn [handle].
  - unfold add. destruct c; [|done]. destruct (isAtCapacity q); [done|]. cbn [negb]. by rewrite next_paused.
  - done.
  - unfold resume. rewrite Hp. cbn [negb]. destruct (iter_next_settings (Z.to_nat (maxConcurrency q)) (with_paused false q)) as (_ & -> & _). done.
  - intros _. unfold clear. by rewrite settled_started.
  - done.
  - unfold waitForIdle. destruct (running q =? 0); [done|]. by destruct (negb _ || _).
  - unfold drainTimeoutFires. by case_bool_decide.
  - unfold updateSettings. by rewrite Hp.
  - unfold taskSettles. destruct (find_task id q) as [t|]; [|done]. change (releaseSlot id q) with (next (released id q)).
    rewrite next_paused by (unfold released; by destruct (running q - 1 =? 0)). intros _.
    destruct (rt_callerSettled t); unfold released; by destruct (running q - 1 =? 0).
  - unfold timeoutFires. destruct (find_task id q) as [t|]; [|done]. by destruct (_ && _).
Qed.

(** The concurrency limit is enforced at every step: an event either starts
    nothing beyond the slots it frees, or leaves the number of running tasks
    within the limit in force; with a limit that is never lowered below the
    running tasks, it is never exceeded; and a paused queue starts nothing. *)
Theorem queue_concurrency_bounded c t m q e : reachable c t m q →
  (running (handle e q) <= running q ∨ running (handle e q) <= maxConcurrency (handle e q)) ∧
  (running q <= maxConcurrency q → maxConcurrency q <= maxConcurrency (handle e q) →
     running (handle e q) <= maxConcurrency (handle e q)) ∧
  (paused q = true → paused (handle e q) = true → started (handle e q) = started q).
Proof.
  intros H. destruct (reachable_ok _ _ _ _ H) as (Hc & Hacc & Hwc). pose proof (handle_running e q Hc Hacc) as Hr.
  split_and!; [done|lia|apply handle_paused].
Qed.
