(* ===== verification/Outbox.v ===== *)
(** Outbox: [src/outbox_scheduler.ts], the window of durable outbox tasks kept in
    the concurrency queue.

    The scheduler is proved against [BoundedQueue], what it relies on of the
    queue; [Queue] discharges it.  The awaits of the source are phases of the
    pump: [Listing] while [listPending] is pending, [Settling] between the end of
    [pumpAvailableWork] and the [finally] callback of [pump]. *)

From S2P Require Import Prelude Queue.
Local Open Scope Z_scope.

(** ** What the scheduler relies on *)
Class BoundedQueue (Q : Type) := {
  bq_isAtCapacity : Q → bool;
  bq_availableCapacity : Q → Z;
  bq_paused : Q → bool;
  (** [add]: the promise it returns, and the queue after it. *)
  bq_add : Q → nat * Q;
  (** The promises of [add] that are not settled yet. *)
  bq_unsettled : Q → nat → Prop;
  bq_ok : Q → Prop;
  (** What the queue does between two calls of the scheduler. *)
  bq_env : Q → Q → Prop }.

Class BoundedQueueLaws (Q : Type) `{BoundedQueue Q} := {
  bq_capacity : ∀ q, bq_ok q → 0 < bq_availableCapacity q ↔ bq_isAtCapacity q = false;
  bq_add_ok : ∀ q, bq_ok q → bq_ok (bq_add q).2;
  bq_add_fresh : ∀ q, bq_ok q → bq_unsettled q (bq_add q).1 → False;
  bq_add_unsettled : ∀ q p, bq_ok q → bq_unsettled (bq_add q).2 p → p = (bq_add q).1 ∨ bq_unsettled q p;
  bq_env_ok : ∀ q q', bq_ok q → bq_env q q' → bq_ok q';
  (** A settled promise stays settled. *)
  bq_env_settles : ∀ q q' p, bq_ok q → bq_env q q' → bq_unsettled q' p → bq_unsettled q p }.

(** ** The scheduler *)
Inductive PumpPhase := Idle | Listing (limit : Z) | Settling.

#[export] Instance PumpPhase_eq_dec : EqDecision PumpPhase.
Proof. solve_decision. Defined.

Section Scheduler.
Context {Q : Type} `{BoundedQueue Q}.

Record DurableOutboxScheduler := mkScheduler {
  os_queue : Q;
  (** [scheduledTaskIds] in insertion order, each with the promise whose
      [finally] removes it. *)
  os_scheduled : list (string * nat);
  os_batchSize : Z;
  os_pump : PumpPhase;
  os_pumpRequested : bool }.

Definition newScheduler (q : Q) (batchSize : option Z) : DurableOutboxScheduler :=
  mkScheduler q [] (Z.max 1 (Z.min (default 100 batchSize) 1000)) Idle false.

Definition scheduledCount (s : DurableOutboxScheduler) : nat := length (os_scheduled s).

Definition scheduleIntoQueue (taskId : string) (s : DurableOutboxScheduler) : DurableOutboxScheduler :=
  let '(p, q) := bq_add (os_queue s) in
  mkScheduler q (os_scheduled s ++ [(taskId, p)]) (os_batchSize s) (os_pump s) (os_pumpRequested s).

Definition schedule (taskId : string) (s : DurableOutboxScheduler) : bool * DurableOutboxScheduler :=
  if bool_decide (taskId = "") || bool_decide (taskId ∈ map fst (os_scheduled s))
  then (bool_decide (taskId ∈ map fst (os_scheduled s)), s)
  else if bq_isAtCapacity (os_queue s) then (false, s)
  else (true, scheduleIntoQueue taskId s).

Definition shouldContinuePumping (s : DurableOutboxScheduler) : bool :=
  (bq_availableCapacity (os_queue s) >? 0) && negb (bq_paused (os_queue s)).

Definition set_pump (ph : PumpPhase) (r : bool) (s : DurableOutboxScheduler) : DurableOutboxScheduler :=
  mkScheduler (os_queue s) (os_scheduled s) (os_batchSize s) ph r.

(** The head of the loop: ask for the next batch or return. *)
Definition pump_loop (s : DurableOutboxScheduler) : DurableOutboxScheduler :=
  set_pump (if shouldContinuePumping s then Listing (Z.min (os_batchSize s) (bq_availableCapacity (os_queue s))) else Settling)
    (os_pumpRequested s) s.

Definition pumpAvailableWork (s : DurableOutboxScheduler) : DurableOutboxScheduler :=
  if bq_paused (os_queue s) then set_pump Settling (os_pumpRequested s) s else pump_loop s.

(** [pump()], also the body of [resume] and [requestPump]. *)
Definition pump (s : DurableOutboxScheduler) : DurableOutboxScheduler :=
  match os_pump s with
  | Idle => pumpAvailableWork s
  | ph => set_pump ph true s
  end.

Definition resume (s : DurableOutboxScheduler) : DurableOutboxScheduler := pump s.
Definition requestPump (s : DurableOutboxScheduler) : DurableOutboxScheduler := pump s.

(** The [finally] callback of [pump]. *)
Definition pumpFinally (s : DurableOutboxScheduler) : DurableOutboxScheduler :=
  if os_pumpRequested s then requestPump (set_pump Idle false s) else set_pump Idle false s.

Fixpoint scheduleBatch (candidates : list string) (s : DurableOutboxScheduler) : nat * DurableOutboxScheduler :=
  match candidates with
  | [] => (0%nat, s)
  | id :: rest =>
      let '(b, s1) := schedule id s in
      let '(n, s2) := scheduleBatch rest s1 in ((if (b : bool) then S n else n), s2)
  end.

(** [listPending] answers with the candidates (or fails: [None]). *)
Definition listed (candidates : option (list string)) (s : DurableOutboxScheduler) : DurableOutboxScheduler :=
  match candidates with
  | None | Some [] => set_pump Settling (os_pumpRequested s) s
  | Some cs =>
      let '(n, s1) := scheduleBatch cs s in
      if (n =? 0)%nat then set_pump Settling (os_pumpRequested s1) s1 else pump_loop s1
  end.

(** The [finally] callback of a scheduled task. *)
Definition taskFinally (taskId : string) (s : DurableOutboxScheduler) : DurableOutboxScheduler :=
  requestPump (mkScheduler (os_queue s) (filter (λ e, e.1 ≠ taskId) (os_scheduled s)) (os_batchSize s) (os_pump s) (os_pumpRequested s)).

(** ** Runs *)
Inductive sched_step : DurableOutboxScheduler → DurableOutboxScheduler → Prop :=
| step_schedule id s : sched_step s (schedule id s).2
| step_resume s : sched_step s (resume s)
| step_requestPump s : sched_step s (requestPump s)
| step_listed limit cs s : os_pump s = Listing limit → sched_step s (listed cs s)
| step_pumpFinally s : os_pump s = Settling → sched_step s (pumpFinally s)
| step_taskFinally id p s : (id, p) ∈ os_scheduled s → ¬ bq_unsettled (os_queue s) p → sched_step s (taskFinally id s)
| step_queue q s : bq_env (os_queue s) q →
    sched_step s (mkScheduler q (os_scheduled s) (os_batchSize s) (os_pump s) (os_pumpRequested s)).

(** ** Invariant *)
Record sched_ok (s : DurableOutboxScheduler) : Prop := {
  so_queue : bq_ok (os_queue s);
  so_ids : NoDup (map fst (os_scheduled s)) ∧ "" ∉ map fst (os_scheduled s);
  so_window : ∀ p, bq_unsettled (os_queue s) p → p ∈ map snd (os_scheduled s);
  so_batch : 1 <= os_batchSize s <= 1000;
  so_idle : os_pump s = Idle → os_pumpRequested s = false;
  so_listing : ∀ limit, os_pump s = Listing limit → 1 <= limit <= os_batchSize s }.

Context `{!BoundedQueueLaws Q}.

Lemma schedule_ok id s : sched_ok s → sched_ok (schedule id s).2.
Proof.
  intros Hs. unfold schedule. destruct (bool_decide_reflect (id = "")) as [|Hne]; [done|].
  destruct (bool_decide_reflect (id ∈ map fst (os_scheduled s))) as [|Hni]; [done|]. cbn [orb].
  destruct (bq_isAtCapacity (os_queue s)) eqn:Ec; [done|]. cbn [snd]. unfold scheduleIntoQueue.
  destruct Hs as [Hq [Hnd Hemp] Hw Hb Hi Hl].
  pose proof (bq_add_ok _ Hq) as Hq'. pose proof (λ p, bq_add_unsettled _ p Hq) as Hu. destruct (bq_add (os_queue s)) as [p q']. cbn in *.
  constructor; cbn; try done; rewrite ?map_app; cbn.
  - split; [apply NoDup_app; split_and!; [done| |apply NoDup_singleton]|].
    + intros x Hx ->%list_elem_of_singleton. done.
    + rewrite elem_of_app, list_elem_of_singleton. intros [|]; done.
  - intros x Hx. rewrite elem_of_app, list_elem_of_singleton. destruct (Hu x Hx) as [->|]; [by right|left; by apply Hw].
Qed.

Lemma schedule_pump id s : os_pump (schedule id s).2 = os_pump s ∧ os_pumpRequested (schedule id s).2 = os_pumpRequested s.
Proof.
  unfold schedule. destruct (_ || _); [done|]. destruct (bq_isAtCapacity _); [done|]. cbn. unfold scheduleIntoQueue. by destruct (bq_add _).
Qed.

Lemma scheduleBatch_ok cs s : sched_ok s → sched_ok (scheduleBatch cs s).2.
Proof.
  revert s. induction cs as [|id cs IH]; intros s Hs; [done|]. cbn. pose proof (schedule_ok id s Hs) as H1.
  destruct (schedule id s) as [b s1]. specialize (IH s1 H1). by destruct (scheduleBatch cs s1).
Qed.

Lemma set_pump_ok ph r s : sched_ok s → ph ≠ Idle ∨ r = false → (∀ l, ph = Listing l → 1 <= l <= os_batchSize s) →
  sched_ok (set_pump ph r s).
Proof. intros [Hq Hids Hw Hb Hi Hl] Hph Hlim. constructor; cbn; try done. intros ->. by destruct Hph. Qed.

Lemma pump_loop_ok s : sched_ok s → sched_ok (pump_loop s) ∧ os_pump (pump_loop s) ≠ Idle.
Proof.
  intros Hs. unfold pump_loop. destruct (shouldContinuePumping s) eqn:E.
  - split; [|done]. apply set_pump_ok; [done|by left|]. intros l [= <-]. unfold shouldContinuePumping in E.
    apply andb_true_iff in E as [E _]. apply Z.gtb_lt in E. pose proof (so_batch s Hs). lia.
  - split; [|done]. apply set_pump_ok; [done|by left|done].
Qed.

Lemma pump_ok s : sched_ok s → sched_ok (pump s) ∧ os_pump (pump s) ≠ Idle.
Proof.
  intros Hs. unfold pump. destruct (os_pump s) as [|l|] eqn:E.
  - unfold pumpAvailableWork. destruct (bq_paused _); [split; [|done]; apply set_pump_ok; [done|by left|done]|by apply pump_loop_ok].
  - split; [|done]. apply set_pump_ok; [done|by left|]. intros l' [= <-]. by apply (so_listing s Hs).
  - split; [|done]. apply set_pump_ok; [done|by left|done].
Qed.

Lemma filter_snd (l : list (string * nat)) id i p : NoDup (map fst l) → (id, p) ∈ l → i ∈ map snd l → i ≠ p →
  i ∈ map snd (filter (λ e, e.1 ≠ id) l).
Proof.
  intros Hnd Hin (e & -> & He)%list_elem_of_fmap Hne. apply list_elem_of_fmap. exists e. split; [done|].
  apply list_elem_of_filter. split; [|done]. intros E. apply Hne.
  apply list_elem_of_lookup in Hin as (a & Ha). apply list_elem_of_lookup in He as (b & Hb).
  assert (a = b) as <-.
  { apply (proj1 (NoDup_alt _) Hnd a b id); apply list_lookup_fmap_Some; [by eexists; split; [|exact Ha]|exists e; by split]. }
  rewrite Ha in Hb. by injection Hb as <-.
Qed.

Lemma taskFinally_ok id p s : sched_ok s → (id, p) ∈ os_scheduled s → ¬ bq_unsettled (os_queue s) p → sched_ok (taskFinally id s).
Proof.
  intros [Hq [Hnd Hemp] Hw Hb Hi Hl] Hin Hset. unfold taskFinally. apply pump_ok. constructor; cbn; try done.
  - assert (∀ x, x ∈ map fst (filter (λ e, e.1 ≠ id) (os_scheduled s)) → x ∈ map fst (os_scheduled s)) as Hsub.
    { intros x (e & -> & [_ He]%list_elem_of_filter)%list_elem_of_fmap. by apply list_elem_of_fmap_2. }
    split; [|by intros Hx%Hsub]. clear -Hnd. induction (os_scheduled s) as [|[a b] l IH]; [constructor|]. cbn in Hnd.
    apply NoDup_cons in Hnd as [Hni Hnd]. rewrite filter_cons. case_decide; cbn; [|by apply IH]. constructor; [|by apply IH].
    intros (e & -> & [_ He]%list_elem_of_filter)%list_elem_of_fmap. apply Hni. by apply list_elem_of_fmap_2.
  - intros x Hx. eapply filter_snd; [done|exact Hin|by apply Hw|]. intros ->. done.
Qed.

Lemma sched_step_ok s s' : sched_ok s → sched_step s s' → sched_ok s'.
Proof.
  intros Hs Hst. destruct Hst as [id s|s|s|limit cs s Hp|s Hp|id p s Hin Hset|q s Henv].
  - by apply schedule_ok.
  - by apply pump_ok.
  - by apply pump_ok.
  - unfold listed. assert (∀ s, sched_ok s → sched_ok (set_pump Settling (os_pumpRequested s) s)) as Hend
      by (intros s' Hs'; apply set_pump_ok; [done|by left|done]).
    destruct cs as [[|c cs]|]; [by apply Hend| |by apply Hend].
    pose proof (scheduleBatch_ok (c :: cs) s Hs) as H1. destruct (scheduleBatch (c :: cs) s) as [n s1].
    destruct (n =? 0)%nat; [by apply Hend|by apply pump_loop_ok].
  - unfold pumpFinally. assert (sched_ok (set_pump Idle false s)) as H1 by (apply set_pump_ok; [done|by right|done]).
    destruct (os_pumpRequested s); [by apply pump_ok|done].
  - by eapply taskFinally_ok.
  - destruct Hs as [Hq Hids Hw Hb Hi Hl]. constructor; cbn; try done; [by eapply bq_env_ok|].
    intros p Hp. apply Hw. by eapply bq_env_settles.
Qed.
End Scheduler.
Arguments DurableOutboxScheduler Q : clear implicits.

(** ** The concurrency queue keeps the contract *)
Definition is_add (e : QueueEvent) : bool := match e with Add _ => true | _ => false end.

#[export] Instance ConcurrencyQueue_bounded : BoundedQueue ConcurrencyQueue := {|
  bq_isAtCapacity := isAtCapacity;
  bq_availableCapacity := availableCapacity;
  bq_paused := paused;
  bq_add q := (nextPromise q, add true q);
  bq_unsettled q p := (p < nextPromise q)%nat ∧ p ∉ settled_ids q;
  bq_ok q := queue_core q ∧ accounted None q ∧ work_conserving q;
  bq_env q q' := ∃ e, is_add e = false ∧ q' = handle e q |}.

(** Promises settle and stay settled; only [add] makes new ones. *)
Definition settles_only (q q' : ConcurrencyQueue) : Prop := nextPromise q' = nextPromise q ∧ settlements q `prefix_of` settlements q'.

Lemma settles_only_settle id o q q' : settles_only q q' → settles_only q (settle id o q').
Proof. intros [E P]. split; [done|]. by apply prefix_app_r. Qed.

Lemma settles_only_next q q' : settles_only q q' → settles_only q (next q').
Proof. intros [E P]. destruct (next_promises q') as [E1 E2]. split; [congruence|by rewrite E2]. Qed.

Lemma settles_only_iter n q q' : settles_only q q' → settles_only q (Nat.iter n next q').
Proof. intros H. induction n; [done|by apply settles_only_next]. Qed.

Lemma handle_settles_only e q : is_add e = false → settles_only q (handle e q).
Proof.
  intros He. assert (settles_only q q) as Hq by by split. destruct e as [c| | | | |t|w|mc tm|id o|id]; cbn [handle].
  - done.
  - by split.
  - unfold Queue.resume. destruct (negb _); [done|]. by apply settles_only_iter.
  - unfold clear. assert (settles_only q (with_queue [] q)) as H0 by by split. revert H0. generalize (with_queue [] q).
    induction (queue q) as [|id l IH]; intros q' H0; cbn; [done|]. by apply IH, settles_only_settle.
  - by split.
  - unfold waitForIdle. destruct (_ =? 0); [by split|]. destruct (_ || _); by split.
  - unfold drainTimeoutFires. by case_bool_decide; split.
  - unfold updateSettings. destruct (paused q); [by split|]. apply settles_only_iter. by split.
  - unfold taskSettles. destruct (find_task id q) as [t|]; [|done].
    assert (settles_only q (releaseSlot id q)) by (apply settles_only_next; destruct (_ =? 0); by split).
    destruct (rt_callerSettled t); [done|by apply settles_only_settle].
  - unfold timeoutFires. destruct (find_task id q) as [t|]; [|done]. destruct (_ && _); [|done]. apply settles_only_settle. by split.
Qed.

#[export] Instance ConcurrencyQueue_laws : BoundedQueueLaws ConcurrencyQueue.
Proof.
  constructor; cbn.
  - intros q _. unfold availableCapacity, isAtCapacity. destruct (maxPending q) as [m|]; [|by split]. rewrite Z.geb_leb, Z.leb_gt. lia.
  - intros q (H1 & H2 & H3). exact (add_ok true q H1 H2 H3).
  - intros q _ [Hlt _]. lia.
  - intros q p (H1 & H2 & H3) [Hlt Hns]. unfold add in *. cbn [negb] in *. destruct (isAtCapacity q).
    + cbn in Hlt. unfold settled_ids in *. cbn in Hns. rewrite map_app, not_elem_of_app in Hns. destruct Hns as [Hns _].
      destruct (decide (p = nextPromise q)); [by left|right]. split; [lia|done].
    + destruct (next_promises (with_queue (queue q ++ [nextPromise q]) (with_promise (S (nextPromise q)) q))) as [E1 E2].
      unfold settled_ids in *. rewrite E1 in Hlt. rewrite E2 in Hns. cbn in *.
      destruct (decide (p = nextPromise q)); [by left|right]. split; [lia|done].
  - intros q q' (H1 & H2 & H3) (e & _ & ->). by apply handle_ok.
  - intros q q' p _ (e & He & ->) [Hlt Hns]. destruct (handle_settles_only e q He) as [E [k P]]. split; [lia|].
    intros Hin. apply Hns. unfold settled_ids in *. rewrite P, map_app, elem_of_app. by left.
Qed.

(** The outbox window over any queue that keeps the [BoundedQueue] contract:
    in every reachable state no durable task is scheduled twice, every promise
    the queue has not settled belongs to a scheduled task (so nothing the queue
    holds is forgotten), the pump asks for between 1 and the batch size records,
    and no pump request is lost: an idle scheduler has none pending, and after a
    task leaves the window a pump is under way.  A task is turned away only when
    its identifier is empty or the queue is full. *)
Theorem outbox_window `{BoundedQueueLaws Q} (q : Q) b s :
  bq_ok q → (∀ p, bq_unsettled q p → False) → rtc sched_step (newScheduler q b) s →
  NoDup (map fst (os_scheduled s)) ∧
  (∀ p, bq_unsettled (os_queue s) p → ∃ id, id ≠ "" ∧ (id, p) ∈ os_scheduled s) ∧
  (os_pump s = Idle → os_pumpRequested s = false) ∧
  (∀ limit, os_pump s = Listing limit → 1 <= limit <= os_batchSize s) ∧
  (∀ id, os_pump (taskFinally id s) ≠ Idle) ∧
  (∀ id, (schedule id s).1 = false → id = "" ∨ bq_isAtCapacity (os_queue s) = true).
Proof.
  intros Hq Hu Hrtc. assert (sched_ok s) as Hs.
  { assert (sched_ok (newScheduler q b)) as Hnew.
    { constructor; cbn; try done; [split; [constructor|apply not_elem_of_nil]|by intros p Hp%Hu|lia]. }
    induction Hrtc as [|s1 s2 s3 Hst _ IH]; [done|]. apply IH. by eapply sched_step_ok. }
  destruct Hs as [Hsq [Hnd Hemp] Hw Hb Hi Hl]. split_and!; try done.
  - intros p Hp. apply Hw in Hp. apply list_elem_of_fmap in Hp as ([id p'] & E & Hin). cbn in E. subst p'. exists id. split; [|done].
    intros ->. apply Hemp. by apply (list_elem_of_fmap_2 fst _ ("", p)).
  - intros id. unfold taskFinally, requestPump, pump, pumpAvailableWork, pump_loop. cbn. destruct (os_pump s); cbn; [|done|done].
    destruct (bq_paused _); [done|]. cbn. by destruct (shouldContinuePumping _).
  - intros id. unfold schedule. case_bool_decide; [by left|]. case_bool_decide as Hin; cbn; [done|].
    destruct (bq_isAtCapacity _); [by right|done].
Qed.

(** Two records listed into a one-worker queue. *)
Definition outbox_example : DurableOutboxScheduler ConcurrencyQueue :=
  listed (Some ["a"; "b"; "a"]) (resume (newScheduler (constructor_ 1 0 (Some 5)) None)).
