(* ===== verification/Coordinator.v ===== *)
(** Coordinator: [src/trading_mutation_coordinator.ts] and
    [src/trading_cancel_budget.ts], one mutation owner per account, operator
    fences over entries, and the cancellation budget of each owner.

    A call of [run] without a context is a ticket, named by the order of the
    calls; the ticket is also the identity of the owner context it creates, of
    its tail promise and of its budget.  The awaits of [run] are the steps
    [run_start] (the previous tail resolved) and [run_finish] (the [finally]
    block).  [AsyncLocalStorage] is the [current] argument of the two
    cancellation functions: the budget of the owner they are called under. *)

From S2P Require Import Prelude Text Queue.
Local Open Scope Z_scope.

Definition MAX_CANCEL_ATTEMPTS : Z := 5.

Inductive TicketStatus := Waiting | Running | Done.

#[export] Instance TicketStatus_eq_dec : EqDecision TicketStatus.
Proof. solve_decision. Defined.

Record Ticket := mkTicket {
  tk_account : string;
  (** The tail this call awaits. *)
  tk_previous : option nat;
  tk_status : TicketStatus }.

Record Budget := mkBudget { bg_accountId : string; bg_remaining : Z; bg_active : bool }.

Record CancelAttemptPermit := mkPermit {
  pm_accountId : string;
  pm_clientOrderId : string;
  (** The owner of the budget it was claimed from. *)
  pm_budget : nat;
  pm_used : bool }.

Record TradingMutationCoordinator := mkCoordinator {
  tickets : list Ticket;
  tails : gmap string nat;
  contexts : gset nat;
  accountEpochs : gmap string Z;
  globalEpoch : Z;
  entryHolds : list (nat * option string);
  nextToken : nat;
  budgets : gmap nat Budget;
  permits : list CancelAttemptPermit }.

Definition newCoordinator : TradingMutationCoordinator := mkCoordinator [] ∅ ∅ ∅ 0 [] 0 ∅ [].

(** ** Entry fences *)
Definition entryEpoch (accountId : string) (c : TradingMutationCoordinator) : string :=
  show_nat (globalEpoch c) +:+ ":" +:+ show_nat (default 0 (accountEpochs c !! accountId)).

Definition with_epochs (g : Z) (a : gmap string Z) (c : TradingMutationCoordinator) : TradingMutationCoordinator :=
  mkCoordinator (tickets c) (tails c) (contexts c) a g (entryHolds c) (nextToken c) (budgets c) (permits c).

Definition fenceEntries (accountId : option string) (c : TradingMutationCoordinator) : TradingMutationCoordinator :=
  match accountId with
  | None => with_epochs (globalEpoch c + 1) (accountEpochs c) c
  | Some a => with_epochs (globalEpoch c) (<[a := default 0 (accountEpochs c !! a) + 1]> (accountEpochs c)) c
  end.

Definition with_holds (h : list (nat * option string)) (n : nat) (c : TradingMutationCoordinator) : TradingMutationCoordinator :=
  mkCoordinator (tickets c) (tails c) (contexts c) (accountEpochs c) (globalEpoch c) h n (budgets c) (permits c).

(** The token the returned release function deletes. *)
Definition holdEntries (accountId : option string) (c : TradingMutationCoordinator) : nat * TradingMutationCoordinator :=
  let c1 := fenceEntries accountId c in
  (nextToken c1, with_holds (entryHolds c1 ++ [(nextToken c1, accountId)]) (S (nextToken c1)) c1).

Definition releaseHold (token : nat) (c : TradingMutationCoordinator) : TradingMutationCoordinator :=
  with_holds (filter (λ h, h.1 ≠ token) (entryHolds c)) (nextToken c) c.

(** [context.accountId] *)
Definition context_account (context : nat) (c : TradingMutationCoordinator) : string :=
  default "" (tk_account <$> tickets c !! context).

Definition assertContext (context : nat) (accountId : string) (c : TradingMutationCoordinator) : result unit :=
  if negb (bool_decide (context ∈ contexts c)) || negb (bool_decide (context_account context c = accountId))
  then throw "Trading mutation context is invalid, expired or belongs to another account."
  else Ok tt.

Definition EntryAdmissionRevokedError : error :=
  mkError "ENTRY_ADMISSION_REVOKED" "Entry admission invalidated by an operator fence.".

Definition assertEpoch (context : nat) (epoch : string) (c : TradingMutationCoordinator) : result unit :=
  _ ← assertContext context (context_account context c) c;
  if bool_decide (entryEpoch (context_account context c) c = epoch) then Ok tt else Err EntryAdmissionRevokedError.

(** A hold covers the account it names, or every account. *)
Definition covers (hold : option string) (accountId : string) : bool :=
  match hold with None => true | Some a => bool_decide (a = accountId) end.

Definition assertEntryEpoch (context : nat) (epoch : string) (c : TradingMutationCoordinator) : result unit :=
  _ ← assertEpoch context epoch c;
  if existsb (λ h, covers h.2 (context_account context c)) (entryHolds c) then Err EntryAdmissionRevokedError else Ok tt.

(** ** Owners *)
Definition set_status (t : nat) (s : TicketStatus) (l : list Ticket) : list Ticket :=
  alter (λ k, mkTicket (tk_account k) (tk_previous k) s) t l.

(** [withCancelBudget] on entry: a fresh budget, or the owner's live one. *)
Definition withCancelBudget (owner : nat) (accountId : string) (c : TradingMutationCoordinator) : result TradingMutationCoordinator :=
  match budgets c !! owner with
  | Some b => if bg_active b then Ok c else throw "Cancel budget owner context expired."
  | None => Ok (mkCoordinator (tickets c) (tails c) (contexts c) (accountEpochs c) (globalEpoch c) (entryHolds c) (nextToken c)
                  (<[owner := mkBudget accountId MAX_CANCEL_ATTEMPTS true]> (budgets c)) (permits c))
  end.

(** [run(accountId, operation)] up to [await previous]. *)
Definition run_enqueue (accountId : string) (c : TradingMutationCoordinator) : result (nat * TradingMutationCoordinator) :=
  if bool_decide (accountId = "") then throw "Trading mutation requires an account identifier."
  else
    let t := length (tickets c) in
    Ok (t, mkCoordinator (tickets c ++ [mkTicket accountId (tails c !! accountId) Waiting]) (<[accountId := t]> (tails c)) (contexts c)
             (accountEpochs c) (globalEpoch c) (entryHolds c) (nextToken c) (budgets c) (permits c)).

(** [run(accountId, operation, context)]: under the live owner's context. *)
Definition run_nested (accountId : string) (context : nat) (c : TradingMutationCoordinator) : result TradingMutationCoordinator :=
  if bool_decide (accountId = "") then throw "Trading mutation requires an account identifier."
  else _ ← assertContext context accountId c; withCancelBudget context accountId c.

(** The awaited tail is resolved. *)
Definition may_start (t : nat) (c : TradingMutationCoordinator) : bool :=
  match tickets c !! t with
  | Some k => bool_decide (tk_status k = Waiting) &&
      match tk_previous k with
      | None => true
      | Some p => match tickets c !! p with Some pk => bool_decide (tk_status pk = Done) | None => false end
      end
  | None => false
  end.

(** From [await previous] to the operation. *)
Definition run_start (t : nat) (c : TradingMutationCoordinator) : result TradingMutationCoordinator :=
  withCancelBudget t (context_account t c)
    (mkCoordinator (set_status t Running (tickets c)) (tails c) ({[t]} ∪ contexts c) (accountEpochs c) (globalEpoch c)
       (entryHolds c) (nextToken c) (budgets c) (permits c)).

(** The [finally] blocks of [withCancelBudget] and of [run]. *)
Definition run_finish (t : nat) (c : TradingMutationCoordinator) : TradingMutationCoordinator :=
  let a := context_account t c in
  mkCoordinator (set_status t Done (tickets c))
    (if bool_decide (tails c !! a = Some t) then delete a (tails c) else tails c)
    (contexts c ∖ {[t]}) (accountEpochs c) (globalEpoch c) (entryHolds c) (nextToken c)
    (alter (λ b, mkBudget (bg_accountId b) (bg_remaining b) false) t (budgets c)) (permits c).

(** ** The cancellation budget *)
Definition with_budgets (b : gmap nat Budget) (p : list CancelAttemptPermit) (c : TradingMutationCoordinator) : TradingMutationCoordinator :=
  mkCoordinator (tickets c) (tails c) (contexts c) (accountEpochs c) (globalEpoch c) (entryHolds c) (nextToken c) b p.

(** The permit is its position in [permits]. *)
Definition claimCancelAttempt (current : option nat) (accountId clientOrderId : string) (c : TradingMutationCoordinator)
    : result (nat * TradingMutationCoordinator) :=
  match current with
  | Some o => match budgets c !! o with
    | Some b =>
        if negb (bg_active b) || negb (bool_decide (bg_accountId b = accountId)) then throw "Cancellation lacks its live account context."
        else if bg_remaining b <=? 0 then throw "Shared account cancellation budget exhausted."
        else Ok (length (permits c),
               with_budgets (<[o := mkBudget (bg_accountId b) (bg_remaining b - 1) (bg_active b)]> (budgets c))
                 (permits c ++ [mkPermit accountId clientOrderId o false]) c)
    | None => throw "Cancellation lacks its live account context."
    end
  | None => throw "Cancellation lacks its live account context."
  end.

Definition assertLiveCancelPermit (record : option CancelAttemptPermit) (current : option nat) (c : TradingMutationCoordinator) : result unit :=
  match record with
  | Some p =>
      if pm_used p || negb (default false (bg_active <$> budgets c !! pm_budget p)) || negb (bool_decide (current = Some (pm_budget p)))
      then throw "Cancel permit is invalid, consumed or expired." else Ok tt
  | None => throw "Cancel permit is invalid, consumed or expired."
  end.

Definition assertMatchingCancelPermit (p : CancelAttemptPermit) (accountId clientOrderId : string) : result unit :=
  if negb (bool_decide (pm_accountId p = accountId)) || negb (bool_decide (pm_clientOrderId p = clientOrderId))
  then throw "Cancel permit is invalid, consumed or expired." else Ok tt.

Definition consumeCancelAttempt (permit : nat) (current : option nat) (accountId clientOrderId : string) (c : TradingMutationCoordinator)
    : result TradingMutationCoordinator :=
  _ ← assertLiveCancelPermit (permits c !! permit) current c;
  match permits c !! permit with
  | Some p => _ ← assertMatchingCancelPermit p accountId clientOrderId;
      Ok (with_budgets (budgets c) (<[permit := mkPermit (pm_accountId p) (pm_clientOrderId p) (pm_budget p) true]> (permits c)) c)
  | None => throw "Cancel permit is invalid, consumed or expired."
  end.

(** ** Runs: any interleaving of the calls and callbacks *)
Inductive coord_step : TradingMutationCoordinator → TradingMutationCoordinator → Prop :=
| step_enqueue a t c c' : run_enqueue a c = Ok (t, c') → coord_step c c'
| step_nested a ctx c c' : run_nested a ctx c = Ok c' → coord_step c c'
| step_start t c c' : may_start t c = true → run_start t c = Ok c' → coord_step c c'
| step_finish t k c : tickets c !! t = Some k → tk_status k = Running → coord_step c (run_finish t c)
| step_fence a c : coord_step c (fenceEntries a c)
| step_hold a c : coord_step c (holdEntries a c).2
| step_release token c : coord_step c (releaseHold token c)
| step_claim cur a o p c c' : claimCancelAttempt cur a o c = Ok (p, c') → coord_step c c'
| step_consume p cur a o c c' : consumeCancelAttempt p cur a o c = Ok c' → coord_step c c'.

Definition coord_reachable (c : TradingMutationCoordinator) : Prop := rtc coord_step newCoordinator c.

(** ** Invariant of the tickets *)
Definition earlier_done (l : list Ticket) (t : nat) (a : string) : Prop :=
  ∀ u k, l !! u = Some k → tk_account k = a → (u < t)%nat → tk_status k = Done.

Record lock_ok (l : list Ticket) (tl : gmap string nat) : Prop := {
  lk_previous : ∀ t k p, l !! t = Some k → tk_previous k = Some p →
    (p < t)%nat ∧ (∃ pk, l !! p = Some pk ∧ tk_account pk = tk_account k) ∧
    (∀ u uk, l !! u = Some uk → tk_account uk = tk_account k → (u < t)%nat → (u <= p)%nat);
  lk_first : ∀ t k, l !! t = Some k → tk_previous k = None → earlier_done l t (tk_account k);
  lk_started : ∀ t k, l !! t = Some k → tk_status k ≠ Waiting → earlier_done l t (tk_account k);
  lk_tail : ∀ a t, tl !! a = Some t → ∃ k, l !! t = Some k ∧ tk_account k = a ∧ tk_status k ≠ Done ∧
    (∀ u uk, l !! u = Some uk → tk_account uk = a → (u <= t)%nat);
  lk_no_tail : ∀ a, tl !! a = None → ∀ u uk, l !! u = Some uk → tk_account uk = a → tk_status uk = Done }.

Lemma lookup_set_status t s l u k' : set_status t s l !! u = Some k' ↔
  ∃ k, l !! u = Some k ∧ k' = mkTicket (tk_account k) (tk_previous k) (if decide (u = t) then s else tk_status k).
Proof.
  unfold set_status. destruct (decide (u = t)) as [->|Hne].
  - rewrite list_lookup_alter_eq. destruct (l !! t) as [k|]; cbn; split; [intros [= <-]; by exists k|intros (? & [= <-] & ->); done|done|by intros (? & ? & _)].
  - rewrite list_lookup_alter_ne by done. split; [intros H; exists k'; split; [done|by destruct k']|intros (k & H & ->); by destruct k].
Qed.

Lemma lock_new : lock_ok [] ∅.
Proof. by constructor; intros. Qed.

Lemma lookup_snoc {A} (l : list A) x u y : (l ++ [x]) !! u = Some y ↔ l !! u = Some y ∨ (u = length l ∧ y = x).
Proof.
  rewrite lookup_app. destruct (l !! u) eqn:E.
  - split; [by left|]. intros [|[-> _]]; [done|]. by rewrite lookup_ge_None_2 in E by lia.
  - apply lookup_ge_None in E. rewrite list_lookup_singleton_Some. split; [intros [? ->]; right; split; [lia|done]|intros [|[? ->]]; [done|split; [lia|done]]].
Qed.

Lemma lock_enqueue l tl a : lock_ok l tl → lock_ok (l ++ [mkTicket a (tl !! a) Waiting]) (<[a := length l]> tl).
Proof.
  intros [Hp Hf Hs Ht Hn].
  assert (∀ u k, l !! u = Some k → (u < length l)%nat) as Hlt by (intros u k Hk; by eapply lookup_lt_Some).
  constructor.
  - intros t k p [Hk|[-> ->]]%lookup_snoc Hpr; cbn in *.
    + destruct (Hp t k p Hk Hpr) as (H1 & (pk & H2 & H3) & H4). split_and!; [done|exists pk; split; [by apply lookup_app_l_Some|done]|].
      intros u uk [Hu|[-> ->]]%lookup_snoc Hacc Hut; [by eapply H4|]. apply Hlt in Hk. lia.
    + destruct (Ht a p Hpr) as (k & Hk & Ha & _ & Hall). split_and!; [by eapply Hlt|exists k; split; [by apply lookup_app_l_Some|done]|].
      intros u uk [Hu|[-> ->]]%lookup_snoc Hacc Hut; [by eapply Hall|lia].
  - intros t k [Hk|[-> ->]]%lookup_snoc Hpr u uk [Hu|[-> ->]]%lookup_snoc Hacc Hut; cbn in *.
    + by eapply (Hf t k).
    + apply Hlt in Hk. lia.
    + by eapply Hn.
    + lia.
  - intros t k [Hk|[-> ->]]%lookup_snoc Hst u uk [Hu|[-> ->]]%lookup_snoc Hacc Hut; cbn in *; [by eapply (Hs t k)| |done|done].
    apply Hlt in Hk. lia.
  - intros b t. destruct (decide (b = a)) as [->|Hne].
    + rewrite lookup_insert_eq. intros [= <-]. eexists. split; [apply lookup_snoc; by right|]. split_and!; [done|done|].
      intros u uk [Hu|[-> ->]]%lookup_snoc _; [apply Hlt in Hu; lia|lia].
    + rewrite lookup_insert_ne by done. intros (k & Hk & Ha & Hd & Hall)%Ht. exists k. split_and!; [by apply lookup_app_l_Some|done|done|].
      intros u uk [Hu|[-> ->]]%lookup_snoc Hacc; [by eapply Hall|]. cbn in Hacc. congruence.
  - intros b. destruct (decide (b = a)) as [->|Hne]; [by rewrite lookup_insert_eq|]. rewrite lookup_insert_ne by done.
    intros Hb u uk [Hu|[-> ->]]%lookup_snoc Hacc; [by eapply Hn|]. cbn in Hacc. congruence.
Qed.

(** Moving one ticket along keeps the done ones done. *)
Lemma earlier_done_mono l t s u a : (∀ k, l !! t = Some k → tk_status k = Done → s = Done) →
  earlier_done l u a → earlier_done (set_status t s l) u a.
Proof.
  intros Hk H v k' (k & Hv & ->)%lookup_set_status Hacc Hlt. cbn in *. case_decide as Hd; [subst|by eapply H].
  eapply Hk; [done|]. by eapply H.
Qed.

Lemma lock_previous_mono l t s :
  (∀ t' k p, l !! t' = Some k → tk_previous k = Some p →
    (p < t')%nat ∧ (∃ pk, l !! p = Some pk ∧ tk_account pk = tk_account k) ∧
    (∀ u uk, l !! u = Some uk → tk_account uk = tk_account k → (u < t')%nat → (u <= p)%nat)) →
  ∀ t' k p, set_status t s l !! t' = Some k → tk_previous k = Some p →
    (p < t')%nat ∧ (∃ pk, set_status t s l !! p = Some pk ∧ tk_account pk = tk_account k) ∧
    (∀ u uk, set_status t s l !! u = Some uk → tk_account uk = tk_account k → (u < t')%nat → (u <= p)%nat).
Proof.
  intros H t' k' p (k & Hk & ->)%lookup_set_status Hp. cbn in *. destruct (H t' k p Hk Hp) as (H1 & (pk & H2 & H3) & H4).
  split_and!; [done| |].
  - eexists. split; [apply lookup_set_status; exists pk; by split|done].
  - intros u uk' (uk & Hu & ->)%lookup_set_status Hacc. cbn in Hacc. by eapply H4.
Qed.

Lemma lock_start l tl t k : lock_ok l tl → l !! t = Some k → tk_status k = Waiting →
  (∀ p, tk_previous k = Some p → ∃ pk, l !! p = Some pk ∧ tk_status pk = Done) → lock_ok (set_status t Running l) tl.
Proof.
  intros [Hp Hf Hs Ht Hn] Hk Hw Hpr.
  assert (∀ k, l !! t = Some k → tk_status k = Done → Running = Done) as Hm by (intros k' E; rewrite Hk in E; injection E as <-; congruence).
  assert (earlier_done l t (tk_account k)) as Hed.
  { destruct (tk_previous k) as [p|] eqn:Ep; [|by apply Hf]. destruct (Hpr p eq_refl) as (pk & Hpk & Hd).
    destruct (Hp t k p Hk Ep) as (_ & (pk' & Hpk' & Hacc) & Hall). rewrite Hpk in Hpk'. injection Hpk' as <-.
    intros u uk Hu Hua Hut. pose proof (Hall u uk Hu Hua Hut). destruct (decide (u = p)) as [->|]; [congruence|].
    eapply (Hs p pk Hpk); [congruence|done|congruence|lia]. }
  constructor.
  - by apply lock_previous_mono.
  - intros u k' (uk & Hu & ->)%lookup_set_status Hpu. cbn in *. apply earlier_done_mono; [done|]. by apply Hf.
  - intros u k' (uk & Hu & ->)%lookup_set_status Hst. cbn in *. apply earlier_done_mono; [done|].
    case_decide as Hd; [subst u; rewrite Hk in Hu; by injection Hu as <-|by apply Hs].
  - intros a u (uk & Hu & Ha & Hd & Hall)%Ht. eexists. split; [apply lookup_set_status; exists uk; by split|]. cbn.
    split_and!; [done|by case_decide|]. intros v vk' (vk & Hv & ->)%lookup_set_status Hacc. cbn in Hacc. by eapply Hall.
  - intros a Ha u k' (uk & Hu & ->)%lookup_set_status Hacc. cbn in *. specialize (Hn a Ha u uk Hu Hacc). case_decide; [subst; by eapply Hm|done].
Qed.

Lemma lock_finish l tl t k : lock_ok l tl → l !! t = Some k → tk_status k = Running →
  lock_ok (set_status t Done l) (if bool_decide (tl !! tk_account k = Some t) then delete (tk_account k) tl else tl).
Proof.
  intros [Hp Hf Hs Ht Hn] Hk Hr. pose proof (Hs t k Hk ltac:(congruence)) as Hed.
  assert (∀ u uk', set_status t Done l !! u = Some uk' → ∃ uk, l !! u = Some uk ∧ tk_account uk' = tk_account uk ∧
            tk_previous uk' = tk_previous uk ∧ (u ≠ t → tk_status uk' = tk_status uk) ∧ (u = t → tk_status uk' = Done)) as Hlk.
  { intros u uk' (uk & Hu & ->)%lookup_set_status. exists uk. cbn. split_and!; [done|done|done| |]; intros; by case_decide. }
  constructor.
  - by apply lock_previous_mono.
  - intros u uk' (uk & Hu & -> & Epu & _)%Hlk Hpu. apply earlier_done_mono; [done|]. apply (Hf u uk Hu). congruence.
  - intros u uk' (uk & Hu & -> & _ & Hne & Heq)%Hlk Hst. apply earlier_done_mono; [done|]. destruct (decide (u = t)) as [->|Hut].
    + rewrite Hk in Hu. by injection Hu as <-.
    + apply (Hs u uk Hu). by rewrite <- Hne.
  - intros a u Ha. assert (tl !! a = Some u ∧ u ≠ t) as [Ha' Hut].
    { case_bool_decide as Hb; [apply lookup_delete_Some in Ha as [Hne Ha]|]; split; try done; intros ->;
        destruct (Ht a t Ha) as (k' & Hk' & E & _); rewrite Hk in Hk'; injection Hk' as <-; congruence. }
    destruct (Ht a u Ha') as (uk & Hu & Hacc & Hd & Hall). eexists. split; [apply lookup_set_status; exists uk; by split|]. cbn.
    rewrite decide_False by done. split_and!; [done|done|]. intros v vk' (vk & Hv & Ea & _)%Hlk Hv'. eapply Hall; [exact Hv|congruence].
  - intros a Ha u uk' (uk & Hu & Eacc & _ & Hne & Heq)%Hlk Hacc. destruct (decide (u = t)) as [->|Hut]; [by apply Heq|].
    rewrite Hne by done. case_bool_decide as Hb; [|eapply Hn; [exact Ha|exact Hu|congruence]].
    apply lookup_delete_None in Ha as [Ea|Ha]; [|eapply Hn; [exact Ha|exact Hu|congruence]].
    destruct (Ht _ _ Hb) as (k' & _ & _ & _ & Hall). pose proof (Hall u uk Hu ltac:(congruence)).
    eapply Hed; [exact Hu|congruence|lia].
Qed.

(** ** Invariant of the coordinator *)
Definition claimed (t : nat) (ps : list CancelAttemptPermit) : Z := Z.of_nat (length (filter (λ p, pm_budget p = t) ps)).

Definition budget_ok (l : list Ticket) (ps : list CancelAttemptPermit) (t : nat) (b : Budget) : Prop :=
  (∃ k, l !! t = Some k ∧ bg_accountId b = tk_account k ∧ tk_status k ≠ Waiting ∧ bg_active b = bool_decide (tk_status k = Running)) ∧
  0 <= bg_remaining b ∧ bg_remaining b + claimed t ps = MAX_CANCEL_ATTEMPTS.

Record coord_ok (c : TradingMutationCoordinator) : Prop := {
  co_lock : lock_ok (tickets c) (tails c);
  co_contexts : ∀ t, t ∈ contexts c ↔ ∃ k, tickets c !! t = Some k ∧ tk_status k = Running;
  co_budgets : ∀ t b, budgets c !! t = Some b → budget_ok (tickets c) (permits c) t b;
  co_live : ∀ t, t ∈ contexts c → is_Some (budgets c !! t);
  co_permits : ∀ p, p ∈ permits c → is_Some (budgets c !! pm_budget p);
  co_epochs : 0 <= globalEpoch c ∧ ∀ a, 0 <= default 0 (accountEpochs c !! a) }.

Lemma new_ok : coord_ok newCoordinator.
Proof.
  constructor; cbn.
  - exact lock_new.
  - intros t. split; [set_solver|by intros (k & Hk & _)].
  - intros t b Hb. by rewrite lookup_empty in Hb.
  - set_solver.
  - intros p Hp. by apply not_elem_of_nil in Hp.
  - split; [lia|]. intros a. by rewrite lookup_empty.
Qed.

Lemma list_filter_nil_fresh {A} (P : A → Prop) `{!∀ x, Decision (P x)} (l : list A) : (∀ x, x ∈ l → ¬ P x) → filter P l = [].
Proof.
  induction l as [|x l IH]; intros Hn; [done|]. rewrite filter_cons, decide_False by (apply Hn; left). apply IH. intros y Hy. apply Hn. by right.
Qed.

Lemma enqueue_ok a t c c' : coord_ok c → run_enqueue a c = Ok (t, c') → coord_ok c'.
Proof.
  intros [Hl Hc Hb Hlv Hp He] H. unfold run_enqueue in H. case_bool_decide; [done|]. injection H as <- <-. constructor; cbn; try done.
  - by apply lock_enqueue.
  - intros t. rewrite (Hc t). split; intros (k & Hk & Hr); exists k; (split; [|done]).
    + apply lookup_snoc. by left.
    + apply lookup_snoc in Hk as [|[-> ->]]; done.
  - intros t b Hb'. destruct (Hb t b Hb') as [(k & Hk & Hrest) Hrem]. split; [|done]. exists k. split; [apply lookup_snoc; by left|done].
Qed.

Lemma nested_ok a ctx c c' : coord_ok c → run_nested a ctx c = Ok c' → c' = c.
Proof.
  intros Hok H. unfold run_nested in H. case_bool_decide; [done|]. apply bind_Ok in H as (u & Hu & H). unfold assertContext in Hu.
  destruct (bool_decide_reflect (ctx ∈ contexts c)) as [Hin|]; [|done]. clear Hu. unfold withCancelBudget in H.
  destruct (co_live c Hok ctx Hin) as [b Eb]. rewrite Eb in H. destruct (bg_active b); by inversion H.
Qed.

Lemma start_ok t c c' : coord_ok c → may_start t c = true → run_start t c = Ok c' → coord_ok c'.
Proof.
  intros [Hl Hc Hb Hlv Hp He] Hm H. unfold may_start in Hm. destruct (tickets c !! t) as [k|] eqn:Ek; [|done].
  apply andb_true_iff in Hm as [Hw Hpr]. apply bool_decide_eq_true in Hw.
  unfold run_start, withCancelBudget in H. cbn [budgets] in H. destruct (budgets c !! t) as [b|] eqn:Eb.
  { destruct (Hb t b Eb) as [(k' & Hk' & _ & Hs & _) _]. rewrite Ek in Hk'. by injection Hk' as <-. }
  injection H as <-. unfold context_account. rewrite Ek. cbn. constructor; cbn.
  - eapply lock_start; [done|exact Ek|done|]. intros p Epr. rewrite Epr in Hpr. destruct (tickets c !! p) as [pk|]; [|done].
    exists pk. split; [done|by apply bool_decide_eq_true in Hpr].
  - intros u. rewrite elem_of_union, elem_of_singleton, (Hc u). split.
    + intros [->|(uk & Hu & Hr)]; eexists; (split; [apply lookup_set_status; eexists; by split|]); cbn; [by rewrite decide_True|].
      case_decide; done.
    + intros (k' & (uk & Hu & ->)%lookup_set_status & Hr). cbn in Hr. case_decide; [by left|right]. by exists uk.
  - intros u b. destruct (decide (u = t)) as [->|Hne].
    + rewrite lookup_insert_eq. intros [= <-]. split.
      * eexists. split; [apply lookup_set_status; exists k; by split|]. cbn. rewrite decide_True by done. by split_and!.
      * cbn. split; [by unfold MAX_CANCEL_ATTEMPTS|]. assert (claimed t (permits c) = 0) as ->; [|unfold MAX_CANCEL_ATTEMPTS; lia].
        unfold claimed. assert (filter (λ p, pm_budget p = t) (permits c) = []) as ->; [|done].
        apply list_filter_nil_fresh. intros p Hin E. destruct (Hp p Hin) as [b' Hb']. rewrite E in Hb'. congruence.
    + rewrite lookup_insert_ne by done. intros (Hk & Hr)%Hb. split; [|done]. destruct Hk as (uk & Hu & Hrest).
      eexists. split; [apply lookup_set_status; exists uk; by split|]. cbn. by rewrite decide_False.
  - intros u. rewrite elem_of_union, elem_of_singleton. intros [->|Hu]; [by rewrite lookup_insert_eq|].
    destruct (decide (u = t)) as [->|]; [by rewrite lookup_insert_eq|rewrite lookup_insert_ne by done; by apply Hlv].
  - intros p Hin. destruct (decide (pm_budget p = t)) as [->|]; [by rewrite lookup_insert_eq|rewrite lookup_insert_ne by done; by apply Hp].
  - done.
Qed.

Lemma finish_ok t k c : coord_ok c → tickets c !! t = Some k → tk_status k = Running → coord_ok (run_finish t c).
Proof.
  intros [Hl Hc Hb Hlv Hp He] Hk Hr. unfold run_finish, context_account. rewrite Hk. cbn. constructor; cbn.
  - by eapply lock_finish.
  - intros u. rewrite elem_of_difference, elem_of_singleton, (Hc u). split.
    + intros [(uk & Hu & Hru) Hne]. eexists. split; [apply lookup_set_status; exists uk; by split|]. cbn. by rewrite decide_False.
    + intros (k' & (uk & Hu & ->)%lookup_set_status & Hru). cbn in Hru. case_decide; [done|]. split; [by exists uk|done].
  - intros u b' Hb'. destruct (decide (u = t)) as [->|Hne].
    + rewrite lookup_alter_eq in Hb'. apply fmap_Some in Hb' as (b & Eb & ->). destruct (Hb t b Eb) as [(k' & Hk' & Ha & _) Hrem].
      rewrite Hk in Hk'. injection Hk' as <-. split; [|done]. eexists. split; [apply lookup_set_status; exists k; by split|]. cbn.
      rewrite decide_True by done. by split_and!.
    + rewrite lookup_alter_ne in Hb' by done. destruct (Hb u b' Hb') as [(uk & Hu & Hrest) Hrem]. split; [|done].
      eexists. split; [apply lookup_set_status; exists uk; by split|]. cbn. by rewrite decide_False.
  - intros u [Hu Hne]%elem_of_difference. rewrite elem_of_singleton in Hne. rewrite lookup_alter_ne by done. by apply Hlv.
  - intros p Hin. destruct (Hp p Hin) as [b Eb]. destruct (decide (pm_budget p = t)) as [E|].
    + rewrite E in *. rewrite lookup_alter_eq, Eb. by eexists.
    + rewrite lookup_alter_ne by done. by eexists.
  - done.
Qed.

Lemma fence_ok a c : coord_ok c → coord_ok (fenceEntries a c).
Proof.
  intros [Hl Hc Hb Hlv Hp [Hg Ha]]. destruct a as [a|]; constructor; cbn; try done; (split; [lia|]); [|done].
  intros b. destruct (decide (b = a)) as [->|]; [rewrite lookup_insert_eq; cbn; specialize (Ha a); lia|by rewrite lookup_insert_ne].
Qed.

Lemma with_holds_ok h n c : coord_ok c → coord_ok (with_holds h n c).
Proof. intros [Hl Hc Hb Hlv Hp He]. by constructor. Qed.

Lemma claimed_snoc t ps p : claimed t (ps ++ [p]) = claimed t ps + (if decide (pm_budget p = t) then 1 else 0).
Proof.
  unfold claimed. rewrite filter_app, length_app, Nat2Z.inj_add. f_equal. rewrite filter_cons, filter_nil. by case_decide.
Qed.

Lemma claim_ok cur a o p c c' : coord_ok c → claimCancelAttempt cur a o c = Ok (p, c') → coord_ok c'.
Proof.
  intros [Hl Hc Hb Hlv Hp He] H. unfold claimCancelAttempt in H. destruct cur as [t|]; [|done].
  destruct (budgets c !! t) as [b|] eqn:Eb; [|done]. destruct (negb (bg_active b) || negb (bool_decide (bg_accountId b = a))); [done|].
  destruct (Z.leb_spec (bg_remaining b) 0); [done|]. injection H as <- <-. destruct (Hb t b Eb) as [Hk [Hr1 Hr2]].
  constructor; cbn; try done.
  - intros u b'. destruct (decide (u = t)) as [->|Hne].
    + rewrite lookup_insert_eq. intros [= <-]. split; [done|]. cbn. rewrite claimed_snoc, decide_True by done. lia.
    + rewrite lookup_insert_ne by done. intros [Hk' [H1 H2]]%Hb. split; [done|]. rewrite claimed_snoc, decide_False by (cbn; congruence). lia.
  - intros u Hu. destruct (decide (u = t)) as [->|]; [by rewrite lookup_insert_eq|rewrite lookup_insert_ne by done; by apply Hlv].
  - intros q [Hq| ->%list_elem_of_singleton]%elem_of_app; cbn; [|by rewrite lookup_insert_eq].
    destruct (decide (pm_budget q = t)) as [->|]; [by rewrite lookup_insert_eq|rewrite lookup_insert_ne by done; by apply Hp].
Qed.

(** Using a permit keeps its budget. *)
Lemma claimed_insert t ps i p p' : ps !! i = Some p → pm_budget p' = pm_budget p → claimed t (<[i := p']> ps) = claimed t ps.
Proof.
  intros Hi E. unfold claimed. f_equal. revert i Hi. induction ps as [|q ps IH]; intros [|i] Hi; cbn in Hi; try done.
  - injection Hi as ->. cbn [insert list_insert]. rewrite !filter_cons, E. by case_decide.
  - change (<[S i := p']> (q :: ps)) with (q :: <[i := p']> ps). rewrite !filter_cons. specialize (IH i Hi). case_decide; cbn [length]; by rewrite IH.
Qed.

Lemma consume_inv i cur a o c c' : consumeCancelAttempt i cur a o c = Ok c' →
  ∃ p b, permits c !! i = Some p ∧ budgets c !! pm_budget p = Some b ∧ bg_active b = true ∧ cur = Some (pm_budget p) ∧
    pm_used p = false ∧ pm_accountId p = a ∧ pm_clientOrderId p = o ∧
    c' = with_budgets (budgets c) (<[i := mkPermit (pm_accountId p) (pm_clientOrderId p) (pm_budget p) true]> (permits c)) c.
Proof.
  unfold consumeCancelAttempt, assertLiveCancelPermit. destruct (permits c !! i) as [p|]; [|done]. intros H.
  destruct (pm_used p) eqn:Eu; [done|]. destruct (budgets c !! pm_budget p) as [b|] eqn:Eb; [|done]. cbn in H.
  destruct (bg_active b) eqn:Ea; [|done]. cbn in H. destruct (bool_decide_reflect (cur = Some (pm_budget p))) as [Ec|]; [|done]. cbn in H.
  unfold assertMatchingCancelPermit in H. destruct (bool_decide_reflect (pm_accountId p = a)); [|done].
  destruct (bool_decide_reflect (pm_clientOrderId p = o)); [|done]. cbn in H. injection H as <-. exists p, b. by split_and!.
Qed.

Lemma consume_ok i cur a o c c' : coord_ok c → consumeCancelAttempt i cur a o c = Ok c' → coord_ok c'.
Proof.
  intros [Hl Hc Hb Hlv Hp He] (p & b & Hi & _ & _ & _ & _ & _ & _ & ->)%consume_inv. constructor; cbn; try done.
  - intros t b' [Hk Hr]%Hb. split; [done|]. by rewrite (claimed_insert _ _ _ p).
  - intros q [j Hj]%list_elem_of_lookup. destruct (decide (j = i)) as [->|].
    + rewrite list_lookup_insert_eq in Hj by (by eapply lookup_lt_Some). injection Hj as <-. cbn. apply Hp. by eapply list_elem_of_lookup_2.
    + rewrite list_lookup_insert_ne in Hj by done. apply Hp. by eapply list_elem_of_lookup_2.
Qed.

Lemma coord_step_ok c c' : coord_ok c → coord_step c c' → coord_ok c'.
Proof.
  intros Hok Hst. destruct Hst as [a t c c' H|a ctx c c' H|t c c' Hm H|t k c Hk Hr|a c|a c|tok c|cur a o p c c' H|p cur a o c c' H].
  - by eapply enqueue_ok.
  - by rewrite (nested_ok _ _ _ _ Hok H).
  - by eapply start_ok.
  - by eapply finish_ok.
  - by apply fence_ok.
  - by apply with_holds_ok, fence_ok.
  - by apply with_holds_ok.
  - by eapply claim_ok.
  - by eapply consume_ok.
Qed.

Lemma coord_reachable_ok c : coord_reachable c → coord_ok c.
Proof.
  intros H. assert (∀ a b, rtc coord_step a b → coord_ok a → coord_ok b) as Hr; [|exact (Hr _ _ H new_ok)].
  clear. induction 1 as [|a b d Hst _ IH]; [done|]. intros Ha. apply IH. by eapply coord_step_ok.
Qed.

(** ** Serialization *)
Lemma assertContext_Ok ctx a c : assertContext ctx a c = Ok tt ↔ ctx ∈ contexts c ∧ context_account ctx c = a.
Proof.
  unfold assertContext. destruct (bool_decide_reflect (ctx ∈ contexts c)); cbn; [|by split; [|intros [? _]]].
  destruct (bool_decide_reflect (context_account ctx c = a)); cbn; by split; [|intros [_ ?]].
Qed.

Lemma waiting_starts t k c : coord_ok c → tickets c !! t = Some k → tk_status k = Waiting → is_ok (run_start t c) = true.
Proof.
  intros Hok Hk Hw. unfold run_start, withCancelBudget. cbn. destruct (budgets c !! t) as [b|] eqn:Eb; [|done].
  destruct (co_budgets c Hok t b Eb) as [(k' & Hk' & _ & Hs & _) _]. rewrite Hk in Hk'. by injection Hk' as <-.
Qed.

(** The oldest unfinished call of an account runs or can start. *)
Lemma account_progress c t k : coord_ok c → tickets c !! t = Some k → tk_status k ≠ Done →
  ∃ u uk, (u <= t)%nat ∧ tickets c !! u = Some uk ∧ tk_account uk = tk_account k ∧
    (tk_status uk = Running ∨ (may_start u c = true ∧ is_ok (run_start u c) = true)).
Proof.
  intros Hok. revert k. induction (lt_wf t) as [t _ IH]. intros k Hk Hd. destruct (tk_status k) eqn:Es; [|by exists t, k; auto|done].
  assert (may_start t c = true → ∃ u uk, (u <= t)%nat ∧ tickets c !! u = Some uk ∧ tk_account uk = tk_account k ∧
            (tk_status uk = Running ∨ (may_start u c = true ∧ is_ok (run_start u c) = true))) as Hgo.
  { intros Hm. exists t, k. split_and!; [lia|done|done|]. right. split; [done|by eapply waiting_starts]. }
  unfold may_start in Hgo. rewrite Hk, Es in Hgo. destruct (tk_previous k) as [p|] eqn:Ep; [|by apply Hgo].
  destruct (lk_previous _ _ (co_lock c Hok) t k p Hk Ep) as (Hlt & (pk & Hpk & Hacc) & _). rewrite Hpk in Hgo.
  destruct (decide (tk_status pk = Done)) as [E|E]; [apply Hgo; by rewrite E|].
  destruct (IH p Hlt pk Hpk E) as (u & uk & Hu & Huk & Ha & Hor). exists u, uk. split_and!; [lia|done|congruence|done].
Qed.

(** C15: mutations of one account are serialized, in call order, and never
    stall: in every interleaving at most one call of an account runs, a call has
    started only when every earlier call of the account has finished, the
    context check accepts exactly the running owner of the named account, and
    while any call is unfinished some call of its account, no later than it, is
    running or can start. *)
Theorem mutations_serialized c : coord_reachable c →
  (∀ t1 t2 k1 k2, tickets c !! t1 = Some k1 → tickets c !! t2 = Some k2 → tk_account k1 = tk_account k2 →
     tk_status k1 = Running → tk_status k2 = Running → t1 = t2) ∧
  (∀ t k, tickets c !! t = Some k → tk_status k ≠ Waiting → earlier_done (tickets c) t (tk_account k)) ∧
  (∀ ctx a, assertContext ctx a c = Ok tt ↔ ∃ k, tickets c !! ctx = Some k ∧ tk_account k = a ∧ tk_status k = Running) ∧
  (∀ t k, tickets c !! t = Some k → tk_status k ≠ Done →
     ∃ u uk, (u <= t)%nat ∧ tickets c !! u = Some uk ∧ tk_account uk = tk_account k ∧
       (tk_status uk = Running ∨ (may_start u c = true ∧ is_ok (run_start u c) = true))).
Proof.
  intros Hok%coord_reachable_ok. pose proof (lk_started _ _ (co_lock c Hok)) as Hs. split_and!; [|done| |].
  - intros t1 t2 k1 k2 H1 H2 Ha R1 R2. destruct (Nat.lt_trichotomy t1 t2) as [Hl|[->|Hl]]; [|done|].
    + pose proof (Hs t2 k2 H2 ltac:(congruence) t1 k1 H1 Ha Hl). congruence.
    + pose proof (Hs t1 k1 H1 ltac:(congruence) t2 k2 H2 ltac:(congruence) Hl). congruence.
  - intros ctx a. rewrite assertContext_Ok, (co_contexts c Hok). unfold context_account. split.
    + intros [(k & Hk & Hr) Ha]. rewrite Hk in Ha. by exists k.
    + intros (k & Hk & Ha & Hr). rewrite Hk. split; [by exists k|done].
  - intros t k Hk Hd. by apply account_progress.
Qed.

(** Two calls of one account and one of another; the first of each runs. *)
Definition ok_or {A} (d : A) (r : result A) : A := match r with Ok a => a | Err _ => d end.
Definition enqueue_example (a : string) (c : TradingMutationCoordinator) : TradingMutationCoordinator := (ok_or (0%nat, c) (run_enqueue a c)).2.
Definition coordinator_example : TradingMutationCoordinator :=
  let c3 := enqueue_example "b" (enqueue_example "a" (enqueue_example "a" newCoordinator)) in
  let c4 := ok_or c3 (run_start 0 c3) in ok_or c4 (run_start 2 c4).

Lemma coordinator_example_reachable : coord_reachable coordinator_example.
Proof.
  unfold coord_reachable, coordinator_example. cbv zeta.
  eapply rtc_l; [apply (step_enqueue "a" 0%nat); vm_compute; reflexivity|].
  eapply rtc_l; [apply (step_enqueue "a" 1%nat); vm_compute; reflexivity|].
  eapply rtc_l; [apply (step_enqueue "b" 2%nat); vm_compute; reflexivity|].
  eapply rtc_l; [apply (step_start 0%nat); vm_compute; reflexivity|].
  eapply rtc_l; [apply (step_start 2%nat); vm_compute; reflexivity|].
  apply rtc_refl.
Defined.

Lemma mutations_serialized_witness :
  map tk_status (tickets coordinator_example) = [Running; Waiting; Running] ∧
  (assertContext 0 "a" coordinator_example = Ok tt ↔
     ∃ k, tickets coordinator_example !! 0%nat = Some k ∧ tk_account k = "a" ∧ tk_status k = Running).
Proof.
  split; [vm_compute; reflexivity|].
  destruct (mutations_serialized _ coordinator_example_reachable) as (_ & _ & H & _). exact (H 0%nat "a").
Defined.

(** ** Fences *)
Definition colon_char : Ascii.ascii := Ascii.ascii_of_nat 58.

Lemma chars_show_nat n : chars (show_nat n) = to_digits n.
Proof. apply chars_of_chars. Qed.

(** The rendered pair of counters determines them. *)
Lemma epoch_inj g a g' a' : 0 <= g → 0 <= a → 0 <= g' → 0 <= a' →
  show_nat g +:+ ":" +:+ show_nat a = show_nat g' +:+ ":" +:+ show_nat a' → g = g' ∧ a = a'.
Proof.
  intros Hg Ha Hg' Ha' H. apply (f_equal chars) in H. rewrite !chars_append, !chars_show_nat in H.
  change (chars ":") with [colon_char] in H. cbn [app] in H.
  assert (∀ n, 0 <= n → colon_char ∉ to_digits n) as Hnc.
  { intros n Hn. apply digits_no_char; [reflexivity|by apply to_digits_digits]. }
  apply (f_equal (split_chars colon_char)) in H. rewrite !split_chars_one, !split_chars_none in H by auto.
  injection H as H1 H2. split; [rewrite <- (digits_to_digits g), <- (digits_to_digits g') by done; by f_equal|].
  rewrite <- (digits_to_digits a), <- (digits_to_digits a') by done. by f_equal.
Qed.

(** Both counters only grow. *)
Definition epochs_le (c c' : TradingMutationCoordinator) : Prop :=
  globalEpoch c <= globalEpoch c' ∧ ∀ a, default 0 (accountEpochs c !! a) <= default 0 (accountEpochs c' !! a).

Lemma fence_epochs f c : epochs_le c (fenceEntries f c) ∧
  ∀ a, covers f a = true →
    globalEpoch c + default 0 (accountEpochs c !! a) < globalEpoch (fenceEntries f c) + default 0 (accountEpochs (fenceEntries f c) !! a).
Proof.
  destruct f as [f|]; cbn; (split; [split; [cbn; lia|intros b; cbn]|intros b Hb; try lia]).
  - destruct (decide (b = f)) as [->|]; [rewrite lookup_insert_eq; cbn; lia|by rewrite lookup_insert_ne].
  - apply bool_decide_eq_true in Hb as <-. rewrite lookup_insert_eq. cbn. lia.
  - lia.
Qed.

Lemma step_epochs c c' : coord_ok c → coord_step c c' → epochs_le c c'.
Proof.
  intros Hok Hst. destruct Hst as [a t c c' H|a ctx c c' H|t c c' Hm H|t k c Hk Hr|a c|a c|tok c|cur a o p c c' H|p cur a o c c' H].
  - unfold run_enqueue in H. case_bool_decide; [done|]. by injection H as <- <-.
  - by rewrite (nested_ok _ _ _ _ Hok H).
  - unfold run_start, withCancelBudget in H. cbn in H. destruct (budgets c !! t) as [b|]; [destruct (bg_active b); [|done]|]; by injection H as <-.
  - by split.
  - apply fence_epochs.
  - cbn. apply fence_epochs.
  - by split.
  - unfold claimCancelAttempt in H. destruct cur as [t|]; [|done]. destruct (budgets c !! t) as [b|]; [|done].
    destruct (_ || _); [done|]. destruct (_ <=? _); [done|]. by injection H as <- <-.
  - by apply consume_inv in H as (q & b & _ & _ & _ & _ & _ & _ & _ & ->).
Qed.

Lemma steps_epochs c c' : coord_ok c → rtc coord_step c c' → epochs_le c c' ∧ coord_ok c'.
Proof.
  intros Hok Hr. induction Hr as [c|c c1 c2 Hst _ IH]; [split; [by split|done]|].
  destruct (IH (coord_step_ok _ _ Hok Hst)) as [[G A] Hok2]. destruct (step_epochs _ _ Hok Hst) as [G1 A1].
  split; [|done]. split; [lia|]. intros a. specialize (A a). specialize (A1 a). lia.
Qed.

Lemma assertEpoch_Ok ctx e c : assertEpoch ctx e c = Ok tt ↔ ctx ∈ contexts c ∧ entryEpoch (context_account ctx c) c = e.
Proof.
  unfold assertEpoch. destruct (assertContext ctx (context_account ctx c) c) as [[]|e'] eqn:E; cbn.
  - apply assertContext_Ok in E as [E _]. destruct (bool_decide_reflect (entryEpoch (context_account ctx c) c = e)); by split; [|intros [_ ?]].
  - split; [done|]. intros [Hin _]. assert (assertContext ctx (context_account ctx c) c = Ok tt) as E2 by (by apply assertContext_Ok).
    congruence.
Qed.

Lemma assertEntryEpoch_Ok ctx e c : assertEntryEpoch ctx e c = Ok tt ↔
  ctx ∈ contexts c ∧ entryEpoch (context_account ctx c) c = e ∧ ∀ h, h ∈ entryHolds c → covers h.2 (context_account ctx c) = false.
Proof.
  unfold assertEntryEpoch. pose proof (assertEpoch_Ok ctx e c) as HE. destruct (assertEpoch ctx e c) as [[]|e']; cbn.
  2: { split; [done|]. intros (H1 & H2 & _). by apply HE. }
  destruct (proj1 HE eq_refl) as [H1 H2]. destruct (existsb _ _) eqn:Ex.
  - split; [done|]. intros (_ & _ & H3). apply existsb_exists in Ex as (h & Hin & Hc). apply list_elem_of_In in Hin. rewrite (H3 h Hin) in Hc. done.
  - split; [|done]. intros _. split_and!; [done|done|]. intros h Hin. apply not_true_is_false. intros Hc.
    assert (existsb (λ h, covers h.2 (context_account ctx c)) (entryHolds c) = true) as E; [|congruence].
    apply existsb_exists. exists h. by rewrite <- list_elem_of_In.
Qed.

(** An operator fence cannot be overtaken: an entry prepared under an epoch
    read before a fence of its account (or of every account) is refused at every
    later point, whatever runs in between; a live hold refuses every entry of
    the accounts it covers and survives the release of any other hold; otherwise
    the live owner with the current epoch is admitted. *)
Theorem fence_revokes_entries a f c0 c1 ctx : coord_reachable c0 → covers f a = true → rtc coord_step (fenceEntries f c0) c1 →
  context_account ctx c1 = a →
  assertEpoch ctx (entryEpoch a c0) c1 ≠ Ok tt ∧ assertEntryEpoch ctx (entryEpoch a c0) c1 ≠ Ok tt ∧
  (∀ token h epoch, (token, h) ∈ entryHolds c1 → covers h a = true →
     assertEntryEpoch ctx epoch c1 ≠ Ok tt ∧ ∀ other, other ≠ token → (token, h) ∈ entryHolds (releaseHold other c1)) ∧
  (ctx ∈ contexts c1 → (∀ h, h ∈ entryHolds c1 → covers h.2 a = false) → assertEntryEpoch ctx (entryEpoch a c1) c1 = Ok tt).
Proof.
  intros Hok%coord_reachable_ok Hcov Hr Ha. destruct (steps_epochs _ _ (fence_ok f c0 Hok) Hr) as [[G A] Hok1].
  destruct (fence_epochs f c0) as [_ Hlt]. specialize (Hlt a Hcov). specialize (A a).
  assert (entryEpoch a c1 ≠ entryEpoch a c0) as Hne.
  { intros E. unfold entryEpoch in E. destruct (co_epochs c0 Hok) as [P1 P2]. destruct (co_epochs c1 Hok1) as [P3 P4].
    apply epoch_inj in E as [E1 E2]; [lia|done|by apply P4|done|by apply P2]. }
  split_and!.
  - intros H. apply assertEpoch_Ok in H as [_ H]. by rewrite Ha in H.
  - intros H. apply assertEntryEpoch_Ok in H as (_ & H & _). by rewrite Ha in H.
  - intros tok h e Hin Hc. split.
    + intros H. apply assertEntryEpoch_Ok in H as (_ & _ & H). specialize (H _ Hin). rewrite Ha in H. cbn in H. congruence.
    + intros other Hne'. cbn. apply list_elem_of_filter. split; [cbn; congruence|done].
  - intros Hin Hh. apply assertEntryEpoch_Ok. by rewrite Ha.
Qed.

(** The cancellation budget: in every interleaving an owner has claimed at
    most five attempts, and exactly as many as its budget has spent; an attempt
    is granted only to the live owner of the account; a permit is consumed under
    its own live budget, for the order it names, and never twice. *)
Theorem cancel_budget_bounded c : coord_reachable c →
  (∀ t b, budgets c !! t = Some b → 0 <= claimed t (permits c) <= MAX_CANCEL_ATTEMPTS ∧
     bg_remaining b = MAX_CANCEL_ATTEMPTS - claimed t (permits c)) ∧
  (∀ current a o p c', claimCancelAttempt current a o c = Ok (p, c') →
     ∃ t k, current = Some t ∧ tickets c !! t = Some k ∧ tk_status k = Running ∧ tk_account k = a ∧
       claimed t (permits c') = claimed t (permits c) + 1) ∧
  (∀ i current a o c', consumeCancelAttempt i current a o c = Ok c' →
     (∃ p k, permits c !! i = Some p ∧ pm_used p = false ∧ pm_accountId p = a ∧ pm_clientOrderId p = o ∧ current = Some (pm_budget p) ∧
        tickets c !! pm_budget p = Some k ∧ tk_status k = Running) ∧
     ∀ current' a' o', is_ok (consumeCancelAttempt i current' a' o' c') = false).
Proof.
  intros Hok%coord_reachable_ok. pose proof (co_budgets c Hok) as Hb. split_and!.
  - intros t b Eb. destruct (Hb t b Eb) as (_ & H1 & H2). unfold claimed in *. lia.
  - intros cur a o p c' H. unfold claimCancelAttempt in H. destruct cur as [t|]; [|done]. destruct (budgets c !! t) as [b|] eqn:Eb; [|done].
    destruct (bg_active b) eqn:Ea; [|done]. destruct (bool_decide_reflect (bg_accountId b = a)) as [Eacc|]; [|done]. cbn [negb orb] in H.
    destruct (_ <=? _); [done|]. injection H as <- <-. destruct (Hb t b Eb) as [(k & Hk & E1 & _ & E2) _].
    exists t, k. cbn. rewrite claimed_snoc, decide_True by done. rewrite Ea in E2. symmetry in E2. apply bool_decide_eq_true in E2.
    split_and!; [done|done|done|congruence|done].
  - intros i cur a o c' H. pose proof H as (p & b & Hp & Eb & Ea & Ec & Eu & E1 & E2 & ->)%consume_inv. split.
    + destruct (Hb _ b Eb) as [(k & Hk & _ & _ & E3) _]. rewrite Ea in E3. symmetry in E3. apply bool_decide_eq_true in E3. exists p, k. by split_and!.
    + intros cur' a' o'. unfold consumeCancelAttempt, assertLiveCancelPermit. cbn.
      by rewrite list_lookup_insert_eq by (by eapply lookup_lt_Some).
Qed.
