(* ===== verification/Delivery.v ===== *)
(** Delivery: [src/delivery_tracker.ts], matching Telegram's confirmations with
    the sends that wait for them.

    The promises of the tracker are named by the order of their creation, and
    [dt_settled] logs every settlement.  The two maps keep the insertion order of
    a JavaScript [Map].  The clock is an argument; the timer and the abort
    listener of a waiter are the events [confirmationTimeout] and [aborted]. *)

From S2P Require Import Prelude Text Maps Queue.
Local Open Scope Z_scope.

(** ** Identifiers and details *)
(** An identifier of type [unknown], by the cases the code tells apart. *)
Inductive MessageIdValue :=
| IdAbsent                (* undefined or null *)
| IdString (s : string)
| IdNumber (z : Z)        (* an integral number *)
| IdBigint (z : Z)
| IdOther.

Definition show_int (z : Z) : string := if z <? 0 then minus (show_nat (- z)) else show_nat z.

Definition deliveryMessageId (value : MessageIdValue) : option string :=
  match value with
  | IdString s => Some s
  | IdNumber z => if isSafeInteger z then Some (show_int z) else None
  | IdBigint z => Some (show_int z)
  | IdAbsent | IdOther => None
  end.

(** [None] stands for a detail that is not a string. *)
Definition deliveryErrorDetail (value : option string) : option string :=
  match value with Some s => if bool_decide (s = "") then None else Some s | None => None end.

Record DeliveryUpdate := mkUpdate {
  du_type : string;
  du_old_message_id : MessageIdValue;
  du_message_id : MessageIdValue;
  du_error : option string;
  du_sending_error : option string }.

Definition deliveryFailureDetail (update : DeliveryUpdate) : string :=
  match deliveryErrorDetail (du_error update) with
  | Some d => d
  | None => default "Telegram send failed." (deliveryErrorDetail (du_sending_error update))
  end.

(** ** The tracker *)
Record DeliveryOutcome := mkOutcome {
  oc_destinationMessageId : option string;
  oc_error : option string;
  oc_expiresAt : Z }.

Record DeliveryWaiter := mkWaiter { wt_promise : nat; wt_signal : bool }.

Record TelegramDeliveryTracker := mkTracker {
  dt_waiters : list (string * DeliveryWaiter);
  dt_recentOutcomes : list (string * DeliveryOutcome);
  dt_confirmationTimeoutMs : Z;
  dt_outcomeTtlMs : Z;
  dt_maxCachedOutcomes : Z;
  dt_nextPromise : nat;
  dt_settled : list (nat * result string) }.

Definition newTracker (confirmationTimeoutMs outcomeTtlMs maxCachedOutcomes : Z) : result TelegramDeliveryTracker :=
  if negb (isSafeInteger confirmationTimeoutMs) || (confirmationTimeoutMs <? 1)
  then throw "confirmationTimeoutMs must be a positive safe integer."
  else Ok (mkTracker [] [] confirmationTimeoutMs outcomeTtlMs maxCachedOutcomes 0 []).

Definition with_maps (ws : list (string * DeliveryWaiter)) (os : list (string * DeliveryOutcome)) (d : TelegramDeliveryTracker) : TelegramDeliveryTracker :=
  mkTracker ws os (dt_confirmationTimeoutMs d) (dt_outcomeTtlMs d) (dt_maxCachedOutcomes d) (dt_nextPromise d) (dt_settled d).
Definition settle_promise (p : nat) (o : result string) (d : TelegramDeliveryTracker) : TelegramDeliveryTracker :=
  mkTracker (dt_waiters d) (dt_recentOutcomes d) (dt_confirmationTimeoutMs d) (dt_outcomeTtlMs d) (dt_maxCachedOutcomes d)
    (dt_nextPromise d) (dt_settled d ++ [(p, o)]).
Definition new_promise (d : TelegramDeliveryTracker) : nat * TelegramDeliveryTracker :=
  (dt_nextPromise d, mkTracker (dt_waiters d) (dt_recentOutcomes d) (dt_confirmationTimeoutMs d) (dt_outcomeTtlMs d)
                       (dt_maxCachedOutcomes d) (S (dt_nextPromise d)) (dt_settled d)).

Definition cleanupWaiter (messageId : string) (d : TelegramDeliveryTracker) : TelegramDeliveryTracker :=
  with_maps (map_delete messageId (dt_waiters d)) (dt_recentOutcomes d) d.

Definition pruneOutcomes (now : Z) (d : TelegramDeliveryTracker) : TelegramDeliveryTracker :=
  with_maps (dt_waiters d) (filter (λ e, now < oc_expiresAt e.2) (dt_recentOutcomes d)) d.

(** How a confirmation settles a promise. *)
Definition outcome_result (o : DeliveryOutcome) : result string :=
  match oc_error o with
  | Some e => throw e
  | None => match oc_destinationMessageId o with
    | Some id => if bool_decide (id = "") then throw "Delivery confirmation is missing." else Ok id
    | None => throw "Delivery confirmation is missing."
    end
  end.

(** [while (size > max) delete the oldest]. *)
Definition evict {V} (max : Z) (l : list (string * V)) : list (string * V) := drop (length l - Z.to_nat max) l.

Definition publish (now : Z) (oldMessageId : string) (outcome : DeliveryOutcome) (d : TelegramDeliveryTracker) : TelegramDeliveryTracker :=
  let d1 := pruneOutcomes now d in
  match map_get oldMessageId (dt_waiters d1) with
  | Some w => settle_promise (wt_promise w) (outcome_result outcome) (cleanupWaiter oldMessageId d1)
  | None => with_maps (dt_waiters d1) (evict (dt_maxCachedOutcomes d1) (map_set oldMessageId outcome (dt_recentOutcomes d1))) d1
  end.

Definition handleUpdate (now : Z) (update : DeliveryUpdate) (d : TelegramDeliveryTracker) : bool * TelegramDeliveryTracker :=
  if bool_decide (du_type update = "updateMessageSendSucceeded") then
    match deliveryMessageId (du_old_message_id update) with
    | None => (false, d)
    | Some old =>
        match deliveryMessageId (match du_message_id update with IdAbsent => du_old_message_id update | v => v end) with
        | None => (false, d)
        | Some dest => (true, publish now old (mkOutcome (Some dest) None (now + dt_outcomeTtlMs d)) d)
        end
    end
  else if bool_decide (du_type update = "updateMessageSendFailed") then
    match deliveryMessageId (du_old_message_id update) with
    | None => (false, d)
    | Some old =>
        (true, publish now old (mkOutcome None (Some ("Telegram delivery failed for local message " +:+ old +:+ ": " +:+ deliveryFailureDetail update))
                                  (now + dt_outcomeTtlMs d)) d)
    end
  else (false, d).

(** The promise and the tracker after the call; [signal] is the abort signal,
    with its [aborted] flag. *)
Definition waitForMessage (now : Z) (oldMessageId : string) (signal : option bool) (d : TelegramDeliveryTracker) : nat * TelegramDeliveryTracker :=
  let '(p, d0) := new_promise d in
  let d1 := pruneOutcomes now d0 in
  match map_get oldMessageId (dt_recentOutcomes d1) with
  | Some cached =>
      (p, settle_promise p (outcome_result cached) (with_maps (dt_waiters d1) (map_delete oldMessageId (dt_recentOutcomes d1)) d1))
  | None =>
      if default false signal then (p, settle_promise p (throw "Delivery confirmation aborted.") d1)
      else match map_get oldMessageId (dt_waiters d1) with
      | Some _ => (p, settle_promise p (throw ("A delivery confirmation waiter already exists for " +:+ oldMessageId +:+ ".")) d1)
      | None => (p, with_maps (dt_waiters d1 ++ [(oldMessageId, mkWaiter p (match signal with Some _ => true | None => false end))]) (dt_recentOutcomes d1) d1)
      end
  end.

(** The timer of a registered waiter. *)
Definition confirmationTimeout (messageId : string) (d : TelegramDeliveryTracker) : TelegramDeliveryTracker :=
  match map_get messageId (dt_waiters d) with
  | Some w => settle_promise (wt_promise w)
      (throw ("Telegram delivery confirmation timed out after " +:+ show_nat (dt_confirmationTimeoutMs d) +:+ "ms.")) (cleanupWaiter messageId d)
  | None => d
  end.

(** The abort listener of a registered waiter. *)
Definition aborted (messageId : string) (d : TelegramDeliveryTracker) : TelegramDeliveryTracker :=
  match map_get messageId (dt_waiters d) with
  | Some w => if wt_signal w then settle_promise (wt_promise w) (throw "Delivery confirmation aborted.") (cleanupWaiter messageId d) else d
  | None => d
  end.

Definition close (reason : string) (d : TelegramDeliveryTracker) : TelegramDeliveryTracker :=
  let d1 := foldl (λ d e, settle_promise (wt_promise e.2) (throw reason) (cleanupWaiter e.1 d)) d (dt_waiters d) in
  with_maps (dt_waiters d1) [] d1.

(** ** Waiting for a whole result *)
Inductive SendingState := NotSending | SendingFailed (detail : option string) | SendingPending.

Record DeliveryMessage := mkMessage { dm_id : MessageIdValue; dm_sending_state : SendingState }.

(** One member of [Promise.all]: its promise, settled at once or waiting. *)
Definition waitForMember (now : Z) (signal : option bool) (message : DeliveryMessage) (d : TelegramDeliveryTracker) : nat * TelegramDeliveryTracker :=
  let '(p, d1) := new_promise d in
  match dm_id message with
  | IdAbsent => (p, settle_promise p (throw "Telegram send returned a message without an id.") d1)
  | id => match deliveryMessageId id with
    | None => (p, settle_promise p (throw "Telegram send returned an invalid message id.") d1)
    | Some messageId =>
        match dm_sending_state message with
        | NotSending => (p, settle_promise p (Ok messageId) d1)
        | SendingFailed detail =>
            (p, settle_promise p (throw (default "Telegram reported a failed sending state." (deliveryErrorDetail detail))) d1)
        | SendingPending => waitForMessage now messageId signal d
        end
    end
  end.

Fixpoint waitForMembers (now : Z) (signal : option bool) (messages : list DeliveryMessage) (d : TelegramDeliveryTracker)
    : list nat * TelegramDeliveryTracker :=
  match messages with
  | [] => ([], d)
  | m :: rest => let '(p, d1) := waitForMember now signal m d in let '(ps, d2) := waitForMembers now signal rest d1 in (p :: ps, d2)
  end.

(** [waitForResult(result, signal)]: [result.messages] when it is an array, else
    the result itself when it has an id. *)
Definition waitForResult (now : Z) (messages : option (list DeliveryMessage)) (self : option DeliveryMessage) (signal : option bool)
    (d : TelegramDeliveryTracker) : result (list nat * TelegramDeliveryTracker) :=
  let members := match messages with Some ms => ms | None => match self with Some m => [m] | None => [] end end in
  if bool_decide (members = []) then throw "Telegram send returned no destination messages to confirm."
  else Ok (waitForMembers now signal members d).

(** [Promise.all]: the first rejection to arrive, or every value in order. *)
Definition promiseAll (ps : list nat) (settled : list (nat * result string)) : option (result (list string)) :=
  match list_find (λ e : nat * result string, e.1 ∈ ps ∧ is_ok e.2 = false) settled with
  | Some (_, (_, Err e)) => Some (Err e)
  | _ => (λ vs, Ok vs) <$> mapM (λ p, match list_find (λ e : nat * result string, e.1 = p) settled with
                                     | Some (_, (_, Ok v)) => Some v | _ => None end) ps
  end.

Inductive delivery_step : TelegramDeliveryTracker → TelegramDeliveryTracker → Prop :=
| step_update now u d : delivery_step d (handleUpdate now u d).2
| step_wait now messages self signal ps d d' : waitForResult now messages self signal d = Ok (ps, d') → delivery_step d d'
| step_timeout id d : delivery_step d (confirmationTimeout id d)
| step_aborted id d : delivery_step d (aborted id d)
| step_close reason d : delivery_step d (close reason d).

(** ** The insertion-ordered map *)
Section OrderedMap.
Context {V : Type}.
Implicit Types l : list (string * V).

Lemma evict_keys m l x : x ∈ map fst (evict m l) → x ∈ map fst l.
Proof.
  unfold evict. intros (e & -> & He)%list_elem_of_fmap. apply list_elem_of_fmap_2. rewrite <- (take_drop (length l - Z.to_nat m) l).
  apply elem_of_app. by right.
Qed.

Lemma evict_nodup m l : NoDup (map fst l) → NoDup (map fst (evict m l)).
Proof. unfold evict. intros H. rewrite <- (take_drop (length l - Z.to_nat m) l), map_app in H. by apply NoDup_app in H as (_ & _ & ?). Qed.

Lemma evict_length m l : Z.of_nat (length (evict m l)) <= Z.max 0 m.
Proof. unfold evict. rewrite length_drop. lia. Qed.
End OrderedMap.

(** ** Invariant *)
Definition waiting (d : TelegramDeliveryTracker) : list nat := map (λ e, wt_promise e.2) (dt_waiters d).

Record tracker_ok (d : TelegramDeliveryTracker) : Prop := {
  tr_keys : NoDup (map fst (dt_waiters d)) ∧ NoDup (map fst (dt_recentOutcomes d));
  (** No confirmation is cached while its send still waits. *)
  tr_disjoint : ∀ id, id ∈ map fst (dt_waiters d) → id ∉ map fst (dt_recentOutcomes d);
  (** Every promise is settled at most once, and a waiting one not yet. *)
  tr_once : NoDup (map fst (dt_settled d) ++ waiting d);
  tr_all : ∀ p, p ∈ map fst (dt_settled d) ++ waiting d ↔ (p < dt_nextPromise d)%nat;
  tr_cache : Z.of_nat (length (dt_recentOutcomes d)) <= Z.max 0 (dt_maxCachedOutcomes d) }.

Lemma prune_ok now d : tracker_ok d → tracker_ok (pruneOutcomes now d).
Proof.
  intros [[K1 K2] Hd Ho Ha Hc]. constructor; cbn; try done.
  - split; [done|]. by apply filter_keys_nodup.
  - intros id Hid (e & -> & [_ He]%list_elem_of_filter)%list_elem_of_fmap. apply (Hd _ Hid). by apply list_elem_of_fmap_2.
  - pose proof (length_filter (λ e : string * DeliveryOutcome, now < oc_expiresAt e.2) (dt_recentOutcomes d)). lia.
Qed.

Lemma waiting_delete (ws : list (string * DeliveryWaiter)) id w : NoDup (map fst ws) → (id, w) ∈ ws →
  map (λ e, wt_promise e.2) ws ≡ₚ wt_promise w :: map (λ e, wt_promise e.2) (map_delete id ws).
Proof.
  intros Hnd Hin. induction ws as [|[k u] ws IH]; [by apply not_elem_of_nil in Hin|]. cbn in Hnd. apply NoDup_cons in Hnd as [Hni Hnd].
  unfold map_delete. rewrite filter_cons. apply elem_of_cons in Hin as [E|Hin].
  - injection E as <- <-. rewrite decide_False by (cbn; tauto). cbn. constructor. f_equiv.
    assert (filter (λ e : string * DeliveryWaiter, e.1 ≠ id) ws = ws) as ->; [|done]. clear -Hni.
    induction ws as [|[a b] ws IH]; [done|]. cbn in Hni. apply not_elem_of_cons in Hni as [? ?].
    rewrite filter_cons, decide_True by (cbn; congruence). by rewrite IH.
  - rewrite decide_True; [|cbn; intros ->; apply Hni; by apply (list_elem_of_fmap_2 fst _ (id, w))]. cbn.
    rewrite (IH Hnd Hin). constructor.
Qed.

(** Settling a registered waiter. *)
Lemma settle_waiter_ok id w o d : tracker_ok d → map_get id (dt_waiters d) = Some w →
  tracker_ok (settle_promise (wt_promise w) o (cleanupWaiter id d)).
Proof.
  intros [[K1 K2] Hd Ho Ha Hc] Hw%map_get_Some. pose proof (waiting_delete _ _ _ K1 Hw) as Hp. unfold waiting in *.
  assert (map fst (dt_settled d) ++ map (λ e, wt_promise e.2) (dt_waiters d) ≡ₚ
          (map fst (dt_settled d) ++ [wt_promise w]) ++ map (λ e, wt_promise e.2) (map_delete id (dt_waiters d))) as Hperm
    by (rewrite Hp, <- app_assoc; done).
  constructor; cbn; try done; rewrite ?map_app; cbn; unfold waiting; cbn.
  - split; [by apply filter_keys_nodup|done].
  - intros x [Hx _]%map_delete_keys. by apply Hd.
  - by rewrite <- Hperm.
  - intros p. rewrite <- Hperm. apply Ha.
Qed.

(** A new promise, settled at once or left to a new waiter. *)
Lemma new_settled_ok o d : tracker_ok d → tracker_ok (settle_promise (dt_nextPromise d) o (new_promise d).2).
Proof.
  intros [K Hd Ho Ha Hc]. assert (dt_nextPromise d ∉ map fst (dt_settled d) ++ waiting d) as Hf by (rewrite Ha; lia).
  assert (dt_nextPromise d :: map fst (dt_settled d) ++ waiting d ≡ₚ (map fst (dt_settled d) ++ [dt_nextPromise d]) ++ waiting d) as Hperm
    by (rewrite <- app_assoc; cbn; by apply Permutation_middle).
  constructor; cbn; try done; rewrite ?map_app; cbn; unfold waiting in *; cbn.
  - rewrite <- Hperm. by constructor.
  - intros p. rewrite <- Hperm, elem_of_cons, Ha. lia.
Qed.

Lemma new_waiting_ok id sig d : tracker_ok d → id ∉ map fst (dt_waiters d) → id ∉ map fst (dt_recentOutcomes d) →
  tracker_ok (with_maps (dt_waiters d ++ [(id, mkWaiter (dt_nextPromise d) sig)]) (dt_recentOutcomes d) (new_promise d).2).
Proof.
  intros [[K1 K2] Hd Ho Ha Hc] Hnw Hno. assert (dt_nextPromise d ∉ map fst (dt_settled d) ++ waiting d) as Hf by (rewrite Ha; lia).
  assert (dt_nextPromise d :: map fst (dt_settled d) ++ waiting d ≡ₚ map fst (dt_settled d) ++ waiting d ++ [dt_nextPromise d]) as Hperm
    by (rewrite app_assoc; apply Permutation_cons_append).
  constructor; cbn; try done; unfold waiting in *; cbn; rewrite ?map_app; cbn.
  - split; [|done]. apply NoDup_app. split_and!; [done| |apply NoDup_singleton]. intros x Hx ->%list_elem_of_singleton. done.
  - intros x. rewrite elem_of_app, list_elem_of_singleton. intros [|]; [by apply Hd|by subst].
  - rewrite <- Hperm. by constructor.
  - intros p. rewrite <- Hperm, elem_of_cons, Ha. lia.
Qed.

Lemma with_outcomes_ok os d : tracker_ok d → NoDup (map fst os) → (∀ id, id ∈ map fst os → id ∉ map fst (dt_waiters d)) →
  Z.of_nat (length os) <= Z.max 0 (dt_maxCachedOutcomes d) → tracker_ok (with_maps (dt_waiters d) os d).
Proof. intros [[K1 K2] Hd Ho Ha Hc] Hn Hdis Hl. constructor; cbn; try done. intros id Hw Hin. by apply (Hdis id Hin). Qed.

Lemma publish_ok now id o d : tracker_ok d → tracker_ok (publish now id o d).
Proof.
  intros H. apply (prune_ok now) in H. unfold publish. destruct (map_get id (dt_waiters (pruneOutcomes now d))) as [w|] eqn:Ew.
  - by apply settle_waiter_ok.
  - apply map_get_None in Ew. apply with_outcomes_ok; [done|by apply evict_nodup, map_set_nodup, H| |apply evict_length].
    intros x [->|Hx]%evict_keys%map_set_keys; [done|]. intros Hw. by apply (tr_disjoint _ H x).
Qed.

Lemma handleUpdate_ok now u d : tracker_ok d → tracker_ok (handleUpdate now u d).2.
Proof.
  intros H. unfold handleUpdate. case_bool_decide; [|case_bool_decide; [|done]]; destruct (deliveryMessageId _); try done; [|by apply publish_ok].
  destruct (deliveryMessageId _); [by apply publish_ok|done].
Qed.

Lemma waitForMessage_ok now id sig d : tracker_ok d → tracker_ok (waitForMessage now id sig d).2.
Proof.
  intros H. pose proof (prune_ok now _ H) as Hp. set (dp := pruneOutcomes now d) in *.
  change (waitForMessage now id sig d) with
    (match map_get id (dt_recentOutcomes dp) with
     | Some cached => (dt_nextPromise d, settle_promise (dt_nextPromise d) (outcome_result cached)
         (new_promise (with_maps (dt_waiters dp) (map_delete id (dt_recentOutcomes dp)) dp)).2)
     | None => if default false sig then (dt_nextPromise d, settle_promise (dt_nextPromise d) (throw "Delivery confirmation aborted.") (new_promise dp).2)
       else match map_get id (dt_waiters dp) with
       | Some _ => (dt_nextPromise d, settle_promise (dt_nextPromise d) (throw ("A delivery confirmation waiter already exists for " +:+ id +:+ ".")) (new_promise dp).2)
       | None => (dt_nextPromise d, with_maps (dt_waiters dp ++ [(id, mkWaiter (dt_nextPromise d) (match sig with Some _ => true | None => false end))])
                                      (dt_recentOutcomes dp) (new_promise dp).2)
       end
     end).
  destruct (map_get id (dt_recentOutcomes dp)) as [cached|] eqn:Ec.
  - apply (new_settled_ok _ (with_maps (dt_waiters dp) (map_delete id (dt_recentOutcomes dp)) dp)).
    apply with_outcomes_ok; [done|by apply filter_keys_nodup, Hp| |].
    + intros x [Hx _]%map_delete_keys Hw. by apply (tr_disjoint _ Hp x).
    + pose proof (tr_cache _ Hp). pose proof (length_filter (λ e : string * DeliveryOutcome, e.1 ≠ id) (dt_recentOutcomes dp)).
      unfold map_delete. lia.
  - apply map_get_None in Ec. destruct (default false sig); [exact (new_settled_ok _ dp Hp)|].
    destruct (map_get id (dt_waiters dp)) as [w|] eqn:Ew; [exact (new_settled_ok _ dp Hp)|].
    apply map_get_None in Ew. exact (new_waiting_ok _ _ dp Hp Ew Ec).
Qed.

Lemma waitForMember_ok now sig m d : tracker_ok d → tracker_ok (waitForMember now sig m d).2.
Proof.
  intros H. unfold waitForMember, new_promise. pose proof (λ o, new_settled_ok o d H) as Hn.
  assert (∀ o, tracker_ok (settle_promise (dt_nextPromise d) o (new_promise d).2)) as Hs by exact Hn.
  unfold new_promise in Hs. cbn [snd] in Hs.
  destruct (dm_id m); cbn [snd]; try apply Hs; destruct (deliveryMessageId _); cbn [snd]; try apply Hs;
    destruct (dm_sending_state m); cbn [snd]; try apply Hs; by apply waitForMessage_ok.
Qed.

Lemma waitForMembers_ok now sig ms d : tracker_ok d → tracker_ok (waitForMembers now sig ms d).2.
Proof.
  revert d. induction ms as [|m ms IH]; intros d H; [done|]. cbn [waitForMembers]. pose proof (waitForMember_ok now sig m d H) as H1.
  destruct (waitForMember now sig m d) as [p d1]. specialize (IH d1 H1). destruct (waitForMembers now sig ms d1) as [ps d2]. exact IH.
Qed.

Lemma map_delete_head {V} k (v : V) l : k ∉ map fst l → map_delete k ((k, v) :: l) = l.
Proof.
  intros Hni. unfold map_delete. rewrite filter_cons, decide_False by (cbn; tauto).
  induction l as [|[a b] l IH]; [done|]. cbn in Hni. apply not_elem_of_cons in Hni as [? ?].
  rewrite filter_cons, decide_True by (cbn; congruence). by rewrite IH.
Qed.

Lemma close_loop reason ws d : dt_waiters d = ws → tracker_ok d →
  let d' := foldl (λ d e, settle_promise (wt_promise e.2) (throw reason) (cleanupWaiter e.1 d)) d ws in
  tracker_ok d' ∧ dt_waiters d' = [].
Proof.
  revert d. induction ws as [|[id w] ws IH]; intros d Hws H; [done|]. cbn. apply (IH (settle_promise (wt_promise w) (throw reason) (cleanupWaiter id d))).
  - cbn. rewrite Hws. apply map_delete_head. pose proof (proj1 (tr_keys _ H)) as Hn. rewrite Hws in Hn. cbn in Hn. by apply NoDup_cons in Hn as [? _].
  - apply settle_waiter_ok; [done|]. rewrite Hws. apply map_get_head.
Qed.

Lemma close_ok reason d : tracker_ok d → tracker_ok (close reason d) ∧ dt_waiters (close reason d) = [].
Proof.
  intros H. destruct (close_loop reason (dt_waiters d) d eq_refl H) as [H1 H2]. unfold close. split; [|done].
  apply with_outcomes_ok; [done|constructor| |cbn; lia]. intros id Hid. by apply not_elem_of_nil in Hid.
Qed.

Lemma delivery_step_ok d d' : tracker_ok d → delivery_step d d' → tracker_ok d'.
Proof.
  intros H Hst. destruct Hst as [now u d|now ms self sig ps d d' Hw|id d|id d|reason d].
  - by apply handleUpdate_ok.
  - unfold waitForResult in Hw. case_bool_decide; [done|]. injection Hw as Hw.
    pose proof (waitForMembers_ok now sig (match ms with Some ms => ms | None => match self with Some m => [m] | None => [] end end) d H) as H1.
    by rewrite Hw in H1.
  - unfold confirmationTimeout. destruct (map_get id (dt_waiters d)) as [w|] eqn:E; [by apply settle_waiter_ok|done].
  - unfold aborted. destruct (map_get id (dt_waiters d)) as [w|] eqn:E; [|done]. destruct (wt_signal w); [by apply settle_waiter_ok|done].
  - by apply close_ok.
Qed.

(** Telegram confirmations are matched exactly once: in every state the
    tracker can reach, each promise is either settled, once, or registered under
    exactly one message, no confirmation is cached for a message that is still
    awaited, the cache stays within its bound, and closing the tracker leaves no
    promise unsettled. *)
Theorem delivery_matched_once t ttl m d0 d : newTracker t ttl m = Ok d0 → rtc delivery_step d0 d →
  NoDup (map fst (dt_settled d) ++ map (λ e, wt_promise e.2) (dt_waiters d)) ∧
  (∀ p, (p < dt_nextPromise d)%nat ↔ p ∈ map fst (dt_settled d) ∨ p ∈ map (λ e, wt_promise e.2) (dt_waiters d)) ∧
  NoDup (map fst (dt_waiters d)) ∧
  (∀ id, id ∈ map fst (dt_waiters d) → id ∉ map fst (dt_recentOutcomes d)) ∧
  Z.of_nat (length (dt_recentOutcomes d)) <= Z.max 0 (dt_maxCachedOutcomes d) ∧
  (∀ reason p, (p < dt_nextPromise (close reason d))%nat → p ∈ map fst (dt_settled (close reason d))).
Proof.
  intros Hn Hr. assert (tracker_ok d) as H.
  { unfold newTracker in Hn. destruct (_ || _); [done|]. injection Hn as <-.
    assert (∀ a b, rtc delivery_step a b → tracker_ok a → tracker_ok b) as Hind.
    { induction 1 as [|a b c Hst _ IH]; [done|]. intros Ha. apply IH. by eapply delivery_step_ok. }
    apply (Hind _ _ Hr). constructor; cbn; [split; constructor|by intros id ?%not_elem_of_nil|constructor| |lia].
    intros p. split; [by intros ?%not_elem_of_nil|lia]. }
  pose proof H as [[K1 K2] Hd Ho Ha Hc]. split_and!; try done.
  - intros p. by rewrite <- (Ha p), elem_of_app.
  - intros reason p. destruct (close_ok reason d H) as [H1 H2]. rewrite <- (tr_all _ H1 p). unfold waiting. rewrite H2. cbn. by rewrite app_nil_r.
Qed.

(** A send that waits, its confirmation, and a confirmation nobody awaits yet. *)
Definition delivery_example : TelegramDeliveryTracker :=
  let d1 := (waitForMessage 0 "10" None (mkTracker [] [] 30000 300000 1000 0 [])).2 in
  let d2 := (handleUpdate 5 (mkUpdate "updateMessageSendSucceeded" (IdNumber 10) (IdNumber 77) None None) d1).2 in
  (handleUpdate 6 (mkUpdate "updateMessageSendFailed" (IdString "11") IdAbsent (Some "blocked") None) d2).2.
