(* ===== verification/Strategy.v ===== *)
(** Strategy: [src/trading_strategy.ts], the validator of strategy
    configurations.

    The input is an untyped [jsval]; a configuration is the [StrategyConfiguration]
    of [Types].  [strategyJson] is the value a stored configuration parses back
    to: the properties of the object the validator returns, in its order. *)

From S2P Require Import Prelude Text Decimal Types Json Queue.
From Stdlib Require Ascii String.
Local Open Scope Z_scope.

(** [/^[A-Z0-9]{2,20}$/] *)
Definition SYMBOL_PATTERN (s : string) : bool :=
  forallb (λ c, is_upper c || is_digit c) (chars s) && (2 <=? length (chars s))%nat && (length (chars s) <=? 20)%nat.

(** [/^[a-z][a-z0-9_-]{0,39}$/] *)
Definition SIGNAL_SCHEMA_ID_PATTERN (s : string) : bool :=
  match chars s with
  | [] => false
  | c :: l => is_lower c && forallb (λ c, is_lower c || is_digit c || (char_code c =? 95) || (char_code c =? 45)) l && (length l <=? 39)%nat
  end.

(** ** Values *)
Definition signalSchemaIdentifier (value : jsval) (label : string) : result string :=
  match value with
  | JString s =>
      let normalized := toLowerCase (trim s) in
      if SIGNAL_SCHEMA_ID_PATTERN normalized then Ok normalized
      else throw (label +:+ " must start with a lowercase letter and contain only lowercase letters, numbers, '_' or '-'.")
  | _ => throw (label +:+ " is invalid.")
  end.

(** [decimal] called on an unknown value: [value.trim] fails on anything but a string. *)
Definition validateDecimalInput (value : jsval) (positive : bool) (max : option string) : result string :=
  match value with JString s => decimal s positive max | _ => throw "value.trim is not a function" end.

Definition integer (value : jsval) (name : string) (min max : Z) : result Z :=
  let invalid : result Z := throw (name +:+ " must be an integer between " +:+ show_nat min +:+ " and " +:+ show_nat max +:+ ".") in
  match value with
  | JInt z => if negb (isSafeInteger z) || (z <? min) || (z >? max) then invalid else Ok z
  | _ => invalid
  end.


Definition uniqueStrings (values : jsval) (name : string) : result (list string) :=
  match string_array values with
  | None => throw (name +:+ " must be an array of strings.")
  | Some l =>
      let normalized := map (λ s, toUpperCase (trim s)) l in
      if distinct normalized then Ok normalized else throw (name +:+ " must not contain duplicates.")
  end.

Definition object (value : jsval) (name : string) : result (list (string * jsval)) :=
  match value with JObject fields => Ok fields | _ => throw (name +:+ " must be an object.") end.

Definition exactKeys (value : list (string * jsval)) (name : string) (keys : list string) : result unit :=
  let extras := filter (λ key, key ∉ keys) (map fst value) in
  if bool_decide (extras = []) then Ok tt
  else throw (name +:+ " contains unsupported fields: " +:+ join ", " extras +:+ ".").

(** [isMember(value, choices)] over the strings of an enumeration. *)
Definition member {A} (choices : list (string * A)) (value : jsval) : option A :=
  match value with JString s => (snd ∘ snd) <$> list_find (λ e, e.1 = s) choices | _ => None end.
(** [value ?? fallback] *)
Definition coalesce (value : jsval) (fallback : string) : jsval :=
  match value with JUndefined | JNull => JString fallback | v => v end.

Definition order_types : list (string * TradingOrderType) := [("market", entry_market); ("limit", entry_limit)].
Definition range_prices : list (string * RangePrice) := [("near", near); ("midpoint", midpoint); ("far", far)].
Definition sizing_modes : list (string * PositionSizingMode) :=
  [("risk_percent", risk_percent); ("equity_percent_notional", equity_percent_notional); ("equity_percent_margin", equity_percent_margin)].
Definition allocation_modes : list (string * TargetAllocationMode) := [("manual", manual); ("adaptive_halving", adaptive_halving)].
Definition stop_modes : list (string * StopLossMode) := [("configured", configured); ("adaptive_targets", adaptive_targets)].
Definition loss_modes : list (string * DailyLossLimitMode) := [("absolute", absolute); ("equity_percent", equity_percent)].

(** ** Sections of a configuration *)
Definition side_of (s : string) : option TradingSide :=
  if bool_decide (s = "LONG") then Some LONG else if bool_decide (s = "SHORT") then Some SHORT else None.

Definition validateAccess (value : list (string * jsval)) : result (Z * list string * list string * list TradingSide) :=
  version ← match assoc "schemaVersion" value with
    | JInt v => if (1 <=? v) && (v <=? 4) then Ok v else throw "Unsupported strategy schema version."
    | _ => throw "Unsupported strategy schema version."
    end;
  listed ← or_throw (string_array (assoc "allowedSignalSchemas" value)) "allowedSignalSchemas must be an array of strings.";
  schemas ← mapM (λ s, signalSchemaIdentifier (JString s) "Signal schema identifier") listed;
  if bool_decide (schemas = []) then throw "At least one executable signal schema is required."
  else if negb (distinct schemas) then throw "allowedSignalSchemas must not contain duplicates."
  else
    symbols ← uniqueStrings (assoc "allowedSymbols" value) "allowedSymbols";
    if existsb (λ s, negb (SYMBOL_PATTERN s)) symbols then throw "allowedSymbols contains an invalid normalized symbol."
    else
      sides ← uniqueStrings (assoc "allowedSides" value) "allowedSides";
      let invalid : result (list TradingSide) := throw "allowedSides must contain LONG and/or SHORT." in
      parsed ← (if bool_decide (sides = []) then invalid else or_throw (sequence (map side_of sides)) "allowedSides must contain LONG and/or SHORT.");
      Ok (version, schemas, symbols, parsed).

Definition validateEntry (input : jsval) : result StrategyEntry :=
  value ← object input "entry";
  _ ← exactKeys value "entry" ["orderType"; "rangePrice"; "postOnly"; "timeoutSeconds"];
  orderType ← or_throw (member order_types (assoc "orderType" value)) "entry.orderType must be market or limit.";
  rangePrice ← or_throw (member range_prices (assoc "rangePrice" value)) "entry.rangePrice is invalid.";
  postOnly ← match assoc "postOnly" value with JBool b => Ok b | _ => throw "entry.postOnly must be boolean." end;
  if bool_decide (orderType = entry_market) && postOnly then throw "Market entries cannot be post-only."
  else
    timeoutSeconds ← integer (assoc "timeoutSeconds" value) "entry.timeoutSeconds" 2 30;
    Ok (mkStrategyEntry orderType rangePrice postOnly timeoutSeconds).

Definition validateSizing (input : jsval) (schemaVersion : Z) : result StrategySizing :=
  value ← object input "sizing";
  _ ← exactKeys value "sizing" ["positionSizingMode"; "riskPerTradePercent"; "maxAdaptiveRiskPercent"; "maxPositionNotional"; "defaultLeverage"; "maxLeverage"];
  mode ← or_throw (member sizing_modes (coalesce (assoc "positionSizingMode" value) "risk_percent"))
    "sizing.positionSizingMode must be risk_percent, equity_percent_notional or equity_percent_margin.";
  risk ← validateDecimalInput (assoc "riskPerTradePercent" value) true (Some "10");
  adaptive ← (if schemaVersion =? 1 then Ok None
              else a ← validateDecimalInput (assoc "maxAdaptiveRiskPercent" value) true (Some "10"); Ok (Some a));
  _ ← match adaptive with
      | Some a => c ← compareDecimal a risk;
          if c <? 0 then throw "sizing.maxAdaptiveRiskPercent must not be below the baseline risk." else Ok tt
      | None => Ok tt
      end;
  maxLeverage ← integer (assoc "maxLeverage" value) "sizing.maxLeverage" 1 50;
  if (schemaVersion =? 4) && is_undefined (assoc "defaultLeverage" value)
  then throw "sizing.defaultLeverage is required for strategy schema version 4."
  else
    defaultLeverage ← (if is_undefined (assoc "defaultLeverage" value) then Ok maxLeverage
                       else integer (assoc "defaultLeverage" value) "sizing.defaultLeverage" 1 50);
    if defaultLeverage >? maxLeverage then throw "sizing.defaultLeverage must not exceed sizing.maxLeverage."
    else
      notional ← validateDecimalInput (assoc "maxPositionNotional" value) true None;
      Ok (mkStrategySizing (Some mode) risk adaptive notional defaultLeverage maxLeverage).

Definition validateExits (input : jsval) : result StrategyExits :=
  value ← object input "exits";
  _ ← exactKeys value "exits" ["targetAllocationMode"; "targetAllocationsPercent"; "stopLossMode"; "moveStopToBreakEvenAfterTarget";
         "trailingStopPercent"; "closeRemainderAtLastTarget"];
  mode ← or_throw (member allocation_modes (coalesce (assoc "targetAllocationMode" value) "manual"))
    "exits.targetAllocationMode must be manual or adaptive_halving.";
  items ← match assoc "targetAllocationsPercent" value with
    | JArray items => if (1 <=? length items)%nat && (length items <=? 20)%nat then Ok items
                      else throw "Between one and twenty target allocations are required."
    | _ => throw "Between one and twenty target allocations are required."
    end;
  allocations ← mapM (λ a, validateDecimalInput a true (Some "100")) items;
  total ← sumDecimals allocations;
  c ← compareDecimal total "100";
  if negb (c =? 0) then throw "Target allocations must total exactly 100 percent."
  else
    breakEven ← match assoc "moveStopToBreakEvenAfterTarget" value with
      | JNull => Ok None
      | v => z ← integer v "exits.moveStopToBreakEvenAfterTarget" 1 (Z.of_nat (length allocations)); Ok (Some z)
      end;
    trailing ← match assoc "trailingStopPercent" value with
      | JNull => Ok None
      | v => d ← validateDecimalInput v true (Some "20"); Ok (Some d)
      end;
    stop ← or_throw (member stop_modes (coalesce (assoc "stopLossMode" value) "configured"))
      "exits.stopLossMode must be configured or adaptive_targets.";
    match assoc "closeRemainderAtLastTarget" value with
    | JBool true => Ok (mkStrategyExits mode allocations stop breakEven trailing)
    | _ => throw "Closing the full remainder at the last target is mandatory."
    end.

Definition validateSafety (input : jsval) (schemaVersion : Z) : result StrategySafety :=
  value ← object input "safety";
  let supportedKeys := ["maxDailyLossMode"; "maxDailyLoss"; "maxSlippagePercent"; "entryOrderTtlSeconds"; "requireProtectiveStop"] in
  _ ← exactKeys value "safety" (if schemaVersion <? 3 then "maxConcurrentPositions" :: supportedKeys else supportedKeys);
  _ ← match assoc "requireProtectiveStop" value with JBool true => Ok tt | _ => throw "Protective stops are mandatory." end;
  mode ← or_throw (member loss_modes (coalesce (assoc "maxDailyLossMode" value) "absolute"))
    "safety.maxDailyLossMode must be absolute or equity_percent.";
  concurrent ← (if schemaVersion <? 3
                then z ← integer (assoc "maxConcurrentPositions" value) "safety.maxConcurrentPositions" 1 20; Ok (Some z) else Ok None);
  loss ← validateDecimalInput (assoc "maxDailyLoss" value) true (if bool_decide (mode = equity_percent) then Some "100" else None);
  slippage ← validateDecimalInput (assoc "maxSlippagePercent" value) true (Some "5");
  ttl ← integer (assoc "entryOrderTtlSeconds" value) "safety.entryOrderTtlSeconds" 10 86400;
  Ok (mkStrategySafety concurrent (Some mode) loss slippage ttl).

Definition validateStrategyConfiguration (input : jsval) : result StrategyConfiguration :=
  value ← object input "Strategy configuration";
  _ ← exactKeys value "Strategy configuration" ["schemaVersion"; "allowedSignalSchemas"; "allowedSymbols"; "allowedSides"; "entry"; "sizing"; "exits"; "safety"];
  '(version, schemas, symbols, sides) ← validateAccess value;
  entry ← validateEntry (assoc "entry" value);
  sizing ← validateSizing (assoc "sizing" value) version;
  exits ← validateExits (assoc "exits" value);
  safety ← validateSafety (assoc "safety" value) version;
  Ok (mkStrategy version schemas symbols sides entry sizing exits safety).

(** [configuration.sizing.defaultLeverage] is always set by the validator. *)
Definition strategyConfigurationForNewVersion (input : jsval) : result StrategyConfiguration :=
  c ← validateStrategyConfiguration input;
  Ok (mkStrategy 4 (st_allowedSignalSchemas c) (st_allowedSymbols c) (st_allowedSides c) (st_entry c) (st_sizing c) (st_exits c) (st_safety c)).

(** ** The stored form *)
Definition enum_name {A} `{EqDecision A} (choices : list (string * A)) (a : A) : jsval :=
  match list_find (λ e, e.2 = a) choices with Some (_, (s, _)) => JString s | None => JUndefined end.

(** A property present only when it has a value. *)
Definition optional (key : string) (v : option jsval) : list (string * jsval) :=
  match v with Some v => [(key, v)] | None => [] end.

Definition entryJson (e : StrategyEntry) : jsval :=
  JObject [("orderType", enum_name order_types (se_orderType e)); ("rangePrice", enum_name range_prices (se_rangePrice e));
           ("postOnly", JBool (se_postOnly e)); ("timeoutSeconds", JInt (se_timeoutSeconds e))].

Definition sizingJson (s : StrategySizing) : jsval :=
  JObject (optional "positionSizingMode" (enum_name sizing_modes <$> ss_positionSizingMode s)
    ++ [("riskPerTradePercent", JString (ss_riskPerTradePercent s))]
    ++ optional "maxAdaptiveRiskPercent" (JString <$> ss_maxAdaptiveRiskPercent s)
    ++ [("maxPositionNotional", JString (ss_maxPositionNotional s)); ("defaultLeverage", JInt (ss_defaultLeverage s));
        ("maxLeverage", JInt (ss_maxLeverage s))]).

Definition exitsJson (x : StrategyExits) : jsval :=
  JObject [("targetAllocationMode", enum_name allocation_modes (sx_targetAllocationMode x));
           ("targetAllocationsPercent", JArray (map JString (sx_targetAllocationsPercent x)));
           ("stopLossMode", enum_name stop_modes (sx_stopLossMode x));
           ("moveStopToBreakEvenAfterTarget", match sx_moveStopToBreakEvenAfterTarget x with Some z => JInt z | None => JNull end);
           ("trailingStopPercent", j_opt (sx_trailingStopPercent x)); ("closeRemainderAtLastTarget", JBool true)].

Definition safetyJson (s : StrategySafety) : jsval :=
  JObject (optional "maxConcurrentPositions" (JInt <$> sf_maxConcurrentPositions s)
    ++ optional "maxDailyLossMode" (enum_name loss_modes <$> sf_maxDailyLossMode s)
    ++ [("maxDailyLoss", JString (sf_maxDailyLoss s)); ("maxSlippagePercent", JString (sf_maxSlippagePercent s));
        ("entryOrderTtlSeconds", JInt (sf_entryOrderTtlSeconds s)); ("requireProtectiveStop", JBool true)]).

Definition side_text (s : TradingSide) : string := match s with LONG => "LONG" | SHORT => "SHORT" end.

Definition strategyJson (c : StrategyConfiguration) : jsval :=
  JObject [("schemaVersion", JInt (st_schemaVersion c)); ("allowedSignalSchemas", JArray (map JString (st_allowedSignalSchemas c)));
           ("allowedSymbols", JArray (map JString (st_allowedSymbols c)));
           ("allowedSides", JArray (map (λ s, JString (side_text s)) (st_allowedSides c)));
           ("entry", entryJson (st_entry c)); ("sizing", sizingJson (st_sizing c)); ("exits", exitsJson (st_exits c));
           ("safety", safetyJson (st_safety c))].

(** ** New versions; [sha256] hashes the serialised configuration, [uuid] and [now]
    are the generated identifier and the clock. *)
Record TradingStrategyVersion := mkStrategyVersion {
  sv_id : string;
  sv_strategyId : string;
  sv_version : Z;
  sv_name : string;
  sv_description : string;
  sv_status : string;
  sv_configuration : StrategyConfiguration;
  sv_configurationSha256 : string;
  sv_createdAt : Z;
  sv_publishedAt : option Z }.

Section Versions.
Context (sha256 : string → string).

Definition strategyConfigurationSha256 (c : StrategyConfiguration) : string := sha256 (JSON_stringify (strategyJson c)).

Definition createStrategyVersion (uuid1 uuid2 : string) (now : Z) (strategyId : option string) (version : jsval) (name : string)
    (description : option string) (configuration : jsval) : result TradingStrategyVersion :=
  let name := trim name in
  if bool_decide (name = "") || (80 <? length (chars name))%nat then throw "Strategy name must contain between 1 and 80 characters."
  else
    let description := default "" (trim <$> description) in
    if (500 <? length (chars description))%nat then throw "Strategy description must not exceed 500 characters."
    else
      configuration ← strategyConfigurationForNewVersion configuration;
      version ← integer version "version" 1 1000000;
      Ok (mkStrategyVersion uuid1 (match strategyId with Some s => if bool_decide (s = "") then uuid2 else s | None => uuid2 end)
            version name description "draft" configuration (strategyConfigurationSha256 configuration) now None).
End Versions.

Definition DEFAULT_STRATEGY_CONFIGURATION : StrategyConfiguration :=
  mkStrategy 4 ["standard"; "cryptodanielvip"; "loma"] [] [LONG; SHORT]
    (mkStrategyEntry entry_limit midpoint false 10)
    (mkStrategySizing (Some risk_percent) "1" (Some "1") "1000" 3 3)
    (mkStrategyExits manual ["50"; "50"] configured (Some 1) None)
    (mkStrategySafety None (Some absolute) "100" "0.5" 900).

(** ** Normalisers are idempotent *)
Lemma schema_char c : is_lower c || is_digit c || (char_code c =? 95) || (char_code c =? 45) = true → lower_char c = c ∧ is_space c = false.
Proof. destruct c as [[] [] [] [] [] [] [] []]; cbn; intros H; (discriminate H || (split; reflexivity)). Qed.

Lemma symbol_char c : is_upper c || is_digit c = true → upper_char c = [c] ∧ is_space c = false.
Proof. destruct c as [[] [] [] [] [] [] [] []]; cbn; intros H; (discriminate H || (split; reflexivity)). Qed.

Lemma schema_normal s : SIGNAL_SCHEMA_ID_PATTERN s = true → toLowerCase (trim s) = s.
Proof.
  unfold SIGNAL_SCHEMA_ID_PATTERN. intros H.
  assert (Forall (λ c, lower_char c = c ∧ is_space c = false) (chars s)) as Hall.
  { destruct (chars s) as [|c l]; [constructor|]. apply andb_true_iff in H as [[Hc Hl]%andb_true_iff _].
    constructor; [apply schema_char; by rewrite Hc|]. eapply Forall_impl; [by apply forallb_Forall|]. intros x Hx. by apply schema_char. }
  rewrite trim_id by (eapply Forall_impl; [exact Hall|]; by intros x [_ ?]).
  apply toLowerCase_id. eapply Forall_impl; [exact Hall|]. by intros x [? _].
Qed.

Lemma symbol_normal s : SYMBOL_PATTERN s = true → toUpperCase (trim s) = s.
Proof.
  unfold SYMBOL_PATTERN. intros [[H _]%andb_true_iff _]%andb_true_iff.
  assert (Forall (λ c, upper_char c = [c] ∧ is_space c = false) (chars s)) as Hall
    by (eapply Forall_impl; [by apply forallb_Forall|]; intros x Hx; by apply symbol_char).
  rewrite trim_id by (eapply Forall_impl; [exact Hall|]; by intros x [_ ?]).
  apply toUpperCase_id. eapply Forall_impl; [exact Hall|]. by intros x [? _].
Qed.

(** [decimal] reads its argument only through the value. *)
Lemma decimal_reads v a pos mx : units (trim v) = Some a → decimal v pos mx =
  if pos && (a =? 0) then throw "Decimal must be greater than zero."
  else match mx with
       | None => Ok (dec a)
       | Some m => if bool_decide (m = "") then Ok (dec a)
                   else c ← compareDecimal (dec a) m; if c >? 0 then throw ("Decimal must not exceed " +:+ m +:+ ".") else Ok (dec a)
       end.
Proof.
  intros (p & Hp & -> & Hs & Hc)%units_parse. unfold decimal. rewrite Hp. cbn [mbind result_bind]. rewrite format_dec by done.
  cbn [mbind result_bind]. pose proof (pow10_pos (18 - scale p) ltac:(lia)).
  assert ((coefficient p =? 0) = (coefficient p * 10 ^ (18 - scale p) =? 0)) as ->; [|done].
  destruct (Z.eqb_spec (coefficient p) 0) as [->|]; [done|]. symmetry. apply Z.eqb_neq. nia.
Qed.

Lemma decimal_again v pos mx s : decimal v pos mx = Ok s → decimal s pos mx = Ok s.
Proof.
  intros H. pose proof H as (a & Ha & -> & Hab & _)%decimal_inv.
  rewrite (decimal_reads _ a) in H by done. rewrite (decimal_reads _ a); [done|]. rewrite trim_dec by lia. by apply units_dec_lt.
Qed.

Lemma validateDecimal_again v pos mx s : validateDecimalInput v pos mx = Ok s → validateDecimalInput (JString s) pos mx = Ok s.
Proof. destruct v; try done. apply decimal_again. Qed.

Lemma integer_again v name lo hi z : integer v name lo hi = Ok z → integer (JInt z) name lo hi = Ok z.
Proof. unfold integer. destruct v as [| | |z'| | | | |]; try done. destruct (_ || _) eqn:E; [done|]. intros [= <-]. by rewrite E. Qed.

(** ** Sections re-validate to themselves *)
(** Reading back a concrete record: resolve the property reads, the key check and
    the enumerations, then run the validator's binds. *)
Ltac read_back :=
  cbn [object mbind result_bind optional app fmap option_fmap option_map];
  repeat first [rewrite assoc_hit | rewrite assoc_miss by discriminate | rewrite assoc_nil];
  repeat match goal with
  | |- context [exactKeys ?l ?n ?k] => change (exactKeys l n k) with (Ok tt)
  | |- context [or_throw (member ?t ?v) ?m] => let r := eval vm_compute in (or_throw (member t v) m) in change (or_throw (member t v) m) with r
  end;
  cbn [mbind result_bind is_undefined].

Lemma entry_again v e : validateEntry v = Ok e → validateEntry (entryJson e) = Ok e.
Proof.
  unfold validateEntry at 1. intros H. apply bind_Ok in H as (fs & _ & H). apply bind_Ok in H as (u & _ & H).
  apply bind_Ok in H as (ot & _ & H). apply bind_Ok in H as (rp & _ & H). apply bind_Ok in H as (po & _ & H).
  destruct (bool_decide (ot = entry_market) && po) eqn:Em; [done|]. apply bind_Ok in H as (t & Ht%integer_again & H). injection H as <-.
  unfold validateEntry, entryJson. cbn [se_orderType se_rangePrice se_postOnly se_timeoutSeconds].
  destruct ot, rp, po; try discriminate Em; read_back; rewrite ?Em, Ht; reflexivity.
Qed.

Lemma sizing_again v version s : validateSizing v version = Ok s →
  (∀ version', (version' =? 1) = (version =? 1) → validateSizing (sizingJson s) version' = Ok s) ∧
  1 <= ss_defaultLeverage s <= ss_maxLeverage s ∧ ss_maxLeverage s <= 50.
Proof.
  unfold validateSizing at 1. intros H. apply bind_Ok in H as (fs & _ & H). apply bind_Ok in H as (u & _ & H).
  apply bind_Ok in H as (mode & _ & H). apply bind_Ok in H as (risk & Hrisk%validateDecimal_again & H).
  apply bind_Ok in H as (ad & Had & H). apply bind_Ok in H as (u2 & Hcmp & H). apply bind_Ok in H as (ml & Hml%integer_again & H).
  destruct ((version =? 4) && is_undefined (assoc "defaultLeverage" fs)) eqn:E4; [done|].
  apply bind_Ok in H as (dl & Hdl & H). destruct (dl >? ml) eqn:Egt; [done|].
  apply bind_Ok in H as (nt & Hnt%validateDecimal_again & H). injection H as <-.
  assert (integer (JInt dl) "sizing.defaultLeverage" 1 50 = Ok dl) as Hd.
  { destruct (is_undefined (assoc "defaultLeverage" fs)); [injection Hdl as <-; unfold integer in *; by destruct (_ || _)|by eapply integer_again]. }
  assert (1 <= dl <= ml ∧ ml <= 50) as Hlev.
  { rewrite Z.gtb_ltb, Z.ltb_ge in Egt. unfold integer in Hd, Hml. destruct (_ || _) eqn:E1 in Hd; [done|]. destruct (_ || _) eqn:E2 in Hml; [done|].
    rewrite !orb_false_iff, Z.gtb_ltb, !Z.ltb_ge in E1, E2. lia. }
  split; [|exact Hlev]. clear Hlev. intros version' Ev. clear E4. destruct (Z.eqb_spec version 1) as [->|Hne].
  - apply Z.eqb_eq in Ev as ->. injection Had as <-. unfold validateSizing, sizingJson. cbn [ss_positionSizingMode ss_riskPerTradePercent ss_maxAdaptiveRiskPercent
      ss_maxPositionNotional ss_defaultLeverage ss_maxLeverage Z.eqb Pos.eqb].
    destruct mode; read_back; rewrite Hrisk; cbn [mbind result_bind]; rewrite Hml; cbn [mbind result_bind andb]; rewrite Hd;
      cbn [mbind result_bind]; rewrite Egt, Hnt; reflexivity.
  - apply bind_Ok in Had as (a & Ha%validateDecimal_again & [= <-]).
    unfold validateSizing, sizingJson. rewrite Ev. cbn [ss_positionSizingMode ss_riskPerTradePercent
      ss_maxAdaptiveRiskPercent ss_maxPositionNotional ss_defaultLeverage ss_maxLeverage].
    destruct mode; read_back; rewrite Hrisk; cbn [mbind result_bind]; rewrite Ha; cbn [mbind result_bind]; rewrite Hcmp;
      cbn [mbind result_bind]; rewrite Hml; cbn [mbind result_bind]; rewrite andb_false_r, Hd; cbn [mbind result_bind];
      rewrite Egt, Hnt; reflexivity.
Qed.

Lemma exits_again v x : validateExits v = Ok x → validateExits (exitsJson x) = Ok x.
Proof.
  unfold validateExits at 1. intros H. apply bind_Ok in H as (fs & _ & H). apply bind_Ok in H as (u & _ & H).
  apply bind_Ok in H as (mode & _ & H). apply bind_Ok in H as (items & Hit & H). apply bind_Ok in H as (al & Hal & H).
  apply bind_Ok in H as (tot & Htot & H). apply bind_Ok in H as (c & Hc & H). destruct (negb (c =? 0)) eqn:Ec; [done|].
  apply bind_Ok in H as (be & Hbe & H). apply bind_Ok in H as (tr & Htr & H). apply bind_Ok in H as (stop & _ & H).
  assert (mkStrategyExits mode al stop be tr = x) as <- by (destruct (assoc "closeRemainderAtLastTarget" fs) as [| |[]| | | | | |]; try discriminate H; by injection H). clear H.
  pose proof (mapM_Ok_length _ _ _ Hal) as Hlen.
  assert ((1 <=? length al)%nat && (length al <=? 20)%nat = true) as Hl.
  { rewrite Hlen. destruct (assoc "targetAllocationsPercent" fs) as [| | | | | | |its|]; try done.
    destruct ((1 <=? length its)%nat && (length its <=? 20)%nat) eqn:E; [|done]. by injection Hit as <-. }
  pose proof (mapM_again _ JString _ _ Hal (λ x y, validateDecimal_again x true (Some "100") y)) as Hal2.
  assert ((z ← integer (JInt (default 0 be)) "exits.moveStopToBreakEvenAfterTarget" 1 (Z.of_nat (length al)); Ok (Some z)) = Ok be ∨ be = None) as Hb.
  { destruct (assoc "moveStopToBreakEvenAfterTarget" fs) as [| |b1|z1|f1| |s1|l1|o1]; [|injection Hbe as <-; by right| | | | | | |];
      apply bind_Ok in Hbe as (z & Hz%integer_again & [= <-]); left; change (default 0 (Some z)) with z; by rewrite Hz. }
  assert ((d ← validateDecimalInput (JString (default "" tr)) true (Some "20"); Ok (Some d)) = Ok tr ∨ tr = None) as Ht.
  { destruct (assoc "trailingStopPercent" fs) as [| |b1|z1|f1| |s1|l1|o1]; [|injection Htr as <-; by right| | | | | | |];
      apply bind_Ok in Htr as (z & Hz%validateDecimal_again & [= <-]); left; change (default "" (Some z)) with z; by rewrite Hz. }
  clear Hbe Htr. unfold validateExits, exitsJson. cbn [sx_targetAllocationMode sx_targetAllocationsPercent sx_stopLossMode
    sx_moveStopToBreakEvenAfterTarget sx_trailingStopPercent].
  destruct mode, stop; read_back; rewrite length_map, Hl; cbn [mbind result_bind]; rewrite Hal2; cbn [mbind result_bind]; rewrite Htot;
    cbn [mbind result_bind]; rewrite Hc; cbn [mbind result_bind]; rewrite Ec;
    (destruct be as [b|]; [destruct Hb as [Hb|]; [change (default 0 (Some b)) with b in Hb; rewrite Hb|done]|]); cbn [mbind result_bind];
    (destruct tr as [t|]; [destruct Ht as [Ht|]; [change (default "" (Some t)) with t in Ht; cbn [j_opt]; rewrite Ht|done]|]); reflexivity.
Qed.

Lemma safety_again v version s : validateSafety v version = Ok s →
  (∀ version', (version' <? 3) = (version <? 3) → validateSafety (safetyJson s) version' = Ok s) ∧
  (version < 3 → is_Some (sf_maxConcurrentPositions s)).
Proof.
  unfold validateSafety at 1. intros H. apply bind_Ok in H as (fs & _ & H). apply bind_Ok in H as (u & _ & H). apply bind_Ok in H as (u2 & _ & H).
  apply bind_Ok in H as (mode & _ & H). apply bind_Ok in H as (cc & Hcc & H). apply bind_Ok in H as (loss & Hloss%validateDecimal_again & H).
  apply bind_Ok in H as (sl & Hsl%validateDecimal_again & H). apply bind_Ok in H as (ttl & Httl%integer_again & H). injection H as <-.
  unfold validateSafety, safetyJson. cbn [sf_maxConcurrentPositions sf_maxDailyLossMode sf_maxDailyLoss sf_maxSlippagePercent sf_entryOrderTtlSeconds].
  destruct (Z.ltb_spec version 3) as [Hv|Hv].
  - apply bind_Ok in Hcc as (z & Hz%integer_again & [= <-]). split; [|intros _; by eexists]. intros version' ->.
    destruct mode; read_back; rewrite Hz; cbn [mbind result_bind]; rewrite Hloss; cbn [mbind result_bind]; rewrite Hsl; cbn [mbind result_bind];
      rewrite Httl; reflexivity.
  - injection Hcc as <-. split; [|lia]. intros version' ->.
    destruct mode; read_back; rewrite Hloss; cbn [mbind result_bind]; rewrite Hsl; cbn [mbind result_bind]; rewrite Httl; reflexivity.
Qed.

Lemma uniqueStrings_inv v name l : uniqueStrings v name = Ok l → distinct l = true.
Proof.
  unfold uniqueStrings. destruct (string_array v) as [k|]; [|done]. destruct (distinct (map _ k)) eqn:E; [|done]. by intros [= <-].
Qed.

Lemma uniqueStrings_again l name : distinct l = true → Forall (λ s, toUpperCase (trim s) = s) l →
  uniqueStrings (JArray (map JString l)) name = Ok l.
Proof.
  intros Hd Hn. unfold uniqueStrings, string_array. rewrite all_strings_map, (map_id_in _ _ Hn). by rewrite Hd.
Qed.

Lemma sides_text l ss : sequence (map side_of l) = Some ss → l = map side_text ss ∧ (l = [] ↔ ss = []).
Proof.
  revert ss. induction l as [|x l IH]; intros ss H; cbn in H; [by injection H as <-|].
  unfold side_of at 1 in H. case_bool_decide as E1; [|case_bool_decide as E2; [|done]]; subst x;
    destruct (sequence (map side_of l)) as [ss'|]; try done; injection H as <-; destruct (IH ss' eq_refl) as [-> _]; by split.
Qed.

Lemma side_text_normal s : toUpperCase (trim (side_text s)) = side_text s.
Proof. by destruct s. Qed.

Lemma side_of_text ss : sequence (map side_of (map side_text ss)) = Some ss.
Proof. induction ss as [|[] ss IH]; cbn; [done|by rewrite IH..]. Qed.

Lemma access_again fs version schemas symbols sides rest :
  validateAccess fs = Ok (version, schemas, symbols, sides) →
  1 <= version <= 4 ∧ ∀ version', 1 <= version' <= 4 →
  validateAccess ([("schemaVersion", JInt version'); ("allowedSignalSchemas", JArray (map JString schemas));
                   ("allowedSymbols", JArray (map JString symbols)); ("allowedSides", JArray (map (λ s, JString (side_text s)) sides))] ++ rest)
    = Ok (version', schemas, symbols, sides).
Proof.
  unfold validateAccess at 1. intros H. apply bind_Ok in H as (ver & Hver & H). apply bind_Ok in H as (ls & _ & H). apply bind_Ok in H as (sc & Hsc & H).
  destruct (bool_decide (sc = [])) eqn:Ene; [done|]. destruct (distinct sc) eqn:Ed; [|done]. cbn [negb] in H.
  apply bind_Ok in H as (sy & Hsy & H). destruct (existsb _ sy) eqn:Ex; [done|]. apply bind_Ok in H as (si & Hsi & H).
  apply bind_Ok in H as (ps & Hps & H). injection H as -> -> -> ->.
  assert ((1 <=? version) && (version <=? 4) = true) as Hv.
  { destruct (assoc "schemaVersion" fs) as [| | |z| | | | |]; try done. destruct ((1 <=? z) && (z <=? 4)) eqn:E; [|done]. by injection Hver as <-. }
  destruct (bool_decide (si = [])) eqn:Esi; [done|]. unfold or_throw in Hps. destruct (sequence (map side_of si)) as [ss|] eqn:Eseq; [|done].
  injection Hps as ->. destruct (sides_text _ _ Eseq) as [-> _].
  assert (mapM (λ s, signalSchemaIdentifier (JString s) "Signal schema identifier") schemas = Ok schemas) as Hsc2.
  { pose proof (mapM_again _ (λ s, s) _ _ Hsc) as K. rewrite map_id in K. apply K. intros x y. unfold signalSchemaIdentifier.
    destruct (SIGNAL_SCHEMA_ID_PATTERN _) eqn:E; [|done]. intros [= <-]. by rewrite (schema_normal _ E), E. }
  assert (Forall (λ s, toUpperCase (trim s) = s) symbols) as Hn.
  { apply Forall_forall. intros s Hs. apply symbol_normal. apply not_false_iff_true. intros Hf.
    assert (existsb (λ s, negb (SYMBOL_PATTERN s)) symbols = true) as E; [|congruence].
    apply existsb_exists. exists s. rewrite <- list_elem_of_In, Hf. done. }
  assert (Forall (λ s, toUpperCase (trim s) = s) (map side_text sides)) as Hns
    by (clear; induction sides; cbn; constructor; [apply side_text_normal|done]).
  split; [lia|]. intros version' Hv'. assert ((1 <=? version') && (version' <=? 4) = true) as Hv2 by lia.
  unfold validateAccess. rewrite <- (map_map side_text JString).
  cbn [app]. repeat first [rewrite assoc_hit | rewrite assoc_miss by discriminate]. rewrite Hv2. cbn [mbind result_bind string_array].
  rewrite all_strings_map. cbn [or_throw mbind result_bind]. rewrite Hsc2. cbn [mbind result_bind]. rewrite Ene, Ed. cbn [negb].
  rewrite (uniqueStrings_again _ _ (uniqueStrings_inv _ _ _ Hsy) Hn). cbn [mbind result_bind]. rewrite Ex.
  rewrite (uniqueStrings_again _ _ (uniqueStrings_inv _ _ _ Hsi) Hns). cbn [mbind result_bind]. rewrite Esi, side_of_text. reflexivity.
Qed.

(** The version read is the only part of a section that changes meaning. *)
Lemma validated_parts v c : validateStrategyConfiguration v = Ok c →
  1 <= st_schemaVersion c <= 4 ∧
  (∀ version, 1 <= version <= 4 → (version =? 1) = (st_schemaVersion c =? 1) → (version <? 3) = (st_schemaVersion c <? 3) →
    let c' := mkStrategy version (st_allowedSignalSchemas c) (st_allowedSymbols c) (st_allowedSides c) (st_entry c) (st_sizing c) (st_exits c) (st_safety c) in
    validateStrategyConfiguration (strategyJson c') = Ok c') ∧
  (st_schemaVersion c < 3 → is_Some (sf_maxConcurrentPositions (st_safety c))) ∧
  1 <= ss_defaultLeverage (st_sizing c) <= ss_maxLeverage (st_sizing c) ∧ ss_maxLeverage (st_sizing c) <= 50.
Proof.
  unfold validateStrategyConfiguration at 1. intros H. apply bind_Ok in H as (fs & _ & H). apply bind_Ok in H as (u & _ & H).
  apply bind_Ok in H as ([[[ver sc] sy] si] & Hacc & H). apply bind_Ok in H as (en & Hen%entry_again & H).
  apply bind_Ok in H as (sz & [Hsz Hlev]%sizing_again & H). apply bind_Ok in H as (ex & Hex%exits_again & H).
  apply bind_Ok in H as (sf & [Hsf Hcc]%safety_again & H). injection H as <-.
  destruct (access_again _ _ _ _ _ [("entry", entryJson en); ("sizing", sizingJson sz); ("exits", exitsJson ex); ("safety", safetyJson sf)] Hacc) as [Hv Hacc2].
  split; [done|]. split; [|split; [exact Hcc|exact Hlev]]. cbn [st_schemaVersion st_allowedSignalSchemas st_allowedSymbols st_allowedSides st_entry st_sizing st_exits st_safety].
  intros version Hb E1 E3. unfold validateStrategyConfiguration, strategyJson.
  cbn [st_schemaVersion st_allowedSignalSchemas st_allowedSymbols st_allowedSides st_entry st_sizing st_exits st_safety object mbind result_bind].
  change (exactKeys _ _ _) with (Ok tt) at 1. cbn [mbind result_bind]. specialize (Hacc2 version Hb). cbn [app] in Hacc2. rewrite Hacc2.
  cbn [mbind result_bind]. repeat first [rewrite assoc_hit | rewrite assoc_miss by discriminate].
  rewrite Hen. cbn [mbind result_bind]. rewrite (Hsz version E1). cbn [mbind result_bind]. rewrite Hex. cbn [mbind result_bind].
  rewrite (Hsf version E3). reflexivity.
Qed.

Lemma access_version fs version schemas symbols sides : validateAccess fs = Ok (version, schemas, symbols, sides) →
  assoc "schemaVersion" fs = JInt version.
Proof.
  unfold validateAccess. intros H. apply bind_Ok in H as (ver & Hver & H).
  assert (assoc "schemaVersion" fs = JInt ver) as E.
  { destruct (assoc "schemaVersion" fs) as [| | |z| | | | |]; try done. destruct (_ && _); [|done]. by injection Hver as <-. }
  apply bind_Ok in H as (ls & _ & H). apply bind_Ok in H as (sc & _ & H). destruct (bool_decide (sc = [])); [done|].
  destruct (negb (distinct sc)); [done|]. apply bind_Ok in H as (sy & _ & H). destruct (existsb _ sy); [done|].
  apply bind_Ok in H as (si & _ & H). apply bind_Ok in H as (ps & _ & H). injection H as <- _ _ _. exact E.
Qed.

Lemma exactKeys_refuses value name keys k u : exactKeys value name keys = Ok u → k ∈ map fst value → k ∈ keys.
Proof.
  unfold exactKeys. case_bool_decide as E; [|done]. intros _ Hin. destruct (decide (k ∈ keys)) as [|Hni]; [done|].
  assert (k ∈ filter (λ key, key ∉ keys) (map fst value)) as K by by apply list_elem_of_filter. rewrite E in K. by apply not_elem_of_nil in K.
Qed.

(** A validated strategy configuration re-validates to itself when it is
    stored and read back, so publishing, copying or reloading it changes
    nothing; and its leverage settings are ordered within 1 to 50. *)
Theorem strategy_revalidates v c : validateStrategyConfiguration v = Ok c →
  validateStrategyConfiguration (strategyJson c) = Ok c ∧
  1 <= ss_defaultLeverage (st_sizing c) <= ss_maxLeverage (st_sizing c) ∧ ss_maxLeverage (st_sizing c) <= 50.
Proof.
  intros H. destruct (validated_parts v c H) as (Hv & Hr & _ & Hl). split; [|exact Hl].
  pose proof (Hr (st_schemaVersion c) Hv eq_refl eq_refl) as K. by destruct c.
Qed.

(** Upgrading an accepted configuration to the current schema gives a
    configuration that can be read back exactly when the input was of schema
    version 3 or 4: a version 1 or 2 configuration keeps
    [safety.maxConcurrentPositions], which the validator refuses in version 4. *)
Theorem new_version_readable v c : validateStrategyConfiguration v = Ok c →
  ∃ c', strategyConfigurationForNewVersion v = Ok c' ∧ st_schemaVersion c' = 4 ∧
    (validateStrategyConfiguration (strategyJson c') = Ok c' ↔ 3 <= st_schemaVersion c) ∧
    (st_schemaVersion c < 3 → is_ok (validateStrategyConfiguration (strategyJson c')) = false).
Proof.
  intros H. destruct (validated_parts v c H) as (Hv & Hr & Hcc & _). unfold strategyConfigurationForNewVersion. rewrite H. cbn [mbind result_bind].
  eexists. split; [reflexivity|]. split; [reflexivity|].
  set (c' := mkStrategy 4 _ _ _ _ _ _ _).
  assert (st_schemaVersion c < 3 → is_ok (validateStrategyConfiguration (strategyJson c')) = false) as Hold.
  { intros Hlt. destruct (validateStrategyConfiguration (strategyJson c')) as [d|] eqn:E; [|done]. exfalso.
    destruct (Hcc Hlt) as [z Hz]. unfold validateStrategyConfiguration in E. apply bind_Ok in E as (fs & Hfs & E). injection Hfs as <-.
    apply bind_Ok in E as (u & _ & E). apply bind_Ok in E as ([[[ver sc] sy] si] & Hacc & E). apply bind_Ok in E as (en & _ & E).
    apply bind_Ok in E as (sz & _ & E). apply bind_Ok in E as (ex & _ & E). apply bind_Ok in E as (sf & Hsf & _).
    apply access_version in Hacc. rewrite assoc_hit in Hacc. injection Hacc as <-.
    repeat first [rewrite assoc_hit in Hsf | rewrite assoc_miss in Hsf by discriminate].
    unfold validateSafety, safetyJson in Hsf. apply bind_Ok in Hsf as (fs & Hfs & Hsf). injection Hfs as <-. apply bind_Ok in Hsf as (u2 & Hk & _).
    cbn [c' st_safety] in Hk. rewrite Hz in Hk. cbn [optional fmap option_fmap option_map app] in Hk.
    apply (exactKeys_refuses _ _ _ "maxConcurrentPositions") in Hk; [|left]. cbn in Hk. set_solver. }
  split; [|exact Hold]. split; [|intros Hge; apply Hr; lia].
  intros E. destruct (Z.le_gt_cases 3 (st_schemaVersion c)) as [|Hlt]; [done|]. rewrite E in Hold. by specialize (Hold Hlt).
Qed.

(** An accepted version 2 configuration. *)
Definition legacy_example : StrategyConfiguration :=
  mkStrategy 2 ["standard"] ["BTCUSDC"] [LONG] (mkStrategyEntry entry_limit midpoint false 10)
    (mkStrategySizing (Some risk_percent) "1" (Some "2") "1000" 3 5)
    (mkStrategyExits manual ["50"; "50"] configured None None)
    (mkStrategySafety (Some 3) (Some absolute) "100" "0.5" 900).
