(* ===== verification/Reservations.v ===== *)
(** Reservations: [src/trading_risk_reservations.ts] and [src/trading_fx_risk.ts],
    the daily-loss commitment of an open position and its unfilled entries.

    The fill-accounting contract is that of [src/trading_accounting_contract.ts]
    over a row whose fields have the types the validator checks.  The stored FX
    conversions come from the repository: what it returned is an argument. *)

From S2P Require Import Prelude Text Decimal Rational Money Types Fx FxSizing Strategy.
From Stdlib Require Ascii String.
Local Open Scope Z_scope.

(** ** The fill accounting contract *)
Record ExchangeFillAccounting := mkFillAccounting {
  fa_version : Z;
  fa_source : string;
  fa_providerSymbol : string;
  fa_settlementAsset : string;
  fa_linear : bool;
  fa_quantityUnit : string }.

Definition invalidTokenText (value : string) (maximum : nat) : bool :=
  bool_decide (value = "") || (maximum <? length (chars value))%nat || negb (bool_decide (trim value = value))
  || existsb (λ c, char_code c <? 32) (chars value).

Definition token (value : string) : result unit :=
  if invalidTokenText value 256 then throw "Invalid accounting evidence identity." else Ok tt.

(** [/^[A-Z0-9][A-Z0-9._-]{0,31}$/] *)
Definition asset (value : string) : result unit :=
  match chars value with
  | c :: l => if (is_upper c || is_digit c) && forallb (λ c, is_upper c || is_digit c || (char_code c =? 46) || (char_code c =? 95) || (char_code c =? 45)) l
                 && (length l <=? 31)%nat
              then Ok tt else throw "Invalid accounting asset."
  | [] => throw "Invalid accounting asset."
  end.

Definition fillAccountingContract (row : ExchangeFillAccounting) : result unit :=
  if negb (fa_version row =? 1) || negb (fa_linear row) || negb (bool_decide (fa_quantityUnit row = "base"))
     || negb (bool_decide (fa_source row ∈ ["ccxt-market-v1"; "paper-contract-v1"]))
  then throw "Unsupported fill accounting contract." else Ok tt.

Definition validateFillAccounting (value : option ExchangeFillAccounting) (providerSymbol : option string) : result ExchangeFillAccounting :=
  match value with
  | None => throw "Invalid accounting evidence object."
  | Some row =>
      _ ← fillAccountingContract row; _ ← token (fa_providerSymbol row); _ ← asset (fa_settlementAsset row);
      match providerSymbol with
      | Some p => if bool_decide (fa_providerSymbol row = p) then Ok row else throw "Fill accounting market differs from the provider market."
      | None => Ok row
      end
  end.

(** ** Reservations *)
Definition RISK_EVIDENCE_TTL_MS : Z := 60000.

Record RiskEntryRemainder := mkRemainder {
  re_id : string;
  re_generation : Z;
  re_status : string;
  re_quantity : string;
  re_filledQuantity : option string;
  re_price : option string;
  re_operationUnresolved : bool }.

Record RiskReservationInput := mkReservation {
  rr_side : TradingSide;
  rr_ownedQuantity : string;
  rr_averageEntryPrice : option string;
  rr_markPrice : option string;
  rr_stopPrice : string;
  rr_reportingCurrency : string;
  rr_market : option ExchangeFillAccounting;
  rr_entries : list RiskEntryRemainder;
  rr_protectionProven : bool }.

Inductive ReservationStatus := reservation_complete | reservation_unresolved.

Record RiskReservationAmounts := mkAmounts {
  ra_status : ReservationStatus;
  ra_reason : option string;
  ra_reportingCurrency : string;
  ra_ownedQuantity : option string;
  ra_pendingQuantity : option string;
  ra_markToStopRisk : option string;
  ra_pendingEntryRisk : option string;
  ra_actualFillToStopRisk : option string;
  ra_additionalRisk : option string;
  ra_markToStopRiskValue : option MoneyValue;
  ra_pendingEntryRiskValue : option MoneyValue;
  ra_actualFillToStopRiskValue : option MoneyValue;
  ra_additionalRiskValue : option MoneyValue }.

Definition adversePriceMovement (side : TradingSide) (price stop : string) : result bool :=
  match side with
  | LONG => c ← compareDecimal price stop; Ok (c >? 0)
  | SHORT => c ← compareDecimal stop price; Ok (c >? 0)
  end.

Definition stopDistance (side : TradingSide) (price stop quantity : string) : result string :=
  distance ← match side with LONG => subtractDecimal price stop | SHORT => subtractDecimal stop price end;
  multiplyExactSignedDecimal distance quantity.

Definition lossToStop (side : TradingSide) (reference : option string) (stop quantity : string) : result string :=
  if bool_decide (quantity = "0") then Ok "0"
  else match reference with
  | None => throw "Risk price is unproven."
  | Some r =>
      price ← decimal r true None;
      adverse ← adversePriceMovement side price stop;
      if negb adverse then Ok "0" else stopDistance side price stop quantity
  end.

Definition remainingQuantity (entry : RiskEntryRemainder) : result string :=
  if re_operationUnresolved entry then throw "Entry operation remains unresolved."
  else match re_filledQuantity entry with
  | None => throw "Entry executed quantity remains unproven."
  | Some f =>
      q ← decimal (re_quantity entry) true None; f ← decimal f false None;
      remaining ← subtractDecimal q f;
      if bool_decide (re_status entry = "filled") && negb (bool_decide (remaining = "0"))
      then throw "Filled entry still has an unexplained residual." else Ok remaining
  end.

Definition is_terminal (status : string) : bool := bool_decide (status ∈ ["filled"; "cancelled"; "rejected"]).

Definition assertEntryLifecycle (entry : RiskEntryRemainder) : result unit :=
  if is_terminal (re_status entry) then Ok tt
  else if bool_decide (re_status entry ∈ ["created"; "submitting"; "open"; "partially_filled"; "cancel_pending"; "unknown"]) then Ok tt
  else throw "Entry lifecycle is unproven.".

Definition remainingEntry (entry : RiskEntryRemainder) : result string :=
  remaining ← remainingQuantity entry;
  _ ← assertEntryLifecycle entry;
  Ok (if is_terminal (re_status entry) then "0" else remaining).

(** The loop over the entries. *)
Fixpoint pendingRisk (side : TradingSide) (stop : string) (entries : list RiskEntryRemainder) (pendingQuantity pendingEntryRisk : string)
    : result (string * string) :=
  match entries with
  | [] => Ok (pendingQuantity, pendingEntryRisk)
  | entry :: rest =>
      quantity ← remainingEntry entry;
      pendingQuantity' ← addDecimal pendingQuantity quantity;
      loss ← lossToStop side (re_price entry) stop quantity;
      pendingEntryRisk' ← addDecimal pendingEntryRisk loss;
      pendingRisk side stop rest pendingQuantity' pendingEntryRisk'
  end.

Definition provedReservation (input : RiskReservationInput) : result RiskReservationAmounts :=
  market ← validateFillAccounting (rr_market input) None;
  if negb (bool_decide (fa_settlementAsset market = rr_reportingCurrency input)) then throw "Risk settlement conversion is unproven."
  else if negb (rr_protectionProven input) then throw "Risk stop coverage is unproven."
  else
    ownedQuantity ← decimal (rr_ownedQuantity input) false None;
    stop ← decimal (rr_stopPrice input) true None;
    '(pendingQuantity, pendingEntryRisk) ← pendingRisk (rr_side input) stop (rr_entries input) "0" "0";
    markToStopRisk ← lossToStop (rr_side input) (rr_markPrice input) stop ownedQuantity;
    actualFillToStopRisk ← lossToStop (rr_side input) (rr_averageEntryPrice input) stop ownedQuantity;
    additionalRisk ← addDecimal markToStopRisk pendingEntryRisk;
    markValue ← moneyValueFromDecimal markToStopRisk;
    pendingValue ← moneyValueFromDecimal pendingEntryRisk;
    actualValue ← moneyValueFromDecimal actualFillToStopRisk;
    additionalValue ← moneyValueFromDecimal additionalRisk;
    Ok (mkAmounts reservation_complete None (rr_reportingCurrency input) (Some ownedQuantity) (Some pendingQuantity)
          (Some markToStopRisk) (Some pendingEntryRisk) (Some actualFillToStopRisk) (Some additionalRisk)
          (Some markValue) (Some pendingValue) (Some actualValue) (Some additionalValue)).

Definition unresolvedRiskAmounts (reportingCurrency : string) (e : error) : RiskReservationAmounts :=
  mkAmounts reservation_unresolved (Some (message e)) reportingCurrency None None None None None None None None None None.

Definition calculateRiskReservation (input : RiskReservationInput) : RiskReservationAmounts :=
  match provedReservation input with
  | Ok amounts => amounts
  | Err e => unresolvedRiskAmounts (rr_reportingCurrency input) e
  end.

(** ** The daily limit *)
Record DailyRisk := mkDaily {
  dr_dayPnl : string; dr_consumedLoss : string; dr_existingCommitment : string; dr_candidateCommitment : string;
  dr_totalCommitment : string; dr_budget : string; dr_allowed : bool }.

Definition calculateDailyRisk (budget ledgerPnl unrealizedPnl existingCommitment candidateCommitment : string) : result DailyRisk :=
  budget ← decimal budget false None;
  ledger ← signedDecimal ledgerPnl; unrealized ← signedDecimal unrealizedPnl;
  dayPnl ← addSignedDecimal ledger unrealized;
  let consumedLoss := if starts_minus dayPnl then slice1 dayPnl else "0" in
  existing ← decimal existingCommitment false None;
  candidate ← decimal candidateCommitment false None;
  partial ← addDecimal consumedLoss existing;
  total ← addDecimal partial candidate;
  c ← compareDecimal total budget;
  Ok (mkDaily dayPnl consumedLoss existing candidate total budget (c <=? 0)).

(** [new Date(now).setUTCHours(0, 0, 0, 0)]; [None] is NaN, beyond the range of a date. *)
Definition utcMidnight (now : Z) : option Z :=
  if Z.abs now <=? 8640000000000000 then Some (now - now mod 86400000) else None.

Definition assertRiskFresh (observedAt expiresAt utcDay now : Z) : result unit :=
  if negb (forallb isSafeInteger [observedAt; expiresAt; utcDay; now]) || (observedAt <? 0) || (expiresAt <=? observedAt)
     || (observedAt >? now + 1000) || (now >=? expiresAt) || (expiresAt >? observedAt + RISK_EVIDENCE_TTL_MS)
     || negb (bool_decide (utcMidnight now = Some utcDay))
  then throw "Risk evidence is stale, in the future or belongs to another UTC day." else Ok tt.

#[export] Instance FxConversionEvidence_eq_dec : EqDecision FxConversionEvidence.
Proof. solve_decision. Defined.
#[export] Instance StoredFxConversion_eq_dec : EqDecision StoredFxConversion.
Proof. solve_decision. Defined.

(** ** Conversion into the reporting currency *)
Section FxRisk.
Context (sha256 : string → string).

Definition convert (fx : StoredFxConversion) (amount : option string) : result MoneyValue :=
  match amount with
  | None => throw "Native settlement risk is unresolved."
  | Some a => r ← rationalFromDecimal a; p ← multiplyRational r (cv_rate (sfx_conversion fx)); moneyValueFromRational p
  end.

Definition convertAmounts (native : RiskReservationAmounts) (fx : StoredFxConversion) : result RiskReservationAmounts :=
  mark ← convert fx (ra_markToStopRisk native);
  pending ← convert fx (ra_pendingEntryRisk native);
  actual ← convert fx (ra_actualFillToStopRisk native);
  additional ← addMoneyValues mark pending;
  Ok (mkAmounts (ra_status native) (ra_reason native) (cv_quoteAsset (sfx_conversion fx)) (ra_ownedQuantity native) (ra_pendingQuantity native)
        (mv_decimal mark) (mv_decimal pending) (mv_decimal actual) (mv_decimal additional)
        (Some mark) (Some pending) (Some actual) (Some additional)).

Definition with_reportingCurrency (c : string) (a : RiskReservationAmounts) : RiskReservationAmounts :=
  mkAmounts (ra_status a) (ra_reason a) c (ra_ownedQuantity a) (ra_pendingQuantity a) (ra_markToStopRisk a) (ra_pendingEntryRisk a)
    (ra_actualFillToStopRisk a) (ra_additionalRisk a) (ra_markToStopRiskValue a) (ra_pendingEntryRiskValue a)
    (ra_actualFillToStopRiskValue a) (ra_additionalRiskValue a).

(** [persisted base quote] is what [persistFxConversion] returns or throws. *)
Definition calculateFxRiskReservation (persisted : string → string → result StoredFxConversion) (input : RiskReservationInput) (now : Z)
    : RiskReservationAmounts * option StoredFxConversion :=
  match
    market ← validateFillAccounting (rr_market input) None;
    let native := calculateRiskReservation
      (mkReservation (rr_side input) (rr_ownedQuantity input) (rr_averageEntryPrice input) (rr_markPrice input) (rr_stopPrice input)
         (fa_settlementAsset market) (rr_market input) (rr_entries input) (rr_protectionProven input)) in
    match ra_status native with
    | reservation_unresolved => Ok (with_reportingCurrency (rr_reportingCurrency input) native, None)
    | reservation_complete =>
        if bool_decide (fa_settlementAsset market = rr_reportingCurrency input) then Ok (native, None)
        else
          fx ← persisted (fa_settlementAsset market) (rr_reportingCurrency input);
          _ ← assertFxConversionFresh sha256 (sfx_conversion fx) now;
          amounts ← convertAmounts native fx;
          Ok (amounts, Some fx)
    end
  with
  | Ok r => r
  | Err e => (unresolvedRiskAmounts (rr_reportingCurrency input) e, None)
  end.

(** [stored id] is what [readFxConversion] returns; the order of the recipes is kept. *)
Fixpoint verifyRiskFxConversions (stored : string → result StoredFxConversion) (values : list StoredFxConversion) (now : Z) : result unit :=
  match values with
  | [] => Ok tt
  | expected :: rest =>
      actual ← stored (sfx_id expected);
      if negb (bool_decide (actual = expected)) then throw "Risk FX recipe changed."
      else _ ← assertFxConversionFresh sha256 (sfx_conversion actual) now; verifyRiskFxConversions stored rest now
  end.

Definition assertRiskFxFresh (values : list StoredFxConversion) (now : Z) : result unit :=
  _ ← mapM (λ v, assertFxConversionFresh sha256 (sfx_conversion v) now) values; Ok tt.
End FxRisk.

(** *** The sizing conversion of the original plan *)
Definition assertSizingConversionPresent (context : TradingFxSizingContext) (fx : option StoredFxConversion) : result StoredFxConversion :=
  let changed : result StoredFxConversion := throw "Original risk sizing conversion is missing or changed." in
  match fx with
  | None => changed
  | Some f => if negb (fz_version context =? 1) || negb (bool_decide (fz_conversionId context = sfx_id f))
                 || negb (bool_decide (fz_conversion context = sfx_conversion f)) then changed else Ok f
  end.

Definition assertSizingReportingParties (context : TradingFxSizingContext) (reporting : string) (settlement : option string) : result unit :=
  if bool_decide (settlement = Some reporting) || negb (bool_decide (fz_reportingCurrency context = reporting))
     || negb (bool_decide (Some (fz_notionalCurrency context) = settlement))
  then throw "Original risk sizing reporting/settlement units changed." else Ok tt.

Definition assertSizingConversionAssets (context : TradingFxSizingContext) (fx : StoredFxConversion) (reporting : string)
    (settlement : option string) : result unit :=
  if negb (bool_decide (Some (fz_strategyMaximumNotionalCurrency context) = settlement))
     || negb (bool_decide (fz_riskAmountCurrency context = reporting) || bool_decide (Some (fz_riskAmountCurrency context) = settlement))
     || negb (bool_decide (Some (cv_baseAsset (sfx_conversion fx)) = settlement))
     || negb (bool_decide (cv_quoteAsset (sfx_conversion fx) = reporting))
  then throw "Original risk sizing reporting/settlement units changed." else Ok tt.

Definition assertRiskSizingBinding (context : option TradingFxSizingContext) (fx : option StoredFxConversion) (reporting : string)
    (settlement : option string) : result unit :=
  match context with
  | None => match fx with Some _ => throw "Unexpected risk sizing conversion without an original plan context." | None => Ok tt end
  | Some c =>
      f ← assertSizingConversionPresent c fx;
      _ ← assertSizingReportingParties c reporting settlement;
      assertSizingConversionAssets c f reporting settlement
  end.

(** ** Exactness *)
(** The loss per unit between a reference price and the stop. *)
Definition adverse (side : TradingSide) (price stop : Z) : Z :=
  Z.max 0 (match side with LONG => price - stop | SHORT => stop - price end).

(** [r] is the exact loss of [q] units from the reference price to the stop. *)
Definition exposure (side : TradingSide) (reference : option string) (stop q r : Z) : Prop :=
  (q = 0 ∧ r = 0) ∨
  (q ≠ 0 ∧ ∃ s p, reference = Some s ∧ units (trim s) = Some p ∧ 0 < p ∧ r * ONE = adverse side p stop * q).

Lemma sunits_dec_inv z a : 0 <= z → sunits (dec z) = Some a → a = z.
Proof. intros Hz H. rewrite sunits_plain, trim_dec in H by (done || by apply dec_not_minus). by apply units_dec_Some in H as [-> _]. Qed.

Lemma stopDistance_inv side price stop q s p st : stopDistance side price stop (dec q) = Ok s →
  units price = Some p → units stop = Some st → 0 <= q → adverse side p st = match side with LONG => p - st | SHORT => st - p end →
  ∃ r, s = dec r ∧ 0 <= r ∧ r * ONE = adverse side p st * q.
Proof.
  intros H Hp Hst Hq Hadv. unfold stopDistance in H. apply bind_Ok in H as (d & Hd & H). pose proof ONE_pos.
  assert (d = dec (adverse side p st)) as ->.
  { rewrite Hadv. destruct side; apply subtractDecimal_inv in Hd as (a & b & Ha & Hb & _ & ->); f_equal; congruence. }
  apply multiplyExactSignedDecimal_inv in H as (a & b & z & Ha & Hb & Hz & _ & ->).
  apply sunits_dec_inv in Ha as ->; [|unfold adverse; lia]. apply sunits_dec_inv in Hb as ->; [|done].
  assert (0 <= z) by (unfold adverse in *; nia). exists z. rewrite sdec_nonneg by done. split_and!; [done|done|lia].
Qed.

Lemma lossToStop_inv side ref st q s : lossToStop side ref (dec st) (dec q) = Ok s → 0 <= q → 0 <= st < LIMIT →
  ∃ r, s = dec r ∧ 0 <= r ∧ exposure side ref st q r.
Proof.
  intros H Hq Hst. unfold lossToStop in H. rewrite dec_is_0 in H by done. destruct (Z.eqb_spec q 0) as [->|Hq0].
  { injection H as <-. exists 0. rewrite dec_0. split_and!; [done|done|by left]. }
  destruct ref as [t|]; [|done]. apply bind_Ok in H as (p' & Hp & H). apply decimal_inv in Hp as (p & Hp & -> & Hpb & Hpp & _). specialize (Hpp eq_refl).
  apply bind_Ok in H as (adv & Hadv & H).
  assert (adv = (0 <? match side with LONG => p - st | SHORT => st - p end)) as ->.
  { unfold adversePriceMovement in Hadv. destruct side; apply bind_Ok in Hadv as (c & Hc & [= <-]); apply compareDecimal_inv in Hc as (a & b & Ha & Hb & ->);
      rewrite units_dec_lt in Ha, Hb by lia; injection Ha as <-; injection Hb as <-;
      [destruct (cmpZ_spec p st) as (_ & -> & _)|destruct (cmpZ_spec st p) as (_ & -> & _)]; apply eq_true_iff_eq; rewrite !Z.ltb_lt; lia. }
  destruct (Z.ltb_spec 0 (match side with LONG => p - st | SHORT => st - p end)) as [Hlt|Hge]; cbn [negb] in H.
  - eapply stopDistance_inv in H as (r & -> & Hr & E); [|apply units_dec_lt; lia|by apply units_dec_lt|done|unfold adverse; lia].
    exists r. split_and!; [done|done|]. right. split; [done|]. by exists t, p.
  - injection H as <-. exists 0. rewrite dec_0. split_and!; [done|done|]. right. split; [done|]. exists t, p. split_and!; [done|done|done|].
    unfold adverse. nia.
Qed.

(** What an entry can still execute, and what it can lose. *)
Definition entry_exposure (side : TradingSide) (stop : Z) (e : RiskEntryRemainder) (qr : Z * Z) : Prop :=
  re_operationUnresolved e = false ∧
  (∃ f total filled, re_filledQuantity e = Some f ∧ units (trim (re_quantity e)) = Some total ∧ units (trim f) = Some filled ∧
     0 <= filled <= total ∧ qr.1 = if is_terminal (re_status e) then 0 else total - filled) ∧
  exposure side (re_price e) stop qr.1 qr.2.

Lemma remainingEntry_inv e s : remainingEntry e = Ok s → ∃ f total filled, re_operationUnresolved e = false ∧ re_filledQuantity e = Some f ∧
  units (trim (re_quantity e)) = Some total ∧ units (trim f) = Some filled ∧ 0 <= filled <= total ∧
  s = dec (if is_terminal (re_status e) then 0 else total - filled).
Proof.
  unfold remainingEntry, remainingQuantity. intros H. apply bind_Ok in H as (r & Hr & H). apply bind_Ok in H as (u & _ & H). injection H as <-.
  destruct (re_operationUnresolved e); [done|]. destruct (re_filledQuantity e) as [f|]; [|done].
  apply bind_Ok in Hr as (q' & Hq & Hr). apply bind_Ok in Hr as (f' & Hf & Hr). apply bind_Ok in Hr as (rem & Hrem & Hr).
  destruct (_ && _); [done|]. injection Hr as <-.
  apply decimal_inv in Hq as (t & Ht & -> & Htb & _). apply decimal_inv in Hf as (x & Hx & -> & Hxb & _).
  apply subtractDecimal_inv in Hrem as (a & b & Ha & Hb & Hle & ->). rewrite units_dec_lt in Ha, Hb by done. injection Ha as <-. injection Hb as <-.
  exists f, t, x. split_and!; try done; [lia|]. destruct (is_terminal (re_status e)); [by rewrite dec_0|done].
Qed.

Lemma pendingRisk_inv side st entries P R p r : pendingRisk side (dec st) entries (dec P) (dec R) = Ok (p, r) →
  0 <= P → 0 <= R → 0 <= st < LIMIT →
  ∃ qrs, Forall2 (entry_exposure side st) entries qrs ∧ p = dec (P + sumZ (map fst qrs)) ∧ r = dec (R + sumZ (map snd qrs)) ∧
    0 <= sumZ (map fst qrs) ∧ 0 <= sumZ (map snd qrs).
Proof.
  revert P R. induction entries as [|e entries IH]; intros P R H HP HR Hst; cbn [pendingRisk] in H.
  { injection H as <- <-. exists []. cbn. rewrite !Z.add_0_r. by split_and!; [constructor|..]. }
  apply bind_Ok in H as (q & Hq & H). apply bind_Ok in H as (P' & HP' & H). apply bind_Ok in H as (loss & Hloss & H). apply bind_Ok in H as (R' & HR' & H).
  apply remainingEntry_inv in Hq as (f & t & x & Hu & Hf & Ht & Hx & Hb & ->). set (z := if is_terminal (re_status e) then 0 else t - x) in *.
  assert (0 <= z) by (unfold z; destruct (is_terminal _); lia).
  apply lossToStop_inv in Hloss as (l & -> & Hl & Hexp); [|done|done].
  apply addDecimal_inv in HP' as (a & b & Ha & Hb' & ->). apply units_dec_Some in Ha as [-> _]; [|done]. apply units_dec_Some in Hb' as [-> _]; [|done].
  apply addDecimal_inv in HR' as (a & b & Ha & Hb' & ->). apply units_dec_Some in Ha as [-> _]; [|done]. apply units_dec_Some in Hb' as [-> _]; [|done].
  apply IH in H as (qrs & Hall & -> & -> & H1 & H2); [|lia|lia|done].
  exists ((z, l) :: qrs). cbn. split_and!; [|by rewrite Z.add_assoc|by rewrite Z.add_assoc|lia|lia].
  constructor; [|done]. split; [done|]. split; [|done]. by exists f, t, x.
Qed.

(** C20: a risk reservation is exact or withheld: a complete one means the stop is
    proved and every entry is accounted for, and its additional commitment is
    exactly the loss of the owned quantity from the mark to the stop plus the
    loss of every unit the live entries can still execute at their own price,
    without rounding; anything unproven gives no amount at all. *)
Theorem reservation_exact input :
  let a := calculateRiskReservation input in
  (ra_status a = reservation_complete →
     rr_protectionProven input = true ∧
     ∃ O st qrs M F, units (trim (rr_ownedQuantity input)) = Some O ∧ units (trim (rr_stopPrice input)) = Some st ∧ 0 < st ∧
       Forall2 (entry_exposure (rr_side input) st) (rr_entries input) qrs ∧
       exposure (rr_side input) (rr_markPrice input) st O M ∧ exposure (rr_side input) (rr_averageEntryPrice input) st O F ∧
       ra_ownedQuantity a = Some (dec O) ∧ ra_pendingQuantity a = Some (dec (sumZ (map fst qrs))) ∧
       ra_markToStopRisk a = Some (dec M) ∧ ra_pendingEntryRisk a = Some (dec (sumZ (map snd qrs))) ∧
       ra_actualFillToStopRisk a = Some (dec F) ∧ ra_additionalRisk a = Some (dec (M + sumZ (map snd qrs)))) ∧
  (ra_status a = reservation_unresolved → is_Some (ra_reason a) ∧
     ra_ownedQuantity a = None ∧ ra_pendingQuantity a = None ∧ ra_markToStopRisk a = None ∧ ra_pendingEntryRisk a = None ∧
     ra_actualFillToStopRisk a = None ∧ ra_additionalRisk a = None ∧ ra_additionalRiskValue a = None).
Proof.
  cbn zeta. unfold calculateRiskReservation. destruct (provedReservation input) as [a|e] eqn:E; [|split; [done|]; cbn; intros _; split_and!; try done; by eexists].
  unfold provedReservation in E. apply bind_Ok in E as (mk & _ & E). destruct (negb (bool_decide _)); [done|].
  destruct (rr_protectionProven input); [|done]. cbn [negb] in E.
  apply bind_Ok in E as (o & Ho & E). apply bind_Ok in E as (s & Hs & E). apply bind_Ok in E as ([p r] & Hp & E).
  apply bind_Ok in E as (m & Hm & E). apply bind_Ok in E as (f & Hf & E). apply bind_Ok in E as (ad & Had & E).
  apply bind_Ok in E as (v1 & _ & E). apply bind_Ok in E as (v2 & _ & E). apply bind_Ok in E as (v3 & _ & E). apply bind_Ok in E as (v4 & _ & E).
  injection E as <-. split; [|done]. intros _. split; [done|].
  apply decimal_inv in Ho as (O & HO & -> & HOb & _). apply decimal_inv in Hs as (st & Hst & -> & Hstb & Hstp & _). specialize (Hstp eq_refl).
  rewrite <- dec_0 in Hp. apply pendingRisk_inv in Hp as (qrs & Hall & -> & -> & H1 & H2); [|done..]. rewrite !Z.add_0_l in *.
  apply lossToStop_inv in Hm as (M & -> & HM & HexpM); [|lia|done]. apply lossToStop_inv in Hf as (F & -> & HF & HexpF); [|lia|done].
  apply addDecimal_inv in Had as (x & y & Hx & Hy & ->). apply units_dec_Some in Hx as [-> _]; [|done]. apply units_dec_Some in Hy as [-> _]; [|done].
  exists O, st, qrs, M, F. by split_and!.
Qed.

(** A long position of 2 at mark 105, stop 100, and an open entry of 1 at 110. *)
Definition reservation_example : RiskReservationInput :=
  mkReservation LONG "2" (Some "103") (Some "105") "100" "USDC" (Some (mkFillAccounting 1 "ccxt-market-v1" "BTC/USDC" "USDC" true "base"))
    [mkRemainder "e1" 1 "open" "1.5" (Some "0.5") (Some "110") false; mkRemainder "e2" 1 "cancelled" "1" (Some "0") (Some "110") false] true.

Lemma reservation_exact_witness :
  ra_additionalRisk (calculateRiskReservation reservation_example) = Some "20" ∧
  ∃ O st qrs M F, units (trim (rr_ownedQuantity reservation_example)) = Some O ∧ units (trim (rr_stopPrice reservation_example)) = Some st ∧ 0 < st ∧
    Forall2 (entry_exposure LONG st) (rr_entries reservation_example) qrs ∧ exposure LONG (Some "105") st O M ∧ exposure LONG (Some "103") st O F.
Proof.
  split; [vm_compute; reflexivity|].
  assert (ra_status (calculateRiskReservation reservation_example) = reservation_complete) as Hs by (vm_compute; reflexivity).
  destruct (proj1 (reservation_exact reservation_example) Hs) as (_ & O & st & qrs & M & F & H1 & H2 & H3 & H4 & H5 & H6 & _).
  exists O, st, qrs, M, F. exact (conj H1 (conj H2 (conj H3 (conj H4 (conj H5 H6))))).
Defined.

(** The daily limit admits a candidate exactly when today's loss (ledger plus
    unrealized, never a gain), the existing commitments and the candidate
    together stay within the budget. *)
Theorem daily_limit_exact budget ledger unrealized existing candidate d :
  calculateDailyRisk budget ledger unrealized existing candidate = Ok d →
  ∃ B L U E C, units (trim budget) = Some B ∧ sunits ledger = Some L ∧ sunits unrealized = Some U ∧
    units (trim existing) = Some E ∧ units (trim candidate) = Some C ∧
    dr_dayPnl d = sdec (L + U) ∧ dr_consumedLoss d = dec (Z.max 0 (- (L + U))) ∧
    dr_totalCommitment d = dec (Z.max 0 (- (L + U)) + E + C) ∧
    (dr_allowed d = true ↔ Z.max 0 (- (L + U)) + E + C <= B).
Proof.
  intros H. unfold calculateDailyRisk in H. apply bind_Ok in H as (b & Hb & H). apply bind_Ok in H as (l & Hl & H). apply bind_Ok in H as (u & Hu & H).
  apply bind_Ok in H as (day & Hday & H). apply bind_Ok in H as (e & He & H). apply bind_Ok in H as (c & Hc & H).
  apply bind_Ok in H as (pa & Hpa & H). apply bind_Ok in H as (t & Ht & H). apply bind_Ok in H as (o & Ho & H). injection H as <-.
  apply decimal_inv in Hb as (B & HB & -> & HBb & _). apply signedDecimal_inv in Hl as (L & HL & ->). apply signedDecimal_inv in Hu as (U & HU & ->).
  apply decimal_inv in He as (E & HE & -> & HEb & _). apply decimal_inv in Hc as (C & HC & -> & HCb & _).
  apply addSignedDecimal_inv in Hday as (x & y & Hx & Hy & ->).
  rewrite sunits_sdec in Hx by (by eapply sunits_bounds). rewrite sunits_sdec in Hy by (by eapply sunits_bounds). injection Hx as <-. injection Hy as <-.
  set (K := Z.max 0 (- (L + U))).
  assert ((if starts_minus (sdec (L + U)) then slice1 (sdec (L + U)) else "0") = dec K) as EK.
  { pose proof (magnitude_sdec (L + U)) as Hm. unfold magnitude in Hm. rewrite starts_minus_sdec in *. unfold K.
    destruct (Z.ltb_spec (L + U) 0); [rewrite Hm; f_equal; lia|]. rewrite <- dec_0. f_equal. lia. }
  rewrite EK in Hpa. assert (0 <= K) by (unfold K; lia).
  apply addDecimal_inv in Hpa as (x & y & Hx & Hy & ->). apply units_dec_Some in Hx as [-> _]; [|done]. apply units_dec_Some in Hy as [-> _]; [|lia].
  apply addDecimal_inv in Ht as (x & y & Hx & Hy & ->). apply units_dec_Some in Hx as [-> _]; [|lia]. apply units_dec_Some in Hy as [-> _]; [|lia].
  apply compareDecimal_inv in Ho as (x & y & Hx & Hy & ->). apply units_dec_Some in Hx as [-> _]; [|lia]. apply units_dec_Some in Hy as [-> _]; [|lia].
  exists B, L, U, E, C. cbn. rewrite EK. split_and!; try done.
  destruct (cmpZ_cases (K + E + C) B) as [[? ->]|[[? ->]|[? ->]]]; cbn; split; intros; try done; lia.
Qed.
