(* ===== verification/Recovery.v ===== *)
(** Recovery: [src/trading_recovery_schedule.ts], the planner of provider reads
    during recovery, and the request half of
    [src/trading_recovery_schedule_contract.ts], the contract the executor checks
    it against.

    Orders, checkpoints and account-log checkpoints carry the fields the two
    modules read; the shape checks of [object] and [array] hold of every Rocq
    record and list, their length bounds are kept. *)

From S2P Require Import Prelude Text Types Json Fx Strategy.
From Stdlib Require Ascii String.
Local Open Scope Z_scope.

Inductive RecoveryLane := lane_targeted | lane_mode | lane_logs | lane_history | lane_fx.
#[export] Instance RecoveryLane_eq_dec : EqDecision RecoveryLane.
Proof. solve_decision. Defined.

Inductive RecoveryDeferredReason := phase_deferred | not_due | not_needed | cooldown.
#[export] Instance RecoveryDeferredReason_eq_dec : EqDecision RecoveryDeferredReason.
Proof. solve_decision. Defined.

Record RecoveryScheduleBinding := mkBinding {
  rb_accountId : string;
  rb_accountFingerprint : string;
  rb_credentialGeneration : string;
  rb_mode : string;
  rb_executionProfileHash : string }.
#[export] Instance RecoveryScheduleBinding_eq_dec : EqDecision RecoveryScheduleBinding.
Proof. solve_decision. Defined.

Record Grant := mkGrant { gr_lane : RecoveryLane; gr_maxCalls : Z; gr_deferredReason : option RecoveryDeferredReason }.

Record RecoveryScheduleRequest := mkRequest {
  rq_version : Z;
  rq_profile : string;
  rq_attemptId : string;
  rq_revision : Z;
  rq_phase : Z;
  rq_binding : RecoveryScheduleBinding;
  rq_cooldownUntil : Z;
  rq_grants : list Grant }.

Record RecoveryScheduleState := mkScheduleState {
  rs_revision : Z;
  rs_phase : Z;
  rs_fx_rotation : Z;
  rs_logs_first : bool;
  rs_history_after : option string;
  rs_next_due_at : Z;
  rs_cooldown_until : Z }.

Record ExchangeHistoryCheckpoint := mkCheckpoint { hc_source : string; hc_providerSymbol : option string; hc_nextReadAt : Z }.
Record AccountLogCheckpoint := mkLogCheckpoint { lc_accountFingerprint : string; lc_credentialGeneration : string; lc_nextReadAt : Z }.

Record ExchangeRecoveryQuery := mkQuery {
  rqy_since : Z;
  rqy_orders : list string;
  rqy_readAccountMode : bool;
  rqy_accountLogs : option AccountLogCheckpoint;
  rqy_history : list ExchangeHistoryCheckpoint }.

(** A scheduled query; [fxEvidence] by its leg identifiers. *)
Record ScheduledRecoveryQuery := mkScheduled {
  sq_query : ExchangeRecoveryQuery;
  sq_fxEvidence : option (list string);
  sq_recoverySchedule : RecoveryScheduleRequest }.

(** ** The planner *)
Definition LEG_ROTATIONS : list (list string) :=
  [["bybit:btc-usd-index:v1"; "bybit:btc-usdt-index:v1"; "bybit:usdc-usd-index:v1"];
   ["bybit:usdc-usd-index:v1"; "bybit:btc-usd-index:v1"; "bybit:btc-usdt-index:v1"];
   ["bybit:btc-usdt-index:v1"; "bybit:btc-usd-index:v1"; "bybit:usdc-usd-index:v1"];
   ["bybit:usdc-usd-index:v1"; "bybit:btc-usdt-index:v1"; "bybit:btc-usd-index:v1"]].

Definition recoveryHistoryKey (row : ExchangeHistoryCheckpoint) : string :=
  JSON_stringify (JArray [JString (hc_source row); j_opt (hc_providerSymbol row)]).

(** [compareHistoryKeys(...) <= 0] *)
Definition history_le (a b : ExchangeHistoryCheckpoint) : Prop := String.le (recoveryHistoryKey a) (recoveryHistoryKey b).
#[export] Instance history_le_dec : RelDecision history_le.
Proof. intros a b. unfold history_le. apply _. Defined.
#[export] Instance history_le_total : Total history_le.
Proof. intros a b. unfold history_le. apply String.le_total. Qed.
#[export] Instance history_le_trans : Transitive history_le.
Proof. intros a b c. unfold history_le. apply transitivity. Qed.

(** [previous === null || recoveryHistoryKey(row) > previous] *)
Definition after (previous : option string) (row : ExchangeHistoryCheckpoint) : bool :=
  match previous with None => true | Some p => negb (bool_decide (String.le (recoveryHistoryKey row) p)) end.

Definition nextHistory (query : ExchangeRecoveryQuery) (previous : option string) (now : Z) : option ExchangeHistoryCheckpoint :=
  let due := merge_sort history_le (filter (λ row, hc_nextReadAt row <= now) (rqy_history query)) in
  match list_find (λ row, after previous row = true) due with
  | Some (_, row) => Some row
  | None => head due
  end.

Definition laneOrder (state : RecoveryScheduleState) : list RecoveryLane :=
  if rs_phase state =? 0 then [lane_fx; lane_targeted; lane_history; lane_logs; lane_mode]
  else if rs_phase state =? 1 then [lane_history; lane_logs; lane_targeted; lane_mode; lane_fx]
  else if rs_phase state =? 2 then [lane_targeted; lane_fx; lane_history; lane_logs; lane_mode]
  else if rs_logs_first state then [lane_logs; lane_mode; lane_targeted; lane_history; lane_fx]
  else [lane_mode; lane_logs; lane_targeted; lane_history; lane_fx].

Definition maximums (phase : Z) (lane : RecoveryLane) : Z :=
  if (phase =? 0) || (phase =? 2) then match lane with lane_fx => 3 | lane_targeted => 2 | _ => 0 end
  else if phase =? 1 then match lane with lane_history => 4 | lane_logs => 1 | _ => 0 end
  else match lane with lane_mode => 2 | lane_logs => 1 | lane_targeted => 2 | _ => 0 end.

Definition requiredAccountLogs (query : ExchangeRecoveryQuery) : result AccountLogCheckpoint :=
  match rqy_accountLogs query with Some l => Ok l | None => throw "Recovery schedule logs grant without account logs." end.

Definition rotationLegs (rotation : Z) : result (list string) :=
  if rotation <? 0 then throw "Recovery schedule rotation out of range."
  else match LEG_ROTATIONS !! Z.to_nat rotation with
  | Some legs => Ok legs
  | None => throw "Recovery schedule rotation out of range."
  end.

Definition neededLanes (query : ExchangeRecoveryQuery) (history : option ExchangeHistoryCheckpoint) (lane : RecoveryLane) : bool :=
  match lane with
  | lane_fx => true
  | lane_targeted => negb (bool_decide (rqy_orders query = []))
  | lane_mode => rqy_readAccountMode query
  | lane_logs => bool_decide (is_Some (rqy_accountLogs query))
  | lane_history => bool_decide (is_Some history)
  end.

Definition logsDeferredReason (query : ExchangeRecoveryQuery) (now : Z) : option RecoveryDeferredReason :=
  match rqy_accountLogs query with
  | None => Some not_needed
  | Some l => if lc_nextReadAt l >? now then Some not_due else None
  end.

Definition laneDeferredReason (lane : RecoveryLane) (cap : Z) (needed : bool) (query : ExchangeRecoveryQuery) (now : Z) : option RecoveryDeferredReason :=
  if cap =? 0 then Some phase_deferred
  else if negb needed then Some not_needed
  else if negb (bool_decide (lane = lane_logs)) then None
  else logsDeferredReason query now.

Definition scheduleDeferredReason (state : RecoveryScheduleState) (now : Z) (busy : bool) : option RecoveryDeferredReason :=
  if rs_cooldown_until state >? now then Some cooldown
  else if busy || (rs_next_due_at state >? now) then Some not_due else None.

Definition laneGrants (state : RecoveryScheduleState) (caps : RecoveryLane → Z) (needed : RecoveryLane → bool)
    (query : ExchangeRecoveryQuery) (now : Z) (deferred : option RecoveryDeferredReason) : list Grant :=
  map (λ lane,
    let reason := match deferred with Some d => Some d | None => laneDeferredReason lane (caps lane) (needed lane) query now end in
    mkGrant lane (match reason with None => caps lane | Some _ => 0 end) reason) (laneOrder state).

Definition grantedLogs (query : ExchangeRecoveryQuery) (hasLogs : bool) : result (option AccountLogCheckpoint) :=
  if negb hasLogs then Ok None else l ← requiredAccountLogs query; Ok (Some l).

Definition grantedFx (state : RecoveryScheduleState) (hasFx : bool) : result (option (list string)) :=
  if negb hasFx then Ok None else legs ← rotationLegs (rs_fx_rotation state); Ok (Some legs).

Definition PROFILE : string := "bybit-usd-fx-recovery-v1".

Definition has_grant (grants : list Grant) (lane : RecoveryLane) : bool :=
  existsb (λ g, bool_decide (gr_lane g = lane) && (gr_maxCalls g >? 0)) grants.

Definition planScheduledRecovery (query : ExchangeRecoveryQuery) (binding : RecoveryScheduleBinding) (state : RecoveryScheduleState)
    (attemptId : string) (now : Z) (busy : bool) : result ScheduledRecoveryQuery :=
  let history := nextHistory query (rs_history_after state) now in
  let caps := maximums (rs_phase state) in
  let needed := neededLanes query history in
  let deferred := scheduleDeferredReason state now busy in
  let grants := laneGrants state caps needed query now deferred in
  let has := has_grant grants in
  accountLogs ← grantedLogs query (has lane_logs);
  fxEvidence ← grantedFx state (has lane_fx);
  Ok (mkScheduled
        (mkQuery (rqy_since query) (rqy_orders query) (rqy_readAccountMode query) accountLogs
           (match history with Some h => if has lane_history then [h] else [] | None => [] end))
        fxEvidence
        (mkRequest 1 PROFILE attemptId (rs_revision state) (rs_phase state) binding (rs_cooldown_until state) grants)).

(** ** The request contract *)
Definition invalid {A} : result A := throw "RECOVERY_SCHEDULE_INVALID".

Definition CAPS (lane : RecoveryLane) : list Z :=
  match lane with lane_targeted => [0; 2] | lane_mode => [0; 2] | lane_logs => [0; 1] | lane_history => [0; 4] | lane_fx => [0; 1; 2; 3] end.

Definition PHASE_LANES : list (list RecoveryLane) :=
  [[lane_fx; lane_targeted]; [lane_history; lane_logs]; [lane_fx; lane_targeted]; [lane_mode; lane_logs; lane_targeted]].

Definition safe_integer (value maximum : Z) : result Z :=
  if negb (isSafeInteger value) || (value <? 0) || (value >? maximum) then invalid else Ok value.

(** The loop of [grants]: lanes seen so far and calls granted so far. *)
Fixpoint check_grants (phase : Z) (rows : list Grant) (seen : list RecoveryLane) (total : Z) : result Z :=
  match rows with
  | [] => Ok total
  | row :: rest =>
      if bool_decide (gr_lane row ∈ seen) then invalid
      else
        calls ← safe_integer (gr_maxCalls row) 5;
        if negb (bool_decide (calls ∈ CAPS (gr_lane row)))
           || ((calls >? 0) && negb (bool_decide (gr_lane row ∈ default [] (PHASE_LANES !! Z.to_nat phase)))) then invalid
        else if (if calls >? 0 then negb (bool_decide (gr_deferredReason row = None)) else bool_decide (gr_deferredReason row = None)) then invalid
        else check_grants phase rest (gr_lane row :: seen) (total + calls)
  end.

Definition grants (rows : list Grant) (phase : Z) : result (list Grant) :=
  if negb (length rows =? 5)%nat then invalid
  else total ← check_grants phase rows [] 0; if total >? 5 then invalid else Ok rows.

Definition is_hex (c : Ascii.ascii) : bool := is_digit c || between 97 102 c.
Definition hex_run (n : nat) (s : list Ascii.ascii) : bool := (length s =? n)%nat && forallb is_hex s.

(** [/^[a-f0-9]{64}$/] *)
Definition is_sha256 (s : string) : bool := hex_run 64 (chars s).

(** [/^[a-f0-9]{8}(?:-[a-f0-9]{4}){3}-[a-f0-9]{12}$/] *)
Definition is_uuid (s : string) : bool :=
  match split_chars minus_char (chars s) with
  | [a; b; c; d; e] => hex_run 8 a && hex_run 4 b && hex_run 4 c && hex_run 4 d && hex_run 12 e
  | _ => false
  end.

Definition binding (row expected : RecoveryScheduleBinding) : result unit :=
  let id := rb_accountId row in
  if (256 <? length (chars id))%nat || bool_decide (id = "") || negb (bool_decide (trim id = id)) || existsb control_char (chars id)
     || negb (is_sha256 (rb_accountFingerprint row)) || negb (is_sha256 (rb_credentialGeneration row)) || negb (is_sha256 (rb_executionProfileHash row))
     || negb (bool_decide (rb_mode row = "live") || bool_decide (rb_mode row = "testnet")) || negb (bool_decide (row = expected))
  then invalid else Ok tt.

Definition lane_text (l : RecoveryLane) : string :=
  match l with lane_targeted => "targeted" | lane_mode => "mode" | lane_logs => "logs" | lane_history => "history" | lane_fx => "fx" end.
Definition reason_text (r : RecoveryDeferredReason) : string :=
  match r with phase_deferred => "phase_deferred" | not_due => "not_due" | not_needed => "not_needed" | cooldown => "cooldown" end.

(** The request as the object that is serialised. *)
Definition requestJson (r : RecoveryScheduleRequest) : jsval :=
  JObject [("version", JInt (rq_version r)); ("profile", JString (rq_profile r)); ("attemptId", JString (rq_attemptId r));
    ("revision", JInt (rq_revision r)); ("phase", JInt (rq_phase r));
    ("binding", JObject [("accountId", JString (rb_accountId (rq_binding r))); ("accountFingerprint", JString (rb_accountFingerprint (rq_binding r)));
       ("credentialGeneration", JString (rb_credentialGeneration (rq_binding r))); ("mode", JString (rb_mode (rq_binding r)));
       ("executionProfileHash", JString (rb_executionProfileHash (rq_binding r)))]);
    ("cooldownUntil", JInt (rq_cooldownUntil r));
    ("grants", JArray (map (λ g, JObject [("lane", JString (lane_text (gr_lane g))); ("maxCalls", JInt (gr_maxCalls g));
       ("deferredReason", j_opt (reason_text <$> gr_deferredReason g))]) (rq_grants r)))].

Definition header (row : RecoveryScheduleRequest) (expected : RecoveryScheduleBinding) : result unit :=
  if negb (rq_version row =? 1) || negb (bool_decide (rq_profile row = PROFILE)) || negb (is_uuid (rq_attemptId row)) then invalid
  else
    _ ← safe_integer (rq_phase row) 3; _ ← safe_integer (rq_cooldownUntil row) MAX_SAFE_INTEGER;
    _ ← binding (rq_binding row) expected;
    if byteLength (stringify (requestJson row)) >=? 8192 then invalid else Ok tt.

Definition validateRecoveryScheduleRequest (row : RecoveryScheduleRequest) (expected : RecoveryScheduleBinding) : result RecoveryScheduleRequest :=
  _ ← safe_integer (rq_revision row) MAX_SAFE_INTEGER;
  _ ← safe_integer (rq_phase row) 3;
  _ ← grants (rq_grants row) (rq_phase row);
  _ ← header row expected;
  Ok row.

Definition LEGS : list string := ["bybit:btc-usd-index:v1"; "bybit:btc-usdt-index:v1"; "bybit:usdc-usd-index:v1"].

Definition fxRequest (legs : list string) (maximum : Z) : result (list string) :=
  if (3 <? length legs)%nat || negb (Z.of_nat (length legs) =? maximum) || bool_decide (legs = []) || negb (distinct legs)
     || existsb (λ leg, negb (bool_decide (leg ∈ LEGS))) legs then invalid else Ok legs.

Definition laneGrant (request : RecoveryScheduleRequest) (lane : RecoveryLane) : result Z :=
  match list_find (λ g, gr_lane g = lane) (rq_grants request) with Some (_, g) => Ok (gr_maxCalls g) | None => invalid end.

Definition requestedSourcePresence (recovery : ExchangeRecoveryQuery) (request : RecoveryScheduleRequest) (expected : RecoveryScheduleBinding) : result unit :=
  mode ← laneGrant request lane_mode;
  if (mode >? 0) && negb (rqy_readAccountMode recovery) then invalid
  else
    logs ← laneGrant request lane_logs;
    if negb (Bool.eqb (logs >? 0) (bool_decide (is_Some (rqy_accountLogs recovery)))) then invalid
    else
      _ ← match rqy_accountLogs recovery with
          | Some l => if negb (bool_decide (lc_accountFingerprint l = rb_accountFingerprint expected))
                         || negb (bool_decide (lc_credentialGeneration l = rb_credentialGeneration expected)) then invalid else Ok tt
          | None => Ok tt
          end;
      if (1 <? length (rqy_history recovery))%nat then invalid
      else
        history ← laneGrant request lane_history;
        if (length (rqy_history recovery) =? (if (history >? 0)%Z then 1 else 0))%nat then Ok tt else invalid.

Definition validateRecoveryScheduleInputs (value : ScheduledRecoveryQuery) (expected : RecoveryScheduleBinding)
    : result (RecoveryScheduleRequest * option (list string)) :=
  request ← validateRecoveryScheduleRequest (sq_recoverySchedule value) expected;
  _ ← requestedSourcePresence (sq_query value) request expected;
  maximum ← laneGrant request lane_fx;
  if negb (Bool.eqb (maximum >? 0) (bool_decide (is_Some (sq_fxEvidence value)))) then invalid
  else match sq_fxEvidence value with
  | Some legs => l ← fxRequest legs maximum; Ok (request, Some l)
  | None => Ok (request, None)
  end.

(** ** The planner meets the contract *)
(** The reads a plan allows. *)
Definition granted (q : ScheduledRecoveryQuery) : Z := sumZ (map gr_maxCalls (rq_grants (sq_recoverySchedule q))).

Lemma nextHistory_due query previous now row : nextHistory query previous now = Some row →
  row ∈ rqy_history query ∧ hc_nextReadAt row <= now.
Proof.
  unfold nextHistory. set (due := merge_sort _ _). assert (∀ r, r ∈ due → r ∈ rqy_history query ∧ hc_nextReadAt r <= now) as Hdue.
  { intros r Hr. unfold due in Hr. rewrite merge_sort_Permutation in Hr. apply list_elem_of_filter in Hr as [? ?]. done. }
  destruct (list_find _ due) as [[i r]|] eqn:E.
  - intros [= <-]. apply list_find_Some in E as (Hi & _). apply Hdue. by eapply list_elem_of_lookup_2.
  - intros Hh. apply Hdue. destruct due as [|d l]; [done|]. injection Hh as <-. left.
Qed.

Definition phase_lanes_ok (phase : Z) : Prop := phase = 0 ∨ phase = 1 ∨ phase = 2 ∨ phase = 3.

Lemma rotationLegs_ok rotation : 0 <= rotation <= 3 → ∃ legs, rotationLegs rotation = Ok legs ∧ fxRequest legs 3 = Ok legs.
Proof.
  intros H. assert (rotation = 0 ∨ rotation = 1 ∨ rotation = 2 ∨ rotation = 3) as [-> |[-> |[-> | ->]]] by lia;
    eexists; (split; [reflexivity|vm_compute; reflexivity]).
Qed.

(** The request contract over the grants of a plan, the rest of the request kept. *)
Lemma request_accepted row b : 0 <= rq_revision row <= MAX_SAFE_INTEGER → safe_integer (rq_phase row) 3 = Ok (rq_phase row) →
  grants (rq_grants row) (rq_phase row) = Ok (rq_grants row) → header row b = Ok tt → validateRecoveryScheduleRequest row b = Ok row.
Proof.
  intros Hr Hp Hg Hh. unfold validateRecoveryScheduleRequest.
  assert (safe_integer (rq_revision row) MAX_SAFE_INTEGER = Ok (rq_revision row)) as ->.
  { unfold safe_integer. assert (isSafeInteger (rq_revision row) = true) as -> by (apply isSafeInteger_true; lia). cbn [negb orb].
    destruct (Z.ltb_spec (rq_revision row) 0); [lia|]. rewrite Z.gtb_ltb. destruct (Z.ltb_spec MAX_SAFE_INTEGER (rq_revision row)); [lia|done]. }
  cbn [mbind result_bind]. rewrite Hp. cbn [mbind result_bind]. rewrite Hg. cbn [mbind result_bind]. by rewrite Hh.
Qed.

(** ** The size of a request *)
Lemma byteLength_step c l : byteLength (c :: l) = (if (Ascii.nat_of_ascii c <? 128)%nat then 1 else 2) + byteLength l.
Proof. reflexivity. Qed.
Lemma byteLength_nonneg l : 0 <= byteLength l.
Proof. induction l as [|c l IH]; [done|]. rewrite byteLength_step. destruct (_ <? 128)%nat; lia. Qed.
Lemma byteLength_cons c l : byteLength (c :: l) <= 2 + byteLength l.
Proof. rewrite byteLength_step. destruct (_ <? 128)%nat; lia. Qed.
Lemma byteLength_app l k : byteLength (l ++ k) = byteLength l + byteLength k.
Proof. induction l as [|c l IH]; [done|]. change ((c :: l) ++ k) with (c :: (l ++ k)). rewrite !byteLength_step, IH. lia. Qed.
Lemma byteLength_bound l : byteLength l <= 2 * Z.of_nat (length l).
Proof. induction l as [|c l IH]; [done|]. pose proof (byteLength_cons c l). cbn [length]. lia. Qed.
Lemma byteLength_escape c : byteLength (escape c) <= 6.
Proof. destruct c as [[] [] [] [] [] [] [] []]; vm_compute; discriminate. Qed.

Lemma byteLength_string s : byteLength (stringify_string s) <= 2 + 6 * Z.of_nat (length (chars s)).
Proof.
  unfold stringify_string. change (quote_char :: flat_map escape (chars s) ++ [quote_char]) with ([quote_char] ++ flat_map escape (chars s) ++ [quote_char]).
  rewrite !byteLength_app. change (byteLength [quote_char]) with 1. assert (∀ l, byteLength (flat_map escape l) <= 6 * Z.of_nat (length l)) as H.
  { induction l as [|c l IH]; [done|]. cbn [flat_map length]. rewrite byteLength_app. pose proof (byteLength_escape c). lia. }
  specialize (H (chars s)). lia.
Qed.

Lemma byteLength_commas ws : byteLength (commas ws) <= sumZ (map (λ w, byteLength w + 1) ws).
Proof.
  induction ws as [|w [|w' ws] IH]; [done|cbn [commas map sumZ]; pose proof (byteLength_nonneg w); lia|].
  change (commas (w :: w' :: ws)) with (w ++ [comma] ++ commas (w' :: ws)). rewrite !byteLength_app. change (byteLength [comma]) with 1.
  cbn [map sumZ] in *. lia.
Qed.

Lemma byteLength_array items : byteLength (stringify (JArray items)) <= 2 + sumZ (map (λ v, byteLength (stringify v) + 1) items).
Proof.
  cbn [stringify]. match goal with |- byteLength (?a :: ?l ++ ?b) <= _ => change (a :: l ++ b) with ([a] ++ l ++ b) end.
  rewrite !byteLength_app. match goal with |- byteLength ?a + (_ + byteLength ?b) <= _ => change (byteLength a) with 1; change (byteLength b) with 1 end.
  pose proof (byteLength_commas (map stringify items)) as H. rewrite map_map in H. lia.
Qed.

Abbreviation colon := (Ascii.ascii_of_nat 58).

Lemma byteLength_object fields :
  byteLength (stringify (JObject fields)) <= 2 + sumZ (map (λ e, 4 + 6 * Z.of_nat (length (chars e.1)) + byteLength (stringify e.2)) fields).
Proof.
  cbn [stringify]. match goal with |- byteLength (?a :: commas ?m ++ ?b) <= _ => change (a :: commas m ++ b) with ([a] ++ commas m ++ b); set (ms := m) end.
  rewrite !byteLength_app. match goal with |- byteLength ?a + (_ + byteLength ?b) <= _ => change (byteLength a) with 1; change (byteLength b) with 1 end.
  pose proof (byteLength_commas ms) as H. enough (sumZ (map (λ w, byteLength w + 1) ms) <= sumZ (map (λ e, 4 + 6 * Z.of_nat (length (chars e.1)) + byteLength (stringify e.2)) fields)) by lia.
  clear H. unfold ms. clear ms. induction fields as [|[k v] l IH]; [done|].
  assert (∀ w, w = stringify_string k ++ colon :: stringify v → byteLength w + 1 <= 4 + 6 * Z.of_nat (length (chars k)) + byteLength (stringify v)) as Hone.
  { intros w ->. change (stringify_string k ++ colon :: stringify v) with (stringify_string k ++ [colon] ++ stringify v). rewrite !byteLength_app.
    change (byteLength [colon]) with 1. pose proof (byteLength_string k). lia. }
  pose proof (byteLength_nonneg (stringify v)) as Hn. cbn [map sumZ fst snd]. destruct v; cbn [map sumZ];
    first [lia|match goal with |- byteLength ?w + 1 + _ <= _ => pose proof (Hone w eq_refl) end; lia].
Qed.

Lemma byteLength_integer z : 0 <= z <= MAX_SAFE_INTEGER → byteLength (stringify (JInt z)) <= 32.
Proof.
  intros Hz. cbn [stringify]. unfold Rational.show_chars. destruct (Z.ltb_spec z 0); [lia|]. pose proof (byteLength_bound (to_digits z)).
  destruct (to_digits_length z 15) as [_ H']; [|lia]. unfold MAX_SAFE_INTEGER in Hz. change (10 ^ Z.of_nat 16) with 10000000000000000. lia.
Qed.

Lemma hex_run_length n l : hex_run n l = true → length l = n.
Proof. unfold hex_run. intros [H _]%andb_true_iff. by apply Nat.eqb_eq in H. Qed.

Lemma uuid_length s : is_uuid s = true → length (chars s) = 36%nat.
Proof.
  unfold is_uuid. intros H. rewrite <-(join_split_chars minus_char (chars s)). destruct (split_chars minus_char (chars s)) as [|a [|b [|c [|d [|e [|]]]]]]; try done.
  rewrite !andb_true_iff in H. destruct H as [[[[Ha Hb] Hc] Hd] He]. apply hex_run_length in Ha, Hb, Hc, Hd, He.
  cbn. repeat (rewrite !length_app || cbn [length]). lia.
Qed.

Lemma sources_accepted recovery request b m lg h :
  laneGrant request lane_mode = Ok m → laneGrant request lane_logs = Ok lg → laneGrant request lane_history = Ok h →
  (m >? 0) && negb (rqy_readAccountMode recovery) = false → (lg >? 0) = bool_decide (is_Some (rqy_accountLogs recovery)) →
  (∀ l, rqy_accountLogs recovery = Some l → lc_accountFingerprint l = rb_accountFingerprint b ∧ lc_credentialGeneration l = rb_credentialGeneration b) →
  length (rqy_history recovery) = (if (h >? 0)%Z then 1%nat else 0%nat) → requestedSourcePresence recovery request b = Ok tt.
Proof.
  intros Hm Hl Hh Em El Hb Eh. unfold requestedSourcePresence. rewrite Hm. cbn [mbind result_bind]. rewrite Em, Hl. cbn [mbind result_bind].
  rewrite El, Bool.eqb_reflx. cbn [negb].
  assert (match rqy_accountLogs recovery with
          | Some l => if negb (bool_decide (lc_accountFingerprint l = rb_accountFingerprint b))
                         || negb (bool_decide (lc_credentialGeneration l = rb_credentialGeneration b)) then invalid else Ok tt
          | None => Ok tt end = Ok tt) as ->.
  { destruct (rqy_accountLogs recovery) as [l|]; [|done]. destruct (Hb l eq_refl) as [E1 E2]. by rewrite !bool_decide_eq_true_2 by done. }
  cbn [mbind result_bind]. rewrite Hh, Eh. cbn [mbind result_bind]. destruct (h >? 0); reflexivity.
Qed.

Ltac accept_request Hrev Hh :=
  unfold validateRecoveryScheduleInputs; cbn [sq_recoverySchedule] in *;
  match type of Hh with header ?r ?b = _ => rewrite (request_accepted r b Hrev eq_refl ltac:(vm_compute; reflexivity) Hh) end.

(** A request of the size a planner makes is within the bound. *)
Lemma request_size row expected : is_uuid (rq_attemptId row) = true → rq_profile row = PROFILE → rq_version row = 1 →
  0 <= rq_revision row <= MAX_SAFE_INTEGER → 0 <= rq_phase row <= 3 → 0 <= rq_cooldownUntil row <= MAX_SAFE_INTEGER →
  binding (rq_binding row) expected = Ok tt → length (rq_grants row) = 5%nat → Forall (λ g, 0 <= gr_maxCalls g <= 5) (rq_grants row) →
  byteLength (stringify (requestJson row)) < 8192.
Proof.
  intros Hid Hp Hv Hr Hph Hc Hb Hlen Hg. unfold requestJson. eapply Z.le_lt_trans; [apply byteLength_object|].
  cbn [map sumZ fst snd]. rewrite Hp, Hv.
  pose proof (byteLength_string (rq_attemptId row)) as L1. rewrite (uuid_length _ Hid) in L1. change (stringify_string (rq_attemptId row)) with (stringify (JString (rq_attemptId row))) in L1.
  pose proof (byteLength_integer _ Hr) as L2. pose proof (byteLength_integer (rq_phase row) ltac:(unfold MAX_SAFE_INTEGER; lia)) as L3. pose proof (byteLength_integer _ Hc) as L4.
  match goal with |- context[byteLength (stringify (JArray ?l))] => assert (byteLength (stringify (JArray l)) <= 2000) as L5 end.
  { eapply Z.le_trans; [apply byteLength_array|]. rewrite map_map. destruct (rq_grants row) as [|g1 [|g2 [|g3 [|g4 [|g5 [|]]]]]]; try done.
    assert (∀ g, 0 <= gr_maxCalls g <= 5 → byteLength (stringify (JObject [("lane", JString (lane_text (gr_lane g))); ("maxCalls", JInt (gr_maxCalls g));
       ("deferredReason", j_opt (reason_text <$> gr_deferredReason g))])) <= 300) as Hone.
    { intros [lane calls reason] Hcalls. cbn [gr_lane gr_maxCalls gr_deferredReason] in *.
      assert (calls = 0 ∨ calls = 1 ∨ calls = 2 ∨ calls = 3 ∨ calls = 4 ∨ calls = 5) as Hcases by lia.
      destruct Hcases as [->|[->|[->|[->|[->| ->]]]]]; destruct lane, reason as [[]|]; vm_compute; discriminate. }
    rewrite !Forall_cons in Hg. destruct Hg as (G1 & G2 & G3 & G4 & G5 & _). pose proof (Hone _ G1). pose proof (Hone _ G2). pose proof (Hone _ G3).
    pose proof (Hone _ G4). pose proof (Hone _ G5). cbn [map sumZ]. lia. }
  match goal with |- context[byteLength (stringify (JObject ?l))] => assert (byteLength (stringify (JObject l)) <= 4000) as L6 end.
  { unfold binding in Hb. destruct (_ || _) eqn:E; [done|]. rewrite !orb_false_iff, !negb_false_iff, Nat.ltb_ge in E.
    destruct E as ((((((((B1 & _) & _) & _) & B2) & B3) & B4) & B5) & _). apply hex_run_length in B2, B3, B4.
    eapply Z.le_trans; [apply byteLength_object|]. cbn [map sumZ fst snd].
    pose proof (byteLength_string (rb_accountId (rq_binding row))) as K1. pose proof (byteLength_string (rb_accountFingerprint (rq_binding row))) as K2.
    pose proof (byteLength_string (rb_credentialGeneration (rq_binding row))) as K3. pose proof (byteLength_string (rb_executionProfileHash (rq_binding row))) as K4.
    rewrite B2 in K2. rewrite B3 in K3. rewrite B4 in K4. assert (byteLength (stringify (JString (rb_mode (rq_binding row)))) <= 9) as K5.
    { apply orb_true_iff in B5 as [->%bool_decide_eq_true| ->%bool_decide_eq_true]; vm_compute; discriminate. }
    change (stringify (JString (rb_accountId (rq_binding row)))) with (stringify_string (rb_accountId (rq_binding row))).
    change (stringify (JString (rb_accountFingerprint (rq_binding row)))) with (stringify_string (rb_accountFingerprint (rq_binding row))).
    change (stringify (JString (rb_credentialGeneration (rq_binding row)))) with (stringify_string (rb_credentialGeneration (rq_binding row))).
    change (stringify (JString (rb_executionProfileHash (rq_binding row)))) with (stringify_string (rb_executionProfileHash (rq_binding row))).
    repeat match goal with |- context[Z.of_nat (length (chars ?s))] => let n := eval vm_compute in (Z.of_nat (length (chars s))) in change (Z.of_nat (length (chars s))) with n end.
    lia. }
  change (byteLength (stringify (JInt 1))) with 1. change (byteLength (stringify (JString PROFILE))) with 26.
  repeat match goal with |- context[Z.of_nat (length (chars ?s))] => let n := eval vm_compute in (Z.of_nat (length (chars s))) in change (Z.of_nat (length (chars s))) with n end.
  lia.
Qed.

Lemma safe_integer_ok z m : 0 <= z <= m → m <= MAX_SAFE_INTEGER → safe_integer z m = Ok z.
Proof.
  intros Hz Hm. unfold safe_integer. assert (isSafeInteger z = true) as -> by (apply isSafeInteger_true; lia). cbn [negb orb].
  destruct (Z.ltb_spec z 0); [lia|]. rewrite Z.gtb_ltb. destruct (Z.ltb_spec m z); [lia|done].
Qed.

(** What the planner puts in a request. *)
Lemma plan_request query b state attemptId now busy q : planScheduledRecovery query b state attemptId now busy = Ok q →
  let row := sq_recoverySchedule q in
  rq_version row = 1 ∧ rq_profile row = PROFILE ∧ rq_attemptId row = attemptId ∧ rq_revision row = rs_revision state ∧ rq_phase row = rs_phase state ∧
  rq_binding row = b ∧ rq_cooldownUntil row = rs_cooldown_until state ∧ length (rq_grants row) = 5%nat ∧ Forall (λ g, 0 <= gr_maxCalls g <= 5) (rq_grants row).
Proof.
  unfold planScheduledRecovery. intros H. apply bind_Ok in H as (logs & _ & H). apply bind_Ok in H as (fx & _ & H). injection H as <-.
  cbn [sq_recoverySchedule rq_version rq_profile rq_attemptId rq_revision rq_phase rq_binding rq_cooldownUntil rq_grants]. split_and!; try done.
  - unfold laneGrants, laneOrder. rewrite length_map. by repeat case_match.
  - unfold laneGrants. apply Forall_map, Forall_forall. intros lane _. cbn [gr_maxCalls]. case_match; [lia|]. unfold maximums. repeat case_match; lia.
Qed.

Lemma plan_header query b state attemptId now busy q : planScheduledRecovery query b state attemptId now busy = Ok q →
  is_uuid attemptId = true → binding b b = Ok tt → phase_lanes_ok (rs_phase state) → 0 <= rs_revision state <= MAX_SAFE_INTEGER →
  0 <= rs_cooldown_until state <= MAX_SAFE_INTEGER → header (sq_recoverySchedule q) b = Ok tt.
Proof.
  intros H Hid Hb Hph Hrev Hcd. apply plan_request in H as (E1 & E2 & E3 & E4 & E5 & E6 & E7 & E8 & E9). unfold header.
  assert (0 <= rs_phase state <= 3) as Hph' by (destruct Hph as [->|[->|[->| ->]]]; lia).
  pose proof (request_size (sq_recoverySchedule q) b) as Hsize. rewrite E1, E2, E3, E4, E5, E6, E7 in *.
  rewrite bool_decide_true, Hid by done. cbn [negb orb Z.eqb Pos.eqb].
  rewrite !safe_integer_ok by (unfold MAX_SAFE_INTEGER in *; lia). cbn [mbind result_bind]. rewrite Hb. cbn [mbind result_bind].
  rewrite Z.geb_leb. destruct (Z.leb_spec 8192 (byteLength (stringify (requestJson (sq_recoverySchedule q))))); [|done]. specialize (Hsize Hid eq_refl eq_refl Hrev Hph' Hcd Hb E8 E9). lia.
Qed.

Lemma plan_accepted query b state attemptId now busy :
  phase_lanes_ok (rs_phase state) → 0 <= rs_fx_rotation state <= 3 →
  (∀ l, rqy_accountLogs query = Some l → lc_accountFingerprint l = rb_accountFingerprint b ∧ lc_credentialGeneration l = rb_credentialGeneration b) →
  ∃ q, planScheduledRecovery query b state attemptId now busy = Ok q ∧
    0 <= granted q <= 5 ∧
    (is_Some (scheduleDeferredReason state now busy) → granted q = 0) ∧
    (∀ h, h ∈ rqy_history (sq_query q) → h ∈ rqy_history query ∧ hc_nextReadAt h <= now) ∧
    (0 <= rs_revision state <= MAX_SAFE_INTEGER → header (sq_recoverySchedule q) b = Ok tt →
       validateRecoveryScheduleInputs q b = Ok (sq_recoverySchedule q, sq_fxEvidence q)).
Proof.
  intros Hph Hrot Hlogs. destruct (rotationLegs_ok _ Hrot) as (legs & Hlegs & Hfx). unfold planScheduledRecovery.
  pose proof (nextHistory_due query (rs_history_after state) now) as Hdue.
  destruct state as [rev ph rot lf ha nd cd], query as [since orders mode logs hist]. cbn [rs_phase rs_fx_rotation rs_history_after rqy_accountLogs rs_revision] in *.
  set (hs := nextHistory _ ha now) in *. clearbody hs.
  destruct (scheduleDeferredReason _ now busy) as [d|].
  - destruct Hph as [-> |[-> |[-> | ->]]]; [| | |destruct lf]; (eexists; split; [reflexivity|]); cbn -[validateRecoveryScheduleInputs header];
      (split; [lia|]); (split; [done|]); (split; [by destruct hs; intros ? ?%not_elem_of_nil|]); intros Hrev Hh;
      destruct d, hs; accept_request Hrev Hh; reflexivity.
  - assert (¬ is_Some (@None RecoveryDeferredReason)) as Hno by (intros [? ?]; done).
    unfold laneGrants, laneDeferredReason, grantedFx. cbn [rs_fx_rotation]. rewrite Hlegs.
    set (lr := logsDeferredReason _ now). assert (lr = None → is_Some logs) as Hlr by (unfold lr, logsDeferredReason; cbn; by destruct logs).
    assert (∀ r, lr = Some r → r ≠ phase_deferred ∧ r ≠ cooldown) as Hlr2.
    { unfold lr, logsDeferredReason. cbn. destruct logs as [l|]; [destruct (_ >? _)|]; intros r [= <-]; by split. }
    clearbody lr.
    destruct lr as [[]|]; try (exfalso; by destruct (Hlr2 _ eq_refl)); try (destruct (Hlr eq_refl) as [l ->]);
    destruct Hph as [-> |[-> |[-> | ->]]]; [| | |destruct lf| | | |destruct lf| | | |destruct lf]; destruct orders as [|o orders], mode, hs as [h|].
    all: try (destruct logs as [l|]).
    all: (eexists; split; [vm_compute; reflexivity|]); (split; [vm_compute; split; discriminate|]); (split; [by intros ?%Hno|]).
    all: (split; [intros x Hx; first [by apply not_elem_of_nil in Hx|apply list_elem_of_singleton in Hx as ->; by apply Hdue]|]).
    all: intros Hrev Hh; accept_request Hrev Hh; cbn [mbind result_bind].
    all: erewrite sources_accepted; [|reflexivity|reflexivity|reflexivity|reflexivity|reflexivity| |reflexivity];
      [|intros l' El'; first [discriminate El'|injection El' as <-; by apply Hlogs]]; cbn [mbind result_bind];
      change (laneGrant _ lane_fx) with (Ok 3) || change (laneGrant _ lane_fx) with (Ok 0); cbn; rewrite ?Hfx; reflexivity.
Qed.

(** C25: every recovery plan is executable and bounded.  For a stored schedule
    state in its ranges, an attempt that is a UUID, an account binding of the
    form the contract asks for, and a query whose account logs belong to the
    account, the planner succeeds; its request names that attempt, revision,
    phase, binding and cooldown and passes the executor's whole contract
    (version, profile, identity, size, lanes, caps, reasons, sources and FX
    legs).  It grants at most five reads, none at all while cooling down, busy
    or not due, and reads only history that is due. *)
Theorem recovery_plan_accepted query b state attemptId now busy :
  phase_lanes_ok (rs_phase state) → 0 <= rs_fx_rotation state <= 3 → 0 <= rs_revision state <= MAX_SAFE_INTEGER →
  0 <= rs_cooldown_until state <= MAX_SAFE_INTEGER → is_uuid attemptId = true → binding b b = Ok tt →
  (∀ l, rqy_accountLogs query = Some l → lc_accountFingerprint l = rb_accountFingerprint b ∧ lc_credentialGeneration l = rb_credentialGeneration b) →
  ∃ q, planScheduledRecovery query b state attemptId now busy = Ok q ∧
    validateRecoveryScheduleInputs q b = Ok (sq_recoverySchedule q, sq_fxEvidence q) ∧
    rq_attemptId (sq_recoverySchedule q) = attemptId ∧ rq_revision (sq_recoverySchedule q) = rs_revision state ∧
    rq_phase (sq_recoverySchedule q) = rs_phase state ∧ rq_binding (sq_recoverySchedule q) = b ∧
    rq_cooldownUntil (sq_recoverySchedule q) = rs_cooldown_until state ∧
    0 <= granted q <= 5 ∧
    (is_Some (scheduleDeferredReason state now busy) → granted q = 0) ∧
    (∀ h, h ∈ rqy_history (sq_query q) → h ∈ rqy_history query ∧ hc_nextReadAt h <= now).
Proof.
  intros Hph Hrot Hrev Hcd Hid Hb Hlogs. destruct (plan_accepted query b state attemptId now busy Hph Hrot Hlogs) as (q & Hq & Hg & Hd & Hh & Hv).
  exists q. pose proof (plan_header _ _ _ _ _ _ _ Hq Hid Hb Hph Hrev Hcd) as Hhead. apply plan_request in Hq as Hrow.
  destruct Hrow as (_ & _ & E3 & E4 & E5 & E6 & E7 & _). split_and!; try done; [by apply Hv|apply Hg|apply Hg].
Qed.

Definition binding_example : RecoveryScheduleBinding := mkBinding "acc" hash_example hash_example "live" hash_example.
Definition schedule_example : RecoveryScheduleState := mkScheduleState 7 1 2 true None 1000 0.
Definition query_example : ExchangeRecoveryQuery :=
  mkQuery 0 ["o1"] true (Some (mkLogCheckpoint hash_example hash_example 900)) [mkCheckpoint "fills" (Some "BTC/USDC") 5000; mkCheckpoint "orders" None 800].

Lemma recovery_plan_accepted_witness :
  ∃ q, planScheduledRecovery query_example binding_example schedule_example "01234567-89ab-cdef-0123-456789abcdef" 2000 false = Ok q ∧
    granted q = 5 ∧ map hc_source (rqy_history (sq_query q)) = ["orders"] ∧
    validateRecoveryScheduleInputs q binding_example = Ok (sq_recoverySchedule q, sq_fxEvidence q).
Proof.
  assert (phase_lanes_ok (rs_phase schedule_example)) as Hp by (right; left; reflexivity).
  assert (0 <= rs_fx_rotation schedule_example <= 3) as Hr by (vm_compute; split; discriminate).
  assert (0 <= rs_revision schedule_example <= MAX_SAFE_INTEGER) as Hn by (vm_compute; split; discriminate).
  assert (0 <= rs_cooldown_until schedule_example <= MAX_SAFE_INTEGER) as Hc by (vm_compute; split; discriminate).
  assert (∀ l, rqy_accountLogs query_example = Some l → lc_accountFingerprint l = rb_accountFingerprint binding_example ∧
            lc_credentialGeneration l = rb_credentialGeneration binding_example) as Hl by (intros l E; injection E as <-; split; reflexivity).
  destruct (recovery_plan_accepted query_example binding_example schedule_example "01234567-89ab-cdef-0123-456789abcdef" 2000 false Hp Hr Hn Hc
    ltac:(vm_compute; reflexivity) ltac:(vm_compute; reflexivity) Hl) as (q & Hq & Hv & _).
  exists q. split; [exact Hq|]. vm_compute in Hq. injection Hq as <-. split; [vm_compute; reflexivity|]. split; [vm_compute; reflexivity|]. exact Hv.
Defined.
