(* ===== verification/Admission.v ===== *)
(** Admission: [src/trading_leverage_admission.ts], the last check of a plan
    against fresh leverage evidence before an entry is submitted.

    [assertTierEvidence] accepts a market's tier evidence for one account;
    [assertPlanTierDecision] re-proves the plan's recorded tier decision against
    it; [assertLocalTierScope] refuses a symbol with any other local commitment.
    [sha256] is the digest of [node:crypto], [now] is [Date.now()], and the
    query of [assertLocalTierScope] is evaluated over the rows of its tables. *)

From S2P Require Import Prelude Text Decimal Rational Money Types Json Fx FxSizing Tiers Risk Orders.
From Stdlib Require Import QArith.
Local Open Scope Z_scope.

(** The fields of [TradingAccount] that the modelled code reads; [capabilities] is an
    open record of untyped values. *)
Record TradingAccount := mkAccount {
  ac_id : string;
  ac_exchange : string;
  ac_mode : TradingAccountMode;
  ac_externalAccountId : option string;
  ac_credentialGeneration : option string;
  ac_capabilities : option (list (string * jsval)) }.

Definition SOURCES (exchange : string) : option string :=
  if bool_decide (exchange = "bybit") then Some "bybit_v5_risk_limit_mark_authenticated_scope_v1"
  else if bool_decide (exchange = "hyperliquid") then Some "hyperliquid_meta_asset_context_bound_scope_v1"
  else if bool_decide (exchange = "krakenfutures") then Some "kraken_authenticated_trading_instruments_mark_scope_v1"
  else if bool_decide (exchange = "paper") then Some "paper_simulated_complete_tiers_v1"
  else None.

Definition requireEvidence (condition : bool) (m : string) : result unit := require condition (mkError TIERS_UNPROVEN m).

(** [account.capabilities?.executionProfileHash], when it is a string. *)
Definition executionProfileHash (account : TradingAccount) : option string :=
  match ac_capabilities account with
  | Some fields => match assoc "executionProfileHash" fields with JString s => Some s | _ => None end
  | None => None
  end.

Definition assertTierBinding (account : TradingAccount) (value : TradingLeverageTierEvidence) : result unit :=
  let paper := bool_decide (ac_exchange account = "paper") in
  _ ← requireEvidence
        (bool_decide (Some (te_accountFingerprint value) = (if paper then Some (ac_id account) else ac_externalAccountId account))
         && bool_decide (Some (te_credentialGeneration value) = (if paper then Some "paper" else ac_credentialGeneration account)))
        "Tier account/credential binding changed.";
  _ ← requireEvidence
        (bool_decide (Some (te_source value) = SOURCES (ac_exchange account))
         && bool_decide (te_ccxtVersion value = (if paper then "paper" else "4.5.75"))
         && bool_decide (Some (te_profileHash value) = (if paper then Some "paper-v1" else executionProfileHash account)))
        "Tier implementation profile changed.";
  if paper then Ok tt
  else requireEvidence (forallb hex64 [te_profileHash value; te_accountFingerprint value; te_credentialGeneration value])
         "Tier binding is incomplete.".

Definition assertTierFresh (value : TradingLeverageTierEvidence) (now : Z) : result unit :=
  requireEvidence (isSafeInteger (te_observedAt value) && isSafeInteger (te_expiresAt value)
    && (now >=? te_observedAt value) && (now <? te_expiresAt value) && (te_expiresAt value - te_observedAt value =? 10000))
    "Tier evidence expired.".

Definition assertTierUnits (market : TradingMarketSnapshot) (value : TradingLeverageTierEvidence) : result unit :=
  let length := length (chars (te_providerSymbol value)) in
  _ ← requireEvidence ((0 <? length)%nat && (length <=? 100)%nat && bool_decide (te_currency value ∈ ["USD"; "USDT"; "USDC"]))
        "Tier units are not proven.";
  _ ← match mk_accounting market with
      | None => Ok tt
      | Some accounting =>
          requireEvidence (bool_decide (ma_providerSymbol accounting = te_providerSymbol value)
            && bool_decide (ma_settlementAsset accounting = te_currency value)) "Tier and accounting contracts disagree."
      end;
  valid ← (if bool_decide (te_markPrice value = mk_markPrice market)
           then size ← decimal (te_contractSize value) true None; Ok (bool_decide (size = te_contractSize value))
           else Ok false);
  requireEvidence valid "Tier mark or contract size is invalid.".

Definition scope_empty (scope : option TierScope) : bool :=
  match scope with
  | Some s => sc_complete s && bool_decide (sc_positionQuantity s = "0") && (sc_openOrderCount s =? 0)
  | None => false
  end.

Definition assertTierEvidence (account : TradingAccount) (symbol : string) (market : TradingMarketSnapshot) (now : Z)
    : result TradingLeverageTierEvidence :=
  let missing := "Tier account/symbol evidence is missing." in
  match mk_leverageTiers market with
  | None => throw_code TIERS_UNPROVEN missing
  | Some value =>
      _ ← requireEvidence ((te_version value =? 1) && bool_decide (te_exchange value = ac_exchange account)
            && bool_decide (te_symbol value = symbol)) missing;
      _ ← assertTierBinding account value;
      _ ← assertTierFresh value now;
      _ ← assertTierUnits market value;
      _ ← requireEvidence (scope_empty (te_scope value)) "Existing or unknown actual tier scope blocks scale-in.";
      _ ← try_catch (validateTierTable (te_tiers value))
            (λ _, throw_code TIERS_UNPROVEN "Complete consistent leverage tiers are required.");
      match te_tiers value with
      | [] => throw_code TIERS_UNPROVEN "Display maximum conflicts with actual tiers."
      | firstTier :: _ =>
          _ ← requireEvidence (lt_maxLeverage firstTier =? mk_maxLeverage market) "Display maximum conflicts with actual tiers.";
          Ok value
      end
  end.

Definition assertCurrentPlanTier (value : TradingLeverageTierEvidence) (plan : TradingPlan) (decision : TradingLeverageTierDecision)
    : result unit :=
  index ← try_catch (tierForQuantity (te_tiers value) (pl_quantity plan) (te_markPrice value))
            (λ _, throw_code TIERS_UNPROVEN "Current notional is outside proven tiers.");
  requireEvidence ((index =? td_tierIndex decision)
    && match te_tiers value !! Z.to_nat index with Some tier => pl_leverage plan <=? lt_maxLeverage tier | None => false end)
    "Current mark changed the original leverage tier.".

Section Admission.
Context (sha256 : string → string).

Definition assertPlanTierDecision (account : TradingAccount) (plan : TradingPlan) (market : TradingMarketSnapshot) (now : Z)
    : result unit :=
  let exceeds := "Current valuation exceeds the original margin/notional budget." in
  value ← assertTierEvidence account (pl_symbol plan) market now;
  match pl_leverageTierDecision plan with
  | None => throw_code TIERS_UNPROVEN "Original tier table or contract changed."
  | Some decision =>
      _ ← requireEvidence (((td_version decision =? 1) || (td_version decision =? 2))
            && bool_decide (td_evidenceHash decision = tierEvidenceHash sha256 value)
            && bool_decide (td_contractSize decision = te_contractSize value)
            && bool_decide (td_providerSymbol decision = te_providerSymbol value))
            "Original tier table or contract changed.";
      _ ← requireEvidence (bool_decide (td_quantity decision = pl_quantity plan) && (td_leverage decision =? pl_leverage plan))
            "Original tier sizing changed.";
      _ ← assertCurrentPlanTier value plan decision;
      match snd <$> list_find (λ order, po_role order = role_entry) (pl_orders plan) with
      | None => throw_code TIERS_UNPROVEN "Entry quantity changed after tier planning."
      | Some entry =>
          _ ← requireEvidence (bool_decide (po_quantity entry = pl_quantity plan)) "Entry quantity changed after tier planning.";
          _ ← (if td_version decision =? 2
               then requireEvidence (bool_decide (fz_notionalCurrency <$> pl_fxSizing plan = Some (te_currency value)))
                      "Tier FX budget lacks the original sizing context."
               else Ok tt);
          match truthy (po_price entry) with
          | None => throw_code TIERS_UNPROVEN exceeds
          | Some price =>
              try_catch (assertTierDecisionBudget decision (te_currency value) (pl_quantity plan) (te_markPrice value) price)
                (λ _, throw_code TIERS_UNPROVEN exceeds)
          end
      end
  end.
End Admission.

(** ** The local scope query

    Rows carry the columns the query reads; a NULL [provider_symbol] equals no
    text. *)
Record PositionRow := mkPositionRow {
  pr_account_id : string; pr_intent_id : string; pr_symbol : string; pr_status : string; pr_quantity : string }.

Record OrderRow := mkOrderRow {
  or_account_id : string; or_intent_id : string; or_role : string; or_reduce_only : Z;
  or_provider_symbol : option string; or_status : string; or_quantity : string }.

Record IntentRow := mkIntentRow { ir_id : string; ir_symbol : string }.

Definition LIVE_ENTRY_STATES : list string := ["created"; "submitting"; "open"; "partially_filled"; "cancel_pending"; "unknown"].

Section Scope.
Context (positions : list PositionRow) (orders : list OrderRow) (intents : list IntentRow).
Context (accountId intentId symbol providerSymbol : string).

Definition other_position (p : PositionRow) : bool :=
  bool_decide (pr_account_id p = accountId) && negb (bool_decide (pr_intent_id p = intentId))
  && bool_decide (pr_symbol p = symbol) && negb (bool_decide (pr_status p = "closed")).

(** The [ON] and [WHERE] conditions of an order joined with an intent. *)
Definition other_entry (o : OrderRow) (i : IntentRow) : bool :=
  bool_decide (ir_id i = or_intent_id o) && bool_decide (or_account_id o = accountId)
  && negb (bool_decide (or_intent_id o = intentId)) && bool_decide (or_role o = "entry") && (or_reduce_only o =? 0)
  && (bool_decide (ir_symbol i = symbol) || bool_decide (or_provider_symbol o = Some providerSymbol))
  && bool_decide (or_status o ∈ LIVE_ENTRY_STATES).

Definition localScopeRows : list (string * string) :=
  map (λ p, (pr_quantity p, pr_status p)) (filter (λ p, Is_true (other_position p)) positions)
  ++ flat_map (λ o, map (λ _, (or_quantity o, or_status o)) (filter (λ i, Is_true (other_entry o i)) intents)) orders.

Definition assertLocalTierScope : result unit :=
  requireEvidence (length localScopeRows =? 0)%nat "Existing local position or entry reservation blocks tier scope.".
End Scope.

(** ** What the checks establish *)
Lemma requireEvidence_Ok b m u : requireEvidence b m = Ok u ↔ b = true.
Proof. apply require_Ok. Qed.

Lemma and_iff (A B C D : Prop) : (A ↔ C) → (B ↔ D) → A ∧ B ↔ C ∧ D.
Proof. tauto. Qed.

Lemma try_catch_Ok {A} (r : result A) c m a : try_catch r (λ _, throw_code c m) = Ok a ↔ r = Ok a.
Proof. destruct r; cbn; split; intros H; done. Qed.

Lemma assertTierFresh_Ok v now u : assertTierFresh v now = Ok u →
  te_observedAt v <= now < te_expiresAt v ∧ te_expiresAt v = te_observedAt v + 10000.
Proof.
  unfold assertTierFresh. rewrite requireEvidence_Ok, !andb_true_iff, Z.geb_leb, Z.leb_le, Z.ltb_lt, Z.eqb_eq. lia.
Qed.

Lemma scope_empty_true s : scope_empty s = true → s = Some (mkTierScope true "0" 0).
Proof.
  unfold scope_empty. destruct s as [[c q n]|]; [|done]. cbn [sc_complete sc_positionQuantity sc_openOrderCount].
  rewrite !andb_true_iff, bool_decide_eq_true, Z.eqb_eq. by intros ((-> & ->) & ->).
Qed.

(** The evidence belongs to the account: the paper simulator's own, or one
    bound to the verified exchange account, credentials and profile. *)
Definition bound_to (account : TradingAccount) (v : TradingLeverageTierEvidence) : Prop :=
  te_exchange v = ac_exchange account ∧ SOURCES (ac_exchange account) = Some (te_source v) ∧
  if decide (ac_exchange account = "paper")
  then te_accountFingerprint v = ac_id account ∧ te_credentialGeneration v = "paper"
  else ac_externalAccountId account = Some (te_accountFingerprint v) ∧
       ac_credentialGeneration account = Some (te_credentialGeneration v) ∧
       executionProfileHash account = Some (te_profileHash v) ∧ hex64 (te_accountFingerprint v) = true.

Lemma assertTierBinding_Ok account v u : te_exchange v = ac_exchange account → assertTierBinding account v = Ok u → bound_to account v.
Proof.
  unfold assertTierBinding, bound_to. intros He H. apply bind_Ok in H as ([] & H1 & H). apply bind_Ok in H as ([] & H2 & H).
  rewrite requireEvidence_Ok, !andb_true_iff in H1. rewrite requireEvidence_Ok, !andb_true_iff in H2. destruct H1 as [H1 H1']. destruct H2 as ((H2 & _) & H2').
  apply bool_decide_eq_true in H1, H1', H2, H2'. split; [done|]. split; [done|].
  destruct (decide (ac_exchange account = "paper")) as [Ep|Ep].
  - rewrite (bool_decide_true _ Ep) in H1, H1'. by injection H1; injection H1'.
  - rewrite (bool_decide_false _ Ep) in H, H1, H1', H2'. rewrite requireEvidence_Ok in H. cbn [forallb] in H.
    rewrite !andb_true_iff in H. by destruct H as (_ & Hf & _).
Qed.

(** What accepted evidence guarantees. *)
Record accepted (account : TradingAccount) (symbol : string) (market : TradingMarketSnapshot) (now : Z)
    (v : TradingLeverageTierEvidence) : Prop := mkAccepted {
  acc_given : mk_leverageTiers market = Some v;
  acc_symbol : te_symbol v = symbol;
  acc_bound : bound_to account v;
  acc_fresh : te_observedAt v <= now < te_observedAt v + 10000;
  acc_mark : te_markPrice v = mk_markPrice market;
  acc_scope : te_scope v = Some (mkTierScope true "0" 0);
  acc_tiers : validateTierTable (te_tiers v) = Ok tt }.

Lemma assertTierUnits_Ok market v u : assertTierUnits market v = Ok u → te_markPrice v = mk_markPrice market.
Proof.
  unfold assertTierUnits. intros H. apply bind_Ok in H as ([] & _ & H). apply bind_Ok in H as ([] & _ & H).
  apply bind_Ok in H as (b & Hb & H). rewrite requireEvidence_Ok in H. subst b.
  destruct (bool_decide _) eqn:E; [by apply bool_decide_eq_true in E|by injection Hb].
Qed.

Lemma assertTierEvidence_Ok account symbol market now v : assertTierEvidence account symbol market now = Ok v →
  accepted account symbol market now v.
Proof.
  unfold assertTierEvidence. intros H. destruct (mk_leverageTiers market) as [w|] eqn:Ew; [|done].
  apply bind_Ok in H as ([] & H1 & H). apply bind_Ok in H as ([] & H2 & H). apply bind_Ok in H as ([] & H3 & H).
  apply bind_Ok in H as ([] & H4 & H). apply bind_Ok in H as ([] & H5 & H). apply bind_Ok in H as ([] & H6 & H).
  destruct (te_tiers w) as [|f r] eqn:Et; [done|]. apply bind_Ok in H as ([] & H7 & H). injection H as <-.
  rewrite requireEvidence_Ok, !andb_true_iff, !bool_decide_eq_true in H1. destruct H1 as ((_ & He) & Hs).
  rewrite try_catch_Ok in H6. apply assertTierFresh_Ok in H3. rewrite requireEvidence_Ok in H5.
  constructor; [done|done|by eapply assertTierBinding_Ok|lia|by eapply assertTierUnits_Ok|by apply scope_empty_true|by rewrite Et].
Qed.

(** The current tier of an admitted plan is the recorded one and permits its leverage. *)
Lemma assertCurrentPlanTier_Ok v plan d u : validateTierTable (te_tiers v) = Ok tt → assertCurrentPlanTier v plan d = Ok u →
  ∃ q m n t, units (trim (pl_quantity plan)) = Some q ∧ units (trim (te_markPrice v)) = Some m ∧ 0 < q ∧ 0 < m ∧
    td_tierIndex d = Z.of_nat n ∧ te_tiers v !! n = Some t ∧ pl_leverage plan <= lt_maxLeverage t ∧
    ∀ n' t', te_tiers v !! n' = Some t' → in_tier (q * m) t' = Ok (bool_decide (n' = n)).
Proof.
  intros [Hok _]%validateTierTable_inv H. unfold assertCurrentPlanTier in H. apply bind_Ok in H as (k & Hk & H).
  rewrite try_catch_Ok in Hk. apply bind_Ok in Hk as (k' & Hf & Hk). apply bind_Ok in Hk as ([] & Hk0 & Hk). injection Hk as ->.
  rewrite requireTier_Ok, Z.geb_leb, Z.leb_le in Hk0. rewrite requireEvidence_Ok, andb_true_iff, Z.eqb_eq in H.
  destruct H as [Hd H]. destruct (te_tiers v !! Z.to_nat k) as [t|] eqn:Et; [|done]. apply Z.leb_le in H.
  apply findTierForQuantity_inv in Hf as (q & m & Hq & Hm & Hqp & Hmp & _ & Hall); [|done].
  exists q, m, (Z.to_nat k), t. split_and!; try done; [lia|].
  intros n' t' Hn. rewrite (Hall _ _ Hn). do 2 f_equal. apply bool_decide_ext. lia.
Qed.

Lemma localScopeRows_nil positions orders intents accountId intentId symbol providerSymbol :
  assertLocalTierScope positions orders intents accountId intentId symbol providerSymbol = Ok tt ↔
  (∀ p, p ∈ positions → other_position accountId intentId symbol p = false) ∧
  (∀ o i, o ∈ orders → i ∈ intents → other_entry accountId intentId symbol providerSymbol o i = false).
Proof.
  unfold assertLocalTierScope. rewrite requireEvidence_Ok, Nat.eqb_eq. unfold localScopeRows.
  rewrite length_app, length_map. split.
  - intros H. split.
    + intros p Hp. apply not_true_is_false. intros E.
      assert (p ∈ filter (λ p, Is_true (other_position accountId intentId symbol p)) positions) as Hin
        by (apply list_elem_of_filter; split; [by apply Is_true_true|done]).
      destruct (filter _ positions); [by apply elem_of_nil in Hin|cbn in H; lia].
    + intros o i Ho Hi. apply not_true_is_false. intros E. apply Nat.eq_add_0 in H as [_ H]. apply length_zero_iff_nil in H.
      assert ((or_quantity o, or_status o) ∈ ([] : list (string * string))) as Hin; [|by apply elem_of_nil in Hin].
      rewrite <-H. apply list_elem_of_In, in_flat_map. exists o. split; [by apply list_elem_of_In|].
      apply in_map_iff. exists i. split; [done|]. apply list_elem_of_In, list_elem_of_filter. split; [by apply Is_true_true|done].
  - intros [Hp Ho]. apply Nat.eq_add_0. split.
    + destruct (filter _ positions) as [|p l] eqn:E; [done|exfalso].
      assert (p ∈ p :: l) as Hin by by left. rewrite <-E in Hin. apply list_elem_of_filter in Hin as [Hx Hin].
      by rewrite (Hp p Hin) in Hx.
    + apply length_zero_iff_nil. destruct (flat_map _ orders) as [|x l] eqn:E; [done|exfalso].
      assert (In x (x :: l)) as Hin by by left. rewrite <-E in Hin. apply in_flat_map in Hin as (o & Hin & Hx).
      apply in_map_iff in Hx as (i & _ & Hx). apply list_elem_of_In, list_elem_of_filter in Hx as [Hx Hi].
      apply list_elem_of_In in Hin. by rewrite (Ho o i Hin Hi) in Hx.
Qed.

(** The decision budget holds at the higher of the current mark and the entry price. *)
Definition within_budget (plan : TradingPlan) (market : TradingMarketSnapshot) (d : TradingLeverageTierDecision) (entry : PlannedOrder) : Prop :=
  ∃ price q m e x, po_price entry = Some price ∧ po_quantity entry = pl_quantity plan ∧
    units (trim (pl_quantity plan)) = Some q ∧ units (mk_markPrice market) = Some m ∧ units price = Some e ∧
    decision_budget d x ∧ (qdec q * qdec (Z.max m e) <= x)%Q.

Lemma truthy_Some o s : truthy o = Some s → o = Some s.
Proof. unfold truthy. destruct o as [t|]; [|done]. by destruct (bool_decide _). Qed.

(** ** Properties *)

(** C3: an admitted plan is safe at the current market.  The tier evidence is the
    market's own, bound to the account (exchange, fingerprint, credentials,
    profile), younger than ten seconds, with no position or order in scope; it
    hashes to the evidence the plan was sized with.  The current notional lies
    in exactly one tier, the recorded one, whose maximum permits the plan's
    leverage; and the entry order, for the whole planned quantity, stays within
    the recorded budget at the higher of mark and entry price. *)
Theorem plan_admission_safe sha256 account plan market now : assertPlanTierDecision sha256 account plan market now = Ok tt →
  ∃ v d entry q m n t, accepted account (pl_symbol plan) market now v ∧
    pl_leverageTierDecision plan = Some d ∧ td_evidenceHash d = tierEvidenceHash sha256 v ∧
    td_quantity d = pl_quantity plan ∧ td_leverage d = pl_leverage plan ∧
    (entry ∈ pl_orders plan ∧ po_role entry = role_entry ∧ within_budget plan market d entry) ∧
    units (trim (pl_quantity plan)) = Some q ∧ units (trim (mk_markPrice market)) = Some m ∧
    td_tierIndex d = Z.of_nat n ∧ te_tiers v !! n = Some t ∧ pl_leverage plan <= lt_maxLeverage t ∧
    ∀ n' t', te_tiers v !! n' = Some t' → in_tier (q * m) t' = Ok (bool_decide (n' = n)).
Proof.
  unfold assertPlanTierDecision. intros H. apply bind_Ok in H as (v & Hv & H). apply assertTierEvidence_Ok in Hv.
  destruct (pl_leverageTierDecision plan) as [d|]; [|done].
  apply bind_Ok in H as ([] & H1 & H). apply bind_Ok in H as ([] & H2 & H). apply bind_Ok in H as ([] & H3 & H).
  destruct (list_find _ (pl_orders plan)) as [[i entry]|] eqn:Ef; [|done]. cbn [fmap option_fmap option_map snd] in H.
  apply bind_Ok in H as ([] & H4 & H). apply bind_Ok in H as ([] & _ & H).
  destruct (truthy (po_price entry)) as [price|] eqn:Ep; [|done]. apply truthy_Some in Ep. rewrite try_catch_Ok in H.
  rewrite requireEvidence_Ok, !andb_true_iff, !bool_decide_eq_true in H1. destruct H1 as (((_ & Hh) & _) & _).
  rewrite requireEvidence_Ok, andb_true_iff, bool_decide_eq_true, Z.eqb_eq in H2. destruct H2 as [Hq Hl].
  rewrite requireEvidence_Ok, bool_decide_eq_true in H4.
  apply assertCurrentPlanTier_Ok in H3 as (q & m & n & t & Hqu & Hm & _ & _ & Hn & Ht & Hmax & Hall); [|by eapply acc_tiers].
  rewrite (acc_mark _ _ _ _ _ Hv) in Hm, H. apply list_find_Some in Ef as (Hi & Hrole & _).
  exists v, d, entry, q, m, n, t. split_and!; try done; [by eapply list_elem_of_lookup_2|].
  apply assertTierDecisionBudget_inv in H as (a & p & x & hp & Ha & Hp & Hpp & Hb & Hle).
  destruct (higherPrice_inv _ _ _ Hp) as (pm & pe & Hpm & Hpe & Hpr & _). rewrite (units_trim _ _ Hpr), Hpr in Hpp. injection Hpp as <-.
  by exists price, a, pm, pe, x.
Qed.

(** The paper account of the example plan, and its market with the simulator's evidence. *)
Definition paper_account : TradingAccount := mkAccount "a" "paper" mode_paper None None None.

Definition paper_market : TradingMarketSnapshot :=
  mkMarket "BTCUSDT" "100" "0.5" "0.01" "0.01" "5" 20 0 None
    (Some (mkTierEvidence 1 "paper" "BTCUSDT" "BTCUSDT" "a" "paper" "paper" "paper-v1" "paper_simulated_complete_tiers_v1"
             "USDT" "1" "100" 1000 11000 (Some (mkTierScope true "0" 0)) tiers_example)).

(** The plan created for that market is admitted against it. *)
Lemma plan_admission_safe_witness : ∃ plan d,
  createTradingPlan (λ s, s) 0
    (mkPlanInput "intent-1" signal_example strategy_example native_account paper_market None None None None None (Some 1000)) = Ok plan ∧
  assertPlanTierDecision (λ s, s) paper_account plan paper_market 2000 = Ok tt ∧
  pl_leverageTierDecision plan = Some d ∧ td_tierIndex d = 0.
Proof.
  assert (∃ plan d, createTradingPlan (λ s, s) 0
    (mkPlanInput "intent-1" signal_example strategy_example native_account paper_market None None None None None (Some 1000)) = Ok plan ∧
    assertPlanTierDecision (λ s, s) paper_account plan paper_market 2000 = Ok tt ∧ pl_leverageTierDecision plan = Some d ∧
    td_tierIndex d = 0) as (plan & d & Hc & Ha & Hd & Hi).
  { eexists _, _. split; [vm_compute; reflexivity|]. split; [vm_compute; reflexivity|]. split; vm_compute; reflexivity. }
  destruct (plan_admission_safe _ _ _ _ _ Ha) as (v & d' & entry & q & m & n & t & _ & Hd' & _).
  exists plan, d. split; [exact Hc|]. split; [exact Ha|]. split; [exact Hd|exact Hi].
Defined.

(** The order states the table admits. *)
Definition ORDER_STATES : list string := LIVE_ENTRY_STATES ++ ["filled"; "cancelled"; "rejected"].

Lemma live_or_terminal status : status ∈ ORDER_STATES →
  bool_decide (status ∈ LIVE_ENTRY_STATES) = false ↔ entryCommitmentReason status false = None.
Proof.
  unfold ORDER_STATES. cbn [app LIVE_ENTRY_STATES]. intros H.
  repeat (apply elem_of_cons in H as [->|H]; [vm_compute; split; congruence|]). by apply elem_of_nil in H.
Qed.

(** The local scope is exclusive, exactly.  With every order in a state of
    the table and every order's intent present once, the check passes if and
    only if each other position of the account in the symbol is closed and each
    other opening entry order of the account, on the symbol or on the
    provider's symbol, is free of any commitment by the rule of
    [entryCommitmentReason]. *)
Theorem local_scope_exclusive positions orders intents accountId intentId symbol providerSymbol :
  (∀ o, o ∈ orders → or_status o ∈ ORDER_STATES) →
  assertLocalTierScope positions orders intents accountId intentId symbol providerSymbol = Ok tt ↔
  (∀ p, p ∈ positions → pr_account_id p = accountId → pr_intent_id p ≠ intentId → pr_symbol p = symbol → pr_status p = "closed") ∧
  (∀ o i, o ∈ orders → i ∈ intents → ir_id i = or_intent_id o → or_account_id o = accountId → or_intent_id o ≠ intentId →
    or_role o = "entry" → or_reduce_only o = 0 → ir_symbol i = symbol ∨ or_provider_symbol o = Some providerSymbol →
    entryCommitmentReason (or_status o) false = None).
Proof.
  intros Hst. rewrite localScopeRows_nil. apply and_iff.
  - apply forall_proper. intros p. apply forall_proper. intros _. unfold other_position.
    rewrite !andb_false_iff, !negb_false_iff, !bool_decide_eq_false, !bool_decide_eq_true.
    destruct (decide (pr_account_id p = accountId)), (decide (pr_intent_id p = intentId)), (decide (pr_symbol p = symbol)); tauto.
  - split; intros H o i Ho Hi; specialize (H o i Ho Hi); pose proof (live_or_terminal _ (Hst o Ho)) as Hl; unfold other_entry in *.
    + intros E1 E2 E3 E4 E5 E6. apply Hl.
      rewrite !andb_false_iff, !orb_false_iff, negb_false_iff, !bool_decide_eq_false, bool_decide_eq_true, Z.eqb_neq in H.
      apply bool_decide_eq_false. naive_solver.
    + apply not_true_is_false. rewrite !andb_true_iff, orb_true_iff, negb_true_iff, !bool_decide_eq_true, bool_decide_eq_false, Z.eqb_eq.
      intros ((((((E1 & E2) & E3) & E4) & E5) & E6) & E7).
      specialize (H E1 E2 E3 E4 E5 E6). apply Hl, bool_decide_eq_false in H. done.
Qed.
