(* ===== verification/History.v ===== *)
(** History: the paged traversal of an exchange's order and fill history,
    [src/exchange_history_contract.ts] and [src/exchange_history_coverage.ts].

    A checkpoint is the durable state of one traversal; the executor returns a
    progress record per requested checkpoint, which is validated as an untyped
    value and then against the checkpoint it continues.  [coverage] claims a
    contiguous range of fills, [retention] is the bounded probe of
    Hyperliquid's total retention.  [now] is [Date.now()].  A property that may
    be absent or null is an [option (option _)]: [None] is absent, [Some None]
    is null. *)

From S2P Require Import Prelude Text Json Fx.
From Stdlib Require Import Ascii.
From Stdlib Require String.
Local Open Scope Z_scope.

(** ** Data *)
Record ExchangeHistoryCoverage := mkCoverage { cov_profile : string; cov_since : Z; cov_through : Z }.

Record RetentionAnchor := mkAnchor { an_coin : string; an_tid : string; an_time : Z; an_payloadHash : string }.

Record ExchangeHistoryRetention := mkRetention {
  rt_phase : string;
  rt_originalSince : Z;
  rt_originalUntil : Z;
  rt_startedAt : Z;
  rt_fixedUntil : option Z;
  rt_cursor : Z;
  rt_count : Z;
  rt_anchor : option RetentionAnchor;
  rt_validatedAt : option Z }.

Record ExchangeHistoryCheckpoint := mkHistory {
  hk_source : string;
  hk_providerSymbol : option string;
  hk_revision : Z;
  hk_baselineSince : Z;
  hk_windowSince : Z;
  hk_windowUntil : option Z;
  hk_cursor : option string;
  hk_scannedThrough : option Z;
  hk_nextReadAt : Z;
  hk_completeness : string;
  hk_reason : option string;
  hk_providerAccountUid : option (option string);
  hk_coverage : option (option ExchangeHistoryCoverage);
  hk_retention : option (option ExchangeHistoryRetention) }.

Record ExchangeHistoryProgress := mkProgress { pg_baseRevision : Z; pg_pages : Z; pg_checkpoint : ExchangeHistoryCheckpoint }.

#[export] Instance RetentionAnchor_eq_dec : EqDecision RetentionAnchor.
Proof. solve_decision. Defined.
#[export] Instance ExchangeHistoryRetention_eq_dec : EqDecision ExchangeHistoryRetention.
Proof. solve_decision. Defined.

(** ** Scalars *)

Definition object (value : jsval) : result (list (string * jsval)) :=
  match value with JObject fields => Ok fields | _ => throw "Invalid history checkpoint object." end.

Definition integer (value : jsval) : result Z :=
  match value with
  | JInt z => if isSafeInteger z && (0 <=? z) then Ok z else throw "Invalid history checkpoint number."
  | _ => throw "Invalid history checkpoint number."
  end.

(** [row.x === null ? null : integer(row.x)] *)
Definition nullable_integer (value : jsval) : result (option Z) :=
  match value with JNull => Ok None | _ => Some <$> integer value end.

Definition is_control (c : Ascii.ascii) : bool := (Ascii.nat_of_ascii c <? 32)%nat.

Definition token_text (maximum : nat) (s : string) : bool :=
  negb (bool_decide (s = "")) && (length (chars s) <=? maximum)%nat && negb (existsb is_control (chars s)).

Definition token (value : jsval) (maximum : nat) : result (option string) :=
  match value with
  | JNull => Ok None
  | JString s => if token_text maximum s then Ok (Some s) else throw "Invalid history checkpoint token."
  | _ => throw "Invalid history checkpoint token."
  end.

(** ** Coverage of one checkpoint *)
Definition KRAKEN_PROFILE : string := "kraken_v3_executions_v1".
Definition HYPERLIQUID_PROFILE : string := "hyperliquid_retained_fills_v1".

Definition PROFILES : list (string * string) :=
  [("bybit", "bybit_v5_linear_endpoint_v1"); ("krakenfutures", KRAKEN_PROFILE); ("hyperliquid", HYPERLIQUID_PROFILE)].

Definition profile_of (exchange : string) : option string :=
  (λ kv, snd (snd kv)) <$> list_find (λ kv, kv.1 = exchange) PROFILES.

Definition validateHistoryCoverage (value : jsval) (state : ExchangeHistoryCheckpoint) : result (option ExchangeHistoryCoverage) :=
  let invalid := throw "Invalid historical coverage interval or profile." in
  match value with
  | JNull => Ok None
  | JObject row =>
      match assoc "version" row, isStringMember (assoc "profile" row) (map snd PROFILES), assoc "since" row, assoc "through" row, hk_scannedThrough state with
      | JInt version, Some profile, JInt since, JInt through, Some scanned =>
          if (version =? 1) && bool_decide (hk_source state = "fills") && isSafeInteger since && isSafeInteger through
             && (since =? hk_baselineSince state) && (since <=? through) && (through <=? scanned)
          then Ok (Some (mkCoverage profile since through)) else invalid
      | _, _, _, _, _ => invalid
      end
  | _ => throw "Invalid historical coverage object."
  end.

(** ** Retention probes *)
Definition RETENTION_FIELDS : list string :=
  ["version"; "phase"; "originalSince"; "originalUntil"; "startedAt"; "fixedUntil"; "cursor"; "count"; "anchor"; "validatedAt"].
Definition RETENTION_PHASES : list string := ["witness"; "horizon"; "scan"; "verify"; "proved"].

(** [Object.keys(row).length === fields.length && fields.every(field => field in row)] *)
Definition has_fields (row : list (string * jsval)) (fields : list string) : bool :=
  (length row =? length fields)%nat && forallb (λ field, bool_decide (field ∈ map fst row)) fields.

Definition is_null (value : jsval) : bool := match value with JNull => true | _ => false end.

Definition retentionAnchor (value : jsval) : result (option RetentionAnchor) :=
  let invalid := throw "Invalid Hyperliquid retention anchor." in
  match value with
  | JNull => Ok None
  | _ =>
      row ← object value;
      match assoc "payloadHash" row with
      | JString payloadHash =>
          if negb (has_fields row ["coin"; "tid"; "time"; "payloadHash"]) || negb (hex64 payloadHash)
             || is_null (assoc "coin" row) || is_null (assoc "tid" row) then invalid
          else
            coin ← token (assoc "coin" row) 256;
            tid ← token (assoc "tid" row) 256;
            match coin, tid with
            | Some coin, Some tid => time ← integer (assoc "time" row); Ok (Some (mkAnchor coin tid time payloadHash))
            | _, _ => invalid
            end
      | _ => invalid
      end
  end.

Definition validateRetentionWindow (now : Z) (probe : ExchangeHistoryRetention) (state : ExchangeHistoryCheckpoint) : result unit :=
  if (rt_originalSince probe <? hk_baselineSince state) || (rt_originalUntil probe <? rt_originalSince probe)
     || (rt_startedAt probe <? rt_originalUntil probe) || (rt_startedAt probe >? now + 60000)
  then throw "Invalid Hyperliquid retention original window."
  else if bool_decide (rt_phase probe = "proved") then
    match rt_fixedUntil probe, hk_scannedThrough state with
    | Some fixed, Some scanned =>
        if scanned <? Z.min (rt_originalUntil probe) fixed then throw "Hyperliquid retention proof lacks traversal." else Ok tt
    | _, _ => throw "Hyperliquid retention proof lacks traversal."
    end
  else if negb (hk_windowSince state =? rt_originalSince probe)
          || negb (bool_decide (hk_windowUntil state = Some (rt_originalUntil probe)))
  then throw "Hyperliquid retention changed its original window."
  else Ok tt.

Definition validateRetentionHorizon (now : Z) (probe : ExchangeHistoryRetention) : result unit :=
  if bool_decide (rt_phase probe ∈ ["scan"; "verify"; "proved"]) then
    match rt_fixedUntil probe with
    | Some fixed =>
        if (fixed <? rt_startedAt probe) || (fixed >? now + 60000) || (rt_cursor probe >? fixed + 1)
        then throw "Invalid fixed retention horizon." else Ok tt
    | None => throw "Invalid fixed retention horizon."
    end
  else Ok tt.

Definition validateRetentionTime (now : Z) (probe : ExchangeHistoryRetention) : result unit :=
  if bool_decide (rt_phase probe = "proved") then
    match rt_validatedAt probe with
    | Some validated =>
        if (validated <? rt_startedAt probe) || (validated >? now + 60000) then throw "Invalid retention validation time." else Ok tt
    | None => throw "Invalid retention validation time."
    end
  else match rt_validatedAt probe with None => Ok tt | Some _ => throw "Unverified retention has a validation time." end.

Definition validateRetentionPhase (now : Z) (probe : ExchangeHistoryRetention) : result unit :=
  _ ← (if bool_decide (rt_phase probe = "witness") then
         if bool_decide (rt_anchor probe = None) && bool_decide (rt_fixedUntil probe = None) && (rt_count probe =? 0) && (rt_cursor probe =? 0)
         then Ok tt else throw "Invalid initial retention phase."
       else match rt_anchor probe with
       | Some anchor =>
           if (rt_count probe <? 1) || (rt_count probe >=? 10000) || (rt_cursor probe <? an_time anchor)
           then throw "Invalid counted retention anchor." else Ok tt
       | None => throw "Invalid counted retention anchor."
       end);
  _ ← (if bool_decide (rt_phase probe = "horizon") && negb (bool_decide (rt_fixedUntil probe = None))
       then throw "Invalid unread retention horizon." else Ok tt);
  _ ← validateRetentionHorizon now probe;
  validateRetentionTime now probe.

Definition validateRetention (now : Z) (value : jsval) (state : ExchangeHistoryCheckpoint) : result (option ExchangeHistoryRetention) :=
  match value with
  | JNull => Ok None
  | _ =>
      row ← object value;
      match isStringMember (assoc "phase" row) RETENTION_PHASES with
      | Some phase =>
          if has_fields row RETENTION_FIELDS && match assoc "version" row with JInt version => version =? 1 | _ => false end
             && bool_decide (hk_source state = "fills") && bool_decide (hk_providerSymbol state = None)
          then
            originalSince ← integer (assoc "originalSince" row);
            originalUntil ← integer (assoc "originalUntil" row);
            startedAt ← integer (assoc "startedAt" row);
            cursor ← integer (assoc "cursor" row);
            count ← integer (assoc "count" row);
            fixedUntil ← nullable_integer (assoc "fixedUntil" row);
            validatedAt ← nullable_integer (assoc "validatedAt" row);
            anchor ← retentionAnchor (assoc "anchor" row);
            let probe := mkRetention phase originalSince originalUntil startedAt fixedUntil cursor count anchor validatedAt in
            _ ← validateRetentionWindow now probe state;
            _ ← validateRetentionPhase now probe;
            Ok (Some probe)
          else throw "Invalid Hyperliquid retention checkpoint."
      | None => throw "Invalid Hyperliquid retention checkpoint."
      end
  end.

(** ** Checkpoints *)
(** [/^[a-z_]{1,80}$/] *)
Definition reason_text (s : string) : bool :=
  let l := chars s in
  (1 <=? length l)%nat && (length l <=? 80)%nat
  && forallb (λ c, let n := Ascii.nat_of_ascii c in ((97 <=? n)%nat && (n <=? 122)%nat) || (n =? 95)%nat) l.

(** [o !== null && p(o)] *)
Definition some_and {A} (o : option A) (p : A → bool) : bool := match o with Some a => p a | None => false end.

Definition validateWindow (now : Z) (row : ExchangeHistoryCheckpoint) : result unit :=
  let latest := now + 60000 in
  if (hk_baselineSince row >? hk_windowSince row) || (hk_windowSince row >? latest)
     || some_and (hk_windowUntil row) (λ w, (w <? hk_windowSince row) || (w >? latest))
     || some_and (hk_scannedThrough row) (λ s, (s <? hk_baselineSince row) || (s >? latest))
     || some_and (hk_cursor row) (λ _, bool_decide (hk_windowUntil row = None))
     || some_and (hk_reason row) (λ r, negb (reason_text r))
  then throw "Invalid history checkpoint window or reason." else Ok tt.

(** The values [JSON.stringify] prints for a checkpoint. *)
Definition j_int (o : option Z) : jsval := match o with Some z => JInt z | None => JNull end.

Definition coverageJson (c : option ExchangeHistoryCoverage) : jsval :=
  match c with
  | None => JNull
  | Some c => JObject [("version", JInt 1); ("profile", JString (cov_profile c)); ("since", JInt (cov_since c)); ("through", JInt (cov_through c))]
  end.

Definition anchorJson (a : option RetentionAnchor) : jsval :=
  match a with
  | None => JNull
  | Some a => JObject [("coin", JString (an_coin a)); ("tid", JString (an_tid a)); ("time", JInt (an_time a)); ("payloadHash", JString (an_payloadHash a))]
  end.

Definition retentionJson (r : option ExchangeHistoryRetention) : jsval :=
  match r with
  | None => JNull
  | Some r => JObject [("version", JInt 1); ("phase", JString (rt_phase r)); ("originalSince", JInt (rt_originalSince r));
      ("originalUntil", JInt (rt_originalUntil r)); ("startedAt", JInt (rt_startedAt r)); ("cursor", JInt (rt_cursor r));
      ("count", JInt (rt_count r)); ("fixedUntil", j_int (rt_fixedUntil r)); ("validatedAt", j_int (rt_validatedAt r));
      ("anchor", anchorJson (rt_anchor r))]
  end.

(** An absent property is not printed. *)
Definition optional {A} (key : string) (json : option A → jsval) (o : option (option A)) : list (string * jsval) :=
  match o with Some v => [(key, json v)] | None => [] end.

Definition checkpointJson (c : ExchangeHistoryCheckpoint) : jsval :=
  JObject ([("source", JString (hk_source c)); ("providerSymbol", j_opt (hk_providerSymbol c)); ("revision", JInt (hk_revision c));
    ("baselineSince", JInt (hk_baselineSince c)); ("windowSince", JInt (hk_windowSince c)); ("windowUntil", j_int (hk_windowUntil c));
    ("cursor", j_opt (hk_cursor c)); ("scannedThrough", j_int (hk_scannedThrough c)); ("nextReadAt", JInt (hk_nextReadAt c));
    ("completeness", JString (hk_completeness c)); ("reason", j_opt (hk_reason c))]
    ++ optional "providerAccountUid" j_opt (hk_providerAccountUid c)
    ++ optional "coverage" coverageJson (hk_coverage c)
    ++ optional "retention" retentionJson (hk_retention c)).

(** [row.x === undefined ? {} : { x: validate(row.x) }] *)
Definition if_present {A} (value : jsval) (validate : jsval → result A) : result (option A) :=
  match value with JUndefined => Ok None | _ => Some <$> validate value end.

Definition validateHistoryCheckpoint (now : Z) (value : jsval) : result ExchangeHistoryCheckpoint :=
  row ← object value;
  match isStringMember (assoc "source" row) ["orders"; "fills"],
        isStringMember (assoc "completeness" row) ["unknown"; "partial"; "complete"] with
  | Some source, Some completeness =>
      providerSymbol ← token (assoc "providerSymbol" row) 256;
      revision ← integer (assoc "revision" row);
      baselineSince ← integer (assoc "baselineSince" row);
      windowSince ← integer (assoc "windowSince" row);
      windowUntil ← nullable_integer (assoc "windowUntil" row);
      cursor ← token (assoc "cursor" row) 4096;
      scannedThrough ← nullable_integer (assoc "scannedThrough" row);
      nextReadAt ← integer (assoc "nextReadAt" row);
      reason ← token (assoc "reason" row) 80;
      let base := mkHistory source providerSymbol revision baselineSince windowSince windowUntil cursor scannedThrough
                    nextReadAt completeness reason in
      let result := base None None None in
      _ ← validateWindow now result;
      uid ← if_present (assoc "providerAccountUid" row) (λ v, token v 256);
      coverage ← if_present (assoc "coverage" row) (λ v, validateHistoryCoverage v result);
      retention ← if_present (assoc "retention" row) (λ v, validateRetention now v result);
      let validated := base uid coverage retention in
      if 8192 <=? Z.of_nat (length (stringify (checkpointJson validated))) then throw "Oversized history checkpoint."
      else Ok validated
  | _, _ => throw "Invalid history checkpoint scope or completeness."
  end.

Definition historyScope (row : ExchangeHistoryCheckpoint) : string :=
  JSON_stringify (JArray [JString (hk_source row); j_opt (hk_providerSymbol row)]).

(** ** Progress *)
Definition progressRow (now : Z) (item : jsval) : result ExchangeHistoryProgress :=
  row ← object item;
  baseRevision ← integer (assoc "baseRevision" row);
  pages ← integer (assoc "pages" row);
  checkpoint ← validateHistoryCheckpoint now (assoc "checkpoint" row);
  if negb (hk_revision checkpoint =? baseRevision + 1) then throw "Invalid history checkpoint revision."
  else Ok (mkProgress baseRevision pages checkpoint).

(** A provider account the code treats as known: neither absent, null nor empty. *)
Definition known_uid (c : ExchangeHistoryCheckpoint) : option string :=
  match hk_providerAccountUid c with
  | Some (Some uid) => if bool_decide (uid = "") then None else Some uid
  | _ => None
  end.

Definition validateHistoryProgress (now : Z) (value : jsval) : result (list ExchangeHistoryProgress) :=
  match value with
  | JArray items =>
      if (8 <? length items)%nat then throw "Invalid bounded history progress."
      else
        rows ← mapM (progressRow now) items;
        if (sumZ (map pg_pages rows) >? 5) || negb (bool_decide (NoDup (map (λ r, historyScope (pg_checkpoint r)) rows)))
        then throw "Invalid history page budget or duplicate scope."
        else if (1 <? length (remove_dups (omap (λ r, known_uid (pg_checkpoint r)) rows)))%nat
        then throw "History sources disagree about provider account identity."
        else Ok rows
  | _ => throw "Invalid bounded history progress."
  end.

(** ** Continuation *)
Definition WEEK : Z := 7 * 86400000.

Definition assertRetentionCoverageBound (state : ExchangeHistoryCheckpoint) : result unit :=
  match mjoin (hk_retention state) with
  | None => Ok tt
  | Some retention =>
      match rt_fixedUntil retention, mjoin (hk_coverage state) with
      | Some fixed, Some coverage =>
          if negb (bool_decide (rt_phase retention = "proved")) || negb (bool_decide (cov_profile coverage = HYPERLIQUID_PROFILE))
             || (cov_through coverage >? Z.min (rt_originalUntil retention) fixed)
          then throw "Historical coverage exceeds verified retention." else Ok tt
      | _, _ => throw "Historical coverage exceeds verified retention."
      end
  end.

Definition assertCoverageContinuation (previous : ExchangeHistoryCheckpoint) (update : ExchangeHistoryProgress) : result unit :=
  let old := mjoin (hk_coverage previous) in
  let regress := throw "Historical coverage cannot disappear, change profile or regress." in
  match old, mjoin (hk_coverage (pg_checkpoint update)) with
  | Some _, None => regress
  | None, None => Ok tt
  | _, Some next =>
      if some_and old (λ old, negb (bool_decide (cov_profile next = cov_profile old)) || negb (cov_since next =? cov_since old)
                              || (cov_through next <? cov_through old))
      then regress
      else if some_and old (λ old, cov_through next =? cov_through old) then Ok tt
      else
        _ ← assertRetentionCoverageBound (pg_checkpoint update);
        if (pg_pages update =? 0)
           || (hk_windowSince previous >? match old with Some old => cov_through old | None => hk_baselineSince previous end)
           || (cov_through next >? hk_windowSince previous + pg_pages update * WEEK)
        then throw "Historical coverage cannot bridge an unread window." else Ok tt
  end.

(** [RETENTION_PHASES.indexOf(phase)] *)
Definition phase_index (phase : string) : Z :=
  match list_find (λ p, p = phase) RETENTION_PHASES with Some (i, _) => Z.of_nat i | None => -1 end.

Definition assertBoundRetentionContinuation (old next : ExchangeHistoryRetention) : result unit :=
  if negb (rt_originalSince old =? rt_originalSince next) || negb (rt_originalUntil old =? rt_originalUntil next)
     || negb (rt_startedAt old =? rt_startedAt next)
     || some_and (rt_anchor old) (λ _, negb (bool_decide (rt_anchor old = rt_anchor next)))
     || some_and (rt_fixedUntil old) (λ _, negb (bool_decide (rt_fixedUntil old = rt_fixedUntil next)))
     || (rt_count next <? rt_count old) || (rt_cursor next <? rt_cursor old)
     || (phase_index (rt_phase next) <? phase_index (rt_phase old))
  then throw "History retention continuation changed its bound probe." else Ok tt.

Definition assertRetentionContinuation (previous : ExchangeHistoryCheckpoint) (progress : ExchangeHistoryProgress) : result unit :=
  let old := mjoin (hk_retention previous) in
  let next := mjoin (hk_retention (pg_checkpoint progress)) in
  if (pg_pages progress =? 0) && negb (bool_decide (old = next)) then throw "History retention cannot skip an unread page."
  else match old, next with
  | Some old, Some next =>
      if bool_decide (rt_phase old = "proved") then Ok tt
      else if phase_index (rt_phase next) - phase_index (rt_phase old) >? pg_pages progress
      then throw "History retention cannot skip an unread phase."
      else assertBoundRetentionContinuation old next
  | _, _ => Ok tt
  end.

Definition assertHistoryContinuation (previous : ExchangeHistoryCheckpoint) (progress : ExchangeHistoryProgress) : result unit :=
  let next := pg_checkpoint progress in
  if negb (bool_decide (historyScope previous = historyScope next)) || negb (pg_baseRevision progress =? hk_revision previous)
     || negb (hk_baselineSince next =? hk_baselineSince previous)
     || (default 0 (hk_scannedThrough next) <? default 0 (hk_scannedThrough previous))
  then throw "History continuation contradicts its requested checkpoint."
  else if some_and (known_uid previous) (λ uid, negb (bool_decide (hk_providerAccountUid next = Some (Some uid))))
  then throw "History provider account identity changed."
  else
    _ ← assertCoverageContinuation previous progress;
    _ ← assertRetentionContinuation previous progress;
    if (pg_pages progress =? 0)
       && (negb (hk_windowSince previous =? hk_windowSince next) || negb (bool_decide (hk_windowUntil previous = hk_windowUntil next))
           || negb (bool_decide (hk_cursor previous = hk_cursor next)) || negb (bool_decide (hk_scannedThrough previous = hk_scannedThrough next))
           || negb (bool_decide (hk_providerAccountUid previous = hk_providerAccountUid next)))
    then throw "History progress cannot skip an unread page." else Ok tt.

(** [new Map(request.map(row => [historyScope(row), row]))]: a later row replaces an earlier one. *)
Definition requested (request : list ExchangeHistoryCheckpoint) : gmap string ExchangeHistoryCheckpoint :=
  fold_left (λ m row, <[historyScope row := row]> m) request ∅.

Fixpoint continueAll (request : gmap string ExchangeHistoryCheckpoint) (progress : list ExchangeHistoryProgress) : result unit :=
  match progress with
  | [] => Ok tt
  | row :: rest =>
      match request !! historyScope (pg_checkpoint row) with
      | None => throw "Exchange returned unrequested history scope."
      | Some previous => _ ← assertHistoryContinuation previous row; continueAll request rest
      end
  end.

Definition assertHistoryResponse (request : list ExchangeHistoryCheckpoint) (progress : option (list ExchangeHistoryProgress)) : result unit :=
  match progress with
  | Some rows =>
      if negb (length rows =? length request)%nat then throw "Exchange omitted requested history progress."
      else continueAll (requested request) rows
  | None => throw "Exchange omitted requested history progress."
  end.

(** ** Certifying an acquisition *)
Record AcquisitionSource := mkSource {
  sr_source : string; sr_startedAt : Z; sr_completedAt : Z; sr_completeness : string; sr_since : option Z }.

(** The parts of [ExchangeAcquisitionEvidence] the safety proofs read. *)
Record ExchangeAcquisitionEvidence := mkAcquisition {
  aq_version : Z;
  aq_startedAt : Z;
  aq_completedAt : Z;
  aq_sources : list AcquisitionSource;
  aq_history : option (list ExchangeHistoryProgress) }.

Definition checkpointProofReason (exchange : string) (checkpoint : ExchangeHistoryCheckpoint) : option string :=
  if bool_decide (exchange = "krakenfutures") && bool_decide (known_uid checkpoint = None) then Some "FILL_PROVIDER_IDENTITY_UNPROVED"
  else match mjoin (hk_coverage checkpoint) with
  | None => Some "FILL_COVERAGE_UNPROVED"
  | Some coverage =>
      if negb (bool_decide (Some (cov_profile coverage) = profile_of exchange)) || negb (bool_decide (hk_completeness checkpoint = "complete"))
         || negb (bool_decide (hk_cursor checkpoint = None)) then Some "FILL_COVERAGE_UNPROVED"
      else if some_and (mjoin (hk_retention checkpoint))
                (λ retention, negb (bool_decide (exchange = "hyperliquid")) || negb (bool_decide (rt_phase retention = "proved")))
      then Some "FILL_COVERAGE_UNPROVED" else None
  end.

Definition retentionIsFresh (checkpoint : ExchangeHistoryCheckpoint) (evidence : ExchangeAcquisitionEvidence) : bool :=
  match mjoin (hk_retention checkpoint), mjoin (hk_coverage checkpoint) with
  | None, _ => true
  | Some _, None => false
  | Some retention, Some coverage =>
      match rt_fixedUntil retention, rt_validatedAt retention with
      | Some fixed, Some validated =>
          (cov_through coverage <=? Z.min fixed (rt_originalUntil retention))
          && (aq_startedAt evidence <=? validated) && (validated <=? aq_completedAt evidence)
      | _, _ => false
      end
  end.

Definition fill_rows (evidence : ExchangeAcquisitionEvidence) : list ExchangeHistoryProgress :=
  filter (λ row, hk_source (pg_checkpoint row) = "fills" ∧ hk_providerSymbol (pg_checkpoint row) = None) (default [] (aq_history evidence)).

Definition fillCoverageReason (exchange : string) (evidence : ExchangeAcquisitionEvidence) (since : Z) : option string :=
  if bool_decide (exchange = "bybit") then Some "FILL_OPTION_SCOPE_UNPROVED"
  else match profile_of exchange, fill_rows evidence with
  | Some _, [row] =>
      let checkpoint := pg_checkpoint row in
      match checkpointProofReason exchange checkpoint, mjoin (hk_coverage checkpoint) with
      | Some reason, _ => Some reason
      | None, None => Some "FILL_COVERAGE_UNPROVED"
      | None, Some coverage =>
          if (cov_since coverage >? since) || negb (cov_since coverage =? hk_baselineSince checkpoint) then Some "FILL_BASELINE_UNPROVED"
          else if (pg_pages row =? 0) || (cov_through coverage <? aq_startedAt evidence) || (cov_through coverage >? aq_completedAt evidence)
          then Some "FILL_COVERAGE_NOT_FRESH"
          else if negb (retentionIsFresh checkpoint evidence) then Some "FILL_COVERAGE_NOT_FRESH" else None
      end
  | _, _ => Some "FILL_COVERAGE_MISSING"
  end.

Definition assertCompleteFillCoverage (exchange : string) (evidence : ExchangeAcquisitionEvidence) (since : Z) : result unit :=
  if negb (existsb (λ source, bool_decide (sr_source source = "fills") && bool_decide (sr_completeness source = "complete")) (aq_sources evidence))
  then Ok tt
  else match fillCoverageReason exchange evidence since with
  | Some reason => throw ("Invalid complete fill source: " +:+ reason)
  | None => Ok tt
  end.

(** ** Reading a checkpoint back *)
Lemma checkpoint_integer_again z v : integer v = Ok z → integer (JInt z) = Ok z ∧ 0 <= z.
Proof. destruct v as [| | |n| | | | |]; try done. cbn. destruct (_ && _) eqn:E; [|done]. intros [= <-]. rewrite E.
  split; [done|]. apply andb_true_iff in E as [_ E]. by apply Z.leb_le in E.
Qed.

Lemma nullable_integer_again o v : nullable_integer v = Ok o → nullable_integer (j_int o) = Ok o.
Proof.
  assert (∀ w, Some <$> integer w = Ok o → nullable_integer (j_int o) = Ok o) as K.
  { intros w. destruct (integer w) as [z|] eqn:E; [|done]. intros [= <-]. cbn [j_int nullable_integer]. by rewrite (proj1 (checkpoint_integer_again _ _ E)). }
  destruct v; cbn [nullable_integer]; try apply K. by intros [= <-].
Qed.

Lemma token_again o v m : token v m = Ok o → token (j_opt o) m = Ok o.
Proof. destruct v; cbn; try done; [by intros [= <-]|]. destruct (token_text m s) eqn:E; [|done]. intros [= <-]. cbn. by rewrite E. Qed.

Lemma member_again s v l : isStringMember v l = Some s → isStringMember (JString s) l = Some s.
Proof. destruct v; cbn; try done. case_bool_decide; [|done]. intros [= <-]. by rewrite bool_decide_true. Qed.

Ltac history_read :=
  repeat first [rewrite assoc_hit | rewrite assoc_miss by discriminate | rewrite assoc_nil].

Lemma coverage_again o v state : validateHistoryCoverage v state = Ok o → validateHistoryCoverage (coverageJson o) state = Ok o.
Proof.
  destruct v as [| | | | | | | |row]; try done; [by intros [= <-]|]. unfold validateHistoryCoverage at 1.
  destruct (assoc "version" row) as [| | |ver| | | | |]; try done. destruct (isStringMember _ _) as [pr|] eqn:Ep; [|done].
  destruct (assoc "since" row) as [| | |a| | | | |]; try done. destruct (assoc "through" row) as [| | |b| | | | |]; try done.
  destruct (hk_scannedThrough state) as [s|] eqn:Es; [|done]. destruct (_ && _) eqn:E; [|done]. intros [= <-].
  cbn [coverageJson validateHistoryCoverage cov_profile cov_since cov_through]. history_read.
  rewrite (member_again _ _ _ Ep), Es. rewrite !andb_true_iff in E. rewrite Z.eqb_refl. cbn [andb].
  destruct E as ((((((_ & ->) & ->) & ->) & ->) & ->) & ->). done.
Qed.

Lemma anchor_again o v : retentionAnchor v = Ok o → retentionAnchor (anchorJson o) = Ok o.
Proof.
  destruct v as [| | | | | | | |row]; try done; [by intros [= <-]|]. cbn [retentionAnchor object mbind result_bind].
  destruct (assoc "payloadHash" row) as [| | | | | |h| |]; try done.
  destruct (negb _ || _ || _ || _) eqn:E; [done|]. intros H. apply bind_Ok in H as (coin & Hc & H). apply bind_Ok in H as (tid & Ht & H).
  destruct coin as [coin|]; [|done]. destruct tid as [tid|]; [|done]. apply bind_Ok in H as (z & Hz & H). injection H as <-.
  cbn [anchorJson an_coin an_tid an_time an_payloadHash retentionAnchor object mbind result_bind]. history_read.
  rewrite !orb_false_iff in E. destruct E as (((_ & ->) & _) & _).
  change (has_fields _ _) with true. cbn [negb orb is_null]. history_read. cbn [is_null orb].
  apply token_again in Hc, Ht. cbn [j_opt] in Hc, Ht. rewrite Hc, Ht. cbn [mbind result_bind].
  by rewrite (proj1 (checkpoint_integer_again _ _ Hz)).
Qed.

(** Later clocks accept what an earlier one accepted. *)
Lemma if_gtb_mono {A} (b : bool) (x n n' : Z) (e : error) (r : result A) (y : A) : n <= n' →
  (if b || (x >? n + 60000) then Err e else r) = Ok y → b = false ∧ (x >? n' + 60000) = false ∧ r = Ok y.
Proof.
  intros Hn. destruct b; [done|]. cbn. rewrite !Z.gtb_ltb. destruct (Z.ltb_spec (n + 60000) x); [done|].
  intros ->. split_and!; [done|apply Z.ltb_ge; lia|done].
Qed.

Lemma window_later now now' row u : now <= now' → validateWindow now row = Ok u → validateWindow now' row = Ok u.
Proof.
  unfold validateWindow. intros Hn H. destruct (_ || _) eqn:E in H; [done|]. rewrite !orb_false_iff in E.
  destruct E as (((((E1 & E2) & E3) & E4) & E5) & E6). rewrite E1, E5, E6. rewrite Z.gtb_ltb, Z.ltb_ge in E2.
  assert ((hk_windowSince row >? now' + 60000) = false) as -> by (rewrite Z.gtb_ltb, Z.ltb_ge; lia).
  assert (some_and (hk_windowUntil row) (λ w, (w <? hk_windowSince row) || (w >? now' + 60000)) = false) as ->.
  { destruct (hk_windowUntil row) as [w|]; [|done]. cbn in *. rewrite orb_false_iff, Z.gtb_ltb, !Z.ltb_ge in *. lia. }
  assert (some_and (hk_scannedThrough row) (λ s, (s <? hk_baselineSince row) || (s >? now' + 60000)) = false) as ->.
  { destruct (hk_scannedThrough row) as [s|]; [|done]. cbn in *. rewrite orb_false_iff, Z.gtb_ltb, !Z.ltb_ge in *. lia. }
  by destruct u.
Qed.

Lemma retention_window_later now now' probe state u : now <= now' →
  validateRetentionWindow now probe state = Ok u → validateRetentionWindow now' probe state = Ok u.
Proof.
  unfold validateRetentionWindow. intros Hn H. apply (if_gtb_mono _ _ now now') in H as (-> & -> & H); [|done]. exact H.
Qed.

Lemma retention_phase_later now now' probe u : now <= now' →
  validateRetentionPhase now probe = Ok u → validateRetentionPhase now' probe = Ok u.
Proof.
  unfold validateRetentionPhase. intros Hn H. apply bind_Ok in H as (u1 & -> & H). cbn [mbind result_bind].
  apply bind_Ok in H as (u2 & -> & H). cbn [mbind result_bind]. apply bind_Ok in H as (u3 & H3 & H).
  assert (validateRetentionHorizon now' probe = Ok u3) as ->.
  { unfold validateRetentionHorizon in *. destruct (bool_decide _); [|done]. destruct (rt_fixedUntil probe) as [f|]; [|done].
    destruct (_ || _) eqn:E in H3; [done|]. rewrite !orb_false_iff, !Z.gtb_ltb, !Z.ltb_ge in E. destruct E as ((E1 & E2) & E3).
    rewrite (proj2 (Z.ltb_ge _ _) E1), !Z.gtb_ltb. rewrite !(proj2 (Z.ltb_ge _ _)) by lia. exact H3. }
  cbn [mbind result_bind]. unfold validateRetentionTime in *. destruct (bool_decide _); [|done].
  destruct (rt_validatedAt probe) as [f|]; [|done].
  apply (if_gtb_mono _ _ now now') in H as (-> & -> & H); [|done]. exact H.
Qed.

Lemma retention_again now now' o v state : now <= now' → validateRetention now v state = Ok o → validateRetention now' (retentionJson o) state = Ok o.
Proof.
  intros Hn. destruct v as [| | | | | | | |row]; try done; [by intros [= <-]|]. cbn [validateRetention object mbind result_bind].
  destruct (isStringMember _ _) as [ph|] eqn:Ep; [|done]. destruct (_ && _) eqn:E; [|done]. rewrite !andb_true_iff in E.
  intros H. do 8 (apply bind_Ok in H as (? & ? & H)). apply bind_Ok in H as (u1 & Hw & H). apply bind_Ok in H as (u2 & Hph & H).
  injection H as <-. cbn [retentionJson rt_phase rt_originalSince rt_originalUntil rt_startedAt rt_fixedUntil rt_cursor rt_count rt_anchor rt_validatedAt].
  cbn [validateRetention object mbind result_bind]. history_read. rewrite (member_again _ _ _ Ep).
  change (has_fields _ _) with true. destruct E as (((_ & _) & ->) & ->). cbn [andb Z.eqb Pos.eqb].
  repeat match goal with
  | H : integer _ = Ok _ |- _ => rewrite (proj1 (checkpoint_integer_again _ _ H)); clear H; cbn [mbind result_bind]
  end.
  repeat match goal with
  | H : nullable_integer _ = Ok _ |- _ => rewrite (nullable_integer_again _ _ H); clear H; cbn [mbind result_bind]
  end.
  match goal with H : retentionAnchor _ = Ok _ |- _ => rewrite (anchor_again _ _ H) end. cbn [mbind result_bind].
  rewrite (retention_window_later _ _ _ _ _ Hn Hw). cbn [mbind result_bind]. rewrite (retention_phase_later _ _ _ _ Hn Hph). done.
Qed.

(** The parts of a validated checkpoint. *)
Lemma validateHistoryCheckpoint_inv now v c : validateHistoryCheckpoint now v = Ok c →
  (∃ w, isStringMember w ["orders"; "fills"] = Some (hk_source c)) ∧
  (∃ w, isStringMember w ["unknown"; "partial"; "complete"] = Some (hk_completeness c)) ∧
  (∃ w, token w 256 = Ok (hk_providerSymbol c)) ∧ (∃ w, integer w = Ok (hk_revision c)) ∧
  (∃ w, integer w = Ok (hk_baselineSince c)) ∧ (∃ w, integer w = Ok (hk_windowSince c)) ∧
  (∃ w, nullable_integer w = Ok (hk_windowUntil c)) ∧ (∃ w, token w 4096 = Ok (hk_cursor c)) ∧
  (∃ w, nullable_integer w = Ok (hk_scannedThrough c)) ∧ (∃ w, integer w = Ok (hk_nextReadAt c)) ∧ (∃ w, token w 80 = Ok (hk_reason c)) ∧
  let base := mkHistory (hk_source c) (hk_providerSymbol c) (hk_revision c) (hk_baselineSince c) (hk_windowSince c) (hk_windowUntil c)
    (hk_cursor c) (hk_scannedThrough c) (hk_nextReadAt c) (hk_completeness c) (hk_reason c) None None None in
  validateWindow now base = Ok tt ∧
  (∃ w, if_present w (λ v, token v 256) = Ok (hk_providerAccountUid c)) ∧
  (∃ w, if_present w (λ v, validateHistoryCoverage v base) = Ok (hk_coverage c)) ∧
  (∃ w, if_present w (λ v, validateRetention now v base) = Ok (hk_retention c)) ∧
  Z.of_nat (length (stringify (checkpointJson c))) < 8192.
Proof.
  unfold validateHistoryCheckpoint. intros H. apply bind_Ok in H as (row & _ & H).
  destruct (isStringMember (assoc "source" row) _) as [so|] eqn:E1; [|done]. destruct (isStringMember (assoc "completeness" row) _) as [co|] eqn:E2; [|done].
  do 9 (apply bind_Ok in H as (? & ? & H)). apply bind_Ok in H as ([] & Hw & H). do 3 (apply bind_Ok in H as (? & ? & H)).
  destruct (8192 <=? _) eqn:Es; [done|]. apply Z.leb_gt in Es. injection H as <-.
  cbn [hk_source hk_providerSymbol hk_revision hk_baselineSince hk_windowSince hk_windowUntil hk_cursor hk_scannedThrough hk_nextReadAt hk_completeness hk_reason hk_providerAccountUid hk_coverage hk_retention].
  split_and!; eauto.
Qed.

(** Reading an optional property back. *)
Lemma if_present_again {A} (json : option A → jsval) (validate validate' : jsval → result (option A)) o :
  (∀ a, json a ≠ JUndefined) → (∀ w a, validate w = Ok a → validate' (json a) = Ok a) →
  (∃ w, if_present w validate = Ok o) →
  if_present (match o with Some a => json a | None => JUndefined end) validate' = Ok o.
Proof.
  intros Hj Hv [w Hw].
  assert (w ≠ JUndefined → ∃ a, o = Some a ∧ validate w = Ok a) as K.
  { intros Hne. assert (Some <$> validate w = Ok o) as Hw' by by destruct w. destruct (validate w) as [a|]; [|done]. injection Hw' as <-. by exists a. }
  assert (w = JUndefined ∨ w ≠ JUndefined) as [->|Hne] by (destruct w; auto); [by injection Hw as <-|].
  destruct (K Hne) as (a & -> & Ha). pose proof (Hj a) as Hna. apply Hv in Ha. unfold if_present. rewrite Ha. by destruct (json a).
Qed.

Definition present {A} (json : option A → jsval) (o : option (option A)) : jsval :=
  match o with Some a => json a | None => JUndefined end.

Lemma optional_reads {A B C} (uid : option (option A)) (cov : option (option B)) (ret : option (option C)) ju jc jr :
  let l := optional "providerAccountUid" ju uid ++ optional "coverage" jc cov ++ optional "retention" jr ret in
  assoc "providerAccountUid" l = present ju uid ∧ assoc "coverage" l = present jc cov ∧ assoc "retention" l = present jr ret.
Proof. destruct uid, cov, ret; cbn [optional app present]; split_and!; history_read; reflexivity. Qed.

Lemma j_opt_present a : j_opt a ≠ JUndefined.
Proof. by destruct a. Qed.
Lemma coverageJson_present a : coverageJson a ≠ JUndefined.
Proof. by destruct a. Qed.
Lemma retentionJson_present a : retentionJson a ≠ JUndefined.
Proof. by destruct a. Qed.

Lemma checkpoint_again now now' v c : validateHistoryCheckpoint now v = Ok c → now <= now' →
  validateHistoryCheckpoint now' (checkpointJson c) = Ok c.
Proof.
  intros H Hn. apply validateHistoryCheckpoint_inv in H as
    ([? H1] & [? H2] & [? H3] & [? H4] & [? H5] & [? H6] & [? H7] & [? H8] & [? H9] & [? H10] & [? H11] & Hw & Hu & Hc & Hr & Hs).
  unfold validateHistoryCheckpoint. unfold checkpointJson at 2. cbn [object mbind result_bind app].
  destruct (optional_reads (hk_providerAccountUid c) (hk_coverage c) (hk_retention c) j_opt coverageJson retentionJson) as (Au & Ac & Ar).
  history_read. rewrite Au, Ac, Ar. clear Au Ac Ar.
  rewrite (member_again _ _ _ H1), (member_again _ _ _ H2), (token_again _ _ _ H3). cbn [mbind result_bind].
  rewrite (proj1 (checkpoint_integer_again _ _ H4)), (proj1 (checkpoint_integer_again _ _ H5)), (proj1 (checkpoint_integer_again _ _ H6)). cbn [mbind result_bind].
  rewrite (nullable_integer_again _ _ H7), (token_again _ _ _ H8), (nullable_integer_again _ _ H9). cbn [mbind result_bind].
  rewrite (proj1 (checkpoint_integer_again _ _ H10)), (token_again _ _ _ H11). cbn [mbind result_bind].
  rewrite (window_later _ _ _ _ Hn Hw). cbn [mbind result_bind].
  rewrite (if_present_again j_opt _ _ _ j_opt_present (λ w a, token_again a w 256) Hu). cbn [mbind result_bind].
  rewrite (if_present_again coverageJson _ _ _ coverageJson_present (λ w a, coverage_again a w _) Hc). cbn [mbind result_bind].
  rewrite (if_present_again retentionJson _ _ _ retentionJson_present (λ w a, retention_again now now' a w _ Hn) Hr). cbn [mbind result_bind].
  destruct c. cbn [hk_source hk_providerSymbol hk_revision hk_baselineSince hk_windowSince hk_windowUntil hk_cursor hk_scannedThrough hk_nextReadAt hk_completeness hk_reason hk_providerAccountUid hk_coverage hk_retention].
  by rewrite (proj2 (Z.leb_gt _ _) Hs).
Qed.

(** ** Traversals: checkpoints continued by accepted progress *)
Definition coverage (c : ExchangeHistoryCheckpoint) : option ExchangeHistoryCoverage := mjoin (hk_coverage c).
Definition retention (c : ExchangeHistoryCheckpoint) : option ExchangeHistoryRetention := mjoin (hk_retention c).

Inductive traversal (start : ExchangeHistoryCheckpoint)
    : list (ExchangeHistoryCheckpoint * ExchangeHistoryProgress) → ExchangeHistoryCheckpoint → Prop :=
| traversal_start : traversal start [] start
| traversal_continue steps c p now raw :
    traversal start steps c → progressRow now raw = Ok p → assertHistoryContinuation c p = Ok tt →
    traversal start (steps ++ [(c, p)]) (pg_checkpoint p).

(** The window a step has read. *)
Definition read_window (step : ExchangeHistoryCheckpoint * ExchangeHistoryProgress) (t : Z) : Prop :=
  0 < pg_pages step.2 ∧ hk_windowSince step.1 <= t <= hk_windowSince step.1 + pg_pages step.2 * WEEK.

Lemma progressRow_inv now raw p : progressRow now raw = Ok p →
  0 <= pg_pages p ∧ ∃ v, validateHistoryCheckpoint now v = Ok (pg_checkpoint p).
Proof.
  unfold progressRow. intros H. apply bind_Ok in H as (row & _ & H). apply bind_Ok in H as (b & _ & H).
  apply bind_Ok in H as (n & Hn & H). apply bind_Ok in H as (c & Hc & H). destruct (negb _); [done|]. injection H as <-.
  split; [by eapply checkpoint_integer_again|by eexists].
Qed.

Lemma checkpoint_coverage now v c cov : validateHistoryCheckpoint now v = Ok c → coverage c = Some cov →
  cov_since cov = hk_baselineSince c ∧ cov_since cov <= cov_through cov ∧ ∃ s, hk_scannedThrough c = Some s ∧ cov_through cov <= s.
Proof.
  intros H Hcov. apply validateHistoryCheckpoint_inv in H as (_ & _ & _ & _ & _ & _ & _ & _ & _ & _ & _ & _ & _ & [w Hc] & _).
  unfold coverage in Hcov. destruct (hk_coverage c) as [[cov'|]|]; try done. injection Hcov as ->.
  assert (∃ row, w = JObject row) as [row ->] by (destruct w; try done; by eexists).
  cbn in Hc. destruct (assoc "version" row); try done. destruct (isStringMember _ _); [|done]. destruct (assoc "since" row); try done.
  destruct (assoc "through" row); try done. destruct (hk_scannedThrough c) as [sc|]; [|done]. destruct (_ && _) eqn:E; [|done].
  injection Hc as <-. cbn. rewrite !andb_true_iff, Z.eqb_eq, !Z.leb_le in E. split_and!; try lia. exists sc. split; [done|lia].
Qed.

Lemma assertHistoryContinuation_inv c p u : assertHistoryContinuation c p = Ok u →
  hk_baselineSince (pg_checkpoint p) = hk_baselineSince c ∧ assertCoverageContinuation c p = Ok tt ∧ assertRetentionContinuation c p = Ok tt.
Proof.
  unfold assertHistoryContinuation. destruct (_ || _) eqn:E; [done|]. rewrite !orb_false_iff, !negb_false_iff, !Z.eqb_eq in E.
  destruct (some_and _ _); [done|]. intros H. apply bind_Ok in H as ([] & H1 & H). apply bind_Ok in H as ([] & H2 & H).
  split; [apply E|done].
Qed.

(** What a step may do to the coverage. *)
Lemma assertCoverageContinuation_inv c p u : assertCoverageContinuation c p = Ok u →
  match coverage c, coverage (pg_checkpoint p) with
  | None, None => True
  | Some _, None => False
  | old, Some next =>
      (∀ o, old = Some o → cov_profile next = cov_profile o ∧ cov_since next = cov_since o ∧ cov_through o <= cov_through next) ∧
      ((∃ o, old = Some o ∧ cov_through next = cov_through o) ∨
       (pg_pages p ≠ 0 ∧ hk_windowSince c <= match old with Some o => cov_through o | None => hk_baselineSince c end ∧
        cov_through next <= hk_windowSince c + pg_pages p * WEEK))
  end.
Proof.
  unfold assertCoverageContinuation, coverage. intros H. destruct (mjoin (hk_coverage c)) as [o|], (mjoin (hk_coverage (pg_checkpoint p))) as [next|]; try done; cbn [some_and] in H.
  - destruct (_ || _) eqn:E in H; [done|]. rewrite !orb_false_iff, !negb_false_iff, bool_decide_eq_true, Z.eqb_eq, Z.ltb_ge in E.
    split; [intros o' [= <-]; naive_solver|]. destruct (Z.eqb_spec (cov_through next) (cov_through o)); [left; eauto|right].
    apply bind_Ok in H as ([] & _ & H). destruct (_ || _) eqn:E2; [done|].
    rewrite !orb_false_iff, Z.eqb_neq, !Z.gtb_ltb, !Z.ltb_ge in E2. naive_solver.
  - split; [done|]. right. apply bind_Ok in H as ([] & _ & H). destruct (_ || _) eqn:E2; [done|].
    rewrite !orb_false_iff, Z.eqb_neq, !Z.gtb_ltb, !Z.ltb_ge in E2. naive_solver.
Qed.

(** ** Properties *)

(** Claimed fill coverage has no unread gap.  Follow any traversal whose
    progress was validated and accepted step by step, from a checkpoint without
    coverage.  Whatever range the final checkpoint claims starts at the original
    baseline, does not exceed the scanned range, and every instant of it lies in
    the window some step actually read pages of. *)
Theorem coverage_contiguous start steps c cov : traversal start steps c → coverage start = None → coverage c = Some cov →
  cov_since cov = hk_baselineSince start ∧ cov_since cov <= cov_through cov ∧
  (∃ s, hk_scannedThrough c = Some s ∧ cov_through cov <= s) ∧
  ∀ t, cov_since cov <= t <= cov_through cov → ∃ step, step ∈ steps ∧ read_window step t.
Proof.
  intros Ht H0. revert cov.
  cut (hk_baselineSince c = hk_baselineSince start ∧ ∀ cov, coverage c = Some cov →
    cov_since cov = hk_baselineSince start ∧ cov_since cov <= cov_through cov ∧
    (∃ s, hk_scannedThrough c = Some s ∧ cov_through cov <= s) ∧
    ∀ t, cov_since cov <= t <= cov_through cov → ∃ step, step ∈ steps ∧ read_window step t); [by intros [_ K]|].
  induction Ht as [|steps c p now raw Ht IH Hp Hc]; [split; [done|intros cov Hcov; congruence]|]. destruct (IH) as [Hb IHc].
  apply progressRow_inv in Hp as (Hpages & v & Hv). apply assertHistoryContinuation_inv in Hc as (Hbase & Hcov & _).
  split; [congruence|]. intros cov Ecov. destruct (checkpoint_coverage _ _ _ _ Hv Ecov) as (Hs & Hle & Hscan).
  split_and!; [congruence|done|done|]. intros t Htt. apply assertCoverageContinuation_inv in Hcov. rewrite Ecov in Hcov.
  assert (0 < pg_pages p → hk_windowSince c <= t → t <= hk_windowSince c + pg_pages p * WEEK → ∃ step, step ∈ steps ++ [(c, p)] ∧ read_window step t) as Hnew.
  { intros. exists (c, p). split; [apply elem_of_app; right; by left|by split; cbn; [done|lia]]. }
  destruct (coverage c) as [o|] eqn:Eo.
  - destruct Hcov as [Hsame Hadv]. destruct (Hsame o eq_refl) as (_ & Es & _). destruct (IHc o eq_refl) as (_ & _ & _ & Hold).
    destruct (Z.le_gt_cases t (cov_through o)) as [Hto|Hto].
    + destruct (Hold t ltac:(lia)) as (st & Hin & Hr). exists st. split; [apply elem_of_app; by left|done].
    + destruct Hadv as [(o' & [= <-] & ?)|(? & ? & ?)]; [lia|]. apply Hnew; lia.
  - destruct Hcov as [_ [(o' & [=] & _)|(? & ? & ?)]]. apply Hnew; lia.
Qed.

(** A fill traversal over one page, then idle. *)
Definition history_start : ExchangeHistoryCheckpoint :=
  mkHistory "fills" None 0 1000 1000 None None None 0 "unknown" None None None None.

Definition history_next : ExchangeHistoryCheckpoint :=
  mkHistory "fills" None 1 1000 5000 None None (Some 5000) 9000 "complete" None None (Some (Some (mkCoverage KRAKEN_PROFILE 1000 5000))) None.

(** A stored checkpoint reads back as itself at any later time: whatever the
    validator accepted, with or without coverage, provider identity and
    retention probe, is printed and validated again unchanged. *)
Theorem checkpoint_revalidates now now' v c : validateHistoryCheckpoint now v = Ok c → now <= now' →
  validateHistoryCheckpoint now' (checkpointJson c) = Ok c.
Proof. apply checkpoint_again. Qed.

(** The probe of a step that is not over. *)
Definition probing (step : ExchangeHistoryCheckpoint * ExchangeHistoryProgress) : Prop :=
  ∃ r, retention step.1 = Some r ∧ rt_phase r ≠ "proved".

(** [next] continues the probe [old] with at most [pages] phases more. *)
Definition probe_continues (old next : ExchangeHistoryRetention) (pages : Z) : Prop :=
  rt_originalSince next = rt_originalSince old ∧ rt_originalUntil next = rt_originalUntil old ∧ rt_startedAt next = rt_startedAt old ∧
  (∀ a, rt_anchor old = Some a → rt_anchor next = Some a) ∧ (∀ f, rt_fixedUntil old = Some f → rt_fixedUntil next = Some f) ∧
  rt_count old <= rt_count next ∧ rt_cursor old <= rt_cursor next ∧
  phase_index (rt_phase old) <= phase_index (rt_phase next) <= phase_index (rt_phase old) + pages.

Lemma some_and_false {A} (o : option A) p : some_and o p = false ↔ ∀ a, o = Some a → p a = false.
Proof. destruct o; cbn; naive_solver. Qed.

Lemma retention_step c p u o n : assertRetentionContinuation c p = Ok u → retention c = Some o → rt_phase o ≠ "proved" →
  retention (pg_checkpoint p) = Some n → probe_continues o n (pg_pages p).
Proof.
  unfold assertRetentionContinuation, retention. intros H Ho Hph Hn. rewrite Ho, Hn in H. destruct (_ && _); [done|].
  rewrite bool_decide_false in H by done. rewrite Z.gtb_ltb in H. destruct (Z.ltb_spec (pg_pages p) (phase_index (rt_phase n) - phase_index (rt_phase o))); [done|].
  unfold assertBoundRetentionContinuation in H. destruct (_ || _) eqn:E; [done|].
  rewrite !orb_false_iff, !negb_false_iff, !Z.eqb_eq, !Z.ltb_ge, !some_and_false in E.
  destruct E as (((((((E1 & E2) & E3) & E4) & E5) & E6) & E7) & E8). unfold probe_continues. split_and!; try done; try lia.
  - intros a Ha. specialize (E4 a Ha). apply negb_false_iff, bool_decide_eq_true in E4. congruence.
  - intros f Hf. specialize (E5 f Hf). apply negb_false_iff, bool_decide_eq_true in E5. congruence.
Qed.

Lemma probe_continues_trans a b c m n : probe_continues a b m → probe_continues b c n → probe_continues a c (m + n).
Proof. unfold probe_continues. intros (? & ? & ? & ? & ? & ? & ? & ?) (? & ? & ? & ? & ? & ? & ? & ?). split_and!; try congruence; try lia; eauto. Qed.

(** The retention probe cannot be rushed or rebound.  As long as a traversal
    keeps its unfinished probe, the probe keeps its original window, start,
    anchor and horizon, its counters only grow, its phase never goes back and
    advances by at most the pages read; so reaching [proved] from [witness]
    takes at least four pages. *)
Theorem retention_probe_bound start steps c r0 r : traversal start steps c → retention start = Some r0 →
  Forall probing steps → retention c = Some r → probe_continues r0 r (sumZ (map (λ step, pg_pages step.2) steps)).
Proof.
  intros Ht H0 Hf. revert r. induction Ht as [|steps c p now raw Ht IH Hp Hc]; intros r Hr.
  { rewrite H0 in Hr. injection Hr as ->. unfold probe_continues. cbn. split_and!; (done || lia). }
  apply Forall_app in Hf as [Hf Hl]. apply Forall_singleton in Hl as (o & Ho & Hph). cbn [fst] in Ho.
  apply assertHistoryContinuation_inv in Hc as (_ & _ & Hret). rewrite map_app, sumZ_app. cbn [map sumZ]. rewrite Z.add_0_r.
  eapply probe_continues_trans; [by apply IH|by eapply retention_step].
Qed.

Definition probe (phase : string) (count : Z) (anchor : option RetentionAnchor) : ExchangeHistoryRetention :=
  mkRetention phase 1000 5000 6000 None 0 count anchor None.

Definition probe_start : ExchangeHistoryCheckpoint :=
  mkHistory "fills" None 0 1000 1000 (Some 5000) None None 0 "partial" None None None (Some (Some (probe "witness" 0 None))).
Definition probe_next : ExchangeHistoryCheckpoint :=
  mkHistory "fills" None 1 1000 1000 (Some 5000) None None 0 "partial" None None None
    (Some (Some (mkRetention "horizon" 1000 5000 6000 None 900 7
       (Some (mkAnchor "BTC" "1" 900 "aaaaaaaaaaaaaaaaaaaaaaaaaaaaaaaaaaaaaaaaaaaaaaaaaaaaaaaaaaaaaaaa")) None))).
