(* ===== verification/Safety.v ===== *)
(** Safety: the protective stop of a position, [src/trading_protection.ts], and
    the safety proofs that gate admission, release and closure,
    [src/trading_safety_proof.ts].

    [evaluateTradingSafety] collects the reasons against a purpose from one
    evidence record; a proof is safe when there is none.  The hash of the
    evidence, the binding and the candidate exemption are only carried by the
    code and are left out, as is the structured clone of the exemption. *)

From S2P Require Import Prelude Text Decimal Types Json FxSizing Orders History.
Local Open Scope Z_scope.

(** ** Protective stops *)
Record ProtectionOrder := mkProtectionOrder {
  pn_accountId : string;
  pn_intentId : string;
  pn_clientOrderId : option string;
  pn_exchangeOrderId : option string;
  pn_symbol : string;
  pn_role : string;
  pn_side : string;
  pn_status : string;
  pn_reduceOnly : bool;
  pn_quantity : string;
  pn_filledQuantity : option string;
  pn_triggerPrice : option string }.

Record ProtectionNeed := mkNeed {
  nd_accountId : string;
  nd_intentId : string;
  nd_symbol : string;
  nd_side : TradingSide;
  nd_quantity : string;
  nd_minimumTrigger : option string }.

Record StopCoverage := mkStopCoverage { cv_protected : bool; cv_remainingQuantity : option string; cv_reason : option string }.

Definition no (reason : string) (remainingQuantity : option string) : StopCoverage := mkStopCoverage false remainingQuantity (Some reason).

(** The body of the [try]. *)
Definition stopAmounts (order : ProtectionOrder) (need : ProtectionNeed) (filledQuantity : string) : result StopCoverage :=
  quantity ← decimal (pn_quantity order) true None;
  filled ← decimal filledQuantity false None;
  remaining ← subtractDecimal quantity filled;
  c ← compareDecimal remaining "0";
  if c <=? 0 then Ok (no "STOP_EXHAUSTED" (Some remaining))
  else match pn_triggerPrice order with
  | None => Ok (no "STOP_EVIDENCE_INVALID" None)
  | Some triggerPrice =>
      trigger ← decimal triggerPrice true None;
      loose ← match nd_minimumTrigger need with
              | None => Ok false
              | Some m =>
                  minimum ← decimal m true None;
                  change ← compareDecimal trigger minimum;
                  Ok (match nd_side need with LONG => change <? 0 | SHORT => change >? 0 end)
              end;
      if (loose : bool) then Ok (no "STOP_TRIGGER_TOO_LOOSE" (Some remaining))
      else
        needed ← decimal (nd_quantity need) false None;
        d ← compareDecimal remaining needed;
        if d <? 0 then Ok (no "STOP_REMAINING_INSUFFICIENT" (Some remaining))
        else Ok (mkStopCoverage true (Some remaining) None)
  end.

Definition stopAmountsCoverage (order : ProtectionOrder) (need : ProtectionNeed) : StopCoverage :=
  match pn_filledQuantity order with
  | None => no "STOP_QUANTITY_UNKNOWN" None
  | Some filledQuantity =>
      match stopAmounts order need filledQuantity with Ok coverage => coverage | Err _ => no "STOP_EVIDENCE_INVALID" None end
  end.

Definition closing_side (side : TradingSide) : string := match side with LONG => "sell" | SHORT => "buy" end.

Definition protectiveStopCoverage (order : ProtectionOrder) (need : ProtectionNeed) : StopCoverage :=
  if negb (bool_decide (pn_accountId order = nd_accountId need)) || negb (bool_decide (pn_intentId order = nd_intentId need))
     || negb (bool_decide (pn_symbol order = nd_symbol need))
     || bool_decide (truthy (pn_clientOrderId order) = None) || bool_decide (truthy (pn_exchangeOrderId order) = None)
  then no "STOP_BINDING_MISMATCH" None
  else if negb (bool_decide (pn_status order ∈ ["open"; "partially_filled"])) then no "STOP_NOT_ACTIVE" None
  else if negb (bool_decide (pn_role order = "stop_loss")) || negb (pn_reduceOnly order)
          || negb (bool_decide (pn_side order = closing_side (nd_side need)))
  then no "STOP_SEMANTICS_INVALID" None
  else stopAmountsCoverage order need.

(** The [reduce] over the entries. *)
Fixpoint addRemaining (quantity : string) (entries : list ProtectionOrder) : result string :=
  match entries with
  | [] => Ok quantity
  | entry :: rest =>
      if TERMINAL_ORDER_STATES (pn_status entry) then addRemaining quantity rest
      else match pn_filledQuantity entry with
      | None => throw "Entry remaining quantity is not proved."
      | Some f =>
          total ← decimal (pn_quantity entry) true None;
          filled ← decimal f false None;
          remaining ← subtractDecimal total filled;
          quantity' ← addDecimal quantity remaining;
          addRemaining quantity' rest
      end
  end.

Definition requiredStopQuantity (positionQuantity : string) (entries : list ProtectionOrder) : result string :=
  quantity ← decimal positionQuantity false None; addRemaining quantity entries.

(** [storedProtectionNeed] over the active position and the orders the queries return. *)
Definition storedProtectionNeed (position : option ProtectionNeed) (orders : list ProtectionOrder)
    : result (ProtectionNeed * bool) :=
  match position with
  | None => throw "Protection check has no active managed position."
  | Some position =>
      quantity ← requiredStopQuantity (nd_quantity position) (filter (λ order, pn_role order = "entry") orders);
      let need := mkNeed (nd_accountId position) (nd_intentId position) (nd_symbol position) (nd_side position) quantity (nd_minimumTrigger position) in
      Ok (need, existsb (λ order, cv_protected (protectiveStopCoverage order need)) orders)
  end.

(** ** Evidence *)
Inductive SafetyPurpose := entryAdmission | entriesDrained | positionProtected | tradeClosed | accountRelease.
#[export] Instance SafetyPurpose_eq_dec : EqDecision SafetyPurpose.
Proof. solve_decision. Defined.

Record SafetyOrder := mkSafetyOrder { so_order : ProtectionOrder; so_remoteConfirmed : bool }.

Record SafetyPosition := mkSafetyPosition {
  sp_need : ProtectionNeed;
  sp_ownership : option OwnershipProof;
  sp_remoteMatches : bool;
  sp_projectionMatches : option bool }.

Record SafetyOperation := mkOperation { op_id : string; op_intentId : string; op_phase : string; op_hasEntry : bool }.

Record HistoricalTradeSafety := mkHistorical {
  ht_intentId : string;
  ht_accountId : string;
  ht_hasEntryHistory : bool;
  ht_ownership : option OwnershipProof;
  ht_closedProjectionQuantity : option string }.

(** [binding] is read only for its account. *)
Record SafetyEvidence := mkSafetyEvidence {
  ev_accountId : string;
  ev_identityVerified : bool;
  ev_stateCurrent : bool;
  ev_accountReady : bool;
  ev_entryAllowed : bool;
  ev_acquisition : option ExchangeAcquisitionEvidence;
  ev_minimumAcquisitionStart : Z;
  ev_requiredSince : Z;
  ev_now : Z;
  ev_orders : list SafetyOrder;
  ev_positions : list SafetyPosition;
  ev_operations : list SafetyOperation;
  ev_unresolvedEvidence : Z;
  ev_fillIdentityUnresolved : Z;
  ev_foreignOrders : Z;
  ev_foreignPositions : Z;
  ev_blockingIncidents : list string;
  ev_reviewRequiredIntents : list string;
  ev_balanceVerified : bool;
  ev_historyExchange : option string;
  ev_runtimeCurrent : option bool;
  ev_historicalTrades : option (list HistoricalTradeSafety) }.

Record SafetyReason := mkReason { rs_code : string; rs_intentId : option string; rs_orderId : option string }.
#[export] Instance SafetyReason_eq_dec : EqDecision SafetyReason.
Proof. solve_decision. Defined.

Definition reason (code : string) : SafetyReason := mkReason code None None.
Definition intent_reason (code intentId : string) : SafetyReason := mkReason code (Some intentId) None.

(** [if (condition) reasons.push(reason)] *)
Definition push_if (condition : bool) (r : SafetyReason) : list SafetyReason := if condition then [r] else [].

Definition FRESHNESS_MS : Z := 30000.
Definition terminal (status : string) : bool := TERMINAL_ORDER_STATES status.
Definition pending (operation : SafetyOperation) : bool := negb (bool_decide (op_phase operation ∈ ["resolved"; "abandoned"])).

Definition historicalCoverageReasons (input : SafetyEvidence) : list SafetyReason :=
  match truthy (ev_historyExchange input), ev_acquisition input with
  | Some exchange, Some acquisition =>
      match fillCoverageReason exchange acquisition (ev_requiredSince input) with Some code => [reason code] | None => [] end
  | _, _ => []
  end.

(** The body of the loop over the three sources, with the upper-cased name. *)
Definition sourceReasons (input : SafetyEvidence) (acquisition : ExchangeAcquisitionEvidence) (source name : string) : list SafetyReason :=
  let sources := filter (λ item, sr_source item = source) (aq_sources acquisition) in
  push_if (bool_decide (sources = []) || existsb (λ item, negb (bool_decide (sr_completeness item = "complete"))) sources)
    (reason ("SOURCE_" +:+ name +:+ "_INCOMPLETE"))
  ++ push_if (existsb (λ item, (sr_startedAt item <? aq_startedAt acquisition) || (sr_completedAt item >? aq_completedAt acquisition)
                               || (sr_completedAt item <? sr_startedAt item)) sources)
    (reason "SOURCE_WINDOW_INVALID")
  ++ push_if (bool_decide (source = "fills")
              && existsb (λ item, match sr_since item with None => true | Some since => since >? ev_requiredSince input end) sources)
    (reason "FILL_BASELINE_UNPROVED").

Definition acquisitionReasons (input : SafetyEvidence) : list SafetyReason :=
  match ev_acquisition input with
  | None => [reason "ACQUISITION_MISSING"]
  | Some acquisition =>
      push_if (negb (aq_version acquisition =? 1) || negb (isSafeInteger (aq_startedAt acquisition)) || negb (isSafeInteger (aq_completedAt acquisition))
               || (aq_startedAt acquisition <? ev_minimumAcquisitionStart input) || (aq_completedAt acquisition <? aq_startedAt acquisition)
               || (aq_completedAt acquisition >? ev_now input) || (ev_now input - aq_startedAt acquisition >? FRESHNESS_MS))
        (reason "ACQUISITION_NOT_FRESH")
      ++ sourceReasons input acquisition "orders" "ORDERS"
      ++ sourceReasons input acquisition "positions" "POSITIONS"
      ++ sourceReasons input acquisition "fills" "FILLS"
      ++ historicalCoverageReasons input
  end.

Definition orderQuantityValid (order : ProtectionOrder) : bool :=
  match pn_filledQuantity order with
  | None => false
  | Some f =>
      match (quantity ← decimal (pn_quantity order) true None;
             filled ← decimal f false None;
             c ← compareDecimal filled quantity;
             Ok ((c <=? 0) && (negb (bool_decide (pn_status order = "filled")) || (c =? 0)))) with
      | Ok b => b
      | Err _ => false
      end
  end.

Definition order_reason (code : string) (order : ProtectionOrder) : SafetyReason :=
  mkReason code (Some (pn_intentId order)) (pn_clientOrderId order).

Definition commitmentReason (operations : list SafetyOperation) (allExits : bool) (order : ProtectionOrder) : list SafetyReason :=
  let uncertain := existsb (λ operation, bool_decide (op_intentId operation = pn_intentId order) && op_hasEntry operation && pending operation) operations in
  match (if bool_decide (pn_role order = "entry") then entryCommitmentReason (pn_status order) uncertain
         else if allExits && negb (terminal (pn_status order)) then Some "EXIT_SIBLING_NOT_TERMINAL" else None) with
  | Some code => [order_reason code order]
  | None => []
  end.

Definition commitmentReasons (orders : list SafetyOrder) (operations : list SafetyOperation) (allExits : bool) : list SafetyReason :=
  flat_map (λ o, commitmentReason operations allExits (so_order o)) orders.

Definition need_for (need : ProtectionNeed) (quantity : string) : ProtectionNeed :=
  mkNeed (nd_accountId need) (nd_intentId need) (nd_symbol need) (nd_side need) quantity (nd_minimumTrigger need).

Definition positionReasons (position : SafetyPosition) (orders : list SafetyOrder) (closed : bool) : list SafetyReason :=
  let intentId := nd_intentId (sp_need position) in
  match sp_ownership position with
  | None => [intent_reason "OWNED_QUANTITY_UNPROVED" intentId]
  | Some ownership =>
      if negb (sp_remoteMatches position) then [intent_reason "REMOTE_OWNERSHIP_MISMATCH" intentId]
      else if closed then (if bool_decide (ow_netQuantity ownership = "0") then [] else [intent_reason "OWNED_POSITION_NOT_FLAT" intentId])
      else if bool_decide (sp_projectionMatches position = Some false) then [intent_reason "POSITION_PROJECTION_MISMATCH" intentId]
      else
        let own := filter (λ o, pn_intentId (so_order o) = intentId) orders in
        match requiredStopQuantity (ow_netQuantity ownership) (map so_order (filter (λ o, pn_role (so_order o) = "entry") own)) with
        | Err _ => [intent_reason "PROTECTION_QUANTITY_UNPROVED" intentId]
        | Ok quantity =>
            if bool_decide (quantity = "0") then []
            else if existsb (λ o, so_remoteConfirmed o && cv_protected (protectiveStopCoverage (so_order o) (need_for (sp_need position) quantity))) own
            then [] else [intent_reason "POSITION_NOT_PROTECTED" intentId]
        end
  end.

Definition historicalTradeReason (accountId : string) (trade : HistoricalTradeSafety) : list SafetyReason :=
  let r code := intent_reason code (ht_intentId trade) in
  push_if (negb (bool_decide (ht_accountId trade = accountId))) (r "HISTORICAL_ACCOUNT_MISMATCH")
  ++ push_if (negb (ht_hasEntryHistory trade)) (r "HISTORICAL_ENTRY_MISSING")
  ++ match ht_ownership trade with
     | None => [r "HISTORICAL_OWNERSHIP_UNPROVED"]
     | Some ownership => push_if (negb (bool_decide (ow_netQuantity ownership = "0"))) (r "HISTORICAL_TRADE_NOT_FLAT")
     end
  ++ match ht_closedProjectionQuantity trade with
     | None => []
     | Some q => push_if (negb (bool_decide (q = "0"))) (r "CLOSED_POSITION_NOT_ZERO")
     end.

Definition historicalTradeReasons (input : SafetyEvidence) : list SafetyReason :=
  flat_map (historicalTradeReason (ev_accountId input)) (default [] (ev_historicalTrades input)).

Definition admissionReasons (input : SafetyEvidence) (purpose : SafetyPurpose) : list SafetyReason :=
  if negb (bool_decide (purpose ∈ [entryAdmission; accountRelease])) then []
  else
    push_if (negb (ev_accountReady input)) (reason "ACCOUNT_NOT_VERIFIED_READY")
    ++ push_if (negb (ev_balanceVerified input)) (reason "ACCOUNT_BALANCE_UNPROVED")
    ++ push_if (bool_decide (purpose = entryAdmission) && negb (ev_entryAllowed input)) (reason "ENTRY_ADMISSION_DISABLED")
    ++ map (λ _, reason "BLOCKING_ACCOUNT_INCIDENT") (ev_blockingIncidents input)
    ++ map (λ intentId, intent_reason "TRADE_REVIEW_REQUIRED" intentId) (ev_reviewRequiredIntents input)
    ++ historicalTradeReasons input.

Record Scope := mkScope { scope_orders : list SafetyOrder; scope_operations : list SafetyOperation; scope_positions : list SafetyPosition }.

Definition in_scope (intentId : option string) (id : string) : bool :=
  match intentId with None => true | Some i => bool_decide (id = i) end.

Definition scopeEvidence (input : SafetyEvidence) (intentId : option string) : Scope :=
  mkScope (filter (λ o, Is_true (in_scope intentId (pn_intentId (so_order o)))) (ev_orders input))
          (filter (λ o, Is_true (in_scope intentId (op_intentId o))) (ev_operations input))
          (filter (λ p, Is_true (in_scope intentId (nd_intentId (sp_need p)))) (ev_positions input)).

Definition remoteReasons (input : SafetyEvidence) : list SafetyReason :=
  push_if (negb (ev_identityVerified input)) (reason "ACCOUNT_IDENTITY_UNPROVED")
  ++ push_if (negb (ev_stateCurrent input)) (reason "ACCOUNT_STATE_CHANGED")
  ++ push_if (bool_decide (ev_runtimeCurrent input = Some false)) (reason "RUNTIME_GENERATION_CHANGED")
  ++ push_if (ev_unresolvedEvidence input >? 0) (reason "REMOTE_EVENTS_UNRESOLVED")
  ++ push_if (negb (isSafeInteger (ev_fillIdentityUnresolved input)) || negb (ev_fillIdentityUnresolved input =? 0)) (reason "FILL_IDENTITY_UNPROVEN")
  ++ push_if (ev_foreignOrders input >? 0) (reason "FOREIGN_ORDER_PRESENT")
  ++ push_if (ev_foreignPositions input >? 0) (reason "FOREIGN_POSITION_PRESENT").

Definition localOrderReasons (accountId : string) (o : SafetyOrder) : list SafetyReason :=
  let order := so_order o in
  push_if (negb (bool_decide (pn_accountId order = accountId))) (order_reason "ORDER_ACCOUNT_MISMATCH" order)
  ++ push_if (negb (orderQuantityValid order)) (order_reason "ORDER_QUANTITY_UNPROVED" order)
  ++ push_if (bool_decide (pn_status order ∈ ["submitting"; "unknown"; "cancel_pending"])) (order_reason "ORDER_OUTCOME_UNRESOLVED" order)
  ++ push_if (negb (terminal (pn_status order)) && negb (bool_decide (pn_status order = "created")) && negb (so_remoteConfirmed o))
       (order_reason "ACTIVE_ORDER_NOT_OBSERVED" order).

Definition purposeReasons (input : SafetyEvidence) (scope : Scope) (purpose : SafetyPurpose) (intentId : option string) : list SafetyReason :=
  let has_intent := negb (bool_decide (truthy intentId = None)) in
  push_if (bool_decide (purpose ∈ [tradeClosed; positionProtected]) && (negb has_intent || negb (length (scope_positions scope) =? 1)%nat))
    (reason "TRADE_SCOPE_UNPROVED")
  ++ push_if ((bool_decide (purpose = tradeClosed) || (bool_decide (purpose = entriesDrained) && has_intent))
              && negb (existsb (λ o, bool_decide (pn_role (so_order o) = "entry")) (scope_orders scope)))
       (reason "ENTRY_HISTORY_MISSING")
  ++ flat_map (λ position, push_if (negb (bool_decide (nd_accountId (sp_need position) = ev_accountId input)))
       (intent_reason "POSITION_ACCOUNT_MISMATCH" (nd_intentId (sp_need position)))) (scope_positions scope)
  ++ push_if (negb (bool_decide (purpose = positionProtected)) && existsb pending (scope_operations scope))
       (reason "EXCHANGE_OPERATION_UNRESOLVED")
  ++ (if bool_decide (purpose ∈ [entriesDrained; accountRelease; tradeClosed])
      then commitmentReasons (scope_orders scope) (scope_operations scope) (bool_decide (purpose = tradeClosed)) else [])
  ++ (if bool_decide (purpose = entriesDrained) then []
      else flat_map (λ position, positionReasons position (scope_orders scope) (bool_decide (purpose = tradeClosed))) (scope_positions scope)).

(** [[...new Map(reasons.map(reason => [JSON.stringify(reason), reason])).values()]]:
    the first position of each distinct reason. *)
Definition unique (reasons : list SafetyReason) : list SafetyReason :=
  fold_left (λ acc r, if decide (r ∈ acc) then acc else acc ++ [r]) reasons [].

Record TradingSafetyProof := mkSafetyProof {
  tp_purpose : SafetyPurpose;
  tp_intentId : option string;
  tp_safe : bool;
  tp_reasons : list SafetyReason;
  tp_evaluatedAt : Z;
  tp_acquisitionStartedAt : option Z;
  tp_acquisitionCompletedAt : option Z }.

Definition evaluateTradingSafety (input : SafetyEvidence) (purpose : SafetyPurpose) (intentId : option string) : TradingSafetyProof :=
  let scope := scopeEvidence input intentId in
  let reasons := acquisitionReasons input ++ remoteReasons input ++ purposeReasons input scope purpose intentId
    ++ flat_map (localOrderReasons (ev_accountId input)) (scope_orders scope) ++ admissionReasons input purpose in
  let unique := unique reasons in
  mkSafetyProof purpose intentId (bool_decide (unique = [])) unique (ev_now input)
    (aq_startedAt <$> ev_acquisition input) (aq_completedAt <$> ev_acquisition input).

Definition purpose_text (p : SafetyPurpose) : string :=
  match p with entryAdmission => "entryAdmission" | entriesDrained => "entriesDrained" | positionProtected => "positionProtected"
             | tradeClosed => "tradeClosed" | accountRelease => "accountRelease" end.

(** The codes without repetition, in order. *)
Definition distinct_codes (l : list string) : list string :=
  fold_left (λ acc s, if decide (s ∈ acc) then acc else acc ++ [s]) l [].

Definition assertTradingSafety (proof : TradingSafetyProof) : result unit :=
  if tp_safe proof then Ok tt
  else throw_code "SAFETY_PROOF_REJECTED"
    ("Safety proof " +:+ purpose_text (tp_purpose proof) +:+ " rejected: " +:+ join ", " (distinct_codes (map rs_code (tp_reasons proof)))).

(** ** Quantities *)
(** What the non-terminal entries can still execute. *)
Fixpoint entryExposure (entries : list ProtectionOrder) : option Z :=
  match entries with
  | [] => Some 0
  | entry :: rest =>
      if TERMINAL_ORDER_STATES (pn_status entry) then entryExposure rest
      else
        f ← pn_filledQuantity entry;
        q ← units (trim (pn_quantity entry));
        z ← units (trim f);
        e ← entryExposure rest;
        Some (q - z + e)
  end.

Lemma addRemaining_inv entries z s : 0 <= z → addRemaining (dec z) entries = Ok s →
  ∃ e, entryExposure entries = Some e ∧ 0 <= e ∧ s = dec (z + e).
Proof.
  revert z. induction entries as [|x l IH]; intros z Hz H; cbn [addRemaining entryExposure] in *.
  { injection H as <-. exists 0. split_and!; [done|lia|f_equal; lia]. }
  destruct (TERMINAL_ORDER_STATES (pn_status x)); [by apply IH|]. destruct (pn_filledQuantity x) as [f|]; [|done].
  apply bind_Ok in H as (q' & Hq & H). apply bind_Ok in H as (f' & Hf & H). apply bind_Ok in H as (r & Hr & H). apply bind_Ok in H as (t & Ht & H).
  apply decimal_inv in Hq as (q & Eq & -> & Bq & _). apply decimal_inv in Hf as (fz & Ef & -> & Bf & _).
  apply subtractDecimal_inv in Hr as (a & b & Ha & Hb & Hle & ->). rewrite units_dec_lt in Ha, Hb by lia. injection Ha as <-. injection Hb as <-.
  apply addDecimal_inv in Ht as (a & b & Ha & Hb & ->). apply units_dec_Some in Ha as [-> _]; [|done]. apply units_dec_Some in Hb as [-> _]; [|lia].
  apply IH in H as (e & He & Hpos & ->); [|lia]. exists (q - fz + e). cbn [mbind option_bind]. rewrite Eq, Ef, He. cbn [mbind option_bind].
  split_and!; [done|lia|f_equal; lia].
Qed.

Lemma requiredStopQuantity_inv p entries s : requiredStopQuantity p entries = Ok s →
  ∃ z e, units (trim p) = Some z ∧ entryExposure entries = Some e ∧ 0 <= z ∧ 0 <= e ∧ s = dec (z + e).
Proof.
  unfold requiredStopQuantity. intros H. apply bind_Ok in H as (q & Hq & H). apply decimal_inv in Hq as (z & Hz & -> & B & _).
  apply addRemaining_inv in H as (e & He & Hpos & ->); [|lia]. exists z, e. split_and!; (done || lia).
Qed.

(** An order that protects a need of [n] units. *)
Record stop_protects (order : ProtectionOrder) (need : ProtectionNeed) (n : Z) : Prop := mkStopProtects {
  stp_account : pn_accountId order = nd_accountId need;
  stp_intent : pn_intentId order = nd_intentId need;
  stp_symbol : pn_symbol order = nd_symbol need;
  stp_active : pn_status order ∈ ["open"; "partially_filled"];
  stp_role : pn_role order = "stop_loss" ∧ pn_reduceOnly order = true ∧ pn_side order = closing_side (nd_side need);
  stp_quantity : ∃ fs q f, pn_filledQuantity order = Some fs ∧ units (trim (pn_quantity order)) = Some q ∧ units (trim fs) = Some f ∧
    n <= q - f ∧ 0 < q - f;
  stp_trigger : ∃ ts t, pn_triggerPrice order = Some ts ∧ units (trim ts) = Some t ∧ 0 < t ∧
    ∀ m, nd_minimumTrigger need = Some m → ∃ mz, units (trim m) = Some mz ∧
      match nd_side need with LONG => mz <= t | SHORT => t <= mz end }.

Lemma stopAmounts_sound order need f c : stopAmounts order need f = Ok c → cv_protected c = true →
  ∃ q fz n ts t, units (trim (pn_quantity order)) = Some q ∧ units (trim f) = Some fz ∧ units (trim (nd_quantity need)) = Some n ∧
    n <= q - fz ∧ 0 < q - fz ∧ pn_triggerPrice order = Some ts ∧ units (trim ts) = Some t ∧ 0 < t ∧
    ∀ m, nd_minimumTrigger need = Some m → ∃ mz, units (trim m) = Some mz ∧ match nd_side need with LONG => mz <= t | SHORT => t <= mz end.
Proof.
  unfold stopAmounts. intros H Hp. apply bind_Ok in H as (q' & Hq & H). apply bind_Ok in H as (f' & Hf & H).
  apply bind_Ok in H as (r & Hr & H). apply bind_Ok in H as (c0 & Hc0 & H).
  apply decimal_inv in Hq as (q & Eq & -> & Bq & _). apply decimal_inv in Hf as (fz & Ef & -> & Bf & _).
  apply subtractDecimal_inv in Hr as (a & b & Ha & Hb & Hle & ->). rewrite units_dec_lt in Ha, Hb by lia. injection Ha as <-. injection Hb as <-.
  apply compareDecimal_inv in Hc0 as (a & b & Ha & Hb & ->). rewrite units_dec_lt in Ha by lia. rewrite units_zero in Hb. injection Ha as <-. injection Hb as <-.
  destruct (Z.leb_spec (cmpZ (q - fz) 0) 0); [injection H as <-; done|]. destruct (pn_triggerPrice order) as [ts|]; [|injection H as <-; done].
  apply bind_Ok in H as (t' & Ht & H). apply bind_Ok in H as (loose & Hl & H). destruct loose; [injection H as <-; done|].
  apply bind_Ok in H as (n' & Hn & H). apply bind_Ok in H as (d & Hd & H). destruct (Z.ltb_spec d 0); [injection H as <-; done|].
  apply decimal_inv in Ht as (t & Et & -> & Bt & Hpt & _). apply decimal_inv in Hn as (n & En & -> & Bn & _).
  apply compareDecimal_inv in Hd as (a & b & Ha & Hb & ->). rewrite units_dec_lt in Ha, Hb by lia. injection Ha as <-. injection Hb as <-.
  exists q, fz, n, ts, t. split_and!; try done.
  - destruct (cmpZ_cases (q - fz) n) as [[? E]|[[? E]|[? E]]]; lia.
  - destruct (cmpZ_cases (q - fz) 0) as [[? E]|[[? E]|[? E]]]; lia.
  - by apply Hpt.
  - intros m Em. rewrite Em in Hl. apply bind_Ok in Hl as (m' & Hm & Hl). apply bind_Ok in Hl as (ch & Hch & Hl).
    apply decimal_inv in Hm as (mz & Emz & -> & Bm & _). apply compareDecimal_inv in Hch as (a & b & Ha & Hb & ->).
    rewrite units_dec_lt in Ha, Hb by lia. injection Ha as <-. injection Hb as <-. injection Hl as Hl. exists mz. split; [done|].
    destruct (cmpZ_spec t mz) as (K1 & K2 & _). destruct (nd_side need); [rewrite K1, Z.ltb_ge in Hl|rewrite K2, Z.ltb_ge in Hl]; lia.
Qed.

Lemma protectiveStopCoverage_sound order need : cv_protected (protectiveStopCoverage order need) = true →
  ∃ n, units (trim (nd_quantity need)) = Some n ∧ stop_protects order need n.
Proof.
  unfold protectiveStopCoverage. destruct (_ || _) eqn:E1; [done|]. rewrite !orb_false_iff, !negb_false_iff, !bool_decide_eq_true in E1.
  destruct (negb (bool_decide _)) eqn:E2; [done|]. rewrite negb_false_iff, bool_decide_eq_true in E2.
  destruct (_ || _) eqn:E3; [done|]. rewrite !orb_false_iff, !negb_false_iff, !bool_decide_eq_true in E3.
  unfold stopAmountsCoverage. destruct (pn_filledQuantity order) as [f|] eqn:Ef; [|done].
  destruct (stopAmounts order need f) as [c|] eqn:Es; [|done]. intros Hp.
  destruct (stopAmounts_sound _ _ _ _ Es Hp) as (q & fz & n & ts & t & Hq & Hf & Hn & Hle & Hpos & Ht & Htz & Htp & Hm).
  exists n. split; [done|]. destruct E1 as ((((? & ?) & ?) & _) & _). destruct E3 as ((? & ?) & ?).
  constructor; try done; [by exists f, q, fz|by exists ts, t].
Qed.

(** ** Empty reason lists *)
Lemma push_if_nil b r : push_if b r = [] ↔ b = false.
Proof. by destruct b. Qed.

Lemma app_nil_iff {A} (l k : list A) : l ++ k = [] ↔ l = [] ∧ k = [].
Proof. split; [apply app_eq_nil|by intros [-> ->]]. Qed.

Lemma flat_map_nil {A B} (f : A → list B) l : flat_map f l = [] ↔ ∀ x, x ∈ l → f x = [].
Proof.
  induction l as [|a l IH]; cbn; [split; [intros _ x Hx; by apply elem_of_nil in Hx|done]|].
  rewrite app_nil_iff, IH. setoid_rewrite elem_of_cons. naive_solver.
Qed.

Lemma existsb_false {A} (f : A → bool) l : existsb f l = false ↔ ∀ x, x ∈ l → f x = false.
Proof.
  induction l as [|a l IH]; cbn; [split; [intros _ x Hx; by apply elem_of_nil in Hx|done]|].
  rewrite orb_false_iff, IH. setoid_rewrite elem_of_cons. naive_solver.
Qed.

Lemma existsb_true {A} (f : A → bool) l : existsb f l = true ↔ ∃ x, x ∈ l ∧ f x = true.
Proof. rewrite existsb_exists. setoid_rewrite list_elem_of_In. done. Qed.

Lemma unique_nil reasons : unique reasons = [] ↔ reasons = [].
Proof.
  unfold unique. split; [|by intros ->].
  assert (∀ (l acc : list SafetyReason), acc ≠ [] → fold_left (λ acc r, if decide (r ∈ acc) then acc else acc ++ [r]) l acc ≠ []) as K.
  { induction l as [|r l IH]; intros acc Hacc; [done|]. cbn. apply IH. case_decide; [done|]. by intros [_ [=]]%app_eq_nil. }
  destruct reasons as [|r l]; [done|]. cbn. intros H. exfalso. revert H. apply K. by rewrite decide_False by by intros ?%elem_of_nil.
Qed.

(** Every distinct reason is reported once. *)
Lemma unique_elem reasons r : r ∈ unique reasons ↔ r ∈ reasons.
Proof.
  unfold unique. enough (∀ (l acc : list SafetyReason), r ∈ fold_left (λ acc r, if decide (r ∈ acc) then acc else acc ++ [r]) l acc ↔ r ∈ acc ∨ r ∈ l) as K
    by (rewrite K; split; [by intros [?%elem_of_nil|]|by right]).
  induction l as [|x l IH]; intros acc; cbn; [split; [by left|by intros [|?%elem_of_nil]]|].
  rewrite IH, elem_of_cons. case_decide as Hx; [naive_solver|]. rewrite elem_of_app, list_elem_of_singleton. tauto.
Qed.

Create Rewrite HintDb safety_reasons.
#[export] Hint Rewrite @app_nil_iff push_if_nil orb_false_iff andb_false_iff negb_false_iff negb_true_iff : safety_reasons.

Section Evaluate.
Context (input : SafetyEvidence).

Lemma evaluate_safe purpose intentId : tp_safe (evaluateTradingSafety input purpose intentId) = true ↔
  acquisitionReasons input = [] ∧ remoteReasons input = [] ∧ purposeReasons input (scopeEvidence input intentId) purpose intentId = [] ∧
  (∀ o, o ∈ scope_orders (scopeEvidence input intentId) → localOrderReasons (ev_accountId input) o = []) ∧
  admissionReasons input purpose = [].
Proof. cbn [evaluateTradingSafety tp_safe]. rewrite bool_decide_eq_true, unique_nil, !app_nil_iff, flat_map_nil. done. Qed.

(** A complete and current read of one source. *)
Definition source_complete (acquisition : ExchangeAcquisitionEvidence) (source : string) : Prop :=
  (∃ item, item ∈ aq_sources acquisition ∧ sr_source item = source) ∧
  ∀ item, item ∈ aq_sources acquisition → sr_source item = source →
    sr_completeness item = "complete" ∧ aq_startedAt acquisition <= sr_startedAt item <= sr_completedAt item ∧
    sr_completedAt item <= aq_completedAt acquisition ∧
    (source = "fills" → ∃ since, sr_since item = Some since ∧ since <= ev_requiredSince input).

Lemma sourceReasons_nil acquisition source name : sourceReasons input acquisition source name = [] → source_complete acquisition source.
Proof using Type.
  unfold sourceReasons, source_complete. autorewrite with safety_reasons. rewrite !existsb_false.
  intros ((Hne & Hc) & Hw & Hf). set (l := filter _ _) in *. split.
  - apply bool_decide_eq_false in Hne. destruct l as [|item l'] eqn:E; [done|]. exists item.
    assert (item ∈ l) as Hin by (rewrite E; left). apply list_elem_of_filter in Hin as [? ?]. done.
  - intros item Hin Hs. assert (item ∈ l) as Hl by by apply list_elem_of_filter.
    specialize (Hc _ Hl). specialize (Hw _ Hl). rewrite negb_false_iff, bool_decide_eq_true in Hc.
    rewrite !orb_false_iff, Z.gtb_ltb, !Z.ltb_ge in Hw. split_and!; try done; try lia.
    intros ->. rewrite bool_decide_true in Hf by done. destruct Hf as [|Hf]; [done|]. specialize (Hf _ Hl).
    destruct (sr_since item) as [since|]; [|done]. exists since. split; [done|]. rewrite Z.gtb_ltb, Z.ltb_ge in Hf. done.
Qed.

(** A fresh acquisition that read everything, with certified fill history where the exchange needs it. *)
Definition acquired (acquisition : ExchangeAcquisitionEvidence) : Prop :=
  ev_acquisition input = Some acquisition ∧
  ev_minimumAcquisitionStart input <= aq_startedAt acquisition <= aq_completedAt acquisition ∧ aq_completedAt acquisition <= ev_now input ∧
  ev_now input - aq_startedAt acquisition <= 30000 ∧
  source_complete acquisition "orders" ∧ source_complete acquisition "positions" ∧ source_complete acquisition "fills" ∧
  ∀ exchange, truthy (ev_historyExchange input) = Some exchange → fillCoverageReason exchange acquisition (ev_requiredSince input) = None.

Lemma acquisitionReasons_nil : acquisitionReasons input = [] → ∃ acquisition, acquired acquisition.
Proof using Type.
  unfold acquisitionReasons. destruct (ev_acquisition input) as [a|] eqn:Ea; [|done]. rewrite !app_nil_iff, push_if_nil.
  intros (Hf & Ho & Hp & Hfi & Hh). exists a. rewrite !orb_false_iff, !Z.gtb_ltb, !Z.ltb_ge in Hf. unfold FRESHNESS_MS in Hf.
  unfold acquired. split_and!; try done; try lia; try by eapply sourceReasons_nil.
  intros exchange Hx. unfold historicalCoverageReasons in Hh. rewrite Hx, Ea in Hh. by destruct (fillCoverageReason _ _ _).
Qed.

(** Nothing foreign or unresolved at the exchange. *)
Definition remote_clear : Prop :=
  ev_identityVerified input = true ∧ ev_stateCurrent input = true ∧ ev_runtimeCurrent input ≠ Some false ∧
  ev_unresolvedEvidence input <= 0 ∧ ev_fillIdentityUnresolved input = 0 ∧ ev_foreignOrders input <= 0 ∧ ev_foreignPositions input <= 0.

Lemma remoteReasons_nil : remoteReasons input = [] → remote_clear.
Proof using Type.
  unfold remoteReasons, remote_clear. autorewrite with safety_reasons. rewrite bool_decide_eq_false, Z.eqb_eq, !Z.gtb_ltb, !Z.ltb_ge. naive_solver.
Qed.

(** An owned position that is flat, or covered by a confirmed stop for all it can become. *)
Definition position_covered (orders : list SafetyOrder) (position : SafetyPosition) : Prop :=
  ∃ ownership net exposure, sp_ownership position = Some ownership ∧ sp_remoteMatches position = true ∧
    sp_projectionMatches position ≠ Some false ∧
    units (trim (ow_netQuantity ownership)) = Some net ∧
    entryExposure (map so_order (filter (λ o, pn_role (so_order o) = "entry")
      (filter (λ o, pn_intentId (so_order o) = nd_intentId (sp_need position)) orders))) = Some exposure ∧
    (net + exposure = 0 ∨
     ∃ o, o ∈ orders ∧ so_remoteConfirmed o = true ∧
       stop_protects (so_order o) (need_for (sp_need position) (dec (net + exposure))) (net + exposure)).

Lemma positionReasons_covered orders position : positionReasons position orders false = [] → position_covered orders position.
Proof using Type.
  unfold positionReasons, position_covered. destruct (sp_ownership position) as [ow|]; [|done].
  destruct (sp_remoteMatches position); [|done]. cbn [negb]. case_bool_decide as Hproj; [done|].
  destruct (requiredStopQuantity _ _) as [q|] eqn:Eq; [|done]. apply requiredStopQuantity_inv in Eq as (z & e & Hz & He & Hzp & Hep & ->).
  intros H. exists ow, z, e. split_and!; try done. case_bool_decide as H0.
  - left. rewrite <-dec_0 in H0. apply dec_inj in H0; lia.
  - right. destruct (existsb _ _) eqn:Ex; [|done]. apply existsb_true in Ex as (o & Ho & Hc). apply andb_true_iff in Hc as [Hrc Hc].
    apply list_elem_of_filter in Ho as [_ Ho]. exists o. split_and!; try done.
    apply protectiveStopCoverage_sound in Hc as (n & Hn & Hst). cbn [need_for nd_quantity] in Hn. rewrite trim_dec in Hn by lia.
    apply units_dec_Some in Hn as [-> _]; [done|lia].
Qed.
End Evaluate.

Lemma in_scope_all id : in_scope None id = true.
Proof. done. Qed.

Lemma scope_all input : scopeEvidence input None = mkScope (ev_orders input) (ev_operations input) (ev_positions input).
Proof.
  unfold scopeEvidence. assert (∀ A (l : list A) (f : A → string), filter (λ x, Is_true (in_scope None (f x))) l = l) as K.
  { intros A l f. induction l as [|a l IH]; [done|]. rewrite filter_cons_True by done. by rewrite IH. }
  f_equal; apply (K _ _).
Qed.

Lemma historical_flat accountId trade : historicalTradeReason accountId trade = [] →
  ht_accountId trade = accountId ∧ ∃ ownership, ht_ownership trade = Some ownership ∧ ow_netQuantity ownership = "0".
Proof.
  unfold historicalTradeReason. rewrite !app_nil_iff, !push_if_nil, !negb_false_iff, bool_decide_eq_true. intros (Ha & _ & Ho & _).
  split; [done|]. destruct (ht_ownership trade) as [ow|]; [|done]. exists ow. rewrite push_if_nil, negb_false_iff, bool_decide_eq_true in Ho. done.
Qed.

(** ** Properties *)

(** C6: a safety proof that admits entries is sound.  If [evaluateTradingSafety]
    finds an account safe for entry admission, then the exchange state was read
    completely within the last thirty seconds and after the required start,
    nothing foreign or unresolved remains, no operation is pending, the account
    is ready with a verified balance and no incident or review, every past trade
    of the account is flat by its own ledger, and every open position is owned,
    confirmed and either zero or covered by a confirmed, active, reduce-only stop
    for the owned quantity plus everything its entries can still execute, with a
    trigger at least as tight as required. *)
Theorem admission_proof_sound input : tp_safe (evaluateTradingSafety input entryAdmission None) = true →
  (∃ acquisition, acquired input acquisition) ∧ remote_clear input ∧
  (∀ op, op ∈ ev_operations input → pending op = false) ∧
  (ev_accountReady input = true ∧ ev_balanceVerified input = true ∧ ev_entryAllowed input = true) ∧
  ev_blockingIncidents input = [] ∧ ev_reviewRequiredIntents input = [] ∧
  (∀ trade, trade ∈ default [] (ev_historicalTrades input) →
    ht_accountId trade = ev_accountId input ∧ ∃ ownership, ht_ownership trade = Some ownership ∧ ow_netQuantity ownership = "0") ∧
  (∀ position, position ∈ ev_positions input →
    nd_accountId (sp_need position) = ev_accountId input ∧ position_covered (ev_orders input) position).
Proof.
  rewrite evaluate_safe, scope_all. cbn [scope_orders]. intros (Ha & Hr & Hp & _ & Had).
  split; [by apply acquisitionReasons_nil|]. split; [by apply remoteReasons_nil|].
  unfold purposeReasons in Hp. rewrite !app_nil_iff in Hp. cbn [scope_orders scope_operations scope_positions] in Hp.
  destruct Hp as (_ & _ & Hacc & Hop & _ & Hpos). rewrite push_if_nil, bool_decide_false in Hop by done. cbn [negb andb] in Hop.
  rewrite existsb_false in Hop. rewrite !flat_map_nil in Hacc. rewrite bool_decide_false, flat_map_nil in Hpos by done.
  split; [exact Hop|]. unfold admissionReasons in Had. rewrite bool_decide_true in Had by (left). cbn [negb] in Had.
  rewrite !app_nil_iff, !push_if_nil, !negb_false_iff in Had. destruct Had as (H1 & H2 & H3 & H4 & H5 & H6).
  rewrite bool_decide_true in H3 by done. cbn [andb] in H3. rewrite negb_false_iff in H3.
  apply map_eq_nil in H4, H5. split_and!; try done.
  - intros trade Ht. unfold historicalTradeReasons in H6. rewrite flat_map_nil in H6. by apply historical_flat, H6.
  - intros position Hin. split; [|by apply positionReasons_covered, Hpos].
    specialize (Hacc _ Hin). rewrite push_if_nil, negb_false_iff, bool_decide_eq_true in Hacc. done.
Qed.

(** A long position of 2 with an entry for 3, 2 filled: the stop covers 3. *)
Definition safety_entry : SafetyOrder :=
  mkSafetyOrder (mkProtectionOrder "a" "i" (Some "c1") (Some "x1") "BTC" "entry" "buy" "partially_filled" false "3" (Some "2") None) true.
Definition safety_stop : SafetyOrder :=
  mkSafetyOrder (mkProtectionOrder "a" "i" (Some "c2") (Some "x2") "BTC" "stop_loss" "sell" "open" true "3" (Some "0") (Some "95")) true.
Definition safety_acquisition : ExchangeAcquisitionEvidence :=
  mkAcquisition 1 1000 2000 [mkSource "orders" 1000 1500 "complete" None; mkSource "positions" 1200 1800 "complete" None;
    mkSource "fills" 1000 2000 "complete" (Some 0)] None.
Definition safety_evidence : SafetyEvidence :=
  mkSafetyEvidence "a" true true true true (Some safety_acquisition) 1000 0 20000 [safety_entry; safety_stop]
    [mkSafetyPosition (mkNeed "a" "i" "BTC" LONG "2" (Some "95")) (Some (mkOwnership "2" "0" "2")) true None] []
    0 0 0 0 [] [] true None None None.

Lemma admission_proof_sound_witness :
  tp_safe (evaluateTradingSafety safety_evidence entryAdmission None) = true ∧ remote_clear safety_evidence ∧
  ∃ acquisition, acquired safety_evidence acquisition.
Proof.
  assert (tp_safe (evaluateTradingSafety safety_evidence entryAdmission None) = true) as H by (vm_compute; reflexivity).
  destruct (admission_proof_sound safety_evidence H) as (Ha & Hr & _). exact (conj H (conj Hr Ha)).
Defined.

(** The scope of one trade. *)
Lemma in_scope_Some i id : Is_true (in_scope (Some i) id) ↔ id = i.
Proof. cbn. by rewrite bool_decide_spec. Qed.

(** A safety proof that closes a trade is sound.  For a named trade it
    implies a fresh complete read, exactly one position, owned and matching the
    exchange, with a net quantity of zero; no pending operation of the trade;
    an entry order on record; and every order of the trade, entry or exit, in a
    terminal state with a proved executed quantity, so nothing can still fill. *)
Theorem trade_closed_proof_sound input i : i ≠ "" → tp_safe (evaluateTradingSafety input tradeClosed (Some i)) = true →
  (∃ acquisition, acquired input acquisition) ∧ remote_clear input ∧
  (∃ position ownership, filter (λ p, nd_intentId (sp_need p) = i) (ev_positions input) = [position] ∧
    sp_ownership position = Some ownership ∧ ow_netQuantity ownership = "0" ∧ sp_remoteMatches position = true) ∧
  (∀ op, op ∈ ev_operations input → op_intentId op = i → pending op = false) ∧
  (∃ o, o ∈ ev_orders input ∧ pn_intentId (so_order o) = i ∧ pn_role (so_order o) = "entry") ∧
  (∀ o, o ∈ ev_orders input → pn_intentId (so_order o) = i →
    pn_accountId (so_order o) = ev_accountId input ∧ terminal (pn_status (so_order o)) = true ∧ orderQuantityValid (so_order o) = true).
Proof.
  intros Hi. rewrite evaluate_safe. intros (Ha & Hr & Hp & Hl & _).
  split; [by apply acquisitionReasons_nil|]. split; [by apply remoteReasons_nil|].
  unfold purposeReasons in Hp. cbn [scopeEvidence scope_orders scope_operations scope_positions] in Hp, Hl.
  rewrite !app_nil_iff, !push_if_nil in Hp. destruct Hp as (H1 & H2 & _ & H4 & H5 & H6).
  change (bool_decide (tradeClosed ∈ [tradeClosed; positionProtected])) with true in H1.
  change (bool_decide (tradeClosed = tradeClosed)) with true in H2, H5, H6. change (bool_decide (tradeClosed = positionProtected)) with false in H4.
  change (bool_decide (tradeClosed ∈ [entriesDrained; accountRelease; tradeClosed])) with true in H5.
  change (bool_decide (tradeClosed = entriesDrained)) with false in H6. cbn [negb andb orb] in H1, H2, H4.
  assert (filter (λ p, Is_true (in_scope (Some i) (nd_intentId (sp_need p)))) (ev_positions input) = filter (λ p, nd_intentId (sp_need p) = i) (ev_positions input)) as Epos
    by (apply list_filter_iff; intros; apply in_scope_Some).
  rewrite Epos in H1, H6. rewrite orb_false_iff, !negb_false_iff, Nat.eqb_eq in H1. destruct H1 as [_ H1].
  rewrite existsb_false in H4. unfold commitmentReasons in H5. rewrite flat_map_nil in H5. rewrite flat_map_nil in H6.
  split_and!.
  - destruct (filter _ (ev_positions input)) as [|p [|p2 l]] eqn:E; [done| |done]. exists p.
    specialize (H6 p ltac:(left)). unfold positionReasons in H6. destruct (sp_ownership p) as [ow|]; [|done]. exists ow.
    destruct (sp_remoteMatches p); [|done]. cbn [negb] in H6. case_bool_decide; [|done]. done.
  - intros op Hop Hio. apply H4, list_elem_of_filter. split; [by apply in_scope_Some|done].
  - rewrite negb_false_iff in H2. apply existsb_true in H2 as (o & Ho & Hrole). apply list_elem_of_filter in Ho as [Ho%in_scope_Some Hin].
    apply bool_decide_eq_true in Hrole. by exists o.
  - intros o Ho Hio. assert (o ∈ filter (λ o, Is_true (in_scope (Some i) (pn_intentId (so_order o)))) (ev_orders input)) as Hin
      by (apply list_elem_of_filter; split; [by apply in_scope_Some|done]).
    specialize (Hl _ Hin). specialize (H5 _ Hin). unfold localOrderReasons in Hl. rewrite !app_nil_iff, !push_if_nil in Hl.
    destruct Hl as (L1 & L2 & _ & _). rewrite negb_false_iff, bool_decide_eq_true in L1. rewrite negb_false_iff in L2. split_and!; try done.
    unfold commitmentReason in H5. case_bool_decide as Hrole.
    + unfold entryCommitmentReason in H5. destruct (existsb _ _) in H5; [discriminate H5|]. unfold terminal.
      destruct (TERMINAL_ORDER_STATES (pn_status (so_order o))); [done|discriminate H5].
    + cbn [andb] in H5. destruct (terminal (pn_status (so_order o))); [done|discriminate H5].
Qed.
