(* ===== verification/Paper.v ===== *)
(** Paper: the simulated exchange, [src/paper_exchange.ts].

    The tables are a [PaperDb]: accounts, markets and positions by their primary
    keys, orders and fills in the order of insertion.  An operation is a
    state-and-error function; [withDatabaseTransaction] rolls back on a throw,
    which is that a throw returns no state.  [now] is [Date.now()] and [uuid n]
    the [n]-th value of [randomUUID]; rows that compare equal in an
    [ORDER BY] keep their insertion order. *)

From S2P Require Import Prelude Text Decimal Rational Types Json Tiers FxSizing Risk Admission.
From Stdlib Require Import Ascii.
From Stdlib Require String.
Local Open Scope Z_scope.

(** ** Rows *)
Record PaperAccountRow := mkPaperAccount { pa_equity : string; pa_available_balance : string; pa_realized_pnl : string; pa_updated_at : Z }.

Record PaperMarketRow := mkPaperMarket {
  pk_symbol : string; pk_mark_price : string; pk_price_tick : string; pk_quantity_step : string;
  pk_minimum_quantity : string; pk_minimum_notional : string; pk_max_leverage : Z; pk_updated_at : Z }.

Record PaperOrderRow := mkPaperOrder {
  pw_exchange_order_id : string;
  pw_account_id : string;
  pw_client_order_id : string;
  pw_symbol : string;
  pw_role : OrderRole;
  pw_side : TradingOrderSide;
  pw_order_type : PlannedOrderType;
  pw_status : OrderResultStatus;
  pw_quantity : string;
  pw_filled_quantity : string;
  pw_average_price : option string;
  pw_price : option string;
  pw_trigger_price : option string;
  pw_reduce_only : bool;
  pw_target_index : option Z;
  pw_leverage : Z;
  pw_created_at : Z;
  pw_updated_at : Z }.

Record PaperPositionRow := mkPaperPosition {
  pp_side : TradingSide; pp_quantity : string; pp_average_entry_price : string; pp_margin_used : string; pp_realized_pnl : string; pp_updated_at : Z }.

Record PaperFillRow := mkPaperFill {
  pf_exchange_fill_id : string; pf_exchange_order_id : string; pf_account_id : string; pf_client_order_id : string;
  pf_price : string; pf_quantity : string; pf_filled_at : Z; pf_mark_price : string }.

Record PaperDb := mkDb {
  db_accounts : gmap string PaperAccountRow;
  db_markets : gmap (string * string) PaperMarketRow;
  db_orders : list PaperOrderRow;
  db_positions : gmap (string * string) PaperPositionRow;
  db_fills : list PaperFillRow;
  db_ids : nat }.

(** ** Database effects *)
Definition M (A : Type) : Type := PaperDb → result (A * PaperDb).
#[export] Instance M_ret : MRet M := λ A a db, Ok (a, db).
#[export] Instance M_bind : MBind M := λ A B f m db, match m db with Ok (a, db') => f a db' | Err e => Err e end.

Definition lift {A} (r : result A) : M A := λ db, match r with Ok a => Ok (a, db) | Err e => Err e end.
Definition get : M PaperDb := λ db, Ok (db, db).
Definition put (db : PaperDb) : M unit := λ _, Ok (tt, db).
Definition fail {A} (msg : string) : M A := lift (throw msg).

Definition set_accounts (f : gmap string PaperAccountRow → gmap string PaperAccountRow) (db : PaperDb) : PaperDb :=
  mkDb (f (db_accounts db)) (db_markets db) (db_orders db) (db_positions db) (db_fills db) (db_ids db).
Definition set_markets (f : gmap (string * string) PaperMarketRow → gmap (string * string) PaperMarketRow) (db : PaperDb) : PaperDb :=
  mkDb (db_accounts db) (f (db_markets db)) (db_orders db) (db_positions db) (db_fills db) (db_ids db).
Definition set_orders (f : list PaperOrderRow → list PaperOrderRow) (db : PaperDb) : PaperDb :=
  mkDb (db_accounts db) (db_markets db) (f (db_orders db)) (db_positions db) (db_fills db) (db_ids db).
Definition set_positions (f : gmap (string * string) PaperPositionRow → gmap (string * string) PaperPositionRow) (db : PaperDb) : PaperDb :=
  mkDb (db_accounts db) (db_markets db) (db_orders db) (f (db_positions db)) (db_fills db) (db_ids db).
Definition add_fill (fill : PaperFillRow) (db : PaperDb) : PaperDb :=
  mkDb (db_accounts db) (db_markets db) (db_orders db) (db_positions db) (db_fills db ++ [fill]) (db_ids db).

Definition modify (f : PaperDb → PaperDb) : M unit := db ← get; put (f db).

(** A nullable column used where the code needs text. *)
Definition text (o : option string) : result string := match o with Some s => Ok s | None => throw "Cannot read properties of null." end.

Definition find_order (id : string) (db : PaperDb) : option PaperOrderRow :=
  snd <$> list_find (λ o, pw_exchange_order_id o = id) (db_orders db).
Definition find_client (accountId clientOrderId : string) (db : PaperDb) : option PaperOrderRow :=
  snd <$> list_find (λ o, pw_account_id o = accountId ∧ pw_client_order_id o = clientOrderId) (db_orders db).

Definition order_key (row : PaperOrderRow) : string * string := (pw_account_id row, pw_symbol row).

(** [UPDATE trading_paper_orders SET status, filled_quantity, average_price, updated_at] *)
Definition with_execution (status : OrderResultStatus) (filled : string) (average : option string) (now : Z) (o : PaperOrderRow) : PaperOrderRow :=
  mkPaperOrder (pw_exchange_order_id o) (pw_account_id o) (pw_client_order_id o) (pw_symbol o) (pw_role o) (pw_side o) (pw_order_type o)
    status (pw_quantity o) filled average (pw_price o) (pw_trigger_price o) (pw_reduce_only o) (pw_target_index o) (pw_leverage o) (pw_created_at o) now.
Definition with_status (status : OrderResultStatus) (now : Z) (o : PaperOrderRow) : PaperOrderRow :=
  with_execution status (pw_filled_quantity o) (pw_average_price o) now o.

Definition is_live (o : PaperOrderRow) : bool := match pw_status o with result_open | result_partially_filled => true | _ => false end.

(** [UPDATE ... WHERE condition] *)
Definition update_where (p : PaperOrderRow → bool) (f : PaperOrderRow → PaperOrderRow) : list PaperOrderRow → list PaperOrderRow :=
  map (λ o, if p o then f o else o).

(** ** Adapter options *)
Inductive ReduceOnlyRemainder := cancel_when_flat | retain.
Record PaperExecutionOptions := mkOptions { ox_maximumFillQuantity : option string; ox_reduceOnlyRemainder : option ReduceOnlyRemainder }.

Definition retains (options : PaperExecutionOptions) : bool :=
  match ox_reduceOnlyRemainder options with Some retain => true | _ => false end.

(** The constructor normalises the maximum fill. *)
Definition newAdapter (options : PaperExecutionOptions) : result PaperExecutionOptions :=
  maximum ← match ox_maximumFillQuantity options with
            | None => Ok None
            | Some m => Some <$> decimal m true None
            end;
  Ok (mkOptions maximum (ox_reduceOnlyRemainder options)).

(** ** Amounts *)
Definition paperUnrealized (side : TradingSide) (quantity averageEntryPrice : string) (markPrice : option string) : result (option string) :=
  match markPrice with
  | None => Ok None
  | Some mark =>
      distance ← match side with LONG => signedDifference mark averageEntryPrice | SHORT => signedDifference averageEntryPrice mark end;
      Some <$> multiplyExactSignedDecimal distance quantity
  end.

Definition signedMultiply (value multiplier : string) : result string :=
  normalized ← signedDecimal value;
  let negative := starts_minus normalized in
  r ← multiplyDecimal (if negative then slice1 normalized else normalized) multiplier;
  Ok (if negative && negb (bool_decide (r = "0")) then minus r else r).

Record PaperAmounts := mkAmounts { am_equity : string; am_availableBalance : string; am_unrealizedPnl : string; am_marginUsed : string }.

Fixpoint unrealizedTotal (total : string) (positions : list (PaperPositionRow * option string)) : result string :=
  match positions with
  | [] => Ok total
  | (p, mark) :: rest =>
      value ← paperUnrealized (pp_side p) (pp_quantity p) (pp_average_entry_price p) mark;
      match value with
      | None => throw "Paper account valuation is unresolved: current mark is missing."
      | Some v => total' ← addSignedDecimal total v; unrealizedTotal total' rest
      end
  end.

(** The positions of the account joined with their markets. *)
Definition markedPositions (accountId : string) (db : PaperDb) : list (PaperPositionRow * option string) :=
  map (λ kp, (kp.2, pk_mark_price <$> db_markets db !! kp.1)) (filter (λ kp, kp.1.1 = accountId) (map_to_list (db_positions db))).

Definition paperBalanceAmounts (accountId : string) (row : PaperAccountRow) (db : PaperDb) : result PaperAmounts :=
  unrealizedPnl ← unrealizedTotal "0" (markedPositions accountId db);
  equity ← addSignedDecimal (pa_equity row) unrealizedPnl;
  if starts_minus equity || bool_decide (equity = "0") then throw "Paper account equity is nonpositive; new entries are blocked."
  else
    free ← addSignedDecimal (pa_available_balance row) unrealizedPnl;
    e ← decimal (pa_equity row) false None;
    a ← decimal (pa_available_balance row) false None;
    marginUsed ← subtractDecimal e a;
    Ok (mkAmounts equity (if starts_minus free then "0" else free) unrealizedPnl marginUsed).

Record ExchangeOrderResult := mkOrderResult {
  er_clientOrderId : string; er_exchangeOrderId : string; er_status : OrderResultStatus; er_filledQuantity : string; er_averagePrice : option string }.

Definition orderResult (row : PaperOrderRow) : ExchangeOrderResult :=
  mkOrderResult (pw_client_order_id row) (pw_exchange_order_id row) (pw_status row)
    (if bool_decide (pw_filled_quantity row = "") then "0" else pw_filled_quantity row)
    (match pw_average_price row with Some a => if bool_decide (a = "") then None else Some a | None => None end).

Definition orderCanFill (row : PaperOrderRow) (markPrice : string) : result bool :=
  match pw_order_type row with
  | type_market => Ok true
  | type_stop_market =>
      c ← compareDecimal (pw_filled_quantity row) "0";
      if c >? 0 then Ok true
      else
        trigger ← text (pw_trigger_price row);
        d ← compareDecimal markPrice trigger;
        Ok (match pw_side row with sell => d <=? 0 | buy => d >=? 0 end)
  | type_limit =>
      price ← text (pw_price row);
      d ← compareDecimal markPrice price;
      Ok (match pw_side row with buy => d <=? 0 | sell => d >=? 0 end)
  end.

(** ** Executions *)
Definition side_of (side : TradingOrderSide) : TradingSide := match side with buy => LONG | sell => SHORT end.

Definition updateOpeningPosition (row : PaperOrderRow) (fillQuantity fillPrice : string) (now : Z) : M unit :=
  db ← get;
  match db_accounts db !! pw_account_id row with
  | None => fail "Paper account balance is missing."
  | Some account =>
      notional ← lift (multiplyDecimal fillQuantity fillPrice);
      margin ← lift (divideDecimal notional (show (if pw_leverage row =? 0 then 1 else pw_leverage row)) 18);
      c ← lift (compareDecimal (pa_available_balance account) margin);
      if c <? 0 then fail "Paper account has insufficient available balance."
      else
        let side := side_of (pw_side row) in
        _ ← match db_positions db !! order_key row with
            | Some existing =>
                if negb (bool_decide (pp_side existing = side)) then fail "Paper exchange refuses implicit position reversal."
                else
                  quantity ← lift (addSignedDecimal (pp_quantity existing) fillQuantity);
                  held ← lift (multiplyDecimal (pp_quantity existing) (pp_average_entry_price existing));
                  added ← lift (multiplyDecimal fillQuantity fillPrice);
                  weighted ← lift (addSignedDecimal held added);
                  average ← lift (divideDecimal weighted quantity 18);
                  margin_used ← lift (addSignedDecimal (pp_margin_used existing) margin);
                  modify (set_positions (<[order_key row := mkPaperPosition (pp_side existing) quantity average margin_used (pp_realized_pnl existing) now]>))
            | None => modify (set_positions (<[order_key row := mkPaperPosition side fillQuantity fillPrice margin "0" now]>))
            end;
        available ← lift (subtractDecimal (pa_available_balance account) margin);
        modify (set_accounts (<[pw_account_id row := mkPaperAccount (pa_equity account) available (pa_realized_pnl account) now]>))
  end.

Definition cancelOrphanedReduceOrders (key : string * string) (now : Z) : M unit :=
  modify (set_orders (update_where (λ o, bool_decide (order_key o = key) && pw_reduce_only o && is_live o) (with_status result_cancelled now))).

Definition updateClosingPosition (row : PaperOrderRow) (requestedQuantity fillPrice : string) (now : Z) (options : PaperExecutionOptions)
    : M (string * bool) :=
  db ← get;
  match db_positions db !! order_key row with
  | None => mret ("0", true)
  | Some position =>
      if negb (bool_decide (pw_side row = match pp_side position with LONG => sell | SHORT => buy end))
      then fail "Reduce-only paper order has the wrong side."
      else
        fillQuantity ← lift (minDecimal [requestedQuantity; pp_quantity position]);
        priceDifference ← lift (match pp_side position with
                                | LONG => signedDifference fillPrice (pp_average_entry_price position)
                                | SHORT => signedDifference (pp_average_entry_price position) fillPrice
                                end);
        pnl ← lift (signedMultiply priceDifference fillQuantity);
        share ← lift (multiplyDecimal (pp_margin_used position) fillQuantity);
        releasedMargin ← lift (divideDecimal share (pp_quantity position) 18);
        remaining ← lift (subtractDecimal (pp_quantity position) fillQuantity);
        remainingMargin ← lift (subtractDecimal (pp_margin_used position) releasedMargin);
        match db_accounts db !! pw_account_id row with
        | None => fail "Paper account balance is missing."
        | Some account =>
            equity ← lift (addSignedDecimal (pa_equity account) pnl);
            freed ← lift (addSignedDecimal (pa_available_balance account) releasedMargin);
            available ← lift (addSignedDecimal freed pnl);
            realized ← lift (addSignedDecimal (pa_realized_pnl account) pnl);
            _ ← modify (set_accounts (<[pw_account_id row := mkPaperAccount equity available realized now]>));
            _ ← (if bool_decide (remaining = "0") then
                   _ ← modify (set_positions (delete (order_key row)));
                   if retains options then mret tt else cancelOrphanedReduceOrders (order_key row) now
                 else
                   positionPnl ← lift (addSignedDecimal (pp_realized_pnl position) pnl);
                   modify (set_positions (<[order_key row :=
                     mkPaperPosition (pp_side position) remaining (pp_average_entry_price position) remainingMargin positionPnl now]>)));
            mret (fillQuantity, bool_decide (remaining = "0"))
        end
  end.

Definition partialFillAverage (row : PaperOrderRow) (fillQuantity fillPrice cumulative : string) : result (option string) :=
  if bool_decide (cumulative = "0") then Ok None
  else
    c ← compareDecimal (pw_filled_quantity row) "0";
    previousCost ← (if c >? 0 then
                      average ← text (pw_average_price row);
                      a ← decimal average true None;
                      multiplyDecimal (pw_filled_quantity row) a
                    else Ok "0");
    cost ← multiplyDecimal fillQuantity fillPrice;
    total ← addSignedDecimal previousCost cost;
    Some <$> divideDecimal total cumulative 18.

Section Adapter.
Context (uuid : nat → string).

(** [`prefix${randomUUID()}`] *)
Definition fresh_id (prefix : string) : M string :=
  db ← get;
  _ ← put (mkDb (db_accounts db) (db_markets db) (db_orders db) (db_positions db) (db_fills db) (S (db_ids db)));
  mret (prefix +:+ uuid (db_ids db)).

Definition fillOrder (row : PaperOrderRow) (markPrice : string) (now : Z) (options : PaperExecutionOptions) (immediatePrice : option string)
    : M PaperOrderRow :=
  fillPrice ← lift (match immediatePrice with
                    | Some p => Ok p
                    | None => match pw_order_type row with type_limit => text (pw_price row) | _ => Ok markPrice end
                    end);
  remaining ← lift (subtractDecimal (pw_quantity row) (pw_filled_quantity row));
  requested ← lift (minDecimal [remaining; default remaining (ox_maximumFillQuantity options)]);
  '(fillQuantity, flat) ← (if pw_reduce_only row then updateClosingPosition row requested fillPrice now options
                           else _ ← updateOpeningPosition row requested fillPrice now; mret (requested, false));
  cumulative ← lift (addSignedDecimal (pw_filled_quantity row) fillQuantity);
  c ← lift (compareDecimal cumulative (pw_quantity row));
  let status := if c =? 0 then result_filled
                else if flat && negb (retains options) then result_cancelled
                else if bool_decide (cumulative = "0") then result_open else result_partially_filled in
  average ← lift (partialFillAverage row fillQuantity fillPrice cumulative);
  _ ← modify (set_orders (update_where (λ o, bool_decide (pw_exchange_order_id o = pw_exchange_order_id row)) (with_execution status cumulative average now)));
  _ ← (if bool_decide (fillQuantity = "0") then mret tt
       else
         fillId ← fresh_id "paper-fill-";
         modify (add_fill (mkPaperFill fillId (pw_exchange_order_id row) (pw_account_id row) (pw_client_order_id row) fillPrice fillQuantity now markPrice)));
  db ← get;
  match find_order (pw_exchange_order_id row) db with Some o => mret o | None => fail "Paper order is missing." end.

Definition role_rank (r : OrderRole) : Z := match r with role_stop_loss => 0 | role_take_profit => 1 | _ => 2 end.

Fixpoint settle (orders : list PaperOrderRow) (markPrice : string) (now : Z) (options : PaperExecutionOptions) : M unit :=
  match orders with
  | [] => mret tt
  | order :: rest =>
      db ← get;
      _ ← match find_order (pw_exchange_order_id order) db with
          | Some current =>
              if is_live current then
                fills ← lift (orderCanFill current markPrice);
                if (fills : bool) then _ ← fillOrder current markPrice now options None; mret tt else mret tt
              else mret tt
          | None => mret tt
          end;
      settle rest markPrice now options
  end.

Definition settleOpenOrders (key : string * string) (markPrice : string) (now : Z) (options : PaperExecutionOptions) : M unit :=
  db ← get;
  settle (sort_by (λ o, role_rank (pw_role o)) (sort_by pw_created_at
    (filter (λ o, order_key o = key ∧ is_live o = true) (db_orders db)))) markPrice now options.

(** ** The adapter *)
Definition assertPaperAccount (account : TradingAccount) : result unit :=
  if negb (bool_decide (ac_exchange account = "paper")) || negb (bool_decide (ac_mode account = mode_paper))
  then throw "Paper adapter only accepts paper accounts." else Ok tt.

Definition paperAccounting (symbol : string) : MarketAccounting := mkMarketAccounting symbol "USDT".

Definition setBalance (accountId equity availableBalance : string) (now : Z) : M unit :=
  normalizedEquity ← lift (decimal equity true None);
  normalizedAvailable ← lift (decimal availableBalance false None);
  c ← lift (compareDecimal normalizedAvailable normalizedEquity);
  if c >? 0 then fail "Available paper balance cannot exceed equity."
  else modify (set_accounts (alter (λ row, mkPaperAccount normalizedEquity normalizedAvailable (pa_realized_pnl row) now) accountId)).

Definition upper (c : Ascii.ascii) : Ascii.ascii :=
  let n := Ascii.nat_of_ascii c in if (97 <=? n)%nat && (n <=? 122)%nat then Ascii.ascii_of_nat (n - 32) else c.

(** [/^[A-Z0-9]{2,20}$/] *)
Definition market_symbol (s : string) : bool :=
  let l := chars s in
  (2 <=? length l)%nat && (length l <=? 20)%nat
  && forallb (λ c, let n := Ascii.nat_of_ascii c in ((65 <=? n)%nat && (n <=? 90)%nat) || is_digit c) l.

Definition setMarket (accountId : string) (market : TradingMarketSnapshot) (now : Z) (options : PaperExecutionOptions) : M unit :=
  let symbol := of_chars (map upper (chars (trim (mk_symbol market)))) in
  if negb (market_symbol symbol) then fail "Invalid paper market symbol."
  else
    mark ← lift (decimal (mk_markPrice market) true None);
    tick ← lift (decimal (mk_priceTick market) true None);
    step ← lift (decimal (mk_quantityStep market) true None);
    minimum ← lift (decimal (mk_minimumQuantity market) true None);
    notional ← lift (decimal (mk_minimumNotional market) true None);
    if negb (isSafeInteger (mk_maxLeverage market)) || (mk_maxLeverage market <? 1) || (mk_maxLeverage market >? 125)
    then fail "Paper market max leverage must be between 1 and 125."
    else
      _ ← modify (set_markets (<[(accountId, symbol) := mkPaperMarket symbol mark tick step minimum notional (mk_maxLeverage market) now]>));
      settleOpenOrders (accountId, symbol) mark now options.

Definition readAccountSnapshot (account : TradingAccount) (observedAt : Z) (db : PaperDb) : result TradingAccountSnapshot :=
  _ ← assertPaperAccount account;
  match db_accounts db !! ac_id account with
  | None => throw "Paper account state is missing."
  | Some row =>
      amounts ← paperBalanceAmounts (ac_id account) row db;
      Ok (mkAccountSnapshot (am_equity amounts) (am_availableBalance amounts) (am_unrealizedPnl amounts) (am_marginUsed amounts)
            (Some "0") None
            (Some (mkAccounting ("paper:" +:+ ac_id account) "USDT" ["USDT"] "paper-contract-v1" observedAt price_only
               (mkFunding funding_complete (observedAt - observedAt mod 86400000) observedAt None "paper:funding-v1" None 0 []))))
  end.

(** [status IN ('open','partially_filled','unknown')] *)
Definition counted (o : PaperOrderRow) : bool :=
  match pw_status o with result_open | result_partially_filled | result_unknown => true | _ => false end.

Definition simulatedTierEvidence (account : TradingAccount) (market : PaperMarketRow) (observedAt : Z) (db : PaperDb) : TradingLeverageTierEvidence :=
  let key := (ac_id account, pk_symbol market) in
  mkTierEvidence 1 "paper" (pk_symbol market) (pk_symbol market) (ac_id account) "paper" "paper" "paper-v1"
    "paper_simulated_complete_tiers_v1" "USDT" "1" (pk_mark_price market) observedAt (observedAt + 10000)
    (Some (mkTierScope true (default "0" (pp_quantity <$> db_positions db !! key))
             (Z.of_nat (length (filter (λ o, order_key o = key ∧ counted o = true) (db_orders db))))))
    [mkTier "0" None (Z.min 50 (pk_max_leverage market))].

Definition marketSnapshot (account : TradingAccount) (symbol : string) (observedAt : Z) (db : PaperDb) : result TradingMarketSnapshot :=
  _ ← assertPaperAccount account;
  match db_markets db !! (ac_id account, symbol) with
  | None => throw_code "SYMBOL_UNAVAILABLE" ("Paper market " +:+ symbol +:+ " is not configured.")
  | Some row =>
      Ok (mkMarket (pk_symbol row) (pk_mark_price row) (pk_price_tick row) (pk_quantity_step row) (pk_minimum_quantity row)
            (pk_minimum_notional row) (Z.min 50 (pk_max_leverage row)) (pk_updated_at row) (Some (paperAccounting (pk_symbol row)))
            (Some (simulatedTierEvidence account row observedAt db)))
  end.

Record ExchangeOrderRequest := mkRequest {
  rq_order : PlannedOrder; rq_entryPriceBoundary : option TradingEntryPriceBoundary; rq_symbol : string; rq_leverage : Z }.

(** The inserted row; the table checks the leverage. *)
Definition newOrder (account : TradingAccount) (request : ExchangeOrderRequest) (exchangeOrderId quantity : string) (now : Z) : PaperOrderRow :=
  let order := rq_order request in
  mkPaperOrder exchangeOrderId (ac_id account) (po_clientOrderId order) (rq_symbol request) (po_role order) (po_side order) (po_orderType order)
    result_open quantity "0" None (po_price order) (po_triggerPrice order) (po_reduceOnly order) (po_targetIndex order) (rq_leverage request) now now.

Definition submitOrder (account : TradingAccount) (request : ExchangeOrderRequest) (now : Z) (options : PaperExecutionOptions) : M ExchangeOrderResult :=
  let order := rq_order request in
  _ ← lift (assertPaperAccount account);
  _ ← lift (if po_ioc order || negb (bool_decide (rq_entryPriceBoundary request = None))
            then assertEntryPriceBoundary (side_of (po_side order)) (default "" (eb_maxSlippagePercent <$> rq_entryPriceBoundary request))
                   (rq_entryPriceBoundary request) order
            else Ok tt);
  db ← get;
  match find_client (ac_id account) (po_clientOrderId order) db with
  | Some existing => mret (orderResult existing)
  | None =>
      market ← lift (marketSnapshot account (rq_symbol request) now db);
      exchangeOrderId ← fresh_id "paper-order-";
      quantity ← lift (decimal (po_quantity order) true None);
      if (rq_leverage request <? 1) || (rq_leverage request >? 125) then fail "SQLITE_CONSTRAINT: CHECK constraint failed"
      else
        let row := newOrder account request exchangeOrderId quantity now in
        _ ← modify (set_orders (λ l, l ++ [row]));
        fills ← lift (orderCanFill row (mk_markPrice market));
        row ← (if (fills : bool)
               then fillOrder row (mk_markPrice market) now options (if po_ioc order then Some (mk_markPrice market) else None)
               else mret row);
        if po_ioc order && is_live row then
          _ ← modify (set_orders (update_where (λ o, bool_decide (pw_exchange_order_id o = exchangeOrderId)) (with_status result_cancelled now)));
          mret (orderResult (with_status result_cancelled now row))
        else mret (orderResult row)
  end.

Definition submitProtectedEntry (account : TradingAccount) (entry protectiveStop : ExchangeOrderRequest) (now now' : Z) (options : PaperExecutionOptions)
    : M (ExchangeOrderResult * ExchangeOrderResult) :=
  if negb (bool_decide (po_role (rq_order entry) = role_entry)) || negb (bool_decide (po_role (rq_order protectiveStop) = role_stop_loss))
     || negb (po_reduceOnly (rq_order protectiveStop))
  then fail "Paper protected-entry contract requires an entry and a reduce-only stop."
  else
    entryResult ← submitOrder account entry now options;
    stopResult ← submitOrder account protectiveStop now' options;
    mret (entryResult, stopResult).

Definition cancelOrder (account : TradingAccount) (clientOrderId : string) (now : Z) : M ExchangeOrderResult :=
  _ ← lift (assertPaperAccount account);
  _ ← modify (set_orders (update_where
        (λ o, bool_decide (pw_account_id o = ac_id account) && bool_decide (pw_client_order_id o = clientOrderId) && is_live o)
        (with_status result_cancelled now)));
  db ← get;
  match find_client (ac_id account) clientOrderId db with
  | None => fail "Paper order does not exist."
  | Some row => mret (orderResult row)
  end.
End Adapter.

(** ** Reasoning about effects *)
Lemma M_bind_Ok {A B} (m : M A) (f : A → M B) db x : (m ≫= f) db = Ok x ↔ ∃ a db', m db = Ok (a, db') ∧ f a db' = Ok x.
Proof.
  unfold mbind, M_bind. destruct (m db) as [[a db']|]; split.
  - intros H. by exists a, db'.
  - by intros (? & ? & [= -> ->] & ?).
  - done.
  - by intros (? & ? & ? & ?).
Qed.

Lemma lift_Ok {A} (r : result A) db a db' : lift r db = Ok (a, db') ↔ r = Ok a ∧ db' = db.
Proof. unfold lift. destruct r; split; [by intros [= -> ->]|by intros [[= ->] ->]|done|by intros [? _]]. Qed.

(** Peel a successful run down to its calls. *)
Ltac run_step H :=
  lazymatch type of H with
  | (_ ≫= _) _ = Ok _ => let a := fresh "a" in let d := fresh "d" in let E := fresh "E" in apply M_bind_Ok in H as (a & d & E & H)
  end.

Lemma sdec_dec z : 0 <= z → sdec z = dec z.
Proof. intros Hz. with_strategy transparent [sdec] unfold sdec. by rewrite (proj2 (Z.ltb_ge _ _) Hz). Qed.

Lemma sunits_dec_Some z a : 0 <= z → sunits (dec z) = Some a → a = z ∧ z < LIMIT.
Proof. intros Hz. rewrite sunits_plain by by apply dec_not_minus. rewrite trim_dec by done. by apply units_dec_Some. Qed.

(** ** The ledger of the orders *)
(** The executed quantity of an order, in units. *)
Definition fz (o : PaperOrderRow) : Z := default 0 (units (pw_filled_quantity o)).

(** What an order has added to the position of key [k]. *)
Definition contribution (k : string * string) (o : PaperOrderRow) : Z :=
  if decide (order_key o = k) then (if pw_reduce_only o then - fz o else fz o) else 0.

Definition ledger (k : string * string) (orders : list PaperOrderRow) : Z := sumZ (map (contribution k) orders).

Definition fill_of (id : string) (f : PaperFillRow) : Z :=
  if decide (pf_exchange_order_id f = id) then default 0 (units (pf_quantity f)) else 0.

Definition fills_of (id : string) (fills : list PaperFillRow) : Z := sumZ (map (fill_of id) fills).

Definition order_ok (o : PaperOrderRow) : Prop :=
  ∃ q f, pw_quantity o = dec q ∧ pw_filled_quantity o = dec f ∧ 0 < q < LIMIT ∧ 0 <= f <= q ∧
    (pw_status o = result_filled ↔ f = q) ∧ (pw_status o = result_open → f = 0).

Lemma order_ok_fz o q f : pw_filled_quantity o = dec f → 0 <= f <= q → q < LIMIT → fz o = f.
Proof. intros H Hf Hq. unfold fz. rewrite H, units_dec_lt by lia. done. Qed.

Section Invariant.
Context (uuid : nat → string).

(** Orders and fills agree, and identifiers are unique. *)
Record orders_inv (orders : list PaperOrderRow) (fills : list PaperFillRow) (ids : nat) : Prop := mkOrdersInv {
  oi_unique : NoDup (map pw_exchange_order_id orders);
  oi_known : ∀ o, o ∈ orders → ∃ n, (n < ids)%nat ∧ pw_exchange_order_id o = "paper-order-" +:+ uuid n;
  oi_fills : ∀ f, f ∈ fills → ∃ o, o ∈ orders ∧ pw_exchange_order_id o = pf_exchange_order_id f;
  oi_orders : ∀ o, o ∈ orders → order_ok o;
  oi_executed : ∀ o, o ∈ orders → fz o = fills_of (pw_exchange_order_id o) fills }.

(** Every position is what its orders executed. *)
Definition positions_are (positions : gmap (string * string) PaperPositionRow) (amount : string * string → Z) : Prop :=
  ∀ k, match positions !! k with
       | Some p => pp_quantity p = dec (amount k) ∧ 0 < amount k
       | None => amount k = 0
       end.

Definition positions_inv (positions : gmap (string * string) PaperPositionRow) (orders : list PaperOrderRow) : Prop :=
  positions_are positions (λ k, ledger k orders).

Definition paper_inv (db : PaperDb) : Prop :=
  orders_inv (db_orders db) (db_fills db) (db_ids db) ∧ positions_inv (db_positions db) (db_orders db).

(** *** Updating rows *)
Lemma update_where_ids p f orders : (∀ o, pw_exchange_order_id (f o) = pw_exchange_order_id o) →
  map pw_exchange_order_id (update_where p f orders) = map pw_exchange_order_id orders.
Proof. intros Hf. unfold update_where. rewrite map_map. apply map_ext. intros o. by destruct (p o). Qed.

Lemma elem_of_update p f orders o' : o' ∈ update_where p f orders ↔ ∃ o, o ∈ orders ∧ o' = if p o then f o else o.
Proof. unfold update_where. rewrite list_elem_of_fmap. split; intros (o & H1 & H2); by exists o. Qed.

Lemma sum_update (g : PaperOrderRow → Z) id f orders o : NoDup (map pw_exchange_order_id orders) → o ∈ orders → pw_exchange_order_id o = id →
  sumZ (map g (update_where (λ o, bool_decide (pw_exchange_order_id o = id)) f orders)) = sumZ (map g orders) - g o + g (f o).
Proof.
  intros Hnd Hin Hid. unfold update_where. induction orders as [|x l IH]; [by apply elem_of_nil in Hin|].
  cbn [map] in Hnd. apply NoDup_cons in Hnd as [Hx Hnd]. cbn [map sumZ]. apply elem_of_cons in Hin as [<-|Hin].
  - rewrite bool_decide_true by done.
    assert (map (λ y, if bool_decide (pw_exchange_order_id y = id) then f y else y) l = l) as ->; [|lia].
    transitivity (map (λ y, y) l); [|apply map_id]. apply map_ext_in. intros y Hy. rewrite bool_decide_false; [done|].
    intros E. apply Hx. rewrite Hid, <-E. apply list_elem_of_fmap. exists y. split; [done|by apply list_elem_of_In].
  - specialize (IH Hnd Hin). rewrite bool_decide_false; [lia|]. intros E. apply Hx. rewrite E, <-Hid. apply list_elem_of_fmap. by exists o.
Qed.

Lemma ledger_ext k orders p f : (∀ o, contribution k (f o) = contribution k o) → ledger k (update_where p f orders) = ledger k orders.
Proof. intros Hf. unfold ledger, update_where. rewrite map_map. f_equal. apply map_ext. intros o. by destruct (p o). Qed.

(** *** Cancelling live orders *)
Lemma live_unfilled o : order_ok o → is_live o = true → fz o < default 0 (units (pw_quantity o)).
Proof.
  intros (q & f & Hq & Hf & Bq & Bf & Hst & _) Hl. rewrite (order_ok_fz o q f) by (done || lia). rewrite Hq, units_dec_lt by lia. cbn.
  assert (f ≠ q); [|lia]. intros E. apply Hst in E. unfold is_live in Hl. by rewrite E in Hl.
Qed.

Lemma order_ok_cancel now o : order_ok o → is_live o = true → order_ok (with_status result_cancelled now o).
Proof.
  intros (q & f & Hq & Hf & Bq & Bf & Hst & _) Hl. exists q, f. cbn. split_and!; try done; try lia. split; [done|].
  intros E. apply Hst in E. unfold is_live in Hl. by rewrite E in Hl.
Qed.

Lemma cancel_inv orders fills ids p now : orders_inv orders fills ids → (∀ o, o ∈ orders → p o = true → is_live o = true) →
  let orders' := update_where p (with_status result_cancelled now) orders in
  orders_inv orders' fills ids ∧ ∀ k, ledger k orders' = ledger k orders.
Proof.
  intros [Hu Hk Hfl Ho He] Hp orders'. split; [constructor|intros k; by apply ledger_ext].
  - unfold orders'. by rewrite update_where_ids.
  - intros o' (o & Ho' & ->)%elem_of_update. destruct (Hk o Ho') as (n & Hn & Hid). exists n. split; [done|]. by destruct (p o).
  - intros f Hf. destruct (Hfl f Hf) as (o & Ho' & Hid). exists (if p o then with_status result_cancelled now o else o).
    split; [apply elem_of_update; by exists o|by destruct (p o)].
  - intros o' (o & Ho' & ->)%elem_of_update. destruct (p o) eqn:E; [|by apply Ho]. apply order_ok_cancel; [by apply Ho|by apply (Hp o)].
  - intros o' (o & Ho' & ->)%elem_of_update. specialize (He o Ho'). by destruct (p o).
Qed.

(** *** Executing part of an order *)
Lemma fills_of_app id fills f : fills_of id (fills ++ [f]) = fills_of id fills + fill_of id f.
Proof. unfold fills_of. rewrite map_app, sumZ_app. cbn. lia. Qed.

(** The row with a unique identifier is the only one changed. *)
Lemma unique_row orders o o' : NoDup (map pw_exchange_order_id orders) → o ∈ orders → o' ∈ orders →
  pw_exchange_order_id o = pw_exchange_order_id o' → o = o'.
Proof.
  intros Hnd Ho Ho' E. apply list_elem_of_lookup in Ho as [i Hi]. apply list_elem_of_lookup in Ho' as [j Hj].
  assert (i = j) as ->; [|congruence]. eapply (NoDup_lookup (map pw_exchange_order_id orders)); [done|rewrite list_lookup_fmap, Hi; done|].
  rewrite list_lookup_fmap, Hj. cbn. by rewrite E.
Qed.

Lemma execute_inv orders fills ids o q f x status average now fills' : orders_inv orders fills ids → o ∈ orders →
  pw_quantity o = dec q → pw_filled_quantity o = dec f → 0 < q < LIMIT → 0 <= f → 0 <= x → f + x <= q →
  (status = result_filled ↔ f + x = q) → (status = result_open → f + x = 0) →
  (fills' = fills ∧ x = 0 ∨ ∃ fill, fills' = fills ++ [fill] ∧ pf_exchange_order_id fill = pw_exchange_order_id o ∧ pf_quantity fill = dec x) →
  let orders' := update_where (λ o', bool_decide (pw_exchange_order_id o' = pw_exchange_order_id o)) (with_execution status (dec (f + x)) average now) orders in
  orders_inv orders' fills' ids ∧
  ∀ k, ledger k orders' = ledger k orders + (if decide (order_key o = k) then (if pw_reduce_only o then - x else x) else 0).
Proof.
  intros Hinv Hin Hq Hf Bq Bf Bx Hle Hst Hop Hfills orders'. destruct Hinv as [Hu Hk Hfl Ho He].
  assert (fz o = f) as Hfo by (apply (order_ok_fz o q f); [done|lia|lia]).
  assert (fz (with_execution status (dec (f + x)) average now o) = f + x) as Hfo' by (apply (order_ok_fz _ q); [done|lia|lia]).
  assert (∀ o', o' ∈ orders' → (o' = with_execution status (dec (f + x)) average now o) ∨ (o' ∈ orders ∧ pw_exchange_order_id o' ≠ pw_exchange_order_id o)) as Hcases.
  { intros o' (o0 & H0 & ->)%elem_of_update. case_bool_decide as E; [left|right; done]. by rewrite (unique_row orders o0 o). }
  assert (∀ f0, f0 ∈ fills' → f0 ∈ fills ∨ pf_exchange_order_id f0 = pw_exchange_order_id o) as Hfc.
  { destruct Hfills as [[-> _]|(fill & -> & Hid & _)]; [by left|]. intros f0 [H0|H0]%elem_of_app; [by left|]. apply list_elem_of_singleton in H0 as ->. by right. }
  split; [constructor|].
  - unfold orders'. by rewrite update_where_ids.
  - intros o' [->|[H0 _]]%Hcases; [exact (Hk o Hin)|by apply Hk].
  - intros f0 Hf0. assert (∃ o0, o0 ∈ orders ∧ pw_exchange_order_id o0 = pf_exchange_order_id f0) as (o0 & H0 & Hid).
    { destruct (Hfc f0 Hf0) as [H1|H1]; [by apply Hfl|by exists o]. }
    eexists. split; [apply elem_of_update; exists o0; split; [done|reflexivity]|]. by case_bool_decide.
  - intros o' [->|[H0 _]]%Hcases; [|by apply Ho]. exists q, (f + x). cbn. split_and!; try done; lia.
  - intros o' Ho'. apply Hcases in Ho' as [->|[H0 Hne]].
    + rewrite Hfo'. cbn [with_execution pw_exchange_order_id]. specialize (He o Hin). rewrite Hfo in He.
      destruct Hfills as [[-> ->]|(fill & -> & Hid & Hx)]; [lia|]. rewrite fills_of_app, <-He. unfold fill_of. rewrite decide_True by done.
      rewrite Hx, units_dec_lt by lia. done.
    + rewrite (He o' H0). destruct Hfills as [[-> _]|(fill & -> & Hid & _)]; [done|]. rewrite fills_of_app. unfold fill_of. rewrite decide_False by congruence. lia.
  - intros k. unfold ledger, orders'. rewrite (sum_update (contribution k) _ _ _ o) by done. 
    assert (contribution k o = if decide (order_key o = k) then (if pw_reduce_only o then - f else f) else 0) as ->
      by (unfold contribution; by rewrite Hfo).
    assert (contribution k (with_execution status (dec (f + x)) average now o)
            = if decide (order_key o = k) then (if pw_reduce_only o then - (f + x) else f + x) else 0) as ->
      by (unfold contribution; by rewrite Hfo').
    case_decide; [|lia]. destruct (pw_reduce_only o); lia.
Qed.

(** *** Positions *)
Lemma positions_insert positions amount key p n : positions_are positions amount → pp_quantity p = dec n → 0 < n →
  positions_are (<[key := p]> positions) (λ k, if decide (key = k) then n else amount k).
Proof.
  intros H Hp Hn k. case_decide as E; [subst; by rewrite lookup_insert_eq|]. rewrite lookup_insert_ne by done. apply H.
Qed.

Lemma positions_delete positions amount key : positions_are positions amount →
  positions_are (delete key positions) (λ k, if decide (key = k) then 0 else amount k).
Proof.
  intros H k. case_decide as E; [subst; by rewrite lookup_delete_eq|]. rewrite lookup_delete_ne by done. apply H.
Qed.

Lemma positions_ext positions amount amount' : (∀ k, amount k = amount' k) → positions_are positions amount → positions_are positions amount'.
Proof. intros E H k. specialize (H k). rewrite <-E. exact H. Qed.

Lemma opening_run row z price now db amount u db' : updateOpeningPosition row (dec z) price now db = Ok (u, db') → 0 < z →
  positions_are (db_positions db) amount →
  db_orders db' = db_orders db ∧ db_fills db' = db_fills db ∧ db_ids db' = db_ids db ∧
  positions_are (db_positions db') (λ k, if decide (order_key row = k) then amount k + z else amount k).
Proof.
  intros H Hz Hpos. unfold updateOpeningPosition in H. run_step H. injection E as <- <-.
  destruct (db_accounts db !! pw_account_id row) as [account|]; [|done].
  run_step H. apply lift_Ok in E as [_ ->]. run_step H. apply lift_Ok in E as [_ ->]. run_step H. apply lift_Ok in E as [_ ->].
  destruct (a1 <? 0); [done|]. run_step H. run_step H. apply lift_Ok in E0 as [_ ->]. unfold modify in H. run_step H. injection E0 as <- <-. injection H as _ <-.
  cbn [set_accounts db_orders db_fills db_ids db_positions].
  pose proof (Hpos (order_key row)) as Hk. destruct (db_positions db !! order_key row) as [existing|].
  - destruct (negb _); [done|]. destruct Hk as [Hq Hpk]. run_step E. apply lift_Ok in E0 as [E0 ->]. run_step E. apply lift_Ok in E1 as [_ ->].
    run_step E. apply lift_Ok in E1 as [_ ->]. run_step E. apply lift_Ok in E1 as [_ ->]. run_step E. apply lift_Ok in E1 as [_ ->].
    run_step E. apply lift_Ok in E1 as [_ ->]. unfold modify in E. run_step E. injection E1 as <- <-. injection E as _ <-.
    cbn [set_positions db_orders db_fills db_ids db_positions]. split_and!; try done.
    apply addSignedDecimal_inv in E0 as (x & y & Hx & Hy & ->). rewrite Hq in Hx.
    apply sunits_dec_Some in Hx as [-> _]; [|lia]. apply sunits_dec_Some in Hy as [-> _]; [|lia].
    eapply positions_ext; [|eapply (positions_insert _ _ _ _ (amount (order_key row) + z)); [exact Hpos|cbn; by rewrite sdec_dec by lia|lia]].
    intros k. cbn. case_decide; [by subst|done].
  - unfold modify in E. run_step E. injection E0 as <- <-. injection E as _ <-. cbn [set_positions db_orders db_fills db_ids db_positions]. split_and!; try done.
    eapply positions_ext; [|eapply (positions_insert _ _ _ _ z); [exact Hpos|done|done]]. intros k. cbn. case_decide; [subst; lia|done].
Qed.

(** Rows that differ at most in status and time. *)
Definition same_order (o o' : PaperOrderRow) : Prop :=
  pw_exchange_order_id o' = pw_exchange_order_id o ∧ order_key o' = order_key o ∧ pw_reduce_only o' = pw_reduce_only o ∧
  pw_quantity o' = pw_quantity o ∧ pw_filled_quantity o' = pw_filled_quantity o.

Lemma min_dec_inv x y s : 0 <= x → 0 <= y → minDecimal [dec x; dec y] = Ok s → s = dec (Z.min x y).
Proof.
  intros Hx Hy H. apply min2_inv in H as (a & b & Ha & Hb & Hs & Hor).
  apply units_dec_Some in Ha as [-> _]; [|done]. apply units_dec_Some in Hb as [-> _]; [|done].
  destruct Hor as [->| ->]; apply units_dec_Some in Hs as [Hs _]; try done; by rewrite Hs.
Qed.

Lemma closing_run row z price now options db amount fq flat db' :
  updateClosingPosition row (dec z) price now options db = Ok ((fq, flat), db') → 0 < z → row ∈ db_orders db →
  orders_inv (db_orders db) (db_fills db) (db_ids db) → positions_are (db_positions db) amount →
  ∃ x row', fq = dec x ∧ 0 <= x <= z ∧ db_fills db' = db_fills db ∧ db_ids db' = db_ids db ∧
    orders_inv (db_orders db') (db_fills db) (db_ids db) ∧ (∀ k, ledger k (db_orders db') = ledger k (db_orders db)) ∧
    row' ∈ db_orders db' ∧ same_order row row' ∧
    positions_are (db_positions db') (λ k, if decide (order_key row = k) then amount k - x else amount k).
Proof.
  intros H Hz Hrow Hinv Hpos. unfold updateClosingPosition in H. run_step H. injection E as <- <-.
  pose proof (Hpos (order_key row)) as Hk. destruct (db_positions db !! order_key row) as [p|] eqn:Ep.
  2: { injection H as <- <- <-. exists 0, row. rewrite dec_0. split_and!; try done; try lia.
       eapply positions_ext; [|exact Hpos]. intros k. cbn. case_decide; lia. }
  destruct (negb _); [done|]. destruct Hk as [Hq Hpk]. run_step H. apply lift_Ok in E as [Efq ->]. rewrite Hq in Efq.
  apply min_dec_inv in Efq as ->; [|lia|lia]. set (x := Z.min z (amount (order_key row))) in *.
  do 3 (run_step H; apply lift_Ok in E as [_ ->]). run_step H. apply lift_Ok in E as [_ ->].
  run_step H. apply lift_Ok in E as [Erem ->]. run_step H. apply lift_Ok in E as [_ ->].
  rewrite Hq in Erem. apply subtractDecimal_inv in Erem as (l & r & Hl & Hr & Hle & ->).
  apply units_dec_Some in Hl as [-> _]; [|lia]. apply units_dec_Some in Hr as [-> _]; [|lia].
  destruct (db_accounts db !! pw_account_id row) as [account|]; [|done].
  do 4 (run_step H; apply lift_Ok in E as [_ ->]). run_step H. unfold modify in E. run_step E. injection E0 as <- <-. injection E as _ <-.
  run_step H. injection H as <- _ <-. rewrite dec_is_0 in E by lia. exists x. destruct (Z.eqb_spec (amount (order_key row) - x) 0) as [E0|Hne].
  - unfold modify in E. run_step E. run_step E1. injection E2 as <- <-. injection E1 as _ <-.
    assert (positions_are (delete (order_key row) (db_positions db)) (λ k, if decide (order_key row = k) then amount k - x else amount k)) as Hdel.
    { eapply positions_ext; [|apply positions_delete; exact Hpos]. intros k. cbn. case_decide; [subst k; lia|done]. }
    destruct (retains options).
    + injection E as _ <-. cbn [set_positions set_accounts db_orders db_fills db_ids db_positions]. exists row. split_and!; try done; try lia.
    + unfold cancelOrphanedReduceOrders, modify in E. run_step E. injection E1 as <- <-. injection E as _ <-.
      cbn [set_positions set_accounts set_orders db_orders db_fills db_ids db_positions].
      set (cond := λ o, bool_decide (order_key o = order_key row) && pw_reduce_only o && is_live o).
      destruct (cancel_inv _ _ _ cond now Hinv) as [Hinv' Hled]; [intros o _ Ho; apply andb_true_iff in Ho as [_ Ho]; exact Ho|].
      exists (if cond row then with_status result_cancelled now row else row). split_and!; try done; try lia.
      * apply elem_of_update. by exists row.
      * by destruct (cond row).
  - run_step E. apply lift_Ok in E0 as [_ ->]. unfold modify in E. run_step E. injection E0 as <- <-. injection E as _ <-.
    cbn [set_positions set_accounts db_orders db_fills db_ids db_positions]. exists row. split_and!; try done; try lia.
    eapply positions_ext; [|eapply (positions_insert _ _ _ _ (amount (order_key row) - x)); [exact Hpos|done|lia]].
    intros k. cbn. case_decide; [by subst|done].
Qed.

Lemma orders_inv_ids orders fills ids ids' : orders_inv orders fills ids → (ids <= ids')%nat → orders_inv orders fills ids'.
Proof. intros [Hu Hk Hfl Ho He] Hle. constructor; try done. intros o Hin. destruct (Hk o Hin) as (n & Hn & Hid). exists n. split; [lia|done]. Qed.

Lemma find_order_Some id db o : find_order id db = Some o → o ∈ db_orders db ∧ pw_exchange_order_id o = id.
Proof.
  unfold find_order. destruct (list_find _ _) as [[i o']|] eqn:E; [|done]. intros [= ->].
  apply list_find_Some in E as (Hi & Hid & _). split; [by eapply list_elem_of_lookup_2|done].
Qed.

(** The options of a constructed adapter. *)
Definition options_ok (options : PaperExecutionOptions) : Prop :=
  ∀ m, ox_maximumFillQuantity options = Some m → ∃ z, m = dec z ∧ 0 < z < LIMIT.

Lemma newAdapter_ok options options' : newAdapter options = Ok options' → options_ok options'.
Proof.
  unfold newAdapter. intros H. apply bind_Ok in H as (m & Hm & H). injection H as <-. intros m' Em. cbn in Em. subst m.
  destruct (ox_maximumFillQuantity options) as [m|]; [|done]. apply fmap_Ok in Hm as (d & Hd & [= ->]).
  apply decimal_inv in Hd as (z & _ & -> & B & Hp & _). exists z. split; [done|]. specialize (Hp eq_refl). lia.
Qed.

Lemma fresh_run prefix db id db' : fresh_id uuid prefix db = Ok (id, db') →
  id = prefix +:+ uuid (db_ids db) ∧ db_orders db' = db_orders db ∧ db_fills db' = db_fills db ∧ db_positions db' = db_positions db ∧
  db_accounts db' = db_accounts db ∧ db_markets db' = db_markets db ∧ db_ids db' = S (db_ids db).
Proof.
  unfold fresh_id. intros H. run_step H. injection E as <- <-. run_step H. injection E as _ <-. injection H as <- <-. done.
Qed.

Lemma fillOrder_inv row mark now options immediate db row' db' :
  fillOrder uuid row mark now options immediate db = Ok (row', db') → options_ok options → row ∈ db_orders db → is_live row = true →
  paper_inv db → paper_inv db' ∧ row' ∈ db_orders db' ∧ pw_exchange_order_id row' = pw_exchange_order_id row ∧ (db_ids db <= db_ids db')%nat.
Proof.
  intros H Hopt Hrow Hlive [Hinv Hpos]. unfold fillOrder in H.
  destruct (oi_orders _ _ _ Hinv row Hrow) as (q & f & Hq & Hf & Bq & Bf & Hst & _).
  assert (f ≠ q) as Hfq. { intros E. apply Hst in E. unfold is_live in Hlive. by rewrite E in Hlive. }
  run_step H. apply lift_Ok in E as [_ ->]. run_step H. apply lift_Ok in E as [Er ->]. rewrite Hq, Hf in Er.
  apply subtractDecimal_inv in Er as (l & r & Hl & Hr & _ & ->). rewrite units_dec_lt in Hl, Hr by lia. injection Hl as <-. injection Hr as <-.
  apply M_bind_Ok in H as (req & d1 & E & H). apply lift_Ok in E as [Ereq ->].
  assert (∃ z, req = dec z ∧ 0 < z <= q - f) as (z & -> & Bz).
  { destruct (ox_maximumFillQuantity options) as [m|] eqn:Em; cbn in Ereq.
    - destruct (Hopt m Em) as (y & -> & By). apply min_dec_inv in Ereq; [|lia|lia]. exists (Z.min (q - f) y). split; [done|lia].
    - apply min_dec_inv in Ereq; [|lia|lia]. exists (Z.min (q - f) (q - f)). split; [done|lia]. }
  clear Ereq. apply M_bind_Ok in H as ([fq flat] & d & E & H).
  (* the effect on positions and orders, before the order row is written *)
  assert (∃ x row1, fq = dec x ∧ 0 <= x <= z ∧ db_fills d = db_fills db ∧ db_ids d = db_ids db ∧
    orders_inv (db_orders d) (db_fills db) (db_ids db) ∧ (∀ k, ledger k (db_orders d) = ledger k (db_orders db)) ∧
    row1 ∈ db_orders d ∧ same_order row row1 ∧
    positions_are (db_positions d) (λ k, if decide (order_key row = k) then ledger k (db_orders db) + (if pw_reduce_only row then - x else x) else ledger k (db_orders db)))
    as (x & row1 & -> & Bx & Hfills & Hids & Hinv1 & Hled & Hrow1 & (Hid1 & Hkey1 & Hred1 & Hq1 & Hf1) & Hpos1).
  { destruct (pw_reduce_only row).
    - apply closing_run with (amount := λ k, ledger k (db_orders db)) in E as (x & row1 & -> & Bx & Hfl & Hi & Ho & Hl & Hr & Hs & Hp); [|lia|done|done|done].
      exists x, row1. split_and!; try done; try lia.
    - apply M_bind_Ok in E as ([] & d1 & E0 & E). injection E as <- <- <-.
      apply opening_run with (amount := λ k, ledger k (db_orders db)) in E0 as (Ho & Hfl & Hi & Hp); [|lia|done].
      exists z, row. rewrite Ho. split_and!; try done; try lia. }
  clear E. run_step H. apply lift_Ok in E as [Ecum ->]. rewrite Hf in Ecum. apply addSignedDecimal_inv in Ecum as (u & v & Hu & Hv & ->).
  apply sunits_dec_Some in Hu as [-> _]; [|lia]. apply sunits_dec_Some in Hv as [-> _]; [|lia]. rewrite sdec_dec in H by lia.
  run_step H. apply lift_Ok in E as [Ec ->]. rewrite Hq in Ec. apply compareDecimal_inv in Ec as (u & v & Hu & Hv & ->).
  rewrite units_dec_lt in Hu, Hv by lia. injection Hu as <-. injection Hv as <-. rewrite (proj2 (proj2 (cmpZ_spec (f + x) q))), !dec_is_0 in H by lia.
  set (status := if f + x =? q then _ else _) in H. apply M_bind_Ok in H as (avg & d1 & E & H). apply lift_Ok in E as [_ ->].
  run_step H. unfold modify in E. run_step E. injection E0 as <- <-. injection E as _ <-. apply M_bind_Ok in H as ([] & d0 & E & H). run_step H. injection E0 as <- <-.
  destruct (find_order _ d0) as [o|] eqn:Efind; [|done]. injection H as <- <-. apply find_order_Some in Efind as [Ho Hido].
  rewrite <-Hid1 in E. rewrite <-Hid1 in Hido.
  assert (∃ fills', db_orders d0 = update_where (λ o', bool_decide (pw_exchange_order_id o' = pw_exchange_order_id row1)) (with_execution status (dec (f + x)) avg now) (db_orders d)
    ∧ db_fills d0 = fills' ∧ db_positions d0 = db_positions d ∧ (db_ids d <= db_ids d0)%nat ∧
    (fills' = db_fills db ∧ x = 0 ∨ ∃ fill, fills' = db_fills db ++ [fill] ∧ pf_exchange_order_id fill = pw_exchange_order_id row1 ∧ pf_quantity fill = dec x))
    as (fills' & Hd0 & Hfl0 & Hp0 & Hi0 & Hcase).
  { exists (db_fills d0). destruct (Z.eqb_spec x 0).
    - injection E as <-. cbn [set_orders db_orders db_fills db_positions db_ids]. split_and!; try done. left. split; [done|lia].
    - run_step E. apply fresh_run in E0 as (_ & K1 & K2 & K3 & _ & _ & K4). unfold modify in E. run_step E. injection E0 as <- <-. injection E as <-.
      cbn [add_fill set_orders db_orders db_fills db_positions db_ids] in *. rewrite K1, K2, K3, K4, Hfills. split_and!; try done; [lia|right]. eexists. split; [reflexivity|]. done. }
  rewrite Hq in Hq1. rewrite Hf in Hf1.
  destruct (execute_inv (db_orders d) (db_fills db) (db_ids db) row1 q f x status avg now fills' Hinv1 Hrow1 Hq1 Hf1) as [Hinv2 Hled2]; try done; try lia.
  { unfold status. destruct (Z.eqb_spec (f + x) q); [done|]. destruct (flat && _); [done|]. by destruct (f + x =? 0). }
  { unfold status. destruct (Z.eqb_spec (f + x) q); [done|]. destruct (flat && _); [done|]. by destruct (Z.eqb_spec (f + x) 0). }
  split_and!; try done; [|congruence|lia]. split.
  - rewrite Hd0, Hfl0. eapply orders_inv_ids; [exact Hinv2|lia].
  - rewrite Hp0, Hd0. eapply positions_ext; [|exact Hpos1]. intros k. rewrite Hled2, Hled, Hkey1, Hred1. cbn. case_decide; lia.
Qed.

Lemma settle_inv orders mark now options db u db' : settle uuid orders mark now options db = Ok (u, db') → options_ok options →
  paper_inv db → paper_inv db'.
Proof.
  intros H Hopt. revert db H. induction orders as [|o l IH]; intros db H Hinv; [injection H as _ <-; done|]. cbn [settle] in H.
  run_step H. injection E as <- <-. run_step H. apply (IH _ H). clear IH H.
  destruct (find_order (pw_exchange_order_id o) db) as [c|] eqn:Ef; [|injection E as _ <-; done]. apply find_order_Some in Ef as [Hc _].
  destruct (is_live c) eqn:El; [|injection E as _ <-; done]. run_step E. apply lift_Ok in E0 as [_ ->].
  destruct a0; [|injection E as _ <-; done]. run_step E. injection E as _ <-. apply fillOrder_inv in E0; [|done..]. apply E0.
Qed.

Lemma append_inv orders fills ids row q : Inj (=) (=) uuid → orders_inv orders fills ids → pw_exchange_order_id row = "paper-order-" +:+ uuid ids →
  pw_quantity row = dec q → 0 < q < LIMIT → pw_filled_quantity row = "0" → pw_status row = result_open →
  orders_inv (orders ++ [row]) fills (S ids) ∧ ∀ k, ledger k (orders ++ [row]) = ledger k orders.
Proof.
  intros Hinj [Hu Hk Hfl Ho He] Hid Hq Bq Hf Hs.
  assert (fz row = 0) as Hz by (unfold fz; by rewrite Hf, units_zero).
  assert (∀ o, o ∈ orders → pw_exchange_order_id o ≠ pw_exchange_order_id row) as Hnew.
  { intros o Hin E. destruct (Hk o Hin) as (n & Hn & Hido). rewrite Hid, Hido in E. apply (inj _) in E. apply (inj uuid) in E. lia. }
  split; [constructor|].
  - rewrite map_app. cbn. apply NoDup_app. split; [done|]. split; [|apply NoDup_singleton].
    intros i Hi Hi'. apply list_elem_of_singleton in Hi'. apply list_elem_of_fmap in Hi as (o & -> & Hin). by apply (Hnew o).
  - intros o [Hin|Hin]%elem_of_app; [destruct (Hk o Hin) as (n & Hn & ?); exists n; split; [lia|done]|].
    apply list_elem_of_singleton in Hin as ->. exists ids. split; [lia|done].
  - intros f Hin. destruct (Hfl f Hin) as (o & Ho' & ?). exists o. split; [apply elem_of_app; by left|done].
  - intros o [Hin|Hin]%elem_of_app; [by apply Ho|]. apply list_elem_of_singleton in Hin as ->. exists q, 0. rewrite Hf, dec_0, Hs.
    split_and!; try done; try lia. split; [done|lia].
  - intros o [Hin|Hin]%elem_of_app; [by apply He|]. apply list_elem_of_singleton in Hin as ->. rewrite Hz. symmetry. unfold fills_of.
    clear -Hfl Hnew. induction fills as [|f l IH]; [done|]. cbn [map sumZ]. unfold fill_of at 1.
    destruct (Hfl f ltac:(left)) as (o & Hin & E). rewrite decide_False by (rewrite <-E; by apply Hnew). apply IH. intros f' Hf'. apply Hfl. by right.
  - intros k. unfold ledger. rewrite map_app, sumZ_app. cbn. unfold contribution at 2. rewrite Hz. case_decide; [destruct (pw_reduce_only row); lia|lia].
Qed.

Lemma submitOrder_inv account request now options db r db' : Inj (=) (=) uuid →
  submitOrder uuid account request now options db = Ok (r, db') → options_ok options → paper_inv db → paper_inv db'.
Proof.
  intros Hinj H Hopt [Hinv Hpos]. unfold submitOrder in H. run_step H. apply lift_Ok in E as [_ ->]. run_step H. apply lift_Ok in E as [_ ->].
  run_step H. injection E as <- <-. destruct (find_client _ _ db) as [o|]; [injection H as _ <-; by split|].
  apply M_bind_Ok in H as (market & d & E & H). apply lift_Ok in E as [_ ->].
  apply M_bind_Ok in H as (id & d1 & E & H). apply fresh_run in E as (-> & K1 & K2 & K3 & _ & _ & K4).
  apply M_bind_Ok in H as (quantity & d & E & H). apply lift_Ok in E as [Eq ->].
  apply decimal_inv in Eq as (q & _ & -> & Bq & Hqp & _). specialize (Hqp eq_refl). destruct (_ || _); [done|].
  set (row := newOrder account request ("paper-order-" +:+ uuid (db_ids db)) (dec q) now) in *.
  run_step H. unfold modify in E. run_step E. injection E0 as <- <-. injection E as _ <-.
  destruct (append_inv _ _ _ row q Hinj Hinv) as [Hinv1 Hled]; try done; try lia.
  set (db1 := set_orders (λ l, l ++ [row]) d1) in *.
  assert (paper_inv db1) as Hinv2.
  { split; cbn [db1 set_orders db_orders db_fills db_ids db_positions]; rewrite ?K1, ?K2, ?K3, ?K4; [done|]. intros k. rewrite Hled. apply Hpos. }
  assert (row ∈ db_orders db1) as Hrow by (cbn; apply elem_of_app; right; by left).
  run_step H. apply lift_Ok in E as [_ ->]. apply M_bind_Ok in H as (row2 & db2 & E & H).
  assert (paper_inv db2 ∧ row2 ∈ db_orders db2 ∧ pw_exchange_order_id row2 = pw_exchange_order_id row) as ([Hi2 Hp2] & Hrow2 & Hid2).
  { destruct a2; [|injection E as <- <-; done]. apply fillOrder_inv in E as (? & ? & ? & _); done. }
  destruct (po_ioc (rq_order request) && is_live row2) eqn:Eioc; [|injection H as _ <-; by split].
  run_step H. unfold modify in E0. run_step E0. injection E1 as <- <-. injection E0 as _ <-. injection H as _ <-.
  apply andb_true_iff in Eioc as [_ Hlive2].
  destruct (cancel_inv _ _ _ (λ o, bool_decide (pw_exchange_order_id o = "paper-order-" +:+ uuid (db_ids db))) now Hi2) as [Hi3 Hled3].
  { intros o Ho Hid. apply bool_decide_eq_true in Hid. by rewrite (unique_row _ o row2 (oi_unique _ _ _ Hi2) Ho Hrow2) by (rewrite Hid2; exact Hid). }
  split; [exact Hi3|]. intros k. cbn [set_orders db_orders db_positions]. rewrite Hled3. apply Hp2.
Qed.

Lemma cancelOrder_inv account clientOrderId now db r db' : cancelOrder account clientOrderId now db = Ok (r, db') → paper_inv db → paper_inv db'.
Proof.
  intros H [Hinv Hpos]. unfold cancelOrder in H. run_step H. apply lift_Ok in E as [_ ->]. run_step H. unfold modify in E. run_step E.
  injection E0 as <- <-. injection E as _ <-. run_step H. injection E as <- <-. destruct (find_client _ _ _); [|done]. injection H as _ <-.
  destruct (cancel_inv _ _ _ (λ o, bool_decide (pw_account_id o = ac_id account) && bool_decide (pw_client_order_id o = clientOrderId) && is_live o) now Hinv) as [Hi Hled].
  { intros o _ Ho. by apply andb_true_iff in Ho as [_ Ho]. }
  split; [exact Hi|]. intros k. cbn [set_orders db_orders db_positions]. rewrite Hled. apply Hpos.
Qed.

(** ** Steps *)
(** One adapter call on the tables, with any clock readings. *)
Inductive paper_step (options : PaperExecutionOptions) : PaperDb → PaperDb → Prop :=
| step_balance accountId equity available now db u db' : setBalance accountId equity available now db = Ok (u, db') → paper_step options db db'
| step_market accountId market now db u db' : setMarket uuid accountId market now options db = Ok (u, db') → paper_step options db db'
| step_submit account request now db r db' : submitOrder uuid account request now options db = Ok (r, db') → paper_step options db db'
| step_protected account entry stop now now' db r db' :
    submitProtectedEntry uuid account entry stop now now' options db = Ok (r, db') → paper_step options db db'
| step_cancel account clientOrderId now db r db' : cancelOrder account clientOrderId now db = Ok (r, db') → paper_step options db db'.

(** Tables with accounts and markets, and no trading yet. *)
Definition untraded (db : PaperDb) : Prop := db_orders db = [] ∧ db_fills db = [] ∧ db_positions db = ∅.

Lemma untraded_inv db : untraded db → paper_inv db.
Proof.
  intros (H1 & H2 & H3). split; [rewrite H1, H2; constructor|intros k; rewrite H3, lookup_empty, H1; done].
  - constructor.
  - by intros o ?%elem_of_nil.
  - by intros o ?%elem_of_nil.
  - by intros o ?%elem_of_nil.
  - by intros o ?%elem_of_nil.
Qed.

Lemma paper_step_inv options db db' : Inj (=) (=) uuid → options_ok options → paper_step options db db' → paper_inv db → paper_inv db'.
Proof.
  intros Hinj Hopt Hstep Hinv. destruct Hstep as [acc eq av now db u db' H|acc market now db u db' H|acc rq now db r db' H|acc en st now now' db r db' H|acc cl now db r db' H].
  - unfold setBalance in H. do 3 (run_step H; apply lift_Ok in E as [_ ->]). destruct (_ >? _); [done|]. unfold modify in H. run_step H.
    injection E as <- <-. injection H as _ <-. exact Hinv.
  - unfold setMarket in H. destruct (negb _); [done|]. do 5 (run_step H; apply lift_Ok in E as [_ ->]). destruct (_ || _); [done|].
    run_step H. unfold modify in E. run_step E. injection E0 as <- <-. injection E as _ <-. unfold settleOpenOrders in H. run_step H. injection E as <- <-.
    by apply (settle_inv _ _ _ _ _ _ _ H).
  - by eapply submitOrder_inv.
  - unfold submitProtectedEntry in H. destruct (_ || _); [done|]. run_step H. run_step H. injection H as _ <-.
    eapply submitOrder_inv; [done|exact E0|done|]. by eapply submitOrder_inv.
  - by eapply cancelOrder_inv.
Qed.
End Invariant.

(** ** Identities of orders *)
Definition identity (o : PaperOrderRow) : string * string * string := (pw_exchange_order_id o, pw_account_id o, pw_client_order_id o).

Lemma update_identities p f orders : (∀ o, identity (f o) = identity o) → map identity (update_where p f orders) = map identity orders.
Proof. intros Hf. unfold update_where. rewrite map_map. apply map_ext. intros o. by destruct (p o). Qed.

Section Identities.
Context (uuid : nat → string).

Lemma opening_identities row q price now db u db' : updateOpeningPosition row q price now db = Ok (u, db') → db_orders db' = db_orders db.
Proof.
  intros H. unfold updateOpeningPosition in H. run_step H. injection E as <- <-. destruct (db_accounts db !! _); [|done].
  do 3 (run_step H; apply lift_Ok in E as [_ ->]). destruct (_ <? 0); [done|]. run_step H. run_step H. apply lift_Ok in E0 as [_ ->].
  unfold modify in H. run_step H. injection E0 as <- <-. injection H as _ <-. cbn.
  destruct (db_positions db !! _).
  - destruct (negb _); [done|]. do 6 (run_step E; apply lift_Ok in E0 as [_ ->]). unfold modify in E. run_step E. injection E0 as <- <-. by injection E as _ <-.
  - unfold modify in E. run_step E. injection E0 as <- <-. by injection E as _ <-.
Qed.

Lemma closing_identities row q price now options db r db' : updateClosingPosition row q price now options db = Ok (r, db') →
  map identity (db_orders db') = map identity (db_orders db).
Proof.
  intros H. unfold updateClosingPosition in H. run_step H. injection E as <- <-. destruct (db_positions db !! _); [|by injection H as _ <-].
  destruct (negb _); [done|]. do 7 (run_step H; apply lift_Ok in E as [_ ->]). destruct (db_accounts db !! _); [|done].
  do 4 (run_step H; apply lift_Ok in E as [_ ->]). run_step H. unfold modify in E. run_step E. injection E0 as <- <-. injection E as _ <-.
  run_step H. injection H as _ <-. destruct (bool_decide _).
  - run_step E. unfold modify in E0. run_step E0. injection E1 as <- <-. injection E0 as _ <-. destruct (retains options).
    + by injection E as _ <-.
    + unfold cancelOrphanedReduceOrders, modify in E. run_step E. injection E0 as <- <-. injection E as _ <-. cbn. by apply update_identities.
  - run_step E. apply lift_Ok in E0 as [_ ->]. unfold modify in E. run_step E. injection E0 as <- <-. by injection E as _ <-.
Qed.

Lemma fillOrder_identities row mark now options immediate db row' db' : fillOrder uuid row mark now options immediate db = Ok (row', db') →
  map identity (db_orders db') = map identity (db_orders db) ∧ find_order (pw_exchange_order_id row) db' = Some row'.
Proof.
  intros H. unfold fillOrder in H. do 3 (run_step H; apply lift_Ok in E as [_ ->]). apply M_bind_Ok in H as ([fq flat] & d & E & H).
  assert (map identity (db_orders d) = map identity (db_orders db)) as Hd.
  { destruct (pw_reduce_only row); [by eapply closing_identities|]. run_step E. injection E as _ _ <-. f_equal. by eapply opening_identities. }
  clear E. do 3 (run_step H; apply lift_Ok in E as [_ ->]). run_step H. unfold modify in E. run_step E. injection E0 as <- <-. injection E as _ <-.
  run_step H. run_step H. injection E0 as <- <-. destruct (find_order _ _) as [o|] eqn:Ef; [|done]. injection H as -> <-. split; [|done].
  rewrite <-Hd. destruct (bool_decide _).
  - injection E as _ <-. by apply update_identities.
  - run_step E. apply fresh_run in E0 as (_ & K1 & _). unfold modify in E. run_step E. injection E0 as <- <-. injection E as _ <-. cbn.
    rewrite K1. by apply update_identities.
Qed.
End Identities.

Lemma find_client_Some account client db o : find_client account client db = Some o →
  o ∈ db_orders db ∧ pw_account_id o = account ∧ pw_client_order_id o = client.
Proof.
  unfold find_client. destruct (list_find _ _) as [[i o']|] eqn:E; [|done]. intros [= ->].
  apply list_find_Some in E as (Hi & [Ha Hc] & _). split; [by eapply list_elem_of_lookup_2|done].
Qed.

Lemma find_client_None account client db o : find_client account client db = None → o ∈ db_orders db →
  pw_account_id o = account → pw_client_order_id o = client → False.
Proof.
  unfold find_client. destruct (list_find _ _) eqn:E; [done|]. intros _ Hin Ha Hc.
  apply list_find_None in E. rewrite Forall_forall in E. by apply (E o Hin).
Qed.

(** The only order of a new client identifier is the appended one. *)
Lemma find_client_new orders row db R : map identity (db_orders db) = map identity (orders ++ [row]) →
  NoDup (map pw_exchange_order_id (db_orders db)) → R ∈ db_orders db → identity R = identity row →
  (∀ o, o ∈ orders → pw_account_id o = pw_account_id row → pw_client_order_id o = pw_client_order_id row → False) →
  find_client (pw_account_id row) (pw_client_order_id row) db = Some R.
Proof.
  intros Hmap Hnd HR HidR Hnone. injection HidR as Hid Ha Hc. destruct (find_client _ _ db) as [o|] eqn:E.
  - apply find_client_Some in E as (Ho & Hoa & Hoc). f_equal. apply (unique_row (db_orders db)); [done|done|done|].
    assert (identity o ∈ map identity (orders ++ [row])) as Hin by (rewrite <-Hmap; apply list_elem_of_fmap; by exists o).
    rewrite map_app in Hin. apply elem_of_app in Hin as [Hin|Hin].
    + apply list_elem_of_fmap in Hin as (o0 & E0 & Hin0). injection E0 as E1 E2 E3. exfalso. apply (Hnone o0 Hin0); congruence.
    + apply list_elem_of_singleton in Hin. injection Hin as E1 _ _. congruence.
  - exfalso. by eapply (find_client_None _ _ _ R).
Qed.

(** The order a submission reports, and where it is found. *)
Lemma submitOrder_found uuid account request now options db r db' : Inj (=) (=) uuid → options_ok options → paper_inv uuid db →
  submitOrder uuid account request now options db = Ok (r, db') →
  ∃ R, find_client (ac_id account) (po_clientOrderId (rq_order request)) db' = Some R ∧ r = orderResult R.
Proof.
  intros Hinj Hopt Hinv H. pose proof (submitOrder_inv _ _ _ _ _ _ _ _ Hinj H Hopt Hinv) as [Hinv' _]. unfold submitOrder in H.
  do 2 (run_step H; apply lift_Ok in E as [_ ->]). run_step H. injection E as <- <-.
  destruct (find_client _ _ db) as [o|] eqn:Ef; [injection H as <- <-; by exists o|].
  apply M_bind_Ok in H as (market & d & E & H). apply lift_Ok in E as [_ ->].
  apply M_bind_Ok in H as (id & d1 & E & H). apply fresh_run in E as (_ & K1 & _).
  apply M_bind_Ok in H as (quantity & d & E & H). apply lift_Ok in E as [_ ->]. destruct (_ || _); [done|].
  set (row := newOrder account request id quantity now) in *. run_step H. unfold modify in E. run_step E. injection E0 as <- <-. injection E as _ <-.
  run_step H. apply lift_Ok in E as [_ ->]. apply M_bind_Ok in H as (row2 & db2 & E & H).
  set (db1 := set_orders (λ l, l ++ [row]) d1) in *.
  assert (map identity (db_orders db2) = map identity (db_orders db ++ [row]) ∧ row2 ∈ db_orders db2 ∧ pw_exchange_order_id row2 = id) as (Hm & Hin & Hid).
  { rewrite <-K1. destruct a2.
    - apply fillOrder_identities in E as [Hm Hf]. apply find_order_Some in Hf as [? ?]. done.
    - injection E as <- <-. split_and!; try done. cbn. apply elem_of_app. right. by left. }
  assert (∀ o, o ∈ db_orders db → pw_account_id o = pw_account_id row → pw_client_order_id o = pw_client_order_id row → False) as Hnone
    by (intros o Ho Ha Hc; by eapply find_client_None).
  (* the row found by its fresh identifier has the identity of the submitted one *)
  assert (∀ L R, map identity L = map identity (db_orders db ++ [row]) → R ∈ L → NoDup (map pw_exchange_order_id L) → pw_exchange_order_id R = id → identity R = identity row) as Hrow.
  { intros L R HL HR Hnd HidR. assert (identity row ∈ map identity L) as Hr by (rewrite HL, map_app; apply elem_of_app; right; by left).
    apply list_elem_of_fmap in Hr as (y & Ey & Hy). rewrite (unique_row L R y); [by symmetry|done..|]. injection Ey as E1 _ _. congruence. }
  destruct (po_ioc (rq_order request) && is_live row2).
  - run_step H. unfold modify in E0. run_step E0. injection E1 as <- <-. injection E0 as _ <-. injection H as <- <-.
    cbn [set_orders db_orders] in *. eexists. split; [|reflexivity].
    assert (with_status result_cancelled now row2 ∈ update_where (λ o, bool_decide (pw_exchange_order_id o = id)) (with_status result_cancelled now) (db_orders db2)) as HR
      by (apply elem_of_update; exists row2; by rewrite bool_decide_true).
    assert (map identity (update_where (λ o, bool_decide (pw_exchange_order_id o = id)) (with_status result_cancelled now) (db_orders db2)) = map identity (db_orders db ++ [row])) as Hm'
      by (rewrite <-Hm; by apply update_identities).
    apply (find_client_new (db_orders db) row); [done|exact (oi_unique _ _ _ _ Hinv')|done|apply (Hrow _ _ Hm' HR (oi_unique _ _ _ _ Hinv')); done|exact Hnone].
  - injection H as <- <-. exists row2. split; [|done].
    apply (find_client_new (db_orders db) row); [done|exact (oi_unique _ _ _ _ Hinv')|done|by apply (Hrow _ _ Hm Hin (oi_unique _ _ _ _ Hinv'))|exact Hnone].
Qed.

(** A reachable state satisfies the invariant. *)
Lemma reachable_inv uuid options0 options db0 db : Inj (=) (=) uuid → newAdapter options0 = Ok options → untraded db0 →
  rtc (paper_step uuid options) db0 db → paper_inv uuid db.
Proof.
  intros Hinj Hopt%newAdapter_ok H0 Hrun. apply (untraded_inv uuid) in H0.
  induction Hrun as [|x y z Hxy _ IH]; [done|]. apply IH. by eapply paper_step_inv.
Qed.

(** ** Properties *)

(** C12: the simulated exchange keeps its books.  After any sequence of adapter
    calls on fresh tables (balances, market moves that settle resting orders,
    submissions, protected entries, cancellations), every order's executed
    quantity is the sum of its fills and within its quantity, it is [filled]
    exactly when they are equal, and every position is exactly what the entry
    orders executed less what the reduce-only orders executed: positive while it
    exists, zero when it does not. *)
Theorem paper_ledger_consistent uuid options0 options db0 db : Inj (=) (=) uuid → newAdapter options0 = Ok options → untraded db0 →
  rtc (paper_step uuid options) db0 db →
  (∀ o, o ∈ db_orders db → ∃ q f, pw_quantity o = dec q ∧ pw_filled_quantity o = dec f ∧ 0 < q ∧ 0 <= f <= q ∧
    f = fills_of (pw_exchange_order_id o) (db_fills db) ∧ (pw_status o = result_filled ↔ f = q)) ∧
  (∀ k, match db_positions db !! k with
        | Some p => pp_quantity p = dec (ledger k (db_orders db)) ∧ 0 < ledger k (db_orders db)
        | None => ledger k (db_orders db) = 0
        end).
Proof.
  intros Hinj Hopt H0 Hrun. destruct (reachable_inv _ _ _ _ _ Hinj Hopt H0 Hrun) as [Hinv Hpos].
  split; [|exact Hpos]. intros o Ho. destruct (oi_orders _ _ _ _ Hinv o Ho) as (q & f & Hq & Hf & Bq & Bf & Hst & _).
  exists q, f. split_and!; try done; try lia. rewrite <-(oi_executed _ _ _ _ Hinv o Ho). symmetry. apply (order_ok_fz o q f); [done|lia|lia].
Qed.

(** Identifiers for the examples. *)
Definition unary (n : nat) : string := of_chars (replicate n "a"%char).

Lemma unary_inj : Inj (=) (=) unary.
Proof. intros n m H. apply of_chars_inj in H. apply (f_equal length) in H. by rewrite !length_replicate in H. Qed.

Definition paper_start : PaperDb :=
  mkDb {[ "a" := mkPaperAccount "1000" "1000" "0" 0 ]} ∅ [] ∅ [] 0.
Definition paper_options : PaperExecutionOptions := mkOptions (Some "1.5") None.
Definition paper_quote (mark : string) : TradingMarketSnapshot := mkMarket "BTCUSDT" mark "0.5" "0.01" "0.01" "5" 20 0 None None.
Definition paper_entry : ExchangeOrderRequest :=
  mkRequest (mkOrder "c1" role_entry buy type_limit false "2" (Some "101") None false false None) None "BTCUSDT" 3.
Definition paper_stop : ExchangeOrderRequest :=
  mkRequest (mkOrder "c2" role_stop_loss sell type_stop_market false "2" None (Some "95") true false None) None "BTCUSDT" 3.

(** The tables after quoting, a protected entry of which 1.5 fill, a quote that
    fills the rest, and a fall through the stop that takes two executions. *)
Definition paper_quoted : result (unit * PaperDb) := setMarket unary "a" (paper_quote "100") 1 paper_options paper_start.
Definition paper_after {A} (r : result (A * PaperDb)) : PaperDb := match r with Ok (_, db) => db | Err _ => paper_start end.
Definition paper_entered := submitProtectedEntry unary paper_account paper_entry paper_stop 2 2 paper_options (paper_after paper_quoted).
Definition paper_moved (r : PaperDb) (mark : string) (now : Z) : PaperDb := paper_after (setMarket unary "a" (paper_quote mark) now paper_options r).
Definition paper_full : PaperDb := paper_moved (paper_after paper_entered) "99" 3.
Definition paper_stopped : PaperDb := paper_moved (paper_moved paper_full "94" 4) "93" 5.

Lemma paper_ledger_consistent_witness :
  pp_quantity <$> db_positions (paper_after paper_entered) !! ("a", "BTCUSDT") = Some "1.5" ∧
  pp_quantity <$> db_positions paper_full !! ("a", "BTCUSDT") = Some "2" ∧
  db_positions paper_stopped !! ("a", "BTCUSDT") = None ∧
  ledger ("a", "BTCUSDT") (db_orders paper_stopped) = 0.
Proof.
  split; [vm_compute; reflexivity|]. split; [vm_compute; reflexivity|].
  assert (db_positions paper_stopped !! ("a", "BTCUSDT") = None) as Hn by (vm_compute; reflexivity).
  split; [exact Hn|].
  assert (rtc (paper_step unary paper_options) paper_start paper_stopped) as Hrun.
  { eapply rtc_l; [apply (step_market unary paper_options "a" (paper_quote "100") 1 paper_start tt (paper_after paper_quoted)); vm_compute; reflexivity|].
    eapply rtc_l; [eapply (step_protected unary paper_options paper_account paper_entry paper_stop 2 2 (paper_after paper_quoted) _ (paper_after paper_entered)); vm_compute; reflexivity|].
    eapply rtc_l; [apply (step_market unary paper_options "a" (paper_quote "99") 3 (paper_after paper_entered) tt paper_full); vm_compute; reflexivity|].
    eapply rtc_l; [apply (step_market unary paper_options "a" (paper_quote "94") 4 paper_full tt (paper_moved paper_full "94" 4)); vm_compute; reflexivity|].
    apply rtc_once. apply (step_market unary paper_options "a" (paper_quote "93") 5 (paper_moved paper_full "94" 4) tt); vm_compute; reflexivity. }
  destruct (paper_ledger_consistent unary paper_options paper_options paper_start paper_stopped unary_inj ltac:(vm_compute; reflexivity) ltac:(repeat split; reflexivity) Hrun) as [_ H].
  specialize (H ("a", "BTCUSDT")). rewrite Hn in H. exact H.
Defined.

(** The order of a client identifier, once there, is what a submission returns. *)
Lemma submitOrder_again uuid account request now now' options db R db0 r db1 :
  submitOrder uuid account request now options db0 = Ok (r, db1) →
  find_client (ac_id account) (po_clientOrderId (rq_order request)) db = Some R →
  submitOrder uuid account request now' options db = Ok (orderResult R, db).
Proof.
  intros H Hf. unfold submitOrder in H. run_step H. apply lift_Ok in E as [E1 ->]. run_step H. apply lift_Ok in E as [E2 ->]. clear H.
  unfold submitOrder. apply M_bind_Ok. exists a, db. split; [by apply lift_Ok|].
  apply M_bind_Ok. exists a0, db. split; [by apply lift_Ok|].
  apply M_bind_Ok. exists db, db. split; [done|]. by rewrite Hf.
Qed.

(** A submission is idempotent per client order identifier.  In any state the
    adapter reaches, submitting the same request again after it was answered,
    at whatever later time, gives the same answer and changes no table: no
    second order, fill, position or balance change. *)
Theorem paper_submit_idempotent uuid options0 options db0 db account request now now' r db' :
  Inj (=) (=) uuid → newAdapter options0 = Ok options → untraded db0 → rtc (paper_step uuid options) db0 db →
  submitOrder uuid account request now options db = Ok (r, db') →
  submitOrder uuid account request now' options db' = Ok (r, db').
Proof.
  intros Hinj Hopt H0 Hrun H. pose proof (reachable_inv _ _ _ _ _ Hinj Hopt H0 Hrun) as Hinv. apply newAdapter_ok in Hopt.
  destruct (submitOrder_found _ _ _ _ _ _ _ _ Hinj Hopt Hinv H) as (R & Hf & ->). by eapply submitOrder_again.
Qed.

Definition paper_first := submitOrder unary paper_account paper_entry 2 paper_options (paper_after paper_quoted).

(** ** The markets of the adapter

    Only [setMarket] writes the market table, so that every row stays
    well-formed. *)
Definition keeps {A} (m : M A) : Prop := ∀ db a db', m db = Ok (a, db') → db_markets db' = db_markets db.

Create HintDb paper_keeps.

Lemma keeps_bind {A B} (m : M A) (f : A → M B) : keeps m → (∀ a, keeps (f a)) → keeps (m ≫= f).
Proof. intros Hm Hf db b db' H. run_step H. by rewrite (Hf _ _ _ _ H), (Hm _ _ _ E). Qed.

Lemma keeps_lift {A} (r : result A) : keeps (lift r).
Proof. intros db a db' H. by apply lift_Ok in H as [_ ->]. Qed.

Lemma keeps_ret {A} (a : A) : keeps (mret a).
Proof. by intros db a' db' [= _ <-]. Qed.

Lemma keeps_get : keeps get.
Proof. by intros db a db' [= _ <-]. Qed.

Lemma keeps_fail {A} msg : keeps (fail (A := A) msg).
Proof. by intros db a db' H. Qed.

Lemma keeps_modify f : (∀ db, db_markets (f db) = db_markets db) → keeps (modify f).
Proof. intros Hf db a db' H. unfold modify in H. run_step H. injection E as <- <-. injection H as _ <-. apply Hf. Qed.

Lemma keeps_fresh uuid prefix : keeps (fresh_id uuid prefix).
Proof. intros db a db' H. unfold fresh_id in H. run_step H. injection E as <- <-. run_step H. injection E as <- <-. by injection H as _ <-. Qed.

#[export] Hint Resolve keeps_lift keeps_ret keeps_get keeps_fail keeps_fresh : paper_keeps.
#[export] Hint Extern 1 (keeps (modify _)) => (apply keeps_modify; done) : paper_keeps.

(** Walk through an operation: each call keeps the table. *)
Ltac keep_markets :=
  intros; repeat first
    [ solve [eauto with paper_keeps]
    | apply keeps_bind; [|intros]
    | case_match ].

Lemma keeps_opening row q p now : keeps (updateOpeningPosition row q p now).
Proof. unfold updateOpeningPosition. keep_markets. Qed.

Lemma keeps_closing row q p now options : keeps (updateClosingPosition row q p now options).
Proof. unfold updateClosingPosition, cancelOrphanedReduceOrders. keep_markets. Qed.
#[export] Hint Resolve keeps_opening keeps_closing : paper_keeps.

Lemma keeps_fillOrder uuid row mark now options immediate : keeps (fillOrder uuid row mark now options immediate).
Proof. unfold fillOrder. keep_markets. Qed.
#[export] Hint Resolve keeps_fillOrder : paper_keeps.

Lemma keeps_settle uuid orders mark now options : keeps (settle uuid orders mark now options).
Proof. induction orders as [|o orders IH]; cbn [settle]; keep_markets. Qed.
#[export] Hint Resolve keeps_settle : paper_keeps.

Lemma keeps_submit uuid account request now options : keeps (submitOrder uuid account request now options).
Proof. unfold submitOrder. keep_markets. Qed.
#[export] Hint Resolve keeps_submit : paper_keeps.

Lemma keeps_protected uuid account entry stop now now' options : keeps (submitProtectedEntry uuid account entry stop now now' options).
Proof. unfold submitProtectedEntry. keep_markets. Qed.

Lemma keeps_cancel account client now : keeps (cancelOrder account client now).
Proof. unfold cancelOrder. keep_markets. Qed.

Lemma keeps_balance account equity available now : keeps (setBalance account equity available now).
Proof. unfold setBalance. keep_markets. Qed.

(** A well-formed market table. *)
Definition markets_ok (db : PaperDb) : Prop := ∀ k row, db_markets db !! k = Some row →
  pk_symbol row = k.2 ∧ market_symbol k.2 = true ∧ 1 <= pk_max_leverage row.

Lemma paper_step_markets uuid options db db' : paper_step uuid options db db' → markets_ok db → markets_ok db'.
Proof.
  intros Hstep Hok. destruct Hstep as [acc eq av now db u db' H|acc market now db u db' H|acc rq now db r db' H|acc en st now now' db r db' H|acc cl now db r db' H].
  1, 3, 4, 5: unfold markets_ok; first [apply keeps_balance in H|apply keeps_submit in H|apply keeps_protected in H|apply keeps_cancel in H]; by rewrite H.
  unfold setMarket in H. destruct (negb (market_symbol _)) eqn:Es; [done|]. apply negb_false_iff in Es.
  do 5 (run_step H; apply lift_Ok in E as [_ ->]). destruct (_ || _) eqn:El; [done|]. rewrite !orb_false_iff, Z.ltb_ge in El.
  run_step H. unfold modify in E. run_step E. injection E0 as <- <-. injection E as _ <-. unfold settleOpenOrders in H. run_step H. injection E as <- <-.
  apply keeps_settle in H. intros k row. rewrite H. cbn [set_markets db_markets]. intros [[<- <-]|[_ Hk]]%lookup_insert_Some; [|by apply Hok].
  cbn [pk_symbol pk_max_leverage snd]. split_and!; [done|done|lia].
Qed.

Lemma market_symbol_length s : market_symbol s = true → (2 <= length (chars s) <= 20)%nat.
Proof. unfold market_symbol. rewrite !andb_true_iff, !Nat.leb_le. lia. Qed.

(** One unlimited tier with a positive maximum is a complete table. *)
Lemma single_tier_ok n : 1 <= n → validateTierTable [mkTier "0" None (Z.min 50 n)] = Ok tt.
Proof.
  intros Hn. unfold validateTierTable. cbn [length]. unfold mbind, result_bind.
  replace (requireTier _ _) with (Ok tt) by reflexivity. cbn [validateTiers lt_lowerBound lt_maxLeverage lt_upperBound].
  replace (decimal "0" false None) with (Ok "0") by (vm_compute; reflexivity). unfold mbind, result_bind.
  assert (isSafeInteger (Z.min 50 n) = true) as -> by (apply isSafeInteger_true; unfold MAX_SAFE_INTEGER; lia).
  rewrite (proj2 (Z.leb_le (Z.min 50 n) 50)) by lia. rewrite Z.geb_leb, (proj2 (Z.leb_le 1 (Z.min 50 n))) by lia. reflexivity.
Qed.

(** The evidence of the simulator says nothing is in scope exactly when the tables say so. *)
Lemma simulated_scope uuid db account row observedAt : paper_inv uuid db →
  scope_empty (te_scope (simulatedTierEvidence account row observedAt db)) = true ↔
  ledger (ac_id account, pk_symbol row) (db_orders db) = 0 ∧
  (∀ o, o ∈ db_orders db → order_key o = (ac_id account, pk_symbol row) → counted o = false).
Proof.
  intros [_ Hpos]. unfold simulatedTierEvidence. cbn [te_scope scope_empty sc_complete sc_positionQuantity sc_openOrderCount].
  set (k := (ac_id account, pk_symbol row)). specialize (Hpos k). rewrite andb_true_l, andb_true_iff, bool_decide_eq_true, Z.eqb_eq.
  apply and_iff.
  - destruct (db_positions db !! k) as [p|]; cbn.
    + destruct Hpos as [-> Hp]. split; [|lia]. intros H. assert (units (dec (ledger k (db_orders db))) = Some 0) as H0 by (rewrite H; vm_compute; reflexivity).
      apply units_dec_Some in H0 as [? _]; lia.
    + done.
  - rewrite <-Nat2Z.inj_0, Nat2Z.inj_iff, length_zero_iff_nil. split.
    + intros H o Ho Hk. destruct (counted o) eqn:E; [|done].
      assert (o ∈ filter (λ o, order_key o = k ∧ counted o = true) (db_orders db)) as Hin by (by apply list_elem_of_filter).
      rewrite H in Hin. by apply elem_of_nil in Hin.
    + intros H. destruct (filter _ (db_orders db)) as [|o l] eqn:E; [done|].
      assert (o ∈ o :: l) as Hin by by left. rewrite <-E in Hin. apply list_elem_of_filter in Hin as [[Hk Hc] Hin].
      by rewrite (H o Hin Hk) in Hc.
Qed.

(** The snapshot built from a market row. *)
Definition row_snapshot (account : TradingAccount) (row : PaperMarketRow) (observedAt : Z) (db : PaperDb) : TradingMarketSnapshot :=
  mkMarket (pk_symbol row) (pk_mark_price row) (pk_price_tick row) (pk_quantity_step row) (pk_minimum_quantity row)
    (pk_minimum_notional row) (Z.min 50 (pk_max_leverage row)) (pk_updated_at row) (Some (paperAccounting (pk_symbol row)))
    (Some (simulatedTierEvidence account row observedAt db)).

Lemma simulated_binding account row observedAt db : ac_exchange account = "paper" →
  assertTierBinding account (simulatedTierEvidence account row observedAt db) = Ok tt.
Proof.
  intros Hp. unfold assertTierBinding. rewrite Hp. cbn [te_accountFingerprint te_credentialGeneration te_source te_ccxtVersion te_profileHash simulatedTierEvidence].
  change (bool_decide ("paper" = "paper")) with true. cbv iota. by rewrite (bool_decide_true (Some (ac_id account) = _)).
Qed.

Lemma simulated_units account row observedAt db : (2 <= length (chars (pk_symbol row)) <= 20)%nat →
  assertTierUnits (row_snapshot account row observedAt db) (simulatedTierEvidence account row observedAt db) = Ok tt.
Proof.
  intros Hl. unfold assertTierUnits. cbn [te_providerSymbol te_currency simulatedTierEvidence mk_accounting row_snapshot].
  rewrite (proj2 (Nat.ltb_lt 0 _)), (proj2 (Nat.leb_le _ 100)) by lia. cbn [andb].
  change (bool_decide ("USDT" ∈ ["USD"; "USDT"; "USDC"])) with true.
  cbn [ma_providerSymbol ma_settlementAsset paperAccounting te_markPrice mk_markPrice te_contractSize].
  rewrite !bool_decide_true by done. vm_compute. reflexivity.
Qed.

(** Beside its freshness and its scope nothing of the simulator's evidence is refused. *)
Lemma simulated_accepted account row observedAt db now : ac_exchange account = "paper" →
  (2 <= length (chars (pk_symbol row)) <= 20)%nat → 1 <= pk_max_leverage row →
  (∃ evidence, assertTierEvidence account (pk_symbol row) (row_snapshot account row observedAt db) now = Ok evidence) ↔
  assertTierFresh (simulatedTierEvidence account row observedAt db) now = Ok tt ∧
  scope_empty (te_scope (simulatedTierEvidence account row observedAt db)) = true.
Proof.
  intros Hp Hl Hlev. unfold assertTierEvidence. cbn [mk_leverageTiers row_snapshot].
  set (v := simulatedTierEvidence account row observedAt db).
  assert (requireEvidence ((te_version v =? 1) && bool_decide (te_exchange v = ac_exchange account) && bool_decide (te_symbol v = pk_symbol row))
    "Tier account/symbol evidence is missing." = Ok tt) as -> by (apply requireEvidence_Ok; by rewrite !bool_decide_true).
  unfold v. rewrite (simulated_binding _ _ _ _ Hp). fold (row_snapshot account row observedAt db). rewrite (simulated_units _ _ _ _ Hl).
  cbn [te_tiers simulatedTierEvidence lt_maxLeverage]. rewrite (single_tier_ok _ Hlev). fold v. unfold mbind, result_bind. cbn [try_catch].
  rewrite Z.eqb_refl. destruct (assertTierFresh v now) as [[]|e]; [|by split; [intros [? ?]|intros [? _]]].
  unfold requireEvidence at 1, require at 1. destruct (scope_empty (te_scope v)); split; intros H; try done; [by eexists|by destruct H|by destruct H].
Qed.

(** What the simulated exchange reports is what the admission check trusts.
    In any state the adapter reaches, the leverage evidence of [marketSnapshot]
    for an account passes [assertTierEvidence] exactly when it is read within
    ten seconds (at times a JavaScript number holds exactly), the account's
    orders in the symbol have executed to a flat position, and none of them can
    still execute.  Its scope therefore never hides exposure, and a flat, idle
    symbol is never refused. *)
Theorem paper_evidence_accepted uuid options0 options db0 db account symbol observedAt market now :
  Inj (=) (=) uuid → newAdapter options0 = Ok options → untraded db0 → markets_ok db0 → rtc (paper_step uuid options) db0 db →
  marketSnapshot account symbol observedAt db = Ok market →
  (∃ evidence, assertTierEvidence account symbol market now = Ok evidence) ↔
  (isSafeInteger observedAt = true ∧ isSafeInteger (observedAt + 10000) = true ∧ observedAt <= now < observedAt + 10000) ∧
  ledger (ac_id account, symbol) (db_orders db) = 0 ∧
  (∀ o, o ∈ db_orders db → order_key o = (ac_id account, symbol) → counted o = false).
Proof.
  intros Hinj Hopt H0 Hm0 Hrun Hs. pose proof (reachable_inv _ _ _ _ _ Hinj Hopt H0 Hrun) as Hinv.
  assert (markets_ok db) as Hm by (clear -Hm0 Hrun; induction Hrun; [done|]; by eauto using paper_step_markets).
  unfold marketSnapshot in Hs. apply bind_Ok in Hs as ([] & Ha & Hs). destruct (db_markets db !! _) as [row|] eqn:Er; [|done]. injection Hs as <-.
  destruct (Hm _ _ Er) as (Hsym & Hms & Hlev). cbn [snd] in Hsym, Hms. apply market_symbol_length in Hms.
  rewrite <-Hsym in *. fold (row_snapshot account row observedAt db). rewrite <-(simulated_scope uuid db account row observedAt Hinv).
  unfold assertPaperAccount in Ha. destruct (bool_decide (ac_exchange account = "paper")) eqn:Ex; [|done]. apply bool_decide_eq_true in Ex.
  rewrite (simulated_accepted _ _ _ _ _ Ex Hms Hlev). apply and_iff; [|done].
  unfold assertTierFresh. rewrite requireEvidence_Ok. cbn [te_observedAt te_expiresAt simulatedTierEvidence].
  rewrite !andb_true_iff, Z.geb_leb, Z.leb_le, Z.ltb_lt, Z.eqb_eq. intuition lia.
Qed.

(** The margin a full close frees is the held margin multiplied and divided by
    the same quantity, truncated to 18 places each time: the position is
    deleted with a remainder of its margin still deducted from the balance. *)
Definition dust_quote : TradingMarketSnapshot := mkMarket "BTCUSDT" "43123.45" "0.01" "0.001" "0.001" "5" 20 0 None None.
Definition dust_entry : ExchangeOrderRequest :=
  mkRequest (mkOrder "c1" role_entry buy type_market false "0.001" None None false false None) None "BTCUSDT" 7.
Definition dust_exit : ExchangeOrderRequest :=
  mkRequest (mkOrder "c2" role_stop_loss sell type_market false "0.001" None None true false None) None "BTCUSDT" 7.
Definition dust_closed : result (ExchangeOrderResult * PaperDb) :=
  (_ ← setMarket unary "a" dust_quote 1 (mkOptions None None);
   _ ← submitOrder unary paper_account dust_entry 2 (mkOptions None None);
   submitOrder unary paper_account dust_exit 3 (mkOptions None None)) paper_start.

Example full_close_strands_margin :
  db_positions (paper_after dust_closed) = ∅ ∧
  pa_equity <$> db_accounts (paper_after dust_closed) !! "a" = Some "1000" ∧
  pa_available_balance <$> db_accounts (paper_after dust_closed) !! "a" = Some "999.999999999999999858".
Proof. split; [|split]; vm_compute; reflexivity. Qed.
