(* ===== verification/Ledger.v ===== *)
(** Ledger: [src/trading_money_ledger.ts], the append-only ledger of monetary
    events of the trading accounts.

    An operation is a state-and-error function in which a throw keeps what was
    already written: [withDatabaseTransaction] undoes it only in the outermost
    transaction, a nested one ([owned]) runs its operation as it is.  Stored
    JSON text is the value it was written from ([JSON.stringify] of the
    cleaned records is injective); [sha256] is the digest of [node:crypto].
    The accounts, the persisted fills, the FX valuations and the projection
    tables are rows of other components that the ledger only reads. *)

From S2P Require Import Prelude Text Decimal Rational Money Types Json Strategy.
From Stdlib Require Import QArith.
From Stdlib Require Ascii String.
Local Open Scope Z_scope.

(** ** Records *)
Record ReportingCurrencyBinding := mkBinding {
  rb_accountId : string; rb_accountFingerprint : string; rb_profile : string; rb_reportingCurrency : string;
  rb_settlementAssets : list string; rb_source : string; rb_verifiedAt : Z }.
#[export] Instance ReportingCurrencyBinding_eq_dec : EqDecision ReportingCurrencyBinding.
Proof. solve_decision. Defined.

Inductive MoneyKind := kind_fee | kind_funding | kind_realized_price_pnl.
#[export] Instance MoneyKind_eq_dec : EqDecision MoneyKind.
Proof. solve_decision. Defined.
Inductive MoneyBasis := basis_fill | basis_provider.
#[export] Instance MoneyBasis_eq_dec : EqDecision MoneyBasis.
Proof. solve_decision. Defined.

Record MoneyEventInput := mkEventInput {
  ei_accountId : string; ei_accountFingerprint : string; ei_providerEventId : string; ei_kind : MoneyKind; ei_source : string;
  ei_basis : MoneyBasis; ei_occurredAt : Z; ei_amount : string; ei_asset : option string; ei_intentId : option string;
  ei_fillId : option string; ei_derivation : option string }.
#[export] Instance MoneyEventInput_eq_dec : EqDecision MoneyEventInput.
Proof. solve_decision. Defined.

Record EventTimeValuation := mkValuation {
  ev_eventId : string; ev_route : string; ev_baseAsset : string; ev_quoteAsset : string; ev_rate : string;
  ev_observedAt : Z; ev_evidenceId : string }.
#[export] Instance EventTimeValuation_eq_dec : EqDecision EventTimeValuation.
Proof. solve_decision. Defined.

Record MoneyEvent := mkEvent {
  me_input : MoneyEventInput; me_id : string; me_valued : bool; me_reportingAmount : option string;
  me_reportingCurrency : option string; me_reportingValue : option MoneyValue; me_valuationEvidenceId : option string }.

(** [received_json] of a conflict: the event, or the valuation with its amount. *)
Inductive Received := received_event (e : MoneyEventInput) | received_valuation (v : EventTimeValuation) (reportingAmount : string).
#[export] Instance Received_eq_dec : EqDecision Received.
Proof. solve_decision. Defined.
Record MoneyConflict := mkConflict { cf_event_id : string; cf_received : Received }.
#[export] Instance MoneyConflict_eq_dec : EqDecision MoneyConflict.
Proof. solve_decision. Defined.

(** Rows of other components. *)
Record LedgerAccount := mkLedgerAccount { la_exchange : string; la_mode : string; la_external_account_id : option string }.
Record LedgerFill := mkLedgerFill { lf_intent_id : string; lf_account_id : string; lf_account_fingerprint : option string; lf_filled_at : Z }.
Record FxProof := mkFxProof { fp_value : MoneyValue; fp_reportingCurrency : string; fp_contentHash : string }.

Record LedgerDb := mkLedger {
  ld_accounts : gmap string LedgerAccount;
  ld_fills : gmap string LedgerFill;
  (** what [readFxMoneyValuation] answers for the events that have an FX row *)
  ld_fx : gmap string (result (option FxProof));
  (** accounts of pending projections, and account and status of projections *)
  ld_pending : list string;
  ld_projections : list (string * string);
  ld_bindings : gmap (string * string) ReportingCurrencyBinding;
  ld_events : gmap string MoneyEventInput;
  ld_valuations : gmap string (EventTimeValuation * string);
  ld_conflicts : list MoneyConflict }.

(** ** Effects *)
Definition L (A : Type) : Type := LedgerDb → result A * LedgerDb.
#[export] Instance L_ret : MRet L := λ A a db, (Ok a, db).
#[export] Instance L_bind : MBind L := λ A B f m db, match m db with (Ok a, db') => f a db' | (Err e, db') => (Err e, db') end.

Definition lift {A} (r : result A) : L A := λ db, (r, db).
Definition get : L LedgerDb := λ db, (Ok db, db).
Definition put (db : LedgerDb) : L unit := λ _, (Ok tt, db).
Definition fail {A} (msg : string) : L A := lift (throw msg).

(** [withDatabaseTransaction]: only the outermost one rolls back. *)
Definition withDatabaseTransaction {A} (owned : bool) (m : L A) : L A := λ db,
  match m db with
  | (Ok a, db') => (Ok a, db')
  | (Err e, db') => (Err e, if owned then db' else db)
  end.

Definition add_binding (b : ReportingCurrencyBinding) (db : LedgerDb) : LedgerDb :=
  mkLedger (ld_accounts db) (ld_fills db) (ld_fx db) (ld_pending db) (ld_projections db)
    (<[(rb_accountId b, rb_accountFingerprint b) := b]> (ld_bindings db)) (ld_events db) (ld_valuations db) (ld_conflicts db).
Definition add_event (id : string) (e : MoneyEventInput) (db : LedgerDb) : LedgerDb :=
  mkLedger (ld_accounts db) (ld_fills db) (ld_fx db) (ld_pending db) (ld_projections db)
    (ld_bindings db) (<[id := e]> (ld_events db)) (ld_valuations db) (ld_conflicts db).
Definition add_valuation (id : string) (v : EventTimeValuation * string) (db : LedgerDb) : LedgerDb :=
  mkLedger (ld_accounts db) (ld_fills db) (ld_fx db) (ld_pending db) (ld_projections db)
    (ld_bindings db) (ld_events db) (<[id := v]> (ld_valuations db)) (ld_conflicts db).
(** [ON CONFLICT(event_id, kind, received_json) DO NOTHING] *)
Definition add_conflict (c : MoneyConflict) (db : LedgerDb) : LedgerDb :=
  mkLedger (ld_accounts db) (ld_fills db) (ld_fx db) (ld_pending db) (ld_projections db)
    (ld_bindings db) (ld_events db) (ld_valuations db)
    (if bool_decide (c ∈ ld_conflicts db) then ld_conflicts db else ld_conflicts db ++ [c]).

Definition modify (f : LedgerDb → LedgerDb) : L unit := db ← get; put (f db).

(** ** Field checks *)
Definition identifier (value : string) : result string :=
  if bool_decide (value = "") || negb (bool_decide (trim value = value)) || (256 <? length (chars value))%nat
  then throw "Invalid monetary evidence identifier." else Ok value.

(** [/^[A-Z0-9][A-Z0-9._-]{0,31}$/] *)
Definition asset_pattern (value : string) : bool :=
  match chars value with
  | [] => false
  | c :: l => (is_upper c || is_digit c)
      && forallb (λ c, is_upper c || is_digit c || (char_code c =? 46) || (char_code c =? 95) || (char_code c =? 45)) l && (length l <=? 31)%nat
  end.
Definition asset (value : string) : result string := if asset_pattern value then Ok value else throw "Invalid monetary asset.".

Definition timestamp (value : Z) : result Z :=
  if negb (isSafeInteger value) || (value <? 0) then throw "Invalid monetary event timestamp." else Ok value.

Definition cleanBinding (value : ReportingCurrencyBinding) : result ReportingCurrencyBinding :=
  assets ← mapM asset (rb_settlementAssets value);
  let settlementAssets := sort_text id (remove_dups assets) in
  let providerUsdReport := bool_decide (rb_profile value = "bybit") && bool_decide (rb_reportingCurrency value = "USD")
                           && bool_decide (rb_source value = "bybit-wallet-balance-v1") in
  if negb (bool_decide (rb_reportingCurrency value ∈ settlementAssets)) && negb providerUsdReport
  then throw "Reporting currency must be evidenced by account settlement metadata."
  else
    accountId ← identifier (rb_accountId value);
    accountFingerprint ← identifier (rb_accountFingerprint value);
    profile ← identifier (rb_profile value);
    reportingCurrency ← asset (rb_reportingCurrency value);
    source ← identifier (rb_source value);
    verifiedAt ← timestamp (rb_verifiedAt value);
    Ok (mkBinding accountId accountFingerprint profile reportingCurrency settlementAssets source verifiedAt).

(** [value ? identifier(value) : null] *)
Definition optional_identifier (value : option string) : result (option string) :=
  match value with
  | None => Ok None
  | Some v => if bool_decide (v = "") then Ok None else Some <$> identifier v
  end.

Definition cleanEvent (value : MoneyEventInput) : result MoneyEventInput :=
  if bool_decide (ei_kind value = kind_realized_price_pnl) && negb (bool_decide (ei_basis value = basis_fill))
  then throw "Realized price PnL uses derived fills, not additional provider postings."
  else
    accountId ← identifier (ei_accountId value);
    accountFingerprint ← identifier (ei_accountFingerprint value);
    providerEventId ← identifier (ei_providerEventId value);
    source ← identifier (ei_source value);
    occurredAt ← timestamp (ei_occurredAt value);
    amount ← signedDecimal (ei_amount value);
    unit ← match ei_asset value with None => Ok None | Some a => Some <$> asset a end;
    intentId ← optional_identifier (ei_intentId value);
    fillId ← optional_identifier (ei_fillId value);
    derivation ← match ei_derivation value with None => Ok None | Some d => Some <$> identifier d end;
    Ok (mkEventInput accountId accountFingerprint providerEventId (ei_kind value) source (ei_basis value) occurredAt amount unit
          intentId fillId derivation).

(** [`paper:${accountId}`] for a paper account, the verified external account otherwise. *)
Definition expected_fingerprint (accountId : string) (account : LedgerAccount) : option string :=
  if bool_decide (la_exchange account = "paper") && bool_decide (la_mode account = "paper")
  then Some ("paper:" +:+ accountId) else la_external_account_id account.

Definition binding_verified (accountId fingerprint : string) (profile : option string) (accounts : gmap string LedgerAccount) : bool :=
  match accounts !! accountId with
  | None => false
  | Some account =>
      match expected_fingerprint accountId account with
      | None => false
      | Some expected =>
          negb (bool_decide (expected = "")) && bool_decide (expected = fingerprint)
          && match profile with
             | Some p => bool_decide (p = "") || bool_decide (p = la_exchange account)
             | None => true
             end
      end
  end.

Definition assertAccountBinding (accountId fingerprint : string) (profile : option string) : L unit :=
  db ← get;
  if binding_verified accountId fingerprint profile (ld_accounts db) then mret tt else fail "Monetary account binding is not verified.".

Definition getReportingCurrencyBinding (accountId fingerprint : string) : L (option ReportingCurrencyBinding) :=
  db ← get; mret (ld_bindings db !! (accountId, fingerprint)).

Definition unverified (b : ReportingCurrencyBinding) : ReportingCurrencyBinding :=
  mkBinding (rb_accountId b) (rb_accountFingerprint b) (rb_profile b) (rb_reportingCurrency b) (rb_settlementAssets b) (rb_source b) 0.

Definition bindAccountReportingCurrency (owned : bool) (value : ReportingCurrencyBinding) : L unit :=
  clean ← lift (cleanBinding value);
  withDatabaseTransaction owned (
    _ ← assertAccountBinding (rb_accountId clean) (rb_accountFingerprint clean) (Some (rb_profile clean));
    current ← getReportingCurrencyBinding (rb_accountId clean) (rb_accountFingerprint clean);
    match current with
    | Some b => if bool_decide (unverified b = unverified clean) then mret tt else fail "Reporting currency binding conflict."
    | None => modify (add_binding clean)
    end).

(** ** Events and valuations *)
Definition recordConflict (eventId : string) (received : Received) : L unit := modify (add_conflict (mkConflict eventId received)).

Definition appendValuation (eventId amount : string) (valuation : EventTimeValuation) : L bool :=
  reportingAmount ← lift (multiplyExactSignedDecimal amount (ev_rate valuation));
  let conflict : L bool := _ ← recordConflict eventId (received_valuation valuation reportingAmount); mret false in
  db ← get;
  match ld_fx db !! eventId with
  | Some _ => conflict
  | None =>
      match ld_valuations db !! eventId with
      | Some existing => if bool_decide (existing = (valuation, reportingAmount)) then mret true else conflict
      | None => _ ← modify (add_valuation eventId (valuation, reportingAmount)); mret true
      end
  end.

Definition nativeValuation (id : string) (event : MoneyEventInput) : L unit :=
  binding ← getReportingCurrencyBinding (ei_accountId event) (ei_accountFingerprint event);
  match binding with
  | None => mret tt
  | Some b =>
      if negb (bool_decide (ei_amount event = "0")) && negb (bool_decide (ei_asset event = Some (rb_reportingCurrency b))) then mret tt
      else
        _ ← appendValuation id (ei_amount event)
              (mkValuation id (if bool_decide (ei_amount event = "0") then "zero-no-conversion" else "native-asset")
                 (default (rb_reportingCurrency b) (ei_asset event)) (rb_reportingCurrency b) "1" (ei_occurredAt event)
                 ("account-binding:" +:+ ei_accountFingerprint event));
        mret tt
  end.

(** [ORDER BY occurred_at, id] *)
Definition by_time (l : list (string * MoneyEventInput)) : list (string * MoneyEventInput) :=
  sort_by (λ row, ei_occurredAt row.2) (sort_text fst l).

Fixpoint valueAll (rows : list (string * MoneyEventInput)) : L unit :=
  match rows with
  | [] => mret tt
  | (id, event) :: rest => _ ← nativeValuation id event; valueAll rest
  end.

Definition valueNativeAccountMoney (owned : bool) (accountId fingerprint : string) : L unit :=
  withDatabaseTransaction owned (
    _ ← assertAccountBinding accountId fingerprint None;
    binding ← getReportingCurrencyBinding accountId fingerprint;
    match binding with
    | None => mret tt
    | Some b =>
        db ← get;
        valueAll (take 1000 (by_time (filter (λ row, ei_accountId row.2 = accountId ∧ ei_accountFingerprint row.2 = fingerprint ∧
          (ei_asset row.2 = Some (rb_reportingCurrency b) ∨ ei_amount row.2 = "0") ∧ ld_valuations db !! row.1 = None)
          (map_to_list (ld_events db)))))
    end).

Definition sameMoneyOriginal (original clean : MoneyEventInput) : bool :=
  match ei_basis clean with
  | basis_provider => bool_decide (original = clean)
  | basis_fill =>
      bool_decide (mkEventInput (ei_accountId original) (ei_accountFingerprint original) (ei_providerEventId clean) (ei_kind original)
        (ei_source clean) (ei_basis original) (ei_occurredAt original) (ei_amount original) (ei_asset original) (ei_intentId original)
        (ei_fillId original) (ei_derivation original) = clean)
  end.

Definition kind_text (k : MoneyKind) : string :=
  match k with kind_fee => "fee" | kind_funding => "funding" | kind_realized_price_pnl => "realized_price_pnl" end.

(** The stored fill events a new one could be. *)
Definition fill_candidate (clean : MoneyEventInput) (fillId : string) (row : string * MoneyEventInput) : Prop :=
  ei_accountId row.2 = ei_accountId clean ∧ ei_accountFingerprint row.2 = ei_accountFingerprint clean ∧
  ei_basis row.2 = basis_fill ∧ ei_kind row.2 = ei_kind clean ∧
  (ei_fillId row.2 = Some fillId ∨ (ei_fillId row.2 = None ∧ ei_providerEventId row.2 = ei_providerEventId clean)).
#[export] Instance fill_candidate_dec clean fillId row : Decision (fill_candidate clean fillId row).
Proof. unfold fill_candidate. apply _. Defined.

Definition record_conflicts (rows : list (string * MoneyEventInput)) (clean : MoneyEventInput) : L unit :=
  modify (λ db, fold_left (λ db row, add_conflict (mkConflict row.1 (received_event clean)) db) rows db).

Section Digest.
Context (sha256 : string → string).

Definition digest (value : jsval) : string := sha256 (of_chars (stringify value)).

Definition canonicalMoneyIdentity (clean : MoneyEventInput) : L (option string) :=
  let mismatch : L (option string) := fail "Fill monetary evidence does not match its persisted account, intent and event time." in
  match ei_basis clean with
  | basis_provider =>
      mret (Some (digest (JArray [JString (ei_accountId clean); JString (ei_accountFingerprint clean); JString (ei_providerEventId clean);
                                  JString (kind_text (ei_kind clean))])))
  | basis_fill =>
      match ei_fillId clean with
      | None => fail "Fill monetary evidence requires an actual persisted fill identity."
      | Some fillId =>
          if bool_decide (ei_kind clean = kind_funding) then fail "Fill monetary evidence requires an actual persisted fill identity."
          else
            db ← get;
            match ld_fills db !! fillId with
            | None => mismatch
            | Some fill =>
                if negb (bool_decide (lf_account_id fill = ei_accountId clean))
                   || negb (bool_decide (lf_account_fingerprint fill = Some (ei_accountFingerprint clean))) then mismatch
                else if negb (lf_filled_at fill =? ei_occurredAt clean)
                   || match ei_intentId clean with Some i => negb (bool_decide (i = lf_intent_id fill)) | None => false end then mismatch
                else
                  match filter (fill_candidate clean fillId) (map_to_list (ld_events db)) with
                  | [] => mret (Some (digest (JArray [JString "fill-money-v1"; JString (ei_accountId clean);
                            JString (ei_accountFingerprint clean); JString fillId; JString (kind_text (ei_kind clean))])))
                  | [(id, existing)] =>
                      if bool_decide (ei_fillId existing = Some fillId) then mret (Some id)
                      else _ ← recordConflict id (received_event clean); mret None
                  | candidates => _ ← record_conflicts candidates clean; mret None
                  end
            end
      end
  end.

(** The row read back for an event. *)
Definition valuationJson (v : EventTimeValuation) (reportingAmount : string) : jsval :=
  JObject [("eventId", JString (ev_eventId v)); ("route", JString (ev_route v)); ("baseAsset", JString (ev_baseAsset v));
    ("quoteAsset", JString (ev_quoteAsset v)); ("rate", JString (ev_rate v)); ("observedAt", JInt (ev_observedAt v));
    ("evidenceId", JString (ev_evidenceId v)); ("reportingAmount", JString reportingAmount)].

Definition decodeMoneyRow (id : string) (input : MoneyEventInput) (db : LedgerDb) : result MoneyEvent :=
  let valuation := ld_valuations db !! id in
  let unresolved := mkEvent input id false (snd <$> valuation) ((λ v, ev_quoteAsset v.1) <$> valuation) None None in
  if bool_decide (Exists (λ c, cf_event_id c = id) (ld_conflicts db)) then Ok unresolved
  else
    match ld_fx db !! id with
    | Some (Ok None) => Ok unresolved
    | Some (Ok (Some proof)) =>
        Ok (mkEvent input id true (mv_decimal (fp_value proof)) (Some (fp_reportingCurrency proof)) (Some (fp_value proof))
              (Some (fp_contentHash proof)))
    | Some (Err e) => if String.prefix "FX_" (message e) then Ok unresolved else Err e
    | None =>
        match valuation with
        | None => Ok unresolved
        | Some (v, amount) =>
            value ← moneyValueFromDecimal amount;
            Ok (mkEvent input id true (Some amount) (Some (ev_quoteAsset v)) (Some value) (Some (digest (valuationJson v amount))))
        end
    end.

Definition getMoneyEvent (id : string) : L (option MoneyEvent) :=
  db ← get;
  match ld_events db !! id with
  | None => mret None
  | Some input => e ← lift (decodeMoneyRow id input db); mret (Some e)
  end.

(** The transaction of [recordMoneyEvent]: the identity, when accepted. *)
Definition storeMoneyEvent (clean : MoneyEventInput) : L (option string) :=
  _ ← assertAccountBinding (ei_accountId clean) (ei_accountFingerprint clean) None;
  identity ← canonicalMoneyIdentity clean;
  match identity with
  | None => mret None
  | Some id =>
      db ← get;
      match ld_events db !! id with
      | Some existing =>
          if sameMoneyOriginal existing clean then _ ← nativeValuation id existing; mret (Some id)
          else _ ← recordConflict id (received_event clean); mret None
      | None => _ ← modify (add_event id clean); _ ← nativeValuation id clean; mret (Some id)
      end
  end.

Definition recordMoneyEvent (owned : bool) (value : MoneyEventInput) : L MoneyEvent :=
  clean ← lift (cleanEvent value);
  outcome ← withDatabaseTransaction owned (storeMoneyEvent clean);
  match outcome with
  | None => fail "Monetary event conflict; contradictory evidence was retained."
  | Some id =>
      persisted ← getMoneyEvent id;
      match persisted with Some e => mret e | None => fail "Monetary event was not retained." end
  end.

Definition with_amount (value : MoneyEventInput) (kind : MoneyKind) (amount : string) : MoneyEventInput :=
  mkEventInput (ei_accountId value) (ei_accountFingerprint value) (ei_providerEventId value) kind (ei_source value) (ei_basis value)
    (ei_occurredAt value) amount (ei_asset value) (ei_intentId value) (ei_fillId value) (ei_derivation value).

(** The [fee] is passed in place of the amount. *)
Definition recordFeeEvent (owned : bool) (value : MoneyEventInput) (fee : string) : L MoneyEvent :=
  amount ← lift (negateSignedDecimal fee); recordMoneyEvent owned (with_amount value kind_fee amount).

(** ** Quotes of the paper profile *)
Definition supported_pair (base quote : string) : bool :=
  bool_decide ((base, quote) ∈ [("BNB", "USDT"); ("BTC", "USDT"); ("USDC", "USDT"); ("USDT", "USD"); ("USDC", "USD")]).

Definition validateEventTimeQuote (id : string) (event : MoneyEventInput) (binding : ReportingCurrencyBinding) (quote : EventTimeValuation)
    : result EventTimeValuation :=
  if negb (ev_observedAt quote =? ei_occurredAt event) then throw "Valuation must be evidenced at the monetary event time."
  else if negb (bool_decide (Some (ev_baseAsset quote) = ei_asset event)) || negb (bool_decide (ev_quoteAsset quote = rb_reportingCurrency binding))
  then throw "Valuation asset pair does not match the event/reporting binding."
  else if negb (bool_decide (rb_profile binding = "paper")) || negb (bool_decide (ev_route quote = "paper:event-time-rate:v1"))
     || negb (supported_pair (ev_baseAsset quote) (ev_quoteAsset quote))
  then throw "No certified profile-bound event-time valuation route."
  else
    baseAsset ← asset (ev_baseAsset quote);
    quoteAsset ← asset (ev_quoteAsset quote);
    rate ← decimal (ev_rate quote) true None;
    observedAt ← timestamp (ev_observedAt quote);
    evidenceId ← identifier (ev_evidenceId quote);
    Ok (mkValuation id (ev_route quote) baseAsset quoteAsset rate observedAt evidenceId).

Definition valueMoneyEvent (owned : bool) (quote : EventTimeValuation) : L unit :=
  accepted ← withDatabaseTransaction owned (
    eventId ← lift (identifier (ev_eventId quote));
    event ← getMoneyEvent eventId;
    match event with
    | None => fail "Monetary event does not exist."
    | Some e =>
        let input := me_input e in
        _ ← assertAccountBinding (ei_accountId input) (ei_accountFingerprint input) None;
        binding ← getReportingCurrencyBinding (ei_accountId input) (ei_accountFingerprint input);
        match binding with
        | None => fail "Monetary reporting currency binding is unresolved."
        | Some b => valuation ← lift (validateEventTimeQuote (me_id e) input b quote); appendValuation (me_id e) (ei_amount input) valuation
        end
    end);
  if (accepted : bool) then mret tt else fail "Monetary valuation conflict; contradictory evidence was retained.".

(** ** Reading *)
Definition decodeAll (rows : list (string * MoneyEventInput)) : L (list MoneyEvent) :=
  db ← get; lift (mapM (λ row, decodeMoneyRow row.1 row.2 db) rows).

Definition moneyEventsForIntent (intentId : string) : L (list MoneyEvent) :=
  db ← get; decodeAll (by_time (filter (λ row, ei_intentId row.2 = Some intentId) (map_to_list (ld_events db)))).

Fixpoint sum_from (sum : MoneyValue) (events : list MoneyEvent) : result MoneyValue :=
  match events with
  | [] => Ok sum
  | event :: rest =>
      match me_valued event, me_reportingValue event with
      | true, Some value => s ← addMoneyValues sum value; sum_from s rest
      | _, _ => throw "Monetary event remains unresolved."
      end
  end.

Definition sumMoneyEventValues (events : list MoneyEvent) : result MoneyValue := zero ← zeroWithTerms 0; sum_from zero events.

Record Readiness := mkReadiness { rd_currency : option string; rd_fingerprint : option string; rd_ready : bool;
  rd_conflictCount : Z; rd_pendingProjections : Z; rd_unresolvedProjections : Z }.

Definition count {A} (p : A → Prop) `{∀ x, Decision (p x)} (l : list A) : Z := Z.of_nat (length (filter p l)).

Definition snapshotReadiness (accountId : string) : L Readiness :=
  db ← get;
  let bindings := filter (λ row, row.1.1 = accountId) (map_to_list (ld_bindings db)) in
  let binding := match bindings with [row] => Some row.2 | _ => None end in
  let '(current, _) := assertAccountBinding accountId (default "" (rb_accountFingerprint <$> binding)) None db in
  let conflicts := count (λ c, (ei_accountId <$> ld_events db !! cf_event_id c) = Some accountId) (ld_conflicts db) in
  let pending := count (λ a, a = accountId) (ld_pending db) in
  let unresolved := count (λ row, row.1 = accountId ∧ row.2 ≠ "complete") (ld_projections db) in
  mret (mkReadiness (rb_reportingCurrency <$> binding) (rb_accountFingerprint <$> binding)
    (is_ok current && (conflicts =? 0) && (pending =? 0) && (unresolved =? 0)) conflicts pending unresolved).

Record MoneyLedgerSnapshot := mkLedgerSnapshot {
  ms_reportingCurrency : option string; ms_valued : bool; ms_amount : option string; ms_valuedSubtotal : option string;
  ms_unresolvedEventIds : list string; ms_value : option MoneyValue; ms_valuedSubtotalValue : MoneyValue;
  ms_pricePnlValue : option MoneyValue; ms_feesValue : option MoneyValue; ms_fundingValue : option MoneyValue; ms_valuationHash : string }.

Definition counts_for (readiness : Readiness) (event : MoneyEvent) : Prop :=
  me_valued event = true ∧ me_reportingValue event ≠ None ∧ me_reportingCurrency event = rd_currency readiness ∧
  Some (ei_accountFingerprint (me_input event)) = rd_fingerprint readiness.
#[export] Instance counts_for_dec readiness event : Decision (counts_for readiness event).
Proof. unfold counts_for. apply _. Defined.

(** [complete ? sumMoneyEventValues(...) : null] *)
Definition component (complete : bool) (valued : list MoneyEvent) (kind : MoneyKind) : result (option MoneyValue) :=
  if complete then Some <$> sumMoneyEventValues (filter (λ e, ei_kind (me_input e) = kind) valued) else Ok None.

Definition readMoneyLedger (accountId : string) (since until : Z) : L MoneyLedgerSnapshot :=
  db ← get;
  readiness ← snapshotReadiness accountId;
  events ← decodeAll (by_time (filter (λ row, ei_accountId row.2 = accountId ∧ since <= ei_occurredAt row.2 ∧ ei_occurredAt row.2 < until)
             (map_to_list (ld_events db))));
  let valued := filter (counts_for readiness) events in
  let valuedIds := map me_id valued in
  let unresolvedEventIds := map me_id (filter (λ e, me_id e ∉ valuedIds) events) in
  subtotal ← lift (sumMoneyEventValues valued);
  let complete := rd_ready readiness && bool_decide (unresolvedEventIds = []) in
  price ← lift (component complete valued kind_realized_price_pnl);
  fees ← lift (component complete valued kind_fee);
  funding ← lift (component complete valued kind_funding);
  mret (mkLedgerSnapshot (rd_currency readiness) complete (if complete then mv_decimal subtotal else None) (mv_decimal subtotal)
    unresolvedEventIds (if complete then Some subtotal else None) subtotal price fees funding
    (digest (JArray (map (λ e, JArray [JString (me_id e); JString (if me_valued e then "valued" else "unresolved");
       match me_valuationEvidenceId e with Some x => JString x | None => JNull end]) events)))).

Definition moneyLedgerSnapshot (accountId : string) (since until : Z) : L MoneyLedgerSnapshot :=
  _ ← lift (timestamp since); _ ← lift (timestamp until);
  if until <=? since then fail "Monetary snapshot window is inverted." else readMoneyLedger accountId since until.
End Digest.

(** ** The ledger only grows *)
Record extends (db db' : LedgerDb) : Prop := mkExtends {
  ex_accounts : ld_accounts db' = ld_accounts db;
  ex_fills : ld_fills db' = ld_fills db;
  ex_fx : ld_fx db' = ld_fx db;
  ex_bindings : ld_bindings db ⊆ ld_bindings db';
  ex_events : ld_events db ⊆ ld_events db';
  ex_valuations : ld_valuations db ⊆ ld_valuations db';
  ex_conflicts : ld_conflicts db ⊆ ld_conflicts db' }.

#[export] Instance extends_preorder : PreOrder extends.
Proof.
  split.
  - intros db. by constructor.
  - intros d1 d2 d3 H H'. destruct H as [H1 H2 H3 H4 H5 H6 H7], H' as [H1' H2' H3' H4' H5' H6' H7']. constructor; try congruence; by etrans.
Qed.

(** What every stored row satisfies. *)
Definition same_posting (e e' : MoneyEventInput) : Prop :=
  ei_basis e = basis_fill ∧ ei_basis e' = basis_fill ∧ ei_accountId e = ei_accountId e' ∧
  ei_accountFingerprint e = ei_accountFingerprint e' ∧ ei_kind e = ei_kind e' ∧ ei_fillId e = ei_fillId e'.

Record ledger_inv (db : LedgerDb) : Prop := mkLedgerInv {
  li_bindings : ∀ k b, ld_bindings db !! k = Some b → k = (rb_accountId b, rb_accountFingerprint b);
  li_amounts : ∀ id e, ld_events db !! id = Some e → ∃ z, ei_amount e = sdec z ∧ sunits (ei_amount e) = Some z;
  li_fills : ∀ id e, ld_events db !! id = Some e → ei_basis e = basis_fill →
    ∃ fillId fill, ei_fillId e = Some fillId ∧ ld_fills db !! fillId = Some fill ∧ lf_filled_at fill = ei_occurredAt e;
  li_once : ∀ id id' e e', ld_events db !! id = Some e → ld_events db !! id' = Some e' → same_posting e e' → id = id';
  li_valuations : ∀ id v amount, ld_valuations db !! id = Some (v, amount) → ld_fx db !! id = None ∧
    ∃ e b, ld_events db !! id = Some e ∧ ld_bindings db !! (ei_accountId e, ei_accountFingerprint e) = Some b ∧
      ev_quoteAsset v = rb_reportingCurrency b ∧ ev_observedAt v = ei_occurredAt e ∧
      multiplyExactSignedDecimal (ei_amount e) (ev_rate v) = Ok amount }.

(** An evolution: the tables grow, and stay consistent. *)
Definition evolves (db db' : LedgerDb) : Prop := extends db db' ∧ (ledger_inv db → ledger_inv db').

#[export] Instance evolves_preorder : PreOrder evolves.
Proof.
  split.
  - intros db. by split.
  - intros d1 d2 d3 [H1 H2] [H3 H4]. split; [by etrans|tauto].
Qed.

Lemma bind_evolves {A B} (m : L A) (f : A → L B) db : evolves db (m db).2 →
  (∀ a db', m db = (Ok a, db') → evolves db' (f a db').2) → evolves db ((m ≫= f) db).2.
Proof.
  unfold mbind, L_bind. intros Hm Hf. destruct (m db) as [[a|e] db'] eqn:E; cbn in *; [|done]. etrans; [exact Hm|]. by apply Hf.
Qed.

Lemma get_bind {A} (f : LedgerDb → L A) db : (get ≫= f) db = f db db.
Proof. done. Qed.

Lemma bind_run {A B} (m : L A) (f : A → L B) db x db'' : (m ≫= f) db = (Ok x, db'') ↔
  ∃ a db', m db = (Ok a, db') ∧ f a db' = (Ok x, db'').
Proof.
  unfold mbind, L_bind. destruct (m db) as [[a|e] db'] eqn:E; split.
  - intros H. by exists a, db'.
  - by intros (? & ? & [= -> ->] & ?).
  - done.
  - by intros (? & ? & ? & ?).
Qed.

Lemma evolves_transaction {A} owned (m : L A) db : evolves db (m db).2 → evolves db (withDatabaseTransaction owned m db).2.
Proof. unfold withDatabaseTransaction. destruct (m db) as [[a|e] db']; cbn; [done|]. by destruct owned. Qed.

Lemma evolves_lift {A} (r : result A) db : evolves db (lift r db).2.
Proof. reflexivity. Qed.

Lemma assert_run accountId fingerprint profile {A} (f : unit → L A) db : (assertAccountBinding accountId fingerprint profile ≫= f) db =
  if binding_verified accountId fingerprint profile (ld_accounts db) then f tt db
  else (throw "Monetary account binding is not verified.", db).
Proof. unfold assertAccountBinding, mbind, L_bind, get. by destruct (binding_verified _ _ _ _). Qed.

Lemma binding_run accountId fingerprint {A} (f : option ReportingCurrencyBinding → L A) db :
  (getReportingCurrencyBinding accountId fingerprint ≫= f) db = f (ld_bindings db !! (accountId, fingerprint)) db.
Proof. done. Qed.

Lemma lift_run {A B} (r : result A) (f : A → L B) db : (lift r ≫= f) db = match r with Ok a => f a db | Err e => (Err e, db) end.
Proof. by destruct r. Qed.

Create HintDb ledger.
#[export] Hint Resolve evolves_lift : ledger.
#[export] Hint Extern 0 (evolves ?x ?x) => reflexivity : ledger.

Lemma extends_conflict c db : extends db (add_conflict c db).
Proof. constructor; try done. unfold add_conflict; cbn. destruct (bool_decide _); [done|]. intros x Hx. apply elem_of_app. by left. Qed.

Lemma evolves_conflict c db : evolves db (add_conflict c db).
Proof. split; [apply extends_conflict|]. intros H. destruct H. by constructor. Qed.

Lemma evolves_conflicts clean rows db : evolves db (fold_left (λ db row, add_conflict (mkConflict (row : string * MoneyEventInput).1 (received_event clean)) db) rows db).
Proof. revert db. induction rows as [|row rows IH]; intros db; cbn; [done|]. etrans; [apply evolves_conflict|apply IH]. Qed.

Lemma record_conflict_run id received db : recordConflict id received db = (Ok tt, add_conflict (mkConflict id received) db).
Proof. done. Qed.

Lemma evolves_recordConflict id received db : evolves db (recordConflict id received db).2.
Proof. rewrite record_conflict_run. apply evolves_conflict. Qed.
#[export] Hint Resolve evolves_recordConflict evolves_conflict evolves_conflicts : ledger.

Lemma evolves_binding b db : ld_bindings db !! (rb_accountId b, rb_accountFingerprint b) = None → evolves db (add_binding b db).
Proof.
  intros Hn. split; [constructor; try done; by apply insert_subseteq|]. intros [H1 H2 H3 H4 H5]. constructor; try done.
  - cbn. intros k b' [[<- <-]|[_ Hk]]%lookup_insert_Some; [done|by apply H1].
  - cbn. intros id v amount Hv. destruct (H5 _ _ _ Hv) as (Hf & e & b' & He & Hb & Hr). split; [done|]. exists e, b'.
    split_and!; try tauto. rewrite lookup_insert_ne; [done|]. intros E. congruence.
Qed.

Lemma evolves_bind owned value db : evolves db (bindAccountReportingCurrency owned value db).2.
Proof.
  unfold bindAccountReportingCurrency. rewrite lift_run. destruct (cleanBinding value) as [clean|]; [|done].
  apply evolves_transaction. rewrite assert_run. destruct (binding_verified _ _ _ _); [|done]. rewrite binding_run.
  destruct (ld_bindings db !! _) as [b|] eqn:E; [by destruct (bool_decide _)|]. by apply evolves_binding.
Qed.

Lemma append_run id amount v db : appendValuation id amount v db =
  match multiplyExactSignedDecimal amount (ev_rate v) with
  | Err e => (Err e, db)
  | Ok reportingAmount =>
      let conflict := (Ok false, add_conflict (mkConflict id (received_valuation v reportingAmount)) db) in
      match ld_fx db !! id with
      | Some _ => conflict
      | None =>
          match ld_valuations db !! id with
          | Some existing => if bool_decide (existing = (v, reportingAmount)) then (Ok true, db) else conflict
          | None => (Ok true, add_valuation id (v, reportingAmount) db)
          end
      end
  end.
Proof.
  unfold appendValuation. rewrite lift_run. destruct (multiplyExactSignedDecimal _ _); [|done]. rewrite get_bind.
  destruct (ld_fx db !! id); [done|]. destruct (ld_valuations db !! id); [|done]. by destruct (bool_decide _).
Qed.

(** A valuation of a stored event, in its account's currency and at its time. *)
Lemma evolves_append id e b v db : ld_events db !! id = Some e → ld_bindings db !! (ei_accountId e, ei_accountFingerprint e) = Some b →
  ev_quoteAsset v = rb_reportingCurrency b → ev_observedAt v = ei_occurredAt e → evolves db (appendValuation id (ei_amount e) v db).2.
Proof.
  intros He Hb Hq Ho. rewrite append_run. destruct (multiplyExactSignedDecimal _ _) as [amount|] eqn:Em; [|done]. cbn zeta.
  destruct (ld_fx db !! id) eqn:Ef; [cbn [snd]; auto with ledger|].
  destruct (ld_valuations db !! id) as [x|] eqn:Ev; [destruct (bool_decide _); cbn [snd]; auto with ledger|]. cbn [snd].
  split; [constructor; try done; by apply insert_subseteq|]. intros [H1 H2 H3 H4 H5]. constructor; try done.
  cbn. intros i v' a' [[<- [= <- <-]]|[_ Hk]]%lookup_insert_Some; [|by apply H5]. split; [done|]. exists e, b. tauto.
Qed.

Lemma evolves_native id e db : ld_events db !! id = Some e → evolves db (nativeValuation id e db).2.
Proof.
  intros He. unfold nativeValuation. rewrite binding_run. destruct (ld_bindings db !! _) as [b|] eqn:Eb; [|done].
  destruct (_ && _); [done|]. apply bind_evolves; [by eapply evolves_append|]. intros ? db' _. done.
Qed.

Lemma sort_by_In {A} key (l : list A) x : x ∈ sort_by key l → x ∈ l.
Proof. by rewrite (sort_by_Permutation key l). Qed.

Lemma by_time_Permutation l : by_time l ≡ₚ l.
Proof. unfold by_time. by rewrite sort_by_Permutation, sort_text_Permutation. Qed.

Lemma evolves_valueAll rows db : (∀ id e, (id, e) ∈ rows → ld_events db !! id = Some e) → evolves db (valueAll rows db).2.
Proof.
  revert db. induction rows as [|[id e] rows IH]; intros db Hrows; cbn [valueAll]; [done|].
  assert (evolves db (nativeValuation id e db).2) as Hn by (apply evolves_native, Hrows; by left).
  apply bind_evolves; [done|]. intros [] db' E. rewrite E in Hn. apply IH. intros id' e' Hin.
  eapply lookup_weaken; [apply Hrows; by right|apply Hn].
Qed.

Lemma evolves_valueNative owned accountId fingerprint db : evolves db (valueNativeAccountMoney owned accountId fingerprint db).2.
Proof.
  unfold valueNativeAccountMoney. apply evolves_transaction. rewrite assert_run. destruct (binding_verified _ _ _ _); [|done].
  rewrite binding_run. destruct (ld_bindings db !! _) as [b|]; [|done]. rewrite get_bind. apply evolves_valueAll.
  intros id e Hin. assert (∀ l n, (id, e) ∈ take n l → (id, e) ∈ (l : list (string * MoneyEventInput))) as Htake.
  { intros l n Ht. rewrite <-(take_drop n l). apply elem_of_app. by left. }
  apply Htake in Hin. rewrite by_time_Permutation in Hin. apply list_elem_of_filter in Hin as [_ Hin]. by apply elem_of_map_to_list.
Qed.

(** The identity of a fill event belongs to a persisted fill at the event's
    time, and is free or that of the fill's only event. *)
Definition fill_identity (clean : MoneyEventInput) (id : string) (db : LedgerDb) : Prop :=
  ∃ fillId fill, ei_fillId clean = Some fillId ∧ ld_fills db !! fillId = Some fill ∧ lf_filled_at fill = ei_occurredAt clean ∧
    (filter (fill_candidate clean fillId) (map_to_list (ld_events db)) = [] ∨
     ∃ existing, filter (fill_candidate clean fillId) (map_to_list (ld_events db)) = [(id, existing)] ∧ ei_fillId existing = Some fillId).

Section Store.
Context (sha256 : string → string).

Lemma identity_cases clean db : let r := canonicalMoneyIdentity sha256 clean db in
  evolves db r.2 ∧ (∀ id, r.1 = Ok (Some id) → r.2 = db ∧ (ei_basis clean = basis_fill → fill_identity clean id db)).
Proof.
  unfold canonicalMoneyIdentity. destruct (ei_basis clean) eqn:Eb; [|by split].
  destruct (ei_fillId clean) as [fillId|] eqn:Ei; [|by split]. destruct (bool_decide _); [by split|]. rewrite get_bind.
  destruct (ld_fills db !! fillId) as [fill|] eqn:Ef; [|by split]. destruct (_ || _); [by split|].
  destruct (negb (lf_filled_at fill =? _) || _) eqn:Et; [by split|]. rewrite orb_false_iff, negb_false_iff, Z.eqb_eq in Et. destruct Et as [Et _].
  destruct (filter _ _) as [|[id existing] [|c l]] eqn:Ec; cbn zeta.
  - split; [done|]. intros id [= <-]. split; [done|]. intros _. exists fillId, fill. tauto.
  - destruct (bool_decide (ei_fillId existing = Some fillId)) eqn:Ex; [|split; [apply evolves_conflict|done]].
    apply bool_decide_eq_true in Ex. split; [done|]. intros i [= <-]. split; [done|]. intros _. exists fillId, fill. eauto 10.
  - split; [|done]. apply (evolves_conflicts clean ((id, existing) :: c :: l)).
Qed.

Lemma evolves_event id clean db : ld_events db !! id = None → (∃ z, ei_amount clean = sdec z ∧ sunits (ei_amount clean) = Some z) →
  (ei_basis clean = basis_fill → fill_identity clean id db) → evolves db (add_event id clean db).
Proof.
  intros Hn Hz Hid. split; [constructor; try done; by apply insert_subseteq|]. intros [H1 H2 H3 H4 H5].
  assert (∀ i e, ld_events db !! i = Some e → same_posting clean e → False) as Hnew.
  { intros i e He (Hb & Hb' & Ha & Hf & Hk & Hfill). destruct (Hid Hb) as (fillId & fill & Ei & _ & _ & Hc).
    assert ((i, e) ∈ filter (fill_candidate clean fillId) (map_to_list (ld_events db))) as Hin.
    { apply list_elem_of_filter. split; [|by apply elem_of_map_to_list]. unfold fill_candidate; cbn.
      rewrite <-Hfill, Ei. by split_and!; auto. }
    destruct Hc as [Hc|(existing & Hc & _)]; rewrite Hc in Hin; [by apply elem_of_nil in Hin|].
    apply list_elem_of_singleton in Hin as [= -> ->]. congruence. }
  constructor; cbn.
  - done.
  - intros i e [[<- <-]|[_ Hk]]%lookup_insert_Some; [done|by eapply H2].
  - intros i e [[<- <-]|[_ Hk]]%lookup_insert_Some Hb; [|by eapply H3]. destruct (Hid Hb) as (fillId & fill & ? & ? & ? & _). by exists fillId, fill.
  - intros i i' e e' [[<- <-]|[_ Hk]]%lookup_insert_Some [[<- <-]|[_ Hk']]%lookup_insert_Some Hs; [done| | |by eapply H4].
    + exfalso. by eapply Hnew.
    + exfalso. eapply (Hnew _ _ Hk). unfold same_posting in *. naive_solver.
  - intros i v a Hv. destruct (H5 _ _ _ Hv) as (Hf & e & b & He & Hr). split; [done|]. exists e, b.
    rewrite lookup_insert_ne; [done|]. intros <-. congruence.
Qed.

Lemma optional_Ok {A B} (o : option A) (f : A → result B) r : match o with None => Ok None | Some a => Some <$> f a end = Ok r →
  ∀ b, r = Some b → ∃ a, o = Some a ∧ f a = Ok b.
Proof. destruct o as [a|]; [|by intros [= <-]]. intros (b & Hb & ->)%fmap_Ok b' [= ->]. eauto. Qed.

Lemma cleanEvent_amount value clean : cleanEvent value = Ok clean → ∃ z, ei_amount clean = sdec z ∧ sunits (ei_amount clean) = Some z.
Proof.
  unfold cleanEvent. destruct (_ && _); [done|]. intros H. do 5 (apply bind_Ok in H as (? & _ & H)).
  apply bind_Ok in H as (amount & Ha & H). do 4 (apply bind_Ok in H as (? & _ & H)). injection H as <-. cbn.
  apply signedDecimal_inv in Ha as (z & Hz & ->). exists z. split; [done|]. apply sunits_sdec. by eapply sunits_bounds.
Qed.

Lemma evolves_store clean db : (∃ z, ei_amount clean = sdec z ∧ sunits (ei_amount clean) = Some z) → evolves db (storeMoneyEvent sha256 clean db).2.
Proof.
  intros Hz. unfold storeMoneyEvent. rewrite assert_run. destruct (binding_verified _ _ _ _); [|done].
  destruct (identity_cases clean db) as [He Hid]. apply bind_evolves; [done|]. intros identity db' E. rewrite E in He, Hid. cbn in He, Hid.
  destruct identity as [id|]; [|done]. destruct (Hid id eq_refl) as [-> Hfill]. rewrite get_bind.
  destruct (ld_events db !! id) as [existing|] eqn:Ee.
  - destruct (sameMoneyOriginal existing clean); [|apply bind_evolves; [auto with ledger|done]].
    apply bind_evolves; [by apply evolves_native|done].
  - apply bind_evolves; [by apply evolves_event|]. intros [] db1 [= <-]. apply bind_evolves; [|done].
    apply evolves_native. apply lookup_insert_eq.
Qed.

Lemma evolves_getMoneyEvent id db : (getMoneyEvent sha256 id db).2 = db.
Proof. unfold getMoneyEvent. rewrite get_bind. destruct (ld_events db !! id); [|done]. rewrite lift_run. by destruct (decodeMoneyRow _ _ _ _). Qed.

Lemma evolves_record owned value db : evolves db (recordMoneyEvent sha256 owned value db).2.
Proof.
  unfold recordMoneyEvent. rewrite lift_run. destruct (cleanEvent value) as [clean|] eqn:Ec; [|done].
  apply bind_evolves; [by apply evolves_transaction, evolves_store; eapply cleanEvent_amount|].
  intros [id|] db' _; [|done]. apply bind_evolves; [by rewrite evolves_getMoneyEvent|]. intros [e|] db'' _; done.
Qed.
End Store.

(** ** Histories *)
Section History.
Context (sha256 : string → string).

Lemma quote_valid id event binding quote v : validateEventTimeQuote id event binding quote = Ok v →
  ev_quoteAsset v = rb_reportingCurrency binding ∧ ev_observedAt v = ei_occurredAt event.
Proof.
  unfold validateEventTimeQuote. destruct (Z.eqb_spec (ev_observedAt quote) (ei_occurredAt event)) as [Et|]; [cbn [negb]|done].
  destruct (negb _ || negb _) eqn:Ea; [done|]. rewrite orb_false_iff, !negb_false_iff, !bool_decide_eq_true in Ea.
  destruct (_ || _); [done|]. intros H. apply bind_Ok in H as (ba & _ & H). apply bind_Ok in H as (qa & Hq & H).
  apply bind_Ok in H as (rate & _ & H). apply bind_Ok in H as (at_ & Ht & H). apply bind_Ok in H as (ei & _ & H). injection H as <-. cbn.
  unfold asset in Hq. destruct (asset_pattern _) in Hq; [|done]. injection Hq as <-.
  unfold timestamp in Ht. destruct (_ || _) in Ht; [done|]. injection Ht as <-. tauto.
Qed.

Lemma decode_input id input db e : decodeMoneyRow sha256 id input db = Ok e → me_input e = input ∧ me_id e = id.
Proof.
  unfold decodeMoneyRow. destruct (bool_decide _); [by intros [= <-]|]. destruct (ld_fx db !! id) as [[[proof|]|err]|].
  - by intros [= <-].
  - by intros [= <-].
  - destruct (String.prefix _ _); [by intros [= <-]|done].
  - destruct (ld_valuations db !! id) as [[v amount]|]; [|by intros [= <-]]. intros (value & _ & [= <-])%bind_Ok. done.
Qed.

Lemma getMoneyEvent_run {A} id (f : option MoneyEvent → L A) db : (getMoneyEvent sha256 id ≫= f) db =
  match ld_events db !! id with
  | None => f None db
  | Some input => match decodeMoneyRow sha256 id input db with Ok e => f (Some e) db | Err e => (Err e, db) end
  end.
Proof.
  unfold getMoneyEvent, mbind, L_bind, get. destruct (ld_events db !! id); [|done]. unfold lift. by destruct (decodeMoneyRow _ _ _ _).
Qed.

Lemma evolves_value owned quote db : evolves db (valueMoneyEvent sha256 owned quote db).2.
Proof.
  unfold valueMoneyEvent. apply bind_evolves; [|by intros [] db' _]. apply evolves_transaction. rewrite lift_run.
  destruct (identifier _) as [id|]; [|done]. rewrite getMoneyEvent_run. destruct (ld_events db !! id) as [input|] eqn:Ee; [|done].
  destruct (decodeMoneyRow _ _ _ _) as [e|] eqn:Ed; [|done]. apply decode_input in Ed as [-> ->]. rewrite assert_run.
  destruct (binding_verified _ _ _ _); [|done]. rewrite binding_run. destruct (ld_bindings db !! _) as [b|] eqn:Eb; [|done]. rewrite lift_run.
  destruct (validateEventTimeQuote _ _ _ _) as [v|] eqn:Ev; [|done]. apply quote_valid in Ev as [Hq Ho]. by eapply evolves_append.
Qed.

(** One call of the ledger, in its own transaction or inside another's, whatever it answers. *)
Inductive ledger_step : LedgerDb → LedgerDb → Prop :=
| step_bind owned value db : ledger_step db (bindAccountReportingCurrency owned value db).2
| step_record owned value db : ledger_step db (recordMoneyEvent sha256 owned value db).2
| step_fee owned value fee db : ledger_step db (recordFeeEvent sha256 owned value fee db).2
| step_native owned accountId fingerprint db : ledger_step db (valueNativeAccountMoney owned accountId fingerprint db).2
| step_value owned quote db : ledger_step db (valueMoneyEvent sha256 owned quote db).2.

Lemma ledger_step_evolves db db' : ledger_step db db' → evolves db db'.
Proof.
  destruct 1; [apply evolves_bind|apply evolves_record| |apply evolves_valueNative|apply evolves_value].
  unfold recordFeeEvent. rewrite lift_run. destruct (negateSignedDecimal fee); [apply evolves_record|done].
Qed.

Lemma ledger_run_evolves db db' : rtc ledger_step db db' → evolves db db'.
Proof. induction 1 as [|x y z Hxy _ IH]; [done|]. etrans; [by apply ledger_step_evolves|done]. Qed.

Definition empty_ledger (db : LedgerDb) : Prop := ld_bindings db = ∅ ∧ ld_events db = ∅ ∧ ld_valuations db = ∅.

Lemma empty_ledger_inv db : empty_ledger db → ledger_inv db.
Proof. intros (H1 & H2 & H3). constructor; rewrite ?H1, ?H2, ?H3; try done. Qed.

(** A conflict-free event keeps its reading. *)
Lemma decode_stable db db' id e r : extends db db' → ld_events db !! id = Some e → decodeMoneyRow sha256 id e db = Ok r → me_valued r = true →
  ¬ Exists (λ c, cf_event_id c = id) (ld_conflicts db') → decodeMoneyRow sha256 id e db' = Ok r.
Proof.
  intros Hx He Hr Hv Hc. assert (¬ Exists (λ c, cf_event_id c = id) (ld_conflicts db)) as Hc0.
  { rewrite Exists_exists in *. intros (c & Hin & Hid). apply Hc. exists c. split; [by apply (ex_conflicts _ _ Hx)|done]. }
  unfold decodeMoneyRow in *. rewrite bool_decide_false in Hr by done. rewrite bool_decide_false by done. rewrite (ex_fx _ _ Hx).
  destruct (ld_fx db !! id) as [[[proof|]|err]|].
  - done.
  - by injection Hr as <-.
  - destruct (String.prefix _ _); [by injection Hr as <-|done].
  - destruct (ld_valuations db !! id) as [[v amount]|] eqn:Ev; [|by injection Hr as <-].
    by rewrite (lookup_weaken _ _ _ _ Ev (ex_valuations _ _ Hx)).
Qed.
End History.

(** ** Recording again *)
Section Again.
Context (sha256 : string → string).

Lemma add_conflict_twice c db : add_conflict c (add_conflict c db) = add_conflict c db.
Proof.
  unfold add_conflict; cbn. destruct (decide (c ∈ ld_conflicts db)) as [H|H].
  - by rewrite !(bool_decide_true (c ∈ ld_conflicts db)).
  - rewrite !(bool_decide_false (c ∈ ld_conflicts db)) by done. rewrite bool_decide_true; [done|]. apply elem_of_app. right. by left.
Qed.

Lemma append_twice id amount v db b db' : appendValuation id amount v db = (Ok b, db') → appendValuation id amount v db' = (Ok b, db').
Proof.
  rewrite !append_run. destruct (multiplyExactSignedDecimal _ _) as [x|]; [|done]. cbn zeta.
  destruct (ld_fx db !! id) eqn:Ef.
  - intros [= <- <-]. cbn. rewrite Ef. cbn. by rewrite add_conflict_twice.
  - destruct (ld_valuations db !! id) as [y|] eqn:Ev.
    + destruct (bool_decide _) eqn:E; intros [= <- <-]; cbn; rewrite Ef, Ev, E; [done|]. by rewrite add_conflict_twice.
    + intros [= <- <-]. cbn. rewrite Ef, lookup_insert_eq, bool_decide_true by done. done.
Qed.

(** What a native valuation leaves alone. *)
Definition same_sources (db db' : LedgerDb) : Prop :=
  ld_accounts db' = ld_accounts db ∧ ld_fills db' = ld_fills db ∧ ld_bindings db' = ld_bindings db ∧ ld_events db' = ld_events db.

Lemma append_sources id amount v db : same_sources db (appendValuation id amount v db).2.
Proof.
  rewrite append_run. unfold same_sources. destruct (multiplyExactSignedDecimal _ _); [|done]. cbn zeta.
  destruct (ld_fx db !! id); [done|]. destruct (ld_valuations db !! id); [|done]. by destruct (bool_decide _).
Qed.

Lemma native_run id e db : nativeValuation id e db =
  match ld_bindings db !! (ei_accountId e, ei_accountFingerprint e) with
  | None => (Ok tt, db)
  | Some b =>
      if negb (bool_decide (ei_amount e = "0")) && negb (bool_decide (ei_asset e = Some (rb_reportingCurrency b))) then (Ok tt, db)
      else match appendValuation id (ei_amount e)
              (mkValuation id (if bool_decide (ei_amount e = "0") then "zero-no-conversion" else "native-asset")
                 (default (rb_reportingCurrency b) (ei_asset e)) (rb_reportingCurrency b) "1" (ei_occurredAt e)
                 ("account-binding:" +:+ ei_accountFingerprint e)) db with
           | (Ok _, db') => (Ok tt, db')
           | (Err x, db') => (Err x, db')
           end
  end.
Proof. unfold nativeValuation. rewrite binding_run. destruct (ld_bindings db !! _) as [b|]; [|done]. by destruct (_ && _). Qed.

Lemma native_twice id e db db' : nativeValuation id e db = (Ok tt, db') → nativeValuation id e db' = (Ok tt, db') ∧ same_sources db db'.
Proof.
  rewrite !native_run. destruct (ld_bindings db !! _) as [b|] eqn:Eb; [|intros [= <-]; by rewrite Eb].
  destruct (negb _ && negb _) eqn:En; [intros [= <-]; by rewrite Eb, En|].
  destruct (appendValuation _ _ _ db) as [[x|] d] eqn:Ea; [|done]. intros [= <-].
  pose proof (append_sources id (ei_amount e) (mkValuation id (if bool_decide (ei_amount e = "0") then "zero-no-conversion" else "native-asset")
    (default (rb_reportingCurrency b) (ei_asset e)) (rb_reportingCurrency b) "1" (ei_occurredAt e)
    ("account-binding:" +:+ ei_accountFingerprint e)) db) as Hs. rewrite Ea in Hs. cbn [snd] in Hs.
  split; [|done]. destruct Hs as (_ & _ & Hb & _). rewrite Hb, Eb, En. by rewrite (append_twice _ _ _ _ _ _ Ea).
Qed.

Lemma same_original_refl e : sameMoneyOriginal e e = true.
Proof. unfold sameMoneyOriginal. destruct (ei_basis e) eqn:E; apply bool_decide_true; [|done]. by destruct e; cbn in *; subst. Qed.

Lemma same_original_fill o clean : sameMoneyOriginal o clean = true → ei_basis clean = basis_fill →
  ei_accountId o = ei_accountId clean ∧ ei_accountFingerprint o = ei_accountFingerprint clean ∧ ei_basis o = basis_fill ∧
  ei_kind o = ei_kind clean ∧ ei_fillId o = ei_fillId clean ∧ ei_amount o = ei_amount clean ∧ ei_occurredAt o = ei_occurredAt clean.
Proof. unfold sameMoneyOriginal. intros H Hb. rewrite Hb in H. apply bool_decide_eq_true in H. destruct o, clean. cbn in *. injection H. intros. by subst. Qed.

(** The identity of an accepted event is found again once it is stored. *)
Lemma identity_again clean db id db' : canonicalMoneyIdentity sha256 clean db = (Ok (Some id), db) →
  ld_accounts db' = ld_accounts db → ld_fills db' = ld_fills db →
  ld_events db' = ld_events db ∧ (∃ e, ld_events db !! id = Some e ∧ sameMoneyOriginal e clean = true) ∨
  ld_events db !! id = None ∧ ld_events db' = <[id := clean]> (ld_events db) →
  canonicalMoneyIdentity sha256 clean db' = (Ok (Some id), db').
Proof.
  unfold canonicalMoneyIdentity. destruct (ei_basis clean) eqn:Ebasis; [|by intros [= <-]].
  destruct (ei_fillId clean) as [fillId|] eqn:Ei; [|done]. destruct (bool_decide _); [done|]. rewrite !get_bind. intros H _ Hf He. rewrite Hf.
  destruct (ld_fills db !! fillId) as [fill|]; [|done]. destruct (_ || _); [done|]. destruct (negb (lf_filled_at fill =? _) || _); [done|].
  destruct (filter _ _) as [|[i existing] [|c l]] eqn:Ec.
  - injection H as <-. destruct He as [[_ (e & Hin & Hsame)]|[Hn ->]].
    + exfalso. destruct (same_original_fill _ _ Hsame Ebasis) as (h1 & h2 & h3 & h4 & h5 & _).
      eapply (not_elem_of_nil (A := string * MoneyEventInput)). rewrite <-Ec. apply list_elem_of_filter. split; [|apply elem_of_map_to_list; exact Hin].
      unfold fill_candidate. cbn. rewrite h5, Ei. tauto.
    + assert (filter (fill_candidate clean fillId) (map_to_list (<[digest sha256 (JArray [JString "fill-money-v1"; JString (ei_accountId clean); JString (ei_accountFingerprint clean); JString fillId; JString (kind_text (ei_kind clean))]) := clean]> (ld_events db)))
        = [(digest sha256 (JArray [JString "fill-money-v1"; JString (ei_accountId clean); JString (ei_accountFingerprint clean); JString fillId; JString (kind_text (ei_kind clean))]), clean)]) as ->.
      { apply Permutation_singleton_r. rewrite (map_to_list_insert _ _ _ Hn). rewrite filter_cons_True, Ec; [done|]. unfold fill_candidate. cbn. rewrite Ei. tauto. }
      by rewrite bool_decide_true.
  - destruct (bool_decide (ei_fillId existing = Some fillId)) eqn:Ex; [|done]. injection H as ->.
    assert ((id, existing) ∈ filter (fill_candidate clean fillId) (map_to_list (ld_events db))) as Hin by (rewrite Ec; by left).
    apply list_elem_of_filter in Hin as [_ Hin]. apply elem_of_map_to_list in Hin.
    destruct He as [[-> _]|[Hn _]]; [|congruence]. by rewrite Ec, Ex.
  - done.
Qed.

Lemma store_again clean db id db' : storeMoneyEvent sha256 clean db = (Ok (Some id), db') → storeMoneyEvent sha256 clean db' = (Ok (Some id), db').
Proof.
  unfold storeMoneyEvent. rewrite !assert_run. destruct (binding_verified _ _ _ (ld_accounts db)) eqn:Ev; [|done]. intros H.
  apply bind_run in H as (identity & d & Hi & H). destruct identity as [i|]; [|done].
  pose proof (identity_cases sha256 clean db) as [_ Hc]. rewrite Hi in Hc. destruct (Hc i eq_refl) as [Ed _]. cbn in Ed. subst d.
  rewrite get_bind in H. destruct (ld_events db !! i) as [existing|] eqn:Ee.
  - destruct (sameMoneyOriginal existing clean) eqn:Es; [|by apply bind_run in H as (? & ? & ? & ?)].
    apply bind_run in H as ([] & d & Hn & H). injection H as -> ->. destruct (native_twice _ _ _ _ Hn) as [Hn' (Sa & Sf & Sb & Se)].
    rewrite Sa, Ev. apply bind_run. exists (Some id), db'. split; [by apply (identity_again clean db); eauto|].
    rewrite get_bind, Se, Ee, Es. apply bind_run. exists tt, db'. by rewrite Hn'.
  - apply bind_run in H as ([] & d & [= <-] & H). apply bind_run in H as ([] & d & Hn & H). injection H as -> ->.
    destruct (native_twice _ _ _ _ Hn) as [Hn' (Sa & Sf & Sb & Se)]. cbn in Sa, Sf, Sb, Se. rewrite Sa, Ev.
    apply bind_run. exists (Some id), db'. split; [by apply (identity_again clean db); auto|].
    rewrite get_bind, Se, lookup_insert_eq, same_original_refl. apply bind_run. exists tt, db'. by rewrite Hn'.
Qed.
End Again.

(** ** Sums of valued events *)
Fixpoint sumQ (l : list Q) : Q := match l with [] => 0%Q | q :: l' => (q + sumQ l')%Q end.

(** [amount id] is a possible amount of every valued event. *)
Definition possible (amount : string → Q) (events : list MoneyEvent) : Prop :=
  Forall (λ e, ∀ v, me_reportingValue e = Some v → contains v (amount (me_id e))) events.

Definition total (amount : string → Q) (events : list MoneyEvent) : Q := sumQ (map (λ e, amount (me_id e)) events).

Lemma sum_from_sound amount events sum m q : sum_from sum events = Ok m → possible amount events → contains sum q →
  contains m (q + total amount events).
Proof.
  revert sum q. induction events as [|e events IH]; intros sum q H Hp Hq; cbn in H.
  - injection H as <-. cbn. by rewrite Qplus_0_r.
  - destruct (me_valued e); [|done]. destruct (me_reportingValue e) as [v|] eqn:Ev; [|done].
    apply bind_Ok in H as (s' & Hs & H). apply Forall_cons in Hp as [Hv Hp].
    pose proof (IH s' (q + amount (me_id e))%Q H Hp) as Hc. cbn. rewrite Qplus_assoc. apply Hc.
    by eapply addMoneyValues_sound; [exact Hs|exact Hq|apply Hv].
Qed.

Lemma sumMoneyEventValues_sound amount events m : sumMoneyEventValues events = Ok m → possible amount events → contains m (total amount events).
Proof.
  unfold sumMoneyEventValues. intros H Hp. apply bind_Ok in H as (z & Hz & H). apply zeroWithTerms_sound in Hz.
  pose proof (sum_from_sound amount _ _ _ _ H Hp Hz) as Hc. by rewrite Qplus_0_l in Hc.
Qed.

Lemma possible_filter amount (p : MoneyEvent → Prop) `{∀ e, Decision (p e)} events : possible amount events → possible amount (filter p events).
Proof. unfold possible. rewrite !Forall_forall. intros H0 e He. apply list_elem_of_filter in He as [_ He]. by apply H0. Qed.

Lemma total_kinds amount events :
  (total amount events == total amount (filter (λ e, ei_kind (me_input e) = kind_realized_price_pnl) events)
    + total amount (filter (λ e, ei_kind (me_input e) = kind_fee) events)
    + total amount (filter (λ e, ei_kind (me_input e) = kind_funding) events))%Q.
Proof.
  induction events as [|e events IH]; [done|]. rewrite !filter_cons. unfold total in *. cbn [map sumQ]. rewrite IH.
  destruct (ei_kind (me_input e)) eqn:Ek; repeat (destruct (decide _); [|try congruence]; try congruence); cbn [map sumQ]; ring.
Qed.

Lemma component_true valued kind r : component true valued kind = Ok r →
  ∃ m, r = Some m ∧ sumMoneyEventValues (filter (λ e, ei_kind (me_input e) = kind) valued) = Ok m.
Proof. unfold component. intros (m & Hm & ->)%fmap_Ok. eauto. Qed.

Lemma filter_id {A} (p : A → Prop) `{∀ x, Decision (p x)} l : Forall p l → filter p l = l.
Proof. induction 1 as [|x l Hx _ IH]; [done|]. by rewrite filter_cons_True, IH. Qed.

(** With nothing left unresolved every event of the window was counted. *)
Lemma all_counted (p : MoneyEvent → Prop) `{∀ e, Decision (p e)} events : NoDup (map me_id events) →
  map me_id (filter (λ e, me_id e ∉ map me_id (filter p events)) events) = [] → filter p events = events.
Proof.
  intros Hnd Hnil. apply map_eq_nil in Hnil. apply filter_id. rewrite Forall_forall. intros e He.
  destruct (decide (me_id e ∈ map me_id (filter p events))) as [Hin|Hout].
  - apply list_elem_of_fmap in Hin as (e' & Eid & Hin). apply list_elem_of_filter in Hin as [Hp Hin].
    assert (e = e') as ->; [|done].
    clear -Hnd He Hin Eid. induction events as [|x events IH]; [by apply elem_of_nil in He|]. cbn in Hnd. apply NoDup_cons in Hnd as [Hx Hnd].
    apply elem_of_cons in He as [->|He]; apply elem_of_cons in Hin as [->|Hin]; [done| | |by apply IH].
    + exfalso. apply Hx. rewrite Eid. apply list_elem_of_fmap. by exists e'.
    + exfalso. apply Hx. rewrite <-Eid. apply list_elem_of_fmap. by exists e.
  - exfalso. eapply (not_elem_of_nil (A := MoneyEvent)). rewrite <-Hnil. apply list_elem_of_filter. by split.
Qed.

(** ** Properties *)

(** The ledger is append-only.  Over any sequence of calls, committed or
    failed, in their own transaction or nested in another, no currency binding,
    event or valuation is ever changed or removed and no conflict is forgotten;
    an event once read as valued keeps exactly that reading, unless a
    contradicting conflict was recorded for it. *)
Theorem money_ledger_append_only sha256 db db' : rtc (ledger_step sha256) db db' →
  ld_bindings db ⊆ ld_bindings db' ∧ ld_events db ⊆ ld_events db' ∧ ld_valuations db ⊆ ld_valuations db' ∧ ld_conflicts db ⊆ ld_conflicts db' ∧
  (∀ id e r, ld_events db !! id = Some e → decodeMoneyRow sha256 id e db = Ok r → me_valued r = true →
    decodeMoneyRow sha256 id e db' = Ok r ∨ Exists (λ c, cf_event_id c = id) (ld_conflicts db')).
Proof.
  intros [Hx _]%ledger_run_evolves. split_and!; try apply Hx. intros id e r He Hr Hv.
  destruct (decide (Exists (λ c, cf_event_id c = id) (ld_conflicts db'))); [by right|left]. by eapply decode_stable.
Qed.

(** C14: every execution is posted at most once and valued exactly.  In any state
    reached from an empty ledger, two stored fill events of the same account,
    kind and fill are the same event, a fill event carries the time of the
    persisted fill it names, and a valuation belongs to a stored event, is in the
    currency bound to that event's account, is evidenced at the event's time,
    and its amount is exactly the event amount times the rate. *)
Theorem money_events_posted_once sha256 db0 db : empty_ledger db0 → rtc (ledger_step sha256) db0 db →
  (∀ id id' e e', ld_events db !! id = Some e → ld_events db !! id' = Some e' → same_posting e e' → id = id') ∧
  (∀ id e, ld_events db !! id = Some e → ei_basis e = basis_fill →
    ∃ fillId fill, ei_fillId e = Some fillId ∧ ld_fills db !! fillId = Some fill ∧ lf_filled_at fill = ei_occurredAt e) ∧
  (∀ id v amount, ld_valuations db !! id = Some (v, amount) → ∃ e b z r x,
    ld_events db !! id = Some e ∧ ld_bindings db !! (ei_accountId e, ei_accountFingerprint e) = Some b ∧
    ev_quoteAsset v = rb_reportingCurrency b ∧ ev_observedAt v = ei_occurredAt e ∧
    sunits (ei_amount e) = Some z ∧ sunits (ev_rate v) = Some r ∧ sunits amount = Some x ∧ x * ONE = z * r).
Proof.
  intros Hinv%empty_ledger_inv [_ Hi]%ledger_run_evolves. specialize (Hi Hinv).
  split; [apply (li_once _ Hi)|]. split; [apply (li_fills _ Hi)|]. intros id v amount Hv.
  destruct (li_valuations _ Hi _ _ _ Hv) as (_ & e & b & He & Hb & Hq & Ho & Hm).
  apply multiplyExactSignedDecimal_inv in Hm as (z & r & x & Hz & Hr & Hx & Hl & ->).
  exists e, b, z, r, x. split_and!; try done. by apply sunits_sdec.
Qed.

(** Recording is idempotent.  Once an event was recorded, recording the same
    input again, inside a transaction or not, answers the same event and leaves
    every table as it is: a redelivered fill, fee or funding payment is never
    counted twice and raises no conflict. *)
Theorem record_event_idempotent sha256 owned owned' value db e db' : recordMoneyEvent sha256 owned value db = (Ok e, db') →
  recordMoneyEvent sha256 owned' value db' = (Ok e, db').
Proof.
  unfold recordMoneyEvent. rewrite !lift_run. destruct (cleanEvent value) as [clean|]; [|done]. intros H.
  apply bind_run in H as (outcome & d & Hs & H). destruct outcome as [id|]; [|done]. apply bind_run.
  assert (storeMoneyEvent sha256 clean db = (Ok (Some id), d)) as Hs'.
  { unfold withDatabaseTransaction in Hs. destruct (storeMoneyEvent sha256 clean db) as [[?|] ?]; [by injection Hs as -> ->|done]. }
  pose proof (store_again _ _ _ _ _ Hs') as Hs2. assert (d = db') as ->.
  { apply bind_run in H as (p & d' & Hg & H). pose proof (evolves_getMoneyEvent sha256 id d) as Hd. rewrite Hg in Hd. cbn in Hd. subst d'.
    destruct p; [|done]. by injection H. }
  exists (Some id), db'. split; [|exact H]. unfold withDatabaseTransaction. by rewrite Hs2.
Qed.

(** The rows of an account in a window. *)
Definition window_rows (accountId : string) (since until : Z) (db : LedgerDb) : list (string * MoneyEventInput) :=
  by_time (filter (λ row, ei_accountId row.2 = accountId ∧ since <= ei_occurredAt row.2 ∧ ei_occurredAt row.2 < until) (map_to_list (ld_events db))).

Lemma window_NoDup accountId since until db : NoDup (map fst (window_rows accountId since until db)).
Proof.
  unfold window_rows. rewrite by_time_Permutation. apply (sublist_NoDup _ (map fst (map_to_list (ld_events db)))); [apply NoDup_fst_map_to_list|].
  apply fmap_sublist, sublist_filter.
Qed.

Lemma decodeAll_ids sha256 rows db events : mapM (λ row, decodeMoneyRow sha256 row.1 row.2 db) rows = Ok events → map me_id events = map fst rows.
Proof.
  intros H%mapM_Ok. induction H as [|[id e] r rows events Hd _ IH]; [done|]. cbn. apply decode_input in Hd as [_ ->]. by rewrite IH.
Qed.

(** What a ready account has: one binding, verified against the account, and
    nothing in conflict, pending or unprojected. *)
Record account_ready (accountId : string) (binding : ReportingCurrencyBinding) (db : LedgerDb) : Prop := mkAccountReady {
  ad_binding : ∃ fingerprint, ld_bindings db !! (accountId, fingerprint) = Some binding ∧
    ∀ other b, ld_bindings db !! (accountId, other) = Some b → other = fingerprint;
  ad_verified : binding_verified accountId (rb_accountFingerprint binding) None (ld_accounts db) = true;
  ad_conflicts : ∀ c e, c ∈ ld_conflicts db → ld_events db !! cf_event_id c = Some e → ei_accountId e ≠ accountId;
  ad_pending : accountId ∉ ld_pending db;
  ad_projections : ∀ status, (accountId, status) ∈ ld_projections db → status = "complete" }.

Lemma count_none {A} (p : A → Prop) `{∀ x, Decision (p x)} l : count p l =? 0 = true → ∀ x, x ∈ l → ¬ p x.
Proof.
  intros Hc%Z.eqb_eq x Hx Hp. unfold count in Hc. assert (x ∈ filter p l) as Hin by (by apply list_elem_of_filter).
  destruct (filter p l); [by apply not_elem_of_nil in Hin|cbn in Hc; lia].
Qed.

Lemma readiness_inv accountId db rd d : snapshotReadiness accountId db = (Ok rd, d) → rd_ready rd = true →
  d = db ∧ ∃ binding, account_ready accountId binding db ∧ rd_currency rd = Some (rb_reportingCurrency binding) ∧
    rd_fingerprint rd = Some (rb_accountFingerprint binding).
Proof.
  unfold snapshotReadiness. rewrite get_bind. destruct (assertAccountBinding _ _ _ _) as [current ?] eqn:Ea. intros [= <- <-] Hr. split; [done|].
  cbn [rd_ready rd_currency rd_fingerprint] in *. rewrite !andb_true_iff in Hr. destruct Hr as [[[Hc Hconf] Hpend] Hproj].
  unfold assertAccountBinding in Ea. rewrite get_bind in Ea. set (fp := default "" _) in *.
  assert (binding_verified accountId fp None (ld_accounts db) = true) as Hver by (destruct (binding_verified _ _ _ _); [done|by injection Ea as <- _]).
  assert (fp ≠ "") as Hne.
  { unfold binding_verified in Hver. destruct (ld_accounts db !! accountId); [|done]. destruct (expected_fingerprint _ _); [|done].
    rewrite !andb_true_iff, negb_true_iff, bool_decide_eq_true, bool_decide_eq_false in Hver. destruct Hver as [[? <-] _]. done. }
  destruct (filter (λ row : string * string * ReportingCurrencyBinding, row.1.1 = accountId) (map_to_list (ld_bindings db))) as [|[[account fingerprint] binding] [|]] eqn:Eb; try done.
  cbn [snd fmap option_fmap option_map default from_option] in *. subst fp. clear Ea.
  exists binding. split_and!; [|done|done].
  assert (∀ key b, key.1 = accountId → ld_bindings db !! key = Some b → (key, b) = (account, fingerprint, binding)) as Honly.
  { intros key b Hk Hb. apply elem_of_map_to_list in Hb. apply list_elem_of_singleton. rewrite <-Eb. by apply list_elem_of_filter. }
  assert ((account, fingerprint, binding) ∈ filter (λ row : string * string * ReportingCurrencyBinding, row.1.1 = accountId) (map_to_list (ld_bindings db))) as Hin
    by (rewrite Eb; left). apply list_elem_of_filter in Hin as [Hacc Hin]. cbn in Hacc. subst account. apply elem_of_map_to_list in Hin.
  constructor.
  - exists fingerprint. split; [done|]. intros other b Hb. apply Honly in Hb; [|done]. by injection Hb.
  - exact Hver.
  - intros c e Hin' He E. eapply (count_none _ _ Hconf c Hin'). rewrite He. cbn. by rewrite E.
  - intros Hin'. by apply (count_none _ _ Hpend accountId Hin').
  - intros status Hin'. pose proof (count_none _ _ Hproj (accountId, status) Hin') as H. apply dec_stable. intros Hns. apply H. done.
Qed.

(** The events of a kind. *)
Definition of_kind (kind : MoneyKind) (events : list MoneyEvent) : list MoneyEvent := filter (λ e, ei_kind (me_input e) = kind) events.

(** C23: a complete snapshot accounts for everything.  When the ledger reports a
    window as valued, the account is ready: it has one currency
    binding, which is verified, and no conflict, pending or incomplete
    projection.  Every event of the account in the window is counted, in the
    currency and under the fingerprint of that binding; for all amounts the
    valuations admit, the reported price profit admits the sum of the
    price-profit events, the fees that of the fee events, the funding that of
    the funding events, and the whole the sum of all three. *)
Theorem snapshot_accounts_for_all sha256 accountId since until db s db' amount :
  moneyLedgerSnapshot sha256 accountId since until db = (Ok s, db') → ms_valued s = true →
  ∃ binding events value price fees funding, db' = db ∧ account_ready accountId binding db ∧
    ms_reportingCurrency s = Some (rb_reportingCurrency binding) ∧
    mapM (λ row, decodeMoneyRow sha256 row.1 row.2 db) (window_rows accountId since until db) = Ok events ∧
    Forall (λ e, me_valued e = true ∧ me_reportingCurrency e = Some (rb_reportingCurrency binding) ∧
      ei_accountFingerprint (me_input e) = rb_accountFingerprint binding) events ∧
    ms_value s = Some value ∧ ms_amount s = mv_decimal value ∧
    ms_pricePnlValue s = Some price ∧ ms_feesValue s = Some fees ∧ ms_fundingValue s = Some funding ∧
    (total amount events == total amount (of_kind kind_realized_price_pnl events) + total amount (of_kind kind_fee events) + total amount (of_kind kind_funding events))%Q ∧
    (possible amount events → contains price (total amount (of_kind kind_realized_price_pnl events)) ∧
      contains fees (total amount (of_kind kind_fee events)) ∧ contains funding (total amount (of_kind kind_funding events)) ∧
      contains value (total amount (of_kind kind_realized_price_pnl events) + total amount (of_kind kind_fee events) + total amount (of_kind kind_funding events))).
Proof.
  unfold moneyLedgerSnapshot. rewrite lift_run. destruct (timestamp since); [|done]. rewrite lift_run. destruct (timestamp until); [|done].
  destruct (until <=? since); [done|]. unfold readMoneyLedger. rewrite get_bind. intros H Hv. apply bind_run in H as (rd & d & Hr & H).
  assert (d = db) as -> by (unfold snapshotReadiness in Hr; rewrite get_bind in Hr; destruct (assertAccountBinding _ _ _ _) in Hr; by injection Hr).
  apply bind_run in H as (events & d & He & H). unfold decodeAll in He. rewrite get_bind in He. injection He as He <-. rewrite !lift_run in H.
  fold (window_rows accountId since until db) in He.
  set (valued := filter (counts_for rd) events) in *. destruct (sumMoneyEventValues valued) as [subtotal|] eqn:Es; [|done].
  rewrite lift_run in H. destruct (component _ valued kind_realized_price_pnl) as [price|] eqn:Ep; [|done].
  rewrite lift_run in H. destruct (component _ valued kind_fee) as [fees|] eqn:Ef; [|done].
  rewrite lift_run in H. destruct (component _ valued kind_funding) as [funding|] eqn:Eu; [|done]. injection H as <- <-. cbn in Hv.
  rewrite Hv in Ep, Ef, Eu. apply andb_true_iff in Hv as [Hready Hnil]. rewrite Hready, Hnil. apply bool_decide_eq_true in Hnil.
  assert (valued = events) as Hall by (apply all_counted; [rewrite (decodeAll_ids _ _ _ _ He); apply window_NoDup|exact Hnil]).
  apply component_true in Ep as (p & -> & Ep). apply component_true in Ef as (f & -> & Ef). apply component_true in Eu as (u & -> & Eu).
  assert (∀ e, e ∈ events → counts_for rd e) as Hcounts by (intros e Hin; rewrite <-Hall in Hin; unfold valued in Hin; by apply list_elem_of_filter in Hin as [? _]).
  destruct (readiness_inv _ _ _ _ Hr Hready) as (_ & binding & Hacc & Hcur & Hfp).
  exists binding, events, subtotal, p, f, u. cbn [ms_reportingCurrency ms_value ms_amount ms_pricePnlValue ms_feesValue ms_fundingValue andb].
  split; [reflexivity|]. split; [exact Hacc|]. split; [exact Hcur|]. split; [exact He|]. split; [|do 5 (split; [reflexivity|]); split; [apply total_kinds|]].
  - apply Forall_forall. intros e Hin. destruct (Hcounts e Hin) as (H1 & _ & H2 & H3). rewrite Hcur in H2. rewrite Hfp in H3. injection H3 as H3. by split_and!.
  - intros Hposs. rewrite Hall in Ep, Ef, Eu, Es.
    do 3 (split; [apply sumMoneyEventValues_sound; [assumption|by apply possible_filter]|]). unfold of_kind. rewrite <-total_kinds. by apply sumMoneyEventValues_sound.
Qed.

(** ** Examples: a paper account with one exit fill and its fee *)
Definition ledger_start : LedgerDb :=
  mkLedger {[ "a" := mkLedgerAccount "paper" "paper" None ]} {[ "f1" := mkLedgerFill "i1" "a" (Some "paper:a") 1000 ]} ∅ [] [] ∅ ∅ ∅ [].
Definition ledger_binding : ReportingCurrencyBinding := mkBinding "a" "paper:a" "paper" "USDT" ["USDT"] "paper-contract-v1" 10.
Definition ledger_pnl : MoneyEventInput :=
  mkEventInput "a" "paper:a" "x1" kind_realized_price_pnl "paper:own-fill-v1" basis_fill 1000 "5.50" (Some "USDT") (Some "i1") (Some "f1") (Some "d").
Definition ledger_fee : MoneyEventInput :=
  mkEventInput "a" "paper:a" "x1" kind_fee "paper:own-fill-v1" basis_fill 1000 "" (Some "USDT") (Some "i1") (Some "f1") None.

Definition plain (s : string) : string := s.
Definition ledger_bound : LedgerDb := (bindAccountReportingCurrency false ledger_binding ledger_start).2.
Definition ledger_posted : LedgerDb := (recordMoneyEvent plain false ledger_pnl ledger_bound).2.
Definition ledger_charged : LedgerDb := (recordFeeEvent plain false ledger_fee "0.5" ledger_posted).2.

Lemma ledger_example : rtc (ledger_step plain) ledger_start ledger_charged ∧ rtc (ledger_step plain) ledger_posted ledger_charged.
Proof.
  pose proof (rtc_once _ _ (step_fee plain false ledger_fee "0.5" ledger_posted)) as H. fold ledger_charged in H.
  split; [|exact H]. eapply rtc_l; [exact (step_bind plain false ledger_binding ledger_start)|].
  eapply rtc_l; [exact (step_record plain false ledger_pnl ledger_bound)|exact H].
Qed.

Definition only_event (db : LedgerDb) : string * MoneyEventInput := default ("", ledger_fee) (head (map_to_list (ld_events db))).

Lemma money_events_posted_once_witness : size (ld_valuations ledger_charged) = 2%nat ∧
  ∃ v x, ld_valuations ledger_posted !! (only_event ledger_posted).1 = Some (v, "5.5") ∧
    ld_valuations ledger_charged !! (only_event ledger_posted).1 = Some (v, "5.5") ∧ sunits "5.5" = Some x ∧ ev_quoteAsset v = "USDT".
Proof.
  split; [vm_compute; reflexivity|].
  destruct (ld_valuations ledger_posted !! (only_event ledger_posted).1) as [[v a]|] eqn:Ev; [|vm_compute in Ev; discriminate Ev].
  assert (a = "5.5" ∧ ev_quoteAsset v = "USDT") as [-> Hq] by (vm_compute in Ev; injection Ev as <- <-; split; reflexivity).
  assert (ld_valuations ledger_charged !! (only_event ledger_posted).1 = Some (v, "5.5")) as Hc.
  { revert Ev. vm_compute. intros Ev. exact Ev. }
  destruct (proj2 (proj2 (money_events_posted_once plain ledger_start ledger_charged ltac:(repeat split) (proj1 ledger_example))) _ _ _ Hc)
    as (e & b & z & r & x & _ & _ & _ & _ & _ & _ & Hx & _).
  exists v, x. split; [reflexivity|]. split; [exact Hc|]. split; [exact Hx|exact Hq].
Defined.

Definition answered {A} (p : A → bool) (r : result A * LedgerDb) : bool := match r with (Ok a, _) => p a | _ => false end.

(** 5.5 of price profit and 0.5 of fees are 5. *)
Lemma snapshot_accounts_for_all_witness : ∃ s value, moneyLedgerSnapshot plain "a" 0 2000 ledger_charged = (Ok s, ledger_charged) ∧
  ms_amount s = Some "5" ∧ ms_value s = Some value ∧ ms_amount s = mv_decimal value.
Proof.
  assert (answered (λ s, ms_valued s && bool_decide (ms_amount s = Some "5")) (moneyLedgerSnapshot plain "a" 0 2000 ledger_charged) = true) as Ha
    by (vm_compute; reflexivity).
  destruct (moneyLedgerSnapshot plain "a" 0 2000 ledger_charged) as [[s|x] d] eqn:E; [|discriminate Ha].
  apply andb_true_iff in Ha as [Hv Ha]. apply bool_decide_eq_true in Ha.
  destruct (snapshot_accounts_for_all plain "a" 0 2000 ledger_charged s d (λ _, 0%Q) E Hv)
    as (binding & events & value & p & f & u & -> & _ & _ & _ & _ & Hval & Ham & _).
  exists s, value. split; [reflexivity|]. split; [exact Ha|]. split; [exact Hval|exact Ham].
Defined.
