(* ===== verification/FillAccounting.v ===== *)
(** FillAccounting: [src/trading_fill_accounting.ts], the derivation of realized
    price profit from the fills of a trade, posted to the money ledger.

    A fill row carries the accounting evidence its JSON column parses to.
    [postPricePnl] runs inside the transaction of [projectIntent], so that its
    ledger calls are nested. *)

From S2P Require Import Prelude Text Decimal Rational Money Types Json Fx Orders Strategy Reservations Ledger.
From Stdlib Require Ascii String.
Local Open Scope Z_scope.

(** ** Rows *)
Record AccountingFill := mkAccFill {
  af_id : string; af_order_id : string; af_exchange_fill_id : string; af_price : string; af_quantity : string; af_filled_at : Z;
  af_account_fingerprint : option string; af_accounting : option ExchangeFillAccounting; af_accounting_conflict : bool;
  af_role : string; af_provider_symbol : option string }.

Record IntentSource := mkIntentSource {
  is_id : string; is_account_id : string; is_side : TradingSide; is_exchange : string; is_mode : string; is_external_account_id : option string }.

Definition fingerprint (source : IntentSource) : option string :=
  if bool_decide (is_exchange source = "paper") && bool_decide (is_mode source = "paper")
  then Some ("paper:" +:+ is_account_id source) else is_external_account_id source.

Definition fillMarket (fill : AccountingFill) : result ExchangeFillAccounting :=
  if af_accounting_conflict fill then throw "fill_accounting_conflict"
  else match af_accounting fill, af_provider_symbol fill with
       | Some accounting, Some symbol =>
           if bool_decide (symbol = "") then throw "fill_market_accounting_unproven"
           else validateFillAccounting (Some accounting) (Some symbol)
       | _, _ => throw "fill_market_accounting_unproven"
       end.

(** ** Chronology *)

(** The map from a time to its fills, in the order of insertion. *)
Fixpoint add_time (fill : AccountingFill) (groups : list (Z * list AccountingFill)) : list (Z * list AccountingFill) :=
  match groups with
  | [] => [(af_filled_at fill, [fill])]
  | (t, fills) :: rest => if t =? af_filled_at fill then (t, fills ++ [fill]) :: rest else (t, fills) :: add_time fill rest
  end.

Definition is_entry (fill : AccountingFill) : bool := bool_decide (af_role fill = "entry").

Fixpoint chronological (priorEntries : nat) (groups : list (Z * list AccountingFill)) : result unit :=
  match groups with
  | [] => Ok tt
  | (_, group) :: rest =>
      let entries := length (List.filter is_entry group) in
      if (0 <? entries)%nat && (entries <? length group)%nat && ((0 <? priorEntries)%nat || (1 <? entries)%nat)
      then throw "same_timestamp_cost_basis_order_unproven"
      else chronological (priorEntries + entries)%nat rest
  end.

Definition assertChronologicalCostBasis (fills : list AccountingFill) : result unit :=
  chronological 0 (fold_left (λ groups fill, add_time fill groups) fills []).

(** ** Posting *)
Section Posting.
Context (sha256 : string → string).

Definition hash (value : jsval) : string := sha256 (of_chars (stringify value)).

Fixpoint postExits (intent : IntentSource) (identity : string) (settlement : option string) (fills : list AccountingFill)
    (quantity cost basis : string) : L unit :=
  match fills with
  | [] => mret tt
  | fill :: rest =>
      notional ← lift (multiplyExactSignedDecimal (af_price fill) (af_quantity fill));
      let priorBasis := basis in
      let basis := hash (JArray [JString basis; JString (af_exchange_fill_id fill); JString (af_price fill); JString (af_quantity fill);
                                 JInt (af_filled_at fill); JString (af_role fill)]) in
      if is_entry fill then
        quantity ← lift (addDecimal quantity (af_quantity fill));
        cost ← lift (addDecimal cost notional);
        postExits intent identity settlement rest quantity cost basis
      else
        c ← lift (compareDecimal (af_quantity fill) quantity);
        if c >? 0 then fail "exit_precedes_its_proven_entries"
        else
          allocatedCost ← lift (allocateDecimalExact cost (af_quantity fill) quantity);
          match settlement with
          | None => fail "fill_settlement_or_market_conflict"
          | Some settlement' =>
              amount ← lift (match is_side intent with
                             | LONG => signedDifference notional allocatedCost
                             | SHORT => signedDifference allocatedCost notional
                             end);
              _ ← recordMoneyEvent sha256 true
                    (mkEventInput (is_account_id intent) identity (af_exchange_fill_id fill) kind_realized_price_pnl
                       (is_exchange intent +:+ ":own-fill-v1") basis_fill (af_filled_at fill) amount (Some settlement') (Some (is_id intent))
                       (Some (af_id fill))
                       (Some (hash (JObject [("method", JString "moving-average-exact-v1"); ("priorBasis", JString priorBasis);
                          ("quantity", JString quantity); ("cost", JString cost); ("allocatedCost", JString allocatedCost)]))));
              quantity ← lift (subtractDecimal quantity (af_quantity fill));
              cost ← lift (subtractDecimal cost allocatedCost);
              postExits intent identity settlement rest quantity cost basis
          end
  end.

Definition ownership_fill (fill : AccountingFill) : OwnershipFill := mkOwnFill (af_order_id fill) (af_quantity fill).

Definition postPricePnl (intent : IntentSource) (fills : list AccountingFill) (orders : list OwnershipOrder) (hasPosition : bool) : L unit :=
  let identity := fingerprint intent in
  if bool_decide (fills = []) && hasPosition then fail "legacy_position_has_no_execution_evidence"
  else
    _ ← lift (proveOwnedQuantity orders (map ownership_fill fills) (is_side intent));
    _ ← lift (assertChronologicalCostBasis fills);
    markets ← lift (mapM fillMarket fills);
    let expectedSource := if bool_decide (is_exchange intent = "paper") then "paper-contract-v1" else "ccxt-market-v1" in
    if existsb (λ market, negb (bool_decide (fa_source market = expectedSource))) markets then fail "fill_market_source_profile_conflict"
    else
      match identity with
      | None => fail "fill_account_binding_unproven"
      | Some id =>
          if bool_decide (id = "") || existsb (λ fill, negb (bool_decide (af_account_fingerprint fill = Some id))) fills
          then fail "fill_account_binding_unproven"
          else
            let settlement := fa_settlementAsset <$> head markets in
            if existsb (λ market, negb (bool_decide (Some (fa_settlementAsset market) = settlement))
                 || negb (bool_decide (Some (fa_providerSymbol market) = fa_providerSymbol <$> head markets))) markets
            then fail "fill_settlement_or_market_conflict"
            else postExits intent id settlement fills "0" "0" "moving-average-exact-v1"
      end.

(** ** The projection of the posted events *)
Record IntentMoneyTotals := mkTotals { it_amount : option string; it_currency : option string; it_eventCount : Z; it_value : option MoneyValue }.

(** The fields of the totals but the hash of the events. *)
Definition summarizeMoneyEvents (events : list MoneyEvent) : result IntentMoneyTotals :=
  let currencies := remove_dups (map me_reportingCurrency events) in
  let unresolved := existsb (λ e, negb (me_valued e) || bool_decide (me_reportingValue e = None) || bool_decide (me_reportingCurrency e = None)
                       || match me_valuationEvidenceId e with None => true | Some i => bool_decide (i = "") end) events in
  if unresolved || (1 <? length currencies)%nat then Ok (mkTotals None None (Z.of_nat (length events)) None)
  else
    value ← sumMoneyEventValues events;
    Ok (mkTotals (mv_decimal value) (head events ≫= me_reportingCurrency) (Z.of_nat (length events)) (Some value)).

Inductive ProjectionStatus := projection_unresolved | projection_complete.

Definition projectionResult (reasons : list string) (totals : IntentMoneyTotals) (binding : option ReportingCurrencyBinding)
    : ProjectionStatus * option string * option MoneyValue :=
  let failed := match binding with
                | None => true
                | Some b => bool_decide (it_value totals = None)
                            || ((it_eventCount totals >? 0) && negb (bool_decide (it_currency totals = Some (rb_reportingCurrency b))))
                end in
  let status := if failed || negb (bool_decide (reasons = [])) then projection_unresolved else projection_complete in
  (status, rb_reportingCurrency <$> binding, match status with projection_complete => it_value totals | projection_unresolved => None end).
End Posting.

(** ** Exact arithmetic of a trade *)
Lemma units_sunits s a : units s = Some a → sunits s = Some a.
Proof. intros H. apply sunits_units; [done|by eapply units_trim|by eapply units_no_minus]. Qed.

Lemma sdec_neg z : z < 0 → sdec z = minus (dec (- z)).
Proof. intros Hz. with_strategy transparent [sdec] unfold sdec. by rewrite (proj2 (Z.ltb_lt _ _) Hz). Qed.

Lemma signedDifference_inv l r s : signedDifference l r = Ok s → ∃ a b, units l = Some a ∧ units r = Some b ∧ s = sdec (a - b).
Proof.
  unfold signedDifference. intros H. apply bind_Ok in H as (c & Hc & H). apply compareDecimal_inv in Hc as (a & b & Ha & Hb & ->).
  exists a, b. split; [done|]. split; [done|]. destruct (cmpZ_spec a b) as (_ & E1 & E0). rewrite E0, E1 in H.
  destruct (Z.eqb_spec a b) as [->|Hne]; [injection H as <-; by rewrite Z.sub_diag, sdec_0|].
  apply bind_Ok in H as (d & Hd & H). injection H as <-. destruct (Z.ltb_spec b a).
  - apply subtractDecimal_inv in Hd as (x & y & Hx & Hy & _ & ->). rewrite Ha in Hx. rewrite Hb in Hy. injection Hx as <-. injection Hy as <-.
    by rewrite sdec_nonneg by lia.
  - apply subtractDecimal_inv in Hd as (x & y & Hx & Hy & _ & ->). rewrite Hb in Hx. rewrite Ha in Hy. injection Hx as <-. injection Hy as <-.
    rewrite sdec_neg by lia. do 2 f_equal. lia.
Qed.

(** Price and quantity of a fill in units, and its notional in squared units. *)
Definition price_units (fill : AccountingFill) : Z := default 0 (sunits (af_price fill)).
Definition quantity_units (fill : AccountingFill) : Z := default 0 (sunits (af_quantity fill)).
Definition gross (fill : AccountingFill) : Z := price_units fill * quantity_units fill.

Definition over (f : AccountingFill → Z) (entries : bool) (fills : list AccountingFill) : Z :=
  sumZ (map f (List.filter (λ fill, Bool.eqb (is_entry fill) entries) fills)).

Lemma over_cons f entries fill fills : over f entries (fill :: fills) =
  (if Bool.eqb (is_entry fill) entries then f fill else 0) + over f entries fills.
Proof. unfold over. cbn. by destruct (Bool.eqb _ _). Qed.

(** The ledger holds the profit of this exit. *)
Definition posted (db : LedgerDb) (fill : AccountingFill) (amount : Z) : Prop :=
  ∃ id e, ld_events db !! id = Some e ∧ ei_basis e = basis_fill ∧ ei_kind e = kind_realized_price_pnl ∧ ei_fillId e = Some (af_id fill) ∧
    ei_amount e = sdec amount.

Lemma posted_mono db db' fill amount : extends db db' → posted db fill amount → posted db' fill amount.
Proof. intros Hx (id & e & He & Hr). exists id, e. split; [eapply lookup_weaken; [exact He|apply Hx]|done]. Qed.

(** A recorded event is stored with the economics it was given. *)
Lemma recorded sha256 owned value db ev db' : recordMoneyEvent sha256 owned value db = (Ok ev, db') → ei_basis value = basis_fill →
  ∃ id e z fillId, ld_events db' !! id = Some e ∧ ei_basis e = basis_fill ∧ ei_kind e = ei_kind value ∧
    ei_fillId value = Some fillId ∧ ei_fillId e = Some fillId ∧ sunits (ei_amount value) = Some z ∧ ei_amount e = sdec z.
Proof.
  unfold recordMoneyEvent. rewrite lift_run. destruct (cleanEvent value) as [clean|] eqn:Ec; [|done]. intros H Hb.
  assert (ei_basis clean = basis_fill ∧ ei_kind clean = ei_kind value ∧ (∀ f, ei_fillId clean = Some f → ei_fillId value = Some f) ∧
    ∃ z, sunits (ei_amount value) = Some z ∧ ei_amount clean = sdec z) as (Cb & Ck & Cf & z & Cz & Ca).
  { unfold cleanEvent in Ec. destruct (_ && _); [done|]. do 5 (apply bind_Ok in Ec as (? & _ & Ec)). apply bind_Ok in Ec as (am & Ham & Ec).
    do 2 (apply bind_Ok in Ec as (? & _ & Ec)). apply bind_Ok in Ec as (fi & Hfi & Ec). apply bind_Ok in Ec as (de & _ & Ec). injection Ec as <-. cbn.
    split; [done|]. split; [done|]. split; [|apply signedDecimal_inv in Ham as (z & ? & ->); by exists z].
    intros f ->. unfold optional_identifier in Hfi. destruct (ei_fillId value) as [v|]; [|done]. destruct (bool_decide _); [done|].
    apply fmap_Ok in Hfi as (w & Hw & [= ->]). unfold identifier in Hw. destruct (_ || _) in Hw; [done|]. by injection Hw as ->. }
  apply bind_run in H as (outcome & d & Hs & H). destruct outcome as [id|]; [|done].
  assert (storeMoneyEvent sha256 clean db = (Ok (Some id), d)) as Hs'.
  { unfold withDatabaseTransaction in Hs. destruct (storeMoneyEvent sha256 clean db) as [[?|] ?]; [by injection Hs as -> ->|done]. }
  assert (d = db') as ->.
  { apply bind_run in H as (p & d' & Hg & H). pose proof (evolves_getMoneyEvent sha256 id d) as Hd. rewrite Hg in Hd. cbn in Hd. subst d'.
    destruct p; [|done]. by injection H. }
  clear H Hs. unfold storeMoneyEvent in Hs'. rewrite assert_run in Hs'. destruct (binding_verified _ _ _ _); [|done].
  apply bind_run in Hs' as (identity & d & Hi & H). pose proof (identity_cases sha256 clean db) as [_ Hc]. rewrite Hi in Hc.
  destruct identity as [i|]; [|done]. destruct (Hc i eq_refl) as [Ed Hid]. cbn in Ed. subst d. destruct (Hid Cb) as (fillId & fill & Hfill & _).
  rewrite get_bind in H. destruct (ld_events db !! i) as [existing|] eqn:Ee.
  - destruct (sameMoneyOriginal existing clean) eqn:Es; [|by apply bind_run in H as (? & ? & ? & ?)].
    apply bind_run in H as ([] & d & Hn & H). injection H as -> ->. apply native_twice in Hn as [_ (_ & _ & _ & Se)].
    destruct (same_original_fill _ _ Es Cb) as (_ & _ & h3 & h4 & h5 & h6 & _).
    exists id, existing, z, fillId. rewrite Se. split_and!; try done; [congruence|auto|congruence|congruence].
  - apply bind_run in H as ([] & d & [= <-] & H). apply bind_run in H as ([] & d & Hn & H). injection H as -> ->.
    apply native_twice in Hn as [_ (_ & _ & _ & Se)]. cbn in Se. exists id, clean, z, fillId. rewrite Se, lookup_insert_eq. split_and!; auto.
Qed.

Definition exits (fills : list AccountingFill) : list AccountingFill := List.filter (λ fill, Bool.eqb (is_entry fill) false) fills.
Definition direction (side : TradingSide) : Z := match side with LONG => 1 | SHORT => -1 end.

(** The moving average, in exact units: [quantity] is open at [cost].  An entry
    adds its quantity and notional; an exit of at most the open quantity is
    charged the share of the open cost that its quantity is of the open quantity,
    and earns its notional less that share (for a short trade, the share less the
    notional).  The profits are those of the exits, in order. *)
Inductive averaged (side : TradingSide) : Z → Z → list AccountingFill → list Z → Z → Z → Prop :=
| averaged_nil quantity cost : averaged side quantity cost [] [] quantity cost
| averaged_entry quantity cost fill notional fills profits remaining left : is_entry fill = true → gross fill = notional * ONE →
    averaged side (quantity + quantity_units fill) (cost + notional) fills profits remaining left →
    averaged side quantity cost (fill :: fills) profits remaining left
| averaged_exit quantity cost fill notional share fills profits remaining left : is_entry fill = false → gross fill = notional * ONE →
    0 <= quantity_units fill <= quantity → 0 < quantity → share * quantity = cost * quantity_units fill →
    averaged side (quantity - quantity_units fill) (cost - share) fills profits remaining left →
    averaged side quantity cost (fill :: fills) (direction side * (notional - share) :: profits) remaining left.

(** The exact notional of a fill, as the code computes it. *)
Lemma notional_inv fill n : multiplyExactSignedDecimal (af_price fill) (af_quantity fill) = Ok n →
  ∃ z, n = sdec z ∧ gross fill = z * ONE.
Proof.
  intros (p & k & z & Hp & Hk & Hz & _ & ->)%multiplyExactSignedDecimal_inv. exists z. split; [done|].
  unfold gross, price_units, quantity_units. by rewrite Hp, Hk.
Qed.

Lemma quantity_inv fill k : units (af_quantity fill) = Some k → quantity_units fill = k ∧ 0 <= k.
Proof. intros H. unfold quantity_units. rewrite (units_sunits _ _ H). apply units_bounds in H. cbn. lia. Qed.

Lemma postExits_exact sha256 intent identity settlement fills q c basis db db' :
  postExits sha256 intent identity settlement fills (dec q) (dec c) basis db = (Ok tt, db') → 0 <= q → 0 <= c → (q = 0 → c = 0) →
  extends db db' ∧ ∃ amounts q' c', Forall2 (posted db') (exits fills) amounts ∧ averaged (is_side intent) q c fills amounts q' c' ∧ 0 <= q' ∧ 0 <= c' ∧ (q' = 0 → c' = 0) ∧
    q' = q + over quantity_units true fills - over quantity_units false fills ∧
    ONE * sumZ amounts = direction (is_side intent) * (over gross false fills - over gross true fills + ONE * (c' - c)).
Proof.
  revert q c basis db. induction fills as [|fill fills IH]; intros q c basis db H Hq Hc Hqc; cbn [postExits] in H.
  - injection H as <-. split; [done|]. exists [], q, c. cbn. split_and!; try done; [constructor|lia|lia].
  - rewrite lift_run in H. destruct (multiplyExactSignedDecimal _ _) as [n|] eqn:En; [|done]. apply notional_inv in En as (z & -> & Hz).
    pose proof ONE_pos. rewrite !over_cons. unfold exits. cbn [List.filter]. destruct (is_entry fill) eqn:Ee; cbn [Bool.eqb].
    + rewrite lift_run in H. destruct (addDecimal (dec q) _) as [q1|] eqn:Eq; [|done].
      apply addDecimal_inv in Eq as (x & k & Hx & Hk & ->). apply units_dec_Some in Hx as [-> _]; [|done]. apply quantity_inv in Hk as [Hk Hk0].
      rewrite lift_run in H. destruct (addDecimal (dec c) _) as [c1|] eqn:Eco; [|done].
      apply addDecimal_inv in Eco as (y & m & Hy & Hm & ->). apply units_dec_Some in Hy as [-> _]; [|done]. apply units_sdec in Hm as [-> Hm].
      assert (k = 0 → z = 0) as Hkz by (intros ->; unfold gross in Hz; rewrite Hk in Hz; nia).
      destruct (IH _ _ _ _ H ltac:(lia) ltac:(lia) ltac:(lia)) as (Hx & amounts & q' & c' & Hp & Hav & Hq' & Hc' & Hqc' & Eq' & Es).
      split; [done|]. exists amounts, q', c'. split_and!; try done; [by eapply averaged_entry; [| |rewrite Hk]|lia|]. rewrite Es, Hz. ring.
    + rewrite lift_run in H. destruct (compareDecimal _ (dec q)) as [cm|] eqn:Ecm; [|done].
      apply compareDecimal_inv in Ecm as (k & x & Hk & Hx & ->). apply units_dec_Some in Hx as [-> _]; [|done].
      destruct (cmpZ_spec k q) as (_ & E1 & _). rewrite E1 in H. destruct (Z.ltb_spec q k); [done|].
      rewrite lift_run in H. destruct (allocateDecimalExact _ _ _) as [al|] eqn:Eal; [|done].
      apply allocateDecimalExact_inv in Eal as (y & k' & t & a & Hy & Hk' & Ht & Ht0 & Ha & Hat & ->).
      rewrite trim_dec in Hy, Ht by done. apply units_dec_Some in Hy as [-> _]; [|done]. apply units_dec_Some in Ht as [-> _]; [|done].
      rewrite (units_trim _ _ Hk) in Hk'. assert (k' = k) as -> by congruence. apply quantity_inv in Hk as HkI. destruct HkI as [Hkq Hk0].
      destruct settlement as [asset'|]; [|done]. rewrite lift_run in H.
      destruct (match is_side intent with LONG => _ | SHORT => _ end) as [amount|] eqn:Eam; [|done].
      assert (amount = sdec (direction (is_side intent) * (z - a)) ∧ 0 <= z) as [-> Hz0].
      { destruct (is_side intent); apply signedDifference_inv in Eam as (u & v & Hu & Hv & ->); unfold direction.
        - apply units_sdec in Hu as [-> Hz0]. apply units_dec_Some in Hv as [-> _]; [|lia]. split; [f_equal; lia|done].
        - apply units_sdec in Hv as [-> Hz0]. apply units_dec_Some in Hu as [-> _]; [|lia]. split; [f_equal; lia|done]. }
      apply bind_run in H as (ev & d & Hrec & H).
      pose proof (evolves_record sha256 true (mkEventInput (is_account_id intent) identity (af_exchange_fill_id fill) kind_realized_price_pnl
        (is_exchange intent +:+ ":own-fill-v1") basis_fill (af_filled_at fill) (sdec (direction (is_side intent) * (z - a))) (Some asset') (Some (is_id intent))
        (Some (af_id fill)) (Some (hash sha256 (JObject [("method", JString "moving-average-exact-v1"); ("priorBasis", JString basis);
          ("quantity", JString (dec q)); ("cost", JString (dec c)); ("allocatedCost", JString (dec a))])))) db) as [Hext _]. rewrite Hrec in Hext. cbn [snd] in Hext.
      apply recorded in Hrec as (id & e & w & fillId & He & Hb & Hkd & Hfv & Hf & Hw & Hamt); [|done]. cbn in Hkd, Hfv, Hw.
      apply sunits_sdec_Some in Hw as [-> _]. injection Hfv as <-.
      rewrite lift_run in H. destruct (subtractDecimal (dec q) _) as [q1|] eqn:Eq1; [|done].
      apply subtractDecimal_inv in Eq1 as (x & k1 & Hx & Hk1 & _ & ->). apply units_dec_Some in Hx as [-> _]; [|done]. assert (k1 = k) as -> by congruence.
      rewrite lift_run in H. destruct (subtractDecimal (dec c) _) as [c1|] eqn:Ec1; [|done].
      apply subtractDecimal_inv in Ec1 as (y & a1 & Hy & Ha1 & Hle & ->). apply units_dec_Some in Hy as [-> _]; [|done].
      apply units_dec_Some in Ha1 as [-> _]; [|lia].
      destruct (IH _ _ _ _ H ltac:(lia) ltac:(lia) ltac:(intros; nia)) as (Hx & amounts & q' & c' & Hp & Hav & Hq' & Hc' & Hqc' & Eq' & Es).
      split; [by etrans|]. exists (direction (is_side intent) * (z - a) :: amounts), q', c'. split_and!; try done; [| |lia|].
      * constructor; [|done]. eapply posted_mono; [exact Hx|]. exists id, e. split_and!; done.
      * apply averaged_exit; rewrite ?Hkq; try done; lia.
      * cbn [sumZ]. rewrite Z.mul_add_distr_l, Es, Hz. ring.
Qed.

(** ** Properties *)

(** C13: realized profit is exact, end to end.  When the fills of a trade are
    posted, the ledger holds one price-profit event for each exit fill, and the
    posted amounts are the profits of the exact moving average: every exit is
    charged, without any rounding, the share of the cost then open that its
    quantity is of the quantity then open.  The amounts sum to the exit notionals
    less the entry notionals (with the opposite sign for a short trade) plus the
    cost left on the open remainder, which is what entries bought less what exits
    sold and is never negative.  A flat trade is left with no cost, so its
    posted profit is exactly what it paid out less what it paid in, whatever the
    number and order of its partial fills. *)
Theorem realized_pnl_exact sha256 intent fills orders hasPosition db db' :
  postPricePnl sha256 intent fills orders hasPosition db = (Ok tt, db') →
  ∃ amounts remaining cost, Forall2 (posted db') (exits fills) amounts ∧ averaged (is_side intent) 0 0 fills amounts remaining cost ∧
    remaining = over quantity_units true fills - over quantity_units false fills ∧ 0 <= remaining ∧ 0 <= cost ∧
    ONE * sumZ amounts = direction (is_side intent) * (over gross false fills - over gross true fills + ONE * cost) ∧
    (remaining = 0 → cost = 0).
Proof.
  unfold postPricePnl. destruct (_ && _); [done|]. rewrite lift_run. destruct (proveOwnedQuantity _ _ _); [|done]. rewrite lift_run.
  destruct (assertChronologicalCostBasis fills); [|done]. rewrite lift_run. destruct (mapM fillMarket fills) as [markets|]; [|done].
  destruct (existsb _ markets); [done|]. destruct (fingerprint intent) as [identity|]; [|done]. destruct (_ || _); [done|].
  destruct (existsb _ markets); [done|]. rewrite <-dec_0. intros H.
  destruct (postExits_exact _ _ _ _ _ _ _ _ _ _ H) as (_ & amounts & q & c & Hp & Hav & Hq & Hc & Hqc & Eq & Es); [done..|].
  exists amounts, q, c. rewrite Es. split; [exact Hp|]. split; [exact Hav|]. split; [lia|]. split; [done|]. split; [done|]. split; [f_equal; ring|exact Hqc].
Qed.

(** A short trade of the example account: sold 1 at 100 and 2 at 103, bought back
    1.5 at 90 and 1.5 at 104. *)
Definition pnl_market : ExchangeFillAccounting := mkFillAccounting 1 "paper-contract-v1" "BTCUSDT" "USDT" true "base".
Definition pnl_fill (id order price quantity : string) (at_ : Z) (role : string) : AccountingFill :=
  mkAccFill id order ("x" +:+ id) price quantity at_ (Some "paper:a") (Some pnl_market) false role (Some "BTCUSDT").
Definition pnl_fills : list AccountingFill :=
  [pnl_fill "f1" "o1" "100" "1" 1000 "entry"; pnl_fill "f2" "o1" "103" "2" 1001 "entry";
   pnl_fill "f3" "o2" "90" "1.5" 1002 "take_profit"; pnl_fill "f4" "o3" "104" "1.5" 1003 "stop_loss"].
Definition pnl_orders : list OwnershipOrder :=
  [mkOwnOrder "o1" "entry" "sell" 0 "3" "3"; mkOwnOrder "o2" "take_profit" "buy" 1 "1.5" "1.5"; mkOwnOrder "o3" "stop_loss" "buy" 1 "3" "1.5"].
Definition pnl_intent : IntentSource := mkIntentSource "i1" "a" SHORT "paper" "paper" None.
Definition pnl_ledger : LedgerDb :=
  mkLedger {[ "a" := mkLedgerAccount "paper" "paper" None ]}
    (list_to_map (map (λ f, (af_id f, mkLedgerFill "i1" "a" (Some "paper:a") (af_filled_at f))) pnl_fills)) ∅ [] [] ∅ ∅ ∅ [].

(** A digest for the example: the last 64 characters. *)
Definition tail64 (s : string) : string := of_chars (take 64 (reverse (chars s))).

Lemma realized_pnl_exact_witness : ∃ amounts, length amounts = 2%nat ∧ sumZ amounts = 15 * ONE ∧
  Forall2 (posted (postPricePnl tail64 pnl_intent pnl_fills pnl_orders true pnl_ledger).2) (exits pnl_fills) amounts.
Proof.
  assert (is_ok (postPricePnl tail64 pnl_intent pnl_fills pnl_orders true pnl_ledger).1 = true) as Hok by (vm_compute; reflexivity).
  destruct (postPricePnl tail64 pnl_intent pnl_fills pnl_orders true pnl_ledger) as [[[]|e] db'] eqn:E; [|discriminate Hok].
  destruct (realized_pnl_exact tail64 pnl_intent pnl_fills pnl_orders true pnl_ledger db' E)
    as (amounts & q & c & Hp & _ & Hq & _ & _ & Hsum & Hflat).
  exists amounts. split; [rewrite <-(Forall2_length _ _ _ Hp); reflexivity|].
  assert (q = 0) as Hz by (rewrite Hq; vm_compute; reflexivity). specialize (Hflat Hz).
  split; [|exact Hp]. assert (ONE * sumZ amounts = ONE * (15 * ONE)) as Hs by (rewrite Hsum, Hflat; vm_compute; reflexivity).
  apply (Z.mul_reg_l _ _ ONE); [pose proof ONE_pos; lia|exact Hs].
Defined.
