(* ===== verification/Reporting.v ===== *)
(** Reporting: the summaries of [src/trading_money_reporting.ts] over closed
    positions: totals per currency, the one known result, outcomes and gross
    profit and loss.

    A [Map] is its entries in insertion order.  The rows are those its query
    returns; a value column that does not validate makes its row unresolved. *)

From S2P Require Import Prelude Text Decimal Rational Money Ledger.
From Stdlib Require Import QArith Qminmax Lqa.
Local Open Scope Z_scope.

(** ** Rows *)

(** [realizedPnlValue]: absent, [null], or a value. *)
Inductive RowValue := value_absent | value_null | value_given (v : MoneyValue).

Record ClosedMoneyRow := mkClosedRow {
  cr_realizedPnl : option string; cr_reportingCurrency : option string; cr_accountingStatus : string; cr_realizedPnlValue : RowValue }.

Record ValuedRow := mkValued { vr_value : MoneyValue; vr_currency : string }.

Definition valuedRow (row : ClosedMoneyRow) : option ValuedRow :=
  match cr_reportingCurrency row with
  | Some currency =>
      if negb (bool_decide (cr_accountingStatus row = "complete")) || bool_decide (currency = "") then None
      else
        match cr_realizedPnlValue row with
        | value_absent =>
            match cr_realizedPnl row with
            | None => None
            | Some pnl => match moneyValueFromDecimal pnl with Ok v => Some (mkValued v currency) | Err _ => None end
            end
        | value_null => None
        | value_given given =>
            match validateMoneyValue given with
            | Ok v => if bool_decide (cr_realizedPnl row = mv_decimal v) then Some (mkValued v currency) else None
            | Err _ => None
            end
        end
  | None => None
  end.

(** ** Totals by currency *)
Definition Totals : Type := list (string * MoneyValue).

Fixpoint get_total (currency : string) (totals : Totals) : option MoneyValue :=
  match totals with
  | [] => None
  | (c, v) :: rest => if bool_decide (c = currency) then Some v else get_total currency rest
  end.

Fixpoint set_total (currency : string) (value : MoneyValue) (totals : Totals) : Totals :=
  match totals with
  | [] => [(currency, value)]
  | (c, v) :: rest => if bool_decide (c = currency) then (c, value) :: rest else (c, v) :: set_total currency value rest
  end.

(** [totals.set(currency, addMoneyValues(totals.get(currency) ?? zero(), value))] *)
Definition add_total (currency : string) (value : MoneyValue) (totals : Totals) : result Totals :=
  prior ← match get_total currency totals with Some v => Ok v | None => zeroWithTerms 0 end;
  sum ← addMoneyValues prior value;
  Ok (set_total currency sum totals).

Record MoneyRows := mkMoneyRows { mr_valued : list ValuedRow; mr_currencies : Totals; mr_unresolved : bool }.

Fixpoint group_from (rows : list ClosedMoneyRow) (group : MoneyRows) : result MoneyRows :=
  match rows with
  | [] => Ok group
  | row :: rest =>
      match valuedRow row with
      | None => group_from rest (mkMoneyRows (mr_valued group) (mr_currencies group) true)
      | Some current =>
          currencies ← add_total (vr_currency current) (vr_value current) (mr_currencies group);
          group_from rest (mkMoneyRows (mr_valued group ++ [current]) currencies (mr_unresolved group))
      end
  end.

Definition groupMoneyRows (rows : list ClosedMoneyRow) : result MoneyRows := group_from rows (mkMoneyRows [] [] false).

Record MoneySummary := mkSummary {
  su_realizedPnl : option string; su_realizedPnlValue : option MoneyValue; su_reportingCurrency : option string; su_complete : bool;
  su_valuedSubtotalByCurrency : list (string * option string); su_valuedSubtotalValuesByCurrency : Totals }.

Definition presentSummary (group : MoneyRows) (allowEmpty : bool) : result MoneySummary :=
  let keys := map fst (mr_currencies group) in
  let known := negb (mr_unresolved group) && ((length keys =? 1)%nat || (allowEmpty && (length keys =? 0)%nat)) in
  value ← (if known then
             match head (mr_currencies group) with
             | None => Some <$> zeroWithTerms 0
             | Some (_, v) => Ok (Some v)
             end
           else Ok None);
  Ok (mkSummary (value ≫= mv_decimal) value (if known then head keys else None) known
        (map (λ kv, (kv.1, mv_decimal kv.2)) (mr_currencies group)) (mr_currencies group)).

Definition summarizeMoneyRows (rows : list ClosedMoneyRow) : result MoneySummary := group ← groupMoneyRows rows; presentSummary group false.

(** ** Outcomes *)
Record Outcomes := mkOutcomes {
  oc_wins : Z; oc_losses : Z; oc_breakeven : Z; oc_uncertainOutcomeCount : Z; oc_profit : Totals; oc_loss : Totals }.

Fixpoint outcomes_from (rows : list ValuedRow) (o : Outcomes) : result Outcomes :=
  match rows with
  | [] => Ok o
  | row :: rest =>
      comparison ← compareMoneyValue (vr_value row) "0";
      match comparison with
      | uncertain_comparison =>
          outcomes_from rest (mkOutcomes (oc_wins o) (oc_losses o) (oc_breakeven o) (oc_uncertainOutcomeCount o + 1) (oc_profit o) (oc_loss o))
      | Compared c =>
          if c =? 0 then
            outcomes_from rest (mkOutcomes (oc_wins o) (oc_losses o) (oc_breakeven o + 1) (oc_uncertainOutcomeCount o) (oc_profit o) (oc_loss o))
          else if c <? 0 then
            negated ← negateMoneyValue (vr_value row);
            loss ← add_total (vr_currency row) negated (oc_loss o);
            outcomes_from rest (mkOutcomes (oc_wins o) (oc_losses o + 1) (oc_breakeven o) (oc_uncertainOutcomeCount o) (oc_profit o) loss)
          else
            profit ← add_total (vr_currency row) (vr_value row) (oc_profit o);
            outcomes_from rest (mkOutcomes (oc_wins o + 1) (oc_losses o) (oc_breakeven o) (oc_uncertainOutcomeCount o) profit (oc_loss o))
      end
  end.

Definition moneyOutcomes (rows : list ValuedRow) : result Outcomes := outcomes_from rows (mkOutcomes 0 0 0 0 [] []).

Record ClosedMoneyStatistics := mkStatistics {
  cs_summary : MoneySummary; cs_closedTrades : Z; cs_wins : Z; cs_losses : Z; cs_breakeven : Z; cs_uncertainOutcomeCount : Z;
  cs_grossProfitValue : option MoneyValue; cs_grossLossValue : option MoneyValue }.

(** [known ? totals.get(currency) ?? zero() : null] *)
Definition known_total (known : bool) (currency : string) (totals : Totals) : result (option MoneyValue) :=
  if known then match get_total currency totals with Some v => Ok (Some v) | None => Some <$> zeroWithTerms 0 end else Ok None.

Definition closedMoneyStatistics (rows : list ClosedMoneyRow) : result ClosedMoneyStatistics :=
  group ← groupMoneyRows rows;
  summary ← presentSummary group true;
  outcomes ← moneyOutcomes (mr_valued group);
  let known := su_complete summary && (oc_uncertainOutcomeCount outcomes =? 0) in
  let currency := default "" (su_reportingCurrency summary) in
  profit ← known_total known currency (oc_profit outcomes);
  loss ← known_total known currency (oc_loss outcomes);
  Ok (mkStatistics summary (Z.of_nat (length rows)) (oc_wins outcomes) (oc_losses outcomes) (oc_breakeven outcomes)
        (oc_uncertainOutcomeCount outcomes) profit loss).

(** ** What the totals say *)

(** Valued rows with a possible amount each; the sum of [f] over a currency. *)
Definition Amounts : Type := list (ValuedRow * Q).

Definition possible_amounts (l : Amounts) : Prop := Forall (λ p, contains (vr_value p.1) p.2) l.

Definition sum_of (f : Q → Q) (currency : string) (l : Amounts) : Q :=
  sumQ (map (λ p, if decide (vr_currency p.1 = currency) then f p.2 else 0%Q) l).

Lemma sum_of_snoc f currency l p : (sum_of f currency (l ++ [p]) == sum_of f currency l + (if decide (vr_currency p.1 = currency) then f p.2 else 0))%Q.
Proof.
  unfold sum_of. rewrite map_app. cbn [map]. generalize (if decide (vr_currency p.1 = currency) then f p.2 else 0%Q). intros x.
  induction (map _ l) as [|y k IH]; cbn; [ring|]. rewrite IH. ring.
Qed.

(** [totals] holds, per currency, a value that admits the sum of [f]. *)
Definition totals_hold (f : Q → Q) (totals : Totals) (l : Amounts) : Prop := ∀ currency,
  match get_total currency totals with
  | Some m => contains m (sum_of f currency l)
  | None => (sum_of f currency l == 0)%Q
  end.

Lemma get_set_total c c' v totals : get_total c' (set_total c v totals) = if decide (c = c') then Some v else get_total c' totals.
Proof.
  induction totals as [|[k w] totals IH]; cbn.
  - destruct (decide (c = c')); [by rewrite bool_decide_true|by rewrite bool_decide_false].
  - destruct (bool_decide (k = c)) eqn:E; cbn.
    + apply bool_decide_eq_true in E as ->. destruct (decide (c = c')); [by rewrite bool_decide_true|by rewrite bool_decide_false].
    + apply bool_decide_eq_false in E. rewrite IH. destruct (bool_decide (k = c')) eqn:E'; [|done].
      apply bool_decide_eq_true in E' as ->. by rewrite decide_False.
Qed.

Lemma keys_set_total c v totals : c ∈ map fst (set_total c v totals) ∧ map fst totals ⊆ map fst (set_total c v totals).
Proof.
  induction totals as [|[k w] totals [IH1 IH2]]; cbn; [split; [by left|set_solver]|].
  destruct (bool_decide (k = c)) eqn:E; cbn.
  - apply bool_decide_eq_true in E as ->. split; [by left|done].
  - split; [by right|]. set_solver.
Qed.

Lemma add_total_hold f c v totals totals' l p : add_total c v totals = Ok totals' → totals_hold f totals l →
  vr_currency p.1 = c → contains v (f p.2) → totals_hold f totals' (l ++ [p]).
Proof.
  unfold add_total. intros H Hold Hc Hv. apply bind_Ok in H as (prior & Hp & H). apply bind_Ok in H as (s & Hs & H). injection H as <-.
  intros c'. rewrite get_set_total. pose proof (sum_of_snoc f c' l p) as Hsn. rewrite Hc in Hsn. destruct (decide (c = c')) as [<-|Hne].
  - rewrite Hsn. eapply addMoneyValues_sound; [exact Hs| |exact Hv]. specialize (Hold c).
    destruct (get_total c totals); [by injection Hp as ->|]. rewrite Hold. by eapply zeroWithTerms_sound.
  - rewrite Qplus_0_r in Hsn. specialize (Hold c'). destruct (get_total c' totals); by rewrite Hsn.
Qed.

Lemma totals_hold_skip f totals l p : totals_hold f totals l → (f p.2 == 0)%Q → totals_hold f totals (l ++ [p]).
Proof.
  intros Hold H0 c. pose proof (sum_of_snoc f c l p) as Hsn. specialize (Hold c).
  assert ((if decide (vr_currency p.1 = c) then f p.2 else 0) == 0)%Q as E by by destruct (decide _).
  rewrite E, Qplus_0_r in Hsn. destruct (get_total c totals); by rewrite Hsn.
Qed.

(** ** Grouping *)
Definition covered (group : MoneyRows) : Prop := Forall (λ v, vr_currency v ∈ map fst (mr_currencies group)) (mr_valued group).

Lemma group_from_inv rows group g l l' : group_from rows group = Ok g → mr_valued group = map fst l →
  totals_hold (λ q, q) (mr_currencies group) l → covered group → map fst l' = omap valuedRow rows → possible_amounts l' →
  mr_valued g = map fst (l ++ l') ∧ totals_hold (λ q, q) (mr_currencies g) (l ++ l') ∧ covered g ∧
  (mr_unresolved g = false → mr_unresolved group = false ∧ Forall (λ r, is_Some (valuedRow r)) rows).
Proof.
  revert group l l'. induction rows as [|row rows IH]; intros group l l' H Hv Hold Hcov Hl' Hp; cbn in H, Hl'.
  - injection H as <-. destruct l' as [|? ?]; [|done]. rewrite app_nil_r. by split_and!.
  - destruct (valuedRow row) as [current|] eqn:Er.
    + apply bind_Ok in H as (currencies & Ht & H). destruct l' as [|p l']; [done|]. cbn in Hl'. injection Hl' as Hpc Hl'.
      apply Forall_cons in Hp as [Hp0 Hp]. rewrite Hpc in Hp0.
      destruct (IH _ (l ++ [p]) l' H) as (H1 & H2 & H3 & H4); cbn [mr_valued mr_currencies mr_unresolved].
      * rewrite map_app, Hv. cbn. by rewrite Hpc.
      * eapply add_total_hold; [exact Ht|done|by rewrite Hpc|done].
      * unfold covered. cbn. unfold add_total in Ht. apply bind_Ok in Ht as (prior & _ & Ht). apply bind_Ok in Ht as (s & _ & Ht). injection Ht as <-.
        pose proof (keys_set_total (vr_currency current) s (mr_currencies group)) as [K1 K2]. apply Forall_app. split; [|by constructor].
        eapply Forall_impl; [exact Hcov|]. intros v Hin. by apply K2.
      * done.
      * done.
      * rewrite <-app_assoc in H1, H2. cbn in H1, H2. split_and!; try done. intros Hu. destruct (H4 Hu) as [H5 H6]. split; [done|].
        constructor; [by eexists|done].
    + destruct (IH _ l l' H) as (H1 & H2 & H3 & H4); try done. split_and!; try done. intros Hu. by destruct (H4 Hu).
Qed.

(** ** Outcomes *)
Lemma compareMoneyValue_sound m c q : compareMoneyValue m "0" = Ok (Compared c) → contains m q →
  (c = 0 → (q == 0)%Q) ∧ (c < 0 → (q < 0)%Q) ∧ (0 < c → (0 < q)%Q).
Proof.
  unfold compareMoneyValue. intros H Hq. apply bind_Ok in H as (m' & Hm & H). apply validateMoneyValue_inv in Hm as (-> & _).
  apply bind_Ok in H as (z & Hz & H). apply rationalFromDecimal_zero in Hz. apply bind_Ok in H as (lo & Hlo & H).
  destruct (mv_exact m) as [e|] eqn:He.
  - injection H as ->. apply compareBound_inv in Hlo as (r & x & y & Hr & Hx & Hy & (S1 & S2 & _)).
    unfold exact_or_bound in Hr. rewrite He in Hr. injection Hr as <-. unfold contains in Hq. rewrite He in Hq.
    rewrite (denotes_fun _ _ _ Hy Hz) in S1, S2. rewrite (denotes_fun _ _ _ Hx Hq) in S1, S2. split_and!.
    + intros ->. apply Qle_antisym; [destruct (Qlt_le_dec 0 q) as [L|]; [apply S2 in L; lia|done]|destruct (Qlt_le_dec q 0) as [L|]; [apply S1 in L; lia|done]].
    + intros Hc. by apply S1.
    + intros Hc. by apply S2.
  - apply bind_Ok in H as (up & Hup & H). destruct (Z.ltb_spec up 0).
    + injection H as <-. split_and!; try lia. intros _. by eapply compareBound_upper_lt.
    + rewrite Z.gtb_ltb in H. destruct (Z.ltb_spec 0 lo); [|done]. injection H as <-. split_and!; try lia. intros _. by eapply compareBound_lower_gt.
Qed.

Definition gain (q : Q) : Q := Qmax 0 q.

Lemma gain_pos q : (0 < q)%Q → (gain q == q)%Q.
Proof. intros H. apply Q.max_r. lra. Qed.
Lemma gain_neg q : (q <= 0)%Q → (gain q == 0)%Q.
Proof. intros H. by apply Q.max_l. Qed.

Definition outcome_count (o : Outcomes) : Z := oc_wins o + oc_losses o + oc_breakeven o + oc_uncertainOutcomeCount o.

Lemma add_total_gain f c v totals totals' l p : add_total c v totals = Ok totals' → totals_hold f totals l →
  vr_currency p.1 = c → (∃ x, contains v x ∧ (f p.2 == x)%Q) → totals_hold f totals' (l ++ [p]).
Proof. intros H Hold Hc (x & Hx & E). eapply add_total_hold; [exact H|done|done|]. by rewrite E. Qed.

Lemma outcomes_from_inv l' o o' l : outcomes_from (map fst l') o = Ok o' → possible_amounts l' →
  outcome_count o' = outcome_count o + Z.of_nat (length l') ∧ oc_uncertainOutcomeCount o <= oc_uncertainOutcomeCount o' ∧
  (oc_uncertainOutcomeCount o' = oc_uncertainOutcomeCount o → totals_hold gain (oc_profit o) l → totals_hold lossQ (oc_loss o) l →
    totals_hold gain (oc_profit o') (l ++ l') ∧ totals_hold lossQ (oc_loss o') (l ++ l')).
Proof.
  revert o l. induction l' as [|p l' IH]; intros o l H Hp; cbn in H.
  - injection H as <-. cbn. rewrite app_nil_r. split_and!; [lia|lia|done].
  - apply Forall_cons in Hp as [Hq Hp]. apply bind_Ok in H as (cmp & Hc & H). rewrite (cons_middle p l l'), app_assoc. cbn [length].
    destruct cmp as [c|].
    + destruct (compareMoneyValue_sound _ _ _ Hc Hq) as (C0 & C1 & C2). destruct (Z.eqb_spec c 0); [|destruct (Z.ltb_spec c 0)].
      * specialize (C0 ltac:(done)). destruct (IH _ (l ++ [p]) H Hp) as (I1 & I2 & I3). unfold outcome_count in *. cbn in *. split_and!; [lia|lia|].
        intros Hu HP HL. apply I3; [done|apply totals_hold_skip; [done|apply gain_neg; lra]|apply totals_hold_skip; [done|apply lossQ_neg; lra]].
      * specialize (C1 ltac:(done)). apply bind_Ok in H as (neg & Hneg & H). apply bind_Ok in H as (loss & Hl & H).
        destruct (IH _ (l ++ [p]) H Hp) as (I1 & I2 & I3). unfold outcome_count in *. cbn in *. split_and!; [lia|lia|].
        intros Hu HP HL. apply I3; [done|apply totals_hold_skip; [done|apply gain_neg; lra]|].
        eapply add_total_gain; [exact Hl|done|done|]. exists (- p.2)%Q. split; [by eapply negateMoneyValue_sound|]. apply lossQ_pos. lra.
      * specialize (C2 ltac:(lia)). apply bind_Ok in H as (profit & Hpr & H).
        destruct (IH _ (l ++ [p]) H Hp) as (I1 & I2 & I3). unfold outcome_count in *. cbn in *. split_and!; [lia|lia|].
        intros Hu HP HL. apply I3; [done| |apply totals_hold_skip; [done|apply lossQ_neg; lra]].
        eapply add_total_gain; [exact Hpr|done|done|]. exists p.2. split; [done|]. by apply gain_pos.
    + destruct (IH _ (l ++ [p]) H Hp) as (I1 & I2 & _). unfold outcome_count in *. cbn in *. split_and!; [lia|lia|]. intros; lia.
Qed.

(** ** The known result *)
Lemma valuedRow_possible row v : valuedRow row = Some v → ∃ q, contains (vr_value v) q.
Proof.
  unfold valuedRow. destruct (cr_reportingCurrency row); [|done]. destruct (_ || _); [done|]. destruct (cr_realizedPnlValue row) as [| |given]; [|done|].
  - destruct (cr_realizedPnl row) as [pnl|]; [|done]. destruct (moneyValueFromDecimal pnl) as [m|] eqn:E; [|done]. intros [= <-]. cbn.
    pose proof E as E'. unfold moneyValueFromDecimal in E'. apply bind_Ok in E' as (e & He & _). apply rationalFromDecimal_inv in He as (z & Hz & _).
    exists (qdec z). by eapply moneyValueFromDecimal_sound.
  - destruct (validateMoneyValue given) as [m|] eqn:E; [|done]. destruct (bool_decide _); [|done]. intros [= <-]. cbn.
    by apply validateMoneyValue_inv in E as (-> & _ & _ & H).
Qed.

Lemma some_amounts rows : ∃ l, map fst l = omap valuedRow rows ∧ possible_amounts l.
Proof.
  induction rows as [|row rows (l & Hl & Hp)]; [exists []; split; [done|constructor]|]. cbn. destruct (valuedRow row) as [v|] eqn:E; [|by exists l].
  destruct (valuedRow_possible _ _ E) as [q Hq]. exists ((v, q) :: l). cbn. rewrite Hl. split; [done|by constructor].
Qed.

Lemma all_valued rows : Forall (λ r, is_Some (valuedRow r)) rows → Forall2 (λ r v, valuedRow r = Some v) rows (omap valuedRow rows).
Proof. induction 1 as [|r rows [v Hv] _ IH]; cbn; [constructor|]. rewrite Hv. by constructor. Qed.

Lemma sum_of_all f c l : Forall (λ v, vr_currency v = c) (map fst l) → (sum_of f c l == sumQ (map (λ p, f p.2) l))%Q.
Proof.
  unfold sum_of. induction l as [|p l IH]; cbn; [done|]. intros [Hc Hl]%Forall_cons. rewrite decide_True by done. by rewrite IH.
Qed.

(** A complete summary has at most one currency, and holds its total. *)
Lemma presentSummary_complete group s : presentSummary group true = Ok s → su_complete s = true → covered group →
  mr_unresolved group = false ∧ ∃ c v, su_realizedPnlValue s = Some v ∧ default "" (su_reportingCurrency s) = c ∧
    Forall (λ w, vr_currency w = c) (mr_valued group) ∧ (∀ l, map fst l = mr_valued group → totals_hold (λ q, q) (mr_currencies group) l → contains v (sumQ (map snd l))).
Proof.
  unfold presentSummary. intros H Hk Hcov. apply bind_Ok in H as (value & Hv & H). injection H as <-. cbn [su_complete] in Hk. cbn [andb] in Hk, Hv.
  rewrite Hk in Hv. cbn [su_realizedPnlValue su_reportingCurrency andb]. rewrite Hk.
  apply andb_true_iff in Hk as [Hu Hlen]. apply negb_true_iff in Hu. split; [done|]. rewrite length_map, orb_true_iff, !Nat.eqb_eq in Hlen.
  unfold covered in Hcov. destruct (mr_currencies group) as [|[c v] [|]]; cbn in *; [| |lia].
  - apply fmap_Ok in Hv as (z & Hz & ->). apply zeroWithTerms_sound in Hz. exists "", z. destruct (mr_valued group) as [|w ws]; [|apply Forall_cons in Hcov as [Hin _]; by apply elem_of_nil in Hin].
    split_and!; try done. intros l Hl _. by destruct l.
  - injection Hv as <-. assert (Forall (λ w, vr_currency w = c) (mr_valued group)) as Hall
      by (eapply Forall_impl; [exact Hcov|]; intros w Hin; by apply list_elem_of_singleton in Hin).
    exists c, v. split_and!; try done. intros l Hl Hold. specialize (Hold c). cbn in Hold. rewrite bool_decide_true in Hold by done.
    rewrite sum_of_all in Hold by by rewrite Hl. done.
Qed.

Lemma known_total_hold f c totals r l : known_total true c totals = Ok r → totals_hold f totals l → Forall (λ v, vr_currency v = c) (map fst l) →
  ∃ m, r = Some m ∧ contains m (sumQ (map (λ p, f p.2) l)).
Proof.
  unfold known_total. intros H Hold Hc. specialize (Hold c). pose proof (sum_of_all f c l Hc) as E. destruct (get_total c totals) as [v|].
  - injection H as <-. exists v. split; [done|]. by rewrite <-E.
  - apply fmap_Ok in H as (z & Hz & ->). apply zeroWithTerms_sound in Hz. exists z. split; [done|]. by rewrite <-E, Hold.
Qed.

(** ** Properties *)

(** Closed-trade statistics say what the trades made.  When the statistics
    are complete, every row is valued and in one currency, the outcomes partition
    the closed trades, and for all amounts the rows admit the reported profit
    admits their sum; with no undecided outcome the gross profit admits the sum
    of the gains and the gross loss that of the losses. *)
Theorem closed_statistics_sound rows s : closedMoneyStatistics rows = Ok s → su_complete (cs_summary s) = true →
  ∃ valued c pnl, Forall2 (λ r v, valuedRow r = Some v) rows valued ∧ Forall (λ v, vr_currency v = c) valued ∧
    cs_closedTrades s = cs_wins s + cs_losses s + cs_breakeven s + cs_uncertainOutcomeCount s ∧ su_realizedPnlValue (cs_summary s) = Some pnl ∧
    default "" (su_reportingCurrency (cs_summary s)) = c ∧ cs_closedTrades s = Z.of_nat (length rows) ∧
    ∀ l, map fst l = valued → possible_amounts l → contains pnl (sumQ (map snd l)) ∧
      (cs_uncertainOutcomeCount s = 0 → ∃ gp gl, cs_grossProfitValue s = Some gp ∧ cs_grossLossValue s = Some gl ∧
        contains gp (sumQ (map (λ p, gain p.2) l)) ∧ contains gl (sumQ (map (λ p, lossQ p.2) l))).
Proof.
  unfold closedMoneyStatistics. intros H Hc. apply bind_Ok in H as (group & Hg & H). apply bind_Ok in H as (summary & Hs & H).
  apply bind_Ok in H as (o & Ho & H). apply bind_Ok in H as (gp & Hgp & H). apply bind_Ok in H as (gl & Hgl & H). injection H as <-. cbn in Hc |- *.
  assert (∀ l', map fst l' = omap valuedRow rows → possible_amounts l' → mr_valued group = map fst l' ∧ totals_hold (λ q, q) (mr_currencies group) l' ∧
    covered group ∧ (mr_unresolved group = false → Forall (λ r, is_Some (valuedRow r)) rows)) as Hgroup.
  { intros l' Hl' Hp. destruct (group_from_inv _ _ _ [] l' Hg) as (H1 & H2 & H3 & H4); try done; [constructor|]. split_and!; try done. intros Hu. by apply H4. }
  destruct (some_amounts rows) as (l0 & Hl0 & Hp0). destruct (Hgroup l0 Hl0 Hp0) as (V0 & _ & Hcov & Hall).
  destruct (presentSummary_complete _ _ Hs Hc Hcov) as (Hu & c & v & Ev & Ec & Hcur & Hval). specialize (Hall Hu). apply all_valued in Hall.
  exists (omap valuedRow rows), c, v. rewrite V0, Hl0 in Hcur. rewrite V0 in Ho.
  split; [done|]. split; [done|]. destruct (outcomes_from_inv l0 _ _ [] Ho Hp0) as (Hcount & _ & _). split; [|split; [done|]].
  { unfold outcome_count in Hcount. cbn in Hcount. apply Forall2_length in Hall. rewrite <-Hl0, length_map in Hall. lia. }
  split; [done|]. split; [done|]. intros l Hl Hp. destruct (Hgroup l Hl Hp) as (V & Ht & _). split; [by apply Hval|]. intros Huz. rewrite Hc, Huz, Ec in Hgp, Hgl. cbn in Hgp, Hgl.
  rewrite Hl0, <-Hl in Ho. destruct (outcomes_from_inv l _ _ [] Ho Hp) as (_ & _ & Hout). destruct Hout as [HP HL]; [done|done|done|].
  rewrite <-Hl in Hcur. destruct (known_total_hold _ _ _ _ _ Hgp HP Hcur) as (g1 & -> & Hg1). destruct (known_total_hold _ _ _ _ _ Hgl HL Hcur) as (g2 & -> & Hg2).
  by exists g1, g2.
Qed.
