(* ===== verification/ChannelRisk.v ===== *)
(** ChannelRisk: [src/trading_channel_risk.ts], the adaptive risk policy of a
    signal channel and of a workflow path.

    The tables of the component are a [RiskDb].  What it reads from the position,
    account and snapshot tables is a record of reads; a stored JSON column is the
    value it parses to, and [encode] is the JSON text of an evidence record, which
    is only hashed and measured.  Operations return no state on a throw: every
    write is the last statement of its transaction. *)

From S2P Require Import Prelude Text Decimal Rational Money Types Json Fx Strategy Ledger FillAccounting Reporting.
From Stdlib Require Import QArith.
From Stdlib Require Ascii String.
Local Open Scope Z_scope.
Local Open Scope ts_scope.

(** ** Policies *)
Definition WEEK_MS : Z := 7 * 24 * 60 * 60 * 1000.
Definition DAY_MS : Z := 24 * 60 * 60 * 1000.

Inductive ChannelRiskMode := mode_fixed | mode_shadow | mode_automatic.
#[export] Instance ChannelRiskMode_eq_dec : EqDecision ChannelRiskMode.
Proof. solve_decision. Defined.
Inductive WeakChannelAction := weak_none | weak_reduce | weak_block.
#[export] Instance WeakChannelAction_eq_dec : EqDecision WeakChannelAction.
Proof. solve_decision. Defined.
Inductive RiskAction := action_hold | action_increase | action_decrease | action_block.
#[export] Instance RiskAction_eq_dec : EqDecision RiskAction.
Proof. solve_decision. Defined.

Definition MODES (text : string) : option ChannelRiskMode :=
  if bool_decide (text = "fixed") then Some mode_fixed
  else if bool_decide (text = "shadow") then Some mode_shadow
  else if bool_decide (text = "automatic") then Some mode_automatic else None.
Definition WEAK_ACTIONS (text : string) : option WeakChannelAction :=
  if bool_decide (text = "none") then Some weak_none
  else if bool_decide (text = "reduce") then Some weak_reduce
  else if bool_decide (text = "block") then Some weak_block else None.

Definition decimalInput (value : jsval) (label maximum : string) : result string :=
  match value with
  | JString s => decimal s true (Some maximum)
  | JInt z => decimal (show z) true (Some maximum)
  | JFloat printed => decimal printed true (Some maximum)
  | JNaN => decimal "NaN" true (Some maximum)
  | _ => throw (label +:+ " must be a decimal number.")
  end.

Definition identifier (value : jsval) (label : string) : result string :=
  match value with
  | JString s =>
      if bool_decide (trim s = "") || (128 <? length (chars (trim s)))%nat
         || existsb (λ c, (char_code c =? 13) || (char_code c =? 10) || (char_code c =? 0)) (chars s)
      then throw (label +:+ " is invalid.") else Ok (trim s)
  | _ => throw (label +:+ " is invalid.")
  end.

Definition riskTier (tier : jsval) : result string :=
  match tier with
  | JObject fields => decimalInput (assoc "riskPercent" fields) "Risk tier percent" "10"
  | _ => throw "Risk tier is invalid."
  end.

(** Each tier against its predecessor. *)
Fixpoint increasing (previous : option string) (tiers : list string) : result unit :=
  match tiers with
  | [] => Ok tt
  | tier :: rest =>
      _ ← match previous with
          | None => Ok tt
          | Some p => c ← compareDecimal tier p; if c <=? 0 then throw "Risk tiers must be strictly increasing." else Ok tt
          end;
      increasing (Some tier) rest
  end.

(** A tier is its [riskPercent]. *)
Definition validateTiers (value : jsval) : result (list string) :=
  match value with
  | JArray items =>
      if (length items <? 1)%nat || (20 <? length items)%nat then throw "Risk policy requires between one and twenty tiers."
      else tiers ← mapM riskTier items; _ ← increasing None tiers; Ok tiers
  | _ => throw "Risk policy requires between one and twenty tiers."
  end.

Definition tiersJson (tiers : list string) : jsval := JArray (map (λ t, JObject [("riskPercent", JString t)]) tiers).

Definition requiredRiskTier (tiers : list string) (index : Z) : result string :=
  match (if index <? 0 then None else tiers !! Z.to_nat index) with
  | Some tier => Ok tier
  | None => throw "Risk tier is missing from its policy."
  end.

Record ChannelRiskPolicyRow := mkPolicyRow {
  pr_channel_id : string; pr_mode : ChannelRiskMode; pr_tiers_json : jsval; pr_current_tier : Z; pr_lookback_weeks : Z;
  pr_minimum_closed_trades : Z; pr_loss_threshold_percent : string; pr_profit_threshold_percent : string;
  pr_weak_channel_action : WeakChannelAction; pr_weak_weeks_before_block : Z; pr_manually_blocked : bool; pr_blocked : bool;
  pr_block_reason : option string; pr_locked_tier : option Z; pr_policy_version : Z; pr_created_at : Z; pr_updated_at : Z }.

Record ChannelRiskPolicy := mkPolicy {
  cp_channelId : string; cp_mode : ChannelRiskMode; cp_tiers : list string; cp_currentTier : Z; cp_lookbackWeeks : Z;
  cp_minimumClosedTrades : Z; cp_lossThresholdPercent : string; cp_profitThresholdPercent : string;
  cp_weakChannelAction : WeakChannelAction; cp_weakWeeksBeforeBlock : Z; cp_manuallyBlocked : bool; cp_blocked : bool;
  cp_blockReason : option string; cp_lockedTier : option Z; cp_policyVersion : Z; cp_createdAt : Z; cp_updatedAt : Z }.

(** [value || null] *)
Definition non_empty (o : option string) : option string := match o with Some s => if bool_decide (s = "") then None else Some s | None => None end.

Definition policyFromRow (row : ChannelRiskPolicyRow) : result ChannelRiskPolicy :=
  tiers ← validateTiers (pr_tiers_json row);
  let last := Z.of_nat (length tiers) - 1 in
  currentTier ← Strategy.integer (JInt (pr_current_tier row)) "Stored current risk tier" 0 last;
  lockedTier ← match pr_locked_tier row with
               | None => Ok None
               | Some t => Some <$> Strategy.integer (JInt t) "Stored locked risk tier" 0 last
               end;
  loss ← decimal (pr_loss_threshold_percent row) true (Some "100");
  profit ← decimal (pr_profit_threshold_percent row) true (Some "100");
  Ok (mkPolicy (pr_channel_id row) (pr_mode row) tiers currentTier (pr_lookback_weeks row) (pr_minimum_closed_trades row) loss profit
        (pr_weak_channel_action row) (pr_weak_weeks_before_block row) (pr_manually_blocked row) (pr_blocked row)
        (non_empty (pr_block_reason row)) lockedTier (pr_policy_version row) (pr_created_at row) (pr_updated_at row)).

Record ChannelRiskPolicyInput := mkPolicyInput {
  in_channelId : jsval; in_mode : jsval; in_tiers : jsval; in_currentTier : jsval; in_lookbackWeeks : jsval; in_minimumClosedTrades : jsval;
  in_lossThresholdPercent : jsval; in_profitThresholdPercent : jsval; in_weakChannelAction : jsval; in_weakWeeksBeforeBlock : jsval;
  in_manuallyBlocked : jsval; in_lockedTier : jsval }.

(** A value of one of the sets of texts. *)
Definition member {A} (set : string → option A) (value : jsval) (msg : string) : result A :=
  match value with
  | JString s => match set s with Some a => Ok a | None => throw msg end
  | _ => throw msg
  end.

Definition normalizedRiskPolicy (input : ChannelRiskPolicyInput) (existing : option ChannelRiskPolicyRow) (now : Z) : result ChannelRiskPolicyRow :=
  channelId ← identifier (in_channelId input) "Channel identifier";
  mode ← member MODES (in_mode input) "Risk policy mode is invalid.";
  weak ← member WEAK_ACTIONS (in_weakChannelAction input) "Weak-channel action is invalid.";
  tiers ← validateTiers (in_tiers input);
  let last := Z.of_nat (length tiers) - 1 in
  currentTier ← match in_currentTier input with
                | JUndefined => Ok 0
                | v => Strategy.integer v "Current risk tier" 0 last
                end;
  lockedTier ← match in_lockedTier input with
               | JUndefined | JNull => Ok None
               | v => Some <$> Strategy.integer v "Locked risk tier" 0 last
               end;
  manuallyBlocked ← match in_manuallyBlocked input with
                    | JUndefined => Ok (match existing with Some row => pr_manually_blocked row | None => false end)
                    | JBool b => Ok b
                    | _ => throw "Manual channel block state must be boolean."
                    end;
  lookbackWeeks ← Strategy.integer (in_lookbackWeeks input) "Risk lookback weeks" 1 12;
  minimumClosedTrades ← Strategy.integer (in_minimumClosedTrades input) "Minimum closed trades" 1 1000;
  loss ← decimalInput (in_lossThresholdPercent input) "Loss threshold percent" "100";
  profit ← decimalInput (in_profitThresholdPercent input) "Profit threshold percent" "100";
  weakWeeks ← Strategy.integer (in_weakWeeksBeforeBlock input) "Weak weeks before block" 1 52;
  Ok (mkPolicyRow channelId mode (tiersJson tiers) currentTier lookbackWeeks minimumClosedTrades loss profit weak weakWeeks
        manuallyBlocked manuallyBlocked (if (manuallyBlocked : bool) then Some "Manually blocked by operator" else None) lockedTier
        (match existing with Some row => pr_policy_version row | None => 0 end + 1)
        (match existing with Some row => pr_created_at row | None => now end) now).

(** [Date.UTC] of the day of [now], less the days since Monday: day 0 is a Thursday. *)
Definition currentWeekStart (now : Z) : Z :=
  let day := now / DAY_MS in
  let weekday := ((day + 4) mod 7 + 6) mod 7 in
  day * DAY_MS - weekday * DAY_MS.

(** ** Evidence *)
Record CapitalRequest := mkRequest {
  rq_channelId : string; rq_accountId : option string; rq_reportingCurrency : option string; rq_currentEquity : string;
  rq_since : Z; rq_until : Z; rq_now : Z; rq_performanceAccountId : option string }.

Record CapitalBinding := mkCapitalBinding {
  cb_accountId : string; cb_fingerprint : string; cb_generation : option string; cb_exchange : string; cb_reportingCurrency : string }.
Record CapitalProof := mkCapital { ca_binding : CapitalBinding; ca_equity : string; ca_basis : string; ca_observedAt : Z; ca_snapshotId : option string }.

(** A row of the closed positions, and the source kept for it. *)
Record ClosedPositionRow := mkClosedPosition {
  cl_id : string; cl_intent_id : string; cl_account_id : string; cl_closed_at : Z; cl_reporting_currency : option string;
  cl_accounting_status : string; cl_ledger_realized_pnl : option string; cl_ledger_realized_value : option MoneyValue; cl_evidence_hash : option string }.
Record PositionSource := mkSource {
  so_id : string; so_intentId : string; so_accountId : string; so_closedAt : Z; so_projectionHash : string; so_valuationHash : string }.

Record CapitalAccountRow := mkCapitalAccount {
  cx_exchange : string; cx_external_account_id : option string; cx_credential_generation : option string; cx_reporting_currency : string }.

(** What the component reads of other tables. *)
Record Reads := mkReads {
  rd_closedRows : string → option string → Z → Z → list ClosedMoneyRow;
  rd_positions : string → option string → Z → Z → list ClosedPositionRow;
  (** [intentMoneyTotals] with its valuation hash *)
  rd_totals : string → result (IntentMoneyTotals * string);
  rd_routes : string → list string;
  rd_account : string → option CapitalAccountRow;
  rd_snapshot : string → Z → Z → option (string * string * Z) }.

Record ChannelEvidence := mkEvidence {
  ce_channelId : string; ce_accountId : option string; ce_since : Z; ce_until : Z; ce_capital : CapitalProof;
  ce_performance : ClosedMoneyStatistics; ce_positions : list PositionSource; ce_returnPercentReason : option string }.

Record Collected := mkCollected { co_source : ChannelEvidence; co_hash : string; co_pnl : MoneyValue; co_percent : option MoneyValue * option string }.

Definition unresolvedRisk {A} (reason : string) : result A := throw ("Adaptive risk is unresolved: " +:+ reason).

Section Evidence.
Context (sha256 : string → string) (encode : ChannelEvidence → string) (reads : Reads).

Definition positionSource (row : ClosedPositionRow) : result PositionSource :=
  '(totals, valuationHash) ← rd_totals reads (cl_intent_id row);
  match non_empty (cl_evidence_hash row), it_value totals with
  | Some evidenceHash, Some total =>
      if negb (bool_decide (cl_accounting_status row = "complete")) || negb (bool_decide (it_currency totals = cl_reporting_currency row))
      then unresolvedRisk "closed-position original valuation is incomplete."
      else
        changed ← match cl_ledger_realized_value row with
                  | Some stored => v ← validateMoneyValue stored; Ok (negb (bool_decide (v = total)))
                  | None => Ok (negb (bool_decide (cl_ledger_realized_pnl row = it_amount totals)))
                  end;
        if (changed : bool) then unresolvedRisk "closed-position valuation changed."
        else Ok (mkSource (cl_id row) (cl_intent_id row) (cl_account_id row) (cl_closed_at row) evidenceHash valuationHash)
  | _, _ => unresolvedRisk "closed-position original valuation is incomplete."
  end.

Definition performanceSources (request : CapitalRequest) : result (list PositionSource) :=
  let rows := rd_positions reads (rq_channelId request) (rq_performanceAccountId request) (rq_since request) (rq_until request) in
  if (1000 <? length rows)%nat then unresolvedRisk "closed-position source budget exceeded; no source was omitted."
  else mapM positionSource rows.

Definition capitalAccount (request : CapitalRequest) (positions : list PositionSource) : result CapitalBinding :=
  let ids := remove_dups (map so_accountId positions ++ match non_empty (rq_accountId request) with Some a => [a] | None => [] end) in
  let ids := if (length ids =? 0)%nat then remove_dups (rd_routes reads (rq_channelId request)) else ids in
  match ids with
  | [accountId] =>
      match rd_account reads accountId with
      | None => unresolvedRisk "reporting currency is not bound to the input capital."
      | Some row =>
          let unbound := match non_empty (rq_reportingCurrency request) with
                         | None => negb (bool_decide (cx_exchange row = "paper")) || negb (bool_decide (cx_reporting_currency row = "USDT"))
                         | Some c => negb (bool_decide (c = cx_reporting_currency row))
                         end in
          if unbound then unresolvedRisk "reporting currency is not bound to the input capital."
          else
            match non_empty (if bool_decide (cx_exchange row = "paper") then Some ("paper:" +:+ accountId) else cx_external_account_id row) with
            | None => unresolvedRisk "external account identity is missing."
            | Some fingerprint =>
                Ok (mkCapitalBinding accountId fingerprint (cx_credential_generation row) (cx_exchange row) (cx_reporting_currency row))
            end
      end
  | _ => unresolvedRisk "ambiguous account/equity context for channel history."
  end.

(** The capital read anew: a paper account's own snapshot, else the input. *)
Definition currentCapital (request : CapitalRequest) (binding : CapitalBinding) : result CapitalProof :=
  match (if bool_decide (cb_exchange binding = "paper") && bool_decide (cb_reportingCurrency binding = "USDT")
         then rd_snapshot reads (cb_accountId binding) (rq_since request) (rq_until request) else None) with
  | Some (id, equity, at_) => e ← decimal equity true None; Ok (mkCapital binding e "paper_native_historical" at_ (Some id))
  | None => e ← decimal (rq_currentEquity request) true None; Ok (mkCapital binding e "current_bound_input" (rq_now request) None)
  end.

Definition capitalEvidence (request : CapitalRequest) (positions : list PositionSource) (pinned : option CapitalProof) : result CapitalProof :=
  binding ← capitalAccount request positions;
  match pinned with
  | Some p =>
      if bool_decide (ca_basis p = "current_bound_input")
      then equity ← decimal (ca_equity p) true None; Ok (mkCapital binding equity (ca_basis p) (ca_observedAt p) None)
      else currentCapital request binding
  | None => currentCapital request binding
  end.

Definition collectChannelEvidence (request : CapitalRequest) (pinned : option CapitalProof) : result Collected :=
  performance ← closedMoneyStatistics (rd_closedRows reads (rq_channelId request) (rq_performanceAccountId request) (rq_since request) (rq_until request));
  match su_realizedPnlValue (cs_summary performance) with
  | None => unresolvedRisk "closed history is incomplete or mixes reporting currencies."
  | Some pnl =>
      if negb (su_complete (cs_summary performance)) then unresolvedRisk "closed history is incomplete or mixes reporting currencies."
      else
        positions ← performanceSources request;
        capital ← capitalEvidence request positions pinned;
        if match su_reportingCurrency (cs_summary performance) with
           | Some c => negb (bool_decide (c = cb_reportingCurrency (ca_binding capital)))
           | None => false
           end then unresolvedRisk "performance and capital reporting currencies differ."
        else
          percent ← channelReturnValue pnl (ca_equity capital);
          let source := mkEvidence (rq_channelId request) (rq_performanceAccountId request) (rq_since request) (rq_until request) capital performance
                          positions (snd percent) in
          if 262144 <=? Z.of_nat (length (chars (encode source)))
          then unresolvedRisk "original source byte budget exceeded; no source was omitted."
          else Ok (mkCollected source (sha256 (encode source)) pnl percent)
  end.

(** ** Evaluations *)
Record RiskEvaluationRow := mkEvaluation {
  ev_week_started_at : Z; ev_week_ended_at : Z;
  ev_closed_trades : Z; ev_wins : Z; ev_losses : Z; ev_realized_pnl : option string; ev_starting_equity : string; ev_return_percent : option string;
  ev_previous_tier : Z; ev_recommended_tier : Z; ev_applied_tier : Z; ev_action : RiskAction; ev_reason : string; ev_created_at : Z;
  ev_realized_pnl_value : option MoneyValue; ev_return_percent_value : option MoneyValue; ev_reporting_currency : option string;
  ev_source_hash : option string; ev_source : option ChannelEvidence; ev_invalidated_at : option Z; ev_invalidation_reason : option string }.

Definition storedMoneyValue (encoded : option MoneyValue) (scalar : option string) : result (option MoneyValue) :=
  match encoded with
  | None => match scalar with None => Ok None | Some s => Some <$> moneyValueFromDecimal s end
  | Some stored =>
      value ← validateMoneyValue stored;
      if bool_decide (mv_decimal value = scalar) then Ok (Some value) else throw "Stored adaptive-risk scalar differs from its exact value."
  end.

Definition assertOriginalEvaluationAmounts (row : RiskEvaluationRow) (evidence : Collected) : result unit :=
  let capital := ce_capital (co_source evidence) in
  let performance := ce_performance (co_source evidence) in
  let disagree : result unit := unresolvedRisk "stored evaluation values disagree with their original source." in
  if negb (bool_decide (ev_starting_equity row = ca_equity capital))
     || negb (bool_decide (ev_reporting_currency row = Some (cb_reportingCurrency (ca_binding capital))))
     || negb (bool_decide (ev_realized_pnl row = su_realizedPnl (cs_summary performance)))
     || negb (bool_decide (ev_return_percent row = fst (co_percent evidence) ≫= mv_decimal)) then disagree
  else
    pnl ← storedMoneyValue (ev_realized_pnl_value row) (ev_realized_pnl row);
    if negb (bool_decide (pnl = Some (co_pnl evidence))) then disagree
    else
      percent ← storedMoneyValue (ev_return_percent_value row) (ev_return_percent row);
      if negb (bool_decide (percent = fst (co_percent evidence))) then disagree else Ok tt.

Definition assertCachedEvidence (row : RiskEvaluationRow) (request : CapitalRequest) : result unit :=
  match ev_invalidated_at row with
  | Some _ => unresolvedRisk (ev_invalidation_reason row ?? "previous evaluation is invalidated.")
  | None =>
      match ev_source row, non_empty (ev_source_hash row) with
      | Some original, Some stored =>
          if (262144 <=? Z.of_nat (length (chars (encode original)))) || negb (bool_decide (sha256 (encode original) = stored))
          then unresolvedRisk "original evaluation provenance is missing or invalid."
          else
            current ← collectChannelEvidence request (Some (ce_capital original));
            if negb (bool_decide (co_hash current = stored)) then unresolvedRisk "original evaluation sources changed; a new explicit policy is required."
            else assertOriginalEvaluationAmounts row current
      | _, _ => unresolvedRisk "original evaluation provenance is missing or invalid."
      end
  end.

Record Recommendation := mkRecommendation { rc_tier : Z; rc_action : RiskAction; rc_reason : string; rc_uncertain : bool }.

Definition recommendation (policy : ChannelRiskPolicy) (closedTrades : Z) (realizedPnlValue : MoneyValue) (equity : string) : result Recommendation :=
  match cp_lockedTier policy with
  | Some t => Ok (mkRecommendation t action_hold ("Tier is manually locked at " +:+ show t +:+ ".") false)
  | None =>
      if closedTrades <? cp_minimumClosedTrades policy
      then Ok (mkRecommendation (cp_currentTier policy) action_hold
                 ("Only " +:+ show closedTrades +:+ " closed trades; " +:+ show (cp_minimumClosedTrades policy) +:+ " required.") false)
      else
        loss ← channelReturnThreshold realizedPnlValue equity (cp_lossThresholdPercent policy) true;
        profit ← channelReturnThreshold realizedPnlValue equity (cp_profitThresholdPercent policy) false;
        match loss, profit with
        | reached, _ =>
            Ok (mkRecommendation (Z.max 0 (cp_currentTier policy - 1)) action_decrease
                  ("Loss threshold " +:+ cp_lossThresholdPercent policy +:+ "% reached.") false)
        | _, reached =>
            Ok (mkRecommendation (Z.min (Z.of_nat (length (cp_tiers policy)) - 1) (cp_currentTier policy + 1)) action_increase
                  ("Profit threshold " +:+ cp_profitThresholdPercent policy +:+ "% reached.") false)
        | uncertain, _ | _, uncertain =>
            Ok (mkRecommendation (cp_currentTier policy) action_hold
                  "RISK_PRECISION_UNCERTAIN: the original monetary interval overlaps a policy threshold." true)
        | not_reached, not_reached =>
            Ok (mkRecommendation (cp_currentTier policy) action_hold "Weekly performance remained inside the neutral band." false)
        end
  end.
End Evidence.

(** ** Tables *)

(** Evaluations carry the channel and policy version, or the state key and
    policy digest, they belong to. *)
Record RiskDb := mkRiskDb {
  db_policies : gmap string ChannelRiskPolicyRow;
  db_evaluations : list (string * Z * RiskEvaluationRow) }.

Definition set_policy (row : ChannelRiskPolicyRow) (db : RiskDb) : RiskDb :=
  mkRiskDb (<[pr_channel_id row := row]> (db_policies db)) (db_evaluations db).

(** [UPDATE ... SET current_tier, blocked, block_reason, updated_at] *)
Definition with_risk (tier : Z) (blocked : bool) (reason : option string) (now : Z) (row : ChannelRiskPolicyRow) : ChannelRiskPolicyRow :=
  mkPolicyRow (pr_channel_id row) (pr_mode row) (pr_tiers_json row) tier (pr_lookback_weeks row) (pr_minimum_closed_trades row)
    (pr_loss_threshold_percent row) (pr_profit_threshold_percent row) (pr_weak_channel_action row) (pr_weak_weeks_before_block row)
    (pr_manually_blocked row) blocked reason (pr_locked_tier row) (pr_policy_version row) (pr_created_at row) now.

(** [UPDATE ... WHERE channel_id = ? AND policy_version = ?] *)
Definition update_policy (channelId : string) (version : Z) (f : ChannelRiskPolicyRow → ChannelRiskPolicyRow) (db : RiskDb) : RiskDb :=
  mkRiskDb (alter (λ row, if pr_policy_version row =? version then f row else row) channelId (db_policies db)) (db_evaluations db).

(** The row is written before it is read back. *)
Definition upsertChannelRiskPolicy (input : ChannelRiskPolicyInput) (now : Z) (db : RiskDb) : result ChannelRiskPolicy * RiskDb :=
  match (requested ← identifier (in_channelId input) "Channel identifier"; normalizedRiskPolicy input (db_policies db !! requested) now) with
  | Ok row => (policyFromRow row, set_policy row db)
  | Err e => (Err e, db)
  end.

Definition deleteChannelRiskPolicy (channelId : jsval) (db : RiskDb) : result (bool * RiskDb) :=
  id ← identifier channelId "Channel identifier";
  Ok (bool_decide (is_Some (db_policies db !! id)), mkRiskDb (delete id (db_policies db)) (db_evaluations db)).

Definition same_evaluation (channelId : string) (version weekStartedAt : Z) (e : string * Z * RiskEvaluationRow) : Prop :=
  e.1.1 = channelId ∧ e.1.2 = version ∧ ev_week_started_at e.2 = weekStartedAt.
#[export] Instance same_evaluation_dec c v w e : Decision (same_evaluation c v w e).
Proof. unfold same_evaluation. apply _. Defined.

Definition weak (action : RiskAction) : bool := match action with action_decrease | action_block => true | _ => false end.

(** The latest [count] actions, newest week first. *)
Definition latest_actions (count : Z) (rows : list RiskEvaluationRow) : list RiskAction :=
  take (Z.to_nat count) (map ev_action (sort_by (λ e, - ev_week_ended_at e) rows)).

Definition completes_streak (weeks : Z) (rows : list RiskEvaluationRow) : bool :=
  let previous := latest_actions (weeks - 1) rows in (Z.of_nat (length previous) =? weeks - 1) && forallb weak previous.

Definition shouldBlockWeakChannel (policy : ChannelRiskPolicy) (action : RiskAction) (db : RiskDb) : bool :=
  bool_decide (cp_weakChannelAction policy = weak_block) && bool_decide (action = action_decrease)
  && completes_streak (cp_weakWeeksBeforeBlock policy) (map snd (filter (λ e, e.1.1 = cp_channelId policy) (db_evaluations db))).

Definition block_suggestion (weeks : Z) (suggested : Recommendation) : Recommendation :=
  mkRecommendation (rc_tier suggested) action_block (show weeks +:+ " consecutive weak evaluations.") (rc_uncertain suggested).

Definition evaluationFromRow (row : RiskEvaluationRow) : result RiskEvaluationRow :=
  realizedPnl ← match ev_realized_pnl row with None => Ok None | Some p => Some <$> signedDecimal p end;
  returnPercent ← match ev_return_percent row with None => Ok None | Some p => Some <$> signedDecimal p end;
  realizedPnlValue ← storedMoneyValue (ev_realized_pnl_value row) realizedPnl;
  returnPercentValue ← storedMoneyValue (ev_return_percent_value row) returnPercent;
  startingEquity ← decimal (ev_starting_equity row) true None;
  Ok (mkEvaluation (ev_week_started_at row) (ev_week_ended_at row) (ev_closed_trades row) (ev_wins row) (ev_losses row) realizedPnl
        startingEquity returnPercent (ev_previous_tier row) (ev_recommended_tier row) (ev_applied_tier row) (ev_action row) (ev_reason row)
        (ev_created_at row) realizedPnlValue returnPercentValue (ev_reporting_currency row) (ev_source_hash row) (ev_source row)
        (ev_invalidated_at row) (ev_invalidation_reason row)).

(** ** Evaluation and resolution *)
Section Resolve.
Context (sha256 : string → string) (encode : ChannelEvidence → string) (reads : Reads).

Definition shadow_reason (mode : ChannelRiskMode) (reason : string) : string :=
  match mode with mode_shadow => "Shadow only: " +:+ reason | _ => reason end.

(** The row an evaluation inserts. *)
Definition evaluationRow (policyTier : Z) (mode : ChannelRiskMode) (weekStartedAt weekEndedAt now : Z) (evidence : Collected) (suggested : Recommendation)
    (appliedTier : Z) : RiskEvaluationRow :=
  let performance := ce_performance (co_source evidence) in
  let capital := ce_capital (co_source evidence) in
  mkEvaluation weekStartedAt weekEndedAt (cs_closedTrades performance) (cs_wins performance) (cs_losses performance)
    (su_realizedPnl (cs_summary performance)) (ca_equity capital) (fst (co_percent evidence) ≫= mv_decimal) policyTier (rc_tier suggested) appliedTier
    (rc_action suggested) (shadow_reason mode (rc_reason suggested)) now (Some (co_pnl evidence)) (fst (co_percent evidence))
    (Some (cb_reportingCurrency (ca_binding capital))) (Some (co_hash evidence)) (Some (co_source evidence)) None None.

Definition suggest (policy : ChannelRiskPolicy) (evidence : Collected) (db : RiskDb) : result Recommendation :=
  suggested ← recommendation policy (cs_closedTrades (ce_performance (co_source evidence))) (co_pnl evidence) (ca_equity (ce_capital (co_source evidence)));
  Ok (if shouldBlockWeakChannel policy (rc_action suggested) db then block_suggestion (cp_weakWeeksBeforeBlock policy) suggested else suggested).

Definition evaluatePolicy (policy : ChannelRiskPolicy) (request : CapitalRequest) (db : RiskDb) : result (RiskEvaluationRow * RiskDb) :=
  let weekEndedAt := rq_until request in
  let weekStartedAt := weekEndedAt - cp_lookbackWeeks policy * WEEK_MS in
  match snd <$> list_find (same_evaluation (cp_channelId policy) (cp_policyVersion policy) weekStartedAt) (db_evaluations db) with
  | Some (_, existing) => _ ← assertCachedEvidence sha256 encode reads existing request; e ← evaluationFromRow existing; Ok (e, db)
  | None =>
      evidence ← collectChannelEvidence sha256 encode reads request None;
      suggested ← suggest policy evidence db;
      let automatic := bool_decide (cp_mode policy = mode_automatic) in
      let appliedTier := if automatic then rc_tier suggested else cp_currentTier policy in
      let stop := automatic && (bool_decide (rc_action suggested = action_block) || rc_uncertain suggested) in
      let blocked := stop || cp_blocked policy in
      let blockReason := if stop then Some (rc_reason suggested) else cp_blockReason policy in
      let evaluation := evaluationRow (cp_currentTier policy) (cp_mode policy) weekStartedAt weekEndedAt (rq_now request) evidence suggested appliedTier in
      let db := mkRiskDb (db_policies db) (db_evaluations db ++ [(cp_channelId policy, cp_policyVersion policy, evaluation)]) in
      Ok (evaluation, if automatic
                      then update_policy (cp_channelId policy) (cp_policyVersion policy) (with_risk appliedTier blocked blockReason (rq_now request)) db
                      else db)
  end.

Definition UNRESOLVED : string := "Adaptive risk is unresolved:".

Definition failureReason (e : error) : string :=
  of_chars (take 2048 (chars (if String.prefix UNRESOLVED (message e) then message e else UNRESOLVED +:+ " " +:+ message e))).

Definition invalidated (now : Z) (reason : string) (row : RiskEvaluationRow) : RiskEvaluationRow :=
  mkEvaluation (ev_week_started_at row) (ev_week_ended_at row) (ev_closed_trades row) (ev_wins row) (ev_losses row) (ev_realized_pnl row)
    (ev_starting_equity row) (ev_return_percent row) (ev_previous_tier row) (ev_recommended_tier row) (ev_applied_tier row) (ev_action row)
    (ev_reason row) (ev_created_at row) (ev_realized_pnl_value row) (ev_return_percent_value row) (ev_reporting_currency row) (ev_source_hash row)
    (ev_source row) (Some (default now (ev_invalidated_at row))) (Some (default reason (ev_invalidation_reason row))).

Definition invalidateChannelEvaluation (policy : ChannelRiskPolicy) (request : CapitalRequest) (e : error) (db : RiskDb) : string * RiskDb :=
  let reason := failureReason e in
  let marked := mkRiskDb (db_policies db) (map (λ x, if decide (same_evaluation (cp_channelId policy) (cp_policyVersion policy) (rq_since request) x)
                                                     then (x.1, invalidated (rq_now request) reason x.2) else x) (db_evaluations db)) in
  (shadow_reason (cp_mode policy) reason,
   if bool_decide (cp_mode policy = mode_automatic)
   then update_policy (cp_channelId policy) (cp_policyVersion policy)
          (λ row, with_risk (pr_current_tier row) true (Some reason) (rq_now request) row) marked
   else marked).

Record ResolveInput := mkResolve {
  ri_channelId : string; ri_currentEquity : string; ri_accountId : option string; ri_reportingCurrency : option string; ri_now : Z;
  ri_riskPerTradePercent : string }.

Definition precision_text : string := "RISK_PRECISION_UNCERTAIN".

(** [reason.includes(text)] *)
Definition includes (reason text : string) : bool := bool_decide (is_Some (String.index 0 text reason)).

Definition evaluateChannelPolicySafely (policy : ChannelRiskPolicy) (input : ResolveInput) (db : RiskDb) : option string * RiskDb :=
  let until := currentWeekStart (ri_now input) in
  let request := mkRequest (ri_channelId input) (ri_accountId input) (ri_reportingCurrency input) (ri_currentEquity input)
                   (until - cp_lookbackWeeks policy * WEEK_MS) until (ri_now input) None in
  match evaluatePolicy policy request db with
  | Ok (evaluation, db') => (if includes (ev_reason evaluation) precision_text then Some (ev_reason evaluation) else None, db')
  | Err e => let '(reason, db') := invalidateChannelEvaluation policy request e db in (Some reason, db')
  end.

Record EffectiveRisk := mkEffective { ef_riskPercent : string; ef_blocked : bool; ef_reason : string; ef_policy : option ChannelRiskPolicy }.

Definition blocked_risk (policy : ChannelRiskPolicy) : result EffectiveRisk :=
  tier ← requiredRiskTier (cp_tiers policy) (cp_currentTier policy);
  Ok (mkEffective tier true (default "Channel is blocked by its risk policy." (cp_blockReason policy)) (Some policy)).

Definition mode_text (m : ChannelRiskMode) : string := match m with mode_fixed => "fixed" | mode_shadow => "shadow" | mode_automatic => "automatic" end.

(** The answer once the policy was brought up to date. *)
Definition resolved_risk (policy : ChannelRiskPolicy) (baseline : string) (warning : option string) : result EffectiveRisk :=
  if cp_blocked policy || cp_manuallyBlocked policy then blocked_risk policy
  else
    let tier := cp_lockedTier policy ?? cp_currentTier policy in
    riskPercent ← match cp_mode policy with
                  | mode_automatic => requiredRiskTier (cp_tiers policy) tier
                  | _ => Ok baseline
                  end;
    Ok (mkEffective riskPercent false
          (default ("Channel policy " +:+ mode_text (cp_mode policy) +:+ " tier " +:+ show tier +:+ ".") warning) (Some policy)).

(** The evaluation is committed before the policy is read back. *)
Definition resolveEffectiveChannelRisk (input : ResolveInput) (db : RiskDb) : result EffectiveRisk * RiskDb :=
  match identifier (JString (ri_channelId input)) "Channel identifier" with
  | Err e => (Err e, db)
  | Ok channelId =>
      match db_policies db !! channelId with
      | None => (Ok (mkEffective (ri_riskPerTradePercent input) false "No channel policy; strategy baseline applies." None), db)
      | Some row =>
          match policyFromRow row with
          | Err e => (Err e, db)
          | Ok policy =>
              if cp_blocked policy || cp_manuallyBlocked policy then (blocked_risk policy, db)
              else if negb (bool_decide (cp_mode policy = mode_fixed)) && bool_decide (cp_lockedTier policy = None) then
                let '(warning, db') := evaluateChannelPolicySafely policy input db in
                (match db_policies db' !! cp_channelId policy with
                 | None => throw "Cannot read properties of undefined."
                 | Some row' => policy' ← policyFromRow row'; resolved_risk policy' (ri_riskPerTradePercent input) warning
                 end, db')
              else (resolved_risk policy (ri_riskPerTradePercent input) None, db)
          end
      end
  end.
End Resolve.

(** ** Workflow paths

    A workflow resource keeps its own tier per channel and account; the state
    key is a digest of the three identifiers, the policy digest that of the
    configuration's JSON text [configText]. *)
Record WorkflowAdaptiveRiskConfiguration := mkConfiguration {
  wc_enabled : bool; wc_mode : ChannelRiskMode; wc_tiers : list string; wc_startingTier : Z; wc_lockedTier : option Z; wc_lookbackWeeks : Z; wc_minimumClosedTrades : Z;
  wc_lossThresholdPercent : string; wc_profitThresholdPercent : string; wc_weakChannelAction : WeakChannelAction; wc_weakWeeksBeforeBlock : Z;
  wc_manuallyBlocked : bool }.

Record WorkflowAdaptiveRiskInput := mkWorkflowInput {
  wi_channelId : string; wi_accountId : string; wi_adaptiveResourceVersionId : string; wi_configuration : WorkflowAdaptiveRiskConfiguration;
  wi_riskPerTradePercent : string; wi_maxAdaptiveRiskPercent : option string; wi_currentEquity : string; wi_reportingCurrency : option string; wi_now : Z }.

Record WorkflowRiskStateRow := mkState {
  ws_channel_id : string; ws_account_id : string; ws_resource_id : string; ws_current_tier : Z; ws_locked_tier : option Z;
  ws_blocked : bool; ws_block_reason : option string; ws_policy_sha256 : string; ws_updated_at : Z }.

Record WorkflowDb := mkWorkflowDb {
  wd_resources : gmap string string;
  wd_states : gmap string WorkflowRiskStateRow;
  wd_evaluations : list (string * string * RiskEvaluationRow) }.

Definition set_state (key : string) (row : WorkflowRiskStateRow) (db : WorkflowDb) : WorkflowDb :=
  mkWorkflowDb (wd_resources db) (<[key := row]> (wd_states db)) (wd_evaluations db).

(** [UPDATE workflow_adaptive_risk_state SET current_tier, blocked, block_reason, updated_at] *)
Definition with_state (tier : Z) (blocked : bool) (reason : option string) (now : Z) (row : WorkflowRiskStateRow) : WorkflowRiskStateRow :=
  mkState (ws_channel_id row) (ws_account_id row) (ws_resource_id row) tier (ws_locked_tier row) blocked reason (ws_policy_sha256 row) now.

Definition manual_reason (c : WorkflowAdaptiveRiskConfiguration) : option string :=
  if wc_manuallyBlocked c then Some "Blocked by workflow policy." else None.

Definition last_tier (c : WorkflowAdaptiveRiskConfiguration) : Z := Z.of_nat (length (wc_tiers c)) - 1.

Definition loadWorkflowRiskState (request : WorkflowAdaptiveRiskInput) (resourceId stateKey policyHash : string) (db : WorkflowDb)
    : WorkflowRiskStateRow * WorkflowDb :=
  let c := wi_configuration request in
  match wd_states db !! stateKey with
  | None =>
      let row := mkState (wi_channelId request) (wi_accountId request) resourceId (wc_startingTier c) (wc_lockedTier c) (wc_manuallyBlocked c)
                   (manual_reason c) policyHash (wi_now request) in
      (row, set_state stateKey row db)
  | Some state =>
      if bool_decide (ws_policy_sha256 state = policyHash) then (state, db)
      else
        let row := mkState (ws_channel_id state) (ws_account_id state) (ws_resource_id state) (Z.min (ws_current_tier state) (last_tier c)) (wc_lockedTier c)
                     (wc_manuallyBlocked c) (manual_reason c) policyHash (wi_now request) in
        (row, set_state stateKey row db)
  end.

Definition syntheticWorkflowPolicy (request : WorkflowAdaptiveRiskInput) (currentTier : Z) : ChannelRiskPolicy :=
  let c := wi_configuration request in
  mkPolicy (wi_channelId request) (wc_mode c) (wc_tiers c) currentTier (wc_lookbackWeeks c) (wc_minimumClosedTrades c) (wc_lossThresholdPercent c)
    (wc_profitThresholdPercent c) (wc_weakChannelAction c) (wc_weakWeeksBeforeBlock c) (wc_manuallyBlocked c) false None (wc_lockedTier c) 1
    (wi_now request) (wi_now request).

Definition applyWorkflowWeakStreak (stateKey : string) (c : WorkflowAdaptiveRiskConfiguration) (suggested : Recommendation) (db : WorkflowDb) : Recommendation :=
  if bool_decide (wc_weakChannelAction c = weak_block) && bool_decide (rc_action suggested = action_decrease)
     && completes_streak (wc_weakWeeksBeforeBlock c) (map snd (filter (λ e, e.1.1 = stateKey) (wd_evaluations db)))
  then block_suggestion (wc_weakWeeksBeforeBlock c) suggested else suggested.

Definition same_workflow_evaluation (stateKey policyHash : string) (weekStartedAt : Z) (e : string * string * RiskEvaluationRow) : Prop :=
  e.1.1 = stateKey ∧ e.1.2 = policyHash ∧ ev_week_started_at e.2 = weekStartedAt.
#[export] Instance same_workflow_evaluation_dec k h w e : Decision (same_workflow_evaluation k h w e).
Proof. unfold same_workflow_evaluation. apply _. Defined.

Section Workflow.
Context (sha256 : string → string) (encode : ChannelEvidence → string) (configText : WorkflowAdaptiveRiskConfiguration → string) (reads : Reads).

(** The state with the warning of the evaluation. *)
Definition evaluateWorkflowRiskState (request : WorkflowAdaptiveRiskInput) (state : WorkflowRiskStateRow) (stateKey policyHash : string) (db : WorkflowDb)
    : result (WorkflowRiskStateRow * option string * WorkflowDb) :=
  let c := wi_configuration request in
  if bool_decide (wc_mode c = mode_fixed) || negb (bool_decide (wc_lockedTier c = None)) || wc_manuallyBlocked c then Ok (state, None, db)
  else
    let currentTier := Z.min (ws_current_tier state) (last_tier c) in
    let weekEndedAt := currentWeekStart (wi_now request) in
    let weekStartedAt := weekEndedAt - wc_lookbackWeeks c * WEEK_MS in
    let capitalRequest := mkRequest (wi_channelId request) (Some (wi_accountId request)) (wi_reportingCurrency request) (wi_currentEquity request)
                            weekStartedAt weekEndedAt (wi_now request) (Some (wi_accountId request)) in
    match snd <$> list_find (same_workflow_evaluation stateKey policyHash weekStartedAt) (wd_evaluations db) with
    | Some (_, existing) =>
        _ ← assertCachedEvidence sha256 encode reads existing capitalRequest;
        Ok (state, if includes (ev_reason existing) precision_text then Some (ev_reason existing) else None, db)
    | None =>
        evidence ← collectChannelEvidence sha256 encode reads capitalRequest None;
        initial ← recommendation (syntheticWorkflowPolicy request currentTier) (cs_closedTrades (ce_performance (co_source evidence))) (co_pnl evidence)
                    (ca_equity (ce_capital (co_source evidence)));
        let suggested := applyWorkflowWeakStreak stateKey c initial db in
        let automatic := bool_decide (wc_mode c = mode_automatic) in
        let appliedTier := if automatic then rc_tier suggested else currentTier in
        let blocked := automatic && (bool_decide (rc_action suggested = action_block) || rc_uncertain suggested) in
        let reason := if blocked then Some (rc_reason suggested) else None in
        let evaluation := evaluationRow currentTier (wc_mode c) weekStartedAt weekEndedAt (wi_now request) evidence suggested appliedTier in
        let db := mkWorkflowDb (wd_resources db) (wd_states db) (wd_evaluations db ++ [(stateKey, policyHash, evaluation)]) in
        let db := if automatic
                  then mkWorkflowDb (wd_resources db) (alter (with_state appliedTier blocked reason (wi_now request)) stateKey (wd_states db)) (wd_evaluations db)
                  else db in
        Ok (mkState (ws_channel_id state) (ws_account_id state) (ws_resource_id state) appliedTier (ws_locked_tier state) blocked reason
              (ws_policy_sha256 state) (ws_updated_at state),
            if rc_uncertain suggested then Some (shadow_reason (wc_mode c) (rc_reason suggested)) else None, db)
    end.

Definition invalidateWorkflowEvaluation (request : WorkflowAdaptiveRiskInput) (state : WorkflowRiskStateRow) (stateKey policyHash : string) (e : error)
    (db : WorkflowDb) : WorkflowRiskStateRow * option string * WorkflowDb :=
  let c := wi_configuration request in
  let reason := failureReason e in
  let blocked := bool_decide (wc_mode c = mode_automatic) in
  let since := currentWeekStart (wi_now request) - wc_lookbackWeeks c * WEEK_MS in
  let evaluations := map (λ x, if decide (same_workflow_evaluation stateKey policyHash since x)
                               then (x.1, invalidated (wi_now request) reason x.2) else x) (wd_evaluations db) in
  let states := if blocked
                then alter (λ row, if bool_decide (ws_policy_sha256 row = policyHash)
                                   then with_state (ws_current_tier row) true (Some reason) (wi_now request) row else row) stateKey (wd_states db)
                else wd_states db in
  (mkState (ws_channel_id state) (ws_account_id state) (ws_resource_id state) (ws_current_tier state) (ws_locked_tier state)
     (blocked || ws_blocked state) (if blocked then Some reason else ws_block_reason state) (ws_policy_sha256 state) (ws_updated_at state),
   Some (if blocked then reason else "Shadow only: " +:+ reason), mkWorkflowDb (wd_resources db) states evaluations).

Record WorkflowRisk := mkWorkflowRisk { wr_riskPercent : string; wr_blocked : bool; wr_reason : string }.

Definition resolvedWorkflowRisk (input : WorkflowAdaptiveRiskInput) (state : WorkflowRiskStateRow) (warning : option string) : result WorkflowRisk :=
  let c := wi_configuration input in
  if wc_manuallyBlocked c || ws_blocked state
  then Ok (mkWorkflowRisk (wi_riskPerTradePercent input) true (default "Workflow adaptive-risk path is blocked." (non_empty (ws_block_reason state))))
  else
    let currentTier := Z.min (ws_current_tier state) (last_tier c) in
    let selectedTier := wc_lockedTier c ?? currentTier in
    tierRisk ← match wc_mode c with
               | mode_automatic => requiredRiskTier (wc_tiers c) selectedTier
               | _ => Ok (wi_riskPerTradePercent input)
               end;
    let maximum := default (wi_riskPerTradePercent input) (non_empty (wi_maxAdaptiveRiskPercent input)) in
    comparison ← compareDecimal tierRisk maximum;
    Ok (mkWorkflowRisk (if comparison >? 0 then maximum else tierRisk) false
          (default ("Workflow adaptive-risk " +:+ mode_text (wc_mode c) +:+ " tier " +:+ show selectedTier +:+ " for account " +:+ wi_accountId input +:+ ".")
             warning)).

Definition zero_char : string := of_chars [Ascii.zero].

Definition resolveWorkflowAdaptiveRisk (input : WorkflowAdaptiveRiskInput) (db : WorkflowDb) : result WorkflowRisk * WorkflowDb :=
  match wd_resources db !! wi_adaptiveResourceVersionId input with
  | None => (throw "Adaptive workflow resource is unavailable.", db)
  | Some resourceId =>
      let policyHash := sha256 (configText (wi_configuration input)) in
      let stateKey := sha256 (wi_channelId input +:+ zero_char +:+ wi_accountId input +:+ zero_char +:+ resourceId) in
      let '(initial, db) := loadWorkflowRiskState input resourceId stateKey policyHash db in
      if ws_blocked initial && String.prefix UNRESOLVED (default "null" (ws_block_reason initial)) then (resolvedWorkflowRisk input initial None, db)
      else
        match evaluateWorkflowRiskState input initial stateKey policyHash db with
        | Ok (state, warning, db') => (resolvedWorkflowRisk input state warning, db')
        | Err e => let '(state, warning, db') := invalidateWorkflowEvaluation input initial stateKey policyHash e db in
                   (resolvedWorkflowRisk input state warning, db')
        end
  end.
End Workflow.

(** ** Well-formed policies *)

(** The tiers of a policy: between one and twenty percentages, strictly
    increasing, each positive and at most ten. *)
Definition tiers_wf (tiers : list string) (zs : list Z) : Prop :=
  tiers = map dec zs ∧ (1 <= length zs <= 20)%nat ∧ Forall (λ z, 0 < z <= 10 * ONE) zs ∧ StronglySorted Z.lt zs.

Lemma ten_units : units "10" = Some (10 * ONE).
Proof. vm_compute. reflexivity. Qed.

Lemma hundred_units : units "100" = Some (100 * ONE).
Proof. vm_compute. reflexivity. Qed.

(** A positive amount up to the maximum is its own normal form. *)
Lemma decimal_bounded z mx m : 0 < z <= m → m < LIMIT → units mx = Some m → mx ≠ "" → decimal (dec z) true (Some mx) = Ok (dec z).
Proof.
  intros Hz Hm Hmx Hne. rewrite (decimal_reads _ z) by (rewrite trim_dec by lia; apply units_dec_lt; lia).
  rewrite (proj2 (Z.eqb_neq z 0)) by lia. cbn [andb]. rewrite bool_decide_false by done.
  rewrite (compareDecimal_spec _ _ z m) by (try done; apply units_dec_lt; lia). cbn [mbind result_bind].
  destruct (cmpZ_spec z m) as (_ & E & _). rewrite E, (proj2 (Z.ltb_ge m z)) by lia. done.
Qed.

Lemma ten_below : 10 * ONE < LIMIT.
Proof. rewrite LIMIT_ONE. pose proof ONE_pos. nia. Qed.
Lemma hundred_below : 100 * ONE < LIMIT.
Proof. rewrite LIMIT_ONE. pose proof ONE_pos. nia. Qed.

Lemma decimalInput_inv value label maximum m s : units maximum = Some m → maximum ≠ "" → decimalInput value label maximum = Ok s →
  ∃ z, s = dec z ∧ 0 < z <= m ∧ z < LIMIT.
Proof.
  intros Hm Hne H. assert (∃ text, decimal text true (Some maximum) = Ok s) as [text Ht] by (destruct value; try done; eauto).
  apply decimal_inv in Ht as (z & _ & -> & Hb & Hp & Hmax). exists z. specialize (Hp eq_refl). specialize (Hmax maximum m eq_refl Hm Hne). split; [done|lia].
Qed.

Lemma increasing_inv zs z0 : Forall (λ z, 0 < z <= 10 * ONE) zs → (∀ p, z0 = Some p → 0 < p <= 10 * ONE) →
  increasing (dec <$> z0) (map dec zs) = Ok tt ↔ StronglySorted Z.lt (from_option (λ p, [p]) [] z0 ++ zs).
Proof.
  pose proof ten_below as HL.
  revert z0. induction zs as [|z zs IH]; intros z0 Hzs H0; cbn [map increasing].
  - split; intros _; [destruct z0; cbn; repeat constructor|reflexivity].
  - apply Forall_cons in Hzs as [Hz Hzs]. specialize (IH (Some z) Hzs). cbn in IH. rewrite bind_Ok.
    assert (increasing (Some (dec z)) (map dec zs) = Ok tt ↔ StronglySorted Z.lt (z :: zs)) as HIH by (apply IH; by intros p [= <-]).
    destruct z0 as [p|]; cbn [from_option app fmap option_fmap option_map].
    + specialize (H0 p eq_refl). rewrite (compareDecimal_spec _ _ z p) by (apply units_dec_lt; lia). cbn [mbind result_bind].
      destruct (cmpZ_spec z p) as (E1 & E2 & E3). destruct (Z.leb_spec (cmpZ z p) 0).
      * split; [by intros (? & ? & _)|]. intros Hs. exfalso. apply StronglySorted_inv in Hs as [_ Hs]. apply Forall_cons in Hs as [Hs _].
        assert ((cmpZ z p >? 0) = true) by (rewrite E2; by apply Z.ltb_lt). rewrite Z.gtb_ltb, Z.ltb_lt in *. lia.
      * split.
        -- intros (u & _ & Hi). apply HIH in Hi. constructor; [done|]. assert (p < z) as Hlt by (apply Z.ltb_lt; rewrite <-E2, Z.gtb_ltb; by apply Z.ltb_lt).
           constructor; [done|]. apply StronglySorted_inv in Hi as [_ Hi]. eapply Forall_impl; [exact Hi|]. cbn. lia.
        -- intros Hs. exists tt. split; [done|]. apply HIH. by apply StronglySorted_inv in Hs as [Hs _].
    + split; [intros (u & _ & Hi); by apply HIH|]. intros Hs. exists tt. split; [done|]. by apply HIH.
Qed.

Lemma policy_tiers_inv value tiers : validateTiers value = Ok tiers → ∃ zs, tiers_wf tiers zs.
Proof.
  unfold validateTiers. destruct value as [| | | | | | |items|]; try done. destruct (_ || _) eqn:El; [done|].
  rewrite orb_false_iff, !Nat.ltb_ge in El. intros H. apply bind_Ok in H as (ts & Hm & H). apply bind_Ok in H as ([] & Hi & H). injection H as <-.
  pose proof (mapM_Ok_length _ _ _ Hm) as Hlen. apply mapM_Ok in Hm.
  assert (∃ zs, ts = map dec zs ∧ Forall (λ z, 0 < z <= 10 * ONE) zs) as (zs & -> & Hz).
  { clear Hi Hlen El. induction Hm as [|item t items ts Ht _ (zs & -> & Hz)]; [by exists []|]. unfold riskTier in Ht. destruct item; try done.
    apply (decimalInput_inv _ _ _ _ _ ten_units) in Ht as (z & -> & Hb & _); [|done]. exists (z :: zs). split; [done|by constructor]. }
  exists zs. rewrite length_map in Hlen. split; [done|]. split; [lia|]. split; [done|]. by apply (increasing_inv zs None).
Qed.

(** Stored tiers validate to themselves. *)
Lemma tiers_roundtrip tiers zs : tiers_wf tiers zs → validateTiers (tiersJson tiers) = Ok tiers.
Proof.
  intros (-> & Hlen & Hz & Hs). unfold validateTiers, tiersJson. rewrite !length_map.
  rewrite (proj2 (Nat.ltb_ge (length zs) 1)), (proj2 (Nat.ltb_ge 20 (length zs))) by lia. cbn [orb].
  pose proof ten_below as HL.
  assert (mapM riskTier (map (λ t, JObject [("riskPercent", JString t)]) (map dec zs)) = Ok (map dec zs)) as ->.
  { apply mapM_Ok. clear Hlen Hs. induction Hz as [|z zs Hz0 _ IH]; cbn; [constructor|]. constructor; [|done]. unfold riskTier. rewrite assoc_hit. cbn [decimalInput].
    by apply (decimal_bounded _ _ (10 * ONE)); [|apply ten_below|apply ten_units|]. }
  cbn [mbind result_bind]. assert (increasing None (map dec zs) = Ok tt) as -> by by apply (increasing_inv zs None). done.
Qed.

(** What a readable policy is. *)
Record policy_wf (p : ChannelRiskPolicy) (zs : list Z) : Prop := mkPolicyWf {
  pw_tiers : tiers_wf (cp_tiers p) zs;
  pw_current : 0 <= cp_currentTier p < Z.of_nat (length zs);
  pw_locked : ∀ t, cp_lockedTier p = Some t → 0 <= t < Z.of_nat (length zs);
  pw_loss : ∃ l, cp_lossThresholdPercent p = dec l ∧ 0 < l <= 100 * ONE;
  pw_profit : ∃ g, cp_profitThresholdPercent p = dec g ∧ 0 < g <= 100 * ONE }.

Lemma integer_Ok v name lo hi z : Strategy.integer v name lo hi = Ok z → v = JInt z ∧ lo <= z <= hi.
Proof.
  unfold Strategy.integer. destruct v as [| | |w| | | | |]; try done. destruct (_ || _) eqn:E; [done|]. intros [= <-].
  rewrite !orb_false_iff, Z.gtb_ltb, !Z.ltb_ge in E. split; [done|lia].
Qed.

Lemma integer_keeps z name lo hi : lo <= z <= hi → isSafeInteger z = true → Strategy.integer (JInt z) name lo hi = Ok z.
Proof.
  intros Hz Hs. unfold Strategy.integer. rewrite Hs, Z.gtb_ltb, (proj2 (Z.ltb_ge z lo)), (proj2 (Z.ltb_ge hi z)) by lia. done.
Qed.

Lemma percent_inv v s : decimal v true (Some "100") = Ok s → ∃ l, s = dec l ∧ 0 < l <= 100 * ONE.
Proof.
  intros H. apply (decimalInput_inv (JString v) "" _ _ _ hundred_units) in H as (l & -> & Hl & _); [|done]. by exists l.
Qed.

Lemma policyFromRow_wf row p : policyFromRow row = Ok p → ∃ zs, policy_wf p zs.
Proof.
  unfold policyFromRow. intros H. apply bind_Ok in H as (tiers & Ht & H). apply bind_Ok in H as (cur & Hc & H). apply bind_Ok in H as (lock & Hl & H).
  apply bind_Ok in H as (loss & Hlo & H). apply bind_Ok in H as (profit & Hpr & H). injection H as <-.
  apply policy_tiers_inv in Ht as (zs & Hwf). exists zs. pose proof Hwf as (Et & _). assert (length tiers = length zs) as El by by rewrite Et, length_map.
  apply integer_Ok in Hc as [_ Hc]. constructor; cbn; [done|lia| |by eapply percent_inv|by eapply percent_inv].
  intros t Elock. destruct (pr_locked_tier row) as [t'|]; [|injection Hl as <-; done]. apply fmap_Ok in Hl as (t0 & Ht0 & ->). injection Elock as ->.
  apply integer_Ok in Ht0 as [_ ?]. lia.
Qed.

(** Fields a risk update leaves alone: a readable row stays readable. *)
Lemma policyFromRow_update row p zs tier blocked reason now : policyFromRow row = Ok p → tiers_wf (cp_tiers p) zs → 0 <= tier < Z.of_nat (length zs) →
  policyFromRow (with_risk tier blocked reason now row) = Ok (mkPolicy (cp_channelId p) (cp_mode p) (cp_tiers p) tier (cp_lookbackWeeks p)
    (cp_minimumClosedTrades p) (cp_lossThresholdPercent p) (cp_profitThresholdPercent p) (cp_weakChannelAction p) (cp_weakWeeksBeforeBlock p)
    (cp_manuallyBlocked p) blocked (non_empty reason) (cp_lockedTier p) (cp_policyVersion p) (cp_createdAt p) now).
Proof.
  unfold policyFromRow. intros H Hwf Ht. apply bind_Ok in H as (tiers & Hti & H). apply bind_Ok in H as (cur & Hc & H). apply bind_Ok in H as (lock & Hl & H).
  apply bind_Ok in H as (loss & Hlo & H). apply bind_Ok in H as (profit & Hpr & H). injection H as <-.
  cbn [cp_tiers] in Hwf. cbn [with_risk pr_channel_id pr_mode pr_tiers_json pr_current_tier pr_lookback_weeks pr_minimum_closed_trades pr_loss_threshold_percent pr_profit_threshold_percent pr_weak_channel_action pr_weak_weeks_before_block pr_manually_blocked pr_blocked pr_block_reason pr_locked_tier pr_policy_version pr_created_at pr_updated_at].
  pose proof Hwf as (Et & Hlen & _). assert (length tiers = length zs) as El by by rewrite Et, length_map.
  rewrite Hti. cbn [mbind result_bind]. rewrite integer_keeps by (lia || (apply isSafeInteger_true; unfold MAX_SAFE_INTEGER; lia)). cbn [mbind result_bind].
  rewrite Hl. cbn [mbind result_bind]. rewrite Hlo. cbn [mbind result_bind]. rewrite Hpr. reflexivity.
Qed.

(** What [upsertChannelRiskPolicy] stores reads back. *)
Lemma normalized_reads input existing now row : normalizedRiskPolicy input existing now = Ok row → ∃ p, policyFromRow row = Ok p.
Proof.
  unfold normalizedRiskPolicy. intros H. apply bind_Ok in H as (ch & _ & H). apply bind_Ok in H as (mode & _ & H). apply bind_Ok in H as (wk & _ & H).
  apply bind_Ok in H as (tiers & Ht & H). apply bind_Ok in H as (cur & Hc & H). apply bind_Ok in H as (lock & Hl & H). apply bind_Ok in H as (mb & _ & H).
  apply bind_Ok in H as (lb & _ & H). apply bind_Ok in H as (mc & _ & H). apply bind_Ok in H as (loss & Hlo & H). apply bind_Ok in H as (profit & Hpr & H).
  apply bind_Ok in H as (wb & _ & H). injection H as <-. apply policy_tiers_inv in Ht as (zs & Hwf). pose proof Hwf as (Et & Hlen & _).
  assert (length tiers = length zs) as El by by rewrite Et, length_map. unfold policyFromRow.
  cbn [pr_tiers_json pr_current_tier pr_locked_tier pr_loss_threshold_percent pr_profit_threshold_percent]. rewrite (tiers_roundtrip _ _ Hwf). cbn [mbind result_bind].
  assert (0 <= cur <= Z.of_nat (length tiers) - 1) as Hcur by (destruct (in_currentTier input); try (by apply integer_Ok in Hc as [_ ?]); injection Hc as <-; lia).
  rewrite integer_keeps by (lia || (apply isSafeInteger_true; unfold MAX_SAFE_INTEGER; lia)). cbn [mbind result_bind].
  assert (∀ t, lock = Some t → 0 <= t <= Z.of_nat (length tiers) - 1) as Hlock.
  { intros t ->. destruct (in_lockedTier input); try done; apply fmap_Ok in Hl as (t0 & Ht0 & [= ->]); by apply integer_Ok in Ht0 as [_ ?]. }
  assert (match lock with None => Ok None | Some t => Some <$> Strategy.integer (JInt t) "Stored locked risk tier" 0 (Z.of_nat (length tiers) - 1) end = Ok lock) as ->.
  { destruct lock as [t|]; [|done]. specialize (Hlock t eq_refl). rewrite integer_keeps by (lia || (apply isSafeInteger_true; unfold MAX_SAFE_INTEGER; lia)). done. }
  cbn [mbind result_bind]. apply (decimalInput_inv _ _ _ _ _ hundred_units) in Hlo as (l & -> & Hl0 & _); [|done].
  apply (decimalInput_inv _ _ _ _ _ hundred_units) in Hpr as (g & -> & Hg0 & _); [|done].
  rewrite (decimal_bounded l _ (100 * ONE)) by (done || apply hundred_below || apply hundred_units). cbn [mbind result_bind].
  rewrite (decimal_bounded g _ (100 * ONE)) by (done || apply hundred_below || apply hundred_units). eexists. reflexivity.
Qed.

(** ** Recommendations *)
Section Recommend.
Context (policy : ChannelRiskPolicy) (zs : list Z).
Hypothesis Hwf : policy_wf policy zs.

Lemma tiers_length : length (cp_tiers policy) = length zs.
Proof. destruct (pw_tiers _ _ Hwf) as (E & _). by rewrite E, length_map. Qed.

Lemma recommendation_cases closed pnl equity r : recommendation policy closed pnl equity = Ok r →
  0 <= rc_tier r < Z.of_nat (length zs) ∧
  (cp_lockedTier policy = None → Z.abs (rc_tier r - cp_currentTier policy) <= 1 ∧
    (rc_action r = action_increase → cp_currentTier policy <= rc_tier r ∧ rc_uncertain r = false ∧
      channelReturnThreshold pnl equity (cp_profitThresholdPercent policy) false = Ok reached ∧
      channelReturnThreshold pnl equity (cp_lossThresholdPercent policy) true ≠ Ok reached ∧ cp_minimumClosedTrades policy <= closed) ∧
    (rc_action r = action_decrease → rc_tier r <= cp_currentTier policy ∧
      channelReturnThreshold pnl equity (cp_lossThresholdPercent policy) true = Ok reached ∧ cp_minimumClosedTrades policy <= closed) ∧
    (rc_action r = action_hold → rc_tier r = cp_currentTier policy) ∧ rc_action r ≠ action_block).
Proof.
  unfold recommendation. pose proof tiers_length as Hlen. pose proof (pw_current _ _ Hwf) as Hc. pose proof (pw_locked _ _ Hwf) as Hlock.
  destruct (cp_lockedTier policy) as [t|]; [intros [= <-]; split; [by apply Hlock|done]|].
  destruct (Z.ltb_spec closed (cp_minimumClosedTrades policy)) as [_|Hmin]; [intros [= <-]; cbn [rc_tier rc_action rc_uncertain]; split; [lia|]; intros _; split_and!; try done; lia|]. intros H. apply bind_Ok in H as (loss & Hl & H). apply bind_Ok in H as (profit & Hp & H).
  rewrite Hl, Hp. destruct loss, profit; injection H as <-; cbn [rc_tier rc_action rc_uncertain]; rewrite ?Hlen; (split; [lia|]); intros _; split_and!; try done; try lia; intros; split_and!; try done; lia.
Qed.

Lemma suggest_cases evidence db s : suggest policy evidence db = Ok s → cp_lockedTier policy = None →
  ∃ r, recommendation policy (cs_closedTrades (ce_performance (co_source evidence))) (co_pnl evidence) (ca_equity (ce_capital (co_source evidence))) = Ok r ∧
    rc_tier s = rc_tier r ∧ rc_uncertain s = rc_uncertain r ∧
    (rc_action s = if shouldBlockWeakChannel policy (rc_action r) db then action_block else rc_action r).
Proof.
  unfold suggest. intros H _. apply bind_Ok in H as (r & Hr & H). injection H as <-. exists r. split; [done|]. by destruct (shouldBlockWeakChannel _ _ _).
Qed.
End Recommend.

(** ** The tables stay readable *)
Definition db_ok (db : RiskDb) : Prop := ∀ ch row, db_policies db !! ch = Some row → pr_channel_id row = ch ∧ ∃ p, policyFromRow row = Ok p.

Lemma policyFromRow_fields row p : policyFromRow row = Ok p →
  cp_channelId p = pr_channel_id row ∧ cp_mode p = pr_mode row ∧ cp_policyVersion p = pr_policy_version row ∧
  cp_manuallyBlocked p = pr_manually_blocked row ∧ cp_blocked p = pr_blocked row ∧ cp_currentTier p = pr_current_tier row.
Proof.
  unfold policyFromRow. intros H. apply bind_Ok in H as (tiers & _ & H). apply bind_Ok in H as (cur & Hc & H). do 3 (apply bind_Ok in H as (? & _ & H)).
  injection H as <-. apply integer_Ok in Hc as [[= <-] _]. done.
Qed.

(** The row of a policy after a risk update: the policy with the new tier and block. *)
Definition moved (p : ChannelRiskPolicy) (tier : Z) (blocked : bool) (reason : option string) (now : Z) : ChannelRiskPolicy :=
  mkPolicy (cp_channelId p) (cp_mode p) (cp_tiers p) tier (cp_lookbackWeeks p)
    (cp_minimumClosedTrades p) (cp_lossThresholdPercent p) (cp_profitThresholdPercent p) (cp_weakChannelAction p) (cp_weakWeeksBeforeBlock p)
    (cp_manuallyBlocked p) blocked (non_empty reason) (cp_lockedTier p) (cp_policyVersion p) (cp_createdAt p) now.

Lemma update_policy_row db row p zs tier blocked reason now : db_policies db !! cp_channelId p = Some row → policyFromRow row = Ok p → policy_wf p zs →
  0 <= tier < Z.of_nat (length zs) →
  ∃ row', db_policies (update_policy (cp_channelId p) (cp_policyVersion p) (with_risk tier blocked reason now) db) !! cp_channelId p = Some row' ∧
    policyFromRow row' = Ok (moved p tier blocked reason now).
Proof.
  intros Hrow Hp Hwf Ht. pose proof (policyFromRow_fields _ _ Hp) as (_ & _ & Hv & _). exists (with_risk tier blocked reason now row). split.
  - cbn. rewrite lookup_alter_eq, Hrow. cbn. by rewrite Hv, Z.eqb_refl.
  - eapply policyFromRow_update; [exact Hp|exact (pw_tiers _ _ Hwf)|exact Ht].
Qed.

Lemma update_policy_ok db row p zs tier blocked reason now : db_ok db → db_policies db !! cp_channelId p = Some row → policyFromRow row = Ok p →
  policy_wf p zs → 0 <= tier < Z.of_nat (length zs) →
  db_ok (update_policy (cp_channelId p) (cp_policyVersion p) (with_risk tier blocked reason now) db).
Proof.
  intros Hok Hrow Hp Hwf Ht ch row' H. destruct (decide (ch = cp_channelId p)) as [->|Hne].
  - destruct (update_policy_row _ _ _ _ tier blocked reason now Hrow Hp Hwf Ht) as (row2 & H2 & Hp2). rewrite H2 in H. injection H as <-.
    split; [|by eexists]. by apply policyFromRow_fields in Hp2 as [<- _].
  - cbn in H. rewrite lookup_alter_ne in H by done. by apply Hok.
Qed.

(** [invalidateChannelEvaluation] keeps the tier. *)
Lemma keep_tier reason now row version tier : pr_current_tier row = tier → (if pr_policy_version row =? version then with_risk (pr_current_tier row) true reason now row else row)
  = (if pr_policy_version row =? version then with_risk tier true reason now row else row).
Proof. by intros <-. Qed.

Lemma alter_same (f g : ChannelRiskPolicyRow → ChannelRiskPolicyRow) ch (m : gmap string ChannelRiskPolicyRow) row : m !! ch = Some row → f row = g row →
  alter f ch m = alter g ch m.
Proof. intros Hm Hfg. apply map_eq. intros i. destruct (decide (i = ch)) as [->|Hne]; [by rewrite !lookup_alter_eq, Hm; cbn; rewrite Hfg|by rewrite !lookup_alter_ne]. Qed.

Section Runs.
Context (sha256 : string → string) (encode : ChannelEvidence → string).

Section OneRun.
Context (reads : Reads) (p : ChannelRiskPolicy) (zs : list Z) (row : ChannelRiskPolicyRow) (db : RiskDb).
Hypotheses (Hrow : db_policies db !! cp_channelId p = Some row) (Hp : policyFromRow row = Ok p) (Hwf : policy_wf p zs).

(** A successful evaluation: the stored one, proved again, or a new one. *)
Lemma evaluatePolicy_cases request e db' : evaluatePolicy sha256 encode reads p request db = Ok (e, db') →
  (∃ existing, db' = db ∧ assertCachedEvidence sha256 encode reads existing request = Ok tt ∧ ev_reason e = ev_reason existing ∧
     (cp_channelId p, cp_policyVersion p, existing) ∈ db_evaluations db ∧ ev_week_started_at existing = rq_until request - cp_lookbackWeeks p * WEEK_MS) ∨
  (∃ evidence s evaluation, collectChannelEvidence sha256 encode reads request None = Ok evidence ∧ suggest p evidence db = Ok s ∧
     (ev_reason e = shadow_reason (cp_mode p) (rc_reason s) ∧ ∀ existing, (cp_channelId p, cp_policyVersion p, existing) ∈ db_evaluations db →
       ev_week_started_at existing ≠ rq_until request - cp_lookbackWeeks p * WEEK_MS) ∧
     let stop := bool_decide (rc_action s = action_block) || rc_uncertain s in
     let db1 := mkRiskDb (db_policies db) (db_evaluations db ++ [evaluation]) in
     db' = if bool_decide (cp_mode p = mode_automatic)
           then update_policy (cp_channelId p) (cp_policyVersion p)
                  (with_risk (rc_tier s) (stop || cp_blocked p) (if stop then Some (rc_reason s) else cp_blockReason p) (rq_now request)) db1
           else db1).
Proof.
  unfold evaluatePolicy. destruct (list_find _ (db_evaluations db)) as [[i [k existing]]|] eqn:Ef.
  - intros H. left. apply bind_Ok in H as ([] & Ha & H). apply bind_Ok in H as (e' & He & H). injection H as <- <-. exists existing. split; [done|]. split; [done|].
    apply list_find_Some in Ef as (Hi & (E1 & E2 & E3) & _). cbn in E1, E2, E3. destruct k as [k1 k2]. cbn in E1, E2. subst k1 k2.
    split; [|split; [by eapply list_elem_of_lookup_2|done]]. unfold evaluationFromRow in He. do 5 (apply bind_Ok in He as (? & _ & He)). by injection He as <-.
  - intros H. right. cbn [fmap option_fmap option_map] in H. apply bind_Ok in H as (evidence & Hc & H). apply bind_Ok in H as (s & Hs & H). injection H as <- <-.
    exists evidence, s, (cp_channelId p, cp_policyVersion p, evaluationRow (cp_currentTier p) (cp_mode p) (rq_until request - cp_lookbackWeeks p * WEEK_MS)
      (rq_until request) (rq_now request) evidence s (if bool_decide (cp_mode p = mode_automatic) then rc_tier s else cp_currentTier p)).
    split; [done|]. split; [done|]. split; [|cbn zeta; by destruct (bool_decide (cp_mode p = mode_automatic))]. split; [done|].
    intros existing Hin Ew. apply list_find_None in Ef. rewrite Forall_forall in Ef. by apply (Ef _ Hin).
Qed.

Lemma suggest_range evidence s : suggest p evidence db = Ok s → 0 <= rc_tier s < Z.of_nat (length zs).
Proof.
  unfold suggest. intros H. apply bind_Ok in H as (r & Hr & H). injection H as <-. apply (recommendation_cases p zs Hwf) in Hr as [Hr _].
  by destruct (shouldBlockWeakChannel _ _ _).
Qed.

(** What an evaluation leaves in the policy table: the policy, possibly moved. *)
Lemma safely_policy input w db' : evaluateChannelPolicySafely sha256 encode reads p input db = (w, db') →
  db_ok db → db_ok db' ∧ ∃ row' p', db_policies db' !! cp_channelId p = Some row' ∧ policyFromRow row' = Ok p' ∧ cp_tiers p' = cp_tiers p ∧ cp_mode p' = cp_mode p ∧
    cp_lockedTier p' = cp_lockedTier p ∧ cp_manuallyBlocked p' = cp_manuallyBlocked p ∧ 0 <= cp_currentTier p' < Z.of_nat (length zs).
Proof.
  unfold evaluateChannelPolicySafely. set (request := mkRequest _ _ _ _ _ _ _ _). intros H Hok.
  assert (∀ evs, db_ok (mkRiskDb (db_policies db) evs)) as Hevs by (intros evs; exact Hok).
  assert (∃ row' p', db_policies db !! cp_channelId p = Some row' ∧ policyFromRow row' = Ok p' ∧ cp_tiers p' = cp_tiers p ∧ cp_mode p' = cp_mode p ∧
    cp_lockedTier p' = cp_lockedTier p ∧ cp_manuallyBlocked p' = cp_manuallyBlocked p ∧ 0 <= cp_currentTier p' < Z.of_nat (length zs)) as Hsame.
  { exists row, p. split_and!; try done; apply (pw_current _ _ Hwf). }
  destruct (evaluatePolicy sha256 encode reads p request db) as [[e d]|x] eqn:E.
  - injection H as _ <-. apply evaluatePolicy_cases in E as [(existing & -> & _)|(evidence & s & evaluation & _ & Hs & _ & ->)]; [by split|].
    apply suggest_range in Hs. destruct (bool_decide _); [|by split]. split; [by eapply update_policy_ok|].
    destruct (update_policy_row (mkRiskDb (db_policies db) (db_evaluations db ++ [evaluation])) row p zs (rc_tier s)
      (bool_decide (rc_action s = action_block) || rc_uncertain s || cp_blocked p)
      (if bool_decide (rc_action s = action_block) || rc_uncertain s then Some (rc_reason s) else cp_blockReason p) (rq_now request) Hrow Hp Hwf Hs) as (row' & H1 & H2).
    exists row', (moved p (rc_tier s) (bool_decide (rc_action s = action_block) || rc_uncertain s || cp_blocked p)
      (if bool_decide (rc_action s = action_block) || rc_uncertain s then Some (rc_reason s) else cp_blockReason p) (rq_now request)).
    split_and!; try done; apply Hs.
  - unfold invalidateChannelEvaluation in H. injection H as _ <-. destruct (bool_decide _); [|by split].
    pose proof (pw_current _ _ Hwf) as Hc. pose proof (policyFromRow_fields _ _ Hp) as (_ & _ & _ & _ & _ & Hcur).
    set (evs := map _ (db_evaluations db)). set (reason := failureReason x).
    assert (update_policy (cp_channelId p) (cp_policyVersion p) (λ row, with_risk (pr_current_tier row) true (Some reason) (ri_now input) row) (mkRiskDb (db_policies db) evs)
      = update_policy (cp_channelId p) (cp_policyVersion p) (with_risk (cp_currentTier p) true (Some reason) (ri_now input)) (mkRiskDb (db_policies db) evs)) as ->.
    { unfold update_policy. cbn [db_policies]. f_equal. apply (alter_same _ _ _ _ _ Hrow). by rewrite Hcur. }
    split; [by eapply update_policy_ok|].
    destruct (update_policy_row (mkRiskDb (db_policies db) evs) row p zs (cp_currentTier p) true (Some reason) (ri_now input) Hrow Hp Hwf Hc) as (row' & H1 & H2).
    exists row', (moved p (cp_currentTier p) true (Some reason) (ri_now input)). split_and!; try done; apply Hc.
Qed.
End OneRun.

(** The operations of the component, whatever they read and answer. *)
Inductive risk_step : RiskDb → RiskDb → Prop :=
| step_upsert input now db : risk_step db (upsertChannelRiskPolicy input now db).2
| step_delete channelId db found db' : deleteChannelRiskPolicy channelId db = Ok (found, db') → risk_step db db'
| step_resolve reads input db : risk_step db (resolveEffectiveChannelRisk sha256 encode reads input db).2.

Lemma risk_step_ok db db' : risk_step db db' → db_ok db → db_ok db'.
Proof.
  intros Hstep Hok. destruct Hstep as [input now db|channelId db found db' H|reads input db].
  - unfold upsertChannelRiskPolicy. destruct (_ ≫= _) as [row|] eqn:E; [|done]. cbn [snd]. apply bind_Ok in E as (ch & _ & E).
    intros k r. cbn. intros [[<- <-]|[_ Hk]]%lookup_insert_Some; [|by apply Hok]. split; [done|by eapply normalized_reads].
  - unfold deleteChannelRiskPolicy in H. apply bind_Ok in H as (id & _ & H). injection H as _ <-. intros k r. cbn. intros [_ Hk]%lookup_delete_Some. by apply Hok.
  - unfold resolveEffectiveChannelRisk. destruct (identifier _ _) as [ch|]; [|done]. destruct (db_policies db !! ch) as [row|] eqn:Er; [|done].
    destruct (policyFromRow row) as [p|] eqn:Ep; [|done]. destruct (_ || _); [done|]. destruct (_ && _); [|done].
    destruct (evaluateChannelPolicySafely _ _ _ _ _ _) as [w d] eqn:Es. cbn [snd]. destruct (policyFromRow_wf _ _ Ep) as [zs Hwf].
    pose proof (policyFromRow_fields _ _ Ep) as (Hch & _). destruct (Hok _ _ Er) as [Hk _]. assert (cp_channelId p = ch) as Eid by congruence.
    rewrite <-Eid in Er. by destruct (safely_policy reads p zs row db Er Ep Hwf input w d Es Hok) as [? _].
Qed.
End Runs.

(** ** Properties *)

(** C27: channel policies are always well-formed.  Whatever is upserted, deleted
    or resolved, every stored row reads back as a policy whose tiers are one to
    twenty strictly increasing percentages of at most ten, whose current and
    locked tiers exist and whose thresholds are percentages of at most a
    hundred; what an accepted upsert stores is the policy it answers. *)
Theorem channel_policies_wellformed sha256 encode db : rtc (risk_step sha256 encode) (mkRiskDb ∅ []) db →
  (∀ ch row, db_policies db !! ch = Some row → ∃ p zs, policyFromRow row = Ok p ∧ cp_channelId p = ch ∧ policy_wf p zs) ∧
  (∀ input now, let '(r, db') := upsertChannelRiskPolicy input now db in
    match r with
    | Ok p => ∃ row, db_policies db' !! cp_channelId p = Some row ∧ policyFromRow row = Ok p
    | Err _ => db' = db
    end).
Proof.
  intros Hrun. assert (db_ok db) as Hok.
  { assert (db_ok (mkRiskDb ∅ [])) as H0 by done. induction Hrun as [|x y z Hxy _ IH]; [done|]. apply IH. by eapply risk_step_ok. }
  split.
  - intros ch row Hr. destruct (Hok _ _ Hr) as (Hk & p & Hp). destruct (policyFromRow_wf _ _ Hp) as [zs Hwf]. exists p, zs.
    split; [done|]. split; [|done]. by apply policyFromRow_fields in Hp as [-> _].
  - intros input now. unfold upsertChannelRiskPolicy. destruct (_ ≫= _) as [row|e] eqn:E; [|done]. apply bind_Ok in E as (ch & _ & E).
    destruct (normalized_reads _ _ _ _ E) as [p Hp]. rewrite Hp. exists row. split; [|done]. apply policyFromRow_fields in Hp as [-> _]. cbn. apply lookup_insert_eq.
Qed.

Section FailClosed.
Context (sha256 : string → string) (encode : ChannelEvidence → string).

(** The request a resolution evaluates. *)
Definition request_of (p : ChannelRiskPolicy) (input : ResolveInput) : CapitalRequest :=
  mkRequest (ri_channelId input) (ri_accountId input) (ri_reportingCurrency input) (ri_currentEquity input)
    (currentWeekStart (ri_now input) - cp_lookbackWeeks p * WEEK_MS) (currentWeekStart (ri_now input)) (ri_now input) None.

(** An automatic, unlocked and unblocked policy stored for the channel. *)
Definition adaptive (db : RiskDb) (ch : string) (p : ChannelRiskPolicy) : Prop :=
  ∃ row, db_policies db !! ch = Some row ∧ policyFromRow row = Ok p ∧ cp_channelId p = ch ∧
    cp_mode p = mode_automatic ∧ cp_lockedTier p = None ∧ cp_blocked p = false ∧ cp_manuallyBlocked p = false.

Lemma resolve_adaptive reads input db ch p : identifier (JString (ri_channelId input)) "Channel identifier" = Ok ch → adaptive db ch p →
  resolveEffectiveChannelRisk sha256 encode reads input db =
  let '(warning, db') := evaluateChannelPolicySafely sha256 encode reads p input db in
  (match db_policies db' !! ch with
   | None => throw "Cannot read properties of undefined."
   | Some row' => policy' ← policyFromRow row'; resolved_risk policy' (ri_riskPerTradePercent input) warning
   end, db').
Proof.
  intros Hid (row & Hr & Hp & Hc & Hm & Hl & Hb & Hmb). unfold resolveEffectiveChannelRisk. rewrite Hid, Hr, Hp, Hb, Hmb, Hm, Hl, Hc. reflexivity.
Qed.

Lemma resolved_moved p tier blocked reason now baseline warning : cp_mode p = mode_automatic → cp_lockedTier p = None → cp_manuallyBlocked p = false →
  resolved_risk (moved p tier blocked reason now) baseline warning =
  if blocked then blocked_risk (moved p tier blocked reason now)
  else r ← requiredRiskTier (cp_tiers p) tier; Ok (mkEffective r false (default ("Channel policy automatic tier " +:+ show tier +:+ ".") warning) (Some (moved p tier blocked reason now))).
Proof. intros Hm Hl Hb. unfold resolved_risk. cbn. rewrite Hm, Hl, Hb, orb_false_r. by destruct blocked. Qed.

Lemma requiredRiskTier_Ok tiers i t : requiredRiskTier tiers i = Ok t ↔ 0 <= i ∧ tiers !! Z.to_nat i = Some t.
Proof.
  unfold requiredRiskTier. destruct (Z.ltb_spec i 0); [split; [done|lia]|].
  destruct (tiers !! Z.to_nat i) as [x|]; split; [intros [= ->]|intros [_ [= ->]]|done|intros [_ ?]]; done.
Qed.

Lemma requiredRiskTier_exists p zs i : policy_wf p zs → 0 <= i < Z.of_nat (length zs) → ∃ t, requiredRiskTier (cp_tiers p) i = Ok t.
Proof.
  intros Hwf Hi. destruct (lookup_lt_is_Some_2 (cp_tiers p) (Z.to_nat i)) as [t Ht]; [rewrite (tiers_length p zs Hwf); lia|].
  exists t. apply requiredRiskTier_Ok. split; [lia|done].
Qed.

(** A failed evaluation blocks the stored policy and the answer. *)
Lemma failed_evaluation reads input db ch p x : identifier (JString (ri_channelId input)) "Channel identifier" = Ok ch → adaptive db ch p →
  evaluatePolicy sha256 encode reads p (request_of p input) db = Err x →
  ∃ tier row, (resolveEffectiveChannelRisk sha256 encode reads input db).1 = Ok (mkEffective tier true (failureReason x)
      (Some (moved p (cp_currentTier p) true (Some (failureReason x)) (ri_now input)))) ∧
    db_policies (resolveEffectiveChannelRisk sha256 encode reads input db).2 !! ch = Some row ∧
    policyFromRow row = Ok (moved p (cp_currentTier p) true (Some (failureReason x)) (ri_now input)).
Proof.
  intros Hid Ha Hev. rewrite (resolve_adaptive _ _ _ _ _ Hid Ha). destruct Ha as (row & Hr & Hp & Hc & Hm & Hl & Hb & Hmb). subst ch.
  unfold evaluateChannelPolicySafely. fold (request_of p input). rewrite Hev. unfold invalidateChannelEvaluation. rewrite Hm. cbn [bool_decide shadow_reason].
  change (bool_decide (mode_automatic = mode_automatic)) with true. cbv iota. cbn [rq_now request_of].
  destruct (policyFromRow_wf _ _ Hp) as [zs Hwf]. pose proof (pw_current _ _ Hwf) as Hcur. pose proof (policyFromRow_fields _ _ Hp) as (_ & _ & _ & _ & _ & Hcr).
  set (evs := map _ (db_evaluations db)). set (reason := failureReason x).
  assert (update_policy (cp_channelId p) (cp_policyVersion p) (λ row, with_risk (pr_current_tier row) true (Some reason) (ri_now input) row) (mkRiskDb (db_policies db) evs)
    = update_policy (cp_channelId p) (cp_policyVersion p) (with_risk (cp_currentTier p) true (Some reason) (ri_now input)) (mkRiskDb (db_policies db) evs)) as ->.
  { unfold update_policy. cbn [db_policies]. f_equal. apply (alter_same _ _ _ _ _ Hr). by rewrite Hcr. }
  destruct (update_policy_row (mkRiskDb (db_policies db) evs) row p zs (cp_currentTier p) true (Some reason) (ri_now input) Hr Hp Hwf Hcur) as (row' & H1 & H2).
  destruct (requiredRiskTier_exists p zs (cp_currentTier p) Hwf Hcur) as [t Ht]. exists t, row'. split; [|by split].
  cbn [fst snd]. rewrite H1, H2. cbn [mbind result_bind]. rewrite resolved_moved by done. unfold blocked_risk. cbn [cp_tiers moved cp_currentTier cp_blockReason].
  rewrite Ht. cbn [mbind result_bind]. assert (non_empty (Some reason) = Some reason) as ->; [|done].
  unfold non_empty. rewrite bool_decide_false; [done|]. unfold reason, failureReason. destruct (String.prefix UNRESOLVED (message x)) eqn:Epre; [|done].
  intros E. destruct (message x) as [|c s] eqn:Em; [discriminate Epre|]. discriminate E.
Qed.

(** A blocked policy stays as it is. *)
Lemma resolve_blocked reads input db ch row p : identifier (JString (ri_channelId input)) "Channel identifier" = Ok ch →
  db_policies db !! ch = Some row → policyFromRow row = Ok p → cp_blocked p = true →
  resolveEffectiveChannelRisk sha256 encode reads input db = (blocked_risk p, db).
Proof. intros Hid Hr Hp Hb. unfold resolveEffectiveChannelRisk. by rewrite Hid, Hr, Hp, Hb. Qed.
End FailClosed.

(** Unproved history closes the channel.  When the evaluation of an adaptive
    policy fails, for whatever reason (unvalued or mixed-currency trades, an
    ambiguous account, changed or unproved stored evidence, an exceeded budget),
    the resolution answers blocked with the reason, and so does every later one,
    whatever can be read by then and at whatever time, without any further
    change: only an explicit new policy reopens it. *)
Theorem unresolved_history_blocks sha256 encode reads input db ch p x : identifier (JString (ri_channelId input)) "Channel identifier" = Ok ch →
  adaptive db ch p → evaluatePolicy sha256 encode reads p (request_of p input) db = Err x →
  ∃ answer db', resolveEffectiveChannelRisk sha256 encode reads input db = (Ok answer, db') ∧ ef_blocked answer = true ∧ ef_reason answer = failureReason x ∧
    ∀ reads2 input2, identifier (JString (ri_channelId input2)) "Channel identifier" = Ok ch →
      resolveEffectiveChannelRisk sha256 encode reads2 input2 db' = (Ok answer, db').
Proof.
  intros Hid Ha Hev. destruct (failed_evaluation sha256 encode reads input db ch p x Hid Ha Hev) as (t & row & H1 & H2 & H3).
  destruct (resolveEffectiveChannelRisk sha256 encode reads input db) as [r db'] eqn:E. cbn [fst snd] in H1, H2. subst r.
  eexists _, db'. split; [reflexivity|]. split; [done|]. split; [done|]. intros reads2 input2 Hid2.
  rewrite (resolve_blocked _ _ _ _ _ _ _ _ Hid2 H2 H3) by done. f_equal.
  rewrite (resolve_adaptive sha256 encode reads input db ch p Hid Ha) in E.
  destruct (evaluateChannelPolicySafely sha256 encode reads p input db) as [w d]. injection E as E ->. rewrite H2, H3 in E. cbn [mbind result_bind] in E.
  destruct Ha as (_ & _ & _ & _ & Hm & Hl & _ & Hmb). rewrite resolved_moved in E by done. exact E.
Qed.

(** ** Complete evidence *)

(** The source kept of a closed position: it is fully accounted, its valuation is
    read again from the money of its intent, in the same currency, and is the
    one stored. *)
Record proved_position (reads : Reads) (row : ClosedPositionRow) (source : PositionSource) : Prop := mkProvedPosition {
  pv_identity : so_id source = cl_id row ∧ so_intentId source = cl_intent_id row ∧ so_accountId source = cl_account_id row ∧ so_closedAt source = cl_closed_at row;
  pv_complete : cl_accounting_status row = "complete" ∧ cl_evidence_hash row = Some (so_projectionHash source);
  pv_valued : ∃ totals total, rd_totals reads (cl_intent_id row) = Ok (totals, so_valuationHash source) ∧ it_value totals = Some total ∧
    it_currency totals = cl_reporting_currency row ∧
    match cl_ledger_realized_value row with
    | Some stored => validateMoneyValue stored = Ok total
    | None => cl_ledger_realized_pnl row = it_amount totals
    end }.

(** Evidence that accounts for every closed trade of the window: each is valued,
    all in the currency of the capital, and the profit admits the sum of all
    amounts they admit; every position is proved and belongs to the one account
    the capital is bound to; nothing was left out for size. *)
Record evidence_complete (sha256 : string → string) (encode : ChannelEvidence → string) (reads : Reads) (request : CapitalRequest) (e : Collected) : Prop :=
    mkEvidenceComplete {
  ec_trades : let rows := rd_closedRows reads (rq_channelId request) (rq_performanceAccountId request) (rq_since request) (rq_until request) in
    ∃ valued c, Forall2 (λ r v, valuedRow r = Some v) rows valued ∧ Forall (λ v, vr_currency v = c) valued ∧
      cs_closedTrades (ce_performance (co_source e)) = Z.of_nat (length rows) ∧
      (rows ≠ [] → cb_reportingCurrency (ca_binding (ce_capital (co_source e))) = c) ∧
      ∀ l, map fst l = valued → possible_amounts l → contains (co_pnl e) (sumQ (map snd l));
  ec_positions : let rows := rd_positions reads (rq_channelId request) (rq_performanceAccountId request) (rq_since request) (rq_until request) in
    (length rows <= 1000)%nat ∧ Forall2 (proved_position reads) rows (ce_positions (co_source e));
  ec_account : let binding := ca_binding (ce_capital (co_source e)) in
    (∀ source, source ∈ ce_positions (co_source e) → so_accountId source = cb_accountId binding) ∧
    (∀ a, non_empty (rq_accountId request) = Some a → a = cb_accountId binding) ∧
    ∃ account, rd_account reads (cb_accountId binding) = Some account ∧ cb_reportingCurrency binding = cx_reporting_currency account ∧
      (∀ c, non_empty (rq_reportingCurrency request) = Some c → c = cx_reporting_currency account);
  ec_scope : ce_channelId (co_source e) = rq_channelId request ∧ ce_since (co_source e) = rq_since request ∧ ce_until (co_source e) = rq_until request;
  ec_hash : co_hash e = sha256 (encode (co_source e)) ∧ Z.of_nat (length (chars (encode (co_source e)))) < 262144 }.

Lemma positionSource_proved reads row source : positionSource reads row = Ok source → proved_position reads row source.
Proof.
  unfold positionSource. intros H. apply bind_Ok in H as ([totals vh] & Ht & H). destruct (cl_evidence_hash row) as [h|] eqn:Eh; [|done].
  unfold non_empty in H. destruct (bool_decide (h = "")) eqn:Ene; [done|]. destruct (it_value totals) as [total|] eqn:Ev; [|done].
  destruct (_ || _) eqn:E; [done|]. rewrite orb_false_iff, !negb_false_iff, !bool_decide_eq_true in E. destruct E as [Es Ec].
  apply bind_Ok in H as (changed & Hch & H). destruct changed; [done|]. injection H as <-. constructor; cbn; [done|done|].
  exists totals, total. split_and!; try done. destruct (cl_ledger_realized_value row) as [stored|].
  - apply bind_Ok in Hch as (v & Hv & Hch). injection Hch as Hch. apply negb_false_iff, bool_decide_eq_true in Hch as ->. done.
  - injection Hch as Hch. by apply negb_false_iff, bool_decide_eq_true in Hch.
Qed.

Lemma capitalAccount_inv reads request positions binding : capitalAccount reads request positions = Ok binding →
  (∀ source, source ∈ positions → so_accountId source = cb_accountId binding) ∧
  (∀ a, non_empty (rq_accountId request) = Some a → a = cb_accountId binding) ∧
  ∃ account, rd_account reads (cb_accountId binding) = Some account ∧ cb_reportingCurrency binding = cx_reporting_currency account ∧
    (∀ c, non_empty (rq_reportingCurrency request) = Some c → c = cx_reporting_currency account).
Proof.
  unfold capitalAccount. set (named := remove_dups _). intros H.
  assert (∀ x, x ∈ map so_accountId positions ∨ non_empty (rq_accountId request) = Some x → x ∈ named) as Hnamed.
  { intros x Hx. unfold named. apply elem_of_remove_dups, elem_of_app. destruct Hx as [|Hx]; [by left|right]. rewrite Hx. by left. }
  set (ids := if (length named =? 0)%nat then _ else named) in H.
  assert (∀ x, x ∈ named → x ∈ ids) as Hids by (intros x Hx; unfold ids; by destruct named; [apply not_elem_of_nil in Hx|]).
  destruct ids as [|accountId [|]]; try done. destruct (rd_account reads accountId) as [row|] eqn:Er; [|done].
  destruct (match non_empty (rq_reportingCurrency request) with Some c => _ | None => _ end) eqn:Eu; [done|].
  destruct (non_empty _) as [fp|] in H; [|done]. injection H as <-. cbn [cb_accountId cb_reportingCurrency].
  assert (∀ x, x ∈ named → x = accountId) as Hall by (intros x Hx%Hids; by apply list_elem_of_singleton in Hx).
  split_and!.
  - intros source Hs. apply Hall, Hnamed. left. by apply list_elem_of_fmap_2.
  - intros a Ha. apply Hall, Hnamed. by right.
  - exists row. split_and!; try done. intros c Hc. rewrite Hc in Eu. by apply negb_false_iff, bool_decide_eq_true in Eu.
Qed.

Lemma capitalEvidence_binding reads request positions pinned capital : capitalEvidence reads request positions pinned = Ok capital →
  capitalAccount reads request positions = Ok (ca_binding capital).
Proof.
  unfold capitalEvidence. intros H. apply bind_Ok in H as (binding & Hb & H). rewrite Hb.
  assert (∀ c, currentCapital reads request binding = Ok c → ca_binding c = binding) as Hcur.
  { intros c Hc. unfold currentCapital in Hc. destruct (if _ && _ then _ else _) as [[[id eq] at_]|]; apply bind_Ok in Hc as (? & _ & Hc); by injection Hc as <-. }
  destruct pinned as [p|]; [destruct (bool_decide _)|]; [apply bind_Ok in H as (? & _ & H); by injection H as <-|by rewrite (Hcur _ H)|by rewrite (Hcur _ H)].
Qed.

Lemma valued_currency row v : valuedRow row = Some v → vr_currency v ≠ "".
Proof.
  unfold valuedRow. destruct (cr_reportingCurrency row) as [c|]; [|done]. destruct (_ || _) eqn:E; [done|]. apply orb_false_iff in E as [_ E%bool_decide_eq_false].
  intros H. repeat case_match; simplify_eq; done.
Qed.

Lemma valued_rows_currency rows valued c : Forall2 (λ r v, valuedRow r = Some v) rows valued → Forall (λ v, vr_currency v = c) valued → rows ≠ [] → c ≠ "".
Proof.
  intros [|r v rs vs Hrv _] Hc Hne; [by destruct Hne|]. apply Forall_cons in Hc as [<- _]. by eapply valued_currency.
Qed.

Lemma collected_complete sha256 encode reads request pinned e : collectChannelEvidence sha256 encode reads request pinned = Ok e →
  evidence_complete sha256 encode reads request e.
Proof.
  unfold collectChannelEvidence. set (rows := rd_closedRows _ _ _ _ _). intros H. apply bind_Ok in H as (performance & Hperf & H).
  destruct (su_realizedPnlValue (cs_summary performance)) as [pnl|] eqn:Epnl; [|done]. destruct (su_complete (cs_summary performance)) eqn:Ecomp; [|done]. cbn [negb] in H.
  apply bind_Ok in H as (positions & Hpos & H). apply bind_Ok in H as (capital & Hcap & H). destruct (match su_reportingCurrency _ with Some c => _ | None => _ end) eqn:Ecur; [done|].
  apply bind_Ok in H as (percent & _ & H). set (source := mkEvidence _ _ _ _ _ _ _ _) in H. destruct (Z.leb_spec 262144 (Z.of_nat (length (chars (encode source))))) as [|Hlen]; [done|].
  injection H as <-. destruct (closed_statistics_sound _ _ Hperf Ecomp) as (valued & c & pnl' & Hv & Hc & _ & Epnl' & Ec & Hn & Hsum).
  rewrite Epnl in Epnl'. injection Epnl' as <-. constructor; cbn [co_source co_pnl co_hash].
  - exists valued, c. fold rows. split_and!; try done; [|by intros l Hl Hp; apply Hsum].
    intros Hne. pose proof (valued_rows_currency _ _ _ Hv Hc Hne) as Hnc.
    cbn [ce_capital source]. destruct (su_reportingCurrency (cs_summary performance)) as [c'|]; [|cbn in Ec; congruence]. cbn in Ec. subst c'.
    by apply negb_false_iff, bool_decide_eq_true in Ecur.
  - unfold performanceSources in Hpos. destruct (Nat.ltb_spec 1000 (length (rd_positions reads (rq_channelId request) (rq_performanceAccountId request) (rq_since request) (rq_until request)))) as [|Hle]; [done|].
    split; [exact Hle|]. apply mapM_Ok in Hpos. eapply Forall2_impl; [exact Hpos|]. apply positionSource_proved.
  - by apply capitalEvidence_binding, capitalAccount_inv in Hcap.
  - done.
  - done.
Qed.

(** The stored evaluation of a week, proved again from its sources. *)
Record cache_proved (sha256 : string → string) (encode : ChannelEvidence → string) (reads : Reads) (request : CapitalRequest) (row : RiskEvaluationRow) : Prop :=
    mkCacheProved {
  cc_valid : ev_invalidated_at row = None;
  cc_again : ∃ original current, ev_source row = Some original ∧ ev_source_hash row = Some (sha256 (encode original)) ∧
    evidence_complete sha256 encode reads request current ∧ sha256 (encode (co_source current)) = sha256 (encode original) ∧
    ev_starting_equity row = ca_equity (ce_capital (co_source current)) ∧
    ev_reporting_currency row = Some (cb_reportingCurrency (ca_binding (ce_capital (co_source current)))) ∧
    storedMoneyValue (ev_realized_pnl_value row) (ev_realized_pnl row) = Ok (Some (co_pnl current)) }.

Lemma cached_proved sha256 encode reads row request : assertCachedEvidence sha256 encode reads row request = Ok tt → cache_proved sha256 encode reads request row.
Proof.
  unfold assertCachedEvidence. intros H. destruct (ev_invalidated_at row) eqn:Ei; [done|]. destruct (ev_source row) as [original|] eqn:Es; [|done].
  destruct (ev_source_hash row) as [stored|] eqn:Eh; [|done]. unfold non_empty in H. destruct (bool_decide (stored = "")); [done|].
  destruct (_ || _) eqn:E; [done|]. apply orb_false_iff in E as [_ E%negb_false_iff%bool_decide_eq_true].
  apply bind_Ok in H as (current & Hc & H). apply collected_complete in Hc as Hcomp. case_bool_decide as E2; [|done]. cbn [negb] in H.
  unfold assertOriginalEvaluationAmounts in H. destruct (_ || _) eqn:E3 in H; [done|]. rewrite !orb_false_iff, !negb_false_iff, !bool_decide_eq_true in E3.
  destruct E3 as [[[A1 A2] _] _]. apply bind_Ok in H as (pnl & Hpnl & H). case_bool_decide as E4; [|done]. subst pnl.
  constructor; [done|]. exists original, current. rewrite E. destruct (ec_hash _ _ _ _ _ Hcomp) as [Hh _]. split_and!; try done. by rewrite <-Hh, E2, <-E.
Qed.

(** C22: an adaptive channel trades only on proved performance.  When the
    resolution of an adaptive policy is not blocked, either the evaluation stored
    for this channel, policy version and week is not invalidated and was proved
    again from complete evidence with the same digest and amounts, nothing
    changed and the answer is the current tier's; or none is stored and
    complete evidence collected anew decides: the answered percentage is that
    of a tier at most one step away, another one only with the minimum number of
    closed trades, one step up only if every profit the evidence admits reaches
    the profit threshold of the capital, one step down only if every one
    reaches the loss threshold. *)
Theorem adaptive_risk_proved sha256 encode reads input db db' ch p answer : identifier (JString (ri_channelId input)) "Channel identifier" = Ok ch →
  adaptive db ch p → resolveEffectiveChannelRisk sha256 encode reads input db = (Ok answer, db') → ef_blocked answer = false →
  (∃ existing, db' = db ∧ (ch, cp_policyVersion p, existing) ∈ db_evaluations db ∧ ev_week_started_at existing = rq_since (request_of p input) ∧
     cache_proved sha256 encode reads (request_of p input) existing ∧
     requiredRiskTier (cp_tiers p) (cp_currentTier p) = Ok (ef_riskPercent answer)) ∨
  (∃ evidence tier, (∀ existing, (ch, cp_policyVersion p, existing) ∈ db_evaluations db → ev_week_started_at existing ≠ rq_since (request_of p input)) ∧
     evidence_complete sha256 encode reads (request_of p input) evidence ∧
     requiredRiskTier (cp_tiers p) tier = Ok (ef_riskPercent answer) ∧ Z.abs (tier - cp_currentTier p) <= 1 ∧
     (tier ≠ cp_currentTier p → cp_minimumClosedTrades p <= cs_closedTrades (ce_performance (co_source evidence))) ∧
     ∀ q a, contains (co_pnl evidence) q → units (trim (ca_equity (ce_capital (co_source evidence)))) = Some a →
       (∀ t, cp_currentTier p < tier → units (trim (cp_profitThresholdPercent p)) = Some t → (qdec a * qdec t / 100 <= q)%Q) ∧
       (∀ t, tier < cp_currentTier p → units (trim (cp_lossThresholdPercent p)) = Some t → (q <= - (qdec a * qdec t / 100))%Q)).
Proof.
  intros Hid Ha H Hblk. rewrite (resolve_adaptive _ _ _ _ _ _ _ Hid Ha) in H. destruct Ha as (row & Hr & Hp & Hc & Hm & Hl & Hb & Hmb). subst ch.
  destruct (policyFromRow_wf _ _ Hp) as [zs Hwf]. unfold evaluateChannelPolicySafely in H. fold (request_of p input) in H.
  destruct (evaluatePolicy sha256 encode reads p (request_of p input) db) as [[e d]|x] eqn:Ev; cycle 1.
  { exfalso. destruct (failed_evaluation sha256 encode reads input db _ p x Hid) as (t & r & H1 & _); [by exists row|exact Ev|].
    rewrite (resolve_adaptive sha256 encode reads input db _ p Hid) in H1 by by exists row.
    unfold evaluateChannelPolicySafely in H1. fold (request_of p input) in H1. rewrite Ev in H1.
    destruct (invalidateChannelEvaluation p (request_of p input) x db) as [w d] in H, H1. cbn [fst] in H1. injection H as H _. rewrite H in H1. injection H1 as ->. done. }
  injection H as H <-. apply evaluatePolicy_cases in Ev as [(existing & -> & Hcache & _ & Hin & Hweek)|(evidence & s & evaluation & Hcol & Hs & (_ & Hnone) & ->)].
  - left. exists existing. split; [done|]. split; [done|]. split; [done|]. split; [by apply cached_proved|]. rewrite Hr, Hp in H. cbn [mbind result_bind] in H. unfold resolved_risk in H. rewrite Hb, Hmb, Hm, Hl in H.
    cbn [orb default from_option] in H. by apply bind_Ok in H as (r & Hreq & [= <-]).
  - right. exists evidence, (rc_tier s). split; [done|]. split; [by eapply collected_complete|]. pose proof (suggest_range p zs db Hwf evidence s Hs) as Hrange.
    rewrite Hm in H. change (bool_decide (mode_automatic = mode_automatic)) with true in H. cbv iota zeta in H.
    destruct (update_policy_row (mkRiskDb (db_policies db) (db_evaluations db ++ [evaluation])) row p zs (rc_tier s)
      (bool_decide (rc_action s = action_block) || rc_uncertain s || cp_blocked p)
      (if bool_decide (rc_action s = action_block) || rc_uncertain s then Some (rc_reason s) else cp_blockReason p) (rq_now (request_of p input)) Hr Hp Hwf Hrange)
      as (row' & H1 & H2). rewrite H1, H2 in H. cbn [mbind result_bind] in H. rewrite resolved_moved in H by done.
    destruct (bool_decide (rc_action s = action_block) || rc_uncertain s || cp_blocked p) eqn:Estop.
    { apply bind_Ok in H as (r & _ & [= <-]). done. }
    apply bind_Ok in H as (r & Hreq & [= <-]). split; [exact Hreq|]. rewrite Hb, orb_false_r, orb_false_iff, bool_decide_eq_false in Estop.
    destruct (suggest_cases p evidence db s Hs Hl) as (rc & Hrec & Et & Eu & Eact). destruct (recommendation_cases p zs Hwf _ _ _ _ Hrec) as [_ Hcases].
    destruct (Hcases Hl) as (Habs & Hinc & Hdec & Hhold & Hnb). rewrite Et. split; [done|]. rewrite Eact in Estop.
    destruct (shouldBlockWeakChannel _ _ _); [by destruct Estop|]. split.
    { intros Hne. destruct (rc_action rc) eqn:Eac; [by destruct (Hne (Hhold eq_refl))|by destruct (Hinc eq_refl) as (_ & _ & _ & _ & Hmin)|by destruct (Hdec eq_refl) as (_ & _ & Hmin)|done]. }
    intros q a Hq Hua. split; intros t Hlt Hut.
    + destruct (rc_action rc) eqn:Eac; [specialize (Hhold eq_refl); lia| |destruct (Hdec eq_refl); lia|done]. destruct (Hinc eq_refl) as (_ & _ & Hth & _).
      pose proof (channelReturnThreshold_parts _ _ _ _ _ _ _ _ Hth Hq Hua Hut) as [Hres _]. by apply Hres.
    + destruct (rc_action rc) eqn:Eac; [specialize (Hhold eq_refl); lia| |destruct (Hdec eq_refl) as (_ & Hth & _)|done].
      * destruct (Hinc eq_refl); lia.
      * pose proof (channelReturnThreshold_parts _ _ _ _ _ _ _ _ Hth Hq Hua Hut) as [Hres _]. by apply Hres.
Qed.

(** ** An example channel: one closed trade of 100 on a capital of 1000 *)
Definition risk_input : ChannelRiskPolicyInput :=
  mkPolicyInput (JString "c1") (JString "automatic") (tiersJson ["0.5"; "1"; "2"]) (JInt 1) (JInt 1) (JInt 1) (JInt 5) (JString "5.0")
    (JString "block") (JInt 2) JUndefined JUndefined.
Definition risk_upserted : result ChannelRiskPolicy * RiskDb := upsertChannelRiskPolicy risk_input 1000 (mkRiskDb ∅ []).
Definition risk_policy : ChannelRiskPolicy :=
  mkPolicy "c1" mode_automatic ["0.5"; "1"; "2"] 1 1 1 "5" "5" weak_block 2 false false None None 1 1000 1000.
Definition hundred : MoneyValue := mkMoney "100" "100" (Some (mkRational "100" "1")) (Some "100") exact_decimal 1.
Definition risk_reads (status : string) : Reads :=
  mkReads (λ _ _ _ _, [mkClosedRow (Some "100") (Some "USDT") status value_absent])
    (λ _ _ _ _, [mkClosedPosition "p1" "i1" "a" 5 (Some "USDT") status (Some "100") None (Some "h")])
    (λ _, v ← moneyValueFromDecimal "100"; Ok (mkTotals (Some "100") (Some "USDT") 1 (Some v), "vh"))
    (λ _, []) (λ _, Some (mkCapitalAccount "paper" None None "USDT")) (λ _ _ _, None).
Definition risk_resolve : ResolveInput := mkResolve "c1" "1000" None None 900000000 "0.25".
Definition one_text (_ : ChannelEvidence) : string := "e".

Lemma risk_adaptive : adaptive risk_upserted.2 "c1" risk_policy.
Proof.
  destruct (db_policies risk_upserted.2 !! "c1") as [row|] eqn:E; [|vm_compute in E; discriminate E].
  exists row. split; [exact E|]. split; [vm_compute in E; injection E as <-; vm_compute; reflexivity|]. repeat split; reflexivity.
Qed.

Lemma channel_policies_wellformed_witness : risk_upserted.1 = Ok risk_policy ∧
  ∃ row zs, db_policies risk_upserted.2 !! "c1" = Some row ∧ policy_wf risk_policy zs.
Proof.
  split; [vm_compute; reflexivity|].
  destruct (db_policies risk_upserted.2 !! "c1") as [row|] eqn:E; [|vm_compute in E; discriminate E].
  assert (policyFromRow row = Ok risk_policy) as Hr by (vm_compute in E; injection E as <-; vm_compute; reflexivity).
  pose proof (rtc_once _ _ (step_upsert plain one_text risk_input 1000 (mkRiskDb ∅ []))) as Hrun. fold risk_upserted in Hrun.
  destruct (proj1 (channel_policies_wellformed plain one_text risk_upserted.2 Hrun) "c1" row E) as (p & zs & Hp & _ & Hwf).
  rewrite Hr in Hp. injection Hp as <-. exists row, zs. split; [reflexivity|exact Hwf].
Defined.

Definition risk_failure : error := mkError "" "Adaptive risk is unresolved: closed history is incomplete or mixes reporting currencies.".

Definition answered_risk (r : result EffectiveRisk) : string * bool := match r with Ok a => (ef_riskPercent a, ef_blocked a) | Err _ => ("", true) end.

Lemma adaptive_risk_proved_witness : ∃ evidence tier, evidence_complete plain one_text (risk_reads "complete") (request_of risk_policy risk_resolve) evidence ∧
  requiredRiskTier (cp_tiers risk_policy) tier = Ok "2" ∧ Z.abs (tier - 1) <= 1.
Proof.
  assert (answered_risk (resolveEffectiveChannelRisk plain one_text (risk_reads "complete") risk_resolve risk_upserted.2).1 = ("2", false)) as Hv by (vm_compute; reflexivity).
  assert (db_evaluations risk_upserted.2 = []) as He by (vm_compute; reflexivity).
  destruct (resolveEffectiveChannelRisk plain one_text (risk_reads "complete") risk_resolve risk_upserted.2) as [[answer|x] db'] eqn:E; [|discriminate Hv].
  cbn [fst answered_risk] in Hv. injection Hv as Hrisk Hblk.
  destruct (adaptive_risk_proved plain one_text (risk_reads "complete") risk_resolve risk_upserted.2 db' "c1" risk_policy answer
    ltac:(vm_compute; reflexivity) risk_adaptive E Hblk) as [(existing & -> & _ & _ & _ & Hreq)|(evidence & tier & _ & H1 & H2 & H3 & _)].
  - exfalso. rewrite Hrisk in Hreq. revert Hreq. vm_compute. discriminate.
  - exists evidence, tier. rewrite Hrisk in H2. split; [exact H1|]. split; [exact H2|exact H3].
Defined.

(** A workflow path never exceeds its strategy.  Whatever is stored and read,
    a resolution that does not block answers a percentage that is at most the
    strategy's adaptive maximum (its baseline when it has none), taken from the
    policy's tiers in automatic mode and from the baseline otherwise; a
    manually blocked path is always blocked. *)
Theorem workflow_risk_capped sha256 encode configText reads input db risk db' :
  resolveWorkflowAdaptiveRisk sha256 encode configText reads input db = (Ok risk, db') →
  (wc_manuallyBlocked (wi_configuration input) = true → wr_blocked risk = true) ∧
  (wr_blocked risk = false → ∃ maximum r m source, wr_riskPercent risk = r ∧
     maximum = default (wi_riskPerTradePercent input) (non_empty (wi_maxAdaptiveRiskPercent input)) ∧
     units r = Some (Z.min source m) ∧ units maximum = Some m ∧
     if decide (wc_mode (wi_configuration input) = mode_automatic)
     then ∃ t, t ∈ wc_tiers (wi_configuration input) ∧ units t = Some source
     else units (wi_riskPerTradePercent input) = Some source).
Proof.
  intros H. assert (∃ state warning, resolvedWorkflowRisk input state warning = Ok risk) as (state & warning & Hr).
  { unfold resolveWorkflowAdaptiveRisk in H. destruct (wd_resources db !! _) as [resourceId|]; [|done].
    destruct (loadWorkflowRiskState _ _ _ _ db) as [initial db1]. destruct (_ && _); [injection H as H _; eauto|].
    destruct (evaluateWorkflowRiskState _ _ _ _ _ _ _ _) as [[[state warning] d]|e]; [injection H as H _; eauto|].
    destruct (invalidateWorkflowEvaluation _ _ _ _ e _) as [[state warning] d]. injection H as H _. eauto. }
  clear H. unfold resolvedWorkflowRisk in Hr. destruct (wc_manuallyBlocked (wi_configuration input) || ws_blocked state) eqn:Eb.
  { injection Hr as <-. split; [done|]. intros Hf. discriminate Hf. }
  apply orb_false_iff in Eb as [Em _]. rewrite Em. split; [intros Hf; discriminate Hf|]. intros _.
  apply bind_Ok in Hr as (tierRisk & Ht & H). apply bind_Ok in H as (c & Hc & H). injection H as <-. cbn [wr_riskPercent].
  apply compareDecimal_inv in Hc as (a & m & Ha & Hm & ->). destruct (cmpZ_spec a m) as (_ & E & _). rewrite E.
  eexists _, _, m, a. split; [reflexivity|]. split; [reflexivity|]. split; [|split; [exact Hm|]].
  - destruct (Z.ltb_spec m a); [rewrite Z.min_r by lia; exact Hm|rewrite Z.min_l by lia; exact Ha].
  - destruct (decide _) as [Ea|Ea].
    + rewrite Ea in Ht. apply requiredRiskTier_Ok in Ht as [_ Ht]. exists tierRisk. split; [by eapply list_elem_of_lookup_2|exact Ha].
    + destruct (wc_mode (wi_configuration input)); try done; injection Ht as ->; exact Ha.
Qed.

Definition workflow_input : WorkflowAdaptiveRiskInput :=
  mkWorkflowInput "c1" "a" "v1" (mkConfiguration true mode_automatic ["0.5"; "1"; "2"] 1 None 1 1 "5" "5" weak_block 2 false) "0.25" (Some "1.5") "1000" None 900000000.
Definition workflow_tables : WorkflowDb := mkWorkflowDb {[ "v1" := "r1" ]} ∅ [].
