(* ===== verification/Guards.v ===== *)
(** Guards: the guards around the running service.

    [src/tdlib_retry.ts] (bounded retries of rate-limited Telegram calls),
    [src/crash_guard.ts] (automatic routing stops after rapid crashes),
    [src/clock_guard.ts] (a drifting clock is latched) and [src/slo_tracker.ts]
    (delivery counters).  What a call of the Telegram client answers and when its
    signal aborts is an [Attempt] per call; the state directory of the crash
    guard is its three files, each absent, irregular or of some content. *)

From S2P Require Import Prelude Text.
From Stdlib Require Import QArith.QArith_base QArith.Qabs QArith.Qround.
From Stdlib Require Ascii String.
Local Open Scope Z_scope.
Local Open Scope ts_scope.

(** ** Retries of rate-limited calls *)
Record TdlibRetryOptions := mkRetryOptions { tr_maxAttempts : option Z; tr_maxFloodWaitSeconds : option Z }.

Definition retryLimits (options : TdlibRetryOptions) : result (Z * Z) :=
  let maxAttempts := (tr_maxAttempts options ?? 3) in
  let maxFloodWaitSeconds := (tr_maxFloodWaitSeconds options ?? 60) in
  if negb (isSafeInteger maxAttempts) || (maxAttempts <? 1) || (maxAttempts >? 10)
  then throw "TDLib maxAttempts must be between 1 and 10."
  else if negb (isSafeInteger maxFloodWaitSeconds) || (maxFloodWaitSeconds <? 0) || (maxFloodWaitSeconds >? 3600)
  then throw "TDLib maxFloodWaitSeconds must be between 0 and 3600."
  else Ok (maxAttempts, maxFloodWaitSeconds).

(** The longest prefix of digits. *)
Fixpoint leading_digits (l : list Ascii.ascii) : list Ascii.ascii :=
  match l with
  | c :: l' => if is_digit c then c :: leading_digits l' else []
  | [] => []
  end.

Definition FLOOD : list Ascii.ascii := chars "FLOOD_WAIT_".

(** [/FLOOD_WAIT_(\d+)/.exec(message)]: the digits of the first match. *)
Fixpoint flood_match (l : list Ascii.ascii) : option (list Ascii.ascii) :=
  let here := if bool_decide (take (length FLOOD) l = FLOOD) then leading_digits (drop (length FLOOD) l) else [] in
  match here with
  | _ :: _ => Some here
  | [] => match l with [] => None | _ :: l' => flood_match l' end
  end.

(** [String(error?.message || error)] of an [Error]. *)
Definition error_text (e : error) : string := if bool_decide (message e = "") then "Error" else message e.

Definition floodWaitSeconds (e : error) (maximum : Z) : result Z :=
  match flood_match (chars (error_text e)) with
  | None => Err e
  | Some ds =>
      if negb (isSafeInteger (digits ds)) || (digits ds >? maximum)
      then throw ("Telegram FLOOD_WAIT_" +:+ of_chars ds +:+ " exceeds the configured safety limit.")
      else Ok (digits ds)
  end.

(** One call: its outcome, and whether the signal is aborted before it, once
    it has failed, and while the delay runs. *)
Record Attempt (A : Type) := mkAttempt { at_outcome : result A; at_abortedBefore : bool; at_abortedAfter : bool; at_abortedWaiting : bool }.
Arguments mkAttempt {A} _ _ _ _.
Arguments at_outcome {A} _.
Arguments at_abortedBefore {A} _.
Arguments at_abortedAfter {A} _.
Arguments at_abortedWaiting {A} _.

Section Retry.
Context {A : Type} (abortReason : error) (calls : nat → Attempt A).

Definition abortableDelay (milliseconds : Z) (a : Attempt A) : result unit :=
  if at_abortedAfter a then Err abortReason
  else if milliseconds <=? 0 then Ok tt
  else if at_abortedWaiting a then Err abortReason else Ok tt.

(** The calls made, the delays waited for, and the answer. *)
Record Run := mkRun { run_calls : nat; run_delays : list Z; run_answer : result A }.

(** The loop at call [attempt], with [left] calls left: the bound of the loop. *)
Fixpoint attempts (left attempt : nat) (maxFloodWaitSeconds : Z) : Run :=
  match left with
  | O => mkRun attempt [] (throw "TDLib operation failed after its rate-limit attempts.")
  | S left' =>
      let a := calls attempt in
      if at_abortedBefore a then mkRun attempt [] (Err abortReason)
      else
        match at_outcome a with
        | Ok v => mkRun (S attempt) [] (Ok v)
        | Err e =>
            match floodWaitSeconds e maxFloodWaitSeconds with
            | Err e' => mkRun (S attempt) [] (Err e')
            | Ok seconds =>
                match left' with
                | O => mkRun (S attempt) [] (throw "TDLib operation failed after its rate-limit attempts.")
                | S _ =>
                    match abortableDelay (seconds * 1000) a with
                    | Err e' => mkRun (S attempt) [seconds * 1000] (Err e')
                    | Ok _ =>
                        let rest := attempts left' (S attempt) maxFloodWaitSeconds in
                        mkRun (run_calls rest) (seconds * 1000 :: run_delays rest) (run_answer rest)
                    end
                end
            end
        end
  end.

Definition invokeWithFloodWaitRetry (options : TdlibRetryOptions) : Run :=
  match retryLimits options with
  | Err e => mkRun 0 [] (Err e)
  | Ok (maxAttempts, maxFloodWaitSeconds) => attempts (Z.to_nat maxAttempts) 0 maxFloodWaitSeconds
  end.
End Retry.
Arguments run_calls {A} _.
Arguments run_delays {A} _.
Arguments run_answer {A} _.

(** ** Crash loops *)
Record CrashCounter := mkCounter { cc_count : Z; cc_lastCrash : Z }.

(** The text of a counter: not JSON, or an object with the integers its two
    fields convert to ([None] for anything but an integer). *)
Inductive Content := Unparsable | Parsed (count lastCrash : option Z).

Inductive File (A : Type) := Absent | Irregular | Regular (content : A).
Arguments Absent {A}.
Arguments Irregular {A}.
Arguments Regular {A} _.

Record CrashFiles := mkCrashFiles { cf_active : File unit; cf_counter : File Content; cf_block : File Content }.

Definition counter_field (n : option Z) : Z :=
  match n with Some z => if isSafeInteger z && (0 <=? z) then z else 0 | None => 0 end.

Definition validCounter (count lastCrash : option Z) : CrashCounter := mkCounter (counter_field count) (counter_field lastCrash).

Definition validateCrashGuardOptions (now maximumCrashes windowMs : Z) : result unit :=
  if negb (isSafeInteger now) || (now <? 0) then throw "Crash-guard timestamp is invalid."
  else if negb (isSafeInteger maximumCrashes) || (maximumCrashes <? 2) then throw "maximumCrashes must be at least 2."
  else if negb (isSafeInteger windowMs) || (windowMs <? 1000) then throw "Crash-guard window must be at least one second."
  else Ok tt.

Definition pathExists {A} (f : File A) : bool := match f with Absent => false | _ => true end.

Definition assertRegularFile {A} (f : File A) : result unit :=
  match f with Regular _ => Ok tt | _ => throw "Crash-guard path is not a regular, non-symlink file." end.

Definition readCounter (f : File Content) (label : string) : result (option CrashCounter) :=
  match f with
  | Absent => Ok None
  | Regular (Parsed count lastCrash) => Ok (Some (validCounter count lastCrash))
  | _ => throw (label +:+ " cannot be read safely.")
  end.

Definition stored (c : CrashCounter) : File Content := Regular (Parsed (Some (cc_count c)) (Some (cc_lastCrash c))).

Definition writeCounter (c : CrashCounter) (files : CrashFiles) : result CrashFiles :=
  _ ← (if pathExists (cf_counter files) then assertRegularFile (cf_counter files) else Ok tt);
  Ok (mkCrashFiles (cf_active files) (stored c) (cf_block files)).

Definition crashLoopBlocked {A} (count : Z) : result A :=
  throw_code "CrashLoopBlockedError" ("Crash-loop guard blocked automatic routing after " +:+ of_chars (to_digits count) +:+ " rapid crashes.").

(** The answer and the files left behind. *)
Definition checkCrashLoopState (files : CrashFiles) (now maximumCrashes windowMs : Z) : result CrashCounter * CrashFiles :=
  match readCounter (cf_block files) "Crash-loop block file" with
  | Err e => (Err e, files)
  | Ok (Some block) => (crashLoopBlocked (Z.max (cc_count block) maximumCrashes), files)
  | Ok None =>
      if negb (pathExists (cf_active files)) then
        match writeCounter (mkCounter 0 0) files with
        | Err e => (Err e, files)
        | Ok files' => (Ok (mkCounter 0 0), files')
        end
      else
        match (_ ← assertRegularFile (cf_active files); readCounter (cf_counter files) "Crash counter") with
        | Err e => (Err e, files)
        | Ok found =>
            let previous := found ?? mkCounter 0 0 in
            let counter := mkCounter (if now - cc_lastCrash previous <? windowMs then cc_count previous + 1 else 1) now in
            match writeCounter counter files with
            | Err e => (Err e, files)
            | Ok files' =>
                if cc_count counter >=? maximumCrashes
                then (crashLoopBlocked (cc_count counter), mkCrashFiles (cf_active files') (cf_counter files') (stored counter))
                else (Ok counter, files')
            end
        end
  end.

(** Under the process lock; [legacyLock] tells whether the lock of an older
    version is there. *)
Definition checkCrashLoopFiles (legacyLock : bool) (files : CrashFiles) (now maximumCrashes windowMs : Z) : result CrashCounter * CrashFiles :=
  match validateCrashGuardOptions now maximumCrashes windowMs with
  | Err e => (Err e, files)
  | Ok _ =>
      if legacyLock then (throw "Legacy crash-guard lock requires explicit offline version-transition review.", files)
      else checkCrashLoopState files now maximumCrashes windowMs
  end.

(** ** Clock drift

    A reading is a rational, [None] when the source returned no finite number;
    a drift of [None] is infinite. *)
Definition DEFAULT_MAX_CLOCK_DRIFT_MS : Z := 1000.

Definition validatedClockLimit (limit : Z) : result Z :=
  if negb (isSafeInteger limit) || (limit <? 100) || (limit >? 5000)
  then throw "Maximum clock drift must be an integer between 100 and 5000 milliseconds." else Ok limit.

Definition validatedClockBaseline (value : option Q) : result Q :=
  match value with Some q => Ok q | None => throw "Clock sources must return finite millisecond values." end.

Record ClockGuard := mkClockGuard {
  cg_maxDriftMilliseconds : Z; cg_baselineWall : Q; cg_baselineMonotonic : Q; cg_latched : option (option Q * string) }.

Definition newClockGuard (limit : Z) (wall monotonic : option Q) : result ClockGuard :=
  limit ← validatedClockLimit limit;
  w ← validatedClockBaseline wall;
  m ← validatedClockBaseline monotonic;
  Ok (mkClockGuard limit w m None).

Definition sourceDriftError (wall monotonic : option Q) (g : ClockGuard) : option string :=
  match wall, monotonic with
  | Some _, Some m => if negb (Qle_bool (cg_baselineMonotonic g) m) then Some "The monotonic clock moved backwards." else None
  | _, _ => Some "A system clock source returned a non-finite value."
  end.

Definition measuredDrift (wall monotonic : Q) (g : ClockGuard) : Q :=
  Qabs ((wall - cg_baselineWall g) - (monotonic - cg_baselineMonotonic g)).

Definition show_count (z : Z) : string := of_chars (to_digits z).

Definition measuredDriftOutcome (wall monotonic : Q) (g : ClockGuard) : option Q * option string :=
  let drift := measuredDrift wall monotonic g in
  if Qle_bool drift (inject_Z (cg_maxDriftMilliseconds g)) then (Some drift, None)
  else (Some drift, Some ("System clock changed by " +:+ show_count (Qceiling drift) +:+ "ms relative to the monotonic clock; limit is "
                            +:+ show_count (cg_maxDriftMilliseconds g) +:+ "ms.")).

Definition sampleDrift (wall monotonic : option Q) (g : ClockGuard) : option Q * option string :=
  match sourceDriftError wall monotonic g, wall, monotonic with
  | None, Some w, Some m => measuredDriftOutcome w m g
  | reason, _, _ => (None, reason)
  end.

Definition latchedOutcome (outcome : option Q * option string) (g : ClockGuard) : (option Q * option string) * ClockGuard :=
  let g' := match outcome.2, cg_latched g with
            | Some reason, None =>
                mkClockGuard (cg_maxDriftMilliseconds g) (cg_baselineWall g) (cg_baselineMonotonic g) (Some (outcome.1, reason))
            | _, _ => g
            end in
  (match cg_latched g' with Some (drift, reason) => (drift, Some reason) | None => outcome end, g').

Record ClockHealthSnapshot := mkClockSnapshot {
  sn_healthy : bool; sn_driftMilliseconds : Q; sn_maxDriftMilliseconds : Z; sn_checkedAt : Q; sn_reason : option string }.

Definition sample (wall monotonic : option Q) (g : ClockGuard) : ClockHealthSnapshot * ClockGuard :=
  let '((drift, reason), g') := latchedOutcome (sampleDrift wall monotonic g) g in
  (mkClockSnapshot (match reason with None => true | Some _ => false end) (default (inject_Z (cg_maxDriftMilliseconds g + 1)) drift)
     (cg_maxDriftMilliseconds g) (default (cg_baselineWall g) wall) reason, g').

Definition assertHealthy (wall monotonic : option Q) (g : ClockGuard) : result ClockHealthSnapshot * ClockGuard :=
  let '(snapshot, g') := sample wall monotonic g in
  (if sn_healthy snapshot then Ok snapshot
   else throw_code "CLOCK_DRIFT_UNSAFE" (default "System clock drift is outside the configured safety limit." (sn_reason snapshot)), g').

(** ** Delivery counters *)
Definition LATENCY_BUCKETS_SECONDS : list Z := [1; 5; 15; 30; 60; 120; 300].

Record DeliverySloTracker := mkSlo {
  slo_accepted : Z; slo_attempts : Z; slo_confirmed : Z; slo_failed : Z; slo_unknown : Z; slo_latencyCount : Z; slo_latencySumSeconds : Q;
  slo_latencyBuckets : list (Z * Z) }.

Definition newSloTracker : DeliverySloTracker := mkSlo 0 0 0 0 0 0 0%Q (map (λ le, (le, 0)) LATENCY_BUCKETS_SECONDS).

Inductive SloCall := RecordAccepted | RecordAttempt | RecordConfirmed (latencyMs : option Q) | RecordFailure (unknown : bool).

Definition recordConfirmed (latencyMs : option Q) (t : DeliverySloTracker) : result DeliverySloTracker :=
  match latencyMs with
  | Some ms =>
      if negb (Qle_bool 0 ms) then throw "Delivery latency must be a finite non-negative number."
      else
        let seconds := (ms / 1000)%Q in
        Ok (mkSlo (slo_accepted t) (slo_attempts t) (slo_confirmed t + 1) (slo_failed t) (slo_unknown t) (slo_latencyCount t + 1)
              (slo_latencySumSeconds t + seconds)%Q
              (map (λ b, if Qle_bool seconds (inject_Z b.1) then (b.1, b.2 + 1) else b) (slo_latencyBuckets t)))
  | None => throw "Delivery latency must be a finite non-negative number."
  end.

Definition slo_call (c : SloCall) (t : DeliverySloTracker) : result DeliverySloTracker :=
  match c with
  | RecordAccepted =>
      Ok (mkSlo (slo_accepted t + 1) (slo_attempts t) (slo_confirmed t) (slo_failed t) (slo_unknown t) (slo_latencyCount t) (slo_latencySumSeconds t)
            (slo_latencyBuckets t))
  | RecordAttempt =>
      Ok (mkSlo (slo_accepted t) (slo_attempts t + 1) (slo_confirmed t) (slo_failed t) (slo_unknown t) (slo_latencyCount t) (slo_latencySumSeconds t)
            (slo_latencyBuckets t))
  | RecordConfirmed latencyMs => recordConfirmed latencyMs t
  | RecordFailure unknown =>
      Ok (mkSlo (slo_accepted t) (slo_attempts t) (slo_confirmed t) (if unknown then slo_failed t else slo_failed t + 1)
            (if unknown then slo_unknown t + 1 else slo_unknown t) (slo_latencyCount t) (slo_latencySumSeconds t) (slo_latencyBuckets t))
  end.

(** ** Lemmas *)

(** A latched guard never recovers, whatever is read. *)
Lemma clock_guard_latched g d r : cg_latched g = Some (d, r) → ∀ wall monotonic, ∃ snapshot,
  sample wall monotonic g = (snapshot, g) ∧ sn_healthy snapshot = false ∧ sn_reason snapshot = Some r.
Proof.
  intros Hl wall monotonic. unfold sample, latchedOutcome. destruct (sampleDrift wall monotonic g) as [d' r']. cbn [fst snd].
  rewrite Hl. destruct r'; rewrite Hl; eexists; (split; [reflexivity|]); done.
Qed.

(** A sample is healthy exactly when nothing was latched before and both clocks
    are finite, the monotonic one is not behind its baseline, and they have
    drifted apart by at most the limit; an unhealthy sample latches. *)
Lemma clock_guard_sample wall monotonic g snapshot g' : sample wall monotonic g = (snapshot, g') →
  (sn_healthy snapshot = true ↔ cg_latched g = None ∧ ∃ w m, wall = Some w ∧ monotonic = Some m ∧
     (cg_baselineMonotonic g <= m)%Q ∧ (measuredDrift w m g <= inject_Z (cg_maxDriftMilliseconds g))%Q) ∧
  (sn_healthy snapshot = true → g' = g) ∧ (sn_healthy snapshot = false → is_Some (cg_latched g')).
Proof.
  unfold sample. destruct (latchedOutcome _ _) as [[d r] g1] eqn:E. intros [= <- <-]. cbn [sn_healthy].
  unfold latchedOutcome in E. destruct (cg_latched g) as [[d0 r0]|] eqn:El.
  { assert (g1 = g ∧ r = Some r0) as [-> ->].
    { destruct (snd _); rewrite El in E; by injection E as _ <- <-. }
    split; [split; [done|by intros [? _]]|]. split; [done|]. rewrite El. by eexists. }
  unfold sampleDrift in E. destruct wall as [w|], monotonic as [m|]; cbn [sourceDriftError] in E.
  2-4: injection E as <- <- <-; split; [split; [done|by intros (_ & ? & ? & ? & ? & _)]|]; split; [done|by eexists].
  destruct (Qle_bool (cg_baselineMonotonic g) m) eqn:Em; cbn [negb] in E; cycle 1.
  { injection E as <- <- <-. split; [|split; [done|by eexists]].
    split; [done|]. intros (_ & ? & m' & _ & [= <-] & Hle & _). apply Qle_bool_iff in Hle. by rewrite Em in Hle. }
  apply Qle_bool_iff in Em. unfold measuredDriftOutcome in E.
  destruct (Qle_bool _ _) eqn:Eq; cbn [fst snd] in E.
  - rewrite El in E. injection E as <- <- <-. apply Qle_bool_iff in Eq. split; [|done]. split; [|done]. intros _. split; [done|]. by exists w, m.
  - injection E as <- <- <-. split; [|split; [done|by eexists]]. split; [done|].
    intros (_ & w' & m' & [= <-] & [= <-] & _ & Hle). apply Qle_bool_iff in Hle. by rewrite Eq in Hle.
Qed.

(** Every bucket counts at most the confirmations, and a wider one at least as
    many as a narrower one. *)
Definition slo_wf (t : DeliverySloTracker) : Prop :=
  slo_latencyCount t = slo_confirmed t ∧ map fst (slo_latencyBuckets t) = LATENCY_BUCKETS_SECONDS ∧
  Forall (λ b, 0 <= b.2 <= slo_confirmed t) (slo_latencyBuckets t) ∧ StronglySorted (λ a b, a.1 <= b.1 ∧ a.2 <= b.2) (slo_latencyBuckets t).

Lemma slo_call_wf c t t' : slo_call c t = Ok t' → slo_wf t → slo_wf t'.
Proof.
  intros H (H1 & H2 & H3 & H4). destruct c as [| |latency|unknown]; cbn [slo_call] in H; try (injection H as <-; done).
  destruct latency as [ms|]; [|done]. cbn [recordConfirmed] in H. destruct (negb _); [done|]. injection H as <-.
  unfold slo_wf. cbn [slo_latencyCount slo_confirmed slo_latencyBuckets]. set (s := (ms / 1000)%Q) in *.
  set (f := λ b : Z * Z, if Qle_bool s (inject_Z b.1) then (b.1, b.2 + 1) else b).
  assert (∀ b, (f b).1 = b.1) as Hf by (intros b; unfold f; by destruct (Qle_bool _ _)).
  assert (∀ b, b.2 <= (f b).2 <= b.2 + 1) as Hg by (intros b; unfold f; destruct (Qle_bool _ _); cbn; lia).
  split; [by rewrite H1|]. split; [|split].
  - rewrite map_map, <-H2. by apply map_ext.
  - apply Forall_map. eapply Forall_impl; [exact H3|]. intros b Hb. pose proof (Hg b). cbv beta in *. lia.
  - clear H2 H3. induction H4 as [|b l Hl IH Hb]; [constructor|]. cbn [map]. constructor; [done|]. apply Forall_map.
    eapply Forall_impl; [exact Hb|]. intros b' [Hle Hc]. cbn. rewrite !Hf. split; [done|]. unfold f.
    destruct (Qle_bool s (inject_Z b.1)) eqn:Eb, (Qle_bool s (inject_Z b'.1)) eqn:Eb'; simpl in *; try lia.
    exfalso. apply Qle_bool_iff in Eb. assert (s <= inject_Z b'.1)%Q as Hs by (eapply Qle_trans; [exact Eb|by rewrite <-Zle_Qle]).
    apply Qle_bool_iff in Hs. by rewrite Hs in Eb'.
Qed.

(** *** The retry loop *)
Lemma flood_seconds e maximum s : floodWaitSeconds e maximum = Ok s → 0 <= s <= maximum.
Proof.
  unfold floodWaitSeconds. destruct (flood_match _) as [ds|] eqn:E; [|done]. destruct (_ || _) eqn:Eb; [done|]. intros [= <-].
  apply orb_false_iff in Eb as [_ Eb]. rewrite Z.gtb_ltb, Z.ltb_ge in Eb. split; [|done]. apply digits_nonneg.
  clear Eb. remember (chars (error_text e)) as l eqn:El. clear El. induction l as [|c l IH]; [done|].
  cbn [flood_match] in E. destruct (if bool_decide _ then _ else _) as [|d ds'] eqn:Eh; [by apply IH|]. injection E as <-.
  destruct (bool_decide _); [|done]. rewrite <-Eh. clear. generalize (drop (length FLOOD) (c :: l)). intros k.
  induction k as [|x k IH]; [constructor|]. cbn. destruct (is_digit x) eqn:Ex; by constructor.
Qed.

Lemma retryLimits_Ok options a f : retryLimits options = Ok (a, f) → 1 <= a <= 10 ∧ 0 <= f <= 3600.
Proof.
  unfold retryLimits. destruct (_ || _) eqn:E1; [done|]. destruct (negb (isSafeInteger (default 60 _)) || _ || _) eqn:E2; [done|]. intros [= <- <-].
  rewrite !orb_false_iff, Z.gtb_ltb, !Z.ltb_ge in E1, E2. lia.
Qed.

Section RetryRuns.
Context {A : Type} (abortReason : error) (calls : nat → Attempt A) (maxF : Z).

(** Call [i] was refused by a rate limit the run may wait for. *)
Definition flooded (i : nat) : Prop := ∃ e s, at_outcome (calls i) = Err e ∧ floodWaitSeconds e maxF = Ok s.

Definition undisturbed (i : nat) : Prop :=
  at_abortedBefore (calls i) = false ∧ at_abortedAfter (calls i) = false ∧ at_abortedWaiting (calls i) = false.

Lemma attempts_bounds left n : (run_calls (attempts abortReason calls left n maxF) <= n + left)%nat ∧
  (length (run_delays (attempts abortReason calls left n maxF)) <= left - 1)%nat ∧
  Forall (λ d, 0 <= d <= maxF * 1000) (run_delays (attempts abortReason calls left n maxF)).
Proof.
  revert n. induction left as [|left IH]; intros n; cbn [attempts]; [cbn; split; [lia|split; [lia|constructor]]|].
  assert (∀ (r : result A) m, (m <= S n)%nat → (run_calls (mkRun m [] r) <= n + S left)%nat ∧
    (length (run_delays (mkRun m [] r)) <= S left - 1)%nat ∧ Forall (λ d, 0 <= d <= maxF * 1000) (run_delays (mkRun m [] r))) as Hstop.
  { intros r m Hm. cbn. split; [lia|]. split; [lia|constructor]. }
  destruct (at_abortedBefore _); [apply Hstop; lia|]. destruct (at_outcome _) as [v|e]; [by apply Hstop|].
  destruct (floodWaitSeconds e maxF) as [s|e'] eqn:Ef; [|by apply Hstop]. apply flood_seconds in Ef.
  destruct left as [|left']; [by apply Hstop|]. destruct (abortableDelay _ _ _) as [[]|e'].
  - destruct (IH (S n)) as (H1 & H2 & H3). cbv zeta. cbn [run_calls run_delays length]. split; [lia|]. split; [lia|]. constructor; [lia|done].
  - cbn [run_calls run_delays length]. split; [lia|]. split; [lia|]. constructor; [lia|constructor].
Qed.

Lemma delay_undisturbed ms i : undisturbed i → abortableDelay abortReason ms (calls i) = Ok tt.
Proof. intros (_ & H1 & H2). unfold abortableDelay. rewrite H1, H2. by destruct (_ <=? _). Qed.

(** The run reaches call [k] when every earlier one was rate-limited. *)
Lemma attempts_reach k left n : (k < left)%nat → (∀ i, (n <= i < n + k)%nat → flooded i ∧ undisturbed i) →
  run_calls (attempts abortReason calls left n maxF) = run_calls (attempts abortReason calls (left - k) (n + k) maxF) ∧
  run_answer (attempts abortReason calls left n maxF) = run_answer (attempts abortReason calls (left - k) (n + k) maxF).
Proof.
  revert left n. induction k as [|k IH]; intros left n Hk Hf; [by rewrite Nat.sub_0_r, Nat.add_0_r|].
  destruct left as [|[|left]]; [lia|lia|]. destruct (Hf n) as [(e & s & Ho & Hs) Hu]; [lia|].
  replace (S (S left) - S k)%nat with (S left - k)%nat by lia. replace (n + S k)%nat with (S n + k)%nat by lia.
  destruct (IH (S left) (S n)) as [<- <-]; [lia|intros i Hi; apply Hf; lia|]. cbn [attempts]. destruct Hu as (Ha & Hr).
  rewrite Ha, Ho, Hs, delay_undisturbed by done. done.
Qed.

Lemma attempts_Ok left n v : run_answer (attempts abortReason calls left n maxF) = Ok v → ∃ k, (n <= k)%nat ∧
  run_calls (attempts abortReason calls left n maxF) = S k ∧ at_outcome (calls k) = Ok v ∧ ∀ i, (n <= i < k)%nat → flooded i.
Proof.
  revert n. induction left as [|left IH]; intros n; cbn [attempts]; [done|].
  destruct (at_abortedBefore _); [done|]. destruct (at_outcome (calls n)) as [w|e] eqn:Eo.
  { intros H. injection H as ->. exists n. split; [done|]. split; [done|]. split; [done|]. intros i Hi. lia. }
  destruct (floodWaitSeconds e maxF) as [s|e'] eqn:Ef; [|done]. destruct left as [|left']; [done|].
  destruct (abortableDelay _ _ _) as [[]|e']; [|done]. intros H. destruct (IH (S n) H) as (k & Hk & Hc & Ho & Hf).
  exists k. split; [lia|]. split; [exact Hc|]. split; [done|]. intros i Hi. destruct (decide (i = n)) as [->|]; [by exists e, s|]. apply Hf. lia.
Qed.
End RetryRuns.

(** *** Starts after crashes *)

(** The files a start finds after a run that crashed: routing still marked
    active; an operator has not intervened. *)
Fixpoint crashing_starts (maximumCrashes windowMs : Z) (times : list Z) (files : CrashFiles) : list (result CrashCounter) * CrashFiles :=
  match times with
  | [] => ([], files)
  | now :: times' =>
      let '(r, files') := checkCrashLoopFiles false files now maximumCrashes windowMs in
      let '(rs, final) := crashing_starts maximumCrashes windowMs times' files' in
      (r :: rs, final)
  end.

(** Each start within the window of its predecessor. *)
Fixpoint rapid (windowMs : Z) (previous : option Z) (times : list Z) : Prop :=
  match times with
  | [] => True
  | t :: times' => 0 <= t <= MAX_SAFE_INTEGER ∧ (∀ p, previous = Some p → t - p < windowMs) ∧ rapid windowMs (Some t) times'
  end.

Lemma blocked_start files now maximumCrashes windowMs : cf_block files ≠ Absent → ∃ e,
  checkCrashLoopFiles false files now maximumCrashes windowMs = (Err e, files).
Proof.
  intros Hb. unfold checkCrashLoopFiles. destruct (validateCrashGuardOptions _ _ _); [|by eexists]. unfold checkCrashLoopState.
  destruct (cf_block files) as [| |[|c l]]; [done|by eexists..].
Qed.

Lemma counter_field_nonneg n : 0 <= counter_field n.
Proof. unfold counter_field. destruct n as [z|]; [|done]. destruct (isSafeInteger z && (0 <=? z)) eqn:E; [|done]. apply andb_true_iff in E as [_ E]. by apply Z.leb_le. Qed.

Lemma counter_field_id z : 0 <= z <= MAX_SAFE_INTEGER → counter_field (Some z) = z.
Proof.
  intros Hz. unfold counter_field. rewrite (proj2 (isSafeInteger_true z)) by (unfold MAX_SAFE_INTEGER in *; lia).
  by rewrite (proj2 (Z.leb_le 0 z)) by lia.
Qed.

Definition readable (files : CrashFiles) : Prop := cf_active files = Regular tt ∧ cf_block files = Absent ∧
  (cf_counter files = Absent ∨ ∃ c l, cf_counter files = Regular (Parsed c l)).

(** One start after a crash: it is blocked and leaves the block behind, or it
    counts one more crash. *)
Lemma crashing_start files now maxC w : readable files → 0 <= now <= MAX_SAFE_INTEGER → 2 <= maxC <= MAX_SAFE_INTEGER → 1000 <= w <= MAX_SAFE_INTEGER →
  ∃ n r files', checkCrashLoopFiles false files now maxC w = (r, files') ∧ 1 <= n ∧
    (∀ c l, cf_counter files = Regular (Parsed c l) → now - counter_field l < w → n = counter_field c + 1) ∧
    ((maxC <= n ∧ (∃ e, r = Err e) ∧ cf_block files' ≠ Absent) ∨
     (n < maxC ∧ r = Ok (mkCounter n now) ∧ readable files' ∧ cf_counter files' = Regular (Parsed (Some n) (Some now)))).
Proof.
  intros (Ha & Hb & Hc) Hn Hm Hw. unfold checkCrashLoopFiles, validateCrashGuardOptions.
  rewrite !(proj2 (isSafeInteger_true _)) by (unfold MAX_SAFE_INTEGER in *; lia).
  rewrite (proj2 (Z.ltb_ge now 0)), (proj2 (Z.ltb_ge maxC 2)), (proj2 (Z.ltb_ge w 1000)) by lia. cbn [negb orb].
  unfold checkCrashLoopState. rewrite Hb, Ha. cbn [readCounter pathExists negb assertRegularFile mbind result_bind].
  set (prev := match cf_counter files with Regular (Parsed c l) => validCounter c l | _ => mkCounter 0 0 end).
  assert (∃ found, readCounter (cf_counter files) "Crash counter" = Ok found ∧ default (mkCounter 0 0) found = prev ∧
    (if pathExists (cf_counter files) then assertRegularFile (cf_counter files) else Ok tt) = Ok tt) as (found & Hr & Hd & Hreg).
  { unfold prev. destruct Hc as [->|(c & l & ->)]; eexists; (split; [reflexivity|]); done. }
  rewrite Hr. cbv beta iota zeta. rewrite Hd. unfold writeCounter. rewrite Hreg. cbn [mbind result_bind]. cbn [cf_active cf_counter cf_block].
  set (n := if now - cc_lastCrash prev <? w then cc_count prev + 1 else 1).
  assert (0 <= cc_count prev) as Hprev by (unfold prev; destruct (cf_counter files) as [| |[|]]; cbn; try lia; apply counter_field_nonneg).
  assert (1 <= n) as Hn1 by (unfold n; destruct (_ <? _); lia).
  assert (∀ c l, cf_counter files = Regular (Parsed c l) → now - counter_field l < w → n = counter_field c + 1) as Hstep.
  { intros c l Hcl Hlt. unfold n, prev. rewrite Hcl. cbn [cc_lastCrash cc_count validCounter]. by rewrite (proj2 (Z.ltb_lt _ _) Hlt). }
  cbn [cc_count]. rewrite Z.geb_leb. exists n. destruct (Z.leb_spec maxC n); eexists _, _; (split; [reflexivity|]); (split; [done|]); (split; [done|]).
  - left. split; [done|]. split; [by eexists|done].
  - right. split; [done|]. split; [done|]. split; [|done]. split; [done|]. split; [done|]. right. by eexists _, _.
Qed.

Lemma blocked_starts maxC w ts files : cf_block files ≠ Absent → ∃ rs,
  crashing_starts maxC w ts files = (rs, files) ∧ Forall (λ r, ∃ e, r = Err e) rs.
Proof.
  intros Hb. induction ts as [|now ts (rs & E & Hrs)]; [by exists []|]. cbn [crashing_starts].
  destruct (blocked_start files now maxC w Hb) as [e ->]. rewrite E. exists (Err e :: rs). split; [done|]. constructor; [by exists e|done].
Qed.

(** [n] rapid crashes are counted already. *)
Lemma crash_count maxC w ts files n prev : readable files → 2 <= maxC <= MAX_SAFE_INTEGER → 1000 <= w <= MAX_SAFE_INTEGER →
  maxC <= n + Z.of_nat (length ts) → 0 <= n < maxC →
  (0 < n → ∃ c t, prev = Some t ∧ 0 <= t <= MAX_SAFE_INTEGER ∧ n <= c < maxC ∧ cf_counter files = Regular (Parsed (Some c) (Some t))) →
  rapid w prev ts → let '(answers, final) := crashing_starts maxC w ts files in (∃ e, last answers = Some (Err e)) ∧ cf_block final ≠ Absent.
Proof.
  intros Hr Hm Hw. revert files n prev Hr. induction ts as [|now ts IH]; intros files n prev Hr Hlen Hn Hcount Hrap; [cbn in Hlen; lia|].
  destruct Hrap as (Hnow & Hgap & Hrap). cbn [crashing_starts].
  destruct (crashing_start files now maxC w Hr Hnow Hm Hw) as (m & r & files' & -> & Hm1 & Hstep & [(_ & (e & ->) & Hb)|(Hlt & -> & Hr' & Hc')]).
  - destruct (blocked_starts maxC w ts files' Hb) as (rs & -> & Hrs). split; [|done]. rewrite last_cons.
    destruct (last rs) as [r|] eqn:El; [|by exists e]. apply last_Some_elem_of in El. rewrite Forall_forall in Hrs.
    destruct (Hrs _ El) as [e' ->]. by exists e'.
  - assert (n + 1 <= m) as Hnm.
    { destruct (Z.eq_dec n 0) as [->|Hn0]; [lia|]. destruct Hcount as (c & t & -> & Ht & Hc & Ec); [lia|].
      rewrite (Hstep _ _ Ec), counter_field_id by (rewrite ?counter_field_id by lia; try lia; by apply Hgap). lia. }
    specialize (IH files' (n + 1) (Some now) Hr' ltac:(cbn in Hlen; lia) ltac:(lia)).
    destruct (crashing_starts maxC w ts files') as [rs final]. destruct IH as [[e He] Hb]; [|done|].
    { intros _. exists m, now. split; [done|]. split; [done|]. split; [lia|done]. }
    split; [|done]. rewrite last_cons, He. by exists e.
Qed.

(** ** Properties *)

(** A rate-limited call is answered.  If Telegram limits the first [k] calls
    by waits within the configured limit, the run is not aborted and call [k] is
    among the allowed attempts, then the run makes it: its value is the answer,
    and an error that is no rate limit is passed on unchanged at once.  In every
    run at most the configured number of calls is made and at most one delay
    between two of them, each within the limit; a value is answered only if the
    last call returned it and all earlier ones were rate-limited. *)
Theorem rate_limited_call_answered {A} abortReason (calls : nat → Attempt A) options maxA maxF : retryLimits options = Ok (maxA, maxF) →
  let run := invokeWithFloodWaitRetry abortReason calls options in
  (∀ k, Z.of_nat k < maxA → (∀ i, (i < k)%nat → flooded calls maxF i ∧ undisturbed calls i) → at_abortedBefore (calls k) = false →
     (∀ v, at_outcome (calls k) = Ok v → run_answer run = Ok v ∧ run_calls run = S k) ∧
     (∀ e, at_outcome (calls k) = Err e → flood_match (chars (error_text e)) = None → run_answer run = Err e ∧ run_calls run = S k)) ∧
  Z.of_nat (run_calls run) <= maxA ∧ Z.of_nat (length (run_delays run)) < maxA ∧ Forall (λ d, 0 <= d <= maxF * 1000) (run_delays run) ∧
  (∀ v, run_answer run = Ok v → ∃ k, run_calls run = S k ∧ at_outcome (calls k) = Ok v ∧ ∀ i, (i < k)%nat → flooded calls maxF i).
Proof.
  intros Hl. unfold invokeWithFloodWaitRetry. rewrite Hl. apply retryLimits_Ok in Hl as [HA HF]. cbv zeta.
  destruct (attempts_bounds abortReason calls maxF (Z.to_nat maxA) 0) as (B1 & B2 & B3). split; [|split; [lia|split; [lia|split; [done|]]]].
  - intros k Hk Hf Hu. destruct (attempts_reach abortReason calls maxF k (Z.to_nat maxA) 0) as [E1 E2]; [lia|intros i Hi; apply Hf; lia|].
    rewrite E1, E2. cbn [Nat.add]. destruct (Z.to_nat maxA - k)%nat as [|left] eqn:El; [lia|]. cbn [attempts]. rewrite Hu.
    split; [intros v ->; done|]. intros e -> Hnf. unfold floodWaitSeconds. by rewrite Hnf.
  - intros v Hv. apply attempts_Ok in Hv as (k & _ & Hc & Ho & Hf). exists k. split; [done|]. split; [done|]. intros i Hi. apply Hf. lia.
Qed.

(** A crash loop is stopped.  However the crash counter stands, as soon as
    the service has been started the configured number of times with routing
    still marked active, each start within the window of the one before, the
    last of these starts is refused and so is every later one, whatever its
    time, until the block file is removed; the block never clears itself. *)
Theorem crash_loop_stopped files times maxC w : readable files → 2 <= maxC <= MAX_SAFE_INTEGER → 1000 <= w <= MAX_SAFE_INTEGER →
  rapid w None times → maxC <= Z.of_nat (length times) →
  let '(answers, final) := crashing_starts maxC w times files in
  (∃ e, last answers = Some (Err e)) ∧ ∀ now, ∃ e, checkCrashLoopFiles false final now maxC w = (Err e, final).
Proof.
  intros Hr Hm Hw Hrap Hlen. pose proof (crash_count maxC w times files 0 None Hr Hm Hw ltac:(lia) ltac:(lia) ltac:(lia) Hrap) as H.
  destruct (crashing_starts maxC w times files) as [answers final]. destruct H as [H1 H2]. split; [exact H1|].
  intros now. by apply blocked_start.
Qed.

(** ** Witnesses *)
Definition limited (text : string) : Attempt Z := mkAttempt (Err (mkError "" text)) false false false.
Definition limited_calls (i : nat) : Attempt Z :=
  match i with O => limited "FLOOD_WAIT_3" | S O => limited "420: FLOOD_WAIT_ FLOOD_WAIT_07 (messages)" | _ => mkAttempt (Ok 42) false false false end.
Definition retry_options : TdlibRetryOptions := mkRetryOptions None None.

Definition crashed_files : CrashFiles := mkCrashFiles (Regular tt) (Regular (Parsed None (Some (-5)))) Absent.

(** Two rapid crashes do not block, and a clean stop starts the count again. *)
Example two_crashes_pass : fst (crashing_starts 3 300000 [1000000; 1060000] crashed_files) = [Ok (mkCounter 1 1000000); Ok (mkCounter 2 1060000)].
Proof. reflexivity. Qed.
Example clean_stop_resets : fst (checkCrashLoopFiles false (mkCrashFiles Absent (stored (mkCounter 2 1060000)) Absent) 1120000 3 300000) = Ok (mkCounter 0 0).
Proof. reflexivity. Qed.
