(* ===== verification/Table.v ===== *)
(** Table: queries over a table with text keys, [SELECT ... WHERE ... ORDER BY
    time, id]: the rows with their keys, by a time column and then by the code
    units of the key. *)

From S2P Require Import Prelude Text.
From stdpp Require Import lexico.
From Stdlib Require Ascii String.
Local Open Scope Z_scope.

Section Select.
Context {V : Type} (time : V → Z).

Definition order_key (row : string * V) : Z * list nat := (time row.2, map Ascii.nat_of_ascii (chars row.1)).
Definition earlier (a b : string * V) : Prop := ¬ lexico (order_key b) (order_key a).
#[export] Instance earlier_dec a b : Decision (earlier a b).
Proof. unfold earlier. apply _. Defined.

Definition select (p : string * V → Prop) `{∀ row, Decision (p row)} (db : gmap string V) : list (string * V) :=
  merge_sort earlier (filter p (map_to_list db)).
End Select.

Section SelectLemmas.
Context {V : Type} {time : V → Z} (p : string * V → Prop) `{∀ row, Decision (p row)} (db : gmap string V).
Abbreviation earlier := (earlier time).
Abbreviation select := (select time).

Lemma select_In row : row ∈ select p db ↔ db !! row.1 = Some row.2 ∧ p row.
Proof.
  unfold select. rewrite (merge_sort_Permutation earlier). rewrite list_elem_of_filter. destruct row as [id row].
  rewrite elem_of_map_to_list. cbn. naive_solver.
Qed.

Lemma select_NoDup : NoDup (map fst (select p db)).
Proof.
  unfold select. rewrite (merge_sort_Permutation earlier). apply NoDup_fmap_fst.
  - intros id r r' Hr Hr'. rewrite list_elem_of_filter, elem_of_map_to_list in Hr, Hr'. destruct Hr as [_ Hr], Hr' as [_ Hr'].
    rewrite Hr in Hr'. by injection Hr' as ->.
  - apply NoDup_filter, NoDup_map_to_list.
Qed.

Lemma select_lookup : Forall (λ row : string * V, db !! row.1 = Some row.2) (select p db).
Proof. apply Forall_forall. intros row Hin. by apply select_In in Hin as [? _]. Qed.
End SelectLemmas.

Section Order.
Context {V : Type} {time : V → Z}.
Abbreviation earlier := (earlier time).
Abbreviation order_key := (order_key time).
Abbreviation select := (select time).

#[export] Instance earlier_total : Total earlier.
Proof. intros a b. unfold earlier. destruct (decide (lexico (order_key b) (order_key a))) as [H|]; [|by left]. right. intros H'. by apply (irreflexivity lexico (order_key a)), (transitivity H'). Qed.

#[export] Instance earlier_trans : Transitive earlier.
Proof.
  intros a b c Hab Hbc. unfold earlier in *. intros Hca. destruct (trichotomyT lexico (order_key b) (order_key a)) as [[H|H]|H]; [done| |].
  - rewrite H in Hbc. done.
  - apply Hbc. by etrans.
Qed.

#[export] Instance nat_of_ascii_inj : Inj (=) (=) Ascii.nat_of_ascii.
Proof. intros x y Hxy. by rewrite <-(Ascii.ascii_nat_embedding x), Hxy, Ascii.ascii_nat_embedding. Qed.

Lemma order_key_id a b : order_key a = order_key b → a.1 = b.1.
Proof.
  unfold order_key. intros H. injection H as _ H. apply (inj (fmap Ascii.nat_of_ascii)) in H.
  by rewrite <-(of_chars_chars a.1), H, of_chars_chars.
Qed.

Lemma select_sorted (p : string * V → Prop) `{∀ row, Decision (p row)} (db : gmap string V) : StronglySorted earlier (select p db).
Proof. apply StronglySorted_merge_sort; apply _. Qed.

(** A query is determined by its rows: they have one order. *)
Lemma select_unique (p : string * V → Prop) `{∀ row, Decision (p row)} (db : gmap string V) rows : StronglySorted earlier rows → NoDup rows →
  (∀ row, row ∈ rows ↔ db !! row.1 = Some row.2 ∧ p row) → select p db = rows.
Proof.
  intros Hs Hnd Hin. eapply (StronglySorted_unique_strong earlier); [|apply select_sorted|done|].
  - intros a b Ha Hb Hab Hba. apply select_In in Ha as [Ha _]. apply Hin in Hb as [Hb _].
    destruct (trichotomyT lexico (order_key a) (order_key b)) as [[H1|H1]|H1]; [done| |done].
    pose proof (order_key_id _ _ H1) as E. destruct a as [i a], b as [j b]. cbn in *. subst j. rewrite Ha in Hb. by injection Hb as ->.
  - apply NoDup_Permutation; [eapply (NoDup_fmap_1 fst), select_NoDup|done|]. intros row. by rewrite select_In, Hin.
Qed.
End Order.
