(* ===== verification/OutboxStore.v ===== *)
(** OutboxStore: the durable outbox of [src/db.ts], the table of tasks that
    forward a message or an album.

    [PendingTasks] is the table [pending_tasks] by its primary key.  A JSON column
    is absent, the value its text parses to, or not JSON.  Every operation is one
    statement or one transaction, so that an interleaving of callers is a
    sequence of calls; [now] is [Date.now()]. *)

From S2P Require Import Prelude Text Json Table.
From Stdlib Require Ascii String.
Local Open Scope Z_scope.
Local Open Scope ts_scope.

(** ** Tasks *)
Inductive OutboxStatus := ob_pending | ob_preparing | ob_sending | ob_completed | ob_failed | ob_unknown | ob_needs_review.
#[export] Instance OutboxStatus_eq_dec : EqDecision OutboxStatus.
Proof. solve_decision. Defined.

Inductive OutboxPayloadField := field_message_ids | field_config_json | field_result_json.
#[export] Instance OutboxPayloadField_eq_dec : EqDecision OutboxPayloadField.
Proof. solve_decision. Defined.

Inductive OutboxType := type_single | type_mediaGroup.

(** A JSON column: [NULL] or empty, the value it parses to, anything else. *)
Inductive Column := col_null | col_json (v : jsval) | col_invalid.

Record OutboxStorageRow := mkOutboxRow {
  os_type : OutboxType; os_chat_id : string; os_message_id : option Z; os_message_ids : Column; os_media_group_id : option string;
  os_added_at : Z; os_status : OutboxStatus; os_attempts : Z; os_claimed_at : option Z; os_updated_at : Z; os_completed_at : option Z;
  os_last_error : option string; os_config_json : Column; os_result_json : Column; os_workflow_revision_id : option string;
  os_ingress_work_id : option string }.

Abbreviation PendingTasks := (gmap string OutboxStorageRow).

Record OutboxTask := mkTask {
  ot_id : string; ot_type : OutboxType; ot_chatId : string; ot_messageId : option Z; ot_messageIds : option jsval;
  ot_payloadErrors : list OutboxPayloadField; ot_mediaGroupId : option string; ot_addedAt : Z; ot_status : OutboxStatus; ot_attempts : Z;
  ot_claimedAt : option Z; ot_updatedAt : Z; ot_completedAt : option Z; ot_lastError : option string; ot_config : option jsval;
  ot_result : option jsval; ot_workflowRevisionId : option string; ot_ingressWorkId : option string }.

(** The parsed value, and the field if it cannot be parsed. *)
Definition parseOutboxJsonField (value : Column) (field : OutboxPayloadField) : option jsval * list OutboxPayloadField :=
  match value with
  | col_null => (None, [])
  | col_json v => (Some v, [])
  | col_invalid => (None, [field])
  end.

(** [value || undefined] *)
Definition truthy_text (o : option string) : option string :=
  match o with Some s => if bool_decide (s = "") then None else Some s | None => None end.

Definition payloadErrors (row : OutboxStorageRow) : list OutboxPayloadField :=
  snd (parseOutboxJsonField (os_message_ids row) field_message_ids) ++ snd (parseOutboxJsonField (os_config_json row) field_config_json)
  ++ snd (parseOutboxJsonField (os_result_json row) field_result_json).

Definition mapOutboxRow (id : string) (row : OutboxStorageRow) : OutboxTask :=
  mkTask id (os_type row) (os_chat_id row) (os_message_id row) (fst (parseOutboxJsonField (os_message_ids row) field_message_ids))
    (payloadErrors row) (truthy_text (os_media_group_id row)) (os_added_at row) (os_status row) (os_attempts row) (os_claimed_at row)
    (if os_updated_at row =? 0 then os_added_at row else os_updated_at row) (os_completed_at row) (truthy_text (os_last_error row))
    (fst (parseOutboxJsonField (os_config_json row) field_config_json)) (fst (parseOutboxJsonField (os_result_json row) field_result_json))
    (truthy_text (os_workflow_revision_id row)) (truthy_text (os_ingress_work_id row)).

(** [UPDATE pending_tasks SET status, updated_at, last_error]; the other
    columns an update sets are the arguments of [with_claim]. *)
Definition with_status (status : OutboxStatus) (now : Z) (lastError : option string) (row : OutboxStorageRow) : OutboxStorageRow :=
  mkOutboxRow (os_type row) (os_chat_id row) (os_message_id row) (os_message_ids row) (os_media_group_id row) (os_added_at row) status
    (os_attempts row) (os_claimed_at row) now (os_completed_at row) lastError (os_config_json row) (os_result_json row)
    (os_workflow_revision_id row) (os_ingress_work_id row).

Definition with_claim (attempts : Z) (claimedAt completedAt : option Z) (result : Column) (row : OutboxStorageRow) : OutboxStorageRow :=
  mkOutboxRow (os_type row) (os_chat_id row) (os_message_id row) (os_message_ids row) (os_media_group_id row) (os_added_at row) (os_status row)
    attempts claimedAt (os_updated_at row) completedAt (os_last_error row) (os_config_json row) result (os_workflow_revision_id row)
    (os_ingress_work_id row).

Definition field_name (f : OutboxPayloadField) : string :=
  match f with field_message_ids => "message_ids" | field_config_json => "config_json" | field_result_json => "result_json" end.

Definition reviewed_status (s : OutboxStatus) : OutboxStatus :=
  match s with ob_sending => ob_unknown | ob_unknown => ob_unknown | ob_completed => ob_completed | _ => ob_needs_review end.

Definition review_error (errors : list OutboxPayloadField) : string :=
  "Invalid persisted outbox JSON in " +:+ join ", " (map field_name errors) +:+ "; explicit data review required.".

Definition with_review (status : OutboxStatus) (lastError : string) (updatedAt : Z) (task : OutboxTask) : OutboxTask :=
  mkTask (ot_id task) (ot_type task) (ot_chatId task) (ot_messageId task) (ot_messageIds task) (ot_payloadErrors task) (ot_mediaGroupId task)
    (ot_addedAt task) status (ot_attempts task) (ot_claimedAt task) updatedAt (ot_completedAt task) (Some lastError) (ot_config task)
    (ot_result task) (ot_workflowRevisionId task) (ot_ingressWorkId task).

(** The task of a row; a payload that is not JSON sends it to review. *)
Definition reviewOutboxRow (now : Z) (id : string) (row : OutboxStorageRow) (db : PendingTasks) : OutboxTask * PendingTasks :=
  let task := mapOutboxRow id row in
  match ot_payloadErrors task with
  | [] => (task, db)
  | errors =>
      let status := reviewed_status (ot_status task) in
      let lastError := review_error errors in
      if negb (bool_decide (ot_status task = status)) || negb (bool_decide (ot_lastError task = Some lastError))
      then (with_review status lastError now task, alter (with_status status now (Some lastError)) id db)
      else (with_review status lastError (ot_updatedAt task) task, db)
  end.

(** ** Enqueueing *)
Record EnqueueOutboxTaskInput := mkEnqueue {
  eq_id : string; eq_type : OutboxType; eq_chatId : string; eq_messageId : option Z; eq_messageIds : option (list Z); eq_mediaGroupId : option string;
  eq_addedAt : Z; eq_config : option jsval; eq_workflowRevisionId : option string; eq_ingressWorkId : option string; eq_needsReview : bool }.

Definition validateOutboxTask (task : EnqueueOutboxTaskInput) : result unit :=
  if bool_decide (eq_id task = "") then throw "Outbox task id and type are required."
  else match eq_type task with
  | type_single =>
      match eq_messageId task with
      | Some m => if isSafeInteger m then Ok tt else throw ("Single outbox task " +:+ eq_id task +:+ " requires a safe messageId.")
      | None => throw ("Single outbox task " +:+ eq_id task +:+ " requires a safe messageId.")
      end
  | type_mediaGroup =>
      match eq_messageIds task with
      | Some ((_ :: _) as ids) =>
          if forallb isSafeInteger ids then Ok tt else throw ("Media-group outbox task " +:+ eq_id task +:+ " requires safe messageIds.")
      | _ => throw ("Media-group outbox task " +:+ eq_id task +:+ " requires safe messageIds.")
      end
  end.

Definition to_column (v : option jsval) : Column := match v with Some v => col_json v | None => col_null end.

Definition enqueued (now : Z) (task : EnqueueOutboxTaskInput) : OutboxStorageRow :=
  mkOutboxRow (eq_type task) (eq_chatId task) (eq_messageId task) (to_column ((λ ids, JArray (map JInt ids)) <$> eq_messageIds task))
    (truthy_text (eq_mediaGroupId task)) (eq_addedAt task) (if eq_needsReview task then ob_needs_review else ob_pending) 0 None now None None
    (to_column (eq_config task)) col_null (eq_workflowRevisionId task) (eq_ingressWorkId task).

(** [ON CONFLICT(id) DO NOTHING]: whether a row was inserted. *)
Definition enqueueOutboxTask (now : Z) (task : EnqueueOutboxTaskInput) (db : PendingTasks) : result (bool * PendingTasks) :=
  _ ← validateOutboxTask task;
  match db !! eq_id task with
  | Some _ => Ok (false, db)
  | None => Ok (true, <[eq_id task := enqueued now task]> db)
  end.

(** ** Execution *)
Definition claimOutboxTask (now : Z) (id : string) (db : PendingTasks) : option OutboxTask * PendingTasks :=
  match db !! id with
  | None => (None, db)
  | Some current =>
      let '(task, db) := reviewOutboxRow now id current db in
      if negb (bool_decide (ot_payloadErrors task = [])) || negb (bool_decide (ot_status task ∈ [ob_pending; ob_failed])) then (None, db)
      else
        let row := with_claim (os_attempts current + 1) (Some now) None col_null (with_status ob_preparing now None current) in
        (Some (mapOutboxRow id row), <[id := row]> db)
  end.

Definition sendable (s : OutboxStatus) : bool := match s with ob_preparing | ob_sending => true | _ => false end.

Definition markOutboxSending (now : Z) (id : string) (db : PendingTasks) : result PendingTasks :=
  match db !! id with
  | Some row => if sendable (os_status row) then Ok (<[id := with_status ob_sending now (os_last_error row) row]> db)
                else throw ("Outbox task " +:+ id +:+ " is not in a sendable state.")
  | None => throw ("Outbox task " +:+ id +:+ " is not in a sendable state.")
  end.

Definition completed (now : Z) (result : option jsval) (row : OutboxStorageRow) : OutboxStorageRow :=
  with_claim (os_attempts row) (os_claimed_at row) (Some now) (to_column result) (with_status ob_completed now None row).

Definition completeOutboxTask (now : Z) (id : string) (result_ : option jsval) (db : PendingTasks) : result PendingTasks :=
  match db !! id with
  | Some row => if sendable (os_status row) then Ok (<[id := completed now result_ row]> db)
                else throw ("Outbox task " +:+ id +:+ " cannot be completed from its current state.")
  | None => throw ("Outbox task " +:+ id +:+ " cannot be completed from its current state.")
  end.

(** The thrown value: an [Error], a string, or something else. *)
Inductive Failure := FailureError (e : error) | FailureString (s : string) | FailureOther.

Definition failure_message (f : Failure) : string :=
  of_chars (take 4000 (chars (match f with FailureError e => message e | FailureString s => s | FailureOther => "Unknown outbox failure" end))).

Definition needs_review (f : Failure) : bool :=
  match f with
  | FailureError e => bool_decide (code e ∈ ["SignalConflictError"; "OutboxMessageIdsError"; "AiUsageSettlementError"])
  | _ => false
  end.

Definition failed_status (f : Failure) (s : OutboxStatus) : OutboxStatus :=
  match s with ob_sending => ob_unknown | _ => if needs_review f then ob_needs_review else ob_failed end.

Definition failOutboxTask (now : Z) (id : string) (f : Failure) (db : PendingTasks) : result (OutboxStatus * PendingTasks) :=
  match db !! id with
  | Some row =>
      if sendable (os_status row) then
        let status := failed_status f (os_status row) in
        Ok (status, <[id := with_claim (os_attempts row) (os_claimed_at row) None col_null (with_status status now (Some (failure_message f)) row)]> db)
      else throw ("Outbox task " +:+ id +:+ " cannot be failed from its current state.")
  | None => throw ("Outbox task " +:+ id +:+ " cannot be failed from its current state.")
  end.

Definition REQUEUED : string := "Process stopped while preparing; task safely requeued before provider send.".
Definition STOPPED : string := "Process stopped after provider send began; automatic retry blocked to prevent duplicates.".

Definition recover_row (now : Z) (row : OutboxStorageRow) : OutboxStorageRow :=
  match os_status row with
  | ob_preparing => with_claim (os_attempts row) None (os_completed_at row) (os_result_json row) (with_status ob_pending now (Some REQUEUED) row)
  | ob_sending => with_status ob_unknown now (Some STOPPED) row
  | _ => row
  end.

Definition count_status (s : OutboxStatus) (db : PendingTasks) : nat := size (filter (λ row : string * OutboxStorageRow, os_status row.2 = s) db).

(** The numbers of requeued and of unknown tasks. *)
Definition recoverInterruptedOutboxTasks (now : Z) (db : PendingTasks) : nat * nat * PendingTasks :=
  (count_status ob_preparing db, count_status ob_sending db, recover_row now <$> db).

(** ** Reading and scheduling *)

(** Rows with their keys, by [added_at] and then by [id]. *)
#[local] Abbreviation Row := (string * OutboxStorageRow)%type.
#[local] Abbreviation select := (Table.select os_added_at).

(** [Number.isSafeInteger(limit) ? Math.max(1, Math.min(limit, 1000)) : 100] *)
Definition safe_limit (limit : option Z) : Z :=
  match limit with Some l => if isSafeInteger l then Z.max 1 (Z.min l 1000) else 100 | None => 100 end.

Definition getOutboxTask (now : Z) (id : string) (db : PendingTasks) : option OutboxTask * PendingTasks :=
  match db !! id with
  | None => (None, db)
  | Some row => let '(task, db) := reviewOutboxRow now id row db in (Some task, db)
  end.

(** The loops over the rows a query returned. *)
Fixpoint review_all (now : Z) (rows : list Row) (db : PendingTasks) : list OutboxTask * PendingTasks :=
  match rows with
  | [] => ([], db)
  | (id, row) :: rest =>
      let '(task, db) := reviewOutboxRow now id row db in
      let '(tasks, db) := review_all now rest db in
      (task :: tasks, db)
  end.

Definition listOutboxTasks (now : Z) (statuses : option (list OutboxStatus)) (limit : option Z) (db : PendingTasks) : list OutboxTask * PendingTasks :=
  let rows := match statuses with
              | Some ((_ :: _) as wanted) => select (λ row, os_status row.2 ∈ wanted) db
              | _ => select (λ _, True) db
              end in
  review_all now (take (Z.to_nat (safe_limit limit)) rows) db.

Definition is_candidate (excluded : list string) (row : Row) : Prop := os_status row.2 = ob_pending ∧ row.1 ∉ excluded.
#[export] Instance is_candidate_dec excluded row : Decision (is_candidate excluded row).
Proof. unfold is_candidate. apply _. Defined.

Definition valid_task (task : OutboxTask) : Prop := ot_payloadErrors task = [].
#[export] Instance valid_task_dec task : Decision (valid_task task).
Proof. unfold valid_task. apply _. Defined.

(** The while loop: the tasks found so far and the rows that remain. *)
Fixpoint schedule_loop (fuel : nat) (now : Z) (excluded : list string) (limit remaining : nat) (tasks : list OutboxTask) (db : PendingTasks)
    : list OutboxTask * PendingTasks :=
  match fuel with
  | O => (tasks, db)
  | S fuel' =>
      if (remaining =? 0)%nat || (limit <=? length tasks)%nat then (tasks, db)
      else
        let rows := take (Nat.min remaining (limit - length tasks)) (select (is_candidate (excluded ++ map ot_id tasks)) db) in
        match rows with
        | [] => (tasks, db)
        | _ =>
            let '(reviewed, db) := review_all now rows db in
            schedule_loop fuel' now excluded limit (remaining - length rows) (tasks ++ filter valid_task reviewed) db
        end
  end.

Definition listPendingOutboxTasksForScheduling (now : Z) (excludedTaskIds : list string) (limit : option Z) (db : PendingTasks)
    : list OutboxTask * PendingTasks :=
  let excluded := take 1000 (remove_dups (filter (λ id, id ≠ "") excludedTaskIds)) in
  let remaining := length (select (is_candidate excluded) db) in
  schedule_loop (S remaining) now excluded (Z.to_nat (safe_limit limit)) remaining [] db.

(** ** Operator calls and retention *)
Definition requeueOutboxTask (now : Z) (id : string) (db : PendingTasks) : bool * PendingTasks :=
  match db !! id with
  | None => (false, db)
  | Some row =>
      let '(task, db) := reviewOutboxRow now id row db in
      if negb (bool_decide (ot_payloadErrors task = [])) || negb (bool_decide (os_status row ∈ [ob_failed; ob_unknown])) then (false, db)
      else (true, <[id := with_claim (os_attempts row) None None col_null (with_status ob_pending now (Some "Explicit operator retry requested.") row)]> db)
  end.

Definition acknowledgeOutboxTask (now : Z) (id reason : string) (db : PendingTasks) : bool * PendingTasks :=
  match db !! id with
  | Some row =>
      if bool_decide (os_status row = ob_unknown)
      then (true, <[id := completed now (Some (JObject [("acknowledged", JBool true); ("reason", JString (of_chars (take 500 (chars reason))))])) row]> db)
      else (false, db)
  | None => (false, db)
  end.

(** The completed tasks the retention deletes: the oldest completions first. *)
Definition pruned (cutoff : Z) (batchSize : nat) (db : PendingTasks) : list string :=
  take batchSize (map fst (sort_by (λ row, default 0 (os_completed_at row.2))
    (select (λ row, os_status row.2 = ob_completed ∧ default cutoff (os_completed_at row.2) < cutoff) db))).

Definition pruneCompleted (cutoff : Z) (batchSize : nat) (db : PendingTasks) : PendingTasks := foldr delete db (pruned cutoff batchSize db).

(** ** Calls *)
Inductive OutboxCall :=
| call_enqueue (task : EnqueueOutboxTaskInput)
| call_claim (id : string)
| call_markSending (id : string)
| call_complete (id : string) (result : option jsval)
| call_fail (id : string) (f : Failure)
| call_recover
| call_get (id : string)
| call_list (statuses : option (list OutboxStatus)) (limit : option Z)
| call_listPending (excluded : list string) (limit : option Z)
| call_requeue (id : string)
| call_acknowledge (id reason : string)
| call_prune (cutoff : Z) (batchSize : nat).

Inductive Outcome := out_done | out_bool (b : bool) | out_task (task : option OutboxTask) | out_tasks (tasks : list OutboxTask)
| out_status (s : OutboxStatus) | out_recovered (requeued unknown : nat).

(** One call; a throw leaves the table as it was. *)
Definition apply (now : Z) (call : OutboxCall) (db : PendingTasks) : result Outcome * PendingTasks :=
  match call with
  | call_enqueue task => match enqueueOutboxTask now task db with Ok (b, db') => (Ok (out_bool b), db') | Err e => (Err e, db) end
  | call_claim id => let '(t, db') := claimOutboxTask now id db in (Ok (out_task t), db')
  | call_markSending id => match markOutboxSending now id db with Ok db' => (Ok out_done, db') | Err e => (Err e, db) end
  | call_complete id r => match completeOutboxTask now id r db with Ok db' => (Ok out_done, db') | Err e => (Err e, db) end
  | call_fail id f => match failOutboxTask now id f db with Ok (s, db') => (Ok (out_status s), db') | Err e => (Err e, db) end
  | call_recover => let '(n, m, db') := recoverInterruptedOutboxTasks now db in (Ok (out_recovered n m), db')
  | call_get id => let '(t, db') := getOutboxTask now id db in (Ok (out_task t), db')
  | call_list statuses limit => let '(ts, db') := listOutboxTasks now statuses limit db in (Ok (out_tasks ts), db')
  | call_listPending excluded limit => let '(ts, db') := listPendingOutboxTasksForScheduling now excluded limit db in (Ok (out_tasks ts), db')
  | call_requeue id => let '(b, db') := requeueOutboxTask now id db in (Ok (out_bool b), db')
  | call_acknowledge id reason => let '(b, db') := acknowledgeOutboxTask now id reason db in (Ok (out_bool b), db')
  | call_prune cutoff batchSize => (Ok out_done, pruneCompleted cutoff batchSize db)
  end.

(** A run of calls, with what each answered. *)
Fixpoint run (calls : list (Z * OutboxCall)) (db : PendingTasks) : list (result Outcome) * PendingTasks :=
  match calls with
  | [] => ([], db)
  | (now, call) :: rest =>
      let '(r, db) := apply now call db in
      let '(rs, db) := run rest db in
      (r :: rs, db)
  end.

(** ** The lifecycle of a task

    What a call may do to the status of a task without an operator. *)
Definition automatic_move (s t : OutboxStatus) : bool :=
  match s, t with
  | (ob_pending | ob_failed), ob_preparing | ob_preparing, ob_sending | (ob_preparing | ob_sending), ob_completed
  | ob_preparing, (ob_failed | ob_pending) | ob_sending, ob_unknown | (ob_pending | ob_preparing | ob_failed), ob_needs_review => true
  | _, _ => bool_decide (s = t)
  end.

(** The columns no call changes. *)
Definition same_payload (a b : OutboxStorageRow) : Prop :=
  os_type a = os_type b ∧ os_chat_id a = os_chat_id b ∧ os_message_id a = os_message_id b ∧ os_message_ids a = os_message_ids b ∧
  os_media_group_id a = os_media_group_id b ∧ os_added_at a = os_added_at b ∧ os_config_json a = os_config_json b ∧
  os_workflow_revision_id a = os_workflow_revision_id b ∧ os_ingress_work_id a = os_ingress_work_id b.

#[export] Instance same_payload_refl : Reflexive same_payload.
Proof. by intros a. Qed.
#[export] Instance same_payload_trans : Transitive same_payload.
Proof. unfold same_payload. intros a b c H1 H2. destruct_and!. repeat split; congruence. Qed.

(** ** Reviews *)
Definition review_task (now : Z) (row : Row) : OutboxTask := fst (reviewOutboxRow now row.1 row.2 ∅).

Definition review_row (now : Z) (row : Row) : OutboxStorageRow :=
  match payloadErrors row.2 with
  | [] => row.2
  | errors =>
      let status := reviewed_status (os_status row.2) in
      if negb (bool_decide (os_status row.2 = status)) || negb (bool_decide (truthy_text (os_last_error row.2) = Some (review_error errors)))
      then with_status status now (Some (review_error errors)) row.2 else row.2
  end.

Lemma reviewOutboxRow_eq now id row db : db !! id = Some row →
  reviewOutboxRow now id row db = (review_task now (id, row), <[id := review_row now (id, row)]> db).
Proof.
  intros Hr. unfold review_task, review_row, reviewOutboxRow. cbn [fst snd ot_payloadErrors mapOutboxRow ot_status ot_lastError].
  destruct (payloadErrors row) as [|f fs]; [by rewrite insert_id|].
  destruct (negb _ || negb _); cbn [fst].
  - f_equal. apply map_eq. intros i. destruct (decide (i = id)) as [->|]; [by rewrite lookup_alter_eq, lookup_insert_eq, Hr|].
    by rewrite lookup_alter_ne, lookup_insert_ne.
  - by rewrite insert_id.
Qed.

Lemma review_task_id now row : ot_id (review_task now row) = row.1.
Proof. unfold review_task, reviewOutboxRow. cbn [ot_payloadErrors mapOutboxRow]. destruct (payloadErrors row.2); [done|]. by destruct (negb _ || negb _). Qed.

Lemma review_task_errors now row : ot_payloadErrors (review_task now row) = payloadErrors row.2.
Proof.
  unfold review_task, reviewOutboxRow. cbn [ot_payloadErrors mapOutboxRow]. destruct (payloadErrors row.2) eqn:E; [done|]. by destruct (negb _ || negb _).
Qed.

Lemma review_task_valid now row : payloadErrors row.2 = [] → review_task now row = mapOutboxRow row.1 row.2 ∧ review_row now row = row.2.
Proof. intros H. unfold review_task, review_row, reviewOutboxRow. cbn [ot_payloadErrors mapOutboxRow]. by rewrite H. Qed.

Lemma review_row_payload now row : same_payload row.2 (review_row now row) ∧ os_attempts (review_row now row) = os_attempts row.2.
Proof. unfold review_row. destruct (payloadErrors row.2); [done|]. by destruct (negb _ || negb _). Qed.

Lemma review_row_move now row : automatic_move (os_status row.2) (os_status (review_row now row)) = true.
Proof.
  unfold review_row. destruct (payloadErrors row.2); [by destruct (os_status row.2)|].
  destruct (negb _ || negb _); cbn [os_status with_status]; by destruct (os_status row.2).
Qed.

Lemma review_row_pending now row : os_status row.2 = ob_pending → payloadErrors row.2 ≠ [] → os_status (review_row now row) ≠ ob_pending.
Proof. intros Hs He. unfold review_row. rewrite Hs. destruct (payloadErrors row.2); [done|]. by cbn. Qed.

(** Reviewing the rows a query returned. *)
Definition write_back (now : Z) (rows : list Row) (db : PendingTasks) : PendingTasks :=
  foldl (λ db row, <[row.1 := review_row now row]> db) db rows.

Lemma review_all_eq now rows db : NoDup (map fst rows) → Forall (λ row : Row, db !! row.1 = Some row.2) rows →
  review_all now rows db = (map (review_task now) rows, write_back now rows db).
Proof.
  revert db. induction rows as [|[id row] rows IH]; intros db Hnd Hrows; [done|]. cbn [review_all map] in *.
  apply NoDup_cons in Hnd as [Hid Hnd]. apply Forall_cons in Hrows as [Hr Hrows]. cbn [fst snd] in *.
  rewrite (reviewOutboxRow_eq now id row db Hr). cbv zeta. rewrite IH; [done|done|]. rewrite Forall_forall in *. intros r Hin.
  rewrite lookup_insert_ne; [by apply Hrows|]. intros ->. apply Hid. apply list_elem_of_fmap. by exists r.
Qed.

Lemma write_back_other now rows db id : id ∉ map fst rows → write_back now rows db !! id = db !! id.
Proof.
  unfold write_back. revert db. induction rows as [|row rows IH]; intros db Hid; [done|]. cbn [foldl map] in *.
  rewrite not_elem_of_cons in Hid. destruct Hid as [Hne Hid]. rewrite IH by done. by rewrite lookup_insert_ne by done.
Qed.

Lemma write_back_in now rows db row : NoDup (map fst rows) → row ∈ rows → write_back now rows db !! row.1 = Some (review_row now row).
Proof.
  unfold write_back. revert db. induction rows as [|r rows IH]; intros db Hnd Hin; [by apply not_elem_of_nil in Hin|].
  cbn [foldl map] in *. apply NoDup_cons in Hnd as [Hid Hnd]. rewrite elem_of_cons in Hin. destruct Hin as [->|Hin]; [|by apply IH].
  fold (write_back now rows (<[r.1 := review_row now r]> db)). rewrite write_back_other by done. by rewrite lookup_insert_eq.
Qed.

Lemma write_back_app now rows rows' db : write_back now (rows ++ rows') db = write_back now rows' (write_back now rows db).
Proof. unfold write_back. by rewrite foldl_app. Qed.

(** ** Scheduling *)
Section Schedule.
Context (now : Z) (excluded : list string) (db0 : PendingTasks).
Abbreviation candidates := (select (is_candidate excluded) db0).

(** The tasks a scan of [rows] keeps. *)
Definition kept (rows : list Row) : list OutboxTask := filter valid_task (map (review_task now) rows).

Lemma kept_app a b : kept (a ++ b) = kept a ++ kept b.
Proof. unfold kept. by rewrite map_app, filter_app. Qed.

Lemma kept_In task rows : task ∈ kept rows ↔ ∃ row, row ∈ rows ∧ task = review_task now row ∧ payloadErrors row.2 = [].
Proof.
  unfold kept. rewrite list_elem_of_filter, list_elem_of_fmap. unfold valid_task. split.
  - intros (Hv & row & -> & Hin). rewrite review_task_errors in Hv. by exists row.
  - intros (row & Hin & -> & Hv). rewrite review_task_errors. split; [done|]. by exists row.
Qed.

Lemma candidates_again P Q : candidates = P ++ Q → select (is_candidate (excluded ++ map ot_id (kept P))) (write_back now P db0) = Q.
Proof.
  intros HS. pose proof (select_NoDup (time := os_added_at) (is_candidate excluded) db0) as Hnd. rewrite HS in Hnd. pose proof Hnd as Hnd'.
  rewrite map_app in Hnd. apply NoDup_app in Hnd as (HndP & Hdisj & HndQ).
  pose proof (select_sorted (time := os_added_at) (is_candidate excluded) db0) as Hsort. rewrite HS in Hsort.
  assert (∀ row, row ∈ P ++ Q ↔ db0 !! row.1 = Some row.2 ∧ is_candidate excluded row) as Hin by (intros row; rewrite <-HS; apply select_In).
  apply select_unique.
  - by eapply StronglySorted_app_1_r.
  - by eapply (NoDup_fmap_1 fst).
  - intros [id row]. cbn [fst snd]. split.
    + intros HQ. destruct (proj1 (Hin (id, row))) as [Hr [Hp He]]; [apply elem_of_app; by right|]. cbn [fst snd] in *.
      assert (id ∉ map fst P) as HidP. { intros HP. apply (Hdisj id HP). apply list_elem_of_fmap. by exists (id, row). }
      rewrite write_back_other by done. split; [done|]. split; [done|]. cbn [fst]. rewrite elem_of_app. intros [?|Hk]; [done|].
      apply list_elem_of_fmap in Hk as (task & -> & Hk). apply kept_In in Hk as (r & Hr' & -> & _). apply HidP.
      rewrite review_task_id. apply list_elem_of_fmap. by exists r.
    + intros (Hr & Hp & He). cbn [fst snd] in *. rewrite elem_of_app in He. destruct (decide (id ∈ map fst P)) as [HidP|HidP].
      * exfalso. apply list_elem_of_fmap in HidP as ([id' row0] & -> & HP). cbn [fst] in *.
        pose proof (write_back_in now P db0 (id', row0) HndP HP) as Hw. cbn [fst] in Hw. rewrite Hw in Hr. injection Hr as <-.
        destruct (proj1 (Hin (id', row0))) as [_ [Hp0 _]]; [apply elem_of_app; by left|]. cbn [snd] in Hp0.
        destruct (decide (payloadErrors row0 = [])) as [Hv|Hv]; [|by apply (review_row_pending now (id', row0) Hp0 Hv)].
        apply He. right. apply list_elem_of_fmap. exists (review_task now (id', row0)). rewrite review_task_id. split; [done|].
        apply kept_In. by exists (id', row0).
      * rewrite write_back_other in Hr by done. assert (id ∉ excluded) as He' by (intros ?; apply He; by left).
        assert ((id, row) ∈ P ++ Q) as Hpq by (apply Hin; done). apply elem_of_app in Hpq as [HP|HQ]; [|done].
        exfalso. apply HidP. apply list_elem_of_fmap. by exists (id, row).
Qed.

Lemma schedule_loop_eq fuel limit P Q : candidates = P ++ Q → (length Q < fuel)%nat → (length (kept P) <= limit)%nat → ∃ P' Q',
  candidates = P' ++ Q' ∧
  schedule_loop fuel now excluded limit (length Q) (kept P) (write_back now P db0) = (take limit (kept candidates), write_back now P' db0).
Proof.
  revert P Q. induction fuel as [|fuel IH]; intros P Q HS Hf Hl; [lia|]. cbn [schedule_loop].
  destruct (Nat.eqb_spec (length Q) 0) as [EQ|EQ]; cbn [orb].
  { apply length_zero_iff_nil in EQ as ->. exists P, []. split; [done|]. rewrite app_nil_r in HS. rewrite HS. by rewrite take_ge. }
  destruct (Nat.leb_spec limit (length (kept P))) as [El|El].
  { exists P, Q. split; [done|]. rewrite HS, kept_app, take_app_le, take_ge by lia. done. }
  rewrite (candidates_again P Q HS). set (k := Nat.min (length Q) (limit - length (kept P))).
  destruct (take k Q) as [|r rest] eqn:Ek. { apply (f_equal length) in Ek. rewrite length_take in Ek. cbn in Ek. unfold k in Ek. lia. }
  rewrite <-Ek. clear r rest Ek. pose proof (select_NoDup (time := os_added_at) (is_candidate excluded) db0) as Hnd. rewrite HS in Hnd.
  assert (candidates = (P ++ take k Q) ++ drop k Q) as HS' by by rewrite <-app_assoc, take_drop.
  pose proof (select_NoDup (time := os_added_at) (is_candidate excluded) db0) as Hnd'. rewrite HS', map_app in Hnd'. apply NoDup_app in Hnd' as (Hnd' & _ & _).
  rewrite map_app in Hnd'. apply NoDup_app in Hnd' as (HndP & Hdisj & Hndk).
  rewrite review_all_eq; [|done|].
  - rewrite <-write_back_app. fold (kept (take k Q)). rewrite <-kept_app.
    replace (length Q - length (take k Q))%nat with (length (drop k Q)) by (rewrite length_take, length_drop; lia).
    apply IH; [done|rewrite length_drop; unfold k; lia|]. rewrite kept_app, length_app. unfold kept at 2.
    pose proof (length_filter valid_task (map (review_task now) (take k Q))) as Hlf. rewrite length_map, length_take in Hlf. unfold k in *. lia.
  - apply Forall_forall. intros row Hrow. rewrite write_back_other.
    + pose proof (select_lookup (time := os_added_at) (is_candidate excluded) db0) as HF. rewrite HS', Forall_forall in HF. apply HF.
      apply elem_of_app. left. apply elem_of_app. by right.
    + intros HP. apply (Hdisj _ HP). apply list_elem_of_fmap. by exists row.
Qed.
End Schedule.

(** ** What a call does to one row *)
Definition claims (call : OutboxCall) (id : string) : Prop := call = call_claim id.
(** The moves an operator makes. *)
Definition operated (call : OutboxCall) (id : string) (s t : OutboxStatus) : Prop :=
  (call = call_requeue id ∧ (s = ob_failed ∨ s = ob_unknown) ∧ t = ob_pending) ∨
  ((∃ reason, call = call_acknowledge id reason) ∧ s = ob_unknown ∧ t = ob_completed).

(** A row before and after a call, [None] when the table has none. *)
Definition evolves (call : OutboxCall) (now : Z) (id : string) (before after : option OutboxStorageRow) : Prop :=
  match before, after with
  | None, None => True
  | None, Some row => ∃ task, call = call_enqueue task ∧ eq_id task = id ∧ row = enqueued now task
  | Some row, None => ∃ cutoff n t, call = call_prune cutoff n ∧ os_status row = ob_completed ∧ os_completed_at row = Some t ∧ t < cutoff
  | Some row, Some row' =>
      same_payload row row' ∧
      (automatic_move (os_status row) (os_status row') = true ∨ operated call id (os_status row) (os_status row')) ∧
      (os_attempts row' = os_attempts row ∨ (claims call id ∧ os_attempts row' = os_attempts row + 1)) ∧
      (os_status row' = ob_preparing → os_status row = ob_preparing ∨ claims call id) ∧
      (os_status row = ob_preparing → os_status row' ∈ [ob_pending; ob_failed] → call = call_recover ∨ ∃ f, call = call_fail id f)
  end.

Lemma not_restarted (s : OutboxStatus) (P : Prop) : s ∈ [ob_pending; ob_failed] → s ≠ ob_pending → s ≠ ob_failed → P.
Proof. rewrite !elem_of_cons, elem_of_nil. naive_solver. Qed.

Lemma evolves_refl call now id o : evolves call now id o o.
Proof.
  destruct o as [row|]; [|done]. split; [done|]. split; [left; by destruct (os_status row)|]. split; [by left|]. split; [by left|].
  intros -> Hin. by eapply not_restarted.
Qed.

Lemma evolves_insert call now id i row row' (db : PendingTasks) : db !! i = Some row → evolves call now i (Some row) (Some row') →
  evolves call now id (db !! id) (<[i := row']> db !! id).
Proof.
  intros Hr He. destruct (decide (id = i)) as [->|]; [by rewrite lookup_insert_eq, Hr|]. rewrite lookup_insert_ne by done. apply evolves_refl.
Qed.

Lemma evolves_review call now id row : evolves call now id (Some row) (Some (review_row now (id, row))).
Proof.
  destruct (review_row_payload now (id, row)) as [Hp Ha]. split; [exact Hp|]. split; [left; apply (review_row_move now (id, row))|]. split; [by left|].
  unfold review_row. cbn [snd]. destruct (payloadErrors row); [|destruct (negb _ || negb _)].
  1,3: split; [by left|]; intros -> Hin; by eapply not_restarted.
  cbn [os_status with_status]. split; [intros Hs; by destruct (os_status row)|]. intros -> Hin. by eapply not_restarted.
Qed.

Lemma evolves_write_back call now id rows (db : PendingTasks) : NoDup (map fst rows) → Forall (λ row : Row, db !! row.1 = Some row.2) rows →
  evolves call now id (db !! id) (write_back now rows db !! id).
Proof.
  intros Hnd Hrows. destruct (decide (id ∈ map fst rows)) as [Hin|Hin]; [|rewrite write_back_other by done; apply evolves_refl].
  apply list_elem_of_fmap in Hin as ([i row] & -> & Hin). rewrite Forall_forall in Hrows. pose proof (Hrows _ Hin) as Hr. cbn [fst snd] in *.
  pose proof (write_back_in now rows db (i, row) Hnd Hin) as Hw. cbn [fst] in Hw. rewrite Hw, Hr. apply evolves_review.
Qed.

Lemma evolves_take_rows call now id k (p : Row → Prop) `{∀ row, Decision (p row)} (db : PendingTasks) :
  evolves call now id (db !! id) (snd (review_all now (take k (select p db)) db) !! id).
Proof.
  pose proof (select_NoDup (time := os_added_at) p db) as Hnd. pose proof (select_lookup (time := os_added_at) p db) as HF. rewrite <-(take_drop k (select p db)) in Hnd, HF.
  rewrite map_app in Hnd. apply NoDup_app in Hnd as (Hnd & _ & _). apply Forall_app in HF as [HF _].
  rewrite review_all_eq by done. by apply evolves_write_back.
Qed.

Lemma listPending_prefix now excluded limit db : ∃ rows rest, select (is_candidate (take 1000 (remove_dups (filter (λ id, id ≠ "") excluded)))) db = rows ++ rest ∧
  listPendingOutboxTasksForScheduling now excluded limit db =
    (take (Z.to_nat (safe_limit limit)) (kept now (select (is_candidate (take 1000 (remove_dups (filter (λ id, id ≠ "") excluded)))) db)), write_back now rows db).
Proof.
  unfold listPendingOutboxTasksForScheduling. set (ex := take 1000 _).
  destruct (schedule_loop_eq now ex db (S (length (select (is_candidate ex) db))) (Z.to_nat (safe_limit limit)) [] (select (is_candidate ex) db))
    as (P & Q & HS & E); [done|lia|cbn; lia|]. exists P, Q. split; [exact HS|]. exact E.
Qed.

Lemma pruned_completed cutoff n db id : id ∈ pruned cutoff n db → ∃ row t, db !! id = Some row ∧ os_status row = ob_completed ∧ os_completed_at row = Some t ∧ t < cutoff.
Proof.
  unfold pruned. intros Hin. apply (elem_of_sublist_take n) in Hin || (apply elem_of_take in Hin as (i & Hi & _); apply list_elem_of_lookup_2 in Hi as Hin).
  apply list_elem_of_fmap in Hin as (row & -> & Hin). rewrite (sort_by_Permutation _ _) in Hin. apply select_In in Hin as (Hr & Hs & Ht).
  exists row.2. destruct (os_completed_at row.2) as [t|]; cbn in Ht; [|lia]. by exists t.
Qed.

(** A review inside an operation: the payload is bad and the row was sent to
    review, or the table is unchanged. *)
Lemma review_cases now i row (db : PendingTasks) : db !! i = Some row →
  let '(task, db') := reviewOutboxRow now i row db in
  (ot_payloadErrors task ≠ [] ∧ db' = <[i := review_row now (i, row)]> db) ∨ (ot_payloadErrors task = [] ∧ task = mapOutboxRow i row ∧ db' = db).
Proof.
  intros E. rewrite (reviewOutboxRow_eq now i row db E), review_task_errors. cbn [snd].
  destruct (decide (payloadErrors row = [])) as [Hv|Hv]; [|by left]. right. destruct (review_task_valid now (i, row) Hv) as [-> ->].
  split; [done|]. split; [done|]. by apply insert_id.
Qed.

Lemma evolves_claim now i db t db' id : claimOutboxTask now i db = (t, db') → evolves (call_claim i) now id (db !! id) (db' !! id) ∧
  (∀ task, t = Some task → ∃ row, db !! i = Some row ∧ (os_status row = ob_pending ∨ os_status row = ob_failed) ∧ payloadErrors row = []).
Proof.
  unfold claimOutboxTask. destruct (db !! i) as [row|] eqn:E; [|intros [= <- <-]; split; [apply evolves_refl|done]].
  pose proof (review_cases now i row db E) as Hr. destruct (reviewOutboxRow now i row db) as [task db1]. destruct Hr as [[Hv ->]|(Hv & -> & ->)].
  { rewrite bool_decide_false by done. intros [= <- <-]. split; [|done]. eapply evolves_insert; [done|apply evolves_review]. }
  rewrite bool_decide_true by done. cbn [negb orb ot_status mapOutboxRow].
  destruct (negb (bool_decide _)) eqn:Es; intros [= <- <-]; [split; [apply evolves_refl|done]|].
  apply negb_false_iff, bool_decide_eq_true in Es. rewrite !elem_of_cons, elem_of_nil in Es.
  split; [|intros _ _; exists row; split; [done|]; split; [naive_solver|exact Hv]]. eapply evolves_insert; [done|]. split; [done|]. cbn. split.
  - left. by destruct Es as [->|[->|[]]].
  - split; [by right|]. split; [by right|]. intros Hp. by destruct Es as [E1|[E1|[]]]; rewrite E1 in Hp.
Qed.

Lemma evolves_requeue now i db b db' id : requeueOutboxTask now i db = (b, db') → evolves (call_requeue i) now id (db !! id) (db' !! id).
Proof.
  unfold requeueOutboxTask. destruct (db !! i) as [row|] eqn:E; [|intros [= <- <-]; apply evolves_refl].
  pose proof (review_cases now i row db E) as Hr. destruct (reviewOutboxRow now i row db) as [task db1]. destruct Hr as [[Hv ->]|(Hv & -> & ->)].
  { rewrite bool_decide_false by done. intros [= <- <-]. eapply evolves_insert; [done|apply evolves_review]. }
  rewrite bool_decide_true by done. cbn [negb orb]. destruct (negb (bool_decide _)) eqn:Es; intros [= <- <-]; [apply evolves_refl|].
  apply negb_false_iff, bool_decide_eq_true in Es. rewrite !elem_of_cons, elem_of_nil in Es. eapply evolves_insert; [done|]. split; [done|]. cbn.
  split; [|split; [by left|]; split; [done|]; intros Hp; by destruct Es as [E1|[E1|[]]]; rewrite E1 in Hp].
  right. left. split; [done|]. split; [by destruct Es as [->|[->|[]]]; [left|right]|done].
Qed.

(** The operations on a task in execution. *)
Lemma evolves_sendable (call : OutboxCall) now i row row' (db : PendingTasks) id : db !! i = Some row → sendable (os_status row) = true → same_payload row row' →
  os_attempts row' = os_attempts row → automatic_move (os_status row) (os_status row') = true → os_status row' ≠ ob_preparing →
  (os_status row' ∉ [ob_pending; ob_failed] ∨ ∃ f, call = call_fail i f) → evolves call now id (db !! id) (<[i := row']> db !! id).
Proof.
  intros E Hs Hp Ha Hm Hn Hf. eapply evolves_insert; [done|]. split; [done|]. split; [by left|]. split; [by left|]. split; [done|].
  intros _ Hin. destruct Hf as [Hf|Hf]; [done|by right].
Qed.

Ltac execution H i :=
  match type of H with context [?db !! i] =>
    let row := fresh "row" in let E := fresh "E" in let Es := fresh "Es" in
    destruct (db !! i) as [row|] eqn:E; [|injection H as _ <-; apply evolves_refl];
    destruct (sendable (os_status row)) eqn:Es; injection H as _ <-; [|apply evolves_refl];
    eapply evolves_sendable; [exact E|exact Es|done|done|..]
  end.

Lemma evolves_recover now id row : evolves call_recover now id (Some row) (Some (recover_row now row)).
Proof.
  unfold evolves, recover_row. destruct (os_status row) eqn:Es; cbn; rewrite ?Es; cbn; (split; [done|]); (split; [by left|]); (split; [by left|]);
    (split; [by left || done|intros; by left]).
Qed.

(** Every call moves each row along the lifecycle. *)
Lemma apply_evolves now call db r db' id : apply now call db = (r, db') → evolves call now id (db !! id) (db' !! id).
Proof.
  intros H. destruct call as [task|i|i|i v|i f| |i|statuses limit|ex limit|i|i reason|cutoff n]; cbn [apply] in H.
  - unfold enqueueOutboxTask in H. destruct (validateOutboxTask task); cbn [mbind result_bind] in H; [|injection H as _ <-; apply evolves_refl].
    destruct (db !! eq_id task) as [row|] eqn:E; injection H as _ <-; [apply evolves_refl|].
    destruct (decide (id = eq_id task)) as [->|]; [|rewrite lookup_insert_ne by done; apply evolves_refl].
    rewrite E, lookup_insert_eq. by exists task.
  - destruct (claimOutboxTask now i db) as [t d] eqn:E. injection H as _ <-. by eapply evolves_claim.
  - unfold markOutboxSending in H. execution H i; cbn; [by destruct (os_status row)|done|left; by intros Hin; eapply not_restarted].
  - unfold completeOutboxTask in H. execution H i; cbn; [by destruct (os_status row)|done|left; by intros Hin; eapply not_restarted].
  - unfold failOutboxTask in H. execution H i; cbn; [|by unfold failed_status; destruct (os_status row), (needs_review f)|right; by exists f].
    unfold failed_status. by destruct (os_status row), (needs_review f).
  - injection H as _ <-. rewrite lookup_fmap. destruct (db !! id) as [row|]; [|done]. apply evolves_recover.
  - unfold getOutboxTask in H. destruct (db !! i) as [row|] eqn:E; [|injection H as _ <-; apply evolves_refl].
    rewrite (reviewOutboxRow_eq now i row db E) in H. injection H as _ <-. eapply evolves_insert; [done|apply evolves_review].
  - unfold listOutboxTasks in H. destruct (review_all _ _ _) as [ts db1] eqn:E in H. injection H as _ <-. apply (f_equal snd) in E. cbn [snd] in E. subst db1.
    destruct statuses as [[|s ss]|]; apply evolves_take_rows.
  - destruct (listPending_prefix now ex limit db) as (rows & rest & HS & E). rewrite E in H. injection H as _ <-.
    pose proof (select_NoDup (time := os_added_at) (is_candidate (take 1000 (remove_dups (filter (λ id, id ≠ "") ex)))) db) as Hnd.
    pose proof (select_lookup (time := os_added_at) (is_candidate (take 1000 (remove_dups (filter (λ id, id ≠ "") ex)))) db) as HF. rewrite HS in Hnd, HF.
    rewrite map_app in Hnd. apply NoDup_app in Hnd as (Hnd & _ & _). apply Forall_app in HF as [HF _]. by apply evolves_write_back.
  - destruct (requeueOutboxTask now i db) as [b d] eqn:E. injection H as _ <-. by eapply evolves_requeue.
  - unfold acknowledgeOutboxTask in H. destruct (db !! i) as [row|] eqn:E; [|injection H as _ <-; apply evolves_refl].
    destruct (bool_decide _) eqn:Es in H; injection H as _ <-; [|apply evolves_refl]. apply bool_decide_eq_true in Es.
    eapply evolves_insert; [done|]. split; [done|]. cbn. rewrite Es. split; [|split; [by left|]; split; done]. right. right. split; [by exists reason|done].
  - injection H as _ <-. unfold pruneCompleted. rewrite foldr_delete_lookup. destruct (bool_decide _) eqn:Ep; [|apply evolves_refl].
    apply bool_decide_eq_true, pruned_completed in Ep as (row & t & -> & Hs & Ht & Hlt). by exists cutoff, n, t.
Qed.

(** ** Runs *)
Definition prunes (call : OutboxCall) : Prop := ∃ cutoff n, call = call_prune cutoff n.

(** A set of statuses in which the task cannot be claimed and which the allowed
    calls do not leave. *)
Lemma run_guarded id (inside : OutboxStatus → bool) (allowed : OutboxCall → Prop) calls :
  inside ob_pending = false → inside ob_failed = false →
  (∀ row row' now call, allowed call → evolves call now id (Some row) (Some row') → inside (os_status row) = true → inside (os_status row') = true) →
  Forall (λ c : Z * OutboxCall, allowed c.2 ∧ ¬ prunes c.2) calls → ∀ db row rs db', db !! id = Some row → inside (os_status row) = true →
  run calls db = (rs, db') → (∃ row', db' !! id = Some row' ∧ inside (os_status row') = true) ∧
    ∀ i t, calls !! i = Some (t, call_claim id) → rs !! i = Some (Ok (out_task None)).
Proof.
  intros Hp Hf Hstep Hall. induction Hall as [|[now call] calls [Ha Hnp] _ IH]; intros db row rs db' Hr Hin H; cbn [run] in H.
  { injection H as <- <-. split; [by exists row|done]. }
  destruct (apply now call db) as [r db1] eqn:E. destruct (run calls db1) as [rs1 db2] eqn:Er. injection H as <- <-. cbn [snd] in *.
  pose proof (apply_evolves now call db r db1 id E) as Hev. rewrite Hr in Hev. destruct (db1 !! id) as [row1|] eqn:E1; cycle 1.
  { destruct Hev as (cutoff & n & t & -> & _). exfalso. apply Hnp. by exists cutoff, n. }
  destruct (IH db1 row1 rs1 db2 E1) as [H1 H2]; [by eapply Hstep|exact Er|]. split; [exact H1|].
  intros [|i] t Hi; [|by apply (H2 i t)]. cbn in Hi. injection Hi as -> ->. cbn [apply] in E.
  destruct (claimOutboxTask t id db) as [[task|] d] eqn:Ec; injection E as <- <-; [|done].
  exfalso. destruct (evolves_claim t id db (Some task) d id Ec) as [_ Hc]. destruct (Hc task eq_refl) as (row0 & Hr0 & Hs & _).
  rewrite Hr in Hr0. injection Hr0 as <-. destruct Hs as [Hs|Hs]; rewrite Hs in Hin; congruence.
Qed.

Definition send_begun (s : OutboxStatus) : bool := match s with ob_sending | ob_unknown | ob_completed => true | _ => false end.
Definition taken (s : OutboxStatus) : bool := match s with ob_preparing | ob_sending | ob_unknown | ob_completed | ob_needs_review => true | _ => false end.

(** C16: no message is sent twice by itself.  Once a task was marked as sending,
    whatever follows in whatever order (failures, crashes and recoveries,
    further claims, listings, new submissions of the same task), its status
    stays among sending, unknown and completed and no claim grants it again,
    until an operator requeues it or a completed task is pruned.  Before that, a
    granted claim is exclusive: no other claim of the task succeeds until its
    execution fails, the service restarts or an operator requeues it. *)
Theorem no_automatic_resend id db calls rs db2 : Forall (λ c : Z * OutboxCall, c.2 ≠ call_requeue id ∧ ¬ prunes c.2) calls →
  (∀ now db1, apply now (call_markSending id) db = (Ok out_done, db1) → run calls db1 = (rs, db2) →
     (∃ row, db2 !! id = Some row ∧ send_begun (os_status row) = true) ∧
     ∀ i t, calls !! i = Some (t, call_claim id) → rs !! i = Some (Ok (out_task None))) ∧
  (∀ now db1 task, apply now (call_claim id) db = (Ok (out_task (Some task)), db1) → run calls db1 = (rs, db2) →
     Forall (λ c : Z * OutboxCall, c.2 ≠ call_recover ∧ ∀ f, c.2 ≠ call_fail id f) calls →
     ∀ i t, calls !! i = Some (t, call_claim id) → rs !! i = Some (Ok (out_task None))).
Proof.
  intros Hall. split.
  - intros now db1 Hm Hrun. cbn [apply] in Hm. unfold markOutboxSending in Hm. destruct (db !! id) as [row|]; [|done].
    destruct (sendable (os_status row)); [|done]. injection Hm as <-.
    refine (run_guarded id send_begun (λ c, c ≠ call_requeue id) calls eq_refl eq_refl _ Hall _ _ rs db2 (lookup_insert_eq _ _ _) _ Hrun); [|reflexivity].
    intros row1 row2 now' call Hc (_ & Hmv & _ & _ & _) Hin. destruct Hmv as [Hmv|[(-> & _)|((reason & ->) & _ & ->)]]; [|done|done].
    destruct (os_status row1), (os_status row2); first [done|by vm_compute in Hmv].
  - intros now db1 task Hm Hrun Hall2. cbn [apply] in Hm. destruct (claimOutboxTask now id db) as [t d] eqn:Ec. injection Hm as -> <-.
    destruct (evolves_claim now id db (Some task) d id Ec) as [_ Hg]. destruct (Hg task eq_refl) as (row & Hr & Hs & Hv).
    unfold claimOutboxTask in Ec. rewrite Hr in Ec. pose proof (review_cases now id row db Hr) as Hrev.
    destruct (reviewOutboxRow now id row db) as [task' d']. destruct Hrev as [[Hne ->]|(_ & -> & ->)]; [by rewrite bool_decide_false in Ec|].
    destruct (_ || _) in Ec; [done|]. injection Ec as _ <-.
    refine (proj2 (run_guarded id taken (λ c, c ≠ call_requeue id ∧ c ≠ call_recover ∧ ∀ f, c ≠ call_fail id f) calls eq_refl eq_refl _ _ _ _ rs db2
      (lookup_insert_eq _ _ _) _ Hrun)); [| |reflexivity].
    + intros row1 row2 now' call (Hc1 & Hc2 & Hc3) (_ & Hmv & _ & _ & Hback) Hin.
      destruct (os_status row2) eqn:E2; try done; exfalso.
      all: destruct Hmv as [Hmv|[(-> & _)|((reason & ->) & _ & Hmv)]]; [|done|by vm_compute in Hmv].
      all: destruct (os_status row1) eqn:E1; try done; try (by vm_compute in Hmv); destruct Hback as [->|(f & ->)]; try done; [set_solver|by eapply Hc3].
    + apply Forall_forall. intros c Hin. rewrite Forall_forall in Hall, Hall2. destruct (Hall c Hin), (Hall2 c Hin). done.
Qed.

(** No accepted task is lost or altered.  After an enqueue that answered, the
    task is in the table, with what was enqueued if it was new; whatever calls
    follow, short of pruning, it stays there with the same payload, so that a
    repeated submission never overwrites it. *)
Theorem outbox_no_task_lost now task db b db1 calls rs db2 : apply now (call_enqueue task) db = (Ok (out_bool b), db1) →
  Forall (λ c : Z * OutboxCall, ¬ prunes c.2) calls → run calls db1 = (rs, db2) →
  ∃ row row', db1 !! eq_id task = Some row ∧ db2 !! eq_id task = Some row' ∧ same_payload row row' ∧ os_attempts row <= os_attempts row' ∧
    (b = true → row = enqueued now task ∧ db !! eq_id task = None) ∧ (b = false → db1 = db).
Proof.
  intros He Hall Hrun. assert (∃ row, db1 !! eq_id task = Some row ∧ (b = true → row = enqueued now task ∧ db !! eq_id task = None) ∧ (b = false → db1 = db))
    as (row & Hr & Hb & Hb').
  { cbn [apply] in He. unfold enqueueOutboxTask in He. destruct (validateOutboxTask task); cbn [mbind result_bind] in He; [|done].
    destruct (db !! eq_id task) as [row|] eqn:E; injection He as <- <-; [by exists row|].
    exists (enqueued now task). by rewrite lookup_insert_eq. }
  exists row. enough (∃ row', db2 !! eq_id task = Some row' ∧ same_payload row row' ∧ os_attempts row <= os_attempts row') as (row' & H1 & H2 & H3)
    by exact (ex_intro _ row' (conj Hr (conj H1 (conj H2 (conj H3 (conj Hb Hb')))))).
  clear He Hb Hb' b db. revert db1 row Hr rs db2 Hrun. induction Hall as [|[t call] calls Hnp _ IH]; intros db1 row Hr rs db2 Hrun; cbn [run] in Hrun.
  { injection Hrun as _ <-. by exists row. }
  destruct (apply t call db1) as [r d] eqn:E. destruct (run calls d) as [rs1 d2] eqn:Er. injection Hrun as _ <-.
  pose proof (apply_evolves t call db1 r d (eq_id task) E) as Hev. rewrite Hr in Hev. destruct (d !! eq_id task) as [row1|] eqn:E1; cycle 1.
  { destruct Hev as (cutoff & n & x & -> & _). exfalso. apply Hnp. by exists cutoff, n. }
  destruct Hev as (Hp & _ & Ha & _). destruct (IH d row1 E1 rs1 d2 Er) as (row' & H1 & H2 & H3). exists row'. split; [done|]. split; [by etrans|].
  destruct Ha as [Ha|[_ Ha]]; lia.
Qed.

Definition excluded_ids (ids : list string) : list string := take 1000 (remove_dups (filter (λ id, id ≠ "") ids)).

(** The scheduler is offered exactly the next tasks.  The scan over the table,
    which skips rows whose payload is not JSON and reads on until its limit,
    answers the first [limit] tasks, by time and then identifier, among the
    pending ones that are valid and not excluded; it grants nothing, and the
    rows it passed over are sent to review. *)
Theorem pending_window_complete now excluded limit db tasks db' : listPendingOutboxTasksForScheduling now excluded limit db = (tasks, db') →
  tasks = take (Z.to_nat (safe_limit limit)) (map (λ row, mapOutboxRow row.1 row.2)
    (select (λ row, is_candidate (excluded_ids excluded) row ∧ payloadErrors row.2 = []) db)) ∧
  ∀ id, db' !! id = db !! id ∨ ∃ row, db !! id = Some row ∧ os_status row = ob_pending ∧ payloadErrors row ≠ [] ∧
    db' !! id = Some (with_status ob_needs_review now (Some (review_error (payloadErrors row))) row).
Proof.
  intros H. destruct (listPending_prefix now excluded limit db) as (rows & rest & HS & E). rewrite E in H. injection H as <- <-.
  fold (excluded_ids excluded) in *. set (S0 := select (is_candidate (excluded_ids excluded)) db) in *. split.
  - f_equal. transitivity (map (λ row : Row, mapOutboxRow row.1 row.2) (filter (λ row : Row, payloadErrors row.2 = []) S0)).
    + unfold kept. clear. induction S0 as [|row l IH]; [done|]. cbn [map]. destruct (decide (payloadErrors row.2 = [])) as [Hv|Hv].
      * rewrite !filter_cons_True by (unfold valid_task; by rewrite ?review_task_errors). cbn [map]. by rewrite IH, (proj1 (review_task_valid now row Hv)).
      * by rewrite !filter_cons_False by (unfold valid_task; by rewrite ?review_task_errors).
    + f_equal. symmetry. apply select_unique.
      * pose proof (select_sorted (time := os_added_at) (is_candidate (excluded_ids excluded)) db) as Hs. fold S0 in Hs. clear -Hs. induction Hs as [|row l _ IH Hf]; [constructor|].
        rewrite filter_cons. destruct (decide _); [|done]. constructor; [done|]. apply Forall_forall. intros x Hx. rewrite list_elem_of_filter in Hx.
        rewrite Forall_forall in Hf. apply Hf, Hx.
      * apply NoDup_filter. eapply (NoDup_fmap_1 fst), select_NoDup.
      * intros row. rewrite list_elem_of_filter. unfold S0. rewrite select_In. naive_solver.
  - intros id. pose proof (select_NoDup (time := os_added_at) (is_candidate (excluded_ids excluded)) db) as Hnd. fold S0 in Hnd. rewrite HS, map_app in Hnd.
    apply NoDup_app in Hnd as (Hnd & _ & _). destruct (decide (id ∈ map fst rows)) as [Hin|Hin]; [|left; by apply write_back_other].
    apply list_elem_of_fmap in Hin as ([i row] & -> & Hin). pose proof (write_back_in now rows db (i, row) Hnd Hin) as Hw. cbn [fst snd] in *.
    assert ((i, row) ∈ S0) as HinS by (rewrite HS; apply elem_of_app; by left). apply select_In in HinS as (Hr & Hst & _). cbn [fst snd] in *.
    unfold review_row in Hw. cbn [snd] in Hw. destruct (payloadErrors row) as [|f fs] eqn:Ee; [left; by rewrite Hw, Hr|]. right. exists row.
    split; [done|]. split; [done|]. split; [by rewrite Ee|]. rewrite Hst in Hw. rewrite Ee. exact Hw.
Qed.

(** ** Witnesses *)
Definition task_a : EnqueueOutboxTaskInput := mkEnqueue "a" type_single "-100" (Some 7) None None 10 (Some (JObject [])) None (Some "w") false.
Definition task_b : EnqueueOutboxTaskInput := mkEnqueue "b" type_mediaGroup "-100" None (Some [8; 9]) (Some "g") 5 (Some (JObject [])) None (Some "w") false.
Definition sample_db : PendingTasks := snd (run [(20, call_enqueue task_a); (21, call_enqueue task_b)] ∅).

Definition later_calls : list (Z * OutboxCall) :=
  [(30, call_fail "a" FailureOther); (31, call_recover); (32, call_claim "a"); (33, call_enqueue task_a); (34, call_claim "a")].
Definition claimed_db : PendingTasks := snd (apply 25 (call_claim "a") sample_db).
Definition sending_db : PendingTasks := snd (apply 26 (call_markSending "a") claimed_db).

Lemma later_calls_allowed : Forall (λ c : Z * OutboxCall, c.2 ≠ call_requeue "a" ∧ ¬ prunes c.2) later_calls.
Proof. repeat (constructor; [split; [done|by intros (? & ? & ?)]|]). constructor. Qed.

(** Claimed, sent, failed, restarted and claimed again: nothing is granted. *)
Lemma no_automatic_resend_witness : (run later_calls sending_db).1 !! 2%nat = Some (Ok (out_task None)) ∧
  (run later_calls sending_db).1 !! 4%nat = Some (Ok (out_task None)).
Proof.
  destruct (no_automatic_resend "a" claimed_db later_calls (run later_calls sending_db).1 (run later_calls sending_db).2 later_calls_allowed) as [H _].
  destruct (H 26 sending_db ltac:(vm_compute; reflexivity) ltac:(symmetry; apply surjective_pairing)) as [_ Hc].
  split; [apply (Hc 2%nat 32); reflexivity|apply (Hc 4%nat 34); reflexivity].
Defined.

Definition broken_db : PendingTasks := <["c" := mkOutboxRow type_single "-100" (Some 1) col_null None 1 ob_pending 0 None 1 None None col_invalid col_null None None]> sample_db.
