(* ===== verification/AiUsage.v ===== *)
(** AiUsage: the daily budget of provider calls, [reserveAiUsage],
    [commitAiUsage], [getAiUsage] and the retention of [ai_usage_daily] in
    [src/db.ts].

    [UsageDb] holds the two tables by their primary keys.  Every operation is one
    transaction; a throw leaves the tables as they were.  [id] is the value of
    [randomUUID], [now] of [Date.now()].  Token counts are unbounded integers;
    only their sums are stored, and SQLite's 64-bit range is not modelled. *)

From S2P Require Import Prelude Text.
From Stdlib Require Ascii String.
Local Open Scope Z_scope.
Local Open Scope ts_scope.

(** ** Tables *)
Inductive UsageStatus := usage_reserved | settled_known | settled_unknown.
#[export] Instance UsageStatus_eq_dec : EqDecision UsageStatus.
Proof. solve_decision. Defined.

Record AiUsageReservationRow := mkUsageRow {
  ur_usage_day : string; ur_allowance : Z; ur_status : UsageStatus; ur_actual_tokens : option Z; ur_created_at : Z; ur_settled_at : option Z }.

Record AiUsageDaily := mkDaily { ud_request_count : Z; ud_used_tokens : Z; ud_reserved_tokens : Z; ud_updated_at : Z }.

Record UsageDb := mkUsageDb { ai_usage_daily : gmap string AiUsageDaily; ai_usage_reservations : gmap string AiUsageReservationRow }.

Definition emptyUsage : UsageDb := mkUsageDb ∅ ∅.

Record AiUsageReservation := mkReservation { rv_id : string; rv_usageDay : string; rv_allowance : Z }.
#[export] Instance AiUsageReservation_eq_dec : EqDecision AiUsageReservation.
Proof. solve_decision. Defined.

(** [/^\d{4}-\d{2}-\d{2}$/] *)
Definition is_usage_day (s : string) : bool :=
  match chars s with
  | [a; b; c; d; h1; e; f; h2; g; h] =>
      forallb is_digit [a; b; c; d; e; f; g; h] && bool_decide (h1 = minus_char) && bool_decide (h2 = minus_char)
  | _ => false
  end.

(** ** Operations *)

(** [INSERT OR IGNORE INTO ai_usage_daily VALUES (?, 0, 0, 0, ?)] *)
Definition ensure_day (usageDay : string) (now : Z) (daily : gmap string AiUsageDaily) : gmap string AiUsageDaily :=
  match daily !! usageDay with Some _ => daily | None => <[usageDay := mkDaily 0 0 0 now]> daily end.

(** The [UPDATE] of a reservation, with its [WHERE] clause. *)
Definition admit_usage (tokenAllowance dailyRequestLimit dailyTokenLimit now : Z) (row : AiUsageDaily) : option AiUsageDaily :=
  if (ud_request_count row <? dailyRequestLimit) && (ud_used_tokens row + ud_reserved_tokens row + tokenAllowance <=? dailyTokenLimit)
  then Some (mkDaily (ud_request_count row + 1) (ud_used_tokens row) (ud_reserved_tokens row + tokenAllowance) now)
  else None.

(** [false] when the budget of the day does not admit the call. *)
Definition reserveAiUsage (now : Z) (id : string) (usageDay : string) (tokenAllowance dailyRequestLimit dailyTokenLimit : Z) (db : UsageDb)
    : result (option AiUsageReservation * UsageDb) :=
  if negb (is_usage_day usageDay) then throw "usageDay must use YYYY-MM-DD."
  else if negb (forallb (λ value, isSafeInteger value && (0 <? value)) [tokenAllowance; dailyRequestLimit; dailyTokenLimit])
  then throw "AI usage limits must be positive safe integers."
  else
    let daily := ensure_day usageDay now (ai_usage_daily db) in
    match daily !! usageDay ≫= admit_usage tokenAllowance dailyRequestLimit dailyTokenLimit now with
    | None => Ok (None, mkUsageDb daily (ai_usage_reservations db))
    | Some row =>
        match ai_usage_reservations db !! id with
        | Some _ => throw_code "SQLITE_CONSTRAINT" "UNIQUE constraint failed: ai_usage_reservations.id"
        | None => Ok (Some (mkReservation id usageDay tokenAllowance),
                      mkUsageDb (<[usageDay := row]> daily)
                        (<[id := mkUsageRow usageDay tokenAllowance usage_reserved None now None]> (ai_usage_reservations db)))
        end
    end.

(** [actualTokens !== null && Number.isSafeInteger(actualTokens) && actualTokens >= 0]:
    [None] is [null] or a number that is not an integer. *)
Definition known_tokens (actualTokens : option Z) : option Z :=
  match actualTokens with Some a => if isSafeInteger a && (0 <=? a) then Some a else None | None => None end.

Definition INCONSISTENT : string := "AI usage aggregate is inconsistent; reservation remains bound.".

Definition commitAiUsage (now : Z) (reservationId : string) (allowance : Z) (actualTokens : option Z) (db : UsageDb) : result UsageDb :=
  let actual := known_tokens actualTokens ?? allowance in
  let status := match known_tokens actualTokens with Some _ => settled_known | None => settled_unknown end in
  match ai_usage_reservations db !! reservationId with
  | None => throw ("No AI usage reservation exists for " +:+ reservationId +:+ ".")
  | Some row =>
      if negb (ur_allowance row =? allowance) then throw "AI settlement conflict: allowance differs."
      else if negb (bool_decide (ur_status row = usage_reserved)) then
        if bool_decide (ur_status row = status) && bool_decide (ur_actual_tokens row = Some actual) then Ok db
        else throw "AI settlement conflict: reservation already settled differently."
      else
        match ai_usage_daily db !! ur_usage_day row with
        | Some day =>
            if allowance <=? ud_reserved_tokens day then
              Ok (mkUsageDb
                    (<[ur_usage_day row := mkDaily (ud_request_count day) (ud_used_tokens day + actual) (ud_reserved_tokens day - allowance) now]>
                       (ai_usage_daily db))
                    (<[reservationId := mkUsageRow (ur_usage_day row) (ur_allowance row) status (Some actual) (ur_created_at row) (Some now)]>
                       (ai_usage_reservations db)))
            else throw INCONSISTENT
        | None => throw INCONSISTENT
        end
  end.

(** Request count, used tokens and reserved tokens. *)
Definition getAiUsage (usageDay : string) (db : UsageDb) : Z * Z * Z :=
  match ai_usage_daily db !! usageDay with
  | Some row => (ud_request_count row, ud_used_tokens row, ud_reserved_tokens row)
  | None => (0, 0, 0)
  end.

(** The days retention deletes: before the cutoff, with nothing reserved. *)
Definition prunable (cutoffDay : string) (db : UsageDb) (day : string * AiUsageDaily) : Prop :=
  String.ltb day.1 cutoffDay = true ∧ ud_reserved_tokens day.2 = 0 ∧
  map_Forall (λ _ row, ¬ (ur_usage_day row = day.1 ∧ ur_status row = usage_reserved)) (ai_usage_reservations db).
#[export] Instance prunable_dec cutoffDay db day : Decision (prunable cutoffDay db day).
Proof. unfold prunable. apply _. Defined.

Definition pruned_days (cutoffDay : string) (batchSize : nat) (db : UsageDb) : list string :=
  take batchSize (sort_text id (map fst (filter (prunable cutoffDay db) (map_to_list (ai_usage_daily db))))).

Definition pruneAiUsage (cutoffDay : string) (batchSize : nat) (db : UsageDb) : UsageDb :=
  mkUsageDb (foldr delete (ai_usage_daily db) (pruned_days cutoffDay batchSize db)) (ai_usage_reservations db).

(** ** Calls *)
Inductive UsageCall :=
| usage_reserve (id usageDay : string) (tokenAllowance dailyRequestLimit dailyTokenLimit : Z)
| usage_commit (reservationId : string) (allowance : Z) (actualTokens : option Z)
| usage_prune (cutoffDay : string) (batchSize : nat).

Inductive UsageAnswer := ans_reservation (r : option AiUsageReservation) | ans_done.

(** One call; a throw leaves the tables as they were. *)
Definition apply (now : Z) (call : UsageCall) (db : UsageDb) : result UsageAnswer * UsageDb :=
  match call with
  | usage_reserve id day a rl tl => match reserveAiUsage now id day a rl tl db with Ok (r, db') => (Ok (ans_reservation r), db') | Err e => (Err e, db) end
  | usage_commit id a actual => match commitAiUsage now id a actual db with Ok db' => (Ok ans_done, db') | Err e => (Err e, db) end
  | usage_prune cutoffDay n => (Ok ans_done, pruneAiUsage cutoffDay n db)
  end.

Fixpoint run (calls : list (Z * UsageCall)) (db : UsageDb) : list (result UsageAnswer) * UsageDb :=
  match calls with
  | [] => ([], db)
  | (now, call) :: rest =>
      let '(r, db) := apply now call db in
      let '(rs, db) := run rest db in
      (r :: rs, db)
  end.

(** ** What the reservations of a day add up to *)
Definition reserved_of (day : string) (row : AiUsageReservationRow) : Z :=
  if bool_decide (ur_usage_day row = day) && bool_decide (ur_status row = usage_reserved) then ur_allowance row else 0.

Definition settled_of (day : string) (row : AiUsageReservationRow) : Z :=
  if bool_decide (ur_usage_day row = day) && negb (bool_decide (ur_status row = usage_reserved)) then ur_actual_tokens row ?? 0 else 0.

Definition count_of (day : string) (row : AiUsageReservationRow) : Z := if bool_decide (ur_usage_day row = day) then 1 else 0.

(** What was settled above the allowance. *)
Definition excess_of (day : string) (row : AiUsageReservationRow) : Z :=
  if bool_decide (ur_usage_day row = day) then Z.max 0 ((ur_actual_tokens row ?? 0) - ur_allowance row) else 0.

Definition reservation_wf (row : AiUsageReservationRow) : Prop :=
  0 < ur_allowance row ∧ (ur_status row = usage_reserved ↔ ur_actual_tokens row = None) ∧ 0 <= ur_actual_tokens row ?? 0.

(** The reserved tokens of a day are those of its open reservations. *)
Definition reserved_exact (db : UsageDb) : Prop :=
  map_Forall (λ _ row, reservation_wf row) (ai_usage_reservations db) ∧
  ∀ day, total (reserved_of day) (ai_usage_reservations db) = (getAiUsage day db).2.

(** The other counters of a day that retention has not deleted. *)
Definition counters_exact (day : string) (db : UsageDb) : Prop :=
  total (count_of day) (ai_usage_reservations db) = (getAiUsage day db).1.1 ∧
  total (settled_of day) (ai_usage_reservations db) = (getAiUsage day db).1.2.

(** ** What each call does to the tables *)
Definition day_unchanged (day : string) (db db' : UsageDb) : Prop := getAiUsage day db' = getAiUsage day db.

Lemma getAiUsage_ensure day usageDay now daily reservations :
  getAiUsage day (mkUsageDb (ensure_day usageDay now daily) reservations) = getAiUsage day (mkUsageDb daily reservations).
Proof.
  unfold getAiUsage, ensure_day. cbn. destruct (daily !! usageDay) eqn:E; [done|].
  destruct (decide (day = usageDay)) as [->|Hne]; [by rewrite lookup_insert_eq, E|by rewrite lookup_insert_ne].
Qed.

Lemma getAiUsage_insert day usageDay row daily reservations :
  getAiUsage day (mkUsageDb (<[usageDay := row]> daily) reservations) =
  if bool_decide (day = usageDay) then (ud_request_count row, ud_used_tokens row, ud_reserved_tokens row)
  else getAiUsage day (mkUsageDb daily reservations).
Proof.
  unfold getAiUsage. cbn. case_bool_decide as Hd; [subst; by rewrite lookup_insert_eq|by rewrite lookup_insert_ne].
Qed.

Lemma reserve_cases now id usageDay a rl tl db r db' : reserveAiUsage now id usageDay a rl tl db = Ok (r, db') →
  (r = None ∧ ai_usage_reservations db' = ai_usage_reservations db ∧ ∀ day, day_unchanged day db db') ∨
  (r = Some (mkReservation id usageDay a) ∧ ai_usage_reservations db !! id = None ∧ 0 < a ∧
   ai_usage_reservations db' = <[id := mkUsageRow usageDay a usage_reserved None now None]> (ai_usage_reservations db) ∧
   ∃ count used reserved, getAiUsage usageDay db = (count, used, reserved) ∧ count < rl ∧ used + reserved + a <= tl ∧
     ∀ day, getAiUsage day db' = if bool_decide (day = usageDay) then (count + 1, used, reserved + a) else getAiUsage day db).
Proof.
  unfold reserveAiUsage. destruct (is_usage_day usageDay); [|done]. cbn [negb].
  destruct (forallb _ _) eqn:Hlim; [|done]. cbn [negb]. cbn in Hlim. rewrite !andb_true_iff, Z.ltb_lt in Hlim.
  set (daily := ensure_day usageDay now (ai_usage_daily db)).
  assert (∀ day, getAiUsage day (mkUsageDb daily (ai_usage_reservations db)) = getAiUsage day db) as Hsame.
  { intros day. unfold daily. rewrite getAiUsage_ensure. by destruct db. }
  destruct (daily !! usageDay) as [row|] eqn:Hrow; cbn [mbind option_bind].
  - unfold admit_usage. destruct (_ && _) eqn:Hadm.
    + destruct (ai_usage_reservations db !! id) eqn:Hid; [done|]. intros [= <- <-]. right.
      apply andb_true_iff in Hadm as [Hc%Z.ltb_lt Ht%Z.leb_le]. split_and!; [done..|lia|done|].
      exists (ud_request_count row), (ud_used_tokens row), (ud_reserved_tokens row).
      split_and!; [|done..|].
      * rewrite <-Hsame. unfold getAiUsage. cbn. by rewrite Hrow.
      * intros day. rewrite getAiUsage_insert. case_bool_decide; [done|]. rewrite <-(Hsame day). unfold getAiUsage. done.
    + intros [= <- <-]. left. split_and!; [done..|]. intros day. apply Hsame.
  - intros [= <- <-]. left. split_and!; [done..|]. intros day. apply Hsame.
Qed.

Lemma commit_cases now id a actual db db' : commitAiUsage now id a actual db = Ok db' →
  ∃ row, ai_usage_reservations db !! id = Some row ∧ ur_allowance row = a ∧
  let tokens := known_tokens actual ?? a in
  let status := match known_tokens actual with Some _ => settled_known | None => settled_unknown end in
  (db' = db ∧ ur_status row = status ∧ ur_actual_tokens row = Some tokens) ∨
  (ur_status row = usage_reserved ∧
   ai_usage_reservations db' = <[id := mkUsageRow (ur_usage_day row) a status (Some tokens) (ur_created_at row) (Some now)]> (ai_usage_reservations db) ∧
   ∃ count used reserved, getAiUsage (ur_usage_day row) db = (count, used, reserved) ∧
     ∀ day, getAiUsage day db' = if bool_decide (day = ur_usage_day row) then (count, used + tokens, reserved - a) else getAiUsage day db).
Proof.
  unfold commitAiUsage. destruct (ai_usage_reservations db !! id) as [row|] eqn:Hid; [|done]. intros H. exists row. split; [done|].
  destruct (ur_allowance row =? a) eqn:Ha; cbn [negb] in H; [apply Z.eqb_eq in Ha|done]. split; [done|]. cbn zeta.
  case_bool_decide as Hs; cbn [negb] in H.
  - destruct (ai_usage_daily db !! ur_usage_day row) as [day|] eqn:Hday; [|done]. destruct (a <=? ud_reserved_tokens day); [|done].
    injection H as <-. right. split_and!; [done|cbn; by rewrite Ha|].
    exists (ud_request_count day), (ud_used_tokens day), (ud_reserved_tokens day). split; [unfold getAiUsage; by rewrite Hday|].
    intros d. rewrite getAiUsage_insert. case_bool_decide; [done|]. unfold getAiUsage. done.
  - destruct (_ && _) eqn:E; [|done]. apply andb_true_iff in E as [E1%bool_decide_eq_true E2%bool_decide_eq_true]. injection H as <-. by left.
Qed.

Lemma prune_cases cutoffDay n db day : ai_usage_reservations (pruneAiUsage cutoffDay n db) = ai_usage_reservations db ∧
  (day_unchanged day db (pruneAiUsage cutoffDay n db) ∨
   (String.ltb day cutoffDay = true ∧ (getAiUsage day db).2 = 0 ∧ getAiUsage day (pruneAiUsage cutoffDay n db) = (0, 0, 0))).
Proof.
  split; [done|]. unfold day_unchanged, getAiUsage, pruneAiUsage. cbn. rewrite foldr_delete_lookup. case_bool_decide as Hin; [|by left].
  right. unfold pruned_days in Hin. apply elem_of_take in Hin as (i & Hi & _). apply list_elem_of_lookup_2 in Hi.
  rewrite sort_text_Permutation in Hi. apply list_elem_of_fmap in Hi as ([d row] & -> & Hrow). cbn.
  apply list_elem_of_filter in Hrow as [(Hlt & Hzero & _) Hrow%elem_of_map_to_list]. cbn in *. by rewrite Hrow.
Qed.

(** ** The counters over every sequence of calls *)
Lemma reserved_exact_empty : reserved_exact emptyUsage.
Proof. split; [by apply map_Forall_empty|]. intros day. exact (total_empty (reserved_of day)). Qed.

Lemma reserved_of_nonneg day db : reserved_exact db → ∀ id row, ai_usage_reservations db !! id = Some row → 0 <= reserved_of day row.
Proof. intros [Hwf _] id row Hrow. destruct (Hwf id row Hrow) as (? & _). unfold reserved_of. case_match; lia. Qed.

Lemma known_tokens_nonneg actual a : 0 < a → 0 <= known_tokens actual ?? a.
Proof. intros Ha. unfold known_tokens. destruct actual as [t|]; cbn; [|lia]. destruct (_ && _) eqn:E; cbn; [|lia]. apply andb_true_iff in E as [_ ?%Z.leb_le]. lia. Qed.

Lemma settled_not_reserved actual : match known_tokens actual with Some _ => settled_known | None => settled_unknown end ≠ usage_reserved.
Proof. by destruct (known_tokens actual). Qed.

Lemma commit_row_wf row now a actual : reservation_wf row → ur_allowance row = a → reservation_wf
  (mkUsageRow (ur_usage_day row) a (match known_tokens actual with Some _ => settled_known | None => settled_unknown end)
     (Some (known_tokens actual ?? a)) (ur_created_at row) (Some now)).
Proof.
  intros (Ha & _) <-. split_and!; cbn; [done| |by apply known_tokens_nonneg].
  split; [intros H; by apply settled_not_reserved in H|done].
Qed.

(** The total of a column of the day after a commit. *)
Lemma commit_row_values day now row a actual : ur_status row = usage_reserved → reservation_wf row → ur_allowance row = a →
  let row' := mkUsageRow (ur_usage_day row) a (match known_tokens actual with Some _ => settled_known | None => settled_unknown end)
     (Some (known_tokens actual ?? a)) (ur_created_at row) (Some now) in
  let here := bool_decide (day = ur_usage_day row) in
  reserved_of day row' - reserved_of day row = (if here then - a else 0) ∧
  settled_of day row' - settled_of day row = (if here then known_tokens actual ?? a else 0) ∧
  count_of day row' = count_of day row ∧
  excess_of day row' - excess_of day row = (if here then Z.max 0 ((known_tokens actual ?? a) - a) else 0).
Proof.
  intros Hs (Ha & Hact & _) <-. cbn zeta. pose proof (settled_not_reserved actual) as Hne.
  unfold reserved_of, settled_of, count_of, excess_of. cbn.
  rewrite Hs, (bool_decide_false (_ = usage_reserved)), (bool_decide_true (usage_reserved = usage_reserved)) by done.
  rewrite (proj1 Hact Hs). rewrite (bool_decide_ext (day = ur_usage_day row) (ur_usage_day row = day)) by done.
  case_bool_decide; cbn; lia.
Qed.

Lemma step_reserved_exact now call db r db' : apply now call db = (r, db') → reserved_exact db → reserved_exact db'.
Proof.
  intros Happ Hinv. destruct call as [id usageDay a rl tl|id a actual|cutoffDay n]; cbn in Happ.
  - destruct (reserveAiUsage _ _ _ _ _ _ _) as [[o db1]|e] eqn:E; injection Happ as _ <-; [|done]. destruct Hinv as [Hwf Hsum].
    apply reserve_cases in E as [(_ & Hrows & Hdays)|(_ & Hfresh & Ha & Hrows & count & used & reserved & Hday & _ & _ & Hdays)].
    + split; [by rewrite Hrows|]. intros day. by rewrite Hrows, Hdays.
    + split.
      * rewrite Hrows. apply map_Forall_insert; [done|]. by split.
      * intros day. rewrite Hrows, total_insert, Hsum, Hdays by done. unfold reserved_of. cbn.
        rewrite (bool_decide_true (usage_reserved = usage_reserved)), andb_true_r by done.
        rewrite (bool_decide_ext (usageDay = day) (day = usageDay)) by done. case_bool_decide as Hd; [subst|lia]. rewrite Hday. cbn. lia.
  - destruct (commitAiUsage _ _ _ _ _) as [db1|e] eqn:E; injection Happ as _ <-; [|done]. destruct Hinv as [Hwf Hsum].
    apply commit_cases in E as (row & Hrow & Ha & [(-> & _)|(Hs & Hrows & count & used & reserved & Hday & Hdays)]); [done|].
    pose proof (Hwf _ _ Hrow) as Hroww. split.
    + rewrite Hrows. apply map_Forall_insert_2; [by apply commit_row_wf|done].
    + intros day. rewrite Hrows, (total_update _ _ _ _ _ Hrow), Hsum, Hdays.
      destruct (commit_row_values day now row a actual Hs Hroww Ha) as (Hr & _). cbn zeta in Hr.
      case_bool_decide as Hd; [subst; rewrite Hday; cbn in *; lia|lia].
  - injection Happ as _ <-. destruct Hinv as [Hwf Hsum]. split; [done|]. intros day.
    destruct (prune_cases cutoffDay n db day) as [Hrows [Hd|(_ & Hz & Hd)]]; rewrite Hrows, Hsum, Hd; [done|]. by rewrite Hz.
Qed.

(** The aggregate admits every settlement of an open reservation. *)
Lemma commit_consistent now id a actual db : reserved_exact db → commitAiUsage now id a actual db ≠ throw INCONSISTENT.
Proof.
  intros Hinv Hc. unfold commitAiUsage in Hc. destruct (ai_usage_reservations db !! id) as [row|] eqn:Hid; [|done].
  destruct (ur_allowance row =? a) eqn:Ha; cbn [negb] in Hc; [|done]. apply Z.eqb_eq in Ha.
  case_bool_decide as Hs; cbn [negb] in Hc; [|by destruct (_ && _)].
  pose proof (total_ge (reserved_of (ur_usage_day row)) _ _ _ (reserved_of_nonneg _ _ Hinv) Hid) as Hge.
  destruct Hinv as [Hwf Hsum]. rewrite Hsum in Hge. unfold reserved_of, getAiUsage in Hge. destruct (Hwf _ _ Hid) as (Hpos & _).
  rewrite Hs, !bool_decide_true in Hge by done. cbn in Hge.
  destruct (ai_usage_daily db !! ur_usage_day row) as [day|]; cbn in Hge; [|lia].
  destruct (Z.leb_spec a (ud_reserved_tokens day)); [done|lia].
Qed.

(** Retention does not touch the day. *)
Definition keeps (day : string) (call : UsageCall) : Prop :=
  match call with usage_prune cutoffDay _ => String.ltb day cutoffDay = false | _ => True end.

(** Every reservation of the day is made under the limits. *)
Definition limited (day : string) (R T : Z) (call : UsageCall) : Prop :=
  match call with usage_reserve _ d _ rl tl => d = day → rl <= R ∧ tl <= T | _ => True end.

Definition within (day : string) (R T : Z) (db : UsageDb) : Prop :=
  let '(count, used, reserved) := getAiUsage day db in
  count <= R ∧ used + reserved <= T + total (excess_of day) (ai_usage_reservations db).

Lemma step_counters now call db r db' day : apply now call db = (r, db') → reserved_exact db → keeps day call → counters_exact day db →
  counters_exact day db' ∧ ∀ R T, limited day R T call → within day R T db → within day R T db'.
Proof.
  intros Happ [Hwf _] Hkeep Hc. unfold within. destruct call as [id usageDay a rl tl|id a actual|cutoffDay n]; cbn in Happ, Hkeep.
  - destruct (reserveAiUsage _ _ _ _ _ _ _) as [[o db1]|e] eqn:E; injection Happ as _ <-; [|done].
    apply reserve_cases in E as [(_ & Hrows & Hdays)|(_ & Hfresh & Ha & Hrows & count & used & reserved & Hday & Hrl & Htl & Hdays)].
    + unfold counters_exact. by rewrite Hrows, Hdays.
    + unfold counters_exact in *. rewrite Hrows, Hdays, !total_insert by done. unfold settled_of, count_of, excess_of; cbn -[total].
      rewrite (bool_decide_true (usage_reserved = usage_reserved)), andb_false_r by done.
      rewrite (bool_decide_ext (usageDay = day) (day = usageDay)) by done. case_bool_decide as Hd; [subst usageDay|].
      * fold (count_of day) (settled_of day) (excess_of day). destruct Hc as [Hc1 Hc2]. rewrite Hday in Hc1, Hc2 |- *. cbn -[total] in *.
        split; [lia|]. intros R T Hl [H1 H2]. destruct (Hl eq_refl).
        assert (0 <= total (excess_of day) (ai_usage_reservations db)); [|lia].
        apply total_nonneg. intros k v _. unfold excess_of. case_match; lia.
      * fold (count_of day) (settled_of day) (excess_of day). destruct Hc as [Hc1 Hc2]. rewrite !Z.add_0_l. done.
  - destruct (commitAiUsage _ _ _ _ _) as [db1|e] eqn:E; injection Happ as _ <-; [|done].
    apply commit_cases in E as (row & Hrow & Ha & [(-> & _)|(Hs & Hrows & count & used & reserved & Hday & Hdays)]); [done|].
    pose proof (Hwf _ _ Hrow) as Hroww. destruct (commit_row_values day now row a actual Hs Hroww Ha) as (_ & Hv2 & Hv3 & Hv4). cbn zeta in *.
    unfold counters_exact in *. rewrite Hrows, !(total_update _ _ _ _ _ Hrow), Hdays.
    case_bool_decide as Hd; [subst day; rewrite Hday in Hc |- *; cbn [fst snd] in *|].
    + split; [lia|]. intros R T _ [H1 H2]. split; lia.
    + split; [lia|]. intros R T _. destruct (getAiUsage day db) as [[c u] v]. lia.
  - injection Happ as _ <-. destruct (prune_cases cutoffDay n db day) as [Hrows [Hd|(Hlt & _)]]; [|congruence].
    unfold counters_exact. by rewrite Hrows, Hd.
Qed.

Lemma run_reserved_exact calls db rs db' : run calls db = (rs, db') → reserved_exact db → reserved_exact db'.
Proof.
  revert db rs db'. induction calls as [|[now call] calls IH]; intros db rs db' Hrun Hinv; cbn in Hrun; [by injection Hrun as _ <-|].
  destruct (apply now call db) as [r db1] eqn:E, (run calls db1) as [rs1 db2] eqn:E2. injection Hrun as _ <-.
  eapply IH; [done|]. by eapply step_reserved_exact.
Qed.

Lemma run_consistent calls db rs db' : run calls db = (rs, db') → reserved_exact db → Forall (λ r, r ≠ throw INCONSISTENT) rs.
Proof.
  revert db rs db'. induction calls as [|[now call] calls IH]; intros db rs db' Hrun Hinv; cbn in Hrun; [injection Hrun as <- _; constructor|].
  destruct (apply now call db) as [r db1] eqn:E, (run calls db1) as [rs1 db2] eqn:E2. injection Hrun as <- _. constructor.
  - destruct call as [id day a rl tl|id a actual|cutoffDay n]; cbn in E.
    + destruct (reserveAiUsage _ _ _ _ _ _ _) as [[o db3]|e] eqn:E3; injection E as <- _; [done|]. intros [= ->]. revert E3.
      unfold reserveAiUsage. repeat case_match; done.
    + destruct (commitAiUsage _ _ _ _ _) as [db3|e] eqn:E3; injection E as <- _; [done|]. intros [= ->]. by eapply commit_consistent.
    + by injection E as <- _.
  - eapply IH; [done|]. by eapply step_reserved_exact.
Qed.

Lemma run_counters day R T calls db rs db' : run calls db = (rs, db') → reserved_exact db → Forall (λ c, keeps day c.2) calls →
  counters_exact day db → counters_exact day db' ∧ (Forall (λ c, limited day R T c.2) calls → within day R T db → within day R T db').
Proof.
  revert db rs db'. induction calls as [|[now call] calls IH]; intros db rs db' Hrun Hinv Hkeep Hc; cbn in Hrun; [by injection Hrun as _ <-|].
  destruct (apply now call db) as [r db1] eqn:E, (run calls db1) as [rs1 db2] eqn:E2. injection Hrun as _ <-.
  apply Forall_cons in Hkeep as [Hk Hkeep]. destruct (step_counters _ _ _ _ _ _ E Hinv Hk Hc) as [Hc1 Hw1].
  destruct (IH _ _ _ E2 (step_reserved_exact _ _ _ _ _ E Hinv) Hkeep Hc1) as [Hc2 Hw2]. split; [done|].
  intros [Hl Hlimits]%Forall_cons Hw. auto.
Qed.

(** C19: after any sequence of reservations, settlements and retention runs, the
    reserved tokens of every day are the allowances of its open reservations, so
    that the aggregate never refuses a settlement; while retention keeps the
    day, its request count is the number of its reservations and its used
    tokens are what was settled, and if every reservation of the day was made
    under [R] requests and [T] tokens these limits hold, but for what providers
    used above their allowance. *)
Theorem usage_accounts_balance calls rs db : run calls emptyUsage = (rs, db) →
  (∀ day, total (reserved_of day) (ai_usage_reservations db) = (getAiUsage day db).2) ∧
  Forall (λ r, r ≠ throw INCONSISTENT) rs ∧
  ∀ day, Forall (λ c, keeps day c.2) calls →
    counters_exact day db ∧
    ∀ R T, 0 <= R → 0 <= T → Forall (λ c, limited day R T c.2) calls → within day R T db.
Proof.
  intros Hrun. split; [apply (run_reserved_exact _ _ _ _ Hrun reserved_exact_empty)|].
  split; [apply (run_consistent _ _ _ _ Hrun reserved_exact_empty)|]. intros day Hkeep.
  assert (counters_exact day emptyUsage) as Hc0 by (split; exact (total_empty _)).
  split; [by apply (run_counters day 0 0 _ _ _ _ Hrun reserved_exact_empty Hkeep Hc0)|]. intros R T HR HT Hl.
  apply (run_counters day R T _ _ _ _ Hrun reserved_exact_empty Hkeep Hc0); [done|].
  pose proof (total_empty (K := string) (excess_of day)) as Hz.
  change (0 <= R ∧ 0 + 0 <= T + total (K := string) (excess_of day) ∅). rewrite Hz. lia.
Qed.

(** ** Settlement *)
Lemma step_settled now call db r db' id row : apply now call db = (r, db') → ai_usage_reservations db !! id = Some row →
  ur_status row ≠ usage_reserved → ai_usage_reservations db' !! id = Some row.
Proof.
  intros Happ Hrow Hs. destruct call as [i day a rl tl|i a actual|cutoffDay n]; cbn in Happ.
  - destruct (reserveAiUsage _ _ _ _ _ _ _) as [[o db1]|e] eqn:E; injection Happ as _ <-; [|done].
    apply reserve_cases in E as [(_ & Hrows & _)|(_ & Hfresh & _ & Hrows & _)]; rewrite Hrows; [done|]. rewrite lookup_insert_ne; [done|congruence].
  - destruct (commitAiUsage _ _ _ _ _) as [db1|e] eqn:E; injection Happ as _ <-; [|done].
    apply commit_cases in E as (row' & Hrow' & _ & [(-> & _)|(Hs' & Hrows & _)]); [done|]. rewrite Hrows, lookup_insert_ne; [done|congruence].
  - injection Happ as _ <-. done.
Qed.

Lemma run_settled calls db rs db' id row : run calls db = (rs, db') → ai_usage_reservations db !! id = Some row →
  ur_status row ≠ usage_reserved → ai_usage_reservations db' !! id = Some row.
Proof.
  revert db rs db'. induction calls as [|[now call] calls IH]; intros db rs db' Hrun Hrow Hs; cbn in Hrun; [by injection Hrun as _ <-|].
  destruct (apply now call db) as [r db1] eqn:E, (run calls db1) as [rs1 db2] eqn:E2. injection Hrun as _ <-.
  eapply IH; [done| |done]. by eapply step_settled.
Qed.

(** The row a successful settlement leaves. *)
Lemma commit_settles now id a actual db db' : commitAiUsage now id a actual db = Ok db' → ∃ row, ai_usage_reservations db' !! id = Some row ∧
  ur_allowance row = a ∧ ur_actual_tokens row = Some (known_tokens actual ?? a) ∧
  ur_status row = match known_tokens actual with Some _ => settled_known | None => settled_unknown end.
Proof.
  intros (row & Hrow & Ha & [(-> & Hs & Hact)|(Hs & Hrows & _)])%commit_cases; [by exists row|].
  eexists. rewrite Hrows, lookup_insert_eq. done.
Qed.

(** A settlement is final and may be repeated: whatever is called after a
    settlement of a reservation succeeded, settling it again succeeds exactly
    with the same allowance and the same known or unknown usage, and then it
    changes nothing. *)
Theorem settlement_final now id a actual db db1 calls rs db2 now' a' actual' :
  commitAiUsage now id a actual db = Ok db1 → run calls db1 = (rs, db2) →
  match commitAiUsage now' id a' actual' db2 with
  | Ok db3 => a' = a ∧ known_tokens actual' = known_tokens actual ∧ db3 = db2
  | Err _ => a' ≠ a ∨ known_tokens actual' ≠ known_tokens actual
  end.
Proof.
  intros (row & Hrow & Ha & Hact & Hs)%commit_settles Hrun.
  assert (ur_status row ≠ usage_reserved) as Hne by (rewrite Hs; apply settled_not_reserved).
  pose proof (run_settled _ _ _ _ _ _ Hrun Hrow Hne) as Hrow2. unfold commitAiUsage. rewrite Hrow2, Ha.
  destruct (Z.eqb_spec a a') as [<-|Haa]; cbn [negb]; [|by left]. rewrite bool_decide_false by done. cbn [negb].
  destruct (bool_decide _ && bool_decide _) eqn:E.
  - apply andb_true_iff in E as [E1%bool_decide_eq_true E2%bool_decide_eq_true]. split_and!; [done| |done].
    rewrite Hs in E1. rewrite Hact in E2. destruct (known_tokens actual), (known_tokens actual'); cbn in *; congruence.
  - right. intros Heq. rewrite Hs, Hact, Heq, !bool_decide_true in E by done. done.
Qed.

(** ** Witnesses *)
Definition a_day : string := "2026-05-04".
Definition usage_calls : list (Z * UsageCall) :=
  [(1, usage_reserve "r1" a_day 400 2 1000); (2, usage_reserve "r2" a_day 500 2 1000); (3, usage_reserve "r3" a_day 1 2 1000);
   (4, usage_commit "r1" 400 (Some 450)); (5, usage_commit "r2" 500 None); (6, usage_prune "2026-05-04" 10)].

Definition usage_after : UsageDb := (run usage_calls emptyUsage).2.

Lemma usage_accounts_balance_witness : getAiUsage a_day usage_after = (2, 950, 0) ∧ within a_day 2 1000 usage_after.
Proof.
  split; [vm_compute; reflexivity|].
  apply (usage_accounts_balance usage_calls (run usage_calls emptyUsage).1 usage_after (surjective_pairing _)); [|lia|lia|].
  - repeat constructor.
  - repeat constructor; cbn; lia.
Defined.
