(* ===== verification/Filters.v ===== *)
(** Filters: [src/filters.ts], which messages of a source are forwarded.

    The regular-expression engine is a parameter: [new_RegExp pattern flags]
    compiles or throws, [regex_test] answers or throws (the time limit of the
    sandbox).  The module-level cache is a list in insertion order, threaded
    through every call; the log callback is the list of messages it received. *)

From S2P Require Import Prelude Text.
From Stdlib Require Ascii String.
Local Open Scope Z_scope.
Local Open Scope ts_scope.

(** ** Messages *)

(** [text] and [caption]: absent, a plain string, or an object with its [text]. *)
Inductive TextField := text_absent | text_plain (s : string) | text_formatted (text : option string).

Record FilterContent := mkContent { fc_type : option string; fc_text : TextField; fc_caption : TextField }.
Record FilterMessage := mkMessage { fm_id : string; fm_content : option FilterContent }.

Inductive ContentField := field_text | field_caption.

Definition messageText (content : FilterContent) (field : option ContentField) : string :=
  match (match field with Some field_text => fc_text content | Some field_caption => fc_caption content | None => text_absent end) with
  | text_formatted (Some text) => text
  | _ => ""
  end.

Definition MESSAGE_TYPES : list (string * (string * option ContentField)) :=
  [("messageText", ("text", Some field_text)); ("messagePhoto", ("photo", Some field_caption)); ("messageVideo", ("video", Some field_caption));
   ("messageDocument", ("document", Some field_caption)); ("messageAudio", ("audio", Some field_caption));
   ("messageVoiceNote", ("voice", Some field_caption)); ("messageVideoNote", ("video_note", None));
   ("messageAnimation", ("animation", Some field_caption)); ("messageSticker", ("sticker", None))].

(** The text and the type of a message. *)
Definition getMessageTextAndType (message : FilterMessage) : string * string :=
  match fm_content message with
  | None => ("", "unknown")
  | Some content =>
      match list_find (λ row : string * (string * option ContentField), row.1 = fc_type content ?? "") MESSAGE_TYPES with
      | None => ("", match fc_type content with Some t => if bool_decide (t = "") then "unknown" else t | None => "unknown" end)
      | Some (_, (_, (type, field))) => (messageText content field, type)
      end
  end.

(** ** Nested quantifiers *)
Definition star : Ascii.ascii := Ascii.ascii_of_nat 42.
Definition plus : Ascii.ascii := Ascii.ascii_of_nat 43.
Definition question : Ascii.ascii := Ascii.ascii_of_nat 63.
Definition brace : Ascii.ascii := Ascii.ascii_of_nat 123.
Definition open_paren : Ascii.ascii := Ascii.ascii_of_nat 40.
Definition close_paren : Ascii.ascii := Ascii.ascii_of_nat 41.
Definition open_class : Ascii.ascii := Ascii.ascii_of_nat 91.
Definition close_class : Ascii.ascii := Ascii.ascii_of_nat 93.
Definition escape_char : Ascii.ascii := Ascii.ascii_of_nat 92.
Definition slash : Ascii.ascii := Ascii.ascii_of_nat 47.

(** [['+', '*', '?', '{'].includes(nextChar)] *)
Definition quantifies (next : option Ascii.ascii) : bool :=
  match next with Some c => bool_decide (c ∈ [plus; star; question; brace]) | None => false end.

(** The open groups, innermost first, with [hasQuantifier]. *)
Record NestedQuantifierScanner := mkScanner { openGroups : list bool; inCharacterClass : bool }.

Definition closesNestedQuantifier (next : option Ascii.ascii) (groups : list bool) : bool * list bool :=
  match groups with [] => (false, []) | hasQuantifier :: rest => (hasQuantifier && quantifies next, rest) end.

Definition markGroupQuantified (c : Ascii.ascii) (groups : list bool) : list bool :=
  if bool_decide (c ∈ [plus; star; brace]) then match groups with [] => [] | _ :: rest => true :: rest end else groups.

(** Whether the character belongs to a character class, and the new state. *)
Definition consumeCharacterClass (c : Ascii.ascii) (inClass : bool) : bool * bool :=
  if bool_decide (c = open_class) && negb inClass then (true, true)
  else if bool_decide (c = close_class) && inClass then (true, false)
  else (inClass, inClass).

Definition consume (c : Ascii.ascii) (next : option Ascii.ascii) (s : NestedQuantifierScanner) : bool * NestedQuantifierScanner :=
  let '(consumed, inClass) := consumeCharacterClass c (inCharacterClass s) in
  if consumed then (false, mkScanner (openGroups s) inClass)
  else if bool_decide (c = open_paren) then (false, mkScanner (false :: openGroups s) inClass)
  else if bool_decide (c = close_paren) then
    let '(found, groups) := closesNestedQuantifier next (openGroups s) in (found, mkScanner groups inClass)
  else (false, mkScanner (markGroupQuantified c (openGroups s)) inClass).

Fixpoint scan (l : list Ascii.ascii) (s : NestedQuantifierScanner) : bool :=
  match l with
  | [] => false
  | c :: l' =>
      if bool_decide (c = escape_char) then match l' with [] => false | _ :: l'' => scan l'' s end
      else let '(found, s') := consume c (head l') s in if found then true else scan l' s'
  end.

Definition hasNestedQuantifiers (pattern : string) : bool := scan (chars pattern) (mkScanner [] false).

(** ** Settings *)
Record FilterSettings := mkFilters {
  fs_allowedTypes : option (list string); fs_allowedKeywords : option (list string); fs_blockedKeywords : option (list string);
  fs_regexPatterns : option (list string) }.

(** [sourceFilters] by source; a value that is not an array is [None]. *)
Record FilterConfiguration := mkFilterConfiguration {
  fk_sourceFilters : option (list (string * option (list string))); fk_filters : option FilterSettings }.

Definition sourceRegexPatterns (config : option FilterConfiguration) (sourceChatId : string) : option (list string) :=
  match config with
  | Some (mkFilterConfiguration (Some sources) _) =>
      match list_find (λ row : string * option (list string), row.1 = sourceChatId) sources with Some (_, (_, patterns)) => patterns | None => None end
  | _ => None
  end.

Definition globalRegexPatterns (config : option FilterConfiguration) : list string := ((config ≫= fk_filters) ≫= fs_regexPatterns) ?? [].

(** [sourceChatId] is [None] when it is [null], [0] or empty. *)
Definition getRegexPatternsForSource (config : option FilterConfiguration) (sourceChatId : option string) : list string :=
  match sourceChatId with
  | Some source => match sourceRegexPatterns config source with Some patterns => patterns | None => globalRegexPatterns config end
  | None => globalRegexPatterns config
  end.

Definition resolveRegexPatterns (filters : FilterSettings) (sourceChatId : option string) (config : option FilterConfiguration) : list string :=
  match sourceChatId, config with
  | Some _, Some _ => getRegexPatternsForSource config sourceChatId
  | _, _ => fs_regexPatterns filters ?? []
  end.

(** ** Keywords *)
Definition includes (text keyword : string) : bool := contains (chars keyword) (chars text).

Definition containsKeyword (text : string) (keywords : option (list string)) : bool :=
  match keywords with
  | Some ((_ :: _) as l) => existsb (λ keyword, includes (toLowerCase text) (toLowerCase keyword)) l
  | _ => false
  end.

Definition allowsKeyword (text : string) (keywords : option (list string)) : bool :=
  match keywords with Some (_ :: _) => containsKeyword text keywords | _ => true end.

Definition allowsMediaType (type : string) (filters : FilterSettings) : bool :=
  match fs_allowedTypes filters with Some ((_ :: _) as l) => bool_decide (type ∈ l) | _ => true end.

Definition contentRejection (message : FilterMessage) (filters : FilterSettings) (text type : string) : option string :=
  if negb (allowsMediaType type filters)
  then Some ("[Filter] Paket " +:+ fm_id message +:+ " ignoriert (Inhaltstyp '" +:+ type +:+ "' nicht im Filter-Schema).")
  else if containsKeyword text (fs_blockedKeywords filters)
  then Some ("[Filter] Paket " +:+ fm_id message +:+ " blockiert (enth" +:+ of_chars [Ascii.ascii_of_nat 228] +:+ "lt Blacklist-Signatur).")
  else if negb (allowsKeyword text (fs_allowedKeywords filters))
  then Some ("[Filter] Paket " +:+ fm_id message +:+ " verworfen (keine erlaubte Signatur enthalten).")
  else None.

(** ** Patterns *)

(** The character [u] with diaeresis of the messages. *)
Definition u_umlaut : string := of_chars [Ascii.ascii_of_nat 252].

Definition quoted (s : string) : string := let quote := of_chars [Ascii.ascii_of_nat 34] in quote +:+ s +:+ quote.

Fixpoint span_chars (p : Ascii.ascii → bool) (l : list Ascii.ascii) : list Ascii.ascii * list Ascii.ascii :=
  match l with
  | [] => ([], [])
  | c :: l' => if p c then let '(a, b) := span_chars p l' in (c :: a, b) else ([], l)
  end.

(** A pattern between slashes with its flags: the body, on one line, reaches to
    the last slash. *)
Definition slashed (l : list Ascii.ascii) : option (list Ascii.ascii * list Ascii.ascii) :=
  let '(flags, rest) := span_chars (λ c, bool_decide (c ∈ chars "dgimsuy")) (reverse l) in
  match rest, l with
  | c :: before, d :: _ =>
      if bool_decide (c = slash) && bool_decide (d = slash) then
        match reverse before with
        | _ :: ((_ :: _) as body) =>
            if existsb (λ c, (char_code c =? 10) || (char_code c =? 13)) body then None else Some (body, reverse flags)
        | _ => None
        end
      else None
  | _, _ => None
  end.

(** The pattern and the flags, without the two that make [test] stateful. *)
Definition pattern_and_flags (trimmed : string) : string * string :=
  match slashed (chars trimmed) with
  | Some (pattern, flags) => (of_chars pattern, of_chars (filter (λ c, c ∉ chars "gy") flags))
  | None => (trimmed, "i")
  end.

Definition validateRegexPattern (pattern patternStr : string) : result unit :=
  if hasNestedQuantifiers pattern
  then throw ("ReDoS warning: Nested quantifiers or dangerous structures detected: " +:+ quoted patternStr)
  else if 150 <? Z.of_nat (length (chars pattern))
  then throw ("Regex pattern exceeds maximum length of 150 characters: " +:+ quoted patternStr)
  else Ok tt.

Definition MAX_REGEX_CACHE_SIZE : nat := 100.

Section Regex.
Context {RegExp : Type} (new_RegExp : string → string → result RegExp) (regex_test : RegExp → string → result bool).

(** The cached expressions, oldest first. *)
Definition RegexCache := list (string * RegExp).

Definition compileRegex (pattern flags : string) : result RegExp :=
  match new_RegExp pattern flags with Ok r => Ok r | Err e => throw ("Invalid regex pattern: " +:+ message e) end.

Definition cacheRegex (key : string) (regex : RegExp) (cache : RegexCache) : RegexCache :=
  (if (MAX_REGEX_CACHE_SIZE <=? length cache)%nat then tail cache else cache) ++ [(key, regex)].

Definition cached_regex (key : string) (cache : RegexCache) : option RegExp :=
  match list_find (λ row : string * RegExp, row.1 = key) cache with Some (_, (_, r)) => Some r | None => None end.

(** [parseRegex] without the cache. *)
Definition compile_pattern (patternStr : string) : result RegExp :=
  let '(pattern, flags) := pattern_and_flags (trim patternStr) in
  _ ← validateRegexPattern pattern patternStr;
  compileRegex pattern flags.

Definition parseRegex (patternStr : string) (cache : RegexCache) : result RegExp * RegexCache :=
  match cached_regex (trim patternStr) cache with
  | Some regex => (Ok regex, cache)
  | None =>
      match compile_pattern patternStr with
      | Ok regex => (Ok regex, cacheRegex (trim patternStr) regex cache)
      | Err e => (Err e, cache)
      end
  end.

Definition safeRegexTest (regex : RegExp) (text : string) : result bool :=
  match regex_test regex text with
  | Ok b => Ok b
  | Err e => throw ("Regex timeout oder Ausf" +:+ u_umlaut +:+ "hrungsfehler bei der Musterpr" +:+ u_umlaut +:+ "fung: " +:+ message e)
  end.

Definition invalid_pattern (pattern : string) (e : error) : string :=
  "[Filter-FEHLER] Ung" +:+ u_umlaut +:+ "ltiges Regex-Muster /" +:+ pattern +:+ "/: " +:+ message e.

(** [patterns.every(...)]: the answer, what was logged and the cache. *)
Fixpoint matches_all (text : string) (patterns : list string) (cache : RegexCache) : bool * list string * RegexCache :=
  match patterns with
  | [] => (true, [], cache)
  | pattern :: rest =>
      let '(regex, cache) := parseRegex pattern cache in
      match (r ← regex; safeRegexTest r text) with
      | Ok true => matches_all text rest cache
      | Ok false => (false, [], cache)
      | Err e => (false, [invalid_pattern pattern e], cache)
      end
  end.

Definition matchesAllRegexPatterns (text : string) (patterns : list string) (cache : RegexCache) : bool * list string * RegexCache :=
  matches_all (of_chars (take (Z.to_nat 8000) (chars text))) patterns cache.

(** ** The decision *)
Definition filterRejection (message : FilterMessage) (filters : FilterSettings) (sourceChatId : option string) (config : option FilterConfiguration)
    (cache : RegexCache) : option string * list string * RegexCache :=
  let '(text, type) := getMessageTextAndType message in
  match contentRejection message filters text type with
  | Some rejection => (Some rejection, [], cache)
  | None =>
      let '(matched, logs, cache) := matchesAllRegexPatterns text (resolveRegexPatterns filters sourceChatId config) cache in
      if matched then (None, logs, cache)
      else (Some ("[Filter] Paket " +:+ fm_id message +:+ " verworfen (Regex-Kriterien nicht erf" +:+ u_umlaut +:+ "llt)."), logs, cache)
  end.

(** The decision, what was logged and the cache. *)
Definition shouldForward (message : FilterMessage) (filters : option FilterSettings) (sourceChatId : option string) (config : option FilterConfiguration)
    (cache : RegexCache) : bool * list string * RegexCache :=
  match filters with
  | None => (true, [], cache)
  | Some filters =>
      let '(rejection, logs, cache) := filterRejection message filters sourceChatId config cache in
      match rejection with None => (true, logs, cache) | Some r => (false, logs ++ [r], cache) end
  end.
End Regex.

(** ** What the scanner finds

    The significant characters of a pattern, each with the character after it:
    neither escaped nor in a character class. *)
Abbreviation Token := (Ascii.ascii * option Ascii.ascii)%type.

Fixpoint tokens (l : list Ascii.ascii) (inClass : bool) : list Token :=
  match l with
  | [] => []
  | c :: l' =>
      if bool_decide (c = escape_char) then match l' with [] => [] | _ :: l'' => tokens l'' inClass end
      else if inClass then tokens l' (negb (bool_decide (c = close_class)))
      else if bool_decide (c = open_class) then tokens l' true
      else (c, head l') :: tokens l' false
  end.

Definition is_quantifier (c : Ascii.ascii) : bool := bool_decide (c ∈ [plus; star; brace]).

(** The inside of a group; the flag says whether it has a quantifier that is not
    in an inner group. *)
Inductive balanced : list Token → bool → Prop :=
| balanced_nil : balanced [] false
| balanced_char c next l q : c ≠ open_paren → c ≠ close_paren → balanced l q → balanced ((c, next) :: l) (is_quantifier c || q)
| balanced_group n m inner qi l q : balanced inner qi → balanced l q → balanced ((open_paren, n) :: inner ++ (close_paren, m) :: l) q.

(** A group with a quantifier directly inside it, itself quantified. *)
Definition nested_quantifier (l : list Token) : Prop :=
  ∃ before n inner next after, l = before ++ (open_paren, n) :: inner ++ (close_paren, next) :: after ∧ balanced inner true ∧ quantifies next = true.

Fixpoint scan_tokens (l : list Token) (groups : list bool) : bool :=
  match l with
  | [] => false
  | (c, next) :: l' =>
      if bool_decide (c = open_paren) then scan_tokens l' (false :: groups)
      else if bool_decide (c = close_paren) then
        let '(found, groups) := closesNestedQuantifier next groups in if found then true else scan_tokens l' groups
      else scan_tokens l' (markGroupQuantified c groups)
  end.

Lemma scan_eq l inClass groups : scan l (mkScanner groups inClass) = scan_tokens (tokens l inClass) groups.
Proof.
  revert inClass groups. induction l as [l IH] using (induction_ltof1 _ length). unfold ltof in IH. intros inClass groups.
  destruct l as [|c l]; [done|]. cbn [scan tokens]. destruct (bool_decide (c = escape_char)).
  { destruct l as [|d l]; [done|]. apply IH. cbn. lia. }
  unfold consume, consumeCharacterClass. cbn [inCharacterClass openGroups].
  assert (open_class ≠ close_class) as Hne by done.
  destruct inClass; cbn [negb]; rewrite ?andb_false_r, ?andb_true_r.
  - destruct (bool_decide (c = close_class)); cbn [negb]; apply IH; cbn; lia.
  - destruct (bool_decide (c = open_class)); [apply IH; cbn; lia|]. cbn [scan_tokens].
    destruct (bool_decide (c = open_paren)); [apply IH; cbn; lia|].
    destruct (bool_decide (c = close_paren)); [|apply IH; cbn; lia].
    destruct (closesNestedQuantifier (head l) groups) as [found groups']. destruct found; [done|]. apply IH. cbn. lia.
Qed.

Lemma balanced_app a qa b qb : balanced a qa → balanced b qb → balanced (a ++ b) (qa || qb).
Proof.
  induction 1 as [|c next l q Hc Hd _ IH|n m inner qi l q Hi _ _ IH]; intros Hb; cbn; [done| |].
  - rewrite <-orb_assoc. constructor; auto.
  - rewrite <-app_assoc. cbn. apply balanced_group with (qi := qi); auto.
Qed.

Lemma scan_balanced inner q rest g gs : balanced inner q →
  scan_tokens (inner ++ rest) (g :: gs) = true ∨ scan_tokens (inner ++ rest) (g :: gs) = scan_tokens rest ((g || q) :: gs).
Proof.
  intros H. revert rest g gs. induction H as [|c next l q Hc Hd _ IH|n m inner qi l q _ IHi _ IH]; intros rest g gs; cbn [app scan_tokens].
  - right. by rewrite orb_false_r.
  - rewrite !bool_decide_false by done. unfold markGroupQuantified. fold (is_quantifier c). destruct (is_quantifier c); cbn [orb].
    + rewrite orb_true_r. apply (IH rest true gs).
    + apply IH.
  - rewrite bool_decide_true by done. rewrite <-app_assoc. cbn [app]. destruct (IHi ((close_paren, m) :: l ++ rest) false (g :: gs)) as [->| ->]; [by left|].
    cbn [scan_tokens]. rewrite bool_decide_false, bool_decide_true by done. cbn [closesNestedQuantifier orb]. destruct (qi && quantifies m); [by left|]. apply IH.
Qed.

(** The tokens read so far, for the groups that are still open. *)
Inductive opened : list Token → list bool → Prop :=
| opened_base l : opened l []
| opened_group l gs n body q : opened l gs → balanced body q → opened (l ++ (open_paren, n) :: body) (q :: gs).

Lemma opened_app l gs b q : opened l gs → balanced b q → opened (l ++ b) (match gs with [] => [] | g :: rest => (g || q) :: rest end).
Proof.
  intros Ho Hb. destruct Ho as [l|l gs n body g Hl Hbody]; [constructor|]. rewrite <-app_assoc. cbn. constructor; [done|by apply balanced_app].
Qed.

Lemma scan_found l done_ gs : opened done_ gs → scan_tokens l gs = true → nested_quantifier (done_ ++ l).
Proof.
  revert done_ gs. induction l as [|[c next] l IH]; intros done_ gs Ho Hs; cbn in Hs; [done|].
  replace (done_ ++ (c, next) :: l) with ((done_ ++ [(c, next)]) ++ l) by by rewrite <-app_assoc.
  case_bool_decide as Hopen; [subst; eapply IH; [|done]; by apply opened_group; [|constructor]|].
  case_bool_decide as Hclose; cycle 1.
  { eapply IH; [|done]. unfold markGroupQuantified. fold (is_quantifier c).
    pose proof (opened_app _ _ _ _ Ho (balanced_char c next [] false Hopen Hclose balanced_nil)) as H. rewrite orb_false_r in H.
    destruct (is_quantifier c), gs as [|g gs]; rewrite ?orb_true_r, ?orb_false_r in H; done. }
  subst c. destruct Ho as [l0|l0 gs n body q Hl0 Hbody]; cbn in Hs; [eapply IH; [|done]; constructor|].
  destruct (q && quantifies next) eqn:Hq.
  - apply andb_true_iff in Hq as [-> Hq]. exists l0, n, body, next, l. split_and!; [|done..]. by rewrite <-!app_assoc.
  - eapply IH; [|done]. pose proof (opened_app _ _ _ _ Hl0 (balanced_group n next body q [] false Hbody balanced_nil)) as H.
    rewrite <-app_assoc. cbn. destruct gs; rewrite ?orb_false_r in H; done.
Qed.

Lemma scan_skips before rest gs : (∀ gs, scan_tokens rest gs = true) → scan_tokens (before ++ rest) gs = true.
Proof.
  intros H. revert gs. induction before as [|[c next] before IH]; intros gs; cbn; [apply H|]. repeat case_bool_decide; [apply IH| |apply IH].
  destruct (closesNestedQuantifier next gs) as [[] gs']; [done|apply IH].
Qed.

(** C31: the scanner rejects exactly the patterns in which a group with a
    quantifier directly inside it is itself quantified, where escaped characters
    and character classes do not count. *)
Theorem nested_quantifiers_exact pattern : hasNestedQuantifiers pattern = true ↔ nested_quantifier (tokens (chars pattern) false).
Proof.
  unfold hasNestedQuantifiers. rewrite scan_eq. split; [apply (scan_found _ [] []); constructor|].
  intros (before & n & inner & next & after & -> & Hb & Hq). apply scan_skips. intros gs. cbn [scan_tokens]. rewrite bool_decide_true by done.
  destruct (scan_balanced inner true ((close_paren, next) :: after) false gs Hb) as [->| ->]; [done|].
  cbn [scan_tokens]. rewrite bool_decide_false, bool_decide_true by done. cbn. by rewrite Hq.
Qed.

(** ** Decisions with a cache *)
Section Decisions.
Context {RegExp : Type} (new_RegExp : string → string → result RegExp) (regex_test : RegExp → string → result bool).

(** Whether a pattern, compiled anew, accepts a text. *)
Definition accepts (text pattern : string) : bool :=
  match compile_pattern new_RegExp pattern with
  | Ok r => match regex_test r text with Ok b => b | Err _ => false end
  | Err _ => false
  end.

Record Request := mkRequest {
  rq_message : FilterMessage; rq_filters : option FilterSettings; rq_source : option string; rq_config : option FilterConfiguration }.

(** A message passes if its type and its words are allowed and every pattern of
    its source accepts the first 8000 characters. *)
Definition passes (q : Request) : bool :=
  match rq_filters q with
  | None => true
  | Some filters =>
      let '(text, type) := getMessageTextAndType (rq_message q) in
      allowsMediaType type filters && negb (containsKeyword text (fs_blockedKeywords filters)) && allowsKeyword text (fs_allowedKeywords filters)
      && forallb (accepts (of_chars (take (Z.to_nat 8000) (chars text)))) (resolveRegexPatterns filters (rq_source q) (rq_config q))
  end.

(** The decisions of a sequence of messages. *)
Fixpoint decisions (requests : list Request) (cache : RegexCache) : list bool * RegexCache :=
  match requests with
  | [] => ([], cache)
  | q :: rest =>
      let '(b, _, cache) := shouldForward new_RegExp regex_test (rq_message q) (rq_filters q) (rq_source q) (rq_config q) cache in
      let '(bs, cache) := decisions rest cache in
      (b :: bs, cache)
  end.

Definition cache_ok (cache : RegexCache) : Prop :=
  (length cache <= MAX_REGEX_CACHE_SIZE)%nat ∧
  Forall (λ row, ∀ s, trim s = row.1 → compile_pattern new_RegExp s = Ok row.2) cache.

Lemma compile_pattern_trim s s' r : trim s = trim s' → compile_pattern new_RegExp s = Ok r → compile_pattern new_RegExp s' = Ok r.
Proof.
  unfold compile_pattern. intros ->. destruct (pattern_and_flags (trim s')) as [pattern flags]. unfold validateRegexPattern.
  destruct (hasNestedQuantifiers pattern); [done|]. by destruct (150 <? _).
Qed.

Lemma cacheRegex_ok key r cache : cache_ok cache → (∀ s, trim s = key → compile_pattern new_RegExp s = Ok r) → cache_ok (cacheRegex key r cache).
Proof.
  intros [Hlen Hall] Hr. unfold cacheRegex. destruct (Nat.leb_spec MAX_REGEX_CACHE_SIZE (length cache)) as [H|H].
  - split; [rewrite length_app, length_tl; cbn; unfold MAX_REGEX_CACHE_SIZE in *; lia|].
    apply Forall_app. split; [|by constructor]. destruct cache; [done|]. by apply Forall_cons in Hall as [_ ?].
  - split; [rewrite length_app; cbn; lia|]. apply Forall_app. split; [done|by constructor].
Qed.

Lemma parseRegex_exact pattern cache r cache' : cache_ok cache → parseRegex new_RegExp pattern cache = (r, cache') →
  r = compile_pattern new_RegExp pattern ∧ cache_ok cache'.
Proof.
  intros Hok. unfold parseRegex, cached_regex. destruct (list_find _ cache) as [[i [k v]]|] eqn:E.
  - intros [= <- <-]. apply list_find_Some in E as (Hi & Hk & _). cbn in Hk. split; [|done]. destruct Hok as [_ Hall].
    rewrite Forall_forall in Hall. symmetry. apply (Hall (k, v)); [by eapply list_elem_of_lookup_2|by symmetry].
  - destruct (compile_pattern new_RegExp pattern) eqn:Ec; intros [= <- <-]; [|done]. split; [done|]. apply cacheRegex_ok; [done|].
    intros s Hs. by eapply compile_pattern_trim.
Qed.

Lemma matches_all_exact text patterns cache b logs cache' : cache_ok cache → matches_all new_RegExp regex_test text patterns cache = (b, logs, cache') →
  b = forallb (accepts text) patterns ∧ cache_ok cache'.
Proof.
  revert cache b logs cache'. induction patterns as [|p patterns IH]; intros cache b logs cache' Hok; cbn [matches_all forallb]; [by intros [= <- _ <-]|].
  destruct (parseRegex new_RegExp p cache) as [r cache1] eqn:E. apply parseRegex_exact in E as [-> Hok1]; [|done].
  unfold accepts at 1. destruct (compile_pattern new_RegExp p) as [r|e]; cbn [mbind result_bind]; [|by intros [= <- _ <-]].
  unfold safeRegexTest. destruct (regex_test r text) as [[]|e]; cbn; [by apply IH|by intros [= <- _ <-]..].
Qed.

Lemma shouldForward_exact q cache b logs cache' : cache_ok cache →
  shouldForward new_RegExp regex_test (rq_message q) (rq_filters q) (rq_source q) (rq_config q) cache = (b, logs, cache') → b = passes q ∧ cache_ok cache'.
Proof.
  intros Hok. unfold shouldForward, passes. destruct (rq_filters q) as [filters|]; [|by intros [= <- _ <-]].
  unfold filterRejection. destruct (getMessageTextAndType (rq_message q)) as [text type]. unfold contentRejection.
  destruct (allowsMediaType type filters); [|by intros [= <- _ <-]]. destruct (containsKeyword text (fs_blockedKeywords filters)); [by intros [= <- _ <-]|].
  destruct (allowsKeyword text (fs_allowedKeywords filters)); [|by intros [= <- _ <-]]. cbn [negb andb].
  unfold matchesAllRegexPatterns. destruct (matches_all _ _ _ _ _) as [[m logs1] cache1] eqn:E. apply matches_all_exact in E as [<- Hok1]; [|done].
  destruct m; by intros [= <- _ <-].
Qed.

(** Whatever messages were filtered before, with whatever settings, a
    message is forwarded exactly when its type and its words are allowed and each
    pattern of its source, compiled anew, accepts its text; a pattern that fails
    to compile or to run accepts nothing.  The cache holds at most 100
    expressions and only results of compiling their key. *)
Theorem filter_decisions_exact requests bs cache : decisions requests [] = (bs, cache) →
  bs = map passes requests ∧ cache_ok cache.
Proof.
  assert (cache_ok []) as H0 by (split; [cbn; unfold MAX_REGEX_CACHE_SIZE; lia|constructor]). revert H0. generalize (@nil (string * RegExp)).
  intros start Hok. revert start Hok bs cache.
  induction requests as [|q requests IH]; intros start Hok bs cache; cbn; [by intros [= <- <-]|].
  destruct (shouldForward _ _ _ _ _ _ _) as [[b logs] cache1] eqn:E. apply shouldForward_exact in E as [-> Hok1]; [|done].
  destruct (decisions requests cache1) as [bs1 cache2] eqn:E2. intros [= <- <-]. destruct (IH _ Hok1 _ _ E2) as [-> ?]. done.
Qed.
End Decisions.

(** ** Witnesses *)

(** A literal engine: a pattern matches where it occurs. *)
Definition literal_RegExp (pattern flags : string) : result string :=
  if bool_decide (pattern = "") then throw "empty" else Ok (toLowerCase pattern).
Definition literal_test (r text : string) : result bool := Ok (includes (toLowerCase text) r).

Definition a_message (text : string) : FilterMessage := mkMessage "7" (Some (mkContent (Some "messageText") (text_formatted (Some text)) text_absent)).
Definition a_filter : FilterSettings := mkFilters (Some ["text"]) None (Some ["SCAM"]) (Some ["/btc/i"; "btc"]).
Definition a_request (text : string) : Request := mkRequest (a_message text) (Some a_filter) None None.

Definition some_requests : list Request := [a_request "LONG BTC"; a_request "btc scam"; a_request "eth"].

Lemma nested_quantifiers_exact_witness : hasNestedQuantifiers "(a(?:b)c+)*" = true ∧ hasNestedQuantifiers "([+]a\+)+" = false ∧
  nested_quantifier (tokens (chars "x(a+)+") false).
Proof.
  split; [vm_compute; reflexivity|]. split; [vm_compute; reflexivity|]. apply nested_quantifiers_exact. vm_compute. reflexivity.
Defined.
