(* ===== verification/Snapshot.v ===== *)
(** Snapshot: the contracts at the entrance of the forwarding queue,
    [src/ingress_contracts.ts] and [nonSecretConfigSnapshot] of
    [src/incoming_work_repository.ts].

    A Telegram message and a configuration are untyped values.  [clone] is
    [JSON.parse(JSON.stringify(value, replacer))] for a replacer that drops
    properties by their key. *)

From S2P Require Import Prelude Text Json Filters Rational.
From Stdlib Require Ascii String.
Local Open Scope Z_scope.
Local Open Scope ts_scope.

(** ** Values without secrets *)
Definition ends_with (suffix l : list Ascii.ascii) : bool := is_prefix (reverse suffix) (reverse l).

Definition line_break (c : Ascii.ascii) : bool := (char_code c =? 10) || (char_code c =? 13).

(** [/p.?q$/] *)
Definition ends_with_gap (p q l : list Ascii.ascii) : bool :=
  ends_with q l &&
  let rest := reverse (drop (length q) (reverse l)) in
  ends_with p rest || match reverse rest with c :: before => negb (line_break c) && ends_with p (reverse before) | [] => false end.

(** The keys of secrets, whatever their case. *)
Definition forbidden (key : string) : bool :=
  let l := map lower_char (chars key) in
  existsb (λ s, ends_with (chars s) l) ["secret"; "password"; "credential"; "token"]
  || existsb (λ s, ends_with_gap (chars s) (chars "key") l) ["api"; "private"; "encryption"]
  || ends_with_gap (chars "api") (chars "hash") l.

Section Clone.
Context (dropped : string → bool).

(** [undefined] is dropped from objects and [null] in arrays. *)
Fixpoint clone (v : jsval) : jsval :=
  match v with
  | JNaN => JNull
  | JArray items => JArray (map (λ v, match clone v with JUndefined => JNull | v' => v' end) items)
  | JObject fields =>
      JObject (flat_map (λ '(k, v), if dropped k then [] else match clone v with JUndefined => [] | v' => [(k, v')] end) fields)
  | v => v
  end.
End Clone.

Definition nonSecretConfigSnapshot (config : jsval) : jsval := clone forbidden config.

(** [JSON.parse(JSON.stringify(value))] *)
Definition json_clone (v : jsval) : jsval := clone (λ _, false) v.

(** ** Messages *)
Definition objectValue (value : jsval) : option (list (string * jsval)) := match value with JObject fields => Some fields | _ => None end.

(** [undefined] or a string *)
Definition optional_string (value : jsval) : bool := match value with JUndefined | JString _ => true | _ => false end.

Definition formattedText (value : jsval) : bool :=
  match value with JUndefined => true | JObject fields => optional_string (assoc "text" fields) | _ => false end.

Definition messageText_valid (fields : list (string * jsval)) : bool :=
  match assoc "_" fields, assoc "text" fields with
  | JString kind, JString _ => bool_decide (kind = "messageCustomServiceAction")
  | _, text => formattedText text
  end.

Definition messageContent (value : jsval) : bool :=
  match value with
  | JUndefined => true
  | JObject fields => optional_string (assoc "_" fields) && messageText_valid fields && formattedText (assoc "caption" fields)
  | _ => false
  end.

Definition messageEnvelope (fields : list (string * jsval)) : bool :=
  optional_string (assoc "media_group_id" fields)
  && match assoc "is_outgoing" fields with JUndefined | JBool _ => true | _ => false end
  && messageContent (assoc "content" fields).

Definition safe_int (v : jsval) : option Z := match v with JInt z => if isSafeInteger z then Some z else None | _ => None end.

(** The identity the code reads from a checked message. *)
Record TelegramMessageIdentity := mkIdentity { tm_id : Z; tm_chat_id : Z; tm_media_group_id : option string }.

Definition assertIngressMessage (value : jsval) : result TelegramMessageIdentity :=
  match value with
  | JObject fields =>
      match safe_int (assoc "id" fields), safe_int (assoc "chat_id" fields) with
      | Some id, Some chat_id =>
          if messageEnvelope fields
          then Ok (mkIdentity id chat_id (match assoc "media_group_id" fields with JString s => Some s | _ => None end))
          else throw "Incoming message content or album identity is invalid."
      | _, _ => throw "Incoming message requires safe Telegram message and chat IDs."
      end
  | _ => throw "Incoming message requires safe Telegram message and chat IDs."
  end.

(** The parsed [message_json], absent in rows of the former inbox. *)
Definition readIngressMessage (encoded : option jsval) : result TelegramMessageIdentity := assertIngressMessage (encoded ?? JNull).

(** The content the filters read. *)
Definition text_field (v : jsval) : TextField :=
  match v with
  | JString s => text_plain s
  | JObject fields => text_formatted (match assoc "text" fields with JString s => Some s | _ => None end)
  | _ => text_absent
  end.

Definition filter_message (value : jsval) : FilterMessage :=
  match value with
  | JObject fields =>
      mkMessage (match assoc "id" fields with JInt z => show z | _ => "undefined" end)
        match assoc "content" fields with
        | JObject content =>
            Some (mkContent (match assoc "_" content with JString s => Some s | _ => None end) (text_field (assoc "text" content))
                    (text_field (assoc "caption" content)))
        | _ => None
        end
  | _ => mkMessage "undefined" None
  end.

(** ** Induction on values *)
Section JsvalInd.
Context (P : jsval → Prop) (Hundef : P JUndefined) (Hnull : P JNull) (Hbool : ∀ b, P (JBool b)) (Hint : ∀ z, P (JInt z))
  (Hfloat : ∀ s, P (JFloat s)) (Hnan : P JNaN) (Hstring : ∀ s, P (JString s)) (Harray : ∀ items, Forall P items → P (JArray items))
  (Hobject : ∀ fields, Forall (λ kv : string * jsval, P kv.2) fields → P (JObject fields)).

Fixpoint jsval_induction (v : jsval) : P v :=
  match v with
  | JUndefined => Hundef | JNull => Hnull | JBool b => Hbool b | JInt z => Hint z | JFloat s => Hfloat s | JNaN => Hnan | JString s => Hstring s
  | JArray items => Harray items ((fix go l : Forall P l := match l with [] => Forall_nil_2 _ | v :: l => Forall_cons_2 _ _ _ (jsval_induction v) (go l) end) items)
  | JObject fields => Hobject fields ((fix go l : Forall (λ kv : string * jsval, P kv.2) l :=
      match l with [] => Forall_nil_2 _ | (k, v) :: l => Forall_cons_2 _ (k, v) _ (jsval_induction v) (go l) end) fields)
  end.
End JsvalInd.

(** ** Paths *)
Inductive step := at_key (k : string) | at_index (n : nat).

Inductive at_path : jsval → list step → jsval → Prop :=
| path_here v : at_path v [] v
| path_key fields k v path w : (k, v) ∈ fields → at_path v path w → at_path (JObject fields) (at_key k :: path) w
| path_index items n v path w : items !! n = Some v → at_path v path w → at_path (JArray items) (at_index n :: path) w.

Definition permitted (dropped : string → bool) (s : step) : Prop := match s with at_key k => dropped k = false | at_index _ => True end.

Section ClonePaths.
Context (dropped : string → bool).

Lemma clone_fields k w fields : (k, w) ∈ flat_map (λ '(k, v), if dropped k then [] else match clone dropped v with JUndefined => [] | v' => [(k, v')] end) fields ↔
  dropped k = false ∧ w ≠ JUndefined ∧ ∃ v, (k, v) ∈ fields ∧ w = clone dropped v.
Proof.
  induction fields as [|[k0 v0] fields IH]; cbn [flat_map]; [split; [by intros ?%elem_of_nil|intros (_ & _ & v & []%elem_of_nil & _)]|].
  rewrite elem_of_app, IH. split.
  - intros [H|(Hk & Hw & v & Hv & ->)]; [|split_and!; [done..|exists v; split; [by right|done]]].
    destruct (dropped k0) eqn:Hk0; [by apply elem_of_nil in H|].
    destruct (clone dropped v0) eqn:E; try (by apply elem_of_nil in H); apply list_elem_of_singleton in H; injection H as -> ->;
      (split_and!; [done..|exists v0; split; [by left|by rewrite E]]).
  - intros (Hk & Hw & v & [[= -> ->]|Hv]%elem_of_cons & ->); [left|by right; eauto 10]. rewrite Hk.
    destruct (clone dropped v0); try done; by apply list_elem_of_singleton.
Qed.

Lemma clone_path_permitted v path w : at_path (clone dropped v) path w → Forall (permitted dropped) path.
Proof.
  intros H. remember (clone dropped v) as u eqn:Hu. revert v Hu. induction H as [x|fields k x path w Hin _ IH|items n x path w Hn _ IH]; intros v Hu; [constructor| |].
  - destruct v; try done. injection Hu as ->. apply clone_fields in Hin as (Hk & _ & v' & _ & ->). constructor; [done|by eapply IH].
  - destruct v as [| | | | | | |items'|]; try done. injection Hu as ->. rewrite list_lookup_fmap in Hn. apply fmap_Some in Hn as (v' & _ & ->).
    constructor; [done|]. destruct (clone dropped v') eqn:E; try (eapply IH; by rewrite E). by apply (IH JNull).
Qed.

Lemma at_path_undefined path w : at_path JUndefined path w → w = JUndefined.
Proof. by inversion 1. Qed.

Lemma clone_undefined v : clone dropped v = JUndefined → v = JUndefined.
Proof. by destruct v. Qed.

Lemma clone_path_kept v path w : at_path v path w → Forall (permitted dropped) path → w ≠ JUndefined → at_path (clone dropped v) path (clone dropped w).
Proof.
  intros H Hp Hw. induction H as [v|fields k v path w Hin Hat IH|items n v path w Hn Hat IH]; [constructor| |]; apply Forall_cons in Hp as [Hk Hp].
  - cbn [clone]. econstructor; [|by apply IH]. apply clone_fields. split_and!; [done| |by exists v].
    intros Hv%clone_undefined. subst v. by apply at_path_undefined in Hat.
  - cbn [clone]. econstructor; [|by apply IH]. rewrite list_lookup_fmap, Hn. cbn. f_equal.
    destruct (clone dropped v) eqn:E; try done. apply clone_undefined in E. subst v. by apply at_path_undefined in Hat.
Qed.

Lemma clone_idempotent v : clone dropped (clone dropped v) = clone dropped v.
Proof.
  induction v as [| | | | | | |items IH|fields IH] using jsval_induction; [done..| |].
  - cbn. f_equal. rewrite map_map. induction IH as [|v items Hv _ IH]; cbn; [done|]. rewrite IH. f_equal.
    destruct (clone dropped v) eqn:E; try done; by rewrite Hv.
  - cbn. f_equal. induction IH as [|[k v] fields Hv _ IH]; cbn; [done|]. rewrite flat_map_app, IH. f_equal. cbn in Hv.
    destruct (dropped k) eqn:Hk; [done|]. destruct (clone dropped v) eqn:E; cbn -[clone]; rewrite ?Hk; try done; rewrite Hv; by rewrite ?app_nil_r.
Qed.
End ClonePaths.

(** ** Reading a clone

    A JavaScript object has each key once. *)
Definition js_value (v : jsval) : Prop := ∀ path fields, at_path v path (JObject fields) → NoDup (map fst fields).

(** A check for concrete values. *)
Fixpoint unique_keys (v : jsval) : bool :=
  match v with
  | JArray items => forallb unique_keys items
  | JObject fields => bool_decide (NoDup (map fst fields)) && forallb (λ '(_, v), unique_keys v) fields
  | _ => true
  end.

Lemma unique_keys_js v : unique_keys v = true → js_value v.
Proof.
  intros H path fields Hat. remember (JObject fields) as w eqn:Hw. revert H.
  induction Hat as [x|fs k x path w Hin _ IH|items n x path w Hn _ IH]; cbn; intros H.
  - subst x. cbn in H. by apply andb_true_iff in H as [H%bool_decide_eq_true _].
  - apply andb_true_iff in H as [_ H%forallb_Forall]. rewrite Forall_forall in H. apply (IH Hw). exact (H _ Hin).
  - apply forallb_Forall in H. rewrite Forall_forall in H. apply (IH Hw), H. by eapply list_elem_of_lookup_2.
Qed.

Lemma assoc_In k fields : assoc k fields ≠ JUndefined → (k, assoc k fields) ∈ fields.
Proof.
  induction fields as [|[k0 v0] fields IH]; [done|]. destruct (decide (k0 = k)) as [->|Hne].
  - rewrite assoc_hit. by left.
  - rewrite assoc_miss by done. intros H. right. by apply IH.
Qed.

Lemma elem_of_map_fst (k : string) (fields : list (string * jsval)) : k ∈ map fst fields ↔ ∃ v, (k, v) ∈ fields.
Proof.
  rewrite list_elem_of_fmap. split; [intros ([k' v] & -> & H); by exists v|intros (v & H); by exists (k, v)].
Qed.

Lemma assoc_NoDup k v fields : NoDup (map fst fields) → (k, v) ∈ fields → assoc k fields = v.
Proof.
  induction fields as [|[k0 v0] fields IH]; cbn; [by intros _ ?%elem_of_nil|]. intros [Hk0 Hnd]%NoDup_cons [[= <- <-]|Hin]%elem_of_cons; [apply assoc_hit|].
  rewrite assoc_miss; [by apply IH|]. intros ->. apply Hk0, elem_of_map_fst. by exists v.
Qed.

Lemma js_value_member fields k : js_value (JObject fields) → js_value (assoc k fields).
Proof.
  intros H path fs Hat. assert (assoc k fields ≠ JUndefined) as Hne by (intros E; rewrite E in Hat; inversion Hat).
  apply (H (at_key k :: path)). econstructor; [by apply assoc_In|done].
Qed.

Definition cloned (dropped : string → bool) (fields : list (string * jsval)) : list (string * jsval) :=
  flat_map (λ '(k, v), if dropped k then [] else match clone dropped v with JUndefined => [] | v' => [(k, v')] end) fields.

Lemma clone_object dropped fields : clone dropped (JObject fields) = JObject (cloned dropped fields).
Proof. reflexivity. Qed.

Lemma cloned_cons dropped k v fields : cloned dropped ((k, v) :: fields) =
  (if dropped k then [] else match clone dropped v with JUndefined => [] | v' => [(k, v')] end) ++ cloned dropped fields.
Proof. reflexivity. Qed.

(** A property that is not [undefined] is read from the clone. *)
Lemma cloned_assoc_kept dropped fields k : dropped k = false → assoc k fields ≠ JUndefined → assoc k (cloned dropped fields) = clone dropped (assoc k fields).
Proof.
  intros Hk. induction fields as [|[k0 v0] fields IH]; [done|]. rewrite cloned_cons. destruct (decide (k0 = k)) as [->|Hne].
  - rewrite assoc_hit, Hk. intros Hv. destruct (clone dropped v0) eqn:E; try apply clone_undefined in E; cbn [app]; rewrite ?assoc_hit; done.
  - rewrite assoc_miss by done. intros Hv. rewrite <-(IH Hv). destruct (dropped k0); [done|]. destruct (clone dropped v0); cbn [app]; rewrite ?assoc_miss by done; done.
Qed.

Lemma clone_assoc dropped fields k : dropped k = false → NoDup (map fst fields) → assoc k (cloned dropped fields) = clone dropped (assoc k fields).
Proof.
  intros Hk Hnd. destruct (assoc k fields) eqn:E; try (rewrite <-E; apply cloned_assoc_kept; congruence).
  cbn. destruct (assoc k (cloned dropped fields)) eqn:E2; try done; exfalso;
    (assert (assoc k (cloned dropped fields) ≠ JUndefined) as Hne by congruence; apply assoc_In, clone_fields in Hne as (_ & Hw & v & Hv & Hc);
     apply (assoc_NoDup _ _ _ Hnd) in Hv; rewrite E in Hv; subst v; by rewrite Hc in Hw).
Qed.

Lemma json_clone_assoc fields : NoDup (map fst fields) → ∃ fields', json_clone (JObject fields) = JObject fields' ∧
  ∀ k, assoc k fields' = json_clone (assoc k fields).
Proof.
  intros Hnd. exists (cloned (λ _, false) fields). split; [reflexivity|]. intros k. by apply clone_assoc.
Qed.

Lemma optional_string_clone v : optional_string (json_clone v) = optional_string v.
Proof. by destruct v. Qed.

Lemma formattedText_clone v : js_value v → formattedText (json_clone v) = formattedText v.
Proof.
  destruct v as [| | | | | | | |fields]; try done. intros Hv. destruct (json_clone_assoc fields) as (fields' & -> & Ha); [by apply (Hv []), path_here|].
  cbn. by rewrite Ha, optional_string_clone.
Qed.

Lemma messageContent_clone v : js_value v → messageContent (json_clone v) = messageContent v.
Proof.
  destruct v as [| | | | | | | |fields]; try done. intros Hv. destruct (json_clone_assoc fields) as (fields' & -> & Ha); [by apply (Hv []), path_here|].
  cbn. unfold messageText_valid. rewrite !Ha, optional_string_clone, (formattedText_clone _ (js_value_member _ "caption" Hv)). do 2 f_equal.
  pose proof (formattedText_clone _ (js_value_member _ "text" Hv)) as Ht. revert Ht.
  destruct (assoc "_" fields), (assoc "text" fields); cbn; done.
Qed.

(** The stored copy of a message is as valid as the message. *)
Lemma assert_clone v identity : js_value v → assertIngressMessage v = Ok identity → assertIngressMessage (json_clone v) = Ok identity.
Proof.
  destruct v as [| | | | | | | |fields]; try done. intros Hv. destruct (json_clone_assoc fields) as (fields' & -> & Ha); [by apply (Hv []), path_here|].
  assert (∀ v, safe_int (json_clone v) = safe_int v) as Hs by by intros [].
  assert (messageEnvelope fields' = messageEnvelope fields) as He.
  { unfold messageEnvelope. rewrite !Ha, optional_string_clone, (messageContent_clone _ (js_value_member _ "content" Hv)). by destruct (assoc "is_outgoing" fields). }
  cbn. rewrite He, !Ha, !Hs. repeat case_match; naive_solver.
Qed.

(** The snapshot of a configuration that is stored with a message has no
    property with the key of a secret, at any depth; every other value of the
    configuration is where it was; taking the snapshot again changes nothing. *)
Theorem snapshot_drops_only_secrets config path :
  (∀ w, at_path (nonSecretConfigSnapshot config) path w → Forall (permitted forbidden) path) ∧
  (∀ v, at_path config path v → Forall (permitted forbidden) path → v ≠ JUndefined →
     at_path (nonSecretConfigSnapshot config) path (nonSecretConfigSnapshot v)) ∧
  nonSecretConfigSnapshot (nonSecretConfigSnapshot config) = nonSecretConfigSnapshot config.
Proof.
  split_and!; [intros w; apply clone_path_permitted|intros v Hat Hp Hv; by apply clone_path_kept|apply clone_idempotent].
Qed.

Definition sample_config : jsval :=
  JObject [("sourceChannels", JArray [JInt (-100)]);
           ("telegram", JObject [("apiHash", JString "s"); ("API_KEY", JString "s"); ("botToken", JString "s"); ("tokens", JInt 3)])].
