(* ===== verification/Ingress.v ===== *)
(** Ingress: [src/incoming_work_repository.ts], the durable inbox in front of the
    outbox: a message is accepted once, classified once, and either filtered,
    sent to review, collected in an album or turned into outbox tasks.

    [IngressDb] holds the tables [incoming_work], [incoming_messages],
    [incoming_album_groups] and [pending_tasks].  A call is one transaction, or a
    sequence of them; a throw leaves the tables of its transaction as they were.
    [now] is [Date.now()].  [Reads] is what [incomingSnapshot] reads of other
    tables at the time of a call, and [signalPlans] the keys of the plans
    [getWorkflowSignalPlans] answers for a pinned revision; the filters use the
    regular expressions and the cache of [Filters]. *)

From S2P Require Import Prelude Text Json Rational Filters Table OutboxStore Snapshot.
From Stdlib Require Ascii String.
Local Open Scope Z_scope.
Local Open Scope ts_scope.
Set Default Proof Using "Type".

(** ** Tables *)
Inductive WorkStatus := wk_pending | wk_routed | wk_filtered | wk_album_waiting | wk_needs_review.
#[export] Instance WorkStatus_eq_dec : EqDecision WorkStatus.
Proof. solve_decision. Defined.

Definition status_name (s : WorkStatus) : string :=
  match s with wk_pending => "pending" | wk_routed => "routed" | wk_filtered => "filtered" | wk_album_waiting => "album_waiting"
  | wk_needs_review => "needs_review" end.

Abbreviation Fields := (list (string * jsval)).

(** The JSON columns hold what their texts parse to; rows of the former inbox
    have none. *)
Record IncomingWorkRow := mkWork {
  iw_chat_id : string; iw_message_id : Z; iw_message : option jsval; iw_config : option Fields; iw_workflow_revision_id : option string;
  iw_status : WorkStatus; iw_reason : option string; iw_created_at : Z; iw_updated_at : Z }.

Record IncomingMessage := mkInbox { im_sender : string; im_text : string; im_type : string; im_status : string; im_created_at : Z }.

Inductive AlbumStatus := al_waiting | al_completed | al_needs_review.
#[export] Instance AlbumStatus_eq_dec : EqDecision AlbumStatus.
Proof. solve_decision. Defined.

Record IncomingAlbumRow := mkAlbum {
  ag_chat_id : string; ag_media_group_id : string; ag_work_ids : list string; ag_config : Fields; ag_ready_at : Z; ag_status : AlbumStatus }.

Abbreviation WorkTable := (gmap string IncomingWorkRow).

Record IngressDb := mkIngress {
  incoming_work : WorkTable; incoming_messages : gmap (string * Z) IncomingMessage; incoming_album_groups : gmap string IncomingAlbumRow;
  pending_tasks : PendingTasks }.

(** ** Properties of objects *)

(** [object[key] = value] *)
Fixpoint js_set (key : string) (value : jsval) (fields : Fields) : Fields :=
  match fields with
  | [] => [(key, value)]
  | (k, v) :: rest => if bool_decide (k = key) then (key, value) :: rest else (k, v) :: js_set key value rest
  end.

(** The properties of a spread value. *)
Definition spread (v : jsval) : Fields := match v with JObject fields => fields | _ => [] end.

Definition truthy (v : jsval) : bool :=
  match v with
  | JUndefined | JNull | JNaN => false
  | JBool b => b
  | JInt z => negb (z =? 0)
  | JFloat _ => true
  | JString s => negb (bool_decide (s = ""))
  | JArray _ | JObject _ => true
  end.

(** [value?.key] *)
Definition member (key : string) (v : jsval) : jsval := assoc key (spread v).

Definition or_null (v : jsval) : jsval := match v with JUndefined => JNull | v => v end.

Definition string_of (v : jsval) : option string := match v with JString s => Some s | _ => None end.

(** ** Pinned resources *)
Record ActiveWorkflow := mkWorkflow { wf_id : string; wf_paths : list jsval; wf_value : jsval }.

(** The workflow that is active, the resources of its paths, and the tables and
    files the pinned resources come from. *)
Record Reads := mkReads {
  rd_workflow : option ActiveWorkflow; rd_schemas : jsval; rd_template : option string → result string; rd_contract : string → option jsval;
  rd_legacySchema : option string → result jsval; rd_route : string → option jsval }.

Definition resourceObject (value : jsval) : result Fields :=
  match value with JObject fields => Ok fields | _ => throw "Pinned workflow resource must be an object." end.

(** The prompts and the contracts pinned so far. *)
Fixpoint pinWorkflowParserResources (reads : Reads) (paths : list jsval) (prompts contracts : Fields) : result (Fields * Fields) :=
  match paths with
  | [] => Ok (prompts, contracts)
  | candidate :: rest =>
      resources ← resourceObject candidate;
      parser ← resourceObject (assoc "parser" resources);
      contract ← resourceObject (assoc "contract" resources);
      templateName ← requireString (assoc "templateName" parser) "Pinned parser template";
      prompt ← (if truthy (assoc "prompt" parser) then requireString (assoc "prompt" parser) "Pinned parser prompt" else rd_template reads (Some templateName));
      version ← requireString (assoc "contractVersionId" contract) "Pinned contract version";
      match rd_contract reads version with
      | None => throw "Workflow contract is missing; ingress cannot be pinned."
      | Some v => pinWorkflowParserResources reads rest (js_set templateName (JString prompt) prompts) (js_set version v contracts)
      end
  end.

Definition pinLegacyParserResources (reads : Reads) (chatId : string) (xmlParsing : jsval) (ingress : Fields) : result Fields :=
  let template := string_of (member chatId (member "sourceTemplates" xmlParsing)) in
  schema ← rd_legacySchema reads template;
  prompt ← rd_template reads template;
  Ok (js_set "legacyRoute" (rd_route reads chatId ?? JNull) (js_set "legacyPrompt" (JString prompt) (js_set "legacySchema" schema ingress))).

(** The durable ingress with its pinned resources. *)
Definition pinParserResources (reads : Reads) (config : Fields) (chatId : string) (ingress : Fields) : result Fields :=
  let ingress := js_set "schemas" (rd_schemas reads) ingress in
  match rd_workflow reads with
  | Some workflow =>
      pinned ← pinWorkflowParserResources reads (wf_paths workflow) [] [];
      Ok (js_set "contracts" (JObject pinned.2) (js_set "prompts" (JObject pinned.1) ingress))
  | None =>
      let ingress := js_set "contracts" (JObject []) (js_set "prompts" (JObject []) ingress) in
      if truthy (member "enabled" (assoc "xmlParsing" config)) then pinLegacyParserResources reads chatId (assoc "xmlParsing" config) ingress
      else Ok ingress
  end.

Definition workId (chatId : string) (messageId : Z) : string := "ingress_" +:+ chatId +:+ "_" +:+ show messageId.

Definition json_object (fields : Fields) : Fields := spread (json_clone (JObject fields)).

(** The stored configuration: without secrets, with the durable ingress. *)
Definition incomingSnapshot (reads : Reads) (config : Fields) (id chatId : string) (now : Z) (pinResources : bool) : result Fields :=
  let snapshot := spread (nonSecretConfigSnapshot (JObject config)) in
  let ingress := [("id", JString id); ("chatId", JString chatId); ("receivedAt", JInt now);
                  ("workflowRevisionId", j_opt (wf_id <$> rd_workflow reads)); ("targetChatId", or_null (assoc "resolvedTargetChatId" config));
                  ("workflow", (wf_value <$> rd_workflow reads) ?? JNull)] in
  ingress ← (if pinResources then pinParserResources reads snapshot chatId ingress else Ok ingress);
  Ok (json_object (js_set "durableIngress" (JObject ingress) snapshot)).

(** ** Accepting a message *)
Record IncomingWork := mkIncomingWork { wr_id : string; wr_status : WorkStatus; wr_workflowRevisionId : option string }.

(** [ON CONFLICT(chat_id, message_id) DO NOTHING] *)
Definition saveIncomingMessage (now : Z) (chatId : string) (messageId : Z) (sender text type status : string) (db : IngressDb) : IngressDb :=
  match incoming_messages db !! (chatId, messageId) with
  | Some _ => db
  | None => mkIngress (incoming_work db) (<[(chatId, messageId) := mkInbox sender text type status now]> (incoming_messages db))
              (incoming_album_groups db) (pending_tasks db)
  end.

Definition updateIncomingMessageStatus (chatId : string) (messageId : Z) (status : string) (db : IngressDb) : IngressDb :=
  mkIngress (incoming_work db)
    (alter (λ m, mkInbox (im_sender m) (im_text m) (im_type m) status (im_created_at m)) (chatId, messageId) (incoming_messages db))
    (incoming_album_groups db) (pending_tasks db).

Definition saveSourceInbox (now : Z) (message : jsval) (messageId : Z) (config : Fields) (chatId : string) (db : IngressDb) : IngressDb :=
  let '(text, type) := getMessageTextAndType (filter_message message) in
  let alias := match string_of (member chatId (assoc "sourceAliases" config)) with Some s => if bool_decide (s = "") then chatId else s | None => chatId end in
  saveIncomingMessage now chatId messageId alias text type "received" db.

Definition LEGACY_INBOX : string := "Existing legacy inbox has no proven durable work; historical replay is blocked.".

(** [SELECT * FROM incoming_work WHERE chat_id = ? AND message_id = ?] *)
Definition find_work (chatId : string) (messageId : Z) (work : WorkTable) : option (string * IncomingWorkRow) :=
  head (filter (λ row : string * IncomingWorkRow, iw_chat_id row.2 = chatId ∧ iw_message_id row.2 = messageId) (map_to_list work)).

Definition acceptIncomingMessage (now : Z) (reads : Reads) (message : jsval) (config : Fields) (db : IngressDb) : result (IncomingWork * IngressDb) :=
  identity ← assertIngressMessage message;
  let chatId := show (tm_chat_id identity) in
  let messageId := tm_id identity in
  match find_work chatId messageId (incoming_work db) with
  | Some (id, row) => Ok (mkIncomingWork id (iw_status row) (iw_workflow_revision_id row), db)
  | None =>
      let legacy := bool_decide (is_Some (incoming_messages db !! (chatId, messageId))) in
      let id := workId chatId messageId in
      snapshot ← incomingSnapshot reads config id chatId now (negb legacy);
      let db := saveSourceInbox now message messageId config chatId db in
      let status := if legacy then wk_needs_review else wk_pending in
      let revision := wf_id <$> rd_workflow reads in
      match incoming_work db !! id with
      | Some _ => throw_code "SQLITE_CONSTRAINT" "UNIQUE constraint failed: incoming_work.id"
      | None =>
          let row := mkWork chatId messageId (Some (json_clone message)) (Some snapshot) revision status (if legacy then Some LEGACY_INBOX else None) now now in
          let db := mkIngress (<[id := row]> (incoming_work db)) (incoming_messages db) (incoming_album_groups db) (pending_tasks db) in
          Ok (mkIncomingWork id status revision, if legacy then updateIncomingMessageStatus chatId messageId "needs_review" db else db)
      end
  end.

(** ** Classification *)
Definition classified (now : Z) (status : WorkStatus) (reason : string) (row : IncomingWorkRow) : IncomingWorkRow :=
  mkWork (iw_chat_id row) (iw_message_id row) (iw_message row) (iw_config row) (iw_workflow_revision_id row) status (Some reason) (iw_created_at row) now.

Definition finishClassification (now : Z) (id : string) (row : IncomingWorkRow) (status : WorkStatus) (reason : string) (db : IngressDb) : IngressDb :=
  updateIncomingMessageStatus (iw_chat_id row) (iw_message_id row) (status_name status)
    (mkIngress (alter (classified now status reason) id (incoming_work db)) (incoming_messages db) (incoming_album_groups db) (pending_tasks db)).

Definition with_outbox (db : IngressDb) (tasks : PendingTasks) : IngressDb :=
  mkIngress (incoming_work db) (incoming_messages db) (incoming_album_groups db) tasks.

Definition albumId (chatId mediaGroupId : string) : string := "album_" +:+ chatId +:+ "_" +:+ mediaGroupId.
Definition singleId (chatId : string) (messageId : Z) : string := "single_" +:+ chatId +:+ "_" +:+ show messageId.

Definition addAlbumPart (now : Z) (id : string) (row : IncomingWorkRow) (mediaGroupId : string) (config : Fields) (db : IngressDb) : IngressDb :=
  let groupId := albumId (iw_chat_id row) mediaGroupId in
  let store group := mkIngress (incoming_work db) (incoming_messages db) (<[groupId := group]> (incoming_album_groups db)) (pending_tasks db) in
  let waiting db := finishClassification now id row wk_album_waiting "Waiting for durable album closure." db in
  match incoming_album_groups db !! groupId with
  | Some group =>
      if negb (bool_decide (ag_status group = al_waiting))
      then finishClassification now id row wk_needs_review "Album already closed; late part requires explicit review." db
      else
        let ids := if bool_decide (id ∈ ag_work_ids group) then ag_work_ids group else ag_work_ids group ++ [id] in
        waiting (store (mkAlbum (ag_chat_id group) (ag_media_group_id group) ids (ag_config group) (now + 800) (ag_status group)))
  | None => waiting (store (mkAlbum (iw_chat_id row) mediaGroupId [id] config (now + 800) al_waiting))
  end.

(** The task of one plan. *)
Definition plan_task (id : string) (row : IncomingWorkRow) (config : Fields) (key : string) : EnqueueOutboxTaskInput :=
  let child := js_set "durableIngress" (JObject (js_set "planKey" (JString key) (spread (assoc "durableIngress" config)))) config in
  mkEnqueue (id +:+ "_" +:+ key) type_single (iw_chat_id row) (Some (iw_message_id row)) None None (iw_created_at row) (Some (JObject child))
    (iw_workflow_revision_id row) (Some id) false.

(** [for (const plan of plans) await enqueueOutboxTask(...)] *)
Fixpoint enqueue_all (now : Z) (tasks : list EnqueueOutboxTaskInput) (db : PendingTasks) : result PendingTasks :=
  match tasks with
  | [] => Ok db
  | task :: rest => r ← enqueueOutboxTask now task db; enqueue_all now rest r.2
  end.

Definition routeWorkflowPlans (now : Z) (plans : list string) (id : string) (row : IncomingWorkRow) (config : Fields) (db : IngressDb) : result IngressDb :=
  match plans with
  | [] => Ok (finishClassification now id row wk_filtered "Pinned workflow has no eligible path for this content." db)
  | _ =>
      tasks ← enqueue_all now (map (plan_task id row config) plans) (pending_tasks db);
      Ok (finishClassification now id row wk_routed "Pinned workflow fanout durably enqueued." (with_outbox db tasks))
  end.

(** The filters of a stored configuration. *)
Definition string_list (v : jsval) : option (list string) := match v with JArray items => Some (omap string_of items) | _ => None end.

Definition filter_settings (v : jsval) : option FilterSettings :=
  match v with
  | JObject fields => Some (mkFilters (string_list (assoc "allowedTypes" fields)) (string_list (assoc "allowedKeywords" fields))
                             (string_list (assoc "blockedKeywords" fields)) (string_list (assoc "regexPatterns" fields)))
  | _ => None
  end.

Definition filter_configuration (config : Fields) : FilterConfiguration :=
  mkFilterConfiguration
    (match assoc "sourceFilters" config with JObject sources => Some (map (λ '(k, v), (k, string_list (member "regexPatterns" v))) sources) | _ => None end)
    (filter_settings (assoc "filters" config)).

(** [String(value)] of a channel identifier. *)
Definition channel_text (v : jsval) : option string := match v with JInt z => Some (show z) | JString s => Some s | _ => None end.

Definition is_source (chatId : string) (config : Fields) : bool :=
  match assoc "sourceChannels" config with JArray items => bool_decide (chatId ∈ omap channel_text items) | _ => false end.

Section Classify.
Context {RegExp : Type} (new_RegExp : string → string → result RegExp) (regex_test : RegExp → string → result bool).
Context (signalPlans : string → string → string → string → result (list string)).
Abbreviation Cache := (list (string * RegExp)).

(** The decision of the legacy source, the reason of a rejection and the cache. *)
Definition acceptsLegacySource (row : IncomingWorkRow) (message : jsval) (config : Fields) (cache : Cache) : option string * Cache :=
  if negb (is_source (iw_chat_id row) config)
  then (Some "Source is absent from the transactionally selected workflow and source configuration.", cache)
  else
    let source := if bool_decide (iw_chat_id row = "") then None else Some (iw_chat_id row) in
    let '(b, reasons, cache) := shouldForward new_RegExp regex_test (filter_message message) (filter_settings (assoc "filters" config)) source
                                  (Some (filter_configuration config)) cache in
    if b then (None, cache)
    else (Some (let text := join "; " reasons in if bool_decide (text = "") then "Configured ingress filter." else text), cache).

Definition routeLegacyAlbum (now : Z) (id : string) (row : IncomingWorkRow) (mediaGroupId : string) (config : Fields) (db : IngressDb) : IngressDb :=
  match member "forwardToTarget" (assoc "forwardOptions" config) with
  | JBool false => finishClassification now id row wk_filtered "Album forwarding is disabled." db
  | _ => addAlbumPart now id row mediaGroupId config db
  end.

Definition single_task (id : string) (row : IncomingWorkRow) (config : Fields) : EnqueueOutboxTaskInput :=
  mkEnqueue (singleId (iw_chat_id row) (iw_message_id row)) type_single (iw_chat_id row) (Some (iw_message_id row)) None None (iw_created_at row)
    (Some (JObject config)) None (Some id) false.

(** The album a message belongs to. *)
Definition album_of (identity : TelegramMessageIdentity) : option string :=
  match tm_media_group_id identity with
  | Some g => if bool_decide (g = "") || bool_decide (g = "0") then None else Some g
  | None => None
  end.

Definition classifyIncomingRow (now : Z) (id : string) (row : IncomingWorkRow) (db : IngressDb) (cache : Cache) : result IngressDb * Cache :=
  match readIngressMessage (iw_message row), iw_config row with
  | Err e, _ => (Err e, cache)
  | Ok _, None => (throw "Cannot read properties of null", cache)
  | Ok identity, Some config =>
      let message := iw_message row ?? JNull in
      let '(text, type) := getMessageTextAndType (filter_message message) in
      match (match iw_workflow_revision_id row with Some r => if bool_decide (r = "") then None else Some r | None => None end) with
      | Some revision =>
          ((plans ← signalPlans (iw_chat_id row) text type revision; routeWorkflowPlans now plans id row config db), cache)
      | None =>
          let '(rejection, cache) := acceptsLegacySource row message config cache in
          match rejection with
          | Some reason => (Ok (finishClassification now id row wk_filtered reason db), cache)
          | None =>
              match album_of identity with
              | Some mediaGroupId => (Ok (routeLegacyAlbum now id row mediaGroupId config db), cache)
              | None =>
                  ((r ← enqueueOutboxTask now (single_task id row config) (pending_tasks db);
                    Ok (finishClassification now id row wk_routed "Single-message outbox durably enqueued." (with_outbox db r.2))), cache)
              end
          end
      end
  end.

(** One row of the scan, in a transaction of its own; a failure is recorded. *)
Definition process_one (now : Z) (id : string) (db : IngressDb) (cache : Cache) : IngressDb * Cache :=
  match incoming_work db !! id with
  | Some row =>
      if bool_decide (iw_status row = wk_pending) then
        match classifyIncomingRow now id row db cache with
        | (Ok db', cache') => (db', cache')
        | (Err e, cache') => (finishClassification now id row wk_needs_review (message e) db, cache')
        end
      else (db, cache)
  | None => (db, cache)
  end.

Fixpoint process_rows (now : Z) (ids : list string) (db : IngressDb) (cache : Cache) : IngressDb * Cache :=
  match ids with
  | [] => (db, cache)
  | id :: rest => let '(db, cache) := process_one now id db cache in process_rows now rest db cache
  end.

Definition pending_rows (db : IngressDb) : list (string * IncomingWorkRow) :=
  Table.select iw_created_at (λ row, iw_status row.2 = wk_pending) (incoming_work db).

Definition processIncomingWork (now : Z) (limit : nat) (db : IngressDb) (cache : Cache) : IngressDb * Cache :=
  process_rows now (map fst (take limit (pending_rows db))) db cache.
End Classify.

(** ** Closing albums *)

(** The rows of an album by message identifier. *)
Definition album_rows (ids : list string) (work : WorkTable) : list (string * IncomingWorkRow) :=
  sort_by (λ row, iw_message_id row.2) (filter (λ row : string * IncomingWorkRow, row.1 ∈ ids) (map_to_list work)).

Fixpoint min_list (a : Z) (l : list Z) : Z := match l with [] => a | b :: l' => Z.min a (min_list b l') end.

Definition closed_album (group : IncomingAlbumRow) : IncomingAlbumRow :=
  mkAlbum (ag_chat_id group) (ag_media_group_id group) (ag_work_ids group) (ag_config group) (ag_ready_at group) al_completed.

Definition finish_album (now : Z) (rows : list (string * IncomingWorkRow)) (db : IngressDb) : IngressDb :=
  foldl (λ db row, finishClassification now row.1 row.2 wk_routed "Album closure and child outbox committed together." db) db rows.

(** The task of an album whose first row is [first]. *)
Definition album_task (id : string) (group : IncomingAlbumRow) (ingress : Fields) (first : string * IncomingWorkRow) (rows : list (string * IncomingWorkRow))
    : EnqueueOutboxTaskInput :=
  let messages := JArray (map (λ row, iw_message row.2 ?? JNull) rows) in
  mkEnqueue id type_mediaGroup (ag_chat_id group) None (Some (map (λ row, iw_message_id row.2) rows)) (Some (ag_media_group_id group))
    (min_list (iw_created_at first.2) (map (λ row, iw_created_at row.2) rows))
    (Some (JObject (js_set "durableIngress" (JObject (js_set "albumMessages" messages ingress)) (ag_config group)))) None (Some first.1) false.

Definition closeAlbum (now : Z) (id : string) (group : IncomingAlbumRow) (db : IngressDb) : result IngressDb :=
  let rows := album_rows (ag_work_ids group) (incoming_work db) in
  _ ← mapM (λ row : string * IncomingWorkRow, readIngressMessage (iw_message row.2)) rows;
  match assoc "durableIngress" (ag_config group), rows with
  | JObject ingress, first :: _ =>
      r ← enqueueOutboxTask now (album_task id group ingress first rows) (pending_tasks db);
      Ok (finish_album now rows (mkIngress (incoming_work db) (incoming_messages db) (<[id := closed_album group]> (incoming_album_groups db)) r.2))
  | JObject _, [] => throw "Cannot read properties of undefined (reading 'id')"
  | _, _ => throw "Cannot set properties of undefined (setting 'albumMessages')"
  end.

Definition due_albums (now : Z) (db : IngressDb) : list (string * IncomingAlbumRow) :=
  filter (λ group : string * IncomingAlbumRow, ag_status group.2 = al_waiting ∧ ag_ready_at group.2 <= now) (map_to_list (incoming_album_groups db)).

Fixpoint close_albums (now : Z) (groups : list (string * IncomingAlbumRow)) (db : IngressDb) : result IngressDb :=
  match groups with
  | [] => Ok db
  | (id, group) :: rest => db ← closeAlbum now id group db; close_albums now rest db
  end.

(** One transaction for all the albums that are due. *)
Definition flushIncomingAlbums (now : Z) (db : IngressDb) : result IngressDb := close_albums now (due_albums now db) db.

(** ** Executing a task

    What [executePersistedOutboxTask] hands to the service that forwards: the
    message of the row a single task names, or the messages in the configuration
    of an album; without a durable ingress the task is refused. *)
Definition requireOutboxMessageIds (value : Column) : option (list Z) :=
  match value with col_json (JArray ((_ :: _) as items)) => mapM safe_int items | _ => None end.

Definition task_ingress (task : OutboxStorageRow) : jsval :=
  match os_config_json task with col_json config => member "durableIngress" config | _ => JUndefined end.

Definition stored_message (work : WorkTable) (task : OutboxStorageRow) : option jsval :=
  match os_ingress_work_id task with
  | Some id => match work !! id with Some row => iw_message row | None => None end
  | None => None
  end.

Definition reload_messages (work : WorkTable) (task : OutboxStorageRow) : result (list jsval) :=
  if negb (truthy (task_ingress task)) then throw "Legacy outbox has no proven immutable ingress; review required."
  else match os_type task with
  | type_single =>
      match stored_message work task, os_message_id task with
      | Some message, Some m =>
          match member "id" message with
          | JInt z => if z =? m then Ok [message] else throw "Could not reload source message."
          | _ => throw "Could not reload source message."
          end
      | _, _ => throw "Could not reload source message."
      end
  | type_mediaGroup =>
      let messages := match member "albumMessages" (task_ingress task) with JArray messages => messages | _ => [] end in
      match requireOutboxMessageIds (os_message_ids task) with
      | Some ids => if (length messages =? length ids)%nat then Ok messages else throw "Album could not be reconstructed completely."
      | None => throw_code "OutboxMessageIdsError" "Media-group outbox task has malformed messageIds; explicit review required."
      end
  end.

(** The Telegram outputs of a signal that was parsed locally. *)
Section Outputs.
Context (sha256 : string → string).

Definition output_task (taskId : string) (message : TelegramMessageIdentity) (config : Fields) (xml mode : string) : option EnqueueOutboxTaskInput :=
  if bool_decide (mode ∈ ["telegram_xml"; "telegram_original"]) then
    let ingress := spread (assoc "durableIngress" config) in
    let digest := of_chars (take 12 (chars (sha256 mode))) in
    Some (mkEnqueue (taskId +:+ "_output_" +:+ digest) type_single (show (tm_chat_id message)) (Some (tm_id message)) None None
      (match assoc "receivedAt" ingress with JInt z => z | _ => 0 end)
      (Some (JObject (js_set "durableIngress" (JObject (js_set "parsedXml" (JString xml) (js_set "deliveryMode" (JString mode) ingress))) config)))
      (string_of (assoc "workflowRevisionId" ingress)) (string_of (assoc "id" ingress)) false)
  else None.

Definition enqueueWorkflowOutputs (now : Z) (taskId : string) (message : TelegramMessageIdentity) (config : Fields) (xml : string) (modes : list string)
    (db : PendingTasks) : result PendingTasks :=
  enqueue_all now (omap (output_task taskId message config xml) modes) db.

(** The call of an execution of the task [taskId], whose configuration is that of
    the task, with the defaults [context] under it: [mergeConfigDefaults] keeps
    the durable ingress. *)
Definition publish_outputs (now : Z) (taskId : string) (context : Fields) (xml : string) (modes : list string) (db : IngressDb) : result IngressDb :=
  match pending_tasks db !! taskId with
  | Some task =>
      match os_type task, sendable (os_status task), reload_messages (incoming_work db) task with
      | type_single, true, Ok [message] =>
          identity ← assertIngressMessage message;
          tasks ← enqueueWorkflowOutputs now taskId identity (js_set "durableIngress" (task_ingress task) context) xml modes (pending_tasks db);
          Ok (with_outbox db tasks)
      | _, _, _ => Ok db
      end
  | None => Ok db
  end.
End Outputs.

(** ** Retention

    [pruneOperationalData] on these tables: settled messages of the inbox and
    completed tasks, the oldest first. *)
Definition pruned_messages (cutoff : Z) (batchSize : nat) (inbox : gmap (string * Z) IncomingMessage) : list (string * Z) :=
  take batchSize (map fst (sort_by (λ row, im_created_at row.2)
    (filter (λ row : (string * Z) * IncomingMessage, im_created_at row.2 < cutoff ∧ im_status row.2 ∈ ["processed"; "filtered"]) (map_to_list inbox)))).

Definition pruneIngress (cutoff : Z) (batchSize : nat) (db : IngressDb) : IngressDb :=
  mkIngress (incoming_work db) (foldr delete (incoming_messages db) (pruned_messages cutoff batchSize (incoming_messages db))) (incoming_album_groups db)
    (pruneCompleted cutoff batchSize (pending_tasks db)).

(** ** Identifiers *)
Definition underscore : Ascii.ascii := Ascii.ascii_of_nat 95.

Lemma show_no_underscore z : underscore ∉ chars (show z).
Proof. by apply show_no_char. Qed.

(** A prefix, a chat, and what follows. *)
Lemma keyed_inj (p : string) z z' b b' : p +:+ show z +:+ "_" +:+ b = p +:+ show z' +:+ "_" +:+ b' → z = z' ∧ b = b'.
Proof.
  intros H%(f_equal chars). rewrite !chars_append in H. apply app_inv_head in H. change (chars "_") with [underscore] in H.
  apply separated_inj in H as [Hz%(f_equal of_chars) Hb%(f_equal of_chars)]; [|apply show_no_underscore..].
  rewrite !of_chars_chars in Hz, Hb. by apply show_inj in Hz.
Qed.

Lemma append_assoc (a b c : string) : (a +:+ b) +:+ c = a +:+ b +:+ c.
Proof.
  assert (chars ((a +:+ b) +:+ c) = chars (a +:+ b +:+ c)) as H by (by rewrite !chars_append, app_assoc).
  apply (f_equal of_chars) in H. by rewrite !of_chars_chars in H.
Qed.

Lemma singleId_inj z m z' m' : singleId (show z) m = singleId (show z') m' → z = z' ∧ m = m'.
Proof. intros [-> H]%keyed_inj. by apply show_inj in H. Qed.

Lemma albumId_inj z g z' g' : albumId (show z) g = albumId (show z') g' → z = z' ∧ g = g'.
Proof. apply keyed_inj. Qed.

Lemma workId_inj z m z' m' : workId (show z) m = workId (show z') m' → z = z' ∧ m = m'.
Proof. intros [-> H]%keyed_inj. by apply show_inj in H. Qed.

Definition planId (id key : string) : string := id +:+ "_" +:+ key.

Lemma planId_inj z m key z' m' key' : planId (workId (show z) m) key = planId (workId (show z') m') key' → z = z' ∧ m = m' ∧ key = key'.
Proof.
  unfold planId, workId. rewrite !append_assoc. intros [-> H]%keyed_inj. split; [done|].
  apply (f_equal chars) in H. rewrite !chars_append in H. apply separated_inj in H as [Hm%(f_equal of_chars) Hk%(f_equal of_chars)]; [|apply show_no_underscore..].
  rewrite !of_chars_chars in Hm, Hk. by apply show_inj in Hm.
Qed.

(** The three kinds of task identifiers are told apart by their first letter. *)
Lemma task_ids_disjoint chat m chat' g chat'' m' key : singleId chat m ≠ albumId chat' g ∧ singleId chat m ≠ planId (workId chat'' m') key ∧
  planId (workId chat'' m') key ≠ albumId chat' g.
Proof. split_and!; intros H%(f_equal chars); unfold planId, workId, singleId, albumId in H; rewrite ?append_assoc, !chars_append in H; cbn in H; discriminate H. Qed.

(** An identifier the ingress gives to no task. *)
Definition foreign (tid : string) : Prop := ∀ p s, p ∈ ["single"; "album"; "ingress"] → tid ≠ p +:+ s.

Lemma chars_eq (a b : string) : chars a = chars b → a = b.
Proof. intros H%(f_equal of_chars). by rewrite !of_chars_chars in H. Qed.

Lemma prefix_no_underscore p : p ∈ ["single"; "album"; "ingress"] → underscore ∉ chars p.
Proof.
  intros Hp. assert (Forall (λ p, forallb (λ c, negb (bool_decide (c = underscore))) (chars p) = true) ["single"; "album"; "ingress"]) as Hall by by repeat constructor.
  rewrite Forall_forall in Hall. specialize (Hall p Hp). apply forallb_Forall in Hall. rewrite Forall_forall in Hall. intros Hu%Hall.
  by rewrite bool_decide_true in Hu.
Qed.

Lemma foreign_suffix tid s : foreign tid → foreign (tid +:+ "_" +:+ s).
Proof.
  intros H p r Hp E%(f_equal chars). rewrite !chars_append in E. symmetry in E. apply app_eq_inv in E as [(k & E1 & E2)|(k & E1 & _)].
  - destruct k as [|c k].
    + apply (H p ""); [done|]. apply chars_eq. rewrite chars_append. symmetry. rewrite E1. change (chars "") with (@nil Ascii.ascii). by rewrite !app_nil_r.
    + cbn in E2. injection E2 as <- _. assert (Ascii.ascii_of_nat 95 ∈ chars p) as Hu by (rewrite E1; apply elem_of_app; right; by left).
      by apply (prefix_no_underscore p).
  - apply (H p (of_chars k)); [done|]. apply chars_eq. by rewrite chars_append, chars_of_chars.
Qed.

Lemma single_not_foreign chat m : ¬ foreign (singleId chat m).
Proof. intros H. apply (H "single" ("_" +:+ chat +:+ "_" +:+ show m)); [by left|done]. Qed.

Lemma plan_not_foreign chat m key : ¬ foreign (planId (workId chat m) key).
Proof. intros H. apply (H "ingress" ("_" +:+ (chat +:+ "_" +:+ show m) +:+ "_" +:+ key)); [by right; right; left|done]. Qed.

Lemma album_not_foreign chat g : ¬ foreign (albumId chat g).
Proof. intros H. apply (H "album" ("_" +:+ chat +:+ "_" +:+ g)); [by right; left|done]. Qed.

Lemma plan_not_single chat m key chat' m' s : planId (workId chat m) key ≠ singleId chat' m' +:+ "_" +:+ s.
Proof. done. Qed.

Lemma album_not_suffix chat g chat' m' s : albumId chat g ≠ singleId chat' m' +:+ "_" +:+ s.
Proof. done. Qed.

Lemma singleId_suffix z m z' m' s : singleId (show z) m ≠ singleId (show z') m' +:+ "_" +:+ s.
Proof.
  unfold singleId. rewrite !append_assoc. intros [_ H]%keyed_inj. apply (f_equal chars) in H. rewrite chars_append in H.
  apply (show_no_underscore m). rewrite H. apply elem_of_app. right. by left.
Qed.

(** ** What holds of the tables

    A task names a row: by its identifier, or with its message among those of
    the album. *)
Definition names_row (row : IncomingWorkRow) (task : OutboxStorageRow) : Prop :=
  os_chat_id task = iw_chat_id row ∧ ∃ config ingress, os_config_json task = col_json (JObject config) ∧ assoc "durableIngress" config = JObject ingress ∧
  ((os_type task = type_single ∧ os_message_id task = Some (iw_message_id row) ∧
    os_ingress_work_id task = Some (workId (iw_chat_id row) (iw_message_id row))) ∨
   (os_type task = type_mediaGroup ∧ ∃ ids messages message, os_message_ids task = col_json (JArray (map JInt ids)) ∧ ids ≠ [] ∧
      Forall (λ z, isSafeInteger z = true) ids ∧ assoc "albumMessages" ingress = JArray messages ∧ length messages = length ids ∧
      iw_message row = Some message ∧ message ∈ messages)).

(** [gone] are the tasks that were completed and have been deleted since. *)
Section Invariant.
Context (gone : string → OutboxStorageRow → Prop).

(** Where a row is, by its status. *)
Definition located (db : IngressDb) (id : string) (row : IncomingWorkRow) : Prop :=
  match iw_status row with
  | wk_pending => True
  | wk_filtered | wk_needs_review => is_Some (iw_reason row)
  | wk_album_waiting => ∃ gid group, incoming_album_groups db !! gid = Some group ∧ ag_status group = al_waiting ∧ id ∈ ag_work_ids group
  | wk_routed => ∃ tid task, (pending_tasks db !! tid = Some task ∨ gone tid task) ∧ names_row row task
  end.

Definition row_ok (id : string) (row : IncomingWorkRow) : Prop :=
  ∃ identity config ingress, readIngressMessage (iw_message row) = Ok identity ∧ iw_message_id row = tm_id identity ∧
    iw_chat_id row = show (tm_chat_id identity) ∧ id = workId (iw_chat_id row) (iw_message_id row) ∧
    iw_config row = Some config ∧ assoc "durableIngress" config = JObject ingress ∧ assoc "id" ingress = JString id.

(** A part of an album that waits for its closure. *)
Definition album_part (db : IngressDb) (group : IncomingAlbumRow) (id : string) : Prop :=
  ∃ row identity, incoming_work db !! id = Some row ∧ iw_status row = wk_album_waiting ∧ iw_chat_id row = ag_chat_id group ∧
    readIngressMessage (iw_message row) = Ok identity ∧ album_of identity = Some (ag_media_group_id group).

Definition album_ok (db : IngressDb) (gid : string) (group : IncomingAlbumRow) : Prop :=
  gid = albumId (ag_chat_id group) (ag_media_group_id group) ∧ (∃ z, ag_chat_id group = show z) ∧ ag_status group ≠ al_needs_review ∧
  (∃ ingress, assoc "durableIngress" (ag_config group) = JObject ingress) ∧
  (ag_status group = al_waiting → pending_tasks db !! gid = None ∧ ag_work_ids group ≠ [] ∧ Forall (album_part db group) (ag_work_ids group)).

(** Where a task comes from. *)
Definition task_ok (db : IngressDb) (tid : string) (task : OutboxStorageRow) : Prop :=
  (∃ z m, (tid = singleId (show z) m ∨ (∃ key, tid = planId (workId (show z) m) key) ∨ ∃ s, tid = singleId (show z) m +:+ "_" +:+ s) ∧
     os_type task = type_single ∧ os_chat_id task = show z ∧ os_message_id task = Some m ∧ os_ingress_work_id task = Some (workId (show z) m) ∧
     ∃ config ingress, os_config_json task = col_json (JObject config) ∧ assoc "durableIngress" config = JObject ingress ∧
       assoc "id" ingress = JString (workId (show z) m)) ∨
  (∃ group, incoming_album_groups db !! tid = Some group ∧ ag_status group = al_completed ∧ os_type task = type_mediaGroup) ∨
  foreign tid.

Record inv (db : IngressDb) : Prop := mkInv {
  inv_rows id row : incoming_work db !! id = Some row → row_ok id row ∧ located db id row;
  inv_albums gid group : incoming_album_groups db !! gid = Some group → album_ok db gid group;
  inv_tasks tid task : pending_tasks db !! tid = Some task → task_ok db tid task }.

(** ** Reading a property that was set *)
Lemma assoc_js_set k v fields : assoc k (js_set k v fields) = v.
Proof.
  induction fields as [|[k0 v0] fields IH]; cbn [js_set]; [apply assoc_hit|]. case_bool_decide; [apply assoc_hit|]. by rewrite assoc_miss.
Qed.

Lemma assoc_js_set_ne k k' v fields : k ≠ k' → assoc k (js_set k' v fields) = assoc k fields.
Proof.
  intros Hne. induction fields as [|[k0 v0] fields IH]; cbn [js_set]; [by rewrite assoc_miss|]. case_bool_decide; [subst k0; by rewrite !assoc_miss|].
  destruct (decide (k0 = k)) as [->|]; [by rewrite !assoc_hit|by rewrite !assoc_miss].
Qed.

(** ** Moving one row *)
Lemma finish_work now id row st reason db : incoming_work (finishClassification now id row st reason db) = alter (classified now st reason) id (incoming_work db).
Proof. reflexivity. Qed.
Lemma finish_albums now id row st reason db : incoming_album_groups (finishClassification now id row st reason db) = incoming_album_groups db.
Proof. reflexivity. Qed.
Lemma finish_tasks now id row st reason db : pending_tasks (finishClassification now id row st reason db) = pending_tasks db.
Proof. reflexivity. Qed.

(** The columns classification keeps. *)
Definition same_work (a b : IncomingWorkRow) : Prop :=
  iw_chat_id a = iw_chat_id b ∧ iw_message_id a = iw_message_id b ∧ iw_message a = iw_message b ∧ iw_config a = iw_config b ∧
  iw_workflow_revision_id a = iw_workflow_revision_id b ∧ iw_created_at a = iw_created_at b.

#[export] Instance same_work_refl : Reflexive same_work.
Proof. by intros a. Qed.
#[export] Instance same_work_trans : Transitive same_work.
Proof. unfold same_work. intros a b c H1 H2. destruct_and!. repeat split; congruence. Qed.

Lemma classified_same now st reason row : same_work row (classified now st reason row).
Proof. done. Qed.

Lemma row_ok_same id a b : same_work a b → row_ok id a → row_ok id b.
Proof.
  intros (Hc & Hm & Hmsg & Hcf & _) (identity & config & ingress & H). exists identity, config, ingress. by rewrite <-Hc, <-Hm, <-Hmsg, <-Hcf.
Qed.

Lemma names_row_same a b task : same_work a b → names_row a task → names_row b task.
Proof. intros (Hc & Hm & Hmsg & _) H. unfold names_row in *. by rewrite <-Hc, <-Hm, <-Hmsg. Qed.

(** Tasks stay until they are gone, and albums only gain parts. *)
Record grows (db db' : IngressDb) : Prop := mkGrows {
  grows_tasks tid task : pending_tasks db !! tid = Some task → (∃ task', pending_tasks db' !! tid = Some task' ∧ same_payload task task') ∨ gone tid task;
  grows_albums gid group : incoming_album_groups db !! gid = Some group → ag_status group = al_waiting →
    ∃ group', incoming_album_groups db' !! gid = Some group' ∧ ag_status group' = al_waiting ∧ ag_work_ids group ⊆ ag_work_ids group';
  grows_completed gid group : incoming_album_groups db !! gid = Some group → ag_status group = al_completed →
    incoming_album_groups db' !! gid = Some group }.

Lemma grows_refl db db' : incoming_album_groups db' = incoming_album_groups db → pending_tasks db' = pending_tasks db → grows db db'.
Proof.
  intros Ha Ht. split; rewrite ?Ha, ?Ht; [|intros gid group; exists group; auto|done].
  intros tid task H. left. exists task. split; [done|reflexivity].
Qed.

Lemma names_row_payload row task task' : same_payload task task' → names_row row task → names_row row task'.
Proof.
  intros (Ht & Hc & Hm & Hms & _ & _ & Hcf & _ & Hi) [Hchat (config & ingress & Hcol & Hing & H)]. split; [congruence|]. exists config, ingress.
  rewrite <-Ht, <-Hm, <-Hms, <-Hcf, <-Hi. done.
Qed.

Lemma located_grows db db' id row : grows db db' → located db id row → located db' id row.
Proof.
  intros [Ht Ha Hc]. unfold located. destruct (iw_status row); try done.
  - intros (tid & task & [Htask|Hgone] & Hcar); [|exists tid, task; auto]. destruct (Ht _ _ Htask) as [(task' & ? & ?)|Hgone]; [|exists tid, task; auto].
    exists tid, task'. split; [by left|by eapply names_row_payload].
  - intros (gid & group & Hg & Hw & Hin). destruct (Ha _ _ Hg Hw) as (group' & ? & ? & Hsub). exists gid, group'. set_solver.
Qed.

Lemma task_ok_grows db db' tid task task' : grows db db' → same_payload task task' → task_ok db tid task → task_ok db' tid task'.
Proof.
  intros Hg (Ht & Hc & Hm & _ & _ & _ & Hcf & _ & Hi) [(z & m & Hid & H)|[(group & Hgr & Hs & Hty)|Hf]]; [| |by right; right].
  - left. exists z, m. split; [done|]. rewrite <-Ht, <-Hc, <-Hm, <-Hcf, <-Hi. done.
  - right. left. exists group. split_and!; [by eapply grows_completed|done|congruence].
Qed.

(** An album none of whose parts moved. *)
Lemma album_part_kept db db' group jd : (∀ row, incoming_work db !! jd = Some row → iw_status row = wk_album_waiting → incoming_work db' !! jd = Some row) →
  album_part db group jd → album_part db' group jd.
Proof. intros H (row & identity & Hrow & Hs & Hrest). exists row, identity. split_and!; [by apply H|done|naive_solver..]. Qed.

Lemma album_ok_kept db db' gid group : (∀ jd row, incoming_work db !! jd = Some row → iw_status row = wk_album_waiting → incoming_work db' !! jd = Some row) →
  (ag_status group = al_waiting → pending_tasks db !! gid = None → pending_tasks db' !! gid = None) →
  album_ok db gid group → album_ok db' gid group.
Proof.
  intros Hrows Htask (Hid & Hz & Hs & Hc & Hw). split_and!; [done..|]. intros Hst. destruct (Hw Hst) as (Hn & Hne & Hall). split_and!; [auto|done|].
  eapply Forall_impl; [exact Hall|]. intros jd. apply album_part_kept. auto.
Qed.

(** A pending row is moved, while tasks and albums may grow. *)
Lemma inv_move now id row st reason db db' : inv db → incoming_work db !! id = Some row → iw_status row = wk_pending →
  incoming_work db' = alter (classified now st reason) id (incoming_work db) → grows db db' →
  (∀ gid group, incoming_album_groups db' !! gid = Some group → album_ok db' gid group) →
  (∀ tid task, pending_tasks db' !! tid = Some task → task_ok db' tid task) →
  located db' id (classified now st reason row) → inv db'.
Proof.
  intros Hinv Hrow Hs Hwork Hg Ha Ht Hp. split; [|done..]. intros jd row'. rewrite Hwork. destruct (decide (jd = id)) as [->|Hne].
  - rewrite lookup_alter_eq, Hrow. intros [= <-]. split; [|done]. eapply row_ok_same; [apply classified_same|]. by apply (inv_rows _ Hinv).
  - rewrite lookup_alter_ne by done. intros Hrow'. destruct (inv_rows _ Hinv _ _ Hrow') as [? Hpl]. split; [done|]. by eapply located_grows.
Qed.

Lemma moved_rows now id row st reason db db' : incoming_work db !! id = Some row → iw_status row = wk_pending →
  incoming_work db' = alter (classified now st reason) id (incoming_work db) →
  ∀ jd row', incoming_work db !! jd = Some row' → iw_status row' = wk_album_waiting → incoming_work db' !! jd = Some row'.
Proof.
  intros Hrow Hs Hwork jd row' Hjd Hw. rewrite Hwork, lookup_alter_ne; [done|]. intros ->. congruence.
Qed.

(** Filtered, or sent to review. *)
Lemma inv_finish now id row st reason db : inv db → incoming_work db !! id = Some row → iw_status row = wk_pending →
  st = wk_filtered ∨ st = wk_needs_review → inv (finishClassification now id row st reason db).
Proof.
  intros Hinv Hrow Hs Hst. eapply inv_move; [done..|by apply grows_refl| | |].
  - intros gid group Hg. eapply album_ok_kept; [by eapply moved_rows| |by apply (inv_albums _ Hinv)]. done.
  - intros tid task Ht. eapply task_ok_grows; [by apply grows_refl|reflexivity|]. by apply (inv_tasks _ Hinv).
  - unfold located. cbn. destruct Hst as [->| ->]; by eexists.
Qed.

(** ** Routing a row *)
Lemma enqueue_cases now task db b db' : enqueueOutboxTask now task db = Ok (b, db') →
  (is_Some (db !! eq_id task) ∧ db' = db) ∨ (db !! eq_id task = None ∧ db' = <[eq_id task := enqueued now task]> db).
Proof.
  unfold enqueueOutboxTask. intros H. apply bind_Ok in H as (u & _ & H). destruct (db !! eq_id task) eqn:E; injection H as _ <-; [left|right]; done.
Qed.

Lemma enqueue_all_cases now tasks db db' : enqueue_all now tasks db = Ok db' →
  (∀ tid t, db !! tid = Some t → db' !! tid = Some t) ∧
  (∀ tid t, db' !! tid = Some t → db !! tid = Some t ∨ ∃ task, task ∈ tasks ∧ tid = eq_id task ∧ t = enqueued now task) ∧
  (∀ task, task ∈ tasks → is_Some (db' !! eq_id task)).
Proof.
  revert db db'. induction tasks as [|task tasks IH]; intros db db' H; cbn in H; [injection H as ->; split_and!; [auto..|by intros task ?%elem_of_nil]|].
  apply bind_Ok in H as ([b db1] & He & H). cbn in H. destruct (IH _ _ H) as (H1 & H2 & H3).
  assert ((∀ tid t, db !! tid = Some t → db1 !! tid = Some t) ∧ is_Some (db1 !! eq_id task) ∧
    ∀ tid t, db1 !! tid = Some t → db !! tid = Some t ∨ (tid = eq_id task ∧ t = enqueued now task)) as (Hkeep & His & Hback).
  { apply enqueue_cases in He as [[Hs ->]|[Hn ->]]; [by split_and!; auto|]. split_and!.
    - intros tid t Ht. rewrite lookup_insert_ne; [done|congruence].
    - rewrite lookup_insert_eq. by eexists.
    - intros tid t [[-> ->]|[_ ?]]%lookup_insert_Some; auto. }
  split_and!.
  - auto.
  - intros tid t Ht. destruct (H2 _ _ Ht) as [Ht1|(t' & Hin & ? & ?)]; [|right; exists t'; split_and!; [by right|done..]].
    destruct (Hback _ _ Ht1) as [|[-> ->]]; [by left|]. right. exists task. split_and!; [by left|done..].
  - intros t [->|Hin]%elem_of_cons; [|auto]. destruct His as [x Hx]. exists x. auto.
Qed.

(** A task that routes a row by itself. *)
Definition routes (id : string) (row : IncomingWorkRow) (task : EnqueueOutboxTaskInput) : Prop :=
  (eq_id task = singleId (iw_chat_id row) (iw_message_id row) ∨ ∃ key, eq_id task = planId id key) ∧ eq_type task = type_single ∧
  eq_chatId task = iw_chat_id row ∧ eq_messageId task = Some (iw_message_id row) ∧ eq_ingressWorkId task = Some id ∧
  ∃ config ingress, eq_config task = Some (JObject config) ∧ assoc "durableIngress" config = JObject ingress ∧ assoc "id" ingress = JString id.

Lemma single_routes id row config ingress : assoc "durableIngress" config = JObject ingress → assoc "id" ingress = JString id →
  routes id row (single_task id row config).
Proof. intros Hc Hi. split_and!; [by left|done..|by exists config, ingress]. Qed.

Lemma plan_routes id row config ingress key : assoc "durableIngress" config = JObject ingress → assoc "id" ingress = JString id →
  routes id row (plan_task id row config key).
Proof.
  intros Hc Hi. split_and!; [right; by exists key|done..|]. eexists _, _. split; [reflexivity|]. rewrite assoc_js_set, Hc. split; [reflexivity|].
  by rewrite assoc_js_set_ne.
Qed.

Lemma routes_ok db id row now task : row_ok id row → routes id row task → task_ok db (eq_id task) (enqueued now task).
Proof.
  intros (identity & config & ingress & _ & Hm & Hc & Hid & _) (Hr & Hty & Hchat & Hmid & Hwork & cfg & ing & Hcfg & Hing). left.
  exists (tm_chat_id identity), (tm_id identity). rewrite <-Hc, <-Hm, <-Hid. cbn.
  split_and!; [|done..|exists cfg, ing; by rewrite Hcfg]. destruct Hr as [?|(key & ?)]; [by left|right; left; by exists key].
Qed.

(** Whatever task has the identifier, it names_row the row. *)
Lemma routes_names db id row task t : row_ok id row → routes id row task → task_ok db (eq_id task) t →
  (∀ gid group, incoming_album_groups db !! gid = Some group → ∃ z g, gid = albumId (show z) g) → names_row row t.
Proof.
  intros (identity & config & ingress & _ & Hm & Hc & Hid & _) (Hr & _) Htask Halb. rewrite Hm, Hc in *.
  destruct Htask as [(z & m & Ht & Hty & Hchat & Hmid & Hwork & cfg & ing & Hcfg & Hing & _)|[(group & Hg & _)|Hf]].
  - assert (z = tm_chat_id identity ∧ m = tm_id identity) as [-> ->].
    { destruct Hr as [Hr|(key & Hr)], Ht as [Ht|[(key' & Ht)|(s & Ht)]]; rewrite Hr in Ht; subst id.
      - by apply singleId_inj in Ht as [-> ->].
      - by apply task_ids_disjoint in Ht.
      - by apply singleId_suffix in Ht.
      - symmetry in Ht. by apply task_ids_disjoint in Ht.
      - by apply planId_inj in Ht as (-> & -> & _).
      - by apply plan_not_single in Ht. }
    split; [congruence|]. exists cfg, ing. split_and!; [done..|]. left. rewrite Hm, Hc. done.
  - exfalso. destruct (Halb _ _ Hg) as (z & g & Hgid). subst id. destruct Hr as [Hr|(key & Hr)]; rewrite Hr in Hgid; by apply task_ids_disjoint in Hgid.
  - exfalso. subst id. destruct Hr as [Hr|(key & Hr)]; rewrite Hr in Hf; [by apply (single_not_foreign _ _ Hf)|by apply (plan_not_foreign _ _ _ Hf)].
Qed.

Lemma album_gid db gid group : inv db → incoming_album_groups db !! gid = Some group → ∃ z g, gid = albumId (show z) g.
Proof. intros Hinv Hg. destruct (inv_albums _ Hinv _ _ Hg) as (-> & (z & ->) & _). by eexists _, _. Qed.

Lemma inv_route now id row reason db tasks outbox : inv db → incoming_work db !! id = Some row → iw_status row = wk_pending →
  tasks ≠ [] → Forall (routes id row) tasks → enqueue_all now tasks (pending_tasks db) = Ok outbox →
  inv (finishClassification now id row wk_routed reason (with_outbox db outbox)).
Proof.
  intros Hinv Hrow Hs Hne Hall He. destruct (inv_rows _ Hinv _ _ Hrow) as [Hok _]. pose proof (enqueue_all_cases _ _ _ _ He) as (Hkeep & Hback & His).
  rewrite Forall_forall in Hall. set (db' := finishClassification _ _ _ _ _ _).
  assert (grows db db') as Hgrows.
  { split; [|intros gid group ? ?; by exists group|done]. intros tid t Ht. left. exists t. split; [by apply Hkeep|reflexivity]. }
  assert (∀ tid t, pending_tasks db' !! tid = Some t → task_ok db' tid t) as Htasks.
  { intros tid t Ht. destruct (Hback _ _ Ht) as [Ht'|(task & Hin & -> & ->)].
    - eapply task_ok_grows; [exact Hgrows|reflexivity|]. by apply (inv_tasks _ Hinv).
    - eapply routes_ok; [done|]. by apply Hall. }
  eapply inv_move; [done|exact Hrow|done|reflexivity|done| |done|].
  - intros gid group Hg. eapply album_ok_kept; [by eapply (moved_rows now id row wk_routed reason)| |by apply (inv_albums _ Hinv)].
    intros _ Hn. destruct (pending_tasks db' !! gid) as [t|] eqn:Et; [|done]. destruct (Hback _ _ Et) as [Ht'|(task & Hin & Hgid & _)]; [congruence|].
    destruct (album_gid _ _ _ Hinv Hg) as (z & g & Hg'). destruct (Hall _ Hin) as ([Hr|(key & Hr)] & _); rewrite Hr, Hg' in Hgid.
    + symmetry in Hgid. by apply task_ids_disjoint in Hgid.
    + destruct Hok as (identity & config & ingress & _ & _ & _ & -> & _). symmetry in Hgid. by apply task_ids_disjoint in Hgid.
  - unfold located. cbn. destruct tasks as [|task tasks]; [done|]. destruct (His task) as [t Ht]; [by left|]. exists (eq_id task), t. split; [by left|].
    eapply (names_row_same row); [apply classified_same|]. eapply (routes_names db'); [done|apply Hall; by left|by apply Htasks|].
    intros gid group Hg. by apply (album_gid db gid group Hinv).
Qed.

(** ** Collecting an album *)
Lemma no_task_of_album db z g : inv db → (∀ group, incoming_album_groups db !! albumId (show z) g = Some group → ag_status group = al_waiting) →
  pending_tasks db !! albumId (show z) g = None.
Proof.
  intros Hinv Hw. destruct (pending_tasks db !! albumId (show z) g) as [t|] eqn:Et; [|done]. exfalso.
  destruct (inv_tasks _ Hinv _ _ Et) as [(z' & m & [Ht|[(key & Ht)|(s & Ht)]] & _)|[(group & Hg & Hs & _)|Hf]].
  - symmetry in Ht. by apply task_ids_disjoint in Ht.
  - symmetry in Ht. by apply task_ids_disjoint in Ht.
  - by apply album_not_suffix in Ht.
  - rewrite (Hw _ Hg) in Hs. done.
  - by apply album_not_foreign in Hf.
Qed.

Lemma inv_album now id row identity config ingress mediaGroupId db : inv db → incoming_work db !! id = Some row → iw_status row = wk_pending →
  readIngressMessage (iw_message row) = Ok identity → album_of identity = Some mediaGroupId → assoc "durableIngress" config = JObject ingress →
  inv (addAlbumPart now id row mediaGroupId config db).
Proof.
  intros Hinv Hrow Hs Hread Halbum Hcfg. destruct (inv_rows _ Hinv _ _ Hrow) as [(identity' & config' & ingress' & Hread' & Hm & Hc & Hid & Hcfg' & _) _].
  assert (identity' = identity) as -> by congruence. unfold addAlbumPart. cbn zeta. rewrite Hc.
  set (gid := albumId (show (tm_chat_id identity)) mediaGroupId).
  (* the group after the part was added *)
  assert (∀ group ids group0, incoming_album_groups db !! gid = group0 →
    ag_chat_id group = show (tm_chat_id identity) → ag_media_group_id group = mediaGroupId → ag_status group = al_waiting → ag_work_ids group = ids →
    (∃ ingress, assoc "durableIngress" (ag_config group) = JObject ingress) → id ∈ ids →
    (∀ g, group0 = Some g → ag_status g = al_waiting ∧ ag_work_ids g ⊆ ids ∧ ag_chat_id g = ag_chat_id group ∧ ag_media_group_id g = ag_media_group_id group) →
    (∀ jd, jd ∈ ids → jd = id ∨ ∃ g, group0 = Some g ∧ jd ∈ ag_work_ids g) →
    inv (finishClassification now id row wk_album_waiting "Waiting for durable album closure."
      (mkIngress (incoming_work db) (incoming_messages db) (<[gid := group]> (incoming_album_groups db)) (pending_tasks db)))) as Hstore.
  { intros group ids group0 Hg0 Hgc Hgm Hgs Hids Hgcfg Hin Hold Hfrom. set (db' := finishClassification _ _ _ _ _ _).
    assert (grows db db') as Hgrows.
    { split.
      - intros tid t Ht. left. exists t. split; [done|reflexivity].
      - intros gid' group' Hg' Hw. cbn. destruct (decide (gid' = gid)) as [->|Hne]; [|rewrite lookup_insert_ne by done; by exists group'].
        rewrite lookup_insert_eq. exists group. rewrite Hg' in Hg0. destruct (Hold group') as (_ & Hsub & _); [done|]. rewrite Hids. done.
      - intros gid' group' Hg' Hw. cbn. rewrite lookup_insert_ne; [done|]. intros <-. rewrite Hg' in Hg0. destruct (Hold group') as (Hs' & _); [done|]. congruence. }
    eapply inv_move; [done|exact Hrow|done|reflexivity|done| | |].
    - intros gid' group' Hg'. cbn in Hg'. apply lookup_insert_Some in Hg' as [[<- <-]|[Hne Hg']].
      + split_and!; [by unfold gid; rewrite Hgc, Hgm|by eexists|by rewrite Hgs|done|]. intros _. split_and!.
        * apply (no_task_of_album db); [done|]. intros g Hg. apply (Hold g). fold gid in Hg. congruence.
        * rewrite Hids. intros ->. by apply elem_of_nil in Hin.
        * rewrite Hids. apply Forall_forall. intros jd Hjd. destruct (Hfrom jd Hjd) as [->|(g & -> & Hjd')].
          -- exists (classified now wk_album_waiting "Waiting for durable album closure." row), identity. cbn. rewrite lookup_alter_eq, Hrow.
             split_and!; [done|done|congruence|done|by rewrite Hgm].
          -- destruct (Hold g eq_refl) as (Hw & _ & Hchat & Hmg). destruct (inv_albums _ Hinv _ _ Hg0) as (_ & _ & _ & _ & Hparts).
             destruct (Hparts Hw) as (_ & _ & Hall). rewrite Forall_forall in Hall. destruct (Hall jd Hjd') as (r & i & Hr & Hrs & Hrc & Hri & Hra).
             exists r, i. split_and!; [|done|congruence|done|congruence]. cbn. rewrite lookup_alter_ne; [done|congruence].
      + eapply album_ok_kept; [by eapply (moved_rows now id row wk_album_waiting)|done|by apply (inv_albums _ Hinv)].
    - intros tid t Ht. eapply task_ok_grows; [exact Hgrows|reflexivity|]. by apply (inv_tasks _ Hinv).
    - unfold located. cbn. exists gid, group. rewrite lookup_insert_eq, Hids. done. }
  destruct (incoming_album_groups db !! gid) as [group|] eqn:Hg.
  - destruct (inv_albums _ Hinv _ _ Hg) as (Hgid & (z & Hz) & _ & Hgcfg & _).
    assert (ag_chat_id group = show (tm_chat_id identity) ∧ ag_media_group_id group = mediaGroupId) as [Hgc Hgm].
    { rewrite Hz in Hgid |- *. unfold gid in Hgid. by apply albumId_inj in Hgid as [-> ->]. }
    case_bool_decide as Hw; cbn [negb]; [|by apply inv_finish; auto].
    eapply (Hstore _ _ (Some group)); cbn; try done; [by case_bool_decide; [|apply elem_of_app; right; left]| |].
    + intros g [= <-]. split_and!; try done. case_bool_decide; set_solver.
    + intros jd. case_bool_decide; [eauto|]. intros [Hjd|Hjd%list_elem_of_singleton]%elem_of_app; eauto.
  - eapply (Hstore _ _ None); cbn; try done; [by eexists|by left|]. intros jd Hjd%list_elem_of_singleton. by left.
Qed.

(** ** Classification keeps the invariant *)
Section ClassifyInv.
Context {RegExp : Type} (new_RegExp : string → string → result RegExp) (regex_test : RegExp → string → result bool).
Context (signalPlans : string → string → string → string → result (list string)).
Abbreviation Cache := (list (string * RegExp)).

Lemma inv_classify now id row db cache db' cache' : inv db → incoming_work db !! id = Some row → iw_status row = wk_pending →
  classifyIncomingRow new_RegExp regex_test signalPlans now id row db cache = (Ok db', cache') → inv db'.
Proof.
  intros Hinv Hrow Hs. unfold classifyIncomingRow.
  destruct (inv_rows _ Hinv _ _ Hrow) as [(identity & config & ingress & Hread & Hm & Hc & Hid & -> & Hcfg & Hing) _]. rewrite Hread. cbn zeta.
  destruct (getMessageTextAndType _) as [text type]. destruct (match iw_workflow_revision_id row with Some _ => _ | None => None end) as [revision|].
  - intros [= H _]. apply bind_Ok in H as (plans & _ & H). unfold routeWorkflowPlans in H. destruct plans as [|key plans].
    + injection H as <-. apply inv_finish; auto.
    + apply bind_Ok in H as (tasks & He & H). injection H as <-. eapply inv_route; [done..| | |exact He]; [done|].
      apply Forall_map, Forall_true. intros k. by eapply plan_routes.
  - destruct (acceptsLegacySource _ _ _ _ _ _) as [[reason|] cache1]; [intros [= <- _]; apply inv_finish; auto|].
    destruct (album_of identity) as [mediaGroupId|] eqn:Ha.
    + intros [= <- _]. unfold routeLegacyAlbum.
      destruct (member _ _) as [| |[]| | | | | |]; (eapply inv_album; [done..|exact Ha|exact Hcfg]) || (apply inv_finish; auto).
    + intros [= H _]. apply bind_Ok in H as ([b tasks] & He & H). injection H as <-. cbn.
      eapply (inv_route now id row _ db [single_task id row config]); [done..|constructor; [by eapply single_routes|constructor]|].
      cbn. rewrite He. done.
Qed.

Lemma inv_process_one now id db cache db' cache' : inv db → process_one new_RegExp regex_test signalPlans now id db cache = (db', cache') → inv db'.
Proof.
  intros Hinv. unfold process_one. destruct (incoming_work db !! id) as [row|] eqn:Hrow; [|by intros [= <- _]].
  case_bool_decide as Hs; [|by intros [= <- _]]. destruct (classifyIncomingRow _ _ _ _ _ _ _ _) as [[db1|e] cache1] eqn:E; intros [= <- _].
  - by eapply inv_classify.
  - apply inv_finish; auto.
Qed.

Lemma inv_process now limit db cache db' cache' : inv db → processIncomingWork new_RegExp regex_test signalPlans now limit db cache = (db', cache') → inv db'.
Proof.
  unfold processIncomingWork. generalize (map fst (take limit (pending_rows db))). intros ids. revert db cache.
  induction ids as [|id ids IH]; intros db cache Hinv; cbn; [by intros [= <- _]|].
  destruct (process_one _ _ _ _ _ _ _) as [db1 cache1] eqn:E. apply IH. by eapply inv_process_one.
Qed.
End ClassifyInv.

(** ** Accepting keeps the invariant *)
Lemma pinned_id reads config chatId ingress ingress' : pinParserResources reads config chatId ingress = Ok ingress' → assoc "id" ingress' = assoc "id" ingress.
Proof.
  unfold pinParserResources. cbn zeta. destruct (rd_workflow reads) as [workflow|].
  - intros (pinned & _ & H)%bind_Ok. injection H as <-. by rewrite !assoc_js_set_ne.
  - destruct (truthy _); [|intros [= <-]; by rewrite !assoc_js_set_ne]. unfold pinLegacyParserResources. cbn zeta.
    intros (schema & _ & (prompt & _ & H)%bind_Ok)%bind_Ok. injection H as <-. by rewrite !assoc_js_set_ne.
Qed.

Lemma snapshot_ingress reads config id chatId now pin snapshot : incomingSnapshot reads config id chatId now pin = Ok snapshot →
  ∃ ingress, assoc "durableIngress" snapshot = JObject ingress ∧ assoc "id" ingress = JString id.
Proof.
  unfold incomingSnapshot. intros (ingress & Hpin & H)%bind_Ok. injection H as <-. unfold json_object, json_clone. rewrite clone_object. cbn [spread].
  rewrite cloned_assoc_kept, assoc_js_set, clone_object; [|done|by rewrite assoc_js_set]. eexists. split; [reflexivity|].
  assert (assoc "id" ingress = JString id) as Hid by (destruct pin; [apply pinned_id in Hpin; by rewrite Hpin|by injection Hpin as <-]).
  rewrite cloned_assoc_kept; [by rewrite Hid|done|by rewrite Hid].
Qed.

Lemma inbox_tables now message messageId config chatId db : let db' := saveSourceInbox now message messageId config chatId db in
  incoming_work db' = incoming_work db ∧ incoming_album_groups db' = incoming_album_groups db ∧ pending_tasks db' = pending_tasks db.
Proof. cbn zeta. unfold saveSourceInbox, saveIncomingMessage. destruct (getMessageTextAndType _). by destruct (incoming_messages db !! _). Qed.

(** The tables of the classification do not depend on the inbox. *)
Lemma inv_tables db db' : incoming_work db' = incoming_work db → incoming_album_groups db' = incoming_album_groups db → pending_tasks db' = pending_tasks db →
  inv db → inv db'.
Proof.
  intros Hw Ha Ht [H1 H2 H3]. assert (grows db db') as Hg by by apply grows_refl. split.
  - intros id row. rewrite Hw. intros Hrow. destruct (H1 _ _ Hrow). split; [done|]. by eapply located_grows.
  - intros gid group. rewrite Ha. intros Hgr. apply (album_ok_kept db); [by rewrite Hw|by rewrite Ht|by apply H2].
  - intros tid t. rewrite Ht. intros Htask. eapply (task_ok_grows db); [done|reflexivity|]. by apply H3.
Qed.

Lemma inv_insert id row db : inv db → incoming_work db !! id = None → row_ok id row → located db id row →
  inv (mkIngress (<[id := row]> (incoming_work db)) (incoming_messages db) (incoming_album_groups db) (pending_tasks db)).
Proof.
  intros Hinv Hn Hok Hp. set (db' := mkIngress _ _ _ _). assert (grows db db') as Hg by by apply grows_refl. split.
  - intros jd r Hr. cbn in Hr. apply lookup_insert_Some in Hr as [[<- <-]|[_ Hr]]; [split; [done|by eapply located_grows]|].
    destruct (inv_rows _ Hinv _ _ Hr). split; [done|by eapply located_grows].
  - intros gid group Hgr. apply (album_ok_kept db); [|done|by apply (inv_albums _ Hinv)]. intros jd r Hr _. cbn. rewrite lookup_insert_ne; [done|congruence].
  - intros tid t Ht. eapply task_ok_grows; [done|reflexivity|]. by apply (inv_tasks _ Hinv).
Qed.

(** What an accepted message adds. *)
Lemma accept_cases now reads message config db work db' : acceptIncomingMessage now reads message config db = Ok (work, db') →
  ∃ identity, assertIngressMessage message = Ok identity ∧ let chatId := show (tm_chat_id identity) in
  (∃ row, find_work chatId (tm_id identity) (incoming_work db) = Some (wr_id work, row) ∧ db' = db ∧
     wr_status work = iw_status row ∧ wr_workflowRevisionId work = iw_workflow_revision_id row) ∨
  (find_work chatId (tm_id identity) (incoming_work db) = None ∧ incoming_work db !! wr_id work = None ∧ wr_id work = workId chatId (tm_id identity) ∧
   ∃ row, incoming_work db' = <[wr_id work := row]> (incoming_work db) ∧ incoming_album_groups db' = incoming_album_groups db ∧
     pending_tasks db' = pending_tasks db ∧ iw_chat_id row = chatId ∧ iw_message_id row = tm_id identity ∧ iw_message row = Some (json_clone message) ∧
     wr_status work = iw_status row ∧ wr_workflowRevisionId work = iw_workflow_revision_id row ∧ iw_status row ∈ [wk_pending; wk_needs_review] ∧
     (iw_status row = wk_needs_review → is_Some (iw_reason row)) ∧ (iw_status row = wk_pending ↔ incoming_messages db !! (chatId, tm_id identity) = None) ∧
     ∃ cfg ingress, iw_config row = Some cfg ∧ assoc "durableIngress" cfg = JObject ingress ∧ assoc "id" ingress = JString (wr_id work)).
Proof.
  unfold acceptIncomingMessage. intros H. apply bind_Ok in H as (identity & Hid & H). exists identity. split; [done|]. cbn zeta in *.
  destruct (find_work _ _ _) as [[id row]|] eqn:Ef; [injection H as <- <-; left; by exists row|]. right. split; [done|].
  apply bind_Ok in H as (snapshot & Hsnap & H). destruct (inbox_tables now message (tm_id identity) config (show (tm_chat_id identity)) db) as (Hw & Ha & Ht).
  rewrite Hw in H. destruct (incoming_work db !! workId _ _) as [r|] eqn:Ew; [done|]. injection H as <- <-. cbn. split; [done|]. split; [done|].
  destruct (snapshot_ingress _ _ _ _ _ _ _ Hsnap) as (ingress & Hingress & Hiid).
  destruct (bool_decide (is_Some _)) eqn:El; cbn; eexists; (split_and!; [by rewrite ?Hw|done|done|done..| | | |by exists snapshot, ingress]).
  - right; left.
  - by eexists.
  - split; [done|]. intros Hn. rewrite Hn in El. done.
  - left.
  - done.
  - split; [intros _|done]. apply bool_decide_eq_false in El. by apply eq_None_not_Some.
Qed.

Lemma inv_accept now reads message config db work db' : inv db → js_value message →
  acceptIncomingMessage now reads message config db = Ok (work, db') → inv db'.
Proof.
  intros Hinv Hjs (identity & Hid & [(row & _ & -> & _)|(_ & Hn & Hw & row & Hwork & Ha & Ht & Hc & Hm & Hmsg & _ & _ & Hst & Hr & _ & cfg & ingress & Hcfg & Hing & Hiid)])%accept_cases; [done|].
  eapply (inv_tables (mkIngress (<[wr_id work := row]> (incoming_work db)) (incoming_messages db) (incoming_album_groups db) (pending_tasks db))); [done..|].
  apply inv_insert; [done|done| |].
  - exists identity, cfg, ingress. split_and!; [rewrite Hmsg; by apply assert_clone|done|done|by rewrite Hc, Hm|done|done|done].
  - unfold located. rewrite !elem_of_cons, elem_of_nil in Hst. destruct Hst as [->|[Hst|[]]]; [done|]. rewrite Hst. by apply Hr.
Qed.

(** ** Closing an album *)
Lemma album_rows_In row ids work : row ∈ album_rows ids work ↔ work !! row.1 = Some row.2 ∧ row.1 ∈ ids.
Proof.
  clear gone.
  unfold album_rows. rewrite (sort_by_Permutation _ _), list_elem_of_filter. destruct row as [id row]. rewrite elem_of_map_to_list. cbn. naive_solver.
Qed.

Lemma album_rows_NoDup ids work : NoDup (map fst (album_rows ids work)).
Proof.
  clear gone.
  unfold album_rows. rewrite (sort_by_Permutation _ _). apply NoDup_fmap_fst; [|apply NoDup_filter, NoDup_map_to_list].
  intros id r r'. rewrite !list_elem_of_filter, !elem_of_map_to_list. naive_solver.
Qed.

Definition ALBUM_CLOSED : string := "Album closure and child outbox committed together.".

Lemma finish_album_work now rows db jd : NoDup (map fst rows) →
  incoming_work (finish_album now rows db) !! jd =
  if bool_decide (jd ∈ map fst rows) then classified now wk_routed ALBUM_CLOSED <$> incoming_work db !! jd else incoming_work db !! jd.
Proof.
  clear gone.
  unfold finish_album. revert db. induction rows as [|[id row] rows IH]; intros db Hnd; cbn [map fst foldl]; [by rewrite bool_decide_false by (by intros ?%elem_of_nil)|].
  apply NoDup_cons in Hnd as [Hid Hnd]. rewrite IH by done. rewrite finish_work. destruct (decide (jd = id)) as [->|Hne].
  - rewrite lookup_alter_eq, bool_decide_false, bool_decide_true by (done || by left). done.
  - rewrite lookup_alter_ne by done. rewrite (bool_decide_ext (jd ∈ id :: map fst rows) (jd ∈ map fst rows)); [done|]. rewrite elem_of_cons. naive_solver.
Qed.

Lemma finish_album_rest now rows db : incoming_album_groups (finish_album now rows db) = incoming_album_groups db ∧ pending_tasks (finish_album now rows db) = pending_tasks db.
Proof. unfold finish_album. revert db. induction rows as [|row rows IH]; intros db; [done|]. exact (IH (finishClassification now row.1 row.2 wk_routed ALBUM_CLOSED db)). Qed.

Lemma assert_safe v identity : assertIngressMessage v = Ok identity → isSafeInteger (tm_id identity) = true.
Proof.
  unfold assertIngressMessage, safe_int. destruct v as [| | | | | | | |fields]; try done. destruct (assoc "id" fields); try done.
  destruct (isSafeInteger z) eqn:E; [|done]. repeat case_match; try done; by intros [= <-].
Qed.

(** A row with a safe identifier and a message. *)
Definition readable (row : string * IncomingWorkRow) : Prop := isSafeInteger (iw_message_id row.2) = true ∧ is_Some (iw_message row.2).

Lemma row_readable id row : row_ok id row → readable (id, row).
Proof.
  intros (identity & ? & ? & Hread & Hm & _). unfold readable. cbn. split; [rewrite Hm; by eapply assert_safe|].
  unfold readIngressMessage in Hread. destruct (iw_message row); [by eexists|done].
Qed.

(** The closure of a waiting album succeeds. *)
Lemma close_succeeds now gid group db : inv db → incoming_album_groups db !! gid = Some group → ag_status group = al_waiting → ∃ first rest ingress,
  album_rows (ag_work_ids group) (incoming_work db) = first :: rest ∧ Forall readable (first :: rest) ∧
  closeAlbum now gid group db = Ok (finish_album now (first :: rest) (mkIngress (incoming_work db) (incoming_messages db)
    (<[gid := closed_album group]> (incoming_album_groups db)) (<[gid := enqueued now (album_task gid group ingress first (first :: rest))]> (pending_tasks db)))).
Proof.
  intros Hinv Hg Hw. destruct (inv_albums _ Hinv _ _ Hg) as (Hgid & (z & Hz) & _ & (ingress & Hing) & Hparts). destruct (Hparts Hw) as (Hn & Hne & Hall).
  rewrite Forall_forall in Hall.
  assert (∀ row, row ∈ album_rows (ag_work_ids group) (incoming_work db) → ∃ identity, readIngressMessage (iw_message row.2) = Ok identity ∧
    iw_message_id row.2 = tm_id identity) as Hread.
  { intros row [Hrow _]%album_rows_In. destruct (inv_rows _ Hinv _ _ Hrow) as [(identity & ? & ? & ? & ? & _) _]. by exists identity. }
  destruct (album_rows (ag_work_ids group) (incoming_work db)) as [|first rest] eqn:Erows.
  { exfalso. destruct (ag_work_ids group) as [|jd ids]; [done|]. destruct (Hall jd) as (row & _ & Hrow & _); [by left|].
    assert ((jd, row) ∈ album_rows (jd :: ids) (incoming_work db)) as Hin by (apply album_rows_In; split; [done|by left]). rewrite Erows in Hin. by apply elem_of_nil in Hin. }
  assert (Forall readable (first :: rest)) as Hread'.
  { apply Forall_forall. intros [i r] Hr. rewrite <-Erows in Hr. apply album_rows_In in Hr as [Hr _]. apply row_readable. by apply (inv_rows _ Hinv). }
  exists first, rest, ingress. split; [done|]. split; [done|]. unfold closeAlbum. cbn zeta. rewrite Erows.
  assert (∃ l, mapM (λ row : string * IncomingWorkRow, readIngressMessage (iw_message row.2)) (first :: rest) = Ok l) as [l ->].
  { clear -Hread. induction (first :: rest) as [|row rows IH]; [by exists []|]. destruct (Hread row) as (i & Hi & _); [by left|].
    destruct IH as [l Hl]; [intros r Hr; apply Hread; by right|]. exists (i :: l). cbn [mapM]. rewrite Hi. cbn. by rewrite Hl. }
  cbn [mbind result_bind]. rewrite Hing. unfold enqueueOutboxTask, validateOutboxTask. cbn [album_task eq_id eq_type eq_messageIds map].
  rewrite (bool_decide_false (gid = "")) by (rewrite Hgid; intros H%(f_equal chars); unfold albumId in H; rewrite chars_append in H; done).
  assert (forallb isSafeInteger (iw_message_id first.2 :: map (λ row : string * IncomingWorkRow, iw_message_id row.2) rest) = true) as ->.
  { change (forallb isSafeInteger (map (λ row : string * IncomingWorkRow, iw_message_id row.2) (first :: rest)) = true). apply Is_true_eq_true, forallb_True, Forall_map.
    eapply Forall_impl; [exact Hread'|]. intros row [Hrow _]. by apply Is_true_eq_left. }
  cbn [mbind result_bind]. by rewrite Hn.
Qed.

Lemma Ok_inj {A} (a b : A) : Ok a = Ok b → a = b.
Proof. congruence. Qed.

(** A part belongs to one album. *)
Lemma part_album db gid gid' group group' jd : album_ok db gid group → album_ok db gid' group' → album_part db group jd → album_part db group' jd → gid = gid'.
Proof.
  intros (-> & _) (-> & _) (r & i & Hr & _ & Hc & Hi & Ha) (r' & i' & Hr' & _ & Hc' & Hi' & Ha').
  rewrite Hr in Hr'. injection Hr' as <-. rewrite Hi in Hi'. injection Hi' as <-. congruence.
Qed.

Lemma album_task_names now gid group ingress first rows id row db : album_part db group id → incoming_work db !! id = Some row →
  Forall readable rows → (id, row) ∈ rows → names_row row (enqueued now (album_task gid group ingress first rows)).
Proof.
  intros (r & i & Hr & _ & Hc & _) Hrow Hall Hin. rewrite Hrow in Hr. injection Hr as <-. split; [by rewrite Hc|].
  eexists _, _. split; [reflexivity|]. split; [apply assoc_js_set|]. right. split; [done|].
  exists (map (λ row, iw_message_id row.2) rows), (map (λ row, iw_message row.2 ?? JNull) rows). rewrite Forall_forall in Hall. destruct (Hall _ Hin) as [_ [m Hm]]. cbn in Hm.
  exists m. split_and!; [done|intros E%map_eq_nil; subst rows; by apply elem_of_nil in Hin| |apply assoc_js_set|by rewrite !length_map|done|].
  - apply Forall_map, Forall_forall. intros x Hx. by apply Hall.
  - apply list_elem_of_fmap. exists (id, row). cbn. by rewrite Hm.
Qed.

Lemma inv_close now gid group db db' : inv db → incoming_album_groups db !! gid = Some group → ag_status group = al_waiting →
  closeAlbum now gid group db = Ok db' → inv db'.
Proof.
  intros Hinv Hg Hw Hclose. destruct (close_succeeds now _ _ _ Hinv Hg Hw) as (first & rest & ingress & Erows & Hread & Hok). rewrite Hok in Hclose. apply Ok_inj in Hclose as <-.
  pose proof (album_rows_NoDup (ag_work_ids group) (incoming_work db)) as Hnd. rewrite Erows in Hnd. set (rows := first :: rest) in *. clearbody rows.
  pose proof (inv_albums _ Hinv _ _ Hg) as Halbum. destruct Halbum as (_ & _ & _ & _ & Hparts). destruct (Hparts Hw) as (Hn & _ & Hall). rewrite Forall_forall in Hall.
  assert (∀ jd, jd ∈ map fst rows → jd ∈ ag_work_ids group) as Hin.
  { intros jd Hjd. apply list_elem_of_fmap in Hjd as ([i r] & -> & Hr). rewrite <-Erows in Hr. by apply album_rows_In in Hr as [_ ?]. }
  set (task := enqueued now (album_task gid group ingress first rows)). set (db1 := mkIngress _ _ _ _).
  destruct (finish_album_rest now rows db1) as [Ha Ht]. split.
  - intros jd row. rewrite (finish_album_work now rows) by done. cbn [incoming_work db1]. case_bool_decide as Hjd.
    + intros (row0 & Hrow0 & ->)%fmap_Some. destruct (inv_rows _ Hinv _ _ Hrow0) as [Hok0 _].
      split; [eapply row_ok_same; [apply classified_same|done]|]. unfold located. cbn. exists gid, task. rewrite Ht. cbn. rewrite lookup_insert_eq. split; [by left|].
      eapply (names_row_same row0); [apply classified_same|]. eapply album_task_names; [by apply Hall, Hin|done|done|]. rewrite <-Erows.
      apply album_rows_In. split; [done|by apply Hin].
    + intros Hrow. destruct (inv_rows _ Hinv _ _ Hrow) as [Hok0 Hpl]. split; [done|]. revert Hpl. unfold located. rewrite Ha, Ht. cbn. destruct (iw_status row) eqn:Hst; try done.
      * intros (tid & t & [Htid|Htid] & Hcar); exists tid, t; [rewrite lookup_insert_ne; [auto|congruence]|auto].
      * intros (gid' & group' & Hg' & Hw' & Hjd'). exists gid', group'. rewrite lookup_insert_ne; [done|]. intros <-. rewrite Hg in Hg'. injection Hg' as <-.
        apply Hjd, list_elem_of_fmap. exists (jd, row). split; [done|]. rewrite <-Erows. by apply album_rows_In.
  - intros gid' group'. rewrite Ha. cbn. intros [[<- <-]|[Hne Hg']]%lookup_insert_Some.
    + pose proof (inv_albums _ Hinv _ _ Hg) as (H1 & H2 & _ & H4 & _). split_and!; done.
    + pose proof (inv_albums _ Hinv _ _ Hg') as Hok'. pose proof Hok' as (H1 & H2 & H3 & H4 & H5). split_and!; [done..|]. intros Hw'.
      destruct (H5 Hw') as (Hn' & Hne' & Hall'). split_and!; [rewrite Ht; cbn; by rewrite lookup_insert_ne|done|]. rewrite Forall_forall in Hall' |- *.
      intros jd Hjd. pose proof (Hall' jd Hjd) as Hpart. pose proof Hpart as (r & i & Hr & Hrest). exists r, i. split; [|done].
      rewrite (finish_album_work now rows), bool_decide_false; [done| |done]. intros Hj%Hin. apply Hne. by eapply (part_album db gid gid'); [by apply (inv_albums _ Hinv)|..|apply Hall|].
  - intros tid t. rewrite Ht. cbn. intros [[<- <-]|[Hne Htid]]%lookup_insert_Some.
    + right. left. exists (closed_album group). rewrite Ha. cbn. by rewrite lookup_insert_eq.
    + destruct (inv_tasks _ Hinv _ _ Htid) as [H|[(group' & Hg' & Hs')|H]]; [by left| |by right; right]. right. left. exists group'.
      rewrite Ha. cbn. rewrite lookup_insert_ne; [done|]. intros ->. rewrite Hg in Hg'. injection Hg' as <-. destruct Hs'. congruence.
Qed.

(** ** Every sequence of calls *)
Definition work_move (s t : WorkStatus) : Prop := s = t ∨ s = wk_pending ∨ (s = wk_album_waiting ∧ t = wk_routed).

(** Rows stay, with their columns, and move forward. *)
Definition keeps_rows (db db' : IngressDb) : Prop :=
  ∀ id row, incoming_work db !! id = Some row → ∃ row', incoming_work db' !! id = Some row' ∧ same_work row row' ∧ work_move (iw_status row) (iw_status row').

#[export] Instance keeps_rows_refl : Reflexive keeps_rows.
Proof. intros db id row H. exists row. split_and!; [done|reflexivity|by left]. Qed.

#[export] Instance keeps_rows_trans : Transitive keeps_rows.
Proof.
  intros a b c H1 H2 id row H. destruct (H1 _ _ H) as (r1 & Hr1 & Hs1 & Hm1). destruct (H2 _ _ Hr1) as (r2 & Hr2 & Hs2 & Hm2).
  exists r2. split_and!; [done|by etrans|]. unfold work_move in *. destruct Hm1 as [E1|[E1|[E1 E1']]], Hm2 as [E2|[E2|[E2 E2']]]; rewrite ?E1, ?E2 in *; auto; congruence.
Qed.

Lemma keeps_same db db' : incoming_work db' = incoming_work db → keeps_rows db db'.
Proof. intros E id row H. rewrite E. by apply keeps_rows_refl. Qed.

Lemma keeps_alter now st reason id row db db' : incoming_work db !! id = Some row → iw_status row = wk_pending →
  incoming_work db' = alter (classified now st reason) id (incoming_work db) → keeps_rows db db'.
Proof.
  intros Hrow Hs E jd r Hr. rewrite E. destruct (decide (jd = id)) as [->|Hne].
  - rewrite lookup_alter_eq, Hr. cbn. eexists. split_and!; [done|apply classified_same|]. right. left. congruence.
  - rewrite lookup_alter_ne by done. by apply keeps_rows_refl.
Qed.

Section Run.
Context {RegExp : Type} (new_RegExp : string → string → result RegExp) (regex_test : RegExp → string → result bool).
Context (signalPlans : string → string → string → string → result (list string)).
Abbreviation Cache := (list (string * RegExp)).

Context (sha256 : string → string).

Inductive IngressCall :=
| in_accept (reads : Reads) (message : jsval) (config : Fields)
| in_process (limit : nat)
| in_flush
| in_outbox (call : OutboxCall)
| in_outputs (taskId : string) (context : Fields) (xml : string) (modes : list string)
| in_inbox (chatId : string) (messageId : Z) (status : string)
| in_retention (cutoff : Z) (batchSize : nat).

(** One call; a throw leaves the tables as they were. *)
Definition apply_ingress (now : Z) (call : IngressCall) (s : IngressDb * Cache) : IngressDb * Cache :=
  let '(db, cache) := s in
  match call with
  | in_accept reads message config => (match acceptIncomingMessage now reads message config db with Ok (_, db') => db' | Err _ => db end, cache)
  | in_process limit => processIncomingWork new_RegExp regex_test signalPlans now limit db cache
  | in_flush => (match flushIncomingAlbums now db with Ok db' => db' | Err _ => db end, cache)
  | in_outbox c => (with_outbox db (OutboxStore.apply now c (pending_tasks db)).2, cache)
  | in_outputs taskId context xml modes => (match publish_outputs sha256 now taskId context xml modes db with Ok db' => db' | Err _ => db end, cache)
  | in_inbox chatId messageId status => (updateIncomingMessageStatus chatId messageId status db, cache)
  | in_retention cutoff batchSize => (pruneIngress cutoff batchSize db, cache)
  end.

Definition run_ingress (calls : list (Z * IngressCall)) (s : IngressDb * Cache) : IngressDb * Cache :=
  foldl (λ s call, apply_ingress call.1 call.2 s) s calls.

(** Messages are JavaScript values.  Tasks that do not come from the ingress (the
    albums of the former buffer, [group_...], and the migrated queue file) have
    identifiers of their own; completed tasks are deleted by the retention. *)
Definition allowed (call : IngressCall) : Prop :=
  match call with
  | in_accept _ message _ => js_value message
  | in_outbox c => (∀ task, c = call_enqueue task → foreign (eq_id task)) ∧ ∀ cutoff n, c ≠ call_prune cutoff n
  | _ => True
  end.

Lemma outbox_step now c db : inv db → allowed (in_outbox c) → inv (with_outbox db (OutboxStore.apply now c (pending_tasks db)).2).
Proof.
  intros Hinv [Henq Hprune]. destruct (OutboxStore.apply now c (pending_tasks db)) as [r tasks] eqn:E. cbn.
  assert (∀ tid, match pending_tasks db !! tid, tasks !! tid with Some t, Some t' => same_payload t t' | None, Some _ => foreign tid | None, None => True | _, _ => False end) as Hev.
  { intros tid. pose proof (apply_evolves now c (pending_tasks db) r tasks tid E) as Hev. unfold evolves in Hev.
    destruct (pending_tasks db !! tid), (tasks !! tid); [by destruct Hev| | |done].
    - destruct Hev as (cutoff & n & t & Hc & _). by apply (Hprune cutoff n).
    - destruct Hev as (task & Hc & <- & _). by apply Henq. }
  assert (grows db (with_outbox db tasks)) as Hg.
  { split; [|intros gid group ? ?; by exists group|done]. intros tid t Ht. left. specialize (Hev tid). rewrite Ht in Hev. cbn. destruct (tasks !! tid) as [t'|]; [by exists t'|done]. }
  split.
  - intros id row Hrow. destruct (inv_rows _ Hinv _ _ Hrow). split; [done|by eapply located_grows].
  - intros gid group Hgr. apply (album_ok_kept db); [done| |by apply (inv_albums _ Hinv)]. intros _ Hn. specialize (Hev gid). rewrite Hn in Hev. cbn.
    destruct (tasks !! gid); [|done]. destruct (album_gid _ _ _ Hinv Hgr) as (z & g & ->). by apply album_not_foreign in Hev.
  - intros tid t Ht. cbn in Ht. specialize (Hev tid). rewrite Ht in Hev. destruct (pending_tasks db !! tid) as [t0|] eqn:E0; [|by right; right].
    eapply task_ok_grows; [exact Hg|exact Hev|by apply (inv_tasks _ Hinv)].
Qed.

(** Tasks that no album waits for. *)
Lemma inv_more now tasks db outbox : inv db → enqueue_all now tasks (pending_tasks db) = Ok outbox →
  Forall (λ o, (∀ chat g, eq_id o ≠ albumId chat g) ∧ ∀ db, task_ok db (eq_id o) (enqueued now o)) tasks → inv (with_outbox db outbox).
Proof.
  intros Hinv He Hall. pose proof (enqueue_all_cases _ _ _ _ He) as (Hkeep & Hback & _). rewrite Forall_forall in Hall.
  assert (grows db (with_outbox db outbox)) as Hg.
  { split; [|intros gid group ? ?; by exists group|done]. intros tid t Ht. left. exists t. split; [by apply Hkeep|reflexivity]. }
  split.
  - intros id row Hrow. destruct (inv_rows _ Hinv _ _ Hrow). split; [done|by eapply located_grows].
  - intros gid group Hgr. apply (album_ok_kept db); [done| |by apply (inv_albums _ Hinv)]. intros _ Hn. cbn. destruct (outbox !! gid) as [t|] eqn:Et; [|done].
    destruct (Hback _ _ Et) as [|(o & Hin & -> & _)]; [congruence|]. destruct (album_gid _ _ _ Hinv Hgr) as (z & g & Hz). by destruct (Hall _ Hin) as [[]%Hz _] || destruct (proj1 (Hall _ Hin) _ _ Hz).
  - intros tid t Ht. destruct (Hback _ _ Ht) as [Ht'|(o & Hin & -> & ->)]; [|by apply Hall]. eapply task_ok_grows; [exact Hg|reflexivity|by apply (inv_tasks _ Hinv)].
Qed.

Lemma reload_single work task message : os_type task = type_single → reload_messages work task = Ok [message] → stored_message work task = Some message.
Proof.
  unfold reload_messages. intros ->. destruct (negb _); [done|]. destruct (stored_message work task) as [v|]; [|done]. destruct (os_message_id task); [|done].
  destruct (member "id" v); try done. destruct (_ =? _); [|done]. by intros [= ->].
Qed.

Lemma suffix_output taskId d : taskId +:+ "_output_" +:+ d = taskId +:+ "_" +:+ ("output_" +:+ d).
Proof. done. Qed.

Lemma suffixed_not_album tid s : (∃ z m, tid = singleId (show z) m ∨ (∃ key, tid = planId (workId (show z) m) key) ∨ ∃ s, tid = singleId (show z) m +:+ "_" +:+ s) →
  ∀ chat g, tid +:+ "_" +:+ s ≠ albumId chat g.
Proof. by intros (z & m & [->|[(key & ->)|(s' & ->)]]) chat g. Qed.

(** The outputs of an executed task name the row the task names. *)
Lemma output_ok now db taskId task identity message context xml mode o : inv db → pending_tasks db !! taskId = Some task → os_type task = type_single →
  reload_messages (incoming_work db) task = Ok [message] → assertIngressMessage message = Ok identity →
  output_task sha256 taskId identity (js_set "durableIngress" (task_ingress task) context) xml mode = Some o →
  (∀ chat g, eq_id o ≠ albumId chat g) ∧ ∀ db', task_ok db' (eq_id o) (enqueued now o).
Proof.
  intros Hinv Htask Hty Hre Hid Ho. unfold output_task in Ho. destruct (bool_decide _); [|done]. cbn zeta in Ho. injection Ho as <-. cbn [eq_id]. rewrite suffix_output.
  set (s := "output_" +:+ _). clearbody s. apply reload_single in Hre; [|done].
  destruct (inv_tasks _ Hinv _ _ Htask) as [(z & m & Ht & _ & Hchat & Hm & Hw & config & ingress & Hcol & Hing & Hiid)|[(group & _ & _ & Hmg)|Hf]]; [|congruence|].
  - unfold stored_message in Hre. rewrite Hw in Hre. destruct (incoming_work db !! _) as [row|] eqn:Hrow; [|done].
    destruct (inv_rows _ Hinv _ _ Hrow) as [(identity' & ? & ? & Hread & Hrm & Hrc & Hrid & _) _]. unfold readIngressMessage in Hread. rewrite Hre in Hread. cbn in Hread.
    rewrite Hid in Hread. injection Hread as <-. rewrite Hrc, Hrm in Hrid. apply workId_inj in Hrid as [-> ->].
    assert (task_ingress task = JObject ingress) as Hti by (unfold task_ingress; rewrite Hcol; exact Hing).
    split; [apply suffixed_not_album; by eexists _, _|]. intros db'. left. exists (tm_chat_id identity), (tm_id identity). cbn -[assoc]. rewrite assoc_js_set, Hti. cbn [spread].
    split_and!; [|done..|by rewrite Hiid|].
    + destruct Ht as [->|[(key & ->)|(s' & ->)]]; [by right; right; exists s| |right; right; exists (s' +:+ "_" +:+ s); by rewrite !append_assoc].
      right. left. exists (key +:+ "_" +:+ s). unfold planId. by rewrite !append_assoc.
    + eexists _, _. split; [reflexivity|]. split; [apply assoc_js_set|]. by rewrite !assoc_js_set_ne.
  - split; [|intros db'; right; right; by apply foreign_suffix]. intros chat g E. apply (album_not_foreign chat g). rewrite <-E. by apply foreign_suffix.
Qed.

Lemma inv_publish now taskId context xml modes db db' : inv db → publish_outputs sha256 now taskId context xml modes db = Ok db' →
  inv db' ∧ incoming_work db' = incoming_work db.
Proof.
  intros Hinv. unfold publish_outputs. destruct (pending_tasks db !! taskId) as [task|] eqn:Et; [|by intros [= <-]].
  destruct (os_type task) eqn:Hty; [|by intros [= <-]]. destruct (sendable _); [|by intros [= <-]].
  destruct (reload_messages _ _) as [[|message [|]]|] eqn:Hre; try by intros [= <-].
  intros (identity & Hid & (tasks & He & H)%bind_Ok)%bind_Ok. injection H as <-. split; [|done]. eapply inv_more; [done|exact He|].
  apply Forall_forall. intros o (mode & _ & Ho)%list_elem_of_omap. by eapply output_ok.
Qed.

(** The completed tasks a call deletes. *)
Definition retires (call : IngressCall) (db : IngressDb) (tid : string) (task : OutboxStorageRow) : Prop :=
  ∃ cutoff n t, call = in_retention cutoff n ∧ pending_tasks db !! tid = Some task ∧ os_status task = ob_completed ∧ os_completed_at task = Some t ∧ t < cutoff.

Lemma inv_retention cutoff n db : inv db → (∀ tid task, retires (in_retention cutoff n) db tid task → gone tid task) → inv (pruneIngress cutoff n db).
Proof.
  intros Hinv Hgone. assert (∀ tid t, pending_tasks (pruneIngress cutoff n db) !! tid = Some t → pending_tasks db !! tid = Some t) as Hback.
  { intros tid t. cbn. unfold pruneCompleted. rewrite foldr_delete_lookup. by case_bool_decide. }
  assert (grows db (pruneIngress cutoff n db)) as Hg.
  { split; [|intros gid group ? ?; by exists group|done]. intros tid task Ht. cbn. unfold pruneCompleted. rewrite foldr_delete_lookup. case_bool_decide as Hp; [right|by left; exists task].
    apply pruned_completed in Hp as (row & t & Hr & Hs & Hc & Hlt). rewrite Ht in Hr. injection Hr as <-. apply Hgone. by exists cutoff, n, t. }
  split.
  - intros id row Hrow. destruct (inv_rows _ Hinv _ _ Hrow). split; [done|by eapply located_grows].
  - intros gid group Hgr. apply (album_ok_kept db); [done| |by apply (inv_albums _ Hinv)]. intros _ Hn. destruct (pending_tasks (pruneIngress _ _ _) !! gid) eqn:E; [|done].
    apply Hback in E. congruence.
  - intros tid t Ht. eapply task_ok_grows; [exact Hg|reflexivity|]. by apply (inv_tasks _ Hinv), Hback.
Qed.

Lemma addAlbumPart_work now id row g config db : ∃ st reason, st ≠ wk_pending ∧
  incoming_work (addAlbumPart now id row g config db) = alter (classified now st reason) id (incoming_work db).
Proof. unfold addAlbumPart. cbn zeta. destruct (incoming_album_groups db !! _); [case_bool_decide|]; eexists _, _; (split; [|reflexivity]); done. Qed.

(** Classification changes its own row, which is no longer pending. *)
Lemma classify_work now id row db cache db' cache' : classifyIncomingRow new_RegExp regex_test signalPlans now id row db cache = (Ok db', cache') →
  ∃ st reason, st ≠ wk_pending ∧ incoming_work db' = alter (classified now st reason) id (incoming_work db).
Proof.
  unfold classifyIncomingRow. destruct (readIngressMessage _) as [identity|]; [|done]. destruct (iw_config row) as [config|]; [|done]. cbn zeta.
  destruct (getMessageTextAndType _) as [text type]. destruct (match iw_workflow_revision_id row with Some _ => _ | None => None end) as [revision|].
  - intros [= H _]. apply bind_Ok in H as (plans & _ & H). unfold routeWorkflowPlans in H.
    destruct plans; [injection H as <-|apply bind_Ok in H as (tasks & _ & H); injection H as <-]; eexists _, _; (split; [|reflexivity]); done.
  - destruct (acceptsLegacySource _ _ _ _ _ _) as [[reason|] cache1]; [intros [= <- _]; eexists _, _; (split; [|reflexivity]); done|].
    destruct (album_of identity).
    + intros [= <- _]. unfold routeLegacyAlbum. destruct (member _ _) as [| |[]| | | | | |]; (apply addAlbumPart_work) || (eexists _, _; (split; [|reflexivity]); done).
    + intros [= H _]. apply bind_Ok in H as (r & _ & H). injection H as <-. eexists _, _; (split; [|reflexivity]); done.
Qed.

Lemma process_one_work now id row db cache db' cache' : process_one new_RegExp regex_test signalPlans now id db cache = (db', cache') →
  incoming_work db !! id = Some row → iw_status row = wk_pending →
  ∃ st reason, st ≠ wk_pending ∧ incoming_work db' = alter (classified now st reason) id (incoming_work db).
Proof.
  unfold process_one. intros H Hrow Hs. rewrite Hrow, bool_decide_true in H by done.
  destruct (classifyIncomingRow _ _ _ _ _ _ _ _) as [[db1|e] cache1] eqn:E; injection H as <- _; [by eapply classify_work|].
  eexists _, _; (split; [|reflexivity]); done.
Qed.

Lemma process_one_skip now id db cache : (∀ row, incoming_work db !! id = Some row → iw_status row ≠ wk_pending) →
  process_one new_RegExp regex_test signalPlans now id db cache = (db, cache).
Proof. intros H. unfold process_one. destruct (incoming_work db !! id) as [row|] eqn:E; [|done]. by rewrite bool_decide_false by auto. Qed.

Lemma process_one_keeps now id db cache db' cache' : process_one new_RegExp regex_test signalPlans now id db cache = (db', cache') → keeps_rows db db'.
Proof.
  intros H. destruct (incoming_work db !! id) as [row|] eqn:Hrow; [|by rewrite process_one_skip in H by congruence; injection H as <- _].
  destruct (decide (iw_status row = wk_pending)) as [Hs|Hs].
  - destruct (process_one_work _ _ _ _ _ _ _ H Hrow Hs) as (st & reason & _ & Hw). by eapply keeps_alter.
  - rewrite process_one_skip in H by congruence. by injection H as <- _.
Qed.

Lemma process_keeps now ids db cache db' cache' : process_rows new_RegExp regex_test signalPlans now ids db cache = (db', cache') → keeps_rows db db'.
Proof.
  revert db cache. induction ids as [|id ids IH]; intros db cache; cbn; [by intros [= <- _]|].
  destruct (process_one _ _ _ _ _ _ _) as [db1 cache1] eqn:E. intros H. etrans; [by eapply process_one_keeps|by eapply IH].
Qed.
End Run.

(** ** Flushing albums

    An album whose task is in the outbox: it names the rows of the album by
    message identifier, its execution finds exactly their messages, in that
    order, and the rows are routed. *)
Definition delivered (db : IngressDb) (gid : string) (group : IncomingAlbumRow) : Prop :=
  ∃ task rows, pending_tasks db !! gid = Some task ∧ os_type task = type_mediaGroup ∧ os_chat_id task = ag_chat_id group ∧
    NoDup (map fst rows) ∧ StronglySorted Z.le (map (λ row : string * IncomingWorkRow, iw_message_id row.2) rows) ∧
    (∀ id, id ∈ map fst rows ↔ id ∈ ag_work_ids group) ∧
    Forall (λ row : string * IncomingWorkRow, incoming_work db !! row.1 = Some row.2 ∧ iw_status row.2 = wk_routed ∧ is_Some (iw_message row.2)) rows ∧
    os_message_ids task = col_json (JArray (map JInt (map (λ row, iw_message_id row.2) rows))) ∧
    reload_messages (incoming_work db) task = Ok (omap (λ row, iw_message row.2) rows).

(** What is left of the rows later. *)
Definition later_row (db : IngressDb) (row : string * IncomingWorkRow) : string * IncomingWorkRow := (row.1, default row.2 (incoming_work db !! row.1)).

Lemma later_rows db db' rows : keeps_rows db db' → Forall (λ row, incoming_work db !! row.1 = Some row.2) rows →
  Forall (λ row, incoming_work db' !! row.1 = Some (later_row db' row).2 ∧ same_work row.2 (later_row db' row).2 ∧ work_move (iw_status row.2) (iw_status (later_row db' row).2)) rows.
Proof.
  intros Hk Hall. eapply Forall_impl; [exact Hall|]. intros [id row] Hrow. cbn in *. destruct (Hk _ _ Hrow) as (row' & Hrow' & Hs & Hm). unfold later_row. cbn. rewrite Hrow'. done.
Qed.

Lemma later_fst db rows : map fst (map (later_row db) rows) = map fst rows.
Proof. by rewrite map_map. Qed.

Lemma reload_album work work' task : os_type task = type_mediaGroup → reload_messages work task = reload_messages work' task.
Proof. unfold reload_messages. by intros ->. Qed.

Lemma delivered_later db db' gid group : keeps_rows db db' → (∀ tid t, pending_tasks db !! tid = Some t → pending_tasks db' !! tid = Some t) →
  delivered db gid group → delivered db' gid group.
Proof.
  intros Hk Ht (task & rows & H1 & H2 & H3 & Hnd & Hsort & Hids & Hall & Hcol & Hre). exists task, (map (later_row db') rows).
  assert (Forall (λ row, incoming_work db !! row.1 = Some row.2) rows) as Hrows by (eapply Forall_impl; [exact Hall|]; naive_solver).
  pose proof (later_rows _ _ _ Hk Hrows) as Hl.
  assert (map (λ row : string * IncomingWorkRow, iw_message_id row.2) (map (later_row db') rows) = map (λ row, iw_message_id row.2) rows) as Hm.
  { rewrite map_map. apply map_ext_in. intros row Hin%list_elem_of_In. rewrite Forall_forall in Hl. destruct (Hl _ Hin) as (_ & (_ & Hm & _) & _). done. }
  assert (omap (λ row : string * IncomingWorkRow, iw_message row.2) (map (later_row db') rows) = omap (λ row, iw_message row.2) rows) as Ho.
  { clear -Hl. induction Hl as [|row rows (_ & (_ & _ & Hm & _) & _) _ IH]; [done|]. cbn -[later_row]. by rewrite <-Hm, IH. }
  rewrite later_fst, Hm, Ho. split_and!; try done; [by apply Ht| |by rewrite (reload_album _ (incoming_work db))].
  apply Forall_map. eapply Forall_impl; [apply Forall_and; split; [exact Hall|exact Hl]|]. intros row [(_ & Hs & Hmsg) (Hr & (_ & _ & Hm' & _) & Hmove)]. unfold work_move in Hmove. rewrite Hs in Hmove.
  split_and!; [done|by destruct Hmove as [|[|[]]]|by rewrite <-Hm'].
Qed.

Lemma sorted_message_ids ids work : StronglySorted Z.le (map (λ row : string * IncomingWorkRow, iw_message_id row.2) (album_rows ids work)).
Proof.
  pose proof (sort_by_sorted (λ row : string * IncomingWorkRow, iw_message_id row.2) (filter (λ row : string * IncomingWorkRow, row.1 ∈ ids) (map_to_list work))) as H.
  fold (album_rows ids work) in H. induction H as [|row rows _ IH Hf]; cbn; constructor; [done|]. by apply Forall_map.
Qed.

(** The execution of the task of an album finds the messages of its rows. *)
Lemma requireOutboxMessageIds_ids ids : ids ≠ [] → Forall (λ z, isSafeInteger z = true) ids → requireOutboxMessageIds (col_json (JArray (map JInt ids))) = Some ids.
Proof.
  intros Hne Hall. unfold requireOutboxMessageIds. destruct ids as [|z ids]; [done|]. cbn [map]. change (JInt z :: map JInt ids) with (map JInt (z :: ids)). clear Hne.
  induction Hall as [|x l Hx _ IH]; [done|]. cbn. rewrite Hx. cbn. cbn in IH. by rewrite IH.
Qed.

Lemma reload_names now gid group ingress first rows work : rows ≠ [] → Forall readable rows →
  reload_messages work (enqueued now (album_task gid group ingress first rows)) = Ok (map (λ row, iw_message row.2 ?? JNull) rows).
Proof.
  intros Hne Hread. unfold reload_messages. set (task := enqueued _ _).
  assert (task_ingress task = JObject (js_set "albumMessages" (JArray (map (λ row : string * IncomingWorkRow, iw_message row.2 ?? JNull) rows)) ingress)) as Hti by apply assoc_js_set.
  rewrite Hti. cbn [truthy negb]. change (os_type task) with type_mediaGroup. cbv iota zeta.
  change (member ?k (JObject ?f)) with (assoc k f). rewrite assoc_js_set. change (os_message_ids task) with (col_json (JArray (map JInt (map (λ row, iw_message_id row.2) rows)))).
  rewrite requireOutboxMessageIds_ids; [by rewrite !length_map, Nat.eqb_refl|by intros ?%map_eq_nil|]. apply Forall_map. eapply Forall_impl; [exact Hread|]. by intros row [? _].
Qed.

(** What the closure of one album does. *)
Lemma close_effect now gid group db db' : inv db → incoming_album_groups db !! gid = Some group → ag_status group = al_waiting →
  closeAlbum now gid group db = Ok db' → keeps_rows db db' ∧ (∀ tid t, pending_tasks db !! tid = Some t → pending_tasks db' !! tid = Some t) ∧
  incoming_album_groups db' = <[gid := closed_album group]> (incoming_album_groups db) ∧ delivered db' gid group.
Proof.
  intros Hinv Hg Hw Hclose. destruct (close_succeeds now _ _ _ Hinv Hg Hw) as (first & rest & ingress & Erows & Hread & Hok). rewrite Hok in Hclose. apply Ok_inj in Hclose as <-.
  pose proof (album_rows_NoDup (ag_work_ids group) (incoming_work db)) as Hnd. rewrite Erows in Hnd.
  pose proof (sorted_message_ids (ag_work_ids group) (incoming_work db)) as Hsort. rewrite Erows in Hsort.
  assert (first :: rest ≠ []) as Hne by done. set (rows := first :: rest) in *. clearbody rows.
  destruct (inv_albums _ Hinv _ _ Hg) as (_ & _ & _ & _ & Hparts). destruct (Hparts Hw) as (Hn & _ & Hall). rewrite Forall_forall in Hall.
  set (db1 := mkIngress _ _ _ _). destruct (finish_album_rest now rows db1) as [Ha Ht].
  assert (∀ id row, incoming_work db !! id = Some row → (id ∈ map fst rows ↔ id ∈ ag_work_ids group)) as Hin.
  { intros id row Hrow. rewrite list_elem_of_fmap. split.
    - intros ([i r] & -> & Hr). rewrite <-Erows in Hr. by apply album_rows_In in Hr as [_ ?].
    - intros Hid. exists (id, row). split; [done|]. rewrite <-Erows. by apply album_rows_In. }
  assert (keeps_rows db (finish_album now rows db1)) as Hkeep.
  { intros id row Hrow. rewrite (finish_album_work now rows) by done. cbn [incoming_work db1]. rewrite Hrow. case_bool_decide as Hid.
    - eexists. split_and!; [done|apply classified_same|]. right. right. apply (Hin id row Hrow) in Hid. destruct (Hall id Hid) as (r & i & Hr & Hs & _).
      rewrite Hrow in Hr. injection Hr as ->. done.
    - exists row. split_and!; [done|reflexivity|by left]. }
  split_and!; [done| |by rewrite Ha|].
  - intros tid t Htid. rewrite Ht. cbn. rewrite lookup_insert_ne; [done|congruence].
  - assert (Forall (λ row : string * IncomingWorkRow, incoming_work db !! row.1 = Some row.2 ∧ row.1 ∈ ag_work_ids group) rows) as Hrows
      by (apply Forall_forall; intros row Hr; rewrite <-Erows in Hr; by apply album_rows_In in Hr).
    set (task := enqueued now (album_task gid group ingress first rows)).
    exists task, (map (λ row, (row.1, classified now wk_routed ALBUM_CLOSED row.2)) rows). rewrite Ht. cbn [pending_tasks db1]. rewrite lookup_insert_eq, !map_map. cbn [fst snd].
    split_and!; [reflexivity|done|done|done|exact Hsort| | |by cbn; rewrite map_map|].
    + intros id. split; intros Hid; [|destruct (Hall id Hid) as (r & i & Hr & _); by apply (Hin id r)].
      apply list_elem_of_fmap in Hid as (row & -> & Hr). rewrite Forall_forall in Hrows. by apply Hrows.
    + apply Forall_map, Forall_forall. intros row Hr. rewrite Forall_forall in Hrows, Hread. destruct (Hrows _ Hr) as [Hrow _]. destruct (Hread _ Hr) as [_ Hmsg]. cbn.
      rewrite (finish_album_work now rows), bool_decide_true by (done || by apply list_elem_of_fmap_2). cbn [incoming_work db1]. by rewrite Hrow.
    + rewrite (reload_names now gid group ingress first rows) by done. f_equal. clear -Hread. induction Hread as [|row rows [_ [m Hm]] _ IH]; [done|]. cbn. by rewrite Hm, IH.
Qed.

Lemma close_albums_ok now groups db : inv db → NoDup (map fst groups) →
  Forall (λ group : string * IncomingAlbumRow, incoming_album_groups db !! group.1 = Some group.2 ∧ ag_status group.2 = al_waiting) groups →
  ∃ db', close_albums now groups db = Ok db' ∧ inv db' ∧ keeps_rows db db' ∧
    (∀ tid t, pending_tasks db !! tid = Some t → pending_tasks db' !! tid = Some t) ∧
    (∀ gid, gid ∉ map fst groups → incoming_album_groups db' !! gid = incoming_album_groups db !! gid) ∧
    Forall (λ group, incoming_album_groups db' !! group.1 = Some (closed_album group.2) ∧ delivered db' group.1 group.2) groups.
Proof.
  revert db. induction groups as [|[gid group] groups IH]; intros db Hinv Hnd Hall; cbn [close_albums]; [exists db; split_and!; done|].
  cbn in Hnd. apply NoDup_cons in Hnd as [Hgid Hnd]. apply Forall_cons in Hall as [[Hg Hw] Hall]. cbn in Hg, Hw.
  destruct (close_succeeds now _ _ _ Hinv Hg Hw) as (first & rest & ingress & _ & _ & Hok). set (db1 := finish_album _ _ _) in Hok. clearbody db1.
  pose proof (inv_close _ _ _ _ _ Hinv Hg Hw Hok) as Hinv1. destruct (close_effect _ _ _ _ _ Hinv Hg Hw Hok) as (Hk & Ht & Ha & Hd).
  destruct (IH db1 Hinv1 Hnd) as (db' & Hc & Hinv' & Hk' & Ht' & Ha' & Hall').
  { eapply Forall_impl; [apply Forall_and; split; [exact Hall|apply Forall_forall; intros x Hx; exact Hx]|]. intros [gid' group'] [[Hg' Hw'] Hin]. cbn in *.
    split; [|done]. rewrite Ha, lookup_insert_ne; [done|]. intros <-. apply Hgid, list_elem_of_fmap. by exists (gid, group'). }
  exists db'. rewrite Hok. cbn. split_and!; [done|done|by etrans|auto| |].
  - intros gid'. rewrite elem_of_cons. intros Hn. rewrite Ha' by naive_solver. rewrite Ha, lookup_insert_ne; [done|naive_solver].
  - constructor; [|done]. cbn. split; [rewrite Ha', Ha by done; apply lookup_insert_eq|]. by eapply delivered_later.
Qed.

Lemma due_albums_In now db gid group : (gid, group) ∈ due_albums now db ↔
  incoming_album_groups db !! gid = Some group ∧ ag_status group = al_waiting ∧ ag_ready_at group <= now.
Proof. unfold due_albums. rewrite list_elem_of_filter, elem_of_map_to_list. cbn. split; [intros ((H1 & H2) & H3)|intros (H1 & H2 & H3)]; repeat split; assumption. Qed.

Lemma flush_ok now db : inv db → ∃ db', flushIncomingAlbums now db = Ok db' ∧ inv db' ∧ keeps_rows db db' ∧
  (∀ gid, gid ∉ map fst (due_albums now db) → incoming_album_groups db' !! gid = incoming_album_groups db !! gid) ∧
  Forall (λ group, incoming_album_groups db' !! group.1 = Some (closed_album group.2) ∧ delivered db' group.1 group.2) (due_albums now db).
Proof.
  intros Hinv. destruct (close_albums_ok now (due_albums now db) db Hinv) as (db' & Hc & Hinv' & Hk & _ & Ha & Hall).
  - unfold due_albums. apply NoDup_fmap_fst; [|apply NoDup_filter, NoDup_map_to_list].
    intros gid g g'. rewrite !list_elem_of_filter, !elem_of_map_to_list. naive_solver.
  - apply Forall_forall. intros [gid group] Hin%due_albums_In. naive_solver.
  - exists db'. done.
Qed.

End Invariant.
Arguments inv_rows {_} _ _ _ _ _.
Arguments inv_albums {_} _ _ _ _ _.
Arguments inv_tasks {_} _ _ _ _ _.

(** ** Where an accepted message is

    A task carries a row when it belongs to the chat of the row and its execution
    finds the message of the row. *)
Definition carries (work : WorkTable) (row : IncomingWorkRow) (task : OutboxStorageRow) : Prop :=
  os_chat_id task = iw_chat_id row ∧
  ∃ messages message, reload_messages work task = Ok messages ∧ iw_message row = Some message ∧ message ∈ messages.

(** Where a row is, by its status; [gone] are the tasks that were completed and
    then deleted by the retention. *)
Definition placed (gone : string → OutboxStorageRow → Prop) (db : IngressDb) (id : string) (row : IncomingWorkRow) : Prop :=
  match iw_status row with
  | wk_pending => True
  | wk_filtered | wk_needs_review => is_Some (iw_reason row)
  | wk_album_waiting => ∃ gid group, incoming_album_groups db !! gid = Some group ∧ ag_status group = al_waiting ∧ id ∈ ag_work_ids group
  | wk_routed => ∃ tid task, (pending_tasks db !! tid = Some task ∨ gone tid task) ∧ carries (incoming_work db) row task
  end.

Lemma asserted_id v identity : assertIngressMessage v = Ok identity → member "id" v = JInt (tm_id identity).
Proof.
  unfold assertIngressMessage, safe_int, member. destruct v as [| | | | | | | |fields]; try done. cbn [spread]. destruct (assoc "id" fields); try done.
  destruct (isSafeInteger z) eqn:E; [|done]. repeat case_match; try done; by intros [= <-].
Qed.

Lemma names_carries work id row task : row_ok id row → work !! id = Some row → names_row row task → carries work row task.
Proof.
  intros (identity & ? & ? & Hread & Hm & _ & Hid & _) Hrow [Hchat (config & ingress & Hcol & Hing & H)]. split; [done|].
  assert (task_ingress task = JObject ingress) as Hti by (unfold task_ingress; rewrite Hcol; exact Hing).
  unfold readIngressMessage in Hread. destruct (iw_message row) as [message|] eqn:Hmsg; [|done]. cbn in Hread. unfold reload_messages. rewrite Hti. cbn [truthy negb].
  destruct H as [(Hty & Hmid & Hwork)|(Hty & ids & messages & m & Hids & Hne & Hsafe & Halb & Hlen & Hmsg' & Hin)]; rewrite Hty.
  - exists [message], message. unfold stored_message. rewrite Hwork, <-Hid, Hrow, Hmsg, Hmid, (asserted_id _ _ Hread), Hm, Z.eqb_refl. split_and!; [done..|by left].
  - exists messages, m. change (member ?k (JObject ?f)) with (assoc k f). rewrite Halb, Hids, requireOutboxMessageIds_ids, Hlen, Nat.eqb_refl by done. split_and!; [done|congruence|done].
Qed.

Lemma located_placed gone db id row : row_ok id row → incoming_work db !! id = Some row → located gone db id row → placed gone db id row.
Proof.
  unfold located, placed. intros Hok Hrow. destruct (iw_status row); try done. intros (tid & task & Ht & Hn). exists tid, task. split; [done|by eapply names_carries].
Qed.

(** ** Theorems *)
Section Theorems.
Context {RegExp : Type} (new_RegExp : string → string → result RegExp) (regex_test : RegExp → string → result bool).
Context (signalPlans : string → string → string → string → result (list string)) (sha256 : string → string).
Abbreviation Cache := (list (string * RegExp)).
Abbreviation run_ingress := (run_ingress new_RegExp regex_test signalPlans sha256).
Abbreviation apply_ingress := (apply_ingress new_RegExp regex_test signalPlans sha256).

Lemma find_work_Some chat mid work id row : find_work chat mid work = Some (id, row) → work !! id = Some row ∧ iw_chat_id row = chat ∧ iw_message_id row = mid.
Proof. unfold find_work. intros H%head_Some_elem_of. apply list_elem_of_filter in H as [[Hc Hm] Hin%elem_of_map_to_list]. done. Qed.

Lemma find_work_None chat mid work : find_work chat mid work = None → ∀ id row, work !! id = Some row → ¬ (iw_chat_id row = chat ∧ iw_message_id row = mid).
Proof.
  unfold find_work. intros H id row Hrow Hc. apply head_None in H. assert ((id, row) ∈ @nil (string * IncomingWorkRow)) as []%elem_of_nil.
  rewrite <-H. apply list_elem_of_filter. split; [done|by apply elem_of_map_to_list].
Qed.

Lemma accept_keeps now reads message config db work db' : acceptIncomingMessage now reads message config db = Ok (work, db') → keeps_rows db db'.
Proof.
  intros (identity & _ & [(row & _ & -> & _)|(_ & Hn & _ & row & Hw & _)])%accept_cases; [done|]. intros id r Hr. rewrite Hw.
  rewrite lookup_insert_ne by congruence. by apply keeps_rows_refl.
Qed.

Lemma step_ingress gone now call s : inv gone s.1 → allowed call → (∀ tid task, retires call s.1 tid task → gone tid task) →
  inv gone (apply_ingress now call s).1 ∧ keeps_rows s.1 (apply_ingress now call s).1.
Proof.
  destruct s as [db cache]. cbn [fst]. intros Hinv Hall Hgone. destruct call as [reads message config|limit| |c|taskId context xml modes|chatId messageId status|cutoff n]; cbn -[with_outbox].
  - destruct (acceptIncomingMessage _ _ _ _ _) as [[work db']|e] eqn:E; [|done]. cbn. split; [by eapply inv_accept|by eapply accept_keeps].
  - destruct (processIncomingWork _ _ _ _ _ _ _) as [db' cache'] eqn:E. cbn. split; [by eapply inv_process|by eapply process_keeps].
  - destruct (flush_ok gone now db Hinv) as (db' & -> & Hinv' & Hk & _). done.
  - split; [by apply outbox_step|by apply keeps_same].
  - destruct (publish_outputs _ _ _ _ _ _ _) as [db'|] eqn:E; [|done]. destruct (inv_publish gone _ _ _ _ _ _ _ _ Hinv E) as [Hinv' Hw]. split; [done|by apply keeps_same].
  - split; [by apply (inv_tables gone db)|by apply keeps_same].
  - split; [by apply inv_retention|by apply keeps_same].
Qed.

Lemma run_step gone calls s : inv gone s.1 → Forall (λ c, allowed c.2) calls →
  (∀ before c after tid task, calls = before ++ c :: after → retires c.2 (run_ingress before s).1 tid task → gone tid task) →
  inv gone (run_ingress calls s).1 ∧ keeps_rows s.1 (run_ingress calls s).1.
Proof.
  revert s. induction calls as [|[now call] calls IH]; intros s Hinv Hall Hgone; [done|]. apply Forall_cons in Hall as [Hc Hall].
  destruct (step_ingress gone now call s Hinv Hc) as [Hinv1 Hk1]; [intros tid task; by apply (Hgone [] (now, call) calls)|].
  destruct (IH (apply_ingress now call s) Hinv1 Hall) as [Hinv2 Hk2]; [|split; [done|by etrans]].
  intros before c after tid task ->. apply (Hgone ((now, call) :: before) c after). done.
Qed.

(** The tasks a run completed and its retention then deleted. *)
Definition retired (calls : list (Z * IngressCall)) (s : IngressDb * Cache) (tid : string) (task : OutboxStorageRow) : Prop :=
  ∃ before c after, calls = before ++ c :: after ∧ retires c.2 (run_ingress before s).1 tid task.

Lemma run_anyhow calls s : inv (λ _ _, True) s.1 → Forall (λ c, allowed c.2) calls → inv (λ _ _, True) (run_ingress calls s).1 ∧ keeps_rows s.1 (run_ingress calls s).1.
Proof. intros Hinv Hall. by apply run_step. Qed.

(** The service starts with nothing but the former inbox. *)
Definition empty_ingress (inbox : gmap (string * Z) IncomingMessage) : IngressDb := mkIngress ∅ inbox ∅ ∅.

Lemma inv_empty gone inbox : inv gone (empty_ingress inbox).
Proof. split; intros ? ?; cbn; rewrite lookup_empty; done. Qed.

(** The identity a stored row was accepted under. *)
Lemma accepted_row gone now reads message config db work db' : js_value message → inv gone db → acceptIncomingMessage now reads message config db = Ok (work, db') →
  ∃ identity row, assertIngressMessage message = Ok identity ∧ incoming_work db' !! wr_id work = Some row ∧
    iw_chat_id row = show (tm_chat_id identity) ∧ iw_message_id row = tm_id identity ∧ wr_workflowRevisionId work = iw_workflow_revision_id row.
Proof.
  intros Hjs Hinv (identity & Hid & [(row & Hf & -> & _ & Hrev)|(_ & _ & _ & row & Hw & _ & _ & Hc & Hm & _ & _ & Hrev & _)])%accept_cases; exists identity, row.
  - apply find_work_Some in Hf as (? & ? & ?). done.
  - rewrite Hw, lookup_insert_eq. done.
Qed.

(** C17: no accepted message is lost: after any calls of the ingress, of the
    outbox, of executions that publish outputs and of the retention, the row of
    every message accepted on the way is there with its identity, and every row
    is pending, filtered or in review with a reason, a part of an album that
    still waits, or routed, and then there is a task whose execution finds the
    message: in the outbox, unless it was completed and the retention deleted it
    later. *)
Theorem no_accepted_message_lost inbox cache calls db cache' : Forall (λ c, allowed c.2) calls →
  run_ingress calls (empty_ingress inbox, cache) = (db, cache') →
  (∀ id row, incoming_work db !! id = Some row → row_ok id row ∧ placed (retired calls (empty_ingress inbox, cache)) db id row) ∧
  ∀ before now reads message config after db0 cache0 work db1, calls = before ++ (now, in_accept reads message config) :: after →
    run_ingress before (empty_ingress inbox, cache) = (db0, cache0) → acceptIncomingMessage now reads message config db0 = Ok (work, db1) →
    ∃ identity row, assertIngressMessage message = Ok identity ∧ incoming_work db !! wr_id work = Some row ∧
      iw_chat_id row = show (tm_chat_id identity) ∧ iw_message_id row = tm_id identity.
Proof.
  intros Hall Hrun. set (gone := retired calls _).
  destruct (run_step gone calls (empty_ingress inbox, cache) (inv_empty gone inbox) Hall) as [Hinv _]; [intros before c after tid task E H; by exists before, c, after|].
  rewrite Hrun in Hinv. split; [intros id row Hrow; destruct (inv_rows _ Hinv _ _ Hrow); split; [done|by apply located_placed]|].
  intros before now reads message config after db0 cache0 work db1 E Hbefore Hacc. clear Hinv. subst gone calls.
  apply Forall_app in Hall as [Hb [Hjs Ha]%Forall_cons]. destruct (run_anyhow before (empty_ingress inbox, cache) (inv_empty _ inbox) Hb) as [Hinv0 _].
  rewrite Hbefore in Hinv0. cbn in Hinv0, Hjs. destruct (accepted_row _ _ _ _ _ _ _ _ Hjs Hinv0 Hacc) as (identity & row & Hid & Hrow & Hc & Hm & _).
  pose proof (inv_accept _ _ _ _ _ _ _ _ Hinv0 Hjs Hacc) as Hinv1.
  unfold Ingress.run_ingress in Hrun, Hbefore. rewrite foldl_app, Hbefore in Hrun. cbn [foldl fst snd Ingress.apply_ingress] in Hrun. rewrite Hacc in Hrun.
  destruct (run_anyhow after (db1, cache0) Hinv1 Ha) as [_ Hk]. unfold Ingress.run_ingress in Hk. rewrite Hrun in Hk.
  destruct (Hk _ _ Hrow) as (row' & Hrow' & (Hc' & Hm' & _) & _). exists identity, row'. split_and!; [done|done|congruence..].
Qed.

(** A message is accepted once: accepting it again, whatever was called in
    between and whatever the configuration then is, answers the same work, pinned
    to the same workflow revision, and changes nothing. *)
Theorem message_accepted_once inbox cache before db0 cache0 now reads message config work db1 after db2 cache2
    now' reads' message' config' :
  Forall (λ c, allowed c.2) before → run_ingress before (empty_ingress inbox, cache) = (db0, cache0) →
  js_value message → acceptIncomingMessage now reads message config db0 = Ok (work, db1) →
  Forall (λ c, allowed c.2) after → run_ingress after (db1, cache0) = (db2, cache2) →
  tm_id <$> assertIngressMessage message' = tm_id <$> assertIngressMessage message →
  tm_chat_id <$> assertIngressMessage message' = tm_chat_id <$> assertIngressMessage message →
  ∃ work', acceptIncomingMessage now' reads' message' config' db2 = Ok (work', db2) ∧ wr_id work' = wr_id work ∧
    wr_workflowRevisionId work' = wr_workflowRevisionId work.
Proof.
  intros Hb Hbefore Hjs Hacc Ha Hafter Hid Hchat. destruct (run_anyhow before (empty_ingress inbox, cache) (inv_empty _ inbox) Hb) as [Hinv0 _]. rewrite Hbefore in Hinv0. cbn in Hinv0.
  destruct (accepted_row _ _ _ _ _ _ _ _ Hjs Hinv0 Hacc) as (identity & row & Hm & Hrow & Hc & Hmid & Hrev).
  destruct (run_anyhow after (db1, cache0) (inv_accept _ _ _ _ _ _ _ _ Hinv0 Hjs Hacc) Ha) as [Hinv2 Hk]. rewrite Hafter in Hinv2, Hk. cbn in Hinv2, Hk.
  destruct (Hk _ _ Hrow) as (row' & Hrow' & (Hc' & Hmid' & _ & _ & Hrev' & _) & _).
  unfold acceptIncomingMessage. rewrite Hm in Hid, Hchat. destruct (assertIngressMessage message') as [identity'|] eqn:Hm'; [|done]. cbn in Hid, Hchat.
  injection Hid as Hid. injection Hchat as Hchat. cbn [mbind result_bind]. cbn zeta. rewrite Hid, Hchat.
  destruct (find_work _ _ (incoming_work db2)) as [[id r]|] eqn:Ef; [|by destruct (find_work_None _ _ _ Ef _ _ Hrow'); split; congruence].
  apply find_work_Some in Ef as (Hr & Hrc & Hrm).
  assert (id = wr_id work) as ->.
  { destruct (inv_rows _ Hinv2 _ _ Hr) as [(? & ? & ? & _ & _ & _ & -> & _) _], (inv_rows _ Hinv2 _ _ Hrow') as [(? & ? & ? & _ & _ & _ & -> & _) _]. congruence. }
  rewrite Hrow' in Hr. injection Hr as <-. eexists. split; [reflexivity|]. cbn. split; congruence.
Qed.

(** A scan makes progress: it classifies exactly the first pending rows, up
    to its limit, in their order, and leaves the other pending rows pending;
    a row that cannot be classified does not hold up the rest. *)
Theorem scan_classifies_first_rows now limit db cache : 
  pending_rows (processIncomingWork new_RegExp regex_test signalPlans now limit db cache).1 = drop limit (pending_rows db).
Proof.
  clear sha256.
  unfold processIncomingWork. pose proof (take_drop limit (pending_rows db)) as Hsplit. set (T := take limit (pending_rows db)) in *. set (D := drop limit (pending_rows db)) in *.
  clearbody T D. revert db cache Hsplit. induction T as [|[id row] T IH]; intros db cache Hsplit; cbn [map process_rows]; [by symmetry|].
  destruct (process_one _ _ _ _ _ _ _) as [db1 cache1] eqn:E. apply IH. cbn [app] in Hsplit.
  pose proof (select_NoDup (time := iw_created_at) (λ row, iw_status row.2 = wk_pending) (incoming_work db)) as Hnd. fold (pending_rows db) in Hnd. rewrite <-Hsplit in Hnd.
  pose proof (select_sorted (time := iw_created_at) (λ row, iw_status row.2 = wk_pending) (incoming_work db)) as Hsort. fold (pending_rows db) in Hsort. rewrite <-Hsplit in Hsort.
  assert (∀ r, r ∈ (id, row) :: T ++ D ↔ incoming_work db !! r.1 = Some r.2 ∧ iw_status r.2 = wk_pending) as Hin 
    by (intros r; rewrite Hsplit; exact (select_In (time := iw_created_at) (λ row, iw_status row.2 = wk_pending) (incoming_work db) r)).
  destruct (proj1 (Hin (id, row)) ltac:(by left)) as [Hrow Hs]. cbn in Hrow, Hs.
  destruct (process_one_work _ _ _ _ _ _ _ _ _ _ E Hrow Hs) as (st & reason & Hst & Hw). cbn in Hnd. apply NoDup_cons in Hnd as [Hid Hnd].
  symmetry. apply select_unique; [by apply StronglySorted_inv in Hsort as [? _]|by apply (NoDup_fmap_1 fst)|]. intros [jd r]. rewrite Hw. cbn.
  destruct (decide (jd = id)) as [->|Hne].
  - rewrite lookup_alter_eq, Hrow. cbn. split; [intros H; destruct Hid; apply list_elem_of_fmap; by exists (id, r)|by intros [[= <-] ?]].
  - rewrite lookup_alter_ne by done. rewrite <-(Hin (jd, r)), elem_of_cons. naive_solver.
Qed.

(** C32: no album blocks the others: after any calls, closing the albums that are
    due succeeds; each of them is then completed, its parts are routed, and the
    outbox holds its task, whose message identifiers are those of its parts in
    order and whose execution finds exactly the stored messages of its parts, in
    the same order. *)
Theorem due_albums_closed inbox cache calls db cache' now : Forall (λ c, allowed c.2) calls →
  run_ingress calls (empty_ingress inbox, cache) = (db, cache') → ∃ db', flushIncomingAlbums now db = Ok db' ∧ due_albums now db' = [] ∧
  ∀ gid group, incoming_album_groups db !! gid = Some group → ag_status group = al_waiting → ag_ready_at group <= now →
    incoming_album_groups db' !! gid = Some (closed_album group) ∧ delivered db' gid group.
Proof.
  intros Hall Hrun. destruct (run_anyhow calls (empty_ingress inbox, cache) (inv_empty _ inbox) Hall) as [Hinv _]. rewrite Hrun in Hinv.
  destruct (flush_ok _ now db Hinv) as (db' & Hf & _ & _ & Hrest & Hdue). exists db'. split; [done|]. rewrite Forall_forall in Hdue. split.
  - destruct (due_albums now db') as [|[gid group] rest] eqn:E; [done|]. exfalso.
    assert ((gid, group) ∈ due_albums now db') as Hin by (rewrite E; by left). apply due_albums_In in Hin as (Hg & Hw & Hr).
    destruct (decide (gid ∈ map fst (due_albums now db))) as [Hd|Hd].
    + apply list_elem_of_fmap in Hd as ([i g] & -> & Hd). destruct (Hdue _ Hd) as [Hc _]. cbn in *. rewrite Hg in Hc. by injection Hc as ->.
    + rewrite Hrest in Hg by done. apply Hd, list_elem_of_fmap. exists (gid, group). split; [done|]. by apply due_albums_In.
  - intros gid group Hg Hw Hr. apply (Hdue (gid, group)), due_albums_In. done.
Qed.
End Theorems.

(** ** Witnesses

    A message and the two parts of an album, accepted, classified and closed. *)
Definition sample_message (id : Z) (album : list (string * jsval)) : jsval :=
  JObject ([("id", JInt id); ("chat_id", JInt (-100));
            ("content", JObject [("_", JString "messageText"); ("text", JObject [("text", JString "LONG BTC")])])] ++ album).
Definition album_message (id : Z) : jsval := sample_message id [("media_group_id", JString "55")].
Definition sample_config : Fields :=
  [("sourceChannels", JArray [JInt (-100)]); ("filters", JObject [("regexPatterns", JArray [JString "btc"])]); ("botToken", JString "x")].
Definition sample_reads : Reads := mkReads None JNull (λ _, Ok "prompt") (λ _, None) (λ _, Ok JNull) (λ _, None).
Definition sample_plans (chat text type revision : string) : result (list string) := Ok ["p1"].

Definition sample_calls : list (Z * IngressCall) :=
  [(1, in_accept sample_reads (sample_message 7 []) sample_config); (2, in_accept sample_reads (album_message 9) sample_config);
   (3, in_accept sample_reads (album_message 8) sample_config); (4, in_process 10); (5, in_outbox (call_claim "single_-100_7"));
   (6, in_outputs "single_-100_7" [] "<signal/>" ["telegram_xml"]); (7, in_outbox (call_complete "single_-100_7" None));
   (8, in_inbox "-100" 7 "processed"); (9, in_retention 8 10);
   (10, in_outbox (call_enqueue (mkEnqueue "group_-100_3" type_mediaGroup "-100" None (Some [1; 2]) None 1 None None None true)))].

Definition sample_digest (mode : string) : string := mode.

Definition sample_run (calls : list (Z * IngressCall)) : IngressDb * list (string * string) :=
  run_ingress literal_RegExp literal_test sample_plans sample_digest calls (empty_ingress ∅, []).

Lemma sample_allowed : Forall (λ c, allowed c.2) sample_calls.
Proof.
  repeat (apply Forall_cons; split); try (apply unique_keys_js; reflexivity); try done. split; [|done]. intros task [= <-] p s. cbn [eq_id].
  rewrite !elem_of_cons, elem_of_nil. intros [->|[->|[->|[]]]]; done.
Qed.

Definition status_of (id : string) (db : IngressDb) : option WorkStatus := iw_status <$> incoming_work db !! id.

Lemma no_accepted_message_lost_witness :
  map (λ id, status_of id (sample_run sample_calls).1) ["ingress_-100_7"; "ingress_-100_8"] = [Some wk_routed; Some wk_album_waiting] ∧
  (map fst (map_to_list (pending_tasks (sample_run sample_calls).1)) ≡ₚ ["single_-100_7_output_telegram_xml"; "group_-100_3"]) ∧
  ∀ id row, incoming_work (sample_run sample_calls).1 !! id = Some row →
    placed (retired literal_RegExp literal_test sample_plans sample_digest sample_calls (empty_ingress ∅, [])) (sample_run sample_calls).1 id row.
Proof.
  split; [vm_compute; reflexivity|]. split; [apply (bool_decide_eq_true_1 _); vm_compute; reflexivity|]. intros id row Hrow.
  apply (no_accepted_message_lost literal_RegExp literal_test sample_plans sample_digest ∅ [] sample_calls (sample_run sample_calls).1 (sample_run sample_calls).2 sample_allowed (surjective_pairing _)). exact Hrow.
Defined.

Definition accepted_work (r : result (IncomingWork * IngressDb)) : IncomingWork := match r with Ok (w, _) => w | Err _ => mkIncomingWork "" wk_pending None end.
Definition accepted_db (r : result (IncomingWork * IngressDb)) : IngressDb := match r with Ok (_, db) => db | Err _ => empty_ingress ∅ end.
Definition first_accept : result (IncomingWork * IngressDb) := acceptIncomingMessage 1 sample_reads (sample_message 7 []) sample_config (empty_ingress ∅).

Lemma due_albums_closed_witness : ∃ db', flushIncomingAlbums 900 (sample_run sample_calls).1 = Ok db' ∧ due_albums 900 db' = [] ∧
  (∀ gid group, incoming_album_groups (sample_run sample_calls).1 !! gid = Some group → ag_status group = al_waiting → ag_ready_at group <= 900 → delivered db' gid group).
Proof.
  destruct (due_albums_closed literal_RegExp literal_test sample_plans sample_digest ∅ [] sample_calls (sample_run sample_calls).1 (sample_run sample_calls).2 900 sample_allowed (surjective_pairing _)) as (db' & H1 & H2 & H3).
  exists db'. split; [exact H1|]. split; [exact H2|]. intros gid group Hg Hw Hr. apply (H3 gid group Hg Hw Hr).
Defined.

Lemma scan_classifies_first_rows_witness : map fst (pending_rows (sample_run (take 3 sample_calls)).1) = ["ingress_-100_7"; "ingress_-100_9"; "ingress_-100_8"] ∧
  pending_rows (processIncomingWork literal_RegExp literal_test sample_plans 4 2 (sample_run (take 3 sample_calls)).1 []).1
    = drop 2 (pending_rows (sample_run (take 3 sample_calls)).1).
Proof. split; [vm_compute; reflexivity|]. apply scan_classifies_first_rows. Defined.
