(* ===== verification/Xml.v ===== *)
(** Xml: the restricted XML a parsed signal is written in ([tokenizeXml] to
    [parseXml] of [src/signal_schema.ts]).

    A tree keeps the text of an element, the concatenation of what stands
    between its children, apart from the children.  The parser's stack holds the
    open elements, innermost first; the code's stack shares them with the
    children of their parents, which here receive an element when it is closed:
    no error and no result reads an element that is still open.  An [id] is a
    mathematical integer (the code compares it with numbers up to 20 only). *)

From S2P Require Import Prelude Text Decimal Rational.
From Stdlib Require Import Ascii.
From Stdlib Require String.
Local Open Scope Z_scope.

(** ** Trees *)
Inductive XmlNode := mkNode { xn_name : string; xn_id : option Z; xn_text : string; xn_children : list XmlNode }.

(** Induction that reaches the children. *)
Lemma XmlNode_induction (P : XmlNode → Prop) :
  (∀ name id text children, Forall P children → P (mkNode name id text children)) → ∀ n, P n.
Proof.
  intros H. fix IH 1. intros [name id text children]. apply H.
  induction children as [|c children IHc]; constructor; [apply IH|exact IHc].
Defined.

(** ** Tokens *)
Definition lt_char : Ascii.ascii := "<"%char.
Definition gt_char : Ascii.ascii := ">"%char.
Definition slash_char : Ascii.ascii := "/"%char.
Definition double_quote : Ascii.ascii := Ascii.ascii_of_nat 34.

(** [l.indexOf(c)] *)
Fixpoint index_of (c : Ascii.ascii) (l : list Ascii.ascii) : option nat :=
  match l with [] => None | d :: l' => if bool_decide (c = d) then Some O else S <$> index_of c l' end.

(** The loop over [cursor]: what is left of the source is [l], and each round
    consumes a character or more. *)
Fixpoint token_loop (fuel : nat) (l : list Ascii.ascii) : result (list (list Ascii.ascii)) :=
  match fuel, l with
  | S fuel', c :: l' =>
      if bool_decide (c = lt_char) then
        match index_of gt_char l' with
        | None => throw "Malformed XML token sequence."
        | Some n => cons (c :: take (S n) l') <$> token_loop fuel' (drop (S n) l')
        end
      else
        match index_of lt_char l with
        | None => Ok [l]
        | Some n => cons (take n l) <$> token_loop fuel' (drop n l)
        end
  | _, _ => Ok []
  end.

Definition ends_with (suffix l : list Ascii.ascii) : bool := is_prefix (reverse suffix) (reverse l).

Definition MAX_XML : nat := 64 * 1024.

Definition tokenizeXml (xml : string) : result (string * list (list Ascii.ascii)) :=
  if bool_decide (xml = "") || (MAX_XML <? length (chars xml))%nat then throw "Signal XML must be a non-empty string no larger than 64 KiB."
  else
    let source := trim xml in
    let l := chars source in
    if negb (is_prefix (chars "<signal>") l) || negb (ends_with (chars "</signal>") l)
    then throw "Root tag must be 'signal' and properly closed."
    else if existsb (λ s, contains (chars s) l) ["<!"; "<?"; "/>"]
    then throw "XML declarations, comments, entities, DTDs, and self-closing tags are forbidden."
    else
      tokens ← token_loop (length l) l;
      if negb (bool_decide (of_chars (concat tokens) = source)) then throw "Malformed XML token sequence."
      else Ok (source, tokens).

(** ** Elements *)

(** [[a-z_][a-z0-9_]*] *)
Definition underscore : Ascii.ascii := "_"%char.
Definition name_start (c : Ascii.ascii) : bool := is_lower c || bool_decide (c = underscore).
Definition name_char (c : Ascii.ascii) : bool := name_start c || is_digit c.
Definition is_name (l : list Ascii.ascii) : bool := match l with c :: l' => name_start c && forallb name_char l' | [] => false end.

(** [/^<\/(name)>$/] *)
Definition closing_tag (token : list Ascii.ascii) : option string :=
  match token with
  | a :: b :: rest =>
      match reverse rest with
      | z :: name =>
          if bool_decide (a = lt_char ∧ b = slash_char ∧ z = gt_char) && is_name (reverse name) then Some (of_chars (reverse name)) else None
      | [] => None
      end
  | _ => None
  end.

(** [[1-9]\d*] *)
Definition is_id (l : list Ascii.ascii) : bool :=
  match l with c :: l' => is_digit c && negb (bool_decide (c = zero_char)) && forallb is_digit l' | [] => false end.

Fixpoint take_name (l : list Ascii.ascii) : list Ascii.ascii * list Ascii.ascii :=
  match l with
  | c :: l' => if name_char c then let '(name, rest) := take_name l' in (c :: name, rest) else ([], l)
  | [] => ([], [])
  end.

Definition id_open : list Ascii.ascii := chars " id=" ++ [double_quote].

(** [/^<(name)(?: id=Q(digits)Q)?>$/], where [Q] is the double quote and the
    digits are those of [is_id]. *)
Definition opening_tag (token : list Ascii.ascii) : option (string * option Z) :=
  match token with
  | a :: rest =>
      let '(name, attributes) := take_name rest in
      if negb (bool_decide (a = lt_char)) || negb (is_name name) then None
      else if bool_decide (attributes = [gt_char]) then Some (of_chars name, None)
      else if is_prefix id_open attributes then
        match reverse (drop (length id_open) attributes) with
        | z :: q :: id =>
            if bool_decide (z = gt_char ∧ q = double_quote) && is_id (reverse id) then Some (of_chars name, Some (digits (reverse id))) else None
        | _ => None
        end
      else None
  | [] => None
  end.

Definition createXmlNode (token : list Ascii.ascii) : result XmlNode :=
  match opening_tag token with
  | Some (name, id) => Ok (mkNode name id "" [])
  | None => throw ("Malformed or disallowed XML tag '" +:+ of_chars token +:+ "'.")
  end.

(** ** The parser *)

(** The open elements, innermost first, and the root once it is closed. *)
Record ParserState := mkParser { ps_stack : list XmlNode; ps_root : option XmlNode }.

Definition add_text (text : string) (n : XmlNode) : XmlNode := mkNode (xn_name n) (xn_id n) (xn_text n +:+ text) (xn_children n).
Definition add_child (child n : XmlNode) : XmlNode := mkNode (xn_name n) (xn_id n) (xn_text n) (xn_children n ++ [child]).

Definition appendTextToken (token : list Ascii.ascii) (s : ParserState) : result ParserState :=
  match ps_stack s with
  | [] => if negb (bool_decide (trim (of_chars token) = "")) then throw "Text outside the signal root is forbidden." else Ok s
  | top :: stack =>
      if existsb (λ c, bool_decide (c = lt_char) || bool_decide (c = gt_char)) token then throw "Unescaped angle brackets are forbidden in XML text."
      else Ok (mkParser (add_text (of_chars token) top :: stack) (ps_root s))
  end.

Definition consumeTagToken (token : list Ascii.ascii) (s : ParserState) : result ParserState :=
  match closing_tag token with
  | Some name =>
      let mismatch := throw ("Mismatched closing tag '" +:+ name +:+ "'.") in
      match ps_stack s with
      | [] => mismatch
      | node :: stack =>
          if negb (bool_decide (xn_name node = name)) then mismatch
          else
            match stack with
            | parent :: stack' => Ok (mkParser (add_child node parent :: stack') (ps_root s))
            | [] => Ok (mkParser [] (Some node))
            end
      end
  | None =>
      node ← createXmlNode token;
      match ps_stack s, ps_root s with
      | [], Some _ => throw "Multiple XML root elements are forbidden."
      | stack, root => Ok (mkParser (node :: stack) root)
      end
  end.

Definition consume_token (token : list Ascii.ascii) (s : ParserState) : result ParserState :=
  if is_prefix [lt_char] token then consumeTagToken token s else appendTextToken token s.

Fixpoint consume_tokens (tokens : list (list Ascii.ascii)) (s : ParserState) : result ParserState :=
  match tokens with [] => Ok s | token :: tokens' => consume_token token s ≫= consume_tokens tokens' end.

Definition parseXml (xml : string) : result XmlNode :=
  st ← tokenizeXml xml;
  s ← consume_tokens st.2 (mkParser [] None);
  match ps_stack s with
  | unclosed :: _ => throw ("Unclosed XML tag '" +:+ xn_name unclosed +:+ "'.")
  | [] =>
      match ps_root s with
      | Some root => if bool_decide (xn_name root = "signal") then Ok root else throw "Root tag must be 'signal' and properly closed."
      | None => throw "Root tag must be 'signal' and properly closed."
      end
  end.

(** ** The grammar

    [renders n l]: the text [l] is an element that means the tree [n]. *)
Definition open_tag (name : string) (id : option Z) : list Ascii.ascii :=
  lt_char :: chars name ++ match id with Some i => id_open ++ to_digits i ++ [double_quote] | None => [] end ++ [gt_char].
Definition close_tag (name : string) : list Ascii.ascii := lt_char :: slash_char :: chars name ++ [gt_char].

Definition tag_ok (name : string) (id : option Z) : Prop := is_name (chars name) = true ∧ ∀ i, id = Some i → 0 < i.

Inductive renders : XmlNode → list Ascii.ascii → Prop :=
| renders_node name id text children body : tag_ok name id → content text children body →
    renders (mkNode name id text children) (open_tag name id ++ body ++ close_tag name)
with content : string → list XmlNode → list Ascii.ascii → Prop :=
| content_nil : content "" [] []
| content_text c text children body : c ≠ lt_char → c ≠ gt_char → content text children body →
    content (String.String c text) children (c :: body)
| content_child n s text children body : renders n s → content text children body → content text (n :: children) (s ++ body).

Scheme renders_mind := Minimality for renders Sort Prop
  with content_mind := Minimality for content Sort Prop.
Combined Scheme renders_content_ind from renders_mind, content_mind.

Lemma content_app t1 c1 b1 t2 c2 b2 : content t1 c1 b1 → content t2 c2 b2 → content (t1 +:+ t2) (c1 ++ c2) (b1 ++ b2).
Proof.
  intros H1 H2. induction H1 as [|c text children body Hl Hg _ IH|n s text children body Hr _ IH]; [done| |].
  - by apply (content_text c (text +:+ t2)).
  - cbn [app]. rewrite <-app_assoc. by constructor.
Qed.

(** ** Tags *)
Lemma name_char_not c d : name_char c = true → name_char d = false → c ≠ d.
Proof. congruence. Qed.

Lemma is_name_chars l : is_name l = true → Forall (λ c, name_char c = true) l ∧ l ≠ [].
Proof.
  destruct l as [|c l]; cbn; [done|]. intros [Hc Hl]%andb_true_iff. split; [|done]. constructor; [|by apply forallb_Forall].
  unfold name_char. by rewrite Hc.
Qed.

Lemma take_name_app name rest : Forall (λ c, name_char c = true) name → (∀ c l, rest = c :: l → name_char c = false) →
  take_name (name ++ rest) = (name, rest).
Proof.
  intros Hn Hr. induction Hn as [|c name Hc _ IH]; cbn.
  - destruct rest as [|c l]; cbn; [done|]. by rewrite (Hr c l).
  - by rewrite Hc, IH.
Qed.

Lemma take_name_inv l name rest : take_name l = (name, rest) → l = name ++ rest.
Proof.
  revert name rest. induction l as [|c l IH]; intros name rest; cbn; [by intros [= <- <-]|].
  destruct (name_char c); [|by intros [= <- <-]]. destruct (take_name l) as [n r]. intros [= <- <-]. cbn. by rewrite <-(IH n r).
Qed.

Lemma take_name_rest l name rest : take_name l = (name, rest) → ∀ c r, rest = c :: r → name_char c = false.
Proof.
  revert name rest. induction l as [|c l IH]; intros name rest; cbn; [by intros [= <- <-]|].
  destruct (name_char c) eqn:E; [|by intros [= <- <-] c' r [= <- <-]]. destruct (take_name l) as [n r]. intros [= <- <-]. by apply IH with n.
Qed.

Lemma closing_tag_close name : is_name (chars name) = true → closing_tag (close_tag name) = Some name.
Proof.
  intros Hn. unfold close_tag. cbn [closing_tag]. rewrite reverse_snoc, reverse_involutive, Hn, bool_decide_true by done. cbn. by rewrite of_chars_chars.
Qed.

Lemma closing_tag_Some token name : closing_tag token = Some name → token = close_tag name ∧ is_name (chars name) = true.
Proof.
  destruct token as [|a [|b rest]]; cbn [closing_tag]; try done. destruct (reverse rest) as [|z n] eqn:E; [done|].
  case_bool_decide as Hd; cbn [andb]; [|done]. destruct Hd as (-> & -> & ->). destruct (is_name (reverse n)) eqn:Hn; [|done]. intros [= <-].
  rewrite chars_of_chars. split; [|done]. unfold close_tag. rewrite chars_of_chars. do 2 f_equal.
  rewrite <-(reverse_involutive rest), E. by rewrite reverse_cons.
Qed.

Lemma is_id_spec l : is_id l = true → to_digits (digits l) = l ∧ 0 < digits l.
Proof.
  destruct l as [|c l]; cbn [is_id]; [done|]. rewrite !andb_true_iff, negb_true_iff, bool_decide_eq_false. intros [[Hc Hz] Hl].
  assert (Forall (λ c, is_digit c = true) (c :: l)) as Hf by (constructor; [done|by apply forallb_Forall]).
  assert (to_digits (digits (c :: l)) = c :: l) as E by (apply to_digits_of_digits; [done..|cbn; congruence]). split; [done|].
  pose proof (digits_nonneg _ Hf). destruct (Z.eq_dec (digits (c :: l)) 0) as [E0|]; [|lia]. rewrite E0 in E. injection E as <- _. by destruct Hz.
Qed.

Lemma is_id_to_digits i : 0 < i → is_id (to_digits i) = true.
Proof.
  intros Hi. destruct (to_digits_head i Hi) as (c & l & E & Hz & Hc). pose proof (to_digits_digits i ltac:(lia)) as Hd. rewrite E in Hd |- *.
  apply Forall_cons in Hd as [_ Hd]. cbn. rewrite Hc, bool_decide_false by done. cbn. by apply forallb_digits.
Qed.

Lemma opening_tag_open name id : tag_ok name id → opening_tag (open_tag name id) = Some (name, id).
Proof.
  intros [Hn Hid]. unfold open_tag. cbn [opening_tag]. pose proof (is_name_chars _ Hn) as [Hf _]. rewrite take_name_app; [|done|].
  - rewrite bool_decide_true by done. rewrite Hn. cbn [negb orb]. destruct id as [i|].
    + rewrite bool_decide_false by (unfold id_open; cbn; congruence).
      assert (is_prefix id_open ((id_open ++ to_digits i ++ [double_quote]) ++ [gt_char]) = true) as ->.
      { apply is_prefix_true. exists ((to_digits i ++ [double_quote]) ++ [gt_char]). by rewrite <-!app_assoc. }
      rewrite <-!app_assoc, drop_app_length, app_assoc, !reverse_snoc.
      rewrite bool_decide_true, reverse_involutive, is_id_to_digits by naive_solver. cbn [andb].
      rewrite digits_to_digits by (specialize (Hid i eq_refl); lia). by rewrite of_chars_chars.
    + cbn [app]. rewrite bool_decide_true by done. by rewrite of_chars_chars.
  - intros c l E. destruct id as [i|]; injection E as <- _; done.
Qed.

Lemma opening_tag_Some token name id : opening_tag token = Some (name, id) → token = open_tag name id ∧ tag_ok name id.
Proof.
  destruct token as [|a rest]; cbn [opening_tag]; [done|]. destruct (take_name rest) as [n at_] eqn:E. apply take_name_inv in E as ->.
  case_bool_decide as Ha; cbn [negb orb]; [|done]. destruct (is_name n) eqn:Hn; cbn [negb]; [|done]. subst a. case_bool_decide as Hg.
  { intros [= <- <-]. subst at_. unfold open_tag, tag_ok. rewrite chars_of_chars. naive_solver. }
  destruct (is_prefix id_open at_) eqn:Hp; [|done]. apply is_prefix_true in Hp as (k & ->). rewrite drop_app_length.
  destruct (reverse k) as [|z [|q i]] eqn:Ek; [done..|]. case_bool_decide as Hd; cbn [andb]; [|done]. destruct Hd as [-> ->].
  destruct (is_id (reverse i)) eqn:Hi; [|done]. intros [= <- <-]. apply is_id_spec in Hi as [Hi1 Hi2].
  unfold open_tag, tag_ok. rewrite chars_of_chars, Hi1. split; [|naive_solver]. f_equal. f_equal.
  rewrite <-(reverse_involutive k), Ek, !reverse_cons. by rewrite <-!app_assoc.
Qed.

Lemma closing_tag_open name id : tag_ok name id → closing_tag (open_tag name id) = None.
Proof.
  intros H. destruct (closing_tag (open_tag name id)) as [s|] eqn:E; [|done]. apply closing_tag_Some in E as [E _].
  destruct H as [Hn _]. unfold open_tag, close_tag in E. destruct (chars name) as [|c l]; [done|]. injection E as -> _. by vm_compute in Hn.
Qed.

(** ** Tokens *)
Definition tokens (l : list Ascii.ascii) : result (list (list Ascii.ascii)) := token_loop (length l) l.

Lemma index_of_Some c l n : index_of c l = Some n → ∃ k, l = take n l ++ c :: k ∧ drop n l = c :: k ∧ c ∉ take n l.
Proof.
  revert n. induction l as [|d l IH]; intros n; cbn; [done|]. case_bool_decide as Hd.
  - intros [= <-]. subst. exists l. split_and!; [done..|apply not_elem_of_nil].
  - destruct (index_of c l) as [m|] eqn:E; [|done]. intros [= <-]. destruct (IH m eq_refl) as (k & H1 & H2 & H3). exists k. cbn. rewrite <-H1.
    split_and!; [done..|]. rewrite elem_of_cons. naive_solver.
Qed.

Lemma index_of_app c b k : c ∉ b → index_of c (b ++ c :: k) = Some (length b).
Proof.
  induction b as [|d b IH]; intros Hb; cbn; [by rewrite bool_decide_true|]. rewrite elem_of_cons in Hb.
  rewrite bool_decide_false by naive_solver. rewrite IH by naive_solver. done.
Qed.

Lemma index_of_None c l : index_of c l = None ↔ c ∉ l.
Proof.
  induction l as [|d l IH]; cbn; [split; [intros _; apply not_elem_of_nil|done]|]. rewrite elem_of_cons. case_bool_decide; [naive_solver|].
  destruct (index_of c l); cbn; naive_solver.
Qed.

Lemma token_loop_fuel f l : (length l <= f)%nat → token_loop f l = tokens l.
Proof.
  enough (∀ f g l, (length l <= f)%nat → (length l <= g)%nat → token_loop f l = token_loop g l) as H by (intros; by apply H).
  clear f l. induction f as [|f IH]; intros g l Hf Hg; [by destruct l, g; cbn in *; try lia|].
  destruct l as [|c l]; [by destruct g|]. destruct g as [|g]; [cbn in Hg; lia|]. cbn [length] in Hf, Hg. cbn [token_loop]. case_bool_decide as Hc.
  - destruct (index_of gt_char l) as [n|]; [|done]. f_equal. apply IH; rewrite length_drop; lia.
  - destruct (index_of lt_char (c :: l)) as [n|] eqn:E; [|done]. f_equal. cbn [index_of] in E. rewrite bool_decide_false in E by naive_solver.
    destruct (index_of lt_char l); [|done]. injection E as <-. cbn [drop]. apply IH; rewrite length_drop; lia.
Qed.

Lemma tokens_cons c l : tokens (c :: l) =
  if bool_decide (c = lt_char) then
    match index_of gt_char l with
    | None => throw "Malformed XML token sequence."
    | Some n => cons (c :: take (S n) l) <$> tokens (drop (S n) l)
    end
  else
    match index_of lt_char l with
    | None => Ok [c :: l]
    | Some n => cons (c :: take n l) <$> tokens (drop n l)
    end.
Proof.
  unfold tokens at 1. cbn [length token_loop]. case_bool_decide as Hc.
  - destruct (index_of gt_char l) as [n|]; [|done]. rewrite token_loop_fuel; [done|]. rewrite length_drop. lia.
  - cbn [index_of]. rewrite bool_decide_false by naive_solver. destruct (index_of lt_char l) as [n|]; [|done].
    cbn [fmap option_fmap option_map take drop]. rewrite token_loop_fuel; [done|]. rewrite length_drop. lia.
Qed.

Lemma tokens_tag b k : gt_char ∉ b → tokens (lt_char :: (b ++ [gt_char]) ++ k) = cons (lt_char :: b ++ [gt_char]) <$> tokens k.
Proof.
  intros Hb. rewrite tokens_cons, bool_decide_true, <-app_assoc by done. cbn [app]. rewrite index_of_app by done.
  assert (S (length b) = length (b ++ [gt_char])) as -> by (rewrite length_app; cbn; lia).
  assert (b ++ gt_char :: k = (b ++ [gt_char]) ++ k) as -> by by rewrite <-app_assoc.
  by rewrite take_app_length, drop_app_length.
Qed.

Lemma tokens_text c l : c ≠ lt_char → tokens (c :: l) =
  match l with
  | [] => Ok [[c]]
  | d :: _ => ts ← tokens l; Ok (if bool_decide (d = lt_char) then [c] :: ts else match ts with t :: ts => (c :: t) :: ts | [] => [] end)
  end.
Proof.
  intros Hc. rewrite tokens_cons, bool_decide_false by done. destruct l as [|d l]; [done|]. cbn [index_of]. case_bool_decide as Hd.
  - subst d. rewrite bool_decide_true by done. cbn [take drop]. by destruct (tokens (lt_char :: l)).
  - rewrite bool_decide_false by congruence. rewrite (tokens_cons d l), bool_decide_false by congruence.
    destruct (index_of lt_char l) as [n|]; cbn [fmap option_fmap option_map take drop]; [|done]. by destruct (tokens (drop n l)).
Qed.

Lemma tokens_concat l ts : tokens l = Ok ts → concat ts = l.
Proof.
  remember (length l) as n eqn:Hn. revert l ts Hn. induction (lt_wf n) as [n _ IH]. intros [|c l] ts Hn H; [by injection H as <-|].
  rewrite tokens_cons in H. case_bool_decide as Hc.
  - destruct (index_of gt_char l) as [m|]; [|done]. apply fmap_Ok in H as (ts' & E & ->).
    cbn [concat app]. f_equal. rewrite (IH (length (drop (S m) l)) ltac:(cbn in Hn; rewrite length_drop; lia) _ _ eq_refl E), take_drop. done.
  - destruct (index_of lt_char l) as [m|]; [|injection H as <-; cbn; by rewrite app_nil_r]. apply fmap_Ok in H as (ts' & E & ->).
    cbn [concat app]. f_equal. rewrite (IH (length (drop m l)) ltac:(cbn in Hn; rewrite length_drop; lia) _ _ eq_refl E), take_drop. done.
Qed.

(** ** The parser accepts what the grammar renders *)
Definition run (l : list Ascii.ascii) (s : ParserState) : result ParserState := tokens l ≫= λ ts, consume_tokens ts s.

(** Closing an element: it becomes a child of the element around it, or the root. *)
Definition attach (n : XmlNode) (s : ParserState) : ParserState :=
  match ps_stack s with
  | parent :: stack => mkParser (add_child n parent :: stack) (ps_root s)
  | [] => mkParser [] (Some n)
  end.

Lemma run_tag b k s s' : gt_char ∉ b → consumeTagToken (lt_char :: b ++ [gt_char]) s = Ok s' →
  run (lt_char :: (b ++ [gt_char]) ++ k) s = run k s'.
Proof.
  intros Hb Hc. unfold run. rewrite tokens_tag by done. destruct (tokens k) as [ts|e]; [|done]. cbn [fmap result_fmap mbind result_bind consume_tokens].
  unfold consume_token. cbn [is_prefix andb]. rewrite bool_decide_true by done. cbn [andb]. by rewrite Hc.
Qed.

Lemma string_app_assoc (s t u : string) : (s +:+ t) +:+ u = s +:+ (t +:+ u).
Proof. induction s as [|c s IH]; [done|]. change (String.String c ((s +:+ t) +:+ u) = String.String c (s +:+ (t +:+ u))). by rewrite IH. Qed.

Lemma string_app_nil (s : string) : s +:+ "" = s.
Proof. induction s as [|c s IH]; [done|]. change (String.String c (s +:+ "") = String.String c s). by rewrite IH. Qed.

Lemma add_text_text t u n : add_text t (add_text u n) = add_text (u +:+ t) n.
Proof. destruct n. unfold add_text. cbn. by rewrite string_app_assoc. Qed.

Lemma run_text c l top stack root : c ≠ lt_char → c ≠ gt_char →
  run (c :: l) (mkParser (top :: stack) root) = run l (mkParser (add_text (of_chars [c]) top :: stack) root).
Proof.
  intros Hl Hg. unfold run. rewrite tokens_text by done.
  assert (∀ t, consume_token (c :: t) (mkParser (top :: stack) root) = appendTextToken t (mkParser (add_text (of_chars [c]) top :: stack) root)) as Hc.
  { intros t. unfold consume_token. cbn [is_prefix]. rewrite bool_decide_false by congruence. cbn [andb]. unfold appendTextToken. cbn [ps_stack ps_root existsb].
    rewrite !bool_decide_false by done. cbn [orb]. rewrite add_text_text. done. }
  assert (appendTextToken [] (mkParser (add_text (of_chars [c]) top :: stack) root) = Ok (mkParser (add_text (of_chars [c]) top :: stack) root)) as Hnil.
  { unfold appendTextToken. cbn. rewrite add_text_text. done. }
  destruct l as [|d l]; [cbn [mbind result_bind consume_tokens]; by rewrite Hc, Hnil|].
  destruct (tokens (d :: l)) as [ts|e] eqn:E; [|done]. cbn [mbind result_bind]. case_bool_decide as Hd.
  - cbn [consume_tokens]. by rewrite Hc, Hnil.
  - rewrite tokens_cons, bool_decide_false in E by done. assert (∃ t ts', ts = (d :: t) :: ts') as (t & ts' & ->).
    { destruct (index_of lt_char l); [apply fmap_Ok in E as (ts' & _ & ->); by do 2 eexists|injection E as <-; by do 2 eexists]. }
    cbn [consume_tokens]. rewrite Hc. unfold consume_token. cbn [is_prefix]. rewrite bool_decide_false by congruence. done.
Qed.

Lemma tag_gt name id : tag_ok name id → gt_char ∉ chars name ++ match id with Some i => id_open ++ to_digits i ++ [double_quote] | None => [] end.
Proof.
  intros [Hn Hid] [Hin|Hin]%elem_of_app.
  - apply is_name_chars in Hn as [Hn _]. rewrite Forall_forall in Hn. by apply Hn in Hin.
  - destruct id as [i|]; [|by apply elem_of_nil in Hin]. apply elem_of_app in Hin as [Hin|[Hin|Hin]%elem_of_app].
    + vm_compute in Hin. by repeat (apply elem_of_cons in Hin as [Hin|Hin]; [done|]); apply elem_of_nil in Hin.
    + revert Hin. apply digits_no_char; [done|]. apply to_digits_digits. specialize (Hid i eq_refl). lia.
    + by apply list_elem_of_singleton in Hin.
Qed.

Lemma run_open name id k stack root : tag_ok name id → (stack ≠ [] ∨ root = None) →
  run (open_tag name id ++ k) (mkParser stack root) = run k (mkParser (mkNode name id "" [] :: stack) root).
Proof.
  intros Ht Hs. pose proof (tag_gt _ _ Ht) as Hg. unfold open_tag. rewrite app_assoc. apply run_tag; [done|]. rewrite <-app_assoc. fold (open_tag name id).
  unfold consumeTagToken. rewrite closing_tag_open by done. unfold createXmlNode. rewrite opening_tag_open by done. cbn.
  destruct stack as [|top stack]; [|done]. by destruct Hs as [| ->].
Qed.

Lemma run_close name node k stack root : xn_name node = name → is_name (chars name) = true →
  run (close_tag name ++ k) (mkParser (node :: stack) root) = run k (attach node (mkParser stack root)).
Proof.
  intros Hn Hname. apply (run_tag (slash_char :: chars name)).
  - rewrite elem_of_cons. intros [|Hin]; [done|]. apply is_name_chars in Hname as [Hf _]. rewrite Forall_forall in Hf. by apply Hf in Hin.
  - unfold consumeTagToken. change (lt_char :: (slash_char :: chars name) ++ [gt_char]) with (close_tag name). rewrite closing_tag_close by done.
    cbn. rewrite bool_decide_true by done. by destruct stack.
Qed.

Definition fill (text : string) (children : list XmlNode) (n : XmlNode) : XmlNode :=
  mkNode (xn_name n) (xn_id n) (xn_text n +:+ text) (xn_children n ++ children).

Lemma run_renders : (∀ n l, renders n l → ∀ k stack root, (stack ≠ [] ∨ root = None) → run (l ++ k) (mkParser stack root) = run k (attach n (mkParser stack root)))
  ∧ ∀ text children l, content text children l → ∀ k top stack root, run (l ++ k) (mkParser (top :: stack) root) = run k (mkParser (fill text children top :: stack) root).
Proof.
  apply renders_content_ind.
  - intros name id text children body Ht _ IH k stack root Hs. rewrite <-!app_assoc, run_open, IH by done. apply run_close; [done|apply Ht].
  - intros k top stack root. cbn [app]. do 3 f_equal. destruct top. unfold fill. cbn. by rewrite string_app_nil, app_nil_r.
  - intros c text children body Hl Hg _ IH k top stack root. cbn [app]. rewrite run_text, IH by done. do 3 f_equal. unfold fill, add_text. cbn.
    by rewrite string_app_assoc.
  - intros n s text children body _ IHn _ IH k top stack root. rewrite <-app_assoc, IHn by (by left). unfold attach. cbn [ps_stack ps_root]. rewrite IH. do 3 f_equal.
    unfold fill, add_child. cbn. by rewrite <-app_assoc.
Qed.

Lemma run_root n l : renders n l → run l (mkParser [] None) = Ok (mkParser [] (Some n)).
Proof. intros H. rewrite <-(app_nil_r l). rewrite (proj1 run_renders n l H) by (by right). done. Qed.

(** ** What the parser accepts, the grammar renders *)
#[local] Opaque open_tag close_tag.

Definition blank (l : list Ascii.ascii) : Prop := Forall (λ c, is_space c = true) l.

Inductive stack_renders : list XmlNode → list Ascii.ascii → Prop :=
| stack_one name id text children body : tag_ok name id → content text children body →
    stack_renders [mkNode name id text children] (open_tag name id ++ body)
| stack_more name id text children body stack l : tag_ok name id → content text children body → stack_renders stack l →
    stack_renders (mkNode name id text children :: stack) (l ++ open_tag name id ++ body).

(** The state after the prefix [p] of the source. *)
Definition parsed (p : list Ascii.ascii) (s : ParserState) : Prop :=
  match ps_stack s, ps_root s with
  | [], None => blank p
  | [], Some root => ∃ w e w', p = w ++ e ++ w' ∧ blank w ∧ blank w' ∧ renders root e
  | stack, None => ∃ w q, p = w ++ q ∧ blank w ∧ stack_renders stack q
  | _, Some _ => False
  end.

Lemma trim_blank l : trim (of_chars l) = "" → blank l.
Proof.
  intros H. destruct (trim_spec (of_chars l)) as (k & k' & Hk & Hk' & E). rewrite chars_of_chars, H in E. subst l. by apply Forall_app.
Qed.

Lemma content_chars l : Forall (λ c, c ≠ lt_char ∧ c ≠ gt_char) l → content (of_chars l) [] l.
Proof. induction 1 as [|c l [Hl Hg] _ IH]; [constructor|]. by apply content_text. Qed.

Lemma stack_renders_extend n text children body stack l : stack_renders (n :: stack) l → content text children body →
  stack_renders (fill text children n :: stack) (l ++ body).
Proof.
  intros H Hc. inversion H as [name id t cs b Ht Hb|name id t cs b st q Ht Hb Hq]; subst; unfold fill; cbn.
  - rewrite <-app_assoc. constructor; [done|by apply content_app].
  - rewrite <-!app_assoc. constructor; [done|by apply content_app|done].
Qed.

Lemma appendText_parsed t p s s' : appendTextToken t s = Ok s' → parsed p s → parsed (p ++ t) s'.
Proof.
  unfold appendTextToken. destruct s as [[|top stack] root]; cbn [ps_stack ps_root].
  - case_bool_decide as Ht; cbn [negb]; [|done]. apply trim_blank in Ht. intros [= <-]. unfold parsed. cbn. destruct root as [root|].
    + intros (w & e & w' & -> & Hw & Hw' & He). exists w, e, (w' ++ t). rewrite <-!app_assoc. split_and!; try done. by apply Forall_app.
    + intros H. by apply Forall_app.
  - destruct (existsb _ t) eqn:E; [done|]. intros [= <-]. unfold parsed. cbn [ps_stack ps_root]. destruct root; [done|]. intros (w & q & -> & Hw & Hq).
    exists w, (q ++ t). rewrite app_assoc. split_and!; [done..|].
    replace (add_text (of_chars t) top) with (fill (of_chars t) [] top) by (unfold fill, add_text; by rewrite app_nil_r).
    apply stack_renders_extend; [done|]. apply content_chars, Forall_forall. intros c Hin.
    apply not_true_iff_false in E. rewrite existsb_exists in E. split; intros ->; apply E; eexists; (split; [by apply list_elem_of_In|done]).
Qed.

Lemma closed_renders n stack l : stack_renders (n :: stack) l → is_name (chars (xn_name n)) = true →
  match stack with
  | [] => renders n (l ++ close_tag (xn_name n))
  | parent :: rest => stack_renders (add_child n parent :: rest) (l ++ close_tag (xn_name n))
  end.
Proof.
  intros H Hn. inversion H as [name id t cs b Ht Hb|name id t cs b st q Ht Hb Hq]; subst; cbn [xn_name].
  - rewrite <-app_assoc. by constructor.
  - destruct stack as [|parent rest]; [by inversion Hq|]. rewrite <-!app_assoc.
    assert (add_child (mkNode name id t cs) parent = fill "" [mkNode name id t cs] parent) as ->.
    { unfold fill, add_child. by rewrite string_app_nil. }
    apply stack_renders_extend; [done|]. rewrite <-(app_nil_r (open_tag name id ++ b ++ close_tag name)). constructor; [by constructor|constructor].
Qed.

Lemma consumeTag_parsed t p s s' : consumeTagToken t s = Ok s' → parsed p s → parsed (p ++ t) s'.
Proof.
  unfold consumeTagToken. destruct (closing_tag t) as [name|] eqn:Et.
  - apply closing_tag_Some in Et as [-> Hn]. destruct s as [[|node stack] root]; cbn [ps_stack ps_root]; [done|].
    case_bool_decide as Hname; cbn [negb]; [|done]. intros Hs'. unfold parsed at 1. cbn [ps_stack ps_root]. destruct root; [done|]. intros (w & q & -> & Hw & Hq).
    subst name. pose proof (closed_renders _ _ _ Hq Hn) as Hc. rewrite <-app_assoc. destruct stack as [|parent rest]; injection Hs' as <-; unfold parsed; cbn [ps_stack ps_root].
    + exists w, (q ++ close_tag (xn_name node)), []. rewrite app_nil_r. split_and!; [done..|constructor|done].
    + exists w. eexists. split_and!; done.
  - intros H. apply bind_Ok in H as (node & Hn & H). unfold createXmlNode in Hn. destruct (opening_tag t) as [[name id]|] eqn:Eo; [|done]. injection Hn as <-.
    apply opening_tag_Some in Eo as [-> Ht]. destruct s as [stack root]. cbn [ps_stack ps_root] in H. unfold parsed. cbn [ps_stack ps_root].
    destruct stack as [|top stack].
    + destruct root; [done|]. injection H as <-. cbn. intros Hp. exists p, (open_tag name id). split_and!; [done..|]. rewrite <-(app_nil_r (open_tag name id)). constructor; [done|constructor].
    + injection H as <-. cbn. destruct root; [done|]. intros (w & q & -> & Hw & Hq). exists w, (q ++ open_tag name id). rewrite app_assoc. split_and!; [done..|].
      rewrite <-(app_nil_r (open_tag name id)). constructor; [done|constructor|done].
Qed.

Lemma consume_tokens_parsed ts p s s' : consume_tokens ts s = Ok s' → parsed p s → parsed (p ++ concat ts) s'.
Proof.
  revert p s. induction ts as [|t ts IH]; intros p s; cbn [consume_tokens concat]; [intros [= <-]; by rewrite app_nil_r|].
  intros H Hp. apply bind_Ok in H as (s1 & H1 & H). rewrite app_assoc. apply (IH _ s1); [done|]. unfold consume_token in H1.
  destruct (is_prefix [lt_char] t); [by eapply consumeTag_parsed|by eapply appendText_parsed].
Qed.

(** ** No forbidden markup in what the grammar renders *)
#[local] Transparent open_tag close_tag.

Definition forbidden_pair (a b : Ascii.ascii) : Prop := (a = lt_char ∧ (b = "!"%char ∨ b = "?"%char)) ∨ (a = slash_char ∧ b = gt_char).

Lemma contains_pair_cons a b c l : contains [a; b] (c :: l) = bool_decide (a = c ∧ head l = Some b) || contains [a; b] l.
Proof.
  cbn [contains is_prefix]. f_equal. destruct l as [|d l]; cbn [head]; repeat case_bool_decide; naive_solver.
Qed.

Lemma contains_pair_app a b l k : contains [a; b] (l ++ k) = contains [a; b] l || contains [a; b] k || bool_decide (last l = Some a ∧ head k = Some b).
Proof.
  induction l as [|c l IH]; cbn [app].
  - cbn. rewrite bool_decide_false by naive_solver. by rewrite orb_false_r.
  - rewrite !contains_pair_cons, IH. destruct l as [|d l]; cbn [app head].
    + cbn [contains is_prefix last]. rewrite (bool_decide_false (a = c ∧ None = Some b)), (bool_decide_false (last [] = Some a ∧ _)) by naive_solver.
      cbn [orb]. rewrite orb_false_r, orb_comm. f_equal. apply bool_decide_ext. naive_solver.
    + change (last (c :: d :: l)) with (last (d :: l)). by rewrite !orb_assoc.
Qed.

Lemma contains_pair_none a b l : a ∉ l → contains [a; b] l = false.
Proof. intros H. apply not_true_iff_false. rewrite contains_true. intros (k & k' & ->). apply H. rewrite elem_of_app. right. by left. Qed.

Lemma name_no_char a l : name_char a = false → Forall (λ c, name_char c = true) l → a ∉ l.
Proof. intros Ha Hf Hin. rewrite Forall_forall in Hf. apply Hf in Hin. congruence. Qed.

Section ForbiddenPair.
  Context (a b : Ascii.ascii) (Hab : forbidden_pair a b).

Lemma forbidden_not_name : name_char a = false ∧ name_char b = false.
  Proof. destruct Hab as [[-> [-> | ->]]|[-> ->]]; done. Qed.

Lemma open_tag_pair name id : tag_ok name id → contains [a; b] (open_tag name id) = false ∧ head (open_tag name id) = Some lt_char ∧ last (open_tag name id) = Some gt_char.
  Proof.
    intros Ht. unfold open_tag. split_and!; [|done|by rewrite app_assoc, app_comm_cons, last_snoc].
    destruct forbidden_not_name as [Ha Hb]. pose proof (is_name_chars _ (proj1 Ht)) as [Hn Hne].
    rewrite contains_pair_cons, contains_pair_none, orb_false_r.
    - apply bool_decide_eq_false. destruct (chars name) as [|c l]; [done|]. cbn. apply Forall_cons in Hn as [Hc _]. intros [_ [= ->]]. congruence.
    - rewrite app_assoc, elem_of_app, elem_of_app. intros [[Hin|Hin]|Hin].
      + exact (name_no_char _ _ Ha Hn Hin).
      + destruct id as [i|]; [|by apply elem_of_nil in Hin]. rewrite !elem_of_app in Hin. destruct Hin as [Hin|[Hin|Hin]].
        * destruct Hab as [[-> _]|[-> _]]; vm_compute in Hin; by repeat (apply elem_of_cons in Hin as [Hin|Hin]; [done|]); apply elem_of_nil in Hin.
        * revert Hin. apply digits_no_char; [by destruct Hab as [[-> _]|[-> _]]|]. apply to_digits_digits. pose proof (proj2 Ht i eq_refl). lia.
        * apply list_elem_of_singleton in Hin as ->. by destruct Hab as [[? _]|[? _]].
      + apply list_elem_of_singleton in Hin as ->. by destruct Hab as [[? _]|[? _]].
  Qed.

Lemma close_tag_pair name : is_name (chars name) = true → contains [a; b] (close_tag name) = false ∧ head (close_tag name) = Some lt_char ∧ last (close_tag name) = Some gt_char.
  Proof.
    intros Hname. unfold close_tag. split_and!; [|done|by rewrite !app_comm_cons, last_snoc].
    destruct forbidden_not_name as [Ha Hb]. pose proof (is_name_chars _ Hname) as [Hn Hne]. rewrite !contains_pair_cons, contains_pair_none, orb_false_r.
    - apply orb_false_iff. split; apply bool_decide_eq_false; cbn [head].
      + intros [-> [= <-]]. by destruct Hab as [[_ [? | ?]]|[? _]].
      + destruct (chars name) as [|c l]; [done|]. cbn. apply Forall_cons in Hn as [Hc _]. intros [_ [= ->]]. congruence.
    - rewrite elem_of_app, list_elem_of_singleton. intros [Hin|Hin]; [exact (name_no_char _ _ Ha Hn Hin)|]. subst a. by destruct Hab as [[? _]|[? _]].
  Qed.

Lemma renders_pair : (∀ n l, renders n l → contains [a; b] l = false ∧ head l = Some lt_char ∧ last l = Some gt_char)
    ∧ ∀ text children l, content text children l → contains [a; b] l = false ∧ head l ≠ Some gt_char.
  Proof.
    assert (b ≠ lt_char) as Hbl by (intros ->; by destruct Hab as [[_ [? | ?]]|[_ ?]]).
    assert (a ≠ gt_char) as Hag by (intros ->; by destruct Hab as [[? _]|[? _]]).
    apply renders_content_ind.
    - intros name id text children body Ht _ [IH Hh]. destruct (open_tag_pair name id Ht) as (H1 & H2 & H3), (close_tag_pair name (proj1 Ht)) as (H4 & H5 & H6). split_and!.
      + rewrite !contains_pair_app, H1, IH, H4, H3, H5. cbn [orb]. apply orb_false_iff. split; apply bool_decide_eq_false; naive_solver.
      + unfold open_tag. done.
      + rewrite app_assoc, last_app, H6. done.
    - done.
    - intros c text children body Hl Hg _ [IH Hh]. split; [|cbn; congruence]. rewrite contains_pair_cons, IH, orb_false_r. apply bool_decide_eq_false.
      intros [-> Hb]. destruct Hab as [[? _]|[_ ->]]; done.
    - intros n s text children body _ (H1 & H2 & H3) _ [IH Hh]. split.
      + rewrite contains_pair_app, H1, IH, H3. cbn [orb]. apply bool_decide_eq_false. naive_solver.
      + destruct s; [done|]. by injection H2 as ->.
  Qed.
End ForbiddenPair.

(** ** The parser is the grammar *)
Lemma signal_open id k r : open_tag "signal" id ++ k = chars "<signal>" ++ r → id = None.
Proof. unfold open_tag. destruct id as [i|]; [|done]. intros H. exfalso. by injection H. Qed.

(** C33: the parser accepts exactly the grammar.  [parseXml] answers a tree if and
    only if the text, at most 64 KiB long, is, apart from white space around it,
    one [signal] element without an id whose tags are well formed and properly
    nested and whose text has no angle bracket, and the answer is the tree the
    text means: its tags in order, their ids, and the text between them.  In
    particular no declaration, comment, entity, self-closing tag or second root
    is ever accepted, and a text has one meaning. *)
Theorem xml_parser_exact xml n : parseXml xml = Ok n ↔
  xml ≠ "" ∧ (length (chars xml) <= MAX_XML)%nat ∧ xn_name n = "signal" ∧ xn_id n = None ∧ renders n (chars (trim xml)).
Proof.
  unfold parseXml, tokenizeXml. split.
  - intros H. apply bind_Ok in H as ([source ts] & Ht & H). case_bool_decide as Hne; cbn [orb] in Ht; [done|].
    destruct (Nat.ltb_spec MAX_XML (length (chars xml))) as [|Hlen]; [done|]. destruct (is_prefix (chars "<signal>") (chars (trim xml))) eqn:Hp; cbn [negb orb] in Ht; [|done].
    destruct (ends_with (chars "</signal>") (chars (trim xml))) eqn:Hs; cbn [negb orb] in Ht; [|done]. destruct (existsb _ _); [done|].
    apply bind_Ok in Ht as (ts' & Ht & Hts). case_bool_decide; [|done]. cbn [negb] in Hts. injection Hts as <- ->. cbn [snd] in H.
    apply bind_Ok in H as ([stack root] & Hc & H). cbn [ps_stack ps_root] in H. destruct stack as [|]; [|done]. destruct root as [root|]; [|done].
    case_bool_decide as Hname; [|done]. injection H as ->. apply (consume_tokens_parsed _ []) in Hc; [|constructor].
    rewrite (tokens_concat (chars (trim xml))) in Hc by done. cbn [app] in Hc. destruct Hc as (w & e & w' & E & Hw & Hw' & He).
    apply is_prefix_true in Hp as (r & Hr). unfold ends_with in Hs. apply is_prefix_true in Hs as (r' & Hr').
    assert (w = []) as ->. { destruct w as [|c w]; [done|]. apply Forall_cons in Hw as [Hw _]. rewrite Hr in E. injection E as <- _. done. }
    assert (w' = []) as ->.
    { destruct w' as [|c w'] using rev_ind; [done|]. apply Forall_app in Hw' as [_ Hw']. apply Forall_cons in Hw' as [Hw' _].
      rewrite E, !app_assoc in Hr'. cbn [app] in Hr'. rewrite reverse_snoc in Hr'. injection Hr' as -> _. done. }
    cbn [app] in E. rewrite app_nil_r in E. rewrite E. split_and!; try done.
    destruct He as [name id text children body]. cbn in Hname |- *. subst name. rewrite E in Hr. by apply signal_open in Hr.
  - intros (Hne & Hlen & Hname & Hid & Hr). rewrite bool_decide_false by done. rewrite (proj2 (Nat.ltb_ge _ _) Hlen). cbn [orb].
    assert (∃ body, chars (trim xml) = chars "<signal>" ++ body ++ chars "</signal>") as (body & E).
    { destruct Hr as [name id text children body Ht _]. cbn in Hname, Hid. subst. by exists body. }
    assert (is_prefix (chars "<signal>") (chars (trim xml)) = true) as -> by (apply is_prefix_true; rewrite E; by eexists).
    assert (ends_with (chars "</signal>") (chars (trim xml)) = true) as ->.
    { unfold ends_with. apply is_prefix_true. rewrite E, app_assoc, reverse_app. by eexists. }
    cbn [negb orb existsb].
    assert (∀ a b, forbidden_pair a b → contains [a; b] (chars (trim xml)) = false) as Hp by (intros a b Hab; by apply (renders_pair a b Hab) in Hr as [? _]).
    change (chars "<!") with [lt_char; "!"%char]. change (chars "<?") with [lt_char; "?"%char]. change (chars "/>") with [slash_char; gt_char].
    rewrite !Hp by (unfold forbidden_pair; naive_solver). cbn [orb]. pose proof (run_root _ _ Hr) as Hrun. unfold run in Hrun. fold (tokens (chars (trim xml))).
    apply bind_Ok in Hrun as (ts & Hts & Hc). rewrite Hts. cbn [mbind result_bind]. rewrite (tokens_concat _ _ Hts), of_chars_chars, bool_decide_true by done.
    cbn [negb mbind result_bind snd]. rewrite Hc. cbn. by rewrite bool_decide_true.
Qed.
