(* ===== verification/SignalContract.v ===== *)
(** SignalContract: [src/signal_contract.ts], the declared structure and policy
    of the signals a channel may send.

    The input is an untyped [jsval]; [definitionJson] is the value a validated
    definition is when it is passed on, with its properties in the order of the
    validator.  Whether a pattern is a regular expression is the engine's answer,
    the parameter [compiles]. *)

From S2P Require Import Prelude Text Decimal Rational Types Json.
From Stdlib Require Import Ascii.
From Stdlib Require String.
Local Open Scope Z_scope.

(** ** Data *)
Inductive SignalContractFieldType := field_text | field_decimal | field_integer | field_boolean.
Inductive SignalContractEntryMode := optional_range | required_range | typed.
Inductive SignalContractTargetShape := shape_scalar | shape_range.

#[export] Instance SignalContractFieldType_eq_dec : EqDecision SignalContractFieldType.
Proof. solve_decision. Defined.
#[export] Instance SignalContractEntryMode_eq_dec : EqDecision SignalContractEntryMode.
Proof. solve_decision. Defined.
#[export] Instance SignalContractTargetShape_eq_dec : EqDecision SignalContractTargetShape.
Proof. solve_decision. Defined.

Record SignalContractAdditionalField := mkField {
  cf_path : string;
  cf_type : SignalContractFieldType;
  cf_required : bool;
  cf_allowedValues : list string;
  cf_minimum : option string;
  cf_maximum : option string;
  cf_maximumLength : option Z;
  cf_pattern : option string }.

Record ContractEntry := mkContractEntry {
  ce_mode : SignalContractEntryMode;
  ce_typePath : option string;
  ce_marketValues : list string;
  ce_rangeValues : list string;
  ce_minimumPath : string;
  ce_maximumPath : string }.

Record ContractTargets := mkContractTargets {
  ct_containerPath : string;
  ct_itemTag : string;
  ct_shape : SignalContractTargetShape;
  ct_minimumPath : string;
  ct_maximumPath : string;
  ct_minimumItems : Z;
  ct_maximumItems : Z;
  ct_sequentialIds : bool }.

Record ContractGeometry := mkGeometry {
  cg_stopOnLossSide : bool; cg_targetsOnProfitSide : bool; cg_orderedTargets : bool; cg_orderedRanges : bool }.

Record ContractGrounding := mkGrounding {
  gr_action : bool; gr_pair : bool; gr_entry : bool; gr_targets : bool;
  gr_stopLoss : bool; gr_leverage : bool; gr_riskPercent : bool; gr_averagingPrice : bool }.

(** [schemaVersion] and [rootTag] have literal types and carry no information. *)
Record SignalContractDefinition := mkContract {
  cd_actionPath : string;
  cd_pairPath : string;
  cd_entry : ContractEntry;
  cd_targets : ContractTargets;
  cd_stopLossPath : string;
  cd_leveragePath : option string;
  cd_riskPercentPath : option string;
  cd_averagingPricePath : option string;
  cd_additionalFields : list SignalContractAdditionalField;
  cd_geometry : ContractGeometry;
  cd_grounding : ContractGrounding }.

(** ** Values *)
Abbreviation Fields := (list (string * jsval)).

(** One segment of [PATH_PATTERN], [[a-z][a-z0-9_]*]. *)
Definition path_segment (l : list Ascii.ascii) : bool :=
  match l with c :: l' => is_lower c && forallb (λ c, is_lower c || is_digit c || bool_decide (c = "_"%char)) l' | [] => false end.

Definition PATH_PATTERN (s : string) : bool :=
  let segments := split_chars dot_char (chars s) in
  forallb path_segment segments && (length segments <=? 4)%nat.

Definition FIELD_TYPES : list (string * SignalContractFieldType) :=
  [("text", field_text); ("decimal", field_decimal); ("integer", field_integer); ("boolean", field_boolean)].
Definition ENTRY_MODES : list (string * SignalContractEntryMode) :=
  [("optional_range", optional_range); ("required_range", required_range); ("typed", typed)].
Definition TARGET_SHAPES : list (string * SignalContractTargetShape) := [("scalar", shape_scalar); ("range", shape_range)].

(** [SET.has(value)], with the literal it is. *)
Definition has {A} (choices : list (string * A)) (value : jsval) : option A :=
  match value with JString s => (snd ∘ snd) <$> list_find (λ e, e.1 = s) choices | _ => None end.

Definition record (value : jsval) (label : string) : result Fields :=
  match value with JObject fields => Ok fields | _ => throw (label +:+ " must be an object.") end.

Definition exactKeys (value : Fields) (label : string) (keys : list string) : result unit :=
  let extras := filter (λ key, key ∉ keys) (map fst value) in
  if bool_decide (extras = []) then Ok tt
  else throw (label +:+ " contains unsupported fields: " +:+ join ", " extras +:+ ".").

(** [/[\r\n\0]/] *)
Definition control_char (c : Ascii.ascii) : bool := existsb (Nat.eqb (Ascii.nat_of_ascii c)) [13; 10; 0]%nat.

Definition text (value : jsval) (label : string) (maximum : nat) : result string :=
  let invalid : result string := throw (label +:+ " is invalid.") in
  match value with
  | JString s =>
      if bool_decide (trim s = "") || (maximum <? length (chars (trim s)))%nat || existsb control_char (chars s) then invalid
      else Ok (trim s)
  | _ => invalid
  end.

Definition pathValue (value : jsval) (label : string) : result string :=
  normalized ← text value label 96;
  if negb (PATH_PATTERN normalized) then throw (label +:+ " must contain one to four lowercase XML path segments.") else Ok normalized.

(** [value === undefined || value === null || value === ''] *)
Definition is_missing (value : jsval) : bool :=
  match value with JUndefined | JNull => true | JString s => bool_decide (s = "") | _ => false end.

Definition optionalPath (value : jsval) (label : string) : result (option string) :=
  if is_missing value then Ok None else Some <$> pathValue value label.

Definition integer (value : jsval) (label : string) (minimum maximum : Z) : result Z :=
  let invalid : result Z := throw (label +:+ " must be an integer between " +:+ show minimum +:+ " and " +:+ show maximum +:+ ".") in
  match value with
  | JInt z => if negb (isSafeInteger z) || (z <? minimum) || (z >? maximum) then invalid else Ok z
  | _ => invalid
  end.

Definition boolean (value : jsval) (label : string) : result bool :=
  match value with JBool b => Ok b | _ => throw (label +:+ " must be boolean.") end.

Definition strings (value : jsval) (label : string) (maximum : nat) : result (list string) :=
  match string_array value with
  | Some l =>
      if (maximum <? length l)%nat then throw (label +:+ " must be an array of at most " +:+ show (Z.of_nat maximum) +:+ " strings.")
      else
        normalized ← mapM (λ item, text (JString item) label 80) l;
        if negb (distinct normalized) then throw (label +:+ " must not contain duplicates.") else Ok normalized
  | None => throw (label +:+ " must be an array of at most " +:+ show (Z.of_nat maximum) +:+ " strings.")
  end.

(** [value ?? []] *)
Definition or_empty (value : jsval) : jsval := match value with JUndefined | JNull => JArray [] | v => v end.

(** ** Patterns *)
Definition BACKSLASH : Ascii.ascii := backslash.

Fixpoint numeric_backreference (followsBackslash : bool) (pattern : list Ascii.ascii) : bool :=
  match pattern with
  | [] => false
  | character :: rest =>
      (followsBackslash && bool_decide (character ∈ chars "123456789")) || numeric_backreference (bool_decide (character = BACKSLASH)) rest
  end.
Definition hasNumericBackreference (pattern : string) : bool := numeric_backreference false (chars pattern).

Definition UNSUPPORTED_LOOKAROUNDS : list string := ["(?="; "(?!"; "(?<="; "(?<!"].

(** [\s*[*+{]] *)
Definition then_quantifier (l : list Ascii.ascii) : bool :=
  match drop_space l with c :: _ => bool_decide (c ∈ ["*"; "+"; "{"]%char) | [] => false end.

(** [/[*+]\s*[*+{]/] *)
Fixpoint double_quantifier (l : list Ascii.ascii) : bool :=
  match l with [] => false | c :: l' => (bool_decide (c ∈ ["*"; "+"]%char) && then_quantifier l') || double_quantifier l' end.

Fixpoint drop_digits (l : list Ascii.ascii) : list Ascii.ascii :=
  match l with c :: l' => if is_digit c then drop_digits l' else l | [] => [] end.

(** What follows a brace that opens a counted quantifier: digits, at least one,
    a comma and digits or neither, the closing brace, and a quantifier. *)
Definition counted_then_quantifier (l : list Ascii.ascii) : bool :=
  match l with
  | d :: l' =>
      is_digit d &&
      match drop_digits l' with
      | c :: rest =>
          let rest := if bool_decide (c = ","%char) then drop_digits rest else c :: rest in
          match rest with z :: rest' => bool_decide (z = "}"%char) && then_quantifier rest' | [] => false end
      | [] => false
      end
  | [] => false
  end.

(** A counted quantifier before another one, the last of the patterns. *)
Fixpoint counted_quantifier (l : list Ascii.ascii) : bool :=
  match l with [] => false | c :: l' => (bool_decide (c = "{"%char) && counted_then_quantifier l') || counted_quantifier l' end.

Definition hasUnsupportedPatternConstruct (pattern : string) : bool :=
  hasNumericBackreference pattern
  || contains (BACKSLASH :: chars "k<") (chars pattern)
  || existsb (λ token, contains (chars token) (chars pattern)) UNSUPPORTED_LOOKAROUNDS
  || double_quantifier (chars pattern)
  || counted_quantifier (chars pattern).

Definition SAFE_PATTERN_LIMIT : nat := 160.

Section Contract.
Context (compiles : string → bool).

Definition safePattern (value : jsval) (label : string) : result (option string) :=
  if is_missing value then Ok None
  else
    pattern ← text value label SAFE_PATTERN_LIMIT;
    if hasUnsupportedPatternConstruct pattern then throw (label +:+ " contains unsupported high-risk regular-expression constructs.")
    else if negb (compiles pattern) then throw (label +:+ " is not a valid regular expression.")
    else Ok (Some pattern).

(** ** Sections of a definition *)
Definition additionalFieldBound (value : jsval) (label : string) : result (option string) :=
  match value with
  | JUndefined => Ok None
  | JString s => if bool_decide (s = "") then Ok None else Some <$> decimal s false None
  | JInt z => Some <$> decimal (show z) false None
  | JFloat printed => Some <$> decimal printed false None
  | JNaN => Some <$> decimal "NaN" false None
  | _ => throw (label +:+ " must be a scalar decimal.")
  end.

Definition additionalField (index : nat) (value : jsval) : result SignalContractAdditionalField :=
  let label := "additionalFields[" +:+ show (Z.of_nat index) +:+ "]" in
  field ← record value label;
  _ ← exactKeys field label ["path"; "type"; "required"; "allowedValues"; "minimum"; "maximum"; "maximumLength"; "pattern"];
  type ← or_throw (has FIELD_TYPES (assoc "type" field)) (label +:+ ".type is invalid.");
  minimum ← additionalFieldBound (assoc "minimum" field) (label +:+ ".minimum");
  maximum ← additionalFieldBound (assoc "maximum" field) (label +:+ ".maximum");
  order ← match minimum, maximum with Some a, Some b => compareDecimal a b | _, _ => Ok 0 end;
  if order >? 0 then throw (label +:+ " minimum must not exceed maximum.")
  else
    maximumLength ← match assoc "maximumLength" field with JUndefined => Ok None | v => Some <$> integer v (label +:+ ".maximumLength") 1 2000 end;
    allowedValues ← strings (or_empty (assoc "allowedValues" field)) (label +:+ ".allowedValues") 50;
    path ← pathValue (assoc "path" field) (label +:+ ".path");
    required ← boolean (assoc "required" field) (label +:+ ".required");
    pattern ← safePattern (assoc "pattern" field) (label +:+ ".pattern");
    Ok (mkField path type required allowedValues minimum maximum maximumLength pattern).

Definition validateEntry (value : jsval) : result ContractEntry :=
  entry ← record value "entry";
  _ ← exactKeys entry "entry" ["mode"; "typePath"; "marketValues"; "rangeValues"; "minimumPath"; "maximumPath"];
  mode ← or_throw (has ENTRY_MODES (assoc "mode" entry)) "entry.mode is invalid.";
  typePath ← optionalPath (assoc "typePath" entry) "entry.typePath";
  marketValues ← strings (or_empty (assoc "marketValues" entry)) "entry.marketValues" 20;
  rangeValues ← strings (or_empty (assoc "rangeValues" entry)) "entry.rangeValues" 20;
  if bool_decide (mode = typed) && (bool_decide (typePath = None) || bool_decide (marketValues = []) || bool_decide (rangeValues = []))
  then throw "Typed entries require a type path plus market and range values."
  else if negb (bool_decide (mode = typed)) && (negb (bool_decide (typePath = None)) || negb (bool_decide (marketValues = [])) || negb (bool_decide (rangeValues = [])))
  then throw "Only typed entries may define entry type values."
  else
    minimumPath ← pathValue (assoc "minimumPath" entry) "entry.minimumPath";
    maximumPath ← pathValue (assoc "maximumPath" entry) "entry.maximumPath";
    Ok (mkContractEntry mode typePath marketValues rangeValues minimumPath maximumPath).

Definition validateTargets (value : jsval) : result ContractTargets :=
  targets ← record value "targets";
  _ ← exactKeys targets "targets" ["containerPath"; "itemTag"; "shape"; "minimumPath"; "maximumPath"; "minimumItems"; "maximumItems"; "sequentialIds"];
  shape ← or_throw (has TARGET_SHAPES (assoc "shape" targets)) "targets.shape is invalid.";
  minimumItems ← integer (assoc "minimumItems" targets) "targets.minimumItems" 1 20;
  maximumItems ← integer (assoc "maximumItems" targets) "targets.maximumItems" minimumItems 20;
  containerPath ← pathValue (assoc "containerPath" targets) "targets.containerPath";
  itemTag ← pathValue (assoc "itemTag" targets) "targets.itemTag";
  minimumPath ← pathValue (assoc "minimumPath" targets) "targets.minimumPath";
  maximumPath ← pathValue (assoc "maximumPath" targets) "targets.maximumPath";
  sequentialIds ← boolean (assoc "sequentialIds" targets) "targets.sequentialIds";
  Ok (mkContractTargets containerPath itemTag shape minimumPath maximumPath minimumItems maximumItems sequentialIds).

(** The booleans of a record with exactly these keys, in their order. *)
Definition booleanRecord (value : jsval) (label : string) (keys : list string) : result (list bool) :=
  input ← record value label;
  _ ← exactKeys input label keys;
  mapM (λ key, boolean (assoc key input) (label +:+ "." +:+ key)) keys.

Definition geometry_keys : list string := ["stopOnLossSide"; "targetsOnProfitSide"; "orderedTargets"; "orderedRanges"].
Definition grounding_keys : list string := ["action"; "pair"; "entry"; "targets"; "stopLoss"; "leverage"; "riskPercent"; "averagingPrice"].

Definition geometry_of (l : list bool) : ContractGeometry :=
  match l with [a; b; c; d] => mkGeometry a b c d | _ => mkGeometry false false false false end.
Definition grounding_of (l : list bool) : ContractGrounding :=
  match l with [a; b; c; d; e; f; g; h] => mkGrounding a b c d e f g h | _ => mkGrounding false false false false false false false false end.

(** ** The definition *)
Definition contract_paths (definition : SignalContractDefinition) : list string :=
  filter (λ path, path ≠ "")
    ([cd_actionPath definition; cd_pairPath definition] ++ option_list (ce_typePath (cd_entry definition))
     ++ [ce_minimumPath (cd_entry definition); ce_maximumPath (cd_entry definition); cd_stopLossPath definition]
     ++ option_list (cd_leveragePath definition) ++ option_list (cd_riskPercentPath definition) ++ option_list (cd_averagingPricePath definition)
     ++ map cf_path (cd_additionalFields definition)).

Definition uniqueContractPaths (definition : SignalContractDefinition) : result unit :=
  if negb (distinct (contract_paths definition)) then throw "Contract field paths must be unique." else Ok tt.

Fixpoint additionalFields_from (index : nat) (items : list jsval) : result (list SignalContractAdditionalField) :=
  match items with
  | [] => Ok []
  | item :: rest => field ← additionalField index item; cons field <$> additionalFields_from (S index) rest
  end.

Definition definition_keys : list string :=
  ["schemaVersion"; "rootTag"; "actionPath"; "pairPath"; "entry"; "targets"; "stopLossPath"; "leveragePath"; "riskPercentPath"; "averagingPricePath";
   "additionalFields"; "geometry"; "grounding"].

Definition validateSignalContractDefinition (input : jsval) : result SignalContractDefinition :=
  value ← record input "Signal contract definition";
  _ ← exactKeys value "Signal contract definition" definition_keys;
  _ ← match assoc "schemaVersion" value with JInt 1 => Ok tt | _ => throw "Unsupported signal contract schema version." end;
  _ ← match assoc "rootTag" value with
      | JString s => if bool_decide (s = "signal") then Ok tt else throw "Signal contract rootTag must be 'signal'."
      | _ => throw "Signal contract rootTag must be 'signal'."
      end;
  items ← match assoc "additionalFields" value with
      | JArray items => if (30 <? length items)%nat then throw "Signal contract may contain at most 30 additional fields." else Ok items
      | _ => throw "Signal contract may contain at most 30 additional fields."
      end;
  actionPath ← pathValue (assoc "actionPath" value) "actionPath";
  pairPath ← pathValue (assoc "pairPath" value) "pairPath";
  entry ← validateEntry (assoc "entry" value);
  targets ← validateTargets (assoc "targets" value);
  stopLossPath ← pathValue (assoc "stopLossPath" value) "stopLossPath";
  leveragePath ← optionalPath (assoc "leveragePath" value) "leveragePath";
  riskPercentPath ← optionalPath (assoc "riskPercentPath" value) "riskPercentPath";
  averagingPricePath ← optionalPath (assoc "averagingPricePath" value) "averagingPricePath";
  additionalFields ← additionalFields_from 0 items;
  geometry ← booleanRecord (assoc "geometry" value) "geometry" geometry_keys;
  grounding ← booleanRecord (assoc "grounding" value) "grounding" grounding_keys;
  let definition := mkContract actionPath pairPath entry targets stopLossPath leveragePath riskPercentPath averagingPricePath additionalFields
                      (geometry_of geometry) (grounding_of grounding) in
  _ ← uniqueContractPaths definition;
  Ok definition.

(** ** Definitions as values *)
Definition opt_js (o : option string) : jsval := match o with Some s => JString s | None => JUndefined end.
Definition strings_js (l : list string) : jsval := JArray (map JString l).

(** The literal a member of an enumeration stands for. *)
Definition literal {A} `{EqDecision A} (choices : list (string * A)) (a : A) : jsval :=
  match list_find (λ e, e.2 = a) choices with Some (_, (s, _)) => JString s | None => JUndefined end.

Definition fieldJson (f : SignalContractAdditionalField) : jsval :=
  JObject [("path", JString (cf_path f)); ("type", literal FIELD_TYPES (cf_type f)); ("required", JBool (cf_required f));
           ("allowedValues", strings_js (cf_allowedValues f)); ("minimum", opt_js (cf_minimum f)); ("maximum", opt_js (cf_maximum f));
           ("maximumLength", match cf_maximumLength f with Some n => JInt n | None => JUndefined end); ("pattern", opt_js (cf_pattern f))].

Definition entryJson (e : ContractEntry) : jsval :=
  JObject [("mode", literal ENTRY_MODES (ce_mode e)); ("typePath", opt_js (ce_typePath e)); ("marketValues", strings_js (ce_marketValues e));
           ("rangeValues", strings_js (ce_rangeValues e)); ("minimumPath", JString (ce_minimumPath e)); ("maximumPath", JString (ce_maximumPath e))].

Definition targetsJson (t : ContractTargets) : jsval :=
  JObject [("containerPath", JString (ct_containerPath t)); ("itemTag", JString (ct_itemTag t)); ("shape", literal TARGET_SHAPES (ct_shape t));
           ("minimumPath", JString (ct_minimumPath t)); ("maximumPath", JString (ct_maximumPath t));
           ("minimumItems", JInt (ct_minimumItems t)); ("maximumItems", JInt (ct_maximumItems t)); ("sequentialIds", JBool (ct_sequentialIds t))].

Definition geometryJson (g : ContractGeometry) : jsval :=
  JObject [("stopOnLossSide", JBool (cg_stopOnLossSide g)); ("targetsOnProfitSide", JBool (cg_targetsOnProfitSide g));
           ("orderedTargets", JBool (cg_orderedTargets g)); ("orderedRanges", JBool (cg_orderedRanges g))].

Definition groundingJson (g : ContractGrounding) : jsval :=
  JObject [("action", JBool (gr_action g)); ("pair", JBool (gr_pair g)); ("entry", JBool (gr_entry g)); ("targets", JBool (gr_targets g));
           ("stopLoss", JBool (gr_stopLoss g)); ("leverage", JBool (gr_leverage g)); ("riskPercent", JBool (gr_riskPercent g));
           ("averagingPrice", JBool (gr_averagingPrice g))].

Definition definitionJson (d : SignalContractDefinition) : jsval :=
  JObject [("schemaVersion", JInt 1); ("rootTag", JString "signal"); ("actionPath", JString (cd_actionPath d)); ("pairPath", JString (cd_pairPath d));
           ("entry", entryJson (cd_entry d)); ("targets", targetsJson (cd_targets d)); ("stopLossPath", JString (cd_stopLossPath d));
           ("leveragePath", opt_js (cd_leveragePath d)); ("riskPercentPath", opt_js (cd_riskPercentPath d));
           ("averagingPricePath", opt_js (cd_averagingPricePath d)); ("additionalFields", JArray (map fieldJson (cd_additionalFields d)));
           ("geometry", geometryJson (cd_geometry d)); ("grounding", groundingJson (cd_grounding d))].

(** ** Composition of a schema with a contract *)
Definition contract_fields (fields : list SignalContractAdditionalField) : gmap string SignalContractAdditionalField :=
  fold_left (λ m field, <[cf_path field := field]> m) fields ∅.

Definition with_policy (policies : gmap string SignalContractAdditionalField) (field : SignalContractAdditionalField) : SignalContractAdditionalField :=
  match policies !! cf_path field with
  | Some policy =>
      mkField (cf_path field) (cf_type field) (cf_required policy) (cf_allowedValues policy) (cf_minimum policy) (cf_maximum policy)
        (cf_maximumLength policy) (cf_pattern policy)
  | None => field
  end.

Definition with_items (targets policy : ContractTargets) : ContractTargets :=
  mkContractTargets (ct_containerPath targets) (ct_itemTag targets) (ct_shape targets) (ct_minimumPath targets) (ct_maximumPath targets)
    (ct_minimumItems policy) (ct_maximumItems policy) (ct_sequentialIds targets).

(** The object literal that is validated again. *)
Definition composed (schema contract : SignalContractDefinition) : SignalContractDefinition :=
  mkContract (cd_actionPath schema) (cd_pairPath schema) (cd_entry schema) (with_items (cd_targets schema) (cd_targets contract))
    (cd_stopLossPath schema) (cd_leveragePath schema) (cd_riskPercentPath schema) (cd_averagingPricePath schema)
    (map (with_policy (contract_fields (cd_additionalFields contract))) (cd_additionalFields schema))
    (cd_geometry contract) (cd_grounding contract).

Definition composeSignalSchemaContract (schemaInput contractInput : jsval) : result SignalContractDefinition :=
  schema ← validateSignalContractDefinition schemaInput;
  contract ← validateSignalContractDefinition contractInput;
  validateSignalContractDefinition (definitionJson (composed schema contract)).

Definition signalContractDefinitionSha256 (sha256 : string → string) (definition : jsval) : result string :=
  d ← validateSignalContractDefinition definition; Ok (sha256 (JSON_stringify (definitionJson d))).
End Contract.

(** ** Built-in contracts *)
Definition GEOMETRY : ContractGeometry := mkGeometry true true true true.
Definition GROUNDING : ContractGrounding := mkGrounding true true true true true true true true.

Definition scalar_targets : ContractTargets := mkContractTargets "targets" "target" shape_scalar "min" "max" 1 20 true.

Definition STANDARD_CONTRACT : SignalContractDefinition :=
  mkContract "action" "pair" (mkContractEntry optional_range None [] [] "entry_range.min" "entry_range.max") scalar_targets "stoploss"
    (Some "leverage") None None [] GEOMETRY GROUNDING.

Definition CRYPTODANIEL_CONTRACT : SignalContractDefinition :=
  mkContract "action" "pair" (mkContractEntry typed (Some "entry_type") ["MARKET"] ["LIMIT"] "entry_range.min" "entry_range.max") scalar_targets
    "stoploss" None (Some "risk_percent") (Some "averaging") [] GEOMETRY GROUNDING.

Definition timeframe_pattern : string :=
  of_chars (chars "^[MHDW]" ++ BACKSLASH :: chars "d{1,3}(?:/[MHDW]" ++ BACKSLASH :: chars "d{1,3})*$").

Definition LOMA_CONTRACT : SignalContractDefinition :=
  mkContract "action" "pair" (mkContractEntry required_range None [] [] "entry_range.min" "entry_range.max")
    (mkContractTargets "targets" "target" shape_range "min" "max" 1 20 true) "stoploss" None None None
    [mkField "timeframe" field_text true [] None None None (Some timeframe_pattern)] GEOMETRY GROUNDING.

Definition BUILTIN_SIGNAL_CONTRACTS : list (string * SignalContractDefinition) :=
  [("standard", STANDARD_CONTRACT); ("cryptodanielvip", CRYPTODANIEL_CONTRACT); ("loma", LOMA_CONTRACT)].

Example builtin_contracts_valid : map (λ c, validateSignalContractDefinition (λ _, true) (definitionJson c.2)) BUILTIN_SIGNAL_CONTRACTS = map (λ c, Ok c.2) BUILTIN_SIGNAL_CONTRACTS.
Proof. vm_compute. reflexivity. Qed.

(** ** What a validated definition satisfies *)
Definition is_text (maximum : nat) (s : string) : Prop :=
  trim s = s ∧ s ≠ "" ∧ (length (chars s) <= maximum)%nat ∧ existsb control_char (chars s) = false.
Definition is_path (s : string) : Prop := is_text 96 s ∧ PATH_PATTERN s = true.
Definition is_texts (maximum : nat) (l : list string) : Prop := Forall (is_text 80) l ∧ (length l <= maximum)%nat ∧ NoDup l.
Definition is_bound (s : string) : Prop := s ≠ "" ∧ decimal s false None = Ok s.
Definition option_all {A} (P : A → Prop) (o : option A) : Prop := ∀ a, o = Some a → P a.

Definition is_pattern (compiles : string → bool) (s : string) : Prop :=
  is_text SAFE_PATTERN_LIMIT s ∧ hasUnsupportedPatternConstruct s = false ∧ compiles s = true.

Record field_ok (compiles : string → bool) (f : SignalContractAdditionalField) : Prop := {
  fo_path : is_path (cf_path f);
  fo_allowed : is_texts 50 (cf_allowedValues f);
  fo_minimum : option_all is_bound (cf_minimum f);
  fo_maximum : option_all is_bound (cf_maximum f);
  fo_order : ∀ a b, cf_minimum f = Some a → cf_maximum f = Some b → ∃ o, compareDecimal a b = Ok o ∧ o <= 0;
  fo_length : option_all (λ n, 1 <= n <= 2000) (cf_maximumLength f);
  fo_pattern : option_all (is_pattern compiles) (cf_pattern f) }.

Record entry_ok (e : ContractEntry) : Prop := {
  eo_type : option_all is_path (ce_typePath e);
  eo_market : is_texts 20 (ce_marketValues e);
  eo_range : is_texts 20 (ce_rangeValues e);
  eo_typed : ce_mode e = typed → ce_typePath e ≠ None ∧ ce_marketValues e ≠ [] ∧ ce_rangeValues e ≠ [];
  eo_untyped : ce_mode e ≠ typed → ce_typePath e = None ∧ ce_marketValues e = [] ∧ ce_rangeValues e = [];
  eo_minimum : is_path (ce_minimumPath e);
  eo_maximum : is_path (ce_maximumPath e) }.

Record targets_ok (t : ContractTargets) : Prop := {
  to_container : is_path (ct_containerPath t);
  to_tag : is_path (ct_itemTag t);
  to_minimum : is_path (ct_minimumPath t);
  to_maximum : is_path (ct_maximumPath t);
  to_items : 1 <= ct_minimumItems t <= ct_maximumItems t ∧ ct_maximumItems t <= 20 }.

Record definition_ok (compiles : string → bool) (d : SignalContractDefinition) : Prop := {
  do_action : is_path (cd_actionPath d);
  do_pair : is_path (cd_pairPath d);
  do_entry : entry_ok (cd_entry d);
  do_targets : targets_ok (cd_targets d);
  do_stop : is_path (cd_stopLossPath d);
  do_leverage : option_all is_path (cd_leveragePath d);
  do_risk : option_all is_path (cd_riskPercentPath d);
  do_averaging : option_all is_path (cd_averagingPricePath d);
  do_fields : Forall (field_ok compiles) (cd_additionalFields d) ∧ (length (cd_additionalFields d) <= 30)%nat;
  do_unique : NoDup (contract_paths d) }.

(** ** Values *)
Lemma text_Ok v label m s : text v label m = Ok s → is_text m s.
Proof.
  unfold text. destruct v as [| | | | | |s0| |]; try done. case_bool_decide as Hne; [done|]. destruct (Nat.ltb_spec m (length (chars (trim s0)))) as [|Hm]; [done|].
  destruct (existsb control_char (chars s0)) eqn:Hc; [done|]. intros [= <-]. unfold is_text. split_and!; [apply trim_trim|done|done|].
  apply not_true_iff_false. rewrite existsb_exists. intros (c & Hin & Hcc). apply not_true_iff_false in Hc. apply Hc. rewrite existsb_exists.
  exists c. split; [|done]. apply list_elem_of_In, trim_subset, list_elem_of_In, Hin.
Qed.

Lemma text_again m s label : is_text m s → text (JString s) label m = Ok s.
Proof.
  intros (Ht & Hne & Hm & Hc). unfold text. rewrite Ht, bool_decide_false by done. rewrite (proj2 (Nat.ltb_ge _ _) Hm), Hc. done.
Qed.

Lemma pathValue_Ok v label s : pathValue v label = Ok s → is_path s.
Proof. unfold pathValue. intros H. apply bind_Ok in H as (t & Ht%text_Ok & H). destruct (PATH_PATTERN t) eqn:E; [|done]. injection H as <-. done. Qed.

Lemma pathValue_again s label : is_path s → pathValue (JString s) label = Ok s.
Proof. intros [Ht Hp]. unfold pathValue. rewrite text_again by done. cbn [mbind result_bind]. by rewrite Hp. Qed.

Lemma optionalPath_Ok v label o : optionalPath v label = Ok o → option_all is_path o.
Proof.
  unfold optionalPath. destruct (is_missing v); [intros [= <-]; by intros ?|]. intros H. apply fmap_Ok in H as (s & Hs%pathValue_Ok & ->). by intros ? [= <-].
Qed.

Lemma optionalPath_again o label : option_all is_path o → optionalPath (opt_js o) label = Ok o.
Proof.
  intros H. unfold optionalPath. destruct o as [s|]; [|done]. specialize (H s eq_refl). cbn [opt_js is_missing]. rewrite bool_decide_false by apply H.
  by rewrite pathValue_again.
Qed.

Lemma integer_bounds v label lo hi z : integer v label lo hi = Ok z → lo <= z <= hi.
Proof. unfold integer. destruct v; try done. destruct (_ || _) eqn:E; [done|]. intros [= <-]. rewrite !orb_false_iff, Z.gtb_ltb, !Z.ltb_ge in E. lia. Qed.

Lemma integer_reads z label lo hi : lo <= z <= hi → - MAX_SAFE_INTEGER <= lo → hi <= MAX_SAFE_INTEGER → integer (JInt z) label lo hi = Ok z.
Proof.
  intros Hz Hlo Hhi. unfold integer. assert (isSafeInteger z = true) as -> by (apply isSafeInteger_true; lia).
  rewrite Z.gtb_ltb, !(proj2 (Z.ltb_ge _ _)) by lia. done.
Qed.

Lemma strings_Ok v label m l : strings v label m = Ok l → is_texts m l.
Proof.
  unfold strings. destruct (string_array v) as [l0|]; [|done]. destruct (Nat.ltb_spec m (length l0)) as [|Hm]; [done|]. intros H.
  apply bind_Ok in H as (k & Hk & H). pose proof (mapM_Ok_length _ _ _ Hk) as Hlen. unfold distinct in H. case_bool_decide as Hd; [|done]. injection H as <-.
  unfold is_texts. split_and!; [|lia|done]. apply mapM_Ok in Hk. clear Hm Hd Hlen. induction Hk as [|x y ? ? Hxy _ IH]; constructor; [by eapply text_Ok|done].
Qed.

Lemma strings_again m l label : is_texts m l → strings (or_empty (strings_js l)) label m = Ok l.
Proof.
  intros (Hf & Hm & Hd). unfold strings, strings_js. cbn [or_empty string_array]. rewrite all_strings_map. rewrite (proj2 (Nat.ltb_ge _ _) Hm).
  assert (mapM (λ item, text (JString item) label 80) l = Ok l) as ->.
  { apply mapM_Ok. clear Hm Hd. induction Hf; constructor; [by apply text_again|done]. }
  cbn [mbind result_bind]. unfold distinct. by rewrite bool_decide_true.
Qed.

(** ** Sections *)
#[local] Arguments integer : simpl never.


(** Reading back a literal object: its properties, its keys, its literals. *)
Ltac read_literal :=
  cbn [record mbind result_bind];
  repeat match goal with
  | |- context [exactKeys ?l ?n ?k] => change (exactKeys l n k) with (Ok tt)
  | |- context [or_throw (has ?t (assoc ?k ?l)) ?m] => let r := eval vm_compute in (or_throw (has t (assoc k l)) m) in change (or_throw (has t (assoc k l)) m) with r
  end;
  repeat first [rewrite assoc_hit | rewrite assoc_miss by discriminate | rewrite assoc_nil];
  cbn [mbind result_bind].

Lemma additionalFieldBound_Ok v label o : additionalFieldBound v label = Ok o → option_all is_bound o.
Proof.
  assert (∀ s r, Some <$> decimal s false None = Ok r → option_all is_bound r) as H.
  { intros s r H. apply fmap_Ok in H as (t & Ht & ->). intros a [= <-]. split; [|by apply (decimal_normal_form _ _ _ _ _ _ Ht Ht)].
    apply decimal_inv in Ht as (z & _ & -> & Hz & _). destruct (dec_first_digit z) as (c & l & E & _); [lia|]. intros E0. by rewrite E0 in E. }
  unfold additionalFieldBound. destruct v as [| |b|z|printed| |s| |]; try done; try apply H; [by intros [= <-]|]. case_bool_decide; [by intros [= <-]|apply H].
Qed.

Lemma additionalFieldBound_again o label : option_all is_bound o → additionalFieldBound (opt_js o) label = Ok o.
Proof.
  intros H. destruct o as [s|]; [|done]. destruct (H s eq_refl) as [Hne Hd]. cbn [additionalFieldBound opt_js]. rewrite bool_decide_false by done. by rewrite Hd.
Qed.

Lemma fmap_result {A B} (f : A → B) a : f <$> Ok a = Ok (f a).
Proof. done. Qed.

Section Validated.
Context (compiles : string → bool).

Lemma safePattern_Ok v label o : safePattern compiles v label = Ok o → option_all (is_pattern compiles) o.
  Proof.
    unfold safePattern. destruct (is_missing v); [by intros [= <-]|]. intros H. apply bind_Ok in H as (p & Hp%text_Ok & H).
    destruct (hasUnsupportedPatternConstruct p) eqn:Hu; [done|]. destruct (compiles p) eqn:Hc; [|done]. injection H as <-. by intros ? [= <-].
  Qed.

Lemma safePattern_again o label : option_all (is_pattern compiles) o → safePattern compiles (opt_js o) label = Ok o.
  Proof.
    intros H. unfold safePattern. destruct o as [s|]; [|done]. destruct (H s eq_refl) as (Ht & Hu & Hc). cbn [opt_js is_missing].
    rewrite bool_decide_false by apply Ht. rewrite text_again by done. cbn [mbind result_bind]. by rewrite Hu, Hc.
  Qed.

Lemma additionalField_Ok i v f : additionalField compiles i v = Ok f → field_ok compiles f.
  Proof.
    unfold additionalField. intros H. apply bind_Ok in H as (fs & _ & H). apply bind_Ok in H as (u & _ & H). apply bind_Ok in H as (ty & _ & H).
    apply bind_Ok in H as (mn & Hmn%additionalFieldBound_Ok & H). apply bind_Ok in H as (mx & Hmx%additionalFieldBound_Ok & H).
    apply bind_Ok in H as (o & Ho & H). destruct (o >? 0) eqn:Eo; [done|]. apply bind_Ok in H as (ml & Hml & H).
    apply bind_Ok in H as (av & Hav%strings_Ok & H). apply bind_Ok in H as (p & Hp%pathValue_Ok & H). apply bind_Ok in H as (r & _ & H).
    apply bind_Ok in H as (pt & Hpt%safePattern_Ok & [= <-]). split; cbn; try done.
    - intros a b -> ->. exists o. rewrite Z.gtb_ltb, Z.ltb_ge in Eo. done.
    - intros n ->. destruct (assoc "maximumLength" fs); try done; apply fmap_Ok in Hml as (n0 & Hn%integer_bounds & [= <-]); done.
  Qed.

Lemma additionalField_again i f : field_ok compiles f → additionalField compiles i (fieldJson f) = Ok f.
  Proof.
    intros [Hp Ha Hmn Hmx Ho Hl Hpt]. destruct f as [p ty r av mn mx ml pt]. cbn in *. unfold additionalField, fieldJson. cbn [cf_path cf_type cf_required cf_allowedValues
      cf_minimum cf_maximum cf_maximumLength cf_pattern].
    destruct ty; read_literal; rewrite !additionalFieldBound_again by done; cbn [mbind result_bind].
    all: assert (∃ o, (match mn, mx with Some a, Some b => compareDecimal a b | _, _ => Ok 0 end) = Ok o ∧ o <= 0) as (o & -> & Ho')
      by (destruct mn, mx; [by apply Ho|by exists 0..]); cbn [mbind result_bind]; rewrite Z.gtb_ltb, (proj2 (Z.ltb_ge 0 o)) by done.
    all: destruct ml as [n|]; cbn beta iota; [specialize (Hl n eq_refl); rewrite integer_reads by (done || vm_compute; done || lia)|]; rewrite ?fmap_result; cbn [mbind result_bind].
    all: rewrite strings_again by done; cbn [mbind result_bind]; rewrite pathValue_again by done; cbn [mbind result_bind boolean];
      rewrite safePattern_again by done; done.
  Qed.
End Validated.

Lemma validateEntry_Ok v e : validateEntry v = Ok e → entry_ok e.
Proof.
  unfold validateEntry. intros H. apply bind_Ok in H as (fs & _ & H). apply bind_Ok in H as (u & _ & H). apply bind_Ok in H as (mode & _ & H).
  apply bind_Ok in H as (tp & Htp%optionalPath_Ok & H). apply bind_Ok in H as (mv & Hmv%strings_Ok & H). apply bind_Ok in H as (rv & Hrv%strings_Ok & H).
  destruct (bool_decide (mode = typed) && _) eqn:E1; [done|]. destruct (negb (bool_decide (mode = typed)) && _) eqn:E2; [done|].
  apply bind_Ok in H as (mn & Hmn%pathValue_Ok & H). apply bind_Ok in H as (mx & Hmx%pathValue_Ok & [= <-]). split; cbn; try done; intros Hm.
  - rewrite bool_decide_true in E1 by done. cbn in E1. rewrite !orb_false_iff, !bool_decide_eq_false in E1. naive_solver.
  - rewrite bool_decide_false in E2 by done. cbn in E2. rewrite !orb_false_iff, !negb_false_iff, !bool_decide_eq_true in E2. naive_solver.
Qed.

Lemma validateEntry_again e : entry_ok e → validateEntry (entryJson e) = Ok e.
Proof.
  intros [Ht Hm Hr H1 H2 Hmn Hmx]. destruct e as [mode tp mv rv mn mx]. cbn in *. unfold validateEntry, entryJson. cbn [ce_mode ce_typePath ce_marketValues
    ce_rangeValues ce_minimumPath ce_maximumPath].
  destruct mode; read_literal; rewrite optionalPath_again by done; cbn [mbind result_bind]; rewrite !strings_again by done; cbn [mbind result_bind].
  all: rewrite !pathValue_again by done; cbn [mbind result_bind].
  1,2: destruct (H2 ltac:(done)) as (-> & -> & ->); done.
  destruct (H1 eq_refl) as (Ha & Hb & Hc). rewrite bool_decide_true by done. by rewrite !bool_decide_false by done.
Qed.

Lemma validateTargets_Ok v t : validateTargets v = Ok t → targets_ok t.
Proof.
  unfold validateTargets. intros H. apply bind_Ok in H as (fs & _ & H). apply bind_Ok in H as (u & _ & H). apply bind_Ok in H as (sh & _ & H).
  apply bind_Ok in H as (mn & Hmn%integer_bounds & H). apply bind_Ok in H as (mx & Hmx%integer_bounds & H).
  apply bind_Ok in H as (c & Hc%pathValue_Ok & H). apply bind_Ok in H as (tg & Htg%pathValue_Ok & H). apply bind_Ok in H as (p1 & Hp1%pathValue_Ok & H).
  apply bind_Ok in H as (p2 & Hp2%pathValue_Ok & H). apply bind_Ok in H as (q & _ & [= <-]). split; cbn; (done || lia).
Qed.

Lemma validateTargets_again t : targets_ok t → validateTargets (targetsJson t) = Ok t.
Proof.
  intros [H1 H2 H3 H4 H5]. destruct t as [c tg sh mn mx p1 p2 q]. cbn in *. unfold validateTargets, targetsJson. cbn [ct_containerPath ct_itemTag ct_shape
    ct_minimumPath ct_maximumPath ct_minimumItems ct_maximumItems ct_sequentialIds].
  assert (MAX_SAFE_INTEGER >= 20) by (vm_compute; done).
  destruct sh; read_literal; rewrite integer_reads by lia; cbn [mbind result_bind]; rewrite integer_reads by lia; cbn [mbind result_bind];
    rewrite !pathValue_again by done; done.
Qed.

(** ** Definitions *)
Section ValidatedDefinition.
Context (compiles : string → bool).

Lemma additionalFields_from_Ok i items fs : additionalFields_from compiles i items = Ok fs → Forall (field_ok compiles) fs ∧ length fs = length items.
  Proof.
    revert i fs. induction items as [|v items IH]; intros i fs; cbn [additionalFields_from]; [intros [= <-]; by split|].
    intros H. apply bind_Ok in H as (f & Hf%additionalField_Ok & H). apply fmap_Ok in H as (fs' & H & ->). destruct (IH _ _ H) as [H1 H2].
    split; [by constructor|cbn; by rewrite H2].
  Qed.

Lemma additionalFields_from_again i fs : Forall (field_ok compiles) fs → additionalFields_from compiles i (map fieldJson fs) = Ok fs.
  Proof.
    intros H. revert i. induction H as [|f fs Hf _ IH]; intros i; cbn [additionalFields_from map]; [done|].
    rewrite additionalField_again by done. cbn [mbind result_bind]. by rewrite IH.
  Qed.

Lemma booleanRecord_Ok v label keys l : booleanRecord v label keys = Ok l → length l = length keys.
  Proof. unfold booleanRecord. intros H. apply bind_Ok in H as (fs & _ & H). apply bind_Ok in H as (u & _ & H). by apply mapM_Ok_length in H. Qed.

Lemma geometry_again g : geometry_of <$> booleanRecord (geometryJson g) "geometry" geometry_keys = Ok g.
  Proof. by destruct g. Qed.

Lemma grounding_again g : grounding_of <$> booleanRecord (groundingJson g) "grounding" grounding_keys = Ok g.
  Proof. by destruct g. Qed.

Lemma validate_ok v d : validateSignalContractDefinition compiles v = Ok d → definition_ok compiles d.
  Proof.
    unfold validateSignalContractDefinition. intros H. apply bind_Ok in H as (fs & _ & H). do 3 (apply bind_Ok in H as ([] & _ & H)).
    apply bind_Ok in H as (items & Hitems & H). assert (length items <= 30)%nat as Hl.
    { destruct (assoc "additionalFields" fs); try done. destruct (Nat.ltb_spec 30 (length items0)); [done|]. by injection Hitems as <-. }
    apply bind_Ok in H as (ap & Hap%pathValue_Ok & H). apply bind_Ok in H as (pp & Hpp%pathValue_Ok & H). apply bind_Ok in H as (e & He%validateEntry_Ok & H).
    apply bind_Ok in H as (t & Ht%validateTargets_Ok & H). apply bind_Ok in H as (sp & Hsp%pathValue_Ok & H).
    apply bind_Ok in H as (lp & Hlp%optionalPath_Ok & H). apply bind_Ok in H as (rp & Hrp%optionalPath_Ok & H). apply bind_Ok in H as (vp & Hvp%optionalPath_Ok & H).
    apply bind_Ok in H as (af & [Haf Hafl]%additionalFields_from_Ok & H). apply bind_Ok in H as (g & Hg & H). apply bind_Ok in H as (gr & Hgr & H).
    cbn zeta in H. apply bind_Ok in H as ([] & Hu & [= <-]). unfold uniqueContractPaths, distinct in Hu. case_bool_decide as Hd; [|done].
    split; cbn; try done.
    split; [done|lia].
  Qed.

Lemma validate_again d : definition_ok compiles d → validateSignalContractDefinition compiles (definitionJson d) = Ok d.
  Proof.
    intros [Hap Hpp He Ht Hsp Hlp Hrp Hvp [Haf Hl] Hu]. destruct d as [ap pp e t sp lp rp vp af g gr]. unfold validateSignalContractDefinition, definitionJson.
    cbn [cd_actionPath cd_pairPath cd_entry cd_targets cd_stopLossPath cd_leveragePath cd_riskPercentPath cd_averagingPricePath cd_additionalFields cd_geometry
      cd_grounding] in *. read_literal. rewrite bool_decide_true by done. cbn [mbind result_bind]. rewrite length_map, (proj2 (Nat.ltb_ge _ _) Hl). cbn [mbind result_bind].
    rewrite !pathValue_again by done. cbn [mbind result_bind]. rewrite validateEntry_again, validateTargets_again by done. cbn [mbind result_bind].
    rewrite !optionalPath_again by done. cbn [mbind result_bind]. rewrite additionalFields_from_again by done. cbn [mbind result_bind].
    pose proof (geometry_again g) as Hg. pose proof (grounding_again gr) as Hgr. apply fmap_Ok in Hg as (lg & -> & ->). apply fmap_Ok in Hgr as (lr & -> & ->).
    cbn [mbind result_bind]. unfold uniqueContractPaths, distinct. by rewrite bool_decide_true.
  Qed.

Lemma contract_fields_lookup fields path policy : contract_fields fields !! path = Some policy → cf_path policy = path ∧ policy ∈ fields.
  Proof.
    unfold contract_fields. enough (∀ m : gmap string SignalContractAdditionalField, (∀ path policy, m !! path = Some policy → cf_path policy = path ∧ policy ∈ fields) →
      ∀ l, l ⊆ fields → ∀ path policy, fold_left (λ m field, <[cf_path field := field]> m) l m !! path = Some policy → cf_path policy = path ∧ policy ∈ fields) as H.
    { apply (H ∅); [intros ? ?; by rewrite lookup_empty|done]. }
    intros m Hm l. revert m Hm. induction l as [|f l IH]; intros m Hm Hl p q; cbn [fold_left]; [apply Hm|]. apply IH; [|set_solver].
    intros p' q'. destruct (decide (cf_path f = p')) as [<-|Hne]; [rewrite lookup_insert_eq; intros [= <-]; split; [done|set_solver]|].
    rewrite lookup_insert_ne by done. apply Hm.
  Qed.

Lemma composed_paths s c : contract_paths (composed s c) = contract_paths s.
  Proof.
    unfold contract_paths, composed. cbn [cd_actionPath cd_pairPath cd_entry cd_stopLossPath cd_leveragePath cd_riskPercentPath cd_averagingPricePath cd_additionalFields].
    rewrite map_map. erewrite (map_ext _ cf_path); [done|]. intros f. unfold with_policy. by destruct (_ !! _).
  Qed.

Lemma composed_ok s c : definition_ok compiles s → definition_ok compiles c → definition_ok compiles (composed s c).
  Proof.
    intros [Hap Hpp He Ht Hsp Hlp Hrp Hvp [Haf Hl] Hu] Hc. split; try by rewrite composed_paths. all: cbn; try done.
    - destruct Ht as [H1 H2 H3 H4 _], (do_targets _ _ Hc) as [_ _ _ _ H5]. by split.
    - split; [|by rewrite length_map]. apply Forall_map. eapply Forall_impl; [exact Haf|]. intros f Hf. unfold with_policy.
      destruct (_ !! _) as [policy|] eqn:E; [|done]. apply contract_fields_lookup in E as [_ Hin]. pose proof (proj1 (do_fields _ _ Hc)) as Hcf.
      rewrite Forall_forall in Hcf. destruct (Hcf _ Hin), Hf. by split.
  Qed.
End ValidatedDefinition.

(** ** Theorems *)

(** C34: a validated contract reads back as itself.  Whatever untyped value the
    validator accepted, the definition it answers, stored and read again as a
    value, is accepted and answers the same definition: every path, text, bound
    and pattern is already in its normal form, and the order of bounds, the
    counts and the uniqueness of paths survive. *)
Theorem contract_revalidates compiles v d : validateSignalContractDefinition compiles v = Ok d →
  validateSignalContractDefinition compiles (definitionJson d) = Ok d.
Proof. intros H. by apply validate_again, (validate_ok _ v). Qed.

(** A stored contract as an operator may have typed it. *)
Definition contract_example : jsval :=
  JObject [("schemaVersion", JInt 1); ("rootTag", JString "signal"); ("actionPath", JString " action "); ("pairPath", JString "pair");
           ("entry", JObject [("mode", JString "typed"); ("typePath", JString "entry_type"); ("marketValues", strings_js ["MARKET "]);
                              ("rangeValues", strings_js ["LIMIT"; "STOP"]); ("minimumPath", JString "entry.min"); ("maximumPath", JString "entry.max")]);
           ("targets", targetsJson scalar_targets); ("stopLossPath", JString "stoploss"); ("leveragePath", JString ""); ("riskPercentPath", JNull);
           ("additionalFields", JArray [JObject [("path", JString "note.text"); ("type", JString "decimal"); ("required", JBool true);
                                                 ("minimum", JInt 1); ("maximum", JString " 5.50 "); ("pattern", JString " ^[0-9]+ ")]]);
           ("geometry", geometryJson GEOMETRY); ("grounding", groundingJson GROUNDING)].

Lemma contract_revalidates_witness : ∃ d, validateSignalContractDefinition (λ _, true) contract_example = Ok d ∧
  validateSignalContractDefinition (λ _, true) (definitionJson d) = Ok d.
Proof.
  eexists. assert (validateSignalContractDefinition (λ _, true) contract_example = Ok _) as H by (vm_compute; reflexivity).
  split; [exact H|]. exact (contract_revalidates (λ _, true) contract_example _ H).
Defined.

(** Composition never fails for valid parts and never renames the output of
    the parser.  It answers a definition exactly when the schema and the contract
    are both valid; every path, the entry and the shape of the targets are the
    schema's, the counts, geometry and grounding are the contract's, and every
    field of the schema keeps its place, path and type and has the requirements of
    the contract's field of the same path, if there is one. *)
Theorem composition_total compiles schemaInput contractInput d : composeSignalSchemaContract compiles schemaInput contractInput = Ok d ↔
  ∃ schema contract, validateSignalContractDefinition compiles schemaInput = Ok schema ∧ validateSignalContractDefinition compiles contractInput = Ok contract ∧
    d = composed schema contract ∧ contract_paths d = contract_paths schema.
Proof.
  unfold composeSignalSchemaContract. split.
  - intros H. apply bind_Ok in H as (s & Hs & H). apply bind_Ok in H as (c & Hc & H). exists s, c.
    rewrite validate_again in H by (apply composed_ok; by eapply validate_ok). injection H as <-. split_and!; [done..|apply composed_paths].
  - intros (s & c & Hs & Hc & -> & _). rewrite Hs, Hc. cbn [mbind result_bind]. apply validate_again, composed_ok; by eapply validate_ok.
Qed.
