(* ===== verification/SignalSchema.v ===== *)
(** SignalSchema: the validation of parsed signals in [src/signal_schema.ts].

    A signal is an [XmlNode]; the three legacy schemas and a declared contract
    read it into a [ValidatedSignal], whose prices stay decimal texts.  The
    evaluation of a declared pattern is the parameter [evaluate] of the index of
    the field, the pattern and the value ([None]: it failed or its budget was
    exhausted), and [interrupted i] says that the time limit of the script ended
    while field [i] was validated.  Grounding in the source text is not modelled:
    it rests on Unicode normalization and classes. *)

From S2P Require Import Prelude Text Decimal Types Json Xml SignalContract.
From Stdlib Require Import Ascii.
From Stdlib Require String.
Local Open Scope Z_scope.
Local Open Scope ts_scope.

(** ** Data *)
Inductive GroundingFieldKind := ground_entry | ground_averaging | ground_target | ground_stop | ground_leverage | ground_risk.
Record GroundingField := mkGroundingField { gf_kind : GroundingFieldKind; gf_values : list string }.
Record GroundingPolicy := mkGroundingPolicy { gp_action : bool; gp_pair : bool }.

(** [Omit<ValidatedSignal, 'xml' | 'schema'>] *)
Record CommonSignal := mkCommon {
  vs_action : TradingSide;
  vs_pair : string;
  vs_groundingNumbers : list string;
  vs_groundingFields : list GroundingField;
  vs_groundingComment : option string;
  vs_groundingPolicy : option GroundingPolicy;
  vs_execution : option ExecutableSignal }.

Record ValidatedSignal := mkValidated { vs_xml : string; vs_schema : string; vs_common : CommonSignal }.

(** The contract definitions of a selection are untyped until they are validated. *)
Record ExecutableSignalSchemaSelection := mkSelection {
  sel_id : string;
  sel_parserSchema : string;
  sel_schemaDefinition : option jsval;
  sel_contractDefinition : option jsval }.

(** The parameter [executableSchema?: ExecutableSignalSchemaSelection | null]. *)
Inductive SchemaChoice := choose_default | choose_none | choose (selection : ExecutableSignalSchemaSelection).

(** ** Reading elements *)
Fixpoint assertAllowedIdAttributes (node : XmlNode) (targetItemTag : string) : result unit :=
  match node with
  | mkNode name id _ children =>
      if bool_decide (id ≠ None) && negb (bool_decide (name = targetItemTag)) then throw ("Attribute 'id' is not allowed on '" +:+ name +:+ "'.")
      else
        (fix go (l : list XmlNode) : result unit :=
           match l with [] => Ok tt | child :: rest => _ ← assertAllowedIdAttributes child targetItemTag; go rest end) children
  end.

Definition mixed_text (node : XmlNode) : bool := negb (bool_decide (trim (xn_text node) = "")).

Definition assertAllowedChildren (node : XmlNode) (allowed : list string) : result unit :=
  if mixed_text node then throw ("Mixed text is not allowed inside '" +:+ xn_name node +:+ "'.")
  else
    match list_find (λ child, xn_name child ∉ allowed) (xn_children node) with
    | Some (_, child) => throw ("Unknown tag '" +:+ xn_name child +:+ "' in '" +:+ xn_name node +:+ "'.")
    | None => Ok tt
    end.

Definition children (node : XmlNode) (name : string) : list XmlNode := filter (λ child, xn_name child = name) (xn_children node).

Definition required (node : XmlNode) (name : string) : result XmlNode :=
  match children node name with
  | [found] => Ok found
  | _ => throw ("Required tag '" +:+ name +:+ "' must appear exactly once.")
  end.

Definition optional (node : XmlNode) (name : string) : result (option XmlNode) :=
  match children node name with
  | [] => Ok None
  | [found] => Ok (Some found)
  | _ => throw ("Optional tag '" +:+ name +:+ "' may appear at most once.")
  end.

(** [/[<>&]/] *)
Definition markup_char (c : Ascii.ascii) : bool := bool_decide (c ∈ ["<"; ">"; "&"]%char).

Definition leaf (node : XmlNode) : result string :=
  if bool_decide (xn_children node ≠ []) then throw ("Tag '" +:+ xn_name node +:+ "' must contain text only.")
  else
    let value := trim (xn_text node) in
    if bool_decide (value = "") then throw ("Tag '" +:+ xn_name node +:+ "' must not be empty.")
    else if existsb markup_char (chars value) then throw ("Tag '" +:+ xn_name node +:+ "' contains forbidden markup characters.")
    else Ok value.

Definition side_of (action : string) : option TradingSide :=
  if bool_decide (action = "LONG") then Some LONG else if bool_decide (action = "SHORT") then Some SHORT else None.
Definition side_text (action : TradingSide) : string := match action with LONG => "LONG" | SHORT => "SHORT" end.

Definition actionValue (node : XmlNode) : result TradingSide :=
  action ← required node "action" ≫= leaf;
  match side_of action with
  | Some side => Ok side
  | None => throw ("Action must be 'LONG' or 'SHORT', got '" +:+ action +:+ "'.")
  end.

Definition pair_char (c : Ascii.ascii) : bool := is_upper c || is_digit c.

(** [/^[A-Z0-9]{2,20}$/], with a letter *)
Definition generic_pair (l : list Ascii.ascii) : bool :=
  forallb pair_char l && (2 <=? length l)%nat && (length l <=? 20)%nat && existsb is_upper l.

(** [l] is a nonempty text followed by the quote asset [suffix]. *)
Definition quoted_in (l suffix : list Ascii.ascii) : bool := ends_with suffix l && negb (length l <=? length suffix)%nat.

(** [/^(?=.{5,20}$)[A-Z0-9]+(?:USDT|USDC|USD)$/] *)
Definition quoted_pair (l : list Ascii.ascii) : bool :=
  (5 <=? length l)%nat && (length l <=? 20)%nat && forallb pair_char l && existsb (quoted_in l) (map chars ["USDT"; "USDC"; "USD"]).

Definition pairValue (node : XmlNode) (requireQuoteAsset : bool) : result string :=
  pair ← required node "pair" ≫= leaf;
  if requireQuoteAsset && negb (quoted_pair (chars pair)) then throw ("Pair '" +:+ pair +:+ "' must use the USD, USDC, or USDT quote asset.")
  else if negb requireQuoteAsset && negb (generic_pair (chars pair)) then throw ("Pair '" +:+ pair +:+ "' is not a normalized uppercase trading symbol.")
  else Ok pair.

(** ** Decimals *)

(** [(?:0|[1-9]\d{0,17})] *)
Definition integer_part (l : list Ascii.ascii) : bool :=
  match l with
  | [] => false
  | c :: rest => is_digit c && (if decide (c = zero_char) then bool_decide (rest = []) else forallb is_digit rest && (length rest <=? 17)%nat)
  end.

(** [/^(?:0|[1-9]\d{0,17})(?:\.\d{1,18})?$/] *)
Definition plain_decimal (value : string) : bool :=
  match split_chars dot_char (chars value) with
  | [i] => integer_part i
  | [i; f] => integer_part i && fraction_pattern f
  | _ => false
  end.

(** The comparison of two texts of digits with an optional fraction. *)
Definition compareDecimals (left right : string) : Z :=
  let part (s : string) (i : nat) := default [] (split_chars dot_char (chars s) !! i) in
  let scale := Nat.max (length (part left 1%nat)) (length (part right 1%nat)) in
  let leftValue := digits (part left 0%nat ++ padEnd scale (part left 1%nat)) in
  let rightValue := digits (part right 0%nat ++ padEnd scale (part right 1%nat)) in
  if leftValue <? rightValue then -1 else if leftValue >? rightValue then 1 else 0.

Definition signalDecimal (node : XmlNode) (label : string) : result string :=
  value ← leaf node;
  if negb (plain_decimal value) then throw (label +:+ " must be a positive plain decimal without suffixes, got '" +:+ value +:+ "'.")
  else if compareDecimals value "0" <=? 0 then throw (label +:+ " must be greater than zero.")
  else Ok value.

Definition range (node : XmlNode) : result DecimalRange :=
  _ ← assertAllowedChildren node ["min"; "max"];
  min ← required node "min" ≫= λ n, signalDecimal n (xn_name node +:+ ".min");
  max ← required node "max" ≫= λ n, signalDecimal n (xn_name node +:+ ".max");
  if compareDecimals min max >? 0 then throw (xn_name node +:+ ".min must be less than or equal to max.") else Ok (mkRange min max).

Definition show_index (index : nat) : string := of_chars (to_digits (Z.of_nat index)).

(** [targetNodes.map((target, index) => ...)] with the sequential ids. *)
Fixpoint map_targets {A} (read : nat → XmlNode → result A) (index : nat) (nodes : list XmlNode) : result (list A) :=
  match nodes with
  | [] => Ok []
  | target :: rest =>
      if negb (bool_decide (xn_id target = Some (Z.of_nat (S index)))) then throw "Target ids must be sequential and start at 1."
      else value ← read index target; cons value <$> map_targets read (S index) rest
  end.

Definition target_nodes (node : XmlNode) : result (list XmlNode) :=
  _ ← assertAllowedChildren node ["target"];
  let targetNodes := children node "target" in
  if (length targetNodes <? 1)%nat || (20 <? length targetNodes)%nat then throw "Targets must contain between 1 and 20 target elements."
  else Ok targetNodes.

Definition scalarTargets (node : XmlNode) : result (list string) :=
  nodes ← target_nodes node;
  map_targets (λ index target, signalDecimal target ("target " +:+ show_index (S index))) 0 nodes.

(** ** Geometry *)
Definition assertStopGeometry (action : TradingSide) (stoploss : string) (entry : option DecimalRange) : result unit :=
  match entry with
  | None => Ok tt
  | Some entry =>
      match action with
      | LONG => if compareDecimals stoploss (range_min entry) >=? 0 then throw "LONG stoploss must be below the entry range." else Ok tt
      | SHORT => if compareDecimals stoploss (range_max entry) <=? 0 then throw "SHORT stoploss must be above the entry range." else Ok tt
      end
  end.

Definition assertTargetGeometry (action : TradingSide) (target : string) (index : nat) (previous : option string) (baseline boundaryLabel : string) : result unit :=
  if bool_decide (action = LONG) && (compareDecimals target baseline <=? 0)
  then throw ("LONG target " +:+ show_index (S index) +:+ " must be above " +:+ boundaryLabel +:+ ".")
  else if bool_decide (action = SHORT) && (compareDecimals target baseline >=? 0)
  then throw ("SHORT target " +:+ show_index (S index) +:+ " must be below " +:+ boundaryLabel +:+ ".")
  else
    match previous with
    | None => Ok tt
    | Some previous =>
        let order := compareDecimals previous target in
        if match action with LONG => order >=? 0 | SHORT => order <=? 0 end
        then throw (side_text action +:+ " targets must be strictly ordered away from entry.") else Ok tt
    end.

(** [targets.forEach(...)]: [previous] is [targets[index - 1]]. *)
Fixpoint each_target {A} (check : A → nat → option A → result unit) (index : nat) (previous : option A) (targets : list A) : result unit :=
  match targets with
  | [] => Ok tt
  | target :: rest => _ ← check target index previous; each_target check (S index) (Some target) rest
  end.

Definition assertScalarGeometry (action : TradingSide) (stoploss : string) (targets : list string) (entry : option DecimalRange) : result unit :=
  _ ← assertStopGeometry action stoploss entry;
  let baseline := match entry with None => stoploss | Some entry => match action with LONG => range_max entry | SHORT => range_min entry end end in
  let boundaryLabel := match entry with Some _ => "the entry range" | None => "stoploss" end in
  each_target (λ target index previous, assertTargetGeometry action target index previous baseline boundaryLabel) 0 None targets.

(** ** The legacy schemas *)
Definition entry_of (entry : option DecimalRange) : SignalEntry := match entry with Some range => RangeEntry range | None => MarketEntry end.

(** [Number(leverage)] of one to three digits. *)
Definition number (s : string) : Z := digits (chars s).

Definition scalarExecution (schema : string) (action : TradingSide) (pair : string) (entry : option DecimalRange) (targets : list string) (stoploss : string)
    (leverage averaging risk : option string) : ExecutableSignal :=
  mkSignal schema action pair (entry_of entry) (map (λ target, mkRange target target) targets) stoploss (number <$> leverage) risk averaging.

Definition range_values (range : option DecimalRange) : list string := match range with Some r => [range_min r; range_max r] | None => [] end.
Definition field_of (kind : GroundingFieldKind) (values : list string) : list GroundingField := match values with [] => [] | _ => [mkGroundingField kind values] end.

(** [/^[1-9]\d{0,2}$/] and at most 125 *)
Definition leverage_text (s : string) : bool := is_id (chars s) && (length (chars s) <=? 3)%nat && (number s <=? 125).

Definition map_option {A B} (f : A → result B) (o : option A) : result (option B) := match o with Some a => Some <$> f a | None => Ok None end.

Definition validateStandard (root : XmlNode) : result CommonSignal :=
  _ ← assertAllowedChildren root ["action"; "pair"; "entry_range"; "targets"; "stoploss"; "leverage"];
  action ← actionValue root;
  pair ← pairValue root true;
  entry ← optional root "entry_range" ≫= map_option range;
  targets ← required root "targets" ≫= scalarTargets;
  stoploss ← required root "stoploss" ≫= λ n, signalDecimal n (xn_name n);
  leverage ← optional root "leverage" ≫= map_option (λ n,
    leverage ← leaf n; if negb (leverage_text leverage) then throw "Leverage must be an integer between 1 and 125." else Ok leverage);
  _ ← assertScalarGeometry action stoploss targets entry;
  Ok (mkCommon action pair
       (range_values entry ++ targets ++ [stoploss] ++ option_list leverage)
       (field_of ground_entry (range_values entry) ++ [mkGroundingField ground_target targets; mkGroundingField ground_stop [stoploss]]
        ++ field_of ground_leverage (option_list leverage))
       None None
       (Some (scalarExecution "standard" action pair entry targets stoploss leverage None None))).

Definition cryptodanielEntry (root : XmlNode) (entryType : string) : result (option DecimalRange) :=
  entryNode ← optional root "entry_range";
  if bool_decide (entryType = "LIMIT") && bool_decide (entryNode = None) then throw "LIMIT signals require entry_range."
  else if bool_decide (entryType = "MARKET") && negb (bool_decide (entryNode = None)) then throw "MARKET signals must omit entry_range."
  else map_option range entryNode.

Definition optionalDecimalChild (root : XmlNode) (name : string) : result (option string) :=
  optional root name ≫= map_option (λ node, signalDecimal node name).

Definition cryptodanielRisk (root : XmlNode) : result (option string) :=
  risk ← optionalDecimalChild root "risk_percent";
  if match risk with Some risk => compareDecimals risk "100" >? 0 | None => false end then throw "risk_percent must not exceed 100." else Ok risk.

Definition validateCryptoDaniel (root : XmlNode) : result CommonSignal :=
  _ ← assertAllowedChildren root ["action"; "pair"; "entry_type"; "entry_range"; "averaging"; "targets"; "stoploss"; "risk_percent"];
  action ← actionValue root;
  pair ← pairValue root true;
  entryType ← required root "entry_type" ≫= leaf;
  if negb (bool_decide (entryType = "MARKET")) && negb (bool_decide (entryType = "LIMIT")) then throw "entry_type must be 'MARKET' or 'LIMIT'."
  else
    entry ← cryptodanielEntry root entryType;
    averaging ← optionalDecimalChild root "averaging";
    targets ← required root "targets" ≫= scalarTargets;
    stoploss ← required root "stoploss" ≫= λ n, signalDecimal n (xn_name n);
    risk ← cryptodanielRisk root;
    _ ← assertScalarGeometry action stoploss targets entry;
    Ok (mkCommon action pair
         (range_values entry ++ option_list averaging ++ targets ++ [stoploss] ++ option_list risk)
         (field_of ground_entry (range_values entry) ++ field_of ground_averaging (option_list averaging)
          ++ [mkGroundingField ground_target targets; mkGroundingField ground_stop [stoploss]] ++ field_of ground_risk (option_list risk))
         None None
         (Some (scalarExecution "cryptodanielvip" action pair entry targets stoploss None averaging risk))).

(** [/^[MHDW]\d{1,3}(?:\/[MHDW]\d{1,3})*$/], each part between the slashes *)
Definition timeframe_part (l : list Ascii.ascii) : bool :=
  match l with c :: d => bool_decide (c ∈ ["M"; "H"; "D"; "W"]%char) && forallb is_digit d && (1 <=? length d)%nat && (length d <=? 3)%nat | [] => false end.
Definition timeframe_text (s : string) : bool := forallb timeframe_part (split_chars "/"%char (chars s)).

Definition loma_target (action : TradingSide) (entry target : DecimalRange) (index : nat) (previous : option DecimalRange) : result unit :=
  if bool_decide (action = LONG) && (compareDecimals (range_min target) (range_max entry) <=? 0)
  then throw ("LONG target " +:+ show_index (S index) +:+ " must be above entry.")
  else if bool_decide (action = SHORT) && (compareDecimals (range_max target) (range_min entry) >=? 0)
  then throw ("SHORT target " +:+ show_index (S index) +:+ " must be below entry.")
  else
    match previous with
    | None => Ok tt
    | Some previous =>
        if bool_decide (action = LONG) && (compareDecimals (range_min target) (range_max previous) <=? 0) then throw "LONG target ranges must be strictly increasing."
        else if bool_decide (action = SHORT) && (compareDecimals (range_max target) (range_min previous) >=? 0)
        then throw "SHORT target ranges must be strictly decreasing."
        else Ok tt
    end.

Definition validateLoma (root : XmlNode) : result CommonSignal :=
  _ ← assertAllowedChildren root ["pair"; "timeframe"; "action"; "entry_range"; "stoploss"; "targets"];
  action ← actionValue root;
  pair ← pairValue root true;
  timeframe ← required root "timeframe" ≫= leaf;
  if negb (timeframe_text timeframe) then throw ("Invalid timeframe '" +:+ timeframe +:+ "'.")
  else
    entry ← required root "entry_range" ≫= range;
    stoploss ← required root "stoploss" ≫= λ n, signalDecimal n (xn_name n);
    nodes ← required root "targets" ≫= target_nodes;
    targets ← map_targets (λ _ target, range target) 0 nodes;
    _ ← assertStopGeometry action stoploss (Some entry);
    _ ← each_target (loma_target action entry) 0 None targets;
    let values := flat_map (λ target, [range_min target; range_max target]) targets in
    Ok (mkCommon action pair
         ([range_min entry; range_max entry; stoploss] ++ values)
         [mkGroundingField ground_entry [range_min entry; range_max entry]; mkGroundingField ground_target values; mkGroundingField ground_stop [stoploss]]
         None None
         (Some (mkSignal "loma" action pair (RangeEntry entry) targets stoploss None None None))).

Definition validateSpeculant (root : XmlNode) : result CommonSignal :=
  _ ← assertAllowedChildren root ["type"; "action"; "pair"; "conviction"; "timeframe"; "comment"; "risk_warning"];
  type ← required root "type" ≫= leaf;
  if negb (bool_decide (type = "MANIPULATION")) then throw "type must be 'MANIPULATION'."
  else
    action ← actionValue root;
    pair ← pairValue root false;
    conviction ← required root "conviction" ≫= leaf;
    if negb (bool_decide (conviction ∈ ["HIGH"; "MEDIUM"; "LOW"])) then throw "conviction must be HIGH, MEDIUM, or LOW."
    else
      timeframe ← required root "timeframe" ≫= leaf;
      if negb (bool_decide (timeframe ∈ ["SHORT_TERM"; "MID_TERM"])) then throw "timeframe must be SHORT_TERM or MID_TERM."
      else
        comment ← required root "comment" ≫= leaf;
        if (500 <? length (chars comment))%nat then throw "comment must not exceed 500 characters."
        else
          riskWarning ← required root "risk_warning" ≫= leaf;
          if negb (bool_decide (riskWarning ∈ ["true"; "false"])) then throw "risk_warning must be true or false."
          else Ok (mkCommon action pair [] [] (Some comment) None None).

(** ** Declared contracts: structure *)
Definition pathNodes (root : XmlNode) (path : string) : list XmlNode :=
  fold_left (λ current segment, flat_map (λ node, children node (of_chars segment)) current) (split_chars dot_char (chars path)) [root].

Definition pathNode (root : XmlNode) (path : string) (requiredValue : bool) : result (option XmlNode) :=
  match pathNodes root path with
  | [] => if requiredValue then throw ("Required contract path '" +:+ path +:+ "' must appear exactly once.") else Ok None
  | [node] => Ok (Some node)
  | _ => throw ("Contract path '" +:+ path +:+ "' must resolve at most once.")
  end.

Definition pathLeaf (root : XmlNode) (path : string) (requiredValue : bool) : result (option string) :=
  pathNode root path requiredValue ≫= map_option leaf.

(** [parent ? `${parent}.${segment}` : segment] *)
Definition join_path (parent segment : string) : string := if bool_decide (parent = "") then segment else parent +:+ "." +:+ segment.

Abbreviation Structure := (gmap string (gset string)).

Definition add_segment (map : Structure) (parent segment : string) : Structure :=
  <[parent := (map !! parent ?? ∅) ∪ {[segment]}]> map.

Definition addDeclaredPath (map : Structure) (path : string) : Structure :=
  (fold_left (λ '(map, parent) segment, (add_segment map parent (of_chars segment), join_path parent (of_chars segment)))
     (split_chars dot_char (chars path)) (map, "")).1.

Definition declared_paths (definition : SignalContractDefinition) : list string :=
  filter (λ path, path ≠ "")
    ([cd_actionPath definition; cd_pairPath definition] ++ option_list (ce_typePath (cd_entry definition))
     ++ [ce_minimumPath (cd_entry definition); ce_maximumPath (cd_entry definition); ct_containerPath (cd_targets definition); cd_stopLossPath definition]
     ++ option_list (cd_leveragePath definition) ++ option_list (cd_riskPercentPath definition) ++ option_list (cd_averagingPricePath definition)
     ++ map cf_path (cd_additionalFields definition)).

Definition declaredStructure (definition : SignalContractDefinition) : Structure :=
  let targets := cd_targets definition in
  let map := fold_left addDeclaredPath (declared_paths definition) ∅ in
  let map := add_segment map (ct_containerPath targets) (ct_itemTag targets) in
  match ct_shape targets with
  | shape_range =>
      let item := ct_containerPath targets +:+ "." +:+ ct_itemTag targets in
      addDeclaredPath (addDeclaredPath map (item +:+ "." +:+ ct_minimumPath targets)) (item +:+ "." +:+ ct_maximumPath targets)
  | shape_scalar => map
  end.

Fixpoint assertDeclaredNode (node : XmlNode) (path : string) (structure : Structure) : result unit :=
  match node with
  | mkNode name _ text children =>
      let allowed := structure !! path ?? ∅ in
      if bool_decide (children ≠ []) && negb (bool_decide (trim text = "")) then throw ("Mixed text is not allowed inside '" +:+ name +:+ "'.")
      else
        (fix go (l : list XmlNode) : result unit :=
           match l with
           | [] => Ok tt
           | child :: rest =>
               if negb (bool_decide (xn_name child ∈ allowed)) then throw ("Unknown tag '" +:+ xn_name child +:+ "' in '" +:+ name +:+ "'.")
               else _ ← assertDeclaredNode child (join_path path (xn_name child)) structure; go rest
           end) children
  end.

Definition contractDecimal (root : XmlNode) (path : string) (requiredValue : bool) : result (option string) :=
  pathNode root path requiredValue ≫= map_option (λ node, signalDecimal node path).

(** ** Declared contracts: fields *)
Section DeclaredContract.
Context (compiles : string → bool) (evaluate : nat → string → string → option bool) (interrupted : nat → bool).

Definition pattern_budget (path : string) : error :=
  mkError "" ("Contract path '" +:+ path +:+ "' pattern evaluation exceeded its execution budget or failed.").

Definition validateAdditionalFieldText (index : nat) (field : SignalContractAdditionalField) (value : string) : result unit :=
  if negb (bool_decide (cf_allowedValues field = [])) && negb (bool_decide (value ∈ cf_allowedValues field))
  then throw ("Contract path '" +:+ cf_path field +:+ "' contains an unsupported value.")
  else if match cf_maximumLength field with Some n => n <? Z.of_nat (length (chars value)) | None => false end
  then throw ("Contract path '" +:+ cf_path field +:+ "' exceeds its maximum length.")
  else
    match cf_pattern field with
    | Some pattern =>
        match evaluate index pattern value with
        | None => Err (pattern_budget (cf_path field))
        | Some matches => if matches then Ok tt else throw ("Contract path '" +:+ cf_path field +:+ "' does not match its required pattern.")
        end
    | None => Ok tt
    end.

Definition validateAdditionalFieldType (field : SignalContractAdditionalField) (value : string) : result unit :=
  match cf_type field with
  | field_boolean =>
      if negb (bool_decide (value ∈ ["true"; "false"])) then throw ("Contract path '" +:+ cf_path field +:+ "' must be true or false.") else Ok tt
  | field_integer =>
      if negb (integer_part (chars value)) then throw ("Contract path '" +:+ cf_path field +:+ "' must be an unsigned integer.") else Ok tt
  | _ => Ok tt
  end.

Definition validateAdditionalDecimal (root : XmlNode) (field : SignalContractAdditionalField) : result unit :=
  node ← pathNode root (cf_path field) true;
  normalized ← signalDecimal (node ?? mkNode (cf_path field) None "" []) (cf_path field);
  if match cf_minimum field with Some minimum => compareDecimals normalized minimum <? 0 | None => false end
  then throw ("Contract path '" +:+ cf_path field +:+ "' is below its minimum.")
  else if match cf_maximum field with Some maximum => compareDecimals normalized maximum >? 0 | None => false end
  then throw ("Contract path '" +:+ cf_path field +:+ "' exceeds its maximum.")
  else Ok tt.

Definition validateAdditionalField (index : nat) (root : XmlNode) (field : SignalContractAdditionalField) : result unit :=
  value ← pathLeaf root (cf_path field) (cf_required field);
  match value with
  | None => Ok tt
  | Some value =>
      _ ← validateAdditionalFieldText index field value;
      _ ← validateAdditionalFieldType field value;
      match cf_type field with field_decimal => validateAdditionalDecimal root field | _ => Ok tt end
  end.

Fixpoint validateAdditionalFields (index : nat) (root : XmlNode) (fields : list SignalContractAdditionalField) : result unit :=
  match fields with
  | [] => Ok tt
  | field :: rest =>
      if interrupted index then Err (pattern_budget (cf_path field))
      else _ ← validateAdditionalField index root field; validateAdditionalFields (S index) root rest
  end.

(** ** Declared contracts: entry, targets and geometry *)
Definition contractEntry (root : XmlNode) (definition : SignalContractDefinition) : result (option DecimalRange) :=
  let entry := cd_entry definition in
  rangeRequired ← match ce_mode entry with
    | typed =>
        match ce_typePath entry with
        | None => throw "Typed entry requires an entry type path."
        | Some typePath =>
            type ← pathLeaf root typePath true;
            match type with
            | None => throw "Typed entry type is missing."
            | Some type =>
                if bool_decide (type ∈ ce_marketValues entry) then Ok false
                else if bool_decide (type ∈ ce_rangeValues entry) then Ok true
                else throw ("Entry type '" +:+ type +:+ "' is not allowed by the contract.")
            end
        end
    | mode => Ok (bool_decide (mode = required_range))
    end;
  minimum ← contractDecimal root (ce_minimumPath entry) rangeRequired;
  maximum ← contractDecimal root (ce_maximumPath entry) rangeRequired;
  match minimum, maximum with
  | None, Some _ | Some _, None => throw "Entry range minimum and maximum must either both be present or both be absent."
  | _, _ =>
      if bool_decide (ce_mode entry = typed) && negb rangeRequired && bool_decide (minimum ≠ None) then throw "Market entry must omit its entry range."
      else
        match minimum, maximum with
        | Some minimum, Some maximum =>
            if compareDecimals minimum maximum >? 0 then throw "Entry range minimum must not exceed maximum." else Ok (Some (mkRange minimum maximum))
        | _, _ => Ok None
        end
  end.

Definition targetItemRange (item : XmlNode) (definition : SignalContractDefinition) : result DecimalRange :=
  match ct_shape (cd_targets definition) with
  | shape_scalar => value ← signalDecimal item "target"; Ok (mkRange value value)
  | shape_range =>
      minimum ← contractDecimal item (ct_minimumPath (cd_targets definition)) true;
      maximum ← contractDecimal item (ct_maximumPath (cd_targets definition)) true;
      match minimum, maximum with
      | Some minimum, Some maximum =>
          if compareDecimals minimum maximum >? 0 then throw "Target range minimum must not exceed maximum." else Ok (mkRange minimum maximum)
      | _, _ => throw "Target range minimum and maximum are required."
      end
  end.

Fixpoint contract_items (definition : SignalContractDefinition) (index : nat) (items : list XmlNode) : result (list DecimalRange) :=
  match items with
  | [] => Ok []
  | item :: rest =>
      if ct_sequentialIds (cd_targets definition) && negb (bool_decide (xn_id item = Some (Z.of_nat (S index))))
      then throw "Target ids must be sequential and start at 1."
      else target ← targetItemRange item definition; cons target <$> contract_items definition (S index) rest
  end.

Definition contractTargets (root : XmlNode) (definition : SignalContractDefinition) : result (list DecimalRange) :=
  let targets := cd_targets definition in
  container ← pathNode root (ct_containerPath targets) true;
  match container with
  | None => throw "Targets container is missing."
  | Some container =>
      let items := children container (ct_itemTag targets) in
      if (Z.of_nat (length items) <? ct_minimumItems targets) || (Z.of_nat (length items) >? ct_maximumItems targets)
      then throw ("Targets must contain between " +:+ of_chars (to_digits (ct_minimumItems targets)) +:+ " and " +:+ of_chars (to_digits (ct_maximumItems targets)) +:+ " items.")
      else contract_items definition 0 items
  end.

Definition assertOrderedContractTarget (action : TradingSide) (target previous : DecimalRange) : result unit :=
  if bool_decide (action = LONG) && (compareDecimals (range_min target) (range_max previous) <=? 0)
  then throw "LONG targets must be strictly ordered away from entry."
  else if bool_decide (action = SHORT) && (compareDecimals (range_max target) (range_min previous) >=? 0)
  then throw "SHORT targets must be strictly ordered away from entry."
  else Ok tt.

Definition contract_target (geometry : ContractGeometry) (action : TradingSide) (entry : option DecimalRange) (target : DecimalRange) (index : nat)
    (previous : option DecimalRange) : result unit :=
  if cg_orderedRanges geometry && (compareDecimals (range_min target) (range_max target) >? 0)
  then throw ("Target " +:+ show_index (S index) +:+ " range is inverted.")
  else
    _ ← match entry with
        | Some entry =>
            if cg_targetsOnProfitSide geometry && bool_decide (action = LONG) && (compareDecimals (range_min target) (range_max entry) <=? 0)
            then throw ("LONG target " +:+ show_index (S index) +:+ " must be above entry.")
            else if cg_targetsOnProfitSide geometry && bool_decide (action = SHORT) && (compareDecimals (range_max target) (range_min entry) >=? 0)
            then throw ("SHORT target " +:+ show_index (S index) +:+ " must be below entry.")
            else Ok tt
        | None => Ok tt
        end;
    match previous with
    | Some previous => if cg_orderedTargets geometry then assertOrderedContractTarget action target previous else Ok tt
    | None => Ok tt
    end.

Definition assertContractGeometry (definition : SignalContractDefinition) (action : TradingSide) (entry : option DecimalRange) (stopLoss : string)
    (targets : list DecimalRange) : result unit :=
  let geometry := cd_geometry definition in
  match targets with
  | [] => throw "At least one target is required."
  | first :: _ =>
      let baseline := entry ?? first in
      if cg_stopOnLossSide geometry && bool_decide (action = LONG) && (compareDecimals stopLoss (range_min baseline) >=? 0)
      then throw "LONG stoploss must be below the entry range."
      else if cg_stopOnLossSide geometry && bool_decide (action = SHORT) && (compareDecimals stopLoss (range_max baseline) <=? 0)
      then throw "SHORT stoploss must be above the entry range."
      else each_target (contract_target geometry action entry) 0 None targets
  end.

Record DynamicOptionalValues := mkOptionalValues { ov_leverage : option string; ov_risk : option string; ov_averaging : option string }.

Definition dynamicAction (root : XmlNode) (definition : SignalContractDefinition) : result TradingSide :=
  action ← pathLeaf root (cd_actionPath definition) true;
  or_throw (action ≫= side_of) "Action must be 'LONG' or 'SHORT'.".

(** A path that is not declared leaves the value undefined. *)
Definition optional_decimal (root : XmlNode) (path : option string) : result (option string) :=
  match path with Some path => contractDecimal root path false | None => Ok None end.

Definition dynamicOptionalValues (root : XmlNode) (definition : SignalContractDefinition) : result DynamicOptionalValues :=
  leverage ← optional_decimal root (cd_leveragePath definition);
  if match leverage with Some leverage => negb (leverage_text leverage) | None => false end then throw "Leverage must be an integer between 1 and 125."
  else
    risk ← optional_decimal root (cd_riskPercentPath definition);
    if match risk with Some risk => compareDecimals risk "100" >? 0 | None => false end then throw "risk_percent must not exceed 100."
    else
      averaging ← optional_decimal root (cd_averagingPricePath definition);
      Ok (mkOptionalValues leverage risk averaging).

Definition range_list (targets : list DecimalRange) : list string := flat_map (λ target, [range_min target; range_max target]) targets.

Definition dynamicGroundingNumbers (definition : SignalContractDefinition) (entry : option DecimalRange) (targets : list DecimalRange) (stopLoss : string)
    (optional : DynamicOptionalValues) : list string :=
  let grounding := cd_grounding definition in
  let when (b : bool) (l : list string) := if b then l else [] in
  when (gr_entry grounding) (range_values entry) ++ when (gr_targets grounding) (range_list targets) ++ when (gr_stopLoss grounding) [stopLoss]
  ++ when (gr_leverage grounding) (option_list (ov_leverage optional)) ++ when (gr_riskPercent grounding) (option_list (ov_risk optional))
  ++ when (gr_averagingPrice grounding) (option_list (ov_averaging optional)).

Definition dynamicGroundingFields (definition : SignalContractDefinition) (entry : option DecimalRange) (targets : list DecimalRange) (stopLoss : string)
    (optional : DynamicOptionalValues) : list GroundingField :=
  let grounding := cd_grounding definition in
  let when (b : bool) (l : list GroundingField) := if b then l else [] in
  when (gr_entry grounding) (field_of ground_entry (range_values entry)) ++ when (gr_targets grounding) [mkGroundingField ground_target (range_list targets)]
  ++ when (gr_stopLoss grounding) [mkGroundingField ground_stop [stopLoss]]
  ++ when (gr_leverage grounding) (field_of ground_leverage (option_list (ov_leverage optional)))
  ++ when (gr_riskPercent grounding) (field_of ground_risk (option_list (ov_risk optional)))
  ++ when (gr_averagingPrice grounding) (field_of ground_averaging (option_list (ov_averaging optional))).

(** [{ ...root, children: [{ ...pairNode, name: 'pair' }] }] *)
Definition pair_root (root pairNode : XmlNode) : XmlNode :=
  mkNode (xn_name root) (xn_id root) (xn_text root) [mkNode "pair" (xn_id pairNode) (xn_text pairNode) (xn_children pairNode)].

Definition validateDynamicContract (root : XmlNode) (input : jsval) : result CommonSignal :=
  definition ← validateSignalContractDefinition compiles input;
  _ ← assertDeclaredNode root "" (declaredStructure definition);
  action ← dynamicAction root definition;
  pairNode ← pathNode root (cd_pairPath definition) true;
  match pairNode with
  | None => throw "Required contract path is missing."
  | Some pairNode =>
      pair ← pairValue (pair_root root pairNode) true;
      entry ← contractEntry root definition;
      targets ← contractTargets root definition;
      stop ← contractDecimal root (cd_stopLossPath definition) true;
      match stop with
      | None => throw "Required contract path is missing."
      | Some stopLoss =>
          optional ← dynamicOptionalValues root definition;
          _ ← validateAdditionalFields 0 root (cd_additionalFields definition);
          _ ← assertContractGeometry definition action entry stopLoss targets;
          Ok (mkCommon action pair (dynamicGroundingNumbers definition entry targets stopLoss optional)
               (dynamicGroundingFields definition entry targets stopLoss optional) None
               (Some (mkGroundingPolicy (gr_action (cd_grounding definition)) (gr_pair (cd_grounding definition))))
               (Some (mkSignal "dynamic" action pair (entry_of entry) targets stopLoss (number <$> ov_leverage optional) (ov_risk optional)
                        (ov_averaging optional))))
      end
  end.

(** ** The validator *)
Definition schemaForTemplate (templateName : option string) : string :=
  let template := match templateName with Some name => if bool_decide (name = "") then "default" else name | None => "default" end in
  let normalized := toLowerCase (trim template) in
  if bool_decide (normalized ∈ ["cryptodanielvip"; "loma"; "speculantca"]) then normalized else "standard".

Definition selected (executableSchema : SchemaChoice) : option ExecutableSignalSchemaSelection :=
  match executableSchema with choose selection => Some selection | _ => None end.

Definition executableDefinition (executableSchema : SchemaChoice) : result (option jsval) :=
  let schemaDefinition := selected executableSchema ≫= sel_schemaDefinition in
  let contractDefinition := selected executableSchema ≫= sel_contractDefinition in
  match schemaDefinition, contractDefinition with
  | Some schema, Some contract => Some ∘ definitionJson <$> composeSignalSchemaContract compiles schema contract
  | Some schema, None => Ok (Some schema)
  | None, contract => Ok contract
  end.

Definition validateLegacyParserSchema (root : XmlNode) (parserSchema : string) : result CommonSignal :=
  if bool_decide (parserSchema = "cryptodanielvip") then validateCryptoDaniel root
  else if bool_decide (parserSchema = "loma") then validateLoma root
  else if bool_decide (parserSchema = "speculantca") then validateSpeculant root
  else validateStandard root.

Definition with_execution (execution : option ExecutableSignal) (c : CommonSignal) : CommonSignal :=
  mkCommon (vs_action c) (vs_pair c) (vs_groundingNumbers c) (vs_groundingFields c) (vs_groundingComment c) (vs_groundingPolicy c) execution.

Definition with_schema (schema : string) (e : ExecutableSignal) : ExecutableSignal :=
  mkSignal schema (sig_action e) (sig_symbol e) (sig_entry e) (sig_targets e) (sig_stopLoss e) (sig_suggestedLeverage e) (sig_suggestedRiskPercent e)
    (sig_averagingPrice e).

Definition validateSignalXml (xml : string) (templateName : option string) (executableSchema : SchemaChoice) : result ValidatedSignal :=
  let normalizedXml := trim xml in
  root ← parseXml normalizedXml;
  let parserSchema := (sel_parserSchema <$> selected executableSchema) ?? schemaForTemplate templateName in
  let schema := (sel_id <$> selected executableSchema) ?? parserSchema in
  dynamicDefinition ← executableDefinition executableSchema;
  common ← match dynamicDefinition with
    | Some dynamic =>
        validatedDefinition ← validateSignalContractDefinition compiles dynamic;
        _ ← assertAllowedIdAttributes root (ct_itemTag (cd_targets validatedDefinition));
        validateDynamicContract root (definitionJson validatedDefinition)
    | None =>
        common ← validateLegacyParserSchema root parserSchema;
        _ ← assertAllowedIdAttributes root "target";
        Ok common
    end;
  let execution := match executableSchema with choose_none => None | _ => with_schema schema <$> vs_execution common end in
  Ok (mkValidated normalizedXml schema (with_execution execution common)).
End DeclaredContract.

(** ** What a signal means *)

(** A price: a decimal text of a positive amount, in units of 10^-18. *)
Definition value (s : string) : Z := units s ?? 0.
Definition price (s : string) : Prop := units s = Some (value s) ∧ 0 < value s.
Definition valid_range (r : DecimalRange) : Prop := price (range_min r) ∧ price (range_max r) ∧ value (range_min r) <= value (range_max r).
Definition point (s : string) : DecimalRange := mkRange s s.

(** [s] lies beyond [r] in the direction of the profit. *)
Definition beyond (action : TradingSide) (r s : DecimalRange) : Prop :=
  match action with
  | LONG => value (range_max r) < value (range_min s)
  | SHORT => value (range_max s) < value (range_min r)
  end.

(** The three promises of a contract's geometry: the stop is on the side of the
    loss of the entry (of the first target, for an entry at the market), every
    target is on the side of the profit of the entry, and the targets lead away
    from it. *)
Definition geometry_sound (geometry : ContractGeometry) (action : TradingSide) (stop : string) (entry : option DecimalRange) (targets : list DecimalRange) : Prop :=
  (cg_stopOnLossSide geometry = true → ∀ first, head targets = Some first → beyond action (point stop) (entry ?? first)) ∧
  (cg_targetsOnProfitSide geometry = true → ∀ r, entry = Some r → Forall (beyond action r) targets) ∧
  (cg_orderedTargets geometry = true → Sorted (beyond action) targets).

Definition entry_range (e : SignalEntry) : option DecimalRange := match e with RangeEntry r => Some r | MarketEntry => None end.

(** What an executable signal promises. *)
Record signal_sound (geometry : ContractGeometry) (e : ExecutableSignal) : Prop := {
  so_stop : price (sig_stopLoss e);
  so_targets : Forall valid_range (sig_targets e);
  so_count : (1 <= length (sig_targets e) <= 20)%nat;
  so_entry : option_all valid_range (entry_range (sig_entry e));
  so_leverage : option_all (λ n, 1 <= n <= 125) (sig_suggestedLeverage e);
  so_risk : option_all (λ s, price s ∧ value s <= 100 * ONE) (sig_suggestedRiskPercent e);
  so_averaging : option_all price (sig_averagingPrice e);
  so_geometry : geometry_sound geometry (sig_action e) (sig_stopLoss e) (entry_range (sig_entry e)) (sig_targets e) }.

(** *** Decimals *)
Lemma integer_part_pattern l : integer_part l = true → integer_pattern l = true.
Proof.
  destruct l as [|c l]; cbn; [done|]. rewrite !andb_true_iff. intros [Hc H]. split; [done|]. destruct (decide (c = zero_char)); [done|].
  rewrite !andb_true_iff, !Nat.leb_le in *. destruct H as [H1 H2]. split; [done|lia].
Qed.

Lemma plain_decimal_units s : plain_decimal s = true → units s = Some (value s) ∧ 0 <= value s.
Proof.
  intros H. assert (DECIMAL_PATTERN s = true) as Hp.
  { unfold plain_decimal, DECIMAL_PATTERN in *. destruct (split_chars dot_char (chars s)) as [|i [|f [|]]]; try done; [by apply integer_part_pattern|].
    apply andb_true_iff in H as [H1 H2]. by rewrite integer_part_pattern. }
  assert (∃ p, parse s = Ok p) as (p & Hq) by (unfold parse; rewrite Hp; by eexists). apply parse_units in Hq as Ha. unfold value. rewrite Ha. split; [done|]. by apply units_bounds in Ha as [? _].
Qed.

Lemma compareDecimals_units l r a b : units l = Some a → units r = Some b → compareDecimals l r = cmpZ a b.
Proof.
  intros (p & Hp & -> & Hs & Hc)%units_parse (q & Hq & -> & Hs' & Hc')%units_parse. unfold parse in Hp, Hq.
  destruct (DECIMAL_PATTERN l); [|done]. destruct (DECIMAL_PATTERN r); [|done]. cbn [negb] in Hp, Hq. injection Hp as <-. injection Hq as <-.
  cbn [coefficient scale] in *. unfold compareDecimals. cbn zeta.
  set (il := default [] (split_chars dot_char (chars l) !! 0%nat)) in *. set (fl := default [] (split_chars dot_char (chars l) !! 1%nat)) in *.
  set (ir := default [] (split_chars dot_char (chars r) !! 0%nat)) in *. set (fr := default [] (split_chars dot_char (chars r) !! 1%nat)) in *.
  clearbody il fl ir fr. set (m := Nat.max (length fl) (length fr)).
  assert (∀ i f, (length f <= m)%nat → digits (i ++ padEnd m f) * 10 ^ (18 - Z.of_nat m) = digits (i ++ f) * 10 ^ (18 - Z.of_nat (length f))) as H.
  { intros i f Hf. unfold padEnd. rewrite app_assoc, digits_pad, <-Z.mul_assoc, <-Z.pow_add_r by lia. do 2 f_equal. lia. }
  rewrite <-!H by lia. clear H. unfold cmpZ. pose proof (pow10_pos (18 - Z.of_nat m) ltac:(lia)) as Hpos. clearbody m.
  set (x := digits (il ++ padEnd m fl)). set (y := digits (ir ++ padEnd m fr)). clearbody x y. rewrite !Z.gtb_ltb.
  destruct (Z.ltb_spec x y), (Z.ltb_spec y x), (Z.ltb_spec (x * 10 ^ (18 - Z.of_nat m)) (y * 10 ^ (18 - Z.of_nat m))), (Z.ltb_spec (y * 10 ^ (18 - Z.of_nat m)) (x * 10 ^ (18 - Z.of_nat m)));
    try done; nia.
Qed.

Lemma compare_prices l r : price l → price r → compareDecimals l r = cmpZ (value l) (value r).
Proof. intros [Hl _] [Hr _]. by apply compareDecimals_units. Qed.

Lemma signalDecimal_Ok n label s : signalDecimal n label = Ok s → price s.
Proof.
  unfold signalDecimal. intros H. apply bind_Ok in H as (v & _ & H). destruct (plain_decimal v) eqn:Hp; cbn [negb] in H; [|done].
  destruct (compareDecimals v "0" <=? 0) eqn:Hc; [done|]. injection H as <-. destruct (plain_decimal_units _ Hp) as [Hu H0]. split; [done|].
  rewrite (compareDecimals_units _ _ _ 0 Hu) in Hc by done. apply Z.leb_gt in Hc. destruct (cmpZ_cases (value v) 0) as [[? E]|[[? E]|[? E]]]; rewrite E in Hc; lia.
Qed.

(** A comparison that did not throw, as an order of values. *)
Lemma cmp_le l r : price l → price r → (compareDecimals l r >? 0) = false → value l <= value r.
Proof. intros Hl Hr. rewrite compare_prices, (proj1 (proj2 (cmpZ_spec _ _))), Z.ltb_ge by done. done. Qed.
Lemma cmp_lt l r : price l → price r → (compareDecimals l r >=? 0) = false → value l < value r.
Proof. intros Hl Hr. rewrite compare_prices, Z.geb_leb, Z.leb_gt by done. destruct (cmpZ_cases (value l) (value r)) as [[? E]|[[? E]|[? E]]]; lia. Qed.
Lemma cmp_gt l r : price l → price r → (compareDecimals l r <=? 0) = false → value r < value l.
Proof. intros Hl Hr. rewrite compare_prices, Z.leb_gt by done. destruct (cmpZ_cases (value l) (value r)) as [[? E]|[[? E]|[? E]]]; lia. Qed.

Lemma range_Ok n r : range n = Ok r → valid_range r.
Proof.
  unfold range. intros H. apply bind_Ok in H as (u & _ & H). apply bind_Ok in H as (mn & Hmn & H). apply bind_Ok in Hmn as (n1 & _ & Hmn%signalDecimal_Ok).
  apply bind_Ok in H as (mx & Hmx & H). apply bind_Ok in Hmx as (n2 & _ & Hmx%signalDecimal_Ok). destruct (_ >? 0) eqn:E; [done|]. injection H as <-.
  split_and!; [done..|by apply cmp_le].
Qed.

Lemma point_valid s : price s → valid_range (point s).
Proof. intros H. by split_and!. Qed.

(** *** Lists of targets *)
Lemma map_targets_Ok {A} (read : nat → XmlNode → result A) (P : A → Prop) i nodes ts :
  (∀ i n t, read i n = Ok t → P t) → map_targets read i nodes = Ok ts → Forall P ts ∧ length ts = length nodes.
Proof.
  intros HP. revert i ts. induction nodes as [|n nodes IH]; intros i ts; cbn [map_targets]; [intros [= <-]; by split|].
  destruct (negb _); [done|]. intros H. apply bind_Ok in H as (t & Ht & H). apply fmap_Ok in H as (ts' & H & ->). destruct (IH _ _ H) as [H1 H2].
  split; [constructor; [by eapply HP|done]|cbn; by rewrite H2].
Qed.

Lemma target_nodes_Ok n nodes : target_nodes n = Ok nodes → (1 <= length nodes <= 20)%nat.
Proof.
  unfold target_nodes. intros H. apply bind_Ok in H as (u & _ & H). destruct (_ || _) eqn:E; [done|]. injection H as <-.
  rewrite orb_false_iff, !Nat.ltb_ge in E. lia.
Qed.

Lemma scalarTargets_Ok n ts : scalarTargets n = Ok ts → Forall price ts ∧ (1 <= length ts <= 20)%nat.
Proof.
  unfold scalarTargets. intros H. apply bind_Ok in H as (nodes & Hn%target_nodes_Ok & H). apply (map_targets_Ok _ price) in H as [H1 H2].
  - split; [done|lia].
  - intros i m t. apply signalDecimal_Ok.
Qed.

(** A loop over the targets checks each one alone and against its predecessor. *)
Lemma each_target_Ok {A} (check : A → nat → option A → result unit) (Q P : A → Prop) (R : A → A → Prop) i previous ts :
  (∀ t i p, Q t → (∀ p', p = Some p' → Q p') → check t i p = Ok tt → P t ∧ ∀ p', p = Some p' → R p' t) →
  Forall Q ts → (∀ p, previous = Some p → Q p) → each_target check i previous ts = Ok tt →
  Forall P ts ∧ Sorted R ts ∧ (∀ p, previous = Some p → HdRel R p ts).
Proof.
  intros HPR HQ. revert i previous. induction HQ as [|t ts Ht HQ IH]; intros i previous Hp; cbn [each_target]; [intros _; split_and!; constructor|].
  intros H. apply bind_Ok in H as ([] & Hc & H). destruct (HPR _ _ _ Ht Hp Hc) as [HP HR]. destruct (IH _ (Some t) ltac:(by intros ? [= <-]) H) as (H1 & H2 & H3).
  split_and!; [by constructor|constructor; [done|by apply H3]|]. intros p Hpp. constructor. by apply HR.
Qed.

(** Decide the tests of the side in a hypothesis. *)
Ltac decide_side H :=
  rewrite ?(bool_decide_true (LONG = LONG)), ?(bool_decide_false (LONG = SHORT)), ?(bool_decide_true (SHORT = SHORT)), ?(bool_decide_false (SHORT = LONG)) in H by done;
  rewrite ?andb_true_r, ?andb_false_r in H; cbn [andb] in H.

(** *** Legacy schemas *)
Lemma map_option_Ok {A B} (f : A → result B) (P : B → Prop) o r : (∀ a b, f a = Ok b → P b) → map_option f o = Ok r → option_all P r.
Proof. intros HP. destruct o as [a|]; cbn; [|by intros [= <-]]. intros H. apply fmap_Ok in H as (b & Hb & ->). intros ? [= <-]. by eapply HP. Qed.

Lemma entry_range_of o : entry_range (entry_of o) = o.
Proof. by destruct o. Qed.

Lemma leverage_text_bounds s : leverage_text s = true → 1 <= number s <= 125.
Proof. unfold leverage_text, number. rewrite !andb_true_iff, Z.leb_le. intros [[[_ H]%is_id_spec _] H2]. lia. Qed.

Lemma pairValue_Ok n p : pairValue n true = Ok p → quoted_pair (chars p) = true.
Proof. unfold pairValue. intros H. apply bind_Ok in H as (q & _ & H). destruct (quoted_pair (chars q)) eqn:E; cbn in H; [|done]. by injection H as <-. Qed.

Lemma stop_geometry action stop entry : price stop → valid_range entry → assertStopGeometry action stop (Some entry) = Ok tt → beyond action (point stop) entry.
Proof.
  intros Hs (Hmn & Hmx & _). cbn. destruct action.
  - destruct (_ >=? 0) eqn:E; [done|]. intros _. by apply cmp_lt.
  - destruct (_ <=? 0) eqn:E; [done|]. intros _. by apply cmp_gt.
Qed.

Lemma Sorted_map {A B} (f : A → B) (R : A → A → Prop) (R' : B → B → Prop) l : (∀ x y, R x y → R' (f x) (f y)) → Sorted R l → Sorted R' (map f l).
Proof.
  intros HR. induction 1 as [|x l _ IH Hh]; cbn; constructor; [done|]. destruct Hh; cbn; constructor. by apply HR.
Qed.

Lemma scalar_geometry action stop targets entry : price stop → Forall price targets → option_all valid_range entry →
  assertScalarGeometry action stop targets entry = Ok tt → geometry_sound GEOMETRY action stop entry (map point targets).
Proof.
  intros Hs Ht He H. unfold assertScalarGeometry in H. apply bind_Ok in H as ([] & Hstop & H).
  set (baseline := match entry with None => stop | Some e => match action with LONG => range_max e | SHORT => range_min e end end) in *.
  assert (price baseline) as Hb by (subst baseline; destruct entry as [e|]; [destruct (He e eq_refl) as (? & ? & _); by destruct action|done]).
  apply (each_target_Ok _ price (λ t, beyond action (point baseline) (point t)) (λ p t, beyond action (point p) (point t))) in H as (H1 & H2 & _); [|clear H|done|done].
  - split_and!; intros _.
    + intros first Hf. destruct entry as [e|]; [by apply stop_geometry; [|apply He|]|]. destruct targets as [|t targets]; [done|]. injection Hf as <-.
      apply Forall_cons in H1 as [H1 _]. exact H1.
    + intros r ->. apply Forall_map. eapply Forall_impl; [exact H1|]. intros t. subst baseline. cbn. by destruct action.
    + apply (Sorted_map point (λ p t, beyond action (point p) (point t))); done.
  - intros t i p Htp Hp. unfold assertTargetGeometry. destruct action; intros H; decide_side H.
    + destruct (compareDecimals t baseline <=? 0) eqn:E; [done|]. split; [by apply cmp_gt|]. intros p' ->. destruct (_ >=? 0) eqn:E2; [done|]. apply cmp_lt; [by apply Hp|done..].
    + destruct (compareDecimals t baseline >=? 0) eqn:E; [done|]. split; [by apply cmp_lt|]. intros p' ->. destruct (_ <=? 0) eqn:E2; [done|]. apply cmp_gt; [by apply Hp|done..].
Qed.

(** The execution of a validated signal, if it has one. *)
Definition common_sound (geometry : ContractGeometry) (c : CommonSignal) : Prop :=
  ∀ e, vs_execution c = Some e →
    sig_action e = vs_action c ∧ sig_symbol e = vs_pair c ∧ quoted_pair (chars (sig_symbol e)) = true ∧ signal_sound geometry e.

Lemma scalar_sound schema action pair entry targets stop leverage averaging risk numbers fields comment policy :
  quoted_pair (chars pair) = true → price stop → Forall price targets ∧ (1 <= length targets <= 20)%nat → option_all valid_range entry →
  option_all (λ l, leverage_text l = true) leverage → option_all price averaging → option_all (λ s, price s ∧ value s <= 100 * ONE) risk →
  assertScalarGeometry action stop targets entry = Ok tt →
  common_sound GEOMETRY (mkCommon action pair numbers fields comment policy (Some (scalarExecution schema action pair entry targets stop leverage averaging risk))).
Proof.
  intros Hp Hs [Ht Hl] He Hlev Hav Hr Hg e [= <-]. cbn [vs_action vs_pair scalarExecution sig_action sig_symbol]. split_and!; [done..|].
  assert (Forall valid_range (map point targets)) by (apply Forall_map; eapply Forall_impl; [exact Ht|apply point_valid]).
  split; cbn [sig_stopLoss sig_targets sig_entry sig_suggestedLeverage sig_suggestedRiskPercent sig_averagingPrice scalarExecution]; rewrite ?entry_range_of, ?length_map; try done.
  - destruct leverage as [l|]; [|done]. intros ? [= <-]. by apply leverage_text_bounds, Hlev.
  - by apply scalar_geometry.
Qed.

Lemma optional_range_Ok root name entry : optional root name ≫= map_option range = Ok entry → option_all valid_range entry.
Proof. intros H. apply bind_Ok in H as (n & _ & H). eapply map_option_Ok; [|exact H]. intros ? ?. apply range_Ok. Qed.

Lemma stop_Ok root name s : (required root name ≫= λ n, signalDecimal n (xn_name n)) = Ok s → price s.
Proof. intros H. apply bind_Ok in H as (n & _ & H). by eapply signalDecimal_Ok. Qed.

Lemma targets_Ok root name ts : required root name ≫= scalarTargets = Ok ts → Forall price ts ∧ (1 <= length ts <= 20)%nat.
Proof. intros H. apply bind_Ok in H as (n & _ & H). by eapply scalarTargets_Ok. Qed.

Lemma validateStandard_sound root c : validateStandard root = Ok c → common_sound GEOMETRY c.
Proof.
  unfold validateStandard. intros H. apply bind_Ok in H as (u & _ & H). apply bind_Ok in H as (action & _ & H). apply bind_Ok in H as (pair & Hp%pairValue_Ok & H).
  apply bind_Ok in H as (entry & He%optional_range_Ok & H). apply bind_Ok in H as (targets & Ht%targets_Ok & H). apply bind_Ok in H as (stop & Hs%stop_Ok & H).
  apply bind_Ok in H as (leverage & Hl & H). apply bind_Ok in H as ([] & Hg & [= <-]). apply scalar_sound; try done.
  apply bind_Ok in Hl as (n & _ & Hl). eapply map_option_Ok; [|exact Hl]. intros m l H. apply bind_Ok in H as (l' & _ & H).
  destruct (leverage_text l') eqn:E; [|done]. by injection H as <-.
Qed.

Lemma optionalDecimalChild_Ok root name o : optionalDecimalChild root name = Ok o → option_all price o.
Proof. unfold optionalDecimalChild. intros H. apply bind_Ok in H as (n & _ & H). eapply map_option_Ok; [|exact H]. intros ? ?. apply signalDecimal_Ok. Qed.

Lemma units_100 : units "100" = Some (100 * ONE).
Proof. change "100" with (dec (100 * ONE)). apply units_dec_lt. split; [done|]. by vm_compute. Qed.

Lemma at_most_100 s : price s → (compareDecimals s "100" >? 0) = false → value s <= 100 * ONE.
Proof. intros [Hs _]. rewrite (compareDecimals_units _ _ _ _ Hs units_100), (proj1 (proj2 (cmpZ_spec _ _))), Z.ltb_ge. done. Qed.

Lemma validateCryptoDaniel_sound root c : validateCryptoDaniel root = Ok c → common_sound GEOMETRY c.
Proof.
  unfold validateCryptoDaniel. intros H. apply bind_Ok in H as (u & _ & H). apply bind_Ok in H as (action & _ & H). apply bind_Ok in H as (pair & Hp%pairValue_Ok & H).
  apply bind_Ok in H as (type & _ & H). destruct (_ && _) in H; [done|]. apply bind_Ok in H as (entry & He & H).
  apply bind_Ok in H as (averaging & Hav%optionalDecimalChild_Ok & H). apply bind_Ok in H as (targets & Ht%targets_Ok & H). apply bind_Ok in H as (stop & Hs%stop_Ok & H).
  apply bind_Ok in H as (risk & Hr & H). apply bind_Ok in H as ([] & Hg & [= <-]). apply scalar_sound; try done.
  - unfold cryptodanielEntry in He. apply bind_Ok in He as (n & _ & He). destruct (_ && _) in He; [done|]. destruct (_ && _) in He; [done|].
    eapply map_option_Ok; [|exact He]. intros ? ?. apply range_Ok.
  - unfold cryptodanielRisk in Hr. apply bind_Ok in Hr as (o & Ho%optionalDecimalChild_Ok & Hr). destruct o as [s|]; [|by injection Hr as <-].
    destruct (_ >? 0) eqn:E; [done|]. injection Hr as <-. intros ? [= <-]. split; [by apply Ho|]. apply at_most_100; [by apply Ho|done].
Qed.

Lemma loma_target_Ok action entry t i p : valid_range entry → valid_range t → (∀ p', p = Some p' → valid_range p') →
  loma_target action entry t i p = Ok tt → beyond action entry t ∧ ∀ p', p = Some p' → beyond action p' t.
Proof.
  intros (Hn & Hx & _) (Htn & Htx & _) Hp. unfold loma_target. destruct action; cbn [beyond]; intros H; decide_side H.
  - destruct (compareDecimals (range_min t) (range_max entry) <=? 0) eqn:E; [done|]. split; [by apply cmp_gt|]. intros p' ->. destruct (Hp p' eq_refl) as (_ & Hpx & _).
    destruct (compareDecimals (range_min t) (range_max p') <=? 0) eqn:E2; [done|]. by apply cmp_gt.
  - destruct (compareDecimals (range_max t) (range_min entry) >=? 0) eqn:E; [done|]. split; [by apply cmp_lt|]. intros p' ->. destruct (Hp p' eq_refl) as (Hpn & _).
    destruct (compareDecimals (range_max t) (range_min p') >=? 0) eqn:E2; [done|]. by apply cmp_lt.
Qed.

Lemma validateLoma_sound root c : validateLoma root = Ok c → common_sound GEOMETRY c.
Proof.
  unfold validateLoma. intros H. apply bind_Ok in H as (u & _ & H). apply bind_Ok in H as (action & _ & H). apply bind_Ok in H as (pair & Hp%pairValue_Ok & H).
  apply bind_Ok in H as (tf & _ & H). destruct (negb (timeframe_text tf)); [done|]. apply bind_Ok in H as (entry & He & H).
  apply bind_Ok in He as (en & _ & He%range_Ok). apply bind_Ok in H as (stop & Hs%stop_Ok & H). apply bind_Ok in H as (nodes & Hn & H).
  apply bind_Ok in Hn as (tn & _ & Hn%target_nodes_Ok). apply bind_Ok in H as (targets & Ht & H).
  apply (map_targets_Ok _ valid_range) in Ht as [Ht Hl]; [|intros ? ? ?; apply range_Ok]. apply bind_Ok in H as ([] & Hg & H). apply bind_Ok in H as ([] & Hts & [= <-]).
  intros e [= <-]. cbn [vs_action vs_pair sig_action sig_symbol]. split_and!; [done..|].
  apply (each_target_Ok _ valid_range (beyond action entry) (beyond action)) in Hts as (H1 & H2 & _); [|intros ? ? ? ? ?; by apply loma_target_Ok|done|done].
  split; cbn; try done; [lia|by intros ? [= <-]|]. split_and!; intros _; [|by intros r [= <-]|done]. intros first _. by apply stop_geometry.
Qed.

Lemma validateLegacy_sound root parserSchema c : validateLegacyParserSchema root parserSchema = Ok c → common_sound GEOMETRY c.
Proof.
  unfold validateLegacyParserSchema. repeat case_bool_decide; [apply validateCryptoDaniel_sound|apply validateLoma_sound| |apply validateStandard_sound].
  unfold validateSpeculant. intros Hv e He. ok_inv. done.
Qed.

(** *** Declared contracts *)
Lemma contractDecimal_Ok root path b o : contractDecimal root path b = Ok o → option_all price o.
Proof. unfold contractDecimal. intros H. apply bind_Ok in H as (n & _ & H). eapply map_option_Ok; [|exact H]. intros ? ?. apply signalDecimal_Ok. Qed.

Lemma contractEntry_Ok root d o : contractEntry root d = Ok o → option_all valid_range o.
Proof.
  unfold contractEntry. intros H. apply bind_Ok in H as (b & _ & H). apply bind_Ok in H as (mn & Hmn%contractDecimal_Ok & H).
  apply bind_Ok in H as (mx & Hmx%contractDecimal_Ok & H). destruct mn as [mn|], mx as [mx|]; try done; destruct (_ && _) in H; try done; [|by injection H as <-].
  destruct (_ >? 0) eqn:E; [done|]. injection H as <-. intros ? [= <-]. specialize (Hmn mn eq_refl). specialize (Hmx mx eq_refl). split_and!; [done..|by apply cmp_le].
Qed.

Lemma targetItemRange_Ok n d r : targetItemRange n d = Ok r → valid_range r.
Proof.
  unfold targetItemRange. destruct (ct_shape _); intros H.
  - apply bind_Ok in H as (v & Hv%signalDecimal_Ok & [= <-]). by apply point_valid.
  - apply bind_Ok in H as (mn & Hmn%contractDecimal_Ok & H). apply bind_Ok in H as (mx & Hmx%contractDecimal_Ok & H). destruct mn as [mn|], mx as [mx|]; try done.
    destruct (_ >? 0) eqn:E; [done|]. injection H as <-. specialize (Hmn mn eq_refl). specialize (Hmx mx eq_refl). split_and!; [done..|by apply cmp_le].
Qed.

Lemma contract_items_Ok d i items ts : contract_items d i items = Ok ts → Forall valid_range ts ∧ length ts = length items.
Proof.
  revert i ts. induction items as [|n items IH]; intros i ts; cbn [contract_items]; [intros [= <-]; by split|].
  destruct (_ && _); [done|]. intros H. apply bind_Ok in H as (t & Ht%targetItemRange_Ok & H). apply fmap_Ok in H as (ts' & H & ->). destruct (IH _ _ H) as [H1 H2].
  split; [by constructor|cbn; by rewrite H2].
Qed.

Lemma contractTargets_Ok root d ts : targets_ok (cd_targets d) → contractTargets root d = Ok ts → Forall valid_range ts ∧ (1 <= length ts <= 20)%nat.
Proof.
  intros [_ _ _ _ Hi] H. unfold contractTargets in H. apply bind_Ok in H as ([n|] & _ & H); [|done]. destruct (_ || _) eqn:E; [done|].
  apply contract_items_Ok in H as [H1 H2]. split; [done|]. rewrite orb_false_iff, Z.gtb_ltb, !Z.ltb_ge in E. lia.
Qed.

Lemma ordered_target_Ok action t p : valid_range t → valid_range p → assertOrderedContractTarget action t p = Ok tt → beyond action p t.
Proof.
  intros (Htn & Htx & _) (Hpn & Hpx & _). unfold assertOrderedContractTarget. destruct action; intros H; decide_side H.
  - destruct (_ <=? 0) eqn:E; [done|]. by apply cmp_gt.
  - destruct (_ >=? 0) eqn:E; [done|]. by apply cmp_lt.
Qed.

Lemma contract_target_Ok g action entry t i p : option_all valid_range entry → valid_range t → (∀ p', p = Some p' → valid_range p') →
  contract_target g action entry t i p = Ok tt →
  (cg_targetsOnProfitSide g = true → ∀ r, entry = Some r → beyond action r t) ∧ ∀ p', p = Some p' → cg_orderedTargets g = true → beyond action p' t.
Proof.
  intros He Ht Hp. unfold contract_target. destruct (_ && _); [done|]. intros H. apply bind_Ok in H as ([] & Hside & H). split.
  - intros Hg r ->. destruct (He r eq_refl) as (Hn & Hx & _), Ht as (Htn & Htx & _). rewrite Hg in Hside. destruct action; decide_side Hside.
    + destruct (_ <=? 0) eqn:E; [done|]. by apply cmp_gt.
    + destruct (_ >=? 0) eqn:E; [done|]. by apply cmp_lt.
  - intros p' -> Hg. rewrite Hg in H. apply ordered_target_Ok; auto.
Qed.

Lemma contract_geometry d action entry stop targets : price stop → option_all valid_range entry → Forall valid_range targets →
  assertContractGeometry d action entry stop targets = Ok tt → geometry_sound (cd_geometry d) action stop entry targets.
Proof.
  intros Hs He Ht H. unfold assertContractGeometry in H. set (g := cd_geometry d) in *. clearbody g. destruct targets as [|first targets]; [done|].
  assert (valid_range (default first entry)) as (Hbn & Hbx & _). { destruct entry as [r|]; [by apply He|]. by apply Forall_cons in Ht as [? _]. }
  cbn zeta in H. destruct (cg_stopOnLossSide g && _ && _) eqn:E1 in H; [done|]. destruct (cg_stopOnLossSide g && _ && _) eqn:E2 in H; [done|].
  apply (each_target_Ok _ valid_range (λ t, cg_targetsOnProfitSide g = true → ∀ r, entry = Some r → beyond action r t)
    (λ p t, cg_orderedTargets g = true → beyond action p t)) in H as (H1 & H2 & _); [|intros ? ? ? ? ?; by apply contract_target_Ok|done|done].
  split_and!.
  - intros Hg f [= <-]. rewrite Hg in E1, E2. destruct action; decide_side E1; decide_side E2; cbn; [by apply cmp_lt|by apply cmp_gt].
  - intros Hg r ->. eapply Forall_impl; [exact H1|]. intros t Hb. by apply Hb.
  - intros Hg. clear -H2 Hg. induction H2 as [|t ts _ IH Hh]; constructor; [done|]. destruct Hh; constructor. auto.
Qed.

Section ContractSound.
Context (compiles : string → bool) (evaluate : nat → string → string → option bool) (interrupted : nat → bool).

Lemma optional_decimal_Ok root path o : optional_decimal root path = Ok o → option_all price o.
  Proof. destruct path; cbn; [apply contractDecimal_Ok|by intros [= <-]]. Qed.

Lemma dynamicOptionalValues_Ok root d o : dynamicOptionalValues root d = Ok o →
    option_all (λ l, leverage_text l = true) (ov_leverage o) ∧ option_all (λ s, price s ∧ value s <= 100 * ONE) (ov_risk o) ∧ option_all price (ov_averaging o).
  Proof.
    unfold dynamicOptionalValues. intros H. apply bind_Ok in H as (l & _ & H). destruct (match l with Some _ => _ | None => _ end) eqn:El in H; [done|].
    apply bind_Ok in H as (r & Hr%optional_decimal_Ok & H). destruct (match r with Some _ => _ | None => _ end) eqn:Er in H; [done|].
    apply bind_Ok in H as (a & Ha%optional_decimal_Ok & [= <-]). cbn. split_and!; [|intros s ->; split; [by apply Hr|apply at_most_100; [by apply Hr|done]]|done].
    intros s ->. by apply negb_false_iff in El.
  Qed.

Lemma validateDynamicContract_sound root input c : validateDynamicContract compiles evaluate interrupted root input = Ok c →
    ∃ d, validateSignalContractDefinition compiles input = Ok d ∧ common_sound (cd_geometry d) c.
  Proof.
    unfold validateDynamicContract. intros H. apply bind_Ok in H as (d & Hd & H). exists d. split; [done|]. pose proof (validate_ok _ _ _ Hd) as Hok.
    apply bind_Ok in H as (u & _ & H). apply bind_Ok in H as (action & _ & H). apply bind_Ok in H as ([pn|] & _ & H); [|done].
    apply bind_Ok in H as (pair & Hp%pairValue_Ok & H). apply bind_Ok in H as (entry & He%contractEntry_Ok & H).
    apply bind_Ok in H as (targets & Ht & H). apply contractTargets_Ok in Ht as [Ht Hl]; [|by apply do_targets with compiles].
    apply bind_Ok in H as ([stop|] & Hs%contractDecimal_Ok & H); [|done]. specialize (Hs stop eq_refl).
    apply bind_Ok in H as (o & Ho & H). apply dynamicOptionalValues_Ok in Ho as (Hlev & Hr & Ha). apply bind_Ok in H as (u' & _ & H).
    apply bind_Ok in H as ([] & Hg & [= <-]). intros e [= <-]. cbn [vs_action vs_pair sig_action sig_symbol]. split_and!; [done..|].
    split; cbn [sig_stopLoss sig_targets sig_entry sig_suggestedLeverage sig_suggestedRiskPercent sig_averagingPrice sig_action]; rewrite ?entry_range_of; try done.
    - destruct (ov_leverage o) as [l|]; [|done]. intros ? [= <-]. by apply leverage_text_bounds, Hlev.
    - by apply contract_geometry.
  Qed.
End ContractSound.

(** ** Theorems *)

(** The geometry a choice of schema promises: that of its declared contract, or
    every check for the legacy schemas. *)
Definition chosen_geometry (compiles : string → bool) (executableSchema : SchemaChoice) (geometry : ContractGeometry) : Prop :=
  match executableDefinition compiles executableSchema with
  | Ok (Some input) => ∃ d, validateSignalContractDefinition compiles input = Ok d ∧ geometry = cd_geometry d
  | _ => geometry = GEOMETRY
  end.

(** C7: only sound signals become executable.  Whatever text the parser of a
    channel answers, if its validation succeeds with an executable signal, then
    the signal trades the quoted pair it names; its stop, its entry and its
    targets are positive decimals and well formed ranges, at least one and at most
    twenty; leverage is between 1 and 125 and risk at most 100 percent; and the
    geometry its contract asks for holds: the stop on the side of the loss, every
    target on the side of the profit, each target beyond the one before.  The
    legacy schemas ask for all of it, and no schema is executable without a
    choice. *)
Theorem executable_signal_sound compiles evaluate interrupted xml templateName choice s e :
  validateSignalXml compiles evaluate interrupted xml templateName choice = Ok s → vs_execution (vs_common s) = Some e →
  choice ≠ choose_none ∧ sig_schema e = vs_schema s ∧ sig_action e = vs_action (vs_common s) ∧ sig_symbol e = vs_pair (vs_common s) ∧
  quoted_pair (chars (sig_symbol e)) = true ∧ ∃ geometry, chosen_geometry compiles choice geometry ∧ signal_sound geometry e.
Proof.
  unfold validateSignalXml. intros H He. apply bind_Ok in H as (root & _ & H). apply bind_Ok in H as (dynamic & Hdyn & H). apply bind_Ok in H as (common & Hc & [= <-]).
  cbn [vs_common vs_execution with_execution vs_schema vs_action vs_pair] in *. destruct choice as [| |selection] eqn:Ech; [|done|]; rewrite <-Ech in *.
  all: assert (∃ geometry, chosen_geometry compiles choice geometry ∧ common_sound geometry common) as (geometry & Hg & Hs).
  1,3: unfold chosen_geometry; rewrite Hdyn; destruct dynamic as [input|]; [|exists GEOMETRY; split; [done|]; apply bind_Ok in Hc as (c & Hl & Hc);
    apply bind_Ok in Hc as ([] & _ & [= <-]); by eapply validateLegacy_sound].
  1,2: apply bind_Ok in Hc as (d & Hd & Hc); apply bind_Ok in Hc as ([] & _ & Hc); apply validateDynamicContract_sound in Hc as (d' & Hd' & Hs);
    rewrite (validate_again _ _ (validate_ok _ _ _ Hd)) in Hd'; injection Hd' as <-; exists (cd_geometry d); split; [by exists d|done].
  all: subst choice; destruct (vs_execution common) as [e0|] eqn:E0; [|done]; injection He as <-; destruct (Hs e0 E0) as (H1 & H2 & H3 & [Ha Hb Hc' Hd He Hf Hi Hj]);
    split_and!; try done; exists geometry; split; done.
Qed.

(** *** Concrete signals *)
Definition tag (name content : string) : string := "<" +:+ name +:+ ">" +:+ content +:+ "</" +:+ name +:+ ">".
Definition target_xml (id price : string) : string := "<target id=" +:+ of_chars (double_quote :: chars id ++ [double_quote]) +:+ ">" +:+ price +:+ "</target>".

Definition standard_xml (entry : string) : string :=
  " " +:+ tag "signal" (tag "action" "LONG" +:+ tag "pair" "BTCUSDT" +:+ tag "entry_range" entry
    +:+ tag "targets" (target_xml "1" "62000" +:+ target_xml "2" "63000.5") +:+ tag "stoploss" "58000" +:+ tag "leverage" "10").

Definition standard_entry : string := tag "min" "60000" +:+ tag "max" "61000".

Definition standard_selection : ExecutableSignalSchemaSelection :=
  mkSelection "my_standard" "standard" (Some (definitionJson STANDARD_CONTRACT)) None.

Definition validate_example (choice : SchemaChoice) (entry : string) : result ValidatedSignal :=
  validateSignalXml (λ _, true) (λ _ _ _, Some true) (λ _, false) (standard_xml entry) None choice.

(** Whatever [validateSignalXml] answers with an execution, as its parts. *)
Definition execution_of (r : result ValidatedSignal) : option ExecutableSignal := match r with Ok s => vs_execution (vs_common s) | Err _ => None end.

Example legacy_standard : sig_entry <$> execution_of (validate_example choose_default standard_entry) = Some (RangeEntry (mkRange "60000" "61000")).
Proof. vm_compute. reflexivity. Qed.

Example dynamic_standard : sig_entry <$> execution_of (validate_example (choose standard_selection) standard_entry) = Some (RangeEntry (mkRange "60000" "61000")).
Proof. vm_compute. reflexivity. Qed.

(** A range that is text instead of its two elements: the legacy schema refuses
    it, the declared contract of the same name takes the entry for absent and
    answers a signal that enters at the market. *)
Example legacy_refuses_text_range : validate_example choose_default "60000 - 61000" = throw "Mixed text is not allowed inside 'entry_range'.".
Proof. vm_compute. reflexivity. Qed.

Lemma text_range_becomes_market : sig_entry <$> execution_of (validate_example (choose standard_selection) "60000 - 61000") = Some MarketEntry.
Proof. vm_compute. reflexivity. Qed.

Lemma executable_signal_sound_witness : ∃ s e, validate_example (choose standard_selection) standard_entry = Ok s ∧ vs_execution (vs_common s) = Some e ∧
  sig_symbol e = "BTCUSDT" ∧ ∃ geometry, chosen_geometry (λ _, true) (choose standard_selection) geometry ∧ signal_sound geometry e.
Proof.
  assert (∃ s, validate_example (choose standard_selection) standard_entry = Ok s) as (s & Hs) by (eexists; vm_compute; reflexivity).
  assert (∃ e, vs_execution (vs_common s) = Some e ∧ sig_symbol e = "BTCUSDT") as (e & He & Hsym) by (vm_compute in Hs; injection Hs as <-; eexists; by split).
  refine (ex_intro _ s (ex_intro _ e (conj Hs (conj He (conj Hsym _))))).
  destruct (executable_signal_sound (λ _, true) (λ _ _ _, Some true) (λ _, false) (standard_xml standard_entry) None (choose standard_selection) s e Hs He) as (_ & _ & _ & _ & _ & H). exact H.
Defined.
