(* ===== verification/StandardContract.v ===== *)
(** StandardContract: the built-in contract of [src/signal_contract.ts] and the
    legacy schema of the same name in [src/signal_schema.ts].

    The legacy validator reads the elements of a signal by name, the contract by
    declared path; the theorem is that whatever the first accepts, the second
    accepts with the same order. *)

From S2P Require Import Prelude Text Decimal Types Json Xml SignalContract SignalSchema.
From Stdlib Require Import Ascii.
From Stdlib Require String.
Local Open Scope Z_scope.
Local Open Scope ts_scope.

(** ** Reading by path *)
Lemma pathNodes_one root name : dot_char ∉ chars name → pathNodes root name = children root name.
Proof. intros H. unfold pathNodes. rewrite split_chars_none by done. cbn. by rewrite app_nil_r, of_chars_chars. Qed.

Lemma pathNodes_two root a b path : chars path = chars a ++ dot_char :: chars b → dot_char ∉ chars a → dot_char ∉ chars b →
  pathNodes root path = flat_map (λ n, children n b) (children root a).
Proof.
  intros E Ha Hb. unfold pathNodes. rewrite E, split_chars_one, split_chars_none by done. cbn. by rewrite app_nil_r, !of_chars_chars.
Qed.

Lemma required_element n name m : required n name = Ok m → children n name = [m].
Proof. unfold required. destruct (children n name) as [|x [|]]; try done. by intros [= ->]. Qed.

Lemma optional_element n name o : optional n name = Ok o → children n name = option_list o.
Proof. unfold optional. destruct (children n name) as [|x [|]]; try done; by intros [= <-]. Qed.

Lemma pathNode_of root path o b : pathNodes root path = option_list o → (b = true → o ≠ None) → pathNode root path b = Ok o.
Proof. intros E Hb. unfold pathNode. rewrite E. destruct o; [done|]. destruct b; [by destruct Hb|done]. Qed.

Lemma leaf_Ok n v : leaf n = Ok v → xn_children n = [].
Proof. unfold leaf. case_bool_decide as Hc; [done|]. intros _. by destruct (xn_children n). Qed.

Lemma signalDecimal_label n l l' s : signalDecimal n l = Ok s → signalDecimal n l' = Ok s ∧ xn_children n = [].
Proof.
  unfold signalDecimal. intros H. apply bind_Ok in H as (v & Hv & H). split; [|by eapply leaf_Ok]. rewrite Hv. cbn [mbind result_bind].
  destruct (negb (plain_decimal v)); [done|]. by destruct (compareDecimals v "0" <=? 0).
Qed.

(** ** The declared structure *)
Lemma allowed_children n allowed u : assertAllowedChildren n allowed = Ok u →
  trim (xn_text n) = "" ∧ ∀ c, c ∈ xn_children n → xn_name c ∈ allowed.
Proof.
  unfold assertAllowedChildren, mixed_text. case_bool_decide as Ht; [|done]. cbn [negb]. destruct (list_find _ _) as [[i c]|] eqn:E; [done|]. intros _.
  split; [done|]. intros c Hc. apply list_find_None in E. rewrite Forall_forall in E. specialize (E c Hc). by apply dec_stable.
Qed.

Lemma declared_leaf n path s : xn_children n = [] → assertDeclaredNode n path s = Ok tt.
Proof. destruct n. cbn. intros ->. done. Qed.

Lemma declared_children n path s : trim (xn_text n) = "" →
  (∀ c, c ∈ xn_children n → xn_name c ∈ (s !! path ?? ∅) ∧ assertDeclaredNode c (join_path path (xn_name c)) s = Ok tt) →
  assertDeclaredNode n path s = Ok tt.
Proof.
  destruct n as [name id text cs]. cbn. intros Ht Hc. rewrite (bool_decide_true (trim text = "")) by done. cbn [negb]. rewrite andb_false_r. clear Ht.
  induction cs as [|c cs IH]; [done|]. destruct (Hc c ltac:(by left)) as [H1 H2]. rewrite bool_decide_true by done. cbn [negb]. rewrite H2. cbn [mbind result_bind].
  apply IH. intros c' Hc'. apply Hc. by right.
Qed.

Lemma child_of n name c l : children n name = l → c ∈ xn_children n → xn_name c = name → c ∈ l.
Proof. intros <- Hc Hn. unfold children. by apply list_elem_of_filter. Qed.

(** ** Geometry, completely *)
Lemma le_cmp l r : price l → price r → value l <= value r → (compareDecimals l r >? 0) = false.
Proof. intros Hl Hr H. rewrite compare_prices, (proj1 (proj2 (cmpZ_spec _ _))), Z.ltb_ge by done. done. Qed.
Lemma lt_cmp l r : price l → price r → value l < value r → (compareDecimals l r >=? 0) = false ∧ (compareDecimals r l <=? 0) = false.
Proof.
  intros Hl Hr H. rewrite !compare_prices, Z.geb_leb, !Z.leb_gt by done.
  destruct (cmpZ_cases (value l) (value r)) as [[? E]|[[? E]|[? E]]], (cmpZ_cases (value r) (value l)) as [[? E']|[[? E']|[? E']]]; lia.
Qed.

Lemma each_target_complete {A} (check : A → nat → option A → result unit) (P : A → Prop) (R : A → A → Prop) i previous ts :
  (∀ t i p, P t → (∀ p', p = Some p' → P p' ∧ R p' t) → check t i p = Ok tt) →
  Forall P ts → Sorted R ts → (∀ p, previous = Some p → P p ∧ HdRel R p ts) → each_target check i previous ts = Ok tt.
Proof.
  intros HC HP. revert i previous. induction HP as [|t ts Ht HP IH]; intros i previous Hs Hp; cbn [each_target]; [done|].
  apply Sorted_inv in Hs as [Hs Hh]. rewrite HC; [|done|].
  - cbn [mbind result_bind]. apply IH; [done|]. by intros ? [= <-].
  - intros p' ->. destruct (Hp p' eq_refl) as [H1 H2]. split; [done|]. by inversion H2.
Qed.

Lemma contract_geometry_complete d action entry stop targets : price stop → option_all valid_range entry → Forall valid_range targets → targets ≠ [] →
  cd_geometry d = GEOMETRY → geometry_sound GEOMETRY action stop entry targets → assertContractGeometry d action entry stop targets = Ok tt.
Proof.
  intros Hs He Ht Hne Hg (H1 & H2 & H3). specialize (H1 eq_refl). specialize (H2 eq_refl). specialize (H3 eq_refl). unfold assertContractGeometry. rewrite Hg.
  destruct targets as [|first targets]; [done|]. specialize (H1 first eq_refl). cbn [GEOMETRY cg_stopOnLossSide andb].
  assert (valid_range (default first entry)) as (Hbn & Hbx & _). { destruct entry as [r|]; [by apply He|]. by apply Forall_cons in Ht as [? _]. }
  assert (bool_decide (action = LONG) && (compareDecimals stop (range_min (default first entry)) >=? 0) = false) as ->.
  { destruct action; [|done]. by rewrite (proj1 (lt_cmp _ _ Hs Hbn H1)). }
  assert (bool_decide (action = SHORT) && (compareDecimals stop (range_max (default first entry)) <=? 0) = false) as ->.
  { destruct action; [done|]. by rewrite (proj2 (lt_cmp _ _ Hbx Hs H1)). }
  apply (each_target_complete _ (λ t, valid_range t ∧ ∀ r, entry = Some r → beyond action r t) (beyond action)); [| |done|done].
  - intros t i p [(Htn & Htx & Htl) Hb] Hp. unfold contract_target. cbn [GEOMETRY cg_orderedRanges cg_targetsOnProfitSide cg_orderedTargets andb]. rewrite le_cmp by done.
    assert (∀ r, valid_range r → beyond action r t → bool_decide (action = LONG) && (compareDecimals (range_min t) (range_max r) <=? 0) = false ∧
      bool_decide (action = SHORT) && (compareDecimals (range_max t) (range_min r) >=? 0) = false) as Hr.
    { intros r (Hrn & Hrx & _) Hb'. destruct action; cbn in Hb'; [rewrite (proj2 (lt_cmp _ _ Hrx Htn Hb')); by rewrite andb_false_r|].
      rewrite (proj1 (lt_cmp _ _ Htx Hrn Hb')). by rewrite andb_false_r. }
    assert (∀ r, valid_range r → beyond action r t → assertOrderedContractTarget action t r = Ok tt) as Ho.
    { intros r Hv Hb'. unfold assertOrderedContractTarget. destruct (Hr r Hv Hb') as [-> ->]. done. }
    destruct entry as [r|]; [destruct (Hr r (He r eq_refl) (Hb r eq_refl)) as [-> ->]|]; cbn [mbind result_bind].
    all: destruct p as [p|]; [|done]; destruct (Hp p eq_refl) as [[Hpv _] Hpb]; by apply Ho.
  - apply Forall_forall. intros t Hin. rewrite Forall_forall in Ht. split; [by apply Ht|]. intros r Hr. specialize (H2 r Hr). rewrite Forall_forall in H2. by apply H2.
Qed.

(** ** The standard contract *)

(** A decidable fact about constants, by evaluation. *)
Ltac by_evaluation := apply (bool_decide_unpack _); vm_compute; exact I.

Lemma leverage_decimal s : leverage_text s = true → plain_decimal s = true ∧ (compareDecimals s "0" <=? 0) = false.
Proof.
  unfold leverage_text. rewrite !andb_true_iff, Nat.leb_le. intros [[Hi Hl] _]. pose proof (is_id_spec _ Hi) as [_ Hd].
  assert (Forall (λ c, is_digit c = true) (chars s)) as Hf.
  { unfold is_id in Hi. destruct (chars s) as [|c l]; [done|]. rewrite !andb_true_iff in Hi. destruct Hi as [[Hc _] Hr]. constructor; [done|by apply forallb_Forall]. }
  assert (split_chars dot_char (chars s) = [chars s]) as Hs by (apply split_chars_none; by apply digits_no_char).
  assert (plain_decimal s = true) as Hp.
  { unfold plain_decimal. rewrite Hs. unfold integer_part, is_id in *. destruct (chars s) as [|c l]; [done|]. rewrite !andb_true_iff in Hi. destruct Hi as [[Hc Hz] Hr].
    rewrite Hc, Hr. apply negb_true_iff, bool_decide_eq_false in Hz. rewrite decide_False by done. cbn [length] in Hl. cbn [andb]. apply Nat.leb_le. lia. }
  split; [done|]. destruct (plain_decimal_units _ Hp) as [Hu H0]. rewrite (compareDecimals_units _ _ _ 0 Hu) by done. apply Z.leb_gt.
  assert (0 < value s).
  { apply units_parse in Hu as (p & Hpp & E & Hsc & _). rewrite E. unfold parse in Hpp. destruct (negb _); [done|]. rewrite Hs in Hpp. injection Hpp as <-.
    cbn [coefficient scale default lookup list_lookup] in *. rewrite app_nil_r. pose proof (pow10_pos (18 - Z.of_nat (@length Ascii.ascii []))). cbn in *. nia. }
  destruct (cmpZ_cases (value s) 0) as [[? E]|[[? E]|[? E]]]; lia.
Qed.

Section StandardContract.
Context (compiles : string → bool) (evaluate : nat → string → string → option bool) (interrupted : nat → bool) (root : XmlNode).

Lemma standard_reads : validateSignalContractDefinition compiles (definitionJson STANDARD_CONTRACT) = Ok STANDARD_CONTRACT.
  Proof. vm_compute. reflexivity. Qed.

Definition standard_structure : Structure := declaredStructure STANDARD_CONTRACT.

Lemma standard_declared : Forall (λ name, name ∈ (standard_structure !! "" ?? ∅)) ["action"; "pair"; "entry_range"; "targets"; "stoploss"; "leverage"] ∧
    Forall (λ name, name ∈ (standard_structure !! "entry_range" ?? ∅)) ["min"; "max"] ∧ "target" ∈ (standard_structure !! "targets" ?? ∅).
  Proof. split_and!; [repeat constructor..|]; apply (bool_decide_unpack _); vm_compute; exact I. Qed.

Lemma action_read action : actionValue root = Ok action → (∃ n, children root "action" = [n] ∧ xn_children n = []) ∧ dynamicAction root STANDARD_CONTRACT = Ok action.
  Proof.
    unfold actionValue. intros H. apply bind_Ok in H as (a & Ha & H). apply bind_Ok in Ha as (n & Hn%required_element & Hl). split; [exists n; by eauto using leaf_Ok|].
    unfold dynamicAction, pathLeaf. change (cd_actionPath STANDARD_CONTRACT) with "action". rewrite (pathNode_of root "action" (Some n) true) by (rewrite ?pathNodes_one by by_evaluation; done). cbn [mbind result_bind map_option]. rewrite Hl.
    cbn. by destruct (side_of a) as [side|]; [injection H as ->|].
  Qed.

Lemma pair_read pair : pairValue root true = Ok pair → ∃ n, children root "pair" = [n] ∧ xn_children n = [] ∧ pairValue (pair_root root n) true = Ok pair.
  Proof.
    unfold pairValue. intros H. apply bind_Ok in H as (p & Hp & H). apply bind_Ok in Hp as (n & Hn%required_element & Hl). exists n. split_and!; [done|by eapply leaf_Ok|].
    assert (required (pair_root root n) "pair" ≫= leaf = Ok p) as ->; [|done]. unfold required, pair_root, children. cbn [xn_children]. rewrite filter_cons_True, filter_nil by done. cbn [mbind result_bind].
    unfold leaf in *. cbn [xn_children xn_text xn_name]. destruct (bool_decide (xn_children n ≠ [])); [done|]. destruct (bool_decide (trim (xn_text n) = "")); [done|].
    by destruct (existsb markup_char _).
  Qed.

Lemma decimal_read path n s b : pathNodes root path = [n] → (∃ l, signalDecimal n l = Ok s) → contractDecimal root path b = Ok (Some s).
  Proof.
    intros Hn (l & Hs). unfold contractDecimal. rewrite (pathNode_of root path (Some n) b) by done. cbn. by rewrite (proj1 (signalDecimal_label _ _ path _ Hs)).
  Qed.

(** The element of an entry range and its two leaves. *)
Definition range_element (n : XmlNode) : Prop :=
  trim (xn_text n) = "" ∧ (∀ c, c ∈ xn_children n → xn_name c ∈ ["min"; "max"]) ∧
  ∃ a b, children n "min" = [a] ∧ children n "max" = [b] ∧ xn_children a = [] ∧ xn_children b = [].

Lemma entry_read entry : optional root "entry_range" ≫= map_option range = Ok entry →
    (∃ o, children root "entry_range" = option_list o ∧ option_all range_element o) ∧ contractEntry root STANDARD_CONTRACT = Ok entry.
  Proof.
    intros H. apply bind_Ok in H as (o & Ho%optional_element & H).
    assert (∀ b path, chars path = chars "entry_range" ++ dot_char :: chars b → dot_char ∉ chars b →
      pathNodes root path = flat_map (λ n, children n b) (option_list o)) as Hpath by (intros b path E Hb; rewrite <-Ho; by apply pathNodes_two; [|by_evaluation|]).
    unfold contractEntry. cbn [STANDARD_CONTRACT cd_entry ce_mode ce_minimumPath ce_maximumPath mbind result_bind]. rewrite (bool_decide_false (optional_range = required_range)) by done.
    destruct o as [n|]; cbn [map_option] in H.
    - apply fmap_Ok in H as (r & H & ->). unfold range in H. apply bind_Ok in H as (u & [Ht Hc]%allowed_children & H).
      apply bind_Ok in H as (mn & Hmn & H). apply bind_Ok in Hmn as (a & Ha%required_element & Hmn). apply bind_Ok in H as (mx & Hmx & H). apply bind_Ok in Hmx as (b & Hb%required_element & Hmx).
      destruct (signalDecimal_label _ _ "" _ Hmn) as [_ Hca], (signalDecimal_label _ _ "" _ Hmx) as [_ Hcb].
      split; [exists (Some n); split; [done|]; intros ? [= <-]; split_and!; [done..|by exists a, b]|].
      rewrite (decimal_read "entry_range.min" a mn false); [|rewrite (Hpath "min") by (done || by_evaluation); cbn; by rewrite Ha|by eexists].
      rewrite (decimal_read "entry_range.max" b mx false); [|rewrite (Hpath "max") by (done || by_evaluation); cbn; by rewrite Hb|by eexists].
      cbn [mbind result_bind]. destruct (_ >? 0) eqn:E; [done|]. injection H as <-. by rewrite bool_decide_false by done.
    - injection H as <-. split; [exists None; by split|]. unfold contractDecimal.
      rewrite (pathNode_of root "entry_range.min" None false), (pathNode_of root "entry_range.max" None false) by (rewrite ?(Hpath "min"), ?(Hpath "max") by (done || by_evaluation); done).
      cbn. by rewrite bool_decide_false by done.
  Qed.

Lemma items_read nodes i ts : map_targets (λ index target, signalDecimal target ("target " +:+ show_index (S index))) i nodes = Ok ts →
    contract_items STANDARD_CONTRACT i nodes = Ok (map point ts) ∧ Forall (λ n, xn_children n = []) nodes.
  Proof.
    revert i ts. induction nodes as [|n nodes IH]; intros i ts; cbn [map_targets contract_items]; [intros [= <-]; by split|].
    change (ct_sequentialIds (cd_targets STANDARD_CONTRACT)) with true. destruct (negb (bool_decide _)); [done|]. cbn [andb]. intros H.
    apply bind_Ok in H as (t & Ht & H). apply fmap_Ok in H as (ts' & H & ->). destruct (IH _ _ H) as [H1 H2]. destruct (signalDecimal_label _ _ "target" _ Ht) as [Ht' Hc].
    split; [|by constructor]. unfold targetItemRange. change (ct_shape (cd_targets STANDARD_CONTRACT)) with shape_scalar. cbn [mbind result_bind]. rewrite Ht'.
    cbn [mbind result_bind]. by rewrite H1.
  Qed.

(** The container of the targets and its leaves. *)
Definition targets_element (n : XmlNode) : Prop :=
    trim (xn_text n) = "" ∧ ∀ c, c ∈ xn_children n → xn_name c = "target" ∧ xn_children c = [].

Lemma targets_read ts : required root "targets" ≫= scalarTargets = Ok ts →
    (∃ n, children root "targets" = [n] ∧ targets_element n) ∧ contractTargets root STANDARD_CONTRACT = Ok (map point ts).
  Proof.
    intros H. apply bind_Ok in H as (n & Hn%required_element & H). unfold scalarTargets in H. apply bind_Ok in H as (nodes & Hnodes & H).
    pose proof (target_nodes_Ok _ _ Hnodes) as Hlen. unfold target_nodes in Hnodes. apply bind_Ok in Hnodes as (u & [Ht Hc]%allowed_children & Hnodes).
    destruct (_ || _) in Hnodes; [done|]. injection Hnodes as <-. destruct (items_read _ _ _ H) as [Hitems Hleaf]. split.
    - exists n. split; [done|]. split; [done|]. intros c Hin. pose proof (Hc c Hin) as Hname%list_elem_of_singleton. split; [done|].
      rewrite Forall_forall in Hleaf. apply Hleaf. by apply (child_of n "target").
    - unfold contractTargets. change (ct_containerPath (cd_targets STANDARD_CONTRACT)) with "targets".
      rewrite (pathNode_of root "targets" (Some n) true) by (rewrite ?pathNodes_one by by_evaluation; done). cbn [mbind result_bind].
      change (ct_itemTag (cd_targets STANDARD_CONTRACT)) with "target". change (ct_minimumItems (cd_targets STANDARD_CONTRACT)) with 1.
      change (ct_maximumItems (cd_targets STANDARD_CONTRACT)) with 20. rewrite Z.gtb_ltb, !(proj2 (Z.ltb_ge _ _)) by lia. done.
  Qed.

Lemma stop_read s : (required root "stoploss" ≫= λ n, signalDecimal n (xn_name n)) = Ok s →
    (∃ n, children root "stoploss" = [n] ∧ xn_children n = []) ∧ contractDecimal root "stoploss" true = Ok (Some s).
  Proof.
    intros H. apply bind_Ok in H as (n & Hn%required_element & H). split; [exists n; split; [done|by eapply signalDecimal_label]|].
    apply (decimal_read _ n); [by rewrite pathNodes_one by by_evaluation|by eexists].
  Qed.

Lemma leverage_read leverage :
    (optional root "leverage" ≫= map_option (λ n, l ← leaf n; if negb (leverage_text l) then throw "Leverage must be an integer between 1 and 125." else Ok l)) = Ok leverage →
    (∃ o, children root "leverage" = option_list o ∧ option_all (λ n, xn_children n = []) o) ∧
    dynamicOptionalValues root STANDARD_CONTRACT = Ok (mkOptionalValues leverage None None).
  Proof.
    intros H. apply bind_Ok in H as (o & Ho%optional_element & H). unfold dynamicOptionalValues. change (cd_leveragePath STANDARD_CONTRACT) with (Some "leverage").
    change (cd_riskPercentPath STANDARD_CONTRACT) with (@None string). change (cd_averagingPricePath STANDARD_CONTRACT) with (@None string). cbn [optional_decimal].
    unfold contractDecimal. rewrite (pathNode_of root "leverage" o false) by (rewrite ?pathNodes_one by by_evaluation; done). cbn [mbind result_bind].
    destruct o as [n|]; cbn [map_option] in *; [|injection H as <-; split; [exists None; by split|done]].
    apply fmap_Ok in H as (l & H & ->). apply bind_Ok in H as (l' & Hl & H). destruct (leverage_text l') eqn:E; [|done]. injection H as <-.
    split; [exists (Some n); split; [done|]; intros ? [= <-]; by eapply leaf_Ok|]. unfold signalDecimal. rewrite Hl. cbn [mbind result_bind].
    destruct (leverage_decimal _ E) as [-> ->]. cbn. by rewrite E.
  Qed.

Lemma leaves_declared c name l s : c ∈ xn_children root → xn_name c = name → children root name = l → Forall (λ n, xn_children n = []) l →
    assertDeclaredNode c (join_path "" (xn_name c)) s = Ok tt.
  Proof. intros Hc Hn Hl Hf. apply declared_leaf. rewrite Forall_forall in Hf. apply Hf. by apply (child_of root name). Qed.

Lemma range_declared n : range_element n → assertDeclaredNode n "entry_range" standard_structure = Ok tt.
  Proof.
    intros (Ht & Hc & a & b & Ha & Hb & Hca & Hcb). destruct standard_declared as (_ & Hd & _). rewrite Forall_forall in Hd.
    apply declared_children; [done|]. intros c Hin. pose proof (Hc c Hin) as Hname. split; [by apply Hd|]. apply declared_leaf.
    apply elem_of_cons in Hname as [Hname|Hname%list_elem_of_singleton]; pose proof (child_of _ _ _ _ eq_refl Hin Hname) as H;
      rewrite ?Ha, ?Hb in H; apply list_elem_of_singleton in H as ->; done.
  Qed.

Lemma targets_declared n : targets_element n → assertDeclaredNode n "targets" standard_structure = Ok tt.
  Proof.
    intros (Ht & Hc). destruct standard_declared as (_ & _ & Hd). apply declared_children; [done|]. intros c Hin. destruct (Hc c Hin) as [-> Hleaf].
    split; [done|by apply declared_leaf].
  Qed.

(** Whatever the legacy schema reads, the contract reads the same way. *)
Lemma standard_refines c : validateStandard root = Ok c → ∃ c' e, validateDynamicContract compiles evaluate interrupted root (definitionJson STANDARD_CONTRACT) = Ok c' ∧
    vs_action c' = vs_action c ∧ vs_pair c' = vs_pair c ∧ vs_execution c = Some e ∧ vs_execution c' = Some (with_schema "dynamic" e).
  Proof.
    intros H. pose proof (validateStandard_sound _ _ H) as Hsound. unfold validateStandard in H. apply bind_Ok in H as (u & [Ht Hall]%allowed_children & H).
    apply bind_Ok in H as (action & [(na & Hna & Hca) Haction]%action_read & H). apply bind_Ok in H as (pair & (np & Hnp & Hcp & Hpair)%pair_read & H).
    apply bind_Ok in H as (entry & He & H). pose proof (optional_range_Ok _ _ _ He) as Hev. apply entry_read in He as [(oe & Hoe & Hre) Hentry].
    apply bind_Ok in H as (targets & Hts & H). pose proof (targets_Ok _ _ _ Hts) as [Htp Htl]. apply targets_read in Hts as [(nt & Hnt & Hte) Htargets].
    apply bind_Ok in H as (stop & Hst & H). pose proof (stop_Ok _ _ _ Hst) as Hsp. apply stop_read in Hst as [(ns & Hns & Hcs) Hstop].
    apply bind_Ok in H as (leverage & [(ol & Hol & Hcl) Hlev]%leverage_read & H). apply bind_Ok in H as ([] & Hg & [= <-]).
    assert (assertDeclaredNode root "" standard_structure = Ok tt) as Hdecl.
    { apply declared_children; [done|]. intros c Hin. pose proof (Hall c Hin) as Hname. split; [by apply (proj1 (Forall_forall _ _) (proj1 standard_declared))|].
      assert (xn_name c ∈ ["action"; "pair"; "stoploss"; "leverage"] ∨ xn_name c = "entry_range" ∨ xn_name c = "targets") as [Hl|[Hl|Hl]] by set_solver.
      - eapply leaves_declared; [done..|]. apply Forall_forall. intros n Hn. 
        rewrite !elem_of_cons in Hl. destruct Hl as [E|[E|[E|[E|E]]]]; [| | | |by apply elem_of_nil in E]; rewrite E in Hn;
          rewrite ?Hna, ?Hnp, ?Hns, ?Hol in Hn; [apply list_elem_of_singleton in Hn as ->; done..|]. destruct ol as [m|]; [|by apply elem_of_nil in Hn].
        apply list_elem_of_singleton in Hn as ->. by apply Hcl.
      - pose proof (child_of _ _ _ _ Hoe Hin Hl) as H. rewrite Hl. destruct oe as [m|]; [|by apply elem_of_nil in H]. apply list_elem_of_singleton in H as ->.
        by apply range_declared, Hre.
      - pose proof (child_of _ _ _ _ Hnt Hin Hl) as H%list_elem_of_singleton. rewrite Hl. subst c. by apply targets_declared. }
    exists (mkCommon action pair (dynamicGroundingNumbers STANDARD_CONTRACT entry (map point targets) stop (mkOptionalValues leverage None None))
      (dynamicGroundingFields STANDARD_CONTRACT entry (map point targets) stop (mkOptionalValues leverage None None)) None (Some (mkGroundingPolicy true true))
      (Some (mkSignal "dynamic" action pair (entry_of entry) (map point targets) stop (number <$> leverage) None None))).
    eexists. split_and!; [|reflexivity..].
    + cbn [vs_action vs_pair]. unfold validateDynamicContract. rewrite standard_reads. cbn [mbind result_bind]. change (declaredStructure STANDARD_CONTRACT) with standard_structure.
      rewrite Hdecl. cbn [mbind result_bind]. rewrite Haction. cbn [mbind result_bind]. change (cd_pairPath STANDARD_CONTRACT) with "pair".
      rewrite (pathNode_of root "pair" (Some np) true) by (rewrite ?pathNodes_one by by_evaluation; done). cbn [mbind result_bind]. rewrite Hpair. cbn [mbind result_bind].
      rewrite Hentry. cbn [mbind result_bind]. rewrite Htargets. cbn [mbind result_bind]. change (cd_stopLossPath STANDARD_CONTRACT) with "stoploss". rewrite Hstop.
      cbn [mbind result_bind]. rewrite Hlev. cbn [mbind result_bind]. change (cd_additionalFields STANDARD_CONTRACT) with (@nil SignalContractAdditionalField).
      cbn [validateAdditionalFields mbind result_bind]. rewrite contract_geometry_complete; [reflexivity|done|done|..|done|].
      * apply Forall_map. eapply Forall_impl; [exact Htp|apply point_valid].
      * destruct targets; [cbn in Htl; lia|done].
      * by apply scalar_geometry.
  Qed.
End StandardContract.

(** C35: the built-in standard contract accepts whatever the legacy schema
    accepts.  If a text is a valid signal under the standard template, then it is
    valid under a selection that declares the built-in contract, for the same
    side and pair and with the same order: entry, targets, stop, leverage, risk
    and averaging, under the identifier of the selection.  (The converse fails:
    [text_range_becomes_market].) *)
Theorem standard_contract_refines_legacy compiles evaluate interrupted xml templateName selection s :
  sel_schemaDefinition selection = Some (definitionJson STANDARD_CONTRACT) → sel_contractDefinition selection = None →
  schemaForTemplate templateName = "standard" → validateSignalXml compiles evaluate interrupted xml templateName choose_default = Ok s →
  ∃ s' e, validateSignalXml compiles evaluate interrupted xml templateName (choose selection) = Ok s' ∧
    vs_action (vs_common s') = vs_action (vs_common s) ∧ vs_pair (vs_common s') = vs_pair (vs_common s) ∧
    vs_execution (vs_common s) = Some e ∧ vs_execution (vs_common s') = Some (with_schema (sel_id selection) e).
Proof.
  intros Hs Hc Ht H. unfold validateSignalXml in H. apply bind_Ok in H as (root & Hroot & H).
  change (executableDefinition compiles choose_default) with (@Ok (option jsval) None) in H. cbn [mbind result_bind] in H. change (selected choose_default) with (@None ExecutableSignalSchemaSelection) in H. cbn [fmap option_fmap option_map default] in H. rewrite Ht in H.
  apply bind_Ok in H as (common & Hl & [= <-]). apply bind_Ok in Hl as (c & Hl & Hids). apply bind_Ok in Hids as ([] & Hids & [= ->]).
  assert (validateLegacyParserSchema root "standard" = validateStandard root) as E by done. rewrite E in Hl.
  destruct (standard_refines compiles evaluate interrupted root common Hl) as (c' & e & Hd & Ha & Hp & He & He').
  exists (mkValidated (trim xml) (sel_id selection) (with_execution (with_schema (sel_id selection) <$> vs_execution c') c')), (with_schema "standard" e).
  split_and!; [|done|done|by cbn; rewrite He|by cbn; rewrite He'].
  unfold validateSignalXml. rewrite Hroot. cbn [mbind result_bind]. unfold executableDefinition. cbn [selected mbind option_bind fmap option_fmap option_map default].
  rewrite Hs, Hc. cbn [mbind result_bind]. rewrite standard_reads. cbn [mbind result_bind]. change (ct_itemTag (cd_targets STANDARD_CONTRACT)) with "target".
  rewrite Hids. cbn [mbind result_bind]. rewrite Hd. reflexivity.
Qed.

Lemma standard_contract_refines_legacy_witness : ∃ s s' e, validate_example choose_default standard_entry = Ok s ∧
  validate_example (choose standard_selection) standard_entry = Ok s' ∧ vs_execution (vs_common s') = Some (with_schema "my_standard" e).
Proof.
  assert (∃ s, validate_example choose_default standard_entry = Ok s) as (s & Hs) by (eexists; vm_compute; reflexivity).
  destruct (standard_contract_refines_legacy (λ _, true) (λ _ _ _, Some true) (λ _, false) (standard_xml standard_entry) None standard_selection s eq_refl eq_refl eq_refl Hs)
    as (s' & e & H & _ & _ & _ & He).
  exact (ex_intro _ s (ex_intro _ s' (ex_intro _ e (conj Hs (conj H He))))).
Defined.
