(* ===== verification/Workflow.v ===== *)
(** Workflow: the graphs of [src/workflow_repository.ts] and the fallback
    policies of [src/workflow_fallback_policy.ts].

    [validateGraph] reads an untyped graph into a [WorkflowGraph]; the topology,
    the accounts a channel reaches and its fallback chains are computed on the
    result.  A [Map] whose entries are enumerated is the list of its entries in
    insertion order; one that is only looked up is a [gmap].  [localeCompare] is
    the comparison of [String.prototype.localeCompare]. *)

From S2P Require Import Prelude Text Json.
From Stdlib Require Import Ascii.
From Stdlib Require String.
Local Open Scope Z_scope.
Local Open Scope ts_scope.
Set Default Proof Using "Type".

(** ** Kinds, policies and graphs *)
Inductive WorkflowResourceKind :=
| k_channel | k_content_filter | k_keyword_filter | k_regex | k_parser | k_schema | k_contract | k_dedupe | k_strategy | k_sizing
| k_adaptive_risk | k_account | k_output.
#[export] Instance kind_eq_dec : EqDecision WorkflowResourceKind.
Proof. solve_decision. Defined.

Definition WORKFLOW_RESOURCE_KINDS : list WorkflowResourceKind :=
  [k_channel; k_content_filter; k_keyword_filter; k_regex; k_parser; k_schema; k_contract; k_dedupe; k_strategy; k_sizing; k_adaptive_risk;
   k_account; k_output].

Definition kind_text (kind : WorkflowResourceKind) : string :=
  match kind with
  | k_channel => "channel" | k_content_filter => "content_filter" | k_keyword_filter => "keyword_filter" | k_regex => "regex"
  | k_parser => "parser" | k_schema => "schema" | k_contract => "contract" | k_dedupe => "dedupe" | k_strategy => "strategy"
  | k_sizing => "sizing" | k_adaptive_risk => "adaptive_risk" | k_account => "account" | k_output => "output"
  end.

Definition STAGE (kind : WorkflowResourceKind) : Z :=
  match kind with
  | k_channel => 0 | k_content_filter => 1 | k_keyword_filter => 2 | k_regex => 3 | k_parser => 4 | k_schema => 5 | k_contract => 6
  | k_dedupe => 7 | k_strategy => 8 | k_sizing => 9 | k_adaptive_risk => 10 | k_account => 11 | k_output => 12
  end.

Definition WORKFLOW_COLUMN_GAP : Z := 316.
Definition WORKFLOW_ROW_GAP : Z := 150.

Inductive WorkflowFallbackReason := SYMBOL_UNAVAILABLE | MAX_CONCURRENT_POSITIONS | SYMBOL_ALREADY_OWNED.
#[export] Instance reason_eq_dec : EqDecision WorkflowFallbackReason.
Proof. solve_decision. Defined.

Definition WORKFLOW_FALLBACK_REASONS : list WorkflowFallbackReason := [SYMBOL_UNAVAILABLE; MAX_CONCURRENT_POSITIONS; SYMBOL_ALREADY_OWNED].
Definition LEGACY_WORKFLOW_FALLBACK_POLICY : list WorkflowFallbackReason := [SYMBOL_UNAVAILABLE].
Definition reason_text (reason : WorkflowFallbackReason) : string :=
  match reason with
  | SYMBOL_UNAVAILABLE => "SYMBOL_UNAVAILABLE" | MAX_CONCURRENT_POSITIONS => "MAX_CONCURRENT_POSITIONS" | SYMBOL_ALREADY_OWNED => "SYMBOL_ALREADY_OWNED"
  end.

(** [isWorkflowFallbackReason], with the reason it recognises *)
Definition workflowFallbackReason (value : jsval) : option WorkflowFallbackReason :=
  match value with JString s => snd <$> list_find (λ reason, reason_text reason = s) WORKFLOW_FALLBACK_REASONS | _ => None end.

Definition fallbackRank (reason : WorkflowFallbackReason) : Z :=
  match reason with SYMBOL_UNAVAILABLE => 0 | MAX_CONCURRENT_POSITIONS => 1 | SYMBOL_ALREADY_OWNED => 2 end.
Definition canonicalWorkflowFallbackPolicy (values : list WorkflowFallbackReason) : list WorkflowFallbackReason := sort_by fallbackRank values.

Record WorkflowNode := mkNode { wn_id : string; wn_kind : WorkflowResourceKind; wn_resourceVersionId : string; wn_position : jsval * jsval }.

Inductive EdgeKind := flow | account_fallback.
#[export] Instance edge_kind_eq_dec : EqDecision EdgeKind.
Proof. solve_decision. Defined.

Record WorkflowEdge := mkEdge {
  we_id : string;
  we_source : string;
  we_target : string;
  we_kind : option EdgeKind;
  we_channelNodeIds : option (list string);
  we_fallbackOn : option (list WorkflowFallbackReason) }.

Record WorkflowGraph := mkGraph { wg_schemaVersion : Z; wg_nodes : list WorkflowNode; wg_edges : list WorkflowEdge }.

(** ** Reading values *)
Definition object (value : jsval) (label : string) : result (list (string * jsval)) :=
  match value with JObject fields => Ok fields | _ => throw (label +:+ " must be an object.") end.

(** [/[\r\n\0]/] *)
Definition line_char (c : Ascii.ascii) : bool := bool_decide (char_code c ∈ [13; 10; 0]).

Definition stringValue (value : jsval) (label : string) (maximum : nat) : result string :=
  match value with
  | JString s =>
      if bool_decide (trim s = "") || (maximum <? String.length (trim s))%nat || existsb line_char (chars s) then throw (label +:+ " is invalid.")
      else Ok (trim s)
  | _ => throw (label +:+ " is invalid.")
  end.

Definition stringArray (value : jsval) (label : string) (maximum : Z) : result (list string) :=
  match string_array value with
  | Some items =>
      if maximum <? Z.of_nat (length items) then throw (label +:+ " must be a bounded string array.")
      else
        let values := filter (λ s, s ≠ "") (map trim items) in
        if distinct values then Ok values else throw (label +:+ " must not contain duplicates.")
  | None => throw (label +:+ " must be a bounded string array.")
  end.

Definition identifier_char (c : Ascii.ascii) : bool := is_alphanumeric c || bool_decide (c ∈ [":"; "_"; "-"]%char).

(** [/^[a-zA-Z0-9][a-zA-Z0-9:_-]{0,127}$/] *)
Definition IDENTIFIER (s : string) : bool :=
  match chars s with c :: l => is_alphanumeric c && forallb identifier_char l && (length l <=? 127)%nat | [] => false end.

(** A finite number as a mantissa and an exponent of ten. *)
Definition signed (l : list Ascii.ascii) : Z :=
  match l with
  | c :: l' => if decide (c = minus_char) then - digits l' else if decide (c = "+"%char) then digits l' else digits l
  | [] => 0
  end.
Definition number_value (value : jsval) : option (Z * Z) :=
  match value with
  | JInt z => Some (z, 0)
  | JFloat printed =>
      let parts := split_chars "e" (chars printed) in
      let exponent := match parts with [_; e] => signed e | _ => 0 end in
      match split_chars dot_char (default [] (head parts)) with
      | [whole; fraction] => Some (signed (whole ++ fraction), exponent - Z.of_nat (length fraction))
      | whole => Some (signed (default [] (head whole)), exponent)
      end
  | _ => None
  end.
Definition isFinite (value : jsval) : bool := bool_decide (number_value value ≠ None).

(** The sign of [left - right]. *)
Definition difference (left right : jsval) : Z :=
  match number_value left, number_value right with
  | Some (m, e), Some (n, f) => let k := Z.min e f in Z.sgn (m * 10 ^ (e - k) - n * 10 ^ (f - k))
  | _, _ => 0
  end.

Definition isWorkflowResourceKind (value : jsval) : option WorkflowResourceKind :=
  match value with JString s => snd <$> list_find (λ kind, kind_text kind = s) WORKFLOW_RESOURCE_KINDS | _ => None end.

(** ** Edges *)
Definition edge_kind (value : jsval) : option EdgeKind :=
  match value with
  | JString s => if bool_decide (s = "flow") then Some flow else if bool_decide (s = "account_fallback") then Some account_fallback else None
  | _ => None
  end.

Definition workflowEdgeKind (edge : list (string * jsval)) (id : string) (schemaVersion : Z) : result (option EdgeKind) :=
  let value := assoc "kind" edge in
  let undeclared : result (option EdgeKind) := throw ("Workflow edge " +:+ id +:+ " must declare flow or account_fallback kind.") in
  let unavailable : result (option EdgeKind) := throw ("Workflow edge " +:+ id +:+ " kind is unavailable in schema version 1.") in
  match edge_kind value with
  | Some flow => Ok (Some flow)
  | Some account_fallback => if bool_decide (schemaVersion = 1) then unavailable else Ok (Some account_fallback)
  | None => if negb (bool_decide (schemaVersion = 1)) then undeclared else if is_undefined value then Ok None else unavailable
  end.

Definition workflowEdgeFallbackPolicy (edge : list (string * jsval)) (id : string) (kind : option EdgeKind) (schemaVersion : Z) :
    result (option (list WorkflowFallbackReason)) :=
  if bool_decide (kind ≠ Some account_fallback) then
    if negb (is_undefined (assoc "fallbackOn" edge)) then throw ("Workflow flow edge " +:+ id +:+ " cannot declare a fallback policy.")
    else Ok None
  else if schemaVersion <? 3 then
    if negb (is_undefined (assoc "fallbackOn" edge))
    then throw ("Account fallback edge " +:+ id +:+ " requires workflow graph schema version 3 for a fallback policy.")
    else Ok None
  else
    let bounded := "Account fallback edge " +:+ id +:+ " fallback policy must contain between one and three reasons." in
    match assoc "fallbackOn" edge with
    | JArray items =>
        if (length items <? 1)%nat || (3 <? length items)%nat then throw bounded
        else
          match mapM workflowFallbackReason items with
          | None => throw ("Account fallback edge " +:+ id +:+ " contains an unsupported fallback reason.")
          | Some reasons =>
              if bool_decide (NoDup reasons) then Ok (Some (canonicalWorkflowFallbackPolicy reasons))
              else throw ("Account fallback edge " +:+ id +:+ " fallback policy contains a duplicate reason.")
          end
    | _ => throw bounded
    end.

Section LocaleCompare.
Context (localeCompare : string → string → Z).

Definition kind_of (nodes : gmap string WorkflowNode) (id : string) : option WorkflowResourceKind := wn_kind <$> nodes !! id.

Definition workflowEdgeChannelScope (edge : list (string * jsval)) (id : string) (nodesById : gmap string WorkflowNode) (kind : option EdgeKind) :
    result (option (list string)) :=
  match assoc "channelNodeIds" edge with
  | JUndefined =>
      if bool_decide (kind = Some account_fallback) then throw ("Account fallback edge " +:+ id +:+ " must be scoped to at least one origin channel.")
      else Ok None
  | value =>
      channelNodeIds ← stringArray value ("Workflow edge " +:+ id +:+ " channel scope") 1000;
      if bool_decide (channelNodeIds = []) || existsb (λ channel, negb (IDENTIFIER channel)) channelNodeIds
      then throw ("Workflow edge " +:+ id +:+ " channel scope must contain at least one valid channel node identifier.")
      else if existsb (λ channel, bool_decide (kind_of nodesById channel ≠ Some k_channel)) channelNodeIds
      then throw ("Workflow edge " +:+ id +:+ " channel scope must reference channel nodes in this graph.")
      else Ok (Some (sort_with localeCompare channelNodeIds))
  end.

(** [`${source}\0${target}`] *)
Definition edge_pair (source target : string) : string := of_chars (chars source ++ Ascii.zero :: chars target).

(** One edge, with the identifiers and the pairs of the edges before it. *)
Definition normalizeWorkflowEdge (schemaVersion : Z) (nodeIds : gset string) (nodesById : gmap string WorkflowNode)
    (seen : gset string * gset string) (candidate : jsval) : result (WorkflowEdge * (gset string * gset string)) :=
  let '(edgeIds, pairs) := seen in
  edge ← object candidate "Workflow edge";
  id ← stringValue (assoc "id" edge) "Workflow edge identifier" 128;
  source ← stringValue (assoc "source" edge) "Workflow edge source" 128;
  target ← stringValue (assoc "target" edge) "Workflow edge target" 128;
  kind ← workflowEdgeKind edge id schemaVersion;
  let pair := edge_pair source target in
  if negb (IDENTIFIER id) || bool_decide (id ∈ edgeIds) || bool_decide (pair ∈ pairs) then throw ("Workflow edge " +:+ id +:+ " is invalid or duplicated.")
  else if bool_decide (source ∉ nodeIds) || bool_decide (target ∉ nodeIds) || bool_decide (source = target)
  then throw ("Workflow edge " +:+ id +:+ " references an invalid endpoint.")
  else if bool_decide (kind = Some account_fallback)
       && (bool_decide (kind_of nodesById source ≠ Some k_account) || bool_decide (kind_of nodesById target ≠ Some k_account))
  then throw ("Account fallback edge " +:+ id +:+ " must connect two exchange account nodes.")
  else
    channelNodeIds ← workflowEdgeChannelScope edge id nodesById kind;
    fallbackOn ← workflowEdgeFallbackPolicy edge id kind schemaVersion;
    Ok (mkEdge id source target kind channelNodeIds fallbackOn, ({[ id ]} ∪ edgeIds, {[ pair ]} ∪ pairs)).

(** ** Nodes *)
Definition readWorkflowNode (nodeIds : gset string) (candidate : jsval) : result (WorkflowNode * gset string) :=
  node ← object candidate "Workflow node";
  id ← stringValue (assoc "id" node) "Workflow node identifier" 128;
  if negb (IDENTIFIER id) || bool_decide (id ∈ nodeIds) then throw ("Workflow node identifier '" +:+ id +:+ "' is invalid or duplicated.")
  else
    match isWorkflowResourceKind (assoc "kind" node) with
    | None => throw ("Workflow node " +:+ id +:+ " has an unsupported kind.")
    | Some kind =>
        position ← object (assoc "position" node) ("Workflow node " +:+ id +:+ " position");
        let x := assoc "x" position in
        let y := assoc "y" position in
        if negb (isFinite x) || negb (isFinite y) then throw ("Workflow node " +:+ id +:+ " position is invalid.")
        else
          resourceVersionId ← stringValue (assoc "resourceVersionId" node) "Resource version identifier" 64;
          Ok (mkNode id kind resourceVersionId (x, y), {[ id ]} ∪ nodeIds)
    end.

(** [value.map(f)] where [f] updates a state it closes over. *)
Fixpoint map_state {S A B} (f : S → A → result (B * S)) (s : S) (l : list A) : result (list B * S) :=
  match l with
  | [] => Ok ([], s)
  | a :: l' => '(b, s') ← f s a; '(bs, s'') ← map_state f s' l'; Ok (b :: bs, s'')
  end.

(** A loop that may throw. *)
Fixpoint fold_result {S A} (f : S → A → result S) (s : S) (l : list A) : result S :=
  match l with [] => Ok s | a :: l' => s' ← f s a; fold_result f s' l' end.

Definition layout_order (left right : WorkflowNode) : Z :=
  let d := difference (wn_position left).2 (wn_position right).2 in
  if d =? 0 then localeCompare (wn_id left) (wn_id right) else d.

Definition set_position (node : WorkflowNode) (position : jsval * jsval) : WorkflowNode :=
  mkNode (wn_id node) (wn_kind node) (wn_resourceVersionId node) position.

(** The index of a node in the list its kind was sorted into. *)
Definition row_index (column : list WorkflowNode) (node : WorkflowNode) : option nat := fst <$> list_find (λ placed, wn_id placed = wn_id node) column.

Definition place_kind (nodes : list WorkflowNode) (kind : WorkflowResourceKind) : list WorkflowNode :=
  let column := sort_with layout_order (filter (λ node, wn_kind node = kind) nodes) in
  map (λ node,
    match row_index column node with
    | Some index => set_position node (JInt (STAGE kind * WORKFLOW_COLUMN_GAP), JInt (Z.of_nat index * WORKFLOW_ROW_GAP))
    | None => node
    end) nodes.

Definition by_id (nodes : list WorkflowNode) : gmap string WorkflowNode := list_to_map (rev (map (λ node, (wn_id node, node)) nodes)).

Definition validateGraph (input : jsval) : result WorkflowGraph :=
  value ← object input "Workflow graph";
  match assoc "schemaVersion" value, assoc "nodes" value, assoc "edges" value with
  | JInt schemaVersion, JArray node_items, JArray edge_items =>
      if negb (bool_decide (schemaVersion ∈ [1; 2; 3])) then throw "Workflow graph contract is invalid."
      else if (1000 <? Z.of_nat (length node_items)) || (5000 <? Z.of_nat (length edge_items)) then throw "Workflow graph exceeds its size limit."
      else
        '(read, nodeIds) ← map_state readWorkflowNode ∅ node_items;
        let nodes := fold_left place_kind WORKFLOW_RESOURCE_KINDS read in
        '(edges, _) ← map_state (normalizeWorkflowEdge schemaVersion nodeIds (by_id nodes)) (∅, ∅) edge_items;
        Ok (mkGraph schemaVersion nodes edges)
  | _, _, _ => throw "Workflow graph contract is invalid."
  end.
End LocaleCompare.

(** ** The stored form *)
Definition nodeJson (n : WorkflowNode) : jsval :=
  JObject [("id", JString (wn_id n)); ("kind", JString (kind_text (wn_kind n)));
           ("position", JObject [("x", (wn_position n).1); ("y", (wn_position n).2)]); ("resourceVersionId", JString (wn_resourceVersionId n))].

Definition edge_kind_text (kind : EdgeKind) : string := match kind with flow => "flow" | account_fallback => "account_fallback" end.

Definition present (key : string) (value : option jsval) : list (string * jsval) := match value with Some v => [(key, v)] | None => [] end.

Definition edgeJson (e : WorkflowEdge) : jsval :=
  JObject (present "channelNodeIds" ((λ l, JArray (map JString l)) <$> we_channelNodeIds e)
    ++ present "fallbackOn" ((λ l, JArray (map (λ r, JString (reason_text r)) l)) <$> we_fallbackOn e)
    ++ [("id", JString (we_id e))]
    ++ present "kind" ((λ k, JString (edge_kind_text k)) <$> we_kind e)
    ++ [("source", JString (we_source e)); ("target", JString (we_target e))]).

Definition graphJson (g : WorkflowGraph) : jsval :=
  JObject [("edges", JArray (map edgeJson (wg_edges g))); ("nodes", JArray (map nodeJson (wg_nodes g)));
           ("schemaVersion", JInt (wg_schemaVersion g))].

(** ** Well-formed graphs *)
Definition node_ids (g : WorkflowGraph) : list string := map wn_id (wg_nodes g).

Record edge_ok (schemaVersion : Z) (nodes : gmap string WorkflowNode) (e : WorkflowEdge) : Prop := mkEdgeOk {
  eo_id : IDENTIFIER (we_id e) = true;
  eo_ends : is_Some (nodes !! we_source e) ∧ is_Some (nodes !! we_target e);
  eo_distinct : we_source e ≠ we_target e;
  eo_declared : schemaVersion ≠ 1 → is_Some (we_kind e);
  eo_version : we_kind e = Some account_fallback → schemaVersion ≠ 1;
  eo_accounts : we_kind e = Some account_fallback → kind_of nodes (we_source e) = Some k_account ∧ kind_of nodes (we_target e) = Some k_account;
  eo_scoped : we_kind e = Some account_fallback → is_Some (we_channelNodeIds e);
  eo_channels : ∀ l, we_channelNodeIds e = Some l → l ≠ [] ∧ NoDup l ∧ Forall (λ c, kind_of nodes c = Some k_channel) l;
  eo_policy : is_Some (we_fallbackOn e) ↔ we_kind e = Some account_fallback ∧ 3 <= schemaVersion;
  eo_reasons : ∀ l, we_fallbackOn e = Some l → l ≠ [] ∧ NoDup l }.

Record graph_ok (g : WorkflowGraph) : Prop := mkGraphOk {
  go_version : wg_schemaVersion g ∈ [1; 2; 3];
  go_nodes : NoDup (node_ids g);
  go_ids : Forall (λ id, IDENTIFIER id = true) (node_ids g);
  go_edges : Forall (edge_ok (wg_schemaVersion g) (by_id (wg_nodes g))) (wg_edges g);
  go_edge_ids : NoDup (map we_id (wg_edges g));
  go_pairs : NoDup (map (λ e, (we_source e, we_target e)) (wg_edges g)) }.

(** ** Reading back *)
Lemma length_chars s : length (chars s) = String.length s.
Proof. induction s as [|c s IH]; cbn; [done|]. by rewrite <-IH. Qed.

Lemma identifier_value s label : IDENTIFIER s = true → stringValue (JString s) label 128 = Ok s.
Proof.
  unfold IDENTIFIER. intros H. destruct (chars s) as [|c l] eqn:E; [done|]. rewrite !andb_true_iff in H. destruct H as [[Hc Hl] Hn].
  assert (Forall (λ c, identifier_char c = true) (chars s)) as Hid.
  { rewrite E. constructor; [unfold identifier_char; by rewrite Hc|]. by apply forallb_Forall. }
  assert (∀ c, identifier_char c = true → is_space c = false ∧ line_char c = false) as Hch.
  { clear. intros c. destruct c as [[] [] [] [] [] [] [] []]; vm_compute; intros; split; congruence. }
  assert (trim s = s) as Ht by (apply trim_id; eapply Forall_impl; [exact Hid|]; intros; by apply Hch).
  unfold stringValue. rewrite Ht, bool_decide_false by (intros ->; done).
  rewrite <-length_chars.
  assert ((128 <? length (chars s))%nat = false) as -> by (rewrite E; cbn [length]; apply Nat.leb_le in Hn; apply Nat.ltb_ge; lia).
  assert (existsb line_char (chars s) = false) as ->; [|done].
  apply not_true_iff_false. rewrite existsb_exists. intros (d & Hin & Hd). apply list_elem_of_In in Hin. rewrite Forall_forall in Hid.
  destruct (Hch d (Hid d Hin)). congruence.
Qed.

Lemma stringValue_again v label n s : stringValue v label n = Ok s → stringValue (JString s) label n = Ok s.
Proof.
  unfold stringValue. destruct v as [| | | | | |s0| |]; try done. destruct (_ || _) eqn:E; [done|]. intros [= <-]. rewrite trim_trim.
  rewrite !orb_false_iff in E. destruct E as [[-> ->] El]. destruct (existsb line_char (chars (trim s0))) eqn:E2; [|done].
  apply existsb_exists in E2 as (c & Hc & Hl). apply list_elem_of_In, trim_subset, list_elem_of_In in Hc.
  rewrite <- El. exfalso. apply not_true_iff_false in El. apply El. apply existsb_exists. by exists c.
Qed.

Lemma kind_again kind : isWorkflowResourceKind (JString (kind_text kind)) = Some kind.
Proof. by destruct kind. Qed.

Lemma reason_again r : workflowFallbackReason (JString (reason_text r)) = Some r.
Proof. by destruct r. Qed.

Lemma stringArray_spec v label n l : stringArray v label n = Ok l → NoDup l ∧ Z.of_nat (length l) <= n ∧ Forall (λ s, s ≠ "" ∧ trim s = s) l.
Proof.
  unfold stringArray. destruct (string_array v) as [items|]; [|done]. destruct (Z.ltb_spec n (Z.of_nat (length items))); [done|].
  destruct (distinct _) eqn:Ed; [|done]. intros [= <-]. split_and!.
  - by apply bool_decide_eq_true in Ed.
  - pose proof (length_filter (λ s, s ≠ "") (map trim items)) as Hlen. rewrite length_map in Hlen. lia.
  - apply Forall_forall. intros s [Hs (s0 & -> & _)%list_elem_of_fmap]%list_elem_of_filter. split; [done|apply trim_trim].
Qed.

Lemma stringArray_again l label n : NoDup l → Z.of_nat (length l) <= n → Forall (λ s, s ≠ "" ∧ trim s = s) l →
  stringArray (JArray (map JString l)) label n = Ok l.
Proof.
  intros Hd Hn Hl. unfold stringArray, string_array. rewrite all_strings_map. rewrite (proj2 (Z.ltb_ge _ _) Hn).
  assert (filter (λ s, s ≠ "") (map trim l) = l) as ->; [|unfold distinct; by rewrite bool_decide_true].
  clear -Hl. induction Hl as [|s l [Hs Ht] _ IH]; [done|]. cbn [map]. rewrite Ht, filter_cons_True by done. by rewrite IH.
Qed.

Lemma NoDup_map_filter {A B} (f : A → B) (P : A → Prop) `{∀ x, Decision (P x)} l : NoDup (map f l) → NoDup (map f (filter P l)).
Proof.
  induction l as [|x l IH]; intros Hn; [done|]. cbn [map] in Hn. apply NoDup_cons in Hn as [Hx Hn]. rewrite filter_cons. case_decide; [|by apply IH].
  cbn [map]. constructor; [|by apply IH]. intros (y & E & [_ Hy]%list_elem_of_filter)%list_elem_of_fmap. apply Hx. rewrite E. by apply list_elem_of_fmap_2.
Qed.

Lemma StronglySorted_lookup {A} (R : A → A → Prop) l : (∀ i j a b, l !! i = Some a → l !! j = Some b → (i < j)%nat → R a b) → StronglySorted R l.
Proof.
  induction l as [|x l IH]; intros H; constructor; [apply IH; intros i j a b Ha Hb Hij; apply (H (S i) (S j)); (done || lia)|].
  apply Forall_forall. intros y [j Hj]%list_elem_of_lookup. apply (H 0%nat (S j)); (done || lia).
Qed.

(** ** Loops with a state *)
Lemma map_state_again {S A B} (f : S → A → result (B * S)) (g : B → A) (h : B → B) s l bs s' :
  (∀ s a b s', f s a = Ok (b, s') → f s (g (h b)) = Ok (h b, s')) → map_state f s l = Ok (bs, s') → map_state f s (map g (map h bs)) = Ok (map h bs, s').
Proof.
  intros Hf. revert s bs s'. induction l as [|a l IH]; intros s bs s' H; cbn [map_state] in H; [by injection H as <- <-|].
  apply bind_Ok in H as ([b s1] & H1 & H). apply bind_Ok in H as ([bs' s2] & H2 & [= <- <-]). cbn [map map_state].
  rewrite (Hf _ _ _ _ H1). cbn [mbind result_bind]. by rewrite (IH _ _ _ H2).
Qed.

Lemma map_state_length {S A B} (f : S → A → result (B * S)) s l bs s' : map_state f s l = Ok (bs, s') → length bs = length l.
Proof.
  revert s bs s'. induction l as [|a l IH]; intros s bs s' H; cbn [map_state] in H; [by injection H as <- <-|].
  apply bind_Ok in H as ([b s1] & H1 & H). apply bind_Ok in H as ([bs' s2] & H2 & [= <- <-]). cbn. by rewrite (IH _ _ _ H2).
Qed.

(** Every result has the property of its step, and the keys the state collects are distinct. *)
Lemma map_state_fresh {S A B K} `{Countable K} (f : S → A → result (B * S)) (keys : S → gset K) (key : B → K) (P : B → Prop) s l bs s' :
  (∀ s a b s', f s a = Ok (b, s') → P b ∧ key b ∉ keys s ∧ keys s' = {[ key b ]} ∪ keys s) → map_state f s l = Ok (bs, s') →
  Forall P bs ∧ NoDup (map key bs) ∧ (∀ k, k ∈ map key bs → k ∉ keys s) ∧ keys s' = list_to_set (map key bs) ∪ keys s.
Proof.
  intros Hf. revert s bs s'. induction l as [|a l IH]; intros s bs s' Hm; cbn [map_state] in Hm.
  - injection Hm as <- <-. split_and!; [done|apply NoDup_nil_2|intros k []%not_elem_of_nil|set_solver].
  - apply bind_Ok in Hm as ([b s1] & H1 & Hm). apply bind_Ok in Hm as ([bs' s2] & H2 & [= <- <-]).
    destruct (Hf _ _ _ _ H1) as (HP & Hk & Hs). destruct (IH _ _ _ H2) as (IP & IN & IK & IS). cbn [map]. split_and!.
    + by constructor.
    + constructor; [|done]. intros Hin. apply (IK _ Hin). rewrite Hs. set_solver.
    + intros k [->|Hin]%elem_of_cons; [done|]. intros Hks. apply (IK _ Hin). rewrite Hs. set_solver.
    + rewrite IS, Hs. set_solver.
Qed.

(** ** Nodes *)
Section Layout.
Context (localeCompare : string → string → Z) (Hlocale : consistent localeCompare).
Abbreviation layout_order := (layout_order localeCompare).
Abbreviation place_kind := (place_kind localeCompare).

(** The nodes of one kind in the order they are laid out, and the row of a node. *)
Definition column (nodes : list WorkflowNode) (kind : WorkflowResourceKind) : list WorkflowNode :=
  sort_with layout_order (filter (λ node, wn_kind node = kind) nodes).
Definition place_in (nodes : list WorkflowNode) (node : WorkflowNode) : WorkflowNode :=
  match row_index (column nodes (wn_kind node)) node with
  | Some index => set_position node (JInt (STAGE (wn_kind node) * WORKFLOW_COLUMN_GAP), JInt (Z.of_nat index * WORKFLOW_ROW_GAP))
  | None => node
  end.

Lemma column_In nodes kind n : n ∈ column nodes kind ↔ n ∈ nodes ∧ wn_kind n = kind.
Proof. unfold column. rewrite sort_with_Permutation, list_elem_of_filter. tauto. Qed.

Lemma column_ids nodes kind : NoDup (map wn_id nodes) → NoDup (map wn_id (column nodes kind)).
Proof.
  intros H. unfold column. rewrite sort_with_Permutation. by apply NoDup_map_filter.
Qed.

Lemma row_index_lookup c i n : NoDup (map wn_id c) → c !! i = Some n → row_index c n = Some i.
Proof.
  intros Hd Hi. unfold row_index. apply fmap_Some. exists (i, n). split; [|done]. apply list_find_Some. split; [done|]. split; [done|].
  intros j m Hj Hlt E. assert (i = j); [|lia]. eapply NoDup_lookup; [exact Hd|by rewrite list_lookup_fmap, Hi|by rewrite list_lookup_fmap, Hj, <-E].
Qed.

Lemma row_index_In c n : NoDup (map wn_id c) → n ∈ c → ∃ i, row_index c n = Some i ∧ c !! i = Some n.
Proof. intros Hd [i Hi]%list_elem_of_lookup. exists i. split; [by apply row_index_lookup|done]. Qed.

Lemma place_in_id nodes n : wn_id (place_in nodes n) = wn_id n.
Proof. unfold place_in. by destruct (row_index _ _). Qed.
Lemma place_in_kind nodes n : wn_kind (place_in nodes n) = wn_kind n.
Proof. unfold place_in. by destruct (row_index _ _). Qed.
Lemma place_in_resource nodes n : wn_resourceVersionId (place_in nodes n) = wn_resourceVersionId n.
Proof. unfold place_in. by destruct (row_index _ _). Qed.

(** Placing one kind touches the nodes of that kind only. *)
Lemma place_kind_map nodes kind : NoDup (map wn_id nodes) →
  place_kind nodes kind = map (λ n, if decide (wn_kind n = kind) then place_in nodes n else n) nodes.
Proof.
  intros Hd. unfold Workflow.place_kind. change (sort_with layout_order _) with (column nodes kind). apply map_ext_in. intros n Hn%list_elem_of_In.
  case_decide as Hk; [unfold place_in; by rewrite Hk|]. destruct (row_index (column nodes kind) n) as [i|] eqn:E; [|done].
  unfold row_index in E. apply fmap_Some in E as ([j m] & Hf & ->). apply list_find_Some in Hf as (Hj & Hid & _).
  assert (m ∈ nodes ∧ wn_kind m = kind) as [Hm Hmk] by (apply column_In; by eapply list_elem_of_lookup_2).
  exfalso. apply Hk. rewrite <-Hmk. f_equal. apply list_elem_of_lookup in Hn as [a Ha]. apply list_elem_of_lookup in Hm as [b Hb].
  assert (a = b) as ->; [|congruence]. eapply NoDup_lookup; [exact Hd|by rewrite list_lookup_fmap, Ha|by rewrite list_lookup_fmap, Hb, <-Hid].
Qed.

Lemma filter_map_commute {A B} (f : A → B) (P : B → Prop) `{∀ x, Decision (P x)} `{∀ x, Decision (P (f x))} l :
  filter P (map f l) = map f (filter (λ x, P (f x)) l).
Proof. induction l as [|x l IH]; [done|]. cbn [map]. rewrite !filter_cons. do 2 case_decide; try done. cbn [map]. by rewrite IH. Qed.

(** The whole layout at once. *)
Lemma layout_map kinds nodes : NoDup kinds → NoDup (map wn_id nodes) →
  fold_left place_kind kinds nodes = map (λ n, if decide (wn_kind n ∈ kinds) then place_in nodes n else n) nodes.
Proof.
  clear Hlocale. intros Hk Hd. revert Hk. induction kinds as [|kind kinds IH] using rev_ind; intros Hk.
  - cbn. symmetry. etrans; [|apply map_id]. apply map_ext. intros n. by rewrite decide_False by apply not_elem_of_nil.
  - apply NoDup_app in Hk as (Hk & Hnot & _). rewrite fold_left_app, IH by done. cbn [fold_left].
    set (f n := if decide (wn_kind n ∈ kinds) then place_in nodes n else n).
    assert (∀ n, wn_id (f n) = wn_id n ∧ wn_kind (f n) = wn_kind n) as Hf.
    { intros n. unfold f. case_decide; [by rewrite place_in_id, place_in_kind|done]. }
    assert (kind ∉ kinds) as Hni by (intros H; apply (Hnot kind H); left).
    assert (column (map f nodes) kind = column nodes kind) as Hc.
    { unfold column. f_equal. rewrite (filter_map_commute f (λ n, wn_kind n = kind)). etrans; [|apply map_id].
      erewrite (list_filter_iff (λ x, wn_kind (f x) = kind) (λ x, wn_kind x = kind)); [|intros n; by rewrite (proj2 (Hf n))].
      apply map_ext_in. intros n [Hn _]%list_elem_of_In%list_elem_of_filter. unfold f. by rewrite decide_False by (by rewrite Hn). }
    rewrite place_kind_map by (rewrite map_map; erewrite map_ext; [exact Hd|]; intros n; apply Hf). rewrite map_map. apply map_ext. intros n.
    rewrite (proj2 (Hf n)). unfold place_in at 1. rewrite (proj2 (Hf n)).
    assert (f n = if decide (wn_kind n ∈ kinds) then place_in nodes n else n) as Ef by done.
    clearbody f. destruct (decide (wn_kind n = kind)) as [H1|H1].
    + rewrite H1, Hc, decide_True by set_solver. rewrite decide_False in Ef by (by rewrite H1). unfold place_in. by rewrite H1, Ef.
    + rewrite Ef. destruct (decide (wn_kind n ∈ kinds)) as [H2|H2]; [by rewrite decide_True by set_solver|by rewrite decide_False by set_solver].
Qed.

Definition layout (nodes : list WorkflowNode) : list WorkflowNode := fold_left place_kind WORKFLOW_RESOURCE_KINDS nodes.

Lemma layout_spec nodes : NoDup (map wn_id nodes) → layout nodes = map (place_in nodes) nodes.
Proof.
  clear Hlocale. intros Hd. unfold layout. rewrite layout_map; [|by apply (bool_decide_unpack _)|done]. apply map_ext. intros n. rewrite decide_True; [done|].
  destruct (wn_kind n); by apply (bool_decide_unpack _).
Qed.

Lemma layout_ids nodes : NoDup (map wn_id nodes) → map wn_id (layout nodes) = map wn_id nodes.
Proof. intros H. rewrite layout_spec, map_map by done. apply map_ext. intros. apply place_in_id. Qed.

Lemma place_in_lookup nodes kind i n : NoDup (map wn_id nodes) → column nodes kind !! i = Some n →
  place_in nodes n = set_position n (JInt (STAGE kind * WORKFLOW_COLUMN_GAP), JInt (Z.of_nat i * WORKFLOW_ROW_GAP)).
Proof.
  intros Hd Hi. assert (wn_kind n = kind) as Hk by (eapply column_In, list_elem_of_lookup_2; exact Hi). unfold place_in. rewrite Hk.
  by rewrite (row_index_lookup _ i) by (done || by apply column_ids).
Qed.

Lemma difference_int a b : difference (JInt a) (JInt b) = Z.sgn (a - b).
Proof. unfold difference. cbn. by rewrite !Z.mul_1_r. Qed.

(** The key that orders the placed nodes of a column. *)
Definition row_key (n : WorkflowNode) : Z := match (wn_position n).2 with JInt y => y | _ => 0 end.

Lemma column_placed nodes kind : NoDup (map wn_id nodes) → column (layout nodes) kind = map (place_in nodes) (column nodes kind).
Proof using Hlocale.
  intros Hd. pose proof (column_ids nodes kind Hd) as Hc. rewrite layout_spec by done. unfold column at 1.
  rewrite (filter_map_commute (place_in nodes) (λ n, wn_kind n = kind)).
  erewrite (list_filter_iff (λ x, wn_kind (place_in nodes x) = kind) (λ x, wn_kind x = kind)); [|intros n; by rewrite place_in_kind].
  set (l := map (place_in nodes) (filter (λ x, wn_kind x = kind) nodes)).
  assert (l ≡ₚ map (place_in nodes) (column nodes kind)) as Hp by (unfold l, column; by rewrite sort_with_Permutation).
  assert (∀ i n, column nodes kind !! i = Some n → row_key (place_in nodes n) = Z.of_nat i * WORKFLOW_ROW_GAP
    ∧ (wn_position (place_in nodes n)).2 = JInt (Z.of_nat i * WORKFLOW_ROW_GAP)) as Hrow.
  { intros i n Hi. by rewrite (place_in_lookup _ _ _ _ Hd Hi). }
  assert (∀ m, m ∈ l → ∃ i n, column nodes kind !! i = Some n ∧ m = place_in nodes n) as Hl.
  { intros m Hm. rewrite Hp in Hm. apply list_elem_of_fmap in Hm as (n & -> & [i Hi]%list_elem_of_lookup). by exists i, n. }
  rewrite (sort_with_key layout_order row_key).
  2: { intros a b (i & n & Hi & ->)%Hl (j & m & Hj & ->)%Hl. unfold Workflow.layout_order. destruct (Hrow i n Hi) as [-> ->], (Hrow j m Hj) as [-> ->].
       rewrite difference_int. unfold WORKFLOW_ROW_GAP. destruct (Z.eqb_spec (Z.sgn (Z.of_nat i * 150 - Z.of_nat j * 150)) 0) as [E|E].
       - assert (i = j) as -> by lia. assert (n = m) as -> by congruence. assert (0 <= localeCompare (wn_id (place_in nodes m)) (wn_id (place_in nodes m))).
         { destruct (Z.le_gt_cases 0 (localeCompare (wn_id (place_in nodes m)) (wn_id (place_in nodes m)))); [done|]. by apply Hlocale. }
         rewrite Z.ltb_irrefl. by apply Z.ltb_ge.
       - apply eq_bool_prop_intro. rewrite !Is_true_true, !Z.ltb_lt. lia. }
  apply (StronglySorted_unique_strong (λ a b, row_key a <= row_key b)).
  - intros a b Ha Hb H1 H2. rewrite sort_by_Permutation in Ha. rewrite <-Hp in Hb. apply Hl in Ha as (i & n & Hi & ->), Hb as (j & m & Hj & ->).
    destruct (Hrow i n Hi) as [Ei _], (Hrow j m Hj) as [Ej _]. rewrite Ei, Ej in *. unfold WORKFLOW_ROW_GAP in *. assert (i = j) by lia. congruence.
  - apply sort_by_sorted.
  - apply StronglySorted_lookup. intros i j a b Ha Hb Hij. rewrite list_lookup_fmap in Ha, Hb.
    apply fmap_Some in Ha as (n & Hi & ->), Hb as (m & Hj & ->). destruct (Hrow i n Hi) as [-> _], (Hrow j m Hj) as [-> _]. unfold WORKFLOW_ROW_GAP. lia.
  - rewrite sort_by_Permutation. exact Hp.
Qed.

(** Laying out a graph that was laid out changes nothing. *)
Lemma layout_layout nodes : NoDup (map wn_id nodes) → layout (layout nodes) = layout nodes.
Proof using Hlocale.
  intros Hd. rewrite (layout_spec (layout nodes)) by (by rewrite layout_ids). etrans; [|apply map_id]. apply map_ext_in.
  intros m Hm%list_elem_of_In. rewrite layout_spec in Hm by done. apply list_elem_of_fmap in Hm as (n & -> & Hn).
  destruct (row_index_In (column nodes (wn_kind n)) n) as (i & _ & Hi); [by apply column_ids|by apply column_In|].
  assert (column (layout nodes) (wn_kind n) !! i = Some (place_in nodes n)) as H2 by (by rewrite column_placed, list_lookup_fmap, Hi).
  rewrite (place_in_lookup (layout nodes) (wn_kind n) i _) by (by rewrite ?layout_ids). by rewrite !(place_in_lookup nodes (wn_kind n) i n).
Qed.

(** ** Maps of nodes *)
Lemma by_id_lookup nodes id n : NoDup (map wn_id nodes) → by_id nodes !! id = Some n ↔ n ∈ nodes ∧ wn_id n = id.
Proof.
  intros Hd. unfold by_id. rewrite <-elem_of_list_to_map.
  - rewrite list_elem_of_In, <-in_rev, <-list_elem_of_In, list_elem_of_fmap. split; [intros (m & [= -> ->] & H); done|intros [H <-]; by exists n].
  - rewrite <-Permutation_rev, <-list_fmap_compose. exact Hd.
Qed.

Lemma by_id_dom nodes : dom (by_id nodes) = list_to_set (map wn_id nodes).
Proof.
  unfold by_id. rewrite dom_list_to_map_L. apply list_to_set_perm_L. rewrite <-Permutation_rev, <-list_fmap_compose. done.
Qed.

(** ** Reading a node *)
Lemma read_node seen a n seen' : readWorkflowNode seen a = Ok (n, seen') →
  (IDENTIFIER (wn_id n) = true ∧ stringValue (JString (wn_resourceVersionId n)) "Resource version identifier" 64 = Ok (wn_resourceVersionId n)) ∧
  wn_id n ∉ seen ∧ seen' = {[ wn_id n ]} ∪ seen.
Proof.
  unfold readWorkflowNode. intros H. apply bind_Ok in H as (node & _ & H). apply bind_Ok in H as (id & _ & H).
  destruct (negb (IDENTIFIER id) || bool_decide (id ∈ seen)) eqn:E; [done|]. rewrite orb_false_iff, negb_false_iff, bool_decide_eq_false in E.
  destruct (isWorkflowResourceKind _) as [kind|]; [|done]. apply bind_Ok in H as (position & _ & H). destruct (_ || _); [done|].
  apply bind_Ok in H as (r & Hr & [= <- <-]). cbn [wn_id wn_resourceVersionId]. destruct E as [-> Hni]. split_and!; [done|by eapply stringValue_again|done|done].
Qed.

Lemma read_node_again seen a n seen' x y : readWorkflowNode seen a = Ok (n, seen') →
  readWorkflowNode seen (nodeJson (set_position n (JInt x, JInt y))) = Ok (set_position n (JInt x, JInt y), seen').
Proof.
  intros H. destruct (read_node _ _ _ _ H) as [[Hid Hr] [Hni ->]]. unfold readWorkflowNode, nodeJson. cbn [object mbind result_bind].
  change (assoc "id" _) with (JString (wn_id (set_position n (JInt x, JInt y)))). cbn [set_position wn_id wn_kind wn_resourceVersionId wn_position].
  rewrite identifier_value by done. cbn [mbind result_bind]. rewrite Hid, (bool_decide_false _ Hni). cbn [negb orb].
  match goal with |- context[isWorkflowResourceKind ?v] => change v with (JString (kind_text (wn_kind n))) end. rewrite kind_again.
  match goal with |- context[object ?v _] => change v with (JObject [("x", JInt x); ("y", JInt y)]) end. cbn [object mbind result_bind].
  match goal with |- context[stringValue ?v _ _] => change v with (JString (wn_resourceVersionId n)) end. rewrite Hr. done.
Qed.

(** ** Reading an edge *)
Lemma edge_pair_inj s t s' t' : Ascii.zero ∉ chars s → Ascii.zero ∉ chars s' → edge_pair s t = edge_pair s' t' → s = s' ∧ t = t'.
Proof.
  intros H1 H2 E%of_chars_inj. apply separated_inj in E as [E1 E2]; [|done..]. by apply (f_equal of_chars) in E1, E2; rewrite !of_chars_chars in E1, E2.
Qed.

Lemma canonical_Permutation l : canonicalWorkflowFallbackPolicy l ≡ₚ l.
Proof. apply sort_by_Permutation. Qed.

Lemma policy_ok edge id kind v p : v ∈ [1; 2; 3] → workflowEdgeFallbackPolicy edge id kind v = Ok p →
  (is_Some p ↔ kind = Some account_fallback ∧ 3 <= v) ∧
  (∀ l, p = Some l → l ≠ [] ∧ NoDup l ∧ (length l <= 3)%nat ∧ canonicalWorkflowFallbackPolicy l = l).
Proof.
  intros Hv H. unfold workflowEdgeFallbackPolicy in H. case_bool_decide as Hk.
  - destruct (negb _); [done|]. injection H as <-. split; [|done]. split; [by intros []|by intros []].
  - destruct (Z.ltb_spec v 3).
    + destruct (negb _); [done|]. injection H as <-. split; [|done]. split; [by intros []|]. intros []. lia.
    + destruct (assoc _ _) as [| | | | | | |items|]; try done. destruct (_ || _) eqn:El; [done|]. destruct (mapM _ _) as [reasons|] eqn:Em; [|done].
      case_bool_decide as Hd; [|done]. injection H as <-. rewrite orb_false_iff, !Nat.ltb_ge in El. apply length_mapM in Em.
      split; [by split|]. intros l [= <-]. split_and!.
      * intros E. apply (f_equal length) in E. rewrite canonical_Permutation in E. cbn in E. lia.
      * by rewrite canonical_Permutation.
      * rewrite canonical_Permutation. lia.
      * unfold canonicalWorkflowFallbackPolicy at 1. apply sort_by_id. apply sort_by_sorted.
Qed.

Lemma policy_again edge id kind v p : v ∈ [1; 2; 3] → workflowEdgeFallbackPolicy edge id kind v = Ok p →
  ∀ fields, assoc "fallbackOn" fields = match p with Some l => JArray (map (λ r, JString (reason_text r)) l) | None => JUndefined end →
  workflowEdgeFallbackPolicy fields id kind v = Ok p.
Proof.
  intros Hv H fields Hf. destruct (policy_ok _ _ _ _ _ Hv H) as [Hp Hl]. unfold workflowEdgeFallbackPolicy. rewrite Hf. destruct p as [l|].
  - destruct Hp as [Hp _]. destruct Hp as [-> H3]; [done|]. rewrite bool_decide_false by auto. destruct (Z.ltb_spec v 3); [lia|].
    destruct (Hl l eq_refl) as (Hne & Hd & Hlen & Hcan). rewrite length_map. destruct l as [|r l]; [done|].
    destruct (Nat.ltb_spec (length (r :: l)) 1) as [|_]; [cbn in *; lia|]. destruct (Nat.ltb_spec 3 (length (r :: l))); [lia|]. cbn [orb].
    assert (mapM workflowFallbackReason (map (λ r, JString (reason_text r)) (r :: l)) = Some (r :: l)) as ->.
    { clear. generalize (r :: l). intros k. induction k as [|x k IH]; [done|]. cbn [map mapM]. rewrite reason_again. cbn. by rewrite IH. }
    by rewrite bool_decide_true, Hcan.
  - case_bool_decide as Hk; [done|]. destruct (Z.ltb_spec v 3); [done|]. destruct Hp as [_ [? [=]]]. done.
Qed.

Lemma edge_kind_ok edge id v k : workflowEdgeKind edge id v = Ok k → (v ≠ 1 → is_Some k) ∧ (k = Some account_fallback → v ≠ 1).
Proof.
  unfold workflowEdgeKind. intros H. destruct (edge_kind _) as [[]|].
  - injection H as <-. split; [by eexists|done].
  - case_bool_decide; [done|]. injection H as <-. split; [by eexists|done].
  - case_bool_decide; [|done]. cbn [negb] in H. destruct (is_undefined _); [|done]. injection H as <-. by split.
Qed.

Lemma edge_kind_again id v k : (v ≠ 1 → is_Some k) → (k = Some account_fallback → v ≠ 1) →
  ∀ fields, assoc "kind" fields = match k with Some k => JString (edge_kind_text k) | None => JUndefined end → workflowEdgeKind fields id v = Ok k.
Proof.
  intros H1 H2 fields Hf. unfold workflowEdgeKind. rewrite Hf. destruct k as [[]|]; cbn [edge_kind_text]; [done| |].
  - change (edge_kind _) with (Some account_fallback). rewrite bool_decide_false; [done|by apply H2].
  - cbn [edge_kind is_undefined]. rewrite bool_decide_true; [done|]. apply dec_stable. intros H. by destruct (H1 H).
Qed.

Abbreviation workflowEdgeChannelScope := (workflowEdgeChannelScope localeCompare).
Abbreviation normalizeWorkflowEdge := (normalizeWorkflowEdge localeCompare).

Lemma identifier_trim s : IDENTIFIER s = true → s ≠ "" ∧ trim s = s.
Proof.
  intros H. pose proof (identifier_value s "" H) as Hv. unfold stringValue in Hv. destruct (_ || _) eqn:E; [done|]. injection Hv as Hv.
  split; [|done]. intros ->. done.
Qed.

Lemma sorted_again (l : list string) : sort_with localeCompare (sort_with localeCompare l) = sort_with localeCompare l.
Proof using Hlocale. apply sort_with_id. by apply sort_with_sorted. Qed.

Lemma scope_ok edge id nodes kind c : workflowEdgeChannelScope edge id nodes kind = Ok c → (kind = Some account_fallback → is_Some c) ∧
  ∀ l, c = Some l → l ≠ [] ∧ NoDup l ∧ Forall (λ ch, kind_of nodes ch = Some k_channel) l ∧
    stringArray (JArray (map JString l)) ("Workflow edge " +:+ id +:+ " channel scope") 1000 = Ok l ∧
    existsb (λ ch, negb (IDENTIFIER ch)) l = false ∧ sort_with localeCompare l = l.
Proof using Hlocale.
  intros H. unfold Workflow.workflowEdgeChannelScope in H. destruct (is_undefined (assoc "channelNodeIds" edge)) eqn:Eu.
  { destruct (assoc "channelNodeIds" edge); try done. case_bool_decide; [done|]. by injection H as <-. }
  assert (∃ l, stringArray (assoc "channelNodeIds" edge) ("Workflow edge " +:+ id +:+ " channel scope") 1000 = Ok l ∧
    (bool_decide (l = []) || existsb (λ channel, negb (IDENTIFIER channel)) l) = false ∧
    existsb (λ channel, bool_decide (kind_of nodes channel ≠ Some k_channel)) l = false ∧ c = Some (sort_with localeCompare l)) as (l & Ha & E1 & E2 & ->).
  { destruct (assoc "channelNodeIds" edge); try done; apply bind_Ok in H as (l & Hl & H); exists l; split; try done;
      destruct (_ || _); try done; destruct (existsb _ _); try done; by injection H as <-. }
  split; [by eexists|]. intros k [= <-]. pose proof (sort_with_Permutation localeCompare l) as Hp.
  apply stringArray_spec in Ha as (Hd & Hlen & Hs). rewrite orb_false_iff, bool_decide_eq_false in E1. destruct E1 as [Hne Hid]. split_and!.
  - intros E. rewrite E in Hp. apply Permutation_nil_l in Hp. done.
  - by rewrite Hp.
  - rewrite Hp. apply Forall_forall. intros ch Hin. apply dec_stable. intros Hk. apply not_true_iff_false in E2. apply E2, existsb_exists.
    exists ch. split; [by apply list_elem_of_In|by apply bool_decide_eq_true].
  - apply stringArray_again; [by rewrite Hp|by rewrite Hp|by rewrite Hp].
  - apply not_true_iff_false. intros (ch & Hin & Hch)%existsb_exists. apply not_true_iff_false in Hid. apply Hid, existsb_exists. exists ch. split; [|done].
    by rewrite <-Hp.
  - apply sorted_again.
Qed.

Lemma scope_again edge id nodes kind c : workflowEdgeChannelScope edge id nodes kind = Ok c →
  ∀ fields, assoc "channelNodeIds" fields = match c with Some l => JArray (map JString l) | None => JUndefined end →
  workflowEdgeChannelScope fields id nodes kind = Ok c.
Proof using Hlocale.
  intros H fields Hf. destruct (scope_ok _ _ _ _ _ H) as [Hc Hl]. unfold Workflow.workflowEdgeChannelScope. rewrite Hf. destruct c as [l|].
  - destruct (Hl l eq_refl) as (Hne & Hd & Hk & Ha & Hid & Hs). rewrite Ha. cbn [mbind result_bind]. rewrite bool_decide_false, Hid by done. cbn [orb].
    assert (existsb (λ ch, bool_decide (kind_of nodes ch ≠ Some k_channel)) l = false) as ->; [|by rewrite Hs].
    apply not_true_iff_false. intros (ch & Hin%list_elem_of_In & Hch%bool_decide_eq_true)%existsb_exists. rewrite Forall_forall in Hk. by apply Hch, Hk.
  - rewrite bool_decide_false; [done|]. intros E. by destruct (Hc E).
Qed.

(** What one step of the edge loop establishes. *)
Lemma normalize_step v nodes seen a e seen' : v ∈ [1; 2; 3] → NoDup (map wn_id nodes) → Forall (λ n, IDENTIFIER (wn_id n) = true) nodes →
  normalizeWorkflowEdge v (list_to_set (map wn_id nodes)) (by_id nodes) seen a = Ok (e, seen') →
  edge_ok v (by_id nodes) e ∧ we_id e ∉ seen.1 ∧ edge_pair (we_source e) (we_target e) ∉ seen.2 ∧
  seen' = ({[ we_id e ]} ∪ seen.1, {[ edge_pair (we_source e) (we_target e) ]} ∪ seen.2) ∧
  normalizeWorkflowEdge v (list_to_set (map wn_id nodes)) (by_id nodes) seen (edgeJson e) = Ok (e, seen').
Proof using Hlocale.
  intros Hv Hd Hids H. destruct seen as [edgeIds pairs]. unfold Workflow.normalizeWorkflowEdge in H.
  apply bind_Ok in H as (fields & _ & H). apply bind_Ok in H as (id & _ & H). apply bind_Ok in H as (source & _ & H). apply bind_Ok in H as (target & _ & H).
  apply bind_Ok in H as (kind & Hk & H). destruct (_ || _ || _) eqn:E1 in H; [done|]. destruct (_ || _ || _) eqn:E2 in H; [done|].
  destruct (_ && _) eqn:E3 in H; [done|]. apply bind_Ok in H as (channels & Hc & H). apply bind_Ok in H as (policy & Hp & [= <- <-]).
  rewrite !orb_false_iff, negb_false_iff, !bool_decide_eq_false in E1. rewrite !orb_false_iff, !bool_decide_eq_false in E2. destruct E1 as [[Hid Hfresh] Hpair]. destruct E2 as [[Hs Ht] Hne].
  rewrite andb_false_iff, orb_false_iff, !bool_decide_eq_false in E3.
  destruct (edge_kind_ok _ _ _ _ Hk) as [Hk1 Hk2], (scope_ok _ _ _ _ _ Hc) as [Hc1 Hc2], (policy_ok _ _ _ _ _ Hv Hp) as [Hp1 Hp2].
  pose proof (dec_stable Hs) as Hs'. pose proof (dec_stable Ht) as Ht'.
  assert (∀ x, x ∈ (list_to_set (map wn_id nodes) : gset string) → is_Some (by_id nodes !! x) ∧ IDENTIFIER x = true) as Hnode.
  { intros x Hx. split; [by rewrite <-elem_of_dom, by_id_dom|]. rewrite elem_of_list_to_set, list_elem_of_fmap in Hx. destruct Hx as (n & -> & Hn).
    rewrite Forall_forall in Hids. by apply Hids. }
  cbn [we_id we_source we_target we_kind we_channelNodeIds we_fallbackOn fst snd]. split_and!; try done.
  - constructor; cbn [we_id we_source we_target we_kind we_channelNodeIds we_fallbackOn]; try done.
    + split; by apply Hnode.
    + intros ->. destruct E3 as [E3|[E3 E4]]; [done|]. split; by apply dec_stable.
    + intros l El. destruct (Hc2 l El) as (? & ? & ? & _). done.
    + intros l El. destruct (Hp2 l El) as (? & ? & _). done.
  - unfold Workflow.normalizeWorkflowEdge. unfold edgeJson at 1. cbn [object mbind result_bind we_id we_source we_target we_kind we_channelNodeIds we_fallbackOn].
    match goal with |- context[assoc "id" ?l] => set (json := l) end.
    assert (assoc "id" json = JString id ∧ assoc "source" json = JString source ∧ assoc "target" json = JString target ∧
      assoc "kind" json = match kind with Some k => JString (edge_kind_text k) | None => JUndefined end ∧
      assoc "channelNodeIds" json = match channels with Some l => JArray (map JString l) | None => JUndefined end ∧
      assoc "fallbackOn" json = match policy with Some l => JArray (map (λ r, JString (reason_text r)) l) | None => JUndefined end)
      as (-> & -> & -> & Ek & Ec & Ep) by (unfold json; by destruct channels, policy, kind).
    clearbody json. rewrite !identifier_value by (done || by apply Hnode). cbn [mbind result_bind].
    rewrite (edge_kind_again id v kind Hk1 Hk2 json Ek). cbn [mbind result_bind]. rewrite Hid, (bool_decide_false _ Hfresh), (bool_decide_false _ Hpair), (bool_decide_false _ Hs), (bool_decide_false _ Ht), (bool_decide_false _ Hne). cbn [negb orb].
    assert (bool_decide (kind = Some account_fallback) && (bool_decide (kind_of (by_id nodes) source ≠ Some k_account)
      || bool_decide (kind_of (by_id nodes) target ≠ Some k_account)) = false) as -> by (by rewrite andb_false_iff, orb_false_iff, !bool_decide_eq_false).
    rewrite (scope_again _ _ _ _ _ Hc json Ec). cbn [mbind result_bind]. by rewrite (policy_again _ _ _ _ _ Hv Hp json Ep).
Qed.

Lemma layout_kept nodes n : NoDup (map wn_id nodes) → n ∈ layout nodes → ∃ m x y, m ∈ nodes ∧ n = set_position m (JInt x, JInt y).
Proof.
  intros Hd Hn. rewrite layout_spec in Hn by done. apply list_elem_of_fmap in Hn as (m & -> & Hm).
  destruct (row_index_In (column nodes (wn_kind m)) m) as (i & _ & Hi); [by apply column_ids|by apply column_In|].
  eexists m, _, _. split; [done|]. by apply place_in_lookup.
Qed.

(** The nodes as they were laid out read back as themselves. *)
Lemma read_again items nodes ids : map_state readWorkflowNode ∅ items = Ok (nodes, ids) →
  (NoDup (map wn_id nodes) ∧ ids = list_to_set (map wn_id nodes) ∧ Forall (λ n, IDENTIFIER (wn_id n) = true) nodes) ∧
  map_state readWorkflowNode ∅ (map nodeJson (layout nodes)) = Ok (layout nodes, ids).
Proof.
  intros H.
  destruct (map_state_fresh readWorkflowNode (λ s, s) wn_id (λ n, IDENTIFIER (wn_id n) = true) ∅ items nodes ids) as (HP & Hd & _ & Hs); [|done|].
  { intros s a b s' Hr. destruct (read_node _ _ _ _ Hr) as [[? _] [? ?]]. done. }
  split; [split_and!; [done|by rewrite Hs, union_empty_r_L|done]|].
  set (at_row (n : WorkflowNode) := set_position n (JInt (STAGE (wn_kind n) * WORKFLOW_COLUMN_GAP),
    JInt (Z.of_nat (row_index (column nodes (wn_kind n)) n ?? 0%nat) * WORKFLOW_ROW_GAP))).
  assert (layout nodes = map at_row nodes) as ->.
  { rewrite layout_spec by done. apply map_ext_in. intros n Hn%list_elem_of_In.
    destruct (row_index_In (column nodes (wn_kind n)) n) as (i & Ei & Hi); [by apply column_ids|by apply column_In|].
    unfold at_row, place_in. by rewrite Ei. }
  eapply map_state_again; [|exact H]. intros s a b s' Hr. by eapply read_node_again.
Qed.
End Layout.

(** The body of [validateGraph], on an object with the three properties. *)
Definition read_graph (localeCompare : string → string → Z) (schemaVersion : Z) (node_items edge_items : list jsval) : result WorkflowGraph :=
  if negb (bool_decide (schemaVersion ∈ [1; 2; 3])) then throw "Workflow graph contract is invalid."
  else if (1000 <? Z.of_nat (length node_items)) || (5000 <? Z.of_nat (length edge_items)) then throw "Workflow graph exceeds its size limit."
  else
    '(read, nodeIds) ← map_state readWorkflowNode ∅ node_items;
    let nodes := layout localeCompare read in
    '(edges, _) ← map_state (normalizeWorkflowEdge localeCompare schemaVersion nodeIds (by_id nodes)) (∅, ∅) edge_items;
    Ok (mkGraph schemaVersion nodes edges).

Lemma validate_fields localeCompare fields v ns es : assoc "schemaVersion" fields = JInt v → assoc "nodes" fields = JArray ns → assoc "edges" fields = JArray es →
  validateGraph localeCompare (JObject fields) = read_graph localeCompare v ns es.
Proof. intros H1 H2 H3. unfold validateGraph. cbn [object mbind result_bind]. by rewrite H1, H2, H3. Qed.

Lemma validate_inv localeCompare input g : validateGraph localeCompare input = Ok g → ∃ v ns es, read_graph localeCompare v ns es = Ok g.
Proof.
  intros H. destruct input; try discriminate H. unfold validateGraph in H. cbn [object mbind result_bind] in H.
  destruct (assoc "schemaVersion" fields) as [| | |v| | | | |]; try discriminate H. destruct (assoc "nodes" fields) as [| | | | | | |ns|]; try discriminate H.
  destruct (assoc "edges" fields) as [| | | | | | |es|]; try discriminate H. by exists v, ns, es.
Qed.

Lemma validate_spec localeCompare input g : consistent localeCompare → validateGraph localeCompare input = Ok g →
  graph_ok g ∧ validateGraph localeCompare (graphJson g) = Ok g.
Proof.
  intros Hl H. apply validate_inv in H as (v & node_items & edge_items & H). unfold read_graph in H.
  destruct (negb (bool_decide (v ∈ [1; 2; 3]))) eqn:Hv; [done|].
  apply negb_false_iff, bool_decide_eq_true in Hv. destruct (_ || _) eqn:El; [done|]. rewrite orb_false_iff, !Z.ltb_ge in El. destruct El as [El1 El2].
  apply bind_Ok in H as ([nodes ids] & Hn & H). apply bind_Ok in H as ([edges seen'] & He & [= <-]).
  destruct (read_again localeCompare _ _ _ Hn) as [(Hd & -> & Hids) Hagain].
  pose proof (layout_ids localeCompare nodes Hd) as Eids. rewrite <-Eids in He.
  assert (Forall (λ n, IDENTIFIER (wn_id n) = true) (layout localeCompare nodes)) as Hids2.
  { apply (Forall_map wn_id (λ id, IDENTIFIER id = true)). rewrite Eids. by apply Forall_map. }
  assert (NoDup (map wn_id (layout localeCompare nodes))) as Hd2 by (by rewrite Eids).
  pose proof (λ seen a e s', normalize_step localeCompare Hl v _ seen a e s' Hv Hd2 Hids2) as Hstep. split.
  - match type of He with map_state ?f _ _ = _ => pose proof (map_state_fresh f fst we_id (edge_ok v (by_id (layout localeCompare nodes))) _ _ _ _
      (λ s a b s' H, let '(conj P (conj Q (conj _ (conj E _)))) := Hstep s a b s' H in conj P (conj Q (f_equal fst E))) He) as (HP & Hn1 & _);
      pose proof (map_state_fresh f snd (λ e, edge_pair (we_source e) (we_target e)) (λ _, True) _ _ _ _
      (λ s a b s' H, let '(conj _ (conj _ (conj Q (conj E _)))) := Hstep s a b s' H in conj I (conj Q (f_equal snd E))) He) as (_ & Hn2 & _) end.
    constructor; try done.
    + unfold node_ids. cbn. by apply Forall_map.
    + cbn. apply (NoDup_fmap_1 (λ p, edge_pair p.1 p.2)). rewrite <-list_fmap_compose. exact Hn2.
  - unfold graphJson. erewrite validate_fields; [|reflexivity..]. unfold read_graph. cbn [wg_schemaVersion wg_nodes wg_edges].
    rewrite bool_decide_true by done. cbn [negb]. rewrite !length_map.
    assert (length (layout localeCompare nodes) = length node_items) as ->.
    { rewrite <-(map_state_length _ _ _ _ _ Hn). rewrite layout_spec by done. by rewrite length_map. }
    rewrite (map_state_length _ _ _ _ _ He), (proj2 (Z.ltb_ge _ _) El1), (proj2 (Z.ltb_ge _ _) El2). cbn [orb]. rewrite Hagain. cbn [mbind result_bind].
    rewrite (layout_layout localeCompare Hl nodes Hd), <-Eids.
    rewrite <-(map_id edges) at 1. erewrite map_state_again; [by rewrite map_id| |exact He]. intros s a b s' Hs.
    by destruct (Hstep _ _ _ _ Hs) as (_ & _ & _ & _ & ?).
Qed.

(** C36: the builder reads back what it stored.  A graph that validates is well
    formed: identifiers and connections are unique, connections join nodes of
    the graph, fallback edges join accounts within the scope of channels of the
    graph, and fallback policies appear where the schema version has them.
    Stored and validated again (as undo and redo do), it is accepted unchanged,
    its layout and the order of its scopes and policies included. *)
Theorem graph_revalidates localeCompare input g : consistent localeCompare → validateGraph localeCompare input = Ok g →
  graph_ok g ∧ validateGraph localeCompare (graphJson g) = Ok g.
Proof. apply validate_spec. Qed.

(** ** Example *)
Definition code_order (s t : string) : Z := Z.pos (encode s) - Z.pos (encode t).
Lemma code_order_consistent : consistent code_order.
Proof. unfold code_order. split; intros; lia. Qed.

Definition node_input (id kind version : string) (y : Z) : jsval :=
  JObject [("id", JString id); ("kind", JString kind); ("resourceVersionId", JString version); ("position", JObject [("x", JInt 7); ("y", JInt y)])].
Definition edge_input (id source target : string) (more : list (string * jsval)) : jsval :=
  JObject ([("id", JString id); ("source", JString source); ("target", JString target)] ++ more).
Definition flow_input (id source target : string) : jsval := edge_input id source target [("kind", JString "flow")].

Definition sample_input : jsval :=
  JObject [("schemaVersion", JInt 3);
    ("nodes", JArray [node_input "btc" "channel" "v1" 90; node_input "eth" "channel" "v2" 10; node_input "ai" "parser" "v3" 0;
                      node_input "std" "schema" "v4" 0; node_input "rules" "contract" "v5" 0; node_input "swing" "strategy" "v6" 0;
                      node_input "small" "sizing" "v7" 0; node_input "main" "account" "v8" 0; node_input "spare" "account" "v9" (-5); node_input "log" "output" "v10" 0]);
    ("edges", JArray [flow_input "e1" "btc" "ai"; flow_input "e2" "eth" "ai"; flow_input "e3" "ai" "std"; flow_input "e4" "std" "rules";
                      flow_input "e5" "rules" "swing"; flow_input "e6" "swing" "small"; flow_input "e7" "small" "main"; flow_input "e8" "main" "log";
                      edge_input "f1" "main" "spare" [("kind", JString "account_fallback"); ("channelNodeIds", JArray [JString "eth"; JString " btc "]);
                        ("fallbackOn", JArray [JString "SYMBOL_ALREADY_OWNED"; JString "SYMBOL_UNAVAILABLE"])]])].

Definition sample_graph : WorkflowGraph := Eval vm_compute in match validateGraph code_order sample_input with Ok g => g | Err _ => mkGraph 1 [] [] end.

Example sample_valid : validateGraph code_order sample_input = Ok sample_graph.
Proof. vm_compute. reflexivity. Qed.

(** The rows of the channels follow their positions, and the scope is sorted. *)
Example sample_laid_out :
  map (λ n, (wn_id n, (wn_position n).2)) (filter (λ n, wn_kind n = k_channel) (wg_nodes sample_graph)) = [("btc", JInt 150); ("eth", JInt 0)] ∧
  map we_fallbackOn (filter (λ e, we_kind e = Some account_fallback) (wg_edges sample_graph)) = [Some [SYMBOL_UNAVAILABLE; SYMBOL_ALREADY_OWNED]].
Proof. by vm_compute. Qed.

Lemma graph_revalidates_witness : validateGraph code_order sample_input = Ok sample_graph ∧
  (graph_ok sample_graph ∧ validateGraph code_order (graphJson sample_graph) = Ok sample_graph).
Proof.
  assert (validateGraph code_order sample_input = Ok sample_graph) as H by (vm_compute; reflexivity). split; [exact H|].
  exact (graph_revalidates code_order sample_input sample_graph code_order_consistent H).
Defined.

Lemma sample_ok : graph_ok sample_graph.
Proof. apply (validate_spec code_order sample_input sample_graph code_order_consistent sample_valid). Qed.
