(* ===== verification/WorkflowTopology.v ===== *)
(** WorkflowTopology: the flow of a validated graph ([src/workflow_repository.ts]):
    its topology and cycle check, and the accounts a channel reaches directly. *)

From S2P Require Import Prelude Text Json Maps Workflow.
From Stdlib Require String.
Local Open Scope Z_scope.
Local Open Scope ts_scope.

Abbreviation Nodes := (gmap string WorkflowNode).
Abbreviation Adjacency := (gmap string (list WorkflowEdge)).
Abbreviation Indegree := (list (string * Z)).

(** ** The topology *)
Definition requiredWorkflowNode (nodes : Nodes) (id : string) : result WorkflowNode := or_throw (nodes !! id) "Workflow references a missing node.".

Definition outgoing (adjacency : Adjacency) (id : string) : list WorkflowEdge := adjacency !! id ?? [].

Definition add_flow_edge (nodes : Nodes) (acc : Adjacency * Indegree) (edge : WorkflowEdge) : result (Adjacency * Indegree) :=
  let '(adjacency, indegree) := acc in
  if bool_decide (we_kind edge = Some account_fallback) then Ok acc
  else
    source ← requiredWorkflowNode nodes (we_source edge);
    target ← requiredWorkflowNode nodes (we_target edge);
    if STAGE (wn_kind source) >=? STAGE (wn_kind target)
    then throw ("Connection " +:+ we_id edge +:+ " must move from an earlier processing column to a later one.")
    else
      Ok (<[we_source edge := outgoing adjacency (we_source edge) ++ [edge]]> adjacency,
          map_set (we_target edge) ((map_get (we_target edge) indegree ?? 0) + 1) indegree).

Definition buildWorkflowTopology (graph : WorkflowGraph) : result (Nodes * Adjacency * Indegree) :=
  let nodes := by_id (wg_nodes graph) in
  let indegree := fold_left (λ m node, map_set (wn_id node) 0 m) (wg_nodes graph) [] in
  '(adjacency, indegree) ← fold_result (add_flow_edge nodes) (∅, indegree) (wg_edges graph);
  Ok (nodes, adjacency, indegree).

(** ** The cycle check *)
Fixpoint release (edges : list WorkflowEdge) (queue : list string) (indegree : Indegree) : list string * Indegree :=
  match edges with
  | [] => (queue, indegree)
  | edge :: rest =>
      let target := we_target edge in
      let next := (map_get target indegree ?? 0) - 1 in
      release rest (if next =? 0 then queue ++ [target] else queue) (map_set target next indegree)
  end.

(** The number of nodes visited. *)
Fixpoint visit_queue (fuel : nat) (adjacency : Adjacency) (queue : list string) (visited : nat) (indegree : Indegree) : option nat :=
  match queue with
  | [] => Some visited
  | id :: queue =>
      match fuel with
      | O => None
      | S fuel => let '(queue, indegree) := release (outgoing adjacency id) queue indegree in visit_queue fuel adjacency queue (S visited) indegree
      end
  end.

Definition assertAcyclicWorkflow (nodeCount : nat) (adjacency : Adjacency) (indegree : Indegree) : result unit :=
  let queue := map fst (filter (λ entry : string * Z, entry.2 = 0) indegree) in
  if bool_decide (visit_queue (length indegree) adjacency queue 0 indegree = Some nodeCount) then Ok tt
  else throw "Workflow graph must not contain cycles.".

(** ** The accounts of a channel *)
Definition edgeAppliesToChannel (edge : WorkflowEdge) (channelNodeId : string) : bool :=
  match we_channelNodeIds edge with None => true | Some channels => bool_decide (channelNodeId ∈ channels) end.

(** The targets a lineage of the channel may continue to. *)
Definition channel_targets (adjacency : Adjacency) (channelNodeId nodeId : string) : list string :=
  map we_target (filter (λ edge, edgeAppliesToChannel edge channelNodeId = true) (outgoing adjacency nodeId)).

(** [pending] is a stack: its head is the last element of the array. *)
Fixpoint search_accounts (fuel : nat) (nodes : Nodes) (adjacency : Adjacency) (channelNodeId : string) (pending : list string)
    (visited accounts : gset string) : option (gset string) :=
  match pending with
  | [] => Some accounts
  | nodeId :: pending =>
      match fuel with
      | O => None
      | S fuel =>
          if bool_decide (nodeId ∈ visited) then search_accounts fuel nodes adjacency channelNodeId pending visited accounts
          else
            let visited := {[ nodeId ]} ∪ visited in
            if bool_decide (kind_of nodes nodeId = Some k_account)
            then search_accounts fuel nodes adjacency channelNodeId pending visited ({[ nodeId ]} ∪ accounts)
            else search_accounts fuel nodes adjacency channelNodeId (rev (channel_targets adjacency channelNodeId nodeId) ++ pending) visited accounts
      end
  end.

Definition edge_count (adjacency : Adjacency) : nat := map_fold (λ _ edges n, length edges + n)%nat 0%nat adjacency.

Definition ordinaryAccountNodesForChannel (nodes : Nodes) (adjacency : Adjacency) (channelNodeId : string) : gset string :=
  search_accounts (S (edge_count adjacency)) nodes adjacency channelNodeId [channelNodeId] ∅ ∅ ?? ∅.

Set Default Proof Using "Type".

(** ** The cycle check accepts exactly the graphs with a topological order *)
Section Acyclic.
Context (ids : list string) (edges : list WorkflowEdge).

Definition count (P : WorkflowEdge → Prop) `{∀ e, Decision (P e)} (l : list WorkflowEdge) : Z := Z.of_nat (length (filter P l)).
Definition into (id : string) (e : WorkflowEdge) : Prop := we_target e = id.
#[local] Instance into_dec id e : Decision (into id e).
Proof. unfold into. apply _. Defined.

(** The topology of a list of edges: their sources index them, their targets are counted. *)
Record represents (adjacency : Adjacency) (indegree : Indegree) : Prop := mkRepresents {
  rp_ids : NoDup ids;
  rp_ends : ∀ e, e ∈ edges → we_source e ∈ ids ∧ we_target e ∈ ids;
  rp_adjacency : ∀ id, outgoing adjacency id = filter (λ e, we_source e = id) edges;
  rp_keys : map fst indegree = ids;
  rp_degree : ∀ id, id ∈ ids → map_get id indegree = Some (count (into id) edges) }.

Lemma count_cons P `{∀ e, Decision (P e)} e l : count P (e :: l) = (if decide (P e) then 1 else 0) + count P l.
Proof. unfold count. rewrite filter_cons. case_decide; cbn [length]; lia. Qed.
Lemma count_nonneg P `{∀ e, Decision (P e)} l : 0 <= count P l.
Proof. unfold count. lia. Qed.
Lemma count_zero P `{∀ e, Decision (P e)} l : count P l = 0 ↔ ∀ e, e ∈ l → ¬ P e.
Proof.
  unfold count. split.
  - intros Hz e He HP. assert (e ∈ filter P l) as Hin by (by apply list_elem_of_filter). destruct (filter P l); [by apply not_elem_of_nil in Hin|cbn in Hz; lia].
  - intros Hz. destruct (filter P l) as [|e k] eqn:E; [done|]. assert (e ∈ filter P l) as [HP He]%list_elem_of_filter by (rewrite E; left). by apply Hz in He.
Qed.

(** Releasing the edges of a node lowers the degrees of their targets, and queues those that reach zero. *)
Lemma release_spec l queue d : (∀ e, e ∈ l → we_target e ∈ map fst d) → (∀ id z, map_get id d = Some z → count (into id) l <= z) →
  ∃ fresh d', release l queue d = (queue ++ fresh, d') ∧ map fst d' = map fst d ∧ NoDup fresh ∧
    (∀ id, map_get id d' = (λ z, z - count (into id) l) <$> map_get id d) ∧
    (∀ id, id ∈ fresh ↔ 0 < count (into id) l ∧ map_get id d = Some (count (into id) l)).
Proof.
  revert queue d. induction l as [|e l IH]; intros queue d Hin Hle.
  - exists [], d. cbn [release]. rewrite app_nil_r. split_and!; [done|done|apply NoDup_nil_2| |].
    + intros id. destruct (map_get id d) as [z|]; cbn; [|done]. f_equal. unfold count. cbn. lia.
    + intros id. split; [by intros []%not_elem_of_nil|]. intros [H _]. by vm_compute in H.
  - cbn [release]. assert (we_target e ∈ map fst d) as Ht by (apply Hin; left).
    destruct (map_get (we_target e) d) as [z|] eqn:Ez; [|by apply map_get_None in Ez]. change (default 0 (Some z)) with z.
    set (d1 := map_set (we_target e) (z - 1) d).
    assert (map fst d1 = map fst d) as Hk by (by apply map_set_same_keys).
    assert (∀ id, map_get id d1 = if decide (into id e) then Some (z - 1) else map_get id d) as Hg1.
    { intros id. unfold d1. rewrite map_get_set. unfold into. destruct (decide (we_target e = id)); [by rewrite bool_decide_true|by rewrite bool_decide_false]. }
    clearbody d1. assert (∀ id y, map_get id d1 = Some y → count (into id) l <= y) as Hle1.
    { intros id y Hy. rewrite Hg1 in Hy. case_decide as Hd.
      - injection Hy as <-. unfold into in Hd. subst id. pose proof (Hle _ _ Ez) as H. rewrite count_cons, decide_True in H by done. lia.
      - pose proof (Hle _ _ Hy) as H. rewrite count_cons, decide_False in H by done. lia. }
    destruct (IH (if z - 1 =? 0 then queue ++ [we_target e] else queue) d1) as (fresh & d' & Hr & Hk' & Hn & Hg & Hf); [|done|].
    { intros e' He'. rewrite Hk. apply Hin. by right. }
    assert (∀ id, map_get id d' = (λ z, z - count (into id) (e :: l)) <$> map_get id d) as Hg'.
    { intros id. rewrite Hg, Hg1, count_cons. case_decide as Hd; [unfold into in Hd; subst id; rewrite Ez; cbn; f_equal; lia|].
      destruct (map_get id d); cbn; [f_equal; lia|done]. }
    assert (∀ id, ¬ into id e → (id ∈ fresh ↔ 0 < count (into id) (e :: l) ∧ map_get id d = Some (count (into id) (e :: l)))) as Hother.
    { intros id Hd. rewrite Hf, Hg1, count_cons. do 2 rewrite decide_False by done. by rewrite Z.add_0_l. }
    assert (we_target e ∈ fresh ↔ 0 < count (into (we_target e)) l ∧ z - 1 = count (into (we_target e)) l) as Hself.
    { rewrite Hf, Hg1, decide_True by done. split; intros [? H]; split; try done; [by injection H|by f_equal]. }
    destruct (Z.eqb_spec (z - 1) 0) as [Ezero|Ezero].
    + exists (we_target e :: fresh), d'. rewrite Hr, <-app_assoc. split_and!; [done|by rewrite Hk'| |done|].
      * constructor; [rewrite Hself; lia|done].
      * intros id. rewrite elem_of_cons. destruct (decide (into id e)) as [Hd|Hd].
        -- unfold into in Hd. subst id. rewrite count_cons, decide_True, Ez by done. pose proof (Hle1 (we_target e) (z - 1)) as H.
           rewrite Hg1, decide_True in H by done. pose proof (count_nonneg (into (we_target e)) l). split; [intros _; split; [lia|f_equal; specialize (H eq_refl); lia]|by left].
        -- rewrite <-Hother by done. split; [intros [->|]; [by unfold into in Hd|done]|by right].
    + exists fresh, d'. rewrite Hr. split_and!; [done|by rewrite Hk'|done|done|]. intros id. destruct (decide (into id e)) as [Hd|Hd]; [|by apply Hother].
      unfold into in Hd. subst id. rewrite Hself, count_cons, decide_True, Ez by done. pose proof (count_nonneg (into (we_target e)) l).
      pose proof (Hle1 (we_target e) (z - 1)) as H1. rewrite Hg1, decide_True in H1 by done. specialize (H1 eq_refl).
      split; [intros [? ?]; split; [lia|f_equal; lia]|intros [_ [= ?]]; lia].
Qed.

(** The edges into [id] whose source is not [done]. *)
Definition open_into (done : list string) (id : string) (e : WorkflowEdge) : Prop := we_target e = id ∧ we_source e ∉ done.
#[local] Instance open_into_dec done id e : Decision (open_into done id e).
Proof. unfold open_into. apply _. Defined.

Record queue_inv (done queue : list string) (indegree : Indegree) : Prop := mkQueueInv {
  qi_nodup : NoDup (done ++ queue);
  qi_ids : done ++ queue ⊆ ids;
  qi_keys : map fst indegree = ids;
  qi_degree : ∀ id, id ∈ ids → map_get id indegree = Some (count (open_into done id) edges);
  qi_ready : ∀ id, id ∈ ids → id ∈ done ++ queue ↔ count (open_into done id) edges = 0;
  qi_ordered : ∀ l k e, done = l ++ we_target e :: k → e ∈ edges → we_source e ∈ l }.

Lemma count_step done id t : NoDup ids → id ∉ done →
  count (open_into done t) edges = count (open_into (done ++ [id]) t) edges + count (into t) (filter (λ e, we_source e = id) edges).
Proof.
  intros _ Hid. induction edges as [|e l IH]; [done|]. rewrite !count_cons, filter_cons.
  assert (open_into (done ++ [id]) t e ↔ open_into done t e ∧ we_source e ≠ id) as Hsplit.
  { unfold open_into. rewrite not_elem_of_app, list_elem_of_singleton. tauto. }
  assert (we_source e = id → (open_into done t e ↔ into t e)) as Hself by (unfold open_into, into; intros ->; tauto).
  destruct (decide (we_source e = id)) as [Hs|Hs]; [rewrite count_cons|];
    destruct (decide (open_into done t e)), (decide (open_into (done ++ [id]) t e)); try destruct (decide (into t e)); try tauto; lia.
Qed.

Lemma queue_step adjacency indegree0 done id queue d : represents adjacency indegree0 → queue_inv done (id :: queue) d →
  ∃ queue' d', release (outgoing adjacency id) queue d = (queue', d') ∧ queue_inv (done ++ [id]) queue' d'.
Proof.
  intros Hr Hq. destruct Hq as [Hnd Hin Hk Hdeg Hready Hord]. rewrite (rp_adjacency _ _ Hr).
  pose proof Hnd as (Hnd1 & Hdisj & [Hidq Hndq]%NoDup_cons)%NoDup_app.
  assert (id ∉ done) as Hid by (intros Hd; apply (Hdisj id Hd); left).
  pose proof (count_step done id) as Hstep. set (l := filter (λ e, we_source e = id) edges) in *.
  assert (id ∈ ids) as Hidin by (apply Hin; set_solver).
  assert (∀ t, t ∈ ids → map_get t d = Some (count (open_into (done ++ [id]) t) edges + count (into t) l)) as Hd.
  { intros t Ht. rewrite Hdeg, (Hstep t (rp_ids _ _ Hr) Hid) by done. done. }
  destruct (release_spec l queue d) as (fresh & d' & -> & Hk' & Hnf & Hg & Hf).
  { intros e [_ He]%list_elem_of_filter. rewrite Hk. by apply (rp_ends _ _ Hr). }
  { intros t z Hz. destruct (decide (t ∈ ids)) as [Ht|Ht].
    - rewrite (Hd t Ht) in Hz. injection Hz as <-. pose proof (count_nonneg (open_into (done ++ [id]) t) edges). lia.
    - exfalso. apply Ht. rewrite <-Hk. apply list_elem_of_fmap. exists (t, z). split; [done|by apply map_get_Some]. }
  assert (∀ t, t ∈ fresh ↔ t ∈ ids ∧ 0 < count (into t) l ∧ count (open_into (done ++ [id]) t) edges = 0) as Hfresh.
  { intros t. rewrite Hf. destruct (decide (t ∈ ids)) as [Ht|Ht].
    - rewrite (Hd t Ht). split; [intros [? [= ?]]; split_and!; [done|done|lia]|intros (_ & ? & E); split; [done|f_equal; lia]].
    - split; [intros [_ H]; exfalso; apply Ht; rewrite <-Hk; apply list_elem_of_fmap; eexists (t, _); split; [done|by apply map_get_Some]|tauto]. }
  assert (∀ t, t ∈ ids → t ∈ done ++ id :: queue → count (open_into (done ++ [id]) t) edges = 0 ∧ count (into t) l = 0) as Hold.
  { intros t Ht Hi. apply (Hready t Ht) in Hi. rewrite (Hstep t (rp_ids _ _ Hr) Hid) in Hi.
    pose proof (count_nonneg (open_into (done ++ [id]) t) edges). pose proof (count_nonneg (into t) l). lia. }
  assert ((done ++ [id]) ++ queue ++ fresh = (done ++ id :: queue) ++ fresh) as Happ by (by rewrite <-!app_assoc).
  exists (queue ++ fresh), d'. split; [done|]. constructor.
  - rewrite Happ. apply NoDup_app. split_and!; [done| |done]. intros t Ht (Hti & Hpos & _)%Hfresh. destruct (Hold t Hti Ht). lia.
  - rewrite Happ. intros t. rewrite elem_of_app, Hfresh. intros [Ht|[Ht _]]; [by apply Hin|done].
  - by rewrite Hk'.
  - intros t Ht. rewrite Hg, (Hd t Ht). cbn. f_equal. lia.
  - intros t Ht. rewrite Happ, elem_of_app. split.
    + intros H. destruct (decide (t ∈ done ++ id :: queue)) as [Ho|Ho]; [by apply Hold|]. assert (t ∈ fresh) as Hff by tauto. by apply Hfresh in Hff as (_ & _ & ?).
    + intros Hz. pose proof (Hstep t (rp_ids _ _ Hr) Hid) as Hs. rewrite Hz in Hs. destruct (Z.eq_dec (count (into t) l) 0) as [E|E].
      * assert (t ∈ done ++ id :: queue) as Ho by (apply (Hready t Ht); lia). by left.
      * assert (t ∈ fresh) as Hff by (apply Hfresh; pose proof (count_nonneg (into t) l); split_and!; [done|lia|done]). by right.
  - intros l1 k e He Hee. destruct (decide (k = [])) as [->|Hne].
    + apply app_inj_tail in He as [-> ->]. assert (count (open_into l1 (we_target e)) edges = 0) as Hz by (apply (Hready _ Hidin); set_solver).
      rewrite count_zero in Hz. apply dec_stable. intros Hns. by apply (Hz e Hee).
    + destruct (exists_last Hne) as (k' & x & ->). rewrite app_comm_cons, app_assoc in He. apply app_inj_tail in He as [He _]. by eapply Hord.
Qed.

(** The loop ends with the fuel of the source's map, having visited every node it can. *)
Lemma visit_queue_spec adjacency indegree0 fuel done queue d : represents adjacency indegree0 → queue_inv done queue d →
  (length ids <= fuel + length done)%nat →
  ∃ done' d', visit_queue fuel adjacency queue (length done) d = Some (length done') ∧ queue_inv done' [] d'.
Proof.
  intros Hr. revert done queue d. induction fuel as [|fuel IH]; intros done queue d Hq Hlen.
  - destruct queue as [|id queue]; [by exists done, d|]. exfalso. pose proof (submseteq_length _ _ (NoDup_submseteq _ _ (qi_nodup _ _ _ Hq) (qi_ids _ _ _ Hq))) as H.
    rewrite length_app in H. cbn in H. lia.
  - destruct queue as [|id queue]; [by exists done, d|]. cbn [visit_queue]. destruct (queue_step _ _ _ _ _ _ Hr Hq) as (queue' & d' & -> & Hq').
    destruct (IH _ _ _ Hq') as (done' & d'' & E & Hq''); [rewrite length_app; cbn; lia|]. exists done', d''. split; [|done].
    rewrite length_app in E. cbn in E. by rewrite Nat.add_1_r in E.
Qed.

Lemma queue_start adjacency indegree : represents adjacency indegree →
  queue_inv [] (map fst (filter (λ entry : string * Z, entry.2 = 0) indegree)) indegree.
Proof.
  intros Hr. assert (∀ id, id ∈ map fst (filter (λ entry : string * Z, entry.2 = 0) indegree) ↔ id ∈ ids ∧ count (into id) edges = 0) as Hin.
  { assert (NoDup (map fst indegree)) as Hnd by (rewrite (rp_keys _ _ Hr); apply Hr). intros id. rewrite list_elem_of_fmap. split.
    - intros ([k z] & -> & [Hz Hkz]%list_elem_of_filter). cbn in *. subst z. assert (k ∈ ids) as Hk.
      { rewrite <-(rp_keys _ _ Hr). apply list_elem_of_fmap. by exists (k, 0). }
      split; [done|]. pose proof (map_get_In k 0 indegree Hnd Hkz) as E. rewrite (rp_degree _ _ Hr k Hk) in E. by injection E.
    - intros [Hid Hz]. exists (id, 0). split; [done|]. apply list_elem_of_filter. split; [done|]. apply map_get_Some. by rewrite (rp_degree _ _ Hr id Hid), Hz. }
  assert (∀ id, count (open_into [] id) edges = count (into id) edges) as Hc.
  { intros id. unfold count. do 2 f_equal. apply list_filter_iff. intros e. unfold open_into, into. split; [tauto|]. intros. split; [done|apply not_elem_of_nil]. }
  constructor; cbn [app].
  - apply filter_keys_nodup. rewrite (rp_keys _ _ Hr). apply Hr.
  - intros id. rewrite Hin. tauto.
  - apply Hr.
  - intros id Hid. rewrite Hc. by apply Hr.
  - intros id Hid. rewrite Hin, Hc. tauto.
  - intros [|] ? ? [=].
Qed.
End Acyclic.

(** The index of an element. *)
Definition position (l : list string) (x : string) : nat := (fst <$> list_find (λ y, y = x) l) ?? 0%nat.

Lemma position_before l k x y : x ∈ l → y ∉ l → (position (l ++ y :: k) x < position (l ++ y :: k) y)%nat.
Proof.
  intros Hx Hy. unfold position. destruct (list_find_elem_of (λ z, z = x) l x Hx) as [[i z] Hf]; [done|].
  rewrite (list_find_app_l _ _ _ _ _ Hf). apply list_find_Some in Hf as (Hi & _ & _). apply lookup_lt_Some in Hi.
  rewrite list_find_app_r by (apply list_find_None, Forall_forall; intros w Hw ->; done). cbn. rewrite decide_True by done. cbn. lia.
Qed.

Lemma kahn_exact ids edges adjacency indegree : represents ids edges adjacency indegree →
  assertAcyclicWorkflow (length ids) adjacency indegree = Ok tt ↔ ∃ rank : string → nat, ∀ e, e ∈ edges → (rank (we_source e) < rank (we_target e))%nat.
Proof.
  intros Hr. unfold assertAcyclicWorkflow.
  assert (length indegree = length ids) as Hlen by (by rewrite <-(rp_keys _ _ _ _ Hr), length_map).
  destruct (visit_queue_spec ids edges adjacency indegree (length indegree) [] _ _ Hr (queue_start _ _ _ _ Hr)) as (done & d & E & Hq); [cbn; lia|].
  cbn [length] in E. rewrite E. clear E.
  pose proof (qi_nodup _ _ _ _ _ Hq) as Hnd. pose proof (qi_ids _ _ _ _ _ Hq) as Hin. rewrite app_nil_r in Hnd, Hin.
  pose proof (NoDup_submseteq _ _ Hnd Hin) as Hsm.
  assert (bool_decide (Some (length done) = Some (length ids)) = bool_decide (ids ⊆ done)) as ->.
  { apply bool_decide_ext. split.
    - intros [= E]. rewrite <-E in *. apply submseteq_length_Permutation in Hsm as ->; [done|lia].
    - intros Hsub. f_equal. apply Nat.le_antisymm; [by apply submseteq_length|]. apply submseteq_length, NoDup_submseteq; [apply Hr|done]. }
  case_bool_decide as Hsub.
  - split; [intros _|done].
    exists (position done). intros e He.
    assert (we_target e ∈ done) as Ht by (apply Hsub; by apply (rp_ends _ _ _ _ Hr)). apply list_elem_of_split in Ht as (l & k & E).
    pose proof (qi_ordered _ _ _ _ _ Hq l k e E He) as Hs. rewrite E. apply position_before; [done|]. rewrite E in Hnd.
    apply NoDup_app in Hnd as (_ & Hd & _). intros H. apply (Hd _ H). left.
  - split; [done|]. intros (rank & Hrank). exfalso. apply Hsub. intros id Hid.
    remember (rank id) as n eqn:En. revert id Hid En. induction n as [n IH] using lt_wf_ind. intros id Hid ->.
    assert (id ∈ done ++ []) as H; [|by rewrite app_nil_r in H]. apply (qi_ready _ _ _ _ _ Hq id Hid). apply count_zero. intros e He [Ht Hs]. apply Hs.
    subst id. eapply IH; [by apply Hrank|by apply (rp_ends _ _ _ _ Hr)|done].
Qed.

(** C37: the cycle check is exact.  On the topology of any list of edges, Kahn's
    loop ends, and accepts exactly when the edges have a topological order; it
    refuses with the error of the source otherwise. *)
Theorem acyclic_check_exact ids edges adjacency indegree : represents ids edges adjacency indegree →
  (assertAcyclicWorkflow (length ids) adjacency indegree = Ok tt ↔ ∃ rank : string → nat, ∀ e, e ∈ edges → (rank (we_source e) < rank (we_target e))%nat) ∧
  (assertAcyclicWorkflow (length ids) adjacency indegree = Ok tt ∨
   assertAcyclicWorkflow (length ids) adjacency indegree = throw "Workflow graph must not contain cycles.").
Proof.
  intros Hr. split; [exact (kahn_exact _ _ _ _ Hr)|]. unfold assertAcyclicWorkflow. case_bool_decide; [by left|by right].
Qed.

(** ** The topology of a graph *)
Definition flow_edges (g : WorkflowGraph) : list WorkflowEdge := filter (λ e, we_kind e ≠ Some account_fallback) (wg_edges g).

(** A connection moves to a later processing column. *)
Definition staged (nodes : Nodes) (e : WorkflowEdge) : Prop :=
  ∃ s t, nodes !! we_source e = Some s ∧ nodes !! we_target e = Some t ∧ STAGE (wn_kind s) < STAGE (wn_kind t).

(** A loop that throws nothing keeps an invariant of the elements it has seen. *)
Lemma fold_result_inv {S A} (f : S → A → result S) (P : list A → S → Prop) l s s' :
  (∀ k a s s', k ++ [a] `prefix_of` l → P k s → f s a = Ok s' → P (k ++ [a]) s') → P [] s → fold_result f s l = Ok s' → P l s'.
Proof.
  intros Hf H0 H. enough (∀ k l' s, l = k ++ l' → P k s → fold_result f s l' = Ok s' → P l s') as G by (by apply (G [] l s)).
  clear s H0 H. intros k l'. revert k. induction l' as [|a l' IH]; intros k s -> Hk H; cbn [fold_result] in H.
  - injection H as <-. by rewrite app_nil_r.
  - apply bind_Ok in H as (s1 & H1 & H). apply (IH (k ++ [a]) s1); [by rewrite <-app_assoc| |done]. eapply Hf; [|done|done].
    exists l'. by rewrite <-app_assoc.
Qed.

Lemma start_degrees nodes : NoDup (map wn_id nodes) → fold_left (λ m node, map_set (wn_id node) 0 m) nodes [] = map (λ n, (wn_id n, 0)) nodes.
Proof.
  intros Hd. enough (∀ m, NoDup (map fst m ++ map wn_id nodes) → fold_left (λ m node, map_set (wn_id node) 0 m) nodes m = m ++ map (λ n, (wn_id n, 0)) nodes)
    as H by (by apply (H [])).
  induction nodes as [|n nodes IH]; intros m Hm; cbn [fold_left map] in *; [by rewrite app_nil_r|].
  apply NoDup_cons in Hd as [_ Hd]. pose proof Hm as (_ & Hdis & _)%NoDup_app. rewrite map_set_new by (intros Hin; apply (Hdis _ Hin); left).
  rewrite IH, <-app_assoc; [done|done|]. rewrite map_app, <-app_assoc. exact Hm.
Qed.

Lemma count_snoc P `{∀ e, Decision (P e)} l e : count P (l ++ [e]) = count P l + (if decide (P e) then 1 else 0).
Proof. unfold count. rewrite filter_app, length_app, filter_cons, filter_nil. case_decide; cbn; lia. Qed.

Lemma represents_snoc ids edges adjacency indegree e : represents ids edges adjacency indegree → we_source e ∈ ids → we_target e ∈ ids →
  represents ids (edges ++ [e]) (<[we_source e := outgoing adjacency (we_source e) ++ [e]]> adjacency)
    (map_set (we_target e) ((map_get (we_target e) indegree ?? 0) + 1) indegree).
Proof.
  intros [Hd He Ha Hk Hg] Hs Ht. constructor; [done| | | |].
  - intros e' [Hin| ->%list_elem_of_singleton]%elem_of_app; [by apply He|done].
  - intros id. rewrite filter_app, filter_cons, filter_nil. unfold outgoing in *. destruct (decide (we_source e = id)) as [<-|Hne].
    + rewrite lookup_insert_eq. cbn. by rewrite Ha.
    + by rewrite lookup_insert_ne, Ha, app_nil_r.
  - by rewrite map_set_same_keys by (by rewrite Hk).
  - intros id Hid. rewrite map_get_set, count_snoc. case_bool_decide as Hb.
    + subst id. rewrite Hg by done. by rewrite decide_True.
    + rewrite decide_False by done. rewrite Hg by done. f_equal. lia.
Qed.

Lemma build_topology g nodes adjacency indegree : graph_ok g → buildWorkflowTopology g = Ok (nodes, adjacency, indegree) →
  nodes = by_id (wg_nodes g) ∧ represents (node_ids g) (flow_edges g) adjacency indegree ∧ Forall (staged nodes) (flow_edges g).
Proof.
  intros Hg H. unfold buildWorkflowTopology in H. apply bind_Ok in H as ([adjacency' indegree'] & H & [= <- <- <-]). split; [done|].
  rewrite start_degrees in H by apply Hg. pose proof (go_nodes _ Hg) as Hd. set (nodes := by_id (wg_nodes g)) in *.
  assert (∀ id n, nodes !! id = Some n → id ∈ node_ids g) as Hin.
  { intros id n [Hn <-]%by_id_lookup; [|done]. by apply list_elem_of_fmap_2. }
  refine (fold_result_inv (add_flow_edge nodes) (λ k acc, represents (node_ids g) (filter (λ e, we_kind e ≠ Some account_fallback) k) acc.1 acc.2
    ∧ Forall (staged nodes) (filter (λ e, we_kind e ≠ Some account_fallback) k)) _ _ _ _ _ H).
  - intros k e [a i] s' _ [Hr Hf] Hs. rewrite filter_app, filter_cons, filter_nil. unfold add_flow_edge in Hs. case_bool_decide as Hk.
    + injection Hs as <-. rewrite decide_False by auto. by rewrite app_nil_r.
    + rewrite decide_True by done. apply bind_Ok in Hs as (n & Hn & Hs). apply bind_Ok in Hs as (m & Hm & Hs).
      unfold requiredWorkflowNode, or_throw in Hn, Hm. destruct (nodes !! we_source e) as [n'|] eqn:En; [injection Hn as ->|done].
      destruct (nodes !! we_target e) as [m'|] eqn:Em; [injection Hm as ->|done]. destruct (Z.geb_spec (STAGE (wn_kind n)) (STAGE (wn_kind m))); [done|].
      injection Hs as <-. cbn [fst snd] in *. split; [apply represents_snoc; by eauto|]. apply Forall_app. split; [done|]. constructor; [|done]. by exists n, m.
  - split; [|constructor]. cbn [fst snd]. rewrite filter_nil. unfold node_ids in *. constructor.
    + done.
    + intros e []%not_elem_of_nil.
    + intros id. unfold outgoing. by rewrite lookup_empty.
    + by rewrite map_map.
    + intros id (n & -> & Hn)%list_elem_of_fmap. apply map_get_In; [by rewrite map_map|]. apply list_elem_of_fmap. by exists n.
Qed.

(** The columns order the nodes: the cycle check accepts every topology that was built. *)
Lemma topology_acyclic g nodes adjacency indegree : graph_ok g → buildWorkflowTopology g = Ok (nodes, adjacency, indegree) →
  assertAcyclicWorkflow (length (wg_nodes g)) adjacency indegree = Ok tt.
Proof.
  intros Hg H. destruct (build_topology _ _ _ _ Hg H) as (_ & Hr & Hs).
  assert (length (wg_nodes g) = length (node_ids g)) as -> by (symmetry; apply length_map).
  apply (kahn_exact _ _ _ _ Hr). exists (λ id, Z.to_nat ((STAGE ∘ wn_kind <$> nodes !! id) ?? 0)). intros e He. rewrite Forall_forall in Hs.
  destruct (Hs e He) as (s & t & -> & -> & Hlt). cbn. destruct (wn_kind s), (wn_kind t); cbn in *; lia.
Qed.

(** ** The accounts a channel reaches *)
Section Search.
Context (nodes : Nodes) (adjacency : Adjacency) (channel : string).
Abbreviation targets := (channel_targets adjacency channel).

(** The nodes a lineage of the channel can come to; it ends at an account. *)
Inductive reaches : string → Prop :=
| reaches_channel : reaches channel
| reaches_edge a e : reaches a → kind_of nodes a ≠ Some k_account → e ∈ outgoing adjacency a → edgeAppliesToChannel e channel = true → reaches (we_target e).

Lemma targets_In a t : t ∈ targets a ↔ ∃ e, e ∈ outgoing adjacency a ∧ edgeAppliesToChannel e channel = true ∧ we_target e = t.
Proof. unfold channel_targets. rewrite list_elem_of_fmap. setoid_rewrite list_elem_of_filter. naive_solver. Qed.

Lemma rev_In {A} (l : list A) x : x ∈ rev l ↔ x ∈ l.
Proof. by rewrite <-Permutation_rev. Qed.

Record search_inv (pending : list string) (visited accounts : gset string) : Prop := mkSearchInv {
  si_reached : ∀ id, id ∈ pending ∨ id ∈ visited → reaches id;
  si_accounts : ∀ id, id ∈ accounts ↔ id ∈ visited ∧ kind_of nodes id = Some k_account;
  si_start : channel ∈ visited ∨ channel ∈ pending;
  si_closed : ∀ a t, a ∈ visited → kind_of nodes a ≠ Some k_account → t ∈ targets a → t ∈ visited ∨ t ∈ pending }.

(** The edges of the nodes that are not visited yet. *)
Definition remaining (visited : gset string) : nat := edge_count (filter (λ entry : string * list WorkflowEdge, entry.1 ∉ visited) adjacency).

Lemma edge_count_insert id es (m : Adjacency) : m !! id = None → edge_count (<[id := es]> m) = (length es + edge_count m)%nat.
Proof. intros H. refine (map_fold_insert_L (λ (_ : string) (edges : list WorkflowEdge) n, (length edges + n)%nat) 0%nat id es m _ H). intros. lia. Qed.

Lemma remaining_visit visited id : id ∉ visited → (remaining ({[ id ]} ∪ visited) + length (outgoing adjacency id) = remaining visited)%nat.
Proof.
  intros Hid. unfold remaining. set (P (v : gset string) := λ entry : string * list WorkflowEdge, entry.1 ∉ v).
  assert (filter (P ({[ id ]} ∪ visited)) adjacency = delete id (filter (P visited) adjacency)) as E.
  { apply map_eq. intros k. apply option_eq. intros es. rewrite lookup_delete_Some, !map_lookup_filter_Some. unfold P. cbn. set_solver. }
  fold (P visited). fold (P ({[id]} ∪ visited)). rewrite E. unfold outgoing. destruct (adjacency !! id) as [es|] eqn:Ea.
  - assert (filter (P visited) adjacency !! id = Some es) as Hl by (by apply map_lookup_filter_Some). rewrite <-(insert_delete_id _ _ _ Hl) at 2.
    rewrite edge_count_insert by apply lookup_delete_eq. cbn. lia.
  - rewrite delete_id; [cbn; lia|]. apply map_lookup_filter_None. by left.
Qed.

Lemma search_spec fuel pending visited accounts : search_inv pending visited accounts → (length pending + remaining visited <= fuel)%nat →
  ∃ accounts' visited', search_accounts fuel nodes adjacency channel pending visited accounts = Some accounts' ∧ search_inv [] visited' accounts'.
Proof.
  revert pending visited accounts. induction fuel as [|fuel IH]; intros pending visited accounts Hi Hlen.
  - destruct pending; [|cbn in Hlen; lia]. by exists accounts, visited.
  - destruct pending as [|id pending]; [by exists accounts, visited|]. cbn [search_accounts length] in *. destruct Hi as [Hr Ha Hs Hc]. case_bool_decide as Hv.
    + apply IH; [|lia]. constructor; [|done| |].
      * intros x [H|H]; apply Hr; [left; by right|by right].
      * destruct Hs as [|[<-|]%elem_of_cons]; auto.
      * intros a t H1 H2 H3. destruct (Hc a t H1 H2 H3) as [|[->|]%elem_of_cons]; auto.
    + pose proof (remaining_visit visited id Hv) as Hrem. assert (reaches id) as Hid by (apply Hr; left; left). case_bool_decide as Hk.
      * apply IH; [|lia]. constructor.
        -- intros x [H|[->%elem_of_singleton|H]%elem_of_union]; [apply Hr; left; by right|done|apply Hr; by right].
        -- intros x. rewrite !elem_of_union, elem_of_singleton, Ha. split; [intros [->|[]]; auto|intros [[->|] ?]; auto].
        -- rewrite elem_of_union, elem_of_singleton. destruct Hs as [|[<-|]%elem_of_cons]; auto.
        -- intros a t [->%elem_of_singleton|H1]%elem_of_union H2 H3; [done|]. rewrite elem_of_union, elem_of_singleton.
           destruct (Hc a t H1 H2 H3) as [|[->|]%elem_of_cons]; auto.
      * apply IH.
        -- constructor.
           ++ intros x [[H|H]%elem_of_app|[->%elem_of_singleton|H]%elem_of_union]; [|apply Hr; left; by right|done|apply Hr; by right].
              rewrite rev_In in H. apply targets_In in H as (e & He & Hap & <-). by apply (reaches_edge id).
           ++ intros x. rewrite Ha, elem_of_union, elem_of_singleton. naive_solver.
           ++ rewrite elem_of_union, elem_of_singleton, elem_of_app. destruct Hs as [|[<-|]%elem_of_cons]; auto.
           ++ intros a t Hin H2 H3. rewrite elem_of_union, elem_of_singleton, elem_of_app, rev_In.
              apply elem_of_union in Hin as [->%elem_of_singleton|H1]; [auto|]. destruct (Hc a t H1 H2 H3) as [|[->|]%elem_of_cons]; auto.
        -- rewrite length_app, length_rev. assert (length (targets id) <= length (outgoing adjacency id))%nat; [|lia].
           unfold channel_targets. rewrite length_map. apply length_filter.
Qed.
End Search.

Lemma ordinary_spec nodes adjacency channel id :
  id ∈ ordinaryAccountNodesForChannel nodes adjacency channel ↔ reaches nodes adjacency channel id ∧ kind_of nodes id = Some k_account.
Proof.
  unfold ordinaryAccountNodesForChannel.
  destruct (search_spec nodes adjacency channel (S (edge_count adjacency)) [channel] ∅ ∅) as (accounts & visited & -> & Hi).
  - constructor; [|set_solver|by right; left|set_solver]. intros x [->%list_elem_of_singleton|H]; [constructor|set_solver].
  - unfold remaining. cbn [length]. rewrite map_filter_id by (intros; apply not_elem_of_empty). lia.
  - change (default ∅ (Some accounts)) with accounts. rewrite (si_accounts _ _ _ _ _ _ Hi). split; [intros [Hv Hk]; split; [apply (si_reached _ _ _ _ _ _ Hi); auto|done]|].
    intros [H Hk]. split; [|done]. clear Hk. induction H as [|a e _ IH Hna He Hap].
    + destruct (si_start _ _ _ _ _ _ Hi) as [|[]%not_elem_of_nil]; done.
    + destruct (si_closed _ _ _ _ _ _ Hi a (we_target e) IH Hna) as [|[]%not_elem_of_nil]; [|done]. apply targets_In. by exists e.
Qed.

(** The accounts a channel trades on directly are found exactly.  The search
    ends, and answers the account nodes the channel reaches over connections
    that apply to it, without passing through another account. *)
Theorem direct_accounts_exact nodes adjacency channel id :
  id ∈ ordinaryAccountNodesForChannel nodes adjacency channel ↔ reaches nodes adjacency channel id ∧ kind_of nodes id = Some k_account.
Proof. apply ordinary_spec. Qed.

(** ** Example *)
Definition sample_topology : Nodes * Adjacency * Indegree := Eval vm_compute in
  match buildWorkflowTopology sample_graph with Ok t => t | Err _ => (∅, ∅, []) end.

Lemma acyclic_check_exact_witness : represents (node_ids sample_graph) (flow_edges sample_graph) sample_topology.1.2 sample_topology.2 ∧
  (assertAcyclicWorkflow (length (node_ids sample_graph)) sample_topology.1.2 sample_topology.2 = Ok tt ↔
    ∃ rank : string → nat, ∀ e, e ∈ flow_edges sample_graph → (rank (we_source e) < rank (we_target e))%nat).
Proof.
  assert (represents (node_ids sample_graph) (flow_edges sample_graph) sample_topology.1.2 sample_topology.2) as H.
  { apply (build_topology sample_graph sample_topology.1.1); [exact sample_ok|vm_compute; reflexivity]. }
  split; [exact H|]. exact (proj1 (acyclic_check_exact _ _ _ _ H)).
Defined.

(** A cycle is refused. *)
Example cycle_refused : let e a b := mkEdge (a +:+ b) a b None None None in
  assertAcyclicWorkflow 3 (<["a" := [e "a" "b"]]> (<["b" := [e "b" "c"]]> {[ "c" := [e "c" "b"] ]})) [("a", 0); ("b", 2); ("c", 1)]
    = throw "Workflow graph must not contain cycles.".
Proof. vm_compute. reflexivity. Qed.

Example sample_accounts : elements (ordinaryAccountNodesForChannel sample_topology.1.1 sample_topology.1.2 "btc") = ["main"].
Proof. vm_compute. reflexivity. Qed.
