(* ===== verification/WorkflowFallback.v ===== *)
(** WorkflowFallback: the chains of fallback accounts of a channel
    ([fallbackSuccessorsForChannel] of [src/workflow_repository.ts]).

    The recursion that looks for cycles and the loop that follows a chain run on
    the number of successors, which suffices. *)

From S2P Require Import Prelude Text Json Maps Workflow WorkflowTopology.
From Stdlib Require String.
Local Open Scope Z_scope.
Local Open Scope ts_scope.
Set Default Proof Using "Type".

(** ** Chains *)
Record Successor := mkSuccessor { su_target : string; su_fallbackOn : list WorkflowFallbackReason }.
Abbreviation Successors := (list (string * Successor)).

Definition fallback_edge_for (channelNodeId : string) (edge : WorkflowEdge) : Prop :=
  we_kind edge = Some account_fallback ∧ channelNodeId ∈ (we_channelNodeIds edge ?? []).
#[export] Instance fallback_edge_for_dec channelNodeId edge : Decision (fallback_edge_for channelNodeId edge).
Proof. unfold fallback_edge_for. apply _. Defined.

Definition link_fallback (channelNodeId : string) (acc : Successors * gset string) (edge : WorkflowEdge) : result (Successors * gset string) :=
  let '(successors, predecessors) := acc in
  if bool_decide (we_source edge ∈ map fst successors)
  then throw ("Account fallback for channel " +:+ channelNodeId +:+ " must be linear; " +:+ we_source edge +:+ " has more than one successor.")
  else if bool_decide (we_target edge ∈ predecessors)
  then throw ("Account fallback for channel " +:+ channelNodeId +:+ " must be linear; " +:+ we_target edge +:+ " has more than one predecessor.")
  else
    Ok (map_set (we_source edge) (mkSuccessor (we_target edge) (we_fallbackOn edge ?? LEGACY_WORKFLOW_FALLBACK_POLICY)) successors,
        {[ we_target edge ]} ∪ predecessors).

(** [visit(nodeId)], with the nodes visited; [None]: the fuel was exhausted. *)
Fixpoint visit_chain (fuel : nat) (channelNodeId : string) (successors : Successors) (visiting visited : gset string) (nodeId : string) :
    option (result (gset string)) :=
  match fuel with
  | O => None
  | S fuel =>
      if bool_decide (nodeId ∈ visiting) then Some (throw ("Account fallback chain for channel " +:+ channelNodeId +:+ " contains a cycle."))
      else if bool_decide (nodeId ∈ visited) then Some (Ok visited)
      else
        let target := (su_target <$> map_get nodeId successors) ?? "" in
        if bool_decide (target = "") then Some (Ok ({[ nodeId ]} ∪ visited))
        else
          r ← visit_chain fuel channelNodeId successors ({[ nodeId ]} ∪ visiting) visited target;
          Some (visited ← r; Ok ({[ nodeId ]} ∪ visited))
  end.

Definition out_of_fuel {A} : result A := throw "The fuel was exhausted.".

Definition assert_start (channelNodeId : string) (ordinaryAccounts predecessors : gset string) (edge : WorkflowEdge) : result unit :=
  if bool_decide (we_target edge ∈ ordinaryAccounts)
  then throw ("Account " +:+ we_target edge +:+ " cannot be both a direct route and a fallback candidate for channel " +:+ channelNodeId +:+ ".")
  else if bool_decide (we_source edge ∉ ordinaryAccounts) && bool_decide (we_source edge ∉ predecessors)
  then throw ("Account fallback chain for channel " +:+ channelNodeId +:+ " must start at a directly connected account.")
  else Ok tt.

Definition fallbackSuccessorsForChannel (graph : WorkflowGraph) (channelNodeId : string) (ordinaryAccounts : gset string) : result Successors :=
  let fallbackEdges := filter (fallback_edge_for channelNodeId) (wg_edges graph) in
  '(successors, predecessors) ← fold_result (link_fallback channelNodeId) ([], ∅) fallbackEdges;
  let fuel := S (S (length successors)) in
  _ ← fold_result (λ visited nodeId, visit_chain fuel channelNodeId successors ∅ visited nodeId ?? out_of_fuel) ∅ (map fst successors);
  _ ← fold_result (λ _ edge, assert_start channelNodeId ordinaryAccounts predecessors edge) tt fallbackEdges;
  Ok successors.

(** The accounts a chain tries after an account, each with the policy that leads
    to it: the loop of [compileTerminalLineage]. *)
Fixpoint follow_chain (fuel : nat) (successors : Successors) (accountNodeId : string) : option (list (string * list WorkflowFallbackReason)) :=
  match map_get accountNodeId successors with
  | None => Some []
  | Some successor =>
      match fuel with
      | O => None
      | S fuel => cons (su_target successor, su_fallbackOn successor) <$> follow_chain fuel successors (su_target successor)
      end
  end.

(** ** Links *)
Lemma NoDup_map_inj {A B} (f : A → B) l x y : NoDup (map f l) → x ∈ l → y ∈ l → f x = f y → x = y.
Proof.
  intros Hd [i Hi]%list_elem_of_lookup [j Hj]%list_elem_of_lookup E. assert (i = j) as ->; [|congruence].
  eapply NoDup_lookup; [exact Hd|by rewrite list_lookup_fmap, Hi|by rewrite list_lookup_fmap, Hj, E].
Qed.

Section Chains.
Context (channel : string) (edges : list WorkflowEdge).

Definition link (a b : string) : Prop := ∃ e, e ∈ edges ∧ we_source e = a ∧ we_target e = b.

(** Each account has one successor and one predecessor at most. *)
Definition linear : Prop := NoDup (map we_source edges) ∧ NoDup (map we_target edges).
(** Every chain ends. *)
Definition ending : Prop := ∀ a, Acc (λ b a, link a b) a.

Definition successor_of (e : WorkflowEdge) : Successor := mkSuccessor (we_target e) (we_fallbackOn e ?? LEGACY_WORKFLOW_FALLBACK_POLICY).
Definition successors_of (l : list WorkflowEdge) : Successors := map (λ e, (we_source e, successor_of e)) l.

Lemma link_exact acc : fold_result (link_fallback channel) ([], ∅) edges = Ok acc ↔
  linear ∧ acc = (successors_of edges, list_to_set (map we_target edges)).
Proof.
  unfold linear. enough (∀ l done, NoDup (map we_source done) → NoDup (map we_target done) →
    fold_result (link_fallback channel) (successors_of done, list_to_set (map we_target done)) l = Ok acc ↔
    (NoDup (map we_source (done ++ l)) ∧ NoDup (map we_target (done ++ l))) ∧ acc = (successors_of (done ++ l), list_to_set (map we_target (done ++ l))))
    as H by (apply (H edges []); apply NoDup_nil_2).
  induction l as [|e l IH]; intros done Hs Ht; cbn [fold_result].
  - rewrite app_nil_r. split; [intros [= <-]; done|by intros [_ ->]].
  - unfold link_fallback at 2. cbv beta iota. assert (map fst (successors_of done) = map we_source done) as -> by (unfold successors_of; by rewrite map_map).
    case_bool_decide as H1.
    { split; [done|]. intros [[Hd _] _]. rewrite map_app in Hd. cbn [map] in Hd. apply NoDup_app in Hd as (_ & Hd & _). exfalso. apply (Hd _ H1). left. }
    case_bool_decide as H2.
    { split; [done|]. intros [[_ Hd] _]. rewrite map_app in Hd. cbn [map] in Hd. apply NoDup_app in Hd as (_ & Hd & _). exfalso.
      apply elem_of_list_to_set in H2. apply (Hd _ H2). left. }
    rewrite elem_of_list_to_set in H2. cbn [mbind result_bind].
    rewrite map_set_new by (unfold successors_of; by rewrite map_map). assert (successors_of done ++ [(we_source e, successor_of e)] = successors_of (done ++ [e])) as Es
      by (unfold successors_of; by rewrite map_app). unfold successor_of at 1 in Es. rewrite Es.
    assert ({[we_target e]} ∪ list_to_set (map we_target done) = (list_to_set (map we_target (done ++ [e])) : gset string)) as ->
      by (rewrite map_app; cbn [map]; set_solver).
    assert (done ++ e :: l = (done ++ [e]) ++ l) as -> by (by rewrite <-app_assoc).
    apply IH; rewrite map_app; apply NoDup_app; (split_and!; [done| |apply NoDup_singleton]); intros x Hx ->%list_elem_of_singleton; done.
Qed.

Hypothesis Hlinear : linear.
Hypothesis Hnonempty : ∀ e, e ∈ edges → we_target e ≠ "".

Lemma successor_get a s : map_get a (successors_of edges) = Some s ↔ ∃ e, e ∈ edges ∧ we_source e = a ∧ s = successor_of e.
Proof using Hlinear.
  split.
  - intros H%map_get_Some. apply list_elem_of_fmap in H as (e & [= -> ->] & He). by exists e.
  - intros (e & He & <- & ->). apply map_get_In; [unfold successors_of; rewrite map_map; apply Hlinear|]. apply list_elem_of_fmap. by exists e.
Qed.

Lemma link_get a b : link a b ↔ su_target <$> map_get a (successors_of edges) = Some b.
Proof using Hlinear.
  rewrite fmap_Some. setoid_rewrite successor_get. split.
  - intros (e & He & <- & <-). exists (successor_of e). split; [by exists e|done].
  - intros (s & (e & He & <- & ->) & ->). by exists e.
Qed.

Lemma link_fun a b c : link a b → link a c → b = c.
Proof using Hlinear. rewrite !link_get. congruence. Qed.
Lemma link_inj a b c : link a c → link b c → a = b.
Proof using Hlinear.
  intros (e & He & <- & Et) (e' & He' & <- & Et'). f_equal. apply (NoDup_map_inj we_target edges); [apply Hlinear|done..|congruence].
Qed.

Lemma ending_irrefl a : ending → ¬ tc link a a.
Proof.
  intros Hend. induction (Hend a) as [a _ IH]. intros Ht. inversion Ht as [x y H|x b y Hb Hba]; subst.
  - by apply (IH a H), tc_once.
  - apply (IH b Hb). by apply (tc_r _ a).
Qed.
(** The recursive visit ends; what it visits ends, and it throws only when a chain does not. *)
Lemma visit_spec fuel visiting visited a : visiting ⊆ list_to_set (map we_source edges) → (length edges + 2 <= size visiting + fuel)%nat →
  ∃ r, visit_chain fuel channel (successors_of edges) visiting visited a = Some r ∧
    (∀ visited', r = Ok visited' → visited ⊆ visited' ∧ a ∈ visited' ∧
      ((∀ x, x ∈ visited → Acc (λ b a, link a b) x) → ∀ x, x ∈ visited' → Acc (λ b a, link a b) x)) ∧
    (ending → (∀ v, v ∈ visiting → tc link v a) → is_ok r = true).
Proof using Hlinear Hnonempty.
  revert visiting visited a. induction fuel as [|fuel IH]; intros visiting visited a Hv Hf.
  { exfalso. apply subseteq_size in Hv. rewrite size_list_to_set in Hv by apply Hlinear. rewrite length_map in Hv. lia. }
  cbn [visit_chain]. case_bool_decide as H1.
  { eexists. split; [done|]. split; [done|]. intros Hend Htc. exfalso. by apply (ending_irrefl a Hend), Htc. }
  case_bool_decide as H2.
  { eexists. split; [done|]. split; [|done]. intros ? [= <-]. split_and!; [done|done|auto]. }
  assert ((su_target <$> map_get a (successors_of edges)) ?? "" = "" ∧ (∀ b, ¬ link a b) ∨
    ∃ b, (su_target <$> map_get a (successors_of edges)) ?? "" = b ∧ b ≠ "" ∧ link a b) as [[-> Hno]|(b & -> & Hb & Hl)].
  { destruct (su_target <$> map_get a (successors_of edges)) as [b|] eqn:E.
    - right. exists b. split; [done|]. assert (link a b) as Hl by (by apply link_get). split; [|done]. destruct Hl as (e & He & _ & <-). by apply Hnonempty.
    - left. split; [done|]. intros b Hl%link_get. congruence. }
  { eexists. split; [done|]. split; [|done]. intros ? [= <-]. split_and!; [set_solver|set_solver|]. intros Hacc x [->%elem_of_singleton|Hx]%elem_of_union; [|by apply Hacc].
    constructor. intros b Hb. by apply Hno in Hb. }
  destruct (IH ({[ a ]} ∪ visiting) visited b) as (r & E & Hr & Hok).
  { intros x [->%elem_of_singleton|Hx]%elem_of_union; [|by apply Hv]. destruct Hl as (e & He & <- & _). apply elem_of_list_to_set. by apply list_elem_of_fmap_2. }
  { rewrite size_union, size_singleton by set_solver. lia. }
  exists (visited ← r; Ok ({[a]} ∪ visited)). split.
  { by rewrite bool_decide_false, E. }
  split.
  - intros visited' H. apply bind_Ok in H as (w & -> & [= <-]). destruct (Hr w eq_refl) as (Hsub & Hbw & Hacc).
    split_and!; [set_solver|set_solver|]. intros Hw x [->%elem_of_singleton|Hx]%elem_of_union; [|by apply Hacc].
    constructor. intros c Hc. rewrite (link_fun _ _ _ Hc Hl). by apply Hacc.
  - intros Hend Htc. specialize (Hok Hend). destruct r; [done|]. apply Hok. intros v [->%elem_of_singleton|Hin]%elem_of_union; [by apply tc_once|].
    eapply tc_r; [by apply Htc|done].
Qed.

Abbreviation visit_all := (fold_result (λ visited a, visit_chain (S (S (length (successors_of edges)))) channel (successors_of edges) ∅ visited a ?? out_of_fuel)).

Lemma visit_all_spec l visited : (∀ x, x ∈ visited → Acc (λ b a, link a b) x) →
  (∀ visited', visit_all visited l = Ok visited' → ∀ x, x ∈ visited ∨ x ∈ l → Acc (λ b a, link a b) x) ∧ (ending → ∃ visited', visit_all visited l = Ok visited').
Proof using Hlinear Hnonempty.
  revert visited. induction l as [|a l IH]; intros visited Hacc; cbn [fold_result].
  - split; [|by eexists]. intros _ _ x [Hx|[]%not_elem_of_nil]. by apply Hacc.
  - destruct (visit_spec (S (S (length (successors_of edges)))) ∅ visited a) as (r & E & Hr & Hok).
    { set_solver. } { unfold successors_of. rewrite length_map, size_empty. lia. }
    rewrite E. change (default out_of_fuel (Some r)) with r. destruct r as [w|e]; cbn [mbind result_bind].
    + destruct (Hr w eq_refl) as (Hsub & Ha & Hw). specialize (Hw Hacc). destruct (IH w Hw) as [I1 I2]. split; [|done].
      intros visited' H x [Hx|[->|Hx]%elem_of_cons]; [by apply Hw, Hsub|by apply Hw|]. apply (I1 visited' H). by right.
    + split; [done|]. intros Hend. specialize (Hok Hend). exfalso. discriminate Hok. set_solver.
Qed.

Lemma visit_all_exact : (∃ visited, visit_all ∅ (map fst (successors_of edges)) = Ok visited) ↔ ending.
Proof using Hlinear Hnonempty.
  destruct (visit_all_spec (map fst (successors_of edges)) ∅) as [H1 H2]; [set_solver|]. split; [|done]. intros [visited H] a.
  constructor. intros b (e & He & <- & <-). assert (Acc (λ b a, link a b) (we_source e)) as Ha.
  { apply (H1 visited H). right. unfold successors_of. rewrite map_map. by apply list_elem_of_fmap_2. }
  apply Ha. by exists e.
Qed.

(** The chain that starts at an account: it is followed to its end. *)
Lemma follow_spec fuel a : ending → ∀ done : list string, NoDup done → done ⊆ map we_source edges → (∀ x, x ∈ done → tc link x a) → (length edges <= length done + fuel)%nat →
  ∃ l, follow_chain fuel (successors_of edges) a = Some l ∧ (∀ b, b ∈ map fst l ↔ tc link a b) ∧ NoDup (map fst l).
Proof using Hlinear.
  intros Hend. revert a. induction fuel as [|fuel IH]; intros a done Hnd Hin Htc Hlen; cbn [follow_chain].
  - destruct (map_get a (successors_of edges)) as [s|] eqn:E.
    + exfalso. apply successor_get in E as (e & He & <- & _).
      assert (NoDup (we_source e :: done)) as Hnd'. { constructor; [|done]. intros H%Htc. by apply (ending_irrefl _ Hend) in H. }
      assert (we_source e :: done ⊆ map we_source edges) as Hin'. { intros x [->|Hx]%elem_of_cons; [by apply list_elem_of_fmap_2|by apply Hin]. }
      pose proof (submseteq_length _ _ (NoDup_submseteq _ _ Hnd' Hin')) as H. rewrite length_map in H. cbn in H. lia.
    + exists []. split_and!; [done| |apply NoDup_nil_2]. intros b. split; [by intros []%not_elem_of_nil|]. intros Ht.
      assert (∃ c, link a c) as [c Hc] by (inversion Ht; by eexists). apply link_get in Hc. rewrite E in Hc. done.
  - destruct (map_get a (successors_of edges)) as [s|] eqn:E.
    + assert (link a (su_target s)) as Hl by (apply link_get; by rewrite E). destruct (IH (su_target s) (a :: done)) as (l & -> & Hl1 & Hl2).
      * constructor; [|done]. intros H%Htc. by apply (ending_irrefl _ Hend) in H.
      * intros x [->|Hx]%elem_of_cons; [|by apply Hin]. destruct Hl as (e & He & <- & _). by apply list_elem_of_fmap_2.
      * intros x [->|Hx]%elem_of_cons; [by apply tc_once|]. eapply tc_r; [by apply Htc|done].
      * cbn. lia.
      * eexists. split; [reflexivity|]. cbn [map fst]. split.
        -- intros b. rewrite elem_of_cons, Hl1. split.
           ++ intros [->|H]; [by apply tc_once|by eapply tc_l].
           ++ intros Ht. inversion Ht as [x y H|x c y Hc Hcb]; subst; [left; by eapply link_fun|right]. by rewrite (link_fun _ _ _ Hl Hc).
        -- constructor; [|done]. rewrite Hl1. by apply ending_irrefl.
    + exists []. split_and!; [done| |apply NoDup_nil_2]. intros b. split; [by intros []%not_elem_of_nil|]. intros Ht.
      assert (∃ c, link a c) as [c Hc] by (inversion Ht; by eexists). apply link_get in Hc. rewrite E in Hc. done.
Qed.
End Chains.

(** ** The check of a channel *)
Definition fallback_edges (g : WorkflowGraph) (channel : string) : list WorkflowEdge := filter (fallback_edge_for channel) (wg_edges g).

(** A chain leaves a direct account, and no direct account is a fallback. *)
Definition starts (direct : gset string) (edges : list WorkflowEdge) : Prop :=
  ∀ e, e ∈ edges → we_target e ∉ direct ∧ (we_source e ∈ direct ∨ we_source e ∈ map we_target edges).

Lemma starts_exact channel direct edges :
  fold_result (λ _ edge, assert_start channel direct (list_to_set (map we_target edges)) edge) tt edges = Ok tt ↔ starts direct edges.
Proof.
  unfold starts. generalize (map we_target edges) as targets. intros targets. induction edges as [|e l IH]; cbn [fold_result].
  - split; [intros _ e []%not_elem_of_nil|done].
  - match goal with |- context[mbind ?f (assert_start ?a ?b ?c ?d)] => set (rest := f) end. unfold assert_start. case_bool_decide as H1.
    { split; [intros [=]|]. intros H. by destruct (H e (list_elem_of_here _ _)). }
    destruct (bool_decide (we_source e ∉ direct) && bool_decide (we_source e ∉ list_to_set targets)) eqn:E2; cbn [mbind result_bind].
    + apply andb_true_iff in E2 as [H2%bool_decide_eq_true H3%bool_decide_eq_true]. rewrite elem_of_list_to_set in H3. split; [done|]. intros H.
      destruct (H e (list_elem_of_here _ _)) as [_ [|]]; done.
    + unfold rest. rewrite IH. apply andb_false_iff in E2. rewrite !bool_decide_eq_false in E2. split.
      * intros H e' [->|He]%elem_of_cons; [|by apply H]. split; [done|].
        destruct E2 as [E2|E2]; apply dec_stable in E2; [by left|right; by apply elem_of_list_to_set in E2].
      * intros H e' He. apply H. by right.
Qed.

Lemma graph_targets g e : graph_ok g → e ∈ wg_edges g → we_target e ≠ "".
Proof.
  intros Hg He. pose proof (go_edges _ Hg) as H. rewrite Forall_forall in H. destruct (eo_ends _ _ _ (H e He)) as [_ [n Hn]].
  apply by_id_lookup in Hn as [Hin <-]; [|apply Hg]. pose proof (go_ids _ Hg) as Hi. rewrite Forall_forall in Hi.
  intros E. specialize (Hi (wn_id n)). rewrite E in Hi. discriminate Hi. rewrite <-E. unfold node_ids. by apply list_elem_of_fmap_2.
Qed.

Lemma fallback_spec g channel direct successors : graph_ok g →
  fallbackSuccessorsForChannel g channel direct = Ok successors ↔
  linear (fallback_edges g channel) ∧ ending (fallback_edges g channel) ∧ starts direct (fallback_edges g channel) ∧
  successors = successors_of (fallback_edges g channel).
Proof.
  intros Hg. unfold fallbackSuccessorsForChannel. fold (fallback_edges g channel).
  assert (∀ e, e ∈ fallback_edges g channel → we_target e ≠ "") as Hne by (intros e [_ He]%list_elem_of_filter; by apply (graph_targets g)).
  set (edges := fallback_edges g channel) in *. clearbody edges. split.
  - intros H. apply bind_Ok in H as ([s p] & Hl & H). apply link_exact in Hl as [Hlin [= -> ->]].
    apply bind_Ok in H as (visited & Hv & H). apply bind_Ok in H as ([] & Hs & [= <-]). apply starts_exact in Hs.
    refine (conj Hlin (conj _ (conj Hs eq_refl))). apply (visit_all_exact channel edges Hlin Hne). exists visited. exact Hv.
  - intros (Hlin & Hend & Hst & ->). rewrite (proj2 (link_exact channel edges (successors_of edges, list_to_set (map we_target edges)))) by done.
    cbn [mbind result_bind]. destruct (proj2 (visit_all_exact channel edges Hlin Hne) Hend) as [visited ->]. cbn [mbind result_bind].
    by rewrite (proj2 (starts_exact channel direct edges) Hst).
Qed.

(** C38: the fallback check is exact.  For a valid graph, the fallback edges of a
    channel are accepted exactly when every account has one successor and one
    predecessor at most, every chain ends, chains leave direct accounts, and no
    direct account is a fallback.  The result is those edges and their policies. *)
Theorem fallback_chains_exact g channel direct successors : graph_ok g →
  (fallbackSuccessorsForChannel g channel direct = Ok successors ↔
   linear (fallback_edges g channel) ∧ ending (fallback_edges g channel) ∧ starts direct (fallback_edges g channel) ∧
   successors = successors_of (fallback_edges g channel)).
Proof. apply fallback_spec. Qed.

Section Partition.
Context (direct : gset string) (edges : list WorkflowEdge) (Hlinear : linear edges) (Hending : ending edges) (Hstarts : starts direct edges).
Abbreviation link := (link edges).

Lemma target_not_direct a b : tc link a b → b ∉ direct.
Proof using Hstarts. intros H. induction H as [a b (e & He & _ & <-)|]; [by apply (Hstarts e He)|done]. Qed.

(** Going back from an account leads to a direct account. *)
Lemma origin m done a : a ∈ map we_source edges → NoDup done → done ⊆ map we_source edges → (∀ x, x ∈ done → tc link a x) → (length edges <= length done + m)%nat →
  ∃ o, o ∈ direct ∧ rtc link o a.
Proof using Hending Hstarts.
  revert done a. induction m as [|m IH]; intros done a Ha Hnd Hin Htc Hlen.
  - exfalso. assert (NoDup (a :: done)) as Hnd'. { constructor; [|done]. intros H%Htc. by apply (ending_irrefl _ _ Hending) in H. }
    assert (a :: done ⊆ map we_source edges) as Hin' by (intros x [->|Hx]%elem_of_cons; [done|by apply Hin]).
    pose proof (submseteq_length _ _ (NoDup_submseteq _ _ Hnd' Hin')) as H. rewrite length_map in H. cbn in H. lia.
  - apply list_elem_of_fmap in Ha as (e & -> & He). destruct (Hstarts e He) as [_ [Hd|Ht]]; [by exists (we_source e)|].
    apply list_elem_of_fmap in Ht as (e' & Et & He'). assert (link (we_source e') (we_source e)) as Hl by (by exists e').
    destruct (IH (we_source e :: done) (we_source e')) as (o & Ho & Hr).
    + by apply list_elem_of_fmap_2.
    + constructor; [|done]. intros H%Htc. by apply (ending_irrefl _ _ Hending) in H.
    + intros x [->|Hx]%elem_of_cons; [by apply list_elem_of_fmap_2|by apply Hin].
    + intros x [->|Hx]%elem_of_cons; [by apply tc_once|]. eapply tc_l; [done|by apply Htc].
    + cbn. lia.
    + exists o. split; [done|]. by eapply rtc_r.
Qed.

Lemma comparable a b c : rtc link a c → rtc link b c → rtc link a b ∨ rtc link b a.
Proof using Hlinear.
  intros Ha. revert b. refine (rtc_ind_r (λ c, ∀ b, rtc link b c → rtc link a b ∨ rtc link b a) a _ _ c Ha).
  - intros b Hb. by right.
  - intros d c' Had Hdc IH b Hb. destruct (rtc_inv_r _ _ Hb) as [->|(d' & Hbd & Hdc')].
    + left. by eapply rtc_r.
    + rewrite (link_inj _ Hlinear _ _ _ Hdc' Hdc) in Hbd. by apply IH.
Qed.

Lemma direct_apart a b c : a ∈ direct → b ∈ direct → rtc link a c → rtc link b c → a = b.
Proof using Hlinear Hstarts.
  intros Ha Hb Hac Hbc. destruct (comparable _ _ _ Hac Hbc) as [H|H]; apply rtc_tc in H as [|H]; try done;
    by apply target_not_direct in H.
Qed.
End Partition.

(** C11: a fallback account stands in for one direct account.  When the fallback
    edges of a channel are accepted, the chain of every direct account is
    followed to its end, repeats no account and holds no direct account; every
    fallback account of the channel is in the chain of exactly one direct
    account.  So no two routes of a signal can fall back to the same account. *)
Theorem fallback_accounts_exclusive g channel direct successors : graph_ok g → fallbackSuccessorsForChannel g channel direct = Ok successors →
  ∃ chain : string → list string,
    (∀ a, a ∈ direct → ∃ l, follow_chain (length successors) successors a = Some l ∧ chain a = map fst l) ∧
    (∀ a, a ∈ direct → NoDup (a :: chain a) ∧ ∀ b, b ∈ chain a → b ∉ direct) ∧
    (∀ a b, a ∈ direct → b ∈ direct → a ≠ b → chain a ## chain b) ∧
    (∀ e, e ∈ fallback_edges g channel → ∃ a, a ∈ direct ∧ we_target e ∈ chain a).
Proof.
  intros Hg H. apply (fallback_spec _ _ _ _ Hg) in H as (Hlin & Hend & Hst & ->). set (edges := fallback_edges g channel) in *.
  exists (λ a, map fst (follow_chain (length (successors_of edges)) (successors_of edges) a ?? [])).
  assert (∀ a, ∃ l, follow_chain (length (successors_of edges)) (successors_of edges) a = Some l ∧ (∀ b, b ∈ map fst l ↔ tc (link edges) a b) ∧ NoDup (map fst l)) as Hf.
  { intros a. apply (follow_spec edges Hlin _ a Hend []); [apply NoDup_nil_2|intros x []%not_elem_of_nil|intros x []%not_elem_of_nil|]. unfold successors_of. rewrite length_map. cbn. lia. }
  split_and!.
  - intros a _. destruct (Hf a) as (l & -> & _). by exists l.
  - intros a Ha. destruct (Hf a) as (l & -> & Hl & Hd). change (default [] (Some l)) with l. split.
    + constructor; [|done]. rewrite Hl. by apply ending_irrefl.
    + intros b Hb%Hl. by eapply target_not_direct.
  - intros a b Ha Hb Hab c. destruct (Hf a) as (l & -> & Hl & _), (Hf b) as (k & -> & Hk & _). change (default [] (Some l)) with l. change (default [] (Some k)) with k.
    rewrite Hl, Hk. intros Hac Hbc. apply Hab. by apply (direct_apart direct edges Hlin Hst a b c Ha Hb); apply tc_rtc.
  - intros e He. destruct (origin direct edges Hend Hst (length edges) [] (we_source e)) as (o & Ho & Hr).
    + by apply list_elem_of_fmap_2.
    + apply NoDup_nil_2.
    + intros x []%not_elem_of_nil.
    + intros x []%not_elem_of_nil.
    + cbn. lia.
    + exists o. split; [done|]. destruct (Hf o) as (l & -> & Hl & _). change (default [] (Some l)) with l. apply Hl. eapply tc_rtc_l; [exact Hr|]. apply tc_once. by exists e.
Qed.

(** ** Example *)
Definition sample_direct : gset string := ordinaryAccountNodesForChannel sample_topology.1.1 sample_topology.1.2 "btc".
Definition sample_successors : Successors := [("main", mkSuccessor "spare" [SYMBOL_UNAVAILABLE; SYMBOL_ALREADY_OWNED])].

Lemma fallback_chains_exact_witness : graph_ok sample_graph ∧
  (fallbackSuccessorsForChannel sample_graph "btc" sample_direct = Ok sample_successors ↔
   linear (fallback_edges sample_graph "btc") ∧ ending (fallback_edges sample_graph "btc") ∧ starts sample_direct (fallback_edges sample_graph "btc") ∧
   sample_successors = successors_of (fallback_edges sample_graph "btc")).
Proof. split; [exact sample_ok|]. exact (fallback_chains_exact sample_graph "btc" sample_direct sample_successors sample_ok). Defined.

Lemma fallback_accounts_exclusive_witness : fallbackSuccessorsForChannel sample_graph "btc" sample_direct = Ok sample_successors ∧
  ∃ chain : string → list string,
    (∀ a, a ∈ sample_direct → ∃ l, follow_chain (length sample_successors) sample_successors a = Some l ∧ chain a = map fst l) ∧
    (∀ a, a ∈ sample_direct → NoDup (a :: chain a) ∧ ∀ b, b ∈ chain a → b ∉ sample_direct) ∧
    (∀ a b, a ∈ sample_direct → b ∈ sample_direct → a ≠ b → chain a ## chain b) ∧
    (∀ e, e ∈ fallback_edges sample_graph "btc" → ∃ a, a ∈ sample_direct ∧ we_target e ∈ chain a).
Proof.
  assert (fallbackSuccessorsForChannel sample_graph "btc" sample_direct = Ok sample_successors) as H by (vm_compute; reflexivity).
  split; [exact H|]. exact (fallback_accounts_exclusive sample_graph "btc" sample_direct sample_successors sample_ok H).
Defined.

(** Two accounts that fall back to each other are refused. *)
Example ring_refused :
  let f a b := mkEdge (a +:+ b) a b (Some account_fallback) (Some ["btc"]) None in
  fallbackSuccessorsForChannel (mkGraph 2 [] [f "x" "y"; f "y" "x"]) "btc" {[ "main" ]} = throw "Account fallback chain for channel btc contains a cycle.".
Proof. vm_compute. reflexivity. Qed.
