(* ===== verification/WorkflowCompile.v ===== *)
(** WorkflowCompile: the compiler of [src/workflow_repository.ts], from a
    validated graph to execution paths and groups of fallback candidates.

    The rows the compiler reads are [Tables]; a JSON column is the value it
    parses to, and the text of a resource is kept beside it for its digest.  [Number] is the conversion of that name,
    [sha256] the digest of [node:crypto], [compiles] tells a regular expression,
    and [uuid n] is the [n]-th generated identifier. *)

From S2P Require Import Prelude Text Decimal Rational Types Json Maps SignalContract Strategy Workflow WorkflowTopology WorkflowFallback.
From Stdlib Require Import Ascii.
From Stdlib Require String.
Local Open Scope Z_scope.
Local Open Scope ts_scope.
Set Default Proof Using "Type".

(** ** Values *)

(** The order of the own properties of an object: array indices first. *)
Definition array_index (key : string) : option Z :=
  let l := chars key in
  if forallb is_digit l && negb (bool_decide (l = [])) && (bool_decide (head l ≠ Some zero_char) || (length l =? 1)%nat) && (digits l <=? 4294967294)
  then Some (digits l) else None.
Definition own_order {A} (entries : list (string * A)) : list (string * A) :=
  sort_by (λ e, array_index e.1 ?? 0) (filter (λ e, array_index e.1 ≠ None) entries) ++ filter (λ e, array_index e.1 = None) entries.

Fixpoint sort_keys (value : jsval) : jsval :=
  match value with
  | JArray items => JArray (map sort_keys items)
  | JObject fields => JObject (own_order (sort_text fst (map (λ '(key, nested), (key, sort_keys nested)) fields)))
  | v => v
  end.
Definition normalizedJson (value : jsval) : string := JSON_stringify (sort_keys value).

(** [value.key] *)
Definition property (key : string) (value : jsval) : result jsval :=
  match value with
  | JObject fields => Ok (assoc key fields)
  | JUndefined | JNull => throw ("Cannot read properties of undefined (reading " +:+ key +:+ ")")
  | _ => Ok JUndefined
  end.

(** [value ?? fallback] *)
Definition or_default (value fallback : jsval) : jsval := match value with JUndefined | JNull => fallback | v => v end.

(** [{ ...fields, ...more }] *)
Definition override (fields more : list (string * jsval)) : list (string * jsval) := fold_left (λ acc e, map_set e.1 e.2 acc) more fields.

(** The own properties that [{ ...value }] copies. *)
Definition own_properties (value : jsval) : list (string * jsval) := match value with JObject fields => fields | _ => [] end.

(** A column that holds JSON, and [parseJson]. *)
Inductive JsonColumn := column_null | column_malformed | column_json (value : jsval).
Definition parseJson (column : JsonColumn) (label : string) : result jsval :=
  match column with
  | column_null => throw ("Stored " +:+ label +:+ " is not JSON.")
  | column_malformed => throw ("Stored " +:+ label +:+ " is invalid JSON.")
  | column_json value => Ok value
  end.

(** [[...new Set(values)]] *)
Definition set_values (values : list string) : list string := fold_left (λ acc v, if bool_decide (v ∈ acc) then acc else acc ++ [v]) values [].

(** ** Rows *)
Record WorkflowResourceVersion := mkResource {
  wr_id : string;
  wr_resourceId : string;
  wr_kind : string;
  wr_name : string;
  wr_status : string;
  wr_configuration : jsval }.

Record WorkflowResourceRow := mkResourceRow { rr_resource : WorkflowResourceVersion; rr_configuration_json : JsonColumn; rr_configuration_text : string; rr_configuration_sha256 : string }.
Record WorkflowAccountRow := mkAccountRow { ar_enabled : Z; ar_status : string }.
Record WorkflowStrategyRow := mkStrategyRow { sr_status : string; sr_configuration_json : JsonColumn }.
Record WorkflowSchemaRow := mkSchemaRow { hr_enabled : Z; hr_definition_json : JsonColumn }.
Record WorkflowContractRow := mkContractRow { cr_status : string; cr_definition_json : JsonColumn }.

Record Tables := mkTables {
  tb_resources : gmap string WorkflowResourceRow;
  tb_accounts : gmap string WorkflowAccountRow;
  tb_strategies : gmap string WorkflowStrategyRow;
  tb_schemas : gmap string WorkflowSchemaRow;
  tb_contracts : gmap string WorkflowContractRow }.

(** ** Compiled workflows *)
Record EffectiveConfiguration := mkEffective { ef_resources : list (string * jsval); ef_strategyConfiguration : StrategyConfiguration }.

Record CompiledDraftPath := mkPath {
  dp_id : string;
  dp_pathKey : string;
  dp_channelId : string;
  dp_accountId : string;
  dp_strategyVersionId : string;
  dp_parserResourceVersionId : option string;
  dp_schemaResourceVersionId : option string;
  dp_contractResourceVersionId : option string;
  dp_sizingResourceVersionId : option string;
  dp_adaptiveRiskResourceVersionId : option string;
  dp_routeGroupKey : string;
  dp_fallbackRank : nat;
  dp_fallbackOn : list WorkflowFallbackReason;
  dp_nodeIds : list string;
  dp_effectiveConfiguration : EffectiveConfiguration;
  dp_enabled : bool }.

Record WorkflowRouteCandidate := mkCandidate {
  rc_pathId : string;
  rc_accountId : string;
  rc_accountNodeId : string;
  rc_rank : nat;
  rc_enabled : bool;
  rc_fallbackOn : list WorkflowFallbackReason }.

Record WorkflowRouteGroup := mkGroup {
  rg_key : string;
  rg_channelId : string;
  rg_channelNodeId : string;
  rg_primaryPathId : string;
  rg_candidates : list WorkflowRouteCandidate }.

(** What the walk has collected, and the number of identifiers it has drawn. *)
Record Collected := mkCollected { co_paths : list CompiledDraftPath; co_routeGroups : list WorkflowRouteGroup; co_warnings : list string; co_drawn : nat }.

Definition warn (warning : string) (c : Collected) : Collected := mkCollected (co_paths c) (co_routeGroups c) (co_warnings c ++ [warning]) (co_drawn c).

Section Compiler.
Context (Number : jsval → jsval) (sha256 : string → string) (compiles : string → bool) (uuid : nat → string) (tables : Tables).

Definition digest (value : jsval) : string := sha256 (normalizedJson value).

(** ** Resources *)
Definition resourceFromRow (row : WorkflowResourceRow) : result WorkflowResourceVersion :=
  let r := rr_resource row in
  configuration ← parseJson (rr_configuration_json row) "workflow resource configuration";
  if negb (bool_decide (sha256 (rr_configuration_text row) = rr_configuration_sha256 row)) then throw ("Workflow resource " +:+ wr_id r +:+ " failed its integrity check.")
  else Ok (mkResource (wr_id r) (wr_resourceId r) (wr_kind r) (wr_name r) (wr_status r) configuration).

(** The rows of the graph's resources, and the places where a resource or a behaviour was placed. *)
Definition place_resource (resources : gmap string WorkflowResourceVersion) (placed : gmap string string * gmap string (string * string)) (node : WorkflowNode) :
    result (gmap string string * gmap string (string * string)) :=
  let '(placedResourceIds, placedBehaviors) := placed in
  match resources !! wn_resourceVersionId node with
  | None => throw ("Node " +:+ wn_id node +:+ " must reference a published resource version.")
  | Some resource =>
      if negb (bool_decide (wr_status resource = "published")) then throw ("Node " +:+ wn_id node +:+ " must reference a published resource version.")
      else if negb (bool_decide (wr_kind resource = kind_text (wn_kind node))) then throw ("Node " +:+ wn_id node +:+ " kind does not match its resource.")
      else
        match placedResourceIds !! wr_resourceId resource with
        | Some existing =>
            throw ("Workflow resource '" +:+ wr_name resource +:+ "' may only be placed once (nodes " +:+ existing +:+ " and " +:+ wn_id node +:+ ").")
        | None =>
            let behaviorKey := wr_kind resource +:+ ":" +:+ digest (wr_configuration resource) in
            match placedBehaviors !! behaviorKey with
            | Some (existing, name) =>
                throw ("Workflow resources '" +:+ name +:+ "' and '" +:+ wr_name resource +:+ "' have identical behavior and may only be placed once (nodes "
                  +:+ existing +:+ " and " +:+ wn_id node +:+ ").")
            | None => Ok (<[wr_resourceId resource := wn_id node]> placedResourceIds, <[behaviorKey := (wn_id node, wr_name resource)]> placedBehaviors)
            end
        end
  end.

Definition loadWorkflowResources (graph : WorkflowGraph) : result (gmap string WorkflowResourceVersion) :=
  let ids := map wn_resourceVersionId (wg_nodes graph) in
  loaded ← mapM (λ row : string * WorkflowResourceRow, r ← resourceFromRow row.2; Ok (row.1, r))
    (map_to_list (filter (λ row : string * WorkflowResourceRow, row.1 ∈ ids) (tb_resources tables)));
  let resources := list_to_map loaded in
  _ ← fold_result (place_resource resources) (∅, ∅) (wg_nodes graph);
  Ok resources.

Definition requiredWorkflowResource (resources : gmap string WorkflowResourceVersion) (id : string) : result WorkflowResourceVersion :=
  or_throw (resources !! id) "Workflow references a missing resource.".

(** ** Configurations *)
Definition safe_integer (value : jsval) : option Z := match value with JInt z => if isSafeInteger z then Some z else None | _ => None end.

Definition leverage (value : jsval) (label : string) : result Z :=
  match safe_integer value with
  | Some z => if (z <? 1) || (50 <? z) then throw (label +:+ " must be between 1 and 50.") else Ok z
  | None => throw (label +:+ " must be between 1 and 50.")
  end.

Definition validateSizingConfiguration (value : list (string * jsval)) : result (list (string * jsval)) :=
  match isStringMember (or_default (assoc "positionSizingMode" value) (JString "equity_percent_margin")) ["risk_percent"; "equity_percent_notional"; "equity_percent_margin"] with
  | None => throw "Sizing mode is unsupported."
  | Some positionSizingMode =>
      risk ← requireString (assoc "riskPerTradePercent" value) "Risk per trade";
      baseline ← decimal risk true (Some "10");
      adaptive ← requireString (or_default (assoc "maxAdaptiveRiskPercent" value) (JString baseline)) "Maximum adaptive risk";
      maximum ← decimal adaptive true (Some "10");
      if difference (Number (JString maximum)) (Number (JString baseline)) <? 0
      then throw "Maximum adaptive risk must not be below the baseline sizing percentage."
      else
        maxLeverage ← leverage (Number (or_default (assoc "maxLeverage" value) (JInt 1))) "Maximum leverage";
        defaultLeverage ← (if is_undefined (assoc "defaultLeverage" value) then Ok maxLeverage
                           else leverage (Number (assoc "defaultLeverage" value)) "Default leverage");
        if maxLeverage <? defaultLeverage then throw "Default leverage must not exceed maximum leverage."
        else
          notional ← requireString (or_default (assoc "maxPositionNotional" value) (JString "1000000000")) "Maximum position notional";
          maxPositionNotional ← decimal notional true None;
          Ok (override value [("positionSizingMode", JString positionSizingMode); ("riskPerTradePercent", JString baseline);
            ("maxAdaptiveRiskPercent", JString maximum); ("maxPositionNotional", JString maxPositionNotional);
            ("defaultLeverage", JInt defaultLeverage); ("maxLeverage", JInt maxLeverage)])
  end.

Definition loadCompiledPathDependencies (configs : list (string * jsval)) (accountId strategyVersionId : string) : result (WorkflowAccountRow * StrategyConfiguration) :=
  schemaId ← (value ← property "schemaId" (assoc "schema" configs); requireString value "Compiled schema ID");
  contractId ← property "contractVersionId" (assoc "contract" configs);
  let contract := match contractId with JString id => tb_contracts tables !! id | _ => None end in
  account ← or_throw (tb_accounts tables !! accountId) ("Workflow account " +:+ accountId +:+ " does not exist.");
  match tb_strategies tables !! strategyVersionId with
  | Some strategy =>
      if negb (bool_decide (sr_status strategy = "published")) then throw ("Workflow strategy " +:+ strategyVersionId +:+ " is not published.")
      else
        match tb_schemas tables !! schemaId with
        | Some schema =>
            if negb (hr_enabled schema =? 1) then throw ("Workflow signal schema " +:+ schemaId +:+ " is unavailable.")
            else
              match contract with
              | Some contract =>
                  if negb (bool_decide (cr_status contract = "published")) then throw "Workflow contract node must reference a published contract."
                  else
                    schemaDefinition ← parseJson (hr_definition_json schema) "workflow signal schema definition";
                    contractDefinition ← parseJson (cr_definition_json contract) "workflow signal contract definition";
                    _ ← composeSignalSchemaContract compiles schemaDefinition contractDefinition;
                    configuration ← parseJson (sr_configuration_json strategy) "strategy configuration";
                    baseStrategy ← validateStrategyConfiguration configuration;
                    if bool_decide (schemaId ∈ st_allowedSignalSchemas baseStrategy) then Ok (account, baseStrategy)
                    else throw "Workflow strategy does not allow the selected signal schema. Publish a compatible strategy version first."
              | None => throw "Workflow contract node must reference a published contract."
              end
        | None => throw ("Workflow signal schema " +:+ schemaId +:+ " is unavailable.")
        end
  | None => throw ("Workflow strategy " +:+ strategyVersionId +:+ " is not published.")
  end.

Definition compiledEffectiveConfiguration (baseStrategy : StrategyConfiguration) (configs : list (string * jsval)) : result EffectiveConfiguration :=
  normalizedSizing ← (match assoc "sizing" configs with
                      | JUndefined | JNull => throw "Cannot read properties of undefined (reading positionSizingMode)"
                      | sizing => validateSizingConfiguration (own_properties sizing)
                      end);
  let strategy := own_properties (strategyJson baseStrategy) in
  let effectiveStrategy := JObject (override strategy
    [("schemaVersion", JInt 4);
     ("sizing", JObject (override (own_properties (assoc "sizing" strategy)) normalizedSizing));
     ("safety", JObject (map_delete "maxConcurrentPositions" (own_properties (assoc "safety" strategy))))]) in
  strategyConfiguration ← validateStrategyConfiguration effectiveStrategy;
  Ok (mkEffective (override configs [("sizing", JObject normalizedSizing)]) strategyConfiguration).

(** ** Paths *)
Record WorkflowCompileContext := mkContext {
  cx_nodes : Nodes;
  cx_adjacency : Adjacency;
  cx_resources : gmap string WorkflowResourceVersion;
  cx_fallbackByChannel : gmap string Successors }.

Definition REQUIRED_EXECUTION_KINDS : list WorkflowResourceKind := [k_channel; k_parser; k_schema; k_contract; k_strategy; k_sizing; k_account].

Definition nodes_of (nodes : Nodes) (ids : list string) : result (list WorkflowNode) := mapM (requiredWorkflowNode nodes) ids.

(** The configurations of the nodes by kind; the last node of a kind counts. *)
Definition configurations (resources : gmap string WorkflowResourceVersion) (nodes : list WorkflowNode) : result (list (string * jsval)) :=
  entries ← mapM (λ node, resource ← requiredWorkflowResource resources (wn_resourceVersionId node); Ok (kind_text (wn_kind node), wr_configuration resource)) nodes;
  Ok (override [] entries).

Definition resourceVersionForKind (nodes : list WorkflowNode) (kind : WorkflowResourceKind) : option string :=
  wn_resourceVersionId <$> last (filter (λ node, wn_kind node = kind) nodes).

Definition missing_kinds (nodes : list WorkflowNode) : list WorkflowResourceKind :=
  filter (λ kind, kind ∉ map wn_kind nodes) REQUIRED_EXECUTION_KINDS.

Definition reasonsJson (reasons : list WorkflowFallbackReason) : jsval := JArray (map (λ r, JString (reason_text r)) reasons).
Definition idsJson (ids : list string) : jsval := JArray (map JString ids).

(** A terminal lineage with the accounts that may take it. *)
Record Lineage := mkLineage {
  ln_channelNodeId : string;
  ln_prefix : list string;
  ln_suffix : list string;
  ln_accountNodeIds : list string;
  ln_policies : list (list WorkflowFallbackReason) }.

Definition group_key (terminalLineage : list string) (l : Lineage) : string :=
  digest (JObject [("channelNodeId", JString (ln_channelNodeId l)); ("terminalLineage", idsJson terminalLineage); ("accountNodeIds", idsJson (ln_accountNodeIds l));
                   ("fallbackPolicies", JArray (map reasonsJson (ln_policies l)))]).

Definition candidate_nodes (l : Lineage) (rank : nat) : list string := ln_prefix l ++ take (S rank) (ln_accountNodeIds l) ++ ln_suffix l.

(** One turn of the loop over the candidates of a lineage. *)
Definition compile_candidate (context : WorkflowCompileContext) (l : Lineage) (routeGroupKey channelId strategyVersionId : string)
    (acc : Collected * list WorkflowRouteCandidate) (rank : nat) : result (Collected * list WorkflowRouteCandidate) :=
  let '(c, candidates) := acc in
  let candidateNodeIds := candidate_nodes l rank in
  pathNodes ← nodes_of (cx_nodes context) candidateNodeIds;
  configs ← configurations (cx_resources context) pathNodes;
  accountId ← (value ← property "accountId" (assoc "account" configs); requireString value "Compiled account ID");
  '(account, baseStrategy) ← loadCompiledPathDependencies configs accountId strategyVersionId;
  effectiveConfiguration ← compiledEffectiveConfiguration baseStrategy configs;
  let id := uuid (co_drawn c) in
  let pathKey := digest (JObject [("routeGroupKey", JString routeGroupKey); ("rank", JInt (Z.of_nat rank)); ("candidateNodeIds", idsJson candidateNodeIds);
    ("channelId", JString channelId); ("accountId", JString accountId); ("strategyVersionId", JString strategyVersionId)]) in
  let fallbackOn := ln_policies l !! rank ?? [] in
  let enabled := (ar_enabled account =? 1) && bool_decide (ar_status account = "ready") in
  let path := mkPath id pathKey channelId accountId strategyVersionId (resourceVersionForKind pathNodes k_parser) (resourceVersionForKind pathNodes k_schema)
    (resourceVersionForKind pathNodes k_contract) (resourceVersionForKind pathNodes k_sizing) (resourceVersionForKind pathNodes k_adaptive_risk)
    routeGroupKey rank fallbackOn candidateNodeIds effectiveConfiguration enabled in
  Ok (mkCollected (co_paths c ++ [path]) (co_routeGroups c) (co_warnings c) (S (co_drawn c)),
      candidates ++ [mkCandidate id accountId (ln_accountNodeIds l !! rank ?? "") rank enabled fallbackOn]).

Definition compileTerminalLineage (context : WorkflowCompileContext) (terminalLineage : list string) (accountNodeId channelNodeId : string) (c : Collected) :
    result Collected :=
  let successors := cx_fallbackByChannel context !! channelNodeId ?? [] in
  match follow_chain (length successors) successors accountNodeId with
  | None => out_of_fuel
  | Some chain =>
      let primaryAccountIndex := position terminalLineage accountNodeId in
      let l := mkLineage channelNodeId (take primaryAccountIndex terminalLineage) (drop (S primaryAccountIndex) terminalLineage)
        (accountNodeId :: map fst chain) (map snd chain ++ [[]]) in
      primaryNodes ← nodes_of (cx_nodes context) terminalLineage;
      match missing_kinds primaryNodes with
      | [] =>
          primaryConfigs ← configurations (cx_resources context) primaryNodes;
          channelId ← (value ← property "channelId" (assoc "channel" primaryConfigs); requireString value "Compiled channel ID");
          strategyVersionId ← (value ← property "strategyVersionId" (assoc "strategy" primaryConfigs); requireString value "Compiled strategy version ID");
          let routeGroupKey := group_key terminalLineage l in
          '(c', candidates) ← fold_result (compile_candidate context l routeGroupKey channelId strategyVersionId) (c, []) (seq 0 (length (ln_accountNodeIds l)));
          Ok (mkCollected (co_paths c') (co_routeGroups c' ++ [mkGroup routeGroupKey channelId channelNodeId ((rc_pathId <$> head candidates) ?? "") candidates])
                (co_warnings c') (co_drawn c'))
      | missing => Ok (warn ("Path ending at " +:+ accountNodeId +:+ " is inert; missing: " +:+ join ", " (map kind_text missing) +:+ ".") c)
      end
  end.

(** The output nodes an account is connected to, for the channel. *)
Definition output_targets (context : WorkflowCompileContext) (accountNodeId channelNodeId : string) : list string :=
  filter (λ target, kind_of (cx_nodes context) target = Some k_output) (channel_targets (cx_adjacency context) channelNodeId accountNodeId).

Fixpoint walkWorkflowPaths (fuel : nat) (context : WorkflowCompileContext) (channelNodeId nodeId : string) (lineage : list string) (c : Collected) : result Collected :=
  match fuel with
  | O => out_of_fuel
  | S fuel =>
      node ← requiredWorkflowNode (cx_nodes context) nodeId;
      let nextLineage := lineage ++ [nodeId] in
      if bool_decide (wn_kind node = k_account) then
        match output_targets context nodeId channelNodeId with
        | [] => compileTerminalLineage context nextLineage nodeId channelNodeId c
        | [target] => compileTerminalLineage context (nextLineage ++ [target]) nodeId channelNodeId c
        | _ => throw ("Exchange account node " +:+ nodeId +:+ " may connect to at most one output node.")
        end
      else
        let targets := channel_targets (cx_adjacency context) channelNodeId nodeId in
        let c := if bool_decide (targets = []) then warn ("Node " +:+ nodeId +:+ " is not connected to an exchange account for channel " +:+ channelNodeId +:+ " and is inert.") c else c in
        fold_result (λ c target, walkWorkflowPaths fuel context channelNodeId target nextLineage c) c targets
  end.

(** ** Telegram outputs *)

(** [String(value)] *)
Fixpoint js_string (value : jsval) : string :=
  match value with
  | JUndefined => "undefined"
  | JNull => "null"
  | JBool b => if b then "true" else "false"
  | JInt z => of_chars (show_chars z)
  | JFloat printed => printed
  | JNaN => "NaN"
  | JString s => s
  | JArray items => join "," (map (λ item, match item with JUndefined | JNull => "" | _ => js_string item end) items)
  | JObject _ => "[object Object]"
  end.

Definition output_mode (path : CompiledDraftPath) : string :=
  let mode := match assoc "output" (ef_resources (dp_effectiveConfiguration path)) with JObject fields => assoc "mode" fields | _ => JUndefined end in
  js_string (or_default mode (JString "audit_only")).

Definition add_output_mode (modes : list (string * gset string)) (path : CompiledDraftPath) : list (string * gset string) :=
  let mode := output_mode path in
  if bool_decide (mode ∈ ["telegram_xml"; "telegram_original"])
  then map_set (dp_channelId path) ({[ mode ]} ∪ (map_get (dp_channelId path) modes ?? ∅)) modes else modes.

Definition assertConsistentTelegramOutputs (paths : list CompiledDraftPath) : result unit :=
  match filter (λ e : string * gset string, (1 < size e.2)%nat) (fold_left add_output_mode paths []) with
  | [] => Ok tt
  | (channelId, _) :: _ => throw ("Channel " +:+ channelId +:+ " cannot forward both XML and original Telegram messages in one active workflow.")
  end.

(** ** The compiler *)
Record CompiledWorkflow := mkCompiled { cw_paths : list CompiledDraftPath; cw_routeGroups : list WorkflowRouteGroup; cw_warnings : list string }.

Definition channel_nodes (graph : WorkflowGraph) : list string := map wn_id (filter (λ node, wn_kind node = k_channel) (wg_nodes graph)).

(** The longest lineage visits one node of every column. *)
Definition walk_fuel : nat := length WORKFLOW_RESOURCE_KINDS.

Definition compileWorkflow (graph : WorkflowGraph) : result CompiledWorkflow :=
  resources ← loadWorkflowResources graph;
  '(nodes, adjacency, indegree) ← buildWorkflowTopology graph;
  _ ← assertAcyclicWorkflow (length (wg_nodes graph)) adjacency indegree;
  let channelNodes := channel_nodes graph in
  fallbackByChannel ← fold_result (λ byChannel channel,
    successors ← fallbackSuccessorsForChannel graph channel (ordinaryAccountNodesForChannel nodes adjacency channel);
    Ok (<[channel := successors]> byChannel)) ∅ channelNodes;
  let context := mkContext nodes adjacency resources fallbackByChannel in
  c ← fold_result (λ c channel, walkWorkflowPaths walk_fuel context channel channel [] c) (mkCollected [] [] [] 0) channelNodes;
  let c := if bool_decide (channelNodes = []) && negb (bool_decide (wg_nodes graph = [])) then warn "No channel node is present; the workflow is inert." c else c in
  _ ← assertConsistentTelegramOutputs (co_paths c);
  Ok (mkCompiled (co_paths c) (co_routeGroups c) (set_values (co_warnings c))).
End Compiler.

(** ** Routes *)

(** A terminal lineage and its account. *)
Record Route := mkRoute { ro_channel : string; ro_lineage : list string; ro_account : string }.

Section Routes.
Context (nodes : Nodes) (adjacency : Adjacency) (channel : string).

(** The lineages of the channel: they follow connections that apply to it and end at an account. *)
Inductive lineage_to : list string → string → Prop :=
| lineage_start : lineage_to [channel] channel
| lineage_step l a t : lineage_to l a → kind_of nodes a ≠ Some k_account → t ∈ channel_targets adjacency channel a → lineage_to (l ++ [t]) t.

Definition outputs (account : string) : list string :=
  filter (λ target, kind_of nodes target = Some k_output) (channel_targets adjacency channel account).

(** A route runs from the channel to an account, and on to its output if it has one. *)
Definition is_route (r : Route) : Prop :=
  ro_channel r = channel ∧ kind_of nodes (ro_account r) = Some k_account ∧
  ∃ l, lineage_to l (ro_account r) ∧ (outputs (ro_account r) = [] ∧ ro_lineage r = l ∨ ∃ o, outputs (ro_account r) = [o] ∧ ro_lineage r = l ++ [o]).

(** The routes in the order of the walk. *)
Fixpoint routes (fuel : nat) (nodeId : string) (lineage : list string) : list Route :=
  match fuel with
  | O => []
  | S fuel =>
      let nextLineage := lineage ++ [nodeId] in
      if bool_decide (kind_of nodes nodeId = Some k_account) then
        match outputs nodeId with
        | [] => [mkRoute channel nextLineage nodeId]
        | [target] => [mkRoute channel (nextLineage ++ [target]) nodeId]
        | _ => []
        end
      else flat_map (λ target, routes fuel target nextLineage) (channel_targets adjacency channel nodeId)
  end.

Lemma routes_sound fuel nodeId lineage r : lineage_to (lineage ++ [nodeId]) nodeId → r ∈ routes fuel nodeId lineage → is_route r.
Proof.
  revert nodeId lineage. induction fuel as [|fuel IH]; intros nodeId lineage Hl Hr; cbn [routes] in Hr; [by apply not_elem_of_nil in Hr|].
  case_bool_decide as Hk.
  - destruct (outputs nodeId) as [|o [|]] eqn:Eo; [| |by apply not_elem_of_nil in Hr]; apply list_elem_of_singleton in Hr as ->;
      (split; [done|split; [done|]]); exists (lineage ++ [nodeId]); split; [done|by left|done|right; by exists o].
  - apply list_elem_of_In, in_flat_map in Hr as (t & Ht & Hr). apply list_elem_of_In in Ht, Hr. eapply IH; [|exact Hr]. by eapply lineage_step.
Qed.

(** Every column is passed once: the fuel of the walk is enough. *)
Definition stage_of (id : string) : nat := Z.to_nat ((STAGE ∘ wn_kind <$> nodes !! id) ?? 0).

Context (Hstaged : ∀ a e, e ∈ outgoing adjacency a → (stage_of a < stage_of (we_target e))%nat).

Lemma stage_bound id : (stage_of id < length WORKFLOW_RESOURCE_KINDS)%nat.
Proof. unfold stage_of. destruct (nodes !! id) as [n|]; cbn; [|lia]. destruct (wn_kind n); cbn; lia. Qed.

Lemma target_stage a t : t ∈ channel_targets adjacency channel a → (stage_of a < stage_of t)%nat.
Proof using Hstaged. intros (e & He & _ & <-)%targets_In. by apply Hstaged. Qed.

Lemma routes_fuel f f' a l : (length WORKFLOW_RESOURCE_KINDS <= f + stage_of a)%nat → (length WORKFLOW_RESOURCE_KINDS <= f' + stage_of a)%nat →
  routes f a l = routes f' a l.
Proof using Hstaged.
  revert f' a l. induction f as [|f IH]; intros f' a l Hf Hf'; [pose proof (stage_bound a); lia|]. destruct f' as [|f']; [pose proof (stage_bound a); lia|].
  cbn [routes]. case_bool_decide; [done|].
  assert (∀ ts, ts ⊆ channel_targets adjacency channel a → flat_map (λ target, routes f target (l ++ [a])) ts = flat_map (λ target, routes f' target (l ++ [a])) ts) as G; [|by apply G].
  induction ts as [|t ts IHt]; intros Hts; cbn [flat_map]; [done|]. pose proof (target_stage a t (Hts t (list_elem_of_here _ _))) as H0.
  rewrite (IH f' t) by (clear -Hf Hf' H0; lia). f_equal. apply IHt. intros x Hx. apply Hts. by right.
Qed.

(** What is walked from the end of a lineage is walked from the channel. *)
Lemma routes_extend l a : lineage_to l a → ∃ l', l = l' ++ [a] ∧
  ∀ fuel, (length WORKFLOW_RESOURCE_KINDS <= fuel + stage_of a)%nat → ∀ r, r ∈ routes fuel a l' → r ∈ routes (length WORKFLOW_RESOURCE_KINDS) channel [].
Proof using Hstaged.
  intros H. induction H as [|l a t Hl (l' & -> & IH) Hk Ht].
  - exists []. split; [done|]. intros fuel Hfuel r Hr. rewrite (routes_fuel _ fuel channel []); [exact Hr|clear; lia|exact Hfuel].
  - exists (l' ++ [a]). split; [done|]. intros fuel Hfuel r Hr. rewrite (routes_fuel _ (length WORKFLOW_RESOURCE_KINDS)) in Hr by lia.
    apply (IH (S (length WORKFLOW_RESOURCE_KINDS))); [lia|].
    cbn [routes]. rewrite bool_decide_false by done. apply list_elem_of_In, in_flat_map. exists t. split; by apply list_elem_of_In.
Qed.

Lemma routes_exact r : r ∈ routes (length WORKFLOW_RESOURCE_KINDS) channel [] ↔ is_route r.
Proof using Hstaged.
  split; [apply routes_sound; constructor|]. intros (Hc & Hk & l & Hl & Ho). destruct (routes_extend _ _ Hl) as (l' & -> & Hext).
  apply (Hext (length WORKFLOW_RESOURCE_KINDS)); [lia|]. change (length WORKFLOW_RESOURCE_KINDS) with 13%nat. cbn [routes].
  rewrite bool_decide_true by done. destruct r as [rc rl ra]. cbn in *. subst rc. destruct Ho as [[-> ->]|(o & -> & ->)]; by apply list_elem_of_singleton.
Qed.
End Routes.

(** ** The effective configuration *)

(** A strategy under a sizing node: the sizing and the version change, the retired limit goes. *)
Definition without_limit (s : StrategySafety) : StrategySafety :=
  mkStrategySafety None (sf_maxDailyLossMode s) (sf_maxDailyLoss s) (sf_maxSlippagePercent s) (sf_entryOrderTtlSeconds s).
Definition with_sizing (base : StrategyConfiguration) (sizing : StrategySizing) : StrategyConfiguration :=
  mkStrategy 4 (st_allowedSignalSchemas base) (st_allowedSymbols base) (st_allowedSides base) (st_entry base) sizing (st_exits base) (without_limit (st_safety base)).

Lemma safety_without v version s : validateSafety v version = Ok s →
  validateSafety (JObject (map_delete "maxConcurrentPositions" (own_properties (safetyJson s)))) 4 = Ok (without_limit s).
Proof.
  unfold validateSafety at 1. intros H. apply bind_Ok in H as (fs & _ & H). apply bind_Ok in H as (u & _ & H). apply bind_Ok in H as (u2 & _ & H).
  apply bind_Ok in H as (mode & _ & H). apply bind_Ok in H as (cc & _ & H). apply bind_Ok in H as (loss & Hloss%validateDecimal_again & H).
  apply bind_Ok in H as (sl & Hsl%validateDecimal_again & H). apply bind_Ok in H as (ttl & Httl%integer_again & H). injection H as <-.
  assert (map_delete "maxConcurrentPositions" (own_properties (safetyJson (mkStrategySafety cc (Some mode) loss sl ttl)))
    = own_properties (safetyJson (mkStrategySafety None (Some mode) loss sl ttl))) as -> by (by destruct cc).
  unfold validateSafety, safetyJson, own_properties, without_limit.
  cbn [sf_maxConcurrentPositions sf_maxDailyLossMode sf_maxDailyLoss sf_maxSlippagePercent sf_entryOrderTtlSeconds].
  destruct mode; read_back; rewrite Hloss; cbn [mbind result_bind]; rewrite Hsl; cbn [mbind result_bind]; rewrite Httl; reflexivity.
Qed.

(** The sections of a configuration given as an object in the order of the validator. *)
Lemma strategy_sections v sc sy si en sz ex sf c :
  validateStrategyConfiguration (JObject [("schemaVersion", v); ("allowedSignalSchemas", sc); ("allowedSymbols", sy); ("allowedSides", si);
    ("entry", en); ("sizing", sz); ("exits", ex); ("safety", sf)]) = Ok c →
  validateAccess ([("schemaVersion", v); ("allowedSignalSchemas", sc); ("allowedSymbols", sy); ("allowedSides", si)]
    ++ [("entry", en); ("sizing", sz); ("exits", ex); ("safety", sf)])
    = Ok (st_schemaVersion c, st_allowedSignalSchemas c, st_allowedSymbols c, st_allowedSides c) ∧
  validateEntry en = Ok (st_entry c) ∧ validateSizing sz (st_schemaVersion c) = Ok (st_sizing c) ∧ validateExits ex = Ok (st_exits c) ∧
  validateSafety sf (st_schemaVersion c) = Ok (st_safety c).
Proof.
  intros H. unfold validateStrategyConfiguration in H. apply bind_Ok in H as (fs & [= <-] & H). apply bind_Ok in H as (u & _ & H).
  apply bind_Ok in H as ([[[ver scs] sys] sis] & Hacc & H). apply bind_Ok in H as (e & He & H). apply bind_Ok in H as (z & Hz & H).
  apply bind_Ok in H as (x & Hx & H). apply bind_Ok in H as (s & Hs & [= <-]).
  repeat first [rewrite assoc_hit in He, Hz, Hx, Hs | rewrite assoc_miss in He by discriminate | rewrite assoc_miss in Hz by discriminate
    | rewrite assoc_miss in Hx by discriminate | rewrite assoc_miss in Hs by discriminate | rewrite assoc_hit in He | rewrite assoc_hit in Hz
    | rewrite assoc_hit in Hx | rewrite assoc_hit in Hs].
  done.
Qed.

Lemma effective_spec Number base v configs ef : validateStrategyConfiguration v = Ok base → compiledEffectiveConfiguration Number base configs = Ok ef →
  ∃ sizing checked, validateSizingConfiguration Number (own_properties (assoc "sizing" configs)) = Ok checked ∧
    validateSizing (JObject (override (own_properties (sizingJson (st_sizing base))) checked)) 4 = Ok sizing ∧
    ef_strategyConfiguration ef = with_sizing base sizing ∧ ef_resources ef = override configs [("sizing", JObject checked)].
Proof.
  intros Hb H. destruct (validated_parts v base Hb) as (Hver & Hread & _). specialize (Hread (st_schemaVersion base) Hver eq_refl eq_refl).
  assert (mkStrategy (st_schemaVersion base) (st_allowedSignalSchemas base) (st_allowedSymbols base) (st_allowedSides base) (st_entry base) (st_sizing base)
    (st_exits base) (st_safety base) = base) as Eb by (by destruct base). cbv zeta in Hread. rewrite Eb in Hread.
  unfold strategyJson in Hread. apply strategy_sections in Hread as (Hacc & Hen & _ & Hex & Hsf).
  unfold compiledEffectiveConfiguration in H. apply bind_Ok in H as (checked & Hc & H).
  assert (validateSizingConfiguration Number (own_properties (assoc "sizing" configs)) = Ok checked) as Hc' by (by destruct (assoc "sizing" configs)). clear Hc.
  apply bind_Ok in H as (c & H & [= <-]). cbn [ef_strategyConfiguration ef_resources].
  change (own_properties (strategyJson base)) with [("schemaVersion", JInt (st_schemaVersion base)); ("allowedSignalSchemas", JArray (map JString (st_allowedSignalSchemas base)));
    ("allowedSymbols", JArray (map JString (st_allowedSymbols base))); ("allowedSides", JArray (map (λ s, JString (side_text s)) (st_allowedSides base)));
    ("entry", entryJson (st_entry base)); ("sizing", sizingJson (st_sizing base)); ("exits", exitsJson (st_exits base)); ("safety", safetyJson (st_safety base))] in H.
  match type of H with context[assoc "sizing" ?l] => change (assoc "sizing" l) with (sizingJson (st_sizing base)) in H;
    change (assoc "safety" l) with (safetyJson (st_safety base)) in H end.
  match type of H with validateStrategyConfiguration (JObject (override _ [_; (_, ?s); (_, ?f)])) = _ =>
    set (sizing := s) in H; set (safety := f) in H end.
  match type of H with validateStrategyConfiguration (JObject ?l) = _ => change l with
    [("schemaVersion", JInt 4); ("allowedSignalSchemas", JArray (map JString (st_allowedSignalSchemas base)));
    ("allowedSymbols", JArray (map JString (st_allowedSymbols base))); ("allowedSides", JArray (map (λ s, JString (side_text s)) (st_allowedSides base)));
    ("entry", entryJson (st_entry base)); ("sizing", sizing); ("exits", exitsJson (st_exits base)); ("safety", safety)] in H end.
  apply strategy_sections in H as (Hacc2 & Hen2 & Hsz2 & Hex2 & Hsf2).
  destruct (access_again _ _ _ _ _ [("entry", entryJson (st_entry base)); ("sizing", sizing); ("exits", exitsJson (st_exits base)); ("safety", safety)] Hacc) as [_ Ha].
  specialize (Ha 4 ltac:(lia)). rewrite Ha in Hacc2. injection Hacc2 as E1 E2 E3 E4. rewrite <-E1 in *.
  unfold safety in Hsf2. rewrite (safety_without _ _ _ Hsf) in Hsf2. injection Hsf2 as E5. rewrite Hen in Hen2. injection Hen2 as E6. rewrite Hex in Hex2. injection Hex2 as E7.
  exists (st_sizing c), checked. split_and!; [done|done| |done]. unfold with_sizing. destruct c. cbn in *. congruence.
Qed.

(** ** What the walk emits *)
Section Emit.
Context (Number : jsval → jsval) (sha256 : string → string) (compiles : string → bool) (uuid : nat → string) (tables : Tables)
  (context : WorkflowCompileContext).
Abbreviation compile_candidate := (compile_candidate Number sha256 compiles uuid tables context).
Abbreviation compileTerminalLineage := (compileTerminalLineage Number sha256 compiles uuid tables context).
Abbreviation walkWorkflowPaths := (walkWorkflowPaths Number sha256 compiles uuid tables).

(** The node of a kind that counts for a path, the last one: its resource
    version, which is published, of that kind and unaltered, and the
    configuration stored for it. *)
Definition node_value (ids : list string) (kind : WorkflowResourceKind) (version : string) (value : jsval) : Prop :=
  ∃ before id after node row, ids = before ++ id :: after ∧
    cx_nodes context !! id = Some node ∧ wn_kind node = kind ∧ (∀ id', id' ∈ after → kind_of (cx_nodes context) id' ≠ Some kind) ∧
    wn_resourceVersionId node = version ∧ tb_resources tables !! version = Some row ∧ wr_status (rr_resource row) = "published" ∧
    wr_kind (rr_resource row) = kind_text kind ∧ rr_configuration_json row = column_json value ∧
    sha256 (rr_configuration_text row) = rr_configuration_sha256 row.

Definition no_node (ids : list string) (kind : WorkflowResourceKind) : Prop := ∀ id, id ∈ ids → kind_of (cx_nodes context) id ≠ Some kind.

(** The resource version a path records for a kind. *)
Definition version_of (ids : list string) (kind : WorkflowResourceKind) (o : option string) : Prop :=
  match o with Some version => ∃ value, node_value ids kind version value | None => no_node ids kind end.

(** What the nodes of a path and the tables say of it: its channel and account;
    the published strategy, schema and contract its own nodes name; the sizing
    of its own sizing node; the resources of its own nodes. *)
Record path_ok (p : CompiledDraftPath) : Prop := mkPathOk {
  po_channel : ∃ version value, node_value (dp_nodeIds p) k_channel version value ∧ property "channelId" value = Ok (JString (dp_channelId p));
  po_account : ∃ version value row, node_value (dp_nodeIds p) k_account version value ∧ property "accountId" value = Ok (JString (dp_accountId p)) ∧
    tb_accounts tables !! dp_accountId p = Some row ∧ dp_enabled p = (ar_enabled row =? 1) && bool_decide (ar_status row = "ready");
  po_strategy : ∃ version value row v base, node_value (dp_nodeIds p) k_strategy version value ∧
    property "strategyVersionId" value = Ok (JString (dp_strategyVersionId p)) ∧
    tb_strategies tables !! dp_strategyVersionId p = Some row ∧ sr_status row = "published" ∧
    sr_configuration_json row = column_json v ∧ validateStrategyConfiguration v = Ok base ∧
    (∃ version value checked sizing, dp_sizingResourceVersionId p = Some version ∧ node_value (dp_nodeIds p) k_sizing version value ∧
      validateSizingConfiguration Number (own_properties value) = Ok checked ∧
      validateSizing (JObject (override (own_properties (sizingJson (st_sizing base))) checked)) 4 = Ok sizing ∧
      ef_strategyConfiguration (dp_effectiveConfiguration p) = with_sizing base sizing ∧
      assoc "sizing" (ef_resources (dp_effectiveConfiguration p)) = JObject checked) ∧
    ∃ schemaVersion schemaValue schemaId schema s contractVersion contractValue contractId contract c d,
      dp_schemaResourceVersionId p = Some schemaVersion ∧ node_value (dp_nodeIds p) k_schema schemaVersion schemaValue ∧
      property "schemaId" schemaValue = Ok (JString schemaId) ∧ schemaId ∈ st_allowedSignalSchemas base ∧
      tb_schemas tables !! schemaId = Some schema ∧ hr_enabled schema = 1 ∧ hr_definition_json schema = column_json s ∧
      dp_contractResourceVersionId p = Some contractVersion ∧ node_value (dp_nodeIds p) k_contract contractVersion contractValue ∧
      property "contractVersionId" contractValue = Ok (JString contractId) ∧
      tb_contracts tables !! contractId = Some contract ∧ cr_status contract = "published" ∧ cr_definition_json contract = column_json c ∧
      composeSignalSchemaContract compiles s c = Ok d;
  po_resources : ∀ kind, kind ≠ k_sizing →
    (∃ version value, node_value (dp_nodeIds p) kind version value ∧ assoc (kind_text kind) (ef_resources (dp_effectiveConfiguration p)) = value) ∨
    no_node (dp_nodeIds p) kind ∧ assoc (kind_text kind) (ef_resources (dp_effectiveConfiguration p)) = JUndefined;
  po_parser : version_of (dp_nodeIds p) k_parser (dp_parserResourceVersionId p);
  po_adaptive : version_of (dp_nodeIds p) k_adaptive_risk (dp_adaptiveRiskResourceVersionId p) }.

Lemma assoc_map_set k k' v l : assoc k (map_set k' v l) = if bool_decide (k' = k) then v else assoc k l.
Proof.
  induction l as [|[a u] l IH]; cbn [map_set].
  - case_bool_decide as E; [subst; apply assoc_hit|]. by rewrite assoc_miss.
  - destruct (decide (a = k')) as [->|Ha].
    + rewrite bool_decide_true by done. case_bool_decide as E; [subst; apply assoc_hit|]. by rewrite !assoc_miss.
    + rewrite bool_decide_false by done. destruct (decide (a = k)) as [->|Hk].
      * rewrite !assoc_hit. by rewrite bool_decide_false.
      * by rewrite !assoc_miss, IH.
Qed.

(** A resource version that a node of the graph names. *)
Definition named_version (o : option string) : Prop := ∀ id, o = Some id → ∃ n node, cx_nodes context !! n = Some node ∧ wn_resourceVersionId node = id.

Lemma version_named ids l kind : nodes_of (cx_nodes context) ids = Ok l → named_version (resourceVersionForKind l kind).
Proof.
  intros H%mapM_Ok id Hid. unfold resourceVersionForKind in Hid. apply fmap_Some in Hid as (node & Hl & ->). apply last_Some_elem_of, list_elem_of_filter in Hl as [_ Hl].
  apply list_elem_of_lookup in Hl as [i Hi]. destruct (Forall2_lookup_r _ _ _ _ _ H Hi) as (n & _ & Hn). unfold requiredWorkflowNode, or_throw in Hn.
  destruct (cx_nodes context !! n) as [node'|] eqn:E; [|done]. injection Hn as ->. by exists n, node.
Qed.

(** The keys of a path are digests, its resource versions those of nodes. *)
Definition keyed (p : CompiledDraftPath) : Prop :=
  (∃ v, dp_pathKey p = digest sha256 v) ∧ (∃ v, dp_routeGroupKey p = digest sha256 v) ∧
  Forall named_version [dp_parserResourceVersionId p; dp_schemaResourceVersionId p; dp_contractResourceVersionId p; dp_sizingResourceVersionId p;
    dp_adaptiveRiskResourceVersionId p].

(** ** What is read for a list of nodes *)
Lemma kind_text_inj a b : kind_text a = kind_text b → a = b.
Proof. destruct a, b; (done || discriminate). Qed.

Lemma nodes_of_last ids l kind : nodes_of (cx_nodes context) ids = Ok l →
  match last (filter (λ node, wn_kind node = kind) l) with
  | Some node => ∃ before id after, ids = before ++ id :: after ∧ cx_nodes context !! id = Some node ∧ wn_kind node = kind ∧
      ∀ id', id' ∈ after → kind_of (cx_nodes context) id' ≠ Some kind
  | None => no_node ids kind
  end.
Proof.
  intros H%mapM_Ok. revert ids H. induction l as [|node l IH] using rev_ind; intros ids H.
  - apply Forall2_nil_inv_r in H as ->. cbn. intros id []%not_elem_of_nil.
  - apply Forall2_app_inv_r in H as (ids' & r & H & Hr & ->). apply Forall2_cons_inv_r in Hr as (id & r' & Hn & Hr & ->). apply Forall2_nil_inv_r in Hr as ->.
    unfold requiredWorkflowNode, or_throw in Hn. destruct (cx_nodes context !! id) as [n|] eqn:E; [injection Hn as ->|done].
    specialize (IH _ H). rewrite filter_app, filter_cons, filter_nil. case_decide as Hk.
    + rewrite last_snoc. exists ids', id, []. split_and!; try done. intros x []%not_elem_of_nil.
    + rewrite app_nil_r. assert (kind_of (cx_nodes context) id ≠ Some kind) as Hid by (unfold kind_of; rewrite E; cbn; congruence).
      destruct (last _) as [n|].
      * destruct IH as (before & x & after & -> & Hx & Hkx & Ha). exists before, x, (after ++ [id]). split_and!; [by rewrite <-app_assoc|done|done|].
        intros y [Hy| ->%list_elem_of_singleton]%elem_of_app; [by apply Ha|done].
      * intros y [Hy| ->%list_elem_of_singleton]%elem_of_app; [by apply IH|done].
Qed.

Lemma configurations_last resources l configs kind : configurations resources l = Ok configs →
  match last (filter (λ node, wn_kind node = kind) l) with
  | Some node => ∃ resource, resources !! wn_resourceVersionId node = Some resource ∧ assoc (kind_text kind) configs = wr_configuration resource
  | None => assoc (kind_text kind) configs = JUndefined
  end.
Proof.
  unfold configurations. intros H. apply bind_Ok in H as (entries & H%mapM_Ok & [= <-]). revert entries H.
  induction l as [|node l IH] using rev_ind; intros entries H.
  - apply Forall2_nil_inv_l in H as ->. done.
  - apply Forall2_app_inv_l in H as (es & r & H & Hr & ->). apply Forall2_cons_inv_l in Hr as (e & r' & Hn & Hr & ->). apply Forall2_nil_inv_l in Hr as ->.
    apply bind_Ok in Hn as (resource & Hres & [= <-]). unfold requiredWorkflowResource, or_throw in Hres.
    destruct (resources !! _) as [x|] eqn:E in Hres; [injection Hres as ->|done]. specialize (IH _ H).
    unfold override in *. rewrite fold_left_app. cbn [fold_left fst snd]. rewrite assoc_map_set, filter_app, filter_cons, filter_nil. case_decide as Hk.
    + rewrite last_snoc, bool_decide_true by congruence. by exists resource.
    + rewrite app_nil_r, bool_decide_false; [exact IH|]. by intros E'%kind_text_inj.
Qed.

(** The resources of the context are those of its nodes. *)
Definition resources_read : Prop := ∀ id node, cx_nodes context !! id = Some node → ∃ resource row,
  cx_resources context !! wn_resourceVersionId node = Some resource ∧ tb_resources tables !! wn_resourceVersionId node = Some row ∧
  wr_status (rr_resource row) = "published" ∧ wr_kind (rr_resource row) = kind_text (wn_kind node) ∧
  rr_configuration_json row = column_json (wr_configuration resource) ∧ sha256 (rr_configuration_text row) = rr_configuration_sha256 row.

Lemma read_value ids l configs kind : resources_read → nodes_of (cx_nodes context) ids = Ok l → configurations (cx_resources context) l = Ok configs →
  (∃ version, resourceVersionForKind l kind = Some version ∧ node_value ids kind version (assoc (kind_text kind) configs)) ∨
  resourceVersionForKind l kind = None ∧ no_node ids kind ∧ assoc (kind_text kind) configs = JUndefined.
Proof.
  intros Hres Hn Hc. pose proof (nodes_of_last _ _ kind Hn) as H1. pose proof (configurations_last _ _ _ kind Hc) as H2. unfold resourceVersionForKind.
  destruct (last (filter (λ node, wn_kind node = kind) l)) as [node|]; [|by right].
  left. exists (wn_resourceVersionId node). split; [done|]. destruct H1 as (before & id & after & E & Hid & Hk & Ha), H2 as (resource & Hr & ->).
  destruct (Hres _ _ Hid) as (resource' & row & Hr' & Hrow & Hs & Hkr & Hcol & Hsha). rewrite Hr in Hr'. injection Hr' as <-. rewrite Hk in Hkr.
  by exists before, id, after, node, row.
Qed.

(** A configuration that was read comes from a node. *)
Lemma read_property ids l configs kind key v : resources_read → nodes_of (cx_nodes context) ids = Ok l → configurations (cx_resources context) l = Ok configs →
  property key (assoc (kind_text kind) configs) = Ok v →
  ∃ version, resourceVersionForKind l kind = Some version ∧ node_value ids kind version (assoc (kind_text kind) configs).
Proof. intros Hres Hn Hc Hp. destruct (read_value _ _ _ kind Hres Hn Hc) as [H|(_ & _ & E)]; [exact H|]. by rewrite E in Hp. Qed.

Lemma read_version ids l configs kind : resources_read → nodes_of (cx_nodes context) ids = Ok l → configurations (cx_resources context) l = Ok configs →
  version_of ids kind (resourceVersionForKind l kind).
Proof. intros Hres Hn Hc. destruct (read_value _ _ _ kind Hres Hn Hc) as [(version & -> & H)|(-> & H & _)]; [by eexists|exact H]. Qed.

(** The candidate of a rank, and its path. *)
Definition candidate_for (l : Lineage) (key channelId strategyVersionId : string) (rank : nat) (candidate : WorkflowRouteCandidate) (p : CompiledDraftPath) : Prop :=
  dp_id p = rc_pathId candidate ∧ dp_accountId p = rc_accountId candidate ∧ dp_enabled p = rc_enabled candidate ∧ dp_fallbackOn p = rc_fallbackOn candidate ∧
  dp_routeGroupKey p = key ∧ dp_channelId p = channelId ∧ dp_strategyVersionId p = strategyVersionId ∧ dp_fallbackRank p = rank ∧ rc_rank candidate = rank ∧
  ln_accountNodeIds l !! rank = Some (rc_accountNodeId candidate) ∧ ln_policies l !! rank = Some (rc_fallbackOn candidate) ∧
  dp_nodeIds p = candidate_nodes l rank ∧ path_ok p ∧ keyed p.

(** What a channel and a strategy version were read from: the nodes of every candidate. *)
Definition named_by (l : Lineage) (channelId strategyVersionId : string) : Prop :=
  ∀ rank pathNodes configs, nodes_of (cx_nodes context) (candidate_nodes l rank) = Ok pathNodes → configurations (cx_resources context) pathNodes = Ok configs →
    property "channelId" (assoc "channel" configs) = Ok (JString channelId) ∧
    property "strategyVersionId" (assoc "strategy" configs) = Ok (JString strategyVersionId).

Lemma requireString_inv v label t : requireString v label = Ok t → v = JString t.
Proof. unfold requireString. destruct v; try done. by intros [= ->]. Qed.

Lemma dependencies_spec configs accountId strategyVersionId account base :
  loadCompiledPathDependencies compiles tables configs accountId strategyVersionId = Ok (account, base) →
  tb_accounts tables !! accountId = Some account ∧
  ∃ row v, tb_strategies tables !! strategyVersionId = Some row ∧ sr_status row = "published" ∧ sr_configuration_json row = column_json v ∧
    validateStrategyConfiguration v = Ok base ∧
    ∃ schemaId schema s contractId contract c d, property "schemaId" (assoc "schema" configs) = Ok (JString schemaId) ∧
      schemaId ∈ st_allowedSignalSchemas base ∧ tb_schemas tables !! schemaId = Some schema ∧ hr_enabled schema = 1 ∧ hr_definition_json schema = column_json s ∧
      property "contractVersionId" (assoc "contract" configs) = Ok (JString contractId) ∧
      tb_contracts tables !! contractId = Some contract ∧ cr_status contract = "published" ∧ cr_definition_json contract = column_json c ∧
      composeSignalSchemaContract compiles s c = Ok d.
Proof.
  unfold loadCompiledPathDependencies. intros Hd. apply bind_Ok in Hd as (schemaId & Hsid & Hd). apply bind_Ok in Hsid as (sv & Hsid & ->%requireString_inv).
  apply bind_Ok in Hd as (contractId & Hcid & Hd).
  apply bind_Ok in Hd as (account' & Ha & Hd). unfold or_throw in Ha. destruct (tb_accounts tables !! accountId) as [row|] eqn:Ea; [injection Ha as ->|done].
  destruct (tb_strategies tables !! strategyVersionId) as [strategy|] eqn:Es; [|done]. destruct (bool_decide (sr_status strategy = "published")) eqn:E1; [|done].
  cbn [negb] in Hd. destruct (tb_schemas tables !! schemaId) as [schema|] eqn:Eh; [|done]. destruct (Z.eqb_spec (hr_enabled schema) 1) as [E2|]; [|done]. cbn [negb] in Hd.
  destruct contractId as [| | | | | |contractId| |]; try done. destruct (tb_contracts tables !! contractId) as [contract|] eqn:Ec; [|done].
  destruct (bool_decide (cr_status contract = "published")) eqn:E3; [|done]. cbn [negb] in Hd. apply bind_Ok in Hd as (s & Hs & Hd). apply bind_Ok in Hd as (k & Hk & Hd).
  apply bind_Ok in Hd as (d & Hcomp & Hd). apply bind_Ok in Hd as (v & Hv & Hd). apply bind_Ok in Hd as (base' & Hb & Hd). case_bool_decide as E4; [|done].
  injection Hd as -> ->. destruct (hr_definition_json schema) as [| |s'] eqn:Es1; try done. injection Hs as ->.
  destruct (cr_definition_json contract) as [| |k'] eqn:Es2; try done. injection Hk as ->. destruct (sr_configuration_json strategy) as [| |v'] eqn:Es3; try done.
  injection Hv as ->. apply bool_decide_eq_true in E1, E3. split; [done|]. exists strategy, v. split_and!; try done.
  exists schemaId, schema, s, contractId, contract, k, d. done.
Qed.

Lemma candidate_path_ok configs pathNodes account base ef p : resources_read → nodes_of (cx_nodes context) (dp_nodeIds p) = Ok pathNodes →
  configurations (cx_resources context) pathNodes = Ok configs →
  property "channelId" (assoc "channel" configs) = Ok (JString (dp_channelId p)) →
  property "strategyVersionId" (assoc "strategy" configs) = Ok (JString (dp_strategyVersionId p)) →
  property "accountId" (assoc "account" configs) = Ok (JString (dp_accountId p)) →
  loadCompiledPathDependencies compiles tables configs (dp_accountId p) (dp_strategyVersionId p) = Ok (account, base) →
  compiledEffectiveConfiguration Number base configs = Ok ef → dp_effectiveConfiguration p = ef →
  dp_enabled p = (ar_enabled account =? 1) && bool_decide (ar_status account = "ready") →
  dp_parserResourceVersionId p = resourceVersionForKind pathNodes k_parser → dp_schemaResourceVersionId p = resourceVersionForKind pathNodes k_schema →
  dp_contractResourceVersionId p = resourceVersionForKind pathNodes k_contract → dp_sizingResourceVersionId p = resourceVersionForKind pathNodes k_sizing →
  dp_adaptiveRiskResourceVersionId p = resourceVersionForKind pathNodes k_adaptive_risk → path_ok p.
Proof.
  intros Hres Hn Hc Hch Hst Hac Hd He Hef Hen Vp Vs Vc Vz Va.
  pose proof (λ kind key v H, read_property _ _ _ kind key v Hres Hn Hc H) as Hread.
  apply dependencies_spec in Hd as (Ha & row & v & Hrow & Hpub & Hcol & Hb & schemaId & schema & s & contractId & contract & c & d & Hsid & Hin & Hs & Hs1 & Hs2 & Hcid & Hdef).
  destruct (effective_spec _ _ _ _ _ Hb He) as (sizing & checked & Hchk & Hsz & Hcfg & Hres').
  assert (∀ kind, kind ≠ k_sizing → assoc (kind_text kind) (ef_resources ef) = assoc (kind_text kind) configs) as Hkeep.
  { intros kind Hk. rewrite Hres'. cbn [override fold_left fst snd]. rewrite assoc_map_set, bool_decide_false; [done|].
    change "sizing" with (kind_text k_sizing). by intros E%kind_text_inj. }
  constructor.
  - destruct (Hread k_channel _ _ Hch) as (version & _ & Hv). by exists version, (assoc "channel" configs).
  - destruct (Hread k_account _ _ Hac) as (version & _ & Hv). by exists version, (assoc "account" configs), account.
  - destruct (Hread k_strategy _ _ Hst) as (version & _ & Hv). exists version, (assoc "strategy" configs), row, v, base. split_and!; try done.
    + destruct (read_value _ _ _ k_sizing Hres Hn Hc) as [(zv & Ez & Hz)|(_ & _ & E)].
      2: { unfold compiledEffectiveConfiguration in He. change (kind_text k_sizing) with "sizing" in E. rewrite E in He. done. }
      exists zv, (assoc "sizing" configs), checked, sizing. rewrite Vz, Hef. split_and!; try done. rewrite Hres'. cbn [override fold_left fst snd].
      by rewrite assoc_map_set, bool_decide_true.
    + destruct (Hread k_schema _ _ Hsid) as (hv & Eh & Hh), (Hread k_contract _ _ Hcid) as (kv & Ek & Hk).
      exists hv, (assoc "schema" configs), schemaId, schema, s, kv, (assoc "contract" configs), contractId, contract, c, d.
      rewrite Vs, Vc. destruct Hdef as (? & ? & ? & ?). split_and!; done.
  - intros kind Hk. rewrite Hef, (Hkeep kind Hk). destruct (read_value _ _ _ kind Hres Hn Hc) as [(version & _ & H)|(_ & H)]; [left; by eexists _, _|by right].
  - rewrite Vp. by eapply read_version.
  - rewrite Va. by eapply read_version.
Qed.

Lemma candidate_spec l key channelId strategyVersionId c cs rank c' cs' : resources_read → named_by l channelId strategyVersionId →
  (rank < length (ln_accountNodeIds l))%nat → length (ln_policies l) = length (ln_accountNodeIds l) → (∃ v, key = digest sha256 v) →
  compile_candidate l key channelId strategyVersionId (c, cs) rank = Ok (c', cs') → ∃ candidate p, cs' = cs ++ [candidate] ∧
    c' = mkCollected (co_paths c ++ [p]) (co_routeGroups c) (co_warnings c) (S (co_drawn c)) ∧ dp_id p = uuid (co_drawn c) ∧
    candidate_for l key channelId strategyVersionId rank candidate p.
Proof.
  intros Hres Hby Hr Hp Hkey H. unfold WorkflowCompile.compile_candidate in H. apply bind_Ok in H as (pathNodes & Hn & H). apply bind_Ok in H as (configs & Hc & H).
  apply bind_Ok in H as (accountId & Hacc & H). apply bind_Ok in Hacc as (av & Hacc & ->%requireString_inv).
  apply bind_Ok in H as ([account base] & Hd & H). apply bind_Ok in H as (ef & He & [= <- <-]).
  destruct (lookup_lt_is_Some_2 _ _ Hr) as [node Hnode]. rewrite <-Hp in Hr. destruct (lookup_lt_is_Some_2 _ _ Hr) as [policy Hpolicy].
  destruct (Hby _ _ _ Hn Hc) as [Hch Hst].
  eexists _, _. split; [reflexivity|]. split; [reflexivity|]. split; [done|]. unfold candidate_for.
  cbn [dp_id dp_accountId dp_enabled dp_fallbackOn dp_routeGroupKey dp_channelId dp_strategyVersionId dp_fallbackRank dp_nodeIds rc_pathId rc_accountId rc_enabled
    rc_fallbackOn rc_rank rc_accountNodeId]. rewrite Hnode, Hpolicy. split_and!; try done.
  - by eapply candidate_path_ok.
  - split; [by eexists|split; [exact Hkey|]]. repeat constructor; by eapply version_named.
Qed.

(** The lineage of a route, with the chain of its account. *)
Definition lineage_of (r : Route) (chain : list (string * list WorkflowFallbackReason)) : Lineage :=
  mkLineage (ro_channel r) (take (position (ro_lineage r) (ro_account r)) (ro_lineage r)) (drop (S (position (ro_lineage r) (ro_account r))) (ro_lineage r))
    (ro_account r :: map fst chain) (map snd chain ++ [[]]).

Definition chain_of (r : Route) : option (list (string * list WorkflowFallbackReason)) :=
  let successors := cx_fallbackByChannel context !! ro_channel r ?? [] in follow_chain (length successors) successors (ro_account r).

(** A group for a route: one candidate per account of the chain, in order, each with its path. *)
Definition group_for (r : Route) (g : WorkflowRouteGroup) (paths : list CompiledDraftPath) : Prop :=
  ∃ chain strategyVersionId, chain_of r = Some chain ∧ rg_channelNodeId g = ro_channel r ∧
    length (rg_candidates g) = S (length chain) ∧ length paths = S (length chain) ∧ Some (rg_primaryPathId g) = rc_pathId <$> head (rg_candidates g) ∧
    ∀ rank candidate p, rg_candidates g !! rank = Some candidate → paths !! rank = Some p →
      candidate_for (lineage_of r chain) (rg_key g) (rg_channelId g) strategyVersionId rank candidate p.

(** A route is executable when its nodes have every required kind. *)
Definition complete (r : Route) : Prop := ∃ l, nodes_of (cx_nodes context) (ro_lineage r) = Ok l ∧ missing_kinds l = [].

Record grows (c c' : Collected) (gs : list WorkflowRouteGroup) (ps : list CompiledDraftPath) : Prop := mkGrows {
  gr_groups : co_routeGroups c' = co_routeGroups c ++ gs;
  gr_paths : co_paths c' = co_paths c ++ ps;
  gr_drawn : co_drawn c' = (co_drawn c + length ps)%nat;
  gr_ids : map dp_id ps = map uuid (seq (co_drawn c) (length ps)) }.

Lemma grows_trans c1 c2 c3 gs gs' ps ps' : grows c1 c2 gs ps → grows c2 c3 gs' ps' → grows c1 c3 (gs ++ gs') (ps ++ ps').
Proof.
  intros [G1 P1 D1 I1] [G2 P2 D2 I2]. constructor.
  - by rewrite G2, G1, app_assoc.
  - by rewrite P2, P1, app_assoc.
  - rewrite length_app. lia.
  - by rewrite length_app, seq_app, !map_app, I1, I2, D1.
Qed.

Lemma grows_warn c w : grows c (warn w c) [] [].
Proof. constructor; cbn; rewrite ?app_nil_r; (done || lia). Qed.
Lemma collected_grows_refl c : grows c c [] [].
Proof. constructor; cbn; rewrite ?app_nil_r; (done || lia). Qed.

Lemma candidates_loop l key channelId strategyVersionId ranks c cs c' cs' : length (ln_policies l) = length (ln_accountNodeIds l) → (∃ v, key = digest sha256 v) →
  Forall (λ rank, (rank < length (ln_accountNodeIds l))%nat) ranks →
  resources_read → named_by l channelId strategyVersionId →
  fold_result (compile_candidate l key channelId strategyVersionId) (c, cs) ranks = Ok (c', cs') → ∃ new ps, cs' = cs ++ new ∧ grows c c' [] ps ∧
    co_warnings c' = co_warnings c ∧ length new = length ranks ∧ length ps = length ranks ∧
    ∀ i rank candidate p, ranks !! i = Some rank → new !! i = Some candidate → ps !! i = Some p → candidate_for l key channelId strategyVersionId rank candidate p.
Proof.
  intros Hp Hkey. revert c cs. induction ranks as [|rank ranks IH]; intros c cs Hr Hres Hby H; cbn [fold_result] in H.
  - injection H as <- <-. exists [], []. rewrite app_nil_r. split_and!; try done. apply collected_grows_refl.
  - apply bind_Ok in H as ([c1 cs1] & H1 & H). apply Forall_cons in Hr as [Hlt Hr].
    destruct (candidate_spec _ _ _ _ _ _ _ _ _ Hres Hby Hlt Hp Hkey H1) as (candidate & p & -> & -> & Hid & Hc).
    destruct (IH _ _ Hr Hres Hby H) as (new & ps & -> & Hg & Hw & L1 & L2 & Hall). exists (candidate :: new), (p :: ps). split_and!.
    + by rewrite <-app_assoc.
    + refine (grows_trans _ _ _ [] [] [p] ps _ Hg). constructor; cbn; rewrite ?app_nil_r, ?Hid; (done || lia).
    + exact Hw.
    + cbn. lia.
    + cbn. lia.
    + intros [|i] rank' candidate' p' E1 E2 E3; [by injection E1 as <-; injection E2 as <-; injection E3 as <-|by apply (Hall i)].
Qed.

(** The accounts of a chain are account nodes. *)
Definition chains_of_accounts : Prop := ∀ r chain, chain_of r = Some chain → ∀ a, a ∈ map fst chain → kind_of (cx_nodes context) a = Some k_account.

(** Accounts in the middle of a lineage do not change what is read for other kinds. *)
Lemma filter_around kind before accounts after l : kind ≠ k_account → (∀ a, a ∈ accounts → kind_of (cx_nodes context) a = Some k_account) →
  nodes_of (cx_nodes context) (before ++ accounts ++ after) = Ok l → ∃ l1 l2, nodes_of (cx_nodes context) before = Ok l1 ∧ nodes_of (cx_nodes context) after = Ok l2 ∧
    filter (λ node, wn_kind node = kind) l = filter (λ node, wn_kind node = kind) l1 ++ filter (λ node, wn_kind node = kind) l2.
Proof.
  intros Hk Ha H%mapM_Ok. apply Forall2_app_inv_l in H as (l1 & r & H1 & H & ->). apply Forall2_app_inv_l in H as (la & l2 & H & H2 & ->).
  exists l1, l2. split; [by apply mapM_Ok|]. split; [by apply mapM_Ok|]. rewrite !filter_app. f_equal.
  assert (filter (λ node, wn_kind node = kind) la = []) as ->; [|done]. clear H1 H2. induction H as [|a node accounts la Hn _ IH]; [done|].
  rewrite filter_cons, decide_False; [apply IH; intros x Hx; apply Ha; by right|]. specialize (Ha a (list_elem_of_here _ _)). unfold kind_of in Ha.
  unfold requiredWorkflowNode, or_throw in Hn. destruct (cx_nodes context !! a) as [n|]; [injection Hn as ->|done]. cbn in Ha. congruence.
Qed.

Lemma same_configurations l l' configs configs' kind : configurations (cx_resources context) l = Ok configs → configurations (cx_resources context) l' = Ok configs' →
  filter (λ node, wn_kind node = kind) l = filter (λ node, wn_kind node = kind) l' → assoc (kind_text kind) configs = assoc (kind_text kind) configs'.
Proof.
  intros H H' E. pose proof (configurations_last _ _ _ kind H) as H1. pose proof (configurations_last _ _ _ kind H') as H2. rewrite <-E in H2.
  destruct (last _) as [node|]; [|congruence]. destruct H1 as (r & Hr & ->), H2 as (r' & Hr' & ->). congruence.
Qed.

Lemma position_split l a : a ∈ l → take (position l a) l ++ a :: drop (S (position l a)) l = l.
Proof.
  intros Ha. unfold position. destruct (list_find_elem_of (λ y, y = a) l a Ha) as [[i z] Hf]; [done|]. rewrite Hf.
  apply list_find_Some in Hf as (Hl & -> & _). by apply take_drop_middle.
Qed.

Lemma lineage_named r chain primaryNodes configs channelId strategyVersionId : ro_account r ∈ ro_lineage r → kind_of (cx_nodes context) (ro_account r) = Some k_account →
  (∀ a, a ∈ map fst chain → kind_of (cx_nodes context) a = Some k_account) →
  nodes_of (cx_nodes context) (ro_lineage r) = Ok primaryNodes → configurations (cx_resources context) primaryNodes = Ok configs →
  property "channelId" (assoc "channel" configs) = Ok (JString channelId) → property "strategyVersionId" (assoc "strategy" configs) = Ok (JString strategyVersionId) →
  named_by (lineage_of r chain) channelId strategyVersionId.
Proof.
  intros Hin Hk Hchain Hn Hc Hch Hst rank pathNodes configs' Hn' Hc'. rewrite <-(position_split _ _ Hin) in Hn.
  assert (∀ kind, kind ≠ k_account → assoc (kind_text kind) configs' = assoc (kind_text kind) configs) as E.
  { intros kind Hkind. apply (same_configurations _ _ _ _ _ Hc' Hc). 
    destruct (filter_around kind (take (position (ro_lineage r) (ro_account r)) (ro_lineage r)) [ro_account r] _ _ Hkind
      ltac:(intros a ->%list_elem_of_singleton; exact Hk) Hn) as (l1 & l2 & H1 & H2 & ->).
    assert (∀ a, a ∈ take (S rank) (ln_accountNodeIds (lineage_of r chain)) → kind_of (cx_nodes context) a = Some k_account) as Hacc.
    { intros a Ha. assert (a ∈ ro_account r :: map fst chain) as [->|Ha']%elem_of_cons; [|exact Hk|by apply Hchain].
      apply (subseteq_take (S rank) (ro_account r :: map fst chain)). exact Ha. }
    destruct (filter_around kind _ _ _ _ Hkind Hacc Hn') as (l1' & l2' & H1' & H2' & ->).
    cbn [lineage_of ln_prefix ln_suffix] in H1', H2'. rewrite H1 in H1'. rewrite H2 in H2'. by injection H1' as ->; injection H2' as ->. }
  pose proof (E k_channel ltac:(done)) as E1. pose proof (E k_strategy ltac:(done)) as E2. cbn [kind_text] in E1, E2. by rewrite E1, E2.
Qed.

Lemma lineage_spec r c c' : resources_read → chains_of_accounts → kind_of (cx_nodes context) (ro_account r) = Some k_account → ro_account r ∈ ro_lineage r → compileTerminalLineage (ro_lineage r) (ro_account r) (ro_channel r) c = Ok c' →
  (complete r ∧ ∃ g ps, grows c c' [g] ps ∧ group_for r g ps) ∨ (¬ complete r ∧ grows c c' [] []).
Proof.
  intros Hres Hchains Hkind Hin H. unfold WorkflowCompile.compileTerminalLineage in H. fold (chain_of r) in H. destruct (chain_of r) as [chain|] eqn:Ech; [|done].
  fold (lineage_of r chain) in H. set (l := lineage_of r chain) in *. apply bind_Ok in H as (primaryNodes & Hn & H).
  destruct (missing_kinds primaryNodes) as [|k ks] eqn:Em.
  - left. split; [by exists primaryNodes|]. apply bind_Ok in H as (configs & Hconf & H). apply bind_Ok in H as (channelId & Hch & H).
    apply bind_Ok in H as (strategyVersionId & Hst & H). apply bind_Ok in Hch as (cv & Hch & ->%requireString_inv). apply bind_Ok in Hst as (sv & Hst & ->%requireString_inv).
    pose proof (lineage_named r chain _ _ _ _ Hin Hkind (Hchains r chain Ech) Hn Hconf Hch Hst) as Hby. apply bind_Ok in H as ([c1 cs] & Hloop & [= <-]).
    assert (length (ln_accountNodeIds l) = S (length chain)) as La by (unfold l; cbn; by rewrite length_map).
    assert (length (ln_policies l) = S (length chain)) as Lp by (unfold l; cbn; rewrite length_app, length_map; cbn; lia).
    assert (Forall (λ rank, (rank < length (ln_accountNodeIds l))%nat) (seq 0 (length (ln_accountNodeIds l)))) as Hseq
      by (apply Forall_forall; intros rank [_ Hr]%elem_of_seq; exact Hr).
    destruct (candidates_loop _ _ _ _ _ _ _ _ _ ltac:(by rewrite La, Lp) (ex_intro _ _ eq_refl) Hseq Hres Hby Hloop) as (new & ps & -> & [G P D I] & _ & L1 & L2 & Hall). rewrite length_seq in L1, L2. rewrite La in *.
    rewrite app_nil_r in G. exists (mkGroup (group_key sha256 (ro_lineage r) l) channelId (ro_channel r) ((rc_pathId <$> head new) ?? "") new), ps. split.
    + constructor; cbn; [by rewrite G|done|done|done].
    + exists chain, strategyVersionId. cbn [rg_channelNodeId rg_candidates rg_primaryPathId rg_key rg_channelId]. split_and!; try done.
      * by destruct new.
      * intros rank candidate p E1 E2. apply (Hall rank); try done. apply lookup_seq. split; [done|]. apply lookup_lt_Some in E1. lia.
  - right. split.
    + intros (l' & Hl' & Em'). rewrite Hn in Hl'. injection Hl' as ->. rewrite Em in Em'. done.
    + injection H as <-. apply grows_warn.
Qed.

(** The groups and paths of a list of routes: one group for each executable one, in order. *)
Inductive emitted : list Route → list WorkflowRouteGroup → list CompiledDraftPath → Prop :=
| emitted_nil : emitted [] [] []
| emitted_skip r rs gs ps : ¬ complete r → emitted rs gs ps → emitted (r :: rs) gs ps
| emitted_group r rs g gs p ps : complete r → group_for r g p → emitted rs gs ps → emitted (r :: rs) (g :: gs) (p ++ ps).

Lemma emitted_app rs rs' gs gs' ps ps' : emitted rs gs ps → emitted rs' gs' ps' → emitted (rs ++ rs') (gs ++ gs') (ps ++ ps').
Proof. intros H. induction H; intros H'; [done|by apply emitted_skip; auto|]. rewrite <-app_assoc. cbn. apply emitted_group; auto. Qed.

(** The groups of the executable routes, in the order of the routes. *)
Lemma emitted_in_order rs gs ps : emitted rs gs ps → ∃ executed pss, executed `sublist_of` rs ∧ (∀ r, r ∈ executed ↔ r ∈ rs ∧ complete r) ∧
  Forall3 group_for executed gs pss ∧ ps = concat pss.
Proof.
  intros H. induction H as [|r rs gs ps Hr _ (ex & pss & I1 & I2 & I3 & I4)|r rs g gs p ps Hc Hg _ (ex & pss & I1 & I2 & I3 & I4)].
  - exists [], []. split_and!; [done| |constructor|done]. intros r. split; [by intros []%not_elem_of_nil|by intros [[]%not_elem_of_nil _]].
  - exists ex, pss. split_and!; [by apply sublist_cons| |done|done]. intros r'. rewrite I2, elem_of_cons. split; [intros [? ?]; auto|].
    intros [[->|?] ?]; [done|auto].
  - exists (r :: ex), (p :: pss). split_and!; [by apply sublist_skip| |by constructor|by rewrite I4]. intros r'. rewrite !elem_of_cons, I2. split.
    + intros [->|[? ?]]; auto.
    + intros [[->|?] ?]; auto.
Qed.

Lemma emitted_routes rs gs ps : emitted rs gs ps →
  (∀ r, r ∈ rs → complete r → ∃ g p, g ∈ gs ∧ p ⊆ ps ∧ group_for r g p) ∧ (∀ g, g ∈ gs → ∃ r p, r ∈ rs ∧ complete r ∧ p ⊆ ps ∧ group_for r g p) ∧
  (∀ q, q ∈ ps → ∃ r g p, r ∈ rs ∧ g ∈ gs ∧ p ⊆ ps ∧ q ∈ p ∧ group_for r g p).
Proof.
  intros H. induction H as [|r rs gs ps Hr _ (I1 & I2 & I3)|r rs g gs p ps Hc Hg _ (I1 & I2 & I3)].
  - split_and!; [intros r []%not_elem_of_nil|intros g []%not_elem_of_nil|intros q []%not_elem_of_nil].
  - split_and!.
    + intros r' [->|Hr']%elem_of_cons Hc; [done|by apply I1].
    + intros g Hg. destruct (I2 g Hg) as (r' & p & ? & ?). exists r', p. split; [by right|done].
    + intros q Hq. destruct (I3 q Hq) as (r' & g & p & ? & ?). exists r', g, p. split; [by right|done].
  - split_and!.
    + intros r' [->|Hr']%elem_of_cons Hc'; [exists g, p; split_and!; [left|set_solver|done]|].
      destruct (I1 r' Hr' Hc') as (g' & p' & ? & ? & ?). exists g', p'. split_and!; [by right|set_solver|done].
    + intros g' [->|Hg']%elem_of_cons; [exists r, p; split_and!; [left|done|set_solver|done]|].
      destruct (I2 g' Hg') as (r' & p' & ? & ? & ? & ?). exists r', p'. split_and!; [by right|done|set_solver|done].
    + intros q [Hq|Hq]%elem_of_app; [exists r, g, p; split_and!; [left|left|set_solver|done|done]|].
      destruct (I3 q Hq) as (r' & g' & p' & ? & ? & ? & ? & ?). exists r', g', p'. split_and!; [by right|by right|set_solver|done|done].
Qed.

Abbreviation routes_at channel := (routes (cx_nodes context) (cx_adjacency context) channel).

(** The walk compiles its routes in order. *)
Lemma walk_spec fuel channel a l c c' : resources_read → chains_of_accounts → walkWorkflowPaths fuel context channel a l c = Ok c' → ∃ gs ps, grows c c' gs ps ∧ emitted (routes_at channel fuel a l) gs ps.
Proof.
  intros Hres Hchains. revert a l c c'. induction fuel as [|fuel IH]; intros a l c c' H; cbn [WorkflowCompile.walkWorkflowPaths routes] in *; [done|].
  apply bind_Ok in H as (node & Hn & H). unfold requiredWorkflowNode, or_throw in Hn. destruct (cx_nodes context !! a) as [n|] eqn:Ea; [injection Hn as ->|done].
  assert (bool_decide (wn_kind node = k_account) = bool_decide (kind_of (cx_nodes context) a = Some k_account)) as Ek.
  { apply bool_decide_ext. unfold kind_of. rewrite Ea. cbn. split; [by intros ->|by intros [= ->]]. }
  rewrite <-Ek. destruct (bool_decide (wn_kind node = k_account)) eqn:Ekind.
  - change (output_targets context a channel) with (outputs (cx_nodes context) (cx_adjacency context) channel a) in H.
    assert (∀ t, a ∈ t → compileTerminalLineage t a channel c = Ok c' → ∃ gs ps, grows c c' gs ps ∧ emitted [mkRoute channel t a] gs ps) as Hone.
    { intros t Ht Hl. destruct (lineage_spec (mkRoute channel t a) c c' Hres Hchains (bool_decide_eq_true_1 _ (eq_sym Ek)) Ht Hl) as [(Hc & g & ps & Hg & Hf)|(Hc & Hg)].
      - exists [g], ps. split; [done|]. rewrite <-(app_nil_r ps). apply emitted_group; [done|done|constructor].
      - exists [], []. split; [done|]. apply emitted_skip; [done|constructor]. }
    destruct (outputs _ _ channel a) as [|o [|]]; [| |done].
    + apply Hone; [|exact H]. apply elem_of_app. right. left.
    + apply Hone; [|exact H]. apply elem_of_app. left. apply elem_of_app. right. left.
  - set (ts := channel_targets (cx_adjacency context) channel a) in *.
    assert (∀ c c', fold_result (λ c target, walkWorkflowPaths fuel context channel target (l ++ [a]) c) c ts = Ok c' →
      ∃ gs ps, grows c c' gs ps ∧ emitted (flat_map (λ target, routes_at channel fuel target (l ++ [a])) ts) gs ps) as Hloop.
    { clear H Ek. clearbody ts. induction ts as [|t ts IHt]; intros c1 c2 H; cbn [fold_result flat_map] in *.
      - injection H as <-. exists [], []. split; [apply collected_grows_refl|constructor].
      - apply bind_Ok in H as (c3 & H1 & H2). destruct (IH _ _ _ _ H1) as (gs & ps & Hg & He), (IHt _ _ H2) as (gs' & ps' & Hg' & He').
        exists (gs ++ gs'), (ps ++ ps'). split; [by eapply grows_trans|by apply emitted_app]. }
    apply Hloop in H as (gs & ps & Hg & He). exists gs, ps. split; [|exact He]. destruct (bool_decide (ts = [])); [|exact Hg].
    exact (grows_trans _ _ _ [] gs [] ps (grows_warn c _) Hg).
Qed.

(** The walks of several channels. *)
Lemma walks_spec fuel channels c c' : resources_read → chains_of_accounts → fold_result (λ c channel, walkWorkflowPaths fuel context channel channel [] c) c channels = Ok c' →
  ∃ gs ps, grows c c' gs ps ∧ emitted (flat_map (λ channel, routes_at channel fuel channel []) channels) gs ps.
Proof.
  intros Hres Hchains. revert c. induction channels as [|channel channels IH]; intros c H; cbn [fold_result flat_map] in *.
  - injection H as <-. exists [], []. split; [apply collected_grows_refl|constructor].
  - apply bind_Ok in H as (c1 & H1 & H). destruct (walk_spec _ _ _ _ _ _ Hres Hchains H1) as (gs & ps & Hg & He), (IH _ H) as (gs' & ps' & Hg' & He').
    exists (gs ++ gs'), (ps ++ ps'). split; [by eapply grows_trans|by apply emitted_app].
Qed.
End Emit.

(** The routes of a graph, from each of its channels. *)
Definition workflow_route (g : WorkflowGraph) (nodes : Nodes) (adjacency : Adjacency) (r : Route) : Prop :=
  ro_channel r ∈ channel_nodes g ∧ is_route nodes adjacency (ro_channel r) r.

(** A context computed from the graph and the tables. *)
Record context_of (sha256 : string → string) (tables : Tables) (g : WorkflowGraph) (context : WorkflowCompileContext) : Prop := mkContextOf {
  xo_topology : ∃ indegree, buildWorkflowTopology g = Ok (cx_nodes context, cx_adjacency context, indegree);
  xo_resources : loadWorkflowResources sha256 tables g = Ok (cx_resources context);
  xo_fallback : ∀ channel, channel ∈ channel_nodes g → ∃ successors, cx_fallbackByChannel context !! channel = Some successors ∧
    fallbackSuccessorsForChannel g channel (ordinaryAccountNodesForChannel (cx_nodes context) (cx_adjacency context) channel) = Ok successors;
  xo_channels : ∀ channel, channel ∉ channel_nodes g → cx_fallbackByChannel context !! channel = None }.

Lemma context_staged sha256 tables g context a e : graph_ok g → context_of sha256 tables g context → e ∈ outgoing (cx_adjacency context) a →
  (stage_of (cx_nodes context) a < stage_of (cx_nodes context) (we_target e))%nat.
Proof.
  intros Hg Hc He. destruct (xo_topology _ _ _ _ Hc) as [indegree H].
  destruct (build_topology _ _ _ _ Hg H) as (_ & Hr & Hs). rewrite (rp_adjacency _ _ _ _ Hr) in He.
  apply list_elem_of_filter in He as [<- He]. rewrite Forall_forall in Hs. destruct (Hs e He) as (s & t & Es & Et & Hlt). unfold stage_of. rewrite Es, Et. cbn.
  destruct (wn_kind s), (wn_kind t); cbn in *; lia.
Qed.

(** Placing the nodes of a graph checks the resource of each. *)
Lemma placed_resources sha256 resources nodes acc acc' : fold_result (place_resource sha256 resources) acc nodes = Ok acc' → ∀ node, node ∈ nodes →
  ∃ resource, resources !! wn_resourceVersionId node = Some resource ∧ wr_status resource = "published" ∧ wr_kind resource = kind_text (wn_kind node).
Proof.
  revert acc. induction nodes as [|n nodes IH]; intros acc H node Hin; [by apply not_elem_of_nil in Hin|]. cbn [fold_result] in H.
  apply bind_Ok in H as (acc1 & H1 & H). apply elem_of_cons in Hin as [->|Hin]; [|by eapply IH].
  unfold place_resource in H1. destruct acc as [ids behaviors]. destruct (resources !! wn_resourceVersionId n) as [resource|]; [|done].
  case_bool_decide as E1; [|done]. case_bool_decide as E2; [|done]. by exists resource.
Qed.

Lemma resourceFromRow_inv sha256 row resource : resourceFromRow sha256 row = Ok resource →
  rr_configuration_json row = column_json (wr_configuration resource) ∧ wr_status resource = wr_status (rr_resource row) ∧
  wr_kind resource = wr_kind (rr_resource row) ∧ sha256 (rr_configuration_text row) = rr_configuration_sha256 row.
Proof.
  unfold resourceFromRow. intros H. apply bind_Ok in H as (v & Hv & H). case_bool_decide as E; [|done]. injection H as <-.
  destruct (rr_configuration_json row); try done. injection Hv as ->. done.
Qed.

Lemma context_resources sha256 tables g context : graph_ok g → context_of sha256 tables g context → resources_read sha256 tables context.
Proof.
  intros Hg Hc id node Hn. destruct (xo_topology _ _ _ _ Hc) as [indegree Ht]. destruct (build_topology _ _ _ _ Hg Ht) as (E & _ & _). rewrite E in Hn.
  apply by_id_lookup in Hn as [Hin _]; [|apply Hg]. pose proof (xo_resources _ _ _ _ Hc) as H. unfold loadWorkflowResources in H.
  apply bind_Ok in H as (loaded & Hl & H). apply bind_Ok in H as (acc & Hp & [= Hres]). rewrite Hres in Hp.
  destruct (placed_resources _ _ _ _ _ Hp node Hin) as (resource & Hr & Hs & Hk). exists resource.
  assert (∃ row, tb_resources tables !! wn_resourceVersionId node = Some row ∧ resourceFromRow sha256 row = Ok resource) as (row & Hrow & Hfrom).
  { rewrite <-Hres in Hr. apply elem_of_list_to_map_2 in Hr. apply mapM_Ok in Hl. apply list_elem_of_lookup in Hr as [i Hi].
    destruct (Forall2_lookup_r _ _ _ _ _ Hl Hi) as ([k row] & Hk' & Hf). apply bind_Ok in Hf as (r & Hf & [= E1 E2]). cbn in Hf, E1. subst r k.
    assert ((wn_resourceVersionId node, row) ∈ map_to_list (filter (λ row : string * WorkflowResourceRow, row.1 ∈ map wn_resourceVersionId (wg_nodes g)) (tb_resources tables))) as Hm
      by (apply list_elem_of_lookup; by exists i).
    apply elem_of_map_to_list, map_lookup_filter_Some in Hm as [Hm _]. by exists row. }
  exists row. apply resourceFromRow_inv in Hfrom as (Hcol & Hst & Hki & Hsha). rewrite <-Hst, <-Hki. split_and!; done.
Qed.

Lemma follow_targets fuel successors a l : follow_chain fuel successors a = Some l → ∀ b, b ∈ map fst l → ∃ e, e ∈ successors ∧ su_target e.2 = b.
Proof.
  revert a l. induction fuel as [|fuel IH]; intros a l H b Hb; cbn [follow_chain] in H; destruct (map_get a successors) as [s|] eqn:E; try done.
  - injection H as <-. by apply not_elem_of_nil in Hb.
  - destruct (follow_chain fuel successors (su_target s)) as [l'|] eqn:El; [|done]. injection H as <-. cbn in Hb. apply elem_of_cons in Hb as [->|Hb]; [|by eapply IH].
    apply map_get_Some in E. by exists (a, s).
  - injection H as <-. by apply not_elem_of_nil in Hb.
Qed.

Lemma context_chains sha256 tables g context : graph_ok g → context_of sha256 tables g context → chains_of_accounts context.
Proof.
  intros Hg Hc r chain H a Ha. unfold chain_of in H. destruct (follow_targets _ _ _ _ H a Ha) as ([src s] & He & Et). cbn in Et.
  destruct (decide (ro_channel r ∈ channel_nodes g)) as [Hch|Hch].
  2: { rewrite (xo_channels _ _ _ _ Hc _ Hch) in He. by apply not_elem_of_nil in He. }
  destruct (xo_fallback _ _ _ _ Hc _ Hch) as (successors & E & Hf). rewrite E in He. change (default [] (Some successors)) with successors in He.
  apply (fallback_spec _ _ _ _ Hg) in Hf as (_ & _ & _ & ->). unfold successors_of in He. apply list_elem_of_fmap in He as (e & [= -> ->] & He).
  cbn in Et. apply list_elem_of_filter in He as [[Hk _] He]. pose proof (go_edges _ Hg) as Hed. rewrite Forall_forall in Hed.
  destruct (eo_accounts _ _ _ (Hed e He) Hk) as [_ Hkind]. destruct (xo_topology _ _ _ _ Hc) as [indegree Ht].
  destruct (build_topology _ _ _ _ Hg Ht) as (-> & _ & _). by rewrite <-Et.
Qed.

Lemma fallback_maps nodes adjacency g channels (byChannel byChannel' : gmap string Successors) :
  fold_result (λ byChannel channel, successors ← fallbackSuccessorsForChannel g channel (ordinaryAccountNodesForChannel nodes adjacency channel);
    Ok (<[channel := successors]> byChannel)) byChannel channels = Ok byChannel' →
  (∀ channel, channel ∈ channels → ∃ successors, byChannel' !! channel = Some successors ∧
    fallbackSuccessorsForChannel g channel (ordinaryAccountNodesForChannel nodes adjacency channel) = Ok successors) ∧
  ∀ channel, channel ∉ channels → byChannel' !! channel = byChannel !! channel.
Proof.
  revert byChannel. induction channels as [|ch channels IH]; intros byChannel H; cbn [fold_result] in H.
  - injection H as <-. split; [intros ? []%not_elem_of_nil|done].
  - apply bind_Ok in H as (m & Hm & H). apply bind_Ok in Hm as (s & Hs & [= <-]). destruct (IH _ H) as [I1 I2]. split.
    + intros channel Hin. destruct (decide (channel ∈ channels)) as [Hc|Hc]; [by apply I1|]. apply elem_of_cons in Hin as [->|]; [|done].
      exists s. split; [|done]. by rewrite I2, lookup_insert_eq.
    + intros channel [Hne Hni]%not_elem_of_cons. by rewrite I2, lookup_insert_ne.
Qed.

Lemma compile_spec Number sha256 compiles uuid tables g w : graph_ok g → compileWorkflow Number sha256 compiles uuid tables g = Ok w →
  ∃ context, context_of sha256 tables g context ∧
    emitted Number sha256 compiles tables context
      (flat_map (λ channel, routes (cx_nodes context) (cx_adjacency context) channel walk_fuel channel []) (channel_nodes g)) (cw_routeGroups w) (cw_paths w) ∧
    map dp_id (cw_paths w) = map uuid (seq 0 (length (cw_paths w))) ∧ assertConsistentTelegramOutputs (cw_paths w) = Ok tt.
Proof.
  intros Hg H. unfold compileWorkflow in H. apply bind_Ok in H as (resources & Hresources & H). apply bind_Ok in H as ([[nodes adjacency] indegree] & Ht & H).
  apply bind_Ok in H as ([] & _ & H). apply bind_Ok in H as (byChannel & Hf & H). apply bind_Ok in H as (c & Hw & H). apply bind_Ok in H as ([] & Hout & [= <-]).
  set (context := mkContext nodes adjacency resources byChannel) in *. assert (context_of sha256 tables g context) as Hcontext.
  { destruct (fallback_maps _ _ _ _ _ _ Hf) as [F1 F2]. constructor; [by exists indegree|done|exact F1|]. intros channel Hch. cbn. by rewrite F2. }
  exists context. destruct (walks_spec _ _ _ _ _ _ _ _ _ _ (context_resources _ _ _ _ Hg Hcontext) (context_chains _ _ _ _ Hg Hcontext) Hw)
    as (gs & ps & [G P D I] & He). cbn [co_paths co_routeGroups co_drawn app] in *.
  set (c2 := if bool_decide (channel_nodes g = []) && _ then _ else c) in *. assert (co_paths c2 = ps ∧ co_routeGroups c2 = gs) as [-> ->].
  { subst gs ps. unfold c2. by destruct (_ && _). }
  split_and!; [done|done|done|].
  assert (co_paths c2 = ps) as E by (subst ps; unfold c2; by destruct (_ && _)). by rewrite E in Hout.
Qed.

(** ** The routes of a graph are distinct *)
Lemma NoDup_flat_map {A B} (f : A → list B) l : NoDup l → (∀ x, x ∈ l → NoDup (f x)) → (∀ x y z, x ∈ l → y ∈ l → z ∈ f x → z ∈ f y → x = y) → NoDup (flat_map f l).
Proof.
  induction l as [|x l IH]; intros Hd Hf Hx; cbn [flat_map]; [apply NoDup_nil_2|]. apply NoDup_cons in Hd as [Hni Hd]. apply NoDup_app. split_and!.
  - apply Hf. left.
  - intros z Hz Hin. apply list_elem_of_In, in_flat_map in Hin as (y & Hy%list_elem_of_In & Hzy%list_elem_of_In). apply Hni.
    rewrite (Hx x y z); [done|left|by right|done|done].
  - apply IH; [done|intros y Hy; apply Hf; by right|intros y y' z Hy Hy'; apply Hx; by right].
Qed.

Lemma routes_prefix nodes adjacency channel fuel a l r : r ∈ routes nodes adjacency channel fuel a l → (l ++ [a]) `prefix_of` ro_lineage r ∧ ro_channel r = channel.
Proof.
  revert a l. induction fuel as [|fuel IH]; intros a l H; cbn [routes] in H; [by apply not_elem_of_nil in H|]. case_bool_decide.
  - destruct (outputs _ _ _ _) as [|o [|]]; [| |by apply not_elem_of_nil in H]; apply list_elem_of_singleton in H as ->; (split; [|done]); cbn; [done|by eexists].
  - apply list_elem_of_In, in_flat_map in H as (t & _ & H%list_elem_of_In). destruct (IH _ _ H) as [[k Hk] Hc]. split; [|done].
    exists ([t] ++ k). by rewrite Hk, <-app_assoc.
Qed.

Lemma routes_distinct nodes adjacency channel fuel a l : (∀ b, NoDup (channel_targets adjacency channel b)) → NoDup (routes nodes adjacency channel fuel a l).
Proof.
  intros Hd. revert a l. induction fuel as [|fuel IH]; intros a l; cbn [routes]; [apply NoDup_nil_2|]. case_bool_decide.
  - destruct (outputs _ _ _ _) as [|o [|]]; [apply NoDup_singleton|apply NoDup_singleton|apply NoDup_nil_2].
  - apply NoDup_flat_map; [done|by auto|]. intros x y z _ _ Hx Hy. apply routes_prefix in Hx as [[k Hk] _], Hy as [[k' Hk'] _]. rewrite Hk in Hk'.
    rewrite <-!app_assoc in Hk'. by apply app_inv_head, app_inv_head in Hk' as [= ->].
Qed.

Lemma workflow_routes_distinct sha256 tables g context : graph_ok g → context_of sha256 tables g context →
  NoDup (flat_map (λ channel, routes (cx_nodes context) (cx_adjacency context) channel walk_fuel channel []) (channel_nodes g)).
Proof.
  intros Hg Hc. apply NoDup_flat_map.
  - unfold channel_nodes. apply (sublist_NoDup _ (node_ids g)); [apply Hg|]. unfold node_ids. apply fmap_sublist, sublist_filter.
  - intros channel _. apply routes_distinct. intros a. destruct (xo_topology _ _ _ _ Hc) as [indegree H]. destruct (build_topology _ _ _ _ Hg H) as (_ & Hr & _).
    unfold channel_targets. rewrite (rp_adjacency _ _ _ _ Hr). set (l := filter _ (filter _ _)).
    assert (l `sublist_of` wg_edges g ∧ ∀ e, e ∈ l → we_source e = a) as [Hsub Hsrc].
    { split; [unfold l, flow_edges; repeat (etrans; [apply sublist_filter|]); done|]. intros e (_ & (? & _)%list_elem_of_filter)%list_elem_of_filter. done. }
    pose proof (sublist_NoDup _ _ (go_pairs _ Hg) (fmap_sublist (λ e, (we_source e, we_target e)) _ _ Hsub)) as Hd. clearbody l. clear Hsub.
    induction l as [|e l IH]; [apply NoDup_nil_2|]. cbn in Hd |- *. apply NoDup_cons in Hd as [Hni Hd]. constructor; [|apply IH; [intros x Hx; apply Hsrc; by right|done]].
    intros (e' & E & He')%list_elem_of_fmap. apply Hni. apply list_elem_of_fmap. exists e'. rewrite <-E, (Hsrc e (list_elem_of_here _ _)), (Hsrc e') by (by right). done.
  - intros x y z _ _ Hx Hy. apply routes_prefix in Hx as [_ <-], Hy as [_ <-]. done.
Qed.

Lemma workflow_routes_exact sha256 tables g context r : graph_ok g → context_of sha256 tables g context →
  r ∈ flat_map (λ channel, routes (cx_nodes context) (cx_adjacency context) channel walk_fuel channel []) (channel_nodes g) ↔
  workflow_route g (cx_nodes context) (cx_adjacency context) r.
Proof.
  intros Hg Hc. pose proof (λ a e, context_staged sha256 tables g context a e Hg Hc) as Hst. rewrite list_elem_of_In, in_flat_map. unfold workflow_route, walk_fuel. split.
  - intros (channel & Hch%list_elem_of_In & Hr%list_elem_of_In). apply (routes_exact _ _ _ Hst) in Hr. pose proof Hr as (E & _). by rewrite E.
  - intros [Hch Hr]. exists (ro_channel r). split; [by apply list_elem_of_In|]. apply list_elem_of_In. by apply (routes_exact _ _ _ Hst).
Qed.

(** ** Properties *)
Section Properties.
Context (Number : jsval → jsval) (sha256 : string → string) (compiles : string → bool) (uuid : nat → string) (tables : Tables).
Abbreviation compileWorkflow := (compileWorkflow Number sha256 compiles uuid tables).

Lemma group_accounts context r g ps : group_for Number sha256 compiles tables context r g ps →
  ∃ chain, chain_of context r = Some chain ∧ map rc_accountNodeId (rg_candidates g) = ro_account r :: map fst chain ∧ ∀ p, p ∈ ps → path_ok Number sha256 compiles tables context p.
Proof.
  intros (chain & sv & Hch & _ & L1 & L2 & _ & Hall). exists chain. split_and!; [done| |].
  - apply list_eq. intros i. rewrite list_lookup_fmap. destruct (rg_candidates g !! i) as [c|] eqn:Ec.
    + destruct (lookup_lt_is_Some_2 ps i) as [p Hp]; [apply lookup_lt_Some in Ec; lia|]. destruct (Hall i c p Ec Hp) as (_ & _ & _ & _ & _ & _ & _ & _ & _ & E & _). exact (eq_sym E).
    + symmetry. apply lookup_ge_None. apply lookup_ge_None in Ec. cbn. rewrite length_map. lia.
  - intros p [i Hp]%list_elem_of_lookup. destruct (lookup_lt_is_Some_2 (rg_candidates g) i) as [c Hc]; [apply lookup_lt_Some in Hp; lia|].
    destruct (Hall i c p Hc Hp) as (_ & _ & _ & _ & _ & _ & _ & _ & _ & _ & _ & _ & ? & _). done.
Qed.

Lemma chain_distinct g context r chain : graph_ok g → context_of sha256 tables g context → ro_channel r ∈ channel_nodes g → chain_of context r = Some chain →
  NoDup (ro_account r :: map fst chain).
Proof.
  intros Hg Hc Hch H. destruct (xo_fallback _ _ _ _ Hc _ Hch) as (successors & E & Hf). unfold chain_of in H. rewrite E in H. change (default [] (Some successors)) with successors in H.
  apply (fallback_spec _ _ _ _ Hg) in Hf as (Hlin & Hend & _ & ->).
  destruct (follow_spec _ Hlin (length (successors_of (fallback_edges g (ro_channel r)))) (ro_account r) Hend []) as (l & Hl & Hin & Hd).
  { apply NoDup_nil_2. } { intros x []%not_elem_of_nil. } { intros x []%not_elem_of_nil. } { unfold successors_of. rewrite length_map. cbn. lia. }
  rewrite H in Hl. injection Hl as <-. constructor; [|done]. rewrite Hin. by apply ending_irrefl.
Qed.

(** C8: compilation is exact.  A compiled workflow has exactly one group of
    candidates for every executable route of the graph, in the depth-first order
    of the walk from the channels, and no other: a route runs from a channel over
    connections that apply to it, to an account and its output, and is
    executable when it holds every required kind.  The candidates of a group
    are the account of the route and its fallback chain, in order, each with the
    path that replaces the account; the paths of the workflow are those of the
    groups, in order. *)
Theorem compiled_routes_exact g w : graph_ok g → compileWorkflow g = Ok w → ∃ context executed pss, context_of sha256 tables g context ∧
  NoDup executed ∧ (∀ r, r ∈ executed ↔ workflow_route g (cx_nodes context) (cx_adjacency context) r ∧ complete context r) ∧
  executed `sublist_of` flat_map (λ channel, routes (cx_nodes context) (cx_adjacency context) channel walk_fuel channel []) (channel_nodes g) ∧
  Forall3 (group_for Number sha256 compiles tables context) executed (cw_routeGroups w) pss ∧ cw_paths w = concat pss.
Proof.
  intros Hg H. destruct (compile_spec _ _ _ _ _ _ _ Hg H) as (context & Hc & He & _). destruct (emitted_in_order _ _ _ _ _ _ _ _ He) as (executed & pss & Hs & Hin & Hf & Hp).
  exists context, executed, pss. split_and!; try done.
  - apply (sublist_NoDup _ _ (workflow_routes_distinct sha256 tables _ _ Hg Hc) Hs).
  - intros r. by rewrite Hin, (workflow_routes_exact sha256 tables _ _ _ Hg Hc).
Qed.

(** C9: what a workflow may trade is published, valid and exclusive.  Every path
    of a compiled workflow runs under what its own nodes name: its channel; an
    account that exists, enabled only if the account is enabled and ready; a
    published valid strategy; an enabled schema that strategy allows; a published
    contract that composes with that schema; the resources are published and
    unaltered.  It trades under the strategy's own rules with the validated
    sizing of its own sizing node, and its leverage is ordered within 1 to 50.
    No account occurs twice in a group. *)
Theorem compiled_paths_sound g w : graph_ok g → compileWorkflow g = Ok w → ∃ context, context_of sha256 tables g context ∧
  (∀ p, p ∈ cw_paths w → path_ok Number sha256 compiles tables context p ∧
    let sizing := st_sizing (ef_strategyConfiguration (dp_effectiveConfiguration p)) in
    1 <= ss_defaultLeverage sizing <= ss_maxLeverage sizing ∧ ss_maxLeverage sizing <= 50) ∧
  (∀ group, group ∈ cw_routeGroups w → NoDup (map rc_accountNodeId (rg_candidates group))).
Proof.
  intros Hg H. destruct (compile_spec _ _ _ _ _ _ _ Hg H) as (context & Hc & He & _). destruct (emitted_routes _ _ _ _ _ _ _ _ He) as (_ & H2 & H3).
  exists context. split; [done|]. split.
  - intros p Hp. destruct (H3 p Hp) as (r & group & ps & _ & _ & _ & Hin & Hgr). destruct (group_accounts _ _ _ _ Hgr) as (_ & _ & _ & Hok).
    split; [by apply Hok|]. destruct (po_strategy _ _ _ _ _ _ (Hok p Hin)) as (? & ? & ? & ? & base & _ & _ & _ & _ & _ & _ & (? & ? & ? & sizing & _ & _ & _ & Hs & -> & _) & _).
    apply sizing_again in Hs as [_ Hs]. exact Hs.
  - intros group Hgr. destruct (H2 group Hgr) as (r & ps & Hr & _ & _ & Hf). destruct (group_accounts _ _ _ _ Hf) as (chain & Hch & -> & _).
    apply (workflow_routes_exact sha256 tables _ _ _ Hg Hc) in Hr as [Hr _]. by eapply chain_distinct.
Qed.

(** The modes collected for a channel. *)
Lemma modes_spec paths : NoDup (map fst (fold_left add_output_mode paths [])) ∧
  ∀ p, p ∈ paths → output_mode p ∈ ["telegram_xml"; "telegram_original"] → ∃ s, map_get (dp_channelId p) (fold_left add_output_mode paths []) = Some s ∧ output_mode p ∈ s.
Proof.
  induction paths as [|q paths [IH1 IH2]] using rev_ind; [split; [apply NoDup_nil_2|intros p []%not_elem_of_nil]|].
  rewrite fold_left_app. cbn [fold_left]. set (modes := fold_left add_output_mode paths []) in *. unfold add_output_mode. case_bool_decide as Hq.
  - split; [by apply map_set_nodup|]. intros p Hp Hm. rewrite map_get_set. apply elem_of_app in Hp as [Hp|Hp%list_elem_of_singleton].
    + destruct (IH2 p Hp Hm) as (s & Hs & Hin). case_bool_decide as E; [|by exists s]. eexists. split; [reflexivity|]. rewrite E, Hs. set_solver.
    + subst p. rewrite bool_decide_true by done. eexists. split; [reflexivity|]. set_solver.
  - split; [done|]. intros p Hp Hm. apply elem_of_app in Hp as [Hp| ->%list_elem_of_singleton]; [by apply IH2|done].
Qed.

(** A channel is forwarded to Telegram in one form.  In a compiled workflow,
    two paths of the same channel never forward both the XML and the original
    message. *)
Theorem telegram_outputs_consistent g w p q : graph_ok g → compileWorkflow g = Ok w → p ∈ cw_paths w → q ∈ cw_paths w → dp_channelId p = dp_channelId q →
  output_mode p ∈ ["telegram_xml"; "telegram_original"] → output_mode q ∈ ["telegram_xml"; "telegram_original"] → output_mode p = output_mode q.
Proof.
  intros Hg H Hp Hq E Mp Mq. destruct (compile_spec _ _ _ _ _ _ _ Hg H) as (_ & _ & _ & _ & Hout). destruct (modes_spec (cw_paths w)) as [_ Hm].
  destruct (Hm p Hp Mp) as (s & Hs & Ip), (Hm q Hq Mq) as (s' & Hs' & Iq). rewrite E, Hs' in Hs. injection Hs as ->.
  unfold assertConsistentTelegramOutputs in Hout. destruct (filter _ _) as [|[ch x]] eqn:Ef in Hout; [|done]. apply map_get_Some in Hs'.
  assert (size s <= 1)%nat as Hsize.
  { destruct (Nat.le_gt_cases (size s) 1) as [|Hgt]; [done|]. assert ((dp_channelId q, s) ∈ filter (λ e : string * gset string, (1 < size e.2)%nat) (fold_left add_output_mode (cw_paths w) [])) as Hin
      by (by apply list_elem_of_filter). rewrite Ef in Hin. by apply not_elem_of_nil in Hin. }
  apply dec_stable. intros Hne. assert ({[ output_mode p; output_mode q ]} ⊆ s) as Hsub by set_solver. apply subseteq_size in Hsub.
  rewrite size_union, !size_singleton in Hsub by set_solver. lia.
Qed.
End Properties.

(** ** Example *)
Definition resource_row (id kind : string) (configuration : list (string * jsval)) : string * WorkflowResourceRow :=
  (id, mkResourceRow (mkResource id ("r-" +:+ id) kind id "published" JNull) (column_json (JObject configuration)) id id).

Definition sample_tables : Tables := mkTables
  (list_to_map [resource_row "v1" "channel" [("channelId", JString "-100")]; resource_row "v2" "channel" [("channelId", JString "-200")];
    resource_row "v3" "parser" [("templateName", JString "default"); ("timeoutMs", JInt 5000)]; resource_row "v4" "schema" [("schemaId", JString "standard")];
    resource_row "v5" "contract" [("contractVersionId", JString "c1")]; resource_row "v6" "strategy" [("strategyVersionId", JString "s1")];
    resource_row "v7" "sizing" [("riskPerTradePercent", JString "1.5"); ("maxLeverage", JInt 5)];
    resource_row "v8" "account" [("accountId", JString "a1")]; resource_row "v9" "account" [("accountId", JString "a2")]; resource_row "v10" "output" [("mode", JString "telegram_xml")]])
  (list_to_map [("a1", mkAccountRow 1 "ready"); ("a2", mkAccountRow 1 "setup")])
  {[ "s1" := mkStrategyRow "published" (column_json (strategyJson DEFAULT_STRATEGY_CONFIGURATION)) ]}
  {[ "standard" := mkSchemaRow 1 (column_json (definitionJson STANDARD_CONTRACT)) ]}
  {[ "c1" := mkContractRow "published" (column_json (definitionJson STANDARD_CONTRACT)) ]}.

Definition sample_Number (v : jsval) : jsval := match v with JString s => JFloat s | v => v end.
Definition sample_uuid (n : nat) : string := of_chars (chars "path-" ++ to_digits (Z.of_nat n)).
Definition sample_compile : WorkflowGraph → result CompiledWorkflow := compileWorkflow sample_Number id (λ _, true) sample_uuid sample_tables.
Definition sample_workflow : CompiledWorkflow := Eval vm_compute in match sample_compile sample_graph with Ok w => w | Err _ => mkCompiled [] [] [] end.

Lemma sample_compiles : sample_compile sample_graph = Ok sample_workflow.
Proof. vm_compute. reflexivity. Qed.

(** Two channels, each with a group of two candidates; the second account is not ready. *)
Example sample_candidates :
  map (λ g, (rg_channelId g, rg_primaryPathId g, map (λ c, (rc_pathId c, rc_accountId c, rc_enabled c)) (rg_candidates g))) (cw_routeGroups sample_workflow)
    = [("-100", "path-0", [("path-0", "a1", true); ("path-1", "a2", false)]); ("-200", "path-2", [("path-2", "a1", true); ("path-3", "a2", false)])] ∧
  map dp_nodeIds (take 2 (cw_paths sample_workflow))
    = [["btc"; "ai"; "std"; "rules"; "swing"; "small"; "main"; "log"]; ["btc"; "ai"; "std"; "rules"; "swing"; "small"; "main"; "spare"; "log"]].
Proof. by vm_compute. Qed.

Lemma compiled_routes_exact_witness : sample_compile sample_graph = Ok sample_workflow ∧ ∃ context executed pss, context_of id sample_tables sample_graph context ∧
  Forall3 (group_for sample_Number id (λ _, true) sample_tables context) executed (cw_routeGroups sample_workflow) pss ∧ cw_paths sample_workflow = concat pss.
Proof.
  split; [exact sample_compiles|].
  destruct (compiled_routes_exact sample_Number id (λ _, true) sample_uuid sample_tables sample_graph sample_workflow sample_ok sample_compiles)
    as (context & executed & pss & Hc & _ & _ & _ & H).
  exists context, executed, pss. exact (conj Hc H).
Defined.

Lemma compiled_paths_sound_witness : sample_compile sample_graph = Ok sample_workflow ∧
  (∀ group, group ∈ cw_routeGroups sample_workflow → NoDup (map rc_accountNodeId (rg_candidates group))).
Proof.
  split; [exact sample_compiles|].
  destruct (compiled_paths_sound sample_Number id (λ _, true) sample_uuid sample_tables sample_graph sample_workflow sample_ok sample_compiles) as (context & _ & _ & H).
  exact H.
Defined.

Definition no_path : CompiledDraftPath :=
  mkPath "" "" "" "" "" None None None None None "" 0 [] [] (mkEffective [] DEFAULT_STRATEGY_CONFIGURATION) false.
Definition sample_path (n : nat) : CompiledDraftPath := nth n (cw_paths sample_workflow) no_path.
