(* ===== verification/NormalJson.v ===== *)
(** NormalJson: the normal form of [normalizedJson] in [src/workflow_repository.ts].

    [JSON_parsed] is what [JSON.parse] answers for the text of a value.  Sorting
    the properties of a value and reading it back is a normal form [stored]: two
    values have the same [normalizedJson] when their normal forms agree, and a
    column that was written with [normalizedJson] holds the normal form. *)

From S2P Require Import Prelude Text Rational Json Workflow WorkflowCompile.
From S2P Require Snapshot.
From Stdlib Require Import Ascii.
From Stdlib Require String.
Local Open Scope Z_scope.
Local Open Scope ts_scope.
Set Default Proof Using "Type".

(** [JSON.parse(JSON.stringify(value))] *)
Fixpoint JSON_parsed (value : jsval) : jsval :=
  match value with
  | JUndefined | JNull | JNaN => JNull
  | JArray items => JArray (map JSON_parsed items)
  | JObject fields => JObject (flat_map (λ '(key, v), if is_undefined v then [] else [(key, JSON_parsed v)]) fields)
  | v => v
  end.

(** The value in a column written with [normalizedJson(value)]. *)
Definition stored (value : jsval) : jsval := JSON_parsed (sort_keys value).

(** ** Filters *)
Lemma filter_none {A} (P : A → Prop) `{!∀ a, Decision (P a)} (l : list A) : (∀ x : A, x ∈ l → ¬ P x) → filter P l = [].
Proof. intros Hp. induction l as [|x l IH]; [done|]. rewrite filter_cons_False by (apply Hp; left). apply IH. intros y Hy. apply Hp. by right. Qed.
Lemma filter_kept {A} (P : A → Prop) `{!∀ a, Decision (P a)} (l : list A) : (∀ x : A, x ∈ l → P x) → filter P l = l.
Proof. intros Hp. induction l as [|x l IH]; [done|]. rewrite filter_cons_True by (apply Hp; left). f_equal. apply IH. intros y Hy. apply Hp. by right. Qed.

(** ** Lists sorted by a key

    A stable sort is determined by the order and by the elements of every key. *)
Section SortedByKey.
Context {A : Type} (key : A → string) (le : string → string → Prop).
Context (le_antisym : ∀ a b, le a b → le b a → a = b).

Definition of_key (k : string) (l : list A) : list A := filter (λ x, key x = k) l.

Lemma of_key_In k x l : x ∈ of_key k l ↔ key x = k ∧ x ∈ l.
Proof. unfold of_key. by rewrite list_elem_of_filter. Qed.

Lemma sorted_unique l k : StronglySorted (λ a b, le (key a) (key b)) l → StronglySorted (λ a b, le (key a) (key b)) k →
  (∀ c, of_key c l = of_key c k) → l = k.
Proof using le_antisym.
  intros Hl. revert k. induction Hl as [|x l Hl IH Hx]; intros k Hk H.
  - destruct k as [|y k]; [done|]. specialize (H (key y)). unfold of_key in H. rewrite filter_cons_True in H by done. done.
  - destruct k as [|y k]; [specialize (H (key x)); unfold of_key in H; by rewrite filter_cons_True in H|].
    apply StronglySorted_inv in Hk as [Hk Hy]. rewrite Forall_forall in Hx, Hy.
    assert (key x = key y) as E.
    { apply dec_stable. intros Hne. apply Hne.
      assert (x ∈ k) as H1.
      { assert (x ∈ of_key (key x) (y :: k)) as Hin by (rewrite <-H; apply of_key_In; split; [done|left]).
        apply of_key_In in Hin as [_ [->|?]%elem_of_cons]; done. }
      assert (y ∈ l) as H2.
      { assert (y ∈ of_key (key y) (x :: l)) as Hin by (rewrite H; apply of_key_In; split; [done|left]).
        apply of_key_In in Hin as [_ [->|?]%elem_of_cons]; done. }
      apply le_antisym; [by apply Hx|by apply Hy]. }
    assert (x = y) as ->. { specialize (H (key x)). unfold of_key in H. rewrite !filter_cons_True in H by done. by injection H. }
    f_equal. apply IH; [done|]. intros c. specialize (H c). unfold of_key in *. rewrite !filter_cons in H. case_decide; [by injection H|done].
Qed.
End SortedByKey.

(** ** Sorting by code units *)
Lemma ltb_le a b : String.ltb a b = true → String.le a b.
Proof. unfold String.ltb, String.le, String.leb. destruct (String.compare a b); done. Qed.
Lemma ltb_false_le a b : String.ltb a b = false → String.le b a.
Proof. unfold String.ltb, String.le, String.leb. rewrite (String.compare_antisym b a). destruct (String.compare a b); done. Qed.

(** The sort of [Array.prototype.sort] keeps the order of elements it does not tell apart. *)
Lemma insert_with_stable {A} (compare : A → A → Z) (P : A → Prop) `{!∀ a, Decision (P a)} x l :
  consistent compare → (∀ a b, P a → P b → 0 <= compare a b) → StronglySorted (λ a b, 0 <= compare b a) l →
  filter P (insert_with compare x l) = filter P l ++ filter P [x].
Proof.
  intros [_ Htrans] Hp Hs. induction Hs as [|y l Hs IH Hf]; cbn [insert_with]; [done|]. destruct (Z.ltb_spec (compare x y) 0) as [E|E].
  - rewrite !(filter_cons _ x). case_decide as Hx; [|by rewrite app_nil_r].
    assert (filter P (y :: l) = []) as ->; [|done]. apply filter_none. rewrite Forall_forall in Hf.
    intros z [->|Hz]%elem_of_cons Hpz; [specialize (Hp x y Hx Hpz); lia|]. specialize (Htrans y z x (Hf z Hz) (Hp x z Hx Hpz)). lia.
  - rewrite !(filter_cons _ y). case_decide; [cbn; by rewrite IH|done].
Qed.

Lemma sort_with_stable {A} (compare : A → A → Z) (P : A → Prop) `{!∀ a, Decision (P a)} l :
  consistent compare → (∀ a b, P a → P b → 0 <= compare a b) → filter P (sort_with compare l) = filter P l.
Proof.
  intros Hc Hp. unfold sort_with. enough (∀ acc, StronglySorted (λ a b, 0 <= compare b a) acc →
    filter P (fold_left (λ acc x, insert_with compare x acc) l acc) = filter P acc ++ filter P l) as Hall by (apply Hall; constructor).
  induction l as [|x l IH]; intros acc Hacc; cbn [fold_left]; [by rewrite app_nil_r|].
  rewrite IH by (by apply insert_with_sorted). rewrite insert_with_stable by done. rewrite <-app_assoc, <-filter_app. done.
Qed.

Definition text_compare {A} (key : A → string) (a b : A) : Z := if String.ltb (key a) (key b) then -1 else 1.
Definition by_compare {A} (key : A → Z) (a b : A) : Z := key a - key b.

Lemma sort_text_with {A} (key : A → string) l : sort_text key l = sort_with (text_compare key) l.
Proof.
  unfold sort_text, sort_with. generalize (@nil A). induction l as [|x l IH]; intros acc; cbn [fold_left]; [done|]. rewrite IH. f_equal. f_equal.
  induction acc as [|y acc IHa]; cbn [insert_text insert_with]; [done|]. unfold text_compare at 1. destruct (String.ltb _ _); [done|]. by rewrite IHa.
Qed.

Lemma sort_by_with {A} (key : A → Z) l : sort_by key l = sort_with (by_compare key) l.
Proof. symmetry. apply sort_with_key. intros a b _ _. unfold by_compare. destruct (Z.ltb_spec (key a - key b) 0), (Z.ltb_spec (key a) (key b)); (done || lia). Qed.

Lemma text_compare_le {A} (key : A → string) a b : 0 <= text_compare key b a ↔ String.le (key a) (key b).
Proof.
  unfold text_compare. destruct (String.ltb (key b) (key a)) eqn:E; split; intros H; try done; [|by apply ltb_false_le].
  exfalso. apply ltb_le in E as E'. assert (key a = key b) as Eab by (by apply (anti_symm String.le)). rewrite Eab in E.
  unfold String.ltb in E. pose proof (String.compare_antisym (key b) (key b)) as Ha. by destruct (String.compare (key b) (key b)).
Qed.

Lemma text_compare_consistent {A} (key : A → string) : consistent (text_compare key).
Proof.
  split.
  - intros a b H. apply text_compare_le, ltb_le. unfold text_compare in H. by destruct (String.ltb _ _).
  - intros a b c Hab Hbc. apply text_compare_le in Hab, Hbc. apply text_compare_le. by transitivity (key b).
Qed.

Lemma by_compare_consistent {A} (key : A → Z) : consistent (by_compare key).
Proof. unfold by_compare. split; intros; lia. Qed.

Lemma sort_text_sorted {A} (key : A → string) l : StronglySorted (λ a b, String.le (key a) (key b)) (sort_text key l).
Proof.
  rewrite sort_text_with. pose proof (sort_with_sorted (text_compare key) l (text_compare_consistent key)) as H.
  induction H as [|x k _ IH Hf]; constructor; [exact IH|]. eapply Forall_impl; [exact Hf|]. intros y. apply text_compare_le.
Qed.

(** ** The order of properties *)
Lemma array_index_digits s i : array_index s = Some i → chars s = to_digits i.
Proof.
  unfold array_index. destruct (_ && _) eqn:E; [|done]. intros [= <-]. rewrite !andb_true_iff in E. destruct E as [[[Hd Hn] Hz] _].
  apply negb_true_iff, bool_decide_eq_false in Hn. assert (Forall (λ c, is_digit c = true) (chars s)) as Hall by (by apply forallb_Forall).
  apply orb_true_iff in Hz as [Hz%bool_decide_eq_true|Hz%Nat.eqb_eq].
  - symmetry. by apply to_digits_of_digits.
  - destruct (chars s) as [|c [|]]; [done| |done]. destruct (decide (c = zero_char)) as [->|Hc]; [reflexivity|].
    symmetry. apply to_digits_of_digits; [done|done|]. cbn. congruence.
Qed.

Lemma array_index_inj s t i : array_index s = Some i → array_index t = Some i → s = t.
Proof. intros Hs%array_index_digits Ht%array_index_digits. rewrite <-(of_chars_chars s), <-(of_chars_chars t). congruence. Qed.

(** Array indices first, by number; then the other names by code units. *)
Definition property_le (a b : string) : Prop :=
  match array_index a, array_index b with
  | Some i, Some j => i <= j
  | Some _, None => True
  | None, Some _ => False
  | None, None => String.le a b
  end.

Lemma property_le_antisym a b : property_le a b → property_le b a → a = b.
Proof.
  unfold property_le. destruct (array_index a) as [i|] eqn:Ea, (array_index b) as [j|] eqn:Eb; try done.
  - intros H1 H2. apply (array_index_inj a b i); [done|]. rewrite Eb. f_equal. lia.
  - intros H1 H2. by apply (anti_symm String.le).
Qed.

Section OwnOrder.
Context {A : Type}.
Implicit Types l : list (string * A).

Definition sorted_own (l : list (string * A)) : list (string * A) := own_order (sort_text fst l).

Lemma sorted_own_sorted l : StronglySorted (λ a b, property_le a.1 b.1) (sorted_own l).
Proof.
  unfold sorted_own, own_order. set (s := sort_text fst l). pose proof (sort_text_sorted fst l) as Hs. fold s in Hs.
  assert (∀ e : string * A, e ∈ sort_by (λ e, array_index e.1 ?? 0) (filter (λ e, array_index e.1 ≠ None) s) → array_index e.1 ≠ None) as H1.
  { intros e He. rewrite sort_by_Permutation in He. by apply list_elem_of_filter in He as [? _]. }
  assert (∀ e, e ∈ filter (λ e : string * A, array_index e.1 = None) s → array_index e.1 = None) as H2 by (intros e He; by apply list_elem_of_filter in He as [? _]).
  apply StronglySorted_app. split_and!.
  - intros a b Ha%H1 Hb%H2. unfold property_le. rewrite Hb. by destruct (array_index a.1).
  - pose proof (sort_by_sorted (λ e : string * A, array_index e.1 ?? 0) (filter (λ e, array_index e.1 ≠ None) s)) as Hsort.
    revert Hsort H1. generalize (sort_by (λ e : string * A, array_index e.1 ?? 0) (filter (λ e, array_index e.1 ≠ None) s)). clear. intros l Hl.
    induction Hl as [|x l Hl IH Hf]; intros H1; constructor; [apply IH; intros e He; apply H1; by right|].
    rewrite Forall_forall in *. intros y Hy. specialize (Hf y Hy). unfold property_le.
    destruct (array_index x.1) as [i|] eqn:Ex; [|exfalso; by apply (H1 x); [left|]]. destruct (array_index y.1) as [j|] eqn:Ey; [exact Hf|done].
  - clear H1. revert H2. induction Hs as [|x t Hs IH Hf]; [constructor|]. rewrite filter_cons. case_decide as Hx; [|exact IH]. intros H2.
    constructor; [apply IH; intros e He; apply H2; by right|]. rewrite Forall_forall in *. intros y [Hy Hin]%list_elem_of_filter.
    unfold property_le. rewrite Hx, Hy. by apply Hf.
Qed.

Lemma own_order_Permutation l : own_order l ≡ₚ l.
Proof.
  unfold own_order. rewrite sort_by_Permutation. induction l as [|e l IH]; [done|]. rewrite !filter_cons. destruct (array_index e.1) eqn:E.
  - rewrite decide_True by congruence. rewrite decide_False by congruence. cbn. by rewrite IH.
  - rewrite decide_False by congruence. rewrite decide_True by done. rewrite <-Permutation_middle. by rewrite IH.
Qed.
End OwnOrder.

Lemma sorted_own_Permutation {A} (l : list (string * A)) : sorted_own l ≡ₚ l.
Proof. unfold sorted_own. by rewrite own_order_Permutation, sort_text_Permutation. Qed.

Lemma sorted_own_of_key {A} c (l : list (string * A)) : of_key fst c (sorted_own l) = of_key fst c l.
Proof.
  assert (of_key fst c (sort_text fst l) = of_key fst c l) as <-.
  { rewrite sort_text_with. apply (sort_with_stable _ (λ x, x.1 = c)); [apply text_compare_consistent|]. intros a b Ha Hb. apply text_compare_le. by rewrite Ha, Hb. }
  unfold sorted_own, own_order, of_key. rewrite filter_app. set (s := sort_text fst l).
  rewrite sort_by_with, (sort_with_stable _ (λ x : string * A, x.1 = c)).
  2: { apply by_compare_consistent. } 2: { intros a b Ha Hb. unfold by_compare. rewrite Ha, Hb. lia. }
  clearbody s. clear l. induction s as [|e s IH]; [done|]. rewrite !(filter_cons _ e). destruct (array_index e.1) as [i|] eqn:E.
  - rewrite (decide_True (P := Some i ≠ None)) by congruence. rewrite (decide_False (P := Some i = None)) by congruence.
    rewrite (filter_cons (λ x : string * A, x.1 = c) e). case_decide; [cbn; by rewrite IH|done].
  - rewrite (decide_False (P := None ≠ None)) by congruence. rewrite (decide_True (P := None = None)) by congruence.
    rewrite (filter_cons (λ x : string * A, x.1 = c) e). case_decide as Hc; [|done]. rewrite <-IH.
    assert (filter (λ x : string * A, x.1 = c) (filter (λ e, array_index e.1 ≠ None) s) = []) as ->; [|done].
    apply filter_none. intros x Hx Ex. apply list_elem_of_filter in Hx as [Hx _]. congruence.
Qed.

Lemma sorted_own_unique {A} (l k : list (string * A)) : StronglySorted (λ a b, property_le a.1 b.1) k → (∀ c, of_key fst c l = of_key fst c k) → sorted_own l = k.
Proof.
  intros Hk H. apply (sorted_unique fst property_le property_le_antisym); [apply sorted_own_sorted|exact Hk|]. intros c. by rewrite sorted_own_of_key.
Qed.

Lemma sorted_own_idem {A} (l : list (string * A)) : sorted_own (sorted_own l) = sorted_own l.
Proof. apply sorted_own_unique; [apply sorted_own_sorted|done]. Qed.

Lemma sorted_own_map {A B} (f : A → B) (l : list (string * A)) : sorted_own (map (λ '(k, v), (k, f v)) l) = map (λ '(k, v), (k, f v)) (sorted_own l).
Proof.
  apply sorted_own_unique.
  - pose proof (sorted_own_sorted l) as H. induction H as [|[k v] s _ IH Hf]; constructor; [exact IH|]. apply Forall_map. eapply Forall_impl; [exact Hf|]. by intros [k' v'].
  - intros c. assert (∀ s : list (string * A), of_key fst c (map (λ '(k, v), (k, f v)) s) = map (λ '(k, v), (k, f v)) (of_key fst c s)) as G.
    { unfold of_key. induction s as [|[k v] s IH]; [done|]. cbn [map]. rewrite !filter_cons. cbn [fst]. case_decide; [cbn; by rewrite IH|done]. }
    by rewrite !G, sorted_own_of_key.
Qed.

Lemma sorted_own_filter {A} (P : string * A → Prop) `{!∀ e, Decision (P e)} (l : list (string * A)) : sorted_own (filter P l) = filter P (sorted_own l).
Proof.
  apply sorted_own_unique.
  - pose proof (sorted_own_sorted l) as Hso. induction Hso as [|e s _ IH Hf]; [constructor|]. rewrite filter_cons. case_decide; [|exact IH].
    constructor; [exact IH|]. rewrite Forall_forall in *. intros x [_ Hx]%list_elem_of_filter. by apply Hf.
  - intros c. assert (∀ s : list (string * A), of_key fst c (filter P s) = filter P (of_key fst c s)) as G.
    { unfold of_key. induction s as [|e s IH]; [done|]. rewrite !(filter_cons _ e). case_decide as H1; case_decide as H2; rewrite ?(filter_cons _ e);
        rewrite ?(decide_True (P := P e)), ?(decide_False (P := P e)), ?(decide_True (P := e.1 = c)), ?(decide_False (P := e.1 = c)) by done; by rewrite ?IH. }
    by rewrite !G, sorted_own_of_key.
Qed.

(** ** The normal form *)
Lemma sort_keys_object fields : sort_keys (JObject fields) = JObject (map (λ '(k, v), (k, sort_keys v)) (sorted_own fields)).
Proof. cbn [sort_keys]. fold (sorted_own (map (λ '(key, nested), (key, sort_keys nested)) fields)). by rewrite sorted_own_map. Qed.

Lemma is_undefined_sort v : is_undefined (sort_keys v) = is_undefined v.
Proof. by destruct v. Qed.
Lemma is_undefined_parsed v : is_undefined (JSON_parsed v) = false.
Proof. by destruct v. Qed.

Lemma map_values_ext {A B} (f g : A → B) (l : list (string * A)) : Forall (λ kv, f kv.2 = g kv.2) l → map (λ '(k, v), (k, f v)) l = map (λ '(k, v), (k, g v)) l.
Proof. induction 1 as [|[k v] l Hv _ IH]; cbn; [done|]. cbn in Hv. by rewrite Hv, IH. Qed.
Lemma map_values_map {A B C} (f : A → B) (g : B → C) (l : list (string * A)) : map (λ '(k, v), (k, g v)) (map (λ '(k, v), (k, f v)) l) = map (λ '(k, v), (k, g (f v))) l.
Proof. induction l as [|[k v] l IH]; cbn; [done|by rewrite IH]. Qed.

Lemma sort_keys_idem v : sort_keys (sort_keys v) = sort_keys v.
Proof.
  induction v as [| | | | | | |items IH|fields IH] using Snapshot.jsval_induction; try done.
  - cbn [sort_keys]. f_equal. rewrite map_map. by apply map_ext_Forall.
  - rewrite (sort_keys_object fields), sort_keys_object, sorted_own_map, sorted_own_idem, map_values_map. f_equal. apply map_values_ext.
    rewrite Forall_forall in *. intros e He. apply IH. by rewrite sorted_own_Permutation in He.
Qed.

Lemma defined_sorted (l : list (string * jsval)) :
  filter (λ e, is_undefined e.2 = false) (map (λ '(k, v), (k, sort_keys v)) l) = map (λ '(k, v), (k, sort_keys v)) (filter (λ e, is_undefined e.2 = false) l).
Proof.
  induction l as [|[k v] l IH]; [done|]. cbn [map]. rewrite !filter_cons. cbn [snd]. rewrite is_undefined_sort. case_decide; cbn [map]; by rewrite IH.
Qed.

Lemma defined_parsed (l : list (string * jsval)) :
  filter (λ e, is_undefined e.2 = false) (map (λ '(k, v), (k, JSON_parsed v)) l) = map (λ '(k, v), (k, JSON_parsed v)) l.
Proof. apply filter_kept. intros e ([k v] & -> & _)%list_elem_of_fmap. apply is_undefined_parsed. Qed.

Lemma parsed_object fields : JSON_parsed (JObject fields) = JObject (map (λ '(k, v), (k, JSON_parsed v)) (filter (λ e, is_undefined e.2 = false) fields)).
Proof.
  cbn [JSON_parsed]. f_equal. induction fields as [|[k v] l IH]; [done|]. cbn [flat_map]. rewrite filter_cons, IH. cbn [snd].
  destruct (is_undefined v); by case_decide.
Qed.

Lemma sort_parsed v : sort_keys (JSON_parsed v) = JSON_parsed (sort_keys v).
Proof.
  induction v as [| | | | | | |items IH|fields IH] using Snapshot.jsval_induction; try done.
  - cbn [sort_keys JSON_parsed]. f_equal. rewrite !map_map. by apply map_ext_Forall.
  - rewrite parsed_object, !sort_keys_object, parsed_object, sorted_own_map, map_values_map. f_equal.
    rewrite defined_sorted.
    rewrite map_values_map, sorted_own_filter. apply map_values_ext. rewrite Forall_forall in *. intros e [_ He]%list_elem_of_filter.
    apply IH. by rewrite sorted_own_Permutation in He.
Qed.

Lemma parsed_idem v : JSON_parsed (JSON_parsed v) = JSON_parsed v.
Proof.
  induction v as [| | | | | | |items IH|fields IH] using Snapshot.jsval_induction; try done.
  - cbn [JSON_parsed]. f_equal. rewrite map_map. by apply map_ext_Forall.
  - rewrite parsed_object, parsed_object. rewrite defined_parsed. rewrite map_values_map. f_equal. apply map_values_ext. rewrite Forall_forall in *.
    intros e [_ He]%list_elem_of_filter. by apply IH.
Qed.

Lemma stored_idem v : stored (stored v) = stored v.
Proof. unfold stored. by rewrite sort_parsed, sort_keys_idem, parsed_idem. Qed.

Lemma stored_parsed v : stored (JSON_parsed v) = stored v.
Proof. unfold stored. by rewrite sort_parsed, parsed_idem. Qed.

(** ** The text of a value is that of its normal form *)
Definition members (fields : list (string * jsval)) : list (list Ascii.ascii) :=
  map (λ e, stringify_string e.1 ++ ":"%char :: stringify e.2) (filter (λ e, is_undefined e.2 = false) fields).

Lemma stringify_object fields : stringify (JObject fields) = "{"%char :: commas (members fields) ++ ["}"%char].
Proof.
  cbn [stringify]. f_equal. f_equal. f_equal. unfold members. induction fields as [|[k v] l IH]; [done|]. rewrite filter_cons. cbn [snd].
  destruct v; cbn [is_undefined]; rewrite ?decide_True, ?decide_False by done; cbn [map fst snd]; by rewrite IH.
Qed.

Lemma stringify_parsed v : stringify (JSON_parsed v) = stringify v.
Proof.
  induction v as [| | | | | | |items IH|fields IH] using Snapshot.jsval_induction; try done.
  - cbn [JSON_parsed stringify]. rewrite map_map. do 3 f_equal. by apply map_ext_Forall.
  - rewrite parsed_object, !stringify_object. do 3 f_equal. unfold members.
    rewrite defined_parsed. rewrite map_map. apply map_ext_Forall. rewrite Forall_forall in *.
    intros [k v] [_ He]%list_elem_of_filter. pose proof (IH _ He) as E. cbn in *. by rewrite E.
Qed.

Lemma normalizedJson_stored v : normalizedJson v = JSON_stringify (stored v).
Proof. unfold normalizedJson, JSON_stringify, stored. by rewrite stringify_parsed. Qed.

Lemma normalizedJson_eq v w : stored v = stored w → normalizedJson v = normalizedJson w.
Proof. rewrite !normalizedJson_stored. by intros ->. Qed.

(** ** Objects with the same normal form *)
Definition same_stored (a b : string * jsval) : Prop := a.1 = b.1 ∧ is_undefined a.2 = is_undefined b.2 ∧ stored a.2 = stored b.2.

Lemma stored_object fields : stored (JObject fields) = JObject (map (λ '(k, v), (k, stored v)) (sorted_own (filter (λ e, is_undefined e.2 = false) fields))).
Proof.
  unfold stored. rewrite <-sort_parsed, parsed_object, sort_keys_object, sorted_own_map, map_values_map. f_equal. apply map_values_ext, Forall_forall.
  intros e _. apply sort_parsed.
Qed.

Lemma stored_object_ext fields fields' : Forall2 same_stored fields fields' → stored (JObject fields) = stored (JObject fields').
Proof.
  intros H. rewrite !stored_object. f_equal. rewrite <-!sorted_own_map. f_equal. induction H as [|[k v] [k' v'] l l' (Hk & Hu & Hv) _ IH]; [done|].
  rewrite !filter_cons. cbn [fst snd] in *. rewrite Hu. subst k'. case_decide; [|done]. cbn [map]. by rewrite Hv, IH.
Qed.

Lemma stored_array_ext items items' : Forall2 (λ v w, stored v = stored w) items items' → stored (JArray items) = stored (JArray items').
Proof. intros H. unfold stored. cbn [sort_keys JSON_parsed]. f_equal. rewrite !map_map. induction H as [|v w l l' Hv _ IH]; [done|]. cbn [map]. unfold stored in Hv. by rewrite Hv, IH. Qed.

Lemma same_stored_refl e : same_stored e e.
Proof. done. Qed.
Lemma same_stored_list l : Forall2 same_stored l l.
Proof. apply Reflexive_instance_0. intros e. apply same_stored_refl. Qed.

(** Reading a property of the normal form. *)
Lemma assoc_of_key k fields : assoc k fields = match of_key fst k fields with e :: _ => e.2 | [] => JUndefined end.
Proof.
  unfold of_key. induction fields as [|[k' v] l IH]; [done|]. rewrite filter_cons. cbn [fst]. case_decide as E; [subst; by rewrite assoc_hit|by rewrite assoc_miss].
Qed.

Lemma assoc_map_values (f : jsval → jsval) k fields : f JUndefined = JUndefined → assoc k (map (λ '(k, v), (k, f v)) fields) = f (assoc k fields).
Proof. intros Hf. induction fields as [|[k' v] l IH]; [done|]. cbn [map]. destruct (decide (k' = k)) as [->|E]; [by rewrite !assoc_hit|by rewrite !assoc_miss]. Qed.

Lemma assoc_sorted {k} fields : assoc k (sorted_own fields) = assoc k fields.
Proof. by rewrite !assoc_of_key, sorted_own_of_key. Qed.

Lemma property_stored k fields v : assoc k fields = v → is_undefined v = false → property k (stored (JObject fields)) = Ok (stored v).
Proof.
  intros Hv Hu. rewrite stored_object. unfold property. f_equal. rewrite <-sorted_own_map, assoc_sorted. subst v. induction fields as [|[k' v] l IH]; [done|].
  rewrite filter_cons. cbn [snd]. destruct (decide (k' = k)) as [->|Hk].
  - rewrite assoc_hit in Hu. rewrite decide_True by done. cbn [map]. by rewrite !assoc_hit.
  - rewrite assoc_miss in Hu by done. rewrite (assoc_miss k k' v) by done. case_decide; cbn [map]; [rewrite assoc_miss by done|]; by apply IH.
Qed.

(** ** The text determines the normal form

    Texts of JSON values are uniquely decodable: a value cannot be confused with
    another one as long as what follows does not continue a number. *)
Definition number_char (c : ascii) : bool := bool_decide (c ∈ chars "+-.0123456789e").

(** A number as [JSON.stringify] prints it. *)
Definition numeral (printed : string) : Prop := printed ≠ "" ∧ Forall (λ c, number_char c = true) (chars printed).

(** Values with number literals in place of numbers, and without what JSON drops. *)
Inductive plain : jsval → Prop :=
| plain_null : plain JNull
| plain_bool b : plain (JBool b)
| plain_number p : numeral p → plain (JFloat p)
| plain_string s : plain (JString s)
| plain_array items : Forall plain items → plain (JArray items)
| plain_object fields : Forall (λ e, plain e.2) fields → plain (JObject fields).

(** What may follow a value. *)
Definition ends (r : list ascii) : Prop := match r with [] => True | c :: _ => number_char c = false end.

Definition ascii_of_hex (c : ascii) : nat := let n := nat_of_ascii c in if (n <? 58)%nat then (n - 48)%nat else (n - 87)%nat.

(** Reading one code unit of a string literal; nothing is left to read at the quote. *)
Definition unescape (l : list ascii) : option (ascii * list ascii) :=
  match l with
  | [] => None
  | c :: l =>
      if bool_decide (c = quote_char) then None
      else if bool_decide (c = backslash) then
        match l with
        | [] => None
        | d :: l =>
            if bool_decide (d = "u"%char) then match l with _ :: _ :: h :: k :: l => Some (ascii_of_nat (16 * ascii_of_hex h + ascii_of_hex k), l) | _ => None end
            else Some (if bool_decide (d = "b"%char) then ascii_of_nat 8 else if bool_decide (d = "t"%char) then ascii_of_nat 9
                       else if bool_decide (d = "n"%char) then ascii_of_nat 10 else if bool_decide (d = "f"%char) then ascii_of_nat 12
                       else if bool_decide (d = "r"%char) then ascii_of_nat 13 else d, l)
        end
      else Some (c, l)
  end.

Lemma unescape_escape c l : unescape (escape c ++ l) = Some (c, l).
Proof. destruct c as [[] [] [] [] [] [] [] []]; reflexivity. Qed.

Lemma escapes_unique l l' r r' : flat_map escape l ++ quote_char :: r = flat_map escape l' ++ quote_char :: r' → l = l' ∧ r = r'.
Proof.
  revert l'. induction l as [|c l IH]; intros [|c' l'] H; cbn [flat_map app] in H; rewrite <-?app_assoc in H.
  - by injection H as ->.
  - apply (f_equal unescape) in H. by rewrite unescape_escape in H.
  - apply (f_equal unescape) in H. by rewrite unescape_escape in H.
  - apply (f_equal unescape) in H. rewrite !unescape_escape in H. injection H as -> H. by destruct (IH _ H) as [-> ->].
Qed.

Lemma string_unique s s' r r' : stringify_string s ++ r = stringify_string s' ++ r' → s = s' ∧ r = r'.
Proof.
  unfold stringify_string. cbn [app]. intros [= H]. rewrite <-!app_assoc in H. cbn [app] in H. apply escapes_unique in H as [E ->].
  split; [|done]. by rewrite <-(of_chars_chars s), <-(of_chars_chars s'), E.
Qed.

Lemma numeral_unique l l' r r' : Forall (λ c, number_char c = true) l → Forall (λ c, number_char c = true) l' → ends r → ends r' → l ++ r = l' ++ r' → l = l' ∧ r = r'.
Proof.
  intros Hl. revert l'. induction Hl as [|c l Hc Hl IH]; intros [|c' l'] Hl' Hr Hr' H; cbn [app] in H.
  - done.
  - subst r. apply Forall_cons in Hl' as [Hc' _]. cbn in Hr. congruence.
  - subst r'. cbn in Hr'. congruence.
  - injection H as <- H. apply Forall_cons in Hl' as [_ Hl']. by destruct (IH l' Hl' Hr Hr' H) as [-> ->].
Qed.

(** Lists between brackets. *)
Section Separated.
Context {A : Type} (print : A → list ascii) (close : ascii) (good : A → Prop).
Context (Hclose : number_char close = false) (Hcomma : close ≠ comma).
Context (Hstart : ∀ x, good x → ∃ c k, print x = c :: k ∧ c ≠ close).

Definition decodable (x : A) : Prop := ∀ y r r', good y → ends r → ends r' → print x ++ r = print y ++ r' → x = y ∧ r = r'.

Definition rest_of (l : list A) : list ascii := flat_map (λ x, comma :: print x) l.

Lemma commas_rest x l : commas (map print (x :: l)) = print x ++ rest_of l.
Proof.
  revert x. induction l as [|y l IH]; intros x; [cbn; by rewrite app_nil_r|].
  change (commas (map print (x :: y :: l))) with (print x ++ comma :: commas (map print (y :: l))). by rewrite IH.
Qed.

Lemma rest_ends l r : ends (rest_of l ++ close :: r).
Proof using Hclose. by destruct l. Qed.

Lemma rest_unique l l' r r' : Forall (λ x, good x ∧ decodable x) l → Forall good l' → rest_of l ++ close :: r = rest_of l' ++ close :: r' → l = l' ∧ r = r'.
Proof using Hclose Hcomma.
  intros Hl. revert l'. induction Hl as [|x l [Hg Hd] Hl IH]; intros [|y l'] Hl' H; cbn [rest_of flat_map app] in H.
  - by injection H as ->.
  - injection H as E _. by destruct (Hcomma E).
  - injection H as E _. by destruct (Hcomma (eq_sym E)).
  - injection H as H. rewrite <-!app_assoc in H. apply Forall_cons in Hl' as [Hy Hl'].
    destruct (Hd y _ _ Hy (rest_ends l r) (rest_ends l' r') H) as [-> H2]. by destruct (IH l' Hl' H2) as [-> ->].
Qed.

Lemma commas_unique l l' r r' : Forall (λ x, good x ∧ decodable x) l → Forall good l' →
  commas (map print l) ++ close :: r = commas (map print l') ++ close :: r' → l = l' ∧ r = r'.
Proof using Hclose Hcomma Hstart.
  destruct l as [|x l], l' as [|y l']; intros Hl Hl' H.
  - by injection H as ->.
  - apply Forall_cons in Hl' as [Hy _]. destruct (Hstart y Hy) as (c & k & E & Hc). rewrite commas_rest, E in H. by injection H as <-.
  - apply Forall_cons in Hl as [[Hx _] _]. destruct (Hstart x Hx) as (c & k & E & Hc). rewrite commas_rest, E in H. by injection H as ->.
  - apply Forall_cons in Hl as [[Hx Hd] Hl]. apply Forall_cons in Hl' as [Hy Hl']. rewrite !commas_rest, <-!app_assoc in H.
    destruct (Hd y _ _ Hy (rest_ends l r) (rest_ends l' r') H) as [-> H2]. by destruct (rest_unique l l' r r' Hl Hl' H2) as [-> ->].
Qed.
End Separated.

(** The first character of a value tells its constructor. *)
Definition start (v : jsval) (c : ascii) : Prop :=
  match v with
  | JNull => c = "n"%char
  | JBool b => c = if b then "t"%char else "f"%char
  | JFloat _ => number_char c = true
  | JString _ => c = quote_char
  | JArray _ => c = "["%char
  | JObject _ => c = "{"%char
  | _ => False
  end.

Lemma plain_start v : plain v → ∃ c k, stringify v = c :: k ∧ start v c.
Proof.
  intros H. destruct H as [|[]|p [Hp Hn]|s|items _|fields _]; try (eexists _, _; split; [reflexivity|reflexivity]).
  cbn [stringify]. destruct (chars p) as [|c k] eqn:E; [destruct Hp; by rewrite <-(of_chars_chars p), E|]. apply Forall_cons in Hn as [Hc _]. by exists c, k.
Qed.

Lemma plain_closed v : plain v → ∃ c k, stringify v = c :: k ∧ c ≠ "]"%char.
Proof. intros H. destruct (plain_start v H) as (c & k & E & Hs). exists c, k. split; [done|]. intros ->. by destruct H as [|[]| | | |]. Qed.

Definition member (e : string * jsval) : list ascii := stringify_string e.1 ++ ":"%char :: stringify e.2.

Lemma plain_members fields : Forall (λ e, plain e.2) fields → members fields = map member fields.
Proof.
  intros H. unfold members. rewrite filter_kept; [done|]. rewrite Forall_forall in H. intros [k v] Hin. specialize (H _ Hin). cbn in *. by destruct H.
Qed.

Lemma start_unique v w c : start v c → start w c → match v, w with
  | JNull, JNull | JFloat _, JFloat _ | JString _, JString _ | JArray _, JArray _ | JObject _, JObject _ => True
  | JBool b, JBool b' => b = b'
  | _, _ => False end.
Proof.
  intros Hv Hw. destruct v as [| |[]| | | | | |], w as [| |[]| | | | | |]; cbn in Hv, Hw; subst; try exact I; try reflexivity;
    first [by destruct Hv|by destruct Hw|discriminate Hv|discriminate Hw].
Qed.

Lemma stringify_decodable v : plain v → decodable stringify plain v.
Proof.
  induction v as [| |b|z|p| |s|items IH|fields IH] using Snapshot.jsval_induction; intros Hv w r r' Hw Hr Hr' H;
    destruct (plain_start _ Hv) as (c & k & E1 & S1); destruct (plain_start _ Hw) as (c' & k' & E2 & S2);
    pose proof H as Hhead; rewrite E1, E2 in Hhead; injection Hhead as <- Hhead;
    pose proof (start_unique _ _ _ S1 S2) as Hc; destruct w as [| |b'|z'|p'| |s'|items'|fields']; try (by destruct Hc); clear E1 E2 S1 S2 Hhead.
  - by apply app_inv_head in H as ->.
  - subst b'. by apply app_inv_head in H as ->.
  - inversion Hv as [| |? [_ Hp]| | |]; inversion Hw as [| |? [_ Hp']| | |]; subst. cbn [stringify] in H. apply numeral_unique in H as [E ->]; try done.
    apply (f_equal of_chars) in E. rewrite !of_chars_chars in E. by rewrite E.
  - apply string_unique in H as [-> ->]. done.
  - inversion Hv as [| | | |? Hi|]; inversion Hw as [| | | |? Hi'|]; subst. cbn [stringify app] in H. injection H as H. rewrite <-!app_assoc in H. cbn [app] in H.
    destruct (commas_unique stringify "]"%char plain eq_refl ltac:(discriminate) plain_closed items items' r r') as [-> ->]; try done.
    apply Forall_forall. intros x Hx. rewrite Forall_forall in Hi, IH. auto.
  - inversion Hv as [| | | | |? Hf]; inversion Hw as [| | | | |? Hf']; subst. rewrite !stringify_object, !plain_members in H by done. cbn [app] in H.
    injection H as H. rewrite <-!app_assoc in H. cbn [app] in H.
    destruct (commas_unique member "}"%char (λ e, plain e.2) eq_refl ltac:(discriminate) ltac:(intros e _; by eexists _, _) fields fields' r r') as [-> ->]; try done.
    apply Forall_forall. intros [k1 v1] Hin. rewrite Forall_forall in Hf, IH. split; [exact (Hf (k1, v1) Hin)|]. intros [k2 v2] q q' Hy Hq Hq' Hm.
    unfold member in Hm. cbn [fst snd] in Hm. rewrite <-!app_assoc in Hm. apply string_unique in Hm as [Ek Hm]. injection Hm as Hm.
    destruct (IH (k1, v1) Hin (Hf (k1, v1) Hin) v2 q q' Hy Hq Hq' Hm) as [Ev ->]. cbn in Ev. by rewrite Ek, Ev.
Qed.

Lemma stringify_inj v w : plain v → plain w → stringify v = stringify w → v = w.
Proof. intros Hv Hw H. destruct (stringify_decodable v Hv w [] [] Hw I I) as [-> _]; [by rewrite H|done]. Qed.

(** The numbers of a value as they are printed. *)
Fixpoint numerals (value : jsval) : jsval :=
  match value with
  | JInt z => JFloat (show z)
  | JArray items => JArray (map numerals items)
  | JObject fields => JObject (map (λ '(key, v), (key, numerals v)) fields)
  | v => v
  end.

(** Numbers that are not integers are given as printed. *)
Inductive printable : jsval → Prop :=
| pr_undefined : printable JUndefined
| pr_null : printable JNull
| pr_bool b : printable (JBool b)
| pr_int z : printable (JInt z)
| pr_float p : numeral p → printable (JFloat p)
| pr_nan : printable JNaN
| pr_string s : printable (JString s)
| pr_array items : Forall printable items → printable (JArray items)
| pr_object fields : Forall (λ e, printable e.2) fields → printable (JObject fields).

Lemma digit_number_char c : is_digit c = true → number_char c = true.
Proof. destruct c as [[] [] [] [] [] [] [] []]; vm_compute; done. Qed.

Lemma show_numeral z : numeral (show z).
Proof.
  assert (∀ n, 0 <= n → to_digits n ≠ [] ∧ Forall (λ c, number_char c = true) (to_digits n)) as Hd.
  { intros n Hn. pose proof (to_digits_digits n Hn) as H. split.
    { destruct (Z.lt_ge_cases n 10); [by rewrite to_digits_small by lia|]. rewrite to_digits_step by lia. by destruct (to_digits (n / 10)). }
    eapply Forall_impl; [exact H|]. exact digit_number_char. }
  unfold numeral, show. rewrite chars_of_chars. assert (show_chars z ≠ [] ∧ Forall (λ c, number_char c = true) (show_chars z)) as [H1 H2].
  { unfold show_chars. destruct (Z.ltb_spec z 0); [|by apply Hd]. split; [done|]. constructor; [done|]. apply Hd. lia. }
  split; [|exact H2]. intros E. apply H1. apply (f_equal chars) in E. by rewrite chars_of_chars in E.
Qed.

Lemma stringify_numerals v : stringify (numerals v) = stringify v.
Proof.
  induction v as [| | | | | | |items IH|fields IH] using Snapshot.jsval_induction; try done.
  - cbn. unfold show. by rewrite chars_of_chars.
  - cbn [numerals stringify]. rewrite map_map. do 3 f_equal. by apply map_ext_Forall.
  - cbn [numerals]. rewrite !stringify_object. do 3 f_equal. unfold members. induction IH as [|[k v] l Hv _ IHl]; [done|]. cbn [map]. rewrite !filter_cons. cbn [snd] in *.
    destruct v; cbn [numerals is_undefined] in *; rewrite ?decide_True, ?decide_False by done; cbn [map fst snd]; rewrite ?IHl, ?Hv; done.
Qed.

Lemma stored_plain v : printable v → plain (numerals (stored v)).
Proof.
  induction v as [| | | | | | |items IH|fields IH] using Snapshot.jsval_induction; intros Hv; try (by constructor).
  - apply plain_number, show_numeral.
  - inversion Hv; subst. by constructor.
  - inversion Hv as [| | | | | | |? Hi|]; subst. unfold stored. cbn [sort_keys JSON_parsed numerals]. constructor. rewrite !map_map. apply Forall_map.
    rewrite Forall_forall in *. intros x Hx. by apply IH, Hi.
  - inversion Hv as [| | | | | | | |? Hf]; subst. rewrite stored_object. cbn [numerals]. constructor. rewrite map_values_map. apply Forall_map.
    rewrite Forall_forall in *. intros [k v] Hin. rewrite sorted_own_Permutation in Hin. apply list_elem_of_filter in Hin as [_ Hin]. cbn.
    apply (IH (k, v) Hin), (Hf (k, v) Hin).
Qed.

Lemma normalizedJson_inj v w : printable v → printable w → normalizedJson v = normalizedJson w → numerals (stored v) = numerals (stored w).
Proof.
  intros Hv Hw H. apply stringify_inj; [by apply stored_plain..|]. rewrite !stringify_numerals. rewrite !normalizedJson_stored in H.
  apply (f_equal chars) in H. unfold JSON_stringify in H. by rewrite !chars_of_chars in H.
Qed.

(** A property as it is printed, if it is. *)
Definition shown (v : jsval) : jsval := if is_undefined v then JUndefined else numerals (stored v).

Lemma assoc_defined k fields : NoDup (map fst fields) → assoc k (filter (λ e, is_undefined e.2 = false) fields) = assoc k fields.
Proof.
  induction fields as [|[k' v] l IH]; [done|]. cbn [map fst]. intros [Hni Hd]%NoDup_cons. rewrite filter_cons. cbn [snd].
  destruct (decide (k' = k)) as [->|Hk].
  - rewrite assoc_hit. case_decide as Hu; [by rewrite assoc_hit|]. rewrite IH by done. destruct v; try done. rewrite assoc_of_key.
    assert (of_key fst k l = []) as ->; [|done]. apply filter_none. intros e He E. apply Hni. apply list_elem_of_fmap. by exists e.
  - rewrite (assoc_miss k k' v) by done. case_decide; [rewrite assoc_miss by done|]; by apply IH.
Qed.

Lemma assoc_shown k fields : NoDup (map fst fields) →
  match numerals (stored (JObject fields)) with JObject l => assoc k l | _ => JUndefined end = shown (assoc k fields).
Proof.
  intros Hd. rewrite stored_object. cbn [numerals]. rewrite map_values_map, <-(assoc_defined k fields Hd), <-(assoc_sorted (filter (λ e, is_undefined e.2 = false) fields)), <-(assoc_map_values shown) by done.
  f_equal. apply map_values_ext, Forall_forall. intros e He. rewrite sorted_own_Permutation in He. apply list_elem_of_filter in He as [He _].
  unfold shown. by rewrite He.
Qed.

(** Objects with the same text have the same properties. *)
Lemma normalizedJson_property k fields fields' : NoDup (map fst fields) → NoDup (map fst fields') → printable (JObject fields) → printable (JObject fields') →
  normalizedJson (JObject fields) = normalizedJson (JObject fields') → shown (assoc k fields) = shown (assoc k fields').
Proof. intros Hd Hd' Hp Hp' H. apply normalizedJson_inj in H; [|done..]. rewrite <-!assoc_shown by done. by rewrite H. Qed.

Lemma shown_object fields fields' : map fst fields = map fst fields' → NoDup (map fst fields) →
  shown (JObject fields) = shown (JObject fields') ↔ Forall2 (λ a b, shown a.2 = shown b.2) fields fields'.
Proof.
  intros Hk Hd. unfold shown at 1 2. cbn [is_undefined]. split.
  - intros H. apply Forall2_same_length_lookup_2; [by rewrite <-(length_map fst fields), <-(length_map fst fields'), Hk|].
    intros i [k v] [k' v'] Hi Hi'. assert (k' = k) as ->.
    { apply (f_equal (λ l, l !! i)) in Hk. rewrite !list_lookup_fmap, Hi, Hi' in Hk. by injection Hk. }
    assert (∀ l j w, NoDup (map fst l) → l !! j = Some (k, w) → assoc k l = w) as G.
    { clear. intros l. induction l as [|[k0 v0] l IH]; intros j w Hd Hj; [done|]. cbn [map fst] in Hd. apply NoDup_cons in Hd as [Hni Hd]. destruct j as [|j].
      - injection Hj as -> ->. by rewrite assoc_hit.
      - cbn in Hj. rewrite assoc_miss; [by apply (IH j)|]. intros ->. apply Hni. apply list_elem_of_fmap. exists (k, w). split; [done|].
        by eapply list_elem_of_lookup_2. }
    assert (NoDup (map fst fields')) as Hd' by (by rewrite <-Hk). pose proof (G _ _ _ Hd Hi) as E. pose proof (G _ _ _ Hd' Hi') as E'. cbn [snd].
    rewrite <-E, <-E', <-(assoc_shown k fields Hd), <-(assoc_shown k fields' Hd'). by rewrite H.
  - intros H. rewrite !stored_object. cbn [numerals]. rewrite !map_values_map. f_equal. rewrite <-!sorted_own_map. f_equal. clear Hd.
    induction H as [|[k v] [k' v'] l l' Hv _ IH]; [done|]. cbn [map fst] in Hk. injection Hk as -> Hk. rewrite !filter_cons. cbn [snd] in *.
    assert (∀ w, is_undefined (numerals (stored w)) = false) as Hn by (intros w; unfold stored; by destruct w).
    unfold shown in Hv. destruct (is_undefined v) eqn:Ev, (is_undefined v') eqn:Ev'; rewrite ?decide_True, ?decide_False by done.
    + by apply IH.
    + specialize (Hn v'). by rewrite <-Hv in Hn.
    + specialize (Hn v). by rewrite Hv in Hn.
    + cbn [map]. by rewrite Hv, IH.
Qed.

Lemma shown_text v w : printable v → printable w → is_undefined v = false → is_undefined w = false → shown v = shown w ↔ normalizedJson v = normalizedJson w.
Proof.
  intros Hv Hw Ev Ew. unfold shown. rewrite Ev, Ew. split; [|by apply normalizedJson_inj]. intros H. rewrite !normalizedJson_stored. unfold JSON_stringify.
  by rewrite <-(stringify_numerals (stored v)), H, stringify_numerals.
Qed.

(** What [Number] answers. *)
Definition numeric (v : jsval) : Prop := match v with JInt _ | JNaN => True | JFloat p => numeral p | _ => False end.
Lemma numeric_printable v : numeric v → printable v.
Proof. destruct v; cbn; intros H; try done; by constructor. Qed.
Lemma numeric_defined v : numeric v → is_undefined v = false.
Proof. by destruct v. Qed.
