(* ===== verification/WorkflowPlans.v ===== *)
(** WorkflowPlans: what a stored workflow does with a message, from
    [src/workflow_repository.ts]: the filters of a path ([pathAllowsInput]) and
    the signal plans of a channel ([getWorkflowSignalPlans]).

    A [WorkflowRevision] is what [workflowRevisionFromRow] reads: the paths of the
    revision in the order of their keys, and its route groups.  [new_RegExp] and
    [regex_test] are the regular-expression engine ([Filters]); the cache of
    compiled patterns changes no answer ([Filters.parseRegex_exact]). *)

From S2P Require Import Prelude Text Json Maps Filters Workflow WorkflowTopology WorkflowFallback WorkflowCompile NormalJson.
From Stdlib Require Ascii String.
Local Open Scope Z_scope.
Local Open Scope ts_scope.
Set Default Proof Using "Type".

(** ** Stored workflows *)
Record WorkflowPathRow := mkPathRow { pt_workflowRevisionId : string; pt_path : CompiledDraftPath }.

Record WorkflowRevision := mkRevision { rv_id : string; rv_paths : list CompiledDraftPath; rv_routeGroups : list WorkflowRouteGroup }.

(** The tables of workflows: the route groups of a revision, the paths, and the
    active revision. *)
Record WorkflowTables := mkWorkflows {
  wf_revisions : gmap string (list WorkflowRouteGroup);
  wf_paths : gmap string WorkflowPathRow;
  wf_active : option string }.

Definition getWorkflowRevisionById (tables : WorkflowTables) (id : string) : option WorkflowRevision :=
  routeGroups ← wf_revisions tables !! id;
  let rows := filter (λ row : string * WorkflowPathRow, pt_workflowRevisionId row.2 = id) (map_to_list (wf_paths tables)) in
  Some (mkRevision id (sort_text dp_pathKey (map (λ row : string * WorkflowPathRow, pt_path row.2) rows)) routeGroups).

Definition getActiveWorkflow (tables : WorkflowTables) : option WorkflowRevision := wf_active tables ≫= getWorkflowRevisionById tables.

(** ** Filters *)
Definition truthy (value : jsval) : bool :=
  match value with
  | JUndefined | JNull | JNaN => false
  | JBool b => b
  | JInt z => negb (z =? 0)
  | JString s => negb (bool_decide (s = ""))
  | _ => true
  end.

(** [value === text] *)
Definition is_text (text : string) (value : jsval) : bool := match value with JString s => bool_decide (s = text) | _ => false end.

(** [value?.key] *)
Definition optional_property (key : string) (value : jsval) : jsval := match value with JObject fields => assoc key fields | _ => JUndefined end.

(** [words.some(word => normalized.includes(word.toLocaleLowerCase('und')))] *)
Fixpoint some_word (normalized : string) (words : list jsval) : result bool :=
  match words with
  | [] => Ok false
  | JString word :: words => if includes normalized (toLowerCase word) then Ok true else some_word normalized words
  | _ :: _ => throw "word.toLocaleLowerCase is not a function"
  end.

Definition keywordFilterReason (keywords : jsval) (text : string) : result (option string) :=
  let normalized := toLowerCase text in
  blocked ← match optional_property "blockedKeywords" keywords with
            | JUndefined | JNull => Ok false
            | JArray words => some_word normalized words
            | _ => throw "keywords.blockedKeywords.some is not a function"
            end;
  if blocked : bool then Ok (Some "BLOCKED_KEYWORD")
  else
    match optional_property "allowedKeywords" keywords with
    | JArray ((_ :: _) as words) => found ← some_word normalized words; Ok (if found : bool then None else Some "ALLOWED_KEYWORD_MISSING")
    | JString s => if bool_decide (s = "") then Ok None else throw "keywords.allowedKeywords.some is not a function"
    | _ => Ok None
    end.

Section Inputs.
Context {RegExp : Type} (new_RegExp : string → string → result RegExp) (regex_test : RegExp → string → result bool).

Definition regex_matches (boundedText : string) (pattern : jsval) : result bool :=
  match pattern with
  | JString pattern => regex ← compile_pattern new_RegExp pattern; safeRegexTest regex_test regex boundedText
  | _ => throw "patternStr.trim is not a function"
  end.

Definition regexAllowsInput (regex : jsval) (text : string) : result bool :=
  match optional_property "patterns" regex with
  | JArray ((_ :: _) as patterns) =>
      let boundedText := if Z.of_nat (length (chars text)) >? 8000 then of_chars (take (Z.to_nat 8000) (chars text)) else text in
      matches ← mapM (regex_matches boundedText) patterns;
      Ok (if is_text "any" (optional_property "mode" regex) then existsb id matches else forallb id matches)
  | JString s => if bool_decide (s = "") then Ok true else throw "regex.patterns.map is not a function"
  | _ => Ok true
  end.

(** [None]: allowed; otherwise the reason. *)
Definition pathAllowsInput (path : CompiledDraftPath) (text contentType : string) : result (option string) :=
  let resources := ef_resources (dp_effectiveConfiguration path) in
  let content := assoc "content_filter" resources in
  typed ← (if truthy content then
             match optional_property "allowedTypes" content with
             | JArray types => Ok (existsb (is_text contentType) types)
             | JString types => Ok (includes types contentType)
             | _ => throw "content.allowedTypes.includes is not a function"
             end
           else Ok true);
  if negb typed then Ok (Some "CONTENT_TYPE_FILTERED")
  else
    keywordReason ← keywordFilterReason (assoc "keyword_filter" resources) text;
    match keywordReason with
    | Some reason => Ok (Some reason)
    | None => allowed ← regexAllowsInput (assoc "regex" resources) text; Ok (if allowed : bool then None else Some "REGEX_FILTERED")
    end.

(** ** Signal plans *)
Record WorkflowSignalPlan := mkPlan {
  wp_key : string;
  wp_workflowRevisionId : string;
  wp_executionPathIds : list string;
  wp_templateName : string;
  wp_prompt : option string;
  wp_timeoutMs : jsval;
  wp_primaryModel : option string;
  wp_fallbackModel : option string;
  wp_schemaId : string;
  wp_contractVersionId : string;
  wp_dedupe_enabled : bool;
  wp_dedupe_cooldownHours : jsval;
  wp_outputModes : list string }.

Context (Number : jsval → jsval) (sha256 : string → string) (localeCompare : string → string → Z).

(** [value ? requireString(value, label) : undefined] *)
Definition optional_string (value : jsval) (label : string) : result (option string) :=
  if truthy value then Some <$> requireString value label else Ok None.

(** A resource that may be missing. *)
Definition optional_object (value : jsval) (label : string) : result (option (list (string * jsval))) :=
  if truthy value then Some <$> object value label else Ok None.

Definition definitionJson (path : CompiledDraftPath) (plan : WorkflowSignalPlan) : jsval :=
  let version (o : option string) := match o with Some id => JString id | None => JNull end in
  let given (o : option string) := match o with Some text => JString text | None => JUndefined end in
  JObject [("parserResourceVersionId", version (dp_parserResourceVersionId path)); ("schemaResourceVersionId", version (dp_schemaResourceVersionId path));
    ("contractResourceVersionId", version (dp_contractResourceVersionId path)); ("templateName", JString (wp_templateName plan)); ("prompt", given (wp_prompt plan));
    ("timeoutMs", wp_timeoutMs plan); ("primaryModel", given (wp_primaryModel plan)); ("fallbackModel", given (wp_fallbackModel plan));
    ("schemaId", JString (wp_schemaId plan)); ("contractVersionId", JString (wp_contractVersionId plan));
    ("dedupe", JObject [("enabled", JBool (wp_dedupe_enabled plan)); ("cooldownHours", wp_dedupe_cooldownHours plan)])].

Definition with_key (key : string) (p : WorkflowSignalPlan) : WorkflowSignalPlan :=
  mkPlan key (wp_workflowRevisionId p) (wp_executionPathIds p) (wp_templateName p) (wp_prompt p) (wp_timeoutMs p) (wp_primaryModel p) (wp_fallbackModel p)
    (wp_schemaId p) (wp_contractVersionId p) (wp_dedupe_enabled p) (wp_dedupe_cooldownHours p) (wp_outputModes p).

Definition signalPlanForPath (path : CompiledDraftPath) (workflowRevisionId : string) : result WorkflowSignalPlan :=
  let resources := ef_resources (dp_effectiveConfiguration path) in
  parser ← object (assoc "parser" resources) "Compiled parser resource";
  schema ← object (assoc "schema" resources) "Compiled schema resource";
  contract ← object (assoc "contract" resources) "Compiled contract resource";
  dedupe ← optional_object (assoc "dedupe" resources) "Compiled dedupe resource";
  output ← optional_object (assoc "output" resources) "Compiled output resource";
  templateName ← requireString (assoc "templateName" parser) "Compiled parser template name";
  prompt ← optional_string (assoc "prompt" parser) "Compiled parser prompt";
  primaryModel ← optional_string (assoc "primaryModel" parser) "Compiled primary parser model";
  fallbackModel ← optional_string (assoc "fallbackModel" parser) "Compiled fallback parser model";
  schemaId ← requireString (assoc "schemaId" schema) "Compiled schema ID";
  contractVersionId ← requireString (assoc "contractVersionId" contract) "Compiled contract version ID";
  let enabled := match dedupe with Some fields => match assoc "enabled" fields with JBool b => b | _ => true end | None => false end in
  let cooldown := match dedupe with Some fields => assoc "cooldownHours" fields | None => JUndefined end in
  let mode := match output with Some fields => assoc "mode" fields | None => JUndefined end in
  outputMode ← requireString (or_default mode (JString "audit_only")) "Compiled output mode";
  let plan := mkPlan "" workflowRevisionId [dp_id path] templateName prompt (Number (assoc "timeoutMs" parser)) primaryModel fallbackModel schemaId contractVersionId
    enabled (Number (or_default cooldown (JInt 24))) [outputMode] in
  Ok (with_key (digest sha256 (definitionJson path plan)) plan).

Definition extend_plan (existing candidate : WorkflowSignalPlan) : WorkflowSignalPlan :=
  mkPlan (wp_key existing) (wp_workflowRevisionId existing) (wp_executionPathIds existing ++ wp_executionPathIds candidate) (wp_templateName existing)
    (wp_prompt existing) (wp_timeoutMs existing) (wp_primaryModel existing) (wp_fallbackModel existing) (wp_schemaId existing) (wp_contractVersionId existing)
    (wp_dedupe_enabled existing) (wp_dedupe_cooldownHours existing)
    (fold_left (λ modes mode, if bool_decide (mode ∈ modes) then modes else modes ++ [mode]) (wp_outputModes candidate) (wp_outputModes existing)).

Definition mergeSignalPlan (groups : list (string * WorkflowSignalPlan)) (candidate : WorkflowSignalPlan) : list (string * WorkflowSignalPlan) :=
  match map_get (wp_key candidate) groups with
  | None => map_set (wp_key candidate) candidate groups
  | Some existing => map_set (wp_key candidate) (extend_plan existing candidate) groups
  end.

(** One turn of the loop over the paths of a workflow. *)
Definition plan_path (workflowRevisionId channelId text contentType : string) (groups : list (string * WorkflowSignalPlan)) (path : CompiledDraftPath) :
    result (list (string * WorkflowSignalPlan)) :=
  if negb (bool_decide (dp_channelId path = channelId)) || negb (dp_enabled path) then Ok groups
  else
    reason ← pathAllowsInput path text contentType;
    match reason with
    | Some _ => Ok groups
    | None => plan ← signalPlanForPath path workflowRevisionId; Ok (mergeSignalPlan groups plan)
    end.

Definition sorted_plan (p : WorkflowSignalPlan) : WorkflowSignalPlan :=
  mkPlan (wp_key p) (wp_workflowRevisionId p) (sort_with localeCompare (wp_executionPathIds p)) (wp_templateName p) (wp_prompt p) (wp_timeoutMs p) (wp_primaryModel p)
    (wp_fallbackModel p) (wp_schemaId p) (wp_contractVersionId p) (wp_dedupe_enabled p) (wp_dedupe_cooldownHours p) (sort_with localeCompare (wp_outputModes p)).

(** The pinned revision: not given, given as nothing, or an identifier. *)
Inductive RevisionChoice := revision_active | revision_none | revision_pinned (id : string).

Definition chosen_workflow (tables : WorkflowTables) (choice : RevisionChoice) : result (option WorkflowRevision) :=
  match choice with
  | revision_active => Ok (getActiveWorkflow tables)
  | revision_none => Ok None
  | revision_pinned id =>
      if bool_decide (id = "") then Ok None
      else workflow ← or_throw (getWorkflowRevisionById tables id) "Pinned workflow revision is missing; review required."; Ok (Some workflow)
  end.

Definition getWorkflowSignalPlans (tables : WorkflowTables) (channelId text contentType : string) (choice : RevisionChoice) : result (list WorkflowSignalPlan) :=
  workflow ← chosen_workflow tables choice;
  match workflow with
  | None => Ok []
  | Some workflow =>
      groups ← fold_result (plan_path (rv_id workflow) channelId text contentType) [] (rv_paths workflow);
      Ok (sort_with (λ left right, localeCompare (wp_key left) (wp_key right)) (map (sorted_plan ∘ snd) groups))
  end.
End Inputs.

(** ** Merging *)
Definition merged (first : WorkflowSignalPlan) (rest : list WorkflowSignalPlan) : WorkflowSignalPlan := fold_left extend_plan rest first.
Definition plans_of (key : string) (l : list WorkflowSignalPlan) : list WorkflowSignalPlan := filter (λ p, wp_key p = key) l.

(** The settings that the key stands for. *)
Definition same_settings (p q : WorkflowSignalPlan) : Prop :=
  wp_key p = wp_key q ∧ wp_workflowRevisionId p = wp_workflowRevisionId q ∧ wp_templateName p = wp_templateName q ∧ wp_prompt p = wp_prompt q ∧
  wp_timeoutMs p = wp_timeoutMs q ∧ wp_primaryModel p = wp_primaryModel q ∧ wp_fallbackModel p = wp_fallbackModel q ∧ wp_schemaId p = wp_schemaId q ∧
  wp_contractVersionId p = wp_contractVersionId q ∧ wp_dedupe_enabled p = wp_dedupe_enabled q ∧ wp_dedupe_cooldownHours p = wp_dedupe_cooldownHours q.

Lemma add_modes new old : NoDup old →
  NoDup (fold_left (λ modes mode, if bool_decide (mode ∈ modes) then modes else modes ++ [mode]) new old) ∧
  ∀ m : string, m ∈ fold_left (λ modes mode, if bool_decide (mode ∈ modes) then modes else modes ++ [mode]) new old ↔ m ∈ old ∨ m ∈ new.
Proof.
  revert old. induction new as [|x new IH]; intros old Hd; cbn [fold_left]; [split; [done|set_solver]|].
  case_bool_decide as Hx.
  - destruct (IH old Hd) as [H1 H2]. split; [done|]. intros m. rewrite H2. set_solver.
  - destruct (IH (old ++ [x])) as [H1 H2]; [apply NoDup_app; split_and!; [done|set_solver|apply NoDup_singleton]|]. split; [done|]. intros m. rewrite H2. set_solver.
Qed.

Lemma merged_spec first rest : NoDup (wp_outputModes first) →
  same_settings (merged first rest) first ∧ wp_executionPathIds (merged first rest) = concat (map wp_executionPathIds (first :: rest)) ∧
  NoDup (wp_outputModes (merged first rest)) ∧ ∀ m, m ∈ wp_outputModes (merged first rest) ↔ ∃ p, p ∈ first :: rest ∧ m ∈ wp_outputModes p.
Proof.
  revert first. induction rest as [|q rest IH]; intros first Hd.
  { split_and!; [repeat split|cbn; by rewrite app_nil_r|done|]. intros m. cbn. set_solver. }
  pose proof (add_modes (wp_outputModes q) (wp_outputModes first) Hd) as [Hd' Hm].
  destruct (IH (extend_plan first q) Hd') as (Hs & Hi & Hn & Hin). split_and!; [exact Hs| |exact Hn|].
  - change (merged first (q :: rest)) with (merged (extend_plan first q) rest). rewrite Hi. cbn. by rewrite <-app_assoc.
  - intros m. change (merged first (q :: rest)) with (merged (extend_plan first q) rest). rewrite Hin. split.
    + intros (p & [->|Hp]%elem_of_cons & Hmp); [|exists p; set_solver]. apply Hm in Hmp as [H|H]; [exists first|exists q]; set_solver.
    + intros (p & [->|[->|Hp]%elem_of_cons]%elem_of_cons & Hmp); [exists (extend_plan first q)|exists (extend_plan first q)|exists p]; try set_solver;
        (split; [left|]; apply Hm; by auto).
Qed.

(** The map after merging: one entry per key, of the plans with the key. *)
Lemma merge_spec l : NoDup (map fst (fold_left mergeSignalPlan l [])) ∧
  ∀ key, map_get key (fold_left mergeSignalPlan l []) = match plans_of key l with [] => None | first :: rest => Some (merged first rest) end.
Proof.
  induction l as [|p l IH] using rev_ind; [by split; [apply NoDup_nil|]|]. rewrite fold_left_app. cbn [fold_left].
  destruct IH as [Hd Hg]. set (groups := fold_left mergeSignalPlan l []) in *.
  assert (∀ key, plans_of key (l ++ [p]) = plans_of key l ++ (if bool_decide (wp_key p = key) then [p] else [])) as Hk.
  { intros key. unfold plans_of. rewrite filter_app, filter_cons. f_equal. by destruct (bool_decide_reflect (wp_key p = key)) as [E|E]; [rewrite decide_True|rewrite decide_False]. }
  unfold mergeSignalPlan. split.
  - destruct (map_get (wp_key p) groups); by apply map_set_nodup.
  - intros key. rewrite Hk. specialize (Hg (wp_key p)) as Hp. rewrite Hp.
    destruct (plans_of (wp_key p) l) as [|first rest] eqn:E; rewrite map_get_set, Hg; destruct (bool_decide_reflect (wp_key p = key)) as [<-|Hne]; rewrite ?app_nil_r; try done.
    + by rewrite E.
    + rewrite E. unfold merged. cbn. by rewrite fold_left_app.
Qed.

Section Plans.
Context {RegExp : Type} (new_RegExp : string → string → result RegExp) (regex_test : RegExp → string → result bool).
Context (Number : jsval → jsval) (sha256 : string → string) (localeCompare : string → string → Z).
Abbreviation pathAllowsInput := (pathAllowsInput new_RegExp regex_test).
Abbreviation signalPlanForPath := (signalPlanForPath Number sha256).
Abbreviation getWorkflowSignalPlans := (getWorkflowSignalPlans new_RegExp regex_test Number sha256 localeCompare).

(** The paths that take part: of the channel, enabled, and their filters admit the message. *)
Definition takes (channelId text contentType : string) (path : CompiledDraftPath) : bool :=
  bool_decide (dp_channelId path = channelId) && dp_enabled path && match pathAllowsInput path text contentType with Ok None => true | _ => false end.

Lemma plan_paths_spec revision channelId text contentType l groups groups' :
  fold_result (plan_path new_RegExp regex_test Number sha256 revision channelId text contentType) groups l = Ok groups' →
  ∃ ps, Forall2 (λ path p, signalPlanForPath path revision = Ok p) (filter (λ path, takes channelId text contentType path = true) l) ps ∧
    groups' = fold_left mergeSignalPlan ps groups.
Proof.
  revert groups. induction l as [|path l IH]; intros groups H; cbn [fold_result] in H.
  { injection H as <-. by exists []. }
  apply bind_Ok in H as (g1 & H1 & H). apply IH in H as (ps & Hps & ->). rewrite filter_cons. unfold plan_path in H1.
  destruct (takes channelId text contentType path) eqn:Ht; [rewrite decide_True by done|rewrite decide_False by done]; unfold takes in Ht;
    destruct (bool_decide _), (dp_enabled path); cbn [negb orb andb] in *; try discriminate Ht;
    try (apply bind_Ok in H1 as ([reason|] & Hr & H1); rewrite Hr in Ht; try discriminate Ht); try (injection H1 as <-; by exists ps).
  apply bind_Ok in H1 as (p & Hp & H1). injection H1 as <-. exists (p :: ps). split; [by constructor|done].
Qed.

Lemma plan_of_path path revision p : signalPlanForPath path revision = Ok p → wp_executionPathIds p = [dp_id path] ∧ wp_workflowRevisionId p = revision ∧ ∃ mode, wp_outputModes p = [mode].
Proof. unfold WorkflowPlans.signalPlanForPath. intros H. repeat (apply bind_Ok in H as (? & _ & H)). injection H as <-. split_and!; [done..|by eexists]. Qed.

Lemma plans_spec tables channelId text contentType choice workflow plans :
  chosen_workflow tables choice = Ok (Some workflow) → getWorkflowSignalPlans tables channelId text contentType choice = Ok plans →
  ∃ ps, Forall2 (λ path p, signalPlanForPath path (rv_id workflow) = Ok p) (filter (λ path, takes channelId text contentType path = true) (rv_paths workflow)) ps ∧
    NoDup (map wp_key plans) ∧ (∀ p, p ∈ ps → wp_key p ∈ map wp_key plans) ∧
    ∀ plan, plan ∈ plans → ∃ first rest, plans_of (wp_key plan) ps = first :: rest ∧ same_settings plan first ∧
      wp_executionPathIds plan ≡ₚ concat (map wp_executionPathIds (first :: rest)) ∧ NoDup (wp_outputModes plan) ∧
      ∀ mode, mode ∈ wp_outputModes plan ↔ ∃ p, p ∈ first :: rest ∧ mode ∈ wp_outputModes p.
Proof.
  intros Hw H. unfold WorkflowPlans.getWorkflowSignalPlans in H. rewrite Hw in H. cbn [mbind result_bind] in H.
  apply bind_Ok in H as (groups & Hg & H). injection H as <-. apply plan_paths_spec in Hg as (ps & Hps & ->). exists ps. split; [done|].
  destruct (merge_spec ps) as [Hd Hget]. set (groups := fold_left mergeSignalPlan ps []) in *.
  assert (∀ key plan, (key, plan) ∈ groups → ∃ first rest, plans_of key ps = first :: rest ∧ plan = merged first rest ∧ same_settings plan first ∧ wp_key plan = key ∧
    wp_executionPathIds plan = concat (map wp_executionPathIds (first :: rest)) ∧ NoDup (wp_outputModes plan) ∧
    ∀ mode, mode ∈ wp_outputModes plan ↔ ∃ p, p ∈ first :: rest ∧ mode ∈ wp_outputModes p) as Hall.
  { intros key plan Hin. apply map_get_In in Hin; [|done]. rewrite Hget in Hin. destruct (plans_of key ps) as [|first rest] eqn:E; [done|]. injection Hin as <-.
    assert (first ∈ plans_of key ps) as Hf by (rewrite E; left). apply list_elem_of_filter in Hf as [Hkey Hf].
    apply list_elem_of_lookup_1 in Hf as [i Hf]. destruct (Forall2_lookup_r _ _ _ _ _ Hps Hf) as (path & _ & Hp). apply plan_of_path in Hp as (_ & _ & mode & Hm).
    destruct (merged_spec first rest) as (Hs & Hi & Hn & Hmodes); [rewrite Hm; apply NoDup_singleton|].
    exists first, rest. split_and!; try done. by rewrite (proj1 Hs). }
  assert (map wp_key (map (sorted_plan localeCompare ∘ snd) groups) = map fst groups) as Hkeys.
  { clear -Hall. rewrite map_map. apply map_ext_in. intros [key plan] Hin%list_elem_of_In. by destruct (Hall _ _ Hin) as (? & ? & _ & _ & _ & Hk & _). }
  split_and!.
  - rewrite sort_with_Permutation, Hkeys. exact Hd.
  - intros p Hp. rewrite sort_with_Permutation, Hkeys. destruct (decide (wp_key p ∈ map fst groups)) as [|Hni]; [done|].
    apply map_get_None in Hni. rewrite Hget in Hni. assert (p ∈ plans_of (wp_key p) ps) as Hin by by apply list_elem_of_filter.
    destruct (plans_of (wp_key p) ps); [by apply not_elem_of_nil in Hin|done].
  - intros plan Hin. rewrite sort_with_Permutation in Hin. apply list_elem_of_fmap in Hin as ([key g] & -> & Hin).
    destruct (Hall _ _ Hin) as (first & rest & E & _ & Hs & Hk & Hi & Hn & Hm). exists first, rest. cbn [compose fst snd] in *.
    change (wp_key (sorted_plan localeCompare g)) with (wp_key g). rewrite Hk. split_and!; [done|exact Hs| | |].
    + cbn [sorted_plan wp_executionPathIds]. by rewrite sort_with_Permutation, Hi.
    + cbn [sorted_plan wp_outputModes]. by rewrite sort_with_Permutation.
    + intros mode. cbn [sorted_plan wp_outputModes]. by rewrite sort_with_Permutation.
Qed.

(** ** The settings of a path *)

(** A setting of a resource of a path. *)
Definition setting (path : CompiledDraftPath) (kind key : string) : jsval := assoc key (own_properties (assoc kind (ef_resources (dp_effectiveConfiguration path)))).
(** A text that may be missing. *)
Definition optional_setting (value : jsval) (o : option string) : Prop := match o with Some text => value = JString text ∧ text ≠ "" | None => truthy value = false end.
Definition is_false (value : jsval) : bool := match value with JBool b => negb b | _ => false end.

(** The settings a plan takes from the resources of a path; numbers as they are printed. *)
Record settings_of (path : CompiledDraftPath) (p : WorkflowSignalPlan) : Prop := mkSettingsOf {
  se_template : setting path "parser" "templateName" = JString (wp_templateName p);
  se_prompt : optional_setting (setting path "parser" "prompt") (wp_prompt p);
  se_timeout : normalizedJson (wp_timeoutMs p) = normalizedJson (Number (setting path "parser" "timeoutMs"));
  se_primary : optional_setting (setting path "parser" "primaryModel") (wp_primaryModel p);
  se_fallback : optional_setting (setting path "parser" "fallbackModel") (wp_fallbackModel p);
  se_schema : setting path "schema" "schemaId" = JString (wp_schemaId p);
  se_contract : setting path "contract" "contractVersionId" = JString (wp_contractVersionId p);
  se_enabled : wp_dedupe_enabled p = truthy (assoc "dedupe" (ef_resources (dp_effectiveConfiguration path))) && negb (is_false (setting path "dedupe" "enabled"));
  se_cooldown : normalizedJson (wp_dedupe_cooldownHours p) = normalizedJson (Number (or_default (setting path "dedupe" "cooldownHours") (JInt 24))) }.

(** Two plans with the same settings and paths with the same parser, schema and contract versions. *)
Record same_definition (path path' : CompiledDraftPath) (p q : WorkflowSignalPlan) : Prop := mkSameDefinition {
  sd_versions : dp_parserResourceVersionId path = dp_parserResourceVersionId path' ∧ dp_schemaResourceVersionId path = dp_schemaResourceVersionId path' ∧
    dp_contractResourceVersionId path = dp_contractResourceVersionId path';
  sd_texts : wp_templateName p = wp_templateName q ∧ wp_prompt p = wp_prompt q ∧ wp_primaryModel p = wp_primaryModel q ∧ wp_fallbackModel p = wp_fallbackModel q ∧
    wp_schemaId p = wp_schemaId q ∧ wp_contractVersionId p = wp_contractVersionId q;
  sd_timeout : normalizedJson (wp_timeoutMs p) = normalizedJson (wp_timeoutMs q);
  sd_dedupe : wp_dedupe_enabled p = wp_dedupe_enabled q ∧ normalizedJson (wp_dedupe_cooldownHours p) = normalizedJson (wp_dedupe_cooldownHours q) }.

Lemma definition_printable path p : numeric (wp_timeoutMs p) → numeric (wp_dedupe_cooldownHours p) → printable (definitionJson path p).
Proof.
  intros Ht%numeric_printable Hc%numeric_printable. unfold definitionJson. constructor. repeat constructor; cbn [snd]; try done;
    repeat match goal with |- context[match ?o with Some _ => _ | None => _ end] => destruct o end; repeat constructor; done.
Qed.

Lemma shown_version (o o' : option string) :
  shown (match o with Some id => JString id | None => JNull end) = shown (match o' with Some id => JString id | None => JNull end) ↔ o = o'.
Proof. destruct o, o'; cbn; split; congruence. Qed.
Lemma shown_given (o o' : option string) :
  shown (match o with Some id => JString id | None => JUndefined end) = shown (match o' with Some id => JString id | None => JUndefined end) ↔ o = o'.
Proof. destruct o, o'; cbn; split; congruence. Qed.
Lemma shown_string s s' : shown (JString s) = shown (JString s') ↔ s = s'.
Proof. cbn. split; congruence. Qed.
Lemma shown_bool b b' : shown (JBool b) = shown (JBool b') ↔ b = b'.
Proof. cbn. split; congruence. Qed.
Lemma shown_number v w : numeric v → numeric w → shown v = shown w ↔ normalizedJson v = normalizedJson w.
Proof. intros Hv Hw. apply shown_text; by (apply numeric_printable || apply numeric_defined). Qed.

(** The text that is hashed tells the settings. *)
Lemma same_text path path' p q : numeric (wp_timeoutMs p) → numeric (wp_timeoutMs q) → numeric (wp_dedupe_cooldownHours p) → numeric (wp_dedupe_cooldownHours q) →
  normalizedJson (definitionJson path p) = normalizedJson (definitionJson path' q) ↔ same_definition path path' p q.
Proof.
  intros Ht Ht' Hc Hc'. rewrite <-shown_text by (done || by apply definition_printable). unfold definitionJson.
  rewrite shown_object by (done || (vm_compute; repeat constructor; set_solver)). rewrite !Forall2_cons, Forall2_nil. cbn [snd].
  rewrite !shown_version, !shown_given, !shown_string, (shown_number _ _ Ht Ht').
  rewrite (shown_object [("enabled", _); _]) by (done || (vm_compute; repeat constructor; set_solver)). rewrite !Forall2_cons, Forall2_nil. cbn [snd].
  rewrite shown_bool, (shown_number _ _ Hc Hc'). split.
  - intros (? & ? & ? & ? & ? & ? & ? & ? & ? & ? & (? & ? & _) & _). constructor; done.
  - intros [(? & ? & ?) (? & ? & ? & ? & ? & ?) ? [? ?]]. done.
Qed.

Context (Hnumber : ∀ v, numeric (Number v)).

Lemma object_inv v label fields : object v label = Ok fields → v = JObject fields.
Proof. destruct v; try done. by intros [= ->]. Qed.

Lemma optional_read kind key path label (o : option (list (string * jsval))) :
  optional_object (assoc kind (ef_resources (dp_effectiveConfiguration path))) label = Ok o →
  setting path kind key = match o with Some fields => assoc key fields | None => JUndefined end ∧
  truthy (assoc kind (ef_resources (dp_effectiveConfiguration path))) = match o with Some _ => true | None => false end.
Proof.
  unfold optional_object, setting. destruct (truthy _) eqn:E; intros H.
  - destruct (assoc kind _); try done. by injection H as <-.
  - injection H as <-. split; [|done]. by destruct (assoc kind _).
Qed.

Lemma plan_mode path revision p : signalPlanForPath path revision = Ok p →
  ∃ mode, wp_outputModes p = [mode] ∧ or_default (setting path "output" "mode") (JString "audit_only") = JString mode.
Proof.
  unfold WorkflowPlans.signalPlanForPath. intros H. do 4 (apply bind_Ok in H as (? & _ & H)). apply bind_Ok in H as (output & Ho & H).
  do 6 (apply bind_Ok in H as (? & _ & H)). apply bind_Ok in H as (mode & Hm%requireString_inv & H). injection H as <-. exists mode. split; [done|].
  by rewrite (proj1 (optional_read _ "mode" _ _ _ Ho)).
Qed.

Lemma optional_string_inv v label o : optional_string v label = Ok o → optional_setting v o.
Proof.
  unfold optional_string. destruct (truthy v) eqn:E; [|by intros [= <-]]. destruct v; try done. intros [= <-]. split; [done|]. intros ->. done.
Qed.

Lemma plan_settings path revision p : signalPlanForPath path revision = Ok p →
  settings_of path p ∧ wp_key p = digest sha256 (definitionJson path p) ∧ numeric (wp_timeoutMs p) ∧ numeric (wp_dedupe_cooldownHours p).
Proof using Hnumber.
  unfold WorkflowPlans.signalPlanForPath. intros H. apply bind_Ok in H as (parser & Hparser%object_inv & H). apply bind_Ok in H as (schema & Hschema%object_inv & H).
  apply bind_Ok in H as (contract & Hcontract%object_inv & H). apply bind_Ok in H as (dedupe & Hdedupe & H). apply bind_Ok in H as (output & _ & H).
  apply bind_Ok in H as (template & Ht%requireString_inv & H). apply bind_Ok in H as (prompt & Hp%optional_string_inv & H).
  apply bind_Ok in H as (primary & H1%optional_string_inv & H). apply bind_Ok in H as (fallback & H2%optional_string_inv & H).
  apply bind_Ok in H as (schemaId & Hs%requireString_inv & H). apply bind_Ok in H as (contractId & Hc%requireString_inv & H).
  apply bind_Ok in H as (mode & _ & H). injection H as <-. split; [|split; [done|split; apply Hnumber]].
  assert (∀ key, setting path "dedupe" key = match dedupe with Some fields => assoc key fields | None => JUndefined end ∧
    truthy (assoc "dedupe" (ef_resources (dp_effectiveConfiguration path))) = match dedupe with Some _ => true | None => false end) as Hd.
  { intros key. by apply (optional_read _ key _ _ _ Hdedupe). }
  constructor; cbn [with_key wp_templateName wp_prompt wp_timeoutMs wp_primaryModel wp_fallbackModel wp_schemaId wp_contractVersionId wp_dedupe_enabled wp_dedupe_cooldownHours];
    unfold setting; rewrite ?Hparser, ?Hschema, ?Hcontract; try done.
  - rewrite (proj2 (Hd "")). fold (setting path "dedupe" "enabled"). rewrite (proj1 (Hd "enabled")). destruct dedupe as [fields|]; [|done]. destruct (assoc "enabled" fields) as [| |[]| | | | | |]; done.
  - fold (setting path "dedupe" "cooldownHours"). by rewrite (proj1 (Hd "cooldownHours")).
Qed.

Lemma same_key path path' revision revision' p q : Inj (=) (=) sha256 → signalPlanForPath path revision = Ok p → signalPlanForPath path' revision' = Ok q →
  wp_key p = wp_key q ↔ same_definition path path' p q.
Proof using Hnumber.
  intros Hinj Hp Hq. apply plan_settings in Hp as (_ & -> & Hp1 & Hp2). apply plan_settings in Hq as (_ & -> & Hq1 & Hq2).
  rewrite <-same_text by done. unfold digest. split; [apply Hinj|by intros ->].
Qed.

(** C39: the signal plans of a message partition the paths of the channel that are
    enabled and whose filters admit it, by what they ask of the parser.  Where
    digests do not collide and [Number] answers numbers, two such paths share a
    plan exactly when they have the same parser, schema and contract versions,
    template, prompt, time limit, models, schema, contract and duplicate
    settings.  A plan has those settings of every path it holds, exactly their
    identifiers and each of their output modes once; every such path has its
    plan, and no plan has another path. *)
Theorem signal_plans_partition tables channelId text contentType choice workflow plans : Inj (=) (=) sha256 →
  chosen_workflow tables choice = Ok (Some workflow) → getWorkflowSignalPlans tables channelId text contentType choice = Ok plans →
  let taking := filter (λ path, takes channelId text contentType path = true) (rv_paths workflow) in
  ∃ own, Forall2 (λ path p, signalPlanForPath path (rv_id workflow) = Ok p ∧ settings_of path p ∧ wp_executionPathIds p = [dp_id path] ∧
      wp_workflowRevisionId p = rv_id workflow ∧ ∃ mode, wp_outputModes p = [mode] ∧ or_default (setting path "output" "mode") (JString "audit_only") = JString mode) taking own ∧
    (∀ i j path path' p q, taking !! i = Some path → taking !! j = Some path' → own !! i = Some p → own !! j = Some q →
      wp_key p = wp_key q ↔ same_definition path path' p q) ∧
    NoDup (map wp_key plans) ∧ (∀ p, p ∈ own → wp_key p ∈ map wp_key plans) ∧
    ∀ plan, plan ∈ plans → ∃ first rest, plans_of (wp_key plan) own = first :: rest ∧ same_settings plan first ∧
      (∀ i path p, taking !! i = Some path → own !! i = Some p → wp_key p = wp_key plan → settings_of path plan) ∧
      wp_executionPathIds plan ≡ₚ concat (map wp_executionPathIds (first :: rest)) ∧ NoDup (wp_outputModes plan) ∧
      ∀ mode, mode ∈ wp_outputModes plan ↔ ∃ p, p ∈ first :: rest ∧ mode ∈ wp_outputModes p.
Proof using Hnumber.
  intros Hinj Hw H taking. destruct (plans_spec _ _ _ _ _ _ _ Hw H) as (own & Hown & Hd & Hin & Hall). fold taking in Hown. exists own.
  assert (∀ i path p, taking !! i = Some path → own !! i = Some p → signalPlanForPath path (rv_id workflow) = Ok p) as Hi by (intros i path p Ei Ep; exact (Forall2_lookup_lr _ _ _ _ _ _ Hown Ei Ep)).
  split_and!; [|intros i j path path' p q Ei Ej Ep Eq; by apply (same_key _ _ _ _ _ _ Hinj (Hi _ _ _ Ei Ep) (Hi _ _ _ Ej Eq))|done|done|].
  - eapply Forall2_impl; [exact Hown|]. intros path p Hp. split_and!; [done|exact (proj1 (plan_settings _ _ _ Hp))|exact (proj1 (plan_of_path _ _ _ Hp))|exact (proj1 (proj2 (plan_of_path _ _ _ Hp)))|exact (plan_mode _ _ _ Hp)].
  - intros plan Hplan. destruct (Hall plan Hplan) as (first & rest & E & Hs & Hrest). exists first, rest. split_and!; try done; try apply Hrest.
    intros i path p Ei Ep Hkey. assert (first ∈ plans_of (wp_key plan) own) as Hf by (rewrite E; left). apply list_elem_of_filter in Hf as [Hkf Hf].
    apply list_elem_of_lookup in Hf as [j Ej]. destruct (Forall2_lookup_r _ _ _ _ _ Hown Ej) as (path' & Ej' & _).
    assert (same_definition path path' p first) as Hsame by (apply (same_key _ _ _ _ _ _ Hinj (Hi _ _ _ Ei Ep) (Hi _ _ _ Ej' Ej)); congruence).
    destruct (plan_settings _ _ _ (Hi _ _ _ Ei Ep)) as ([S1 S2 S3 S4 S5 S6 S7 S8 S9] & _). destruct Hsame as [_ (T1 & T2 & T3 & T4 & T5 & T6) T7 [T8 T9]].
    destruct Hs as (_ & _ & U1 & U2 & U3 & U4 & U5 & U6 & U7 & U8 & U9).
    constructor; rewrite ?U1, ?U2, ?U3, ?U4, ?U5, ?U6, ?U7, ?U8, ?U9, <-?T1, <-?T2, <-?T3, <-?T4, <-?T5, <-?T6, <-?T7, <-?T8, <-?T9; done.
Qed.
End Plans.

(** ** Example: the paths of [sample_workflow]; the second account of each chain is not ready *)
Definition sample_paths : gmap string WorkflowPathRow :=
  list_to_map (map (λ p, (dp_id p, mkPathRow "revision" p)) (cw_paths sample_workflow)).
Definition sample_workflows : WorkflowTables := mkWorkflows {[ "revision" := cw_routeGroups sample_workflow ]} sample_paths (Some "revision").
Definition sample_revision : WorkflowRevision := Eval vm_compute in match getActiveWorkflow sample_workflows with Some w => w | None => mkRevision "" [] [] end.
Definition sample_plans : result (list WorkflowSignalPlan) :=
  getWorkflowSignalPlans literal_RegExp literal_test sample_Number id code_order sample_workflows "-100" "BTC LONG" "text" revision_active.
Definition sample_plan : WorkflowSignalPlan := Eval vm_compute in match sample_plans with
  | Ok [p] => p | _ => mkPlan "" "" [] "" None JNull None None "" "" false JNull [] end.

Lemma sample_plans_one : sample_plans = Ok [sample_plan].
Proof. vm_compute. reflexivity. Qed.

(** [Number] of integers. *)
Definition integer_Number (v : jsval) : jsval := match v with JInt z => JInt z | _ => JNaN end.

Lemma sample_plans_integer : getWorkflowSignalPlans literal_RegExp literal_test integer_Number id code_order sample_workflows "-100" "BTC LONG" "text" revision_active = Ok [sample_plan].
Proof. vm_compute. reflexivity. Qed.

Lemma signal_plans_partition_witness : wp_executionPathIds sample_plan = ["path-0"] ∧ wp_outputModes sample_plan = ["telegram_xml"] ∧
  NoDup (wp_outputModes sample_plan).
Proof.
  assert (chosen_workflow sample_workflows revision_active = Ok (Some sample_revision)) as Hw by (vm_compute; reflexivity).
  assert (∀ v, numeric (integer_Number v)) as Hn by (intros []; exact I).
  destruct (signal_plans_partition literal_RegExp literal_test integer_Number id code_order Hn sample_workflows "-100" "BTC LONG" "text" revision_active sample_revision [sample_plan]
    (λ s t E, E) Hw sample_plans_integer) as (own & _ & _ & _ & _ & Hp).
  destruct (Hp sample_plan ltac:(left)) as (first & rest & _ & _ & _ & _ & Hd & _).
  split; [vm_compute; reflexivity|]. split; [vm_compute; reflexivity|]. exact Hd.
Defined.
