(* ===== verification/WorkflowRuns.v ===== *)
(** WorkflowRuns: the runs of a workflow, from [src/workflow_repository.ts]: the
    intents a signal creates ([createWorkflowTradingIntents]) and the fallback
    runs that try the accounts of a chain one after the other
    ([advanceWorkflowFallbackOnEligibleFailure], [markWorkflowFallbackSelected],
    [stopWorkflowFallback]).

    [RunsDb] holds the tables that these functions write, by their primary keys; a
    statement that violates a key or a unique index throws.  What they only read,
    the workflow tables, the accounts and the runtime state, is a [Config], which
    may differ at every call.  Every operation is a transaction: a throw leaves the
    tables as they were.  [uuid n] is the [n]-th identifier drawn. *)

From S2P Require Import Prelude Text Json Maps Types Orders Filters Workflow WorkflowTopology WorkflowFallback WorkflowCompile WorkflowPlans.
From Stdlib Require Ascii String.
Local Open Scope Z_scope.
Local Open Scope ts_scope.
Set Default Proof Using "Type".

(** ** Tables *)
Record TradingIntent := mkIntent {
  ti_sourceSignalId : string;
  ti_rootSourceSignalId : string;
  ti_signalRunId : string;
  ti_workflowRevisionId : string;
  ti_executionPathId : string;
  ti_channelId : string;
  ti_strategyVersionId : string;
  ti_accountId : string;
  ti_exchange : string;
  ti_mode : TradingAccountMode;
  ti_symbol : string;
  ti_side : TradingSide;
  ti_status : TradingIntentStatus;
  ti_signal : ExecutableSignal;
  ti_blockReason : option string;
  ti_error : option string;
  ti_createdAt : Z;
  ti_updatedAt : Z }.

Inductive SignalRunStatus := sr_running | sr_completed | sr_partially_blocked | sr_blocked.
#[export] Instance signal_run_status_eq_dec : EqDecision SignalRunStatus.
Proof. solve_decision. Defined.

Record WorkflowSignalRun := mkSignalRun {
  su_sourceSignalId : string;
  su_workflowRevisionId : string;
  su_channelId : string;
  su_status : SignalRunStatus;
  su_inputSha256 : string;
  su_result : option (list (string * jsval));
  su_createdAt : Z;
  su_completedAt : option Z }.

Inductive FallbackRunStatus := probing | selected | exhausted | stopped.
#[export] Instance fallback_run_status_eq_dec : EqDecision FallbackRunStatus.
Proof. solve_decision. Defined.
Definition run_status_text (status : FallbackRunStatus) : string :=
  match status with probing => "probing" | selected => "selected" | exhausted => "exhausted" | stopped => "stopped" end.

Record FallbackRun := mkRun {
  fr_sourceSignalId : string;
  fr_workflowRevisionId : string;
  fr_signalRunId : string;
  fr_routeGroupKey : string;
  fr_channelId : string;
  fr_status : FallbackRunStatus;
  fr_currentRank : nat;
  fr_selectedIntentId : option string;
  fr_stopReason : option string;
  fr_createdAt : Z;
  fr_updatedAt : Z;
  fr_completedAt : option Z }.

Inductive CandidateStatus := c_waiting | c_pending | c_unavailable | c_selected | c_stopped.
#[export] Instance candidate_status_eq_dec : EqDecision CandidateStatus.
Proof. solve_decision. Defined.

Record FallbackCandidate := mkFallbackCandidate {
  fc_executionPathId : string;
  fc_accountId : string;
  fc_intentId : option string;
  fc_status : CandidateStatus;
  fc_errorCode : option string;
  fc_details : option jsval;
  fc_fallbackOn : list WorkflowFallbackReason;
  fc_createdAt : Z;
  fc_updatedAt : Z }.

Record RunsDb := mkRuns {
  rd_intents : gmap string TradingIntent;
  rd_signalRuns : gmap string WorkflowSignalRun;
  rd_fallbackRuns : gmap string FallbackRun;
  rd_candidates : gmap (string * nat) FallbackCandidate;
  rd_drawn : nat }.

Definition with_intents (m : gmap string TradingIntent) (db : RunsDb) : RunsDb := mkRuns m (rd_signalRuns db) (rd_fallbackRuns db) (rd_candidates db) (rd_drawn db).
Definition with_signalRuns (m : gmap string WorkflowSignalRun) (db : RunsDb) : RunsDb := mkRuns (rd_intents db) m (rd_fallbackRuns db) (rd_candidates db) (rd_drawn db).
Definition with_fallbackRuns (m : gmap string FallbackRun) (db : RunsDb) : RunsDb := mkRuns (rd_intents db) (rd_signalRuns db) m (rd_candidates db) (rd_drawn db).
Definition with_candidates (m : gmap (string * nat) FallbackCandidate) (db : RunsDb) : RunsDb := mkRuns (rd_intents db) (rd_signalRuns db) (rd_fallbackRuns db) m (rd_drawn db).
Definition draw (db : RunsDb) : RunsDb := mkRuns (rd_intents db) (rd_signalRuns db) (rd_fallbackRuns db) (rd_candidates db) (S (rd_drawn db)).

(** The rows that the functions read. *)
Record AccountRow := mkAccount { ac_status : string; ac_enabled : Z; ac_killSwitchActive : Z; ac_exchange : string; ac_mode : TradingAccountMode }.
Record RuntimeRow := mkRuntime { rt_executionEnabled : Z; rt_liveTradingEnabled : Z; rt_killSwitchActive : Z }.
Record Config := mkConfig { cf_workflows : WorkflowTables; cf_accounts : gmap string AccountRow; cf_runtime : option RuntimeRow }.

(** ** Statements *)
Definition set_intent_status (status : TradingIntentStatus) (blockReason error : option string) (now : Z) (i : TradingIntent) : TradingIntent :=
  mkIntent (ti_sourceSignalId i) (ti_rootSourceSignalId i) (ti_signalRunId i) (ti_workflowRevisionId i) (ti_executionPathId i) (ti_channelId i) (ti_strategyVersionId i)
    (ti_accountId i) (ti_exchange i) (ti_mode i) (ti_symbol i) (ti_side i) status (ti_signal i) blockReason error (ti_createdAt i) now.

Definition set_candidate (status : CandidateStatus) (errorCode : option string) (details : option jsval) (now : Z) (c : FallbackCandidate) : FallbackCandidate :=
  mkFallbackCandidate (fc_executionPathId c) (fc_accountId c) (fc_intentId c) status errorCode details (fc_fallbackOn c) (fc_createdAt c) now.

Definition set_run (status : FallbackRunStatus) (currentRank : nat) (selectedIntentId stopReason : option string) (now : Z) (completedAt : option Z) (r : FallbackRun) : FallbackRun :=
  mkRun (fr_sourceSignalId r) (fr_workflowRevisionId r) (fr_signalRunId r) (fr_routeGroupKey r) (fr_channelId r) status currentRank selectedIntentId stopReason
    (fr_createdAt r) now completedAt.

(** [UPDATE trading_fallback_candidates SET ... WHERE fallback_run_id = runId AND p] *)
Definition update_candidates (runId : string) (p : nat → FallbackCandidate → bool) (f : FallbackCandidate → FallbackCandidate) (db : RunsDb) : RunsDb :=
  with_candidates (map_imap (λ key c, Some (if bool_decide (key.1 = runId) && p key.2 c then f c else c)) (rd_candidates db)) db.

Definition at_rank (rank : nat) (i : nat) (_ : FallbackCandidate) : bool := bool_decide (i = rank).
Definition has_status (statuses : list CandidateStatus) (_ : nat) (c : FallbackCandidate) : bool := existsb (λ status, bool_decide (fc_status c = status)) statuses.

(** [UPDATE trading_fallback_runs SET ... WHERE id = runId] *)
Definition update_run (runId : string) (f : FallbackRun → FallbackRun) (db : RunsDb) : RunsDb := with_fallbackRuns (alter f runId (rd_fallbackRuns db)) db.

Definition constraint {A} (table : string) : result A := throw ("SQLITE_CONSTRAINT: UNIQUE constraint failed: " +:+ table).

(** [INSERT INTO trading_trade_intents]: unique by [id] and by
    [(root_source_signal_id, execution_path_id)]. *)
Definition insert_intent (id : string) (i : TradingIntent) (db : RunsDb) : result RunsDb :=
  if bool_decide (id ∈ dom (rd_intents db)) ||
     existsb (λ row : string * TradingIntent, bool_decide (ti_rootSourceSignalId row.2 = ti_rootSourceSignalId i) && bool_decide (ti_executionPathId row.2 = ti_executionPathId i))
       (map_to_list (rd_intents db))
  then constraint "trading_trade_intents" else Ok (with_intents (<[id := i]> (rd_intents db)) db).

Definition with_intent (intentId : string) (c : FallbackCandidate) : FallbackCandidate :=
  mkFallbackCandidate (fc_executionPathId c) (fc_accountId c) (Some intentId) (fc_status c) (fc_errorCode c) (fc_details c) (fc_fallbackOn c) (fc_createdAt c) (fc_updatedAt c).

(** [UPDATE trading_fallback_candidates SET intent_id = ...], unique by [intent_id]. *)
Definition assign_intent (runId : string) (rank : nat) (intentId : string) (f : FallbackCandidate → FallbackCandidate) (db : RunsDb) : result RunsDb :=
  if existsb (λ row : (string * nat) * FallbackCandidate, bool_decide (fc_intentId row.2 = Some intentId) && negb (bool_decide (row.1 = (runId, rank))))
       (map_to_list (rd_candidates db))
  then constraint "trading_fallback_candidates.intent_id" else
  Ok (update_candidates runId (at_rank rank) (λ c, with_intent intentId (f c)) db).

(** The first row of a table that satisfies a condition. *)
Definition find_row {K V} `{Countable K} (p : K → V → bool) (m : gmap K V) : option (K * V) := head (filter (λ row : K * V, p row.1 row.2 = true) (map_to_list m)).

(** The candidates of a run by their rank, of those that satisfy a condition. *)
Definition candidates_of (runId : string) (p : nat → FallbackCandidate → bool) (db : RunsDb) : list (nat * FallbackCandidate) :=
  sort_by (λ row, Z.of_nat row.1)
    (map (λ row : (string * nat) * FallbackCandidate, (row.1.2, row.2))
       (filter (λ row : (string * nat) * FallbackCandidate, bool_decide (row.1.1 = runId) && p row.1.2 row.2 = true) (map_to_list (rd_candidates db)))).

(** ** Intents *)
Record WorkflowIntentInput := mkRequest {
  rq_sourceSignalId : string;
  rq_channelId : string;
  rq_sourceText : string;
  rq_signal : ExecutableSignal;
  rq_executionPathIds : option (list string);
  rq_contentType : option string;
  rq_workflowRevisionId : string;
  rq_receivedAt : option Z }.

Abbreviation Branch := (list (string * jsval)).
Abbreviation Intent := (string * TradingIntent)%type.

Definition isWorkflowExecutionAuthorized (config : Config) (executionPathId : string) : bool :=
  match wf_paths (cf_workflows config) !! executionPathId, getActiveWorkflow (cf_workflows config) with
  | Some row, Some active =>
      let original := pt_path row in
      dp_enabled original &&
      existsb (λ candidate, dp_enabled candidate && bool_decide (dp_channelId candidate = dp_channelId original)
        && bool_decide (dp_accountId candidate = dp_accountId original) && bool_decide (dp_nodeIds candidate = dp_nodeIds original)) (rv_paths active)
  | _, _ => false
  end.

Definition account_ready (account : AccountRow) : bool := bool_decide (ac_status account = "ready") && (ac_enabled account =? 1).

Definition workflowIntentBlockReason (path : CompiledDraftPath) (account : option AccountRow) (runtime : option RuntimeRow) : result (option string) :=
  match account with
  | None => Ok (Some "ACCOUNT_NOT_READY")
  | Some account =>
      if negb (dp_enabled path && account_ready account) then Ok (Some "ACCOUNT_NOT_READY")
      else if ac_killSwitchActive account =? 1 then Ok (Some "ACCOUNT_KILL_SWITCH_ACTIVE")
      else
        match runtime with
        | None => throw "Cannot read properties of undefined (reading kill_switch_active)"
        | Some runtime =>
            Ok (if rt_killSwitchActive runtime =? 1 then Some "KILL_SWITCH_ACTIVE"
                else if negb (rt_executionEnabled runtime =? 1) then Some "EXECUTION_DISABLED"
                else if bool_decide (ac_mode account = mode_live) && negb (rt_liveTradingEnabled runtime =? 1) then Some "LIVE_TRADING_DISABLED" else None)
        end
  end.

Definition blockReasonFor (config : Config) (path : CompiledDraftPath) : result (option string) :=
  if isWorkflowExecutionAuthorized config (dp_id path) then workflowIntentBlockReason path (cf_accounts config !! dp_accountId path) (cf_runtime config)
  else Ok (Some "WORKFLOW_EXECUTION_REVOKED").

Definition intent_status (blockReason : option string) : TradingIntentStatus := match blockReason with Some _ => intent_blocked | None => intent_pending end.
Definition status_text (blockReason : option string) : string := match blockReason with Some _ => "blocked" | None => "pending" end.
Definition nullable (o : option string) : jsval := match o with Some s => JString s | None => JNull end.

Section Runs.
Context {RegExp : Type} (new_RegExp : string → string → result RegExp) (regex_test : RegExp → string → result bool).
Context (sha256 : string → string) (uuid : nat → string).
Abbreviation pathAllowsInput := (pathAllowsInput new_RegExp regex_test).

Definition allows (path : CompiledDraftPath) (request : WorkflowIntentInput) : result (option string) :=
  pathAllowsInput path (rq_sourceText request) (rq_contentType request ?? "text").

Definition processWorkflowIntentPath (config : Config) (request : WorkflowIntentInput) (path : CompiledDraftPath) (runId : string) (now : Z) (db : RunsDb) :
    result ((option Intent * option Branch) * RunsDb) :=
  filtered ← allows path request;
  match filtered with
  | Some reason => Ok ((None, Some [("pathId", JString (dp_id path)); ("status", JString "filtered"); ("reason", JString reason)]), db)
  | None =>
      match find_row (λ _ i, bool_decide (ti_rootSourceSignalId i = rq_sourceSignalId request) && bool_decide (ti_executionPathId i = dp_id path)) (rd_intents db) with
      | Some existing => Ok ((Some existing, None), db)
      | None =>
          blockReason ← blockReasonFor config path;
          account ← or_throw (cf_accounts config !! dp_accountId path) "Cannot read properties of undefined (reading exchange)";
          let id := uuid (rd_drawn db) in
          let intent := mkIntent (rq_sourceSignalId request) (rq_sourceSignalId request) runId (rq_workflowRevisionId request) (dp_id path) (rq_channelId request)
            (dp_strategyVersionId path) (dp_accountId path) (ac_exchange account) (ac_mode account) (sig_symbol (rq_signal request)) (sig_action (rq_signal request))
            (intent_status blockReason) (rq_signal request) blockReason None (rq_receivedAt request ?? now) now in
          db ← insert_intent id intent (draw db);
          Ok ((Some (id, intent), Some [("pathId", JString (dp_id path)); ("intentId", JString id); ("status", JString (status_text blockReason)); ("blockReason", nullable blockReason)]), db)
      end
  end.

(** ** Fallback runs *)
Definition run_for (request : WorkflowIntentInput) (group : WorkflowRouteGroup) (_ : string) (r : FallbackRun) : bool :=
  bool_decide (fr_sourceSignalId r = rq_sourceSignalId request) && bool_decide (fr_workflowRevisionId r = rq_workflowRevisionId request)
  && bool_decide (fr_routeGroupKey r = rg_key group).

(** [INSERT OR IGNORE INTO trading_fallback_runs] *)
Definition insert_run (request : WorkflowIntentInput) (group : WorkflowRouteGroup) (runId : string) (now : Z) (db : RunsDb) : RunsDb :=
  let id := uuid (rd_drawn db) in
  let db := draw db in
  match rd_fallbackRuns db !! id, find_row (run_for request group) (rd_fallbackRuns db) with
  | None, None =>
      with_fallbackRuns (<[id := mkRun (rq_sourceSignalId request) (rq_workflowRevisionId request) runId (rg_key group) (rq_channelId request) probing 0 None None
        (rq_receivedAt request ?? now) now None]> (rd_fallbackRuns db)) db
  | _, _ => db
  end.

(** [INSERT OR IGNORE INTO trading_fallback_candidates] *)
Definition insert_candidate (runId : string) (now : Z) (db : RunsDb) (item : WorkflowRouteCandidate * CompiledDraftPath) : RunsDb :=
  let '(candidate, path) := item in
  match rd_candidates db !! (runId, rc_rank candidate), candidates_of runId (λ _ c, bool_decide (fc_executionPathId c = dp_id path)) db with
  | None, [] =>
      with_candidates (<[(runId, rc_rank candidate) := mkFallbackCandidate (dp_id path) (dp_accountId path) None c_waiting None None (rc_fallbackOn candidate) now now]>
        (rd_candidates db)) db
  | _, _ => db
  end.

Definition path_by_id (workflow : WorkflowRevision) (id : string) : option CompiledDraftPath := last (filter (λ path, dp_id path = id) (rv_paths workflow)).

Definition ordered_candidates (workflow : WorkflowRevision) (group : WorkflowRouteGroup) : list (WorkflowRouteCandidate * CompiledDraftPath) :=
  sort_by (λ item : WorkflowRouteCandidate * CompiledDraftPath, Z.of_nat (rc_rank item.1))
    (omap (λ candidate, pair candidate <$> path_by_id workflow (rc_pathId candidate)) (rg_candidates group)).

(** The intents of a run, by rank. *)
Definition run_intents (runId : string) (db : RunsDb) : list Intent :=
  omap (λ row : nat * FallbackCandidate, id ← fc_intentId row.2; intent ← rd_intents db !! id; Some (id, intent)) (candidates_of runId (λ _ _, true) db).

(** The primary candidate was blocked: the chain stops. *)
Definition stop_primary (runId : string) (blockReason : option string) (now : Z) (db : RunsDb) : RunsDb :=
  let reason := match blockReason with Some r => if bool_decide (r = "") then "PRIMARY_ROUTE_BLOCKED" else r | None => "PRIMARY_ROUTE_BLOCKED" end in
  update_candidates runId (has_status [c_waiting]) (λ c, set_candidate c_stopped (Some "PRIMARY_ROUTE_BLOCKED") (fc_details c) now c)
    (update_run runId (λ r, set_run stopped (fr_currentRank r) (fr_selectedIntentId r) (Some reason) now (Some now) r) db).

Definition persistFallbackRouteGroup (config : Config) (request : WorkflowIntentInput) (workflow : WorkflowRevision) (group : WorkflowRouteGroup) (runId : string) (now : Z)
    (db : RunsDb) : result ((list Intent * list Branch) * RunsDb) :=
  match ordered_candidates workflow group with
  | ((_, primary) :: _ :: _) as ordered =>
      if negb (length ordered =? length (rg_candidates group))%nat then throw "Compiled fallback route group is incomplete."
      else
        let db := insert_run request group runId now db in
        '(fallbackRunId, _) ← or_throw (find_row (run_for request group) (rd_fallbackRuns db)) "Fallback run could not be persisted.";
        let db := fold_left (insert_candidate fallbackRunId now) ordered db in
        match run_intents fallbackRunId db with
        | (_ :: _) as existing => Ok ((existing, []), db)
        | [] =>
            '((intent, branch), db) ← processWorkflowIntentPath config request primary runId now db;
            match intent with
            | None => Ok (([], match branch with Some b => [b] | None => [] end), db)
            | Some (intentId, i) =>
                let pending := bool_decide (ti_status i = intent_pending) in
                db ← assign_intent fallbackRunId 0 intentId
                  (λ c, set_candidate (if pending then c_pending else c_stopped) (ti_blockReason i) (fc_details c) now c) db;
                let db := if pending then db else stop_primary fallbackRunId (ti_blockReason i) now db in
                Ok (([(intentId, i)], [(branch ?? []) ++ [("routeGroupKey", JString (rg_key group)); ("candidateCount", JInt (Z.of_nat (length ordered)));
                  ("mode", JString "ordered_account_fallback")]]), db)
            end
        end
  | _ => throw "Compiled fallback route group is incomplete."
  end.

(** ** The run of a signal *)
Definition workflowRunStatus (results : list Intent) (branches : list Branch) : SignalRunStatus :=
  if negb (existsb (λ i : Intent, bool_decide (ti_status i.2 = intent_pending)) results) then sr_blocked
  else if existsb (λ i : Intent, bool_decide (ti_status i.2 = intent_blocked)) results || existsb (λ b, is_text "filtered" (assoc "status" b)) branches
  then sr_partially_blocked else sr_completed.

Definition fallbackRunStatus (probing blocked selected : bool) : SignalRunStatus :=
  if probing then sr_running else if blocked && selected then sr_partially_blocked else if blocked then sr_blocked else sr_completed.

(** The fallback runs of a signal run, by the key of their route group. *)
Definition runs_of (signalRunId : string) (db : RunsDb) : list FallbackRun :=
  sort_text fr_routeGroupKey (map snd (filter (λ row : string * FallbackRun, fr_signalRunId row.2 = signalRunId) (map_to_list (rd_fallbackRuns db)))).

Definition runJson (r : FallbackRun) : jsval :=
  JObject [("routeGroupKey", JString (fr_routeGroupKey r)); ("status", JString (run_status_text (fr_status r))); ("currentRank", JInt (Z.of_nat (fr_currentRank r)));
    ("stopReason", nullable (fr_stopReason r))].

Definition set_signal_run (status : SignalRunStatus) (res : list (string * jsval)) (completedAt : option Z) (s : WorkflowSignalRun) : WorkflowSignalRun :=
  mkSignalRun (su_sourceSignalId s) (su_workflowRevisionId s) (su_channelId s) status (su_inputSha256 s) (Some (own_properties (sort_keys (JObject res)))) (su_createdAt s) completedAt.

Definition any_run (status : FallbackRunStatus) (runs : list FallbackRun) : bool := existsb (λ r, bool_decide (fr_status r = status)) runs.

Definition refreshWorkflowSignalRunFromFallback (fallbackRunId : string) (now : Z) (db : RunsDb) : RunsDb :=
  match rd_fallbackRuns db !! fallbackRunId with
  | None => db
  | Some fallbackRun =>
      let runs := runs_of (fr_signalRunId fallbackRun) db in
      let status := fallbackRunStatus (any_run probing runs) (any_run exhausted runs || any_run stopped runs) (any_run selected runs) in
      with_signalRuns
        (alter (λ s, set_signal_run status (override (su_result s ?? []) [("fallbackRuns", JArray (map runJson runs))]) (if any_run probing runs then None else Some now) s)
           (fr_signalRunId fallbackRun) (rd_signalRuns db)) db
  end.

Definition signal_run_for (request : WorkflowIntentInput) (_ : string) (s : WorkflowSignalRun) : bool :=
  bool_decide (su_sourceSignalId s = rq_sourceSignalId request) && bool_decide (su_workflowRevisionId s = rq_workflowRevisionId request).

(** [INSERT OR IGNORE INTO workflow_signal_runs] *)
Definition insert_signal_run (request : WorkflowIntentInput) (now : Z) (db : RunsDb) : RunsDb :=
  let id := uuid (rd_drawn db) in
  let db := draw db in
  match rd_signalRuns db !! id, find_row (signal_run_for request) (rd_signalRuns db) with
  | None, None =>
      with_signalRuns (<[id := mkSignalRun (rq_sourceSignalId request) (rq_workflowRevisionId request) (rq_channelId request) sr_running
        (digest sha256 (JString (rq_sourceText request))) None (rq_receivedAt request ?? now) None]> (rd_signalRuns db)) db
  | _, _ => db
  end.

Definition with_receivedAt (receivedAt : Z) (request : WorkflowIntentInput) : WorkflowIntentInput :=
  mkRequest (rq_sourceSignalId request) (rq_channelId request) (rq_sourceText request) (rq_signal request) (rq_executionPathIds request) (rq_contentType request)
    (rq_workflowRevisionId request) (Some receivedAt).

(** One turn of the loop over the route groups. *)
Definition persist_group (config : Config) (request : WorkflowIntentInput) (workflow : WorkflowRevision) (runId : string) (now : Z)
    (acc : (list Intent * list Branch) * RunsDb) (group : WorkflowRouteGroup) : result ((list Intent * list Branch) * RunsDb) :=
  let '((results, branches), db) := acc in
  primary ← or_throw (path_by_id workflow (rg_primaryPathId group)) "Compiled workflow route group references a missing primary path.";
  filtered ← allows primary request;
  match filtered with
  | Some reason =>
      Ok ((results, branches ++ [[("routeGroupKey", JString (rg_key group)); ("pathId", JString (dp_id primary)); ("status", JString "filtered"); ("reason", JString reason)]]), db)
  | None =>
      if (1 <? length (rg_candidates group))%nat then
        '((intents, more), db) ← persistFallbackRouteGroup config request workflow group runId now db;
        Ok ((results ++ intents, branches ++ more), db)
      else
        '((intent, branch), db) ← processWorkflowIntentPath config request primary runId now db;
        Ok ((results ++ option_list intent, branches ++ option_list branch), db)
  end.

Definition persistWorkflowTradingIntents (config : Config) (request : WorkflowIntentInput) (workflow : WorkflowRevision) (groups : list WorkflowRouteGroup) (now : Z) (db : RunsDb) :
    result (list Intent * RunsDb) :=
  let db := insert_signal_run request now db in
  '(runId, run) ← or_throw (find_row (signal_run_for request) (rd_signalRuns db)) "Created workflow signal run is missing.";
  let request := with_receivedAt (su_createdAt run) request in
  '((results, branches), db) ← fold_result (persist_group config request workflow runId now) (([], []), db) groups;
  let db := with_signalRuns (alter (set_signal_run (workflowRunStatus results branches) [("branches", JArray (map JObject branches))] (Some now)) runId (rd_signalRuns db)) db in
  let probingFallback := find_row (λ _ r, bool_decide (fr_signalRunId r = runId) && bool_decide (fr_status r = probing)) (rd_fallbackRuns db) in
  Ok (results, match probingFallback with Some (id, _) => refreshWorkflowSignalRunFromFallback id now db | None => db end).

(** The groups a request selects; [None]: it selects no path. *)
Definition requested_groups (request : WorkflowIntentInput) (workflow : WorkflowRevision) : result (option (list WorkflowRouteGroup)) :=
  let channelPaths := map dp_id (filter (λ path, dp_channelId path = rq_channelId request) (rv_paths workflow)) in
  let requestedPaths := set_values <$> rq_executionPathIds request in
  let selectedPaths := match requestedPaths with Some requested => filter (λ id, id ∈ requested) channelPaths | None => channelPaths end in
  let groups := filter (λ group, rg_channelId group = rq_channelId request ∧ Exists (λ c, rc_pathId c ∈ selectedPaths) (rg_candidates group)) (rv_routeGroups workflow) in
  match requestedPaths with
  | None => Ok (if bool_decide (selectedPaths = []) then None else Some groups)
  | Some requested =>
      if negb (length selectedPaths =? length requested)%nat then throw "Workflow execution path selection is stale or invalid."
      else if bool_decide (selectedPaths = []) then Ok None
      else if bool_decide (Exists (λ group, Exists (λ c, rc_pathId c ∉ requested) (rg_candidates group)) groups)
      then throw "Workflow execution path selection is stale or invalid because a fallback chain is incomplete."
      else Ok (Some groups)
  end.

Definition createWorkflowTradingIntents (config : Config) (request : WorkflowIntentInput) (now : Z) (db : RunsDb) : result (list Intent * RunsDb) :=
  if bool_decide (rq_workflowRevisionId request = "") then throw "Pinned workflow revision is required; review required."
  else
    workflow ← or_throw (getWorkflowRevisionById (cf_workflows config) (rq_workflowRevisionId request)) "Pinned workflow revision is missing; review required.";
    groups ← requested_groups request workflow;
    match groups with
    | None => Ok ([], db)
    | Some groups => persistWorkflowTradingIntents config request workflow groups now db
    end.

(** ** Moving a fallback run *)
Record WorkflowFallbackAdvanceResult := mkAdvance {
  fa_advanced : bool;
  fa_runId : string;
  fa_fromAccountId : string;
  fa_toAccountId : option string;
  fa_reason : WorkflowFallbackReason }.

(** The candidate of an intent with its run: [FallbackCurrentRow]. *)
Record FallbackCurrentRow := mkCurrent { cu_runId : string; cu_rank : nat; cu_run : FallbackRun; cu_candidate : FallbackCandidate }.

Definition current_row (intentId : string) (db : RunsDb) : option FallbackCurrentRow :=
  '((runId, rank), candidate) ← find_row (λ _ c, bool_decide (fc_intentId c = Some intentId)) (rd_candidates db);
  run ← rd_fallbackRuns db !! runId;
  Some (mkCurrent runId rank run candidate).

(** The next candidate, with its path: the rows that the joins find. *)
Record FallbackNextRow := mkNext { nx_rank : nat; nx_accountId : string; nx_path : CompiledDraftPath }.

Definition joins (config : Config) (c : FallbackCandidate) : bool :=
  bool_decide (is_Some (wf_paths (cf_workflows config) !! fc_executionPathId c)) && bool_decide (is_Some (cf_accounts config !! fc_accountId c)).

Definition next_row (config : Config) (current : FallbackCurrentRow) (db : RunsDb) : option FallbackNextRow :=
  '(rank, candidate) ← head (candidates_of (cu_runId current) (λ rank c, bool_decide (cu_rank current < rank)%nat && joins config c) db);
  row ← wf_paths (cf_workflows config) !! fc_executionPathId candidate;
  Some (mkNext rank (fc_accountId candidate) (pt_path row)).

(** The run of the intent is probing, and the intent is the one it tries. *)
Definition is_current (current : FallbackCurrentRow) : bool :=
  bool_decide (fr_status (cu_run current) = probing) && bool_decide (fr_currentRank (cu_run current) = cu_rank current).

Definition fallbackAdvanceResult (current : FallbackCurrentRow) (toAccountId : option string) (reason : WorkflowFallbackReason) (advanced : bool) : WorkflowFallbackAdvanceResult :=
  mkAdvance advanced (cu_runId current) (fc_accountId (cu_candidate current)) toAccountId reason.

Definition detailsJson (msg : string) (intent : TradingIntent) (policy : option (list WorkflowFallbackReason)) : jsval :=
  sort_keys (JObject ([("message", JString msg); ("symbol", JString (ti_symbol intent))] ++ match policy with Some p => [("policy", reasonsJson p)] | None => [] end)).

(** [UPDATE ... SET status, error_code, details_json] of the current candidate. *)
Definition leave_candidate (current : FallbackCurrentRow) (status : CandidateStatus) (reason : WorkflowFallbackReason) (details : jsval) (now : Z) (db : RunsDb) : RunsDb :=
  update_candidates (cu_runId current) (at_rank (cu_rank current)) (set_candidate status (Some (reason_text reason)) (Some details) now) db.

(** [UPDATE ... SET status = 'stopped', error_code WHERE status IN statuses] *)
Definition stop_candidates (runId : string) (statuses : list CandidateStatus) (errorCode : option string) (now : Z) (db : RunsDb) : RunsDb :=
  update_candidates runId (has_status statuses) (λ c, set_candidate c_stopped errorCode (fc_details c) now c) db.

(** [UPDATE trading_fallback_runs SET status, stop_reason, completed_at] *)
Definition finish_run (runId : string) (status : FallbackRunStatus) (stopReason : option string) (now : Z) (db : RunsDb) : RunsDb :=
  update_run runId (λ r, set_run status (fr_currentRank r) (fr_selectedIntentId r) stopReason now (Some now) r) db.

Definition exhaustFallbackRun (current : FallbackCurrentRow) (intent : TradingIntent) (reason : WorkflowFallbackReason) (msg : string) (now : Z) (db : RunsDb) :
    WorkflowFallbackAdvanceResult * RunsDb :=
  let db := leave_candidate current c_unavailable reason (detailsJson msg intent None) now db in
  let db := finish_run (cu_runId current) exhausted (Some (reason_text reason)) now db in
  (fallbackAdvanceResult current None reason false, refreshWorkflowSignalRunFromFallback (cu_runId current) now db).

Definition stopDisallowedFallback (current : FallbackCurrentRow) (next : FallbackNextRow) (intent : TradingIntent) (reason : WorkflowFallbackReason) (msg : string)
    (policy : list WorkflowFallbackReason) (now : Z) (db : RunsDb) : WorkflowFallbackAdvanceResult * RunsDb :=
  let db := leave_candidate current c_stopped reason (detailsJson msg intent (Some policy)) now db in
  let db := stop_candidates (cu_runId current) [c_waiting] (Some (reason_text reason)) now db in
  let db := finish_run (cu_runId current) stopped (Some (reason_text reason)) now db in
  (fallbackAdvanceResult current (Some (nx_accountId next)) reason false, refreshWorkflowSignalRunFromFallback (cu_runId current) now db).

(** The intent of the next candidate, and why it is blocked. *)
Definition insertPromotedFallbackIntent (config : Config) (current : FallbackCurrentRow) (next : FallbackNextRow) (intent : TradingIntent) (now : Z) (db : RunsDb) :
    result ((string * option string) * RunsDb) :=
  let path := nx_path next in
  blockReason ← blockReasonFor config path;
  account ← or_throw (cf_accounts config !! dp_accountId path) "Cannot read properties of undefined (reading exchange)";
  let id := uuid (rd_drawn db) in
  db ← insert_intent id (mkIntent (ti_sourceSignalId intent) (ti_rootSourceSignalId intent) (ti_signalRunId intent) (ti_workflowRevisionId intent) (dp_id path)
      (ti_channelId intent) (dp_strategyVersionId path) (dp_accountId path) (ac_exchange account) (ac_mode account) (ti_symbol intent) (ti_side intent)
      (intent_status blockReason) (ti_signal intent) blockReason None (fr_createdAt (cu_run current)) now) (draw db);
  Ok ((id, blockReason), db).

Definition promoteFallbackCandidate (config : Config) (current : FallbackCurrentRow) (next : FallbackNextRow) (intent : TradingIntent) (reason : WorkflowFallbackReason)
    (msg : string) (now : Z) (db : RunsDb) : result (WorkflowFallbackAdvanceResult * RunsDb) :=
  let runId := cu_runId current in
  let db := leave_candidate current c_unavailable reason (detailsJson msg intent None) now db in
  '((promotedId, blockReason), db) ← insertPromotedFallbackIntent config current next intent now db;
  db ← assign_intent runId (nx_rank next) promotedId
    (λ c, set_candidate (match blockReason with None => c_pending | Some _ => c_stopped end) blockReason (fc_details c) now c) db;
  match blockReason with
  | None =>
      let db := update_run runId (λ r, set_run (fr_status r) (nx_rank next) (fr_selectedIntentId r) (fr_stopReason r) now (fr_completedAt r) r) db in
      Ok (fallbackAdvanceResult current (Some (nx_accountId next)) reason true, refreshWorkflowSignalRunFromFallback runId now db)
  | Some _ =>
      let db := update_run runId (λ r, set_run stopped (nx_rank next) (fr_selectedIntentId r) blockReason now (Some now) r) db in
      let db := stop_candidates runId [c_waiting] blockReason now db in
      Ok (fallbackAdvanceResult current (Some (nx_accountId next)) reason false, refreshWorkflowSignalRunFromFallback runId now db)
  end.

Definition advanceWorkflowFallbackTransaction (config : Config) (intentId : string) (intent : TradingIntent) (reason : WorkflowFallbackReason) (msg : string) (now : Z)
    (db : RunsDb) : result (option WorkflowFallbackAdvanceResult * RunsDb) :=
  let db := with_intents (alter (set_intent_status intent_blocked (Some (reason_text reason)) (Some msg) now) intentId (rd_intents db)) db in
  match current_row intentId db with
  | None => Ok (None, db)
  | Some current =>
      if negb (is_current current) then Ok (None, db)
      else
        match next_row config current db with
        | None => let '(advance, db) := exhaustFallbackRun current intent reason msg now db in Ok (Some advance, db)
        | Some next =>
            let policy := fc_fallbackOn (cu_candidate current) in
            if bool_decide (reason ∈ policy)
            then '(advance, db) ← promoteFallbackCandidate config current next intent reason msg now db; Ok (Some advance, db)
            else let '(advance, db) := stopDisallowedFallback current next intent reason msg policy now db in Ok (Some advance, db)
        end
  end.

Definition advanceWorkflowFallbackOnEligibleFailure := advanceWorkflowFallbackTransaction.

Definition markWorkflowFallbackSelected (intentId : string) (now : Z) (db : RunsDb) : RunsDb :=
  match current_row intentId db with
  | Some current =>
      if is_current current then
        let runId := cu_runId current in
        let db := update_candidates runId (at_rank (cu_rank current)) (λ c, set_candidate c_selected (fc_errorCode c) (fc_details c) now c) db in
        let db := stop_candidates runId [c_waiting] (Some "NOT_NEEDED") now db in
        let db := update_run runId (λ r, set_run selected (fr_currentRank r) (Some intentId) (fr_stopReason r) now (Some now) r) db in
        refreshWorkflowSignalRunFromFallback runId now db
      else db
  | None => db
  end.

Definition stopWorkflowFallback (intentId reason : string) (now : Z) (db : RunsDb) : RunsDb :=
  match current_row intentId db with
  | Some current =>
      if is_current current then
        let runId := cu_runId current in
        refreshWorkflowSignalRunFromFallback runId now
          (finish_run runId stopped (Some reason) now (stop_candidates runId [c_pending; c_waiting] (Some reason) now db))
      else db
  | None => db
  end.
End Runs.
