(* ===== verification/WorkflowMoves.v ===== *)
(** WorkflowMoves: what the rows of a fallback run mean ([represents]: the run is
    in a [Phase]), and what each operation of [WorkflowRuns] on one run does to
    them: the run moves, its other rows and the other runs stay ([run_moved]), and
    the candidates keep their intents ([keeps], [intents_ok]). *)

From S2P Require Import Prelude Text Json Maps Types Orders Filters Workflow WorkflowTopology WorkflowFallback WorkflowCompile WorkflowPlans WorkflowRuns.
From Stdlib Require Ascii String.
Local Open Scope Z_scope.
Local Open Scope ts_scope.
Set Default Proof Using "Type".

(** ** Queries *)
Lemma find_row_Some {K V} `{Countable K} (p : K → V → bool) (m : gmap K V) k v : find_row p m = Some (k, v) → m !! k = Some v ∧ p k v = true.
Proof.
  unfold find_row. intros E. apply head_Some_elem_of in E. apply list_elem_of_filter in E as [Hp Hin]. by rewrite elem_of_map_to_list in Hin.
Qed.

Lemma find_row_None {K V} `{Countable K} (p : K → V → bool) (m : gmap K V) : find_row p m = None → ∀ k v, m !! k = Some v → p k v = false.
Proof.
  unfold find_row. intros E k v Hk. apply head_None in E. apply not_true_is_false. intros Hp.
  assert ((k, v) ∈ filter (λ row : K * V, p row.1 row.2 = true) (map_to_list m)) as Hin by (apply list_elem_of_filter; split; [done|by apply elem_of_map_to_list]).
  rewrite E in Hin. by apply not_elem_of_nil in Hin.
Qed.

Lemma candidates_of_In runId p db i c : (i, c) ∈ candidates_of runId p db ↔ rd_candidates db !! (runId, i) = Some c ∧ p i c = true.
Proof.
  unfold candidates_of. rewrite sort_by_Permutation, list_elem_of_fmap. split.
  - intros ([[r j] d] & E & Hin). injection E as -> ->. apply list_elem_of_filter in Hin as [Hp Hin]. cbn in Hp.
    apply andb_true_iff in Hp as [Hr Hp]. apply bool_decide_eq_true in Hr as ->. by apply elem_of_map_to_list in Hin.
  - intros [Hc Hp]. exists ((runId, i), c). split; [done|]. apply list_elem_of_filter. split; [cbn; by rewrite bool_decide_true|]. by apply elem_of_map_to_list.
Qed.

Lemma candidates_of_head runId p db i c : head (candidates_of runId p db) = Some (i, c) → ∀ j d, (j, d) ∈ candidates_of runId p db → (i ≤ j)%nat.
Proof.
  intros E j d Hin. pose proof (sort_by_sorted (λ row : nat * FallbackCandidate, Z.of_nat row.1)
    (map (λ row : (string * nat) * FallbackCandidate, (row.1.2, row.2))
       (filter (λ row : (string * nat) * FallbackCandidate, bool_decide (row.1.1 = runId) && p row.1.2 row.2 = true) (map_to_list (rd_candidates db))))) as Hs.
  change (sort_by _ _) with (candidates_of runId p db) in Hs. destruct (candidates_of runId p db) as [|row rows]; [done|]. injection E as ->.
  apply StronglySorted_inv in Hs as [_ Hf]. apply elem_of_cons in Hin as [[= -> ->]|Hin]; [done|]. rewrite Forall_forall in Hf. specialize (Hf _ Hin). cbn in Hf. lia.
Qed.

Lemma lookup_update runId p f db r i :
  rd_candidates (update_candidates runId p f db) !! (r, i) = (λ c, if bool_decide (r = runId) && p i c then f c else c) <$> rd_candidates db !! (r, i).
Proof. unfold update_candidates. cbn. rewrite map_lookup_imap. by destruct (rd_candidates db !! (r, i)). Qed.

(** ** Phases: what a fallback run stands for *)
Inductive Phase := Probing (k : nat) | Selected (k : nat) | Stopped (k : nat) | Exhausted (k : nat).

Definition phase_status (phase : Phase) : FallbackRunStatus :=
  match phase with Probing _ => probing | Selected _ => selected | Stopped _ => stopped | Exhausted _ => exhausted end.
Definition phase_rank (phase : Phase) : nat := match phase with Probing k | Selected k | Stopped k | Exhausted k => k end.

(** The status of the candidate of a rank. *)
Definition status_at (phase : Phase) (i : nat) : CandidateStatus :=
  let k := phase_rank phase in
  if (i <? k)%nat then c_unavailable
  else if (i =? k)%nat then match phase with Probing _ => c_pending | Selected _ => c_selected | Stopped _ => c_stopped | Exhausted _ => c_unavailable end
  else match phase with Probing _ => c_waiting | Exhausted _ => c_unavailable | _ => c_stopped end.

(** The moves of a run of [n] candidates: to the next one, or to an end. *)
Inductive move (n : nat) : Phase → Phase → Prop :=
| move_next k : (S k < n)%nat → move n (Probing k) (Probing (S k))
| move_select k : move n (Probing k) (Selected k)
| move_stop k : move n (Probing k) (Stopped k)
| move_next_blocked k : (S k < n)%nat → move n (Probing k) (Stopped (S k))
| move_exhaust k : S k = n → move n (Probing k) (Exhausted k).

(** The chain of a route group as it is compiled. *)
Record group_ok (g : WorkflowRouteGroup) : Prop := mkGroupOk {
  go_ranks : map rc_rank (rg_candidates g) = seq 0 (length (rg_candidates g));
  go_paths : NoDup (map rc_pathId (rg_candidates g));
  go_primary : rc_pathId <$> head (rg_candidates g) = Some (rg_primaryPathId g) }.

Definition groups_ok (groups : gmap string (list WorkflowRouteGroup)) : Prop :=
  ∀ revision gs, groups !! revision = Some gs → NoDup (map rg_key gs) ∧ Forall group_ok gs.

Definition group_of (groups : gmap string (list WorkflowRouteGroup)) (r : FallbackRun) (g : WorkflowRouteGroup) : Prop :=
  ∃ gs, groups !! fr_workflowRevisionId r = Some gs ∧ g ∈ gs ∧ rg_key g = fr_routeGroupKey r.

(** The candidate row of a rank. *)
Definition candidate_for (rc : WorkflowRouteCandidate) (status : CandidateStatus) (tried : Prop) (c : FallbackCandidate) : Prop :=
  fc_executionPathId c = rc_pathId rc ∧ fc_fallbackOn c = rc_fallbackOn rc ∧ fc_status c = status ∧ (is_Some (fc_intentId c) ↔ tried).

Record represents (g : WorkflowRouteGroup) (db : RunsDb) (runId : string) (r : FallbackRun) (phase : Phase) : Prop := mkRepresents {
  re_status : fr_status r = phase_status phase;
  re_rank : fr_currentRank r = phase_rank phase;
  re_bound : (phase_rank phase < length (rg_candidates g))%nat;
  re_last : ∀ k, phase = Exhausted k → S k = length (rg_candidates g);
  re_rows : ∀ i rc, rg_candidates g !! i = Some rc →
    ∃ c, rd_candidates db !! (runId, i) = Some c ∧ candidate_for rc (status_at phase i) (i ≤ phase_rank phase)%nat c;
  re_none : ∀ i, (length (rg_candidates g) ≤ i)%nat → rd_candidates db !! (runId, i) = None }.

Definition same_run (r r' : FallbackRun) : Prop :=
  fr_sourceSignalId r = fr_sourceSignalId r' ∧ fr_workflowRevisionId r = fr_workflowRevisionId r' ∧ fr_routeGroupKey r = fr_routeGroupKey r'.

(** The tables hold together. *)
Record runs_ok (groups : gmap string (list WorkflowRouteGroup)) (db : RunsDb) : Prop := mkRunsOk {
  ok_runs : ∀ id r, rd_fallbackRuns db !! id = Some r → ∃ g phase, group_of groups r g ∧ represents g db id r phase;
  ok_candidates : ∀ id i c, rd_candidates db !! (id, i) = Some c → is_Some (rd_fallbackRuns db !! id);
  ok_keys : ∀ id id' r r', rd_fallbackRuns db !! id = Some r → rd_fallbackRuns db !! id' = Some r' → same_run r r' → id = id' }.

(** The intents of the candidates: each its own, of its path and the signal of
    the run, and blocked once a later candidate was tried. *)
Record intents_ok (db : RunsDb) : Prop := mkIntentsOk {
  ok_unique : ∀ k k' c c' x, rd_candidates db !! k = Some c → rd_candidates db !! k' = Some c' → fc_intentId c = Some x → fc_intentId c' = Some x → k = k';
  ok_intents : ∀ id i c x r, rd_candidates db !! (id, i) = Some c → fc_intentId c = Some x → rd_fallbackRuns db !! id = Some r →
    ∃ t, rd_intents db !! x = Some t ∧ ti_executionPathId t = fc_executionPathId c ∧ ti_rootSourceSignalId t = fr_sourceSignalId r;
  ok_blocked : ∀ id i j c c' x, (i < j)%nat → rd_candidates db !! (id, i) = Some c → fc_intentId c = Some x → rd_candidates db !! (id, j) = Some c' →
    is_Some (fc_intentId c') → ∃ t, rd_intents db !! x = Some t ∧ ti_status t = intent_blocked }.

(** ** Frames *)
Lemma runs_ok_ext groups db db' : rd_fallbackRuns db' = rd_fallbackRuns db → rd_candidates db' = rd_candidates db → runs_ok groups db → runs_ok groups db'.
Proof.
  intros Er Ec [H1 H2 H3]. split.
  - intros id r. rewrite Er. intros Hr. destruct (H1 id r Hr) as (g & ph & Hg & [? ? ? ? ? ?]). exists g, ph. split; [done|]. split; try done; by rewrite Ec.
  - intros id i c. rewrite Er, Ec. apply H2.
  - intros id id' r r'. rewrite Er. apply H3.
Qed.

Lemma intents_ok_ext db db' : rd_fallbackRuns db' = rd_fallbackRuns db → rd_candidates db' = rd_candidates db → rd_intents db' = rd_intents db → intents_ok db → intents_ok db'.
Proof. intros Er Ec Ei [H1 H2 H3]. split; rewrite ?Er, ?Ec, ?Ei; done. Qed.

Lemma refresh_frame runId now db : let db' := refreshWorkflowSignalRunFromFallback runId now db in
  rd_intents db' = rd_intents db ∧ rd_fallbackRuns db' = rd_fallbackRuns db ∧ rd_candidates db' = rd_candidates db ∧ rd_drawn db' = rd_drawn db.
Proof. unfold refreshWorkflowSignalRunFromFallback. by destruct (rd_fallbackRuns db !! runId). Qed.

Lemma represents_frame g db db' id r r' phase : represents g db id r phase → (∀ i, rd_candidates db' !! (id, i) = rd_candidates db !! (id, i)) →
  fr_status r' = fr_status r → fr_currentRank r' = fr_currentRank r → represents g db' id r' phase.
Proof.
  intros [H1 H2 H3 H4 H5 H6] Hc Es Er. split; [congruence..|done|done| |].
  - intros i rc. rewrite Hc. apply H5.
  - intros i. rewrite Hc. apply H6.
Qed.

(** Changing one run, and only the rows of its candidates. *)
Lemma runs_ok_change groups db db' runId f r g phase : runs_ok groups db → rd_fallbackRuns db' = alter f runId (rd_fallbackRuns db) → (∀ r, same_run r (f r)) →
  (∀ id i, id ≠ runId → rd_candidates db' !! (id, i) = rd_candidates db !! (id, i)) →
  (∀ i, is_Some (rd_candidates db' !! (runId, i)) → is_Some (rd_candidates db !! (runId, i))) →
  rd_fallbackRuns db !! runId = Some r → group_of groups r g → represents g db' runId (f r) phase → runs_ok groups db'.
Proof.
  intros [H1 H2 H3] Er Hf Hc Hdom Hr Hg Hrep. split.
  - intros id r'. rewrite Er. destruct (decide (id = runId)) as [->|Hne].
    + rewrite lookup_alter_eq, Hr. intros [= <-]. exists g, phase. split; [|done]. destruct Hg as (gs & Hgs & Hin & Hk). destruct (Hf r) as (_ & Ev & Ek).
      exists gs. rewrite <-Ev, <-Ek. done.
    + rewrite lookup_alter_ne by done. intros Hr'. destruct (H1 _ _ Hr') as (g' & ph & Hg' & Hrep'). exists g', ph. split; [done|].
      eapply represents_frame; [done|intros i; by apply Hc|done|done].
  - intros id i c Hci. rewrite Er. destruct (decide (id = runId)) as [->|Hne].
    + rewrite lookup_alter_eq, Hr. by eexists.
    + rewrite lookup_alter_ne by done. rewrite Hc in Hci by done. by eapply H2.
  - intros id id' r1 r2. rewrite Er. intros E1 E2 Hs.
    assert (∀ id r1, alter f runId (rd_fallbackRuns db) !! id = Some r1 → ∃ r0, rd_fallbackRuns db !! id = Some r0 ∧ same_run r0 r1) as Hold.
    { intros j rj. destruct (decide (j = runId)) as [->|]; [rewrite lookup_alter_eq, Hr; intros [= <-]; by eexists|rewrite lookup_alter_ne by done].
      intros Hj. exists rj. done. }
    destruct (Hold _ _ E1) as (a & Ha & Sa), (Hold _ _ E2) as (b & Hb & Sb). apply (H3 id id' a b Ha Hb). unfold same_run in *. intuition congruence.
Qed.

(** ** The rows of a run after a move *)
Ltac phases := unfold status_at in *; cbn [phase_rank] in *; repeat match goal with
  | |- context [(?a <? ?b)%nat] => destruct (Nat.ltb_spec a b)
  | |- context [(?a =? ?b)%nat] => destruct (Nat.eqb_spec a b)
  | H : context [(?a <? ?b)%nat] |- _ => destruct (Nat.ltb_spec a b)
  | H : context [(?a =? ?b)%nat] |- _ => destruct (Nat.eqb_spec a b)
  end; try lia.

(** A probing run with new rows for its candidates. *)
Lemma represents_move g db db' runId r r' k phase : represents g db runId r (Probing k) → fr_status r' = phase_status phase → fr_currentRank r' = phase_rank phase →
  (phase_rank phase < length (rg_candidates g))%nat → (∀ j, phase = Exhausted j → S j = length (rg_candidates g)) →
  (∀ i, rd_candidates db !! (runId, i) = None → rd_candidates db' !! (runId, i) = None) →
  (∀ i rc c, rg_candidates g !! i = Some rc → rd_candidates db !! (runId, i) = Some c → candidate_for rc (status_at (Probing k) i) (i ≤ k)%nat c →
     ∃ c', rd_candidates db' !! (runId, i) = Some c' ∧ candidate_for rc (status_at phase i) (i ≤ phase_rank phase)%nat c') →
  represents g db' runId r' phase.
Proof.
  intros [_ _ _ _ H5 H6] Es Er Hb Hl Hn Hrows. split; try done.
  - intros i rc Hrc. destruct (H5 _ _ Hrc) as (c & Hc & Hfor). by eapply Hrows.
  - intros i Hi. apply Hn. by apply H6.
Qed.

Lemma status_before phase i : (i < phase_rank phase)%nat → status_at phase i = c_unavailable.
Proof. intros H. unfold status_at. by destruct (Nat.ltb_spec i (phase_rank phase)); [|lia]. Qed.
Lemma status_here phase : status_at phase (phase_rank phase) =
  match phase with Probing _ => c_pending | Selected _ => c_selected | Stopped _ => c_stopped | Exhausted _ => c_unavailable end.
Proof. unfold status_at. rewrite Nat.ltb_irrefl, Nat.eqb_refl. done. Qed.
Lemma status_after phase i : (phase_rank phase < i)%nat → status_at phase i =
  match phase with Probing _ => c_waiting | Exhausted _ => c_unavailable | _ => c_stopped end.
Proof. intros H. unfold status_at. destruct (Nat.ltb_spec i (phase_rank phase)), (Nat.eqb_spec i (phase_rank phase)); try lia; done. Qed.

(** The rows before, at and after the rank of the candidate that is tried. *)
Lemma represents_change g db db' runId r r' k phase : represents g db runId r (Probing k) → fr_status r' = phase_status phase → fr_currentRank r' = phase_rank phase →
  (phase_rank phase < length (rg_candidates g))%nat → (∀ j, phase = Exhausted j → S j = length (rg_candidates g)) →
  (∀ i, rd_candidates db !! (runId, i) = None → rd_candidates db' !! (runId, i) = None) →
  (∀ i c, (i < k)%nat → rd_candidates db !! (runId, i) = Some c → fc_status c = c_unavailable → is_Some (fc_intentId c) →
     ∃ c', rd_candidates db' !! (runId, i) = Some c' ∧ candidate_for (mkCandidate (fc_executionPathId c) "" "" 0 false (fc_fallbackOn c)) (status_at phase i) (i ≤ phase_rank phase)%nat c') →
  (∀ c, rd_candidates db !! (runId, k) = Some c → fc_status c = c_pending → is_Some (fc_intentId c) →
     ∃ c', rd_candidates db' !! (runId, k) = Some c' ∧ candidate_for (mkCandidate (fc_executionPathId c) "" "" 0 false (fc_fallbackOn c)) (status_at phase k) (k ≤ phase_rank phase)%nat c') →
  (∀ i c, (k < i)%nat → rd_candidates db !! (runId, i) = Some c → fc_status c = c_waiting → fc_intentId c = None →
     ∃ c', rd_candidates db' !! (runId, i) = Some c' ∧ candidate_for (mkCandidate (fc_executionPathId c) "" "" 0 false (fc_fallbackOn c)) (status_at phase i) (i ≤ phase_rank phase)%nat c') →
  represents g db' runId r' phase.
Proof.
  intros H Es Er Hb Hl Hn Hlt Heq Hgt. eapply represents_move; try done. intros i rc c Hrc Hc (H1 & H2 & H3 & H4).
  assert (∀ c', candidate_for (mkCandidate (fc_executionPathId c) "" "" 0 false (fc_fallbackOn c)) (status_at phase i) (i ≤ phase_rank phase)%nat c' →
    candidate_for rc (status_at phase i) (i ≤ phase_rank phase)%nat c') as Hfor.
  { intros c' (K1 & K2 & K3 & K4). split_and!; [by rewrite <-H1|by rewrite <-H2|done|apply K4..]. }
  destruct (Nat.lt_trichotomy i k) as [Hi|[->|Hi]].
  - rewrite status_before in H3 by done. destruct (Hlt i c) as (c' & ? & ?); [done..|apply H4; lia|]. exists c'. auto.
  - pose proof (status_here (Probing k)) as E. cbn [phase_rank] in E. rewrite E in H3. destruct (Heq c) as (c' & ? & ?); [done..|apply H4; lia|]. exists c'. auto.
  - rewrite status_after in H3 by done. destruct (Hgt i c) as (c' & ? & ?); [done..| |exists c'; auto].
    destruct (fc_intentId c); [|done]. assert (i ≤ k)%nat by (apply H4; by eexists). lia.
Qed.

Ltac row_case := rewrite ?lookup_update; repeat match goal with E : rd_candidates _ !! _ = Some _ |- _ => rewrite E; clear E end; cbn [fmap option_fmap option_map];
  eexists; split; [reflexivity|]; unfold at_rank, has_status; rewrite ?bool_decide_true by done; cbn [andb orb existsb]; repeat (case_bool_decide; cbn [andb orb existsb fc_status set_candidate]); subst; try lia; try congruence.

Lemma no_rows runId p f db i : rd_candidates db !! (runId, i) = None → rd_candidates (update_candidates runId p f db) !! (runId, i) = None.
Proof. intros E. by rewrite lookup_update, E. Qed.

Lemma exhausted_rows g db runId r k r' status code details now : represents g db runId r (Probing k) → fr_status r' = exhausted → fr_currentRank r' = k →
  S k = length (rg_candidates g) → status = c_unavailable →
  represents g (update_candidates runId (at_rank k) (set_candidate status code details now) db) runId r' (Exhausted k).
Proof.
  intros H Es Er Hk ->. eapply represents_change; try done; [cbn; lia|by intros j [= <-]|intros i; apply no_rows|..].
  - intros i c Hi Hc Hs Hx. rewrite status_before by done. row_case. repeat split; try done; cbn; lia.
  - intros c Hc Hs Hx. pose proof (status_here (Exhausted k)) as E. cbn [phase_rank] in E. rewrite E. clear E. row_case. repeat split; try done; cbn; lia.
  - intros i c Hi Hc Hs Hx. destruct H as [_ _ _ _ _ H6]. rewrite H6 in Hc by lia. done.
Qed.

Ltac here phase := let E := fresh in pose proof (status_here phase) as E; cbn [phase_rank] in E; rewrite E; clear E.
Ltac row_done := repeat split; cbn in *; try done; try lia; try (by eexists); try congruence;
  try (let H := fresh in intros H; match goal with E : fc_intentId _ = None |- _ => rewrite E in H; by destruct H end).

Lemma stopped_rows g db runId r k r' code code' details now : represents g db runId r (Probing k) → fr_status r' = stopped → fr_currentRank r' = k →
  represents g (stop_candidates runId [c_waiting] code now (update_candidates runId (at_rank k) (set_candidate c_stopped code' details now) db)) runId r' (Stopped k).
Proof.
  intros H Es Er. pose proof (re_bound _ _ _ _ _ H) as Hb. unfold stop_candidates. eapply represents_change; try done; [by do 2 (intros; apply no_rows)|..].
  - intros i c Hi Hc Hs Hx. rewrite status_before by done. row_case; row_done.
  - intros c Hc Hs Hx. here (Stopped k). row_case; row_done.
  - intros i c Hi Hc Hs Hx. rewrite status_after by done. row_case; row_done.
Qed.

Lemma halted_rows g db runId r k r' code now : represents g db runId r (Probing k) → fr_status r' = stopped → fr_currentRank r' = k →
  represents g (stop_candidates runId [c_pending; c_waiting] code now db) runId r' (Stopped k).
Proof.
  intros H Es Er. pose proof (re_bound _ _ _ _ _ H) as Hb. unfold stop_candidates. eapply represents_change; try done; [intros; by apply no_rows|..].
  - intros i c Hi Hc Hs Hx. rewrite status_before by done. row_case; row_done.
  - intros c Hc Hs Hx. here (Stopped k). row_case; row_done.
  - intros i c Hi Hc Hs Hx. rewrite status_after by done. row_case; row_done.
Qed.

Lemma selected_rows g db runId r k r' code now : represents g db runId r (Probing k) → fr_status r' = selected → fr_currentRank r' = k →
  represents g (stop_candidates runId [c_waiting] code now
    (update_candidates runId (at_rank k) (λ c, set_candidate c_selected (fc_errorCode c) (fc_details c) now c) db)) runId r' (Selected k).
Proof.
  intros H Es Er. pose proof (re_bound _ _ _ _ _ H) as Hb. unfold stop_candidates. eapply represents_change; try done; [by do 2 (intros; apply no_rows)|..].
  - intros i c Hi Hc Hs Hx. rewrite status_before by done. row_case; row_done.
  - intros c Hc Hs Hx. here (Selected k). row_case; row_done.
  - intros i c Hi Hc Hs Hx. rewrite status_after by done. row_case; row_done.
Qed.

Lemma promoted_rows g db runId r k r' x code code' details now : represents g db runId r (Probing k) → (S k < length (rg_candidates g))%nat →
  fr_status r' = probing → fr_currentRank r' = S k →
  represents g (update_candidates runId (at_rank (S k)) (λ c, with_intent x (set_candidate c_pending code (fc_details c) now c))
    (update_candidates runId (at_rank k) (set_candidate c_unavailable code' details now) db)) runId r' (Probing (S k)).
Proof.
  intros H Hb Es Er. eapply represents_change; try done; [by do 2 (intros; apply no_rows)|..].
  - intros i c Hi Hc Hs Hx. rewrite status_before by (cbn; lia). row_case; row_done.
  - intros c Hc Hs Hx. rewrite status_before by (cbn; lia). row_case; row_done.
  - intros i c Hi Hc Hs Hx. destruct (decide (i = S k)) as [->|]; [here (Probing (S k))|rewrite status_after by (cbn; lia)]; row_case; row_done.
Qed.

Lemma blocked_rows g db runId r k r' x code code' code'' details now : represents g db runId r (Probing k) → (S k < length (rg_candidates g))%nat →
  fr_status r' = stopped → fr_currentRank r' = S k →
  represents g (stop_candidates runId [c_waiting] code'' now
    (update_candidates runId (at_rank (S k)) (λ c, with_intent x (set_candidate c_stopped code (fc_details c) now c))
       (update_candidates runId (at_rank k) (set_candidate c_unavailable code' details now) db))) runId r' (Stopped (S k)).
Proof.
  intros H Hb Es Er. unfold stop_candidates. eapply represents_change; try done; [by do 3 (intros; apply no_rows)|..].
  - intros i c Hi Hc Hs Hx. rewrite status_before by (cbn; lia). row_case; row_done.
  - intros c Hc Hs Hx. rewrite status_before by (cbn; lia). row_case; row_done.
  - intros i c Hi Hc Hs Hx. destruct (decide (i = S k)) as [->|]; [here (Stopped (S k))|rewrite status_after by (cbn; lia)]; row_case; row_done.
Qed.

(** Fresh candidates, and the first of them tried. *)
Definition fresh_rows (g : WorkflowRouteGroup) (db : RunsDb) (runId : string) : Prop :=
  (∀ i rc, rg_candidates g !! i = Some rc → ∃ c, rd_candidates db !! (runId, i) = Some c ∧ candidate_for rc c_waiting False c) ∧
  ∀ i, (length (rg_candidates g) ≤ i)%nat → rd_candidates db !! (runId, i) = None.

Lemma represents_fresh g db db' runId r phase : fresh_rows g db runId → (0 < length (rg_candidates g))%nat → phase_rank phase = 0%nat → (∀ k, phase ≠ Exhausted k) →
  fr_status r = phase_status phase → fr_currentRank r = 0%nat →
  (∀ i, rd_candidates db !! (runId, i) = None → rd_candidates db' !! (runId, i) = None) →
  (∀ i c, rd_candidates db !! (runId, i) = Some c → fc_status c = c_waiting → fc_intentId c = None →
     ∃ c', rd_candidates db' !! (runId, i) = Some c' ∧ candidate_for (mkCandidate (fc_executionPathId c) "" "" 0 false (fc_fallbackOn c)) (status_at phase i) (i ≤ 0)%nat c') →
  represents g db' runId r phase.
Proof.
  intros [Hrows Hnone] Hl Hrank Hne Es Er Hn Hall. split; [done|congruence|lia|intros k ->; by destruct (Hne k)| |].
  - intros i rc Hrc. destruct (Hrows _ _ Hrc) as (c & Hc & H1 & H2 & H3 & H4). destruct (Hall i c) as (c' & Hc' & K1 & K2 & K3 & K4); [done..| |].
    { destruct (fc_intentId c); [|done]. exfalso. apply H4. by eexists. }
    exists c'. split; [done|]. rewrite Hrank. split_and!; [by rewrite <-H1|by rewrite <-H2|done|apply K4..].
  - intros i Hi. by apply Hn, Hnone.
Qed.

Lemma first_rows g db runId r x code now : fresh_rows g db runId → (0 < length (rg_candidates g))%nat → fr_status r = probing → fr_currentRank r = 0%nat →
  represents g (update_candidates runId (at_rank 0) (λ c, with_intent x (set_candidate c_pending code (fc_details c) now c)) db) runId r (Probing 0).
Proof.
  intros H Hl Es Er. eapply represents_fresh; try done; [by intros; apply no_rows|].
  intros i c Hc Hs Hx. destruct (decide (i = 0%nat)) as [->|]; [here (Probing 0)|rewrite status_after by (cbn; lia)]; row_case; row_done.
Qed.

Lemma first_stopped_rows g db runId r x code code' now : fresh_rows g db runId → (0 < length (rg_candidates g))%nat → fr_status r = stopped → fr_currentRank r = 0%nat →
  represents g (stop_candidates runId [c_waiting] code' now
    (update_candidates runId (at_rank 0) (λ c, with_intent x (set_candidate c_stopped code (fc_details c) now c)) db)) runId r (Stopped 0).
Proof.
  intros H Hl Es Er. unfold stop_candidates. eapply represents_fresh; try done; [by do 2 (intros; apply no_rows)|].
  intros i c Hc Hs Hx. destruct (decide (i = 0%nat)) as [->|]; [here (Stopped 0)|rewrite status_after by (cbn; lia)]; row_case; row_done.
Qed.

(** ** The candidate that is tried, and the next one *)
Definition references (config : Config) (db : RunsDb) : Prop := ∀ key c, rd_candidates db !! key = Some c → joins config c = true.

Lemma current_row_Some x db current : current_row x db = Some current →
  rd_candidates db !! (cu_runId current, cu_rank current) = Some (cu_candidate current) ∧ fc_intentId (cu_candidate current) = Some x ∧
  rd_fallbackRuns db !! cu_runId current = Some (cu_run current).
Proof.
  unfold current_row. destruct (find_row _ _) as [[[runId rank] c]|] eqn:E; [|done]. cbn. destruct (rd_fallbackRuns db !! runId) as [r|] eqn:Er; [|done]. cbn.
  intros [= <-]. apply find_row_Some in E as [Hc Hx]. apply bool_decide_eq_true in Hx. done.
Qed.

Lemma represents_phase g db runId r phase k : represents g db runId r phase → fr_status r = probing → fr_currentRank r = k → phase = Probing k.
Proof. intros [H1 H2 _ _ _ _] Es Er. destruct phase; cbn in *; congruence. Qed.

Lemma current_spec groups db x current : runs_ok groups db → current_row x db = Some current → is_current current = true →
  ∃ g, group_of groups (cu_run current) g ∧ represents g db (cu_runId current) (cu_run current) (Probing (cu_rank current)).
Proof.
  intros Hok Hcur Hc. apply current_row_Some in Hcur as (_ & _ & Hr). unfold is_current in Hc. apply andb_true_iff in Hc as [Hs%bool_decide_eq_true Hk%bool_decide_eq_true].
  destruct (ok_runs _ _ Hok _ _ Hr) as (g & phase & Hg & Hrep). exists g. split; [done|]. by rewrite <-(represents_phase _ _ _ _ _ _ Hrep Hs Hk).
Qed.

Lemma candidate_row g db runId r phase i : represents g db runId r phase → (i < length (rg_candidates g))%nat →
  ∃ rc c, rg_candidates g !! i = Some rc ∧ rd_candidates db !! (runId, i) = Some c ∧ candidate_for rc (status_at phase i) (i ≤ phase_rank phase)%nat c.
Proof.
  intros H Hi. destruct (rg_candidates g !! i) as [rc|] eqn:E; [|apply lookup_ge_None in E; lia]. destruct (re_rows _ _ _ _ _ H i rc E) as (c & Hc & Hfor).
  by exists rc, c.
Qed.

Lemma next_row_spec g db config current : references config db → represents g db (cu_runId current) (cu_run current) (Probing (cu_rank current)) →
  ((S (cu_rank current) < length (rg_candidates g))%nat → ∃ c row, rd_candidates db !! (cu_runId current, S (cu_rank current)) = Some c ∧
     wf_paths (cf_workflows config) !! fc_executionPathId c = Some row ∧ next_row config current db = Some (mkNext (S (cu_rank current)) (fc_accountId c) (pt_path row))) ∧
  ((length (rg_candidates g) ≤ S (cu_rank current))%nat → next_row config current db = None).
Proof.
  intros Href H. set (k := cu_rank current) in *. set (runId := cu_runId current) in *.
  assert (∀ i c, (i, c) ∈ candidates_of runId (λ rank c, bool_decide (k < rank)%nat && joins config c) db ↔ rd_candidates db !! (runId, i) = Some c ∧ (k < i)%nat) as Hin.
  { intros i c. rewrite candidates_of_In, andb_true_iff, bool_decide_eq_true. split; [naive_solver|]. intros [Hc Hi]. split_and!; try done. by eapply Href. }
  split.
  - intros Hk. destruct (candidate_row _ _ _ _ _ (S k) H Hk) as (rc & c & _ & Hc & _). pose proof (Href _ _ Hc) as Hj. unfold joins in Hj.
    apply andb_true_iff in Hj as [[row Hrow]%bool_decide_eq_true _]. exists c, row. split_and!; [done..|]. unfold next_row. fold runId k.
    assert ((S k, c) ∈ candidates_of runId (λ rank c, bool_decide (k < rank)%nat && joins config c) db) as Hmem by (apply Hin; split; [done|lia]).
    destruct (head _) as [[i d]|] eqn:Eh; [|apply head_None in Eh; rewrite Eh in Hmem; by apply not_elem_of_nil in Hmem].
    pose proof (candidates_of_head _ _ _ _ _ Eh _ _ Hmem) as Hle. apply head_Some_elem_of in Eh. apply Hin in Eh as [Hd Hi].
    assert (i = S k) as -> by lia. rewrite Hc in Hd. injection Hd as <-. cbn. by rewrite Hrow.
  - intros Hk. unfold next_row. fold runId k. destruct (head _) as [[i d]|] eqn:Eh; [|done]. apply head_Some_elem_of in Eh. apply Hin in Eh as [Hd Hi].
    rewrite (re_none _ _ _ _ _ H i) in Hd by lia. done.
Qed.

(** ** Intents of the candidates *)
Definition grows (m m' : gmap string TradingIntent) : Prop := ∀ x t, m !! x = Some t → ∃ t', m' !! x = Some t' ∧ ti_executionPathId t' = ti_executionPathId t ∧
  ti_rootSourceSignalId t' = ti_rootSourceSignalId t ∧ (ti_status t = intent_blocked → ti_status t' = intent_blocked).

(** The candidates keep their paths and intents, the runs their signals. *)
Record keeps (db db' : RunsDb) : Prop := mkKeeps {
  ke_candidates : ∀ key c', rd_candidates db' !! key = Some c' → is_Some (fc_intentId c') →
    ∃ c, rd_candidates db !! key = Some c ∧ fc_executionPathId c' = fc_executionPathId c ∧ fc_intentId c' = fc_intentId c;
  ke_runs : ∀ id r', rd_fallbackRuns db' !! id = Some r' → (∃ r, rd_fallbackRuns db !! id = Some r ∧ fr_sourceSignalId r' = fr_sourceSignalId r) ∨
    (∀ i c, rd_candidates db' !! (id, i) = Some c → fc_intentId c = None);
  ke_intents : grows (rd_intents db) (rd_intents db') }.

Lemma grows_same m : grows m m.
Proof. intros x t Hx. by exists t. Qed.

Lemma grows_insert m x t : x ∉ dom m → grows m (<[x := t]> m).
Proof. intros Hx y u Hy. exists u. rewrite lookup_insert_ne; [done|]. intros ->. apply Hx. by apply elem_of_dom_2 in Hy. Qed.

Lemma grows_alter m x f : (∀ t, ti_executionPathId (f t) = ti_executionPathId t ∧ ti_rootSourceSignalId (f t) = ti_rootSourceSignalId t ∧
  (ti_status t = intent_blocked → ti_status (f t) = intent_blocked)) → grows m (alter f x m).
Proof.
  intros Hf y t Hy. destruct (decide (y = x)) as [->|]; [exists (f t); by rewrite lookup_alter_eq, Hy|]. exists t. by rewrite lookup_alter_ne.
Qed.

Lemma intents_ok_keeps db db' : keeps db db' → intents_ok db → intents_ok db'.
Proof.
  intros [Kc Kr Ki] [H1 H2 H3]. split.
  - intros k k' c c' x Hk Hk' Hx Hx'. destruct (Kc _ _ Hk ltac:(by eexists)) as (d & Hd & _ & E), (Kc _ _ Hk' ltac:(by eexists)) as (d' & Hd' & _ & E').
    eapply (H1 k k' d d' x); congruence.
  - intros id i c x r Hc Hx Hr. destruct (Kc _ _ Hc ltac:(by eexists)) as (d & Hd & Ep & Ex). destruct (Kr _ _ Hr) as [(r0 & Hr0 & Es)|Hn]; [|apply Hn in Hc; congruence].
    destruct (H2 id i d x r0) as (t & Ht & Et & Er); [done|congruence|done|]. destruct (Ki _ _ Ht) as (t' & Ht' & E1 & E2 & _). exists t'. split_and!; congruence.
  - intros id i j c c' x Hij Hc Hx Hc' Hx'. destruct (Kc _ _ Hc ltac:(by eexists)) as (d & Hd & Ep & Ex), (Kc _ _ Hc' Hx') as (d' & Hd' & Ep' & Ex').
    destruct (H3 id i j d d' x) as (t & Ht & Hs); [done..|congruence|done|congruence|]. destruct (Ki _ _ Ht) as (t' & Ht' & _ & _ & Hb). exists t'. auto.
Qed.

Lemma keeps_refl db : keeps db db.
Proof. split; [intros key c ? _; by exists c|intros id r ?; left; by exists r|apply grows_same]. Qed.

Lemma keeps_update runId p f db : (∀ c, fc_executionPathId (f c) = fc_executionPathId c ∧ fc_intentId (f c) = fc_intentId c) → keeps db (update_candidates runId p f db).
Proof.
  intros Hf. split; [|intros id r ?; left; by exists r|apply grows_same]. intros [id i] c'. rewrite lookup_update.
  destruct (rd_candidates db !! (id, i)) as [c|]; [|done]. cbn. intros [= <-] _. exists c. destruct (_ && _); [|done]. destruct (Hf c). done.
Qed.

Lemma keeps_run runId f db : (∀ r, fr_sourceSignalId (f r) = fr_sourceSignalId r) → keeps db (update_run runId f db).
Proof.
  intros Hf. split; [intros key c ? _; by exists c| |apply grows_same]. intros id r'. unfold update_run. cbn. destruct (decide (id = runId)) as [->|].
  - rewrite lookup_alter_eq. destruct (rd_fallbackRuns db !! runId) as [r|]; [|done]. intros [= <-]. left. exists r. auto.
  - rewrite lookup_alter_ne by done. left. by exists r'.
Qed.

Lemma keeps_intents m db : grows (rd_intents db) m → keeps db (with_intents m db).
Proof. intros Hm. split; [intros key c ? _; by exists c|intros id r ?; left; by exists r|done]. Qed.

Lemma keeps_refresh runId now db : keeps db (refreshWorkflowSignalRunFromFallback runId now db).
Proof. destruct (refresh_frame runId now db) as (E1 & E2 & E3 & _). split; rewrite ?E1, ?E2, ?E3; [intros key c ? _; by exists c|intros id r ?; left; by exists r|apply grows_same]. Qed.

Lemma keeps_trans db1 db2 db3 : keeps db1 db2 → keeps db2 db3 → keeps db1 db3.
Proof.
  intros [C1 R1 I1] [C2 R2 I2]. split.
  - intros key c Hc Hx. destruct (C2 _ _ Hc Hx) as (c2 & Hc2 & Ep & Ex). destruct (C1 key c2 Hc2) as (c1 & Hc1 & Ep1 & Ex1); [by rewrite <-Ex|]. exists c1. split_and!; congruence.
  - intros id r Hr. destruct (R2 _ _ Hr) as [(r2 & Hr2 & E2)|Hn]; [|by right]. destruct (R1 _ _ Hr2) as [(r1 & Hr1 & E1)|Hn]; [left; exists r1; split; congruence|].
    right. intros i c Hc. destruct (fc_intentId c) as [x|] eqn:Ex; [|done]. destruct (C2 _ _ Hc) as (c2 & Hc2 & _ & E); [by rewrite Ex|]. apply Hn in Hc2. congruence.
  - intros x t Hx. destruct (I1 _ _ Hx) as (t' & Ht' & Ea & Eb & Ec). destruct (I2 _ _ Ht') as (t2 & Ht2 & Fa & Fb & Fc). exists t2. split_and!; [done|congruence..|auto].
Qed.

Lemma insert_intent_Ok x t db db' : insert_intent x t db = Ok db' → db' = with_intents (<[x := t]> (rd_intents db)) db ∧ x ∉ dom (rd_intents db).
Proof. unfold insert_intent. case_bool_decide as Hx; cbn [orb]; [done|]. destruct (existsb _ _); [done|]. by intros [= <-]. Qed.

Lemma keeps_draw db : keeps db (draw db).
Proof. split; [intros key c ? _; by exists c|intros id r ?; left; by exists r|apply grows_same]. Qed.

Lemma keeps_signalRuns m db : keeps db (with_signalRuns m db).
Proof. split; [intros key c ? _; by exists c|intros id r ?; left; by exists r|apply grows_same]. Qed.

Lemma keeps_insert_intent x t db db' : insert_intent x t (draw db) = Ok db' → keeps db db'.
Proof. intros [-> Hx]%insert_intent_Ok. eapply keeps_trans; [apply keeps_draw|]. apply keeps_intents. by apply grows_insert. Qed.

Lemma assign_intent_Ok runId rank x f db db' : assign_intent runId rank x f db = Ok db' →
  db' = update_candidates runId (at_rank rank) (λ c, with_intent x (f c)) db ∧
  ∀ key c, rd_candidates db !! key = Some c → fc_intentId c = Some x → key = (runId, rank).
Proof.
  unfold assign_intent. destruct (existsb _ _) eqn:E; [done|]. intros [= <-]. split; [done|]. intros key c Hc Hx. apply dec_stable. intros Hne.
  assert (existsb (λ row : (string * nat) * FallbackCandidate, bool_decide (fc_intentId row.2 = Some x) && negb (bool_decide (row.1 = (runId, rank))))
    (map_to_list (rd_candidates db)) = true) as Ht; [|congruence].
  apply existsb_exists. exists (key, c). split; [apply list_elem_of_In; by apply elem_of_map_to_list|]. cbn. rewrite bool_decide_true, bool_decide_false by done. done.
Qed.

(** Giving the candidate of a rank its intent, when the candidates before it were
    tried and those after it were not. *)
Lemma intents_ok_assign db db' runId rank x f t r : assign_intent runId rank x f db = Ok db' → intents_ok db →
  (∀ c, fc_executionPathId (f c) = fc_executionPathId c ∧ fc_intentId (f c) = fc_intentId c) →
  rd_fallbackRuns db !! runId = Some r → rd_intents db !! x = Some t → ti_rootSourceSignalId t = fr_sourceSignalId r →
  (∀ c, rd_candidates db !! (runId, rank) = Some c → ti_executionPathId t = fc_executionPathId c) →
  (∀ i c y, (i < rank)%nat → rd_candidates db !! (runId, i) = Some c → fc_intentId c = Some y → ∃ u, rd_intents db !! y = Some u ∧ ti_status u = intent_blocked) →
  (∀ i c, (rank < i)%nat → rd_candidates db !! (runId, i) = Some c → fc_intentId c = None) → intents_ok db'.
Proof.
  intros [-> Hown]%assign_intent_Ok [H1 H2 H3] Hf Hr Ht Hroot Hpath Hlow Hhigh.
  assert (∀ id i c', rd_candidates (update_candidates runId (at_rank rank) (λ c, with_intent x (f c)) db) !! (id, i) = Some c' →
    ∃ c, rd_candidates db !! (id, i) = Some c ∧ fc_executionPathId c' = fc_executionPathId c ∧
      ((id, i) = (runId, rank) ∧ fc_intentId c' = Some x ∨ (id, i) ≠ (runId, rank) ∧ fc_intentId c' = fc_intentId c)) as Hrow.
  { intros id i c'. rewrite lookup_update. destruct (rd_candidates db !! (id, i)) as [c|]; [|done]. cbn. intros [= <-]. exists c. split; [done|]. unfold at_rank.
    destruct (bool_decide_reflect (id = runId)) as [->|]; [destruct (bool_decide_reflect (i = rank)) as [->|]|]; cbn [andb].
    - split; [cbn; apply Hf|]. left. done.
    - split; [done|]. right. split; [congruence|done].
    - split; [done|]. right. split; [congruence|done]. }
  split.
  - intros [id i] [id' i'] c c' y Hc Hc' Hy Hy'. destruct (Hrow _ _ _ Hc) as (d & Hd & _ & [[E Ex]|[Hne Ex]]), (Hrow _ _ _ Hc') as (d' & Hd' & _ & [[E' Ex']|[Hne' Ex']]).
    + congruence.
    + exfalso. apply Hne'. eapply Hown; [done|congruence].
    + exfalso. apply Hne. eapply Hown; [done|congruence].
    + eapply (H1 _ _ d d' y); congruence.
  - intros id i c y r' Hc Hy Hr'. cbn [update_candidates with_candidates rd_fallbackRuns rd_intents] in *. destruct (Hrow _ _ _ Hc) as (d & Hd & Ep & [[E Ex]|[Hne Ex]]).
    + injection E as -> ->. rewrite Hr in Hr'. injection Hr' as <-. rewrite Ex in Hy. injection Hy as <-. exists t. split_and!; [done|rewrite Ep; by apply Hpath|done].
    + rewrite Ep. eapply H2; [done|congruence|done].
  - intros id i j c c' y Hij Hc Hy Hc' [y' Hy']. cbn [update_candidates with_candidates rd_intents]. destruct (Hrow _ _ _ Hc) as (d & Hd & _ & [[E Ex]|[Hne Ex]]), (Hrow _ _ _ Hc') as (d' & Hd' & _ & [[E' Ex']|[Hne' Ex']]).
    + injection E as -> ->. injection E' as ->. lia.
    + injection E as -> ->. rewrite (Hhigh j d') in Ex' by done. congruence.
    + injection E' as -> ->. eapply (Hlow i d y); [done|done|congruence].
    + eapply (H3 id i j d d' y); [done|done|congruence|done|]. rewrite <-Ex'. by eexists.
Qed.

(** ** Runs that move *)
Record moves (groups : gmap string (list WorkflowRouteGroup)) (db db' : RunsDb) : Prop := mkMoves {
  mv_old : ∀ id r g phase, rd_fallbackRuns db !! id = Some r → group_of groups r g → represents g db id r phase →
    ∃ r' phase', rd_fallbackRuns db' !! id = Some r' ∧ same_run r r' ∧ represents g db' id r' phase' ∧ (phase' = phase ∨ move (length (rg_candidates g)) phase phase');
  mv_new : ∀ id, rd_fallbackRuns db !! id = None → rd_fallbackRuns db' !! id = None }.

Lemma moves_frame groups db db' : rd_fallbackRuns db' = rd_fallbackRuns db → rd_candidates db' = rd_candidates db → moves groups db db'.
Proof.
  intros Er Ec. split; [|intros id; by rewrite Er].
  intros id r g phase Hr _ Hrep. exists r, phase. rewrite Er. split_and!; [done..| |by left]. eapply represents_frame; [done|by rewrite Ec|done|done].
Qed.

(** One run has moved to a phase; nothing else of the runs changed. *)
Definition run_moved (g : WorkflowRouteGroup) (db db' : RunsDb) (runId : string) (r : FallbackRun) (phase : Phase) : Prop := ∃ f,
  rd_fallbackRuns db' = alter f runId (rd_fallbackRuns db) ∧ (∀ r, same_run r (f r)) ∧ represents g db' runId (f r) phase ∧
  ∀ id i, id ≠ runId → rd_candidates db' !! (id, i) = rd_candidates db !! (id, i).

Lemma group_of_unique groups r g g' : groups_ok groups → group_of groups r g → group_of groups r g' → g = g'.
Proof.
  intros Hok (gs & Hgs & Hin & Hk) (gs' & Hgs' & Hin' & Hk'). rewrite Hgs in Hgs'. injection Hgs' as <-. destruct (Hok _ _ Hgs) as [Hd _].
  apply list_elem_of_lookup_1 in Hin as [i Hi], Hin' as [j Hj]. assert (i = j) as ->; [|congruence].
  eapply (NoDup_lookup _ _ _ (rg_key g) Hd); rewrite list_lookup_fmap; [by rewrite Hi|by rewrite Hj; cbn; congruence].
Qed.

Lemma run_moved_ok groups g db db' runId r k phase : groups_ok groups → runs_ok groups db → rd_fallbackRuns db !! runId = Some r → group_of groups r g →
  represents g db runId r (Probing k) → run_moved g db db' runId r phase → move (length (rg_candidates g)) (Probing k) phase → runs_ok groups db' ∧ moves groups db db'.
Proof.
  intros Hgs Hok Hr Hg Hrep (f & Ef & Hf & Hrep' & Hc) Hm. split.
  - eapply runs_ok_change; try done. intros i [c Hi]. destruct (decide (i < length (rg_candidates g))%nat) as [Hlt|Hge].
    + destruct (candidate_row _ _ _ _ _ i Hrep Hlt) as (_ & d & _ & Hd & _). by eexists.
    + rewrite (re_none _ _ _ _ _ Hrep' i) in Hi by lia. done.
  - split; [|intros id Hn; rewrite Ef; destruct (decide (id = runId)) as [->|Hne]; [congruence|by rewrite lookup_alter_ne]].
    intros id r0 g0 ph Hr0 Hg0 Hrep0. rewrite Ef. destruct (decide (id = runId)) as [->|Hne].
    + rewrite Hr in Hr0. injection Hr0 as <-. assert (g0 = g) as -> by by eapply group_of_unique.
      assert (ph = Probing k) as -> by (eapply (represents_phase g db runId r); [done|apply Hrep|apply Hrep]).
      exists (f r), phase. rewrite lookup_alter_eq, Hr. split_and!; [done|apply Hf|done|by right].
    + exists r0, ph. rewrite lookup_alter_ne by done. split_and!; [done|done| |by left]. eapply represents_frame; [done|intros i; by apply Hc|done|done].
Qed.

Lemma run_moved_refresh g db db' runId r phase R now : run_moved g db db' runId r phase → run_moved g db (refreshWorkflowSignalRunFromFallback R now db') runId r phase.
Proof.
  intros (f & Ef & Hf & Hrep & Hc). destruct (refresh_frame R now db') as (_ & E2 & E3 & _). exists f. rewrite E2, E3. split_and!; [done..| |done].
  eapply represents_frame; [done|by rewrite E3|done|done].
Qed.

Lemma update_other runId p f db id i : id ≠ runId → rd_candidates (update_candidates runId p f db) !! (id, i) = rd_candidates db !! (id, i).
Proof. intros Hne. rewrite lookup_update. rewrite bool_decide_false by done. by destruct (rd_candidates db !! (id, i)). Qed.

(** ** The operations *)
Lemma finish_moved g db db' runId r status reason now phase : fr_status r = probing → (∀ r', fr_status r' = status → fr_currentRank r' = fr_currentRank r → represents g db' runId r' phase) →
  (∀ id i, id ≠ runId → rd_candidates db' !! (id, i) = rd_candidates db !! (id, i)) → rd_fallbackRuns db' = rd_fallbackRuns db →
  run_moved g db (finish_run runId status reason now db') runId r phase.
Proof.
  intros _ Hrep Hc Er. exists (λ r, set_run status (fr_currentRank r) (fr_selectedIntentId r) reason now (Some now) r). split_and!; [|done| |done].
  - unfold finish_run, update_run. cbn. by rewrite Er.
  - eapply represents_frame; [apply Hrep; [|]|done|done|done]; done.
Qed.

Lemma exhaust_moved g db current intent reason msg now k : represents g db (cu_runId current) (cu_run current) (Probing k) → cu_rank current = k → S k = length (rg_candidates g) →
  run_moved g db (exhaustFallbackRun current intent reason msg now db).2 (cu_runId current) (cu_run current) (Exhausted k) ∧
  keeps db (exhaustFallbackRun current intent reason msg now db).2.
Proof.
  intros H Hk Hn. unfold exhaustFallbackRun, leave_candidate. rewrite Hk. cbn [snd]. split.
  - apply run_moved_refresh, finish_moved; [apply H| |intros id i Hne; by apply update_other|done]. intros r' Es Er. eapply exhausted_rows; try done. rewrite Er. apply H.
  - eapply keeps_trans; [|apply keeps_refresh]. eapply keeps_trans; [|by apply keeps_run]. by apply keeps_update.
Qed.

Lemma disallow_moved g db current next intent reason msg policy now k : represents g db (cu_runId current) (cu_run current) (Probing k) → cu_rank current = k →
  run_moved g db (stopDisallowedFallback current next intent reason msg policy now db).2 (cu_runId current) (cu_run current) (Stopped k) ∧
  keeps db (stopDisallowedFallback current next intent reason msg policy now db).2.
Proof.
  intros H Hk. unfold stopDisallowedFallback, leave_candidate. rewrite Hk. cbn [snd]. split.
  - apply run_moved_refresh, finish_moved; [apply H| |intros id i Hne; unfold stop_candidates; by rewrite !update_other|done]. intros r' Es Er. eapply stopped_rows; try done. rewrite Er. apply H.
  - eapply keeps_trans; [|apply keeps_refresh]. eapply keeps_trans; [|by apply keeps_run]. eapply keeps_trans; by apply keeps_update.
Qed.

Lemma stop_moved g db runId r reason now k : represents g db runId r (Probing k) →
  let db' := refreshWorkflowSignalRunFromFallback runId now (finish_run runId stopped (Some reason) now (stop_candidates runId [c_pending; c_waiting] (Some reason) now db)) in
  run_moved g db db' runId r (Stopped k) ∧ keeps db db'.
Proof.
  intros H. cbn zeta. split.
  - apply run_moved_refresh, finish_moved; [apply H| |intros id i Hne; unfold stop_candidates; by rewrite update_other|done]. intros r' Es Er. eapply halted_rows; try done. rewrite Er. apply H.
  - eapply keeps_trans; [|apply keeps_refresh]. eapply keeps_trans; [|by apply keeps_run]. by apply keeps_update.
Qed.

Lemma select_moved g db runId r x now k : represents g db runId r (Probing k) →
  let db' := refreshWorkflowSignalRunFromFallback runId now (update_run runId (λ r, set_run selected (fr_currentRank r) (Some x) (fr_stopReason r) now (Some now) r)
    (stop_candidates runId [c_waiting] (Some "NOT_NEEDED") now
       (update_candidates runId (at_rank k) (λ c, set_candidate c_selected (fc_errorCode c) (fc_details c) now c) db))) in
  run_moved g db db' runId r (Selected k) ∧ keeps db db'.
Proof.
  intros H. cbn zeta. split.
  - apply run_moved_refresh. eexists. split; [reflexivity|]. split; [done|]. split; [|intros id i Hne; unfold update_run, stop_candidates; cbn [rd_candidates with_fallbackRuns]; by rewrite !update_other].
    eapply represents_frame; [eapply (selected_rows g db runId r k (set_run selected k (Some x) (fr_stopReason r) now (Some now) r)); done|done|done|]. cbn. apply H.
  - eapply keeps_trans; [|apply keeps_refresh]. eapply keeps_trans; [|by apply keeps_run]. eapply keeps_trans; by apply keeps_update.
Qed.

(** A promotion: the intent of the next candidate is created, pending or blocked. *)
Lemma promote_moved uuid config g db current next intent reason msg now k c res db' :
  represents g db (cu_runId current) (cu_run current) (Probing k) → cu_rank current = k → (S k < length (rg_candidates g))%nat → intents_ok db →
  rd_fallbackRuns db !! cu_runId current = Some (cu_run current) → ti_rootSourceSignalId intent = fr_sourceSignalId (cu_run current) →
  (∀ d y, rd_candidates db !! (cu_runId current, k) = Some d → fc_intentId d = Some y → ∃ u, rd_intents db !! y = Some u ∧ ti_status u = intent_blocked) →
  rd_candidates db !! (cu_runId current, S k) = Some c → dp_id (nx_path next) = fc_executionPathId c → nx_rank next = S k →
  promoteFallbackCandidate uuid config current next intent reason msg now db = Ok (res, db') →
  ∃ phase, run_moved g db db' (cu_runId current) (cu_run current) phase ∧ intents_ok db' ∧
    phase = (if fa_advanced res then Probing (S k) else Stopped (S k)).
Proof.
  intros H Hk Hn Hi Hr Hroot Hcur Hc Hpath Hnext. unfold promoteFallbackCandidate. set (R := cu_runId current) in *. set (r := cu_run current) in *.
  set (db1 := leave_candidate _ _ _ _ _ _). intros Hp. apply bind_Ok in Hp as ([[x blockReason] db2] & Hins & Hp).
  apply bind_Ok in Hp as (db3 & Hass & Hp). unfold insertPromotedFallbackIntent in Hins. apply bind_Ok in Hins as (br & _ & Hins).
  apply bind_Ok in Hins as (account & _ & Hins). apply bind_Ok in Hins as (db2' & Hins & E). injection E as <- -> ->.
  set (t := mkIntent _ _ _ _ _ _ _ _ _ _ _ _ _ _ _ _ _ _) in Hins.
  assert (keeps db db1) as K1 by by apply keeps_update. assert (keeps db db2) as K2 by (eapply keeps_trans; [done|by eapply keeps_insert_intent]).
  apply insert_intent_Ok in Hins as [E2 Hx]. pose proof Hass as Hass'. apply assign_intent_Ok in Hass as [E3 _]. rewrite Hnext in *.
  assert (intents_ok db3) as Hi3.
  { eapply (intents_ok_assign db2 db3 R (S k) (uuid (rd_drawn db1)) _ t r); [done|by eapply intents_ok_keeps|done|by rewrite E2| |done| | |].
    - rewrite E2. cbn. by rewrite lookup_insert_eq.
    - intros d Hd. rewrite E2 in Hd. cbn [with_intents draw rd_candidates] in Hd. unfold db1, leave_candidate in Hd. rewrite lookup_update, Hc in Hd. injection Hd as <-.
      cbn [t ti_executionPathId]. rewrite Hpath. by destruct (_ && _).
    - intros i d y Hlt Hd Hy. assert (∃ e, rd_candidates db !! (R, i) = Some e ∧ fc_intentId e = Some y) as (e & He & Ey).
      { destruct (ke_candidates _ _ K2 _ _ Hd ltac:(by eexists)) as (e & He & _ & Ex). exists e. split; congruence. }
      assert (∃ u, rd_intents db !! y = Some u ∧ ti_status u = intent_blocked) as (u & Hu & Hs).
      { destruct (decide (i = k)) as [->|Hne]; [by eapply Hcur|]. destruct (candidate_row _ _ _ _ _ k H) as (_ & d' & _ & Hd' & _ & _ & _ & Hx'); [lia|].
        eapply (ok_blocked _ Hi R i k e d' y); [lia|done|done|done|]. by apply Hx'. }
      destruct (ke_intents _ _ K2 _ _ Hu) as (u' & Hu' & _ & _ & Hb). exists u'. auto.
    - intros i d Hgt Hd. destruct (fc_intentId d) as [y|] eqn:Ey; [|done]. exfalso.
      destruct (ke_candidates _ _ K2 _ _ Hd) as (e & He & _ & Ex); [rewrite Ey; by eexists|]. destruct (decide (i < length (rg_candidates g))%nat) as [Hlt|].
      + destruct (candidate_row _ _ _ _ _ i H Hlt) as (_ & e' & _ & He' & _ & _ & _ & Hx'). rewrite He in He'. injection He' as <-.
        assert (i ≤ k)%nat; [apply Hx'; rewrite <-Ex, Ey; by eexists|lia].
      + rewrite (re_none _ _ _ _ _ H i) in He by lia. done. }
  assert (rd_fallbackRuns db3 = rd_fallbackRuns db) as Er3 by (by rewrite E3, E2).
  assert (∀ id i, id ≠ R → rd_candidates db3 !! (id, i) = rd_candidates db !! (id, i)) as Ho.
  { intros id i Hne. rewrite E3, update_other, E2 by done. cbn [with_intents draw rd_candidates]. unfold db1, leave_candidate. by rewrite update_other. }
  destruct blockReason as [b|]; injection Hp as <- <-; cbn [fa_advanced fallbackAdvanceResult].
  - exists (Stopped (S k)). split; [|split; [|done]].
    + apply run_moved_refresh. eexists. split; [cbn; by rewrite Er3|]. split; [done|]. split; [|intros id i Hne; unfold stop_candidates; rewrite update_other by done; by apply Ho].
      eapply represents_frame; [eapply (blocked_rows g db R r k (set_run stopped (S k) (fr_selectedIntentId r) (Some b) now (Some now) r) (uuid (rd_drawn db1)) (Some b)
        (Some (reason_text reason)) (Some b) (Some (detailsJson msg intent None)) now); done| |done|done].
      intros i. rewrite E3, E2. unfold db1, leave_candidate. by rewrite Hk.
    + eapply intents_ok_keeps; [|exact Hi3]. eapply keeps_trans; [|apply keeps_refresh]. eapply keeps_trans; [|by apply keeps_update]. by apply keeps_run.
  - exists (Probing (S k)). split; [|split; [|done]].
    + apply run_moved_refresh. eexists. split; [cbn; by rewrite Er3|]. split; [done|]. split; [|intros id i Hne; by apply Ho].
      eapply represents_frame; [eapply (promoted_rows g db R r k (set_run probing (S k) (fr_selectedIntentId r) (fr_stopReason r) now (fr_completedAt r) r) (uuid (rd_drawn db1)) None
        (Some (reason_text reason)) (Some (detailsJson msg intent None)) now); done| | |done].
      * intros i. rewrite E3, E2. unfold db1, leave_candidate. by rewrite Hk.
      * cbn. apply H.
    + eapply intents_ok_keeps; [|exact Hi3]. eapply keeps_trans; [|apply keeps_refresh]. by apply keeps_run.
Qed.

(** The intent that a caller loaded before. *)
Definition loaded (db : RunsDb) (x : string) (intent : TradingIntent) : Prop :=
  ∃ t, rd_intents db !! x = Some t ∧ ti_rootSourceSignalId intent = ti_rootSourceSignalId t.

(** A path row is stored under its identifier. *)
Definition paths_keyed (config : Config) : Prop := ∀ id row, wf_paths (cf_workflows config) !! id = Some row → dp_id (pt_path row) = id.

Definition block_intent (x : string) (reason : WorkflowFallbackReason) (msg : string) (now : Z) (db : RunsDb) : RunsDb :=
  with_intents (alter (set_intent_status intent_blocked (Some (reason_text reason)) (Some msg) now) x (rd_intents db)) db.

Lemma keeps_block x reason msg now db : keeps db (block_intent x reason msg now db).
Proof. apply keeps_intents, grows_alter. done. Qed.

(** An advance moves the run of the intent, if it is the one that is tried, by
    the policy of its candidate. *)
Lemma advance_moved uuid config groups db x intent reason msg now res db' : groups_ok groups → runs_ok groups db → intents_ok db → references config db → paths_keyed config →
  loaded db x intent → advanceWorkflowFallbackTransaction uuid config x intent reason msg now db = Ok (res, db') →
  runs_ok groups db' ∧ intents_ok db' ∧ moves groups db db'.
Proof.
  intros Hgs Hok Hi Href Hkey (t & Ht & Hroot) H. unfold advanceWorkflowFallbackTransaction in H. fold (block_intent x reason msg now db) in H.
  set (db0 := block_intent x reason msg now db) in *. assert (runs_ok groups db0) as Hok0 by by apply (runs_ok_ext groups db).
  assert (intents_ok db0) as Hi0 by by eapply intents_ok_keeps, Hi; apply keeps_block.
  destruct (current_row x db0) as [current|] eqn:Ecur; [|injection H as <- <-; split_and!; [done..|by apply moves_frame]].
  destruct (is_current current) eqn:Eis; [cbn [negb] in H|injection H as <- <-; split_and!; [done..|by apply moves_frame]].
  destruct (current_spec _ _ _ _ Hok0 Ecur Eis) as (g & Hg & Hrep). pose proof (current_row_Some _ _ _ Ecur) as (Hc & Hx & Hr).
  set (k := cu_rank current) in *. set (R := cu_runId current) in *. set (r := cu_run current) in *.
  assert (∀ phase, run_moved g db0 db' R r phase → move (length (rg_candidates g)) (Probing k) phase → intents_ok db' →
    runs_ok groups db' ∧ intents_ok db' ∧ moves groups db db') as Hfinish.
  { intros phase Hmoved Hmv Hi'. destruct (run_moved_ok groups g db0 db' R r k phase) as [H1 [H2 H3]]; [done..|]. split_and!; [done..|]. split; [|done].
    intros id r0 g0 ph Hr0 Hg0 Hrep0. destruct (H2 id r0 g0 ph) as (r' & ph' & ? & ? & ? & ?); [done..| |by exists r', ph'].
    eapply represents_frame; [exact Hrep0|done|done|done]. }
  destruct (next_row_spec g db0 config current Href Hrep) as [Hsome Hnone]. fold k R in Hsome, Hnone.
  destruct (decide (S k < length (rg_candidates g))%nat) as [Hlt|Hge].
  - destruct (Hsome Hlt) as (c & row & Hc' & Hrow & Hnext). rewrite Hnext in H. case_bool_decide as Hpol.
    + apply bind_Ok in H as ([advance db1] & Hp & H). injection H as <- <-.
      destruct (promote_moved uuid config g db0 current (mkNext (S k) (fc_accountId c) (pt_path row)) intent reason msg now k c advance db1) as (phase & Hm & Hi' & ->); try done.
      * destruct (ok_intents _ Hi0 _ _ _ _ _ Hc Hx Hr) as (t0 & Ht0 & _ & Er0). etrans; [exact Hroot|]. etrans; [|exact Er0]. cbn in Ht0. rewrite lookup_alter_eq, Ht in Ht0. by injection Ht0 as <-.
      * intros d y Hd Hy. fold R in Hd. rewrite Hc in Hd. injection Hd as <-. rewrite Hx in Hy. injection Hy as <-. eexists. cbn. rewrite lookup_alter_eq, Ht. done.
      * by apply Hkey.
      * eapply Hfinish; [done| |done]. destruct (fa_advanced advance); by constructor.
    + destruct (disallow_moved g db0 current (mkNext (S k) (fc_accountId c) (pt_path row)) intent reason msg (fc_fallbackOn (cu_candidate current)) now k) as [Hm Hk]; [done..|].
      destruct (stopDisallowedFallback _ _ _ _ _ _ _ _) as [advance db1] eqn:E. injection H as <- <-. cbn [snd] in *. eapply Hfinish; [done|constructor|by eapply intents_ok_keeps].
  - rewrite Hnone in H by lia. pose proof (re_bound _ _ _ _ _ Hrep) as Hb. cbn in Hb.
    destruct (exhaust_moved g db0 current intent reason msg now k) as [Hm Hk]; [done..|fold k in Hb; lia|].
    destruct (exhaustFallbackRun _ _ _ _ _ _) as [advance db1] eqn:E. injection H as <- <-. cbn [snd] in *. eapply Hfinish; [done|constructor; fold k in Hb; lia|by eapply intents_ok_keeps].
Qed.

Lemma select_run_moved groups db x now : groups_ok groups → runs_ok groups db → intents_ok db → let db' := markWorkflowFallbackSelected x now db in
  runs_ok groups db' ∧ intents_ok db' ∧ moves groups db db'.
Proof.
  intros Hgs Hok Hi. cbn zeta. unfold markWorkflowFallbackSelected. destruct (current_row x db) as [current|] eqn:Ecur; [|split_and!; [done..|by apply moves_frame]].
  destruct (is_current current) eqn:Eis; [|split_and!; [done..|by apply moves_frame]].
  destruct (current_spec _ _ _ _ Hok Ecur Eis) as (g & Hg & Hrep). pose proof (current_row_Some _ _ _ Ecur) as (_ & _ & Hr).
  destruct (select_moved g db (cu_runId current) (cu_run current) x now (cu_rank current) Hrep) as [Hm Hk]. cbn zeta in *.
  destruct (run_moved_ok _ _ _ _ _ _ _ _ Hgs Hok Hr Hg Hrep Hm ltac:(constructor)). split_and!; [done|by eapply intents_ok_keeps|done].
Qed.

Lemma stop_run_moved groups db x reason now : groups_ok groups → runs_ok groups db → intents_ok db → let db' := stopWorkflowFallback x reason now db in
  runs_ok groups db' ∧ intents_ok db' ∧ moves groups db db'.
Proof.
  intros Hgs Hok Hi. cbn zeta. unfold stopWorkflowFallback. destruct (current_row x db) as [current|] eqn:Ecur; [|split_and!; [done..|by apply moves_frame]].
  destruct (is_current current) eqn:Eis; [|split_and!; [done..|by apply moves_frame]].
  destruct (current_spec _ _ _ _ Hok Ecur Eis) as (g & Hg & Hrep). pose proof (current_row_Some _ _ _ Ecur) as (_ & _ & Hr).
  destruct (stop_moved g db (cu_runId current) (cu_run current) reason now (cu_rank current) Hrep) as [Hm Hk]. cbn zeta in *.
  destruct (run_moved_ok _ _ _ _ _ _ _ _ Hgs Hok Hr Hg Hrep Hm ltac:(constructor)). split_and!; [done|by eapply intents_ok_keeps|done].
Qed.

