(* ===== verification/WorkflowChains.v ===== *)
(** WorkflowChains: the runs of a workflow over any sequence of calls: creation
    keeps what is there and starts a run at its first candidate, the fallback runs
    refine the state machine of [WorkflowMoves.move], at most one account of a
    chain trades a signal, and an advance follows its policy. *)

From S2P Require Import Prelude Text Json Maps Types Orders Filters Workflow WorkflowTopology WorkflowFallback WorkflowCompile WorkflowPlans WorkflowRuns WorkflowMoves.
From Stdlib Require Ascii String.
Local Open Scope Z_scope.
Local Open Scope ts_scope.
Set Default Proof Using "Type".

(** ** The candidates of a group *)
Lemma group_rank g i rc : group_ok g → rg_candidates g !! i = Some rc → rc_rank rc = i.
Proof.
  intros [Hr _ _] Hi. assert (map rc_rank (rg_candidates g) !! i = Some (rc_rank rc)) as E by by rewrite list_lookup_fmap, Hi.
  rewrite Hr, lookup_seq in E. by destruct E.
Qed.

Lemma group_path_inj g i j a b : group_ok g → rg_candidates g !! i = Some a → rg_candidates g !! j = Some b → rc_pathId a = rc_pathId b → i = j.
Proof. intros [_ Hd _] Ha Hb E. eapply (NoDup_lookup _ _ _ (rc_pathId a) Hd); rewrite list_lookup_fmap; [by rewrite Ha|by rewrite Hb, E]. Qed.

Definition item_of (workflow : WorkflowRevision) (rc : WorkflowRouteCandidate) (item : WorkflowRouteCandidate * CompiledDraftPath) : Prop :=
  item.1 = rc ∧ path_by_id workflow (rc_pathId rc) = Some item.2 ∧ dp_id item.2 = rc_pathId rc.

Lemma path_by_id_Some workflow id p : path_by_id workflow id = Some p → dp_id p = id.
Proof. unfold path_by_id. intros E. apply last_Some_elem_of in E. by apply list_elem_of_filter in E as [? _]. Qed.

Lemma omap_full {A B} (f : A → option B) l : length (omap f l) = length l → Forall2 (λ a b, f a = Some b) l (omap f l).
Proof.
  induction l as [|a l IH]; cbn; intros H; [constructor|]. destruct (f a) as [b|] eqn:E; cbn in *; [constructor; [done|apply IH; lia]|].
  assert (length (omap f l) ≤ length l)%nat; [|lia]. clear. induction l as [|a l IH]; cbn; [done|]. destruct (f a); cbn; lia.
Qed.

(** With every path present, the ordered candidates are those of the group. *)
Lemma ordered_spec workflow g : group_ok g → length (ordered_candidates workflow g) = length (rg_candidates g) →
  Forall2 (item_of workflow) (rg_candidates g) (ordered_candidates workflow g).
Proof.
  intros Hg Hl. unfold ordered_candidates in *. rewrite (Permutation_length (sort_by_Permutation _ _)) in Hl. apply omap_full in Hl as Hf.
  assert (Forall2 (item_of workflow) (rg_candidates g) (omap (λ candidate, pair candidate <$> path_by_id workflow (rc_pathId candidate)) (rg_candidates g))) as Hitems.
  { eapply Forall2_impl; [exact Hf|]. intros rc item E. cbn in E. destruct (path_by_id workflow (rc_pathId rc)) as [p|] eqn:Ep; [|done]. injection E as <-.
    split_and!; [done|done|by apply path_by_id_Some in Ep]. }
  rewrite sort_by_id; [done|]. set (items := omap _ _) in *. apply StronglySorted_lookup. intros i j a b Ha Hb Hij.
  destruct (Forall2_lookup_r _ _ _ _ _ Hitems Ha) as (ra & Hra & <- & _), (Forall2_lookup_r _ _ _ _ _ Hitems Hb) as (rb & Hrb & <- & _).
  rewrite (group_rank g i), (group_rank g j) by done. lia.
Qed.

(** ** Creating the run of a group *)
Lemma insert_candidates_old runId now items db : (∀ item, item ∈ items → is_Some (rd_candidates db !! (runId, rc_rank item.1))) → fold_left (insert_candidate runId now) items db = db.
Proof.
  induction items as [|[rc p] items IH]; intros H; [done|]. cbn [fold_left]. replace (insert_candidate runId now db (rc, p)) with db; [apply IH; intros item Hin; apply H; by right|].
  unfold insert_candidate. destruct (H (rc, p)) as [c Hc]; [left|]. cbn in Hc. by rewrite Hc.
Qed.

Lemma insert_candidates_new runId now items db : (∀ i item, items !! i = Some item → rc_rank item.1 = i ∧ dp_id item.2 = rc_pathId item.1) →
  (∀ i j a b, items !! i = Some a → items !! j = Some b → rc_pathId a.1 = rc_pathId b.1 → i = j) → (∀ i, rd_candidates db !! (runId, i) = None) →
  let db' := fold_left (insert_candidate runId now) items db in
  (∀ i, match items !! i with Some item => ∃ c, rd_candidates db' !! (runId, i) = Some c ∧ candidate_for item.1 c_waiting False c | None => rd_candidates db' !! (runId, i) = None end) ∧
  (∀ id i, id ≠ runId → rd_candidates db' !! (id, i) = rd_candidates db !! (id, i)) ∧
  rd_fallbackRuns db' = rd_fallbackRuns db ∧ rd_intents db' = rd_intents db ∧ rd_drawn db' = rd_drawn db.
Proof.
  cbn zeta. induction items as [|[rc p] items IH] using rev_ind; intros Hitem Hinj Hnone; [done|]. rewrite fold_left_app. cbn [fold_left].
  assert (∀ i item, items !! i = Some item → (items ++ [(rc, p)]) !! i = Some item) as Hpre by (intros i item E; by apply lookup_app_l_Some).
  destruct IH as (Hrows & Ho & Er & Ei & Ed); [intros i item E; by apply Hitem, Hpre|intros i j a b Ea Eb; apply Hinj; by apply Hpre|done|].
  set (db1 := fold_left (insert_candidate runId now) items db) in *. assert ((items ++ [(rc, p)]) !! length items = Some (rc, p)) as Hlast by by apply list_lookup_middle.
  destruct (Hitem _ _ Hlast) as [Hrank Hp]. cbn [fst snd] in Hrank, Hp. pose proof (Hrows (length items)) as Hfree. rewrite lookup_ge_None_2 in Hfree by done.
  assert (candidates_of runId (λ _ c, bool_decide (fc_executionPathId c = dp_id p)) db1 = []) as Hnil.
  { destruct (candidates_of _ _ _) as [|[j c] rest] eqn:E; [done|]. exfalso. assert ((j, c) ∈ candidates_of runId (λ _ c, bool_decide (fc_executionPathId c = dp_id p)) db1) as Hin by (rewrite E; left).
    apply candidates_of_In in Hin as [Hc Hpath%bool_decide_eq_true]. specialize (Hrows j). destruct (items !! j) as [item|] eqn:Ej; [|congruence].
    destruct Hrows as (c' & Hc' & Hpath' & _). rewrite Hc in Hc'. injection Hc' as <-. assert (j = length items) as ->; [|by rewrite lookup_ge_None_2 in Ej].
    eapply Hinj; [by apply Hpre|exact Hlast|cbn; congruence]. }
  unfold insert_candidate. rewrite Hrank, Hfree, Hnil. cbn [with_candidates rd_candidates rd_fallbackRuns rd_intents rd_drawn]. split_and!; [|intros id i Hne; by rewrite lookup_insert_ne by congruence; apply Ho|done..].
  intros i. destruct (decide (i = length items)) as [->|Hne].
  - rewrite Hlast, lookup_insert_eq. eexists. split; [done|]. cbn. split_and!; [done..|]. split; [intros [? [=]]|done].
  - rewrite lookup_insert_ne by congruence. specialize (Hrows i). destruct (decide (i < length items)%nat).
    + by rewrite lookup_app_l by done.
    + rewrite lookup_ge_None_2 in Hrows by lia. rewrite lookup_ge_None_2; [done|]. rewrite length_app. cbn. lia.
Qed.

Lemma fresh_rows_items workflow g db runId : group_ok g → Forall2 (item_of workflow) (rg_candidates g) (ordered_candidates workflow g) →
  (∀ i, match ordered_candidates workflow g !! i with Some item => ∃ c, rd_candidates db !! (runId, i) = Some c ∧ candidate_for item.1 c_waiting False c
        | None => rd_candidates db !! (runId, i) = None end) → fresh_rows g db runId.
Proof.
  intros Hg Hf Hrows. split.
  - intros i rc Hrc. destruct (Forall2_lookup_l _ _ _ _ _ Hf Hrc) as (item & Hi & <- & _). specialize (Hrows i). by rewrite Hi in Hrows.
  - intros i Hi. specialize (Hrows i). rewrite lookup_ge_None_2 in Hrows; [done|]. by rewrite <-(Forall2_length _ _ _ Hf).
Qed.

Lemma run_intents_none runId db : (∀ i c, rd_candidates db !! (runId, i) = Some c → fc_intentId c = None) → run_intents runId db = [].
Proof.
  intros H. unfold run_intents. assert (∀ row, row ∈ candidates_of runId (λ _ _, true) db → fc_intentId row.2 = None) as Hall.
  { intros [i c] [Hc _]%candidates_of_In. by eapply H. }
  induction (candidates_of _ _ _) as [|row rows IH]; [done|]. cbn. rewrite (Hall row) by left. cbn. apply IH. intros r Hr. apply Hall. by right.
Qed.

Lemma run_intents_some runId db i c x t : rd_candidates db !! (runId, i) = Some c → fc_intentId c = Some x → rd_intents db !! x = Some t → (x, t) ∈ run_intents runId db.
Proof.
  intros Hc Hx Ht. unfold run_intents. apply list_elem_of_omap. exists (i, c). split; [by apply candidates_of_In|]. cbn. rewrite Hx. cbn. by rewrite Ht.
Qed.

Section Create.
Context {RegExp : Type} (new_RegExp : string → string → result RegExp) (regex_test : RegExp → string → result bool).
Context (sha256 : string → string) (uuid : nat → string) (groups : gmap string (list WorkflowRouteGroup)) (Hgroups : groups_ok groups).
Abbreviation allows := (allows new_RegExp regex_test).
Abbreviation processWorkflowIntentPath := (processWorkflowIntentPath new_RegExp regex_test uuid).
Abbreviation persistFallbackRouteGroup := (persistFallbackRouteGroup new_RegExp regex_test uuid).

(** No run that is there changes, and a new one starts at its first candidate. *)
Record extends (db db' : RunsDb) : Prop := mkExtends {
  ex_old : ∀ id r, rd_fallbackRuns db !! id = Some r → rd_fallbackRuns db' !! id = Some r ∧ ∀ i, rd_candidates db' !! (id, i) = rd_candidates db !! (id, i);
  ex_new : ∀ id r, rd_fallbackRuns db !! id = None → rd_fallbackRuns db' !! id = Some r →
    ∃ g phase, group_of groups r g ∧ represents g db' id r phase ∧ (phase = Probing 0 ∨ phase = Stopped 0) }.

Lemma extends_trans db1 db2 db3 : extends db1 db2 → extends db2 db3 → extends db1 db3.
Proof.
  intros [O1 N1] [O2 N2]. split.
  - intros id r Hr. destruct (O1 _ _ Hr) as [Hr2 Hc2], (O2 _ _ Hr2) as [Hr3 Hc3]. split; [done|]. intros i. by rewrite Hc3.
  - intros id r Hn Hr. destruct (rd_fallbackRuns db2 !! id) as [r2|] eqn:E; [|by apply N2]. destruct (O2 _ _ E) as [Hr2 Hc2]. rewrite Hr in Hr2. injection Hr2 as <-.
    destruct (N1 _ _ Hn E) as (g & phase & Hg & Hrep & Hp). exists g, phase. split_and!; [done| |done]. by eapply represents_frame.
Qed.

Lemma extends_frame db db' : rd_fallbackRuns db' = rd_fallbackRuns db → rd_candidates db' = rd_candidates db → extends db db'.
Proof. intros Er Ec. split; [intros id r Hr; by rewrite Er, Ec|]. intros id r Hn. by rewrite Er, Hn. Qed.

Lemma process_Some config request path runId now db x t branch db' : processWorkflowIntentPath config request path runId now db = Ok ((Some (x, t), branch), db') →
  rd_fallbackRuns db' = rd_fallbackRuns db ∧ rd_candidates db' = rd_candidates db ∧ keeps db db' ∧ rd_intents db' !! x = Some t ∧
  ti_executionPathId t = dp_id path ∧ ti_rootSourceSignalId t = rq_sourceSignalId request.
Proof.
  unfold WorkflowRuns.processWorkflowIntentPath. intros H. apply bind_Ok in H as ([reason|] & _ & H); [done|].
  destruct (find_row _ _) as [[y u]|] eqn:E.
  - injection H as -> -> <- <-. apply find_row_Some in E as [Hu Hk]. apply andb_true_iff in Hk as [H1%bool_decide_eq_true H2%bool_decide_eq_true].
    split_and!; try done. apply keeps_refl.
  - apply bind_Ok in H as (br & _ & H). apply bind_Ok in H as (account & _ & H). apply bind_Ok in H as (db1 & Hins & H). injection H as <- <- <- <-.
    pose proof (keeps_insert_intent _ _ _ _ Hins). apply insert_intent_Ok in Hins as [-> _]. cbn. rewrite lookup_insert_eq. done.
Qed.

Lemma process_None config request path runId now db branch db' : processWorkflowIntentPath config request path runId now db = Ok ((None, branch), db') →
  allows path request ≠ Ok None.
Proof.
  unfold WorkflowRuns.processWorkflowIntentPath. intros H. apply bind_Ok in H as ([reason|] & Ha & H); [by rewrite Ha|]. destruct (find_row _ _); [done|].
  apply bind_Ok in H as (br & _ & H). apply bind_Ok in H as (account & _ & H). by apply bind_Ok in H as (db1 & Hins & H).
Qed.

Lemma run_for_key request g id r : run_for request g id r = true ↔ fr_sourceSignalId r = rq_sourceSignalId request ∧ fr_workflowRevisionId r = rq_workflowRevisionId request ∧ fr_routeGroupKey r = rg_key g.
Proof. unfold run_for. rewrite !andb_true_iff, !bool_decide_eq_true. split; [intros [[? ?] ?]|intros (? & ? & ?)]; done. Qed.

Lemma insert_run_spec request g runId now db R r : let db1 := insert_run uuid request g runId now db in
  find_row (run_for request g) (rd_fallbackRuns db1) = Some (R, r) → rd_candidates db1 = rd_candidates db ∧ rd_intents db1 = rd_intents db ∧
  fr_sourceSignalId r = rq_sourceSignalId request ∧ fr_workflowRevisionId r = rq_workflowRevisionId request ∧ fr_routeGroupKey r = rg_key g ∧
  (rd_fallbackRuns db !! R = Some r ∧ rd_fallbackRuns db1 = rd_fallbackRuns db ∨
   rd_fallbackRuns db !! R = None ∧ rd_fallbackRuns db1 = <[R := r]> (rd_fallbackRuns db) ∧ fr_status r = probing ∧ fr_currentRank r = 0%nat ∧
     ∀ id r0, rd_fallbackRuns db !! id = Some r0 → run_for request g id r0 = false).
Proof.
  cbn zeta. intros H. pose proof H as Hf. apply find_row_Some in Hf as [Hr Hk%run_for_key].
  unfold insert_run in *. destruct (rd_fallbackRuns (draw db) !! uuid (rd_drawn db)) eqn:Eid; [split_and!; try apply Hk; try done; by left|].
  destruct (find_row (run_for request g) (rd_fallbackRuns (draw db))) eqn:Eold; [split_and!; try apply Hk; try done; by left|].
  pose proof (find_row_None _ _ Eold) as Hnone. cbn in Hr, Eid, Hnone. split_and!; try apply Hk; try done. right. destruct (decide (R = uuid (rd_drawn db))) as [->|Hne].
  - rewrite lookup_insert_eq in Hr. injection Hr as <-. split_and!; try done.
  - rewrite lookup_insert_ne in Hr by done. apply Hnone in Hr. exfalso. assert (run_for request g R r = true) as E by (by apply run_for_key). congruence.
Qed.

(** A new run joins the others. *)
Lemma runs_ok_new db db' runId r g phase : runs_ok groups db → rd_fallbackRuns db !! runId = None → rd_fallbackRuns db' = <[runId := r]> (rd_fallbackRuns db) →
  (∀ id i, id ≠ runId → rd_candidates db' !! (id, i) = rd_candidates db !! (id, i)) → group_of groups r g → represents g db' runId r phase → phase = Probing 0 ∨ phase = Stopped 0 →
  (∀ id r0, rd_fallbackRuns db !! id = Some r0 → ¬ same_run r0 r) → runs_ok groups db' ∧ extends db db'.
Proof.
  intros Hok Hnew Er Hc Hg Hrep Hphase Hkey. split; [split|split].
  - intros id r0. rewrite Er. destruct (decide (id = runId)) as [->|Hne]; [rewrite lookup_insert_eq; intros [= <-]; by exists g, phase|rewrite lookup_insert_ne by done].
    intros Hr0. destruct (ok_runs _ _ Hok _ _ Hr0) as (g0 & ph & Hg0 & Hrep0). exists g0, ph. split; [done|]. eapply represents_frame; [done|intros i; by apply Hc|done|done].
  - intros id i c Hi. rewrite Er. destruct (decide (id = runId)) as [->|Hne]; [rewrite lookup_insert_eq; by eexists|]. rewrite lookup_insert_ne by done. rewrite Hc in Hi by done.
    by eapply ok_candidates.
  - intros id id' r1 r2. rewrite Er. destruct (decide (id = runId)) as [->|Hne], (decide (id' = runId)) as [->|Hne']; rewrite ?lookup_insert_eq, ?lookup_insert_ne by done; [done|..].
    + intros [= <-] H2 Hs. destruct (Hkey _ _ H2). destruct Hs as (E1 & E2 & E3). split_and!; by symmetry.
    + intros H1 [= <-] Hs. by destruct (Hkey _ _ H1).
    + by apply (ok_keys _ _ Hok).
  - intros id r0 Hr0. assert (id ≠ runId) by (intros ->; congruence). rewrite Er, lookup_insert_ne by done. split; [done|]. intros i. by apply Hc.
  - intros id r0 Hn Hr0. destruct (decide (id = runId)) as [->|Hne]; [|by rewrite Er, lookup_insert_ne, Hn in Hr0].
    rewrite Er, lookup_insert_eq in Hr0. injection Hr0 as <-. by exists g, phase.
Qed.

(** The primary candidate of a fresh run gets its intent: the run probes it, or stops. *)
Lemma start_run g db R r x t now db' : group_ok g → (1 < length (rg_candidates g))%nat → fresh_rows g db R → rd_fallbackRuns db !! R = Some r → fr_status r = probing →
  fr_currentRank r = 0%nat → intents_ok db → rd_intents db !! x = Some t → ti_rootSourceSignalId t = fr_sourceSignalId r → ti_executionPathId t = rg_primaryPathId g →
  assign_intent R 0 x (λ c, set_candidate (if bool_decide (ti_status t = intent_pending) then c_pending else c_stopped) (ti_blockReason t) (fc_details c) now c) db = Ok db' →
  let db2 := if bool_decide (ti_status t = intent_pending) then db' else stop_primary R (ti_blockReason t) now db' in
  (∃ f phase, rd_fallbackRuns db2 = alter f R (rd_fallbackRuns db) ∧ (∀ r, same_run r (f r)) ∧ represents g db2 R (f r) phase ∧ (phase = Probing 0 ∨ phase = Stopped 0)) ∧ intents_ok db2 ∧
  ∀ id i, id ≠ R → rd_candidates db2 !! (id, i) = rd_candidates db !! (id, i).
Proof.
  intros Hg Hl Hfresh Hr Es Ek Hi Ht Hroot Hpath Hass. cbn zeta. pose proof (proj1 (assign_intent_Ok _ _ _ _ _ _ Hass)) as E. destruct Hfresh as [Hrows Hnone].
  assert (intents_ok db') as Hi'.
  { eapply (intents_ok_assign db db' R 0 x _ t r Hass Hi); [by destruct (bool_decide _)|done|done|done| |intros i c y Hlt; lia|].
    - intros c Hc. destruct (rg_candidates g !! 0%nat) as [rc|] eqn:E0; [|apply lookup_ge_None in E0; lia]. destruct (Hrows _ _ E0) as (c' & Hc' & Hp & _).
      rewrite Hc in Hc'. injection Hc' as <-. rewrite Hp, Hpath. pose proof (go_primary _ Hg) as Hpr. destruct (rg_candidates g); [done|]. cbn in *. congruence.
    - intros i c _ Hc. destruct (rg_candidates g !! i) as [rc|] eqn:Ei; [|apply lookup_ge_None in Ei; by rewrite Hnone in Hc]. destruct (Hrows _ _ Ei) as (c' & Hc' & _ & _ & _ & Hx).
      rewrite Hc in Hc'. injection Hc' as <-. destruct (fc_intentId c); [|done]. destruct Hx as [Hx _]. destruct Hx. by eexists. }
  case_bool_decide as Hs.
  - split_and!; [|done|intros id i Hne; by rewrite E, update_other]. exists id, (Probing 0). split_and!; [rewrite E; cbn; by rewrite alter_id|done| |by left]. rewrite E. cbn [id].
    eapply first_rows; [by split|lia|done|done].
  - unfold stop_primary. split_and!.
    + eexists _, (Stopped 0). split; [rewrite E; reflexivity|]. split; [done|]. split; [|by right].
      eapply represents_frame; [eapply (first_stopped_rows g db R (set_run stopped 0 None None now None r) x (ti_blockReason t) (Some "PRIMARY_ROUTE_BLOCKED") now); [by split|lia|done|done]| |done|done].
      intros i. by rewrite E.
    + eapply intents_ok_keeps; [|exact Hi']. eapply keeps_trans; [|by apply keeps_update]. by apply keeps_run.
    + intros id i Hne. rewrite update_other by done. cbn [update_run with_fallbackRuns rd_candidates]. by rewrite E, update_other.
Qed.

Definition steady (db db' : RunsDb) : Prop := runs_ok groups db' ∧ intents_ok db' ∧ extends db db'.

(** A run that is there keeps its candidates, and answers their intents. *)
Lemma existing_run db R r g : runs_ok groups db → intents_ok db → rd_fallbackRuns db !! R = Some r → group_of groups r g → group_ok g →
  (∀ rc, rc ∈ rg_candidates g → is_Some (rd_candidates db !! (R, rc_rank rc))) ∧ run_intents R db ≠ [].
Proof using Hgroups.
  intros Hok Hi Hr Hg Hgok. destruct (ok_runs _ _ Hok _ _ Hr) as (g' & phase & Hg' & Hrep). assert (g' = g) as -> by by eapply group_of_unique. split.
  - intros rc [i Hi']%list_elem_of_lookup_1. rewrite (group_rank g i) by done. destruct (re_rows _ _ _ _ _ Hrep _ _ Hi') as (c & Hc & _). by eexists.
  - pose proof (re_bound _ _ _ _ _ Hrep). destruct (candidate_row _ _ _ _ _ 0 Hrep) as (rc & c & _ & Hc & _ & _ & _ & Hx); [lia|].
    destruct (proj2 Hx) as [x Ex]; [lia|]. destruct (ok_intents _ Hi _ _ _ _ _ Hc Ex Hr) as (t & Ht & _). pose proof (run_intents_some _ _ _ _ _ _ Hc Ex Ht) as Hin.
    intros E. rewrite E in Hin. by apply not_elem_of_nil in Hin.
Qed.

Lemma persist_fallback_ok config request workflow g gs runId now db res db' primary : runs_ok groups db → intents_ok db →
  groups !! rq_workflowRevisionId request = Some gs → g ∈ gs → path_by_id workflow (rg_primaryPathId g) = Some primary → allows primary request = Ok None →
  persistFallbackRouteGroup config request workflow g runId now db = Ok (res, db') → steady db db'.
Proof using Hgroups.
  intros Hok Hi Hgs Hin Hprimary Hallows H. destruct (Hgroups _ _ Hgs) as [_ Hall]. rewrite Forall_forall in Hall. pose proof (Hall g Hin) as Hg. clear Hall.
  unfold WorkflowRuns.persistFallbackRouteGroup in H. destruct (ordered_candidates workflow g) as [|[rc0 path0] [|item1 items]] eqn:Eord; [done..|].
  set (ordered := (rc0, path0) :: item1 :: items) in *. destruct (Nat.eqb_spec (length ordered) (length (rg_candidates g))) as [Hl|]; [cbn [negb] in H|cbn [negb] in H; discriminate H].
  assert (Forall2 (item_of workflow) (rg_candidates g) ordered) as Hitems by (rewrite <-Eord; apply ordered_spec; [done|by rewrite Eord]).
  assert (path0 = primary) as ->.
  { destruct (Forall2_lookup_r _ _ _ 0 _ Hitems eq_refl) as (rc & Hrc & _ & Hp & _). pose proof (go_primary _ Hg) as Hpr. destruct (rg_candidates g); [done|]. cbn in *. congruence. }
  apply bind_Ok in H as ([R r] & Hfind & H). unfold or_throw in Hfind. destruct (find_row _ _) as [row|] eqn:Ef in Hfind; [|done]. injection Hfind as ->.
  destruct (insert_run_spec _ _ _ _ _ _ _ Ef) as (Ec & Ei & Esrc & Erev & Ekey & Hcase). set (db1 := insert_run uuid request g runId now db) in *.
  assert (group_of groups r g) as Hgr by (exists gs; by rewrite Erev). set (db2 := fold_left (insert_candidate R now) ordered db1) in H. destruct Hcase as [[Hr Er]|(Hr & Er & Es & Ek & Hkey)].
  - destruct (existing_run db R r g) as [Hrows Hne]; [done..|]. assert (db2 = db1) as E2.
    { apply insert_candidates_old. intros item [i Hitem]%list_elem_of_lookup_1. rewrite Ec. destruct (Forall2_lookup_r _ _ _ _ _ Hitems Hitem) as (rc & Hrc & <- & _).
      apply Hrows. by eapply list_elem_of_lookup_2. }
    rewrite E2 in H. replace (run_intents R db1) with (run_intents R db) in H by (unfold run_intents, candidates_of; by rewrite Ec, Ei).
    destruct (run_intents R db); [done|]. injection H as _ <-. split_and!; [by eapply runs_ok_ext|by eapply intents_ok_ext|by apply extends_frame].
  - destruct (insert_candidates_new R now ordered db1) as (Hrows & Hoth & Er2 & Ei2 & _).
    { intros i item Hitem. destruct (Forall2_lookup_r _ _ _ _ _ Hitems Hitem) as (rc & Hrc & <- & _ & Hid). split; [by apply (group_rank g)|done]. }
    { intros i j a b Ha Hb E. destruct (Forall2_lookup_r _ _ _ _ _ Hitems Ha) as (ra & Hra & <- & _), (Forall2_lookup_r _ _ _ _ _ Hitems Hb) as (rb & Hrb & <- & _).
      by eapply (group_path_inj g). }
    { intros i. rewrite Ec. destruct (rd_candidates db !! (R, i)) as [c|] eqn:E; [|done]. apply (ok_candidates _ _ Hok) in E. rewrite Hr in E. by destruct E. }
    fold db2 in Hrows, Hoth, Er2, Ei2. rewrite <-Eord in Hrows. apply fresh_rows_items in Hrows as Hfresh; [|done|by rewrite Eord].
    assert (∀ i c, rd_candidates db2 !! (R, i) = Some c → fc_intentId c = None) as Hnone.
    { intros i c Hc. destruct Hfresh as [Hf1 Hf2]. destruct (rg_candidates g !! i) as [rc|] eqn:E; [|apply lookup_ge_None in E; by rewrite Hf2 in Hc].
      destruct (Hf1 _ _ E) as (c' & Hc' & _ & _ & _ & Hx). rewrite Hc in Hc'. injection Hc' as <-. destruct (fc_intentId c); [|done]. destruct Hx as [[] _]. by eexists. }
    rewrite run_intents_none in H by done. apply bind_Ok in H as ([[intent branch] db3] & Hproc & H). destruct intent as [[x t]|]; [|by apply process_None in Hproc].
    apply process_Some in Hproc as (Er3 & Ec3 & K3 & Ht & Hpath & Hroot). apply bind_Ok in H as (db4 & Hass & H). injection H as _ <-.
    assert (keeps db db2) as K2.
    { split; [|intros id r0; rewrite Er2, Er|rewrite Ei2, Ei; apply grows_same].
      - intros [id i] c Hc Hx. destruct (decide (id = R)) as [->|Hne]; [apply Hnone in Hc; rewrite Hc in Hx; by destruct Hx|]. rewrite Hoth, Ec in Hc by done. by exists c.
      - destruct (decide (id = R)) as [->|Hne]; [intros _; right; intros i c; apply Hnone|rewrite lookup_insert_ne by done; intros Hr0; left; by exists r0]. }
    destruct (start_run g db3 R r x t now db4) as ((f & phase & Ef4 & Hf & Hrep & Hphase) & Hi5 & Ho5); try done.
    + unfold ordered in Hl. cbn in Hl. lia.
    + destruct Hfresh as [Hf1 Hf2]. split; by rewrite Ec3.
    + by rewrite Er3, Er2, Er, lookup_insert_eq.
    + eapply intents_ok_keeps; [|exact Hi]. by eapply keeps_trans.
    + congruence.
    + rewrite Hpath. by eapply path_by_id_Some.
    + destruct (runs_ok_new db (if bool_decide (ti_status t = intent_pending) then db4 else stop_primary R (ti_blockReason t) now db4) R (f r) g phase) as [Hok' Hext]; try done.
      * rewrite Ef4, Er3, Er2, Er. apply map_eq. intros id. destruct (decide (id = R)) as [->|]; [by rewrite lookup_alter_eq, !lookup_insert_eq|by rewrite lookup_alter_ne, !lookup_insert_ne].
      * intros id i Hne. by rewrite Ho5, Ec3, Hoth, Ec.
      * destruct Hgr as (gs' & ? & ? & ?). destruct (Hf r) as (_ & E2 & E3). exists gs'. rewrite <-E2, <-E3. done.
      * intros id r0 Hr0 Hs. pose proof (Hkey _ _ Hr0) as Hk. destruct (Hf r) as (E1 & E2 & E3), Hs as (S1 & S2 & S3).
        assert (run_for request g id r0 = true); [apply run_for_key; split_and!; congruence|congruence].
Qed.

Lemma steady_trans db1 db2 db3 : extends db1 db2 → steady db2 db3 → steady db1 db3.
Proof. intros H1 (H2 & H3 & H4). split_and!; [done..|by eapply extends_trans]. Qed.

Lemma steady_frame db db' : runs_ok groups db → intents_ok db → keeps db db' → rd_fallbackRuns db' = rd_fallbackRuns db → rd_candidates db' = rd_candidates db → steady db db'.
Proof. intros Hok Hi Hk Er Ec. split_and!; [by eapply runs_ok_ext|by eapply intents_ok_keeps|by apply extends_frame]. Qed.

Lemma process_steady config request path runId now db res db' : runs_ok groups db → intents_ok db →
  processWorkflowIntentPath config request path runId now db = Ok (res, db') → steady db db'.
Proof.
  intros Hok Hi H. destruct res as [[[x t]|] branch].
  - apply process_Some in H as (Er & Ec & Hk & _). by apply steady_frame.
  - unfold WorkflowRuns.processWorkflowIntentPath in H. apply bind_Ok in H as ([reason|] & _ & H); [injection H as _ <-; apply steady_frame; [done..|apply keeps_refl|done|done]|].
    destruct (find_row _ _); [done|]. apply bind_Ok in H as (br & _ & H). apply bind_Ok in H as (account & _ & H). by apply bind_Ok in H as (db1 & Hins & H).
Qed.

Lemma persist_group_steady config request workflow gs runId now acc g acc' : runs_ok groups acc.2 → intents_ok acc.2 → groups !! rq_workflowRevisionId request = Some gs → g ∈ gs →
  persist_group new_RegExp regex_test uuid config request workflow runId now acc g = Ok acc' → steady acc.2 acc'.2.
Proof using Hgroups.
  destruct acc as [[results branches] db]. cbn [snd]. intros Hok Hi Hgs Hin H. unfold persist_group in H. apply bind_Ok in H as (primary & Hp & H).
  unfold or_throw in Hp. destruct (path_by_id workflow (rg_primaryPathId g)) as [p|] eqn:Ep; [|done]. injection Hp as ->. apply bind_Ok in H as ([reason|] & Ha & H).
  - injection H as <-. apply steady_frame; [done..|apply keeps_refl|done|done].
  - destruct (1 <? length (rg_candidates g))%nat.
    + apply bind_Ok in H as ([[intents more] db1] & Hpersist & H). injection H as <-. by eapply persist_fallback_ok.
    + apply bind_Ok in H as ([[intent branch] db1] & Hproc & H). injection H as <-. by eapply process_steady.
Qed.

Lemma insert_signal_run_steady request now db : runs_ok groups db → intents_ok db → steady db (insert_signal_run sha256 uuid request now db).
Proof.
  intros Hok Hi. unfold insert_signal_run. destruct (rd_signalRuns (draw db) !! _), (find_row (signal_run_for request) (rd_signalRuns (draw db))); apply steady_frame; try done;
    first [apply keeps_draw|eapply keeps_trans; [apply keeps_draw|apply keeps_signalRuns]].
Qed.

Lemma create_steady config request now db res db' : runs_ok groups db → intents_ok db → wf_revisions (cf_workflows config) = groups →
  createWorkflowTradingIntents new_RegExp regex_test sha256 uuid config request now db = Ok (res, db') → steady db db'.
Proof using Hgroups.
  intros Hok Hi Hrev H. unfold createWorkflowTradingIntents in H. case_bool_decide; [done|]. apply bind_Ok in H as (workflow & Hw & H).
  unfold or_throw in Hw. destruct (getWorkflowRevisionById _ _) as [w|] eqn:Ew; [|done]. injection Hw as ->. apply bind_Ok in H as ([selected|] & Hsel & H).
  2: { injection H as _ <-. apply steady_frame; [done..|apply keeps_refl|done|done]. }
  assert (∃ gs, groups !! rq_workflowRevisionId request = Some gs ∧ selected ⊆ gs) as (gs & Hgs & Hsub).
  { unfold getWorkflowRevisionById in Ew. rewrite Hrev in Ew. destruct (groups !! rq_workflowRevisionId request) as [gs|]; [|done]. cbn in Ew. injection Ew as <-. exists gs. split; [done|].
    unfold requested_groups in Hsel. cbn [rv_routeGroups rv_paths] in Hsel. destruct (set_values <$> rq_executionPathIds request) as [l|].
    - destruct (negb _); [done|]. case_bool_decide; [done|]. case_bool_decide; [done|]. injection Hsel as <-. intros g. rewrite list_elem_of_filter. by intros [_ ?].
    - case_bool_decide; [done|]. injection Hsel as <-. intros g. rewrite list_elem_of_filter. by intros [_ ?]. }
  unfold persistWorkflowTradingIntents in H. apply bind_Ok in H as ([runId run] & Hrun & H). apply bind_Ok in H as ([[results branches] db2] & Hfold & H). injection H as _ <-.
  pose proof (insert_signal_run_steady request now db Hok Hi) as (Hok1 & Hi1 & Hext1). set (db1 := insert_signal_run sha256 uuid request now db) in *.
  assert (steady db1 db2) as Hs.
  { apply (fold_result_inv _ (λ _ acc, steady db1 acc.2) _ _ _) in Hfold; [exact Hfold| |split_and!; [exact Hok1|exact Hi1|by apply extends_frame]].
    intros k g acc acc' [l' Hl'] (Hok2 & Hi2 & Hext2) Hstep. eapply steady_trans; [exact Hext2|]. refine (persist_group_steady config (with_receivedAt (su_createdAt run) request) workflow gs runId now acc g acc' Hok2 Hi2 Hgs _ Hstep).
    apply Hsub. rewrite Hl', <-app_assoc. apply elem_of_app. right. left. }
  destruct Hs as (Hok2 & Hi2 & Hext2). eapply steady_trans; [exact Hext1|]. eapply steady_trans; [exact Hext2|].
  set (db3 := with_signalRuns _ db2). assert (steady db2 db3) as (Hok3 & Hi3 & Hext3) by (apply steady_frame; [done..|apply keeps_signalRuns|done|done]).
  eapply steady_trans; [exact Hext3|]. change (rd_fallbackRuns db3) with (rd_fallbackRuns db2).
  destruct (find_row _ (rd_fallbackRuns db2)) as [[id r]|]; [|apply steady_frame; [done..|apply keeps_refl|done|done]].
  destruct (refresh_frame id now db3) as (_ & Er & Ec & _). apply steady_frame; [done..|apply keeps_refresh|done|done].
Qed.
End Create.

(** ** Steps *)
Section Steps.
Context {RegExp : Type} (new_RegExp : string → string → result RegExp) (regex_test : RegExp → string → result bool).
Context (sha256 : string → string) (uuid : nat → string) (groups : gmap string (list WorkflowRouteGroup)).

Definition no_runs : RunsDb := mkRuns ∅ ∅ ∅ ∅ 0.

(** The calls, and what else happens to an intent: its status moves along its
    life cycle.  The stored revisions do not change; the candidates keep
    referring to their path and account (foreign keys). *)
Inductive step : RunsDb → RunsDb → Prop :=
| step_create config request now db res db' : wf_revisions (cf_workflows config) = groups →
    createWorkflowTradingIntents new_RegExp regex_test sha256 uuid config request now db = Ok (res, db') → step db db'
| step_advance config x intent reason msg now db res db' : references config db → paths_keyed config → loaded db x intent →
    advanceWorkflowFallbackOnEligibleFailure uuid config x intent reason msg now db = Ok (res, db') → step db db'
| step_select x now db : step db (markWorkflowFallbackSelected x now db)
| step_stop x reason now db : step db (stopWorkflowFallback x reason now db)
| step_intent x t status blockReason error now db : rd_intents db !! x = Some t → status ∈ INTENT_TRANSITIONS (ti_status t) →
    step db (with_intents (<[x := set_intent_status status blockReason error now t]> (rd_intents db)) db).

Lemma no_runs_ok : runs_ok groups no_runs ∧ intents_ok no_runs.
Proof.
  split; split; cbn.
  - intros id r. by rewrite lookup_empty.
  - intros id i c. by rewrite lookup_empty.
  - intros id id' r r'. by rewrite lookup_empty.
  - intros k k' c c' x. by rewrite lookup_empty.
  - intros id i c x r. by rewrite lookup_empty.
  - intros id i j c c' x _. by rewrite lookup_empty.
Qed.

Context (Hgroups : groups_ok groups).

Lemma step_ok db db' : runs_ok groups db → intents_ok db → step db db' → runs_ok groups db' ∧ intents_ok db' ∧ (moves groups db db' ∨ extends groups db db').
Proof using Hgroups.
  intros Hok Hi H. destruct H as [config request now db res db' Hrev H|config x intent reason msg now db res db' Href Hkey Hl H|x now db|x reason now db|x t status br err now db Ht Hs].
  - apply (create_steady _ _ _ _ _ Hgroups) in H as (? & ? & ?); [by auto|done..].
  - apply (advance_moved _ _ groups) in H as (? & ? & ?); [by auto|done..].
  - destruct (select_run_moved groups db x now) as (? & ? & ?); [done..|by auto].
  - destruct (stop_run_moved groups db x reason now) as (? & ? & ?); [done..|by auto].
  - split_and!; [by apply (runs_ok_ext groups db)| |left; by apply moves_frame]. eapply intents_ok_keeps; [|exact Hi]. apply keeps_intents. intros y u Hy.
    destruct (decide (y = x)) as [->|Hne]; [|exists u; by rewrite lookup_insert_ne]. rewrite Ht in Hy. injection Hy as <-. rewrite lookup_insert_eq.
    eexists. split_and!; [done..|]. intros E. rewrite E in Hs. by apply not_elem_of_nil in Hs.
Qed.

Lemma runs_reachable_ok db : rtc step no_runs db → runs_ok groups db ∧ intents_ok db.
Proof using Hgroups.
  intros H. refine (rtc_ind_r (λ db, runs_ok groups db ∧ intents_ok db) no_runs _ _ db H); [apply no_runs_ok|].
  intros db1 db2 _ Hstep [Hok Hi]. destruct (step_ok db1 db2 Hok Hi Hstep) as (? & ? & _). done.
Qed.

(** C4: the fallback runs refine a small state machine.  At any time a run of
    [n] candidates is in one phase, which fixes its status, its rank and the
    status of every candidate: it probes candidate [k] after the candidates
    before it were unavailable and while those after it wait, or it has ended
    selected, stopped or exhausted.  A call leaves a run as it is, moves it to
    its next candidate, or ends it; an ended run never changes.  A new run
    probes its first candidate or is stopped at it. *)
Theorem fallback_runs_refine db db' : rtc step no_runs db → step db db' →
  (∀ id r, rd_fallbackRuns db !! id = Some r → ∃ g phase r' phase', group_of groups r g ∧ represents g db id r phase ∧
     rd_fallbackRuns db' !! id = Some r' ∧ represents g db' id r' phase' ∧ (phase' = phase ∨ move (length (rg_candidates g)) phase phase')) ∧
  (∀ id r, rd_fallbackRuns db !! id = None → rd_fallbackRuns db' !! id = Some r →
     ∃ g phase, group_of groups r g ∧ represents g db' id r phase ∧ (phase = Probing 0 ∨ phase = Stopped 0)).
Proof using Hgroups.
  intros Hreach Hstep. destruct (runs_reachable_ok _ Hreach) as [Hok Hi]. destruct (step_ok _ _ Hok Hi Hstep) as (_ & _ & [[H1 H2]|[H1 H2]]).
  - split; [|intros id r Hn; by rewrite (H2 _ Hn)]. intros id r Hr. destruct (ok_runs _ _ Hok _ _ Hr) as (g & phase & Hg & Hrep).
    destruct (H1 _ _ _ _ Hr Hg Hrep) as (r' & phase' & Hr' & _ & Hrep' & Hm). by exists g, phase, r', phase'.
  - split; [|exact H2]. intros id r Hr. destruct (ok_runs _ _ Hok _ _ Hr) as (g & phase & Hg & Hrep). destruct (H1 _ _ Hr) as [Hr' Hc].
    exists g, phase, r, phase. split_and!; [done..| |by left]. by eapply represents_frame.
Qed.

(** C5: a signal is never traded twice along a chain.  Every intent of a
    candidate is that of its path and of the signal of the run, and of any two
    intents of one run at least one is blocked, whatever calls were made and
    however the other intents went on. *)
Theorem one_account_per_chain db id r i c x : rtc step no_runs db → rd_fallbackRuns db !! id = Some r → rd_candidates db !! (id, i) = Some c → fc_intentId c = Some x →
  ∃ t, rd_intents db !! x = Some t ∧ ti_executionPathId t = fc_executionPathId c ∧ ti_rootSourceSignalId t = fr_sourceSignalId r ∧
    ∀ j c' y u, j ≠ i → rd_candidates db !! (id, j) = Some c' → fc_intentId c' = Some y → rd_intents db !! y = Some u →
      ti_status t = intent_blocked ∨ ti_status u = intent_blocked.
Proof using Hgroups.
  intros Hreach Hr Hc Hx. destruct (runs_reachable_ok _ Hreach) as [_ Hi]. destruct (ok_intents _ Hi _ _ _ _ _ Hc Hx Hr) as (t & Ht & Hp & Hs).
  exists t. split_and!; [done..|]. intros j c' y u Hne Hc' Hy Hu. destruct (decide (i < j)%nat) as [Hlt|Hge].
  - destruct (ok_blocked _ Hi id i j c c' x) as (t' & Ht' & E); [done..|by eexists|]. left. congruence.
  - destruct (ok_blocked _ Hi id j i c' c y) as (u' & Hu' & E); [lia|done|done|done|by eexists|]. right. congruence.
Qed.

Abbreviation advance config := (advanceWorkflowFallbackOnEligibleFailure uuid config).

Lemma current_row_found db id k c x r : intents_ok db → rd_candidates db !! (id, k) = Some c → fc_intentId c = Some x → rd_fallbackRuns db !! id = Some r →
  current_row x db = Some (mkCurrent id k r c).
Proof.
  intros Hi Hc Hx Hr. unfold current_row. destruct (find_row _ _) as [[key c']|] eqn:E.
  - apply find_row_Some in E as [Hc' Hx'%bool_decide_eq_true]. assert (key = (id, k)) as -> by by eapply (ok_unique _ Hi). rewrite Hc in Hc'. injection Hc' as <-. cbn. by rewrite Hr.
  - apply find_row_None with (k := (id, k)) (v := c) in E; [|done]. by rewrite bool_decide_true in E.
Qed.

Lemma insert_intent_fresh x t db : x ∉ dom (rd_intents db) →
  (∀ y u, rd_intents db !! y = Some u → ti_rootSourceSignalId u = ti_rootSourceSignalId t → ti_executionPathId u ≠ ti_executionPathId t) →
  insert_intent x t db = Ok (with_intents (<[x := t]> (rd_intents db)) db).
Proof.
  intros Hx Hp. unfold insert_intent. rewrite bool_decide_false by done. cbn [orb]. destruct (existsb _ _) eqn:E; [|done]. exfalso.
  apply existsb_exists in E as ([y u] & Hin%list_elem_of_In & Hk). apply elem_of_map_to_list in Hin. cbn in Hk.
  apply andb_true_iff in Hk as [H1%bool_decide_eq_true H2%bool_decide_eq_true]. by eapply Hp.
Qed.

Lemma assign_intent_fresh runId rank x f db : (∀ key c, rd_candidates db !! key = Some c → fc_intentId c ≠ Some x) →
  assign_intent runId rank x f db = Ok (update_candidates runId (at_rank rank) (λ c, with_intent x (f c)) db).
Proof.
  intros H. unfold assign_intent. destruct (existsb _ _) eqn:E; [|done]. exfalso. apply existsb_exists in E as ([key c] & Hin%list_elem_of_In & Hk).
  apply elem_of_map_to_list in Hin. cbn in Hk. apply andb_true_iff in Hk as [Hx%bool_decide_eq_true _]. by eapply H.
Qed.

(** What becomes of the run of an advanced intent. *)
Definition becomes (g : WorkflowRouteGroup) (db' : RunsDb) (id : string) (phase : Phase) : Prop := ∃ r', rd_fallbackRuns db' !! id = Some r' ∧ represents g db' id r' phase.

Lemma moved_becomes g db db' id r phase : rd_fallbackRuns db !! id = Some r → run_moved g db db' id r phase → becomes g db' id phase.
Proof. intros Hr (f & Ef & _ & Hrep & _). exists (f r). rewrite Ef, lookup_alter_eq, Hr. done. Qed.

(** A promotion succeeds when the new identifier and path are free. *)
Lemma promote_succeeds config db current next intent reason msg now k c br account : intents_ok db → runs_ok groups db → cu_rank current = k → nx_rank next = S k →
  rd_candidates db !! (cu_runId current, S k) = Some c → blockReasonFor config (nx_path next) = Ok br → cf_accounts config !! dp_accountId (nx_path next) = Some account →
  uuid (rd_drawn db) ∉ dom (rd_intents db) →
  (∀ y u, rd_intents db !! y = Some u → ti_rootSourceSignalId u = ti_rootSourceSignalId intent → ti_executionPathId u ≠ dp_id (nx_path next)) →
  ∃ a db', promoteFallbackCandidate uuid config current next intent reason msg now db = Ok (a, db') ∧ fa_advanced a = bool_decide (br = None) ∧
    fa_toAccountId a = Some (nx_accountId next) ∧ (∃ c', rd_candidates db' !! (cu_runId current, S k) = Some c' ∧ fc_intentId c' = Some (uuid (rd_drawn db))) ∧
    ∃ t, rd_intents db' !! uuid (rd_drawn db) = Some t ∧ ti_status t = intent_status br ∧ ti_accountId t = dp_accountId (nx_path next) ∧ ti_createdAt t = fr_createdAt (cu_run current).
Proof.
  intros Hi Hok Hk Hn Hc Hbr Hacc Hfresh Hpath. unfold promoteFallbackCandidate, insertPromotedFallbackIntent. set (db1 := leave_candidate _ _ _ _ _ _).
  rewrite Hbr. cbn [mbind result_bind or_throw]. rewrite Hacc. cbn [mbind result_bind or_throw]. rewrite insert_intent_fresh by done. cbn [mbind result_bind].
  change (rd_drawn db1) with (rd_drawn db). change (rd_intents (draw db1)) with (rd_intents db). set (x := uuid (rd_drawn db)) in *. set (t := mkIntent _ _ _ _ _ _ _ _ _ _ _ _ _ _ _ _ _ _).
  assert (∀ key c0, rd_candidates db1 !! key = Some c0 → fc_intentId c0 ≠ Some x) as Hfree.
  { intros [id i] c0 Hc0 Hx. unfold db1, leave_candidate in Hc0. rewrite lookup_update in Hc0. destruct (rd_candidates db !! (id, i)) as [c1|] eqn:E1; [|done].
    assert (fc_intentId c1 = Some x) as Hx1 by (injection Hc0 as <-; revert Hx; by destruct (_ && _)). destruct (ok_candidates _ _ Hok _ _ _ E1) as [r Hr].
    destruct (ok_intents _ Hi _ _ _ _ _ E1 Hx1 Hr) as (u & Hu & _). apply Hfresh. by eapply elem_of_dom_2. }
  rewrite assign_intent_fresh by exact Hfree. cbn [mbind result_bind]. rewrite Hn. assert (bool_decide (S k = cu_rank current) = false) as Hne by (apply bool_decide_false; lia).
  assert (∀ R now db, rd_candidates (refreshWorkflowSignalRunFromFallback R now db) = rd_candidates db) as Ec by (intros R now' d; apply refresh_frame).
  assert (∀ R now db, rd_intents (refreshWorkflowSignalRunFromFallback R now db) = rd_intents db) as Ei by (intros R now' d; apply refresh_frame).
  assert (∃ c1, rd_candidates (update_candidates (cu_runId current) (at_rank (S k)) (λ c, with_intent x (set_candidate (match br with None => c_pending | Some _ => c_stopped end) br
    (fc_details c) now c)) (with_intents (<[x := t]> (rd_intents db)) (draw db1))) !! (cu_runId current, S k) = Some c1 ∧ fc_intentId c1 = Some x) as (c1 & Hc1 & Hx1).
  { rewrite lookup_update. cbn [with_intents draw rd_candidates]. unfold db1, leave_candidate. rewrite lookup_update, Hc. cbn [fmap option_fmap option_map]. eexists. split; [reflexivity|].
    unfold at_rank. rewrite !bool_decide_true by done. done. }
  destruct br as [b|]; eexists _, _; (split; [reflexivity|]); (split; [done|]); (split; [done|]); rewrite Ec, Ei; split.
  - unfold stop_candidates at 1. rewrite lookup_update. cbn [update_run with_fallbackRuns rd_candidates]. rewrite Hc1. eexists. split; [reflexivity|]. by destruct (_ && _).
  - exists t. split; [|done]. apply lookup_insert_eq.
  - by exists c1.
  - exists t. split; [|done]. apply lookup_insert_eq.
Qed.

(** C10: a fallback advances exactly by its policy.  When the intent of the
    candidate that a run probes cannot be placed, the run is exhausted after the
    last candidate; it stops if the policy of the candidate does not name the
    reason; and otherwise the next candidate gets an intent of its own, created
    at the time of the signal: pending, and then it is the one probed, or blocked
    for the reason its account or the workflow gives, and then the run stops. *)
Theorem advance_follows_policy config db id r g k c x intent reason msg now : rtc step no_runs db → references config db → paths_keyed config → loaded db x intent →
  rd_fallbackRuns db !! id = Some r → group_of groups r g → represents g db id r (Probing k) → rd_candidates db !! (id, k) = Some c → fc_intentId c = Some x →
  (S k = length (rg_candidates g) → ∃ a db', advance config x intent reason msg now db = Ok (Some a, db') ∧ becomes g db' id (Exhausted k) ∧
     fa_advanced a = false ∧ fa_toAccountId a = None) ∧
  ((S k < length (rg_candidates g))%nat → reason ∉ fc_fallbackOn c → ∃ a db', advance config x intent reason msg now db = Ok (Some a, db') ∧ becomes g db' id (Stopped k) ∧
     fa_advanced a = false ∧ dom (rd_intents db') = dom (rd_intents db)) ∧
  (∀ c' row br account, (S k < length (rg_candidates g))%nat → reason ∈ fc_fallbackOn c → rd_candidates db !! (id, S k) = Some c' →
     wf_paths (cf_workflows config) !! fc_executionPathId c' = Some row → cf_accounts config !! dp_accountId (pt_path row) = Some account →
     blockReasonFor config (pt_path row) = Ok br → uuid (rd_drawn db) ∉ dom (rd_intents db) →
     (∀ y u, rd_intents db !! y = Some u → ti_rootSourceSignalId u = ti_rootSourceSignalId intent → ti_executionPathId u ≠ fc_executionPathId c') →
     ∃ a db', advance config x intent reason msg now db = Ok (Some a, db') ∧ fa_advanced a = bool_decide (br = None) ∧
       becomes g db' id (if fa_advanced a then Probing (S k) else Stopped (S k)) ∧
       (∃ d, rd_candidates db' !! (id, S k) = Some d ∧ fc_intentId d = Some (uuid (rd_drawn db))) ∧
       ∃ t, rd_intents db' !! uuid (rd_drawn db) = Some t ∧ ti_status t = intent_status br ∧ ti_createdAt t = fr_createdAt r).
Proof using Hgroups.
  intros Hreach Href Hkey (t & Ht & Hroot) Hr Hg Hrep Hc Hx. destruct (runs_reachable_ok _ Hreach) as [Hok Hi]. unfold advanceWorkflowFallbackOnEligibleFailure, advanceWorkflowFallbackTransaction.
  fold (block_intent x reason msg now db). set (db0 := block_intent x reason msg now db). set (current := mkCurrent id k r c).
  assert (runs_ok groups db0) as Hok0 by by apply (runs_ok_ext groups db). assert (intents_ok db0) as Hi0 by (eapply intents_ok_keeps, Hi; apply keeps_block).
  rewrite (current_row_found db0 id k c x r Hi0 Hc Hx Hr). fold current.
  assert (is_current current = true) as -> by (unfold is_current, current; cbn; rewrite (re_status _ _ _ _ _ Hrep), (re_rank _ _ _ _ _ Hrep); by rewrite !bool_decide_true).
  cbn [negb]. assert (represents g db0 (cu_runId current) (cu_run current) (Probing (cu_rank current))) as Hrep0 by (eapply represents_frame; [exact Hrep|done|done|done]).
  destruct (next_row_spec g db0 config current Href Hrep0) as [Hsome Hnone]. split_and!.
  - intros Hn. rewrite Hnone by (cbn; lia). destruct (exhaust_moved g db0 current intent reason msg now k Hrep0 eq_refl Hn) as [Hm _].
    destruct (exhaustFallbackRun current intent reason msg now db0) as [a db'] eqn:E. exists a, db'. split; [done|]. split; [exact (moved_becomes _ _ _ _ _ _ Hr Hm)|].
    unfold exhaustFallbackRun in E. by injection E as <- _.
  - intros Hlt Hpol. destruct (Hsome Hlt) as (c' & row & Hc' & Hrow & ->). cbn [cu_candidate current]. rewrite bool_decide_false by done. set (next := mkNext _ _ _).
    destruct (disallow_moved g db0 current next intent reason msg (fc_fallbackOn c) now k Hrep0 eq_refl) as [Hm _].
    destruct (stopDisallowedFallback current next intent reason msg (fc_fallbackOn c) now db0) as [a db'] eqn:E. exists a, db'. split; [done|]. split; [exact (moved_becomes _ _ _ _ _ _ Hr Hm)|].
    unfold stopDisallowedFallback in E. injection E as <- <-. split; [done|]. rewrite (proj1 (refresh_frame _ _ _)). cbn. by rewrite dom_alter_L.
  - intros c' row br account Hlt Hpol Hc' Hrow Hacc Hbr Hfresh Hpath. destruct (Hsome Hlt) as (c2 & row2 & Hc2 & Hrow2 & ->). cbn in Hc2. rewrite Hc' in Hc2. injection Hc2 as <-.
    rewrite Hrow in Hrow2. injection Hrow2 as <-. cbn [cu_candidate current]. rewrite bool_decide_true by done. set (next := mkNext _ _ _).
    destruct (promote_succeeds config db0 current next intent reason msg now k c' br account) as (a & db' & Hp & Ha & Hto & Hcand & u & Hu & Hs & _ & Hcr); try done.
    + cbn. by rewrite dom_alter_L.
    + intros y u Hy Hru. cbn [nx_path next]. rewrite (Hkey _ _ Hrow). cbn in Hy. apply lookup_alter_Some in Hy as [(-> & u0 & Hu0 & ->)|[_ Hy]]; [exact (Hpath _ _ Hu0 Hru)|exact (Hpath _ _ Hy Hru)].
    + rewrite Hp. cbn [mbind result_bind]. exists a, db'. split; [done|]. split; [done|].
      destruct (promote_moved uuid config g db0 current next intent reason msg now k c' a db') as (phase & Hm & _ & ->); try done.
      * destruct (ok_intents _ Hi0 _ _ _ _ _ Hc Hx Hr) as (t0 & Ht0 & _ & Er0). etrans; [exact Hroot|]. etrans; [|exact Er0]. cbn in Ht0. rewrite lookup_alter_eq, Ht in Ht0. by injection Ht0 as <-.
      * intros d y Hd Hy. cbn in Hd. rewrite Hc in Hd. injection Hd as <-. rewrite Hx in Hy. injection Hy as <-. eexists. cbn. rewrite lookup_alter_eq, Ht. done.
      * by apply Hkey.
      * split_and!; [exact (moved_becomes _ _ _ _ _ _ Hr Hm)|exact Hcand|by exists u].
Qed.
End Steps.

(** A run makes at most as many moves as it has candidates. *)
Lemma moves_bounded n p q m : nsteps (move n) m p q → (phase_rank p < n)%nat → (m + phase_rank p ≤ n)%nat.
Proof.
  intros H. induction H as [p|m p q r Hm Hs IH]; intros Hp; [lia|]. assert (∀ k, (∃ j, q = Selected j ∨ q = Stopped j ∨ q = Exhausted j) → k = m → k = 0%nat) as Hend.
  { intros k (j & Hq) ->. destruct Hs as [|m q q' r Hm' _]; [done|]. destruct Hq as [->|[->| ->]]; inversion Hm'. }
  inversion Hm; subst; cbn in *; try (rewrite (Hend m) by (eauto 6); lia). specialize (IH ltac:(cbn; lia)). cbn in IH. lia.
Qed.

(** ** The groups of a compiled workflow *)
Lemma compiled_group_ok Number sha256 compiles tables context r g ps : group_for Number sha256 compiles tables context r g ps → NoDup (map dp_id ps) → group_ok g.
Proof.
  intros (chain & sv & _ & _ & L1 & L2 & Hprimary & Hall) Hd.
  assert (∀ i rc, rg_candidates g !! i = Some rc → ∃ p, ps !! i = Some p ∧ rc_rank rc = i ∧ dp_id p = rc_pathId rc) as Hrow.
  { intros i rc Hi. destruct (lookup_lt_is_Some_2 ps i) as [p Hp]; [apply lookup_lt_Some in Hi; lia|]. exists p. destruct (Hall i rc p Hi Hp) as (E1 & _ & _ & _ & _ & _ & _ & _ & E2 & _). done. }
  split.
  - apply list_eq. intros i. rewrite list_lookup_fmap. destruct (rg_candidates g !! i) as [rc|] eqn:E.
    + destruct (Hrow _ _ E) as (_ & _ & Hr & _). cbn. rewrite Hr. symmetry. apply lookup_seq. split; [done|]. by apply lookup_lt_Some in E.
    + symmetry. apply lookup_ge_None. rewrite length_seq. by apply lookup_ge_None in E.
  - replace (map rc_pathId (rg_candidates g)) with (map dp_id ps); [done|]. apply list_eq. intros i. rewrite !list_lookup_fmap. destruct (rg_candidates g !! i) as [rc|] eqn:E.
    + destruct (Hrow _ _ E) as (p & -> & _ & Hid). cbn. by rewrite Hid.
    + apply lookup_ge_None in E. rewrite (lookup_ge_None_2 ps); [done|lia].
  - by symmetry.
Qed.

(** Whatever compiles has groups that the runs rely on, if identifiers are not drawn twice. *)
Lemma compiled_groups_ok Number sha256 compiles uuid tables g w : graph_ok g → Inj (=) (=) uuid → compileWorkflow Number sha256 compiles uuid tables g = Ok w →
  Forall group_ok (cw_routeGroups w).
Proof.
  intros Hg Hinj H. destruct (compile_spec _ _ _ _ _ _ _ Hg H) as (context & _ & He & Hids & _). assert (NoDup (map dp_id (cw_paths w))) as Hd.
  { rewrite Hids. apply NoDup_fmap_2; [done|]. apply NoDup_seq. }
  revert Hd. clear Hids. induction He as [|r rs gs ps Hr _ IH|r rs g0 gs p ps Hc Hgr _ IH]; [by constructor|done|]. rewrite map_app, NoDup_app. intros (Hp & _ & Hps).
  constructor; [by eapply compiled_group_ok|by apply IH].
Qed.

(** ** A chain with an account that is not ready *)

(** C40: an account that is not ready takes its whole chain down.  If any
    candidate of a route group was compiled as not enabled, the signal plans
    still send the signal to the others, but the creation of their intents
    throws: the paths of the plan are never the whole chain. *)
Theorem unready_fallback_refuses_signal {RegExp} (new_RegExp : string → string → result RegExp) regex_test Number sha256 localeCompare uuid config id workflow channelId text contentType
    plans plan group candidate other request now db :
  chosen_workflow (cf_workflows config) (revision_pinned id) = Ok (Some workflow) →
  getWorkflowSignalPlans new_RegExp regex_test Number sha256 localeCompare (cf_workflows config) channelId text contentType (revision_pinned id) = Ok plans →
  plan ∈ plans → group ∈ rv_routeGroups workflow → rg_channelId group = channelId → candidate ∈ rg_candidates group → rc_pathId candidate ∈ wp_executionPathIds plan →
  other ∈ rg_candidates group → (∀ path, path ∈ rv_paths workflow → dp_id path = rc_pathId other → dp_enabled path = false) →
  rq_workflowRevisionId request = id → rq_channelId request = channelId → rq_executionPathIds request = Some (wp_executionPathIds plan) →
  ∃ e, createWorkflowTradingIntents new_RegExp regex_test sha256 uuid config request now db = Err e.
Proof.
  intros Hw Hplans Hplan Hgroup Hch Hcand Hin Hother Hdis Hrev Hrch Hreq. destruct (plans_spec _ _ _ _ _ _ _ _ _ _ _ _ Hw Hplans) as (ps & Hps & _ & _ & Hall).
  assert (∀ p, p ∈ wp_executionPathIds plan → ∃ path, path ∈ rv_paths workflow ∧ dp_id path = p ∧ dp_enabled path = true ∧ dp_channelId path = channelId) as Hids.
  { intros p Hp. destruct (Hall plan Hplan) as (first & rest & Ek & _ & Hperm & _). rewrite Hperm in Hp. apply list_elem_of_In, in_concat in Hp as (l & Hl & Hp).
    apply list_elem_of_In in Hl, Hp. apply list_elem_of_fmap in Hl as (q & -> & Hq). rewrite <-Ek in Hq. apply list_elem_of_filter in Hq as [_ Hq].
    apply list_elem_of_lookup_1 in Hq as [i Hi]. destruct (Forall2_lookup_r _ _ _ _ _ Hps Hi) as (path & Hpath & Hplan'). apply list_elem_of_lookup_2, list_elem_of_filter in Hpath as [Ht Hpath].
    apply plan_of_path in Hplan' as (E & _). rewrite E in Hp. apply list_elem_of_singleton in Hp as ->. exists path. unfold takes in Ht.
    apply andb_true_iff in Ht as [Ht _]. apply andb_true_iff in Ht as [Hc%bool_decide_eq_true He]. done. }
  assert (rc_pathId other ∉ wp_executionPathIds plan) as Hmissing.
  { intros Ho. destruct (Hids _ Ho) as (path & Hpath & E & He & _). rewrite (Hdis path Hpath E) in He. done. }
  unfold createWorkflowTradingIntents. case_bool_decide as He; [by eexists|]. rewrite Hrev.
  unfold chosen_workflow in Hw. case_bool_decide; [done|]. apply bind_Ok in Hw as (w & Hw & [= ->]). rewrite Hw. cbn [mbind result_bind].
  assert (∀ p, p ∈ set_values (wp_executionPathIds plan) ↔ p ∈ wp_executionPathIds plan) as Hset.
  { intros p. destruct (add_modes (wp_executionPathIds plan) [] (NoDup_nil_2)) as [_ E]. rewrite (E p). set_solver. }
  unfold requested_groups. rewrite Hreq. cbn [fmap option_fmap option_map]. set (requested := set_values (wp_executionPathIds plan)) in *.
  set (selected := filter (λ id, id ∈ requested) _). assert (rc_pathId candidate ∈ selected) as Hsel.
  { apply list_elem_of_filter. split; [by apply Hset|]. destruct (Hids _ Hin) as (path & Hpath & <- & _ & Hc). apply list_elem_of_fmap. exists path. split; [done|].
    apply list_elem_of_filter. by rewrite Hrch. }
  destruct (negb _); [by eexists|]. rewrite bool_decide_false by (intros E; rewrite E in Hsel; by apply not_elem_of_nil in Hsel). rewrite bool_decide_true; [by eexists|].
  apply Exists_exists. exists group. split.
  - apply list_elem_of_filter. split; [|done]. split; [by rewrite Hrch|]. apply Exists_exists. by exists candidate.
  - apply Exists_exists. exists other. split; [done|]. by rewrite Hset.
Qed.

(** ** Example: a chain of two accounts *)
Definition ready_tables : Tables := mkTables (tb_resources sample_tables) (<["a2" := mkAccountRow 1 "ready"]> (tb_accounts sample_tables)) (tb_strategies sample_tables)
  (tb_schemas sample_tables) (tb_contracts sample_tables).
Definition ready_workflow : CompiledWorkflow := Eval vm_compute in
  match compileWorkflow sample_Number id (λ _, true) sample_uuid ready_tables sample_graph with Ok w => w | Err _ => mkCompiled [] [] [] end.
Definition ready_groups : gmap string (list WorkflowRouteGroup) := {[ "revision" := cw_routeGroups ready_workflow ]}.
Definition ready_workflows : WorkflowTables :=
  mkWorkflows ready_groups (list_to_map (map (λ p, (dp_id p, mkPathRow "revision" p)) (cw_paths ready_workflow))) (Some "revision").
Definition ready_account : AccountRow := mkAccount "ready" 1 0 "paper" mode_paper.
Definition ready_config : Config := mkConfig ready_workflows (<["a1" := ready_account]> {[ "a2" := ready_account ]}) (Some (mkRuntime 1 0 0)).
Definition a_signal : ExecutableSignal := mkSignal "standard" LONG "BTC/USDT:USDT" (RangeEntry (mkRange "99" "101")) [] "90" None None None.
Definition ready_request : WorkflowIntentInput := mkRequest "s1" "-100" "BTC LONG" a_signal (Some ["path-0"; "path-1"]) None "revision" (Some 5).
Definition ready_uuid (n : nat) : string := of_chars (chars "id-" ++ to_digits (Z.of_nat n)).
Definition create_sample : result (list Intent * RunsDb) := createWorkflowTradingIntents literal_RegExp literal_test id ready_uuid ready_config ready_request 10 no_runs.
Definition db_created : RunsDb := Eval vm_compute in match create_sample with Ok (_, db) => db | Err _ => no_runs end.
Definition the_intent (x : string) (db : RunsDb) : TradingIntent :=
  rd_intents db !! x ?? mkIntent "" "" "" "" "" "" "" "" "" mode_paper "" LONG intent_failed a_signal None None 0 0.
Definition advance_sample : result (option WorkflowFallbackAdvanceResult * RunsDb) :=
  advanceWorkflowFallbackOnEligibleFailure ready_uuid ready_config "id-2" (the_intent "id-2" db_created) SYMBOL_UNAVAILABLE "No market." 20 db_created.
Definition db_advanced : RunsDb := Eval vm_compute in match advance_sample with Ok (_, db) => db | Err _ => no_runs end.
Abbreviation sample_step := (step literal_RegExp literal_test id ready_uuid ready_groups).

Lemma ready_groups_ok : groups_ok ready_groups.
Proof.
  intros revision gs H. unfold ready_groups in H. apply lookup_singleton_Some in H as [_ <-]. split.
  - apply (bool_decide_unpack _). vm_compute. exact I.
  - repeat constructor; try (vm_compute; reflexivity); apply (bool_decide_unpack _); vm_compute; exact I.
Qed.

Lemma ready_references : references ready_config db_created.
Proof. assert (map_Forall (λ _ c, joins ready_config c = true) (rd_candidates db_created)) as H by (apply (bool_decide_unpack _); vm_compute; exact I). exact H. Qed.

Lemma ready_keyed : paths_keyed ready_config.
Proof. assert (map_Forall (λ id row, dp_id (pt_path row) = id) (wf_paths (cf_workflows ready_config))) as H by (apply (bool_decide_unpack _); vm_compute; exact I). exact H. Qed.

Lemma ready_loaded : loaded db_created "id-2" (the_intent "id-2" db_created).
Proof. exists (the_intent "id-2" db_created). split; vm_compute; reflexivity. Qed.

Lemma created_step : sample_step no_runs db_created.
Proof.
  apply (step_create _ _ _ _ _ ready_config ready_request 10 no_runs [("id-2", the_intent "id-2" db_created)]); [reflexivity|]. vm_compute. reflexivity.
Qed.

Lemma advanced_step : sample_step db_created db_advanced.
Proof.
  apply (step_advance _ _ _ _ _ ready_config "id-2" (the_intent "id-2" db_created) SYMBOL_UNAVAILABLE "No market." 20 db_created
    (match advance_sample with Ok (a, _) => a | Err _ => None end)); [apply ready_references|apply ready_keyed|apply ready_loaded|]. vm_compute. reflexivity.
Qed.

Definition sample_run (db : RunsDb) : option (FallbackRunStatus * nat * list CandidateStatus) :=
  r ← rd_fallbackRuns db !! "id-1"; Some (fr_status r, fr_currentRank r, map (fc_status ∘ snd) (candidates_of "id-1" (λ _ _, true) db)).

Lemma fallback_runs_refine_witness :
  sample_run db_created = Some (probing, 0%nat, [c_pending; c_waiting]) ∧ sample_run db_advanced = Some (probing, 1%nat, [c_unavailable; c_pending]) ∧
  ∃ g phase r' phase', rd_fallbackRuns db_advanced !! "id-1" = Some r' ∧ represents g db_advanced "id-1" r' phase' ∧ (phase' = phase ∨ move (length (rg_candidates g)) phase phase').
Proof.
  split; [vm_compute; reflexivity|]. split; [vm_compute; reflexivity|].
  destruct (fallback_runs_refine literal_RegExp literal_test id ready_uuid ready_groups ready_groups_ok db_created db_advanced (rtc_once _ _ created_step) advanced_step) as [H _].
  destruct (rd_fallbackRuns db_created !! "id-1") as [r|] eqn:E; [|vm_compute in E; discriminate E].
  destruct (H "id-1" r E) as (g & phase & r' & phase' & _ & _ & Hr' & Hrep & Hm). exists g, phase, r', phase'. exact (conj Hr' (conj Hrep Hm)).
Defined.

Definition sample_candidate (i : nat) (db : RunsDb) : FallbackCandidate :=
  rd_candidates db !! ("id-1", i) ?? mkFallbackCandidate "" "" None c_waiting None None [] 0 0.

Lemma one_account_per_chain_witness : fc_intentId (sample_candidate 0 db_advanced) = Some "id-2" ∧ fc_intentId (sample_candidate 1 db_advanced) = Some "id-3" ∧
  ∃ t, rd_intents db_advanced !! "id-3" = Some t ∧ (ti_status t = intent_blocked ∨ ti_status (the_intent "id-2" db_advanced) = intent_blocked).
Proof.
  assert (rtc sample_step no_runs db_advanced) as Hreach by (eapply rtc_r; [apply rtc_once, created_step|apply advanced_step]).
  split; [vm_compute; reflexivity|]. split; [vm_compute; reflexivity|].
  destruct (rd_fallbackRuns db_advanced !! "id-1") as [r|] eqn:E; [|vm_compute in E; discriminate E].
  destruct (one_account_per_chain literal_RegExp literal_test id ready_uuid ready_groups ready_groups_ok db_advanced "id-1" r 1 (sample_candidate 1 db_advanced) "id-3" Hreach E
    ltac:(vm_compute; reflexivity) ltac:(vm_compute; reflexivity)) as (t & Ht & _ & _ & Hother).
  exists t. split; [exact Ht|]. refine (Hother 0%nat (sample_candidate 0 db_advanced) "id-2" (the_intent "id-2" db_advanced) _ _ _ _); [lia|vm_compute; reflexivity..].
Defined.

Definition chain_group : WorkflowRouteGroup := Eval vm_compute in match cw_routeGroups ready_workflow with g :: _ => g | [] => mkGroup "" "" "" "" [] end.

Definition created_run : FallbackRun := Eval vm_compute in
  match rd_fallbackRuns db_created !! "id-1" with Some r => r | None => mkRun "" "" "" "" "" stopped 0 None None 0 0 None end.

Lemma created_run_there : rd_fallbackRuns db_created !! "id-1" = Some created_run.
Proof. vm_compute. reflexivity. Qed.

Lemma created_group : group_of ready_groups created_run chain_group.
Proof. exists (cw_routeGroups ready_workflow). split; [vm_compute; reflexivity|]. split; [left|vm_compute; reflexivity]. Qed.

Lemma created_represents : represents chain_group db_created "id-1" created_run (Probing 0).
Proof.
  destruct (runs_reachable_ok literal_RegExp literal_test id ready_uuid ready_groups ready_groups_ok db_created (rtc_once _ _ created_step)) as [Hok _].
  destruct (ok_runs _ _ Hok _ _ created_run_there) as (g & phase & Hg & Hrep). rewrite <-(group_of_unique _ _ _ _ ready_groups_ok created_group Hg) in Hrep.
  rewrite <-(represents_phase _ _ _ _ _ 0 Hrep); [exact Hrep|reflexivity|reflexivity].
Qed.

Lemma advance_follows_policy_witness : ∃ a db', advance_sample = Ok (Some a, db') ∧ fa_advanced a = true ∧ becomes chain_group db' "id-1" (Probing 1).
Proof.
  destruct (advance_follows_policy literal_RegExp literal_test id ready_uuid ready_groups ready_groups_ok ready_config db_created "id-1" created_run chain_group 0 (sample_candidate 0 db_created) "id-2"
    (the_intent "id-2" db_created) SYMBOL_UNAVAILABLE "No market." 20 (rtc_once _ _ created_step) ready_references ready_keyed ready_loaded created_run_there created_group created_represents
    ltac:(vm_compute; reflexivity) ltac:(vm_compute; reflexivity)) as (_ & _ & H).
  destruct (H (sample_candidate 1 db_created) (mkPathRow "revision" (nth 1 (cw_paths ready_workflow) no_path)) None ready_account) as (a & db' & Ha & Hadv & Hb & _).
  - vm_compute. lia.
  - left.
  - vm_compute. reflexivity.
  - vm_compute. reflexivity.
  - vm_compute. reflexivity.
  - vm_compute. reflexivity.
  - apply (bool_decide_unpack _). vm_compute. exact I.
  - assert (map_Forall (λ _ u, ti_executionPathId u ≠ "path-1") (rd_intents db_created)) as Hp by (apply (bool_decide_unpack _); vm_compute; exact I).
    intros y u Hy _. exact (Hp y u Hy).
  - exists a, db'. assert (fa_advanced a = true) as Ha' by (rewrite Hadv; reflexivity). rewrite Ha' in Hb. exact (conj Ha (conj Ha' Hb)).
Defined.

(** The chain of [sample_workflow]: its second account was not ready. *)
Definition unready_config : Config := mkConfig sample_workflows (cf_accounts ready_config) (cf_runtime ready_config).
Definition unready_request : WorkflowIntentInput := mkRequest "s1" "-100" "BTC LONG" a_signal (Some (wp_executionPathIds sample_plan)) None "revision" None.

Lemma unready_fallback_refuses_signal_witness : wp_executionPathIds sample_plan = ["path-0"] ∧
  ∃ e, createWorkflowTradingIntents literal_RegExp literal_test id ready_uuid unready_config unready_request 10 no_runs = Err e.
Proof.
  split; [vm_compute; reflexivity|].
  apply (unready_fallback_refuses_signal literal_RegExp literal_test sample_Number id code_order ready_uuid unready_config "revision" sample_revision "-100" "BTC LONG" "text" [sample_plan] sample_plan
    (nth 0 (rv_routeGroups sample_revision) chain_group) (nth 0 (rg_candidates chain_group) (mkCandidate "" "" "" 0 false []))
    (mkCandidate "path-1" "a2" "spare" 1 false [])).
  - vm_compute. reflexivity.
  - vm_compute. reflexivity.
  - left.
  - left.
  - vm_compute. reflexivity.
  - left.
  - left.
  - right. left.
  - assert (Forall (λ path, dp_id path = "path-1" → dp_enabled path = false) (rv_paths sample_revision)) as H by (repeat constructor; vm_compute; congruence).
    intros path Hin E. rewrite Forall_forall in H. exact (H path Hin E).
  - reflexivity.
  - reflexivity.
  - reflexivity.
Defined.

(** The message it is refused with. *)
Example unready_message : createWorkflowTradingIntents literal_RegExp literal_test id ready_uuid unready_config unready_request 10 no_runs
  = throw "Workflow execution path selection is stale or invalid because a fallback chain is incomplete.".
Proof. vm_compute. reflexivity. Qed.
