(* ===== verification/WorkflowHistory.v ===== *)
(** WorkflowHistory: the undo and redo stacks of the workflow builder, from
    [src/workflow_repository.ts].

    An entry names the revision to return to ([None]: the empty graph).  The row
    of [workflow_builder_history] is an [option]; its columns hold the values
    they parse to.  [Number] is the conversion of that name. *)

From S2P Require Import Prelude Text Rational Json Workflow WorkflowCompile NormalJson.
From Stdlib Require Import Ascii.
From Stdlib Require String.
Local Open Scope Z_scope.
Local Open Scope ts_scope.
Set Default Proof Using "Type".

(** ** Entries *)
Definition WORKFLOW_BUILDER_HISTORY_LIMIT : nat := 5.

(** The label [Workflow ge\u00e4ndert]. *)
Definition DEFAULT_WORKFLOW_HISTORY_LABEL : string := of_chars (chars "Workflow ge" ++ Ascii.ascii_of_nat 228 :: chars "ndert").
Definition WORKFLOW_HISTORY_ENTRY_KEYS : list string := ["revisionId"; "label"; "capturedAt"].

Record WorkflowHistoryEntry := mkEntry { he_revisionId : option string; he_label : string; he_capturedAt : Z }.
Record WorkflowHistoryState := mkHistory { hs_undo : list WorkflowHistoryEntry; hs_redo : list WorkflowHistoryEntry }.

(** [/[\u0000-\u001f\u007f]/u] *)
Definition control_char (c : Ascii.ascii) : bool := (char_code c <=? 31) || (char_code c =? 127).

Definition workflowHistoryLabel (value : jsval) : result string :=
  match or_default value (JString DEFAULT_WORKFLOW_HISTORY_LABEL) with
  | JString label =>
      if bool_decide (trim label = "") || (160 <? String.length (trim label))%nat || existsb control_char (chars label)
      then throw "Workflow history label is invalid." else Ok (trim label)
  | _ => throw "Workflow history label is invalid."
  end.

Section Entries.
Context (Number : jsval → jsval).

Definition workflowHistoryEntry (value : jsval) (stack : string) (index : nat) : result WorkflowHistoryEntry :=
  let name := "Workflow builder history " +:+ stack in
  let entry := name +:+ " entry " +:+ of_chars (show_chars (Z.of_nat index)) in
  candidate ← object value entry;
  let keys := map fst candidate in
  if negb (bool_decide (length keys = length WORKFLOW_HISTORY_ENTRY_KEYS)) || existsb (λ key, negb (bool_decide (key ∈ WORKFLOW_HISTORY_ENTRY_KEYS))) keys
  then throw (entry +:+ " has an invalid contract.")
  else
    revisionId ← (match assoc "revisionId" candidate with
                  | JNull => Ok None
                  | given => Some <$> stringValue given (name +:+ " revision identifier") 128
                  end);
    if match revisionId with Some id => negb (IDENTIFIER id) | None => false end then throw (name +:+ " revision identifier is invalid.")
    else
      label ← workflowHistoryLabel (assoc "label" candidate);
      match safe_integer (Number (assoc "capturedAt" candidate)) with
      | Some capturedAt => if capturedAt <=? 0 then throw (name +:+ " timestamp is invalid.") else Ok (mkEntry revisionId label capturedAt)
      | None => throw (name +:+ " timestamp is invalid.")
      end.

Definition workflowHistoryStack (value : jsval) (stack : string) : result (list WorkflowHistoryEntry) :=
  match value with
  | JArray items =>
      if (WORKFLOW_BUILDER_HISTORY_LIMIT <? length items)%nat then throw ("Workflow builder history " +:+ stack +:+ " must contain at most 5 entries.")
      else mapM (λ item : nat * jsval, workflowHistoryEntry item.2 stack item.1) (zip (seq 0 (length items)) items)
  | _ => throw ("Workflow builder history " +:+ stack +:+ " must contain at most 5 entries.")
  end.
End Entries.

(** ** Modes and directions *)
Inductive WorkflowHistoryMode := mode_record | mode_undo | mode_redo | mode_ignore | mode_reset.
#[export] Instance history_mode_eq_dec : EqDecision WorkflowHistoryMode.
Proof. solve_decision. Defined.

Inductive WorkflowHistoryDirection := direction_undo | direction_redo.
#[export] Instance history_direction_eq_dec : EqDecision WorkflowHistoryDirection.
Proof. solve_decision. Defined.

Definition workflowHistoryMode (value : jsval) : result WorkflowHistoryMode :=
  match value with
  | JUndefined | JNull => Ok mode_ignore
  | JString mode =>
      if bool_decide (mode = "record") then Ok mode_record
      else if bool_decide (mode = "undo") then Ok mode_undo
      else if bool_decide (mode = "redo") then Ok mode_redo
      else if bool_decide (mode = "ignore") then Ok mode_ignore
      else if bool_decide (mode = "reset") then Ok mode_reset
      else throw "Workflow history mode is invalid."
  | _ => throw "Workflow history mode is invalid."
  end.

Definition workflowHistoryDirection (value : jsval) : result WorkflowHistoryDirection :=
  match value with
  | JString direction =>
      if bool_decide (direction = "undo") then Ok direction_undo
      else if bool_decide (direction = "redo") then Ok direction_redo
      else throw "Workflow history direction must be undo or redo."
  | _ => throw "Workflow history direction must be undo or redo."
  end.

(** ** The stored stacks *)
Record HistoryRow := mkHistoryRow { hw_undo_json : JsonColumn; hw_redo_json : JsonColumn; hw_updated_at : Z }.

Definition historyEntryJson (e : WorkflowHistoryEntry) : jsval :=
  JObject [("revisionId", j_opt (he_revisionId e)); ("label", JString (he_label e)); ("capturedAt", JInt (he_capturedAt e))].
Definition stackJson (stack : list WorkflowHistoryEntry) : jsval := JArray (map historyEntryJson stack).

Section Stacks.
Context (Number : jsval → jsval).

Definition loadWorkflowBuilderHistory (row : option HistoryRow) : result WorkflowHistoryState :=
  row ← or_throw row "Workflow builder history state is missing.";
  undo_value ← parseJson (hw_undo_json row) "workflow builder history undo";
  undo ← workflowHistoryStack Number undo_value "undo";
  redo_value ← parseJson (hw_redo_json row) "workflow builder history redo";
  redo ← workflowHistoryStack Number redo_value "redo";
  Ok (mkHistory undo redo).

(** The row after the update, which must find it. *)
Definition writeWorkflowBuilderHistory (history : WorkflowHistoryState) (now : Z) (row : option HistoryRow) : result (option HistoryRow) :=
  if negb (isSafeInteger now) || (now <=? 0) then throw "Workflow history timestamp is invalid."
  else
    undo ← workflowHistoryStack Number (stackJson (hs_undo history)) "undo";
    redo ← workflowHistoryStack Number (stackJson (hs_redo history)) "redo";
    match row with
    | None => throw "Workflow builder history state is missing."
    | Some _ => Ok (Some (mkHistoryRow (column_json (stored (stackJson undo))) (column_json (stored (stackJson redo))) now))
    end.
End Stacks.

Record WorkflowHistoryStatus := mkStatus {
  hu_limit : nat;
  hu_undoCount : nat;
  hu_redoCount : nat;
  hu_canUndo : bool;
  hu_canRedo : bool;
  hu_undoLabel : option string;
  hu_redoLabel : option string }.

Definition workflowHistoryStatus (history : WorkflowHistoryState) : WorkflowHistoryStatus :=
  let undoEntry := last (hs_undo history) in
  let redoEntry := last (hs_redo history) in
  mkStatus WORKFLOW_BUILDER_HISTORY_LIMIT (length (hs_undo history)) (length (hs_redo history)) (bool_decide (undoEntry ≠ None)) (bool_decide (redoEntry ≠ None))
    (he_label <$> undoEntry) (he_label <$> redoEntry).

(** [values.slice(-n)] and [values.slice(0, -1)] *)
Definition slice_last {A} (n : nat) (values : list A) : list A := drop (length values - n) values.
Definition slice_init {A} (values : list A) : list A := take (length values - 1) values.

Definition pushWorkflowHistoryEntry (stack : list WorkflowHistoryEntry) (entry : WorkflowHistoryEntry) : list WorkflowHistoryEntry :=
  slice_last WORKFLOW_BUILDER_HISTORY_LIMIT (stack ++ [entry]).

(** ** Stacks that are kept *)
Record entry_ok (e : WorkflowHistoryEntry) : Prop := mkEntryOk {
  nk_revision : ∀ id, he_revisionId e = Some id → IDENTIFIER id = true;
  nk_label : workflowHistoryLabel (JString (he_label e)) = Ok (he_label e);
  nk_time : isSafeInteger (he_capturedAt e) = true ∧ 0 < he_capturedAt e }.

Definition stack_ok (stack : list WorkflowHistoryEntry) : Prop := Forall entry_ok stack ∧ (length stack <= WORKFLOW_BUILDER_HISTORY_LIMIT)%nat.
Definition history_ok (h : WorkflowHistoryState) : Prop := stack_ok (hs_undo h) ∧ stack_ok (hs_redo h).

Lemma label_again v label : workflowHistoryLabel v = Ok label → workflowHistoryLabel (JString label) = Ok label.
Proof.
  unfold workflowHistoryLabel. destruct (or_default v _) as [| | | | | |s| |]; try done. destruct (_ || _) eqn:E; [done|]. intros [= <-]. cbn [or_default].
  rewrite !trim_trim. rewrite !orb_false_iff in E. destruct E as [[-> ->] Ec]. destruct (existsb control_char (chars (trim s))) eqn:E2; [|done].
  apply existsb_exists in E2 as (c & Hc & Hl). exfalso. apply not_true_iff_false in Ec. apply Ec, existsb_exists. exists c. split; [|done].
  by apply list_elem_of_In, trim_subset, list_elem_of_In in Hc.
Qed.

(** What [JSON.stringify] and [JSON.parse] leave of an entry. *)
Lemma entry_stored e : stored (historyEntryJson e) = JObject [("capturedAt", JInt (he_capturedAt e)); ("label", JString (he_label e)); ("revisionId", j_opt (he_revisionId e))].
Proof. by destruct e as [[id|] l t]. Qed.

Section Reading.
Context (Number : jsval → jsval) (Number_int : ∀ z, Number (JInt z) = JInt z).

Definition entry_form (e : WorkflowHistoryEntry) (v : jsval) : Prop := v = historyEntryJson e ∨ v = stored (historyEntryJson e).

Lemma entry_reads e v stack index : entry_ok e → entry_form e v → workflowHistoryEntry Number v stack index = Ok e.
Proof using Number_int.
  intros [Hid Hlabel [Hsafe Hpos]] Hv. destruct e as [id label t]. cbn [he_revisionId he_label he_capturedAt] in *.
  assert (∃ fields, v = JObject fields ∧ (length (map fst fields) = 3%nat ∧ existsb (λ key, negb (bool_decide (key ∈ WORKFLOW_HISTORY_ENTRY_KEYS))) (map fst fields) = false) ∧
    assoc "revisionId" fields = j_opt id ∧ assoc "label" fields = JString label ∧ assoc "capturedAt" fields = JInt t) as (fields & -> & [Hlen Hkeys] & E1 & E2 & E3).
  { destruct Hv as [->| ->]; [|rewrite entry_stored]; eexists; (split; [reflexivity|]); by split_and!. }
  unfold workflowHistoryEntry. cbn [object mbind result_bind]. rewrite Hkeys, Hlen, bool_decide_true, E1, E2, E3, Hlabel, Number_int by done. cbn [negb orb].
  assert (∀ l, match j_opt id with JNull => Ok None | given => Some <$> stringValue given l 128 end = Ok id) as ->.
  { intros l. destruct id as [id|]; [|done]. cbn [j_opt]. by rewrite (identifier_value id) by by apply Hid. }
  cbn [mbind result_bind]. assert (match id with Some id => negb (IDENTIFIER id) | None => false end = false) as -> by (destruct id as [id|]; [by rewrite (Hid id)|done]).
  unfold safe_integer. rewrite Hsafe. by rewrite (proj2 (Z.leb_gt _ _) Hpos).
Qed.

Lemma stack_reads stack items name : stack_ok stack → Forall2 entry_form stack items → workflowHistoryStack Number (JArray items) name = Ok stack.
Proof using Number_int.
  intros [Hok Hlen] H. unfold workflowHistoryStack. rewrite <-(Forall2_length _ _ _ H), (proj2 (Nat.ltb_ge _ _) Hlen). apply mapM_Ok.
  clear Hlen. generalize 0%nat. induction H as [|e v stack items Hv _ IH]; intros n; [constructor|]. apply Forall_cons in Hok as [He Hok]. cbn [length seq zip zip_with].
  constructor; [by apply entry_reads|by apply IH].
Qed.

Lemma stack_reads_json stack name : stack_ok stack → workflowHistoryStack Number (stackJson stack) name = Ok stack.
Proof using Number_int. intros H. apply stack_reads; [done|]. clear. induction stack; constructor; [by left|done]. Qed.

Lemma stack_reads_stored stack name : stack_ok stack → workflowHistoryStack Number (stored (stackJson stack)) name = Ok stack.
Proof using Number_int.
  intros H. unfold stored, stackJson. cbn [sort_keys JSON_parsed]. rewrite !map_map. apply stack_reads; [done|]. clear. induction stack; constructor; [by right|done].
Qed.

(** An entry that can be written: its identifier is trimmed, its label and time are accepted. *)
Record entry_writable (e : WorkflowHistoryEntry) : Prop := mkWritable {
  ew_revision : ∀ id, he_revisionId e = Some id → trim id = id;
  ew_label : workflowHistoryLabel (JString (he_label e)) = Ok (he_label e) }.

Lemma entry_written e stack index e' : entry_writable e → workflowHistoryEntry Number (historyEntryJson e) stack index = Ok e' → e' = e.
Proof using Number_int.
  intros [Hid Hl] H. destruct e as [id label t]. cbn [he_revisionId he_label] in *. unfold workflowHistoryEntry, historyEntryJson in H.
  cbn [object mbind result_bind he_revisionId he_label he_capturedAt map fst length] in H.
  match type of H with (if ?b then _ else _) = _ => assert (b = false) as Eb by reflexivity; rewrite Eb in H; clear Eb end. apply bind_Ok in H as (id' & Hid' & H).
  assert (id' = id) as ->.
  { match type of Hid' with context[assoc "revisionId" ?l] => change (assoc "revisionId" l) with (j_opt id) in Hid' end.
    destruct id as [id|]; cbn [j_opt] in Hid'; [|by injection Hid']. apply fmap_Ok in Hid' as (s & Hs & ->). unfold stringValue in Hs. destruct (_ || _); [done|]. injection Hs as <-. by rewrite (Hid id). }
  destruct (match id with Some id => negb (IDENTIFIER id) | None => false end); [done|].
  match type of H with context[assoc "label" ?l] => change (assoc "label" l) with (JString label) in H; change (assoc "capturedAt" l) with (JInt t) in H end.
  rewrite Hl, Number_int in H. cbn [mbind result_bind] in H. unfold safe_integer in H. destruct (isSafeInteger t); [|done]. destruct (t <=? 0); [done|]. by injection H.
Qed.

(** An entry that is read is kept. *)
Lemma entry_read_ok v stack index e : workflowHistoryEntry Number v stack index = Ok e → entry_ok e.
Proof.
  unfold workflowHistoryEntry. intros H. apply bind_Ok in H as (candidate & _ & H). destruct (_ || _); [done|]. apply bind_Ok in H as (id & Hid & H).
  destruct (match id with Some id => negb (IDENTIFIER id) | None => false end) eqn:Ei; [done|]. apply bind_Ok in H as (label & Hl & H).
  unfold safe_integer in H. destruct (Number _) as [| | |t| | | | |]; try done. destruct (isSafeInteger t) eqn:Et; [|done]. destruct (Z.leb_spec t 0); [done|].
  injection H as <-. constructor; cbn.
  - intros i ->. by apply negb_false_iff in Ei.
  - by eapply label_again.
  - done.
Qed.

Lemma stack_read_ok v name stack : workflowHistoryStack Number v name = Ok stack → stack_ok stack.
Proof.
  unfold workflowHistoryStack. destruct v as [| | | | | | |items|]; try done. destruct (Nat.ltb_spec WORKFLOW_BUILDER_HISTORY_LIMIT (length items)) as [|Hn]; [done|]. intros H.
  pose proof (mapM_Ok_length _ _ _ H) as Hlen. split.
  - clear Hlen Hn. apply mapM_Ok in H. induction H as [|x y l k Hxy _ IH]; constructor; [by eapply entry_read_ok|exact IH].
  - rewrite Hlen, length_zip_with, length_seq. lia.
Qed.

Lemma stack_written stack name stack' : Forall entry_writable stack → workflowHistoryStack Number (stackJson stack) name = Ok stack' → stack' = stack ∧ stack_ok stack.
Proof using Number_int.
  intros Hw H. enough (stack' = stack) as -> by (split; [done|by eapply stack_read_ok]). unfold workflowHistoryStack, stackJson in H. destruct (_ <? _)%nat; [done|].
  rewrite length_map in H. apply mapM_Ok in H. revert stack' H. generalize 0%nat. induction Hw as [|e stack He _ IH]; intros n stack' H; cbn [length seq map zip zip_with] in H.
  - by inversion H.
  - inversion H as [|x y l k Hx Hk]; subst. cbn [fst snd] in Hx. rewrite (entry_written e name n y He Hx). f_equal. by apply (IH (S n)).
Qed.

Lemma entry_ok_writable e : entry_ok e → entry_writable e.
Proof.
  intros [Hid Hl _]. constructor; [|done]. intros id Hi. pose proof (identifier_value id "" (Hid id Hi)) as H. unfold stringValue in H. destruct (_ || _); [done|]. by injection H.
Qed.
End Reading.
