(* ===== verification/WorkflowRevisions.v ===== *)
(** WorkflowRevisions: the stored revisions of a workflow, from
    [src/workflow_repository.ts]: the impact of a change, the activation of a
    compiled graph, the integrity check of a stored revision, saving, and undo
    and redo over the stacks of [WorkflowHistory].

    A column of JSON text is a [TextColumn], the text with the value it parses
    to; [effective_configuration_json] is a [JsonColumn]; the lists in
    [node_ids_json] and [fallback_on_json] are given as lists.  [uuid n] is the
    [n]-th generated identifier; the database counts the ones that were drawn.
    Rows of paths are in the order of their insertion. *)

From S2P Require Import Prelude Text Rational Json Maps Strategy Workflow WorkflowTopology WorkflowFallback WorkflowCompile NormalJson WorkflowHistory.
From S2P Require WorkflowPlans.
From Stdlib Require Import Ascii.
From Stdlib Require String.
Local Open Scope Z_scope.
Local Open Scope ts_scope.
Set Default Proof Using "Type".

Definition truthy : jsval → bool := WorkflowPlans.truthy.

(** ** Execution paths *)
Record WorkflowExecutionPath := mkExecutionPath {
  ep_id : string;
  ep_workflowRevisionId : string;
  ep_pathKey : string;
  ep_channelId : string;
  ep_accountId : string;
  ep_strategyVersionId : string;
  ep_parserResourceVersionId : option string;
  ep_schemaResourceVersionId : option string;
  ep_contractResourceVersionId : option string;
  ep_sizingResourceVersionId : option string;
  ep_adaptiveRiskResourceVersionId : option string;
  ep_routeGroupKey : string;
  ep_fallbackRank : nat;
  ep_fallbackOn : list WorkflowFallbackReason;
  ep_nodeIds : list string;
  ep_effectiveConfiguration : jsval;
  ep_enabled : bool;
  ep_createdAt : Z }.

Definition effectiveJson (ef : EffectiveConfiguration) : jsval :=
  JObject [("resources", JObject (ef_resources ef)); ("strategyConfiguration", strategyJson (ef_strategyConfiguration ef))].

(** [{ ...path, workflowRevisionId, createdAt }] *)
Definition executionPath (workflowRevisionId : string) (createdAt : Z) (p : CompiledDraftPath) : WorkflowExecutionPath :=
  mkExecutionPath (dp_id p) workflowRevisionId (dp_pathKey p) (dp_channelId p) (dp_accountId p) (dp_strategyVersionId p) (dp_parserResourceVersionId p)
    (dp_schemaResourceVersionId p) (dp_contractResourceVersionId p) (dp_sizingResourceVersionId p) (dp_adaptiveRiskResourceVersionId p) (dp_routeGroupKey p)
    (dp_fallbackRank p) (dp_fallbackOn p) (dp_nodeIds p) (effectiveJson (dp_effectiveConfiguration p)) (dp_enabled p) createdAt.

(** A path as a value; [grouped] holds the properties that came with route groups. *)
Definition path_fields (p : WorkflowExecutionPath) (grouped : list (string * jsval)) : jsval :=
  JObject ([("id", JString (ep_id p)); ("workflowRevisionId", JString (ep_workflowRevisionId p)); ("pathKey", JString (ep_pathKey p));
    ("channelId", JString (ep_channelId p)); ("accountId", JString (ep_accountId p)); ("strategyVersionId", JString (ep_strategyVersionId p));
    ("parserResourceVersionId", j_opt (ep_parserResourceVersionId p)); ("schemaResourceVersionId", j_opt (ep_schemaResourceVersionId p));
    ("contractResourceVersionId", j_opt (ep_contractResourceVersionId p)); ("sizingResourceVersionId", j_opt (ep_sizingResourceVersionId p));
    ("adaptiveRiskResourceVersionId", j_opt (ep_adaptiveRiskResourceVersionId p))]
    ++ grouped ++ [("nodeIds", idsJson (ep_nodeIds p)); ("effectiveConfiguration", ep_effectiveConfiguration p); ("enabled", JBool (ep_enabled p));
    ("createdAt", JInt (ep_createdAt p))]).
Definition group_fields (p : WorkflowExecutionPath) : list (string * jsval) :=
  [("routeGroupKey", JString (ep_routeGroupKey p)); ("fallbackRank", JInt (Z.of_nat (ep_fallbackRank p)))].
Definition policy_fields (p : WorkflowExecutionPath) : list (string * jsval) := [("fallbackOn", reasonsJson (ep_fallbackOn p))].
Definition pathJson (p : WorkflowExecutionPath) : jsval := path_fields p (group_fields p ++ policy_fields p).

Definition candidateJson (c : WorkflowRouteCandidate) : jsval :=
  JObject [("pathId", JString (rc_pathId c)); ("accountId", JString (rc_accountId c)); ("accountNodeId", JString (rc_accountNodeId c));
    ("rank", JInt (Z.of_nat (rc_rank c))); ("enabled", JBool (rc_enabled c)); ("fallbackOn", reasonsJson (rc_fallbackOn c))].
Definition groupJson (g : WorkflowRouteGroup) : jsval :=
  JObject [("key", JString (rg_key g)); ("channelId", JString (rg_channelId g)); ("channelNodeId", JString (rg_channelNodeId g));
    ("primaryPathId", JString (rg_primaryPathId g)); ("candidates", JArray (map candidateJson (rg_candidates g)))].

(** ** Rows *)
Record TextColumn := mkText { tc_text : string; tc_value : JsonColumn }.

(** A column written with [normalizedJson(value)]. *)
Definition written (value : jsval) : TextColumn := mkText (normalizedJson value) (column_json (stored value)).

Record WorkflowPathRow := mkPathRow {
  pw_id : string;
  pw_workflow_revision_id : string;
  pw_path_key : string;
  pw_channel_id : string;
  pw_account_id : string;
  pw_strategy_version_id : string;
  pw_parser_resource_version_id : option string;
  pw_schema_resource_version_id : option string;
  pw_contract_resource_version_id : option string;
  pw_sizing_resource_version_id : option string;
  pw_adaptive_risk_resource_version_id : option string;
  pw_node_ids : list string;
  pw_effective_configuration_json : JsonColumn;
  pw_route_group_key : option string;
  pw_fallback_rank : nat;
  pw_fallback_on : list WorkflowFallbackReason;
  pw_enabled : Z;
  pw_created_at : Z }.

Inductive RevisionStatus := revision_is_active | revision_is_archived.
#[export] Instance revision_status_eq_dec : EqDecision RevisionStatus.
Proof. solve_decision. Defined.

Record WorkflowRevisionRow := mkRevisionRow {
  rw_revision : Z;
  rw_status : RevisionStatus;
  rw_graph_json : TextColumn;
  rw_compiled_json : TextColumn;
  rw_definition_sha256 : string;
  rw_base_revision_id : option string;
  rw_created_by : string;
  rw_created_at : Z;
  rw_archived_at : option Z }.

Record RevisionTables := mkDb {
  db_revisions : gmap string WorkflowRevisionRow;
  db_paths : list WorkflowPathRow;
  db_active : option string;
  db_history : option HistoryRow;
  db_drawn : nat }.

Record WorkflowRevision := mkRevision {
  rv_id : string;
  rv_revision : Z;
  rv_status : RevisionStatus;
  rv_graph : jsval;
  rv_paths : list WorkflowExecutionPath;
  rv_routeGroups : list jsval;
  rv_warnings : jsval;
  rv_definitionSha256 : string;
  rv_baseRevisionId : option string;
  rv_createdBy : string;
  rv_createdAt : Z;
  rv_archivedAt : option Z }.

(** [text || null] *)
Definition or_null (o : option string) : option string := match o with Some s => if bool_decide (s = "") then None else Some s | None => None end.

Definition pathFromRow (row : WorkflowPathRow) : result WorkflowExecutionPath :=
  configuration ← parseJson (pw_effective_configuration_json row) "workflow path configuration";
  Ok (mkExecutionPath (pw_id row) (pw_workflow_revision_id row) (pw_path_key row) (pw_channel_id row) (pw_account_id row) (pw_strategy_version_id row)
    (or_null (pw_parser_resource_version_id row)) (or_null (pw_schema_resource_version_id row)) (or_null (pw_contract_resource_version_id row))
    (or_null (pw_sizing_resource_version_id row)) (or_null (pw_adaptive_risk_resource_version_id row)) (or_null (pw_route_group_key row) ?? pw_path_key row)
    (pw_fallback_rank row) (pw_fallback_on row) (pw_node_ids row) configuration (pw_enabled row =? 1) (pw_created_at row)).

(** The row the activation inserts for a path. *)
Definition path_row (workflowRevisionId : string) (now : Z) (p : WorkflowExecutionPath) : WorkflowPathRow :=
  mkPathRow (ep_id p) workflowRevisionId (ep_pathKey p) (ep_channelId p) (ep_accountId p) (ep_strategyVersionId p) (ep_parserResourceVersionId p)
    (ep_schemaResourceVersionId p) (ep_contractResourceVersionId p) (ep_sizingResourceVersionId p) (ep_adaptiveRiskResourceVersionId p) (ep_nodeIds p)
    (column_json (stored (ep_effectiveConfiguration p))) (Some (ep_routeGroupKey p)) (ep_fallbackRank p) (ep_fallbackOn p) (if ep_enabled p then 1 else 0) now.

(** [SELECT * FROM workflow_execution_paths WHERE workflow_revision_id = ? ORDER BY path_key] *)
Definition paths_of (db : RevisionTables) (id : string) : result (list WorkflowExecutionPath) :=
  mapM pathFromRow (sort_text pw_path_key (filter (λ row, pw_workflow_revision_id row = id) (db_paths db))).

(** ** Impact *)
Record WorkflowImpactPath := mkImpactPath { ip_channelId : string; ip_accountId : string; ip_strategyVersionId : string; ip_enabled : bool; ip_nodeIds : list string }.
Record WorkflowImpact := mkImpact {
  im_added : list WorkflowImpactPath;
  im_changed : list WorkflowImpactPath;
  im_removed : list WorkflowImpactPath;
  im_destructive : bool;
  im_warnings : list string;
  im_confirmation : option string }.

Definition WORKFLOW_IMPACT_CONFIRMATION : string := "ACTIVATE WORKFLOW IMPACT".

Definition publicPath (p : WorkflowExecutionPath) : WorkflowImpactPath :=
  mkImpactPath (ep_channelId p) (ep_accountId p) (ep_strategyVersionId p) (ep_enabled p) (ep_nodeIds p).
Definition pathIdentity (p : WorkflowExecutionPath) : string :=
  normalizedJson (JObject [("channelId", JString (ep_channelId p)); ("accountId", JString (ep_accountId p)); ("nodeIds", idsJson (ep_nodeIds p))]).

Section Revisions.
Context (Number : jsval → jsval) (sha256 : string → string) (compiles : string → bool) (localeCompare : string → string → Z) (uuid : nat → string).

Definition pathDefinition (p : WorkflowExecutionPath) : string :=
  digest sha256 (JObject [("strategyVersionId", JString (ep_strategyVersionId p)); ("enabled", JBool (ep_enabled p));
    ("effectiveConfiguration", ep_effectiveConfiguration p); ("fallbackOn", reasonsJson (ep_fallbackOn p))]).

(** [new Map(paths.map(path => [pathIdentity(path), path]))] *)
Definition by_identity (paths : list WorkflowExecutionPath) : list (string * WorkflowExecutionPath) :=
  fold_left (λ acc path, map_set (pathIdentity path) path acc) paths [].

(** The draft paths of the candidate, without the revision they have not got yet. *)
Definition draft (p : CompiledDraftPath) : WorkflowExecutionPath := executionPath "" 0 p.

(** The path was there, with another definition. *)
Definition redefined (before : list (string * WorkflowExecutionPath)) (e : string * WorkflowExecutionPath) : bool :=
  match map_get e.1 before with Some previous => negb (bool_decide (pathDefinition previous = pathDefinition e.2)) | None => false end.

Definition workflowImpact (current : list WorkflowExecutionPath) (candidate : list CompiledDraftPath) (warnings : list string) : WorkflowImpact :=
  let before := by_identity current in
  let after := by_identity (map draft candidate) in
  let added := filter (λ e : string * WorkflowExecutionPath, map_get e.1 before = None) after in
  let changed := filter (λ e, redefined before e = true) after in
  let removed := filter (λ e : string * WorkflowExecutionPath, map_get e.1 after = None) before in
  let public := map (λ e : string * WorkflowExecutionPath, publicPath e.2) in
  let destructive := (0 <? length added)%nat || (0 <? length changed)%nat || (0 <? length removed)%nat in
  mkImpact (public added) (public changed) (public removed) destructive warnings (if destructive then Some WORKFLOW_IMPACT_CONFIRMATION else None).

Definition assertWorkflowConfirmation (impact : WorkflowImpact) (confirmation : option string) : result unit :=
  if im_destructive impact && negb (bool_decide (confirmation = Some WORKFLOW_IMPACT_CONFIRMATION)) then throw "WORKFLOW_IMPACT_CONFIRMATION_REQUIRED" else Ok tt.

(** ** Reading a stored revision *)

(** [items.some(f)] where [f] may throw *)
Fixpoint some_result {A} (f : A → result bool) (l : list A) : result bool :=
  match l with [] => Ok false | a :: l' => b ← f a; if b : bool then Ok true else some_result f l' end.

Definition is_array (value : jsval) : bool := match value with JArray _ => true | _ => false end.
Definition items_of (value : jsval) (call : string) : result (list jsval) :=
  match value with JArray items => Ok items | _ => throw (call +:+ " is not a function") end.

Definition has_policy (item : jsval) : result bool := is_array <$> property "fallbackOn" item.

Definition without_policy (item : jsval) : jsval := JObject (map_delete "fallbackOn" (own_properties item)).

(** [{ ...group, candidates: f(group.candidates) }] *)
Definition with_candidates (f : list jsval → list jsval) (group : jsval) : result jsval :=
  candidates ← property "candidates" group;
  items ← items_of candidates "group.candidates.map";
  Ok (JObject (override (own_properties group) [("candidates", JArray (f items))])).

Definition workflowIntegrityCompiled (graph : jsval) (paths : list WorkflowExecutionPath) (stored : jsval) : result jsval :=
  routeGroups ← property "routeGroups" stored;
  warnings ← property "warnings" stored;
  let warnings := or_default warnings (JArray []) in
  if negb (truthy routeGroups) then Ok (JObject [("paths", JArray (map (λ p, path_fields p []) paths)); ("warnings", warnings)])
  else
    storedPaths ← property "paths" stored;
    inPaths ← (match storedPaths with JUndefined | JNull => Ok false | _ => items ← items_of storedPaths "stored.paths.some"; some_result has_policy items end);
    groups ← items_of routeGroups "stored.routeGroups.some";
    hasStoredPolicies ← (if inPaths : bool then Ok true
      else some_result (λ group, candidates ← property "candidates" group; items ← items_of candidates "group.candidates.some"; some_result has_policy items) groups);
    schemaVersion ← property "schemaVersion" graph;
    let stripLegacyPolicy := (difference (Number schemaVersion) (JInt 3) <? 0) && negb hasStoredPolicies in
    integrityGroups ← (if stripLegacyPolicy then mapM (with_candidates (map without_policy)) groups else Ok groups);
    Ok (JObject [("paths", JArray (map (λ p, if stripLegacyPolicy then path_fields p (group_fields p) else pathJson p) paths));
                 ("routeGroups", JArray integrityGroups); ("warnings", warnings)]).

(** [graph.nodes.find(node => node.id === nodeId)?.kind] *)
Definition nodeKind (nodes : list jsval) (nodeId : string) : jsval :=
  match list_find (λ node, WorkflowPlans.is_text nodeId (assoc "id" (own_properties node)) = true) nodes with
  | Some (_, node) => assoc "kind" (own_properties node)
  | None => JUndefined
  end.

(** The first node of a kind, or the empty text. *)
Definition first_of_kind (nodes : list jsval) (kind : string) (ids : list string) : string :=
  (snd <$> list_find (λ id, WorkflowPlans.is_text kind (nodeKind nodes id) = true) ids) ?? "".

Definition legacyRouteGroup (nodes : list jsval) (path : WorkflowExecutionPath) : WorkflowRouteGroup :=
  mkGroup (ep_routeGroupKey path) (ep_channelId path) (first_of_kind nodes "channel" (ep_nodeIds path)) (ep_id path)
    [mkCandidate (ep_id path) (ep_accountId path) (first_of_kind nodes "account" (rev (ep_nodeIds path))) 0 (ep_enabled path) (ep_fallbackOn path)].

(** [{ ...candidate, fallbackOn: candidate.fallbackOn ?? policyByPath.get(candidate.pathId) ?? [] }] *)
Definition hydrate_candidate (paths : list WorkflowExecutionPath) (candidate : jsval) : jsval :=
  let fields := own_properties candidate in
  let policy := match assoc "pathId" fields with JString id => last (filter (λ p, ep_id p = id) paths) | _ => None end in
  JObject (override fields [("fallbackOn", or_default (assoc "fallbackOn" fields) (reasonsJson ((ep_fallbackOn <$> policy) ?? [])))]).

Definition hydratedRouteGroups (graph : jsval) (paths : list WorkflowExecutionPath) (stored : jsval) : result (list jsval) :=
  routeGroups ← property "routeGroups" stored;
  groups ← (match routeGroups with
            | JUndefined | JNull => nodes ← property "nodes" graph; nodes ← items_of nodes "graph.nodes.find"; Ok (map (λ path, groupJson (legacyRouteGroup nodes path)) paths)
            | _ => items_of routeGroups "groups.map"
            end);
  mapM (with_candidates (map (hydrate_candidate paths))) groups.

(** The text whose digest a revision carries. *)
Definition definition_text (compiled graph : string) : string :=
  of_chars ("{"%char :: stringify_string "compiled" ++ ":"%char :: chars compiled ++ comma :: stringify_string "graph" ++ ":"%char :: chars graph ++ ["}"%char]).

Definition workflowRevisionFromRow (db : RevisionTables) (id : string) (row : WorkflowRevisionRow) : result WorkflowRevision :=
  graph ← parseJson (tc_value (rw_graph_json row)) "workflow graph";
  storedCompiled ← parseJson (tc_value (rw_compiled_json row)) "compiled workflow";
  paths ← paths_of db id;
  let integrity := sha256 (definition_text (tc_text (rw_compiled_json row)) (tc_text (rw_graph_json row))) in
  hydratedCompiled ← workflowIntegrityCompiled graph paths storedCompiled;
  if negb (bool_decide (integrity = rw_definition_sha256 row)) || negb (bool_decide (normalizedJson hydratedCompiled = normalizedJson storedCompiled))
  then throw ("Workflow revision " +:+ id +:+ " failed its integrity check.")
  else
    routeGroups ← hydratedRouteGroups graph paths storedCompiled;
    warnings ← property "warnings" storedCompiled;
    Ok (mkRevision id (rw_revision row) (rw_status row) graph paths routeGroups (or_default warnings (JArray [])) (rw_definition_sha256 row)
          (or_null (rw_base_revision_id row)) (rw_created_by row) (rw_created_at row) (rw_archived_at row)).

Definition getWorkflowRevisionById (db : RevisionTables) (id : string) : result (option WorkflowRevision) :=
  match db_revisions db !! id with
  | Some row => Some <$> workflowRevisionFromRow db id row
  | None => Ok None
  end.

(** ** Activation *)
Definition activeWorkflowState (db : RevisionTables) : result (option string * list WorkflowExecutionPath) :=
  match db_active db with
  | Some activeId => paths ← paths_of db activeId; Ok (Some activeId, paths)
  | None => Ok (None, [])
  end.

(** [UPDATE workflow_revisions SET status = 'archived', archived_at = ? WHERE id = ? AND status = 'active'], which must change a row. *)
Definition archive_revision (now : Z) (id : string) (revisions : gmap string WorkflowRevisionRow) : result (gmap string WorkflowRevisionRow) :=
  match revisions !! id with
  | Some row =>
      if bool_decide (rw_status row = revision_is_active)
      then Ok (<[id := mkRevisionRow (rw_revision row) revision_is_archived (rw_graph_json row) (rw_compiled_json row) (rw_definition_sha256 row)
                         (rw_base_revision_id row) (rw_created_by row) (rw_created_at row) (Some now)]> revisions)
      else throw "WORKFLOW_REVISION_CONFLICT"
  | None => throw "WORKFLOW_REVISION_CONFLICT"
  end.

(** An insertion under the primary key, the unique number and the index of one active revision. *)
Definition insert_revision (id : string) (row : WorkflowRevisionRow) (revisions : gmap string WorkflowRevisionRow) : result (gmap string WorkflowRevisionRow) :=
  if bool_decide (is_Some (revisions !! id))
     || existsb (λ e : string * WorkflowRevisionRow, (rw_revision e.2 =? rw_revision row) || bool_decide (rw_status e.2 = revision_is_active)) (map_to_list revisions)
  then throw "UNIQUE constraint failed: workflow_revisions" else Ok (<[id := row]> revisions).

Definition insert_path (paths : list WorkflowPathRow) (row : WorkflowPathRow) : result (list WorkflowPathRow) :=
  if existsb (λ other, bool_decide (pw_id other = pw_id row)
       || bool_decide (pw_workflow_revision_id other = pw_workflow_revision_id row) && bool_decide (pw_path_key other = pw_path_key row)) paths
  then throw "UNIQUE constraint failed: workflow_execution_paths" else Ok (paths ++ [row]).

(** [SELECT MAX(revision) AS revision FROM workflow_revisions] *)
Definition latest_revision (revisions : gmap string WorkflowRevisionRow) : Z := foldr Z.max 0 (map (λ e, rw_revision e.2) (map_to_list revisions)).

Definition compiledPayload (paths : list WorkflowExecutionPath) (compiled : CompiledWorkflow) : jsval :=
  JObject [("paths", JArray (map pathJson paths)); ("routeGroups", JArray (map groupJson (cw_routeGroups compiled))); ("warnings", idsJson (cw_warnings compiled))].

Definition activateCompiledWorkflowRevision (db : RevisionTables) (activeId : option string) (graph : WorkflowGraph) (compiled : CompiledWorkflow)
    (actorId : string) (now : Z) : result (RevisionTables * WorkflowRevision) :=
  let revisionNumber := latest_revision (db_revisions db) + 1 in
  let id := uuid (db_drawn db) in
  let paths := sort_with (λ left right, localeCompare (ep_pathKey left) (ep_pathKey right)) (map (executionPath id now) (cw_paths compiled)) in
  let payload := compiledPayload paths compiled in
  let definitionSha256 := digest sha256 (JObject [("graph", graphJson graph); ("compiled", payload)]) in
  revisions ← (match activeId with Some active => archive_revision now active (db_revisions db) | None => Ok (db_revisions db) end);
  revisions ← insert_revision id (mkRevisionRow revisionNumber revision_is_active (written (graphJson graph)) (written payload) definitionSha256
    activeId actorId now None) revisions;
  rows ← fold_result insert_path (db_paths db) (map (path_row id now) paths);
  Ok (mkDb revisions rows (Some id) (db_history db) (S (db_drawn db)),
      mkRevision id revisionNumber revision_is_active (graphJson graph) paths (map groupJson (cw_routeGroups compiled)) (idsJson (cw_warnings compiled))
        definitionSha256 activeId actorId now None).

(** The compiler, drawing identifiers after those that were drawn, and the tables after it. *)
Definition compile_graph (tables : Tables) (db : RevisionTables) (graph : WorkflowGraph) : result (RevisionTables * CompiledWorkflow) :=
  compiled ← compileWorkflow Number sha256 compiles (λ n, uuid (db_drawn db + n)%nat) tables graph;
  Ok (mkDb (db_revisions db) (db_paths db) (db_active db) (db_history db) (db_drawn db + length (cw_paths compiled)), compiled).

Definition set_history (history : option HistoryRow) (db : RevisionTables) : RevisionTables :=
  mkDb (db_revisions db) (db_paths db) (db_active db) history (db_drawn db).

(** ** Saving *)
Record SaveInput := mkSave {
  sv_baseRevisionId : option string;
  sv_graph : jsval;
  sv_actorId : jsval;
  sv_confirmation : option string;
  sv_history_mode : jsval;
  sv_history_label : jsval }.

Definition conflict_check (activeId baseRevisionId : option string) : result unit :=
  if bool_decide (activeId = baseRevisionId) then Ok tt else throw "WORKFLOW_REVISION_CONFLICT".

Definition timestamp_check (now : Z) : result unit :=
  if negb (isSafeInteger now) || (now <=? 0) then throw "Workflow revision timestamp is invalid." else Ok tt.

Definition saveWorkflowRevision (tables : Tables) (db : RevisionTables) (input : SaveInput) (now : Z) : result (RevisionTables * WorkflowRevision) :=
  actorId ← stringValue (sv_actorId input) "Workflow actor identifier" 128;
  mode ← workflowHistoryMode (sv_history_mode input);
  if bool_decide (mode = mode_undo ∨ mode = mode_redo) then throw "Workflow undo and redo must use the workflow history apply operation."
  else
    label ← (if bool_decide (mode = mode_record) then Some <$> workflowHistoryLabel (sv_history_label input) else Ok None);
    _ ← timestamp_check now;
    history ← (if bool_decide (mode = mode_reset) then Ok None else Some <$> loadWorkflowBuilderHistory Number (db_history db));
    graph ← validateGraph localeCompare (sv_graph input);
    '(db, compiled) ← compile_graph tables db graph;
    '(activeId, activePaths) ← activeWorkflowState db;
    _ ← conflict_check activeId (sv_baseRevisionId input);
    let impact := workflowImpact activePaths (cw_paths compiled) (cw_warnings compiled) in
    _ ← assertWorkflowConfirmation impact (sv_confirmation input);
    '(db, revision) ← activateCompiledWorkflowRevision db activeId graph compiled actorId now;
    row ← (match mode with
           | mode_record =>
               match history, label with
               | Some history, Some label =>
                   writeWorkflowBuilderHistory Number (mkHistory (pushWorkflowHistoryEntry (hs_undo history) (mkEntry activeId label now)) []) now (db_history db)
               | _, _ => throw "Workflow history recording context is missing."
               end
           | mode_reset => writeWorkflowBuilderHistory Number (mkHistory [] []) now (db_history db)
           | _ => Ok (db_history db)
           end);
    Ok (set_history row db, revision).

Definition previewWorkflowImpact (tables : Tables) (db : RevisionTables) (baseRevisionId : option string) (graph : jsval) : result WorkflowImpact :=
  graph ← validateGraph localeCompare graph;
  '(db, compiled) ← compile_graph tables db graph;
  _ ← conflict_check (db_active db) baseRevisionId;
  '(_, activePaths) ← activeWorkflowState db;
  Ok (workflowImpact activePaths (cw_paths compiled) (cw_warnings compiled)).

(** ** Undo and redo *)
Record HistoryTarget := mkTarget { ht_graph : WorkflowGraph; ht_compiled : CompiledWorkflow; ht_sourceRevisionId : option string; ht_sourceDefinitionSha256 : option string }.

Definition EMPTY_WORKFLOW_GRAPH : WorkflowGraph := mkGraph 1 [] [].

Definition workflowHistoryTarget (tables : Tables) (db : RevisionTables) (entry : WorkflowHistoryEntry) : result (RevisionTables * HistoryTarget) :=
  match he_revisionId entry with
  | None =>
      '(db, compiled) ← compile_graph tables db EMPTY_WORKFLOW_GRAPH;
      Ok (db, mkTarget EMPTY_WORKFLOW_GRAPH compiled None None)
  | Some id =>
      try_catch
        (source ← getWorkflowRevisionById db id;
         source ← or_throw source "revision does not exist";
         graph ← validateGraph localeCompare (rv_graph source);
         '(db, compiled) ← compile_graph tables db graph;
         Ok (db, mkTarget graph compiled (Some (rv_id source)) (Some (rv_definitionSha256 source))))
        (λ e, throw ("Workflow history target is invalid: " +:+ message e))
  end.

Definition stack_of (direction : WorkflowHistoryDirection) (history : WorkflowHistoryState) : list WorkflowHistoryEntry :=
  match direction with direction_undo => hs_undo history | direction_redo => hs_redo history end.

Definition empty_error (direction : WorkflowHistoryDirection) : string :=
  match direction with direction_undo => "WORKFLOW_HISTORY_UNDO_EMPTY" | direction_redo => "WORKFLOW_HISTORY_REDO_EMPTY" end.

Definition previewWorkflowBuilderHistoryImpact (tables : Tables) (db : RevisionTables) (direction : jsval) (baseRevisionId : option string) : result WorkflowImpact :=
  direction ← workflowHistoryDirection direction;
  history ← loadWorkflowBuilderHistory Number (db_history db);
  '(activeId, activePaths) ← activeWorkflowState db;
  _ ← conflict_check activeId baseRevisionId;
  entry ← or_throw (last (stack_of direction history)) (empty_error direction);
  '(_, target) ← workflowHistoryTarget tables db entry;
  Ok (workflowImpact activePaths (cw_paths (ht_compiled target)) (cw_warnings (ht_compiled target))).

Definition next_history (direction : WorkflowHistoryDirection) (history : WorkflowHistoryState) (currentEntry : WorkflowHistoryEntry) : WorkflowHistoryState :=
  match direction with
  | direction_undo => mkHistory (slice_init (hs_undo history)) (pushWorkflowHistoryEntry (hs_redo history) currentEntry)
  | direction_redo => mkHistory (pushWorkflowHistoryEntry (hs_undo history) currentEntry) (slice_init (hs_redo history))
  end.

Record HistoryAudit := mkAudit {
  ha_direction : WorkflowHistoryDirection;
  ha_fromRevisionId : option string;
  ha_targetSourceRevisionId : option string;
  ha_newRevisionId : string;
  ha_impact : WorkflowImpact;
  ha_sourceDefinitionSha256 : option string;
  ha_newDefinitionSha256 : string }.

Record ApplyInput := mkApply { ay_direction : jsval; ay_baseRevisionId : option string; ay_actorId : jsval; ay_confirmation : option string }.

Definition applyWorkflowBuilderHistory (tables : Tables) (db : RevisionTables) (input : ApplyInput) (now : Z) :
    result (RevisionTables * (WorkflowRevision * WorkflowHistoryStatus * HistoryAudit)) :=
  direction ← workflowHistoryDirection (ay_direction input);
  actorId ← stringValue (ay_actorId input) "Workflow actor identifier" 128;
  _ ← timestamp_check now;
  history ← loadWorkflowBuilderHistory Number (db_history db);
  '(activeId, activePaths) ← activeWorkflowState db;
  _ ← conflict_check activeId (ay_baseRevisionId input);
  targetEntry ← or_throw (last (stack_of direction history)) (empty_error direction);
  '(db, target) ← workflowHistoryTarget tables db targetEntry;
  let impact := workflowImpact activePaths (cw_paths (ht_compiled target)) (cw_warnings (ht_compiled target)) in
  _ ← assertWorkflowConfirmation impact (ay_confirmation input);
  '(db, workflow) ← activateCompiledWorkflowRevision db activeId (ht_graph target) (ht_compiled target) actorId now;
  let nextHistory := next_history direction history (mkEntry activeId (he_label targetEntry) now) in
  row ← writeWorkflowBuilderHistory Number nextHistory now (db_history db);
  Ok (set_history row db, (workflow, workflowHistoryStatus nextHistory,
    mkAudit direction activeId (ht_sourceRevisionId target) (rv_id workflow) impact (ht_sourceDefinitionSha256 target) (rv_definitionSha256 workflow))).

Definition clearWorkflowBuilderHistory (db : RevisionTables) (reason : jsval) (now : Z) : result RevisionTables :=
  _ ← stringValue reason "Workflow history reset reason" 160;
  row ← writeWorkflowBuilderHistory Number (mkHistory [] []) now (db_history db);
  Ok (set_history row db).

Definition getWorkflowBuilderHistoryStatus (db : RevisionTables) : result WorkflowHistoryStatus :=
  workflowHistoryStatus <$> loadWorkflowBuilderHistory Number (db_history db).
End Revisions.
