(* ===== verification/WorkflowStored.v ===== *)
(** WorkflowStored: what is activated reads back.  A revision written by
    [activateCompiledWorkflowRevision] passes the integrity check of
    [workflowRevisionFromRow] and has the graph, the paths and the route groups
    that were compiled.

    The digest is that of [node:crypto]: a text of hexadecimal digits that is not
    empty, which [localeCompare] orders by code units. *)

From S2P Require Import Prelude Text Rational Json Maps Strategy Workflow WorkflowTopology WorkflowFallback WorkflowCompile NormalJson WorkflowHistory WorkflowRevisions.
From S2P Require WorkflowPlans.
From Stdlib Require Import Ascii.
From Stdlib Require String.
Local Open Scope Z_scope.
Local Open Scope ts_scope.
Set Default Proof Using "Type".

(** ** Validated graphs *)

(** A node as [validateGraph] leaves it. *)
Definition node_laid (n : WorkflowNode) : Prop := (∃ x y, wn_position n = (JInt x, JInt y)) ∧ wn_resourceVersionId n ≠ "".

Lemma validated_nodes localeCompare input g : validateGraph localeCompare input = Ok g → Forall node_laid (wg_nodes g).
Proof.
  intros H. apply validate_inv in H as (v & node_items & edge_items & H). unfold read_graph in H. destruct (negb _); [done|]. destruct (_ || _); [done|].
  apply bind_Ok in H as ([nodes ids] & Hn & H). apply bind_Ok in H as ([edges seen] & _ & [= <-]). cbn [wg_nodes].
  destruct (map_state_fresh readWorkflowNode (λ s, s) wn_id (λ n, wn_resourceVersionId n ≠ "") ∅ node_items nodes ids) as (HP & Hd & _); [|done|].
  { intros s a b s' Hr. destruct (read_node _ _ _ _ Hr) as [[_ Hs] [? ?]]. split; [|done]. intros E. rewrite E in Hs. done. }
  rewrite layout_spec by done. apply Forall_map, Forall_forall. rewrite Forall_forall in HP. intros n Hn'.
  destruct (row_index_In (column localeCompare nodes (wn_kind n)) n) as (i & _ & Hi); [by apply column_ids|by apply column_In|].
  cbn. rewrite (place_in_lookup localeCompare nodes (wn_kind n) i n Hd Hi). split; [by eexists _, _|]. exact (HP n Hn').
Qed.

Lemma texts_stored l : stored (idsJson l) = idsJson l.
Proof. unfold stored, idsJson. cbn [sort_keys JSON_parsed]. f_equal. rewrite !map_map. by apply map_ext. Qed.
Lemma reasons_stored l : stored (reasonsJson l) = reasonsJson l.
Proof. unfold stored, reasonsJson. cbn [sort_keys JSON_parsed]. f_equal. rewrite !map_map. by apply map_ext. Qed.

Lemma array_stored items : stored (JArray items) = JArray (map stored items).
Proof. unfold stored. cbn [sort_keys JSON_parsed]. by rewrite map_map. Qed.

Lemma node_stored n : node_laid n → stored (nodeJson n) = nodeJson n.
Proof. destruct n as [i k r p]. intros [(x & y & E) _]. cbn in E. subst p. unfold nodeJson. cbn [wn_id wn_kind wn_position wn_resourceVersionId fst snd]. reflexivity. Qed.

Lemma edge_stored e : stored (edgeJson e) = edgeJson e.
Proof.
  destruct e as [i s t k c f]. unfold edgeJson. cbn [we_id we_source we_target we_kind we_channelNodeIds we_fallbackOn].
  destruct k as [k|], c as [c|], f as [f|]; cbn [present app fmap option_fmap option_map]; rewrite stored_object;
    match goal with |- JObject (map _ (sorted_own (filter _ ?l))) = _ => replace (sorted_own (filter (λ e, is_undefined e.2 = false) l)) with l by reflexivity end;
    cbn [map]; repeat f_equal; first [apply texts_stored|apply reasons_stored].
Qed.

Lemma graph_stored g : Forall node_laid (wg_nodes g) → stored (graphJson g) = graphJson g.
Proof.
  intros H. assert (stored (graphJson g) = JObject [("edges", stored (JArray (map edgeJson (wg_edges g)))); ("nodes", stored (JArray (map nodeJson (wg_nodes g))));
    ("schemaVersion", JInt (wg_schemaVersion g))]) as -> by reflexivity.
  unfold graphJson. rewrite !array_stored, !map_map. rewrite (map_ext _ _ edge_stored).
  assert (map (λ n, stored (nodeJson n)) (wg_nodes g) = map nodeJson (wg_nodes g)) as ->; [|done].
  apply map_ext_Forall. eapply Forall_impl; [exact H|]. apply node_stored.
Qed.

(** ** Stored paths and groups *)

(** A path as it is read from its row. *)
Definition stored_path (p : WorkflowExecutionPath) : WorkflowExecutionPath :=
  mkExecutionPath (ep_id p) (ep_workflowRevisionId p) (ep_pathKey p) (ep_channelId p) (ep_accountId p) (ep_strategyVersionId p) (ep_parserResourceVersionId p)
    (ep_schemaResourceVersionId p) (ep_contractResourceVersionId p) (ep_sizingResourceVersionId p) (ep_adaptiveRiskResourceVersionId p) (ep_routeGroupKey p)
    (ep_fallbackRank p) (ep_fallbackOn p) (ep_nodeIds p) (stored (ep_effectiveConfiguration p)) (ep_enabled p) (ep_createdAt p).

(** A path whose row reads back. *)
Record path_storable (p : WorkflowExecutionPath) : Prop := mkStorable {
  ps_versions : Forall (λ o, o ≠ Some "") [ep_parserResourceVersionId p; ep_schemaResourceVersionId p; ep_contractResourceVersionId p;
    ep_sizingResourceVersionId p; ep_adaptiveRiskResourceVersionId p];
  ps_group : ep_routeGroupKey p ≠ "";
  ps_configuration : is_undefined (ep_effectiveConfiguration p) = false }.

Lemma or_null_id o : o ≠ Some "" → or_null o = o.
Proof. destruct o as [s|]; [|done]. intros H. cbn. rewrite bool_decide_false by congruence. done. Qed.

Lemma row_reads id now p : path_storable p → ep_workflowRevisionId p = id → ep_createdAt p = now → pathFromRow (path_row id now p) = Ok (stored_path p).
Proof.
  intros [Hv Hg _] <- <-. unfold pathFromRow, path_row. cbn [pw_id pw_workflow_revision_id pw_path_key pw_channel_id pw_account_id pw_strategy_version_id
    pw_parser_resource_version_id pw_schema_resource_version_id pw_contract_resource_version_id pw_sizing_resource_version_id pw_adaptive_risk_resource_version_id
    pw_node_ids pw_effective_configuration_json pw_route_group_key pw_fallback_rank pw_fallback_on pw_enabled pw_created_at parseJson mbind result_bind].
  rewrite !Forall_cons in Hv. destruct Hv as (H1 & H2 & H3 & H4 & H5 & _). rewrite !or_null_id by congruence. cbn [default]. unfold stored_path. by destruct (ep_enabled p).
Qed.

Lemma path_json_stored p grouped : path_storable p → stored (path_fields (stored_path p) grouped) = stored (path_fields p grouped).
Proof.
  intros [_ _ Hc]. apply stored_object_ext. apply Forall2_app; [apply same_stored_list|]. apply Forall2_app; [apply same_stored_list|].
  constructor; [done|]. constructor; [|apply same_stored_list]. split; [done|]. cbn [fst snd ep_effectiveConfiguration stored_path]. split; [|apply stored_idem].
  rewrite Hc. unfold stored. by rewrite is_undefined_parsed.
Qed.

Lemma group_fields_stored p : group_fields (stored_path p) = group_fields p ∧ policy_fields (stored_path p) = policy_fields p.
Proof. done. Qed.

Lemma candidate_stored c : stored (candidateJson c) = JObject [("accountId", JString (rc_accountId c)); ("accountNodeId", JString (rc_accountNodeId c));
  ("enabled", JBool (rc_enabled c)); ("fallbackOn", reasonsJson (rc_fallbackOn c)); ("pathId", JString (rc_pathId c)); ("rank", JInt (Z.of_nat (rc_rank c)))].
Proof. rewrite <-(reasons_stored (rc_fallbackOn c)). reflexivity. Qed.

Lemma group_stored g : stored (groupJson g) = JObject [("candidates", JArray (map (λ c, stored (candidateJson c)) (rg_candidates g))); ("channelId", JString (rg_channelId g));
  ("channelNodeId", JString (rg_channelNodeId g)); ("key", JString (rg_key g)); ("primaryPathId", JString (rg_primaryPathId g))].
Proof. rewrite <-map_map, <-array_stored. reflexivity. Qed.

Lemma payload_stored paths w : stored (compiledPayload paths w) = JObject [("paths", JArray (map (λ p, stored (pathJson p)) paths));
  ("routeGroups", JArray (map (λ g, stored (groupJson g)) (cw_routeGroups w))); ("warnings", idsJson (cw_warnings w))].
Proof. rewrite <-(map_map pathJson), <-(map_map groupJson), <-!array_stored, <-(texts_stored (cw_warnings w)). reflexivity. Qed.

Lemma path_has_policy p : has_policy (stored (pathJson p)) = Ok true.
Proof. unfold has_policy, pathJson, path_fields. rewrite (property_stored "fallbackOn" _ (reasonsJson (ep_fallbackOn p))); [by rewrite reasons_stored|reflexivity|done]. Qed.

(** ** The integrity check *)
Section Integrity.
Context (Number : jsval → jsval).

(** What was compiled and what is read agree up to the order of properties. *)
Lemma integrity_compiled graph paths w : Forall path_storable paths → (paths = [] → cw_routeGroups w = []) → (∃ v, property "schemaVersion" graph = Ok v) →
  ∃ compiled, workflowIntegrityCompiled Number graph (map stored_path paths) (stored (compiledPayload paths w)) = Ok compiled ∧
    stored compiled = stored (compiledPayload paths w).
Proof.
  intros Hp Hempty [version Hversion]. 
  enough (∃ compiled, workflowIntegrityCompiled Number graph (map stored_path paths) (JObject [("paths", JArray (map (λ p, stored (pathJson p)) paths));
    ("routeGroups", JArray (map (λ g, stored (groupJson g)) (cw_routeGroups w))); ("warnings", idsJson (cw_warnings w))]) = Ok compiled ∧
    stored compiled = stored (compiledPayload paths w)) as (compiled & H1 & H2) by (exists compiled; split; [by rewrite payload_stored|exact H2]).
  unfold workflowIntegrityCompiled.
  set (groups := map (λ g, stored (groupJson g)) (cw_routeGroups w)). set (items := map (λ p, stored (pathJson p)) paths).
  assert (∀ strip H, stored (JObject [("paths", JArray (map (λ p, if strip : bool then path_fields p (group_fields p) else pathJson p) (map stored_path paths)));
    ("routeGroups", JArray groups); ("warnings", idsJson (cw_warnings w))]) = H → (paths = [] ∨ strip = false) → H = stored (compiledPayload paths w)) as Hend.
  { intros strip H <- Hs. rewrite <-(stored_idem (compiledPayload paths w)), payload_stored. apply stored_object_ext. constructor; [|apply same_stored_list].
    split; [done|split; [done|]]. cbn [snd]. apply stored_array_ext. unfold items. rewrite map_map. destruct Hs as [->| ->]; [constructor|].
    clear -Hp. induction Hp as [|p l Hp _ IH]; cbn [map]; constructor; [|exact IH]. rewrite stored_idem. by apply path_json_stored. }
  assert (property "routeGroups" (JObject [("paths", JArray items); ("routeGroups", JArray groups); ("warnings", idsJson (cw_warnings w))]) = Ok (JArray groups)) as -> by done.
  assert (property "warnings" (JObject [("paths", JArray items); ("routeGroups", JArray groups); ("warnings", idsJson (cw_warnings w))]) = Ok (idsJson (cw_warnings w))) as -> by done.
  assert (property "paths" (JObject [("paths", JArray items); ("routeGroups", JArray groups); ("warnings", idsJson (cw_warnings w))]) = Ok (JArray items)) as -> by done.
  cbn [mbind result_bind or_default idsJson truthy WorkflowPlans.truthy negb items_of]. rewrite Hversion.
  destruct paths as [|p paths].
  - assert (groups = []) as -> by (unfold groups; by rewrite Hempty). subst items. cbn [map some_result mbind result_bind negb].
    rewrite andb_true_r. destruct (_ <? 0); cbn [mapM mbind result_bind]; (eexists; split; [reflexivity|]).
    + exact (Hend true _ eq_refl (or_introl eq_refl)).
    + exact (Hend false _ eq_refl (or_introl eq_refl)).
  - assert (some_result has_policy items = Ok true) as ->. { subst items. cbn [map some_result]. by rewrite path_has_policy. }
    cbn [mbind result_bind negb]. rewrite andb_false_r. eexists. split; [reflexivity|]. eapply (Hend false); [reflexivity|by right].
Qed.

Lemma hydrated_groups graph paths paths' w : hydratedRouteGroups graph paths (stored (compiledPayload paths' w)) = Ok (map (λ g, stored (groupJson g)) (cw_routeGroups w)).
Proof.
  rewrite payload_stored. unfold hydratedRouteGroups.
  match goal with |- (v ← property "routeGroups" ?o; _) = _ => assert (property "routeGroups" o = Ok (JArray (map (λ g, stored (groupJson g)) (cw_routeGroups w)))) as -> by done end.
  cbn [mbind result_bind items_of]. apply mapM_Ok. induction (cw_routeGroups w) as [|g gs IH]; cbn [map]; constructor; [|exact IH].
  rewrite group_stored. unfold with_candidates.
  match goal with |- (v ← property "candidates" ?o; _) = _ => assert (property "candidates" o = Ok (JArray (map (λ c, stored (candidateJson c)) (rg_candidates g)))) as -> by done end.
  cbn [mbind result_bind items_of]. rewrite map_map.
  assert (map (λ c, hydrate_candidate paths (stored (candidateJson c))) (rg_candidates g) = map (λ c, stored (candidateJson c)) (rg_candidates g)) as ->; [|done].
  apply map_ext. intros c. rewrite candidate_stored. reflexivity.
Qed.
End Integrity.

Lemma definition_stored paths w g : normalizedJson (JObject [("graph", graphJson g); ("compiled", compiledPayload paths w)])
  = definition_text (normalizedJson (compiledPayload paths w)) (normalizedJson (graphJson g)).
Proof.
  unfold normalizedJson at 1. rewrite sort_keys_object. replace (sorted_own [("graph", graphJson g); ("compiled", compiledPayload paths w)])
    with [("compiled", compiledPayload paths w); ("graph", graphJson g)] by reflexivity.
  unfold JSON_stringify, definition_text. f_equal. rewrite stringify_object. unfold members. cbn [map].
  rewrite filter_kept. 2: { intros e. rewrite !elem_of_cons. intros [->|[->|[]%not_elem_of_nil]]; cbn [snd]; by rewrite is_undefined_sort. }
  cbn [map fst snd commas app]. unfold normalizedJson, JSON_stringify. rewrite !chars_of_chars, <-!app_assoc. cbn [app]. by rewrite <-!app_assoc.
Qed.

(** ** Compiled workflows *)

(** The paths of a compiled workflow can be stored, under keys that are digests. *)
Record compiled_ok (sha256 : string → string) (w : CompiledWorkflow) : Prop := mkCompiledOk {
  wo_storable : ∀ id now, Forall (λ p, path_storable (executionPath id now p)) (cw_paths w);
  wo_keys : Forall (λ p, ∃ v, dp_pathKey p = digest sha256 v) (cw_paths w);
  wo_groups : cw_paths w = [] → cw_routeGroups w = [] }.

Lemma compiled_stores Number sha256 compiles localeCompare uuid tables input g w : consistent localeCompare → (∀ s, sha256 s ≠ "") →
  validateGraph localeCompare input = Ok g → compileWorkflow Number sha256 compiles uuid tables g = Ok w → compiled_ok sha256 w.
Proof.
  intros Hl Hs Hg H. pose proof (validated_nodes _ _ _ Hg) as Hn. destruct (validate_spec _ _ _ Hl Hg) as [Hok _]. clear Hg.
  destruct (compile_spec _ _ _ _ _ _ _ Hok H) as (context & Hc & He & _). destruct (emitted_routes _ _ _ _ _ _ _ _ He) as (_ & H2 & H3).
  assert (∀ o, named_version context o → o ≠ Some "") as Hv.
  { intros o Ho ->. destruct (Ho "" eq_refl) as (n & node & Hin & E). destruct (xo_topology _ _ _ _ Hc) as [indegree Ht].
    destruct (build_topology _ _ _ _ Hok Ht) as (En & _). rewrite En in Hin. apply by_id_lookup in Hin as [Hin _]; [|exact (go_nodes _ Hok)].
    rewrite Forall_forall in Hn. by destruct (Hn node Hin). }
  assert (∀ p, p ∈ cw_paths w → keyed sha256 context p) as Hk.
  { intros p (r & g' & ps & _ & _ & _ & [rank Hrank]%list_elem_of_lookup & (chain & sv & _ & _ & L1 & L2 & _ & Hall))%H3.
    destruct (lookup_lt_is_Some_2 (rg_candidates g') rank) as [c Hcand]; [apply lookup_lt_Some in Hrank; lia|].
    destruct (Hall rank c p Hcand Hrank) as (_ & _ & _ & _ & _ & _ & _ & _ & _ & _ & _ & _ & _ & Hkeyed). exact Hkeyed. }
  constructor.
  - intros id now. apply Forall_forall. intros p Hp. destruct (Hk p Hp) as (_ & (v & Ev) & Hvs). constructor; [|cbn; rewrite Ev; apply Hs|done].
    eapply Forall_impl; [exact Hvs|]. exact Hv.
  - apply Forall_forall. intros p Hp. by destruct (Hk p Hp).
  - intros E. destruct (cw_routeGroups w) as [|g' gs] eqn:Eg; [done|]. destruct (H2 g') as (r & ps & _ & _ & Hsub & (chain & sv & _ & _ & _ & L2 & _)); [left|].
    rewrite E in Hsub. destruct ps as [|p ps]; [done|]. exfalso. apply (not_elem_of_nil p). apply Hsub. left.
Qed.

(** ** Activation *)

(** A revision as it reads back. *)
Definition stored_revision (r : WorkflowRevision) : WorkflowRevision :=
  mkRevision (rv_id r) (rv_revision r) (rv_status r) (rv_graph r) (map stored_path (rv_paths r)) (map stored (rv_routeGroups r)) (rv_warnings r)
    (rv_definitionSha256 r) (rv_baseRevisionId r) (rv_createdBy r) (rv_createdAt r) (rv_archivedAt r).

Lemma insert_paths rows paths out : fold_result insert_path paths rows = Ok out → out = paths ++ rows.
Proof.
  revert paths. induction rows as [|row rows IH]; intros paths H; cbn [fold_result] in H; [injection H as <-; by rewrite app_nil_r|].
  apply bind_Ok in H as (paths' & H1 & H). unfold insert_path in H1. destruct (existsb _ _); [done|]. injection H1 as <-. rewrite (IH _ H), <-app_assoc. done.
Qed.

Section Activation.
Context (Number : jsval → jsval) (sha256 : string → string) (localeCompare : string → string → Z) (uuid : nat → string).
Context (Hlocale : consistent localeCompare) (Hhex : ∀ s t, (localeCompare (sha256 s) (sha256 t) <? 0) = String.ltb (sha256 s) (sha256 t)).

Definition sorted_paths (id : string) (now : Z) (w : CompiledWorkflow) : list WorkflowExecutionPath :=
  sort_with (λ left right, localeCompare (ep_pathKey left) (ep_pathKey right)) (map (executionPath id now) (cw_paths w)).

Lemma sorted_paths_In id now w p : p ∈ sorted_paths id now w → ∃ q, q ∈ cw_paths w ∧ p = executionPath id now q.
Proof. unfold sorted_paths. rewrite sort_with_Permutation. intros (q & -> & Hq)%list_elem_of_fmap. by exists q. Qed.

(** The order of the column is the order of the stored revision. *)
Lemma rows_sorted id now w : compiled_ok sha256 w →
  sort_text pw_path_key (map (path_row id now) (sorted_paths id now w)) = map (path_row id now) (sorted_paths id now w).
Proof using Hlocale Hhex.
  intros Hw. rewrite sort_text_with. apply sort_with_id.
  assert (StronglySorted (λ a b, 0 <= localeCompare (ep_pathKey b) (ep_pathKey a)) (sorted_paths id now w)) as Hs.
  { apply (sort_with_sorted (λ left right, localeCompare (ep_pathKey left) (ep_pathKey right))). destruct Hlocale as [H1 H2].
    split; [intros a b; apply H1|intros a b c; apply H2]. }
  assert (Forall (λ p, ∃ v, ep_pathKey p = sha256 v) (sorted_paths id now w)) as Hk.
  { apply Forall_forall. intros p (q & Hq & ->)%sorted_paths_In. pose proof (wo_keys _ _ Hw) as H. rewrite Forall_forall in H. destruct (H q Hq) as [v Ev]. exists (normalizedJson v). exact Ev. }
  induction Hs as [|p l _ IH Hf]; cbn [map]; constructor; [apply IH; by apply Forall_cons in Hk as [_ ?]|]. apply Forall_cons in Hk as [[v Ev] Hk].
  apply Forall_map, Forall_forall. intros q Hq. rewrite Forall_forall in Hf, Hk. specialize (Hf q Hq). destruct (Hk q Hq) as [v' Ev'].
  rewrite Ev, Ev' in Hf. cbn. unfold text_compare. cbn [pw_path_key path_row]. rewrite Ev, Ev', <-Hhex. destruct (Z.ltb_spec (localeCompare (sha256 v') (sha256 v)) 0); lia.
Qed.

Abbreviation activate := (activateCompiledWorkflowRevision sha256 localeCompare uuid).

(** What an activation does. *)
Lemma activate_spec db activeId g w actorId now db' r : activate db activeId g w actorId now = Ok (db', r) →
  let id := uuid (db_drawn db) in
  r = mkRevision id (latest_revision (db_revisions db) + 1) revision_is_active (graphJson g) (sorted_paths id now w) (map groupJson (cw_routeGroups w)) (idsJson (cw_warnings w))
        (digest sha256 (JObject [("graph", graphJson g); ("compiled", compiledPayload (sorted_paths id now w) w)])) activeId actorId now None ∧
  db_paths db' = db_paths db ++ map (path_row id now) (sorted_paths id now w) ∧ db_active db' = Some id ∧ db_history db' = db_history db ∧ db_drawn db' = S (db_drawn db) ∧
  ∃ revisions row, match activeId with Some active => archive_revision now active (db_revisions db) | None => Ok (db_revisions db) end = Ok revisions ∧
    row = mkRevisionRow (rv_revision r) revision_is_active (written (graphJson g)) (written (compiledPayload (sorted_paths id now w) w)) (rv_definitionSha256 r) activeId actorId now None ∧
    insert_revision id row revisions = Ok (db_revisions db') ∧ revisions !! id = None ∧ db_revisions db' = <[id := row]> revisions.
Proof.
  intros H id. unfold activateCompiledWorkflowRevision in H. fold id in H. fold (sorted_paths id now w) in H. apply bind_Ok in H as (revisions & Ha & H).
  apply bind_Ok in H as (revisions' & Hi & H). apply bind_Ok in H as (rows & Hp%insert_paths & [= <- <-]). cbn [db_paths db_active db_history db_drawn db_revisions]. subst rows.
  do 5 (split; [done|]). exists revisions. eexists. split; [done|]. split; [reflexivity|]. cbn [rv_revision rv_definitionSha256]. split; [exact Hi|].
  unfold insert_revision in Hi. destruct (_ || _) eqn:E; [done|]. rewrite orb_false_iff in E. destruct E as [E%bool_decide_eq_false _]. injection Hi as <-.
  split; [by apply eq_None_not_Some|done].
Qed.

Lemma paths_read db id now w : (∀ row, row ∈ db_paths db → pw_workflow_revision_id row ≠ id) → compiled_ok sha256 w →
  mapM pathFromRow (sort_text pw_path_key (filter (λ row, pw_workflow_revision_id row = id) (db_paths db ++ map (path_row id now) (sorted_paths id now w))))
    = Ok (map stored_path (sorted_paths id now w)).
Proof using Hlocale Hhex.
  intros Hfresh Hw. rewrite filter_app, (filter_none _ (db_paths db)) by exact Hfresh. cbn [app].
  rewrite filter_kept. 2: { intros row (p & -> & _)%list_elem_of_fmap. done. } rewrite rows_sorted by done. apply mapM_Ok.
  assert (∀ p, p ∈ sorted_paths id now w → pathFromRow (path_row id now p) = Ok (stored_path p)) as H.
  { intros p (q & Hq & ->)%sorted_paths_In. pose proof (wo_storable _ _ Hw id now) as Hs. rewrite Forall_forall in Hs. apply row_reads; [by apply Hs|done|done]. }
  induction (sorted_paths id now w) as [|p l IH]; cbn [map]; constructor; [apply H; left|]. apply IH. intros q Hq. apply H. by right.
Qed.

Lemma activated_reads db activeId g w actorId now db' r : (∀ row, row ∈ db_paths db → pw_workflow_revision_id row ≠ uuid (db_drawn db)) → activeId ≠ Some "" →
  Forall node_laid (wg_nodes g) → compiled_ok sha256 w → activate db activeId g w actorId now = Ok (db', r) →
  ∃ row, db_revisions db' !! rv_id r = Some row ∧ workflowRevisionFromRow Number sha256 db' (rv_id r) row = Ok (stored_revision r).
Proof using Hlocale Hhex.
  intros Hfresh Hbase Hg Hw H. destruct (activate_spec _ _ _ _ _ _ _ _ H) as (Er & Ep & _ & _ & _ & revisions & row & _ & Erow & _ & _ & Ers). set (id := uuid (db_drawn db)) in *.
  exists row. rewrite Er. cbn [rv_id]. split; [rewrite Ers; apply lookup_insert_eq|]. unfold workflowRevisionFromRow. rewrite Erow.
  cbn [rw_graph_json rw_compiled_json tc_value tc_text written parseJson mbind result_bind rw_definition_sha256 rw_revision rw_status rw_base_revision_id rw_created_by rw_created_at rw_archived_at].
  unfold paths_of. rewrite Ep, paths_read by done. cbn [mbind result_bind]. rewrite (graph_stored g Hg).
  assert (Forall path_storable (sorted_paths id now w)) as Hs.
  { apply Forall_forall. intros p (q & Hq & ->)%sorted_paths_In. pose proof (wo_storable _ _ Hw id now) as Hs. rewrite Forall_forall in Hs. by apply Hs. }
  assert (sorted_paths id now w = [] → cw_routeGroups w = []) as He.
  { intros E. apply (wo_groups _ _ Hw). unfold sorted_paths in E. apply length_zero_iff_nil. rewrite <-(length_map (executionPath id now)).
    rewrite <-(sort_with_Permutation (λ left right, localeCompare (ep_pathKey left) (ep_pathKey right))), E. done. }
  destruct (integrity_compiled Number (graphJson g) _ w Hs He) as (compiled & -> & Ec); [by exists (JInt (wg_schemaVersion g))|]. cbn [mbind result_bind].
  rewrite Er. cbn [rv_definitionSha256]. rewrite bool_decide_true by (unfold digest; by rewrite definition_stored).
  rewrite bool_decide_true by (apply normalizedJson_eq; by rewrite Ec, stored_idem). cbn [negb orb]. rewrite hydrated_groups. cbn [mbind result_bind].
  rewrite payload_stored.
  match goal with |- (v ← property "warnings" ?o; _) = _ => assert (property "warnings" o = Ok (idsJson (cw_warnings w))) as -> by done end.
  cbn [mbind result_bind or_default idsJson]. rewrite or_null_id by done. unfold stored_revision. cbn [rv_id rv_revision rv_status rv_graph rv_paths rv_routeGroups rv_warnings
    rv_definitionSha256 rv_baseRevisionId rv_createdBy rv_createdAt rv_archivedAt]. by rewrite map_map.
Qed.
End Activation.
