(* ===== verification/WorkflowUndo.v ===== *)
(** WorkflowUndo: the history of a workflow over every sequence of saves, undos,
    redos and resets of [WorkflowRevisions].

    Every call runs in a transaction: one that throws leaves the tables as they
    were.  The resources a graph is compiled against may differ from call to
    call. *)

From S2P Require Import Prelude Text Rational Json Maps Strategy Workflow WorkflowTopology WorkflowFallback WorkflowCompile NormalJson WorkflowHistory WorkflowRevisions WorkflowStored.
From Stdlib Require Import Ascii.
From Stdlib Require String.
Local Open Scope Z_scope.
Local Open Scope ts_scope.
Set Default Proof Using "Type".

(** ** Numbers *)
Lemma latest_revision_ge revisions id row : revisions !! id = Some row → rw_revision row <= latest_revision revisions.
Proof.
  intros H%elem_of_map_to_list. unfold latest_revision. induction (map_to_list revisions) as [|e l IH]; [by apply not_elem_of_nil in H|]. cbn [map foldr].
  apply elem_of_cons in H as [<-|H]; [cbn; lia|]. specialize (IH H). lia.
Qed.

(** A row that is archived keeps what it defines. *)
Definition same_definition (row row' : WorkflowRevisionRow) : Prop :=
  rw_revision row' = rw_revision row ∧ rw_graph_json row' = rw_graph_json row ∧ rw_compiled_json row' = rw_compiled_json row ∧
  rw_definition_sha256 row' = rw_definition_sha256 row ∧ rw_base_revision_id row' = rw_base_revision_id row.

Lemma read_frame Number sha256 db db' id row row' r : paths_of db' id = paths_of db id → same_definition row row' →
  workflowRevisionFromRow Number sha256 db id row = Ok r →
  ∃ r', workflowRevisionFromRow Number sha256 db' id row' = Ok r' ∧ rv_graph r' = rv_graph r ∧ rv_paths r' = rv_paths r ∧ rv_routeGroups r' = rv_routeGroups r.
Proof.
  intros Hp (E1 & E2 & E3 & E4 & E5) H. unfold workflowRevisionFromRow in *. rewrite Hp, E2, E3, E4. apply bind_Ok in H as (graph & -> & H).
  apply bind_Ok in H as (storedCompiled & -> & H). apply bind_Ok in H as (paths & -> & H). cbn [mbind result_bind]. apply bind_Ok in H as (compiled & -> & H).
  cbn [mbind result_bind]. destruct (_ || _); [done|]. apply bind_Ok in H as (groups & -> & H). apply bind_Ok in H as (warnings & -> & [= <-]). cbn [mbind result_bind].
  eexists. split; [reflexivity|]. done.
Qed.

Lemma archive_spec now id revisions revisions' : archive_revision now id revisions = Ok revisions' → ∃ row row', revisions !! id = Some row ∧ rw_status row = revision_is_active ∧
  same_definition row row' ∧ rw_status row' = revision_is_archived ∧ revisions' = <[id := row']> revisions.
Proof.
  unfold archive_revision. intros H. destruct (revisions !! id) as [row|]; [|done]. case_bool_decide as E; [|done]. injection H as <-.
  refine (ex_intro _ row (ex_intro _ _ (conj eq_refl (conj E (conj _ (conj _ eq_refl)))))); by repeat split.
Qed.

Section Store.
Context (Number : jsval → jsval) (sha256 : string → string) (compiles : string → bool) (localeCompare : string → string → Z) (uuid : nat → string).
Context (Hlocale : consistent localeCompare) (Hhex : ∀ s t, (localeCompare (sha256 s) (sha256 t) <? 0) = String.ltb (sha256 s) (sha256 t)).
Context (Hsha : ∀ s, sha256 s ≠ "") (Number_int : ∀ z, Number (JInt z) = JInt z) (Huuid : Inj (=) (=) uuid) (Hid : ∀ n, uuid n ≠ "" ∧ trim (uuid n) = uuid n).

Abbreviation getWorkflowRevisionById := (getWorkflowRevisionById Number sha256).
Abbreviation workflowRevisionFromRow := (workflowRevisionFromRow Number sha256).
Abbreviation activate := (activateCompiledWorkflowRevision sha256 localeCompare uuid).
Abbreviation saveWorkflowRevision := (saveWorkflowRevision Number sha256 compiles localeCompare uuid).
Abbreviation applyWorkflowBuilderHistory := (applyWorkflowBuilderHistory Number sha256 compiles localeCompare uuid).
Abbreviation clearWorkflowBuilderHistory := (clearWorkflowBuilderHistory Number).
Abbreviation compile_graph := (compile_graph Number sha256 compiles uuid).

(** ** Sound tables *)

(** The stored revision passes its integrity check and has a graph that validates. *)
Definition intact (db : RevisionTables) (id : string) (row : WorkflowRevisionRow) : Prop :=
  ∃ g r, workflowRevisionFromRow db id row = Ok r ∧ rv_graph r = graphJson g ∧ validateGraph localeCompare (graphJson g) = Ok g.

Record revisions_ok (db : RevisionTables) : Prop := mkRevisionsOk {
  so_intact : ∀ id row, db_revisions db !! id = Some row → intact db id row;
  so_drawn : ∀ id, is_Some (db_revisions db !! id) → ∃ n, (n < db_drawn db)%nat ∧ id = uuid n;
  so_paths : ∀ row, row ∈ db_paths db → is_Some (db_revisions db !! pw_workflow_revision_id row);
  so_active : ∀ id, db_active db = Some id ↔ ∃ row, db_revisions db !! id = Some row ∧ rw_status row = revision_is_active;
  so_started : db_active db = None → db_revisions db = ∅;
  so_numbers : ∀ id id' row row', db_revisions db !! id = Some row → db_revisions db !! id' = Some row' → rw_revision row = rw_revision row' → id = id';
  so_latest : ∀ id id' row row', db_active db = Some id → db_revisions db !! id = Some row → db_revisions db !! id' = Some row' → rw_revision row' <= rw_revision row;
  so_base : ∀ id row b, db_revisions db !! id = Some row → rw_base_revision_id row = Some b →
    ∃ row', db_revisions db !! b = Some row' ∧ rw_revision row' < rw_revision row }.

(** The stacks are read, hold together at most five entries, and name stored revisions. *)
Definition known (db : RevisionTables) (e : WorkflowHistoryEntry) : Prop := ∀ id, he_revisionId e = Some id → is_Some (db_revisions db !! id).

Definition history_sound (db : RevisionTables) (h : WorkflowHistoryState) : Prop :=
  loadWorkflowBuilderHistory Number (db_history db) = Ok h ∧ history_ok h ∧ Forall (known db) (hs_undo h ++ hs_redo h) ∧
  (length (hs_undo h) + length (hs_redo h) <= WORKFLOW_BUILDER_HISTORY_LIMIT)%nat.

Record store_ok (db : RevisionTables) : Prop := mkStoreOk { sk_revisions : revisions_ok db; sk_history : ∃ h, history_sound db h }.

Lemma drawn_frame db n : revisions_ok db → revisions_ok (mkDb (db_revisions db) (db_paths db) (db_active db) (db_history db) (db_drawn db + n)).
Proof.
  intros [H1 H2 H3 H4 H5 H6 H7 H8]. constructor; try done. intros id Hi. destruct (H2 id Hi) as (k & ? & ->). exists k. split; [cbn; lia|done].
Qed.

Lemma history_frame db row : revisions_ok db → revisions_ok (set_history row db).
Proof. intros [H1 H2 H3 H4 H5 H6 H7 H8]. by constructor. Qed.

(** ** Activation keeps the tables sound *)
Lemma uuid_named n : uuid n ≠ "".
Proof using Hid. apply Hid. Qed.

Lemma archived_lookup activeId now revisions revisions' : match activeId with Some a => archive_revision now a revisions | None => Ok revisions end = Ok revisions' →
  (∀ id row', revisions' !! id = Some row' → ∃ row, revisions !! id = Some row ∧ same_definition row row') ∧
  (∀ id row, revisions !! id = Some row → ∃ row', revisions' !! id = Some row' ∧ same_definition row row') ∧
  (∀ id row', revisions' !! id = Some row' → rw_status row' = revision_is_active → activeId ≠ Some id ∧ revisions !! id = Some row').
Proof.
  assert (∀ row, same_definition row row) as Hrefl by (intros row; by repeat split). destruct activeId as [a|].
  - intros (row & arow & Ha & _ & Hs & Hst & ->)%archive_spec. split_and!.
    + intros id row'. destruct (decide (id = a)) as [->|Hne]; [rewrite lookup_insert_eq; intros [= <-]; by exists row|rewrite lookup_insert_ne by done; intros H; by exists row'].
    + intros id row0 H0. destruct (decide (id = a)) as [->|Hne]; [exists arow; rewrite lookup_insert_eq; split; [done|congruence]|exists row0; by rewrite lookup_insert_ne].
    + intros id row'. destruct (decide (id = a)) as [->|Hne]; [rewrite lookup_insert_eq; intros [= <-]; congruence|rewrite lookup_insert_ne by done; intros H _; split; [congruence|done]].
  - intros [= <-]. split_and!; intros id row H; [by exists row|by exists row|done].
Qed.

Lemma activation_keeps db g w actorId now db' r : revisions_ok db → validateGraph localeCompare (graphJson g) = Ok g → compiled_ok sha256 w →
  activate db (db_active db) g w actorId now = Ok (db', r) →
  revisions_ok db' ∧ db_active db' = Some (rv_id r) ∧ rv_graph r = graphJson g ∧ rv_baseRevisionId r = db_active db ∧ db_history db' = db_history db ∧
  (∀ id row, db_revisions db !! id = Some row → id ≠ rv_id r ∧ ∃ row', db_revisions db' !! id = Some row' ∧ same_definition row row') ∧
  (∀ id, id ≠ rv_id r → paths_of db' id = paths_of db id) ∧ getWorkflowRevisionById db' (rv_id r) = Ok (Some (stored_revision r)).
Proof using Hlocale Hhex Huuid Hid.
  intros Hdb Hg Hw H. pose proof (activate_spec _ _ _ _ _ _ _ _ _ _ _ H) as (Er & Ep & Ea & Eh & Ed & revisions & row & Harch & Erow & Hins & Hnew & Ers).
  set (id := uuid (db_drawn db)) in *. assert (rv_id r = id) as Eid by (by rewrite Er).
  assert (∀ i, is_Some (db_revisions db !! i) → i ≠ id) as Hfresh.
  { intros i Hi ->. destruct (so_drawn _ Hdb _ Hi) as (n & Hn & E). apply Huuid in E. lia. }
  destruct (activated_reads Number sha256 localeCompare uuid Hlocale Hhex db (db_active db) g w actorId now db' r) as (row0 & H0 & Hread); [| | | |exact H|].
  { intros p Hp E. by apply (Hfresh _ (so_paths _ Hdb p Hp)). }
  { intros E. destruct (so_active _ Hdb "") as [(arow & Hrow & _) _]; [done|]. destruct (so_drawn _ Hdb "") as (n & _ & En); [by eexists|]. by apply (uuid_named n). }
  { by eapply validated_nodes. } { exact Hw. }
  rewrite Eid in *. assert (row0 = row) as -> by (rewrite Ers, lookup_insert_eq in H0; congruence).
  destruct (archived_lookup _ _ _ _ Harch) as (Hback & Hforth & Hstill).
  assert (∀ i, i ≠ id → paths_of db' i = paths_of db i) as Hpaths.
  { intros i Hi. unfold paths_of. rewrite Ep, filter_app, (filter_none _ (map _ _)); [by rewrite app_nil_r|]. intros p (q & -> & _)%list_elem_of_fmap. cbn. congruence. }
  assert (∀ i row', db_revisions db' !! i = Some row' → (i = id ∧ row' = row) ∨ (i ≠ id ∧ ∃ row0, db_revisions db !! i = Some row0 ∧ same_definition row0 row')) as Hcases.
  { intros i row' Hi. rewrite Ers in Hi. destruct (decide (i = id)) as [->|Hne]; [left; rewrite lookup_insert_eq in Hi; split; congruence|].
    right. rewrite lookup_insert_ne in Hi by done. split; [done|by apply Hback]. }
  assert (rw_revision row = latest_revision (db_revisions db) + 1) as Enum by (by rewrite Erow, Er).
  split_and!; try done.
  2: { by rewrite Er. } 2: { by rewrite Er. }
  2: { intros i row0' Hi. split; [apply Hfresh; by eexists|]. destruct (Hforth i _ Hi) as (row' & Hr' & Hs). exists row'. split; [|done].
       rewrite Ers, lookup_insert_ne; [done|]. intros <-. by apply (Hfresh id (ex_intro _ _ Hi)). }
  2: { unfold WorkflowRevisions.getWorkflowRevisionById. rewrite H0, Hread. done. }
  constructor.
  - intros i row' [[-> ->]|(Hne & row1 & Hr1 & Hs)]%Hcases.
    + exists g, (stored_revision r). split; [exact Hread|]. split; [by rewrite Er|done].
    + destruct (so_intact _ Hdb i row1 Hr1) as (g1 & r1 & Hread1 & Eg & Hg1). destruct (read_frame _ _ db db' i row1 row' r1 (Hpaths i Hne) Hs Hread1) as (r' & Hr' & Eg' & _).
      exists g1, r'. split; [exact Hr'|]. split; [by rewrite Eg'|done].
  - intros i [row' [[-> _]|(_ & row1 & Hr1 & _)]%Hcases]; rewrite Ed; [by exists (db_drawn db); split; [lia|]|].
    destruct (so_drawn _ Hdb i) as (n & ? & ->); [by eexists|]. exists n. split; [lia|done].
  - intros p Hp. rewrite Ep in Hp. apply elem_of_app in Hp as [Hp|(q & -> & _)%list_elem_of_fmap].
    + destruct (so_paths _ Hdb p Hp) as [row1 Hr1]. destruct (Hforth _ _ Hr1) as (row' & Hr' & _). exists row'. rewrite Ers, lookup_insert_ne; [done|].
      intros E. apply (Hfresh (pw_workflow_revision_id p)); [by eexists|done].
    + exists row. cbn. rewrite Ers. apply lookup_insert_eq.
  - intros i. rewrite Ea. split.
    + intros [= <-]. exists row. split; [rewrite Ers; apply lookup_insert_eq|by rewrite Erow].
    + intros (row' & Hi & Hact). rewrite Ers in Hi. destruct (decide (i = id)) as [->|Hne]; [done|]. rewrite lookup_insert_ne in Hi by done.
      destruct (Hstill i row' Hi Hact) as [Hne' Hi']. exfalso. apply Hne'. apply (so_active _ Hdb). by exists row'.
  - rewrite Ea. done.
  - intros i j row1 row2 [[-> ->]|(Hn1 & r1 & Hr1 & Hs1)]%Hcases [[-> ->]|(Hn2 & r2 & Hr2 & Hs2)]%Hcases E.
    + done.
    + exfalso. pose proof (latest_revision_ge _ _ _ Hr2). destruct Hs2 as [E2 _]. lia.
    + exfalso. pose proof (latest_revision_ge _ _ _ Hr1). destruct Hs1 as [E1 _]. lia.
    + eapply (so_numbers _ Hdb); [exact Hr1|exact Hr2|]. destruct Hs1 as [E1 _], Hs2 as [E2 _]. congruence.
  - intros i j row1 row2 E Hi [[-> ->]|(Hn2 & r2 & Hr2 & [E2 _])]%Hcases; rewrite Ea in E; injection E as <-; rewrite Ers, lookup_insert_eq in Hi; injection Hi as <-; [done|].
    pose proof (latest_revision_ge _ _ _ Hr2). lia.
  - intros i row1 b [[-> ->]|(Hn1 & r1 & Hr1 & Hs1)]%Hcases Eb.
    + rewrite Erow in Eb. cbn in Eb. destruct (so_active _ Hdb b) as [(brow & Hb & _) _]; [done|]. destruct (Hforth _ _ Hb) as (brow' & Hb' & [E1 _]). exists brow'.
      split; [rewrite Ers, lookup_insert_ne; [done|]; intros <-; by apply (Hfresh id (ex_intro _ _ Hb))|]. pose proof (latest_revision_ge _ _ _ Hb). lia.
    + destruct Hs1 as (E1 & _ & _ & _ & E5). destruct (so_base _ Hdb i r1 b Hr1) as (brow & Hb & Hlt); [congruence|]. destruct (Hforth _ _ Hb) as (brow' & Hb' & [E2 _]). exists brow'.
      split; [rewrite Ers, lookup_insert_ne; [done|]; intros <-; by apply (Hfresh id (ex_intro _ _ Hb))|]. lia.
Qed.

(** ** Stacks *)
Lemma slice_last_In {A} n (l : list A) x : x ∈ slice_last n l → x ∈ l.
Proof. unfold slice_last. intros [i Hi]%list_elem_of_lookup. rewrite lookup_drop in Hi. by eapply list_elem_of_lookup_2. Qed.
Lemma slice_last_length {A} n (l : list A) : length (slice_last n l) = (length l `min` n)%nat.
Proof. unfold slice_last. rewrite length_drop. lia. Qed.
Lemma slice_init_snoc {A} (l : list A) x : slice_init (l ++ [x]) = l.
Proof. unfold slice_init. rewrite length_app. cbn. replace (length l + 1 - 1)%nat with (length l) by lia. by rewrite take_app_length. Qed.
Lemma slice_last_all {A} n (l : list A) : (length l <= n)%nat → slice_last n l = l.
Proof. intros H. unfold slice_last. replace (length l - n)%nat with 0%nat by lia. done. Qed.

Lemma push_keeps (P : WorkflowHistoryEntry → Prop) stack e : Forall P stack → P e → Forall P (pushWorkflowHistoryEntry stack e).
Proof. intros Hs He. apply Forall_forall. intros x Hx%slice_last_In. rewrite Forall_forall in Hs. apply elem_of_app in Hx as [Hx|Hx%list_elem_of_singleton]; [by apply Hs|by subst]. Qed.

Lemma last_split {A} (l : list A) x : last l = Some x → l = slice_init l ++ [x].
Proof. intros (l' & ->)%last_Some. by rewrite slice_init_snoc. Qed.

Lemma write_reads h now row row' : Forall entry_writable (hs_undo h ++ hs_redo h) → writeWorkflowBuilderHistory Number h now row = Ok row' →
  history_ok h ∧ loadWorkflowBuilderHistory Number row' = Ok h.
Proof using Number_int.
  intros [Hu Hr]%Forall_app H. unfold writeWorkflowBuilderHistory in H. destruct (_ || _); [done|]. apply bind_Ok in H as (undo & H1 & H). apply bind_Ok in H as (redo & H2 & H).
  apply (stack_written Number Number_int) in H1 as [-> Hu']; [|exact Hu]. apply (stack_written Number Number_int) in H2 as [-> Hr']; [|exact Hr].
  destruct row as [row|]; [|done]. injection H as <-. split; [done|]. unfold loadWorkflowBuilderHistory. cbn [or_throw mbind result_bind hw_undo_json hw_redo_json parseJson].
  rewrite !(stack_reads_stored Number Number_int) by done. by destruct h.
Qed.

Lemma written_history h now db db' row : Forall entry_writable (hs_undo h ++ hs_redo h) → writeWorkflowBuilderHistory Number h now (db_history db) = Ok row →
  Forall (known db') (hs_undo h ++ hs_redo h) → (length (hs_undo h) + length (hs_redo h) <= WORKFLOW_BUILDER_HISTORY_LIMIT)%nat → db_history db' = row → history_sound db' h.
Proof using Number_int. intros Hh H Hk Hn E. destruct (write_reads _ _ _ _ Hh H) as [Hok Hload]. split; [by rewrite E|done]. Qed.

Lemma history_writable h : history_ok h → Forall entry_writable (hs_undo h ++ hs_redo h).
Proof. intros [[Hu _] [Hr _]]. apply Forall_app. split; (eapply Forall_impl; [eassumption|apply entry_ok_writable]). Qed.

Lemma empty_history_ok : history_ok (mkHistory [] []).
Proof. split; split; cbn; try constructor; lia. Qed.

(** ** The graph of a revision *)

(** The graph an entry returns to. *)
Definition graph_of (db : RevisionTables) (revision : option string) : result jsval :=
  match revision with
  | None => Ok (graphJson EMPTY_WORKFLOW_GRAPH)
  | Some id => r ← getWorkflowRevisionById db id; r ← or_throw r "revision does not exist"; Ok (rv_graph r)
  end.

(** What an activation of [g] leaves. *)
Record advanced (db db' : RevisionTables) (r : WorkflowRevision) (g : WorkflowGraph) (w : CompiledWorkflow) : Prop := mkAdvanced {
  av_revisions : revisions_ok db';
  av_active : db_active db' = Some (rv_id r);
  av_graph : rv_graph r = graphJson g;
  av_valid : validateGraph localeCompare (graphJson g) = Ok g;
  av_base : rv_baseRevisionId r = db_active db;
  av_kept : ∀ id row, db_revisions db !! id = Some row → id ≠ rv_id r ∧ ∃ row', db_revisions db' !! id = Some row' ∧ same_definition row row';
  av_paths : ∀ id, id ≠ rv_id r → paths_of db' id = paths_of db id;
  av_reads : getWorkflowRevisionById db' (rv_id r) = Ok (Some (stored_revision r)) }.

Lemma advanced_known db db' r g w e : advanced db db' r g w → known db e → known db' e.
Proof. intros H He id Hi. destruct (He id Hi) as [row Hr]. destruct (av_kept _ _ _ _ _ H id row Hr) as (_ & row' & ? & _). by exists row'. Qed.

Lemma advanced_graph db db' r g w o : revisions_ok db → advanced db db' r g w → (∀ id, o = Some id → is_Some (db_revisions db !! id)) → graph_of db' o = graph_of db o.
Proof.
  intros Hdb H Ho. destruct o as [id|]; [|done]. destruct (Ho id eq_refl) as [row Hrow]. destruct (av_kept _ _ _ _ _ H id row Hrow) as (Hne & row' & Hrow' & Hs).
  destruct (so_intact _ Hdb id row Hrow) as (g1 & r1 & Hr1 & _). destruct (read_frame _ _ db db' id row row' r1 (av_paths _ _ _ _ _ H id Hne) Hs Hr1) as (r' & Hr' & Eg & _).
  unfold graph_of, WorkflowRevisions.getWorkflowRevisionById. rewrite Hrow, Hrow', Hr1, Hr'. cbn. by rewrite Eg.
Qed.

Lemma advanced_new db db' r g w : advanced db db' r g w → graph_of db' (db_active db') = Ok (graphJson g).
Proof. intros H. rewrite (av_active _ _ _ _ _ H). cbn [graph_of]. rewrite (av_reads _ _ _ _ _ H). cbn. by rewrite (av_graph _ _ _ _ _ H). Qed.

Lemma activated_advances tables db db1 db2 g w row actorId now r : store_ok db → validateGraph localeCompare (graphJson g) = Ok g →
  compile_graph tables db g = Ok (db1, w) → activate db1 (db_active db) g w actorId now = Ok (db2, r) →
  advanced db (set_history row db2) r g w ∧ db_history db2 = db_history db.
Proof using Hlocale Hhex Hsha Huuid Hid.
  intros Hdb Hg Hc H. unfold WorkflowRevisions.compile_graph in Hc. apply bind_Ok in Hc as (w' & Hw & [= <- <-]).
  pose proof (compiled_stores _ _ _ _ _ _ _ _ _ Hlocale Hsha Hg Hw) as Hok.
  destruct (activation_keeps _ _ _ _ _ _ _ (drawn_frame db (length (cw_paths w')) (sk_revisions _ Hdb)) Hg Hok H) as (K1 & K2 & K3 & K4 & K5 & K6 & K7 & K8).
  split; [|exact K5]. constructor; try done. by apply history_frame.
Qed.

(** ** Saving *)
Lemma assert_Ok (b : bool) (u : unit) msg : (if b then Ok tt else throw msg) = Ok u → b = true.
Proof. by destruct b. Qed.

Lemma conflict_Ok activeId base u : conflict_check activeId base = Ok u → activeId = base.
Proof. unfold conflict_check. by case_bool_decide. Qed.

Lemma active_entry_writable db label v now : revisions_ok db → workflowHistoryLabel v = Ok label → entry_writable (mkEntry (db_active db) label now).
Proof using Hid.
  intros Hdb Hl. constructor; cbn; [|by eapply label_again]. intros id Hi. destruct (so_active _ Hdb id) as [(row & Hr & _) _]; [done|].
  destruct (so_drawn _ Hdb id) as (n & _ & ->); [by eexists|]. apply Hid.
Qed.

Lemma active_known db label now : revisions_ok db → known db (mkEntry (db_active db) label now).
Proof. intros Hdb id Hi. destruct (so_active _ Hdb id) as [(row & Hr & _) _]; [done|]. by eexists. Qed.

Definition saved_history (input : SaveInput) (db : RevisionTables) (now : Z) (h h' : WorkflowHistoryState) : Prop :=
  match workflowHistoryMode (sv_history_mode input) with
  | Ok mode_record => ∃ label, workflowHistoryLabel (sv_history_label input) = Ok label ∧
      h' = mkHistory (pushWorkflowHistoryEntry (hs_undo h) (mkEntry (db_active db) label now)) []
  | Ok mode_reset => h' = mkHistory [] []
  | _ => h' = h
  end.

Lemma activeState_active db activeId paths : activeWorkflowState db = Ok (activeId, paths) → activeId = db_active db.
Proof. unfold activeWorkflowState. destruct (db_active db); [|by intros [= <- <-]]. intros (ps & _ & [= <- <-])%bind_Ok. done. Qed.

Lemma save_spec tables db input now db' r : store_ok db → saveWorkflowRevision tables db input now = Ok (db', r) →
  ∃ g w paths h h', validateGraph localeCompare (sv_graph input) = Ok g ∧ compileWorkflow Number sha256 compiles (λ n, uuid (db_drawn db + n)%nat) tables g = Ok w ∧
    advanced db db' r g w ∧ rv_paths r = sorted_paths localeCompare (rv_id r) now w ∧
    sv_baseRevisionId input = db_active db ∧ activeWorkflowState db = Ok (db_active db, paths) ∧
    assertWorkflowConfirmation (workflowImpact sha256 paths (cw_paths w) (cw_warnings w)) (sv_confirmation input) = Ok tt ∧
    history_sound db h ∧ history_sound db' h' ∧ saved_history input db now h h'.
Proof using Hlocale Hhex Hsha Number_int Huuid Hid.
  intros Hdb H. pose proof (sk_history _ Hdb) as (h & Hh). unfold WorkflowRevisions.saveWorkflowRevision in H. apply bind_Ok in H as (actorId & _ & H).
  apply bind_Ok in H as (mode & Hmode & H). case_bool_decide as Hm; [done|]. apply bind_Ok in H as (label & Hlabel & H). apply bind_Ok in H as (u & Ht & H).
  apply bind_Ok in H as (history & Hhist & H). apply bind_Ok in H as (g & Hg & H). apply bind_Ok in H as ([db1 w] & Hc & H). apply bind_Ok in H as ([activeId paths] & Hs & H).
  assert (activeWorkflowState db = Ok (activeId, paths)) as Hs'.
  { unfold WorkflowRevisions.compile_graph in Hc. apply bind_Ok in Hc as (w' & _ & [= <- _]). exact Hs. }
  pose proof (activeState_active _ _ _ Hs') as ->. apply bind_Ok in H as (u2 & Hbase%conflict_Ok & H). apply bind_Ok in H as ([] & Hconf & H).
  apply bind_Ok in H as ([db2 r2] & Hact & H). apply bind_Ok in H as (row & Hrow & [= <- <-]). destruct (validate_spec _ _ _ Hlocale Hg) as [_ Hg2].
  destruct (activated_advances tables db db1 db2 g w row actorId now r2 Hdb Hg2 Hc Hact) as [Hadv Hsame]. destruct Hh as (Hload & Hhok & Hknown & Hlen).
  assert (∀ e, known db e → known (set_history row db2) e) as Hk by (intros e; by eapply advanced_known).
  exists g, w, paths, h. unfold saved_history. rewrite Hmode.
  assert (∃ h', history_sound (set_history row db2) h' ∧ match mode with mode_record => ∃ label, workflowHistoryLabel (sv_history_label input) = Ok label ∧
      h' = mkHistory (pushWorkflowHistoryEntry (hs_undo h) (mkEntry (db_active db) label now)) [] | mode_reset => h' = mkHistory [] [] | _ => h' = h end) as (h' & Hh' & Hmatch).
  { assert (row = db_history db → history_sound (set_history row db2) h) as Hkeep.
    { intros ->. split; [exact Hload|]. split; [done|split; [|done]]. eapply Forall_impl; [exact Hknown|]. exact Hk. }
    destruct mode; cbn in Hlabel, Hhist, Hrow.
    - rewrite Hload in Hhist. apply fmap_Ok in Hlabel as (l & Hl & ->), Hhist as (h0 & [= <-] & ->). eexists. split; [|exists l; done].
      eapply written_history; [|exact Hrow| | |reflexivity]; cbn [hs_undo hs_redo].
      + pose proof (history_writable _ Hhok) as [Hw _]%Forall_app. rewrite app_nil_r. apply push_keeps; [exact Hw|]. eapply active_entry_writable; [apply Hdb|exact Hl].
      + rewrite app_nil_r. apply push_keeps; [|by apply Hk, active_known, Hdb]. apply Forall_app in Hknown as [Hknown _]. eapply Forall_impl; [exact Hknown|]. exact Hk.
      + unfold pushWorkflowHistoryEntry. rewrite slice_last_length. cbn. lia.
    - exfalso. apply Hm. by left. - exfalso. apply Hm. by right.
    - exists h. split; [|done]. apply Hkeep. injection Hrow as <-. exact Hsame.
    - eexists. split; [|reflexivity]. eapply written_history; [constructor|exact Hrow|constructor|cbn; lia|reflexivity]. }
  exists h'. unfold WorkflowRevisions.compile_graph in Hc. apply bind_Ok in Hc as (w' & Hw & [= <- <-]).
  split_and!; try done. destruct (activate_spec _ _ _ _ _ _ _ _ _ _ _ Hact) as (-> & _). done.
Qed.

(** ** Undo and redo *)
Lemma empty_valid : validateGraph localeCompare (graphJson EMPTY_WORKFLOW_GRAPH) = Ok EMPTY_WORKFLOW_GRAPH.
Proof. reflexivity. Qed.

Lemma target_spec tables db entry db1 target : revisions_ok db → known db entry → workflowHistoryTarget Number sha256 compiles localeCompare uuid tables db entry = Ok (db1, target) →
  graph_of db (he_revisionId entry) = Ok (graphJson (ht_graph target)) ∧ validateGraph localeCompare (graphJson (ht_graph target)) = Ok (ht_graph target) ∧
  compile_graph tables db (ht_graph target) = Ok (db1, ht_compiled target) ∧ ht_sourceRevisionId target = he_revisionId entry.
Proof.
  intros Hdb Hk H. unfold workflowHistoryTarget in H. destruct (he_revisionId entry) as [id|] eqn:Ei.
  - match type of H with try_catch ?x _ = _ => destruct x as [y|e] eqn:E in H; [|done] end. cbn in H. injection H as ->.
    apply bind_Ok in E as (source & Hs & E). apply bind_Ok in E as (source' & Ho & E). destruct source as [src|]; [|done]. injection Ho as <-.
    apply bind_Ok in E as (g & Hg & E). apply bind_Ok in E as ([db2 w] & Hc & [= <- <-]). cbn [ht_graph ht_compiled ht_sourceRevisionId].
    destruct (Hk id Ei) as [row Hrow]. destruct (so_intact _ Hdb id row Hrow) as (g1 & r1 & Hr1 & Eg & Hg1).
    unfold WorkflowRevisions.getWorkflowRevisionById in Hs. rewrite Hrow, Hr1 in Hs. injection Hs as <-. rewrite Eg, Hg1 in Hg. injection Hg as <-.
    split_and!; try done.
    + unfold graph_of, WorkflowRevisions.getWorkflowRevisionById. rewrite Hrow, Hr1. cbn. by rewrite Eg.
    + cbn. f_equal. unfold WorkflowRevisions.workflowRevisionFromRow in Hr1. ok_inv. done.
  - apply bind_Ok in H as ([db2 w] & Hc & [= <- <-]). done.
Qed.

Lemma last_stack_ok direction h e : history_ok h → last (stack_of direction h) = Some e → entry_ok e.
Proof.
  intros [[Hu _] [Hr _]] He. rewrite Forall_forall in Hu, Hr. destruct direction; cbn in He; apply last_Some_elem_of in He; [by apply Hu|by apply Hr].
Qed.

Lemma stack_known (P : WorkflowHistoryEntry → Prop) direction h : Forall P (hs_undo h ++ hs_redo h) → Forall P (stack_of direction h).
Proof. intros [H1 H2]%Forall_app. by destruct direction. Qed.

Lemma slice_init_Forall {A} (P : A → Prop) l : Forall P l → Forall P (slice_init l).
Proof. intros H. unfold slice_init. by apply Forall_take. Qed.

Lemma next_keeps (P : WorkflowHistoryEntry → Prop) direction h c : Forall P (hs_undo h ++ hs_redo h) → P c →
  Forall P (hs_undo (next_history direction h c) ++ hs_redo (next_history direction h c)).
Proof. intros [Pu Pr]%Forall_app Pc. apply Forall_app. destruct direction; split; (by apply slice_init_Forall) || (by apply push_keeps). Qed.

Lemma next_length direction h e c : last (stack_of direction h) = Some e → (length (hs_undo h) + length (hs_redo h) <= WORKFLOW_BUILDER_HISTORY_LIMIT)%nat →
  (length (hs_undo (next_history direction h c)) + length (hs_redo (next_history direction h c)) <= WORKFLOW_BUILDER_HISTORY_LIMIT)%nat.
Proof.
  intros He Hn. pose proof (f_equal length (last_split _ e He)) as Hlen. rewrite length_app in Hlen.
  destruct direction; cbn [next_history hs_undo hs_redo stack_of length] in *; unfold pushWorkflowHistoryEntry; rewrite slice_last_length, length_app; cbn [length]; lia.
Qed.

Lemma apply_spec tables db input now db' r status audit : store_ok db → applyWorkflowBuilderHistory tables db input now = Ok (db', (r, status, audit)) →
  ∃ direction entry g w paths h, workflowHistoryDirection (ay_direction input) = Ok direction ∧ history_sound db h ∧ last (stack_of direction h) = Some entry ∧
    graph_of db (he_revisionId entry) = Ok (graphJson g) ∧ compileWorkflow Number sha256 compiles (λ n, uuid (db_drawn db + n)%nat) tables g = Ok w ∧
    advanced db db' r g w ∧ rv_paths r = sorted_paths localeCompare (rv_id r) now w ∧ ay_baseRevisionId input = db_active db ∧
    activeWorkflowState db = Ok (db_active db, paths) ∧
    assertWorkflowConfirmation (workflowImpact sha256 paths (cw_paths w) (cw_warnings w)) (ay_confirmation input) = Ok tt ∧
    ha_impact audit = workflowImpact sha256 paths (cw_paths w) (cw_warnings w) ∧ ha_targetSourceRevisionId audit = he_revisionId entry ∧
    history_sound db' (next_history direction h (mkEntry (db_active db) (he_label entry) now)) ∧
    status = workflowHistoryStatus (next_history direction h (mkEntry (db_active db) (he_label entry) now)).
Proof using Hlocale Hhex Hsha Number_int Huuid Hid.
  intros Hdb H. pose proof (sk_history _ Hdb) as (h & Hh). unfold WorkflowRevisions.applyWorkflowBuilderHistory in H. apply bind_Ok in H as (direction & Hdir & H).
  apply bind_Ok in H as (actorId & _ & H). apply bind_Ok in H as (u & Ht & H). pose proof Hh as (Hload & Hhok & Hknown & Hlen). rewrite Hload in H. cbn [mbind result_bind] in H.
  apply bind_Ok in H as ([activeId paths] & Hs & H). pose proof (activeState_active _ _ _ Hs) as ->. apply bind_Ok in H as (u2 & Hbase%conflict_Ok & H).
  apply bind_Ok in H as (entry & He & H). unfold or_throw in He. destruct (last (stack_of direction h)) as [e|] eqn:Elast; [injection He as ->|done].
  apply bind_Ok in H as ([db1 target] & Htarget & H).
  assert (known db entry) as Hke. { pose proof (stack_known _ direction _ Hknown) as Hst. rewrite Forall_forall in Hst. apply Hst. by apply last_Some_elem_of. }
  destruct (target_spec _ _ _ _ _ (sk_revisions _ Hdb) Hke Htarget) as (Hgraph & Hg & Hc & Hsource). apply bind_Ok in H as ([] & Hconf & H).
  apply bind_Ok in H as ([db2 r2] & Hact & H). apply bind_Ok in H as (row & Hrow & [= <- <- <- <-]).
  destruct (activated_advances tables db db1 db2 _ _ row actorId now r2 Hdb Hg Hc Hact) as [Hadv Hsame].
  exists direction, entry, (ht_graph target), (ht_compiled target), paths, h.
  assert (Forall entry_writable (hs_undo (next_history direction h (mkEntry (db_active db) (he_label entry) now)) ++
    hs_redo (next_history direction h (mkEntry (db_active db) (he_label entry) now)))) as Hwritable.
  { apply next_keeps; [by apply history_writable|]. eapply active_entry_writable; [apply Hdb|]. apply (last_stack_ok direction h entry Hhok Elast). }
  pose proof Hc as Hc'. unfold WorkflowRevisions.compile_graph in Hc'. apply bind_Ok in Hc' as (w' & Hw & [= <- Ew]). rewrite Ew in *.
  split_and!; try done.
  - by destruct (activate_spec _ _ _ _ _ _ _ _ _ _ _ Hact) as (-> & _).
  - eapply written_history; [exact Hwritable|exact Hrow| |by eapply next_length|reflexivity].
    apply next_keeps; [|eapply advanced_known; [exact Hadv|apply active_known, Hdb]]. eapply Forall_impl; [exact Hknown|]. intros x. by eapply advanced_known.
Qed.

(** ** Every sequence of calls *)
Inductive Call :=
| call_save (tables : Tables) (input : SaveInput) (now : Z)
| call_apply (tables : Tables) (input : ApplyInput) (now : Z)
| call_clear (reason : jsval) (now : Z).

Definition perform (db : RevisionTables) (call : Call) : RevisionTables :=
  match call with
  | call_save tables input now => match saveWorkflowRevision tables db input now with Ok (db', _) => db' | Err _ => db end
  | call_apply tables input now => match applyWorkflowBuilderHistory tables db input now with Ok (db', _) => db' | Err _ => db end
  | call_clear reason now => match clearWorkflowBuilderHistory db reason now with Ok db' => db' | Err _ => db end
  end.

(** The tables after the migration that creates them. *)
Definition new_store (now : Z) : RevisionTables := mkDb ∅ [] None (Some (mkHistoryRow (column_json (JArray [])) (column_json (JArray [])) now)) 0.

Lemma new_store_ok now : store_ok (new_store now).
Proof.
  constructor.
  - assert (∀ id row, db_revisions (new_store now) !! id = Some row → False) as Hnone by (intros id row; cbn; by rewrite lookup_empty). constructor.
    + intros id row []%Hnone.
    + intros id [row []%Hnone].
    + intros row []%not_elem_of_nil.
    + intros id. split; [done|]. intros (row & []%Hnone & _).
    + done.
    + intros id id' row row' []%Hnone.
    + intros id id' row row' _ []%Hnone.
    + intros id row b []%Hnone.
  - exists (mkHistory [] []). split; [done|]. split; [apply empty_history_ok|]. split; [constructor|cbn; lia].
Qed.

Lemma clear_history_ok db reason now db' : store_ok db → clearWorkflowBuilderHistory db reason now = Ok db' → store_ok db'.
Proof using Number_int.
  intros Hdb H. unfold WorkflowRevisions.clearWorkflowBuilderHistory in H. apply bind_Ok in H as (u & _ & H). apply bind_Ok in H as (row & Hrow & [= <-]). constructor.
  - apply history_frame, Hdb.
  - exists (mkHistory [] []). eapply written_history; [constructor|exact Hrow|constructor|cbn; lia|reflexivity].
Qed.

Lemma perform_ok db call : store_ok db → store_ok (perform db call).
Proof using Hlocale Hhex Hsha Number_int Huuid Hid.
  intros Hdb. destruct call as [tables input now|tables input now|reason now]; cbn [perform].
  - destruct (saveWorkflowRevision tables db input now) as [[db' r]|] eqn:E; [|done].
    destruct (save_spec _ _ _ _ _ _ Hdb E) as (g & w & paths & h & h' & _ & _ & Hadv & _ & _ & _ & _ & _ & Hh' & _). constructor; [by eapply av_revisions|by exists h'].
  - destruct (applyWorkflowBuilderHistory tables db input now) as [[db' [[r st] au]]|] eqn:E; [|done].
    destruct (apply_spec _ _ _ _ _ _ _ _ Hdb E) as (d & e & g & w & paths & h & _ & _ & _ & _ & _ & Hadv & _ & _ & _ & _ & _ & _ & Hh' & _). constructor; [by eapply av_revisions|by eexists].
  - destruct (clearWorkflowBuilderHistory db reason now) as [db'|] eqn:E; [|done]. by eapply clear_history_ok.
Qed.

Lemma performed_ok now calls : store_ok (fold_left perform calls (new_store now)).
Proof using Hlocale Hhex Hsha Number_int Huuid Hid.
  enough (∀ db, store_ok db → store_ok (fold_left perform calls db)) as H by apply H, new_store_ok.
  induction calls as [|call calls IH]; intros db Hdb; cbn [fold_left]; [done|]. by apply IH, perform_ok.
Qed.

(** What a call leaves of a stored revision. *)
Definition same_content (r r' : WorkflowRevision) : Prop := rv_graph r' = rv_graph r ∧ rv_paths r' = rv_paths r ∧ rv_routeGroups r' = rv_routeGroups r.

Lemma advanced_keeps db db' r g w id row r0 : advanced db db' r g w → db_revisions db !! id = Some row → workflowRevisionFromRow db id row = Ok r0 →
  ∃ row' r', db_revisions db' !! id = Some row' ∧ same_definition row row' ∧ workflowRevisionFromRow db' id row' = Ok r' ∧ same_content r0 r'.
Proof.
  intros H Hrow Hr. destruct (av_kept _ _ _ _ _ H id row Hrow) as (Hne & row' & Hrow' & Hs).
  destruct (read_frame _ _ db db' id row row' r0 (av_paths _ _ _ _ _ H id Hne) Hs Hr) as (r' & Hr' & Hc). by exists row', r'.
Qed.

Lemma perform_keeps db call id row r : store_ok db → db_revisions db !! id = Some row → workflowRevisionFromRow db id row = Ok r →
  ∃ row' r', db_revisions (perform db call) !! id = Some row' ∧ same_definition row row' ∧ workflowRevisionFromRow (perform db call) id row' = Ok r' ∧ same_content r r'.
Proof using Hlocale Hhex Hsha Number_int Huuid Hid.
  intros Hdb Hrow Hr. assert (∃ row' r', db_revisions db !! id = Some row' ∧ same_definition row row' ∧ workflowRevisionFromRow db id row' = Ok r' ∧ same_content r r') as Hsame.
  { exists row, r. split; [done|]. split; [by repeat split|]. split; [done|by repeat split]. }
  destruct call as [tables input now|tables input now|reason now]; cbn [perform].
  - destruct (saveWorkflowRevision tables db input now) as [[db' r']|] eqn:E; [|done].
    destruct (save_spec _ _ _ _ _ _ Hdb E) as (g & w & paths & h & h' & _ & _ & Hadv & _). by eapply advanced_keeps.
  - destruct (applyWorkflowBuilderHistory tables db input now) as [[db' [[r' st] au]]|] eqn:E; [|done].
    destruct (apply_spec _ _ _ _ _ _ _ _ Hdb E) as (d & e & g & w & paths & h & _ & _ & _ & _ & _ & Hadv & _). by eapply advanced_keeps.
  - destruct (clearWorkflowBuilderHistory db reason now) as [db'|] eqn:E; [|done]. unfold WorkflowRevisions.clearWorkflowBuilderHistory in E.
    apply bind_Ok in E as (u & _ & E). apply bind_Ok in E as (row' & _ & [= <-]). exact Hsame.
Qed.

Lemma performs_keep calls db id row r : store_ok db → db_revisions db !! id = Some row → workflowRevisionFromRow db id row = Ok r →
  ∃ row' r', db_revisions (fold_left perform calls db) !! id = Some row' ∧ same_definition row row' ∧ workflowRevisionFromRow (fold_left perform calls db) id row' = Ok r' ∧ same_content r r'.
Proof using Hlocale Hhex Hsha Number_int Huuid Hid.
  revert db row r. induction calls as [|call calls IH]; intros db row r Hdb Hrow Hr; cbn [fold_left].
  - exists row, r. split; [done|]. split; [by repeat split|]. split; [done|by repeat split].
  - destruct (perform_keeps db call id row r Hdb Hrow Hr) as (row1 & r1 & H1 & (D1 & D2 & D3 & D4 & D5) & R1 & (C1 & C2 & C3)).
    destruct (IH _ _ _ (perform_ok db call Hdb) H1 R1) as (row2 & r2 & H2 & (E1 & E2 & E3 & E4 & E5) & R2 & (F1 & F2 & F3)).
    exists row2, r2. split; [done|]. split; [repeat split; congruence|]. split; [done|repeat split; congruence].
Qed.

(** ** Undo after redo *)
Lemma last_push stack e : last (pushWorkflowHistoryEntry stack e) = Some e.
Proof. unfold pushWorkflowHistoryEntry, slice_last. rewrite length_app. cbn [length]. rewrite drop_app_le by (unfold WORKFLOW_BUILDER_HISTORY_LIMIT; lia). apply last_snoc. Qed.

Lemma loads_once db h h' : history_sound db h → history_sound db h' → h' = h.
Proof. intros (H & _) (H' & _). congruence. Qed.

(** Going one way and back: the entries keep their labels, the last one names what was active. *)
Lemma there_and_back direction h e c c' : last (stack_of direction h) = Some e → (length (hs_undo h) + length (hs_redo h) <= WORKFLOW_BUILDER_HISTORY_LIMIT)%nat →
  he_label c' = he_label e → let back := match direction with direction_undo => direction_redo | direction_redo => direction_undo end in
  last (stack_of back (next_history direction h c)) = Some c ∧
  map he_label (hs_undo (next_history back (next_history direction h c) c')) = map he_label (hs_undo h) ∧
  map he_label (hs_redo (next_history back (next_history direction h c) c')) = map he_label (hs_redo h).
Proof.
  intros He Hn Hl back. pose proof (last_split _ _ He) as Hsplit. pose proof (f_equal length Hsplit) as Hlen. rewrite length_app in Hlen. cbn [length] in Hlen.
  assert (∀ (l : list WorkflowHistoryEntry) x, (length l < WORKFLOW_BUILDER_HISTORY_LIMIT)%nat → pushWorkflowHistoryEntry l x = l ++ [x]) as Hpush.
  { intros l x Hx. apply slice_last_all. rewrite length_app. cbn. lia. }
  destruct direction; cbn [back next_history hs_undo hs_redo stack_of] in *; subst back; cbn [next_history hs_undo hs_redo stack_of]; (split; [apply last_push|]).
  - rewrite (Hpush (hs_redo h)) by lia. rewrite slice_init_snoc, (Hpush (slice_init (hs_undo h))) by lia. split; [|done]. rewrite Hsplit at 2. rewrite !map_app. cbn [map]. by rewrite Hl.
  - rewrite (Hpush (hs_undo h)) by lia. rewrite slice_init_snoc, (Hpush (slice_init (hs_redo h))) by lia. split; [done|]. rewrite Hsplit at 2. rewrite !map_app. cbn [map]. by rewrite Hl.
Qed.

Lemma active_in_store db : revisions_ok db → ∀ id, db_active db = Some id → is_Some (db_revisions db !! id).
Proof. intros Hdb id Hi. destruct (so_active _ Hdb id) as [(row & Hr & _) _]; [done|]. by eexists. Qed.

(** ** Impact *)
Definition definitions (paths : list WorkflowExecutionPath) (identity : string) : option string := pathDefinition sha256 <$> map_get identity (by_identity paths).

Lemma by_identity_nodup paths : NoDup (map fst (by_identity paths)).
Proof.
  unfold by_identity. enough (∀ acc, NoDup (map fst acc) → NoDup (map fst (fold_left (λ acc path, map_set (pathIdentity path) path acc) paths acc))) as H by (apply H, NoDup_nil_2).
  induction paths as [|p paths IH]; intros acc Hacc; cbn [fold_left]; [done|]. by apply IH, map_set_nodup.
Qed.

Lemma filter_empty {A} (P : A → Prop) `{!∀ a, Decision (P a)} (l : list A) : (0 <? length (filter P l))%nat = false ↔ ∀ x, x ∈ l → ¬ P x.
Proof.
  rewrite Nat.ltb_ge. split.
  - intros Hn x Hx Px. assert (x ∈ filter P l) as Hin by (by apply list_elem_of_filter). destruct (filter P l); [by apply not_elem_of_nil in Hin|cbn in Hn; lia].
  - intros Hp. rewrite filter_none by done. cbn. lia.
Qed.

Lemma impact_exact current candidate warnings : im_destructive (workflowImpact sha256 current candidate warnings) = false ↔
  ∀ identity, definitions current identity = definitions (map draft candidate) identity.
Proof.
  unfold workflowImpact, definitions. cbn [im_destructive]. set (before := by_identity current). set (after := by_identity (map draft candidate)).
  pose proof (by_identity_nodup current : NoDup (map fst before)) as Hb. pose proof (by_identity_nodup (map draft candidate) : NoDup (map fst after)) as Ha.
  rewrite !orb_false_iff, !filter_empty. split.
  - intros [[Hadd Hchg] Hrem] i. destruct (map_get i after) as [p|] eqn:Ep.
    + pose proof (map_get_Some _ _ _ Ep) as Hin. specialize (Hadd _ Hin). specialize (Hchg _ Hin). cbn [fst] in Hadd. unfold redefined in Hchg. cbn [fst snd] in Hchg.
      destruct (map_get i before) as [q|]; [|done]. cbn. apply not_true_is_false, negb_false_iff, bool_decide_eq_true in Hchg. by rewrite Hchg.
    + destruct (map_get i before) as [q|] eqn:Eq; [|done]. exfalso. by apply (Hrem (i, q)); [apply map_get_Some|].
  - intros H. split_and!.
    + intros [i p] Hin E. cbn in E. specialize (H i). rewrite E, (map_get_In i p after Ha Hin) in H. done.
    + intros [i p] Hin E. unfold redefined in E. cbn in E. specialize (H i). rewrite (map_get_In i p after Ha Hin) in H. destruct (map_get i before) as [q|]; [|done].
      cbn in H. injection H as H. rewrite bool_decide_true in E by done. done.
    + intros [i q] Hin E. cbn in E. specialize (H i). rewrite E, (map_get_In i q before Hb Hin) in H. done.
Qed.

Lemma confirmation_given impact confirmation u : assertWorkflowConfirmation impact confirmation = Ok u → im_destructive impact = true → confirmation = Some WORKFLOW_IMPACT_CONFIRMATION.
Proof. unfold assertWorkflowConfirmation. intros H Hd. rewrite Hd in H. cbn [andb] in H. by destruct (bool_decide_reflect (confirmation = Some WORKFLOW_IMPACT_CONFIRMATION)). Qed.

(** ** Properties *)

(** The revisions of a workflow are never lost or damaged.  After any sequence
    of calls every stored revision passes its integrity check and has a graph
    that validates unchanged; the active revision is the one marked active, its
    number is the highest, numbers are unique, and a revision was saved over an
    earlier one; the undo and redo stacks are read, name stored revisions and
    hold at most five entries together; and a further call keeps every revision
    with its content. *)
Theorem revisions_stay_intact now calls : let db := fold_left perform calls (new_store now) in
  (∀ id row, db_revisions db !! id = Some row → ∃ g r, getWorkflowRevisionById db id = Ok (Some r) ∧ rv_graph r = graphJson g ∧
     validateGraph localeCompare (graphJson g) = Ok g ∧
     ∀ call, ∃ row' r', db_revisions (perform db call) !! id = Some row' ∧ same_definition row row' ∧ getWorkflowRevisionById (perform db call) id = Ok (Some r') ∧ same_content r r') ∧
  (∀ id, db_active db = Some id ↔ ∃ row, db_revisions db !! id = Some row ∧ rw_status row = revision_is_active) ∧
  (∀ id id' row row', db_active db = Some id → db_revisions db !! id = Some row → db_revisions db !! id' = Some row' → rw_revision row' <= rw_revision row) ∧
  (∀ id id' row row', db_revisions db !! id = Some row → db_revisions db !! id' = Some row' → rw_revision row = rw_revision row' → id = id') ∧
  (∀ id row b, db_revisions db !! id = Some row → rw_base_revision_id row = Some b → ∃ row', db_revisions db !! b = Some row' ∧ rw_revision row' < rw_revision row) ∧
  ∃ h, history_sound db h.
Proof using Hlocale Hhex Hsha Number_int Huuid Hid.
  intros db. pose proof (performed_ok now calls) as Hdb. fold db in Hdb. destruct (sk_revisions _ Hdb) as [H1 H2 H3 H4 H5 H6 H7 H8]. split_and!; try done; [|apply Hdb].
  intros id row Hrow. destruct (H1 id row Hrow) as (g & r & Hr & Eg & Hg). exists g, r. unfold WorkflowRevisions.getWorkflowRevisionById. rewrite Hrow, Hr. split_and!; try done.
  intros call. destruct (perform_keeps db call id row r Hdb Hrow Hr) as (row' & r' & Hrow' & Hs & Hr' & Hc). exists row', r'. by rewrite Hrow', Hr'.
Qed.

(** What is saved reads back.  A saved revision has the validated graph of the
    input and the paths that compile from it; it passes its integrity check as
    it is read, and after any later calls it still reads with the same graph,
    paths and route groups. *)
Theorem saved_revision_reads_back now calls tables input t db' r later : let db := fold_left perform calls (new_store now) in
  saveWorkflowRevision tables db input t = Ok (db', r) →
  (∃ g w, validateGraph localeCompare (sv_graph input) = Ok g ∧ compileWorkflow Number sha256 compiles (λ n, uuid (db_drawn db + n)%nat) tables g = Ok w ∧
     rv_graph r = graphJson g ∧ rv_paths r ≡ₚ map (executionPath (rv_id r) t) (cw_paths w)) ∧
  getWorkflowRevisionById db' (rv_id r) = Ok (Some (stored_revision r)) ∧
  ∃ r', getWorkflowRevisionById (fold_left perform later db') (rv_id r) = Ok (Some r') ∧ same_content (stored_revision r) r'.
Proof using Hlocale Hhex Hsha Number_int Huuid Hid.
  intros db H. pose proof (performed_ok now calls) as Hdb. fold db in Hdb.
  destruct (save_spec _ _ _ _ _ _ Hdb H) as (g & w & paths & h & h' & Hg & Hw & Hadv & Ep & _ & _ & _ & _ & Hh' & _). split_and!.
  - exists g, w. split_and!; [done|done|apply Hadv|]. rewrite Ep. unfold sorted_paths. by rewrite sort_with_Permutation.
  - apply Hadv.
  - pose proof (av_reads _ _ _ _ _ Hadv) as Hread. unfold WorkflowRevisions.getWorkflowRevisionById in *. destruct (db_revisions db' !! rv_id r) as [row|] eqn:Erow; [|done].
    apply fmap_Ok in Hread as (r0 & Hr0 & [= <-]).
    destruct (performs_keep later db' (rv_id r) row (stored_revision r)) as (row' & r' & Hrow' & _ & Hr' & Hc); [|done|done|].
    + constructor; [by eapply av_revisions|by exists h'].
    + exists r'. by rewrite Hrow', Hr'.
Qed.

(** Undo and redo are inverse.  Undoing a recorded save activates the graph
    that was active before it (the empty graph if there was none); going one way
    and back over the stacks restores the active graph, and both stacks with
    their labels. *)
Theorem undo_redo_restore now calls : let db := fold_left perform calls (new_store now) in
  (∀ tables input t db1 r1 tables' undo t' db2 answer, workflowHistoryMode (sv_history_mode input) = Ok mode_record → workflowHistoryDirection (ay_direction undo) = Ok direction_undo →
     saveWorkflowRevision tables db input t = Ok (db1, r1) → applyWorkflowBuilderHistory tables' db1 undo t' = Ok (db2, answer) →
     graph_of db2 (db_active db2) = graph_of db (db_active db)) ∧
  (∀ tables there t db1 answer1 tables' back t' db2 answer2 d d', workflowHistoryDirection (ay_direction there) = Ok d → workflowHistoryDirection (ay_direction back) = Ok d' → d ≠ d' →
     applyWorkflowBuilderHistory tables db there t = Ok (db1, answer1) → applyWorkflowBuilderHistory tables' db1 back t' = Ok (db2, answer2) →
     graph_of db2 (db_active db2) = graph_of db (db_active db) ∧
     ∃ h h2, history_sound db h ∧ history_sound db2 h2 ∧ map he_label (hs_undo h2) = map he_label (hs_undo h) ∧ map he_label (hs_redo h2) = map he_label (hs_redo h)).
Proof using Hlocale Hhex Hsha Number_int Huuid Hid.
  intros db. pose proof (performed_ok now calls) as Hdb. fold db in Hdb. pose proof (active_in_store db (sk_revisions _ Hdb)) as Hact. split.
  - intros tables input t db1 r1 tables' undo t' db2 [[r2 st] au] Hmode Hdir Hsave Happly.
    destruct (save_spec _ _ _ _ _ _ Hdb Hsave) as (g & w & paths & h & h' & _ & _ & Hadv & _ & _ & _ & _ & _ & Hh' & Hsaved).
    unfold saved_history in Hsaved. rewrite Hmode in Hsaved. destruct Hsaved as (label & _ & ->).
    assert (store_ok db1) as Hdb1 by (constructor; [by eapply av_revisions|by eexists]).
    destruct (apply_spec _ _ _ _ _ _ _ _ Hdb1 Happly) as (d & e & g2 & w2 & paths2 & h2 & Hd & Hh2 & He & Hgraph & _ & Hadv2 & _).
    rewrite Hdir in Hd. injection Hd as <-. rewrite (loads_once _ _ _ Hh' Hh2) in He. cbn [stack_of hs_undo] in He. rewrite last_push in He. injection He as <-.
    rewrite (advanced_new _ _ _ _ _ Hadv2), <-Hgraph. cbn [he_revisionId]. by eapply advanced_graph; [apply Hdb|exact Hadv|].
  - intros tables there t db1 [[r1 st1] au1] tables' back t' db2 [[r2 st2] au2] d d' Hd Hd' Hne H1 H2.
    destruct (apply_spec _ _ _ _ _ _ _ _ Hdb H1) as (d1 & e & g & w & paths & h & Hd1 & Hh & He & _ & _ & Hadv & _ & _ & _ & _ & _ & _ & Hh1 & _).
    rewrite Hd in Hd1. injection Hd1 as <-. assert (store_ok db1) as Hdb1 by (constructor; [by eapply av_revisions|by eexists]).
    destruct (apply_spec _ _ _ _ _ _ _ _ Hdb1 H2) as (d2 & e2 & g2 & w2 & paths2 & h2 & Hd2 & Hh2 & He2 & Hgraph & _ & Hadv2 & _ & _ & _ & _ & _ & _ & Hh3 & _).
    rewrite Hd' in Hd2. injection Hd2 as <-. rewrite (loads_once _ _ _ Hh1 Hh2) in He2, Hh3.
    assert (d' = match d with direction_undo => direction_redo | direction_redo => direction_undo end) as -> by (by destruct d, d').
    pose proof Hh as (_ & _ & _ & Hlen).
    destruct (there_and_back d h e (mkEntry (db_active db) (he_label e) t) (mkEntry (db_active db1) (he_label e2) t') He Hlen) as (Hlast & Hu & Hr).
    { cbn in He2 |- *. destruct (there_and_back d h e (mkEntry (db_active db) (he_label e) t) (mkEntry None (he_label e) t') He Hlen eq_refl) as (Hlast & _).
      rewrite Hlast in He2. injection He2 as <-. done. }
    rewrite Hlast in He2. injection He2 as <-. split.
    + rewrite (advanced_new _ _ _ _ _ Hadv2), <-Hgraph. cbn [he_revisionId]. by eapply advanced_graph; [apply Hdb|exact Hadv|].
    + by eexists h, _.
Qed.

(** No executable path changes unconfirmed.  A graph is saved only over the
    active revision the caller named; its impact is the one that was shown
    before ([previewWorkflowImpact]); the impact is destructive exactly when, for
    some channel, account and nodes, the path or its definition differs from the
    active one, and then the save needs the confirmation phrase. *)
Theorem activation_confirmed now calls tables input t db' r : let db := fold_left perform calls (new_store now) in
  saveWorkflowRevision tables db input t = Ok (db', r) →
  sv_baseRevisionId input = db_active db ∧ ∃ before w impact, activeWorkflowState db = Ok (db_active db, before) ∧
    rv_paths r ≡ₚ map (executionPath (rv_id r) t) (cw_paths w) ∧
    previewWorkflowImpact Number sha256 compiles localeCompare uuid tables db (db_active db) (sv_graph input) = Ok impact ∧
    (im_destructive impact = false ↔ ∀ identity, definitions before identity = definitions (map draft (cw_paths w)) identity) ∧
    (im_destructive impact = true → sv_confirmation input = Some WORKFLOW_IMPACT_CONFIRMATION).
Proof using Hlocale Hhex Hsha Number_int Huuid Hid.
  intros db H. pose proof (performed_ok now calls) as Hdb. fold db in Hdb.
  destruct (save_spec _ _ _ _ _ _ Hdb H) as (g & w & paths & h & h' & Hg & Hw & Hadv & Ep & Hbase & Hs & Hconf & _). split; [done|].
  exists paths, w, (workflowImpact sha256 paths (cw_paths w) (cw_warnings w)). split_and!; [done| | |apply impact_exact|by eapply confirmation_given].
  - rewrite Ep. unfold sorted_paths. by rewrite sort_with_Permutation.
  - unfold previewWorkflowImpact, WorkflowRevisions.compile_graph. rewrite Hg. cbn [mbind result_bind]. rewrite Hw. cbn [mbind result_bind db_active].
    unfold conflict_check. rewrite bool_decide_true by done. cbn [mbind result_bind]. 
    change (activeWorkflowState (mkDb (db_revisions db) (db_paths db) (db_active db) (db_history db) (db_drawn db + length (cw_paths w)))) with (activeWorkflowState db).
    by rewrite Hs.
Qed.
End Store.

(** ** Example

    Concrete functions meet the assumptions; a graph is saved and undone. *)
Definition sample_sha256 (text : string) : string :=
  if bool_decide (text = "") then "0" else if (String.length text <? 8)%nat then text else of_chars (show_chars (fold_left (λ h c, (31 * h + char_code c) mod 1000003) (chars text) 7)).
Lemma sample_sha256_ne text : sample_sha256 text ≠ "".
Proof.
  unfold sample_sha256. case_bool_decide; [done|]. destruct (_ <? 8)%nat; [done|]. intros E0%(f_equal chars). rewrite chars_of_chars in E0.
  apply (f_equal length) in E0. set (z := fold_left _ _ _) in E0. clearbody z. pose proof (bigint_show z) as Hz. destruct (show_chars z) eqn:E; [|done].
  cbn in Hz. subst z. discriminate E.
Qed.

Definition sample_order : string → string → Z := text_compare (λ s : string, s).

Lemma sample_uuid_inj : Inj (=) (=) sample_uuid.
Proof.
  intros n m H%(f_equal chars). unfold sample_uuid in H. rewrite !chars_of_chars in H. apply app_inv_head, (f_equal digits) in H.
  rewrite !digits_to_digits in H by lia. lia.
Qed.

Lemma sample_uuid_trim n : sample_uuid n ≠ "" ∧ trim (sample_uuid n) = sample_uuid n.
Proof.
  split; [by intros H%(f_equal chars)|]. apply trim_id. unfold sample_uuid. rewrite chars_of_chars. apply Forall_app. split; [by repeat constructor|].
  eapply Forall_impl; [apply to_digits_digits; lia|]. apply digit_not_space.
Qed.

Lemma sample_order_hex s t : (sample_order (sample_sha256 s) (sample_sha256 t) <? 0) = String.ltb (sample_sha256 s) (sample_sha256 t).
Proof. unfold sample_order, text_compare. by destruct (String.ltb _ _). Qed.

Definition sample_save : Call :=
  call_save sample_tables (mkSave None sample_input (JString "user") (Some WORKFLOW_IMPACT_CONFIRMATION) (JString "record") JUndefined) 2.
Definition sample_apply (direction base : string) : Call :=
  call_apply sample_tables (mkApply (JString direction) (Some base) (JString "user") (Some WORKFLOW_IMPACT_CONFIRMATION)) 3.
Definition sample_store (calls : list Call) : RevisionTables :=
  fold_left (perform sample_Number sample_sha256 (λ _, true) sample_order sample_uuid) calls (new_store 1).
Example sample_undone : (λ db, (db_active db, size (db_revisions db))) (sample_store [sample_save; sample_apply "undo" "path-4"]) = (Some "path-5", 2%nat).
Proof. vm_compute. reflexivity. Qed.

Example sample_intact now calls id row : db_revisions (fold_left (perform sample_Number sample_sha256 (λ _, true) sample_order sample_uuid) calls (new_store now)) !! id = Some row →
  ∃ r, getWorkflowRevisionById sample_Number sample_sha256 (fold_left (perform sample_Number sample_sha256 (λ _, true) sample_order sample_uuid) calls (new_store now)) id = Ok (Some r).
Proof.
  intros Hrow. destruct (revisions_stay_intact sample_Number sample_sha256 (λ _, true) sample_order sample_uuid (text_compare_consistent _) sample_order_hex
    sample_sha256_ne (λ _, eq_refl) sample_uuid_inj sample_uuid_trim now calls) as (H & _).
  destruct (H id row Hrow) as (_ & r & Hr & _). by exists r.
Qed.
